(* ===== verification/_CoqProject ===== *)
-Q . S2P
Prelude.v
PinSlab.v
Scheduler.v
SchedulerSafety.v
Ring.v
PairingHeap.v
Timer.v
LinkedList.v
IntrusiveQueue.v
Watched.v
SeqNumber.v
Buffer.v
Sga.v
SgaSafety.v
Net.v
TtlCache.v
Packet.v
Catnip.v
CatnipSafety.v
Arp.v
ArpSafety.v
Ports.v
SharedQueue.v
Udp.v
UdpSafety.v
TcpSegment.v
TcpMigSegment.v
Congestion.v
Rto.v
Profiler.v
Cubic.v
CtrlBlk.v
Wp.v
Stream.v
Receiving.v
Sending.v
Connection.v
CubicSafety.v
EndToEnd.v
Handshake.v
MigState.v
Migration.v
MigPeer.v
Stats.v
LoadBalance.v
TcpPeer.v
PeerTables.v
Icmp.v
IcmpSafety.v
InetStack.v
StackSafety.v
UdpDelivery.v
Demikernel.v
DemikernelSafety.v
Catnap.v
CatnapSafety.v
Catcollar.v
CatcollarSafety.v
HostMigration.v
Switch.v
Findings.v
