(* ===== verification/Prelude.v ===== *)
(** * Capybara: a verified model of a user-level network stack with live migration

    Capybara (src/src/rust) is a fork of the Demikernel library OS.  An application links it and
    drives a user-level network stack (inetstack) over a raw device; connections of a loaded host
    can be moved to another one while their clients keep talking to the same address.  This library
    translates that stack, from the C interface down to the buffers handed to the device, into
    executable definitions and proves what makes it correct.

    ** The program's parts and the files that model them

    A call of the C interface (demikernel/) reaches the stack (inetstack/mod.rs), which keeps the
    table of queue descriptors and starts a task of the scheduler for each operation; waiting for a
    token polls tasks, timers and the device.  A received frame is parsed and handed to the ARP,
    ICMPv4, UDP or TCP peer.  The TCP peer routes a segment by its endpoints to an established
    connection, a connecting socket or a listening socket.  A connection's control block keeps the
    sender and the receiver; three background coroutines (acknowledger, retransmitter, sender)
    transmit what the calls leave behind.  When the load statistics say so the TCPMig peer moves
    connections: it asks the other host (PREPARE_MIGRATION and its ACK), takes the connection out of
    the tables, serializes it, fragments it and sends it; the other host reassembles it, builds a
    connection from it, has the application accept it, and acknowledges.

    Foundations
    - [Prelude]: outcomes (a value, a panic, an endless loop), results with an errno, machine
      integers, bytes and their big-endian encodings, list and map lemmas, tactics.
    - [PinSlab], [Scheduler], [SchedulerSafety] (scheduler/): the pinned slab of tasks; waker pages
      in an addressed, reference-counted memory, wakers as pointers into them, handles, the poll (with
      a log of the tasks it runs) and the drop of the scheduler;
      and the system of tasks and owners that use them.
    - [Ring] (collections/ring.rs, raw_array.rs): the lock-free ring buffer, its operations as
      programs of atomic accesses, run by one thread or interleaved by two.  [PairingHeap], [LinkedList], [IntrusiveQueue] (collections/intrusive/): intrusive
      structures as nodes linked by addresses.  [Timer] and [Watched] (runtime/timer.rs, watched.rs): the futures
      built on them.
    - [Buffer], [Sga], [SgaSafety] (runtime/memory/, runtime/types/memory.rs, catpowder/runtime/):
      a shared buffer as a window on a byte array; then the heap of counted blocks such windows
      point into, and the scatter-gather arrays of the C interface.  The protocol files use the
      first, which forgets who shares a block.  [Catnip], [CatnipSafety] (catnip/runtime/): buffers
      of DPDK, the memory manager, transmission and reception.
    Protocols
    - [Net] (ethernet2/, ip/protocol.rs, ipv4/datagram.rs, udp/datagram/header.rs): addresses,
      headers, checksums.  [Packet] (runtime/network/): what a protocol hands to the device.
      [TtlCache] (inetstack/collections/hashttlcache/), [Arp], [ArpSafety] (arp/), [Ports]
      (ip/ephemeral.rs), [SharedQueue], [Udp], [UdpSafety] (udp/), [Icmp], [IcmpSafety] (icmpv4/).
    - [SeqNumber] (tcp/sequence_number.rs): wrapping 32-bit arithmetic and comparison.
      [TcpSegment] (tcp/segment.rs): the TCP header with its options.
      [TcpMigSegment] (tcpmig/segment/): migration messages, fragmenter and defragmenter.
    - [Congestion] (tcp/established/congestion_control): the trait as a class of operations with
      its laws (an invariant every operation keeps), and the instance [None].  [Cubic],
      [CubicSafety] (congestion_control/{cubic,options}.rs): Cubic in IEEE 754 single precision.
      [Rto] (tcp/established/rto.rs): the timeout estimator in double precision (both on the
      Standard Library's SpecFloat).
    - [CtrlBlk] (tcp/established/{ctrlblk,sender}.rs and background/): the control block.  Its
      operations are computations in a state monad whose effects are a trace; [Wp] is the
      total-correctness logic used to reason on them; [Stream] speaks of positions of a byte stream;
      [Receiving] and [Sending] hold the invariants of the two directions, [Connection] the
      connection as a state machine, [EndToEnd] two connections and the network between them.
    - [Handshake] (tcp/passive_open.rs, active_open.rs, isn_generator.rs,
      runtime/network/config/tcp.rs): listening and connecting sockets with their tasks.
    - [MigState] (the state modules of ctrlblk.rs, sender.rs and tcp/peer.rs): the serialized
      connection.  [Migration]: a connection continues from its serialized state.
      [MigPeer] (tcpmig/{peer,active,constants}.rs): the migration protocol.
    - [Stats] and [LoadBalance] (tcp/stats.rs): rolling averages, buckets, the choice of the
      connections to move.
    - [TcpPeer] (tcp/peer.rs, established/mod.rs, operations.rs, tcpmig/mod.rs): the socket tables
      and every call on them.  [PeerTables]: their invariant.  [HostMigration]: two hosts and a
      connection that moves between them.  [Switch]: the peer built as a software switch.
    The stack and its interface
    - [InetStack] (inetstack/mod.rs, protocols/peer.rs, the operation futures, runtime/queue/): the
      queue table, every call, the dispatch of frames, the waiting loops.  [StackSafety]: its
      invariant.  [UdpDelivery]: two stacks on a link.
    - [Demikernel] (catnip/{mod,interop}.rs, demikernel/, runtime/types/): the Catnip library OS,
      the two levels of dispatch to it (LibOS, NetworkLibOS), and the C calls with their pointers
      and byte orders.  [DemikernelSafety]: what a program sees through them.
    - [Catnap], [CatnapSafety] (catnap/, pal/linux/mod.rs): the library OS over the sockets of the
      operating system, with its futures, its waits and its buffers on the heap of [Sga].
      [Catcollar], [CatcollarSafety] (catcollar/): the requests of the library OS over io_uring, with
      the kernel's accesses to the memory of the program.
    - [Profiler] (perftools/profiler/): the tree of profiled scopes.
    - [Findings]: computed executions that show where the code departs from its intention; further
      ones stand as examples at the end of the component's own file.

    ** What the theorems show

    - Delivery: an application reads a prefix of what its peer wrote, whatever the network does;
      the end of the stream is reported only when all of it has arrived; no admissible event panics
      or loops (see the bounds below) ([EndToEnd], and [Connection] for one endpoint against any well-behaved peer).
    - Congestion: a connection with Cubic keeps all of this, however the floating-point functions
      of the platform round; a loss and its recovery move the windows as they should
      ([CubicSafety]).
    - Opening: the three-way handshake leads to an initial state of the above; a listening socket
      keeps its backlog as long as SYNs announce usable options; an unanswered connect gives up; a
      configuration is exactly what its assertions accept ([Handshake]).
    - Migration: the serialized state round-trips, messages reassemble in any order, a moved
      connection continues the same streams, and the composition of two peers' tables, protocol and
      serialization moves a connection from host to host ([MigState], [TcpMigSegment], [Migration],
      [MigPeer], [HostMigration]).
    - Tables: descriptors, connections, ports and statistics handles stay consistent, an event
      changes exactly the connection it is meant for, by the event's own operation ([PeerTables]), UDP sockets and
      queries are sound under any traffic ([UdpSafety], [ArpSafety]), and the stack's descriptors
      agree with the peers' ([StackSafety]).
    - Tasks: the scheduler uses no freed page, frees a page when its last reference is gone and
      loses no wake-up; timers, watched values, the
      pairing heap, the slab, the ring buffer (of one thread) and the intrusive queue refine deadlines,
      queues, multisets, maps, bounded queues and lists.
    - Memory: blocks live exactly while they are held, arrays show the bytes of their block, and the
      device is handed exactly the packet ([SgaSafety], [CatnipSafety]); with Catnap the tables agree,
      every block is counted and every call returns whatever the system answers, but for the
      refusals the code unwraps ([CatnapSafety]); the requests of Catcollar do not touch released
      memory with a kernel that does more than io_uring promises (it reads what is sent at once and
      the ring never fails), and examples show that they do without ([CatcollarSafety]).
    - From call to call: a datagram pushed through the C interface of one host is the one a pop
      of the other returns ([UdpDelivery], [DemikernelSafety]); a ping is answered ([IcmpSafety]).
    - The profiler reports exactly the visits of each path of scopes ([Profiler]).
    - Wire formats round-trip with their checksums; the timeout stays in its bounds; the statistics
      are the averages they stand for and the selection is the one the thresholds call for.

    ** Modelling decisions and bounds

    - Arithmetic is that of a release build: it wraps at its width, debug assertions are not
      executed.  A panic is the value [Panic], a loop that cannot end is [Diverge].  An access the
      language leaves undefined (a dangling pointer, a freed page or node, an uninitialized slot) is
      a [Panic] too, so that a theorem that an operation returns also excludes it.
    - The feature tcp-migration is on; server-reply-analysis and manual-tcp-migration are off;
      capybara-switch is on in [Switch] and in the switch's part of [InetStack] only.  [Demikernel]
      is a build with catnip-libos alone, on a little-endian machine, called with valid or null
      pointers.
    - Fuel: the loops that are not structural run with a bound computed from their input and proved
      sufficient: the out-of-order store's passes and the statistics poll with length + 1,
      collecting fragments with length + 2, the growth of waker pages with key / 64 + 1, the pairing
      heap's passes and the profiler's report with the number of nodes, advancing the clock with the heap's size + 1, making
      room in a UDP queue with its messages, the poll of background tasks with 2 * length + 2.  A
      waiting loop runs over a list of turns of the world, which is its input: it has no result when
      the list ends first.
    - The clock and the ARP answer are constant within a call.  A background sender turn that must
      wait for an ARP answer is taken again from its top; handshake tasks take the answer as input.
    - Parameters (code outside the repository): crc32, the random shuffle (a permutation), the
      nonce, the application's state serialization; the classes [Allocator], [BitIter], [Mpsc],
      [Unbounded], [Slab], [Dpdk], [Posix] and [Uring] with their laws, each with an instance; cbrt and powi
      of single-precision floats ([F32Functions], about which nothing is assumed); the order in which
      select! polls its branches; what a task does when polled; environment variables and the
      result of reading the configuration are arguments.
    - A HashMap is a [gmap]; an [Rc] that is shared and mutated is an address in a store
      (statistics handles); wakers of the TCP model are booleans; a coroutine is a definition per
      turn; in [InetStack] and [Catnap] the tasks a poll runs, what the device receives and the time
      are inputs.
      Instants are unbounded.  The theorem on two threads of the ring buffer assumes sequentially
      consistent memory, an idealisation of the Relaxed accesses of the code (an example shows what
      may happen without).
    - The scheduler's theorems bound the handles and wakers alive by 2^60 and the slab's keys by
      2^63, the memory's arrays are smaller than 4 GiB.  A task may use the scheduler while it is polled
      (insert, take, wake, drop) but not poll it; one that takes itself out is a use after free.
    - The UDP theorems hold for any CORE_ID, with no socket bound to its port by number; the load
      statistics name the load that enabling a marked handle counts twice.
    - The end-to-end theorems bound each written stream by 2^31 - 6 bytes (less than half the
      sequence space, so a number names one position), the windows by 2^30 and a single write by
      2^30 bytes; a close is taken when at most 1024 buffers wait, a window probe when its buffer
      has two bytes: [Findings] shows what happens otherwise.
    - The migration theorems take an established connection that has not closed.  Messages arrive
      with the addresses they were sent with (the P4 switch rewrites them).

    ** Not modelled

    The calls of Catcollar around its requests (the text of Catnap's), the raw sockets of Catpowder,
    the initialization of DPDK and its flow rules, reading configuration files, logging, the shared
    memory of the platform layer, the example applications and the P4 programs. *)

From stdpp Require Export base tactics list numbers strings gmap.
From Stdlib Require Export ZArith Lia.
#[global] Open Scope Z_scope.

(** ** Outcomes: a Rust computation returns, panics, or loops for ever *)

Inductive outcome (A : Type) : Type :=
| Ret (a : A)
| Panic (msg : string)
| Diverge.
Arguments Ret {A} a.
Arguments Panic {A} msg.
Arguments Diverge {A}.

#[export] Instance outcome_ret : MRet outcome := fun A => @Ret A.
#[export] Instance outcome_bind : MBind outcome := fun A B f m =>
  match m with
  | Ret a => f a
  | Panic msg => Panic msg
  | Diverge => Diverge
  end.

Lemma bind_ret {A B} (m : outcome A) (f : A -> outcome B) b :
  (m ≫= f) = Ret b -> exists a, m = Ret a /\ f a = Ret b.
Proof. destruct m as [a| |]; try done. by exists a. Qed.

(** A failure of the runtime (src/src/rust/runtime/fail.rs) and Rust's [Result]. *)
Record Fail := mkFail { errno : Z; cause : string }.

Inductive Result (A : Type) : Type :=
| Ok (a : A)
| Err (e : Fail).
Arguments Ok {A} a.
Arguments Err {A} e.

#[export] Instance result_ret : MRet Result := fun A => @Ok A.
#[export] Instance result_bind : MBind Result := fun A B f m =>
  match m with
  | Ok a => f a
  | Err e => Err e
  end.

(** A fallible computation that may also panic, and Rust's [?] operator on it. *)
Definition fail {A} (errno : Z) (cause : string) : outcome (Result A) :=
  Ret (Err (mkFail errno cause)).

Definition try_bind {A B} (m : outcome (Result A)) (k : A -> outcome (Result B)) :
  outcome (Result B) :=
  r ← m;
  match r with
  | Ok a => k a
  | Err e => Ret (Err e)
  end.

Notation "x ←? m ; k" := (try_bind m (fun x => k))
  (at level 20, m at level 100, k at level 200, only parsing) : stdpp_scope.
Notation "' x ←? m ; k" := (try_bind m (fun x' => match x' with x => k end))
  (at level 20, x pattern, m at level 100, k at level 200, only parsing) : stdpp_scope.

(** The errno values of libc (Linux) the stack uses. *)
Definition ENOENT : Z := 2.
Definition EIO : Z := 5.
Definition EBADF : Z := 9.
Definition EAGAIN : Z := 11.
Definition EBUSY : Z := 16.
Definition EINVAL : Z := 22.
Definition EBADMSG : Z := 74.
Definition EDESTADDRREQ : Z := 89.
Definition EOPNOTSUPP : Z := 95.
Definition ENOTSUP : Z := 95.
Definition EADDRINUSE : Z := 98.
Definition EISCONN : Z := 106.
Definition ENOTCONN : Z := 107.
Definition ETIMEDOUT : Z := 110.
Definition ECONNREFUSED : Z := 111.
Definition EALREADY : Z := 114.
Definition EINPROGRESS : Z := 115.

(** ** Machine integers

    A w-bit unsigned integer is a [Z] in [0, 2^w); arithmetic wraps, as in the
    release profile of Cargo.toml (overflow-checks = false). *)

Definition wrap8 (z : Z) : Z := z mod 2^8.
Definition wrap16 (z : Z) : Z := z mod 2^16.
Definition wrap32 (z : Z) : Z := z mod 2^32.
Definition wrap64 (z : Z) : Z := z mod 2^64.

Definition u8_ok (z : Z) : Prop := 0 <= z < 2^8.
Definition u16_ok (z : Z) : Prop := 0 <= z < 2^16.
Definition u32_ok (z : Z) : Prop := 0 <= z < 2^32.

(** [u32 as i32]. *)
Definition as_i32 (z : Z) : Z := if z <? 2^31 then z else z - 2^32.

Definition U32_MAX : Z := 2^32 - 1.
Definition U16_MAX : Z := 2^16 - 1.

(** ** Byte slices

    A byte is a [Z] in [0, 256), a [&[u8]] a list of bytes. *)

Definition blen {A} (l : list A) : Z := Z.of_nat (length l).

Definition bytes_ok (l : list Z) : Prop := Forall u8_ok l.

(** [buf[i]] *)
Definition index (buf : list Z) (i : nat) : outcome Z :=
  match buf !! i with
  | Some b => Ret b
  | None => Panic "index out of bounds"
  end.

(** [&buf[i..j]] *)
Definition slice (buf : list Z) (i j : nat) : outcome (list Z) :=
  if (Nat.leb i j && Nat.leb j (length buf))%bool
  then Ret (take (j - i) (drop i buf))
  else Panic "slice index out of range".

(** [&buf[i..]] *)
Definition slice_from (buf : list Z) (i : nat) : outcome (list Z) :=
  if Nat.leb i (length buf) then Ret (drop i buf)
  else Panic "slice index out of range".

(** [buf[i..i + src.len()].copy_from_slice(src)], also byteorder's [write_u16] and
    [write_u32] once their argument is encoded. *)
Definition write_at (buf : list Z) (i : nat) (src : list Z) : outcome (list Z) :=
  if Nat.leb (i + length src) (length buf)
  then Ret (take i buf ++ src ++ drop (i + length src) buf)
  else Panic "slice index out of range".

(** ** Network byte order (byteorder's [NetworkEndian], [to_be_bytes]) *)

Definition be16 (z : Z) : list Z := [z / 2^8 mod 2^8; z mod 2^8].
Definition be32 (z : Z) : list Z :=
  [z / 2^24 mod 2^8; z / 2^16 mod 2^8; z / 2^8 mod 2^8; z mod 2^8].

Definition get16 (l : list Z) : Z :=
  match l with
  | a :: b :: _ => a * 2^8 + b
  | _ => 0
  end.
Definition get32 (l : list Z) : Z :=
  match l with
  | a :: b :: c :: d :: _ => a * 2^24 + b * 2^16 + c * 2^8 + d
  | _ => 0
  end.

(** [NetworkEndian::read_u16(&buf[i..i + 2])] and [read_u32(&buf[i..i + 4])]. *)
Definition read_u16 (buf : list Z) (i : nat) : outcome Z :=
  s ← slice buf i (i + 2); Ret (get16 s).
Definition read_u32 (buf : list Z) (i : nat) : outcome Z :=
  s ← slice buf i (i + 4); Ret (get32 s).

(** [b & (1 << k) != 0]. *)
Definition bit_set (b k : Z) : bool := negb (Z.land b (Z.shiftl 1 k) =? 0).

(** ** Lemmas *)

Lemma lor_shiftl_add a b n : 0 <= n -> 0 <= b < 2^n -> Z.lor (Z.shiftl a n) b = a * 2^n + b.
Proof.
  intros Hn Hb. rewrite Z.shiftl_mul_pow2 by lia.
  assert (Hd : Z.land (a * 2^n) b = 0).
  { destruct (Z.eq_dec b 0) as [->|]; [apply Z.land_0_r|].
    apply Z.bits_inj'. intros i Hi. rewrite Z.land_spec, Z.bits_0.
    destruct (Z.ltb_spec i n); [by rewrite Z.mul_pow2_bits_low|].
    rewrite (Z.bits_above_log2 b), andb_false_r; [done|lia|].
    apply Z.log2_lt_pow2; [lia|]. apply Z.lt_le_trans with (2^n); [lia|].
    by apply Z.pow_le_mono_r; lia. }
  rewrite <- Z.lxor_lor by done. symmetry. by apply Z.add_nocarry_lxor.
Qed.

Lemma land_ones_mod a m n : 0 <= n -> m = 2^n - 1 -> Z.land a m = a mod 2^n.
Proof.
  intros Hn ->. replace (2^n - 1) with (Z.ones n) by (rewrite Z.ones_equiv; lia).
  by apply Z.land_ones.
Qed.

Lemma shiftr_div a n : 0 <= n -> Z.shiftr a n = a / 2^n.
Proof. apply Z.shiftr_div_pow2. Qed.

Lemma be16_get16 z : u16_ok z -> get16 (be16 z) = z.
Proof. unfold u16_ok, be16, get16. intros. Z.div_mod_to_equations. lia. Qed.

Lemma be32_get32 z : u32_ok z -> get32 (be32 z) = z.
Proof. unfold u32_ok, be32, get32. intros. Z.div_mod_to_equations. lia. Qed.

Lemma be16_ok z : bytes_ok (be16 z).
Proof.
  unfold bytes_ok, be16, u8_ok.
  repeat constructor; apply Z.mod_pos_bound; lia.
Qed.

Lemma be32_ok z : bytes_ok (be32 z).
Proof.
  unfold bytes_ok, be32, u8_ok.
  repeat constructor; apply Z.mod_pos_bound; lia.
Qed.

Lemma wrap32_ok z : u32_ok (wrap32 z).
Proof. unfold u32_ok, wrap32. apply Z.mod_pos_bound. lia. Qed.

Lemma wrap32_small z : u32_ok z -> wrap32 z = z.
Proof. unfold u32_ok, wrap32. intros. by apply Z.mod_small. Qed.

Lemma wrap32_add_l a b : wrap32 (wrap32 a + b) = wrap32 (a + b).
Proof. unfold wrap32. apply Zplus_mod_idemp_l. Qed.

Lemma wrap32_add_r a b : wrap32 (a + wrap32 b) = wrap32 (a + b).
Proof. unfold wrap32. apply Zplus_mod_idemp_r. Qed.

Lemma wrap32_sub_l a b : wrap32 (wrap32 a - b) = wrap32 (a - b).
Proof. unfold wrap32. apply Zminus_mod_idemp_l. Qed.

Lemma wrap32_sub_r a b : wrap32 (a - wrap32 b) = wrap32 (a - b).
Proof. unfold wrap32. apply Zminus_mod_idemp_r. Qed.

Lemma wrap32_wrap32 a : wrap32 (wrap32 a) = wrap32 a.
Proof. apply wrap32_small, wrap32_ok. Qed.

(** Destruct a list of known length into its elements. *)
Ltac explode l H :=
  repeat (destruct l as [|? l]; [discriminate H|]; apply eq_add_S in H);
  destruct l; [clear H|discriminate H].

(** Run reads and writes at literal positions of a list whose cells are known, leaving the
    arithmetic of the cells alone. *)
Ltac run_bytes :=
  cbn
    [mbind outcome_bind mret outcome_ret try_bind index slice slice_from write_at read_u16 read_u32
     get16 get32 be16 be32 lookup list_lookup take drop app length
     Nat.leb Nat.eqb Nat.add Nat.sub andb negb fst snd].

Lemma be16_get16' z : u16_ok z -> z / 2^8 mod 2^8 * 2^8 + z mod 2^8 = z.
Proof. apply be16_get16. Qed.

Lemma be32_get32' z : u32_ok z ->
  z / 2^24 mod 2^8 * 2^24 + z / 2^16 mod 2^8 * 2^16 + z / 2^8 mod 2^8 * 2^8 + z mod 2^8 = z.
Proof. apply be32_get32. Qed.

Lemma wrap16_ok z : u16_ok (wrap16 z).
Proof. unfold u16_ok, wrap16. apply Z.mod_pos_bound. lia. Qed.

Lemma wrap16_small z : u16_ok z -> wrap16 z = z.
Proof. unfold u16_ok, wrap16. intros. by apply Z.mod_small. Qed.

Lemma wrap8_small z : u8_ok z -> wrap8 z = z.
Proof. unfold u8_ok, wrap8. intros. by apply Z.mod_small. Qed.

Lemma blen_app {A} (l k : list A) : blen (l ++ k) = blen l + blen k.
Proof. unfold blen. rewrite length_app. lia. Qed.

Lemma blen_cons {A} (x : A) l : blen (x :: l) = 1 + blen l.
Proof. unfold blen. simpl. lia. Qed.

Lemma blen_nonneg {A} (l : list A) : 0 <= blen l.
Proof. unfold blen. lia. Qed.

Lemma blen_pos_ne {A} (l : list A) : 0 < blen l -> l <> [].
Proof. by intros H ->. Qed.

Lemma blen_ne_pos {A} (l : list A) : l <> [] -> 0 < blen l.
Proof. destruct l; [done|]. rewrite blen_cons. pose proof (blen_nonneg l). lia. Qed.

Lemma write_at_mid pre old post src i :
  i = length pre -> length src = length old ->
  write_at (pre ++ old ++ post) i src = Ret (pre ++ src ++ post).
Proof.
  intros -> Hl. unfold write_at.
  rewrite (proj2 (Nat.leb_le _ _)) by (rewrite !length_app; lia).
  rewrite take_app_length, Hl, (app_assoc pre old post), drop_app_length' by (rewrite length_app; lia).
  done.
Qed.

Create HintDb capy.
Create Rewrite HintDb capy.
#[export] Hint Rewrite wrap32_add_l wrap32_add_r wrap32_sub_l wrap32_sub_r wrap32_wrap32 : capy.
#[export] Hint Resolve wrap32_ok be16_ok be32_ok : capy.
