(* ===== verification/PinSlab.v ===== *)
(** * The pinned slab
    (src/src/rust/scheduler/pin_slab.rs)

    The storage of the scheduler's tasks: slots of doubling size that never move, entries that are
    reused through a free list threaded through the vacant ones.  A slot, which the code keeps as a
    raw pointer, is the list of its entries; a read or write outside it, undefined in the code, is
    a panic of the model.  The slab is shown to implement a finite map whose fresh keys it
    chooses. *)

From S2P Require Import Prelude.

Module PinSlab.

(** The first slot holds 16 entries; its key bits are ignored by [calculate_key]. *)
Definition FIRST_SLOT_SIZE : Z := 16.

(** [usize::leading_zeros]. *)
Definition leading_zeros (key : Z) : Z := if key =? 0 then 64 else 63 - Z.log2 key.

Definition FIRST_SLOT_MASK : Z := 8 * 8 - leading_zeros FIRST_SLOT_SIZE - 1.

Inductive Entry (T : Type) : Type :=
| Entry_None
| Vacant (next : Z)
| Occupied (val : T).
Arguments Entry_None {T}.
Arguments Vacant {T} next.
Arguments Occupied {T} val.

Record PinSlab (T : Type) : Type := mk {
  slots : list (list (Entry T));
  len : Z;
  next : Z;
}.
Arguments mk {T} slots len next.
Arguments slots {T} p.
Arguments len {T} p.
Arguments next {T} p.

(** The key as a slot, an offset in it and the slot's size. *)
Definition calculate_key (key : Z) : option (Z * Z * Z) :=
  if 2^63 <=? key then None
  else
    let slot := Z.max 0 (64 - leading_zeros key - FIRST_SLOT_MASK) in
    let '(start, end_) :=
      if key <? FIRST_SLOT_SIZE then (0, FIRST_SLOT_SIZE)
      else (wrap64 (Z.shiftl FIRST_SLOT_SIZE (slot - 1)), wrap64 (Z.shiftl FIRST_SLOT_SIZE slot)) in
    Some (slot, key - start, end_ - start).

(** The [n]-th element of the iterator of slot sizes. *)
Definition slot_sizes (n : Z) : Z :=
  if n <=? 1 then FIRST_SLOT_SIZE else wrap64 (Z.shiftl FIRST_SLOT_SIZE (n - 1)).

(** [*ptr.add(offset)], read and written. *)
Definition deref {T} (mem : list (Entry T)) (offset : Z) : outcome (Entry T) :=
  match mem !! Z.to_nat offset with
  | Some e => Ret e
  | None => Panic "out of bounds access"
  end.

Definition write {T} (mem : list (Entry T)) (offset : Z) (e : Entry T) : outcome (list (Entry T)) :=
  if bool_decide (Z.to_nat offset < length mem)%nat
  then Ret (<[Z.to_nat offset := e]> mem)
  else Panic "out of bounds access".

Section operations.
Context {T : Type}.
Implicit Types self : PinSlab T.

Definition new : PinSlab T := mk [] 0 0.

Definition new_slot (len : Z) : list (Entry T) := replicate (Z.to_nat len) Entry_None.

Definition insert_at self (key : Z) (val : T) : outcome (option (PinSlab T)) :=
  match calculate_key key with
  | None => Ret None
  | Some (slot, offset, len_) =>
      match slots self !! Z.to_nat slot with
      | Some mem =>
          entry ← deref mem offset;
          next_ ← match entry with
                  | Entry_None => Ret (wrap64 (key + 1))
                  | Vacant next_ => Ret next_
                  | Occupied _ => Panic "entered unreachable code"
                  end;
          mem ← write mem offset (Occupied val);
          Ret (Some (mk (<[Z.to_nat slot := mem]> (slots self)) (wrap64 (len self + 1)) next_))
      | None =>
          mem ← write (new_slot len_) 0 (Occupied val);
          Ret (Some (mk (slots self ++ [mem]) (wrap64 (len self + 1)) (wrap64 (key + 1))))
      end
  end.

Definition insert self (val : T) : outcome (option (Z * PinSlab T)) :=
  let key := next self in
  r ← insert_at self key val;
  Ret (self ← r; Some (key, self)).

Definition internal_get self (key : Z) : outcome (option T) :=
  match calculate_key key with
  | None => Ret None
  | Some (slot, offset, _) =>
      match slots self !! Z.to_nat slot with
      | None => Ret None
      | Some mem =>
          entry ← deref mem offset;
          Ret match entry with Occupied v => Some v | _ => None end
      end
  end.

Definition get self (key : Z) : outcome (option T) := internal_get self key.

(** The mutable reference is what it reads, and the slab after a write through it. *)
Definition get_pin_mut self (key : Z) : outcome (option (T * (T -> PinSlab T))) :=
  match calculate_key key with
  | None => Ret None
  | Some (slot, offset, _) =>
      match slots self !! Z.to_nat slot with
      | None => Ret None
      | Some mem =>
          entry ← deref mem offset;
          Ret match entry with
              | Occupied v =>
                  Some (v, fun v' => mk (<[Z.to_nat slot := <[Z.to_nat offset := Occupied v']> mem]> (slots self))
                                       (len self) (next self))
              | _ => None
              end
      end
  end.

(** The dropped value is returned with the result, since dropping it may have effects. *)
Definition remove self (key : Z) : outcome (option bool * option T * PinSlab T) :=
  match calculate_key key with
  | None => Ret (None, None, self)
  | Some (slot, offset, _) =>
      match slots self !! Z.to_nat slot with
      | None => Ret (Some false, None, self)
      | Some mem =>
          entry ← deref mem offset;
          match entry with
          | Occupied v =>
              mem ← write mem offset (Vacant (next self));
              Ret (Some true, Some v, mk (<[Z.to_nat slot := mem]> (slots self)) (wrap64 (len self - 1)) key)
          | _ => Ret (Some false, None, self)
          end
      end
  end.

Definition remove_unpin self (key : Z) : outcome (option T * PinSlab T) :=
  match calculate_key key with
  | None => Ret (None, self)
  | Some (slot, offset, _) =>
      match slots self !! Z.to_nat slot with
      | None => Ret (None, self)
      | Some mem =>
          entry ← deref mem offset;
          match entry with
          | Occupied v =>
              mem ← write mem offset (Vacant (next self));
              Ret (Some v, mk (<[Z.to_nat slot := mem]> (slots self)) (wrap64 (len self - 1)) key)
          | _ => Ret (None, self)
          end
      end
  end.

(** The slots are given back to the allocator with the sizes of [slot_sizes], which must be the
    ones they were allocated with. *)
Fixpoint free_slots (n : Z) (l : list (list (Entry T))) : outcome () :=
  match l with
  | [] => Ret ()
  | mem :: l =>
      if blen mem =? slot_sizes n then free_slots (n + 1) l
      else Panic "deallocation with a wrong layout"
  end.

Definition clear self : outcome (PinSlab T) :=
  free_slots 0 (slots self) ≫= fun _ => Ret (mk [] (len self) (next self)).

End operations.

(** ** Keys and slots *)

(** First key and size of a slot. *)
Definition base (n : nat) : nat := match n with O => 0 | S n => 16 * 2 ^ n end.
Definition size_of (n : nat) : nat := match n with O => 16 | S n => 16 * 2 ^ n end.

Lemma base_S n : base (S n) = (base n + size_of n)%nat.
Proof. destruct n; cbn [base size_of Nat.pow]; lia. Qed.

Lemma size_of_pos n : (0 < size_of n)%nat.
Proof. destruct n; cbn [size_of]; [lia|]. pose proof (Nat.pow_nonzero 2 n). lia. Qed.

Lemma base_le n n' : (n <= n')%nat -> (base n <= base n')%nat.
Proof. induction 1 as [|n' _ IH]; [done|]. rewrite base_S. lia. Qed.

Lemma slot_sizes_size_of n : (n < 60)%nat -> slot_sizes (Z.of_nat n) = Z.of_nat (size_of n).
Proof.
  intros Hn. destruct n as [|[|n]]; [done..|].
  unfold slot_sizes. rewrite (proj2 (Z.leb_gt _ _)) by lia. rewrite Z.shiftl_mul_pow2 by lia.
  replace (Z.of_nat (S (S n)) - 1) with (Z.of_nat (S n)) by lia.
  assert (2 ^ Z.of_nat (S n) <= 2 ^ 58) by (apply Z.pow_le_mono_r; lia).
  unfold wrap64, FIRST_SLOT_SIZE. rewrite Z.mod_small by lia.
  cbn [size_of]. by rewrite Nat2Z.inj_mul, Nat2Z.inj_pow.
Qed.

Lemma calculate_key_spec key : 0 <= key < 2^63 ->
  exists n off, calculate_key key = Some (Z.of_nat n, Z.of_nat off, Z.of_nat (size_of n)) /\
    Z.to_nat key = (base n + off)%nat /\ (off < size_of n)%nat /\ (n < 60)%nat.
Proof.
  intros Hk. unfold calculate_key. rewrite (proj2 (Z.leb_gt _ _)) by lia.
  change FIRST_SLOT_MASK with 4. unfold leading_zeros, FIRST_SLOT_SIZE.
  destruct (Z.ltb_spec key 16) as [Hlt|Hge].
  - exists 0%nat, (Z.to_nat key). cbn [base size_of]. split_and!; [|lia..].
    destruct (Z.eqb_spec key 0) as [->|]; [done|].
    assert (Z.log2 key <= 3) by (pose proof (Z.log2_le_mono key 15); change (Z.log2 15) with 3 in *; lia).
    repeat f_equal; lia.
  - rewrite (proj2 (Z.eqb_neq _ _)) by lia.
    pose proof (Z.log2_spec key) as [Hlo Hhi]; [lia|]. rewrite Z.pow_succ_r in Hhi by apply Z.log2_nonneg.
    assert (Hl4 : 4 <= Z.log2 key) by (change 4 with (Z.log2 16); apply Z.log2_le_mono; lia).
    assert (Hl62 : Z.log2 key < 63) by (apply Z.log2_lt_pow2; lia).
    set (n := Z.to_nat (Z.log2 key - 4)).
    assert (Hn : 16 * 2 ^ Z.of_nat n = 2 ^ Z.log2 key).
    { unfold n. rewrite Z2Nat.id by lia. change 16 with (2^4). rewrite <- Z.pow_add_r by lia. f_equal; lia. }
    assert (H63 : 2 ^ Z.log2 key < 2 ^ 63) by (apply Z.pow_lt_mono_r; lia).
    assert (Hb : Z.of_nat (16 * 2 ^ n) = 2 ^ Z.log2 key) by (rewrite Nat2Z.inj_mul, Nat2Z.inj_pow; exact Hn).
    exists (S n), (Z.to_nat (key - 2 ^ Z.log2 key)). cbn [base size_of].
    split_and!; [|lia..].
    rewrite Z.max_r by lia. rewrite !Z.shiftl_mul_pow2 by lia.
    replace (64 - (63 - Z.log2 key) - 4 - 1) with (Z.of_nat n) by lia.
    replace (64 - (63 - Z.log2 key) - 4) with (Z.of_nat n + 1) by lia.
    rewrite Z.pow_add_r by lia. replace (16 * (2 ^ Z.of_nat n * 2 ^ 1)) with (2 * 2 ^ Z.log2 key) by lia.
    unfold wrap64. rewrite Hn, !Z.mod_small by lia. repeat f_equal; lia.
Qed.

Lemma slot_unique n off n' off' :
  (off < size_of n)%nat -> (off' < size_of n')%nat -> (base n + off = base n' + off')%nat -> n = n' /\ off = off'.
Proof.
  intros H H' E. assert (n = n') as ->; [|lia].
  destruct (Nat.lt_trichotomy n n') as [Hl|[->|Hl]]; [|done|];
    apply base_le in Hl; rewrite base_S in Hl; lia.
Qed.

(** ** The slots as one array *)

Section flat.
Context {T : Type}.
Implicit Types (ss : list (list (Entry T))) (es : list (Entry T)) (m : gmap Z T) (self : PinSlab T).

Definition sized ss : Prop := forall i mem, ss !! i = Some mem -> length mem = size_of i.

Lemma sized_base ss n : sized ss -> (n <= length ss)%nat -> length (concat (take n ss)) = base n.
Proof.
  intros Hs. induction n as [|n IH]; intros Hn; [done|].
  destruct (lookup_lt_is_Some_2 ss n) as [mem Hm]; [lia|].
  rewrite (take_S_r _ _ _ Hm), concat_app, length_app, IH, base_S by lia. cbn.
  rewrite app_nil_r. f_equal. by apply Hs.
Qed.

Lemma flat_lookup ss n mem off : sized ss -> ss !! n = Some mem -> (off < size_of n)%nat ->
  concat ss !! (base n + off)%nat = mem !! off.
Proof.
  intros Hs Hm Ho. pose proof (lookup_lt_Some _ _ _ Hm). pose proof (Hs _ _ Hm).
  rewrite <- (take_drop_middle ss n mem Hm) at 1. rewrite concat_app. cbn.
  rewrite lookup_app_r by (rewrite sized_base; [lia|done|lia]).
  rewrite sized_base by (done || lia). rewrite lookup_app_l by lia. f_equal; lia.
Qed.

Lemma flat_insert ss n mem off e : sized ss -> ss !! n = Some mem -> (off < size_of n)%nat ->
  concat (<[n := <[off := e]> mem]> ss) = <[(base n + off)%nat := e]> (concat ss).
Proof.
  intros Hs Hm Ho. pose proof (lookup_lt_Some _ _ _ Hm). pose proof (Hs _ _ Hm).
  rewrite <- (take_drop_middle ss n mem Hm) at 2. rewrite insert_take_drop by done.
  rewrite !concat_app. cbn. rewrite insert_app_r_alt by (rewrite sized_base; [lia|done|lia]).
  rewrite sized_base by (done || lia). rewrite insert_app_l by lia. do 3 f_equal; lia.
Qed.

Lemma sized_insert ss n mem off e : sized ss -> ss !! n = Some mem -> sized (<[n := <[off := e]> mem]> ss).
Proof.
  intros Hs Hm i mem'. destruct (decide (i = n)) as [->|].
  - rewrite list_lookup_insert_eq by (by eapply lookup_lt_Some). intros [= <-].
    rewrite length_insert. by apply Hs.
  - rewrite list_lookup_insert_ne by done. apply Hs.
Qed.

Lemma sized_app ss mem : sized ss -> length mem = size_of (length ss) -> sized (ss ++ [mem]).
Proof.
  intros Hs Hl i mem'. rewrite lookup_app_Some. intros [?|[? [? <-]%list_lookup_singleton_Some]]; [by apply Hs|].
  rewrite Hl. f_equal. lia.
Qed.

(** ** The free list

    [chain es k free hw]: starting at [k] the vacant entries link the keys [free] and end at [hw],
    the first key never used. *)

Fixpoint chain es (k : Z) (free : list nat) (hw : nat) : Prop :=
  match free with
  | [] => k = Z.of_nat hw
  | x :: free => k = Z.of_nat x /\ exists n, es !! x = Some (Vacant n) /\ chain es n free hw
  end.

Definition occupied (e : option (Entry T)) : option T :=
  match e with Some (Occupied v) => Some v | _ => None end.

(** [m] is what the entries hold. *)
Record flat_ok es (nxt : Z) m (free : list nat) (hw : nat) : Prop := {
  f_chain : chain es nxt free hw;
  f_nodup : NoDup free;
  f_below : Forall (fun x => x < hw)%nat free;
  f_hw : (hw <= length es)%nat;
  f_fresh : forall k, (hw <= k < length es)%nat -> es !! k = Some Entry_None;
  f_used : forall k, (k < hw)%nat -> k ∈ free \/ is_Some (occupied (es !! k));
  f_map : forall z, m !! z = if bool_decide (0 <= z) then occupied (es !! Z.to_nat z) else None;
}.

Lemma chain_ext es es' k free hw : (forall x, x ∈ free -> es' !! x = es !! x) -> chain es k free hw -> chain es' k free hw.
Proof.
  revert k. induction free as [|x free IH]; intros k He; [done|]. cbn.
  intros [-> (n & Hx & Hc)]. split; [done|]. exists n. split; [by rewrite He by left|].
  apply IH; [|done]. intros. apply He. by right.
Qed.

Lemma f_vacant es nxt m free hw x : flat_ok es nxt m free hw -> x ∈ free -> exists n, es !! x = Some (Vacant n).
Proof.
  intros Hf. pose proof (f_chain _ _ _ _ _ Hf) as Hc. clear Hf. revert nxt Hc.
  induction free as [|y free IH]; intros nxt; [by rewrite elem_of_nil|].
  cbn. intros [-> (n & Hy & Hc)] [->|Hx]%elem_of_cons; [by exists n|]. by eapply IH.
Qed.

Lemma flat_grow es nxt m free hw n :
  flat_ok es nxt m free hw -> flat_ok (es ++ replicate n Entry_None) nxt m free hw.
Proof.
  intros Hf. pose proof (f_hw _ _ _ _ _ Hf).
  assert (Hlt : forall k, (k < length es)%nat -> (es ++ replicate n Entry_None) !! k = es !! k)
    by (intros; by rewrite lookup_app_l).
  split; try apply Hf.
  - eapply chain_ext, Hf. intros x Hx. apply Hlt.
    apply (proj1 (Forall_forall _ _) (f_below _ _ _ _ _ Hf)) in Hx. lia.
  - rewrite length_app. lia.
  - intros k Hk. rewrite length_app, length_replicate in Hk.
    destruct (decide (k < length es)%nat); [rewrite Hlt by done; apply Hf; lia|].
    rewrite lookup_app_r by lia. apply lookup_replicate_2. lia.
  - intros k Hk. rewrite Hlt by lia. by apply Hf.
  - intros z. rewrite (f_map _ _ _ _ _ Hf). case_bool_decide; [|done].
    destruct (decide (Z.to_nat z < length es)%nat); [by rewrite Hlt|].
    rewrite lookup_app_r, lookup_ge_None_2 by lia.
    destruct (_ !! _) eqn:E; [|done]. apply lookup_replicate in E as [-> _]. done.
Qed.

(** A new entry goes to the head of the free list, or to the first fresh key. *)
Lemma flat_take es nxt m free hw v :
  flat_ok es nxt m free hw -> nxt < Z.of_nat (length es) ->
  0 <= nxt /\ m !! nxt = None /\
  exists e, es !! Z.to_nat nxt = Some e /\
    match e with
    | Entry_None => exists free' hw', flat_ok (<[Z.to_nat nxt := Occupied v]> es) (nxt + 1) (<[nxt := v]> m) free' hw'
    | Vacant n => exists free' hw', flat_ok (<[Z.to_nat nxt := Occupied v]> es) n (<[nxt := v]> m) free' hw'
    | Occupied _ => False
    end.
Proof.
  intros Hf Hn. pose proof (f_hw _ _ _ _ _ Hf). destruct Hf as [Hc Hd Hb Hh Hfr Hu Hm].
  assert (Hmap : 0 <= nxt -> (Z.to_nat nxt < length es)%nat -> forall z, <[nxt:=v]> m !! z =
            (if bool_decide (0 <= z) then occupied (<[Z.to_nat nxt:=Occupied v]> es !! Z.to_nat z) else None)).
  { intros H0 Hl z. destruct (decide (z = nxt)) as [->|Hne].
    - rewrite lookup_insert_eq, bool_decide_eq_true_2, list_lookup_insert_eq by done. done.
    - rewrite lookup_insert_ne, Hm by done. case_bool_decide; [|done].
      by rewrite list_lookup_insert_ne by lia. }
  destruct free as [|x free].
  - cbn in Hc. subst nxt. rewrite Nat2Z.id in *.
    assert (Hx : es !! hw = Some Entry_None) by (apply Hfr; lia).
    split; [lia|]. split; [by rewrite Hm, bool_decide_eq_true_2, Nat2Z.id, Hx by lia|].
    exists Entry_None. split; [done|]. exists [], (S hw). split; cbn; rewrite ?length_insert; try done; try lia.
    + intros k Hk. rewrite list_lookup_insert_ne by lia. apply Hfr. lia.
    + intros k Hk. right. destruct (decide (k = hw)) as [->|]; [by rewrite list_lookup_insert_eq by lia|].
      rewrite list_lookup_insert_ne by lia. destruct (Hu k); [lia|set_solver|done].
    + apply Hmap; lia.
  - destruct Hc as [-> (n & Hx & Hc)]. rewrite Nat2Z.id in *.
    apply NoDup_cons in Hd as [Hxf Hd]. apply Forall_cons in Hb as [Hxh Hb].
    split; [lia|]. split; [by rewrite Hm, bool_decide_eq_true_2, Nat2Z.id, Hx by lia|].
    exists (Vacant n). split; [done|]. exists free, hw. split; rewrite ?length_insert; try done; try lia.
    + eapply chain_ext; [|done]. intros y Hy. apply list_lookup_insert_ne. intros ->. done.
    + intros k Hk. rewrite list_lookup_insert_ne by lia. apply Hfr. lia.
    + intros k Hk. destruct (decide (k = x)) as [->|]; [right; by rewrite list_lookup_insert_eq by lia|].
      rewrite list_lookup_insert_ne by lia.
      destruct (Hu k) as [[?|?]%elem_of_cons|]; [lia|done|by left|by right].
    + apply Hmap; lia.
Qed.

(** A removed entry becomes the head of the free list. *)
Lemma flat_give es nxt m free hw k v :
  flat_ok es nxt m free hw -> m !! k = Some v ->
  0 <= k /\ exists free', flat_ok (<[Z.to_nat k := Vacant nxt]> es) k (delete k m) free' hw.
Proof.
  intros Hf Hk. pose proof (fun x => f_vacant _ _ _ _ _ x Hf) as Hv.
  destruct Hf as [Hc Hd Hb Hh Hfr Hu Hm]. rewrite Hm in Hk. case_bool_decide as H0; [|done].
  destruct (es !! Z.to_nat k) as [[| |v']|] eqn:E; simplify_eq/=.
  pose proof (lookup_lt_Some _ _ _ E) as Hlt.
  assert (Hhw : (Z.to_nat k < hw)%nat).
  { destruct (decide (Z.to_nat k < hw)%nat); [done|]. rewrite Hfr in E by lia. done. }
  assert (Hn : Z.to_nat k ∉ free) by (intros [? ?]%Hv; congruence).
  split; [done|]. exists (Z.to_nat k :: free). split; rewrite ?length_insert; try done.
  - cbn. split; [lia|]. exists nxt. split; [by rewrite list_lookup_insert_eq|].
    eapply chain_ext; [|done]. intros y Hy. apply list_lookup_insert_ne. intros <-. done.
  - by constructor.
  - by constructor.
  - intros k' Hk'. rewrite list_lookup_insert_ne by lia. apply Hfr. lia.
  - intros k' Hk'. destruct (decide (k' = Z.to_nat k)) as [->|]; [left; set_solver|].
    rewrite list_lookup_insert_ne by lia. destruct (Hu k'); [lia|left; set_solver|by right].
  - intros z. destruct (decide (z = k)) as [->|].
    + rewrite lookup_delete_eq, bool_decide_eq_true_2, list_lookup_insert_eq by done. done.
    + rewrite lookup_delete_ne, Hm by done. case_bool_decide; [|done]. by rewrite list_lookup_insert_ne by lia.
Qed.

Lemma flat_update es nxt m free hw k v v' :
  flat_ok es nxt m free hw -> m !! k = Some v ->
  flat_ok (<[Z.to_nat k := Occupied v']> es) nxt (<[k := v']> m) free hw.
Proof.
  intros Hf Hk. pose proof (fun x => f_vacant _ _ _ _ _ x Hf) as Hv.
  destruct Hf as [Hc Hd Hb Hh Hfr Hu Hm]. rewrite Hm in Hk. case_bool_decide as H0; [|done].
  destruct (es !! Z.to_nat k) as [[| |w]|] eqn:E; simplify_eq/=.
  pose proof (lookup_lt_Some _ _ _ E) as Hlt.
  split; rewrite ?length_insert; try done.
  - eapply chain_ext; [|done]. intros y Hy. apply list_lookup_insert_ne. intros <-.
    apply Hv in Hy as [? ?]. congruence.
  - intros k' Hk'. destruct (decide (k' = Z.to_nat k)) as [->|]; [rewrite Hfr in E by lia; done|].
    rewrite list_lookup_insert_ne by lia. apply Hfr. lia.
  - intros k' Hk'. destruct (decide (k' = Z.to_nat k)) as [->|]; [right; by rewrite list_lookup_insert_eq|].
    rewrite list_lookup_insert_ne by lia. by apply Hu.
  - intros z. destruct (decide (z = k)) as [->|].
    + rewrite lookup_insert_eq, bool_decide_eq_true_2, list_lookup_insert_eq by done. done.
    + rewrite lookup_insert_ne, Hm by done. case_bool_decide; [|done]. by rewrite list_lookup_insert_ne by lia.
Qed.

(** With no vacant entry the map has every key below the first fresh one. *)
Lemma flat_full es nxt m hw : flat_ok es nxt m [] hw -> Z.of_nat (size m) = nxt.
Proof.
  intros [Hc _ _ Hh Hfr Hu Hm]. cbn in Hc. subst nxt. f_equal.
  rewrite <- size_dom. replace (dom m) with (list_to_set (seqZ 0 (Z.of_nat hw)) :> gset Z).
  - rewrite size_list_to_set by apply NoDup_seqZ. rewrite length_seqZ. lia.
  - apply set_eq. intros z. rewrite elem_of_list_to_set, elem_of_seqZ, elem_of_dom, Hm.
    case_bool_decide; [|split; [lia|by intros [? ?]]].
    split.
    + intros [_ Hz]. destruct (Hu (Z.to_nat z)); [lia|set_solver|done].
    + intros [v Hv]. split; [lia|]. destruct (decide (Z.to_nat z < hw)%nat); [lia|].
      destruct (decide (Z.to_nat z < length es)%nat).
      * rewrite Hfr in Hv by lia. done.
      * by rewrite lookup_ge_None_2 in Hv by lia.
Qed.

(** ** The slab implements a map *)

Definition slab_rep self m : Prop :=
  sized (slots self) /\ Z.of_nat (size m) < 2^63 /\ len self = Z.of_nat (size m) /\
  (length (slots self) <= 60)%nat /\
  exists free hw, flat_ok (concat (slots self)) (next self) m free hw.

Lemma slab_rep_new : slab_rep (new : PinSlab T) ∅.
Proof.
  split_and!; cbn; try done; try lia. exists [], 0%nat. split; cbn; try done; try lia; [constructor|].
  intros z. rewrite lookup_empty. by case_bool_decide.
Qed.

(** Where a key in range is: its slot and offset, and its entry in the flat array. *)
Lemma locate self m key : slab_rep self m -> 0 <= key < 2^63 ->
  exists n off, calculate_key key = Some (Z.of_nat n, Z.of_nat off, Z.of_nat (size_of n)) /\
    Z.to_nat key = (base n + off)%nat /\ (off < size_of n)%nat /\ (n < 60)%nat /\
    match slots self !! n with
    | Some mem => length mem = size_of n /\ exists e, mem !! off = Some e /\ concat (slots self) !! Z.to_nat key = Some e
    | None => (length (slots self) <= n)%nat /\ concat (slots self) !! Z.to_nat key = None
    end.
Proof.
  intros (Hs & _) Hk. destruct (calculate_key_spec key Hk) as (n & off & -> & Hkey & Hoff & Hn).
  exists n, off. split_and!; try done. rewrite Hkey. destruct (slots self !! n) as [mem|] eqn:Hm.
  - pose proof (Hs _ _ Hm) as Hl. split; [done|]. destruct (lookup_lt_is_Some_2 mem off) as [e He]; [lia|].
    exists e. split; [done|]. by rewrite (flat_lookup _ _ _ _ Hs Hm).
  - apply lookup_ge_None in Hm. split; [done|]. apply lookup_ge_None.
    rewrite <- (take_ge (slots self) (length (slots self))) at 1 by lia.
    rewrite sized_base by done. apply base_le in Hm. lia.
Qed.

Lemma rep_lookup self m key : slab_rep self m -> 0 <= key -> m !! key = occupied (concat (slots self) !! Z.to_nat key).
Proof. intros (_ & _ & _ & _ & free & hw & Hf) Hk. by rewrite (f_map _ _ _ _ _ Hf), bool_decide_eq_true_2. Qed.

(** Keys at or beyond 2^63 are never handed out. *)
Lemma rep_bound self m key : slab_rep self m -> 2^63 <= key -> m !! key = None.
Proof.
  intros (Hs & _ & _ & Hl & free & hw & Hf) Hk. rewrite (f_map _ _ _ _ _ Hf), bool_decide_eq_true_2 by lia.
  rewrite lookup_ge_None_2; [done|].
  rewrite <- (take_ge (slots self) (length (slots self))) at 1 by lia. rewrite sized_base by done.
  transitivity (base 60); [by apply base_le|]. cbn [base].
  assert (Z.of_nat (16 * 2 ^ 59) <= key); [|lia].
  rewrite Nat2Z.inj_mul, Nat2Z.inj_pow. change (Z.of_nat 16 * Z.of_nat 2 ^ Z.of_nat 59) with (2 ^ 63). lia.
Qed.

Lemma get_spec self m key : slab_rep self m -> 0 <= key -> get self key = Ret (m !! key).
Proof.
  intros Hr Hk. unfold get, internal_get. destruct (decide (key < 2^63)) as [Hlt|Hge].
  - destruct (locate _ _ _ Hr (conj Hk Hlt)) as (n & off & -> & Hkey & Hoff & Hn & Hm).
    rewrite (rep_lookup _ _ _ Hr Hk), Nat2Z.id. destruct (slots self !! n) as [mem|].
    + destruct Hm as (Hl & e & He & ->). unfold deref. rewrite Nat2Z.id, He. by destruct e.
    + by destruct Hm as [_ ->].
  - unfold calculate_key. rewrite (proj2 (Z.leb_le _ _)) by lia. by rewrite (rep_bound _ _ _ Hr) by lia.
Qed.

(** The next key is in range, and in the array or right behind it. *)
Lemma next_ok self m : slab_rep self m ->
  0 <= next self < 2^63 /\ next self <= Z.of_nat (length (concat (slots self))).
Proof.
  intros Hr. pose proof Hr as (Hs & Hsz & _ & Hl & free & hw & Hf). pose proof (f_hw _ _ _ _ _ Hf).
  destruct free as [|x free].
  - pose proof (flat_full _ _ _ _ Hf). pose proof (f_chain _ _ _ _ _ Hf) as Hc. cbn in Hc. lia.
  - pose proof (f_below _ _ _ _ _ Hf) as [Hx _]%Forall_cons.
    pose proof (f_chain _ _ _ _ _ Hf) as [Hnx (n & Hv & _)]. split; [|lia]. split; [lia|].
    destruct (decide (next self < 2^63)) as [|Hge]; [done|]. exfalso.
    assert (Hlen : (length (concat (slots self)) <= base 60)%nat).
    { rewrite <- (take_ge (slots self) (length (slots self))) at 1 by lia. rewrite sized_base by done. by apply base_le. }
    assert (Z.of_nat (base 60) = 2^63) by (unfold base; rewrite Nat2Z.inj_mul, Nat2Z.inj_pow; done). lia.
Qed.

Lemma write_ok (mem : list (Entry T)) off e : (off < length mem)%nat -> write mem (Z.of_nat off) e = Ret (<[off := e]> mem).
Proof. intros. unfold write. by rewrite Nat2Z.id, bool_decide_eq_true_2. Qed.

Lemma insert_spec self m v : slab_rep self m -> Z.of_nat (size m) + 1 < 2^63 ->
  exists key self', insert self v = Ret (Some (key, self')) /\ 0 <= key < 2^63 /\ m !! key = None /\
    slab_rep self' (<[key := v]> m).
Proof.
  intros Hr Hsz. destruct (next_ok _ _ Hr) as [Hnb Hnl].
  pose proof Hr as (Hs & _ & Hlen & Hl & free & hw & Hf).
  destruct (locate _ _ _ Hr Hnb) as (n & off & Hc & Hkey & Hoff & Hn & Hm).
  set (key := next self) in *. exists key. unfold insert, insert_at. fold key. rewrite Hc, Nat2Z.id.
  assert (Hrep : forall self', m !! key = None -> sized (slots self') -> (length (slots self') <= 60)%nat ->
            len self' = wrap64 (len self + 1) ->
            (exists free' hw', flat_ok (concat (slots self')) (next self') (<[key := v]> m) free' hw') ->
            slab_rep self' (<[key := v]> m)).
  { intros self' Hk ? ? Hl' ?. split_and!; try done; rewrite map_size_insert_None by done; [lia|].
    rewrite Hl', Hlen. unfold wrap64. rewrite Z.mod_small; lia. }
  destruct (slots self !! n) as [mem|] eqn:Hmem.
  - destruct Hm as (Hml & e & He & Hfe). pose proof (lookup_lt_Some _ _ _ Hfe).
    destruct (flat_take _ _ _ _ _ v Hf) as (_ & Hnone & e' & He' & Hok); [lia|]. fold key in He', Hok.
    rewrite Hfe in He'. injection He' as <-. unfold deref. rewrite Nat2Z.id, He. cbn [mbind outcome_bind].
    rewrite Hkey, <- (flat_insert _ _ _ _ _ Hs Hmem Hoff) in Hok.
    assert (Hi : (length (<[n := <[off := Occupied v]> mem]> (slots self)) <= 60)%nat) by (by rewrite length_insert).
    pose proof (sized_insert _ _ _ off (Occupied v) Hs Hmem).
    destruct e as [|nx|w]; [| |done]; cbn [mbind outcome_bind]; rewrite write_ok by lia; cbn;
      eexists; (split; [done|]); (split; [done|]); (split; [done|]); apply Hrep; cbn; try done.
    replace (wrap64 (key + 1)) with (key + 1) by (unfold wrap64; rewrite Z.mod_small; lia). done.
  - destruct Hm as [Hge _].
    assert (Hlc : length (concat (slots self)) = base (length (slots self))).
    { rewrite <- (take_ge (slots self) (length (slots self))) at 1 by lia. by apply sized_base. }
    assert (n = length (slots self) /\ off = 0%nat) as [-> ->].
    { apply slot_unique; [done|apply size_of_pos|]. apply base_le in Hge. lia. }
    assert (Hns : length (new_slot (Z.of_nat (size_of (length (slots self)))) : list (Entry T)) = size_of (length (slots self)))
      by (unfold new_slot; rewrite length_replicate; lia).
    pose proof (flat_grow _ _ _ _ _ (size_of (length (slots self))) Hf) as Hg.
    destruct (flat_take _ _ _ _ _ v Hg) as (_ & Hnone & e & He & Hok);
      [rewrite length_app, length_replicate; fold key; lia|]. fold key in He, Hok.
    pose proof (size_of_pos (length (slots self))).
    change 0 with (Z.of_nat 0). rewrite write_ok by lia. cbn. eexists. split; [done|]. split; [done|].
    split; [done|]. apply Hrep; cbn; try done.
    + apply sized_app; [done|]. by rewrite length_insert.
    + rewrite length_app. cbn. lia.
    + assert (e = Entry_None) as ->.
      { rewrite Hkey, Nat.add_0_r, <- Hlc, lookup_app_r, Nat.sub_diag in He by lia.
        by apply lookup_replicate in He as [? _]. }
      replace (wrap64 (key + 1)) with (key + 1) by (unfold wrap64; rewrite Z.mod_small; lia).
      rewrite concat_app. cbn [concat]. rewrite app_nil_r.
      rewrite Hkey, insert_app_r_alt in Hok by lia. rewrite Hlc in Hok.
      replace (base (length (slots self)) + 0 - base (length (slots self)))%nat with 0%nat in Hok by lia.
      unfold new_slot. by rewrite Nat2Z.id.
Qed.

(** The two removals share the entry they vacate. *)
Lemma vacate self m key v : slab_rep self m -> m !! key = Some v ->
  exists n off mem, calculate_key key = Some (Z.of_nat n, Z.of_nat off, Z.of_nat (size_of n)) /\
    slots self !! n = Some mem /\ (off < length mem)%nat /\ mem !! off = Some (Occupied v) /\
    slab_rep (mk (<[n := <[off := Vacant (next self)]> mem]> (slots self)) (wrap64 (len self - 1)) key) (delete key m) /\
    forall v', slab_rep (mk (<[n := <[off := Occupied v']> mem]> (slots self)) (len self) (next self)) (<[key := v']> m).
Proof.
  intros Hr Hk. pose proof Hr as (Hs & Hsz & Hlen & Hl & free & hw & Hf).
  destruct (flat_give _ _ _ _ _ _ _ Hf Hk) as [H0 [free' Hf']].
  assert (Hb : 0 <= key < 2^63).
  { split; [done|]. destruct (decide (key < 2^63)); [done|]. by rewrite (rep_bound _ _ _ Hr) in Hk by lia. }
  destruct (locate _ _ _ Hr Hb) as (n & off & Hc & Hkey & Hoff & Hn & Hm).
  pose proof (rep_lookup _ _ _ Hr H0) as He. rewrite Hk in He.
  destruct (slots self !! n) as [mem|] eqn:Hmem; [|by destruct Hm as [_ E]; rewrite E in He].
  destruct Hm as (Hml & e & Heo & Hfe). rewrite Hfe in He. destruct e as [| |w]; try done. injection He as <-.
  assert (0 < size m)%nat.
  { destruct (decide (size m = 0%nat)) as [E|]; [|lia]. apply map_size_empty_inv in E. by subst m. }
  exists n, off, mem. split_and!; try done; try lia; [split_and!| intros v'; split_and!]; cbn;
    rewrite ?length_insert; try done; try (by apply sized_insert).
  - rewrite map_size_delete_Some by (by exists v). lia.
  - rewrite map_size_delete_Some by (by exists v). rewrite Hlen. unfold wrap64. rewrite Z.mod_small; lia.
  - exists free', hw. by rewrite flat_insert, <- Hkey.
  - rewrite map_size_insert_Some by (by exists v). lia.
  - by rewrite map_size_insert_Some by (by exists v).
  - exists free, hw. rewrite flat_insert, <- Hkey by done. by eapply flat_update.
Qed.

Lemma remove_spec self m key : slab_rep self m -> 0 <= key < 2^63 ->
  exists self', remove self key = Ret (Some (bool_decide (is_Some (m !! key))), m !! key, self') /\
    slab_rep self' (delete key m).
Proof.
  intros Hr Hb. destruct (m !! key) as [v|] eqn:Hk.
  - destruct (vacate _ _ _ _ Hr Hk) as (n & off & mem & Hc & Hm & Ho & He & Hrep & _).
    eexists. split; [|exact Hrep]. unfold remove. rewrite Hc, Nat2Z.id, Hm. unfold deref. rewrite Nat2Z.id, He.
    cbn [mbind outcome_bind]. by rewrite write_ok.
  - exists self. rewrite delete_id by done. split; [|done].
    pose proof (rep_lookup _ _ _ Hr (proj1 Hb)) as He. rewrite Hk in He.
    destruct (locate _ _ _ Hr Hb) as (n & off & Hc & _ & _ & _ & Hm). unfold remove. rewrite Hc, Nat2Z.id.
    destruct (slots self !! n) as [mem|]; [|done]. destruct Hm as (_ & e & Heo & Hfe).
    unfold deref. rewrite Nat2Z.id, Heo. rewrite Hfe in He. by destruct e.
Qed.

Lemma remove_unpin_spec self m key : slab_rep self m -> 0 <= key ->
  exists self', remove_unpin self key = Ret (m !! key, self') /\ slab_rep self' (delete key m).
Proof.
  intros Hr H0. destruct (m !! key) as [v|] eqn:Hk.
  - destruct (vacate _ _ _ _ Hr Hk) as (n & off & mem & Hc & Hm & Ho & He & Hrep & _).
    eexists. split; [|exact Hrep]. unfold remove_unpin. rewrite Hc, Nat2Z.id, Hm. unfold deref. rewrite Nat2Z.id, He.
    cbn [mbind outcome_bind]. by rewrite write_ok.
  - exists self. rewrite delete_id by done. split; [|done]. unfold remove_unpin.
    destruct (decide (key < 2^63)) as [Hlt|]; [|unfold calculate_key; by rewrite (proj2 (Z.leb_le _ _)) by lia].
    pose proof (rep_lookup _ _ _ Hr H0) as He. rewrite Hk in He.
    destruct (locate _ _ _ Hr (conj H0 Hlt)) as (n & off & Hc & _ & _ & _ & Hm). rewrite Hc, Nat2Z.id.
    destruct (slots self !! n) as [mem|]; [|done]. destruct Hm as (_ & e & Heo & Hfe).
    unfold deref. rewrite Nat2Z.id, Heo. rewrite Hfe in He. by destruct e.
Qed.

Lemma get_pin_mut_spec self m key : slab_rep self m -> 0 <= key ->
  match m !! key with
  | Some v => exists wr, get_pin_mut self key = Ret (Some (v, wr)) /\ forall v', slab_rep (wr v') (<[key := v']> m)
  | None => get_pin_mut self key = Ret None
  end.
Proof.
  intros Hr H0. pose proof (get_spec _ _ _ Hr H0) as Hg. destruct (m !! key) as [v|] eqn:Hk.
  - destruct (vacate _ _ _ _ Hr Hk) as (n & off & mem & Hc & Hm & Ho & He & _ & Hrep).
    eexists. split; [|exact Hrep]. unfold get_pin_mut. rewrite Hc, Nat2Z.id, Hm. unfold deref. by rewrite Nat2Z.id, He.
  - unfold get_pin_mut. unfold get, internal_get in Hg. destruct (calculate_key key) as [[[n off] l]|]; [|done].
    destruct (slots self !! Z.to_nat n) as [mem|]; [|done]. unfold deref in *.
    destruct (mem !! Z.to_nat off) as [[]|]; done.
Qed.

(** Every slot is freed with the size it was allocated with. *)
Lemma clear_spec self m : slab_rep self m -> clear self = Ret (mk [] (len self) (next self)).
Proof.
  intros (Hs & _ & _ & Hl & _). unfold clear.
  assert (Hfree : forall k (l : list (list (Entry T))), (k + length l <= 60)%nat ->
            (forall i mem, l !! i = Some mem -> length mem = size_of (k + i)) -> free_slots (Z.of_nat k) l = Ret ()).
  { intros k l. revert k. induction l as [|mem l IH]; intros k Hk Hi; [done|]. cbn in Hk. cbn [free_slots].
    rewrite slot_sizes_size_of by lia. unfold blen. rewrite (Hi 0%nat mem), Nat.add_0_r, Z.eqb_refl by done.
    replace (Z.of_nat k + 1) with (Z.of_nat (S k)) by lia. apply IH; [lia|].
    intros i mem' E. rewrite (Hi (S i) mem') by done. f_equal. lia. }
  change 0 with (Z.of_nat 0). rewrite Hfree; [done|lia|done].
Qed.

(** ** The slab as a component: any sequence of its calls *)

Inductive op : Type :=
| Insert (v : T)
| Get (key : Z)
| Update (key : Z) (v : T)
| Remove (key : Z)
| RemoveUnpin (key : Z).

Inductive reply : Type :=
| Key (k : option Z)
| Value (v : option T)
| Removed (b : option bool).

Definition step self (o : op) : outcome (reply * PinSlab T) :=
  match o with
  | Insert v => r ← insert self v; Ret match r with Some (k, self) => (Key (Some k), self) | None => (Key None, self) end
  | Get key => r ← get self key; Ret (Value r, self)
  | Update key v =>
      r ← get_pin_mut self key;
      Ret match r with Some (v', wr) => (Value (Some v'), wr v) | None => (Value None, self) end
  | Remove key => '(b, _, self) ← remove self key; Ret (Removed b, self)
  | RemoveUnpin key => '(v, self) ← remove_unpin self key; Ret (Value v, self)
  end.

Fixpoint run self (ops : list op) : outcome (list reply * PinSlab T) :=
  match ops with
  | [] => Ret ([], self)
  | o :: ops => '(r, self) ← step self o; '(rs, self) ← run self ops; Ret (r :: rs, self)
  end.

(** What the calls mean on a finite map; the key of an insertion is any one not in use. *)
Inductive map_step m : op -> reply -> gmap Z T -> Prop :=
| map_insert v k : m !! k = None -> map_step m (Insert v) (Key (Some k)) (<[k := v]> m)
| map_get k : map_step m (Get k) (Value (m !! k)) m
| map_update k v : map_step m (Update k v) (Value (m !! k)) match m !! k with Some _ => <[k := v]> m | None => m end
| map_remove k : map_step m (Remove k) (Removed (Some (bool_decide (is_Some (m !! k))))) (delete k m)
| map_remove_unpin k : map_step m (RemoveUnpin k) (Value (m !! k)) (delete k m).

Inductive map_run : gmap Z T -> list op -> list reply -> gmap Z T -> Prop :=
| map_run_nil m : map_run m [] [] m
| map_run_cons m o r m1 ops rs m2 : map_step m o r m1 -> map_run m1 ops rs m2 -> map_run m (o :: ops) (r :: rs) m2.

Definition key_in_range (o : op) : Prop :=
  match o with
  | Insert _ => True
  | Get k | Update k _ | Remove k | RemoveUnpin k => 0 <= k < 2^63
  end.

Lemma map_step_size m o r m' : map_step m o r m' -> (size m' <= S (size m))%nat.
Proof.
  destruct 1 as [v k Hk|k|k v|k|k]; [by rewrite map_size_insert_None|lia| | |].
  - destruct (m !! k) eqn:E; [by rewrite map_size_insert_Some by (by eexists); lia|lia].
  - rewrite map_size_delete. destruct (m !! k); cbn; lia.
  - rewrite map_size_delete. destruct (m !! k); cbn; lia.
Qed.

Lemma step_refines self m o : slab_rep self m -> key_in_range o -> Z.of_nat (size m) + 1 < 2^63 ->
  exists r self' m', step self o = Ret (r, self') /\ map_step m o r m' /\ slab_rep self' m'.
Proof.
  intros Hr Hk Hsz. destruct o as [v|k|k v|k|k]; cbn in Hk |- *.
  - destruct (insert_spec _ _ v Hr Hsz) as (k & self' & -> & _ & Hn & Hr'). do 3 eexists. split_and!; [done| |done].
    by constructor.
  - rewrite (get_spec _ _ _ Hr) by lia. do 3 eexists. split_and!; [done|constructor|done].
  - pose proof (get_pin_mut_spec _ _ k Hr) as Hg. pose proof (map_update m k v) as Hs.
    destruct (m !! k) as [w|]; [destruct Hg as (wr & -> & Hw); [lia|]|rewrite Hg by lia]; do 3 eexists; split_and!; try done.
  - destruct (remove_spec _ _ k Hr Hk) as (self' & -> & Hr'). do 3 eexists. split_and!; [done|constructor|done].
  - destruct (remove_unpin_spec _ _ k Hr) as (self' & -> & Hr'); [lia|]. do 3 eexists. split_and!; [done|constructor|done].
Qed.

Lemma run_refines self m ops : slab_rep self m -> Forall key_in_range ops ->
  Z.of_nat (size m) + Z.of_nat (length ops) < 2^63 ->
  exists rs self' m', run self ops = Ret (rs, self') /\ map_run m ops rs m' /\ slab_rep self' m'.
Proof.
  revert self m. induction ops as [|o ops IH]; intros self m Hr Hk Hsz.
  - do 3 eexists. split_and!; [done|constructor|done].
  - apply Forall_cons in Hk as [Ho Hk]. cbn in Hsz.
    destruct (step_refines _ _ _ Hr Ho) as (r & self1 & m1 & Hs & Hm & Hr1); [lia|].
    pose proof (map_step_size _ _ _ _ Hm).
    destruct (IH _ _ Hr1 Hk) as (rs & self2 & m2 & Hrun & Hmr & Hr2); [lia|].
    exists (r :: rs), self2, m2. split_and!; [|by econstructor|done]. cbn. rewrite Hs. cbn. by rewrite Hrun.
Qed.

End flat.

Arguments op T : clear implicits.
Arguments reply T : clear implicits.



(** The reused key of the run above. *)
Example slab_reuses_keys :
  (r ← run (new (T := Z)) [Insert 7; Insert 8; Remove 0; Insert 9; Get 0; Insert 1]; Ret r.1) =
  Ret [Key (Some 0); Key (Some 1); Removed (Some true); Key (Some 0); Value (Some 9); Key (Some 2)].
Proof. vm_compute. reflexivity. Qed.

(** Clearing a slab keeps [next], so the next insertion returns a key under which nothing is
    stored. *)
Example cleared_slab_loses_insert :
  ('(_, s) ← run (new (T := Z)) [Insert 7; Insert 8];
   s ← clear s;
   '(rs, _) ← run s [Insert 9; Get 2]; Ret rs) = Ret [Key (Some 2); Value None].
Proof. vm_compute. reflexivity. Qed.

End PinSlab.
