(* ===== verification/Scheduler.v ===== *)
(** * The task scheduler
    (src/src/rust/scheduler: waker64.rs, page/, handle.rs, result.rs, scheduler.rs)

    A page keeps three bits for each of 64 tasks (notified, completed, dropped) and a reference
    count.  Pages are 64 bytes big and aligned to 64 bytes, and a waker is a pointer to the byte of
    the page whose offset is the task's index: the address of the page and the index come back from
    the pointer.  The memory of the pages is a map from addresses, the allocator a class of which
    only its contract is used.  What a task does when it is polled or dropped is a parameter: any
    sequence of the calls that the scheduler offers to tasks. *)

From S2P Require Import Prelude PinSlab.

(** ** Waker64 *)
Module Waker64.

Definition WAKER_BIT_LENGTH_SHIFT : Z := 6.
Definition WAKER_BIT_LENGTH : Z := Z.shiftl 1 WAKER_BIT_LENGTH_SHIFT.

Definition fetch_or (s val : Z) : Z := Z.lor s val.
Definition fetch_and (s val : Z) : Z := Z.land s val.
(** The old and the new value. *)
Definition fetch_add (s val : Z) : Z * Z := (s, wrap64 (s + val)).
Definition fetch_sub (s val : Z) : option (Z * Z) := if s <? val then None else Some (s, s - val).
Definition swap (s val : Z) : Z * Z := (s, val).

(** [!x] on u64. *)
Definition not64 (x : Z) : Z := 2^64 - 1 - x.

End Waker64.
Import Waker64.

(** ** Waker pages *)
Module Page.

Definition WAKER_PAGE_SIZE : Z := 64.

Record WakerPage := mk { refcount : Z; notified : Z; completed : Z; dropped : Z }.

Definition set_refcount (self : WakerPage) (v : Z) : WakerPage := mk v (notified self) (completed self) (dropped self).

Definition notify (self : WakerPage) (ix : Z) : WakerPage :=
  mk (refcount self) (fetch_or (notified self) (Z.shiftl 1 ix)) (completed self) (dropped self).

Definition take_notified (self : WakerPage) : Z * WakerPage :=
  let '(notified_, zero) := swap (notified self) 0 in
  let notified_ := Z.land notified_ (not64 (completed self)) in
  let notified_ := Z.land notified_ (not64 (dropped self)) in
  (notified_, mk (refcount self) zero (completed self) (dropped self)).

Definition has_completed (self : WakerPage) (ix : Z) : bool :=
  negb (Z.land (completed self) (Z.shiftl 1 ix) =? 0).

Definition mark_completed (self : WakerPage) (ix : Z) : WakerPage :=
  mk (refcount self) (notified self) (fetch_or (completed self) (Z.shiftl 1 ix)) (dropped self).

Definition mark_dropped (self : WakerPage) (ix : Z) : WakerPage :=
  mk (refcount self) (notified self) (completed self) (fetch_or (dropped self) (Z.shiftl 1 ix)).

Definition take_dropped (self : WakerPage) : Z * WakerPage :=
  let '(old, zero) := swap (dropped self) 0 in
  (old, mk (refcount self) (notified self) (completed self) zero).

Definition was_dropped (self : WakerPage) (ix : Z) : bool :=
  negb (Z.land (dropped self) (Z.shiftl 1 ix) =? 0).

Definition reset (self : WakerPage) : WakerPage :=
  mk (swap (refcount self) 1).2 (swap (notified self) 0).2 (swap (completed self) 0).2 (swap (dropped self) 0).2.

Definition initialize (self : WakerPage) (ix : Z) : WakerPage :=
  mk (refcount self) (fetch_or (notified self) (Z.shiftl 1 ix))
     (fetch_and (completed self) (not64 (Z.shiftl 1 ix)))
     (fetch_and (dropped self) (not64 (Z.shiftl 1 ix))).

Definition clear (self : WakerPage) (ix : Z) : WakerPage :=
  let mask := not64 (Z.shiftl 1 ix) in
  mk (refcount self) (fetch_and (notified self) mask) (fetch_and (completed self) mask)
     (fetch_and (dropped self) mask).

Definition refcount_inc (self : WakerPage) : Z * WakerPage :=
  let '(old, new) := fetch_add (refcount self) 1 in (old, set_refcount self new).

Definition refcount_dec (self : WakerPage) : option (Z * WakerPage) :=
  '(old, new) ← fetch_sub (refcount self) 1; Some (old, set_refcount self new).

End Page.
Import Page.

(** ** The memory of the pages *)

Abbreviation heap := (gmap Z WakerPage).

(** The global allocator: while there is room, the memory it returns is not in use, not null, and
    aligned; what it contains is arbitrary. *)
Class Allocator := {
  allocate : gset Z -> Z * WakerPage;
  allocate_fresh used : Z.of_nat (size used) < 2^57 -> (allocate used).1 ∉ used;
  allocate_aligned used : Z.of_nat (size used) < 2^57 -> (allocate used).1 mod WAKER_PAGE_SIZE = 0;
  allocate_range used : Z.of_nat (size used) < 2^57 -> 0 < (allocate used).1 <= 2^64 - WAKER_PAGE_SIZE;
}.

(** Bit iteration (crate bit_iter): the indices of the set bits, each once. *)
Class BitIter := {
  bit_iter : Z -> list Z;
  bit_iter_spec v ix : 0 <= v < 2^64 -> ix ∈ bit_iter v <-> 0 <= ix < 64 /\ Z.testbit v ix = true;
  bit_iter_nodup v : NoDup (bit_iter v);
}.

Definition page_deref (h : heap) (p : Z) : outcome WakerPage :=
  match h !! p with
  | Some pg => Ret pg
  | None => Panic "use of a freed waker page"
  end.

Definition page_update (h : heap) (p : Z) (f : WakerPage -> WakerPage) : outcome heap :=
  pg ← page_deref h p; Ret (<[p := f pg]> h).

(** ** References to pages *)
Module PageRef.

Definition clone (h : heap) (self : Z) : outcome heap :=
  page_update h self (fun pg => (refcount_inc pg).2).

Definition drop (h : heap) (self : Z) : outcome heap :=
  pg ← page_deref h self;
  match refcount_dec pg with
  | Some (old, pg) => if old =? 1 then Ret (delete self h) else Ret (<[self := pg]> h)
  | None => Panic "double free on waker page"
  end.

Definition default `{Allocator} (h : heap) : Z * heap :=
  let '(ptr, garbage) := allocate (dom h) in (ptr, <[ptr := reset garbage]> h).

Definition into_raw_waker_ref (h : heap) (self ix : Z) : outcome (Z * heap) :=
  h ← clone h self;
  Ret (self + ix, h).

End PageRef.

(** ** References to tasks (wakers) *)
Module WakerRef.

(** [ptr.align_offset(align)]: the distance to the next aligned address. *)
Definition align_offset (ptr align : Z) : Z := (- ptr) mod align.

Definition base_ptr (self : Z) : Z * Z :=
  let forward_offset := align_offset self WAKER_PAGE_SIZE in
  if negb (forward_offset =? 0)
  then let offset := WAKER_PAGE_SIZE - forward_offset in (wrap64 (self - offset), offset)
  else (self, 0).

Definition wake_by_ref (h : heap) (self : Z) : outcome heap :=
  let '(base, ix) := base_ptr self in page_update h base (fun pg => notify pg ix).

Definition clone (h : heap) (self : Z) : outcome (Z * heap) :=
  h ← PageRef.clone h (base_ptr self).1; Ret (self, h).

Definition drop (h : heap) (self : Z) : outcome heap := PageRef.drop h (base_ptr self).1.

Definition wake (h : heap) (self : Z) : outcome heap :=
  h ← wake_by_ref h self; drop h self.

(** The four entries of the waker's table of functions. *)
Definition waker_ref_clone (h : heap) (ptr : Z) : outcome (Z * heap) := clone h ptr.
Definition waker_ref_wake (h : heap) (ptr : Z) : outcome heap := wake h ptr.
Definition waker_ref_wake_by_ref (h : heap) (ptr : Z) : outcome heap := wake_by_ref h ptr.
Definition waker_ref_drop (h : heap) (ptr : Z) : outcome heap := drop h ptr.

End WakerRef.

(** ** Handles *)
Record SchedulerHandle := mkHandle { key : option Z; chunk : Z }.

Module Handle.

Definition new (key waker_page : Z) : SchedulerHandle := mkHandle (Some key) waker_page.

Definition take_key (self : SchedulerHandle) : option Z * SchedulerHandle :=
  (key self, mkHandle None (chunk self)).

Definition has_completed (h : heap) (self : SchedulerHandle) : outcome bool :=
  match key self with
  | None => Panic "called Option::unwrap() on a None value"
  | Some key =>
      pg ← page_deref h (chunk self);
      Ret (Page.has_completed pg (Z.land key (WAKER_BIT_LENGTH - 1)))
  end.

(** [Drop::drop] and then the drop of the field [chunk]. *)
Definition drop (h : heap) (self : SchedulerHandle) : outcome heap :=
  let '(key, self) := take_key self in
  h ← match key with
      | Some key => page_update h (chunk self) (fun pg => mark_dropped pg (Z.land key (WAKER_BIT_LENGTH - 1)))
      | None => Ret h
      end;
  PageRef.drop h (chunk self).

Definition into_raw (h : heap) (self : SchedulerHandle) : outcome (Z * heap) :=
  let '(key, self) := take_key self in
  match key with
  | None => Panic "called Option::unwrap() on a None value"
  | Some key => h ← drop h self; Ret (key, h)
  end.

End Handle.

(** ** Future results (result.rs): a task that must not be polled once it is done *)
Record FutureResult (Fut Out : Type) := mkResult { future : Fut; done_ : option Out }.
Arguments mkResult {Fut Out} future done_.
Arguments future {Fut Out} f.
Arguments done_ {Fut Out} f.

(** ** The scheduler *)
Module Scheduler.
Section scheduler.
Context {Fut Out : Type} `{Allocator} `{BitIter}.

Abbreviation task := (FutureResult Fut Out).

(** What happens to tasks, as it happens: a future is run, the loop over the dropped tasks comes to
    a task, a task is taken out. *)
Inductive entry : Type :=
| Ran (key : Z) (t : task)
| DropSeen (key : Z)
| Taken (key : Z).

(** The scheduler's own state, the memory, the handles and wakers that exist outside (one that was
    moved away is [None]), and what has happened to tasks so far. *)
Record World := mkWorld {
  slab : PinSlab.PinSlab task;
  pages : list Z;
  mem : heap;
  handles : list (option SchedulerHandle);
  wakers : list (option Z);
  log : list entry;
}.

Definition with_slab (w : World) s := mkWorld s (pages w) (mem w) (handles w) (wakers w) (log w).
Definition with_pages (w : World) p := mkWorld (slab w) p (mem w) (handles w) (wakers w) (log w).
Definition with_mem (w : World) h := mkWorld (slab w) (pages w) h (handles w) (wakers w) (log w).
Definition with_handles (w : World) l := mkWorld (slab w) (pages w) (mem w) l (wakers w) (log w).
Definition with_wakers (w : World) l := mkWorld (slab w) (pages w) (mem w) (handles w) l (log w).
Definition record (w : World) (e : entry) := mkWorld (slab w) (pages w) (mem w) (handles w) (wakers w) (log w ++ [e]).

Definition default : World := mkWorld PinSlab.new [] ∅ [] [] [].

Definition get_page (w : World) (key : Z) : outcome (Z * Z) :=
  let page_ix := Z.shiftr key WAKER_BIT_LENGTH_SHIFT in
  let subpage_ix := Z.land key (WAKER_BIT_LENGTH - 1) in
  match pages w !! Z.to_nat page_ix with
  | Some p => Ret (p, subpage_ix)
  | None => Panic "index out of bounds"
  end.

(** [while key >= self.pages.len() << 6 { self.pages.push(..) }] *)
Fixpoint push_pages (fuel : nat) (w : World) (key : Z) : outcome World :=
  if key >=? wrap64 (Z.shiftl (blen (pages w)) WAKER_BIT_LENGTH_SHIFT) then
    match fuel with
    | O => Diverge
    | S fuel =>
        let '(p, h) := PageRef.default (mem w) in
        push_pages fuel (with_pages (with_mem w h) (pages w ++ [p])) key
    end
  else Ret w.

Definition inner_insert (w : World) (future : task) : outcome (option (Z * World)) :=
  r ← PinSlab.insert (slab w) future;
  match r with
  | None => Ret None
  | Some (key, s) =>
      w ← push_pages (S (Z.to_nat (key / 64))) (with_slab w s) key;
      '(page, subpage_ix) ← get_page w key;
      h ← page_update (mem w) page (fun pg => initialize pg subpage_ix);
      Ret (Some (key, with_mem w h))
  end.

Definition insert (w : World) (future : task) : outcome (option (SchedulerHandle * World)) :=
  r ← inner_insert w future;
  match r with
  | None => Ret None
  | Some (key, w) =>
      '(page, _) ← get_page w key;
      h ← PageRef.clone (mem w) page;
      Ret (Some (Handle.new key page, with_mem w h))
  end.

Definition from_raw_handle (w : World) (key : Z) : outcome (option (SchedulerHandle * World)) :=
  r ← PinSlab.get (slab w) key;
  match r with
  | None => Ret None
  | Some _ =>
      '(page, _) ← get_page w key;
      h ← PageRef.clone (mem w) page;
      Ret (Some (Handle.new key page, with_mem w h))
  end.

Definition take (w : World) (handle : SchedulerHandle) : outcome (task * World) :=
  let '(key, handle) := Handle.take_key handle in
  match key with
  | None => Panic "called Option::unwrap() on a None value"
  | Some key =>
      '(page, subpage_ix) ← get_page w key;
      pg ← page_deref (mem w) page;
      if was_dropped pg subpage_ix then Panic "assertion failed: !page.was_dropped(subpage_ix)"
      else
        h ← page_update (mem w) page (fun pg => clear pg subpage_ix);
        '(r, s) ← PinSlab.remove_unpin (slab w) key;
        match r with
        | None => Panic "called Option::unwrap() on a None value"
        | Some task =>
            h ← Handle.drop h handle;
            Ret (task, record (with_slab (with_mem w h) s) (Taken key))
        end
  end.

(** ** What the owners of handles and wakers do

    An action names a handle or a waker by its place; Rust's ownership lets nobody act on one that
    was moved away, so such an action does nothing.  [CloneContext] clones the waker of the poll in
    which the action takes place. *)
Inductive action : Type :=
| Insert (future : Fut)
| FromRaw (key : Z)
| Take (i : nat)
| PollScheduler
| DropHandle (i : nat)
| IntoRaw (i : nat)
| CloneWaker (i : nat)
| CloneContext
| Wake (i : nat)
| WakeByRef (i : nat)
| DropWaker (i : nat).

Definition push_handle (w : World) (h : SchedulerHandle) : World := with_handles w (handles w ++ [Some h]).
Definition push_waker (w : World) (ptr : Z) : World := with_wakers w (wakers w ++ [Some ptr]).

(** Take the handle or waker at a place, leaving nothing behind. *)
Definition with_handle (w : World) (i : nat) (f : SchedulerHandle -> World -> outcome World) : outcome World :=
  match handles w !! i with
  | Some (Some h) => f h (with_handles w (<[i := None]> (handles w)))
  | _ => Ret w
  end.

Definition with_waker (w : World) (i : nat) (f : Z -> World -> outcome World) : outcome World :=
  match wakers w !! i with
  | Some (Some ptr) => f ptr (with_wakers w (<[i := None]> (wakers w)))
  | _ => Ret w
  end.

(** [ctx] is the waker of the poll in progress and the key of its task, if any.  The scheduler is
    not borrowed while a task is polled, so the task may call it: but the loop holds a pointer to
    the task, so a task that takes itself out is used after it was freed.  A poll of the scheduler
    from inside a task is not followed further. *)
Definition act (ctx : option (Z * Z)) (w : World) (a : action) : outcome World :=
  match a with
  | Insert future =>
      r ← insert w (mkResult future None);
      match r with
      | Some (handle, w) => Ret (push_handle w handle)
      | None => Ret w
      end
  | FromRaw key =>
      if key <? 0 then Ret w
      else
        r ← from_raw_handle w key;
        match r with
        | Some (handle, w) => Ret (push_handle w handle)
        | None => Ret w
        end
  | Take i =>
      with_handle w i (fun handle w =>
        if decide (key handle <> None /\ key handle = snd <$> ctx) then Panic "use of a task that took itself out"
        else r ← take w handle; Ret r.2)
  | PollScheduler => Panic "limit of the model"
  | DropHandle i => with_handle w i (fun handle w => h ← Handle.drop (mem w) handle; Ret (with_mem w h))
  | IntoRaw i => with_handle w i (fun handle w => '(_, h) ← Handle.into_raw (mem w) handle; Ret (with_mem w h))
  | CloneWaker i =>
      match wakers w !! i with
      | Some (Some ptr) => '(ptr, h) ← WakerRef.waker_ref_clone (mem w) ptr; Ret (push_waker (with_mem w h) ptr)
      | _ => Ret w
      end
  | CloneContext =>
      match ctx with
      | Some (ptr, _) => '(ptr, h) ← WakerRef.waker_ref_clone (mem w) ptr; Ret (push_waker (with_mem w h) ptr)
      | None => Ret w
      end
  | Wake i => with_waker w i (fun ptr w => h ← WakerRef.waker_ref_wake (mem w) ptr; Ret (with_mem w h))
  | WakeByRef i =>
      match wakers w !! i with
      | Some (Some ptr) => h ← WakerRef.waker_ref_wake_by_ref (mem w) ptr; Ret (with_mem w h)
      | _ => Ret w
      end
  | DropWaker i => with_waker w i (fun ptr w => h ← WakerRef.waker_ref_drop (mem w) ptr; Ret (with_mem w h))
  end.

(** The model's bound on the handles and on the wakers ever created. *)
Definition LIMIT : Z := 2^60.

Definition room (w : World) : bool := (blen (handles w) <? LIMIT) && (blen (wakers w) <? LIMIT).

Fixpoint acts (ctx : option (Z * Z)) (w : World) (l : list action) : outcome World :=
  match l with
  | [] => Ret w
  | a :: l => if room w then w ← act ctx w a; acts ctx w l else Panic "limit of the model"
  end.

(** The calls on handles and wakers, which do not go through the scheduler.  The drop of a task
    makes such calls only: it happens while the scheduler is borrowed. *)
Inductive release : Type :=
| ReleaseHandle (i : nat)
| ReleaseRaw (i : nat)
| ReleaseClone (i : nat)
| ReleaseWaker (i : nat)
| ReleaseWake (i : nat)
| ReleaseWakeByRef (i : nat).

Definition release_action (r : release) : action :=
  match r with
  | ReleaseHandle i => DropHandle i
  | ReleaseRaw i => IntoRaw i
  | ReleaseClone i => CloneWaker i
  | ReleaseWaker i => DropWaker i
  | ReleaseWake i => Wake i
  | ReleaseWakeByRef i => WakeByRef i
  end.

(** The behaviour of the tasks: what a poll of the inner future does and returns, and what the
    drop of a task does. *)
Variable fut_poll : Fut -> World -> Fut * list action * option Out.
Variable fut_drop : task -> World -> list release.

(** [FutureResult::poll]: the calls it makes, the task afterwards, whether it is ready. *)
Definition result_poll (self : task) (w : World) : outcome (task * list action * bool) :=
  match done_ self with
  | Some _ => Panic "future polled after completion"
  | None =>
      let '(fut, calls, r) := fut_poll (future self) w in
      Ret (mkResult fut r, calls, match r with Some _ => true | None => false end)
  end.

(** One iteration of the loop over the notified tasks of a page. *)
Definition poll_task (w : World) (page_ix subpage_ix : Z) : outcome World :=
  let ix := wrap64 (Z.shiftl page_ix WAKER_BIT_LENGTH_SHIFT) + subpage_ix in
  match pages w !! Z.to_nat page_ix with
  | None => Panic "index out of bounds"
  | Some p =>
      '(waker, h) ← PageRef.into_raw_waker_ref (mem w) p subpage_ix;
      let w := with_mem w h in
      r ← PinSlab.get_pin_mut (slab w) ix;
      match r with
      | None => Panic "called Option::unwrap() on a None value"
      | Some (t, _) =>
          '(t', calls, ready) ← result_poll t w;
          w ← acts (Some (waker, ix)) (record w (Ran ix t)) calls;
          r ← PinSlab.get_pin_mut (slab w) ix;
          match r with
          | None => Panic "write to a removed task"
          | Some (_, write) =>
              let w := with_slab w (write t') in
              match pages w !! Z.to_nat page_ix with
              | None => Panic "index out of bounds"
              | Some p =>
                  h ← (if (ready : bool) then page_update (mem w) p (fun pg => mark_completed pg subpage_ix) else Ret (mem w));
                  h ← WakerRef.waker_ref_drop h waker;
                  Ret (with_mem w h)
              end
          end
      end
  end.

Fixpoint poll_tasks (w : World) (page_ix : Z) (l : list Z) : outcome World :=
  match l with
  | [] => Ret w
  | subpage_ix :: l => w ← poll_task w page_ix subpage_ix; poll_tasks w page_ix l
  end.

(** One iteration of the loop over the dropped tasks of a page. *)
Definition drop_task (w : World) (page_ix subpage_ix : Z) : outcome World :=
  let ix := wrap64 (Z.shiftl page_ix WAKER_BIT_LENGTH_SHIFT) + subpage_ix in
  let w := record w (DropSeen ix) in
  if negb (subpage_ix =? 0) then
    '(_, t, s) ← PinSlab.remove (slab w) ix;
    w ← (match t with
         | Some t => acts None (with_slab w s) (release_action <$> fut_drop t w)
         | None => Ret (with_slab w s)
         end);
    match pages w !! Z.to_nat page_ix with
    | None => Panic "index out of bounds"
    | Some p => h ← page_update (mem w) p (fun pg => clear pg subpage_ix); Ret (with_mem w h)
    end
  else Ret w.

Fixpoint drop_tasks (w : World) (page_ix : Z) (l : list Z) : outcome World :=
  match l with
  | [] => Ret w
  | subpage_ix :: l => w ← drop_task w page_ix subpage_ix; drop_tasks w page_ix l
  end.

(** One page. *)
Definition poll_page (w : World) (page_ix : Z) : outcome World :=
  match pages w !! Z.to_nat page_ix with
  | None => Panic "index out of bounds"
  | Some p =>
      pg ← page_deref (mem w) p;
      let '(notified, pg) := take_notified pg in
      let '(dropped, pg) := take_dropped pg in
      let w := with_mem w (<[p := pg]> (mem w)) in
      w ← (if negb (notified =? 0) then poll_tasks w page_ix (bit_iter notified) else Ret w);
      if negb (dropped =? 0) then drop_tasks w page_ix (bit_iter dropped) else Ret w
  end.

Fixpoint poll_pages (w : World) (l : list Z) : outcome World :=
  match l with
  | [] => Ret w
  | page_ix :: l => w ← poll_page w page_ix; poll_pages w l
  end.

Definition poll (w : World) : outcome World := poll_pages w (seqZ 0 (blen (pages w))).

(** ** The end of the scheduler

    The fields of [Inner] are dropped in their order: the slab with its tasks, then the references
    to the pages. *)
Fixpoint drop_entries (w : World) (l : list (PinSlab.Entry task)) : outcome World :=
  match l with
  | [] => Ret w
  | PinSlab.Occupied t :: l => w ← acts None w (release_action <$> fut_drop t w); drop_entries w l
  | _ :: l => drop_entries w l
  end.

Fixpoint drop_pages (w : World) (l : list Z) : outcome World :=
  match l with
  | [] => Ret w
  | p :: l => h ← PageRef.drop (mem w) p; drop_pages (with_pages (with_mem w h) l) l
  end.

Definition drop_scheduler (w : World) : outcome World :=
  w ← drop_entries w (concat (PinSlab.slots (slab w)));
  s ← PinSlab.clear (slab w);
  drop_pages (with_slab w s) (pages w).

(** ** Runs: what owners do, and polls *)
Inductive event : Type :=
| Act (a : action)
| Poll.

Definition step (w : World) (e : event) : outcome World :=
  match e with
  | Act a => acts None w [a]
  | Poll => poll w
  end.

Fixpoint run (w : World) (es : list event) : outcome World :=
  match es with
  | [] => Ret w
  | e :: es => w ← step w e; run w es
  end.

(** The scheduler is dropped; the owners of handles and wakers go on. *)
Definition run_down (w : World) (l : list release) : outcome World :=
  w ← drop_scheduler w; acts None w (release_action <$> l).

End scheduler.
Arguments entry : clear implicits.
Arguments World : clear implicits.
Arguments action : clear implicits.
Arguments event : clear implicits.
Arguments release : clear implicits.
End Scheduler.
