(* ===== verification/SchedulerSafety.v ===== *)
(** * The scheduler is memory safe and loses no wake-up

    The reference count of every page is the number of references to it, so no page is used after
    it is freed and none is freed twice; a task is not polled after it completed; a task that is
    woken is polled.  What tasks do is arbitrary throughout. *)

From S2P Require Import Prelude PinSlab Scheduler.
Import Waker64 Page.

(** ** Bits *)

Lemma u64_testbit_high a j : 0 <= a < 2^64 -> 64 <= j -> Z.testbit a j = false.
Proof.
  intros Ha Hj. destruct (Z.eq_dec a 0) as [->|]; [apply Z.testbit_0_l|].
  apply Z.bits_above_log2; [lia|]. apply Z.log2_lt_pow2; [lia|].
  apply Z.lt_le_trans with (2^64); [lia|]. apply Z.pow_le_mono_r; lia.
Qed.

Lemma u64_of_bits a : 0 <= a -> (forall j, 64 <= j -> Z.testbit a j = false) -> a < 2^64.
Proof.
  intros Ha Hj. destruct (Z.eq_dec a 0) as [->|]; [lia|].
  apply Z.log2_lt_pow2; [lia|]. destruct (Z.lt_ge_cases (Z.log2 a) 64) as [|Hge]; [done|].
  pose proof (Z.bit_log2 a ltac:(lia)) as Hb. rewrite Hj in Hb by done. done.
Qed.

Lemma set_bit_spec a ix j : 0 <= ix -> 0 <= j ->
  Z.testbit (Z.lor a (Z.shiftl 1 ix)) j = Z.testbit a j || (j =? ix).
Proof.
  intros Hix Hj. rewrite Z.lor_spec, Z.shiftl_spec by done. f_equal.
  destruct (Z.eqb_spec j ix) as [->|]; [by rewrite Z.sub_diag|].
  destruct (Z.lt_ge_cases j ix); [by rewrite Z.testbit_neg_r by lia|].
  apply Z.bits_above_log2; [lia|]. rewrite Z.log2_1. lia.
Qed.

Lemma not64_spec a j : 0 <= a < 2^64 -> 0 <= j < 64 -> Z.testbit (not64 a) j = negb (Z.testbit a j).
Proof.
  intros Ha Hj. unfold not64. replace (2^64 - 1) with (Z.ones 64) by reflexivity.
  rewrite Z.sub_nocarry_ldiff.
  - rewrite Z.ldiff_spec, Z.ones_spec_low by lia. done.
  - apply Z.bits_inj'. intros i Hi. rewrite Z.ldiff_spec, Z.bits_0.
    destruct (Z.lt_ge_cases i 64); [by rewrite Z.ones_spec_low, andb_false_r by lia|].
    by rewrite (u64_testbit_high a) by lia.
Qed.

Lemma clear_bit_spec a ix j : 0 <= a < 2^64 -> 0 <= ix < 64 -> 0 <= j ->
  Z.testbit (Z.land a (not64 (Z.shiftl 1 ix))) j = Z.testbit a j && negb (j =? ix).
Proof.
  intros Ha Hix Hj. rewrite Z.land_spec. destruct (Z.lt_ge_cases j 64) as [Hlt|Hge].
  - rewrite not64_spec; [|rewrite Z.shiftl_mul_pow2 by lia; pose proof (Z.pow_lt_mono_r 2 ix 64); pose proof (Z.pow_nonneg 2 ix); lia|lia].
    f_equal. f_equal. pose proof (set_bit_spec 0 ix j). rewrite Z.lor_0_l, Z.testbit_0_l in *. cbn in *. auto with lia.
  - by rewrite (u64_testbit_high a j) by lia.
Qed.

Lemma bit_test a ix : 0 <= ix -> negb (Z.land a (Z.shiftl 1 ix) =? 0) = Z.testbit a ix.
Proof.
  intros Hix. pose proof (set_bit_spec 0 ix) as Hs. rewrite Z.lor_0_l in Hs.
  destruct (Z.testbit a ix) eqn:E.
  - destruct (Z.eqb_spec (Z.land a (Z.shiftl 1 ix)) 0) as [H0|]; [|done].
    assert (Hb : Z.testbit (Z.land a (Z.shiftl 1 ix)) ix = true).
    { rewrite Z.land_spec, E, Hs by done. rewrite Z.eqb_refl. by rewrite orb_true_r. }
    by rewrite H0, Z.testbit_0_l in Hb.
  - rewrite (proj2 (Z.eqb_eq _ _)); [done|]. apply Z.bits_inj'. intros j Hj.
    rewrite Z.land_spec, Hs, !Z.testbit_0_l by done. cbn.
    destruct (Z.eqb_spec j ix) as [->|]; [by rewrite E|by rewrite andb_false_r].
Qed.

Lemma set_bit_ok a ix : 0 <= a < 2^64 -> 0 <= ix < 64 -> 0 <= Z.lor a (Z.shiftl 1 ix) < 2^64.
Proof.
  intros Ha Hix. assert (0 <= Z.lor a (Z.shiftl 1 ix)) by (apply Z.lor_nonneg; rewrite Z.shiftl_nonneg; lia).
  split; [done|]. apply u64_of_bits; [done|]. intros j Hj.
  rewrite set_bit_spec, u64_testbit_high by lia. destruct (Z.eqb_spec j ix); [lia|done].
Qed.

Lemma land_ok a b : 0 <= a < 2^64 -> 0 <= Z.land a b < 2^64.
Proof.
  intros Ha. assert (0 <= Z.land a b) by (apply Z.land_nonneg; lia).
  split; [done|]. apply u64_of_bits; [done|]. intros j Hj. by rewrite Z.land_spec, u64_testbit_high by lia.
Qed.

(** ** Pages *)

Definition page_ok (pg : WakerPage) : Prop :=
  0 <= notified pg < 2^64 /\ 0 <= completed pg < 2^64 /\ 0 <= dropped pg < 2^64.

(** An update that keeps the reference count and the widths. *)
Definition benign (f : WakerPage -> WakerPage) : Prop :=
  forall pg, page_ok pg -> page_ok (f pg) /\ refcount (f pg) = refcount pg.

Lemma benign_notify ix : 0 <= ix < 64 -> benign (fun pg => notify pg ix).
Proof. intros Hi pg (?&?&?). split; [|done]. refine (conj _ (conj _ _)); cbn; (apply set_bit_ok || idtac); done. Qed.

Lemma benign_completed ix : 0 <= ix < 64 -> benign (fun pg => mark_completed pg ix).
Proof. intros Hi pg (?&?&?). split; [|done]. refine (conj _ (conj _ _)); cbn; (apply set_bit_ok || idtac); done. Qed.

Lemma benign_dropped ix : 0 <= ix < 64 -> benign (fun pg => mark_dropped pg ix).
Proof. intros Hi pg (?&?&?). split; [|done]. refine (conj _ (conj _ _)); cbn; (apply set_bit_ok || idtac); done. Qed.

Lemma benign_initialize ix : 0 <= ix < 64 -> benign (fun pg => initialize pg ix).
Proof.
  intros Hi pg (?&?&?). split; [|done].
  refine (conj _ (conj _ _)); cbn; (apply set_bit_ok || apply land_ok); done.
Qed.

Lemma benign_clear ix : benign (fun pg => clear pg ix).
Proof. intros pg (?&?&?). split; [|done]. refine (conj _ (conj _ _)); cbn; apply land_ok; done. Qed.

(** ** Memory and reference counts

    [n p] is the number of references to the page at [p]. *)

Definition addr_ok (p : Z) : Prop := p mod 64 = 0 /\ 0 < p <= 2^64 - 64.

Definition heap_ok (h : heap) (n : Z -> nat) : Prop :=
  forall p, match h !! p with
       | Some pg => page_ok pg /\ addr_ok p /\ refcount pg = Z.of_nat (n p) /\ (0 < n p)%nat
       | None => n p = 0%nat
       end.

Definition at_ (p q : Z) : nat := if decide (p = q) then 1 else 0.

Lemma at_eq p : at_ p p = 1%nat.
Proof. unfold at_. by rewrite decide_True. Qed.

Lemma at_ne p q : p <> q -> at_ p q = 0%nat.
Proof. intros. unfold at_. by rewrite decide_False. Qed.

Lemma heap_ok_ext h n n' : (forall p, n p = n' p) -> heap_ok h n -> heap_ok h n'.
Proof. intros E Hh p. specialize (Hh p). destruct (h !! p); by rewrite <- E. Qed.

Lemma heap_ok_live h n p : heap_ok h n -> (0 < n p)%nat ->
  exists pg, h !! p = Some pg /\ page_ok pg /\ addr_ok p /\ refcount pg = Z.of_nat (n p).
Proof. intros Hh Hp. specialize (Hh p). destruct (h !! p) as [pg|]; [|lia]. exists pg. destruct Hh as (?&?&?&?). done. Qed.

(** Two memories that differ in reference counts and in freed pages only. *)
Definition same_bits (h h' : heap) : Prop :=
  forall p pg', h' !! p = Some pg' -> exists pg, h !! p = Some pg /\
    notified pg' = notified pg /\ completed pg' = completed pg /\ dropped pg' = dropped pg.

Lemma same_bits_dom h h' p : same_bits h h' -> is_Some (h' !! p) -> is_Some (h !! p).
Proof. intros Hs [pg' Hp]. destruct (Hs _ _ Hp) as (pg & -> & _). by exists pg. Qed.

Lemma insert_dom (h : heap) p pg g q : h !! p = Some pg -> is_Some (<[p := g]> h !! q) -> is_Some (h !! q).
Proof. intros Hp [->|[_ Hq]]%lookup_insert_is_Some; [by exists pg|done]. Qed.

Lemma page_update_ok h n p f : heap_ok h n -> (0 < n p)%nat -> benign f ->
  exists pg, h !! p = Some pg /\ page_ok pg /\ page_update h p f = Ret (<[p := f pg]> h) /\ heap_ok (<[p := f pg]> h) n.
Proof.
  intros Hh Hp Hf. destruct (heap_ok_live _ _ _ Hh Hp) as (pg & Hpg & Hok & Ha & Hr).
  exists pg. unfold page_update, page_deref. rewrite Hpg. split_and!; try done.
  destruct (Hf pg Hok) as [Hok' Hr']. intros q. destruct (decide (q = p)) as [->|].
  - rewrite lookup_insert_eq. by rewrite Hr'.
  - rewrite lookup_insert_ne by done. apply Hh.
Qed.

Lemma clone_ok h n p : heap_ok h n -> (0 < n p)%nat -> Z.of_nat (n p) + 1 < 2^64 ->
  exists h', PageRef.clone h p = Ret h' /\ heap_ok h' (fun q => n q + at_ p q)%nat /\ same_bits h h' /\ dom h' = dom h.
Proof.
  intros Hh Hp Hb. destruct (heap_ok_live _ _ _ Hh Hp) as (pg & Hpg & Hok & Ha & Hr).
  unfold PageRef.clone, page_update, page_deref. rewrite Hpg. cbn. eexists. split; [done|]. split; [|split].
  - intros q. destruct (decide (q = p)) as [->|].
    + rewrite lookup_insert_eq, at_eq. cbn. split_and!; try done; try lia.
      rewrite Hr. unfold wrap64. rewrite Z.mod_small; lia.
    + rewrite lookup_insert_ne, at_ne, Nat.add_0_r by done. apply Hh.
  - intros q pg'. destruct (decide (q = p)) as [->|].
    + rewrite lookup_insert_eq. intros [= <-]. by exists pg.
    + rewrite lookup_insert_ne by done. by exists pg'.
  - rewrite dom_insert_L. apply elem_of_dom_2 in Hpg. apply subseteq_union_1_L. by apply singleton_subseteq_l.
Qed.

Lemma drop_ok h n p : heap_ok h n -> (0 < n p)%nat ->
  exists h', PageRef.drop h p = Ret h' /\ heap_ok h' (fun q => n q - at_ p q)%nat /\ same_bits h h'.
Proof.
  intros Hh Hp. destruct (heap_ok_live _ _ _ Hh Hp) as (pg & Hpg & Hok & Ha & Hr).
  unfold PageRef.drop, page_deref, refcount_dec, fetch_sub. rewrite Hpg. cbn.
  rewrite (proj2 (Z.ltb_ge _ _)) by lia. cbn.
  destruct (Z.eqb_spec (refcount pg) 1) as [H1|H1]; (eexists; split; [done|]; split).
  - intros q. destruct (decide (q = p)) as [->|].
    + rewrite lookup_delete_eq, at_eq. lia.
    + rewrite lookup_delete_ne, at_ne, Nat.sub_0_r by done. apply Hh.
  - intros q pg' Hq. apply lookup_delete_Some in Hq as [_ Hq]. by exists pg'.
  - intros q. destruct (decide (q = p)) as [->|].
    + rewrite lookup_insert_eq, at_eq. cbn. split_and!; try done; lia.
    + rewrite lookup_insert_ne, at_ne, Nat.sub_0_r by done. apply Hh.
  - intros q pg'. destruct (decide (q = p)) as [->|].
    + rewrite lookup_insert_eq. intros [= <-]. by exists pg.
    + rewrite lookup_insert_ne by done. by exists pg'.
Qed.

(** ** Wakers as pointers into pages *)

(** The address of the page and the index come back from the pointer. *)
Lemma base_ptr_spec p ix : addr_ok p -> 0 <= ix < 64 -> WakerRef.base_ptr (p + ix) = (p, ix).
Proof.
  intros [Ha Hr] Hix. unfold WakerRef.base_ptr, WakerRef.align_offset, WAKER_PAGE_SIZE.
  assert (Hm : (p + ix) mod 64 = ix) by (rewrite <- Zplus_mod_idemp_l, Ha; apply Z.mod_small; lia).
  destruct (Z.eq_dec ix 0) as [->|Hne].
  - rewrite Z.mod_opp_l_z by (lia || done). by rewrite Z.add_0_r.
  - rewrite Z.mod_opp_l_nz, Hm by lia. rewrite (proj2 (Z.eqb_neq _ _)) by lia. cbn.
    unfold wrap64. f_equal; [|lia]. rewrite Z.mod_small; lia.
Qed.

Lemma base_ptr_ix ptr : 0 <= (WakerRef.base_ptr ptr).2 < 64.
Proof.
  unfold WakerRef.base_ptr, WakerRef.align_offset, WAKER_PAGE_SIZE.
  pose proof (Z.mod_pos_bound (- ptr) 64). destruct (Z.eqb_spec ((- ptr) mod 64) 0); cbn; lia.
Qed.

(** ** Counting references *)

Definition cnt {A} (g : A -> Z) (l : list (option A)) (p : Z) : nat :=
  length (filter (fun o => g <$> o = Some p) l).

Arguments cnt : simpl never.

Lemma cnt_app {A} (g : A -> Z) l k p : cnt g (l ++ k) p = (cnt g l p + cnt g k p)%nat.
Proof. unfold cnt. by rewrite filter_app, length_app. Qed.

Lemma cnt_one {A} (g : A -> Z) a p : cnt g [Some a] p = at_ (g a) p.
Proof.
  unfold cnt, at_. rewrite filter_cons. cbn. destruct (decide (g a = p)) as [Heq|Hne].
  - by rewrite decide_True by congruence.
  - by rewrite decide_False by congruence.
Qed.

Lemma cnt_none {A} (g : A -> Z) p : cnt g [None] p = 0%nat.
Proof. unfold cnt. by rewrite filter_cons, decide_False. Qed.

(** Moving an element away takes its reference with it. *)
Lemma cnt_move {A} (g : A -> Z) l i a p : l !! i = Some (Some a) ->
  cnt g l p = (cnt g (<[i := None]> l) p + at_ (g a) p)%nat.
Proof.
  intros Hi. pose proof (lookup_lt_Some _ _ _ Hi). rewrite <- (take_drop_middle l i _ Hi) at 1.
  rewrite insert_take_drop by done. rewrite !(cnt_app _ (take i l)).
  change (Some a :: drop (S i) l) with ([Some a] ++ drop (S i) l).
  change (None :: drop (S i) l) with ([None] ++ drop (S i) l).
  rewrite !cnt_app, cnt_one, cnt_none. lia.
Qed.

Lemma cnt_le {A} (g : A -> Z) l p : (cnt g l p <= length l)%nat.
Proof. apply length_filter. Qed.

Module Safety.
Import Scheduler.
Section safety.
Context {Fut Out : Type} `{Allocator} `{BitIter}.
Abbreviation task := (FutureResult Fut Out).
Abbreviation W := (World Fut Out).
Implicit Types (w : W) (m : gmap Z task).

Definition page_of (ptr : Z) : Z := (WakerRef.base_ptr ptr).1.

Definition refs (ctx : option Z) w (p : Z) : nat :=
  (if decide (p ∈ pages w) then 1 else 0) + cnt chunk (handles w) p + cnt page_of (wakers w) p + cnt page_of [ctx] p.

(** The flag of a task. *)
Definition flag (f : WakerPage -> Z) w (k : Z) : bool :=
  match pages w !! Z.to_nat (k / 64) with
  | Some p => match mem w !! p with Some pg => Z.testbit (f pg) (k mod 64) | None => false end
  | None => false
  end.

(** ** The invariant: [m] holds the tasks, [ctx] is the waker of the poll in progress. *)
Record inv (ctx : option Z) w m : Prop := {
  i_slab : PinSlab.slab_rep (slab w) m;
  i_size : (size m <= length (handles w))%nat;
  i_handles_lim : blen (handles w) <= LIMIT;
  i_wakers_lim : blen (wakers w) <= LIMIT;
  i_nodup : NoDup (pages w);
  i_pages_lim : 64 * blen (pages w) <= 2^63;
  i_keys : forall k, is_Some (m !! k) -> 0 <= k < 64 * blen (pages w);
  i_mem : heap_ok (mem w) (refs ctx w);
  i_dom : forall p, is_Some (mem w !! p) -> p ∈ pages w;
  i_handles : forall i h, handles w !! i = Some (Some h) ->
    exists k, key h = Some k /\ 0 <= k /\ pages w !! Z.to_nat (k / 64) = Some (chunk h);
  i_done : forall k t, m !! k = Some t -> done_ t <> None -> flag completed w k = true;
}.

(** What the log has gained between two states, and the keys of the tasks run. *)
Definition polled_keys (l : list (entry Fut Out)) : list Z :=
  omap (fun e => match e with Ran k _ => Some k | _ => None end) l.
Definition grew (ks : list Z) w w' : Prop := exists l, log w' = log w ++ l /\ polled_keys l = ks.
Definition logged w w' (e : entry Fut Out) : Prop := exists l, log w' = log w ++ l /\ e ∈ l.

Lemma grew_same w w' : log w' = log w -> grew [] w w'.
Proof. intros E. exists []. by rewrite app_nil_r. Qed.

Lemma grew_trans ks ks' w w1 w2 : grew ks w w1 -> grew ks' w1 w2 -> grew (ks ++ ks') w w2.
Proof.
  intros (l & E & <-) (l' & E' & <-). exists (l ++ l'). split; [by rewrite E', E, app_assoc|].
  unfold polled_keys. by rewrite omap_app.
Qed.

Lemma logged_l ks w w1 w2 e : logged w w1 e -> grew ks w1 w2 -> logged w w2 e.
Proof. intros (l & E & Hl) (l' & E' & _). exists (l ++ l'). split; [by rewrite E', E, app_assoc|]. apply elem_of_app. by left. Qed.

Lemma logged_r ks w w1 w2 e : grew ks w w1 -> logged w1 w2 e -> logged w w2 e.
Proof. intros (l & E & _) (l' & E' & Hl). exists (l ++ l'). split; [by rewrite E', E, app_assoc|]. apply elem_of_app. by right. Qed.

(** What happens to one task: it is taken out, or stays, still notified if it was, not completed if
    it was not. *)
Definition held k w m w' m' : Prop :=
  forall t, m !! k = Some t -> logged w w' (Taken k) \/
    (m' !! k = Some t /\
     (flag notified w k = true -> flag notified w' k = true) /\
     (flag completed w k = false -> flag completed w' k = false)).

Lemma held_refl k w m : held k w m w m.
Proof. intros t Ht. by right. Qed.

Lemma held_trans ks ks' k w m w1 m1 w2 m2 :
  grew ks w w1 -> grew ks' w1 w2 -> held k w m w1 m1 -> held k w1 m1 w2 m2 -> held k w m w2 m2.
Proof.
  intros G1 G2 H1 H2 t Ht. destruct (H1 t Ht) as [?|(Ht1 & ? & ?)]; [left; by eapply logged_l|].
  destruct (H2 t Ht1) as [?|(? & ? & ?)]; [left; by eapply logged_r|right; auto].
Qed.

(** What a step that runs the tasks [ks] leaves of the tasks there were. *)
Record ext (ks : list Z) w m w' m' : Prop := {
  x_log : grew ks w w';
  x_pages : forall i p, pages w !! i = Some p -> pages w' !! i = Some p;
  x_held : forall k, k ∉ ks -> held k w m w' m';
  x_new : forall k, is_Some (m' !! k) -> k ∉ ks -> flag completed w' k = true ->
    is_Some (m !! k) /\ flag completed w k = true;
}.

Lemma ext_refl w m : ext [] w m w m.
Proof. split; [by apply grew_same|done|intros; apply held_refl|done]. Qed.

Lemma ext_trans ks ks' w m w1 m1 w2 m2 : ext ks w m w1 m1 -> ext ks' w1 m1 w2 m2 -> ext (ks ++ ks') w m w2 m2.
Proof.
  intros [G1 P1 K1 X1] [G2 P2 K2 X2]. split; auto.
  - by eapply grew_trans.
  - intros k [? ?]%not_elem_of_app. eapply held_trans; eauto.
  - intros k Hk [? ?]%not_elem_of_app Hc. destruct (X2 k Hk) as [Hk1 Hc1]; [done|done|]. by apply X1.
Qed.

Lemma refs_le ctx w m p : inv ctx w m -> Z.of_nat (refs ctx w p) + 1 < 2^64.
Proof.
  intros Hi. pose proof (i_handles_lim _ _ _ Hi). pose proof (i_wakers_lim _ _ _ Hi).
  pose proof (cnt_le chunk (handles w) p). pose proof (cnt_le page_of (wakers w) p). pose proof (cnt_le page_of [ctx] p).
  unfold refs, blen, LIMIT in *. cbn [length] in *. destruct (decide _); lia.
Qed.

Lemma refs_page ctx w i p : pages w !! i = Some p -> (0 < refs ctx w p)%nat.
Proof. intros Hi%list_elem_of_lookup_2. unfold refs. rewrite decide_True by done. lia. Qed.

Lemma refs_handle ctx w i h : handles w !! i = Some (Some h) -> (0 < refs ctx w (chunk h))%nat.
Proof. intros Hi. unfold refs. rewrite (cnt_move _ _ _ _ _ Hi), at_eq. lia. Qed.

Lemma refs_waker ctx w i ptr : wakers w !! i = Some (Some ptr) -> (0 < refs ctx w (page_of ptr))%nat.
Proof. intros Hi. unfold refs. rewrite (cnt_move page_of _ _ _ _ Hi), at_eq. lia. Qed.

Lemma refs_ctx w ptr : (0 < refs (Some ptr) w (page_of ptr))%nat.
Proof. unfold refs. rewrite cnt_one, at_eq. lia. Qed.

(** Flags in a memory with the same bits, and after an update of one page. *)
Lemma flag_same ctx w w' m : inv ctx w m -> pages w' = pages w -> same_bits (mem w) (mem w') ->
  (forall p, p ∈ pages w -> is_Some (mem w' !! p)) ->
  forall k, flag notified w' k = flag notified w k /\ flag completed w' k = flag completed w k /\
    flag dropped w' k = flag dropped w k.
Proof.
  intros Hi Hp Hs Hl k. unfold flag. rewrite Hp. destruct (pages w !! Z.to_nat (k / 64)) as [p|] eqn:E; [|done].
  destruct (Hl p) as [pg' Hpg']; [by eapply list_elem_of_lookup_2|]. rewrite Hpg'.
  destruct (Hs _ _ Hpg') as (pg & -> & -> & -> & ->). done.
Qed.

Lemma flag_update w p pg g k f : mem w !! p = Some pg ->
  flag f (with_mem w (<[p := g]> (mem w))) k =
  match pages w !! Z.to_nat (k / 64) with
  | Some q => if decide (q = p) then Z.testbit (f g) (k mod 64) else flag f w k
  | None => false
  end.
Proof.
  intros Hp. unfold flag. cbn. destruct (pages w !! Z.to_nat (k / 64)) as [q|]; [|done].
  destruct (decide (q = p)) as [->|]; [by rewrite lookup_insert_eq|by rewrite lookup_insert_ne].
Qed.

(** A change of memory, handles and wakers that keeps tasks and pages. *)
Lemma world_change ctx ctx' w w' m : inv ctx w m -> slab w' = slab w -> pages w' = pages w ->
  (length (handles w) <= length (handles w'))%nat -> blen (handles w') <= LIMIT -> blen (wakers w') <= LIMIT ->
  heap_ok (mem w') (refs ctx' w') -> (forall p, is_Some (mem w' !! p) -> is_Some (mem w !! p)) ->
  (forall i h, handles w' !! i = Some (Some h) -> (exists j, handles w !! j = Some (Some h)) \/
     exists k, key h = Some k /\ 0 <= k /\ pages w !! Z.to_nat (k / 64) = Some (chunk h)) ->
  (forall k, is_Some (m !! k) -> flag completed w k = true -> flag completed w' k = true) ->
  inv ctx' w' m.
Proof.
  intros [I1 I2 I3 I4 I5 I6 I7 I8 Id I9 I10] Hs Hp Hl Hh Hw Hm Hdom Hv Hc.
  split; rewrite ?Hs, ?Hp; auto; try lia.
  - intros i h Hi. destruct (Hv _ _ Hi) as [[j Hj]|]; eauto.
  - intros k t Hk Hd. apply Hc; [by exists t|by eapply I10].
Qed.

Lemma ext_flags w w' m m' : log w' = log w -> (forall i p, pages w !! i = Some p -> pages w' !! i = Some p) ->
  (forall k t, m !! k = Some t -> m' !! k = Some t) ->
  (forall k, is_Some (m !! k) -> flag notified w k = true -> flag notified w' k = true) ->
  (forall k, is_Some (m !! k) -> flag completed w' k = flag completed w k) ->
  (forall k, is_Some (m' !! k) -> flag completed w' k = true -> is_Some (m !! k)) -> ext [] w m w' m'.
Proof.
  intros Hl Hp Hm Hn Hc Hd. split; [by apply grew_same|done| |].
  - intros k _ t Ht. right. split_and!; [auto|apply Hn; by exists t|]. by rewrite Hc by (by exists t).
  - intros k Hk _ Hck. pose proof (Hd k Hk Hck) as Hs. by rewrite <- Hc.
Qed.

Lemma ext_bits w w' m : log w' = log w -> pages w' = pages w ->
  (forall k, flag notified w k = true -> flag notified w' k = true) ->
  (forall k, flag completed w' k = flag completed w k) -> ext [] w m w' m.
Proof. intros Hl Hp Hn Hc. apply ext_flags; rewrite ?Hp; auto. Qed.

(** The waker moved from place [i] gives its reference back. *)
Lemma handles_keep w w' : handles w' = handles w -> forall i h, handles w' !! i = Some (Some h) ->
  (exists j, handles w !! j = Some (Some h)) \/
  exists k, key h = Some k /\ 0 <= k /\ pages w !! Z.to_nat (k / 64) = Some (chunk h).
Proof. intros ->. eauto. Qed.

Lemma handles_move w w' i : handles w' = <[i := None]> (handles w) -> forall j h, handles w' !! j = Some (Some h) ->
  (exists j, handles w !! j = Some (Some h)) \/
  exists k, key h = Some k /\ 0 <= k /\ pages w !! Z.to_nat (k / 64) = Some (chunk h).
Proof. intros -> j h [(_ & [=] & _)|[_ Hj]]%list_lookup_insert_Some. eauto. Qed.

Lemma pages_live ctx w w' : heap_ok (mem w') (refs ctx w') -> pages w' = pages w ->
  forall p, p ∈ pages w -> is_Some (mem w' !! p).
Proof.
  intros Hh Hp p [i Hi]%list_elem_of_lookup_1. rewrite <- Hp in Hi.
  destruct (heap_ok_live _ _ p Hh) as (pg & -> & _); [by eapply refs_page|by exists pg].
Qed.

(** Giving up one reference, in [w1], which differs from [w] in handles and wakers only. *)
Lemma inv_release ctx ctx' w w1 m p : inv ctx w m -> log w1 = log w -> slab w1 = slab w -> pages w1 = pages w -> mem w1 = mem w ->
  length (handles w1) = length (handles w) -> length (wakers w1) = length (wakers w) ->
  (forall i h, handles w1 !! i = Some (Some h) -> (exists j, handles w !! j = Some (Some h)) \/
     exists k, key h = Some k /\ 0 <= k /\ pages w !! Z.to_nat (k / 64) = Some (chunk h)) ->
  (forall q, refs ctx w q = refs ctx' w1 q + at_ p q)%nat ->
  exists h, PageRef.drop (mem w) p = Ret h /\ inv ctx' (with_mem w1 h) m /\ ext [] w m (with_mem w1 h) m.
Proof.
  intros Hi Hlg Hs Hp Hm Hh Hw Hv Hr. pose proof (Hr p) as Hrp. rewrite at_eq in Hrp.
  destruct (drop_ok _ _ p (i_mem _ _ _ Hi)) as (h & Hd & Hok & Hsame); [lia|].
  assert (Hok' : heap_ok (mem (with_mem w1 h)) (refs ctx' (with_mem w1 h))).
  { eapply heap_ok_ext, Hok. intros q. cbn. rewrite Hr. change (refs ctx' (with_mem w1 h) q) with (refs ctx' w1 q). lia. }
  pose proof (flag_same _ w (with_mem w1 h) _ Hi Hp Hsame (pages_live _ _ _ Hok' Hp)) as Hf.
  exists h. split; [done|]. split.
  - eapply world_change; try done; cbn; rewrite ?Hh; try done.
    + unfold blen. rewrite Hh. apply Hi.
    + unfold blen. rewrite Hw. apply Hi.
    + intros q. by apply same_bits_dom.
    + intros k _. by rewrite (proj1 (proj2 (Hf k))).
  - apply ext_bits; [done|done| |]; intros k; [by rewrite (proj1 (Hf k))|apply Hf].
Qed.

(** An update of one page that keeps the completed flags and sets notified flags at most. *)
Lemma inv_update ctx w m p f : inv ctx w m -> (0 < refs ctx w p)%nat -> benign f ->
  (forall pg, page_ok pg -> completed (f pg) = completed pg /\
    forall j, 0 <= j -> Z.testbit (notified pg) j = true -> Z.testbit (notified (f pg)) j = true) ->
  exists h, page_update (mem w) p f = Ret h /\ inv ctx (with_mem w h) m /\ ext [] w m (with_mem w h) m.
Proof.
  intros Hi Hp Hb Hf. destruct (page_update_ok _ _ _ _ (i_mem _ _ _ Hi) Hp Hb) as (pg & Hpg & Hok & Hu & Hh).
  destruct (Hf _ Hok) as [Hc Hn]. exists (<[p := f pg]> (mem w)). split; [done|].
  assert (Hfc : forall k, flag completed (with_mem w (<[p := f pg]> (mem w))) k = flag completed w k).
  { intros k. rewrite (flag_update _ _ _ _ _ _ Hpg), Hc. unfold flag.
    destruct (pages w !! Z.to_nat (k / 64)) as [q|]; [|done]. destruct (decide (q = p)) as [->|]; [by rewrite Hpg|done]. }
  split.
  - eapply world_change; try done; try apply Hi.
    + intros q. by eapply insert_dom.
    + by apply handles_keep.
    + intros k _. by rewrite Hfc.
  - apply ext_bits; [done|done| |done]. intros k. rewrite (flag_update _ _ _ _ _ _ Hpg). unfold flag.
    destruct (pages w !! Z.to_nat (k / 64)) as [q|]; [|done]. destruct (decide (q = p)) as [->|]; [rewrite Hpg|done].
    apply Hn. by apply Z.mod_pos_bound.
Qed.

(** One more reference to a page in use. *)
Lemma inv_acquire ctx w m p : inv ctx w m -> (0 < refs ctx w p)%nat ->
  exists h, PageRef.clone (mem w) p = Ret h /\ heap_ok h (fun q => refs ctx w q + at_ p q)%nat /\ same_bits (mem w) h /\
    (forall w1, mem w1 = h -> log w1 = log w -> pages w1 = pages w -> slab w1 = slab w ->
       (length (handles w) <= length (handles w1))%nat -> blen (handles w1) <= LIMIT -> blen (wakers w1) <= LIMIT ->
       (forall i h, handles w1 !! i = Some (Some h) -> (exists j, handles w !! j = Some (Some h)) \/
          exists k, key h = Some k /\ 0 <= k /\ pages w !! Z.to_nat (k / 64) = Some (chunk h)) ->
       forall ctx', (forall q, refs ctx' w1 q = refs ctx w q + at_ p q)%nat ->
       inv ctx' w1 m /\ ext [] w m w1 m).
Proof.
  intros Hi Hp. destruct (clone_ok _ _ _ (i_mem _ _ _ Hi) Hp (refs_le _ _ _ _ Hi)) as (h & Hc & Hok & Hsame & _).
  exists h. split_and!; try done. intros w1 <- Hlg Hpg Hs Hl Hhl Hwl Hv ctx' Hr.
  assert (Hok' : heap_ok (mem w1) (refs ctx' w1)) by (eapply heap_ok_ext, Hok; intros q; by rewrite Hr).
  pose proof (flag_same _ w w1 _ Hi Hpg Hsame (pages_live _ _ _ Hok' Hpg)) as Hf. split.
  - eapply world_change; try done; [intros q; by apply same_bits_dom|]. intros k _. by rewrite (proj1 (proj2 (Hf k))).
  - apply ext_bits; [done|done| |]; intros k; [by rewrite (proj1 (Hf k))|apply Hf].
Qed.

(** A step that keeps the tasks: it returns, and everything is as before up to flags it sets. *)
Definition keeps ctx w m (o : outcome W) : Prop :=
  exists w', o = Ret w' /\ log w' = log w /\ inv ctx w' m /\ ext [] w m w' m.

Lemma ext_trans_none ks w m w1 m1 w2 m2 : ext [] w m w1 m1 -> ext ks w1 m1 w2 m2 -> ext ks w m w2 m2.
Proof. apply (ext_trans []). Qed.

Lemma keeps_same ctx w m : inv ctx w m -> keeps ctx w m (Ret w).
Proof. intros Hi. exists w. split_and!; [done|done|done|apply ext_refl]. Qed.

Lemma benign_mono_notify ix : 0 <= ix < 64 -> forall pg, page_ok pg -> completed (notify pg ix) = completed pg /\
  forall j, 0 <= j -> Z.testbit (notified pg) j = true -> Z.testbit (notified (notify pg ix)) j = true.
Proof. intros Hix pg Hok. split; [done|]. intros j Hj Hb. cbn. unfold fetch_or. by rewrite set_bit_spec, Hb by lia. Qed.

Lemma land63 k : 0 <= k -> Z.land k (WAKER_BIT_LENGTH - 1) = k mod 64.
Proof. intros. by apply (land_ones_mod k _ 6). Qed.

(** Handles *)
Lemma refs_move_handle ctx w i h q : handles w !! i = Some (Some h) ->
  refs ctx w q = (refs ctx (with_handles w (<[i := None]> (handles w))) q + at_ (chunk h) q)%nat.
Proof. intros Hi. unfold refs. cbn. rewrite (cnt_move chunk _ _ _ _ Hi). lia. Qed.

Lemma drop_handle_ok ctx w m i h o : inv ctx w m -> handles w !! i = Some (Some h) ->
  o = key h \/ o = None ->
  keeps ctx w m (m' ← Handle.drop (mem w) (mkHandle o (chunk h)); Ret (with_mem (with_handles w (<[i := None]> (handles w))) m')).
Proof.
  intros Hi Hh Ho. destruct (i_handles _ _ _ Hi _ _ Hh) as (k & Hk & Hk0 & Hp).
  assert (Hu : exists h', match o with
                 | Some k => page_update (mem w) (chunk h) (fun pg => mark_dropped pg (Z.land k (WAKER_BIT_LENGTH - 1)))
                 | None => Ret (mem w)
                 end = Ret h' /\ inv ctx (with_mem w h') m /\ ext [] w m (with_mem w h') m).
  { destruct o as [k'|]; [|exists (mem w); destruct w; split_and!; [done|done|apply ext_refl]].
    destruct Ho as [Ho|]; [|done]. rewrite Hk in Ho. injection Ho as ->.
    rewrite land63 by done. pose proof (Z.mod_pos_bound k 64 ltac:(lia)).
    apply inv_update; [done|by eapply refs_handle|by apply benign_dropped|]. intros pg Hok. by split. }
  destruct Hu as (h' & Hu & Hi' & Hx'). unfold Handle.drop. cbn [Handle.take_key key chunk]. rewrite Hu. cbn [mbind outcome_bind].
  destruct (inv_release ctx ctx (with_mem w h') (with_mem (with_handles w (<[i := None]> (handles w))) h') m (chunk h) Hi')
    as (h2 & Hd & Hi2 & Hx2); try done.
  - cbn. by rewrite length_insert.
  - apply (handles_move (with_mem w h') _ i). done.
  - intros q. by apply (refs_move_handle ctx (with_mem w h')).
  - cbn in Hd. rewrite Hd. cbn. eexists. split_and!; [done|done|done|]. by eapply ext_trans_none.
Qed.

(** Wakers *)
Lemma refs_move_waker ctx w i ptr q : wakers w !! i = Some (Some ptr) ->
  refs ctx w q = (refs ctx (with_wakers w (<[i := None]> (wakers w))) q + at_ (page_of ptr) q)%nat.
Proof. intros Hi. unfold refs. cbn. rewrite (cnt_move page_of _ _ _ _ Hi). lia. Qed.

Lemma drop_waker_ok ctx w m i ptr : inv ctx w m -> wakers w !! i = Some (Some ptr) ->
  keeps ctx w m (h ← WakerRef.drop (mem w) ptr; Ret (with_mem (with_wakers w (<[i := None]> (wakers w))) h)).
Proof.
  intros Hi Hw. unfold WakerRef.drop.
  destruct (inv_release ctx ctx w (with_wakers w (<[i := None]> (wakers w))) m (page_of ptr) Hi)
    as (h & Hd & Hi2 & Hx2); try done.
  - cbn. by rewrite length_insert.
  - by apply handles_keep.
  - intros q. by apply refs_move_waker.
  - unfold page_of in Hd. rewrite Hd. cbn. by eexists.
Qed.

Lemma wake_by_ref_ok ctx w m ptr : inv ctx w m -> (0 < refs ctx w (page_of ptr))%nat ->
  exists h, WakerRef.wake_by_ref (mem w) ptr = Ret h /\ inv ctx (with_mem w h) m /\ ext [] w m (with_mem w h) m.
Proof.
  intros Hi Hp. unfold WakerRef.wake_by_ref. unfold page_of in Hp. pose proof (base_ptr_ix ptr) as Hix.
  destruct (WakerRef.base_ptr ptr) as [b ix]. cbn in *.
  apply inv_update; [done|done|by apply benign_notify|by apply benign_mono_notify].
Qed.

Lemma clone_waker_ok ctx w m ptr : inv ctx w m -> (0 < refs ctx w (page_of ptr))%nat -> room w = true ->
  keeps ctx w m ('(ptr, h) ← WakerRef.clone (mem w) ptr; Ret (push_waker (with_mem w h) ptr)).
Proof.
  intros Hi Hp [Hrh Hrw]%andb_true_iff. unfold WakerRef.clone.
  destruct (inv_acquire _ _ _ _ Hi Hp) as (h & Hc & _ & _ & Hw). unfold page_of in Hc. rewrite Hc. cbn.
  eexists. split; [done|]. split; [done|]. apply Hw; try done.
  - apply Hi.
  - cbn. rewrite blen_app. cbn. apply Z.ltb_lt in Hrw. unfold blen in *. cbn in *. lia.
  - by apply handles_keep.
  - intros q. unfold refs, push_waker. cbn. rewrite cnt_app, cnt_one. lia.
Qed.

(** ** Inserting a task *)

Lemma key_index w k : 0 <= k < 64 * blen (pages w) -> exists p, pages w !! Z.to_nat (k / 64) = Some p.
Proof.
  intros Hk. destruct (lookup_lt_is_Some_2 (pages w) (Z.to_nat (k / 64))) as [p Hp]; [|by exists p].
  unfold blen in Hk. pose proof (Z.div_lt_upper_bound k 64 (Z.of_nat (length (pages w)))). lia.
Qed.

Lemma get_page_ok w k p : 0 <= k -> pages w !! Z.to_nat (k / 64) = Some p -> get_page w k = Ret (p, k mod 64).
Proof.
  intros Hk Hp. unfold get_page, WAKER_BIT_LENGTH_SHIFT. rewrite shiftr_div by lia.
  change (2 ^ 6) with 64. by rewrite Hp, land63.
Qed.

Lemma refs_dead ctx w m p : inv ctx w m -> mem w !! p = None -> refs ctx w p = 0%nat.
Proof. intros Hi Hp. pose proof (i_mem _ _ _ Hi p) as Hm. by rewrite Hp in Hm. Qed.

(** Flags of the existing tasks do not depend on pages added at the end. *)
Lemma flag_grow ctx w m p pg f k : inv ctx w m -> mem w !! p = None -> 0 <= k < 64 * blen (pages w) ->
  flag f (with_pages (with_mem w (<[p := pg]> (mem w))) (pages w ++ [p])) k = flag f w k.
Proof.
  intros Hi Hp Hk. destruct (key_index w k Hk) as [q Hq]. unfold flag. cbn.
  rewrite lookup_app_l, Hq by (by eapply lookup_lt_Some). rewrite lookup_insert_ne; [done|].
  intros <-. pose proof (refs_page ctx _ _ _ Hq). rewrite (refs_dead _ _ _ _ Hi Hp) in *. lia.
Qed.

Lemma push_page_ok ctx w m p pg : inv ctx w m -> mem w !! p = None -> addr_ok p -> 64 * blen (pages w) < 2^63 ->
  page_ok pg -> refcount pg = 1 ->
  let w' := with_pages (with_mem w (<[p := pg]> (mem w))) (pages w ++ [p]) in
  inv ctx w' m /\ ext [] w m w' m.
Proof.
  intros Hi Hp Ha Hl Hok Hrc w'. pose proof (refs_dead _ _ _ _ Hi Hp) as Hr0.
  assert (Hnp : p ∉ pages w).
  { intros [i Hpi]%list_elem_of_lookup_1. pose proof (refs_page ctx _ _ _ Hpi). lia. }
  assert (Hf : forall f k, is_Some (m !! k) -> flag f w' k = flag f w k)
    by (intros; eapply flag_grow; try done; by eapply i_keys).
  assert (Hb : blen (pages w') = blen (pages w) + 1) by (cbn; by rewrite blen_app).
  assert (Hr : forall q, refs ctx w' q = (refs ctx w q + at_ p q)%nat).
  { intros q. unfold refs. cbn. destruct (decide (p = q)) as [<-|Hne].
    - rewrite at_eq, decide_True, decide_False by set_solver. lia.
    - rewrite at_ne by done. rewrite (decide_ext (q ∈ pages w ++ [p]) (q ∈ pages w)); [lia|].
      rewrite elem_of_app, list_elem_of_singleton. split; [intros [?|?]; [done|congruence]|by left]. }
  split; [destruct Hi as [I1 I2 I3 I4 I5 I6 I7 I8 Id I9 I10]; split; try done|].
  - apply NoDup_app. split_and!; [done| |apply NoDup_singleton]. intros q Hq ->%list_elem_of_singleton. done.
  - rewrite Hb. change (2^63) with (64 * 2^57) in *. lia.
  - intros k Hk%I7. rewrite Hb. lia.
  - intros q. cbn [mem with_mem with_pages w']. rewrite Hr. destruct (decide (q = p)) as [->|Hne].
    + rewrite lookup_insert_eq, at_eq, Hr0. split_and!; try done; try apply Hok; lia.
    + rewrite lookup_insert_ne, at_ne, Nat.add_0_r by done. apply I8.
  - intros q. cbn. rewrite elem_of_app, list_elem_of_singleton.
    intros [<-|[_ Hq]]%lookup_insert_is_Some; [by right|left; by apply Id].
  - intros i h Hh. destruct (I9 _ _ Hh) as (k & ? & ? & Hk). exists k. split_and!; try done. cbn.
    rewrite lookup_app_l; [done|by eapply lookup_lt_Some].
  - intros k t Hk Hd. rewrite Hf by (by exists t). by eapply I10.
  - apply ext_flags; try done; try (intros k Hk; by rewrite (Hf _ _ Hk)).
    intros i q Hq. cbn. by apply lookup_app_l_Some.
Qed.

Lemma mem_size ctx w m : inv ctx w m -> (size (dom (mem w)) <= length (pages w))%nat.
Proof.
  intros Hi. transitivity (size (list_to_set (pages w) : gset Z)).
  - apply subseteq_size. intros p Hp%elem_of_dom. apply elem_of_list_to_set. by apply (i_dom _ _ _ Hi).
  - by rewrite size_list_to_set by apply (i_nodup _ _ _ Hi).
Qed.

Lemma push_pages_ok ctx m s key fuel w : inv ctx w m -> 0 <= key < 2^63 ->
  (Z.to_nat (key / 64) + 1 <= fuel + length (pages w))%nat ->
  exists w', push_pages fuel (with_slab w s) key = Ret (with_slab w' s) /\ inv ctx w' m /\
    ext [] w m w' m /\ key < 64 * blen (pages w') /\
    log w' = log w /\ slab w' = slab w /\ handles w' = handles w /\ wakers w' = wakers w.
Proof.
  intros Hi Hk. revert w Hi. induction fuel as [|fuel IH]; intros w Hi Hf;
    pose proof (i_pages_lim _ _ _ Hi); pose proof (blen_nonneg (pages w));
    pose proof (Z.div_mod key 64 ltac:(lia)); pose proof (Z.mod_pos_bound key 64 ltac:(lia));
    cbn [push_pages pages with_slab]; unfold WAKER_BIT_LENGTH_SHIFT, wrap64;
    rewrite Z.shiftl_mul_pow2, Z.geb_leb by lia; change (2 ^ 6) with 64; rewrite Z.mod_small by lia;
    destruct (Z.leb_spec (blen (pages w) * 64) key) as [Hge|Hlt];
    try (exists w; split_and!; try done; (lia || apply ext_refl)); [unfold blen in *; lia|].
  unfold PageRef.default. cbn [mem with_slab].
  assert (Hroom : Z.of_nat (size (dom (mem w))) < 2^57).
  { pose proof (mem_size _ _ _ Hi). change (2^63) with (64 * 2^57) in Hk. unfold blen in *. lia. }
  pose proof (allocate_fresh (dom (mem w)) Hroom) as Ha1. pose proof (allocate_aligned (dom (mem w)) Hroom) as Ha2.
  pose proof (allocate_range (dom (mem w)) Hroom) as Ha3. destruct (allocate (dom (mem w))) as [p g]. cbn [fst] in *.
  apply not_elem_of_dom in Ha1.
  destruct (push_page_ok ctx w m p (reset g) Hi Ha1) as [Hi' Hx']; [done|lia|repeat split; cbn; lia|done|].
  destruct (IH _ Hi') as (w' & Hrun & Hi2 & Hx2 & Hk2 & Hl2 & Hs2 & Hh2 & Hw2); [cbn; rewrite length_app; cbn; lia|].
  exists w'. split_and!; try done. by eapply ext_trans_none.
Qed.

Lemma flag_other w k j p pg g f : NoDup (pages w) -> 0 <= k -> 0 <= j -> j <> k ->
  pages w !! Z.to_nat (k / 64) = Some p -> mem w !! p = Some pg ->
  (forall i, 0 <= i -> i <> k mod 64 -> Z.testbit (f (g pg)) i = Z.testbit (f pg) i) ->
  flag f (with_mem w (<[p := g pg]> (mem w))) j = flag f w j.
Proof.
  intros Hnd Hk Hj Hne Hp Hpg Hb. rewrite (flag_update _ _ _ _ _ _ Hpg). unfold flag.
  destruct (pages w !! Z.to_nat (j / 64)) as [q|] eqn:Hq; [|done]. destruct (decide (q = p)) as [->|]; [|done].
  rewrite Hpg. apply Hb; [by apply Z.mod_pos_bound|]. intros Hm. apply Hne.
  assert (Z.to_nat (j / 64) = Z.to_nat (k / 64)) by (by eapply NoDup_lookup).
  pose proof (Z.div_pos k 64). pose proof (Z.div_pos j 64). pose proof (Z.div_mod k 64). pose proof (Z.div_mod j 64). lia.
Qed.

Lemma flag_self w k p pg g f : 0 <= k -> pages w !! Z.to_nat (k / 64) = Some p -> mem w !! p = Some pg ->
  flag f (with_mem w (<[p := g]> (mem w))) k = Z.testbit (f g) (k mod 64).
Proof. intros Hk Hp Hpg. by rewrite (flag_update _ _ _ _ _ _ Hpg), Hp, decide_True. Qed.

Lemma initialize_bits pg ix i : page_ok pg -> 0 <= ix < 64 -> 0 <= i ->
  Z.testbit (notified (initialize pg ix)) i = Z.testbit (notified pg) i || (i =? ix) /\
  Z.testbit (completed (initialize pg ix)) i = Z.testbit (completed pg) i && negb (i =? ix) /\
  Z.testbit (dropped (initialize pg ix)) i = Z.testbit (dropped pg) i && negb (i =? ix).
Proof.
  intros (?&?&?) Hix Hi. cbn. unfold fetch_or, fetch_and.
  by rewrite set_bit_spec, !clear_bit_spec by lia.
Qed.

Lemma insert_ok ctx w m t : inv ctx w m -> room w = true -> done_ t = None ->
  exists k h w', insert w t = Ret (Some (h, w')) /\ m !! k = None /\ log w' = log w /\
    inv ctx (push_handle w' h) (<[k := t]> m) /\ ext [] w m (push_handle w' h) (<[k := t]> m).
Proof.
  intros Hi [Hrh Hrw]%andb_true_iff Ht. apply Z.ltb_lt in Hrh, Hrw.
  destruct (PinSlab.insert_spec _ _ t (i_slab _ _ _ Hi)) as (k & s & Hs & Hk & Hnone & Hrep).
  { pose proof (i_size _ _ _ Hi). unfold blen, LIMIT in *. lia. }
  destruct (push_pages_ok ctx m s k (S (Z.to_nat (k / 64))) w Hi Hk) as (w1 & Hpp & Hi1 & Hx1 & Hk1 & Hl1 & Hs1 & Hh1 & Hw1); [lia|].
  destruct (key_index w1 k) as [p Hp]; [lia|]. pose proof (Z.mod_pos_bound k 64 ltac:(lia)) as Hm.
  destruct (page_update_ok _ _ p _ (i_mem _ _ _ Hi1) (refs_page _ _ _ _ Hp) (benign_initialize _ Hm)) as (pg & Hpg & Hok & Hu & Hh2).
  set (w2 := with_mem w1 (<[p := initialize pg (k mod 64)]> (mem w1))).
  destruct (clone_ok (mem w2) (refs ctx w1) p) as (h3 & Hc & Hok3 & Hsame & _); [done|by eapply refs_page|by eapply refs_le|].
  exists k, (Handle.new k p), (with_mem (with_slab w2 s) h3). split; [|split; [done|split; [done|]]].
  { unfold insert, inner_insert. rewrite Hs. cbn [mbind outcome_bind]. rewrite Hpp. cbn [mbind outcome_bind].
    rewrite (get_page_ok _ k p) by (done || lia). cbn [mbind outcome_bind]. cbn [mem with_slab]. rewrite Hu. cbn [mbind outcome_bind].
    rewrite (get_page_ok _ k p) by (done || lia). cbn [mbind outcome_bind]. cbn [mem with_mem].
    change (mem w2) with (<[p := initialize pg (k mod 64)]> (mem w1)) in Hc. rewrite Hc. done. }
  set (w' := push_handle (with_mem (with_slab w2 s) h3) (Handle.new k p)).
  assert (Hr : forall q, refs ctx w' q = (refs ctx w1 q + at_ p q)%nat)
    by (intros q; unfold refs; cbn; rewrite cnt_app, cnt_one; cbn; lia).
  assert (Hok' : heap_ok (mem w') (refs ctx w')) by (eapply heap_ok_ext, Hok3; intros; by rewrite Hr).
  assert (Hlen : length (handles w') = S (length (handles w))) by (cbn; rewrite length_app, Hh1; cbn; lia).
  assert (Hfl : forall f j, (f = notified \/ f = completed) -> flag f w' j = flag f w2 j).
  { intros f j Hf. unfold flag. cbn [w' push_handle with_handles pages with_mem with_slab mem w2].
    destruct (pages w1 !! Z.to_nat (j / 64)) as [q|] eqn:Hq; [|done].
    destruct (pages_live ctx w1 w' Hok' eq_refl q) as [pg' Hpg']; [by eapply list_elem_of_lookup_2|]. cbn in Hpg'.
    rewrite Hpg'. destruct (Hsame _ _ Hpg') as (pg2 & E2 & En & Ec & _).
    unfold w2 in E2. cbn in E2. rewrite E2. by destruct Hf as [->| ->]; rewrite ?En, ?Ec. }
  assert (Hold : forall f j, (f = notified \/ f = completed) -> is_Some (m !! j) -> flag f w' j = flag f w1 j).
  { intros f j Hf Hj. rewrite Hfl by done. pose proof (i_keys _ _ _ Hi1 _ Hj).
    assert (j <> k) by (intros ->; rewrite Hnone in Hj; by destruct Hj).
    eapply (flag_other w1 k j p pg (fun pg => initialize pg (k mod 64))); try done; try lia; [apply Hi1|].
    intros i Hi0 Hne. destruct (initialize_bits pg _ i Hok Hm Hi0) as (En & Ec & _).
    rewrite (proj2 (Z.eqb_neq _ _) Hne) in *. destruct Hf as [->| ->]; rewrite ?En, ?Ec; by rewrite ?orb_false_r, ?andb_true_r. }
  assert (Hnew : flag completed w' k = false).
  { rewrite Hfl by auto. unfold w2. rewrite (flag_self w1 k p pg) by (done || lia).
    destruct (initialize_bits pg _ (k mod 64) Hok Hm) as (_ & -> & _); [lia|]. by rewrite Z.eqb_refl, andb_false_r. }
  split.
  - destruct Hi1 as [I1 I2 I3 I4 I5 I6 I7 I8 Id I9 I10]. split; try done.
    + rewrite map_size_insert_None by done. rewrite Hlen. pose proof (i_size _ _ _ Hi). lia.
    + unfold blen in *. rewrite Hlen. lia.
    + intros j. destruct (decide (j = k)) as [->|]; [intros _; cbn; lia|]. rewrite lookup_insert_ne by done. apply I7.
    + intros q Hq. apply Id. apply (same_bits_dom _ _ _ Hsame) in Hq. exact (insert_dom _ _ _ _ _ Hpg Hq).
    + intros i h Hl. cbn in Hl. apply lookup_app_Some in Hl as [Hl|[_ Hl]]; [by eapply I9|].
      apply list_lookup_singleton_Some in Hl as [_ [= <-]]. exists k. split_and!; try done. lia.
    + intros j t' Hj Hd. destruct (decide (j = k)) as [->|]; [rewrite lookup_insert_eq in Hj; congruence|].
      rewrite lookup_insert_ne in Hj by done. rewrite Hold by (auto || by exists t'). by eapply I10.
  - eapply ext_trans_none; [exact Hx1|]. apply ext_flags; cbn; try done.
    + intros j t' Hj. by rewrite lookup_insert_ne by congruence.
    + intros j Hj. by rewrite Hold by auto.
    + intros j Hj. by rewrite Hold by auto.
    + intros j Hj Hc'. destruct (decide (j = k)) as [->|]; [congruence|]. by rewrite lookup_insert_ne in Hj by done.
Qed.

(** ** Handles from keys *)

Lemma from_raw_ok ctx w m k : inv ctx w m -> room w = true -> 0 <= k ->
  match from_raw_handle w k with
  | Ret (Some (h, w')) => log w' = log w /\ inv ctx (push_handle w' h) m /\ ext [] w m (push_handle w' h) m
  | Ret None => True
  | _ => False
  end.
Proof.
  intros Hi [Hrh Hrw]%andb_true_iff Hk. apply Z.ltb_lt in Hrh. unfold from_raw_handle.
  rewrite (PinSlab.get_spec _ _ _ (i_slab _ _ _ Hi) Hk). cbn [mbind outcome_bind].
  destruct (m !! k) as [t|] eqn:Ht; [|done].
  destruct (key_index w k) as [p Hp]; [apply (i_keys _ _ _ Hi); by exists t|].
  rewrite (get_page_ok _ _ _ Hk Hp). cbn [mbind outcome_bind].
  destruct (inv_acquire _ _ _ p Hi) as (h & -> & _ & _ & Hw); [by eapply refs_page|]. cbn [mbind outcome_bind].
  split; [done|]. apply Hw; try done; cbn.
  - rewrite length_app. lia.
  - rewrite blen_app. unfold blen in *. cbn. lia.
  - apply Hi.
  - intros i h' [Hl|[_ [_ [= <-]]%list_lookup_singleton_Some]]%lookup_app_Some; [eauto|]. right. by exists k.
  - intros q. unfold refs. cbn. rewrite cnt_app, cnt_one. cbn. lia.
Qed.

(** A computation that satisfies [P] when it returns, and otherwise panics with one of [bad]. *)
Definition fine {A} (bad : list string) (P : A -> Prop) (o : outcome A) : Prop :=
  match o with
  | Ret a => P a
  | Panic msg => msg ∈ bad
  | Diverge => False
  end.

Lemma fine_bind {A B} bad (P : A -> Prop) (Q : B -> Prop) o f :
  fine bad P o -> (forall a, P a -> fine bad Q (f a)) -> fine bad Q (o ≫= f).
Proof. destruct o; cbn; auto. Qed.

Lemma fine_mono {A} bad bad' (P Q : A -> Prop) o :
  fine bad P o -> (forall a, P a -> Q a) -> bad ⊆ bad' -> fine bad' Q o.
Proof. destruct o; cbn; auto. Qed.

Definition limit_msg : string := "limit of the model".
Definition unwrap_msg : string := "called Option::unwrap() on a None value".
Definition assert_msg : string := "assertion failed: !page.was_dropped(subpage_ix)".
Definition self_msg : string := "use of a task that took itself out".
Definition bad_msgs : list string := [limit_msg; unwrap_msg; assert_msg; self_msg].


(** A message is one of a list of them. *)
Ltac bad_msg := cbn [fine]; unfold bad_msgs; repeat first [left | right].

(** ** Removing tasks *)

Lemma inv_remove ctx w m k s : inv ctx w m -> PinSlab.slab_rep s (delete k m) -> inv ctx (with_slab w s) (delete k m).
Proof.
  intros [I1 I2 I3 I4 I5 I6 I7 I8 Id I9 I10] Hs. split; try done.
  - rewrite map_size_delete. cbn. destruct (m !! k); cbn; lia.
  - intros j [t [_ Hj]%lookup_delete_Some]. apply I7. by exists t.
  - intros j t [_ Hj]%lookup_delete_Some. by apply I10.
Qed.

Lemma inv_record ctx w m e : inv ctx w m -> inv ctx (record w e) m.
Proof. by intros []. Qed.

Lemma clear_bits pg ix i : page_ok pg -> 0 <= ix < 64 -> 0 <= i -> i <> ix ->
  Z.testbit (notified (clear pg ix)) i = Z.testbit (notified pg) i /\
  Z.testbit (completed (clear pg ix)) i = Z.testbit (completed pg) i.
Proof.
  intros (?&?&?) Hix Hi Hne. cbn. unfold fetch_and. rewrite !clear_bit_spec by lia.
  by rewrite (proj2 (Z.eqb_neq _ _) Hne), !andb_true_r.
Qed.

(** The flags of a removed task are cleared. *)
Lemma clear_ok ctx w m k p : inv ctx w m -> m !! k = None -> 0 <= k -> pages w !! Z.to_nat (k / 64) = Some p ->
  exists h, page_update (mem w) p (fun pg => clear pg (k mod 64)) = Ret h /\ inv ctx (with_mem w h) m /\
    ext [] w m (with_mem w h) m.
Proof.
  intros Hi Hn Hk Hp. pose proof (Z.mod_pos_bound k 64 ltac:(lia)) as Hm.
  destruct (page_update_ok _ _ p _ (i_mem _ _ _ Hi) (refs_page _ _ _ _ Hp) (benign_clear (k mod 64))) as (pg & Hpg & Hok & Hu & Hh).
  eexists. split; [exact Hu|].
  assert (Hf : forall j, is_Some (m !! j) -> flag notified (with_mem w (<[p := clear pg (k mod 64)]> (mem w))) j = flag notified w j /\
                    flag completed (with_mem w (<[p := clear pg (k mod 64)]> (mem w))) j = flag completed w j).
  { intros j Hj. pose proof (i_keys _ _ _ Hi _ Hj). assert (j <> k) by (intros ->; rewrite Hn in Hj; by destruct Hj).
    split; eapply (flag_other w k j p pg (fun pg => clear pg (k mod 64))); try done; try lia; try apply Hi;
      intros i Hi0 Hne; by apply clear_bits. }
  split.
  - eapply world_change; try done; try apply Hi; [intros q; by eapply insert_dom|by apply handles_keep|]. intros j Hj. by rewrite (proj2 (Hf j Hj)).
  - apply ext_flags; try done; intros j Hj; [by rewrite (proj1 (Hf j Hj))|by rewrite (proj2 (Hf j Hj))].
Qed.

(** A task that is taken out leaves the others as they were. *)
Lemma ext_taken w m k s w2 : ext [] (with_slab w s) (delete k m) w2 (delete k m) ->
  ext [] w m (record w2 (Taken k)) (delete k m).
Proof.
  intros [G P K X]. assert (Ge : grew [] w2 (record w2 (Taken k))) by (by exists [Taken k]).
  split; [by apply (grew_trans [] [] _ w2)|done| |].
  - intros j _ t Hj. destruct (decide (j = k)) as [->|Hne].
    + left. eapply (logged_r [] w w2); [exact G|]. exists [Taken k]. split; [done|by left].
    + destruct (K j (not_elem_of_nil _) t) as [Hl|Hr]; [by rewrite lookup_delete_ne|left|by right].
      by apply (logged_l [] w w2).
  - intros j Hj _ Hc. destruct (X j Hj (not_elem_of_nil _) Hc) as [[t [_ Ht]%lookup_delete_Some] ?]. split; [by exists t|done].
Qed.

Lemma not_logged w w' e : log w' = log w -> ~ logged w w' e.
Proof.
  intros E (l & E' & Hl). assert (l = []) as -> by (apply (app_inv_head (log w)); by rewrite <- E', E, app_nil_r).
  by apply not_elem_of_nil in Hl.
Qed.

(** Nothing took out the task whose poll is in progress. *)
Definition untaken (ctx : option (Z * Z)) w w' : Prop := forall p k, ctx = Some (p, k) -> ~ logged w w' (Taken k).

Lemma untaken_same ctx w w' : log w' = log w -> untaken ctx w w'.
Proof. intros E p k _. by apply not_logged. Qed.

Lemma ext_stays w m w' m' k t : ext [] w m w' m' -> log w' = log w -> m !! k = Some t ->
  (flag notified w k = true -> flag notified w' k = true) /\ (flag completed w k = false -> flag completed w' k = false).
Proof.
  intros Hx E Ht. destruct (x_held _ _ _ _ _ Hx k (not_elem_of_nil _) t Ht) as [Hl|(_ & ?)]; [|done].
  by destruct (not_logged w w' (Taken k) E).
Qed.

Lemma untaken_trans ctx ks ks' w w1 w2 : grew ks w w1 -> grew ks' w1 w2 -> untaken ctx w w1 -> untaken ctx w1 w2 -> untaken ctx w w2.
Proof.
  intros (l & E & _) (l' & E' & _) U1 U2 p k Hc (l2 & E2 & Hk).
  assert (l2 = l ++ l') as -> by (apply (app_inv_head (log w)); by rewrite <- E2, E', E, app_assoc).
  apply elem_of_app in Hk as [Hk|Hk]; [eapply (U1 p k Hc); by exists l|eapply (U2 p k Hc); by exists l'].
Qed.

Lemma take_ok ctx w m i : inv (fst <$> ctx) w m ->
  fine bad_msgs (fun w' => exists m', inv (fst <$> ctx) w' m' /\ ext [] w m w' m' /\ untaken ctx w w') (act ctx w (Take i)).
Proof.
  intros Hi. cbn [act]. unfold with_handle.
  destruct (handles w !! i) as [[h|]|] eqn:Hh; try (exists m; split_and!; [done|apply ext_refl|by apply untaken_same]).
  destruct (i_handles _ _ _ Hi _ _ Hh) as (k & Hk & Hk0 & Hp). destruct (decide _) as [|Hself]; [bad_msg|].
  unfold take, Handle.take_key. rewrite Hk. rewrite (get_page_ok _ k (chunk h)) by done. cbn [mbind outcome_bind].
  destruct (heap_ok_live _ _ (chunk h) (i_mem _ _ _ Hi)) as (pg & Hpg & _); [by eapply refs_page|].
  unfold page_deref. cbn [mem with_handles]. rewrite Hpg. cbn [mbind outcome_bind].
  destruct (was_dropped pg (k mod 64)); [bad_msg|].
  destruct (PinSlab.remove_unpin_spec _ _ k (i_slab _ _ _ Hi) Hk0) as (s & Hs & Hrep).
  destruct (clear_ok (fst <$> ctx) (with_slab w s) (delete k m) k (chunk h)) as (h1 & Hu & Hi1 & Hx1);
    [by apply inv_remove|apply lookup_delete_eq|done|done|].
  cbn [mem with_slab] in Hu. rewrite Hu. cbn [mbind outcome_bind slab with_handles]. rewrite Hs. cbn [mbind outcome_bind].
  destruct (m !! k) as [t|]; [|bad_msg].
  destruct (drop_handle_ok _ _ _ i h None Hi1 Hh (or_intror eq_refl)) as (w' & Hd & _ & Hi' & Hx').
  apply bind_ret in Hd as (h' & Hd & [= <-]). cbn [mem with_slab with_mem] in Hd. rewrite Hd. cbn.
  exists (delete k m). split_and!; [by apply (inv_record _ _ _ (Taken k))|exact (ext_taken w m k s _ (ext_trans_none _ _ _ _ _ _ _ Hx1 Hx'))|].
  intros p k' -> (l & [= <-]%(app_inv_head (log w)) & [= ->]%list_elem_of_singleton). apply Hself. by rewrite Hk.
Qed.

(** ** What owners do *)

Lemma release_ok ctx w m r : inv (fst <$> ctx) w m -> room w = true -> keeps (fst <$> ctx) w m (act ctx w (release_action r)).
Proof.
  intros Hi Hr. destruct r as [i|i|i|i|i|i]; cbn [release_action act].
  - unfold with_handle. destruct (handles w !! i) as [[h|]|] eqn:Hh; try by apply keeps_same.
    pose proof (drop_handle_ok _ _ _ _ _ (key h) Hi Hh) as Hd. destruct h. by apply Hd; left.
  - unfold with_handle. destruct (handles w !! i) as [[h|]|] eqn:Hh; try by apply keeps_same.
    destruct (i_handles _ _ _ Hi _ _ Hh) as (k & Hk & _ & _).
    pose proof (drop_handle_ok _ _ _ _ _ None Hi Hh (or_intror eq_refl)) as (w' & Hd & Hx).
    exists w'. split; [|done]. unfold Handle.into_raw, Handle.take_key. rewrite Hk. cbn [mem with_handles].
    apply bind_ret in Hd as (h' & -> & [= <-]). done.
  - destruct (wakers w !! i) as [[ptr|]|] eqn:Hw; try by apply keeps_same.
    apply clone_waker_ok; [done|by eapply refs_waker|done].
  - unfold with_waker. destruct (wakers w !! i) as [[ptr|]|] eqn:Hw; try by apply keeps_same.
    exact (drop_waker_ok _ _ _ _ _ Hi Hw).
  - unfold with_waker. destruct (wakers w !! i) as [[ptr|]|] eqn:Hw; try by apply keeps_same.
    destruct (wake_by_ref_ok _ w m ptr Hi) as (h & Hu & Hi' & Hx'); [by eapply refs_waker|].
    destruct (drop_waker_ok _ _ _ i ptr Hi' Hw) as (w' & Hd & Hl2 & Hi2 & Hx2).
    exists w'. split_and!; [|done|done|by eapply ext_trans_none].
    unfold WakerRef.waker_ref_wake, WakerRef.wake. cbn [mem with_wakers]. rewrite Hu. exact Hd.
  - destruct (wakers w !! i) as [[ptr|]|] eqn:Hw; try by apply keeps_same.
    destruct (wake_by_ref_ok _ w m ptr Hi) as (h & Hu & Hi' & Hx'); [by eapply refs_waker|].
    exists (with_mem w h). split_and!; try done. unfold WakerRef.waker_ref_wake_by_ref. by rewrite Hu.
Qed.

Lemma act_ok ctx w m a : inv (fst <$> ctx) w m -> room w = true ->
  fine bad_msgs (fun w' => exists m', inv (fst <$> ctx) w' m' /\ ext [] w m w' m' /\ untaken ctx w w') (act ctx w a).
Proof.
  intros Hi Hr.
  assert (Hkeep : forall o, keeps (fst <$> ctx) w m o ->
    fine bad_msgs (fun w' => exists m', inv (fst <$> ctx) w' m' /\ ext [] w m w' m' /\ untaken ctx w w') o).
  { intros o (w' & -> & ? & ? & ?). exists m. split_and!; [done|done|by apply untaken_same]. }
  destruct a as [f|k|i| |i|i|i| |i|i|i].
  - destruct (insert_ok _ w m (mkResult f None) Hi Hr eq_refl) as (k & h & w' & Hins & _ & Hl & Hi' & Hx').
    cbn [act]. rewrite Hins. exists (<[k := mkResult f None]> m). split_and!; [done|done|by apply untaken_same].
  - apply Hkeep. cbn [act]. destruct (Z.ltb_spec k 0); [by apply keeps_same|].
    pose proof (from_raw_ok _ _ _ k Hi Hr ltac:(lia)) as Hf.
    destruct (from_raw_handle w k) as [[[h w']|]| |]; try done; [by exists (push_handle w' h)|by apply keeps_same].
  - by apply take_ok.
  - bad_msg.
  - apply Hkeep, (release_ok _ _ _ (ReleaseHandle i) Hi Hr).
  - apply Hkeep, (release_ok _ _ _ (ReleaseRaw i) Hi Hr).
  - apply Hkeep, (release_ok _ _ _ (ReleaseClone i) Hi Hr).
  - apply Hkeep. cbn [act]. destruct ctx as [[ptr k]|]; [|by apply keeps_same]. apply clone_waker_ok; [done|apply refs_ctx|done].
  - apply Hkeep, (release_ok _ _ _ (ReleaseWake i) Hi Hr).
  - apply Hkeep, (release_ok _ _ _ (ReleaseWakeByRef i) Hi Hr).
  - apply Hkeep, (release_ok _ _ _ (ReleaseWaker i) Hi Hr).
Qed.

Lemma acts_ok ctx l w m : inv (fst <$> ctx) w m ->
  fine bad_msgs (fun w' => exists m', inv (fst <$> ctx) w' m' /\ ext [] w m w' m' /\ untaken ctx w w') (acts ctx w l).
Proof.
  revert w m. induction l as [|a l IH]; intros w m Hi; cbn [acts].
  - exists m. split_and!; [done|apply ext_refl|by apply untaken_same].
  - destruct (room w) eqn:Hr; [|bad_msg]. eapply fine_bind; [by apply act_ok|]. intros w1 (m1 & Hi1 & Hx1 & Hu1).
    eapply fine_mono; [by apply IH| |done]. intros w2 (m2 & Hi2 & Hx2 & Hu2). exists m2.
    split_and!; [done|by eapply ext_trans_none|]. eapply untaken_trans; [apply Hx1|apply Hx2|done|done].
Qed.

Lemma releases_ok l w m : inv None w m ->
  fine [limit_msg] (fun w' => inv None w' m /\ ext [] w m w' m) (acts None w (release_action <$> l)).
Proof.
  revert w. induction l as [|a l IH]; intros w Hi; cbn [acts fmap list_fmap].
  - split; [done|apply ext_refl].
  - destruct (room w) eqn:Hr; [|by left].
    destruct (release_ok None w m a Hi Hr) as (w1 & -> & _ & Hi1 & Hx1). cbn [mbind outcome_bind].
    eapply fine_mono; [by apply IH| |done]. intros w2 (Hi2 & Hx2). split; [done|].
    by eapply ext_trans_none.
Qed.

Context (fut_poll : Fut -> W -> Fut * list (action Fut) * option Out) (fut_drop : task -> W -> list release).

Lemma task_key w m page_ix p ix : inv None w m -> 0 <= page_ix -> 0 <= ix < 64 -> pages w !! Z.to_nat page_ix = Some p ->
  wrap64 (Z.shiftl page_ix WAKER_BIT_LENGTH_SHIFT) + ix = page_ix * 64 + ix /\
  (page_ix * 64 + ix) / 64 = page_ix /\ (page_ix * 64 + ix) mod 64 = ix /\ 0 <= page_ix * 64 + ix < 2^63.
Proof.
  intros Hi Hix0 Hix Hp. pose proof (lookup_lt_Some _ _ _ Hp). pose proof (i_pages_lim _ _ _ Hi).
  unfold wrap64, WAKER_BIT_LENGTH_SHIFT, blen in *. rewrite Z.shiftl_mul_pow2 by lia. change (2 ^ 6) with 64.
  rewrite Z.mod_small by lia. rewrite Z.div_add_l, (Z.div_small ix 64), Z.add_comm, Z.mod_add, Z.mod_small by lia. lia.
Qed.

(** Between two states: pages stay in their place, tasks of other pages stay. *)
Definition passes (ks : list Z) page_ix w m w' m' : Prop :=
  grew ks w w' /\ (forall i q, pages w !! i = Some q -> pages w' !! i = Some q) /\
  forall j, j / 64 <> page_ix -> held j w m w' m'.

Lemma passes_trans ks ks' page_ix w m w1 m1 w2 m2 :
  passes ks page_ix w m w1 m1 -> passes ks' page_ix w1 m1 w2 m2 -> passes (ks ++ ks') page_ix w m w2 m2.
Proof.
  intros (G1 & P1 & H1) (G2 & P2 & H2). split_and!; [by eapply grew_trans|auto|]. intros j Hj.
  eapply held_trans; [exact G1|exact G2|auto|auto].
Qed.

Lemma passes_refl page_ix w m : passes [] page_ix w m w m.
Proof. split_and!; [by apply grew_same|done|intros; apply held_refl]. Qed.

Lemma ext_passes ks page_ix w m w' m' : ext ks w m w' m' -> (forall k, k ∈ ks -> k / 64 = page_ix) -> passes ks page_ix w m w' m'.
Proof. intros [G P K _] Hk. split_and!; [done|done|]. intros j Hj. apply K. intros ?. by apply Hj, Hk. Qed.

Lemma drop_task_ok w m page_ix p ix : inv None w m -> 0 <= page_ix -> 0 <= ix < 64 -> pages w !! Z.to_nat page_ix = Some p ->
  fine bad_msgs (fun w' => exists m', inv None w' m' /\ passes [] page_ix w m w' m' /\
    logged w w' (DropSeen (page_ix * 64 + ix))) (drop_task fut_drop w page_ix ix).
Proof.
  intros Hi Hix0 Hix Hp. destruct (task_key _ _ _ _ _ Hi Hix0 Hix Hp) as (Hkey & Hdiv & Hmod & Hk). unfold drop_task. cbv zeta.
  rewrite Hkey. set (k := page_ix * 64 + ix) in *. set (w0 := record w (DropSeen k)).
  assert (Hl0 : logged w w0 (DropSeen k)) by (exists [DropSeen k]; split; [done|by left]).
  assert (Hp0 : passes [] page_ix w m w0 m) by (split_and!; [by exists [DropSeen k]|done|intros j Hj t Ht; by right]).
  pose proof (inv_record _ _ _ (DropSeen k) Hi) as Hi0. fold w0 in Hi0.
  destruct (Z.eqb_spec ix 0); cbn [negb]; [by exists m|].
  destruct (PinSlab.remove_spec _ _ k (i_slab _ _ _ Hi0) Hk) as (s & Hs & Hrep). rewrite Hs. cbn [mbind outcome_bind].
  pose proof (inv_remove _ _ _ _ _ Hi0 Hrep) as Hi1.
  assert (Hp1 : passes [] page_ix w0 m (with_slab w0 s) (delete k m)).
  { split_and!; [by apply grew_same|done|]. intros j Hj t Ht. right. rewrite lookup_delete_ne; [done|]. congruence. }
  apply (fine_bind _ (fun w' => inv None w' (delete k m) /\ ext [] (with_slab w0 s) (delete k m) w' (delete k m))).
  { destruct (m !! k) as [t|]; [eapply fine_mono; [by apply releases_ok|done|]|by split; [|apply ext_refl]].
    intros ? ->%list_elem_of_singleton. left. }
  intros w2 [Hi2 Hx2]. pose proof (x_pages _ _ _ _ _ Hx2 _ _ (Hp : pages (with_slab w0 s) !! _ = _)) as Hpg. rewrite Hpg.
  destruct (clear_ok None w2 (delete k m) k p Hi2) as (h & Hu & Hi3 & Hx3); [apply lookup_delete_eq|lia|by rewrite Hdiv|].
  rewrite Hmod in Hu. rewrite Hu. cbn. exists (delete k m). pose proof (ext_trans_none _ _ _ _ _ _ _ Hx2 Hx3) as Hx.
  split_and!; [done| |eapply (logged_l []); [exact Hl0|apply Hx]].
  eapply (passes_trans [] []); [exact Hp0|]. eapply (passes_trans [] []); [exact Hp1|]. apply ext_passes; [done|].
  by intros ? ?%not_elem_of_nil.
Qed.

Lemma drop_tasks_ok page_ix p l w m : inv None w m -> 0 <= page_ix -> Forall (fun ix => 0 <= ix < 64) l ->
  pages w !! Z.to_nat page_ix = Some p ->
  fine bad_msgs (fun w' => exists m', inv None w' m' /\ passes [] page_ix w m w' m' /\
    forall ix, ix ∈ l -> logged w w' (DropSeen (page_ix * 64 + ix))) (drop_tasks fut_drop w page_ix l).
Proof.
  intros Hi Hix0. revert w m Hi. induction l as [|ix l IH]; intros w m Hi Hl Hp; cbn [drop_tasks].
  - exists m. split_and!; [done|apply passes_refl|]. by intros ? ?%not_elem_of_nil.
  - apply Forall_cons in Hl as [Hix Hl]. eapply fine_bind; [by eapply drop_task_ok|].
    intros w1 (m1 & Hi1 & Hp1 & Hl1). eapply fine_mono; [eapply IH; [done|done|by apply Hp1]| |done].
    intros w2 (m2 & Hi2 & Hp2 & Hl2). exists m2. split_and!; [done|by eapply (passes_trans [] [])|].
    intros jx [->|Hj]%elem_of_cons; [eapply logged_l; [done|apply Hp2]|eapply logged_r; [apply Hp1|by apply Hl2]].
Qed.

(** ** Polling tasks *)

(** The task is written back, and marked when it is done. *)
Lemma write_back_ok ctx w m k t t' s p ready : inv ctx w m -> m !! k = Some t ->
  PinSlab.slab_rep s (<[k := t']> m) -> pages w !! Z.to_nat (k / 64) = Some p ->
  (done_ t' <> None -> ready = true) ->
  exists h, (if ready then page_update (mem w) p (fun pg => mark_completed pg (k mod 64)) else Ret (mem w)) = Ret h /\
    inv ctx (with_mem (with_slab w s) h) (<[k := t']> m) /\
    (forall j, j <> k -> held j w m (with_mem (with_slab w s) h) (<[k := t']> m)) /\
    (forall j, j <> k -> is_Some (m !! j) -> flag completed (with_mem (with_slab w s) h) j = flag completed w j).
Proof.
  intros Hi Ht Hrep Hp Hready. pose proof (i_keys _ _ _ Hi k (ex_intro _ _ Ht)) as Hk.
  pose proof (Z.mod_pos_bound k 64 ltac:(lia)) as Hm.
  destruct (page_update_ok _ _ p _ (i_mem _ _ _ Hi) (refs_page _ _ _ _ Hp) (benign_completed _ Hm)) as (pg & Hpg & Hok & Hu & Hh).
  set (h := if ready then <[p := mark_completed pg (k mod 64)]> (mem w) else mem w).
  assert (Hr : (if ready then page_update (mem w) p (fun pg => mark_completed pg (k mod 64)) else Ret (mem w)) = Ret h)
    by (unfold h; by destruct ready).
  set (w' := with_mem (with_slab w s) h).
  assert (Hn : forall j, flag notified w' j = flag notified w j).
  { intros j. unfold w', h. destruct ready; [|done].
    change (flag notified (with_mem w (<[p:=mark_completed pg (k mod 64)]> (mem w))) j = flag notified w j).
    rewrite (flag_update _ _ _ _ _ _ Hpg). unfold flag. destruct (pages w !! Z.to_nat (j / 64)) as [q|]; [|done].
    destruct (decide (q = p)) as [->|]; [by rewrite Hpg|done]. }
  assert (Hc : forall j, 0 <= j -> j <> k -> flag completed w' j = flag completed w j).
  { intros j Hj Hne. unfold w', h. destruct ready; [|done].
    apply (flag_other w k j p pg (fun pg => mark_completed pg (k mod 64))); try done; [apply (i_nodup _ _ _ Hi)|lia|].
    intros i Hi0 Hnei. cbn. unfold fetch_or. rewrite set_bit_spec by lia.
    by rewrite (proj2 (Z.eqb_neq _ _) Hnei), orb_false_r. }
  assert (Hck : flag completed w k = true \/ ready = true -> flag completed w' k = true).
  { intros Hor. unfold w', h. destruct ready; [|by destruct Hor].
    change (flag completed (with_mem w (<[p:=mark_completed pg (k mod 64)]> (mem w))) k = true).
    rewrite (flag_self w k p pg) by (done || lia). cbn. unfold fetch_or. rewrite set_bit_spec by lia.
    by rewrite Z.eqb_refl, orb_true_r. }
  exists h. split; [done|]. split.
  - destruct Hi as [I1 I2 I3 I4 I5 I6 I7 I8 Id I9 I10]. split; try done.
    + by rewrite map_size_insert_Some by (by exists t).
    + intros j. destruct (decide (j = k)) as [->|]; [done|]. rewrite lookup_insert_ne by done. apply I7.
    + unfold w', h. cbn. by destruct ready.
    + intros q. cbn. unfold h. destruct ready; [|apply Id]. intros Hq. apply Id. by eapply insert_dom.
    + intros j t2 Hj Hd. destruct (decide (j = k)) as [->|].
      * rewrite lookup_insert_eq in Hj. injection Hj as <-. apply Hck. right. by apply Hready.
      * rewrite lookup_insert_ne in Hj by done. rewrite Hc by (done || by eapply I7, ex_intro). by eapply I10.
  - assert (Hcm : forall j, j <> k -> is_Some (m !! j) -> flag completed w' j = flag completed w j)
      by (intros j Hne Hj; apply Hc; [by eapply (i_keys _ _ _ Hi)|done]).
    split; [|done]. intros j Hne t2 Hj. right. rewrite lookup_insert_ne by done. rewrite Hn, Hcm by (done || by exists t2). done.
Qed.

Lemma poll_task_ok w m page_ix p ix : inv None w m -> 0 <= page_ix -> 0 <= ix < 64 ->
  pages w !! Z.to_nat page_ix = Some p ->
  (is_Some (m !! (page_ix * 64 + ix)) -> flag completed w (page_ix * 64 + ix) = false) ->
  fine bad_msgs (fun w' => exists m', inv None w' m' /\ ext [page_ix * 64 + ix] w m w' m' /\
      exists t, m !! (page_ix * 64 + ix) = Some t /\ logged w w' (Ran (page_ix * 64 + ix) t))
    (poll_task fut_poll w page_ix ix).
Proof.
  intros Hi Hix0 Hix Hp Hnc. destruct (task_key _ _ _ _ _ Hi Hix0 Hix Hp) as (Hkey & Hdiv & Hmod & Hk).
  unfold poll_task. rewrite Hp, Hkey. set (k := page_ix * 64 + ix) in *.
  destruct (heap_ok_live _ _ p (i_mem _ _ _ Hi)) as (pg & Hpg & _ & Ha & _); [by eapply refs_page|].
  pose proof (base_ptr_spec p ix Ha Hix) as Hbase.
  destruct (inv_acquire _ _ _ p Hi) as (h & Hc & _ & _ & Hacq); [by eapply refs_page|].
  unfold PageRef.into_raw_waker_ref. rewrite Hc. cbn [mbind outcome_bind]. cbv zeta.
  destruct (Hacq (with_mem w h)) with (ctx' := Some (p + ix)) as [Hi1 Hx1]; try done; try apply Hi.
  { by apply handles_keep. }
  { intros q. unfold refs, page_of. cbn. rewrite cnt_one, cnt_none, Hbase. cbn. lia. }
  pose proof (PinSlab.get_pin_mut_spec _ _ k (i_slab _ _ _ Hi1) (proj1 Hk)) as Hg. cbn [slab with_mem] in Hg |- *.
  destruct (m !! k) as [t|] eqn:Ht; [|rewrite Hg; bad_msg].
  destruct Hg as (wr & -> & _). cbn [mbind outcome_bind]. unfold result_poll.
  destruct (done_ t) as [o|] eqn:Hd.
  { exfalso. pose proof (i_done _ _ _ Hi k t Ht) as Hdone. rewrite Hnc in Hdone by done. by discriminate Hdone; rewrite Hd. }
  destruct (fut_poll (future t) (with_mem w h)) as [[fut calls] r]. cbn [mbind outcome_bind].
  pose proof (inv_record _ _ _ (Ran k t) Hi1) as Hi1'. set (w1 := record (with_mem w h) (Ran k t)) in *.
  assert (Hx1' : ext [k] w m w1 m).
  { destruct Hx1 as [_ P K X]. split; [by exists [Ran k t]|done| |intros j Hj _; apply (X j Hj (not_elem_of_nil _))].
    intros j _ u Hj. destruct (K j (not_elem_of_nil _) u Hj) as [Hl|?]; [by apply not_logged in Hl|by right]. }
  eapply fine_bind; [apply (acts_ok (Some (p + ix, k)) calls w1 m Hi1')|].
  intros w2 (m2 & Hi2 & Hx2 & Hu2). destruct (x_held _ _ _ _ _ Hx2 k (not_elem_of_nil _) t Ht) as [Hbad|(Ht2 & _ & _)];
    [by destruct (Hu2 _ _ eq_refl Hbad)|].
  pose proof (PinSlab.get_pin_mut_spec _ _ k (i_slab _ _ _ Hi2) (proj1 Hk)) as Hg. rewrite Ht2 in Hg.
  destruct Hg as (wr2 & -> & Hwr). cbn [mbind outcome_bind]. cbv zeta.
  pose proof (x_pages _ _ _ _ _ Hx2 _ _ Hp) as Hp2. cbn [pages with_slab]. rewrite Hp2.
  set (t' := mkResult fut r). set (ready := match r with Some _ => true | None => false end).
  destruct (write_back_ok _ w2 m2 k t t' (wr2 t') p ready Hi2 Ht2 (Hwr t')) as (h3 & Hw & Hi3 & Hh3 & Hc3).
  { by rewrite Hdiv. } { cbn. by destruct r. }
  rewrite Hmod in Hw. cbn [mem with_slab]. rewrite Hw. cbn [mbind outcome_bind].
  destruct (inv_release (Some (p + ix)) None (with_mem (with_slab w2 (wr2 t')) h3) (with_mem (with_slab w2 (wr2 t')) h3) _ p Hi3)
    as (h4 & Hdr & Hi4 & Hx4); try done.
  { by apply handles_keep. }
  { intros q. unfold refs, page_of. rewrite cnt_one, cnt_none, Hbase. cbn [fst]. lia. }
  unfold WakerRef.waker_ref_drop, WakerRef.drop. rewrite Hbase. cbn [fst]. cbn [mem with_mem] in Hdr. rewrite Hdr. cbn.
  exists (<[k := t']> m2). pose proof (ext_trans _ _ _ _ _ _ _ _ Hx1' Hx2) as Hx12.
  assert (Hx3 : ext [k] w m (with_mem (with_slab w2 (wr2 t')) h3) (<[k := t']> m2)).
  { destruct Hx12 as [G P K X]. split; [done|done| |].
    - intros j Hj. eapply (held_trans [k] []); [exact G|by apply grew_same|by apply K|]. apply Hh3. by intros ->; apply Hj; left.
    - intros j Hs Hj Hcj. assert (j <> k) by (by intros ->; apply Hj; left). rewrite lookup_insert_ne in Hs by done.
      rewrite Hc3 in Hcj by done. by apply X. }
  split_and!; [done|exact (ext_trans _ _ _ _ _ _ _ _ Hx3 Hx4)|]. exists t. split; [done|].
  apply (logged_l [] w w1); [exists [Ran k t]; split; [done|by left]|].
  exact (grew_trans [] [] w1 w2 _ (x_log _ _ _ _ _ Hx2) (grew_same _ _ eq_refl)).
Qed.

Lemma poll_tasks_ok page_ix p l w m : inv None w m -> 0 <= page_ix -> NoDup l -> Forall (fun ix => 0 <= ix < 64) l ->
  pages w !! Z.to_nat page_ix = Some p ->
  (forall ix, ix ∈ l -> is_Some (m !! (page_ix * 64 + ix)) -> flag completed w (page_ix * 64 + ix) = false) ->
  fine bad_msgs
    (fun w' => exists m', inv None w' m' /\ ext ((fun ix => page_ix * 64 + ix) <$> l) w m w' m' /\
      forall ix t, ix ∈ l -> m !! (page_ix * 64 + ix) = Some t ->
        logged w w' (Ran (page_ix * 64 + ix) t) \/ logged w w' (Taken (page_ix * 64 + ix)))
    (poll_tasks fut_poll w page_ix l).
Proof.
  intros Hi Hix0. revert w m Hi. induction l as [|ix l IH]; intros w m Hi Hnd Hl Hp Hnc; cbn [poll_tasks].
  - exists m. split_and!; [done|apply ext_refl|]. by intros ? ? ?%not_elem_of_nil.
  - apply Forall_cons in Hl as [Hix Hl]. apply NoDup_cons in Hnd as [Hni Hnd].
    eapply fine_bind; [eapply poll_task_ok; try done; apply Hnc; by left|].
    intros w1 (m1 & Hi1 & Hx1 & t1 & Ht1 & Hr1).
    assert (Hneq : forall jx, jx ∈ l -> page_ix * 64 + jx ∉ [page_ix * 64 + ix]).
    { intros jx Hj Heq%list_elem_of_singleton. assert (jx = ix) as -> by lia. done. }
    eapply fine_mono; [eapply IH; try done| |done].
    + by apply Hx1.
    + intros jx Hj Hsome. destruct (flag completed w1 (page_ix * 64 + jx)) eqn:E; [|done].
      destruct (x_new _ _ _ _ _ Hx1 _ Hsome (Hneq jx Hj) E) as [Hs Hc]. rewrite Hnc in Hc; [done|by right|done].
    + intros w2 (m2 & Hi2 & Hx2 & Hr2). exists m2. split_and!; [done|exact (ext_trans _ _ _ _ _ _ _ _ Hx1 Hx2)|].
      intros jx t [->|Hj]%elem_of_cons Ht.
      * left. rewrite Ht1 in Ht. injection Ht as <-. eapply logged_l; [done|apply Hx2].
      * destruct (x_held _ _ _ _ _ Hx1 _ (Hneq jx Hj) t Ht) as [Htk|(Ht' & _)]; [right; eapply logged_l; [done|apply Hx2]|].
        destruct (Hr2 jx t Hj Ht'); [left|right]; (eapply logged_r; [apply Hx1|done]).
Qed.

(** ** Polling pages *)

(** The flags that were set when the page was looked at. *)
Lemma take_bits pg : page_ok pg ->
  0 <= (take_notified pg).1 < 2^64 /\ 0 <= (take_dropped pg).1 < 2^64 /\
  (forall i, 0 <= i < 64 -> Z.testbit (take_notified pg).1 i =
     Z.testbit (notified pg) i && negb (Z.testbit (completed pg) i) && negb (Z.testbit (dropped pg) i)) /\
  (forall i, Z.testbit (take_dropped pg).1 i = Z.testbit (dropped pg) i).
Proof.
  intros (Hn & Hc & Hd). cbn. split; [by apply land_ok, land_ok|]. split; [done|]. split; [|done].
  intros i Hi. rewrite !Z.land_spec, !not64_spec by done. done.
Qed.

(** The page after its flags were taken. *)
Definition taken (pg : WakerPage) : WakerPage := (take_dropped (take_notified pg).2).2.

Lemma taken_inv w m p pg : inv None w m -> mem w !! p = Some pg -> page_ok pg ->
  inv None (with_mem w (<[p := taken pg]> (mem w))) m.
Proof.
  intros Hi Hpg Hok. eapply world_change; try done; try apply Hi.
  - pose proof (i_mem _ _ _ Hi) as Hm. intros q. cbn. destruct (decide (q = p)) as [->|].
    + rewrite lookup_insert_eq. specialize (Hm p). rewrite Hpg in Hm. destruct Hm as (_ & ? & ? & ?).
      split; [|done]. destruct Hok as (? & ? & ?). refine (conj _ (conj _ _)); cbn; (done || lia).
    + rewrite lookup_insert_ne by done. apply Hm.
  - intros q. by eapply insert_dom.
  - by apply handles_keep.
  - intros k _. rewrite (flag_update _ _ _ _ _ _ Hpg). unfold flag.
    destruct (pages w !! Z.to_nat (k / 64)) as [q|]; [|done]. destruct (decide (q = p)) as [->|]; [by rewrite Hpg|done].
Qed.

(** What a poll does to the tasks of the pages [P]: it runs no task twice and, unless a task was
    taken out or its drop was seen, runs every task that was notified and not completed. *)
Definition attends (P : Z -> Prop) w m w' (ks : list Z) : Prop :=
  NoDup ks /\ (forall j, j ∈ ks -> P (j / 64)) /\
  forall j t, P (j / 64) -> m !! j = Some t -> flag notified w j = true -> flag completed w j = false ->
    logged w w' (Ran j t) \/ logged w w' (DropSeen j) \/ logged w w' (Taken j).

Lemma poll_page_ok w m page_ix : inv None w m -> 0 <= page_ix < blen (pages w) ->
  fine bad_msgs (fun w' => exists m' ks, inv None w' m' /\ passes ks page_ix w m w' m' /\ attends (eq page_ix) w m w' ks)
    (poll_page fut_poll fut_drop w page_ix).
Proof.
  intros Hi Hb. destruct (lookup_lt_is_Some_2 (pages w) (Z.to_nat page_ix)) as [p Hp]; [unfold blen in *; lia|].
  destruct (heap_ok_live _ _ p (i_mem _ _ _ Hi)) as (pg & Hpg & Hok & _); [by eapply refs_page|].
  destruct (take_bits pg Hok) as (Hnr & Hdr & Hnb & Hdb).
  unfold poll_page, page_deref. rewrite Hp, Hpg. cbn [mbind outcome_bind].
  rewrite (surjective_pairing (take_notified pg)). cbv beta iota.
  rewrite (surjective_pairing (take_dropped (take_notified pg).2)). cbv beta iota zeta. fold (taken pg).
  change (take_dropped (take_notified pg).2).1 with (take_dropped pg).1.
  set (w1 := with_mem w (<[p := taken pg]> (mem w))). set (ns := (take_notified pg).1) in *. set (ds := (take_dropped pg).1) in *.
  pose proof (taken_inv _ _ _ _ Hi Hpg Hok : inv None w1 m) as Hi1.
  assert (Hdivs : forall ix, 0 <= ix < 64 -> (page_ix * 64 + ix) / 64 = page_ix /\ (page_ix * 64 + ix) mod 64 = ix)
    by (intros ix Hix; Z.div_mod_to_equations; lia).
  assert (Hfl : forall f ix, 0 <= ix < 64 -> flag f w (page_ix * 64 + ix) = Z.testbit (f pg) ix).
  { intros f ix Hix. destruct (Hdivs ix Hix) as [E1 E2]. unfold flag. by rewrite E1, E2, Hp, Hpg. }
  assert (Hpass : passes [] page_ix w m w1 m).
  { split_and!; [by apply grew_same|done|]. intros j Hj t Ht. right.
    assert (Hf : forall f, flag f w1 j = flag f w j); [|by rewrite !Hf].
    intros f. unfold w1. rewrite (flag_update _ _ _ _ _ _ Hpg). unfold flag.
    destruct (pages w !! Z.to_nat (j / 64)) as [q|] eqn:Hq; [|done]. destruct (decide (q = p)) as [->|]; [|done].
    exfalso. apply Hj. pose proof (i_keys _ _ _ Hi j (ex_intro _ _ Ht)).
    assert (Z.to_nat (j / 64) = Z.to_nat page_ix) by (eapply NoDup_lookup; [apply (i_nodup _ _ _ Hi)|done..]).
    pose proof (Z.div_pos j 64). lia. }
  assert (Hrange : forall v, 0 <= v < 2^64 -> Forall (fun ix => 0 <= ix < 64) (bit_iter v)).
  { intros v Hv. apply Forall_forall. intros ix Hix. by apply (bit_iter_spec v ix Hv) in Hix as [? _]. }
  assert (Hzero : forall ix, ~ ix ∈ bit_iter 0) by (intros ix [_ Hb0]%bit_iter_spec; [by rewrite Z.testbit_0_l in Hb0|lia]).
  set (ks := (fun ix => page_ix * 64 + ix) <$> bit_iter ns).
  assert (Hks : forall k, k ∈ ks -> k / 64 = page_ix).
  { intros k (ix & -> & [Hix _]%bit_iter_spec)%list_elem_of_fmap; [|done]. by apply Hdivs. }
  apply (fine_bind _ (fun w' => exists m', inv None w' m' /\ passes ks page_ix w m w' m' /\
           forall ix t, ix ∈ bit_iter ns -> m !! (page_ix * 64 + ix) = Some t ->
             logged w w' (Ran (page_ix * 64 + ix) t) \/ logged w w' (Taken (page_ix * 64 + ix)))).
  { destruct (Z.eqb_spec ns 0) as [E0|]; cbn [negb].
    { exists m. assert (En : bit_iter ns = []) by (apply elem_of_nil_inv; intros ix; rewrite E0; apply Hzero).
      unfold ks. rewrite En. split_and!; [done|done|]. by intros ? ? ?%not_elem_of_nil. }
    eapply fine_mono; [eapply (poll_tasks_ok page_ix p _ w1 m); try done; [lia|apply bit_iter_nodup|by apply Hrange|]| |done].
    - intros ix [Hix Hbit]%bit_iter_spec Hs; [|done]. unfold ns in Hbit. rewrite Hnb in Hbit by done.
      destruct (Hdivs ix Hix) as [E1 E2]. unfold w1. rewrite (flag_update _ _ _ _ _ _ Hpg), E1, E2, Hp, decide_True by done. cbn.
      destruct (Z.testbit (completed pg) ix); [|done]. by rewrite andb_false_r in Hbit.
    - intros w2 (m2 & Hi2 & Hx2 & Hr2). exists m2. split_and!; [done| |exact Hr2].
      exact (passes_trans [] _ _ _ _ _ _ _ _ Hpass (ext_passes _ _ _ _ _ _ Hx2 Hks)). }
  intros w2 (m2 & Hi2 & Hp2 & Hr2).
  eapply fine_mono with (bad := bad_msgs) (P := fun w' => exists m', inv None w' m' /\ passes [] page_ix w2 m2 w' m' /\
    forall ix, ix ∈ bit_iter ds -> logged w2 w' (DropSeen (page_ix * 64 + ix))); [| |done].
  { destruct (Z.eqb_spec ds 0) as [E0|]; cbn [negb].
    { exists m2. split_and!; [done|apply passes_refl|]. intros ix Hix. rewrite E0 in Hix. by destruct (Hzero ix). }
    eapply (drop_tasks_ok page_ix p _ w2 m2); try done; [lia|by apply Hrange|by apply Hp2]. }
  intros w3 (m3 & Hi3 & Hp3 & Hd3). exists m3, ks. split; [done|]. split; [rewrite <- (app_nil_r ks); by eapply passes_trans|].
  split_and!; [apply NoDup_fmap_2; [intros x y; lia|apply bit_iter_nodup]|intros j Hj; by rewrite Hks|].
  intros j t Hj Hs Hn Hc. pose proof (Z.div_mod j 64 ltac:(lia)) as Ej. pose proof (Z.mod_pos_bound j 64 ltac:(lia)) as Hm.
  assert (Ej' : j = page_ix * 64 + j mod 64) by lia. rewrite Ej' in Hn, Hc. rewrite Hfl in Hn, Hc by done.
  destruct (Z.testbit (dropped pg) (j mod 64)) eqn:Hd.
  - right. left. eapply logged_r; [apply Hp2|]. rewrite Ej'. apply Hd3. by apply bit_iter_spec.
  - assert (Hin : j mod 64 ∈ bit_iter ns).
    { apply bit_iter_spec; [done|]. split; [done|]. unfold ns. by rewrite Hnb, Hn, Hc, Hd by done. }
    destruct (Hr2 _ t Hin) as [Hl|Hl]; rewrite <- ?Ej' in *; [done|left|right; right]; (eapply logged_l; [exact Hl|apply Hp3]).
Qed.

Lemma poll_pages_ok l w m : inv None w m -> NoDup l -> (forall ix, ix ∈ l -> 0 <= ix < blen (pages w)) ->
  fine bad_msgs (fun w' => exists m' ks, inv None w' m' /\ grew ks w w' /\ attends (fun ix => ix ∈ l) w m w' ks)
    (poll_pages fut_poll fut_drop w l).
Proof.
  revert w m. induction l as [|ix l IH]; intros w m Hi Hnd Hl; cbn [poll_pages].
  - exists m, []. split_and!; [done|by apply grew_same|]. split_and!; [apply NoDup_nil_2|by intros ? ?%not_elem_of_nil|].
    by intros ? ? ?%not_elem_of_nil.
  - apply NoDup_cons in Hnd as [Hni Hnd].
    eapply fine_bind; [apply (poll_page_ok w m ix Hi); apply Hl; by left|].
    intros w1 (m1 & ks & Hi1 & (G1 & Hp1 & Hh1) & Hn1 & Hj1 & Hr1).
    assert (Hlen : blen (pages w) <= blen (pages w1)).
    { unfold blen. destruct (pages w) as [|p0 ps0] eqn:E; [cbn; lia|].
      destruct (lookup_lt_is_Some_2 (pages w) (length ps0)) as [q Hq]; [rewrite E; cbn; lia|].
      pose proof (lookup_lt_Some _ _ _ (Hp1 _ _ ltac:(rewrite <- E; exact Hq))). cbn. lia. }
    eapply fine_mono; [apply (IH w1 m1 Hi1 Hnd); intros jx Hj; destruct (Hl jx); [by right|lia]| |done].
    intros w2 (m2 & ks' & Hi2 & G2 & Hn2 & Hj2 & Hr2). exists m2, (ks ++ ks').
    split_and!; [done|by eapply grew_trans|]. split_and!.
    + apply NoDup_app. split_and!; [done| |done]. intros j ?%Hj1 ?%Hj2. congruence.
    + intros j [Hj%Hj1|Hj%Hj2]%elem_of_app; [rewrite <- Hj; by left|by right].
    + intros j t Hj Ht Hn Hc. apply elem_of_cons in Hj as [Hj|Hj].
      * destruct (Hr1 j t (eq_sym Hj) Ht Hn Hc) as [?|[?|?]]; [left|right; left|right; right]; by eapply logged_l.
      * destruct (Hh1 j) with (t := t) as [Htk|(Ht1 & Hn' & Hc')]; [congruence|done|right; right; by eapply logged_l|].
        destruct (Hr2 j t Hj Ht1 (Hn' Hn) (Hc' Hc)) as [?|[?|?]]; [left|right; left|right; right]; by eapply logged_r.
Qed.

Lemma sched_poll_ok w m : inv None w m ->
  fine bad_msgs (fun w' => exists m' ks, inv None w' m' /\ grew ks w w' /\ NoDup ks /\
      forall j t, m !! j = Some t -> flag notified w j = true -> flag completed w j = false ->
        logged w w' (Ran j t) \/ logged w w' (DropSeen j) \/ logged w w' (Taken j))
    (poll fut_poll fut_drop w).
Proof.
  intros Hi. unfold poll. eapply fine_mono; [apply (poll_pages_ok _ w m Hi)| |done].
  - apply NoDup_seqZ.
  - intros ix Hix%elem_of_seqZ. lia.
  - intros w' (m' & ks & Hi' & G & Hn & _ & Hr). exists m', ks. split_and!; [done..|]. intros j t Ht. apply Hr; [|done].
    apply elem_of_seqZ. pose proof (i_keys _ _ _ Hi j (ex_intro _ _ Ht)).
    split; [apply Z.div_pos; lia|]. rewrite Z.add_0_l. apply Z.div_lt_upper_bound; lia.
Qed.

(** ** Runs *)

Lemma default_inv : inv None (default (Fut := Fut) (Out := Out)) ∅.
Proof.
  split; cbn; try done.
  - apply PinSlab.slab_rep_new.
  - apply NoDup_nil_2.
  - intros k [? [=]].
  - intros p [? [=]].
Qed.

Lemma step_ok w m e : inv None w m -> fine bad_msgs (fun w' => exists m', inv None w' m') (step fut_poll fut_drop w e).
Proof.
  intros Hi. destruct e as [a|]; cbn [step].
  - eapply fine_mono; [by apply (acts_ok None)|intros w' (m' & ? & _); by exists m'|done].
  - eapply fine_mono; [by apply sched_poll_ok|intros w' (m' & ks & ? & _); by exists m'|done].
Qed.

Lemma run_ok es w m : inv None w m -> fine bad_msgs (fun w' => exists m', inv None w' m') (run fut_poll fut_drop w es).
Proof.
  revert w m. induction es as [|e es IH]; intros w m Hi; cbn [run]; [by exists m|].
  eapply fine_bind; [by eapply step_ok|]. intros w' (m' & Hi'). by eapply IH.
Qed.

(** A wake-up sets the flag of the task the waker was made for. *)
Lemma wake_flag w m i k p w1 : inv None w m -> 0 <= k -> is_Some (m !! k) ->
  pages w !! Z.to_nat (k / 64) = Some p -> wakers w !! i = Some (Some (p + k mod 64)) ->
  acts None w [Wake i] = Ret w1 ->
  inv None w1 m /\ flag notified w1 k = true /\ (flag completed w k = false -> flag completed w1 k = false).
Proof.
  intros Hi Hk Hs Hp Hw. cbn [acts]. destruct (room w) eqn:Hr; [|done]. intros Hact%bind_ret.
  destruct Hact as (w' & Hact & [= <-]).
  destruct (release_ok None w m (ReleaseWake i) Hi Hr) as (w2 & Hact2 & Hl2 & Hi2 & Hx2). cbn [release_action] in Hact2.
  rewrite Hact in Hact2. injection Hact2 as <-. split; [done|]. destruct Hs as [t Ht].
  split; [|apply (ext_stays w m w' m k t Hx2 Hl2 Ht)].
  destruct (heap_ok_live _ _ p (i_mem _ _ _ Hi)) as (pg & Hpg & Hok & Ha & _); [by eapply refs_page|].
  pose proof (Z.mod_pos_bound k 64 ltac:(lia)) as Hm. pose proof (base_ptr_spec p (k mod 64) Ha Hm) as Hb.
  destruct (wake_by_ref_ok None w m (p + k mod 64) Hi) as (h & Hu & Hi' & _); [by eapply refs_waker|].
  destruct (drop_waker_ok _ _ _ i _ Hi' Hw) as (w3 & Hd & Hl3 & _ & Hx3).
  cbn [act] in Hact. unfold with_waker in Hact. rewrite Hw in Hact.
  unfold WakerRef.waker_ref_wake, WakerRef.wake in Hact. cbn [mem with_wakers] in Hact. rewrite Hu in Hact.
  cbn [mbind outcome_bind] in Hact. assert (Ret w3 = Ret w') as [= ->] by (etransitivity; [symmetry; exact Hd|exact Hact]).
  apply (ext_stays _ _ _ _ k t Hx3 Hl3 Ht). unfold WakerRef.wake_by_ref in Hu. rewrite Hb in Hu.
  unfold page_update, page_deref in Hu. rewrite Hpg in Hu. injection Hu as <-.
  rewrite (flag_self w k p pg) by done. cbn. unfold fetch_or. rewrite set_bit_spec by lia. by rewrite Z.eqb_refl, orb_true_r.
Qed.

(** ** The end of the scheduler

    What is left of the invariant while the scheduler is dropped and afterwards. *)
Record rest w : Prop := {
  r_mem : heap_ok (mem w) (refs None w);
  r_keys : forall i h, handles w !! i = Some (Some h) -> exists k, key h = Some k /\ 0 <= k;
  r_handles_lim : blen (handles w) <= LIMIT;
  r_wakers_lim : blen (wakers w) <= LIMIT;
  r_nodup : NoDup (pages w);
}.

Lemma inv_rest w m : inv None w m -> rest w.
Proof.
  intros [I1 I2 I3 I4 I5 I6 I7 I8 Id I9 I10]. split; try done. intros i h Hh. destruct (I9 _ _ Hh) as (k & ? & ? & _). by exists k.
Qed.

(** A reference is given back, in [w1], which differs from [w] in handles and wakers only. *)
Lemma rest_release w w1 p h : rest w -> heap_ok h (refs None w) -> pages w1 = pages w ->
  length (handles w1) = length (handles w) -> length (wakers w1) = length (wakers w) ->
  (forall i x, handles w1 !! i = Some (Some x) -> exists j, handles w !! j = Some (Some x)) ->
  (forall q, refs None w q = refs None w1 q + at_ p q)%nat ->
  exists h', PageRef.drop h p = Ret h' /\ rest (with_mem w1 h').
Proof.
  intros [R1 R2 R3 R4 R5] Hh Hp Hlh Hlw Hv Hr. pose proof (Hr p) as Hrp. rewrite at_eq in Hrp.
  destruct (drop_ok h _ p Hh) as (h' & Hd & Hok & _); [lia|]. exists h'. split; [done|]. split; cbn; unfold blen in *; rewrite ?Hlh, ?Hlw, ?Hp; try done.
  - eapply heap_ok_ext, Hok. intros q. cbn. rewrite Hr. change (refs None (with_mem w1 h') q) with (refs None w1 q). lia.
  - intros i x Hx. destruct (Hv _ _ Hx) as [j Hj]. by eapply R2.
Qed.

Lemma rest_handle w i h : rest w -> handles w !! i = Some (Some h) -> forall h1, heap_ok h1 (refs None w) ->
  exists h', PageRef.drop h1 (chunk h) = Ret h' /\ rest (with_mem (with_handles w (<[i := None]> (handles w))) h').
Proof.
  intros R Hh h1 Hok. apply (rest_release w); try done; cbn; [by rewrite length_insert| |intros q; by apply refs_move_handle].
  intros j x [(_ & [=] & _)|[_ Hj]]%list_lookup_insert_Some. by exists j.
Qed.

Lemma rest_waker w i ptr : rest w -> wakers w !! i = Some (Some ptr) -> forall h1, heap_ok h1 (refs None w) ->
  exists h', PageRef.drop h1 (page_of ptr) = Ret h' /\ rest (with_mem (with_wakers w (<[i := None]> (wakers w))) h').
Proof.
  intros R Hw h1 Hok. apply (rest_release w); try done; cbn; [by rewrite length_insert|by eauto|intros q; by apply refs_move_waker].
Qed.

Lemma rest_wake w i ptr : rest w -> wakers w !! i = Some (Some ptr) ->
  exists h, WakerRef.wake_by_ref (mem w) ptr = Ret h /\ heap_ok h (refs None w).
Proof.
  intros R Hw. unfold WakerRef.wake_by_ref. pose proof (base_ptr_ix ptr) as Hix. pose proof (refs_waker None _ _ _ Hw) as Hp.
  unfold page_of in Hp. destruct (WakerRef.base_ptr ptr) as [b ix]. cbn in *.
  destruct (page_update_ok _ _ b _ (r_mem _ R) Hp (benign_notify ix Hix)) as (pg & _ & _ & Hu & Hok). eauto.
Qed.

Lemma rest_update w h : rest w -> heap_ok h (refs None w) -> rest (with_mem w h).
Proof. intros [R1 R2 R3 R4 R5] Hh. by split. Qed.

Lemma release_rest w r : rest w -> room w = true -> exists w', act None w (release_action r) = Ret w' /\ rest w' /\ pages w' = pages w.
Proof.
  intros R Hroom. destruct r as [i|i|i|i|i|i]; cbn [release_action act]; unfold with_handle, with_waker.
  - destruct (handles w !! i) as [[h|]|] eqn:Hh; [|by exists w..]. destruct (r_keys _ R _ _ Hh) as (k & Hk & Hk0).
    unfold Handle.drop, Handle.take_key. cbn [chunk key]. rewrite Hk. cbn [mem with_handles]. rewrite land63 by done.
    destruct (page_update_ok _ _ (chunk h) _ (r_mem _ R) (refs_handle _ _ _ _ Hh)
      (benign_dropped _ (Z.mod_pos_bound k 64 ltac:(lia)))) as (pg & _ & _ & -> & Hok). cbn [mbind outcome_bind].
    destruct (rest_handle _ _ _ R Hh _ Hok) as (h' & -> & R'). by eexists.
  - destruct (handles w !! i) as [[h|]|] eqn:Hh; [|by exists w..]. destruct (r_keys _ R _ _ Hh) as (k & Hk & Hk0).
    unfold Handle.into_raw, Handle.drop, Handle.take_key. cbn [chunk key]. rewrite Hk. cbn [mem with_handles mbind outcome_bind].
    destruct (rest_handle _ _ _ R Hh _ (r_mem _ R)) as (h' & -> & R'). by eexists.
  - destruct (wakers w !! i) as [[ptr|]|] eqn:Hw; [|by exists w..].
    unfold WakerRef.waker_ref_clone, WakerRef.clone. apply andb_true_iff in Hroom as [H1 H2]. apply Z.ltb_lt in H1, H2.
    destruct (clone_ok (mem w) (refs None w) (page_of ptr)) as (h & Hc & Hok & _ & _); [apply R|by eapply refs_waker| |].
    { pose proof (cnt_le chunk (handles w) (page_of ptr)). pose proof (cnt_le page_of (wakers w) (page_of ptr)).
      unfold refs, blen, LIMIT in *. rewrite cnt_none. destruct (decide _); lia. }
    unfold page_of in Hc. rewrite Hc. cbn. eexists. split; [done|]. split; [|done]. destruct R. split; cbn; try done.
    + eapply heap_ok_ext, Hok. intros q. unfold refs. cbn. rewrite cnt_app, cnt_one. lia.
    + rewrite blen_app. unfold blen in *. cbn. lia.
  - destruct (wakers w !! i) as [[ptr|]|] eqn:Hw; [|by exists w..].
    destruct (rest_waker _ _ _ R Hw _ (r_mem _ R)) as (h' & Hd & R').
    unfold WakerRef.waker_ref_drop, WakerRef.drop. unfold page_of in Hd. cbn [mem with_wakers]. rewrite Hd. by eexists.
  - destruct (wakers w !! i) as [[ptr|]|] eqn:Hw; [|by exists w..]. destruct (rest_wake _ _ _ R Hw) as (h & Hu & Hok).
    destruct (rest_waker _ _ _ R Hw _ Hok) as (h' & Hd & R'). unfold page_of in Hd.
    unfold WakerRef.waker_ref_wake, WakerRef.wake, WakerRef.drop. cbn [mem with_wakers]. rewrite Hu. cbn [mbind outcome_bind]. rewrite Hd. by eexists.
  - destruct (wakers w !! i) as [[ptr|]|] eqn:Hw; [|by exists w..]. destruct (rest_wake _ _ _ R Hw) as (h & Hu & Hok).
    unfold WakerRef.waker_ref_wake_by_ref. rewrite Hu. eexists. split; [done|]. split; [by apply rest_update|done].
Qed.

Lemma releases_rest l w : rest w ->
  fine [limit_msg] (fun w' => rest w' /\ pages w' = pages w) (acts None w (release_action <$> l)).
Proof.
  revert w. induction l as [|a l IH]; intros w R; cbn [acts fmap list_fmap]; [done|].
  destruct (room w) eqn:Hr; [|by left]. destruct (release_rest w a R Hr) as (w1 & -> & R1 & Hp1). cbn [mbind outcome_bind].
  eapply fine_mono; [by apply IH| |done]. intros w2 (R2 & Hp2). split; [done|congruence].
Qed.

(** Without the scheduler, the pages in memory are those a handle or a waker refers to. *)
Lemma cnt_pos {A} (g : A -> Z) l p : (0 < cnt g l p)%nat <-> exists i a, l !! i = Some (Some a) /\ g a = p.
Proof.
  unfold cnt. split.
  - intros Hl. destruct (filter _ l) as [|o r] eqn:E; [cbn in Hl; lia|].
    assert (Ho : o ∈ filter (fun o => g <$> o = Some p) l) by (rewrite E; left).
    apply list_elem_of_filter in Ho as [Ho [i Hi]%list_elem_of_lookup_1]. destruct o as [a|]; [|done]. injection Ho as <-. by exists i, a.
  - intros (i & a & Hi & <-). destruct (filter _ l) as [|o r] eqn:E; [|cbn; lia]. exfalso. apply (not_elem_of_nil (Some a)).
    rewrite <- E. apply list_elem_of_filter. split; [done|by eapply list_elem_of_lookup_2].
Qed.

Lemma rest_pages w p : rest w -> pages w = [] -> is_Some (mem w !! p) <->
  (exists i h, handles w !! i = Some (Some h) /\ chunk h = p) \/ (exists i ptr, wakers w !! i = Some (Some ptr) /\ page_of ptr = p).
Proof.
  intros R Hp. rewrite <- (cnt_pos chunk), <- (cnt_pos page_of). pose proof (r_mem _ R p) as Hm. unfold refs in Hm.
  rewrite Hp, cnt_none, decide_False in Hm by apply not_elem_of_nil.
  destruct (mem w !! p); split; intros Hx; [lia|done|by destruct Hx|lia].
Qed.

Lemma drop_entries_ok l w m : inv None w m -> fine [limit_msg] (fun w' => inv None w' m) (drop_entries fut_drop w l).
Proof.
  revert w. induction l as [|e l IH]; intros w Hi; cbn [drop_entries]; [done|].
  destruct e as [|n|t]; [by apply IH..|]. eapply fine_bind; [by apply releases_ok|]. intros w' [Hi' _]. by apply IH.
Qed.

(** Every page loses the scheduler's reference to it. *)
Lemma drop_pages_ok l w : rest w -> pages w = l -> exists w', drop_pages w l = Ret w' /\ rest w' /\ pages w' = [].
Proof.
  revert w. induction l as [|p l IH]; intros w R Hp; cbn [drop_pages]; [by exists w|]. destruct R as [R1 R2 R3 R4 R5].
  rewrite Hp in R5. apply NoDup_cons in R5 as [Hni Hnd].
  assert (Hr : forall q, refs None w q = (refs None (with_pages w l) q + at_ p q)%nat).
  { intros q. unfold refs. cbn. rewrite Hp. destruct (decide (p = q)) as [<-|Hne].
    - rewrite at_eq, decide_True, decide_False by (done || by left). lia.
    - rewrite at_ne by done. rewrite (decide_ext (q ∈ p :: l) (q ∈ l)); [lia|]. rewrite elem_of_cons. split; [|by right].
      intros [->|?]; [done|done]. }
  pose proof (Hr p) as Hrp. rewrite at_eq in Hrp.
  destruct (drop_ok _ _ p R1) as (h & Hd & Hok & _); [lia|]. rewrite Hd. cbn [mbind outcome_bind]. apply IH; [|done].
  split; cbn; try done. eapply heap_ok_ext, Hok. intros q. cbn. rewrite Hr.
  change (refs None (with_pages (with_mem w h) l) q) with (refs None (with_pages w l) q). lia.
Qed.

Lemma run_down_ok l w m : inv None w m ->
  fine [limit_msg] (fun w' => rest w' /\ pages w' = []) (run_down fut_drop w l).
Proof.
  intros Hi. unfold run_down, drop_scheduler. eapply fine_bind with (P := fun w' => rest w' /\ pages w' = []).
  - eapply fine_bind; [by apply drop_entries_ok|]. intros w1 Hi1.
    rewrite (PinSlab.clear_spec _ _ (i_slab _ _ _ Hi1)). cbn [mbind outcome_bind].
    destruct (drop_pages_ok (pages w1) (with_slab w1 (PinSlab.mk [] (PinSlab.len (slab w1)) (PinSlab.next (slab w1))))) as (w' & -> & ?); [|done|done].
    destruct (inv_rest _ _ Hi1). by split.
  - intros w1 [R1 Hp1]. eapply fine_mono; [by apply releases_rest| |done]. intros w2 [R2 Hp2]. split; [done|congruence].
Qed.

End safety.

(** C23: Whatever the tasks do when they are polled or dropped, and whatever the owners of handles
    and wakers do, a run of the scheduler from its initial state keeps the memory of the waker pages
    right: the reference count of a page is the number of references to it (the scheduler's, those of
    handles, wakers and polls in progress), and every page is aligned so that wakers can be pointers
    into it.  When the scheduler is dropped and the owners of handles and wakers go on, the counts
    stay right and the pages in memory are exactly those to which a handle or a waker is left.  The
    run ends in a panic in these cases only: a poll found a notified task gone or a handle of a
    removed task was taken, a dropped task was taken, a task took itself out during its own poll, or
    the limits of the model were passed (2^60 handles or wakers, or a task that polls the scheduler);
    in particular no page is used after it was freed or freed twice, no index is out of bounds, no
    task is polled after it completed, and no loop runs forever. *)
Theorem scheduler_memory_safe {Fut Out : Type} `{Allocator} `{BitIter}
    (fut_poll : Fut -> World Fut Out -> Fut * list (action Fut) * option Out)
    (fut_drop : FutureResult Fut Out -> World Fut Out -> list release) (es : list (event Fut)) (later : list release) :
  match run fut_poll fut_drop default es with
  | Ret w => heap_ok (mem w) (refs None w) /\
      match run_down fut_drop w later with
      | Ret w => heap_ok (mem w) (refs None w) /\
          forall p, is_Some (mem w !! p) <->
            (exists i h, handles w !! i = Some (Some h) /\ chunk h = p) \/
            (exists i ptr, wakers w !! i = Some (Some ptr) /\ page_of ptr = p)
      | Panic msg => msg = "limit of the model"
      | Diverge => False
      end
  | Panic msg => msg ∈ ["limit of the model"; "called Option::unwrap() on a None value";
                       "assertion failed: !page.was_dropped(subpage_ix)"; "use of a task that took itself out"]
  | Diverge => False
  end.
Proof.
  pose proof (run_ok fut_poll fut_drop es default ∅ default_inv) as Hr.
  destruct (run fut_poll fut_drop default es) as [w|msg|]; [|done..]. destruct Hr as (m & Hi). split; [apply (i_mem _ _ _ Hi)|].
  pose proof (run_down_ok fut_drop later w m Hi) as Hd. destruct (run_down fut_drop w later) as [w'|msg|]; [|by apply list_elem_of_singleton|done].
  destruct Hd as [R Hp]. split; [apply R|]. intros p. by apply rest_pages.
Qed.

(** C24: No wake-up is lost.  In every state a run reaches, waking a task through a waker made for
    it (a pointer into its page) makes the next poll run that very task, unless the poll comes to
    the drop of the task's handle or the task is taken out by another task first; no task is run
    twice in a poll.  The task is alive and has not completed; whatever other tasks do during the
    poll does not matter, as long as the poll returns. *)
Theorem woken_task_is_polled {Fut Out : Type} `{Allocator} `{BitIter}
    (fut_poll : Fut -> World Fut Out -> Fut * list (action Fut) * option Out)
    (fut_drop : FutureResult Fut Out -> World Fut Out -> list release) (es : list (event Fut))
    (w w1 w2 : World Fut Out) (i : nat) (k p : Z) (t : FutureResult Fut Out) :
  run fut_poll fut_drop default es = Ret w -> 0 <= k ->
  PinSlab.get (slab w) k = Ret (Some t) -> flag completed w k = false ->
  pages w !! Z.to_nat (k / 64) = Some p -> wakers w !! i = Some (Some (p + k mod 64)) ->
  acts None w [Wake i] = Ret w1 -> poll fut_poll fut_drop w1 = Ret w2 ->
  exists new, log w2 = log w1 ++ new /\ NoDup (polled_keys new) /\ (Ran k t ∈ new \/ DropSeen k ∈ new \/ Taken k ∈ new).
Proof.
  intros Hrun Hk Hget Hc Hp Hw Hwake Hpoll.
  pose proof (run_ok fut_poll fut_drop es default ∅ default_inv) as Hr. rewrite Hrun in Hr. destruct Hr as (m & Hi).
  rewrite (PinSlab.get_spec _ _ _ (i_slab _ _ _ Hi) Hk) in Hget. injection Hget as Ht.
  destruct (wake_flag w m i k p w1 Hi Hk) as (Hi1 & Hn & Hc1); try done.
  pose proof (sched_poll_ok fut_poll fut_drop w1 m Hi1) as Hpo. rewrite Hpoll in Hpo.
  destruct Hpo as (m' & ks & _ & (new & El & <-) & Hnd & Hall). exists new. split_and!; [done|done|].
  assert (Hin : forall e, logged w1 w2 e -> e ∈ new) by (intros e (l & El' & He); rewrite El in El'; by apply app_inv_head in El' as ->).
  destruct (Hall k t Ht Hn (Hc1 Hc)) as [?|[?|?]]; auto.
Qed.

(** ** Concrete runs *)

(** The set bits of a word, and an allocator that takes the lowest free address. *)
#[local] Program Instance low_bits : BitIter := {
  bit_iter v := filter (fun i => Z.testbit v i = true) (seqZ 0 64)
}.
Next Obligation.
  intros v ix Hv. rewrite list_elem_of_filter, elem_of_seqZ. rewrite Z.add_0_l. tauto.
Qed.
Next Obligation. intros v. apply NoDup_filter, NoDup_seqZ. Qed.

Definition candidates (used : gset Z) : list Z :=
  filter (fun p => p ∉ used) ((fun i => 64 * i) <$> seqZ 1 (Z.of_nat (size used) + 1)).

Lemma candidates_ok used : Z.of_nat (size used) < 2^57 ->
  exists i, head (candidates used) = Some (64 * i) /\ 64 * i ∉ used /\ 1 <= i <= 2^57.
Proof.
  intros Hs. destruct (candidates used) as [|p l] eqn:E.
  - exfalso. assert (Hall : forall p, (p ∈ ((fun i => 64 * i) <$> seqZ 1 (Z.of_nat (size used) + 1))) -> p ∈ used).
    { intros p Hp. destruct (decide (p ∈ used)); [done|]. exfalso. apply (not_elem_of_nil p). rewrite <- E.
      apply list_elem_of_filter. done. }
    assert (Hsub : list_to_set ((fun i => 64 * i) <$> seqZ 1 (Z.of_nat (size used) + 1)) ⊆ used)
      by (intros p Hp%elem_of_list_to_set; auto).
    apply subseteq_size in Hsub. rewrite size_list_to_set in Hsub.
    + rewrite length_fmap, length_seqZ in Hsub. lia.
    + apply NoDup_fmap_2; [intros x y; lia|apply NoDup_seqZ].
  - assert (Hp : p ∈ candidates used) by (rewrite E; left).
    apply list_elem_of_filter in Hp as [Hp (i & -> & Hi%elem_of_seqZ)%list_elem_of_fmap]. exists i. split_and!; [done|done|lia..].
Qed.

#[local] Program Instance first_free : Allocator := {
  allocate used := (match head (candidates used) with Some p => p | None => 0 end, mk 0 0 0 0)
}.
Next Obligation. intros used Hs. cbn. by destruct (candidates_ok used Hs) as (i & -> & ? & _). Qed.
Next Obligation.
  intros used Hs. cbn. destruct (candidates_ok used Hs) as (i & -> & _ & _). cbn. unfold WAKER_PAGE_SIZE.
  rewrite Z.mul_comm. apply Z_mod_mult.
Qed.
Next Obligation. intros used Hs. cbn. destruct (candidates_ok used Hs) as (i & -> & _ & Hi). cbn. unfold WAKER_PAGE_SIZE. lia. Qed.

(** Tasks that keep the waker of their first poll and complete after some polls. *)
Definition counter_poll (n : nat) (w : World nat ()) : nat * list (action nat) * option () :=
  match n with
  | O => (O, [], Some ())
  | S n => (n, [CloneContext], None)
  end.
Definition no_drop (t : FutureResult nat ()) (w : World nat ()) : list release := [].

Definition get_world (o : outcome (World nat ())) : World nat () := match o with Ret w => w | _ => default end.

(** The keys of the tasks that a poll after the run runs. *)
Definition polled_by (es : list (event nat)) : outcome (list Z) :=
  w ← run counter_poll no_drop default es;
  w' ← poll counter_poll no_drop w;
  Ret (polled_keys (drop (length (log w)) (log w'))).

(** Three tasks are polled when they are inserted; the second is polled again when it is woken. *)
Example fresh_tasks_are_polled : polled_by [Act (Insert 5%nat); Act (Insert 5%nat); Act (Insert 5%nat)] = Ret [0; 1; 2].
Proof. vm_compute. reflexivity. Qed.

Example woken_tasks_are_polled :
  polled_by [Act (Insert 5%nat); Act (Insert 5%nat); Act (Insert 5%nat); Poll; Act (Wake 1)] = Ret [1].
Proof. vm_compute. reflexivity. Qed.

(** Two tasks were polled once; the second is woken and polled again. *)
Definition two_tasks : list (event nat) := [Act (Insert 5%nat); Act (Insert 5%nat); Poll].
Definition before : World nat () := get_world (run counter_poll no_drop default two_tasks).
Definition woken : World nat () := get_world (acts None before [Wake 1]).
Definition after : World nat () := get_world (poll counter_poll no_drop woken).

Lemma woken_task_is_polled_witness :
  exists new, log after = log woken ++ new /\ NoDup (polled_keys new) /\
    (Ran 1 (mkResult 4%nat None) ∈ new \/ DropSeen 1 ∈ new \/ Taken 1 ∈ new).
Proof.
  apply (woken_task_is_polled counter_poll no_drop two_tasks before woken after 1 1 64 (mkResult 4%nat None));
    first [lia | vm_compute; reflexivity].
Defined.

(** The scheduler and then the last waker and handle go: the page is freed with the last of them. *)
Example pages_are_freed :
  (w ← run_down no_drop before []; Ret (size (mem w))) = Ret 1%nat /\
  (w ← run_down no_drop before [ReleaseHandle 0; ReleaseHandle 1; ReleaseWaker 0]; Ret (size (mem w))) = Ret 1%nat /\
  (w ← run_down no_drop before [ReleaseHandle 0; ReleaseHandle 1; ReleaseWaker 0; ReleaseWake 1]; Ret (size (mem w))) = Ret 0%nat.
Proof. split_and!; vm_compute; reflexivity. Qed.

(** A task that takes itself out while it runs is used after it was freed. *)
Definition taking_poll (n : nat) (w : World nat ()) : nat * list (action nat) * option () := (n, [Take 0], None).
Example task_takes_itself :
  (w ← run taking_poll no_drop default [Act (Insert 5%nat); Poll]; Ret (blen (log w))) = Panic "use of a task that took itself out".
Proof. vm_compute. reflexivity. Qed.

(** A task at the first place of a page whose handle was dropped is never removed: it is polled
    again when something wakes it. *)
Example dropped_first_task_leaks :
  polled_by [Act (Insert 5%nat); Act (Insert 5%nat); Poll; Act (DropHandle 0); Act (DropHandle 1); Poll; Act (Wake 0)]
  = Ret [0].
Proof. vm_compute. reflexivity. Qed.

(** The waker of a task that was removed makes the next poll panic. *)
Example stale_waker_panics :
  polled_by [Act (Insert 5%nat); Act (Insert 5%nat); Poll; Act (DropHandle 1); Poll; Act (Wake 1)]
  = Panic "called Option::unwrap() on a None value".
Proof. vm_compute. reflexivity. Qed.

End Safety.
