(* ===== verification/Ring.v ===== *)
(** * The lock-free ring buffer
    (src/src/rust/collections/ring.rs, src/src/rust/collections/raw_array.rs)

    An operation is a program of accesses to two indices and an array, in the order of the source.
    The main theorem is about one thread that uses the ring: what a call replies and leaves behind
    is what it does to a bounded first-in first-out queue.

    The ring is meant to be shared by a thread that enqueues and one that dequeues, without locks.
    All accesses to the indices are [Relaxed], so nothing orders the write of an item before the
    store of the index that publishes it: an example shows what then goes wrong.  What would hold
    with ordered accesses is proved for an idealised, sequentially consistent memory: every
    interleaving of the accesses is linearizable. *)

From S2P Require Import Prelude.

(** ** The array (raw_array.rs) *)

Module RawArray.

(** The cells an array points to; fresh memory is not initialised. *)
Record t (T : Type) := mk { cells : list (option T); is_managed : bool }.
Arguments mk {T} cells is_managed.
Arguments cells {T} t.
Arguments is_managed {T} t.

Section array.
Context {T : Type}.

(** Allocation does not fail ([handle_alloc_error] aborts); a layout larger than [isize::MAX]
    bytes is refused. *)
Definition new (size_of_t cap : Z) : Result (t T) :=
  if cap =? 0 then Err (mkFail EINVAL "cannot create a raw array with zero capacity")
  else if 2^63 - 1 <? cap * size_of_t then Err (mkFail EAGAIN "failed to create memory layout for raw array")
  else Ok (mk (replicate (Z.to_nat cap) None) true).

(** [mem] are the cells found at the pointer. *)
Definition from_raw_parts (ptr : Z) (mem : list (option T)) (len : Z) : Result (t T) :=
  if len =? 0 then Err (mkFail EINVAL "cannot create a raw array with zero capacity")
  else if ptr =? 0 then Err (mkFail EAGAIN "cannot create raw array from null pointer")
  else Ok (mk (take (Z.to_nat len) mem) false).

Definition capacity (self : t T) : Z := blen (cells self).

End array.
End RawArray.

Module RingBuffer.

(** ** Shared memory and programs over it *)

Record t (T : Type) := mk { back : Z; front : Z; buffer : RawArray.t T; mask : Z; is_managed : bool }.
Arguments mk {T} back front buffer mask is_managed.
Arguments back {T} t.
Arguments front {T} t.
Arguments buffer {T} t.
Arguments mask {T} t.
Arguments is_managed {T} t.

(** The accesses of a thread, in the order of the program. *)
Inductive prog (T A : Type) : Type :=
| Done (a : A)
| LoadFront (k : Z -> prog T A)
| LoadBack (k : Z -> prog T A)
| StoreFront (val : Z) (k : prog T A)
| StoreBack (val : Z) (k : prog T A)
| WriteCell (i : Z) (item : T) (k : prog T A)
| ReadCell (i : Z) (k : T -> prog T A).
Arguments Done {T A} a.
Arguments LoadFront {T A} k.
Arguments LoadBack {T A} k.
Arguments StoreFront {T A} val k.
Arguments StoreBack {T A} val k.
Arguments WriteCell {T A} i item k.
Arguments ReadCell {T A} i k.

#[export] Instance prog_ret T : MRet (prog T) := fun A a => Done a.
#[export] Instance prog_bind T : MBind (prog T) := fun A B f =>
  fix go m :=
    match m with
    | Done a => f a
    | LoadFront k => LoadFront (fun v => go (k v))
    | LoadBack k => LoadBack (fun v => go (k v))
    | StoreFront v k => StoreFront v (go k)
    | StoreBack v k => StoreBack v (go k)
    | WriteCell i x k => WriteCell i x (go k)
    | ReadCell i k => ReadCell i (fun x => go (k x))
    end.

Section ring.
Context {T : Type}.

(** One access; indexing is checked, and reading a cell that was never written is undefined. *)
Definition access {A} (p : prog T A) (r : t T) : outcome (prog T A * t T) :=
  match p with
  | Done a => Ret (Done a, r)
  | LoadFront k => Ret (k (front r), r)
  | LoadBack k => Ret (k (back r), r)
  | StoreFront v k => Ret (k, mk (back r) v (buffer r) (mask r) (is_managed r))
  | StoreBack v k => Ret (k, mk v (front r) (buffer r) (mask r) (is_managed r))
  | WriteCell i x k =>
      if i <? RawArray.capacity (buffer r)
      then Ret (k, mk (back r) (front r)
                     (RawArray.mk (<[Z.to_nat i := Some x]> (RawArray.cells (buffer r))) (RawArray.is_managed (buffer r)))
                     (mask r) (is_managed r))
      else Panic "index out of bounds"
  | ReadCell i k =>
      match RawArray.cells (buffer r) !! Z.to_nat i with
      | Some (Some x) => Ret (k x, r)
      | Some None => Panic "read of uninitialised memory"
      | None => Panic "index out of bounds"
      end
  end.

(** ** Construction *)

Definition is_power_of_two (n : Z) : bool := (0 <? n) && (n =? 2 ^ Z.log2 n).

Definition new (size_of_t capacity : Z) : Result (t T) :=
  if negb (is_power_of_two capacity)
  then Err (mkFail EINVAL "cannot create a ring buffer that does not have a power of two capacity")
  else
    buffer ← RawArray.new size_of_t capacity;
    Ok (mk 0 0 buffer (capacity - 1) true).

Definition SIZE_OF_USIZE : Z := 8.

(** [ptr.align_offset(align)]: the bytes to the next multiple; the alignment must be a power of two. *)
Definition align_offset (ptr align : Z) : outcome Z :=
  if is_power_of_two align then Ret ((- ptr) mod align)
  else Panic "align_offset: align is not a power-of-two".

(** The layout [from_raw_parts] computes: where the cells start and how many there are. *)
Definition raw_layout (ptr size size_of_t : Z) : outcome (Result (Z * Z)) :=
  if ptr =? 0 then fail EINVAL "cannot construct a ring buffer from a null pointer" else
  off ← align_offset ptr SIZE_OF_USIZE;
  if negb (off =? 0) then fail EINVAL "cannot construct a ring buffer from a unaligned memory region" else
  let size_of_ring := SIZE_OF_USIZE + SIZE_OF_USIZE in
  let buf := ptr + SIZE_OF_USIZE + SIZE_OF_USIZE in
  padding ← align_offset buf size_of_t;
  let size_of_ring := size_of_ring + padding in
  if size <? size_of_ring + size_of_t then fail EINVAL "memory region is too small to fit in a ring buffer" else
  let maxlen := (size - size_of_ring) / size_of_t in
  Ret (Ok (buf + padding, Z.shiftl 1 (Z.log2 maxlen))).

(** [front0], [back0] and [mem] are what the region holds. *)
Definition from_raw_parts (init : bool) (ptr size size_of_t : Z) (front0 back0 : Z) (mem : list (option T)) :
  outcome (Result (t T)) :=
  '(buffer_ptr, len) ←? raw_layout ptr size size_of_t;
  let '(back_, front_) := if init then (0, 0) else (back0, front0) in
  buffer ←? Ret (RawArray.from_raw_parts buffer_ptr mem len);
  Ret (Ok (mk back_ front_ buffer (len - 1) false)).

(** ** Operations *)

Definition capacity (self : t T) : Z := RawArray.capacity (buffer self) - 1.

Definition get_front : prog T Z := LoadFront Done.
Definition get_back : prog T Z := LoadBack Done.
Definition set_front (val : Z) : prog T unit := StoreFront val (Done tt).
Definition set_back (val : Z) : prog T unit := StoreBack val (Done tt).

Definition next (mask i : Z) : Z := Z.land (wrap64 (i + 1)) mask.

Definition is_full (mask : Z) : prog T bool :=
  front_cached ← get_front;
  back_cached ← get_back;
  mret (next mask back_cached =? front_cached).

Definition is_empty : prog T bool :=
  front_cached ← get_front;
  back_cached ← get_back;
  mret (back_cached =? front_cached).

(** [inl] is [Ok], [inr] is [Err] with the item. *)
Definition try_enqueue (mask : Z) (item : T) : prog T (unit + T) :=
  front_cached ← get_front;
  back_cached ← get_back;
  if next mask back_cached =? front_cached then mret (inr item)
  else
    _ ← WriteCell back_cached item (Done tt);
    _ ← set_back (next mask back_cached);
    mret (inl tt).

Definition try_dequeue (mask : Z) : prog T (option T) :=
  front_cached ← get_front;
  back_cached ← get_back;
  if back_cached =? front_cached then mret None
  else
    item ← ReadCell front_cached Done;
    _ ← set_front (next mask front_cached);
    mret (Some item).

(** A thread that runs alone executes its accesses one after the other. *)
Fixpoint exec {A} (p : prog T A) (r : t T) : outcome (A * t T) :=
  match p with
  | Done a => Ret (a, r)
  | LoadFront k => exec (k (front r)) r
  | LoadBack k => exec (k (back r)) r
  | StoreFront v k => exec k (mk (back r) v (buffer r) (mask r) (is_managed r))
  | StoreBack v k => exec k (mk v (front r) (buffer r) (mask r) (is_managed r))
  | WriteCell i x k =>
      if i <? RawArray.capacity (buffer r)
      then exec k (mk (back r) (front r)
                     (RawArray.mk (<[Z.to_nat i := Some x]> (RawArray.cells (buffer r))) (RawArray.is_managed (buffer r)))
                     (mask r) (is_managed r))
      else Panic "index out of bounds"
  | ReadCell i k =>
      match RawArray.cells (buffer r) !! Z.to_nat i with
      | Some (Some x) => exec (k x) r
      | Some None => Panic "read of uninitialised memory"
      | None => Panic "index out of bounds"
      end
  end.

Inductive call := Enqueue (item : T) | TryEnqueue (item : T) | Dequeue | TryDequeue | IsFull | IsEmpty.

Inductive reply := REnq (r : unit + T) | RDeq (o : option T) | RBool (b : bool).

Definition call_body (mask : Z) (c : call) : prog T reply :=
  match c with
  | Enqueue x | TryEnqueue x => r ← try_enqueue mask x; mret (REnq r)
  | Dequeue | TryDequeue => o ← try_dequeue mask; mret (RDeq o)
  | IsFull => b ← is_full mask; mret (RBool b)
  | IsEmpty => b ← is_empty; mret (RBool b)
  end.

(** [enqueue] and [dequeue] loop until the attempt succeeds. *)
Definition retry (c : call) (r : reply) : bool :=
  match c, r with
  | Enqueue _, REnq (inr _) => true
  | Dequeue, RDeq None => true
  | _, _ => false
  end.

(** A call of a thread that runs alone; [fuel] bounds the attempts of a blocking call. *)
Fixpoint exec_call (fuel : nat) (c : call) (r : t T) : outcome (reply * t T) :=
  match fuel with
  | O => Diverge
  | S fuel =>
      '(v, r) ← exec (call_body (mask r) c) r;
      if retry c v then exec_call fuel c r else Ret (v, r)
  end.

Fixpoint exec_calls (fuel : nat) (cs : list call) (r : t T) : outcome (list reply * t T) :=
  match cs with
  | [] => Ret ([], r)
  | c :: cs =>
      '(v, r) ← exec_call fuel c r;
      '(vs, r) ← exec_calls fuel cs r;
      Ret (v :: vs, r)
  end.

(** ** Two threads, on sequentially consistent memory *)

Inductive side := Producer | Consumer.

Inductive event := Call (s : side) (c : call) | Return (s : side) (r : reply).

(** The calls a thread has still to make, and the one it is executing. *)
Record thread := mkThread { todo : list call; current : option (call * prog T reply) }.

Record machine := mkMachine { ring : t T; producer : thread; consumer : thread; history : list event }.

(** One turn of a thread: it calls, makes one access, starts over, or returns. *)
Definition turn (s : side) (r : t T) (th : thread) : outcome (t T * thread * list event) :=
  match current th with
  | None =>
      match todo th with
      | [] => Ret (r, th, [])
      | c :: cs => Ret (r, mkThread cs (Some (c, call_body (mask r) c)), [Call s c])
      end
  | Some (c, Done v) =>
      if retry c v then Ret (r, mkThread (todo th) (Some (c, call_body (mask r) c)), [])
      else Ret (r, mkThread (todo th) None, [Return s v])
  | Some (c, p) =>
      '(p, r) ← access p r;
      Ret (r, mkThread (todo th) (Some (c, p)), [])
  end.

Definition step (m : machine) (s : side) : outcome machine :=
  match s with
  | Producer =>
      '(r, th, es) ← turn Producer (ring m) (producer m);
      Ret (mkMachine r th (consumer m) (history m ++ es))
  | Consumer =>
      '(r, th, es) ← turn Consumer (ring m) (consumer m);
      Ret (mkMachine r (producer m) th (history m ++ es))
  end.

(** A schedule says which thread moves. *)
Fixpoint run (m : machine) (schedule : list side) : outcome machine :=
  match schedule with
  | [] => Ret m
  | s :: schedule => m ← step m s; run m schedule
  end.

Definition start (r : t T) (ps cs : list call) : machine :=
  mkMachine r (mkThread ps None) (mkThread cs None) [].

(** The producer does not dequeue, the consumer does not enqueue. *)
Definition allowed (s : side) (c : call) : bool :=
  match s, c with
  | Producer, (Dequeue | TryDequeue) => false
  | Consumer, (Enqueue _ | TryEnqueue _) => false
  | _, _ => true
  end.

(** ** The atomic bounded queue *)

(** What a call does to a queue of capacity [cap]; a blocking call waits until it can succeed. *)
Definition apply_call (cap : Z) (c : call) (q : list T) : option (reply * list T) :=
  match c with
  | TryEnqueue x => Some (if blen q <? cap then (REnq (inl tt), q ++ [x]) else (REnq (inr x), q))
  | Enqueue x => if blen q <? cap then Some (REnq (inl tt), q ++ [x]) else None
  | TryDequeue => Some (match q with x :: q => (RDeq (Some x), q) | [] => (RDeq None, []) end)
  | Dequeue => match q with x :: q => Some (RDeq (Some x), q) | [] => None end
  | IsFull => Some (RBool (blen q =? cap), q)
  | IsEmpty => Some (RBool (bool_decide (q = [])), q)
  end.

(** A sequence of calls, unless one waits for ever. *)
Fixpoint apply_calls (cap : Z) (cs : list call) (q : list T) : option (list reply * list T) :=
  match cs with
  | [] => Some ([], q)
  | c :: cs =>
      '(v, q) ← apply_call cap c q;
      '(vs, q) ← apply_calls cap cs q;
      Some (v :: vs, q)
  end.

(** A thread of the specification: its call, and the reply once the call has taken effect. *)
Record sthread := mkSThread { s_todo : list call; s_current : option (call * option reply) }.

Record spec := mkSpec { queue : list T; s_producer : sthread; s_consumer : sthread; s_history : list event }.

Definition s_thread (s : side) (sp : spec) : sthread :=
  match s with Producer => s_producer sp | Consumer => s_consumer sp end.

Definition s_set (s : side) (th : sthread) (q : list T) (es : list event) (sp : spec) : spec :=
  match s with
  | Producer => mkSpec q th (s_consumer sp) (s_history sp ++ es)
  | Consumer => mkSpec q (s_producer sp) th (s_history sp ++ es)
  end.

Inductive spec_step (cap : Z) : spec -> spec -> Prop :=
| spec_call s sp c cs :
    s_thread s sp = mkSThread (c :: cs) None ->
    spec_step cap sp (s_set s (mkSThread cs (Some (c, None))) (queue sp) [Call s c] sp)
| spec_effect s sp c cs r q :
    s_thread s sp = mkSThread cs (Some (c, None)) -> apply_call cap c (queue sp) = Some (r, q) ->
    spec_step cap sp (s_set s (mkSThread cs (Some (c, Some r))) q [] sp)
| spec_return s sp c cs r :
    s_thread s sp = mkSThread cs (Some (c, Some r)) ->
    spec_step cap sp (s_set s (mkSThread cs None) (queue sp) [Return s r] sp).

Definition spec_start (ps cs : list call) : spec := mkSpec [] (mkSThread ps None) (mkSThread cs None) [].

(** ** The simulation *)

(** The ring of size [cap] that holds the items [q]. *)
Record holds (cap : Z) (r : t T) (q : list T) : Prop := {
  h_pow : exists k, 0 <= k <= 63 /\ cap = 2 ^ k;
  h_mask : mask r = cap - 1;
  h_cap : RawArray.capacity (buffer r) = cap;
  h_front : 0 <= front r < cap;
  h_back : back r = (front r + blen q) mod cap;
  h_len : blen q < cap;
  h_cells : forall i x, q !! i = Some x ->
    RawArray.cells (buffer r) !! Z.to_nat ((front r + Z.of_nat i) mod cap) = Some (Some x);
}.

(** Where the producer stands in a call, and the reply the call is bound to give. *)
Inductive p_at (cap : Z) (r : t T) (q : list T) (c : call) : prog T reply -> option reply -> Prop :=
| p_start : p_at cap r q c (call_body (mask r) c) None
| p_loaded f e k o : call_body (mask r) c = LoadFront k -> 0 <= e -> blen q + e < cap -> 0 <= f < cap ->
    front r = (f + e) mod cap ->
    o = match c with
        | TryEnqueue x => if blen q + e =? cap - 1 then Some (REnq (inr x)) else None
        | IsFull => Some (RBool (blen q + e =? cap - 1))
        | IsEmpty => Some (RBool (blen q + e =? 0))
        | _ => None
        end ->
    p_at cap r q c (k f) o
| p_write x : c = Enqueue x \/ c = TryEnqueue x -> blen q < cap - 1 ->
    p_at cap r q c (WriteCell (back r) x (StoreBack (next (mask r) (back r)) (Done (REnq (inl tt))))) None
| p_written x : c = Enqueue x \/ c = TryEnqueue x -> blen q < cap - 1 ->
    RawArray.cells (buffer r) !! Z.to_nat (back r) = Some (Some x) ->
    p_at cap r q c (StoreBack (next (mask r) (back r)) (Done (REnq (inl tt)))) None
| p_done v : retry c v = false -> p_at cap r q c (Done v) (Some v)
| p_again v : retry c v = true -> p_at cap r q c (Done v) None.

Inductive c_at (cap : Z) (r : t T) (q : list T) (c : call) : prog T reply -> option reply -> Prop :=
| c_start : c_at cap r q c (call_body (mask r) c) None
| c_loaded k : call_body (mask r) c = LoadFront k -> c_at cap r q c (k (front r)) None
| c_read : c = Dequeue \/ c = TryDequeue -> q <> [] ->
    c_at cap r q c (ReadCell (front r) (fun x => StoreFront (next (mask r) (front r)) (Done (RDeq (Some x))))) None
| c_got x : c = Dequeue \/ c = TryDequeue -> head q = Some x ->
    c_at cap r q c (StoreFront (next (mask r) (front r)) (Done (RDeq (Some x)))) None
| c_done v : retry c v = false -> c_at cap r q c (Done v) (Some v)
| c_again v : retry c v = true -> c_at cap r q c (Done v) None.

Definition thread_sim (s : side) (at_ : call -> prog T reply -> option reply -> Prop) (th : thread) (sth : sthread) : Prop :=
  todo th = s_todo sth /\ Forall (fun c => allowed s c = true) (todo th) /\
  match current th, s_current sth with
  | None, None => True
  | Some (c, p), Some (c', o) => c = c' /\ allowed s c = true /\ at_ c p o
  | _, _ => False
  end.

Record sim (cap : Z) (m : machine) (sp : spec) : Prop := {
  sim_holds : holds cap (ring m) (queue sp);
  sim_prod : thread_sim Producer (p_at cap (ring m) (queue sp)) (producer m) (s_producer sp);
  sim_cons : thread_sim Consumer (c_at cap (ring m) (queue sp)) (consumer m) (s_consumer sp);
  sim_hist : history m = s_history sp;
}.

(** *** Index arithmetic *)

Lemma holds_pos cap r q : holds cap r q -> 1 <= cap <= 2^63.
Proof.
  intros [(k & Hk & ->) _ _ _ _ _ _]. split; [apply (Z.pow_le_mono_r 2 0 k); lia|apply Z.pow_le_mono_r; lia].
Qed.

Lemma next_mod cap r q i : holds cap r q -> 0 <= i < cap -> next (mask r) i = (i + 1) mod cap.
Proof.
  intros Hh Hi. pose proof (holds_pos _ _ _ Hh). destruct Hh as [(k & Hk & ->) -> _ _ _ _ _].
  unfold next, wrap64. rewrite Z.mod_small by lia. apply land_ones_mod; lia.
Qed.

Lemma mod_inj cap a b : 0 <= b - a < cap -> a mod cap = b mod cap -> a = b.
Proof.
  intros Hab He. assert (Hz : (b - a) mod cap = 0) by (rewrite Zminus_mod, He, Z.sub_diag; apply Zmod_0_l).
  rewrite Z.mod_small in Hz; lia.
Qed.

Lemma mod_wrap cap f e : 0 <= f < cap -> 0 <= e <= cap -> (f + e) mod cap = f -> e = 0 \/ e = cap.
Proof.
  intros Hf He Hm. destruct (Z.eq_dec e cap); [by right|left]. assert (f = f + e); [|lia].
  apply (mod_inj cap); [lia|]. by rewrite Hm, Z.mod_small.
Qed.

(** The two tests of the code, on an old front index. *)
Lemma full_test cap r q f e : holds cap r q -> 0 <= e -> blen q + e < cap -> 0 <= f < cap -> front r = (f + e) mod cap ->
  (next (mask r) (back r) =? f) = (blen q + e =? cap - 1).
Proof.
  intros Hh He Hq Hf Hfr. pose proof (holds_pos _ _ _ Hh). pose proof (blen_nonneg q).
  rewrite (next_mod cap r q) by (done || (rewrite (h_back _ _ _ Hh); apply Z.mod_pos_bound; lia)).
  rewrite (h_back _ _ _ Hh), Hfr, Zplus_mod_idemp_l, <- Z.add_assoc, Zplus_mod_idemp_l.
  replace (f + e + (blen q + 1)) with (f + (blen q + e + 1)) by lia.
  destruct (Z.eqb_spec (blen q + e) (cap - 1)) as [E|E].
  - rewrite E. replace (f + (cap - 1 + 1)) with (f + 1 * cap) by lia. rewrite Z_mod_plus_full, Z.mod_small by lia. rewrite !Z.eqb_refl. done.
  - apply Z.eqb_neq. intros Hm. apply mod_wrap in Hm; lia.
Qed.

Lemma empty_test cap r q f e : holds cap r q -> 0 <= e -> blen q + e < cap -> 0 <= f < cap -> front r = (f + e) mod cap ->
  (back r =? f) = (blen q + e =? 0).
Proof.
  intros Hh He Hq Hf Hfr. pose proof (holds_pos _ _ _ Hh). pose proof (blen_nonneg q).
  rewrite (h_back _ _ _ Hh), Hfr, Zplus_mod_idemp_l. replace (f + e + blen q) with (f + (blen q + e)) by lia.
  destruct (Z.eqb_spec (blen q + e) 0) as [->|E].
  - rewrite Z.add_0_r, Z.mod_small by lia. rewrite !Z.eqb_refl. done.
  - apply Z.eqb_neq. intros Hm. apply mod_wrap in Hm; lia.
Qed.

Lemma front_now cap r q : holds cap r q -> front r = (front r + 0) mod cap.
Proof. intros Hh. pose proof (h_front _ _ _ Hh). by rewrite Z.add_0_r, Z.mod_small. Qed.

Lemma back_range cap r q : holds cap r q -> 0 <= back r < cap.
Proof. intros Hh. pose proof (holds_pos _ _ _ Hh). rewrite (h_back _ _ _ Hh). apply Z.mod_pos_bound. lia. Qed.

(** *** The ring's changes *)

Definition with_cells (r : t T) (cs : list (option T)) : t T :=
  mk (back r) (front r) (RawArray.mk cs (RawArray.is_managed (buffer r))) (mask r) (is_managed r).

(** Writing behind the last item does not touch the items. *)
Lemma holds_write cap r q x : holds cap r q ->
  holds cap (with_cells r (<[Z.to_nat (back r) := Some x]> (RawArray.cells (buffer r)))) q /\
  <[Z.to_nat (back r) := Some x]> (RawArray.cells (buffer r)) !! Z.to_nat (back r) = Some (Some x).
Proof.
  intros Hh. pose proof (back_range _ _ _ Hh) as Hb. pose proof (holds_pos _ _ _ Hh). pose proof (h_cap _ _ _ Hh) as Hc.
  unfold RawArray.capacity, blen in Hc. split; [|apply list_lookup_insert_eq; lia].
  pose proof Hh as [H1 H2 H3 H4 H5 H6 H7]. split; cbn; try done.
  - unfold RawArray.capacity. cbn. unfold blen. by rewrite length_insert.
  - intros i y Hi. rewrite list_lookup_insert_ne; [by apply H7|]. intros He. apply lookup_lt_Some in Hi. unfold blen in *.
    apply Z2Nat.inj in He; [|lia|apply Z.mod_pos_bound; lia]. rewrite H5 in He. symmetry in He. apply mod_inj in He; lia.
Qed.

(** Moving the back index makes the written cell an item. *)
Lemma holds_push cap r q x : holds cap r q -> blen q < cap - 1 ->
  RawArray.cells (buffer r) !! Z.to_nat (back r) = Some (Some x) ->
  holds cap (mk (next (mask r) (back r)) (front r) (buffer r) (mask r) (is_managed r)) (q ++ [x]).
Proof.
  intros Hh Hq Hx. pose proof (next_mod _ _ _ _ Hh (back_range _ _ _ Hh)) as Hn. destruct Hh as [H1 H2 H3 H4 H5 H6 H7].
  split; cbn; try done.
  - rewrite Hn, H5, Zplus_mod_idemp_l, blen_app. change (blen [x]) with 1. f_equal. lia.
  - rewrite blen_app. change (blen [x]) with 1. lia.
  - intros i y [Hi|[Hi Hy]]%lookup_app_Some; [by apply H7|]. destruct (i - length q)%nat eqn:E; [|done]. injection Hy as <-.
    rewrite <- Hx, H5. repeat f_equal. unfold blen. lia.
Qed.

(** Moving the front index drops the first item. *)
Lemma holds_pop cap r q x : holds cap r (x :: q) ->
  holds cap (mk (back r) (next (mask r) (front r)) (buffer r) (mask r) (is_managed r)) q.
Proof.
  intros Hh. pose proof (next_mod _ _ _ _ Hh (h_front _ _ _ Hh)) as Hn. pose proof (holds_pos _ _ _ Hh).
  destruct Hh as [H1 H2 H3 H4 H5 H6 H7]. rewrite blen_cons in *. rewrite Hn.
  split; cbn; try done.
  - apply Z.mod_pos_bound. lia.
  - rewrite H5, Zplus_mod_idemp_l. f_equal. lia.
  - lia.
  - intros i y Hi. rewrite Zplus_mod_idemp_l. replace (front r + 1 + Z.of_nat i) with (front r + Z.of_nat (S i)) by lia. by apply H7.
Qed.

(** *** Neither thread disturbs the other *)

Lemma c_at_push cap r q x c p o r' : mask r' = mask r -> front r' = front r -> c_at cap r q c p o -> c_at cap r' (q ++ [x]) c p o.
Proof.
  intros Hm Hf [|k Hk|Hc Hq|y Hc Hy|v|v]; rewrite <- ?Hm, <- ?Hf; constructor; try done; [by rewrite Hm|by destruct q..].
Qed.

Lemma c_at_frame cap r q c p o r' : mask r' = mask r -> front r' = front r -> c_at cap r q c p o -> c_at cap r' q c p o.
Proof. intros Hm Hf [|k Hk|Hc Hq|y Hc Hy|v|v]; rewrite <- ?Hm, <- ?Hf; constructor; try done. by rewrite Hm. Qed.

Lemma p_at_pop cap r q x c p o r' : holds cap r (x :: q) -> mask r' = mask r -> back r' = back r -> buffer r' = buffer r ->
  front r' = next (mask r) (front r) -> p_at cap r (x :: q) c p o -> p_at cap r' q c p o.
Proof.
  intros Hh Hm Hb Hbuf Hf'. rewrite (next_mod _ _ _ _ Hh (h_front _ _ _ Hh)) in Hf'.
  intros [|f e k o' Hk He Hq Hf Hfr Ho|y Hc Hq|y Hc Hq Hy|v Hv|v Hv]; rewrite ?blen_cons in *; rewrite <- ?Hm, <- ?Hb in *.
  - constructor.
  - eapply p_loaded with (e := e + 1); try done; [lia..| |].
    + rewrite Hf', Hfr, Zplus_mod_idemp_l. f_equal. lia.
    + rewrite Ho. by replace (1 + blen q + e) with (blen q + (e + 1)) by lia.
  - constructor; [done|lia].
  - apply (p_written cap r' q c y); [done|lia|by rewrite Hbuf].
  - by constructor.
  - by constructor.
Qed.

(** *** One access of each thread *)

(** How many accesses a call has before it at most. *)
Definition rank (p : prog T reply) : nat :=
  match p with
  | Done _ => 0
  | StoreFront _ _ | StoreBack _ _ => 1
  | WriteCell _ _ _ | ReadCell _ _ => 2
  | LoadBack _ => 3
  | LoadFront _ => 4
  end.

(** The call takes effect in the specification, or nothing happens there. *)
Definition effect (cap : Z) (c : call) (q q' : list T) (o o' : option reply) : Prop :=
  (q' = q /\ o' = o) \/ (o = None /\ exists v, o' = Some v /\ apply_call (cap - 1) c q = Some (v, q')).

Lemma full_spec cap r q : holds cap r q -> (blen q <? cap - 1) = negb (blen q =? cap - 1).
Proof. intros Hh. pose proof (h_len _ _ _ Hh). destruct (Z.ltb_spec (blen q) (cap - 1)), (Z.eqb_spec (blen q) (cap - 1)); (done || lia). Qed.

Lemma empty_spec (q : list T) : (blen q =? 0) = bool_decide (q = []).
Proof. destruct q as [|x q]; [done|]. rewrite blen_cons. pose proof (blen_nonneg q). rewrite bool_decide_eq_false_2 by done. apply Z.eqb_neq. lia. Qed.

Lemma producer_load cap r q c k : holds cap r q -> allowed Producer c = true -> call_body (mask r) c = LoadFront k ->
  exists o', p_at cap r q c (k (front r)) o' /\ effect cap c q q None o'.
Proof.
  intros Hh Ha Hk. eexists. split.
  { eapply (p_loaded cap r q c (front r) 0); try done; [|apply Hh|by apply (front_now cap r q)].
    rewrite Z.add_0_r. apply Hh. }
  rewrite Z.add_0_r. destruct c; try done; [by left| | |].
  - destruct (Z.eqb_spec (blen q) (cap - 1)) as [E|E]; [|by left]. right. split; [done|]. eexists. split; [done|].
    cbn. by rewrite (full_spec cap r), (proj2 (Z.eqb_eq _ _) E).
  - right. split; [done|]. by eexists.
  - right. split; [done|]. eexists. split; [done|]. cbn. by rewrite empty_spec.
Qed.

Lemma producer_access cap r q c p o : holds cap r q -> allowed Producer c = true -> p_at cap r q c p o ->
  (exists v, p = Done v) \/
  exists p' r' q' o', access p r = Ret (p', r') /\ (rank p' < rank p)%nat /\ holds cap r' q' /\ p_at cap r' q' c p' o' /\
    effect cap c q q' o o' /\ (forall d p2 s, c_at cap r q d p2 s -> c_at cap r' q' d p2 s).
Proof.
  intros Hh Ha [|f e k o' Hk He Hq Hf Hfr Ho|x Hc Hq|x Hc Hq Hx|v Hv|v Hv]; [right|right|right|right|left; by eexists..].
  - destruct (call_body (mask r) c) eqn:E; try by destruct c.
    destruct (producer_load cap r q c k Hh Ha E) as (o' & Hp & He). exists (k (front r)), r, q, o'. split_and!; try done.
    destruct c; try done; injection E as <-; cbn; lia.
  - assert (Hgo : exists p', access (k f) r = Ret (p', r) /\ (rank p' < rank (k f))%nat /\ p_at cap r q c p' o');
      [|destruct Hgo as (p' & Hp' & Hr & Hat); exists p', r, q, o'; split_and!; try done; by left].
    pose proof (full_test cap r q f e Hh He Hq Hf Hfr) as Hfull. pose proof (empty_test cap r q f e Hh He Hq Hf Hfr) as Hempty.
    assert (Hlt : (blen q + e =? cap - 1) = false -> blen q < cap - 1) by (intros ?%Z.eqb_neq; lia).
    destruct c as [x|x| | | |]; try done; injection Hk as <-; subst o'; cbn; (eexists; split; [done|]); rewrite ?Hfull, ?Hempty; (split; [repeat case_match; cbn; lia|]).
    + destruct (blen q + e =? cap - 1) eqn:E; [by apply p_again|]. apply p_write; [by left|by apply Hlt].
    + destruct (blen q + e =? cap - 1) eqn:E; [by apply p_done|]. apply p_write; [by right|by apply Hlt].
    + by apply p_done.
    + by apply p_done.
  - destruct (holds_write cap r q x Hh) as [Hh' Hcell]. exists (StoreBack (next (mask r) (back r)) (Done (REnq (inl tt)))), (with_cells r (<[Z.to_nat (back r) := Some x]> (RawArray.cells (buffer r)))), q, None.
    split_and!; [|cbn; lia|done| |by left|].
    + cbn. pose proof (back_range _ _ _ Hh). by rewrite (h_cap _ _ _ Hh), (proj2 (Z.ltb_lt _ _)) by lia.
    + by apply (p_written cap (with_cells _ _) q c x).
    + intros d p2 s. by apply c_at_frame.
  - eexists _, _, (q ++ [x]), _. split; [done|]. split; [cbn; lia|]. split; [by apply holds_push|].
    split; [apply p_done; by destruct Hc as [-> | ->]|]. split; [|intros d p2 s; by apply c_at_push].
    right. split; [done|]. eexists. split; [done|]. destruct Hc as [-> | ->]; cbn; by rewrite (proj2 (Z.ltb_lt _ _)).
Qed.

Lemma consumer_access cap r q c p o : holds cap r q -> allowed Consumer c = true -> c_at cap r q c p o ->
  (exists v, p = Done v) \/
  exists p' r' q' o', access p r = Ret (p', r') /\ (rank p' < rank p)%nat /\ holds cap r' q' /\ c_at cap r' q' c p' o' /\
    effect cap c q q' o o' /\ (forall d p2 s, p_at cap r q d p2 s -> p_at cap r' q' d p2 s).
Proof.
  intros Hh Ha [|k Hk|Hc Hq|x Hc Hx|v Hv|v Hv]; [right|right|right|right|left; by eexists..].
  - destruct (call_body (mask r) c) eqn:E; try by destruct c.
    exists (k (front r)), r, q, None. split_and!; try done; [|by apply c_loaded|by left].
    destruct c; try done; injection E as <-; cbn; lia.
  - assert (Hgo : exists p' o', access (k (front r)) r = Ret (p', r) /\ (rank p' < rank (k (front r)))%nat /\ c_at cap r q c p' o' /\ effect cap c q q None o');
      [|destruct Hgo as (p' & o' & Hp' & Hr & Hat & He); exists p', r, q, o'; by split_and!].
    pose proof (h_len _ _ _ Hh) as Hl. rewrite <- (Z.add_0_r (blen q)) in Hl.
    pose proof (full_test cap r q _ 0 Hh ltac:(lia) Hl (h_front _ _ _ Hh) (front_now _ _ _ Hh)) as Hfull.
    pose proof (empty_test cap r q _ 0 Hh ltac:(lia) Hl (h_front _ _ _ Hh) (front_now _ _ _ Hh)) as Hempty. rewrite Z.add_0_r in *.
    destruct c as [x|x| | | |]; try done; injection Hk as <-; cbn; rewrite ?Hfull, ?Hempty, ?empty_spec.
    + case_bool_decide as E; do 2 eexists; (split; [done|]); (split; [cbn; lia|]); (split; [|by left]); [by apply c_again|apply c_read; [by left|done]].
    + case_bool_decide as E; do 2 eexists; (split; [done|]); (split; [cbn; lia|]).
      * split; [by apply c_done|]. right. split; [done|]. eexists. split; [done|]. by subst q.
      * split; [|by left]. apply c_read; [by right|done].
    + do 2 eexists. split; [done|]. split; [cbn; lia|]. split; [by apply c_done|]. right. split; [done|]. by eexists.
    + do 2 eexists. split; [done|]. split; [cbn; lia|]. split; [by apply c_done|]. right. split; [done|]. by eexists.
  - destruct q as [|x q]; [done|]. exists (StoreFront (next (mask r) (front r)) (Done (RDeq (Some x)))), r, (x :: q), None. split; [|split_and!; try done; [cbn; lia|by apply c_got|by left]].
    pose proof (h_cells _ _ _ Hh 0 x eq_refl) as Hx. change (Z.of_nat 0) with 0 in Hx. rewrite <- (front_now _ _ _ Hh) in Hx. cbn. by rewrite Hx.
  - destruct q as [|y q]; [done|]. injection Hx as ->. eexists _, _, q, _. split; [done|]. split; [cbn; lia|]. split; [by eapply holds_pop|].
    split; [apply c_done; by destruct Hc as [-> | ->]|]. split; [|intros d p2 s; by apply (p_at_pop _ _ _ x)].
    right. split; [done|]. eexists. split; [done|]. by destruct Hc as [-> | ->].
Qed.

(** *** Turns *)

Lemma effect_steps cap s sp c cs o o' q' : s_thread s sp = mkSThread cs (Some (c, o)) -> effect cap c (queue sp) q' o o' ->
  rtc (spec_step (cap - 1)) sp (s_set s (mkSThread cs (Some (c, o'))) q' [] sp).
Proof.
  intros Hth [[-> ->]|(-> & v & -> & Hap)].
  - destruct sp as [q p c0 h], s; cbn in *; subst; rewrite app_nil_r; apply rtc_refl.
  - apply rtc_once. by eapply spec_effect.
Qed.

Lemma p_again_start cap r q c v o : p_at cap r q c (Done v) o -> o = if retry c v then None else Some v.
Proof.
  inversion 1 as [He|f e k o' Hk He Hq Hf Hfr Ho Hkf| | |v' Hv|v' Hv]; subst; try by rewrite Hv.
  - by destruct c.
  - destruct c; cbn in Hk; injection Hk as <-; done.
Qed.

Lemma c_again_start cap r q c v o : c_at cap r q c (Done v) o -> o = if retry c v then None else Some v.
Proof.
  inversion 1 as [He|k Hk Hkf| | |v' Hv|v' Hv]; subst; try by rewrite Hv.
  - by destruct c.
  - destruct c; cbn in Hk; injection Hk as <-; done.
Qed.

(** A turn of either thread, for a family [at_] of places kept by the other thread's [at2]. *)
Lemma turn_sim cap s (at_ at2 : t T -> list T -> call -> prog T reply -> option reply -> Prop) r q th sth :
  (forall c, at_ r q c (call_body (mask r) c) None) ->
  (forall c v o, at_ r q c (Done v) o -> o = if retry c v then None else Some v) ->
  (forall c p o, allowed s c = true -> at_ r q c p o -> (exists v, p = Done v) \/
     exists p' r' q' o', access p r = Ret (p', r') /\ (rank p' < rank p)%nat /\ holds cap r' q' /\ at_ r' q' c p' o' /\
       effect cap c q q' o o' /\ (forall d p2 o2, at2 r q d p2 o2 -> at2 r' q' d p2 o2)) ->
  holds cap r q -> thread_sim s (at_ r q) th sth ->
  exists r' th' es q' sth', turn s r th = Ret (r', th', es) /\ holds cap r' q' /\ thread_sim s (at_ r' q') th' sth' /\
    (forall d p2 o2, at2 r q d p2 o2 -> at2 r' q' d p2 o2) /\
    (forall sp, s_thread s sp = sth -> queue sp = q -> rtc (spec_step (cap - 1)) sp (s_set s sth' q' es sp)).
Proof.
  intros Hstart Hdone Hacc Hh (Htodo & Hall & Hcur). destruct th as [todo_ cur], sth as [stodo scur]. cbn in *. subst stodo.
  destruct cur as [[c p]|], scur as [[c' o]|]; try done.
  - destruct Hcur as (<- & Ha & Hat). assert (Hd : (exists v, p = Done v) \/ turn s r (mkThread todo_ (Some (c, p))) =
      ('(p, r) ← access p r; Ret (r, mkThread todo_ (Some (c, p)), []))) by (destruct p; [left; by eexists|by right..]).
    destruct Hd as [[v ->]|Hd].
    + pose proof (Hdone c v o Hat) as Ho. unfold turn. cbn. destruct (retry c v) eqn:Hr; subst o.
      * exists r, (mkThread todo_ (Some (c, call_body (mask r) c))), [], q, (mkSThread todo_ (Some (c, None))).
        split_and!; try done. intros sp Hs <-. eapply effect_steps; [done|by left].
      * exists r, (mkThread todo_ None), [Return s v], q, (mkSThread todo_ None). split_and!; try done.
        intros sp Hs <-. apply rtc_once. by eapply spec_return.
    + destruct (Hacc c p o Ha Hat) as [[v ->]|(p' & r' & q' & o' & Hp & Hm & Hh' & Hat' & He & Hfr)].
      { exfalso. cbn in Hd. unfold turn in Hd. cbn in Hd. destruct (retry c v); [|done]. injection Hd as Hd. by destruct c. }
      exists r', (mkThread todo_ (Some (c, p'))), [], q', (mkSThread todo_ (Some (c, o'))). split_and!; try done.
      * by rewrite Hd, Hp.
      * intros sp Hs <-. by eapply effect_steps.
  - destruct todo_ as [|c cs].
    + exists r, (mkThread [] None), [], q, (mkSThread [] None). split_and!; try done.
      intros sp Hs <-. destruct sp as [q p c0 h], s; cbn in *; subst; rewrite app_nil_r; apply rtc_refl.
    + apply Forall_cons in Hall as [Hc Hall].
      exists r, (mkThread cs (Some (c, call_body (mask r) c))), [Call s c], q, (mkSThread cs (Some (c, None))). split_and!; try done.
      intros sp Hs <-. apply rtc_once. by eapply spec_call.
Qed.

Lemma thread_sim_frame s (at1 at2 : call -> prog T reply -> option reply -> Prop) th sth :
  (forall c p o, at1 c p o -> at2 c p o) -> thread_sim s at1 th sth -> thread_sim s at2 th sth.
Proof.
  intros Hf (H1 & H2 & H3). split_and!; [done..|]. destruct (current th) as [[c p]|], (s_current sth) as [[c' o]|]; try done.
  destruct H3 as (-> & Ha & H3). auto.
Qed.

Lemma ring_step_sim cap m sp s : sim cap m sp ->
  exists m' sp', step m s = Ret m' /\ rtc (spec_step (cap - 1)) sp sp' /\ sim cap m' sp'.
Proof.
  intros [Hh Hp Hc Hhist]. destruct s.
  - destruct (turn_sim cap Producer (p_at cap) (c_at cap) (ring m) (queue sp) (producer m) (s_producer sp)) as
      (r' & th' & es & q' & sth' & Ht & Hh' & Hth & Hfr & Hsp); try done.
    { intros c. constructor. } { apply p_again_start. } { intros c p o. by apply producer_access. }
    eexists _, (s_set Producer sth' q' es sp). cbn [step]. rewrite Ht. split; [done|]. split; [by apply Hsp|].
    split; cbn; [done|done|by eapply thread_sim_frame|by rewrite Hhist].
  - destruct (turn_sim cap Consumer (c_at cap) (p_at cap) (ring m) (queue sp) (consumer m) (s_consumer sp)) as
      (r' & th' & es & q' & sth' & Ht & Hh' & Hth & Hfr & Hsp); try done.
    { intros c. constructor. } { apply c_again_start. } { intros c p o. by apply consumer_access. }
    eexists _, (s_set Consumer sth' q' es sp). cbn [step]. rewrite Ht. split; [done|]. split; [by apply Hsp|].
    split; cbn; [done|by eapply thread_sim_frame|done|by rewrite Hhist].
Qed.

Lemma ring_run_sim cap schedule m sp : sim cap m sp ->
  exists m' sp', run m schedule = Ret m' /\ rtc (spec_step (cap - 1)) sp sp' /\ sim cap m' sp'.
Proof.
  revert m sp. induction schedule as [|s ss IH]; intros m sp Hs; cbn [run]; [by exists m, sp|].
  destruct (ring_step_sim cap m sp s Hs) as (m1 & sp1 & -> & Hr1 & Hs1). cbn [mbind outcome_bind].
  destruct (IH m1 sp1 Hs1) as (m2 & sp2 & -> & Hr2 & Hs2). exists m2, sp2. split_and!; [done|by etrans|done].
Qed.

(** *** Calls return *)

Definition thread_of (s : side) (m : machine) : thread :=
  match s with Producer => producer m | Consumer => consumer m end.

Lemma access_decreases cap m sp s c p : sim cap m sp -> current (thread_of s m) = Some (c, p) ->
  (exists v, p = Done v) \/ exists p' r', access p (ring m) = Ret (p', r') /\ (rank p' < rank p)%nat.
Proof.
  intros [Hh (_ & _ & Hp) (_ & _ & Hc) _] Hcur. destruct s; cbn in Hcur; rewrite Hcur in *.
  - destruct (s_current (s_producer sp)) as [[c' o]|]; [|done]. destruct Hp as (_ & Ha & Hp).
    destruct (producer_access _ _ _ _ _ _ Hh Ha Hp) as [?|(p' & r' & q' & o' & ? & ? & _)]; [by left|right; eauto].
  - destruct (s_current (s_consumer sp)) as [[c' o]|]; [|done]. destruct Hc as (_ & Ha & Hc).
    destruct (consumer_access _ _ _ _ _ _ Hh Ha Hc) as [?|(p' & r' & q' & o' & ? & ? & _)]; [by left|right; eauto].
Qed.

Lemma step_thread s m r' th' es : turn s (ring m) (thread_of s m) = Ret (r', th', es) ->
  exists m', step m s = Ret m' /\ thread_of s m' = th' /\ history m' = history m ++ es.
Proof. destruct s; cbn; intros ->; by eexists. Qed.

(** A thread that runs alone returns from a call that does not wait after at most five turns. *)
Lemma call_returns cap s c n m sp p : sim cap m sp -> current (thread_of s m) = Some (c, p) -> (rank p <= n)%nat ->
  (forall v, retry c v = false) ->
  exists k v m', (k <= S n)%nat /\ run m (replicate k s) = Ret m' /\ history m' = history m ++ [Return s v].
Proof.
  intros Hs Hcur Hn Hr. revert m sp p Hs Hcur Hn. induction n as [n IH] using lt_wf_ind. intros m sp p Hs Hcur Hn.
  destruct (access_decreases _ _ _ _ _ _ Hs Hcur) as [[v ->]|(p' & r' & Ha & Hlt)].
  - destruct (step_thread s m (ring m) (mkThread (todo (thread_of s m)) None) [Return s v]) as (m' & Hst & _ & Hh).
    { unfold turn. by rewrite Hcur, Hr. }
    exists 1%nat, v, m'. split_and!; [lia|by cbn; rewrite Hst|done].
  - destruct (step_thread s m r' (mkThread (todo (thread_of s m)) (Some (c, p'))) []) as (m' & Hst & Hth & Hh).
    { unfold turn. rewrite Hcur. destruct p; [cbn in Hlt; lia|by rewrite Ha..]. }
    destruct (ring_step_sim _ _ _ s Hs) as (m1 & sp1 & Hst1 & _ & Hs1). rewrite Hst in Hst1. injection Hst1 as <-.
    destruct (IH (rank p') ltac:(lia) m' sp1 p' Hs1) as (k & v & m2 & Hk & Hrun & Hh2); [by rewrite Hth|lia|].
    exists (S k), v, m2. split_and!; [lia|by cbn; rewrite Hst|by rewrite Hh2, Hh, app_nil_r].
Qed.

(** *** Construction gives an empty ring *)

Lemma power_of_two n : is_power_of_two n = true -> exists k, 0 <= k /\ n = 2 ^ k.
Proof. intros [Hn%Z.ltb_lt He%Z.eqb_eq]%andb_prop. exists (Z.log2 n). split; [apply Z.log2_nonneg|done]. Qed.

Lemma holds_empty n cs b : (exists k, 0 <= k <= 63 /\ n = 2 ^ k) -> blen cs = n ->
  holds n (mk 0 0 (RawArray.mk cs b) (n - 1) b : t T) [].
Proof.
  intros (k & Hk & ->) Hl. assert (0 < 2 ^ k) by lia. split; cbn; try (done || lia).
  - by exists k.
Qed.

Lemma new_holds sz n r : 0 < n < 2^64 -> new sz n = Ok r -> holds n r [].
Proof.
  intros Hn. unfold new. destruct (is_power_of_two n) eqn:Hp; [|done]. cbn. unfold RawArray.new.
  destruct (Z.eqb_spec n 0); [done|]. destruct (_ <? _); [done|]. cbn. intros [= <-].
  apply power_of_two in Hp as (k & Hk & ->). apply holds_empty.
  - exists k. split; [|done]. assert (k < 64); [|lia]. apply (Z.pow_lt_mono_r_iff 2); lia.
  - unfold blen. rewrite length_replicate. lia.
Qed.

(** The layout of a given region: cells aligned, inside the region, as many as fit up to a power of two. *)
Lemma raw_layout_fits ptr size sz b len : 0 < ptr -> raw_layout ptr size sz = Ret (Ok (b, len)) ->
  ptr mod 8 = 0 /\ ptr + 16 <= b /\ b mod sz = 0 /\ (exists k, 0 <= k /\ len = 2 ^ k) /\
  b + len * sz <= ptr + size < b + 2 * len * sz.
Proof.
  intros Hp. unfold raw_layout. destruct (ptr =? 0); [done|]. change (align_offset ptr SIZE_OF_USIZE) with (Ret ((- ptr) mod 8) : outcome Z).
  cbn [mbind outcome_bind]. destruct (Z.eqb_spec ((- ptr) mod 8) 0) as [Ha|]; [|done]. cbn [negb].
  unfold align_offset. destruct (is_power_of_two sz) eqn:Hsz; [|done]. cbn [mbind outcome_bind].
  apply power_of_two in Hsz as (j & Hj & Hsz). assert (0 < sz) by lia. unfold SIZE_OF_USIZE in *.
  set (pad := (- (ptr + 8 + 8)) mod sz) in *. assert (0 <= pad < sz) by (apply Z.mod_pos_bound; lia).
  destruct (Z.ltb_spec size (8 + 8 + pad + sz)) as [|Hsize]; [done|]. intros [= <- <-].
  set (maxlen := (size - (8 + 8 + pad)) / sz). assert (Hmax : 1 <= maxlen) by (apply Z.div_le_lower_bound; lia).
  pose proof (Z.log2_spec maxlen ltac:(lia)) as [Hlo Hhi]. rewrite Z.shiftl_1_l. pose proof (Z.log2_nonneg maxlen).
  rewrite Z.pow_succ_r in Hhi by lia. pose proof (Z.mul_div_le (size - (8 + 8 + pad)) sz ltac:(lia)).
  pose proof (Z.mul_succ_div_gt (size - (8 + 8 + pad)) sz ltac:(lia)). fold maxlen in H2, H3.
  split_and!; [|lia| |by eexists|nia|nia].
  - Z.div_mod_to_equations. lia.
  - unfold pad. rewrite Zplus_mod_idemp_r. replace (ptr + 8 + 8 + - (ptr + 8 + 8)) with 0 by lia. by apply Z.mod_0_l; lia.
Qed.

Lemma raw_holds ptr size sz f0 b0 mem r : 0 < ptr -> size < 2^63 -> size <= blen mem * sz ->
  from_raw_parts true ptr size sz f0 b0 mem = Ret (Ok r) -> holds (capacity r + 1) r [].
Proof.
  intros Hp Hs Hm. unfold from_raw_parts. unfold try_bind at 1. destruct (raw_layout ptr size sz) as [[[b len]|]| |] eqn:El; try done.
  apply raw_layout_fits in El as (Hal & Hb & Hbz & (k & Hk & ->) & Hfit & Hmax); [|done]. cbn. unfold RawArray.from_raw_parts.
  destruct (Z.eqb_spec (2 ^ k) 0); [done|]. destruct (Z.eqb_spec b 0); [done|]. cbn. intros [= <-].
  assert (0 < sz) by nia. assert (Hlen : blen (take (Z.to_nat (2 ^ k)) mem) = 2 ^ k) by (unfold blen in *; rewrite length_take; nia).
  unfold capacity, RawArray.capacity. cbn. rewrite Hlen, Z.sub_add. apply holds_empty; [|done].
  exists k. split; [|done]. split; [done|]. apply Z.lt_le_incl. apply (Z.pow_lt_mono_r_iff 2); nia.
Qed.

(** A ring made by either constructor; a given region holds enough cells and is initialised. *)
Inductive made : t T -> Prop :=
| made_new size_of_t n r : 0 < n < 2^64 -> new size_of_t n = Ok r -> made r
| made_raw ptr size size_of_t f0 b0 mem r : 0 < ptr -> size < 2^63 -> size <= blen mem * size_of_t ->
    from_raw_parts true ptr size size_of_t f0 b0 mem = Ret (Ok r) -> made r.

Lemma made_holds r : made r -> holds (capacity r + 1) r [].
Proof.
  intros [sz n r' Hn Hr|]; [|by eapply raw_holds]. pose proof (new_holds _ _ _ Hn Hr) as Hh.
  unfold capacity. by rewrite (h_cap _ _ _ Hh), Z.sub_add.
Qed.

(** *** One thread *)

Lemma exec_enqueue cap r q x : holds cap r q ->
  if blen q <? cap - 1
  then exists r', exec (try_enqueue (mask r) x) r = Ret (inl tt, r') /\ holds cap r' (q ++ [x])
  else exec (try_enqueue (mask r) x) r = Ret (inr x, r).
Proof.
  intros Hh. pose proof (full_test cap r q (front r) 0 Hh ltac:(lia)) as Ht. rewrite Z.add_0_r in Ht.
  specialize (Ht (h_len _ _ _ Hh) (h_front _ _ _ Hh) (front_now _ _ _ Hh)). rewrite (full_spec cap r q Hh).
  cbn. rewrite Ht. destruct (Z.eqb_spec (blen q) (cap - 1)) as [|Hne]; cbn; [done|].
  pose proof (back_range _ _ _ Hh). pose proof (h_len _ _ _ Hh). rewrite (h_cap _ _ _ Hh), (proj2 (Z.ltb_lt _ _)) by lia.
  destruct (holds_write cap r q x Hh) as [Hw Hx]. eexists. split; [done|].
  by apply (holds_push cap (with_cells r _) q x); [|lia|].
Qed.

Lemma exec_dequeue cap r q : holds cap r q ->
  match q with
  | [] => exec (try_dequeue (mask r)) r = Ret (None, r)
  | x :: q => exists r', exec (try_dequeue (mask r)) r = Ret (Some x, r') /\ holds cap r' q
  end.
Proof.
  intros Hh. pose proof (empty_test cap r q (front r) 0 Hh ltac:(lia)) as Ht. rewrite Z.add_0_r in Ht.
  specialize (Ht (h_len _ _ _ Hh) (h_front _ _ _ Hh) (front_now _ _ _ Hh)). cbn. rewrite Ht, empty_spec.
  destruct q as [|x q]; [done|]. rewrite bool_decide_eq_false_2 by done.
  pose proof (h_cells _ _ _ Hh 0%nat x eq_refl) as Hc. change (Z.of_nat 0) with 0 in Hc.
  rewrite <- (front_now _ _ _ Hh) in Hc. cbn. rewrite Hc. cbn.
  eexists. split; [done|]. by apply (holds_pop cap r q x).
Qed.

Lemma exec_bind {A B} (p : prog T A) (f : A -> prog T B) r : exec (p ≫= f) r = exec p r ≫= fun '(a, r') => exec (f a) r'.
Proof.
  revert r. induction p as [a|k IH|k IH|v k IH|v k IH|i x k IH|i k IH]; intros r; cbn; try done; try apply IH.
  - destruct (_ <? _); [apply IH|done].
  - destruct (_ !! _) as [[x|]|]; [apply IH|done..].
Qed.

(** A call does to the ring what it does to the queue, or waits for ever. *)
Lemma exec_call_ok cap c r q fuel : holds cap r q ->
  match apply_call (cap - 1) c q with
  | Some (v, q') => exists r', exec_call (S fuel) c r = Ret (v, r') /\ holds cap r' q'
  | None => exec_call (S fuel) c r = Diverge
  end.
Proof.
  intros Hh.
  assert (He : forall x, exec (call_body (mask r) (TryEnqueue x)) r = exec (try_enqueue (mask r) x) r ≫= fun '(v, r') => Ret (REnq v, r'))
    by (intros x; cbn [call_body]; by rewrite exec_bind).
  assert (Hd : exec (call_body (mask r) TryDequeue) r = exec (try_dequeue (mask r)) r ≫= fun '(v, r') => Ret (RDeq v, r'))
    by (cbn [call_body]; by rewrite exec_bind).
  destruct c as [x|x| | | |]; cbn [apply_call].
  - pose proof (exec_enqueue cap r q x Hh) as Hx. destruct (blen q <? cap - 1).
    + destruct Hx as (r' & Hx & Hh'). exists r'. split; [|done]. cbn [exec_call]. change (call_body (mask r) (Enqueue x)) with (call_body (mask r) (TryEnqueue x)).
      rewrite He, Hx. done.
    + assert (Hloop : forall n, exec_call n (Enqueue x) r = Diverge); [|apply Hloop].
      induction n as [|n IH]; [done|]. cbn [exec_call]. change (call_body (mask r) (Enqueue x)) with (call_body (mask r) (TryEnqueue x)).
      rewrite He, Hx. cbn. apply IH.
  - pose proof (exec_enqueue cap r q x Hh) as Hx. cbn [exec_call]. rewrite He. destruct (blen q <? cap - 1).
    + destruct Hx as (r' & -> & Hh'). by exists r'.
    + rewrite Hx. by exists r.
  - pose proof (exec_dequeue cap r q Hh) as Hx. destruct q as [|x q].
    + assert (Hloop : forall n, exec_call n Dequeue r = Diverge); [|apply Hloop].
      induction n as [|n IH]; [done|]. cbn [exec_call]. change (call_body (mask r) Dequeue) with (call_body (mask r) TryDequeue).
      rewrite Hd, Hx. cbn. apply IH.
    + destruct Hx as (r' & Hx & Hh'). exists r'. split; [|done]. cbn [exec_call]. change (call_body (mask r) Dequeue) with (call_body (mask r) TryDequeue).
      rewrite Hd, Hx. done.
  - pose proof (exec_dequeue cap r q Hh) as Hx. cbn [exec_call]. rewrite Hd. destruct q as [|x q].
    + rewrite Hx. by exists r.
    + destruct Hx as (r' & -> & Hh'). by exists r'.
  - pose proof (full_test cap r q (front r) 0 Hh ltac:(lia)) as Ht. rewrite Z.add_0_r in Ht. exists r. split; [|done].
    cbn. by rewrite (Ht (h_len _ _ _ Hh) (h_front _ _ _ Hh) (front_now _ _ _ Hh)).
  - pose proof (empty_test cap r q (front r) 0 Hh ltac:(lia)) as Ht. rewrite Z.add_0_r in Ht. exists r. split; [|done].
    cbn. by rewrite (Ht (h_len _ _ _ Hh) (h_front _ _ _ Hh) (front_now _ _ _ Hh)), empty_spec.
Qed.

Lemma exec_calls_ok cap fuel cs : forall r q, holds cap r q ->
  match apply_calls (cap - 1) cs q with
  | Some (vs, q') => exists r', exec_calls (S fuel) cs r = Ret (vs, r') /\ holds cap r' q'
  | None => exec_calls (S fuel) cs r = Diverge
  end.
Proof.
  induction cs as [|c cs IH]; intros r q Hh; [by exists r|]. cbn [apply_calls exec_calls].
  pose proof (exec_call_ok cap c r q fuel Hh) as Hc. destruct (apply_call (cap - 1) c q) as [[v q1]|]; cbn [mbind option_bind].
  - destruct Hc as (r1 & -> & Hh1). cbn [mbind outcome_bind]. specialize (IH r1 q1 Hh1).
    destruct (apply_calls (cap - 1) cs q1) as [[vs q2]|]; cbn [mbind option_bind].
    + destruct IH as (r2 & -> & Hh2). by exists r2.
    + by rewrite IH.
  - by rewrite Hc.
Qed.


(** On sequentially consistent memory, which the code's [Relaxed] accesses do not guarantee, the
    ring buffer would be a linearizable, wait-free bounded queue.  For one thread that enqueues and
    one that dequeues, any sequences of calls and any interleaving of their memory accesses, no
    access is out of bounds or reads an unwritten cell, and the calls and returns are, in the same
    order, those of an atomic first-in first-out queue of the ring's capacity (the blocking calls
    succeed when they return).  A thread in a call that does not wait returns after at most five
    more turns of its own. *)
Theorem ring_is_linearizable (r : t T) (ps cs : list call) (schedule : list side) :
  made r -> Forall (fun c => allowed Producer c = true) ps -> Forall (fun c => allowed Consumer c = true) cs ->
  exists m sp, run (start r ps cs) schedule = Ret m /\
    rtc (spec_step (capacity r)) (spec_start ps cs) sp /\ history m = s_history sp /\
    forall s c p, current (thread_of s m) = Some (c, p) -> (forall v, retry c v = false) ->
      exists k v m', (k <= 5)%nat /\ run m (replicate k s) = Ret m' /\ history m' = history m ++ [Return s v].
Proof.
  intros Hr Hps Hcs. assert (Hs : sim (capacity r + 1) (start r ps cs) (spec_start ps cs)).
  { split; cbn; [by apply made_holds|done..]. }
  destruct (ring_run_sim _ schedule _ _ Hs) as (m & sp & Hrun & Hsp & Hsim). rewrite Z.add_simpl_r in Hsp.
  exists m, sp. split_and!; [done|done|by apply (sim_hist _ _ _ Hsim)|].
  intros s c p Hcur Hnr. eapply call_returns; [done|done| |done]. destruct p; cbn; lia.
Qed.

End ring.
Arguments call T : clear implicits.
Arguments reply T : clear implicits.
Arguments event T : clear implicits.
Arguments thread T : clear implicits.
Arguments machine T : clear implicits.
Arguments sthread T : clear implicits.
Arguments spec T : clear implicits.

(** Four cells, three items of room: the fourth attempt fails, and the items come out in order. *)
Definition demo_calls : list (call Z) := [TryEnqueue 10; TryEnqueue 11; Enqueue 12; TryEnqueue 13].

Definition demo_ring : t Z := mk 0 0 (RawArray.mk (replicate 4 None) true) 3 true.

Example demo_new : new 8 4 = Ok demo_ring.
Proof. reflexivity. Qed.

(** Both threads move in turn. *)
Fixpoint alternate (n : nat) : list side :=
  match n with O => [] | S n => Producer :: Consumer :: alternate n end.

Example demo_alternating :
  (m ← run (start demo_ring demo_calls [Dequeue; Dequeue; IsEmpty]) (alternate 30); Ret (omap (fun e => match e with Return _ r => Some r | _ => None end) (history m))) =
  Ret [REnq (inl tt); RDeq (Some 10); REnq (inl tt); RDeq (Some 11); REnq (inl tt); RBool false; REnq (inl tt)].
Proof. vm_compute. reflexivity. Qed.

Example demo_full :
  (m ← run (start demo_ring demo_calls []) (replicate 30 Producer); Ret (omap (fun e => match e with Return _ r => Some r | _ => None end) (history m))) =
  Ret [REnq (inl tt); REnq (inl tt); REnq (inl tt); REnq (inr 13)].
Proof. vm_compute. reflexivity. Qed.


Lemma ring_is_linearizable_witness :
  exists m sp, run (start demo_ring demo_calls [Dequeue; Dequeue; IsEmpty]) (alternate 4) = Ret m /\
    rtc (spec_step 3) (spec_start demo_calls [Dequeue; Dequeue; IsEmpty]) sp /\ history m = s_history sp /\
    forall s c p, current (thread_of s m) = Some (c, p) -> (forall v, retry c v = false) ->
      exists k v m', (k <= 5)%nat /\ run m (replicate k s) = Ret m' /\ history m' = history m ++ [Return s v].
Proof.
  apply (ring_is_linearizable demo_ring demo_calls [Dequeue; Dequeue; IsEmpty] (alternate 4)).
  - apply (made_new 8 4); [lia|reflexivity].
  - repeat constructor.
  - repeat constructor.
Defined.

(** The accesses are all [Relaxed]: nothing orders the write of an item before the store of the
    index that publishes it.  Executed in the other order, as the memory model allows, a dequeue
    between the two reads a cell that was not written. *)
Definition try_enqueue_reordered (mask : Z) (item : Z) : prog Z (unit + Z) :=
  front_cached ← get_front;
  back_cached ← get_back;
  if next mask back_cached =? front_cached then mret (inr item)
  else
    _ ← set_back (next mask back_cached);
    _ ← WriteCell back_cached item (Done tt);
    mret (inl tt).

Example relaxed_publication_is_not_safe :
  ('(p, r) ← access (r ← try_enqueue_reordered 3 10; mret (REnq r)) demo_ring;
   '(p, r) ← access p r;
   '(p, r) ← access p r;
   m ← run (mkMachine r (mkThread [] (Some (TryEnqueue 10, p))) (mkThread [TryDequeue] None) []) (replicate 5 Consumer);
   Ret (history m)) = Panic "read of uninitialised memory".
Proof. vm_compute. reflexivity. Qed.

(** An item whose size is not a power of two makes the construction from a region panic: the size is
    passed where an alignment is expected. *)
Example odd_sized_items_panic : from_raw_parts true 64 4096 12 0 0 ([] : list (option Z)) = Panic "align_offset: align is not a power-of-two".
Proof. vm_compute. reflexivity. Qed.

End RingBuffer.
