(* ===== verification/PairingHeap.v ===== *)
(** * The intrusive pairing heap
    (src/src/rust/collections/intrusive/pairing_heap.rs)

    The nodes live outside the heap, which links them by raw pointers: to the parent, to the
    siblings on both sides and to the first child.  The memory of the nodes is a map from
    addresses; reading an address without a node, undefined in the code, is a panic of the
    model.  The proofs relate the linked nodes to trees: after any insertions and removals of
    nodes the links form a heap-ordered tree of exactly the members. *)

From S2P Require Import Prelude.

(** The order of the payload is that of a key. *)
Class HeapOrd (T : Type) := ord_key : T -> Z.

Module PairingHeap.

Record HeapNode (T : Type) := mkNode {
  parent : option Z;
  prev : option Z;
  next : option Z;
  first_child : option Z;
  data : T;
}.
Arguments mkNode {T} parent prev next first_child data.
Arguments parent {T} h.
Arguments prev {T} h.
Arguments next {T} h.
Arguments first_child {T} h.
Arguments data {T} h.

Section heap.
Context {T : Type} `{HeapOrd T}.
Abbreviation node := (HeapNode T).
Abbreviation store := (gmap Z node).

Definition safe_lesser (a b : T) : bool := ord_key a <? ord_key b.

Definition new_node (d : T) : node := mkNode None None None None d.

Definition set_parent v (n : node) : node := mkNode v (prev n) (next n) (first_child n) (data n).
Definition set_prev v (n : node) : node := mkNode (parent n) v (next n) (first_child n) (data n).
Definition set_next v (n : node) : node := mkNode (parent n) (prev n) v (first_child n) (data n).
Definition set_first_child v (n : node) : node := mkNode (parent n) (prev n) (next n) v (data n).

Definition deref (st : store) (p : Z) : outcome node :=
  match st !! p with
  | Some n => Ret n
  | None => Panic "dangling pointer"
  end.

Definition modify (st : store) (p : Z) (f : node -> node) : outcome store :=
  n ← deref st p; Ret (<[p := f n]> st).

Definition add_child (st : store) (parent child : Z) : outcome store :=
  pn ← deref st parent;
  st ← modify st parent (set_first_child None);
  st ← match first_child pn with
       | Some old_first_child =>
           st ← modify st child (set_next (Some old_first_child));
           modify st old_first_child (set_prev (Some child))
       | None => Ret st
       end;
  st ← modify st parent (set_first_child (Some child));
  modify st child (set_parent (Some parent)).

Definition meld (st : store) (left_ right_ : Z) : outcome (Z * store) :=
  l ← deref st left_;
  r ← deref st right_;
  if safe_lesser (data l) (data r)
  then st ← add_child st left_ right_; Ret (left_, st)
  else st ← add_child st right_ left_; Ret (right_, st).

Definition maybe_meld (st : store) (left_ : option Z) (right_ : Z) : outcome (Z * store) :=
  match left_ with
  | Some left_ => meld st left_ right_
  | None => Ret (right_, st)
  end.

Fixpoint last_child (fuel : nat) (st : store) (cur : Z) : outcome Z :=
  match fuel with
  | O => Diverge
  | S fuel =>
      n ← deref st cur;
      match next n with
      | Some next => last_child fuel st next
      | None => Ret cur
      end
  end.

Definition unlink_prev (st : store) (node : Z) : outcome (option Z * store) :=
  n ← deref st node;
  st ← modify st node (set_prev None);
  match prev n with
  | None => Ret (None, st)
  | Some prev => st ← modify st prev (set_next None); Ret (Some prev, st)
  end.

(** The loop of [merge_children]. *)
Fixpoint merge_loop (fuel : nat) (st : store) (node : Z) (current : option Z) : outcome (Z * store) :=
  match fuel with
  | O => Diverge
  | S fuel =>
      st ← modify st node (set_parent None);
      '(p, st) ← unlink_prev st node;
      match p with
      | None => maybe_meld st current node
      | Some prev =>
          st ← modify st prev (set_parent None);
          '(prev_prev, st) ← unlink_prev st prev;
          '(melded, st) ← meld st prev node;
          '(cur, st) ← maybe_meld st current melded;
          match prev_prev with
          | Some prev_prev => merge_loop fuel st prev_prev (Some cur)
          | None => Ret (cur, st)
          end
      end
  end.

(** The number of nodes bounds both loops. *)
Definition merge_children (st : store) (first_child : Z) : outcome (Z * store) :=
  node ← last_child (S (size st)) st first_child;
  merge_loop (S (size st)) st node None.

(** The heap itself is the pointer to its root. *)
Definition new : option Z := None.

Definition insert (root : option Z) (st : store) (node : Z) : outcome (option Z * store) :=
  match root with
  | Some r => '(r, st) ← meld st r node; Ret (Some r, st)
  | None => Ret (Some node, st)
  end.

Definition peek_min (root : option Z) : option Z := root.

(** The first part of [remove]: the node leaves its siblings, or the root is reset. *)
Definition unlink (root : option Z) (st : store) (node : Z) : outcome (option Z * option Z * store) :=
  n ← deref st node;
  st ← modify st node (set_parent None);
  match parent n with
  | Some parent =>
      st ← match prev n with
           | Some prev => modify st prev (set_next (next n))
           | None => modify st parent (set_first_child (next n))
           end;
      st ← match next n with
           | Some next => modify st next (set_prev (prev n))
           | None => Ret st
           end;
      st ← modify st node (set_next None);
      st ← modify st node (set_prev None);
      Ret (Some parent, root, st)
  | None => Ret (None, None, st)
  end.

Definition remove (root : option Z) (st : store) (node : Z) : outcome (option Z * store) :=
  '(parent, root, st) ← unlink root st node;
  n ← deref st node;
  st ← modify st node (set_first_child None);
  match first_child n with
  | Some first_child =>
      '(children, st) ← merge_children st first_child;
      match parent with
      | Some parent => st ← add_child st parent children; Ret (root, st)
      | None => Ret (Some children, st)
      end
  | None => Ret (root, st)
  end.

(** ** Trees *)

Inductive tree : Type := Tree (p k : Z) (cs : list tree).

Definition root_of (t : tree) : Z := let '(Tree p _ _) := t in p.
Definition key_of (t : tree) : Z := let '(Tree _ k _) := t in k.
Definition kids_of (t : tree) : list tree := let '(Tree _ _ cs) := t in cs.

Fixpoint ptrs (t : tree) : list Z :=
  match t with Tree p _ cs => p :: flat_map ptrs cs end.

Definition forest_ptrs (cs : list tree) : list Z := flat_map ptrs cs.

Fixpoint tree_rect' (P : tree -> Prop) (IH : forall p k cs, Forall P cs -> P (Tree p k cs)) (t : tree) : P t :=
  match t with
  | Tree p k cs => IH p k cs ((fix go cs := match cs return Forall P cs with
                                       | [] => Forall_nil_2 P
                                       | c :: cs => Forall_cons_2 P c cs (tree_rect' P IH c) (go cs)
                                       end) cs)
  end.

(** The key of a node is at most the keys of its children. *)
Inductive ordered : tree -> Prop :=
| ordered_node p k cs : Forall (fun c => k <= key_of c) cs -> Forall ordered cs -> ordered (Tree p k cs).

(** First and last root of a list of siblings. *)
Definition head_or (o : option Z) (cs : list tree) : option Z :=
  match cs with [] => o | c :: _ => Some (root_of c) end.

Fixpoint last_or (o : option Z) (cs : list tree) : option Z :=
  match cs with [] => o | c :: cs => last_or (Some (root_of c)) cs end.

(** The node of a tree's root with the given outer links. *)
Definition node_at (st : store) (par prv nxt fc : option Z) (p k : Z) : Prop :=
  exists d, st !! p = Some (mkNode par prv nxt fc d) /\ ord_key d = k.

Fixpoint rep (st : store) (par prv nxt : option Z) (t : tree) : Prop :=
  match t with
  | Tree p k cs =>
      node_at st par prv nxt (head_or None cs) p k /\
      (fix reps (prv : option Z) (cs : list tree) : Prop :=
         match cs with
         | [] => True
         | c :: cs => rep st (Some p) prv (head_or None cs) c /\ reps (Some (root_of c)) cs
         end) None cs
  end.

Fixpoint reps (st : store) (par prv : option Z) (cs : list tree) (nxt : option Z) : Prop :=
  match cs with
  | [] => True
  | c :: cs => rep st par prv (head_or nxt cs) c /\ reps st par (Some (root_of c)) cs nxt
  end.

Lemma rep_unfold st par prv nxt p k cs : rep st par prv nxt (Tree p k cs) <->
  node_at st par prv nxt (head_or None cs) p k /\ reps st (Some p) None cs None.
Proof.
  cbn [rep]. apply and_iff_compat_l.
  match goal with |- ?f None cs <-> _ => enough (Hq : forall q, f q cs <-> reps st (Some p) q cs None) by apply Hq end.
  induction cs as [|c cs IH]; intros q; cbn; [done|]. by rewrite IH.
Qed.

Lemma rep_root st par prv nxt t : rep st par prv nxt t ->
  node_at st par prv nxt (head_or None (kids_of t)) (root_of t) (key_of t) /\ reps st (Some (root_of t)) None (kids_of t) None.
Proof. destruct t. apply rep_unfold. Qed.

Lemma ptrs_root t : root_of t ∈ ptrs t.
Proof. destruct t. cbn. left. Qed.

Lemma ptrs_eq t : ptrs t = root_of t :: forest_ptrs (kids_of t).
Proof. by destruct t. Qed.

Lemma forest_ptrs_cons c cs : forest_ptrs (c :: cs) = ptrs c ++ forest_ptrs cs.
Proof. done. Qed.

Lemma forest_ptrs_app cs ds : forest_ptrs (cs ++ ds) = forest_ptrs cs ++ forest_ptrs ds.
Proof. induction cs as [|c cs IH]; [done|]. by rewrite <- app_comm_cons, !forest_ptrs_cons, IH, app_assoc. Qed.

(** ** Frames: what the links of a tree depend on *)

Lemma rep_reps_frame st st' t :
  forall par prv nxt, (forall q, q ∈ ptrs t -> st' !! q = st !! q) -> rep st par prv nxt t -> rep st' par prv nxt t.
Proof.
  induction t as [p k cs IH] using tree_rect'. intros par prv nxt Hq. rewrite !rep_unfold. intros [(d & Hd & Hk) Hr].
  split; [exists d; split; [|done]; rewrite Hq; [done|by left]|].
  assert (Hq' : forall q, q ∈ flat_map ptrs cs -> st' !! q = st !! q) by (intros; apply Hq; by right).
  clear Hq Hd. enough (Hall : forall q0, reps st (Some p) q0 cs None -> reps st' (Some p) q0 cs None) by auto. clear Hr.
  induction cs as [|c cs IHcs]; intros q0 Hr; [done|].
  apply Forall_cons in IH as [IHc IH]. destruct Hr as [Hc Hr]. split.
  - apply IHc; [|done]. intros q Hin. apply Hq'. cbn. rewrite elem_of_app. by left.
  - apply IHcs; [done| |done]. intros q Hin. apply Hq'. cbn. rewrite elem_of_app. by right.
Qed.

Lemma reps_frame st st' par prv cs nxt : (forall q, q ∈ forest_ptrs cs -> st' !! q = st !! q) ->
  reps st par prv cs nxt -> reps st' par prv cs nxt.
Proof.
  revert prv. induction cs as [|c cs IH]; intros prv Hq; [done|]. intros [Hc Hr]. split.
  - eapply rep_reps_frame, Hc. intros q Hin. apply Hq. cbn. rewrite elem_of_app. by left.
  - apply IH, Hr. intros q Hin. apply Hq. cbn. rewrite elem_of_app. by right.
Qed.

Lemma reps_app st par prv cs ds nxt :
  reps st par prv (cs ++ ds) nxt <-> reps st par prv cs (head_or nxt ds) /\ reps st par (last_or prv cs) ds nxt.
Proof.
  revert prv. induction cs as [|c cs IH]; intros prv; cbn; [tauto|]. rewrite IH.
  assert (E : head_or nxt (cs ++ ds) = head_or (head_or nxt ds) cs) by (by destruct cs). rewrite E. tauto.
Qed.

Lemma last_or_snoc o cs c : last_or o (cs ++ [c]) = Some (root_of c).
Proof. revert o. induction cs as [|c' cs IH]; intros o; [done|]. apply IH. Qed.

Lemma head_or_snoc o cs c : exists p, head_or o (cs ++ [c]) = Some p.
Proof. destruct cs; cbn; eauto. Qed.

(** Changing the outer links of the root. *)
Lemma rep_relink st par prv nxt t par' prv' nxt' n : rep st par prv nxt t -> NoDup (ptrs t) ->
  st !! root_of t = Some n ->
  rep (<[root_of t := mkNode par' prv' nxt' (first_child n) (data n)]> st) par' prv' nxt' t.
Proof.
  destruct t as [p k cs]. cbn [root_of]. rewrite !rep_unfold. intros [(d & Hd & Hk) Hr] [Hn _]%NoDup_cons Hs.
  rewrite Hd in Hs. injection Hs as <-. split.
  - exists d. split; [|done]. by rewrite lookup_insert_eq.
  - eapply reps_frame, Hr. intros q Hq. apply lookup_insert_ne. intros <-. done.
Qed.

(** Changing the first child. *)
Lemma rep_kids st par prv nxt p k cs' d : st !! p = Some (mkNode par prv nxt (head_or None cs') d) -> ord_key d = k ->
  reps st (Some p) None cs' None -> rep st par prv nxt (Tree p k cs').
Proof. intros Hp Hk Hr. apply rep_unfold. split; [by exists d|done]. Qed.

(** The payloads (and the set of nodes) are those of before. *)
Definition same_data (st st' : store) : Prop := forall p, data <$> st' !! p = data <$> st !! p.

Definition outside (ps : list Z) (st st' : store) : Prop := forall q, q ∉ ps -> st' !! q = st !! q.

Lemma same_data_refl st : same_data st st.
Proof. done. Qed.

Lemma same_data_trans st1 st2 st3 : same_data st1 st2 -> same_data st2 st3 -> same_data st1 st3.
Proof. intros H1 H2 p. by rewrite H2, H1. Qed.

Lemma same_data_insert st p n n' : st !! p = Some n -> data n' = data n -> same_data st (<[p := n']> st).
Proof.
  intros Hp Hd q. destruct (decide (q = p)) as [->|]; [rewrite lookup_insert_eq, Hp; cbn; by rewrite Hd|].
  by rewrite lookup_insert_ne.
Qed.

Lemma same_data_dom st st' : same_data st st' -> dom st' = dom st.
Proof.
  intros Hs. apply set_eq. intros p. rewrite !elem_of_dom.
  specialize (Hs p). destruct (st' !! p), (st !! p); (done || naive_solver).
Qed.

Lemma outside_trans ps st1 st2 st3 : outside ps st1 st2 -> outside ps st2 st3 -> outside ps st1 st3.
Proof. intros H1 H2 q Hq. by rewrite H2, H1. Qed.

Lemma outside_mono ps ps' st1 st2 : (forall q, q ∈ ps -> q ∈ ps') -> outside ps st1 st2 -> outside ps' st1 st2.
Proof. intros Hs Ho q Hq. apply Ho. auto. Qed.

Lemma outside_insert ps (st : store) p n : p ∈ ps -> outside ps st (<[p := n]> st).
Proof. intros Hp q Hq. apply lookup_insert_ne. congruence. Qed.

Lemma modify_ok st p n f : st !! p = Some n -> modify st p f = Ret (<[p := f n]> st).
Proof. intros Hp. unfold modify, deref. by rewrite Hp. Qed.

(** ** Linking *)

Lemma node_lookup st par prv nxt t : rep st par prv nxt t ->
  exists d, st !! root_of t = Some (mkNode par prv nxt (head_or None (kids_of t)) d) /\ ord_key d = key_of t.
Proof. intros [(d & Hd & Hk) _]%rep_root. by exists d. Qed.

End heap.

(** Lookups in a memory after writes at distinct addresses; one write of a run. *)
Ltac look := repeat first [rewrite lookup_insert_eq | rewrite lookup_insert_ne by congruence]; try eassumption; try done.
Ltac away := repeat (rewrite lookup_insert_ne by (intros ->; tauto)); done.
Ltac write_step := erewrite modify_ok by (look; reflexivity); cbn [mbind outcome_bind].

Section linking.
Context {T : Type} `{HeapOrd T}.
Abbreviation node := (HeapNode T).
Abbreviation store := (gmap Z node).
Implicit Types (st : store) (t : tree).

Lemma add_child_ok st a b c t t2 : rep st a b c t -> rep st None None None t2 -> NoDup (ptrs t ++ ptrs t2) ->
  exists st', add_child st (root_of t) (root_of t2) = Ret st' /\
    rep st' a b c (Tree (root_of t) (key_of t) (t2 :: kids_of t)) /\ same_data st st' /\ outside (ptrs t ++ ptrs t2) st st'.
Proof.
  destruct t as [p k cs], t2 as [q kq ds]. cbn [root_of key_of kids_of].
  intros Hp Hq Hnd. apply rep_unfold in Hp as [(d & Hp & Hk) Hcs]. apply rep_unfold in Hq as [(e & Hq & Hkq) Hds].
  rewrite !ptrs_eq in Hnd |- *. cbn [root_of kids_of] in *.
  apply NoDup_app in Hnd as (Hnp & Hdisj & Hnq). apply NoDup_cons in Hnp as [Hpc Hnc]. apply NoDup_cons in Hnq as [Hqd Hnd].
  assert (Hpq : p <> q) by (intros ->; apply (Hdisj q); left).
  assert (Hpd : p ∉ forest_ptrs ds) by (intros Hin; apply (Hdisj p); [left|by right]).
  assert (Hqc : q ∉ forest_ptrs cs) by (intros Hin; apply (Hdisj q); [by right|left]).
  assert (Hcd : forall y, y ∈ forest_ptrs cs -> y ∉ forest_ptrs ds) by (intros y Hy Hin; apply (Hdisj y); by right).
  unfold add_child, deref. rewrite Hp. cbn [mbind outcome_bind first_child].
  write_step. destruct cs as [|x cs]; cbn [head_or mbind outcome_bind].
  - write_step. write_step. eexists. split; [done|].
    split; [apply rep_unfold; split; [exists d; split; [by look|done]|cbn [reps head_or]; split; [|done]; apply rep_unfold; split]|split].
    + exists e. split; [by look|done].
    + eapply reps_frame, Hds. intros y Hy. away.
    + intros y. destruct (decide (y = q)) as [->|]; [by look; rewrite Hq|]. destruct (decide (y = p)) as [->|]; [by look; rewrite Hp|]. by look.
    + intros y. rewrite elem_of_app, !elem_of_cons. intros Hy. away.
  - cbn [reps head_or] in Hcs. destruct Hcs as [Hx Hcs]. destruct x as [r kr xs]. cbn [root_of] in *.
    apply rep_unfold in Hx as [(f & Hr & Hkr) Hxs]. rewrite forest_ptrs_cons, ptrs_eq in *. cbn [root_of kids_of app] in *.
    assert (Hpr : p <> r) by (intros ->; apply Hpc; left).
    assert (Hqr : q <> r) by (intros ->; apply Hqc; left).
    assert (Hrd : r ∉ forest_ptrs ds) by (apply Hcd; left).
    apply NoDup_cons in Hnc as [Hrx Hnc]. rewrite elem_of_app in Hrx.
    assert (Hpx : p ∉ forest_ptrs xs /\ p ∉ forest_ptrs cs) by (rewrite elem_of_cons, elem_of_app in Hpc; tauto).
    assert (Hqx : q ∉ forest_ptrs xs /\ q ∉ forest_ptrs cs) by (rewrite elem_of_cons, elem_of_app in Hqc; tauto).
    write_step. write_step. write_step. write_step. eexists. split; [done|].
    split; [apply rep_unfold; split; [exists d; split; [by look|done]|]|split].
    + cbn [reps head_or root_of]. split; [|split].
      * apply rep_unfold. split; [exists e; split; [by look|done]|].
        eapply reps_frame, Hds. intros y Hy. away.
      * apply rep_unfold. split; [exists f; split; [by look|done]|].
        eapply reps_frame, Hxs. intros y Hy. away.
      * eapply reps_frame, Hcs. intros y Hy. away.
    + intros y. destruct (decide (y = q)) as [->|]; [by look; rewrite Hq|]. destruct (decide (y = p)) as [->|]; [by look; rewrite Hp|].
      destruct (decide (y = r)) as [->|]; [by look; rewrite Hr|]. by look.
    + intros y. repeat (rewrite elem_of_cons || rewrite elem_of_app). intros Hy. away.
Qed.

(** ** Melding *)

Definition tmeld (t1 t2 : tree) : tree :=
  if key_of t1 <? key_of t2 then Tree (root_of t1) (key_of t1) (t2 :: kids_of t1)
  else Tree (root_of t2) (key_of t2) (t1 :: kids_of t2).

Lemma tmeld_ptrs t1 t2 : ptrs (tmeld t1 t2) ≡ₚ ptrs t1 ++ ptrs t2.
Proof.
  unfold tmeld. rewrite (ptrs_eq t1), (ptrs_eq t2). destruct (_ <? _); rewrite ptrs_eq; cbn [root_of kids_of];
    rewrite forest_ptrs_cons, ?(ptrs_eq t1), ?(ptrs_eq t2); solve_Permutation.
Qed.

Lemma tmeld_ordered t1 t2 : ordered t1 -> ordered t2 -> ordered (tmeld t1 t2).
Proof.
  intros H1 H2. unfold tmeld. destruct (Z.ltb_spec (key_of t1) (key_of t2)); constructor; constructor; try done; try lia.
  all: by inversion H1; inversion H2; subst.
Qed.

Lemma tmeld_key t1 t2 k : k <= key_of t1 -> k <= key_of t2 -> k <= key_of (tmeld t1 t2).
Proof. unfold tmeld. by destruct (_ <? _). Qed.

Lemma meld_ok st t1 t2 : rep st None None None t1 -> rep st None None None t2 -> NoDup (ptrs t1 ++ ptrs t2) ->
  exists st', meld st (root_of t1) (root_of t2) = Ret (root_of (tmeld t1 t2), st') /\ rep st' None None None (tmeld t1 t2) /\
    same_data st st' /\ outside (ptrs t1 ++ ptrs t2) st st'.
Proof.
  intros H1 H2 Hnd. destruct (node_lookup _ _ _ _ _ H1) as (d1 & E1 & K1). destruct (node_lookup _ _ _ _ _ H2) as (d2 & E2 & K2).
  unfold meld, deref. rewrite E1, E2. cbn [mbind outcome_bind data]. unfold safe_lesser, tmeld. rewrite K1, K2.
  destruct (key_of t1 <? key_of t2).
  - destruct (add_child_ok _ _ _ _ _ _ H1 H2 Hnd) as (st' & -> & Hr & Hs & Ho). by exists st'.
  - destruct (add_child_ok _ _ _ _ _ _ H2 H1) as (st' & -> & Hr & Hs & Ho); [by rewrite Permutation_app_comm|].
    exists st'. split_and!; try done. eapply outside_mono, Ho. intros q. rewrite !elem_of_app. tauto.
Qed.

Definition tmelds (cur : option tree) (t : tree) : tree := match cur with Some c => tmeld c t | None => t end.
Definition optrs (cur : option tree) : list Z := match cur with Some c => ptrs c | None => [] end.
Definition orep st (cur : option tree) : Prop := match cur with Some c => rep st None None None c | None => True end.
Definition oall (P : tree -> Prop) (cur : option tree) : Prop := match cur with Some c => P c | None => True end.

Lemma maybe_meld_ok st cur t : orep st cur -> rep st None None None t -> NoDup (optrs cur ++ ptrs t) ->
  exists st', maybe_meld st (root_of <$> cur) (root_of t) = Ret (root_of (tmelds cur t), st') /\ rep st' None None None (tmelds cur t) /\
    same_data st st' /\ outside (optrs cur ++ ptrs t) st st'.
Proof. intros Hc Ht Hnd. destruct cur as [c|]; cbn in *; [by apply meld_ok|]. by exists st. Qed.

Lemma tmelds_ptrs cur t : ptrs (tmelds cur t) ≡ₚ optrs cur ++ ptrs t.
Proof. destruct cur; [apply tmeld_ptrs|done]. Qed.

(** The last sibling is cut off the list. *)
Lemma unlink_last st par l c : reps st par None (l ++ [c]) None -> NoDup (forest_ptrs (l ++ [c])) ->
  exists st1 st', modify st (root_of c) (set_parent None) = Ret st1 /\
    unlink_prev st1 (root_of c) = Ret (last_or None l, st') /\
    rep st' None None None c /\ reps st' par None l None /\ same_data st st' /\ outside (forest_ptrs (l ++ [c])) st st'.
Proof.
  rewrite reps_app, forest_ptrs_app, forest_ptrs_cons, app_nil_r. cbn [reps head_or]. intros [Hl [Hc _]] Hnd.
  apply NoDup_app in Hnd as (Hnl & Hdisj & Hnc).
  assert (Hlc : forall y, y ∈ forest_ptrs l -> y <> root_of c) by (intros y Hy ->; apply (Hdisj _ Hy), ptrs_root).
  destruct (node_lookup _ _ _ _ _ Hc) as (d & Ec & _). unfold unlink_prev, deref.
  rewrite (modify_ok _ _ _ _ Ec). eexists.
  enough (Hgoal : exists st', _ = Ret (last_or None l, st') /\ rep st' None None None c /\ reps st' par None l None /\
            same_data st st' /\ outside (forest_ptrs l ++ ptrs c) st st')
    by (destruct Hgoal as (st' & ?); exists st'; split; [reflexivity|eassumption]).
  rewrite lookup_insert_eq. cbn [mbind outcome_bind].
  erewrite modify_ok by apply lookup_insert_eq. rewrite insert_insert_eq. cbn [mbind outcome_bind set_parent set_prev next first_child data parent prev].
  set (st2 := <[root_of c := _]> st).
  assert (Hc2 : rep st2 None None None c) by (apply (rep_relink _ _ _ _ _ None None None _ Hc Hnc Ec)).
  assert (Hl2 : reps st2 par None l (Some (root_of c))).
  { eapply reps_frame, Hl. intros y Hy. apply lookup_insert_ne. intros <-. by apply (Hlc _ Hy). }
  assert (Hs2 : same_data st st2) by (by eapply same_data_insert).
  assert (Ho2 : outside (forest_ptrs l ++ ptrs c) st st2) by (apply outside_insert; rewrite elem_of_app; right; apply ptrs_root).
  destruct l as [|b l _] using rev_ind; [exists st2; by split_and!|].
  rewrite last_or_snoc. rewrite reps_app in Hl2. destruct Hl2 as [Hl2 [Hb _]]. cbn [head_or] in *.
  rewrite forest_ptrs_app, forest_ptrs_cons, app_nil_r in *. apply NoDup_app in Hnl as (Hnl & Hdisj2 & Hnb).
  destruct (node_lookup _ _ _ _ _ Hb) as (e & Eb & _). rewrite (modify_ok _ _ _ _ Eb). cbn [mbind outcome_bind].
  eexists. split; [done|].
  assert (Hbc : forall y, y ∈ ptrs c -> y <> root_of b).
  { intros y Hy ->. apply (Hdisj (root_of b)); [|done]. rewrite elem_of_app. right. apply ptrs_root. }
  assert (Hbl : forall y, y ∈ forest_ptrs l -> y <> root_of b) by (intros y Hy ->; apply (Hdisj2 _ Hy), ptrs_root).
  split_and!.
  - eapply rep_reps_frame, Hc2. intros y Hy. apply lookup_insert_ne. intros <-. by apply (Hbc _ Hy).
  - rewrite reps_app. cbn [reps head_or]. split_and!; [|apply (rep_relink _ _ _ _ _ _ _ None _ Hb Hnb Eb)|done].
    eapply reps_frame, Hl2. intros y Hy. apply lookup_insert_ne. intros <-. by apply (Hbl _ Hy).
  - eapply same_data_trans; [exact Hs2|]. by eapply same_data_insert.
  - eapply outside_trans; [exact Ho2|]. apply outside_insert. rewrite !elem_of_app. left; right. apply ptrs_root.
Qed.

Lemma orep_frame st st' cur : (forall q, q ∈ optrs cur -> st' !! q = st !! q) -> orep st cur -> orep st' cur.
Proof. destruct cur; [apply rep_reps_frame|done]. Qed.

(** What merging a list of siblings into an accumulator achieves. *)
Definition merges (l : list tree) (cur : option tree) (t' : tree) : Prop :=
  ptrs t' ≡ₚ forest_ptrs l ++ optrs cur /\
  (Forall ordered l -> oall ordered cur -> ordered t') /\
  (forall k, Forall (fun c => k <= key_of c) l -> oall (fun c => k <= key_of c) cur -> k <= key_of t').

Definition merged st (l : list tree) (cur : option tree) (t' : tree) st' : Prop :=
  rep st' None None None t' /\ merges l cur t' /\ same_data st st' /\ outside (forest_ptrs l ++ optrs cur) st st'.

Lemma merges_one c cur : merges [c] cur (tmelds cur c).
Proof.
  split_and!.
  - rewrite tmelds_ptrs, forest_ptrs_cons, app_nil_r. apply Permutation_app_comm.
  - intros [Ho' _]%Forall_cons. destruct cur; cbn; [by intros; apply tmeld_ordered|done].
  - intros k [Hk _]%Forall_cons. destruct cur; cbn; [by intros; apply tmeld_key|done].
Qed.

Lemma merges_two b c cur : merges [b; c] cur (tmelds cur (tmeld b c)).
Proof.
  destruct (merges_one (tmeld b c) cur) as (Hp & Ho & Hk). split_and!.
  - rewrite Hp, !forest_ptrs_cons, app_nil_r, tmeld_ptrs. cbn. by rewrite app_nil_r.
  - intros [Hb [Hc _]%Forall_cons]%Forall_cons. apply Ho. constructor; [by apply tmeld_ordered|done].
  - intros k [Hb [Hc _]%Forall_cons]%Forall_cons. apply Hk. constructor; [by apply tmeld_key|done].
Qed.

(** Merging the rest of a list into the accumulator of its end. *)
Lemma merges_app l1 l2 cur t t' : merges l2 cur t -> merges l1 (Some t) t' -> merges (l1 ++ l2) cur t'.
Proof.
  intros (P1 & O1 & K1) (P2 & O2 & K2). split_and!.
  - rewrite P2. cbn [optrs]. rewrite P1, forest_ptrs_app. by rewrite app_assoc.
  - intros [? ?]%Forall_app ?. apply O2; cbn; auto.
  - intros k [? ?]%Forall_app ?. apply K2; cbn; auto.
Qed.

Lemma outside_disjoint ps st st' q : outside ps st st' -> q ∉ ps -> st' !! q = st !! q.
Proof. auto. Qed.

Lemma merge_one fuel st par c cur : reps st par None [c] None -> orep st cur -> NoDup (ptrs c ++ optrs cur) ->
  exists t' st', merge_loop (S fuel) st (root_of c) (root_of <$> cur) = Ret (root_of t', st') /\ merged st [c] cur t' st'.
Proof.
  intros Hc Hcur Hnd. unfold merged. rewrite forest_ptrs_cons. cbn [forest_ptrs flat_map]. rewrite app_nil_r.
  pose proof Hnd as (Hnc & Hdisj & _)%NoDup_app.
  destruct (unlink_last st par [] c Hc) as (st1 & st2 & Hm & Hu & Hc2 & _ & Hs & Ho);
    [by rewrite app_nil_l, forest_ptrs_cons, app_nil_r|]. cbn [app] in Ho. rewrite forest_ptrs_cons, app_nil_r in Ho.
  cbn [merge_loop]. rewrite Hm. cbn [mbind outcome_bind]. rewrite Hu. cbn [mbind outcome_bind last_or].
  destruct (maybe_meld_ok st2 cur c) as (st3 & -> & Hr & Hs3 & Ho3); [|done|by rewrite Permutation_app_comm|].
  { eapply orep_frame, Hcur. intros q Hq. apply Ho. intros Hin. by apply (Hdisj q). }
  exists (tmelds cur c), st3. split; [done|]. split_and!; [done|apply merges_one|by eapply same_data_trans|].
  eapply outside_trans; (eapply outside_mono; [|eassumption]); intros q; rewrite !elem_of_app; tauto.
Qed.

(** Two siblings are melded and then melded into the accumulator. *)
Lemma merge_two st par l b c cur : reps st par None (l ++ [b; c]) None -> orep st cur ->
  NoDup (forest_ptrs (l ++ [b; c]) ++ optrs cur) ->
  exists t' st', reps st' par None l None /\ rep st' None None None t' /\ merges [b; c] cur t' /\ same_data st st' /\
    outside (forest_ptrs (l ++ [b; c]) ++ optrs cur) st st' /\
    forall fuel, merge_loop (S fuel) st (root_of c) (root_of <$> cur) =
      match last_or None l with
      | Some pp => merge_loop fuel st' pp (Some (root_of t'))
      | None => Ret (root_of t', st')
      end.
Proof.
  change [b; c] with ([b] ++ [c]). rewrite app_assoc. intros Hl Hcur Hnd.
  pose proof Hnd as (Hnl & Hdisj & Hncur)%NoDup_app. pose proof Hnl as Hnl'.
  rewrite !forest_ptrs_app, !forest_ptrs_cons, !app_nil_r in Hnl'. apply NoDup_app in Hnl' as (Hnlb & Hd1 & Hnc).
  apply NoDup_app in Hnlb as (Hnl0 & Hd2 & Hnb).
  destruct (unlink_last st par (l ++ [b]) c Hl Hnl) as (st1 & st2 & Hm1 & Hu1 & Hc2 & Hl2 & Hs2 & Ho2).
  destruct (unlink_last st2 par l b Hl2) as (st3 & st4 & Hm2 & Hu2 & Hb4 & Hl4 & Hs4 & Ho4).
  { rewrite forest_ptrs_app, forest_ptrs_cons, app_nil_r. by apply NoDup_app. }
  rewrite !forest_ptrs_app, !forest_ptrs_cons, !app_nil_r in *.
  assert (Hbc : NoDup (ptrs b ++ ptrs c)).
  { apply NoDup_app. split_and!; try done. intros q Hq Hq'. apply (Hd1 q); [|done]. rewrite elem_of_app. by right. }
  assert (Hc4 : rep st4 None None None c).
  { eapply rep_reps_frame, Hc2. intros q Hq. apply Ho4. intros Hin. by apply (Hd1 q). }
  destruct (meld_ok st4 b c Hb4 Hc4 Hbc) as (st5 & Hmeld & Hr5 & Hs5 & Ho5).
  assert (Hcur5 : orep st5 cur).
  { eapply orep_frame, Hcur. intros q Hq. assert (q ∉ (forest_ptrs l ++ ptrs b) ++ ptrs c) as Hnin by (intros Hin; by apply (Hdisj q)).
    rewrite !elem_of_app in Hnin. rewrite Ho5, Ho4, Ho2; [done|rewrite !elem_of_app; tauto..]. }
  destruct (maybe_meld_ok st5 cur (tmeld b c) Hcur5 Hr5) as (st6 & Hmm & Hr6 & Hs6 & Ho6).
  { rewrite tmeld_ptrs. apply NoDup_app. split_and!; try done. intros q Hq Hin. apply (Hdisj q); [|done].
    rewrite elem_of_app in Hin. rewrite !elem_of_app. tauto. }
  assert (Hall : outside (((forest_ptrs l ++ ptrs b) ++ ptrs c) ++ optrs cur) st st6).
  { intros q Hq. rewrite !elem_of_app in Hq. rewrite Ho6, Ho5, Ho4, Ho2; [done|rewrite ?elem_of_app; try tauto..].
    rewrite (elem_of_Permutation_proper q _ _ (tmeld_ptrs b c)), elem_of_app. tauto. }
  exists (tmelds cur (tmeld b c)), st6. split_and!; [|done|apply merges_two| |exact Hall|].
  - eapply reps_frame, Hl4. intros q Hq.
    assert (q ∉ ptrs b) by (intros Hin; by apply (Hd2 q)).
    assert (q ∉ ptrs c) by (intros Hin; apply (Hd1 q); [rewrite elem_of_app; by left|done]).
    assert (q ∉ optrs cur) by (intros Hin; apply (Hdisj q); [rewrite !elem_of_app; tauto|done]).
    rewrite Ho6, Ho5; [done|rewrite ?elem_of_app; try tauto..].
    rewrite (elem_of_Permutation_proper q _ _ (tmeld_ptrs b c)), elem_of_app. tauto.
  - eapply same_data_trans; [exact Hs2|]. eapply same_data_trans; [exact Hs4|]. by eapply same_data_trans.
  - intros fuel. cbn [merge_loop]. rewrite Hm1. cbn [mbind outcome_bind]. rewrite Hu1, last_or_snoc. cbn [mbind outcome_bind].
    rewrite Hm2. cbn [mbind outcome_bind]. rewrite Hu2. cbn [mbind outcome_bind]. rewrite Hmeld. cbn [mbind outcome_bind].
    rewrite Hmm. cbn [mbind outcome_bind]. by destruct (last_or None l).
Qed.

Lemma merge_loop_ok n fuel l cur st par : (length l <= n)%nat -> (length l <= fuel)%nat -> l <> [] ->
  reps st par None l None -> orep st cur -> NoDup (forest_ptrs l ++ optrs cur) ->
  exists r t' st', last_or None l = Some r /\ merge_loop fuel st r (root_of <$> cur) = Ret (root_of t', st') /\ merged st l cur t' st'.
Proof.
  revert fuel l cur st. induction n as [|n IH]; intros fuel l cur st Hn Hf Hne Hl Hcur Hnd; [by destruct l; cbn in Hn; [|lia]|].
  destruct l as [|c l _] using rev_ind; [done|]. rewrite length_app in *. cbn [length] in *.
  destruct fuel as [|fuel]; [lia|]. exists (root_of c). rewrite last_or_snoc.
  destruct l as [|b l _] using rev_ind.
  - rewrite forest_ptrs_app, forest_ptrs_cons, app_nil_r in Hnd. cbn [app] in *.
    destruct (merge_one fuel st par c cur Hl Hcur Hnd) as (t' & st' & Hrun & Hm). by exists t', st'.
  - rewrite <- app_assoc in *. cbn [app] in *. rewrite length_app in *. cbn [length] in *.
    destruct (merge_two st par l b c cur Hl Hcur Hnd) as (t1 & st1 & Hl1 & Hr1 & Hm1 & Hs1 & Ho1 & Hrun). rewrite Hrun. clear Hrun.
    assert (Hnd1 : NoDup (forest_ptrs l ++ optrs (Some t1))).
    { destruct Hm1 as (Hp & _). cbn [optrs]. rewrite Hp. rewrite forest_ptrs_app in Hnd. by rewrite <- app_assoc in Hnd. }
    assert (Hout : forall q, q ∈ forest_ptrs l ++ ptrs t1 -> q ∈ forest_ptrs (l ++ [b; c]) ++ optrs cur).
    { intros q. destruct Hm1 as (Hp & _). rewrite elem_of_app, (elem_of_Permutation_proper q _ _ Hp), forest_ptrs_app, !elem_of_app. tauto. }
    destruct l as [|a l _] using rev_ind.
    + cbn [last_or]. exists t1, st1. by split_and!.
    + destruct (IH fuel (l ++ [a]) (Some t1) st1) as (r & t' & st' & Hlast & Hrun & Hr2 & Hm2 & Hs2 & Ho2);
        [lia|lia|by destruct l|done|done|done|].
      rewrite Hlast. exists t', st'. split; [done|]. split; [done|].
      split_and!; [done|by eapply merges_app|by eapply same_data_trans|].
      eapply outside_trans; [exact Ho1|]. eapply outside_mono; [exact Hout|done].
Qed.

(** The walk to the last sibling. *)
Lemma last_child_ok fuel st par prv c l : (length l < fuel)%nat -> reps st par prv (c :: l) None ->
  exists r, last_or None (c :: l) = Some r /\ last_child fuel st (root_of c) = Ret r.
Proof.
  revert prv c l. induction fuel as [|fuel IH]; intros prv c l Hf Hr; [lia|]. destruct Hr as [Hc Hr].
  destruct (node_lookup _ _ _ _ _ Hc) as (d & E & _). cbn [last_child]. unfold deref. rewrite E. cbn [mbind outcome_bind next].
  destruct l as [|c' l]; cbn [head_or]; [by exists (root_of c)|].
  apply (IH (Some (root_of c)) c' l); [cbn in Hf; lia|done].
Qed.

Lemma nodup_size st (l : list Z) : NoDup l -> (forall q, q ∈ l -> is_Some (st !! q)) -> (length l <= size st)%nat.
Proof.
  intros Hnd Hin. rewrite <- (size_dom (D := gset Z)), <- (size_list_to_set (C := gset Z) l Hnd).
  apply subseteq_size. intros q Hq%elem_of_list_to_set. by apply elem_of_dom, Hin.
Qed.

Lemma rep_dom st t : forall par prv nxt q, rep st par prv nxt t -> q ∈ ptrs t -> is_Some (st !! q).
Proof.
  induction t as [p k cs IH] using tree_rect'. intros par prv nxt q. rewrite rep_unfold. intros [(d & Hd & _) Hr].
  rewrite ptrs_eq. cbn [root_of kids_of]. intros [->|Hq]%elem_of_cons; [by eexists|]. clear Hd.
  enough (Hall : forall q0, reps st (Some p) q0 cs None -> is_Some (st !! q)) by eauto. clear Hr.
  induction cs as [|c cs IHcs]; intros q0 Hr; [by apply elem_of_nil in Hq|].
  apply Forall_cons in IH as [IHc IH]. destruct Hr as [Hc Hr]. rewrite forest_ptrs_cons, elem_of_app in Hq.
  destruct Hq as [Hq|Hq]; [by eapply IHc|by eapply IHcs].
Qed.

Lemma reps_dom st par prv cs nxt q : reps st par prv cs nxt -> q ∈ forest_ptrs cs -> is_Some (st !! q).
Proof.
  revert prv. induction cs as [|c cs IH]; intros prv; [by intros _ ?%elem_of_nil|]. intros [Hc Hr].
  rewrite forest_ptrs_cons, elem_of_app. intros [Hq|Hq]; [by eapply rep_dom|by eapply IH].
Qed.

Lemma forest_length cs : (length cs <= length (forest_ptrs cs))%nat.
Proof. induction cs as [|c cs IH]; [done|]. rewrite forest_ptrs_cons, length_app, ptrs_eq. cbn. lia. Qed.

Lemma merge_children_ok st par c l : reps st par None (c :: l) None -> NoDup (forest_ptrs (c :: l)) ->
  exists t' st', merge_children st (root_of c) = Ret (root_of t', st') /\ merged st (c :: l) None t' st'.
Proof.
  intros Hr Hnd.
  assert (Hsz : (length (c :: l) <= size st)%nat).
  { pose proof (forest_length (c :: l)). pose proof (nodup_size st _ Hnd (fun q => reps_dom _ _ _ _ _ q Hr)). lia. }
  cbn [length] in Hsz. unfold merge_children.
  destruct (last_child_ok (S (size st)) st par None c l) as (r & Hlast & ->); [lia|done|]. cbn [mbind outcome_bind].
  destruct (merge_loop_ok (length (c :: l)) (S (size st)) (c :: l) None st par) as (r' & t' & st' & Hlast' & Hrun & Hm);
    [done|cbn; lia|done|done|done|by rewrite app_nil_r|].
  rewrite Hlast in Hlast'. injection Hlast' as <-. by exists t', st'.
Qed.

(** ** Unlinking a child from its siblings *)

Lemma fix_prev st r l1 x nx a b c k : reps st (Some r) None l1 (Some x) -> NoDup (r :: forest_ptrs l1) ->
  node_at st a b c (head_or (Some x) l1) r k ->
  exists st', match last_or None l1 with
         | Some pv => modify st pv (set_next nx)
         | None => modify st r (set_first_child nx)
         end = Ret st' /\
    reps st' (Some r) None l1 nx /\ node_at st' a b c (head_or nx l1) r k /\ same_data st st' /\ outside (r :: forest_ptrs l1) st st'.
Proof.
  intros Hr [Hnr Hnd]%NoDup_cons (d & Hd & Hk). destruct l1 as [|bt l _] using rev_ind.
  - cbn [last_or head_or] in *. rewrite (modify_ok _ _ _ _ Hd). eexists. split; [done|]. split_and!; [done| | |].
    + exists d. split; [by rewrite lookup_insert_eq|done].
    + by eapply same_data_insert.
    + apply outside_insert. left.
  - rewrite last_or_snoc, reps_app, forest_ptrs_app, forest_ptrs_cons, app_nil_r in *. cbn [reps head_or] in *.
    destruct Hr as [Hl [Hb _]]. apply NoDup_app in Hnd as (Hnl & Hdisj & Hnb).
    destruct (node_lookup _ _ _ _ _ Hb) as (e & Eb & _). rewrite (modify_ok _ _ _ _ Eb). eexists. split; [done|]. split_and!.
    + rewrite reps_app. cbn [reps head_or]. split_and!; [|apply (rep_relink _ _ _ _ _ _ _ nx _ Hb Hnb Eb)|done].
      eapply reps_frame, Hl. intros q Hq. apply lookup_insert_ne. intros <-. by apply (Hdisj _ Hq), ptrs_root.
    + exists d. split; [|done]. rewrite lookup_insert_ne.
      * rewrite Hd. do 2 f_equal. by destruct l.
      * intros <-. apply Hnr. rewrite elem_of_app. right. apply ptrs_root.
    + by eapply same_data_insert.
    + apply outside_insert. rewrite elem_of_cons, elem_of_app. right; right. apply ptrs_root.
Qed.

Lemma fix_next st r pv pv0 l2 : reps st (Some r) pv0 l2 None -> NoDup (forest_ptrs l2) ->
  exists st', match head_or None l2 with
         | Some nx => modify st nx (set_prev pv)
         | None => Ret st
         end = Ret st' /\
    reps st' (Some r) pv l2 None /\ same_data st st' /\ outside (forest_ptrs l2) st st'.
Proof.
  intros Hr Hnd. destruct l2 as [|c l]; cbn [head_or]; [by exists st|]. destruct Hr as [Hc Hr].
  rewrite forest_ptrs_cons in *. apply NoDup_app in Hnd as (Hnc & Hdisj & Hnl).
  destruct (node_lookup _ _ _ _ _ Hc) as (e & Ec & _). rewrite (modify_ok _ _ _ _ Ec). eexists. split; [done|]. split_and!.
  - split; [apply (rep_relink _ _ _ _ _ _ pv _ _ Hc Hnc Ec)|].
    eapply reps_frame, Hr. intros q Hq. apply lookup_insert_ne. intros <-. apply (Hdisj (root_of c)); [apply ptrs_root|done].
  - by eapply same_data_insert.
  - apply outside_insert. rewrite elem_of_app. left. apply ptrs_root.
Qed.

Lemma unlink_child root st a b c r k l1 l2 x : rep st a b c (Tree r k (l1 ++ x :: l2)) ->
  NoDup (ptrs (Tree r k (l1 ++ x :: l2))) ->
  exists st', unlink root st (root_of x) = Ret (Some r, root, st') /\ rep st' a b c (Tree r k (l1 ++ l2)) /\
    rep st' None None None x /\ same_data st st' /\ outside (ptrs (Tree r k (l1 ++ x :: l2))) st st'.
Proof.
  rewrite rep_unfold, ptrs_eq. cbn [root_of kids_of]. rewrite forest_ptrs_app, forest_ptrs_cons, reps_app. cbn [reps head_or].
  intros [Hnode (Hl1 & Hx & Hl2)] Hnd. apply NoDup_cons in Hnd as [Hr Hnd].
  apply NoDup_app in Hnd as (Hn1 & Hd1 & Hnd). apply NoDup_app in Hnd as (Hnx & Hd2 & Hn2).
  rewrite !elem_of_app in Hr. setoid_rewrite elem_of_app in Hd1.
  destruct (node_lookup _ _ _ _ _ Hx) as (d & Ex & Kx). unfold unlink, deref. rewrite Ex. cbn [mbind outcome_bind parent prev next].
  rewrite (modify_ok _ _ _ _ Ex). cbn [mbind outcome_bind]. set (st1 := <[root_of x := _]> st).
  assert (Ho1 : forall q, q ∉ ptrs x -> st1 !! q = st !! q).
  { intros q Hq. apply lookup_insert_ne. intros <-. apply Hq, ptrs_root. }
  assert (Hs1 : same_data st st1) by (by eapply same_data_insert).
  destruct (fix_prev st1 r l1 (root_of x) (head_or None l2) a b c k) as (st2 & -> & Hr2 & Hnode2 & Hs2 & Ho2).
  { eapply reps_frame, Hl1. intros q Hq. apply Ho1. intros Hin. by apply (Hd1 q Hq); left. }
  { apply NoDup_cons. tauto. }
  { destruct Hnode as (e & He & Hke). exists e. split; [|done]. rewrite Ho1 by tauto. rewrite He. by destruct l1. }
  cbn [mbind outcome_bind].
  destruct (fix_next st2 r (last_or None l1) (Some (root_of x)) l2) as (st3 & -> & Hr3 & Hs3 & Ho3); [|done|].
  { eapply reps_frame, Hl2. intros q Hq. rewrite Ho2, Ho1; [done|intros Hin; by apply (Hd2 q)|].
    intros [->|Hin]%elem_of_cons; [tauto|]. apply (Hd1 q Hin). by right. }
  cbn [mbind outcome_bind].
  assert (Ex3 : st3 !! root_of x = Some (mkNode None (last_or None l1) (head_or None l2) (head_or None (kids_of x)) d)).
  { pose proof (ptrs_root x) as Hpx. rewrite Ho3, Ho2; [apply lookup_insert_eq| |].
    - intros [Heq|Hin]%elem_of_cons; [rewrite Heq in Hpx; tauto|]. apply (Hd1 _ Hin). by left.
    - intros Hin. by apply (Hd2 _ Hpx). }
  rewrite (modify_ok _ _ _ _ Ex3). cbn [mbind outcome_bind]. erewrite modify_ok by apply lookup_insert_eq.
  rewrite insert_insert_eq. cbn [mbind outcome_bind set_next set_prev parent prev next first_child data].
  set (st4 := <[root_of x := _]> st3).
  assert (Ho4 : forall q, q ∉ ptrs x -> st4 !! q = st3 !! q).
  { intros q Hq. apply lookup_insert_ne. intros <-. apply Hq, ptrs_root. }
  assert (Hq1 : forall q, q ∈ forest_ptrs l1 -> st4 !! q = st2 !! q).
  { intros q Hq. rewrite Ho4, Ho3; [done|intros Hin; apply (Hd1 q Hq); by right|intros Hin; apply (Hd1 q Hq); by left]. }
  exists st4. split; [done|]. split_and!.
  - apply rep_unfold. split.
    + destruct Hnode2 as (e & He & Hke). exists e. split; [|done]. rewrite Ho4, Ho3, He by tauto. by destruct l1.
    + apply reps_app. split; [by eapply reps_frame, Hr2|]. eapply reps_frame, Hr3. intros q Hq. apply Ho4. intros Hin. by apply (Hd2 q).
  - destruct x as [p kx ds]. apply rep_unfold in Hx as [_ Hds]. cbn [root_of kids_of key_of] in *. rewrite ptrs_eq in *.
    cbn [root_of kids_of] in *. apply NoDup_cons in Hnx as [Hpd _]. apply rep_unfold.
    split; [exists d; split; [apply lookup_insert_eq|done]|]. eapply reps_frame, Hds. intros q Hq.
    unfold st4. rewrite lookup_insert_ne by congruence. rewrite Ho3, Ho2.
    + unfold st1. by rewrite lookup_insert_ne by congruence.
    + intros [->|Hin]%elem_of_cons; [apply Hr; right; left; by right|]. apply (Hd1 q Hin). left. by right.
    + intros Hin. apply (Hd2 q); [by right|done].
  - eapply same_data_trans; [exact Hs1|]. eapply same_data_trans; [exact Hs2|]. eapply same_data_trans; [exact Hs3|].
    by eapply same_data_insert.
  - intros q. rewrite elem_of_cons, !elem_of_app. intros Hq. rewrite Ho4, Ho3, Ho2, Ho1; try tauto. rewrite elem_of_cons. tauto.
Qed.

(** A node that is in no heap. *)
Definition detached st (p : Z) : Prop := exists d, st !! p = Some (new_node d).

(** The children of an unlinked node are merged. *)
Lemma release_kids st x : rep st None None None x -> NoDup (ptrs x) ->
  exists n st1, st !! root_of x = Some n /\ modify st (root_of x) (set_first_child None) = Ret st1 /\ detached st1 (root_of x) /\
    same_data st st1 /\ outside [root_of x] st st1 /\
    match kids_of x with
    | [] => first_child n = None
    | c :: l => first_child n = Some (root_of c) /\
        exists t' st', merge_children st1 (root_of c) = Ret (root_of t', st') /\ merged st1 (c :: l) None t' st'
    end.
Proof.
  destruct x as [p k cs]. cbn [root_of kids_of]. rewrite rep_unfold, ptrs_eq. cbn [root_of kids_of].
  intros [(d & Hd & Hk) Hcs] [Hp Hnd]%NoDup_cons. eexists _, _. split; [exact Hd|]. split; [by apply modify_ok|].
  split; [exists d; by rewrite lookup_insert_eq|]. split; [by eapply same_data_insert|]. split; [apply outside_insert; left|].
  destruct cs as [|c l]; [done|]. split; [done|]. apply (merge_children_ok _ (Some p)); [|done].
  eapply reps_frame, Hcs. intros q Hq. apply lookup_insert_ne. intros <-. done.
Qed.

Lemma detached_frame st st' p : st' !! p = st !! p -> detached st p -> detached st' p.
Proof. intros E (d & Hd). exists d. by rewrite E. Qed.

(** What [remove] achieves for a node inside a tree. *)
Definition removed (root : option Z) st a b c t p (o : outcome (option Z * store)) : Prop :=
  exists t' st', o = Ret (root, st') /\ rep st' a b c t' /\ root_of t' = root_of t /\ key_of t' = key_of t /\
    p :: ptrs t' ≡ₚ ptrs t /\ (ordered t -> ordered t') /\ same_data st st' /\ outside (ptrs t) st st' /\ detached st' p.

Lemma remove_child root st a b c r k l1 l2 x : rep st a b c (Tree r k (l1 ++ x :: l2)) ->
  NoDup (ptrs (Tree r k (l1 ++ x :: l2))) ->
  removed root st a b c (Tree r k (l1 ++ x :: l2)) (root_of x) (remove root st (root_of x)).
Proof.
  intros Ht Hnd. destruct (unlink_child root _ _ _ _ _ _ _ _ _ Ht Hnd) as (st1 & Hu & Ht1 & Hx1 & Hs1 & Ho1).
  assert (Hperm : ptrs (Tree r k (l1 ++ x :: l2)) ≡ₚ ptrs (Tree r k (l1 ++ l2)) ++ ptrs x).
  { rewrite !ptrs_eq. cbn [root_of kids_of]. rewrite !forest_ptrs_app, forest_ptrs_cons. rewrite ptrs_eq. solve_Permutation. }
  pose proof Hnd as Hnd'. rewrite Hperm in Hnd'. apply NoDup_app in Hnd' as (Hnt & Hdisj & Hnx).
  assert (Hin : forall q, q ∈ ptrs (Tree r k (l1 ++ x :: l2)) <-> q ∈ ptrs (Tree r k (l1 ++ l2)) \/ q ∈ ptrs x)
    by (intros q; by rewrite (elem_of_Permutation_proper q _ _ Hperm), elem_of_app).
  assert (Hxk : forall q, q ∈ forest_ptrs (kids_of x) -> q ∈ ptrs x) by (intros q ?; rewrite ptrs_eq; by right).
  destruct (release_kids st1 x Hx1 Hnx) as (n & st2 & En & Hm & Hdet & Hs2 & Ho2 & Hkids).
  assert (Ht2 : rep st2 a b c (Tree r k (l1 ++ l2))).
  { eapply rep_reps_frame, Ht1. intros q Hq. apply Ho2. intros ->%list_elem_of_singleton. apply (Hdisj _ Hq), ptrs_root. }
  assert (Ho12 : outside (ptrs (Tree r k (l1 ++ x :: l2))) st st2).
  { eapply outside_trans; [exact Ho1|]. eapply outside_mono, Ho2. intros q ->%list_elem_of_singleton. apply Hin. right. apply ptrs_root. }
  unfold remove. rewrite Hu. cbn [mbind outcome_bind]. unfold deref. rewrite En. cbn [mbind outcome_bind]. rewrite Hm. cbn [mbind outcome_bind].
  destruct (kids_of x) as [|y ys] eqn:Ek.
  - rewrite Hkids. exists (Tree r k (l1 ++ l2)), st2. split_and!; try done.
    + rewrite Hperm, (ptrs_eq x), Ek. cbn [forest_ptrs flat_map]. solve_Permutation.
    + inversion 1 as [p' k' cs Hkey Hord]; subst. apply Forall_app in Hkey as [? [? ?]%Forall_cons], Hord as [? [? ?]%Forall_cons].
      constructor; by apply Forall_app.
    + by eapply same_data_trans.
  - destruct Hkids as (-> & t2 & st3 & Hmerge & Hr3 & (Hp3 & Hord3 & Hkey3) & Hs3 & Ho3). cbn [optrs] in *. rewrite app_nil_r in *.
    rewrite Hmerge. cbn [mbind outcome_bind].
    assert (Ht3 : rep st3 a b c (Tree r k (l1 ++ l2))).
    { eapply rep_reps_frame, Ht2. intros q Hq. apply Ho3. intros Hin3. apply (Hdisj _ Hq), Hxk, Hin3. }
    assert (Hin2 : forall q, q ∈ ptrs t2 <-> q ∈ forest_ptrs (y :: ys)) by (intros q; by rewrite (elem_of_Permutation_proper q _ _ Hp3)).
    pose proof Hnx as Hnx'. rewrite ptrs_eq, Ek in Hnx'. apply NoDup_cons in Hnx' as [Hxy Hny].
    destruct (add_child_ok st3 a b c _ t2 Ht3 Hr3) as (st4 & Hadd & Hr4 & Hs4 & Ho4).
    { apply NoDup_app. split_and!; [done| |by rewrite Hp3]. intros q Hq Hq2%Hin2. apply (Hdisj _ Hq), Hxk, Hq2. }
    cbn [root_of key_of kids_of] in *. rewrite Hadd. cbn [mbind outcome_bind].
    exists (Tree r k (t2 :: l1 ++ l2)), st4. split_and!; try done.
    + rewrite Hperm, (ptrs_eq x), Ek, !(ptrs_eq (Tree _ _ _)). cbn [root_of kids_of]. rewrite forest_ptrs_cons, Hp3. solve_Permutation.
    + inversion 1 as [p' k' cs Hkey Hord]; subst. apply Forall_app in Hkey as [? [Hkx ?]%Forall_cons], Hord as [? [Hox ?]%Forall_cons].
      inversion Hox as [p' k' cs Hkk Hoo]; subst. cbn [kids_of key_of] in *. subst cs.
      constructor; constructor; try (by apply Forall_app).
      * apply Hkey3; [|done]. eapply Forall_impl; [exact Hkk|]. cbn. lia.
      * by apply Hord3.
    + eapply same_data_trans; [exact Hs1|]. eapply same_data_trans; [exact Hs2|]. by eapply same_data_trans.
    + intros q Hq. rewrite Hin in Hq. rewrite Ho4, Ho3, Ho12; [done|rewrite Hin; tauto| |].
      * intros Hq'. apply Hq. right. by apply Hxk.
      * rewrite elem_of_app, Hin2. intros [?|?]; apply Hq; [by left|right; by apply Hxk].
    + eapply detached_frame, Hdet. rewrite Ho4, Ho3; [done|done|]. rewrite elem_of_app, Hin2.
      intros [Hq|?]; [|done]. apply (Hdisj _ Hq), ptrs_root.
Qed.

Lemma forest_elem p cs : p ∈ forest_ptrs cs -> exists l1 x l2, cs = l1 ++ x :: l2 /\ p ∈ ptrs x.
Proof.
  induction cs as [|c cs IH]; [by intros ?%elem_of_nil|]. rewrite forest_ptrs_cons, elem_of_app. intros [Hp|Hp].
  - by exists [], c, cs.
  - destruct (IH Hp) as (l1 & x & l2 & -> & Hx). by exists (c :: l1), x, l2.
Qed.

Lemma remove_inner root st t p : forall a b c, rep st a b c t -> NoDup (ptrs t) -> p ∈ ptrs t -> p <> root_of t ->
  removed root st a b c t p (remove root st p).
Proof.
  induction t as [r k cs IH] using tree_rect'. intros a b c Ht Hnd Hp Hne.
  pose proof Hp as Hp'. rewrite ptrs_eq in Hp'. cbn [root_of kids_of] in *. apply elem_of_cons in Hp' as [?|Hp']; [done|].
  destruct (forest_elem _ _ Hp') as (l1 & x & l2 & -> & Hx). clear Hp'.
  destruct (decide (p = root_of x)) as [->|Hpx]; [by apply remove_child|].
  apply Forall_app in IH as [_ [IH _]%Forall_cons].
  pose proof Hnd as Hnd'. rewrite ptrs_eq in Hnd'. cbn [root_of kids_of] in Hnd'. rewrite forest_ptrs_app, forest_ptrs_cons in Hnd'.
  apply NoDup_cons in Hnd' as [Hr Hnd']. apply NoDup_app in Hnd' as (Hn1 & Hd1 & Hnd'). apply NoDup_app in Hnd' as (Hnx & Hd2 & Hn2).
  rewrite !elem_of_app in Hr. setoid_rewrite elem_of_app in Hd1.
  apply rep_unfold in Ht as [Hnode Hcs]. apply reps_app in Hcs as [Hl1 [Hrx Hl2]]. cbn [head_or] in Hl1.
  destruct (IH _ _ _ Hrx Hnx Hx Hpx) as (x' & st' & -> & Hx' & Hroot & Hkey & Hperm & Hord & Hs & Ho & Hdet).
  exists (Tree r k (l1 ++ x' :: l2)), st'. split_and!; try done.
  - apply rep_unfold. split; [|apply reps_app; cbn [reps head_or]; rewrite Hroot; split_and!; [|done|]].
    + destruct Hnode as (d & Hd & Hk). exists d. split; [|done]. rewrite Ho by tauto. rewrite Hd.
      do 2 f_equal. destruct l1; cbn; [by rewrite Hroot|done].
    + eapply reps_frame, Hl1. intros q Hq. apply Ho. intros Hin. apply (Hd1 q Hq). by left.
    + eapply reps_frame, Hl2. intros q Hq. apply Ho. intros Hin. by apply (Hd2 q).
  - rewrite !(ptrs_eq (Tree _ _ _)). cbn [root_of kids_of]. rewrite !forest_ptrs_app, !forest_ptrs_cons, <- Hperm. solve_Permutation.
  - inversion 1 as [p' k' cs Hkeys Hords]; subst. apply Forall_app in Hkeys as [? [Hkx ?]%Forall_cons], Hords as [? [Hox ?]%Forall_cons].
    constructor; apply Forall_app; (split; [done|]); constructor; try done; [by rewrite Hkey|auto].
  - eapply outside_mono, Ho. intros q Hq. rewrite ptrs_eq. cbn [root_of kids_of].
    rewrite forest_ptrs_app, forest_ptrs_cons, elem_of_cons, !elem_of_app. tauto.
Qed.

(** ** The heap as a set of members *)

(** The heap with root [root] has the members [ms]. *)
Definition heap_rep (root : option Z) st (ms : gset Z) : Prop :=
  match root with
  | None => ms = ∅
  | Some r => exists t, root_of t = r /\ rep st None None None t /\ ordered t /\ NoDup (ptrs t) /\ list_to_set (ptrs t) = ms
  end.

Definition key_at st (p : Z) : option Z := (fun n => ord_key (data n)) <$> st !! p.

Lemma same_data_key st st' p : same_data st st' -> key_at st' p = key_at st p.
Proof. intros Hs. specialize (Hs p). unfold key_at. destruct (st' !! p), (st !! p); cbn in *; congruence. Qed.

Lemma rep_keys st t : forall a b c q, rep st a b c t -> ordered t -> q ∈ ptrs t ->
  exists kq, key_at st q = Some kq /\ key_of t <= kq.
Proof.
  induction t as [p k cs IH] using tree_rect'. intros a b c q. rewrite rep_unfold. intros [(d & Hd & Hk) Hr] Ho.
  inversion Ho as [p' k' cs' Hkey Hord]; subst. rewrite ptrs_eq. cbn [root_of kids_of key_of].
  intros [->|Hq]%elem_of_cons; [eexists; unfold key_at; by rewrite Hd|].
  destruct (forest_elem _ _ Hq) as (l1 & x & l2 & -> & Hx). apply reps_app in Hr as [_ [Hrx _]].
  apply Forall_app in IH as [_ [IHx _]%Forall_cons], Hkey as [_ [Hkx _]%Forall_cons], Hord as [_ [Hox _]%Forall_cons].
  destruct (IHx _ _ _ _ Hrx Hox Hx) as (kq & Hkq & Hle). exists kq. split; [done|]. lia.
Qed.

Lemma heap_insert root st ms p : heap_rep root st ms -> detached st p -> p ∉ ms ->
  exists root' st', insert root st p = Ret (root', st') /\ heap_rep root' st' ({[p]} ∪ ms) /\ same_data st st' /\
    forall q, q ∉ ({[p]} ∪ ms : gset Z) -> st' !! q = st !! q.
Proof.
  intros Hh (d & Hd) Hp. set (t := Tree p (ord_key d) []).
  assert (Ht : rep st None None None t) by (apply rep_unfold; split; [by exists d|done]).
  assert (Hot : ordered t) by (by constructor). destruct root as [r|]; cbn [insert heap_rep] in *.
  - destruct Hh as (t0 & <- & Hr & Ho & Hnd & Hms).
    assert (Hp0 : p ∉ ptrs t0) by (intros Hin; apply Hp; rewrite <- Hms; by apply elem_of_list_to_set).
    destruct (meld_ok st t0 t Hr Ht) as (st' & Hm & Hr' & Hs & Hout).
    { apply NoDup_app. split_and!; [done| |apply NoDup_singleton]. intros q Hq ->%list_elem_of_singleton. done. }
    change (root_of t) with p in Hm. rewrite Hm. cbn [mbind outcome_bind]. do 2 eexists. split; [done|]. split_and!; [|done|].
    + exists (tmeld t0 t). split_and!; [done|done|by apply tmeld_ordered| |].
      * rewrite tmeld_ptrs. apply NoDup_app. split_and!; [done| |apply NoDup_singleton]. intros q Hq ->%list_elem_of_singleton. done.
      * apply set_eq. intros q. rewrite elem_of_list_to_set, (elem_of_Permutation_proper q _ _ (tmeld_ptrs t0 t)), elem_of_app.
        cbn [ptrs t flat_map]. rewrite list_elem_of_singleton, elem_of_union, elem_of_singleton, <- Hms, elem_of_list_to_set. tauto.
    + intros q. rewrite elem_of_union, elem_of_singleton, <- Hms, elem_of_list_to_set. intros Hq. apply Hout.
      rewrite elem_of_app. cbn [ptrs t flat_map]. rewrite list_elem_of_singleton. tauto.
  - subst ms. do 2 eexists. split; [done|]. split_and!; [|done|done].
    exists t. split_and!; [done|done|done|apply NoDup_singleton|]. cbn. set_solver.
Qed.

Lemma heap_remove root st ms p : heap_rep root st ms -> p ∈ ms ->
  exists root' st', remove root st p = Ret (root', st') /\ heap_rep root' st' (ms ∖ {[p]}) /\ detached st' p /\ same_data st st' /\
    forall q, q ∉ ms -> st' !! q = st !! q.
Proof.
  intros Hh Hp. destruct root as [r|]; cbn [heap_rep] in Hh; [|by subst ms; set_solver].
  destruct Hh as (t & <- & Hr & Ho & Hnd & <-). rewrite elem_of_list_to_set in Hp.
  assert (Hset : forall l : list Z, p :: l ≡ₚ ptrs t -> list_to_set l = (list_to_set (ptrs t) ∖ {[p]} : gset Z)).
  { intros l Hl. rewrite <- Hl in Hnd. apply NoDup_cons in Hnd as [Hpl _]. apply set_eq. intros q.
    rewrite elem_of_difference, !elem_of_list_to_set, elem_of_singleton, <- (elem_of_Permutation_proper q _ _ Hl), elem_of_cons.
    split; [intros Hq; split; [by right|intros ->; done]|tauto]. }
  destruct (decide (p = root_of t)) as [->|Hne].
  - destruct (release_kids st t Hr Hnd) as (n & st2 & En & Hm & Hdet & Hs2 & Ho2 & Hkids).
    destruct (node_lookup _ _ _ _ _ Hr) as (d & Ed & _). rewrite En in Ed. injection Ed as ->.
    unfold remove, unlink, deref. rewrite En. cbn [mbind outcome_bind parent]. rewrite (modify_ok _ _ _ _ En), insert_id by done.
    cbn [mbind outcome_bind]. rewrite En. cbn [mbind outcome_bind]. rewrite Hm. cbn [mbind outcome_bind].
    destruct (kids_of t) as [|y ys] eqn:Ek; cbn [head_or first_child].
    + do 2 eexists. split; [done|]. split_and!; [|done|done|].
      * cbn [heap_rep]. rewrite ptrs_eq, Ek. cbn [forest_ptrs flat_map]. set_solver.
      * intros q. rewrite elem_of_list_to_set. intros Hq. apply Ho2. intros ->%list_elem_of_singleton. apply Hq, ptrs_root.
    + destruct Hkids as (_ & t2 & st3 & Hmerge & Hr3 & (Hp3 & Hord3 & _) & Hs3 & Ho3). cbn [optrs] in *. rewrite app_nil_r in *.
      rewrite Hmerge. cbn [mbind outcome_bind]. do 2 eexists. split; [done|].
      assert (Hperm : root_of t :: ptrs t2 ≡ₚ ptrs t) by (by rewrite Hp3, ptrs_eq, Ek).
      pose proof Hnd as Hnd'. rewrite <- Hperm in Hnd'. apply NoDup_cons in Hnd' as [Hrt Hn2]. split_and!.
      * exists t2. split_and!; [done|done| |done|by apply Hset]. apply Hord3; [|done].
        inversion Ho as [? ? ? _ Hall]; subst. cbn in Ek. by subst.
      * eapply detached_frame, Hdet. apply Ho3. by rewrite <- (elem_of_Permutation_proper _ _ _ Hp3).
      * by eapply same_data_trans.
      * intros q. rewrite elem_of_list_to_set, <- (elem_of_Permutation_proper q _ _ Hperm), elem_of_cons, (elem_of_Permutation_proper q _ _ Hp3).
        intros Hq. rewrite Ho3, Ho2; [done|rewrite list_elem_of_singleton; tauto|tauto].
  - destruct (remove_inner (Some (root_of t)) st t p _ _ _ Hr Hnd Hp Hne) as (t' & st' & -> & Hr' & Hroot & _ & Hperm & Hord & Hs & Hout & Hdet).
    do 2 eexists. split; [done|]. split_and!; [|done|done|].
    + exists t'. split_and!; [done|done|auto| |by apply Hset]. rewrite <- Hperm in Hnd. by apply NoDup_cons in Hnd as [_ ?].
    + intros q. rewrite elem_of_list_to_set. apply Hout.
Qed.

Lemma heap_peek root st ms : heap_rep root st ms ->
  match peek_min root with
  | None => ms = ∅
  | Some r => r ∈ ms /\ exists k, key_at st r = Some k /\ forall q, q ∈ ms -> exists kq, key_at st q = Some kq /\ k <= kq
  end.
Proof.
  destruct root as [r|]; [|done]. cbn [peek_min heap_rep]. intros (t & <- & Hr & Ho & Hnd & <-).
  split; [apply elem_of_list_to_set, ptrs_root|]. exists (key_of t). split.
  - destruct (node_lookup _ _ _ _ _ Hr) as (d & Hd & Hk). unfold key_at. by rewrite Hd, <- Hk.
  - intros q Hq%elem_of_list_to_set. by eapply rep_keys.
Qed.

(** A change of payload that keeps the key. *)
Lemma rep_data st st' t : (forall q n, st !! q = Some n -> exists d, st' !! q = Some (mkNode (parent n) (prev n) (next n) (first_child n) d) /\
    ord_key d = ord_key (data n)) -> forall a b c, rep st a b c t -> rep st' a b c t.
Proof.
  intros Hst. induction t as [p k cs IH] using tree_rect'. intros a b c. rewrite !rep_unfold. intros [(d & Hd & Hk) Hr]. split.
  - destruct (Hst _ _ Hd) as (d' & Hd' & Hk'). exists d'. cbn in *. split; [done|congruence].
  - clear Hd. revert Hr. generalize (None : option Z) at 1 3 as q0. induction cs as [|y cs IHcs]; intros q0 Hr; [done|].
    apply Forall_cons in IH as [IHc IH]. destruct Hr as [Hc Hr]. split; [by apply IHc|by apply IHcs].
Qed.

Lemma heap_data root st ms p n d : heap_rep root st ms -> st !! p = Some n -> ord_key d = ord_key (data n) ->
  heap_rep root (<[p := mkNode (parent n) (prev n) (next n) (first_child n) d]> st) ms.
Proof.
  destruct root as [r|]; [|done]. intros (t & <- & Hr & Ho & Hnd & Hms) Hp Hd. exists t. split_and!; try done.
  eapply rep_data, Hr. intros q nq Hq. destruct (decide (q = p)) as [->|].
  - rewrite Hp in Hq. injection Hq as <-. exists d. by rewrite lookup_insert_eq.
  - exists (data nq). rewrite lookup_insert_ne by done. rewrite Hq. by destruct nq.
Qed.

Lemma heap_frame root st st' ms : (forall q, q ∈ ms -> st' !! q = st !! q) -> heap_rep root st ms -> heap_rep root st' ms.
Proof.
  destruct root as [r|]; [|done]. intros Hq (t & <- & Hr & Ho & Hnd & <-). exists t. split_and!; try done.
  eapply rep_reps_frame, Hr. intros q Hin. apply Hq. by apply elem_of_list_to_set.
Qed.

Lemma heap_dom root st ms p : heap_rep root st ms -> p ∈ ms -> is_Some (st !! p).
Proof.
  destruct root as [r|]; [|intros ->; set_solver]. intros (t & <- & Hr & _ & _ & <-) Hp%elem_of_list_to_set. by eapply rep_dom.
Qed.

(** ** Runs of insertions and removals *)

Inductive op : Type := Insert (p : Z) | Remove (p : Z).

Definition step (h : option Z * store) (o : op) : outcome (option Z * store) :=
  match o with
  | Insert p => insert h.1 h.2 p
  | Remove p => remove h.1 h.2 p
  end.

Fixpoint run (h : option Z * store) (ops : list op) : outcome (option Z * store) :=
  match ops with
  | [] => Ret h
  | o :: ops => h ← step h o; run h ops
  end.

(** The members after a run, if every insertion is of an existing node that is not a member and
    every removal of a member. *)
Fixpoint members (nodes ms : gset Z) (ops : list op) : option (gset Z) :=
  match ops with
  | [] => Some ms
  | Insert p :: ops => if decide (p ∈ nodes /\ p ∉ ms) then members nodes ({[p]} ∪ ms) ops else None
  | Remove p :: ops => if decide (p ∈ ms) then members nodes (ms ∖ {[p]}) ops else None
  end.

Lemma run_spec ops root st ms ms' : heap_rep root st ms -> (forall p, p ∈ dom st -> p ∉ ms -> detached st p) ->
  members (dom st) ms ops = Some ms' ->
  exists root' st', run (root, st) ops = Ret (root', st') /\ heap_rep root' st' ms' /\ same_data st st' /\
    forall p, p ∈ dom st -> p ∉ ms' -> detached st' p.
Proof.
  revert root st ms. induction ops as [|[p|p] ops IH]; intros root st ms Hh Hd; cbn [members run step fst snd].
  - intros [= ->]. by exists root, st.
  - destruct (decide _) as [[Hdom Hp]|]; [|done]. intros Hm.
    destruct (heap_insert _ _ _ _ Hh (Hd p Hdom Hp) Hp) as (root1 & st1 & -> & Hh1 & Hs1 & Ho1). cbn [mbind outcome_bind].
    rewrite <- (same_data_dom _ _ Hs1) in Hm.
    destruct (IH _ _ _ Hh1) with (2 := Hm) as (root2 & st2 & -> & Hh2 & Hs2 & Hd2).
    + intros q Hq Hnq. eapply detached_frame; [by apply Ho1|]. apply Hd; [by rewrite <- (same_data_dom _ _ Hs1)|set_solver].
    + exists root2, st2. split_and!; [done..|by eapply same_data_trans|]. by rewrite <- (same_data_dom _ _ Hs1).
  - destruct (decide _) as [Hp|]; [|done]. intros Hm.
    destruct (heap_remove _ _ _ _ Hh Hp) as (root1 & st1 & -> & Hh1 & Hdet & Hs1 & Ho1). cbn [mbind outcome_bind].
    rewrite <- (same_data_dom _ _ Hs1) in Hm.
    destruct (IH _ _ _ Hh1) with (2 := Hm) as (root2 & st2 & -> & Hh2 & Hs2 & Hd2).
    + intros q Hq Hnq. destruct (decide (q = p)) as [->|]; [done|].
      eapply detached_frame; [apply Ho1; set_solver|]. apply Hd; [by rewrite <- (same_data_dom _ _ Hs1)|set_solver].
    + exists root2, st2. split_and!; [done..|by eapply same_data_trans|]. by rewrite <- (same_data_dom _ _ Hs1).
Qed.

End linking.

(** C28: From the empty heap, any insertions of nodes that are not members and removals of members
    (from the root or from anywhere inside) return: no dangling pointer is followed and the loops
    over siblings end.  Afterwards the links of the nodes form one tree, ordered by the keys, of
    exactly the members; every other node is detached, so that it can be inserted again; [peek_min]
    is empty when there are no members, and otherwise a member with the least key; the payloads of
    the nodes are those of before. *)
Theorem pairing_heap_is_priority_queue {T} `{HeapOrd T} (st : gmap Z (HeapNode T)) (ops : list op) (ms : gset Z) :
  (forall p, p ∈ dom st -> detached st p) -> members (dom st) ∅ ops = Some ms ->
  exists root st', run (new, st) ops = Ret (root, st') /\ heap_rep root st' ms /\
    (forall p, p ∈ dom st -> p ∉ ms -> detached st' p) /\ same_data st st' /\
    match peek_min root with
    | None => ms = ∅
    | Some r => r ∈ ms /\ exists k, key_at st r = Some k /\ forall q, q ∈ ms -> exists kq, key_at st q = Some kq /\ k <= kq
    end.
Proof.
  intros Hd Hm. destruct (run_spec ops None st ∅ ms eq_refl) as (root & st' & Hrun & Hh & Hs & Hd'); [auto|done|].
  exists root, st'. split_and!; [done..|]. apply heap_peek in Hh. destruct (peek_min root) as [r|]; [|done].
  destruct Hh as (Hr & k & Hk & Hall). split; [done|]. exists k. rewrite <- (same_data_key _ _ _ Hs). split; [done|].
  intros q Hq. rewrite <- (same_data_key _ _ _ Hs). auto.
Qed.

(** Five nodes with their keys as payload. *)
#[local] Instance key_ord : HeapOrd Z := fun z => z.
Definition five : gmap Z (HeapNode Z) :=
  list_to_map [(1, new_node 30); (2, new_node 10); (3, new_node 20); (4, new_node 5); (5, new_node 40)].
Definition five_ops : list op := [Insert 1; Insert 2; Insert 3; Insert 4; Insert 5; Remove 4; Remove 3].

Lemma pairing_heap_is_priority_queue_witness :
  exists ms root st', members (dom five) ∅ five_ops = Some ms /\ run (new, five) five_ops = Ret (root, st') /\
    heap_rep root st' ms /\ (forall p, p ∈ dom five -> p ∉ ms -> detached st' p) /\ same_data five st' /\
    match peek_min root with
    | None => ms = ∅
    | Some r => r ∈ ms /\ exists k, key_at five r = Some k /\ forall q, q ∈ ms -> exists kq, key_at five q = Some kq /\ k <= kq
    end.
Proof.
  destruct (pairing_heap_is_priority_queue five five_ops {[1; 2; 5]}) as (root & st' & Hrun & Hr & Hd & Hs & Hm).
  - intros p Hp. apply elem_of_dom in Hp as [n Hn]. exists (data n). rewrite Hn. f_equal.
    apply elem_of_list_to_map_2 in Hn. repeat (apply elem_of_cons in Hn as [[= -> ->]|Hn]; [done|]). by apply elem_of_nil in Hn.
  - vm_compute. reflexivity.
  - exists {[1; 2; 5]}, root, st'. split_and!; [vm_compute; reflexivity|done..].
Defined.

(** The least key comes out first. *)
Example least_key_first : (r ← run (new, five) five_ops; Ret (peek_min r.1)) = Ret (Some 2).
Proof. vm_compute. reflexivity. Qed.

End PairingHeap.
