(* ===== verification/Timer.v ===== *)
(** * Timers
    (src/src/rust/runtime/timer.rs)

    A future that waits for a deadline keeps its entry in a node of its own, which it links into
    the timer's pairing heap when it has to wait; advancing the clock takes the expired entries
    out and wakes their tasks.  The nodes live at the addresses of their (pinned) futures.  The
    timer is shown to implement deadlines: a poll is ready exactly when the deadline has passed,
    and the clock wakes exactly the waiting futures whose deadline it passes.  Instants are
    unbounded numbers of nanoseconds, wakers are identified by numbers. *)

From S2P Require Import Prelude PairingHeap.

Module Timer.

Inductive PollState := Unregistered | Registered | Expired.

Record TimerQueueEntry := mkEntry { expiry : Z; task : option Z; state : PollState }.

(** Entries are compared by expiration only. *)
#[export] Instance entry_ord : HeapOrd TimerQueueEntry := expiry.

Abbreviation node := (PairingHeap.HeapNode TimerQueueEntry).

(** The timer's clock and heap, the nodes of the futures, and whether a future still has its
    pointer to the timer (it has not completed). *)
Record World := mkWorld {
  now : Z;
  heap : option Z;
  nodes : gmap Z node;
  ptrs : gmap Z bool;
}.

Definition new (now : Z) : World := mkWorld now PairingHeap.new ∅ ∅.

Definition set_entry (n : node) (e : TimerQueueEntry) : node :=
  PairingHeap.mkNode (PairingHeap.parent n) (PairingHeap.prev n) (PairingHeap.next n) (PairingHeap.first_child n) e.

(** The loop of [advance_clock]; the tasks woken are returned. *)
Fixpoint advance_loop (fuel : nat) (w : World) (now_ : Z) : outcome (list Z * World) :=
  match PairingHeap.peek_min (heap w) with
  | None => Ret ([], w)
  | Some first =>
      match fuel with
      | O => Diverge
      | S fuel =>
          n ← PairingHeap.deref (nodes w) first;
          let entry := PairingHeap.data n in
          if now_ <? expiry entry then Ret ([], w)
          else
            let nodes_ := <[first := set_entry n (mkEntry (expiry entry) None Expired)]> (nodes w) in
            '(heap_, nodes_) ← PairingHeap.remove (heap w) nodes_ first;
            '(ws, w) ← advance_loop fuel (mkWorld (now w) heap_ nodes_ (ptrs w)) now_;
            Ret (match task entry with Some t => t :: ws | None => ws end, w)
      end
  end.

Definition advance_clock (w : World) (now_ : Z) : outcome (list Z * World) :=
  if now w <=? now_ then
    '(ws, w) ← advance_loop (S (size (nodes w))) w now_;
    Ret (ws, mkWorld now_ (heap w) (nodes w) (ptrs w))
  else Panic "assertion failed: inner.now <= now".

(** A new future at the address [a]. *)
Definition wait_until (w : World) (a expiry : Z) : World :=
  mkWorld (now w) (heap w) (<[a := PairingHeap.new_node (mkEntry expiry None Unregistered)]> (nodes w)) (<[a := true]> (ptrs w)).

Definition wait (w : World) (a timeout : Z) : World := wait_until w a (now w + timeout).

(** [WaitFuture::poll] in the context of the waker [cx]; [true] is [Poll::Ready]. *)
Definition poll (w : World) (a cx : Z) : outcome (bool * World) :=
  match ptrs w !! a with
  | Some true =>
      n ← PairingHeap.deref (nodes w) a;
      let e := PairingHeap.data n in
      '(result, w) ←
        match state e with
        | Unregistered =>
            if now w >=? expiry e then
              Ret (true, mkWorld (now w) (heap w) (<[a := set_entry n (mkEntry (expiry e) (task e) Expired)]> (nodes w)) (ptrs w))
            else
              let nodes_ := <[a := set_entry n (mkEntry (expiry e) (Some cx) Registered)]> (nodes w) in
              '(heap_, nodes_) ← PairingHeap.insert (heap w) nodes_ a;
              Ret (false, mkWorld (now w) heap_ nodes_ (ptrs w))
        | Registered =>
            let will_wake := match task e with Some t => t =? cx | None => false end in
            Ret (false, if will_wake then w
                        else mkWorld (now w) (heap w) (<[a := set_entry n (mkEntry (expiry e) (Some cx) (state e))]> (nodes w)) (ptrs w))
        | Expired => Ret (true, w)
        end;
      Ret (result, if (result : bool) then mkWorld (now w) (heap w) (nodes w) (<[a := false]> (ptrs w)) else w)
  | _ => Panic "Polled future after completion"
  end.

Definition is_terminated (w : World) (a : Z) : bool := negb (default false (ptrs w !! a)).

(** [Drop::drop] of a future; its memory goes away. *)
Definition drop (w : World) (a : Z) : outcome World :=
  '(heap_, nodes_) ←
    match ptrs w !! a with
    | Some true =>
        n ← PairingHeap.deref (nodes w) a;
        match state (PairingHeap.data n) with
        | Registered => PairingHeap.remove (heap w) (nodes w) a
        | _ => Ret (heap w, nodes w)
        end
    | _ => Ret (heap w, nodes w)
    end;
  Ret (mkWorld (now w) heap_ (delete a nodes_) (delete a (ptrs w))).

(** ** Runs *)
Inductive event :=
| WaitUntil (a expiry : Z)
| Wait (a timeout : Z)
| Poll (a cx : Z)
| Drop (a : Z)
| Advance (now : Z).

Inductive reply :=
| Done
| Ready
| Pending
| Woken (tasks : list Z).

(** A future is created at an address that is free, and only existing futures are used. *)
Definition step (w : World) (e : event) : outcome (reply * World) :=
  match e with
  | WaitUntil a e => Ret (Done, if decide (a ∈ dom (ptrs w)) then w else wait_until w a e)
  | Wait a t => Ret (Done, if decide (a ∈ dom (ptrs w)) then w else wait w a t)
  | Poll a cx => '(r, w) ← poll w a cx; Ret (if (r : bool) then Ready else Pending, w)
  | Drop a => if decide (a ∈ dom (ptrs w)) then w ← drop w a; Ret (Done, w) else Ret (Done, w)
  | Advance t => '(ws, w) ← advance_clock w t; Ret (Woken ws, w)
  end.

Fixpoint run (w : World) (es : list event) : outcome (list reply * World) :=
  match es with
  | [] => Ret ([], w)
  | e :: es => '(r, w) ← step w e; '(rs, w) ← run w es; Ret (r :: rs, w)
  end.

(** ** Deadlines: what a timer means *)

Record Fut := mkFut { deadline : Z; waiter : option Z; finished : bool }.

Record Spec := mkSpec { clock : Z; futs : gmap Z Fut }.

Definition due (t : Z) (f : Fut) : bool := deadline f <=? t.

(** The clock passes [t]: the waiting futures that are due lose their waiter, which is woken. *)
Definition expire (t : Z) (f : Fut) : Fut :=
  if due t f then mkFut (deadline f) None (finished f) else f.

Definition due_waiters (t : Z) (l : list (Z * Fut)) : list Z :=
  omap (fun p => if due t p.2 then waiter p.2 else None) l.

Definition spec_step (s : Spec) (e : event) : outcome (reply * Spec) :=
  match e with
  | WaitUntil a e => Ret (Done, if decide (a ∈ dom (futs s)) then s else mkSpec (clock s) (<[a := mkFut e None false]> (futs s)))
  | Wait a t => Ret (Done, if decide (a ∈ dom (futs s)) then s else mkSpec (clock s) (<[a := mkFut (clock s + t) None false]> (futs s)))
  | Poll a cx =>
      match futs s !! a with
      | Some (mkFut d o false) =>
          if d <=? clock s
          then Ret (Ready, mkSpec (clock s) (<[a := mkFut d None true]> (futs s)))
          else Ret (Pending, mkSpec (clock s) (<[a := mkFut d (Some cx) false]> (futs s)))
      | _ => Panic "Polled future after completion"
      end
  | Drop a => Ret (Done, mkSpec (clock s) (delete a (futs s)))
  | Advance t =>
      if clock s <=? t
      then Ret (Woken (due_waiters t (map_to_list (futs s))), mkSpec t (expire t <$> futs s))
      else Panic "assertion failed: inner.now <= now"
  end.

(** The tasks woken by one advance of the clock come in some order. *)
Inductive same_reply : reply -> reply -> Prop :=
| same_done : same_reply Done Done
| same_ready : same_reply Ready Ready
| same_pending : same_reply Pending Pending
| same_woken l l' : l ≡ₚ l' -> same_reply (Woken l) (Woken l').

Fixpoint spec_run (s : Spec) (es : list event) : outcome (list reply * Spec) :=
  match es with
  | [] => Ret ([], s)
  | e :: es => '(r, s) ← spec_step s e; '(rs, s) ← spec_run s es; Ret (r :: rs, s)
  end.

(** ** The timer implements deadlines *)

(** An entry and the future it stands for; [lo] bounds the waiting ones from below, [hi] the
    expired ones from above (both are the clock, except while it advances). *)
Definition entry_ok (lo hi : Z) (e : TimerQueueEntry) (f : Fut) : Prop :=
  expiry e = deadline f /\
  match state e with
  | Unregistered => waiter f = None /\ task e = None /\ finished f = false
  | Registered => exists t, waiter f = Some t /\ task e = Some t /\ finished f = false /\ lo < deadline f
  | Expired => waiter f = None /\ task e = None /\ deadline f <= hi
  end.

Record rel (lo hi : Z) (w : World) (F : gmap Z Fut) (ms : gset Z) : Prop := {
  r_ptrs : ptrs w = (fun f => negb (finished f)) <$> F;
  r_dom : forall a, is_Some (nodes w !! a) <-> is_Some (F !! a);
  r_nodes : forall a e f, PairingHeap.data <$> nodes w !! a = Some e -> F !! a = Some f -> entry_ok lo hi e f;
  r_heap : PairingHeap.heap_rep (heap w) (nodes w) ms;
  r_ms : forall a, a ∈ ms <-> exists f, F !! a = Some f /\ waiter f <> None;
  r_out : forall a, is_Some (nodes w !! a) -> a ∉ ms -> PairingHeap.detached (nodes w) a;
}.

Lemma rel_node lo hi w F ms a f : rel lo hi w F ms -> F !! a = Some f ->
  exists n, nodes w !! a = Some n /\ entry_ok lo hi (PairingHeap.data n) f.
Proof.
  intros R Hf. destruct (proj2 (r_dom _ _ _ _ _ R a) (ex_intro _ _ Hf)) as [n Hn]. exists n. split; [done|].
  eapply R; [by rewrite Hn|done].
Qed.

(** The payloads of the new nodes, given those of the old ones and one change. *)
Lemma data_change (st st1 : gmap Z node) a n e : PairingHeap.same_data (<[a := set_entry n e]> st) st1 ->
  forall b, PairingHeap.data <$> st1 !! b = if decide (b = a) then Some e else PairingHeap.data <$> st !! b.
Proof.
  intros Hs b. rewrite Hs. destruct (decide (b = a)) as [->|]; [by rewrite lookup_insert_eq|by rewrite lookup_insert_ne].
Qed.

Lemma data_dom (st st1 : gmap Z node) a n e : is_Some (st !! a) -> PairingHeap.same_data (<[a := set_entry n e]> st) st1 ->
  forall b, is_Some (st1 !! b) <-> is_Some (st !! b).
Proof.
  intros Ha Hs b. pose proof (data_change _ _ _ _ _ Hs b) as Hb. destruct (decide (b = a)) as [->|].
  - destruct (st1 !! a); [|done]. split; [done|by eexists].
  - destruct (st1 !! b), (st !! b); (done || split; intros [? [=]] || by split; eexists).
Qed.

(** Replacing the entry of one future by one that fits the new abstract future. *)
Lemma nodes_change lo hi (st st1 : gmap Z node) (F : gmap Z Fut) a e f' :
  (forall b, PairingHeap.data <$> st1 !! b = if decide (b = a) then Some e else PairingHeap.data <$> st !! b) ->
  (forall b e f, PairingHeap.data <$> st !! b = Some e -> F !! b = Some f -> entry_ok lo hi e f) ->
  entry_ok lo hi e f' ->
  forall b eb fb, PairingHeap.data <$> st1 !! b = Some eb -> <[a := f']> F !! b = Some fb -> entry_ok lo hi eb fb.
Proof.
  intros Hd Hn He b eb fb Hb Hf. rewrite Hd in Hb. destruct (decide (b = a)) as [->|].
  - rewrite lookup_insert_eq in Hf. by simplify_eq.
  - rewrite lookup_insert_ne in Hf by done. eauto.
Qed.

Lemma dom_change (P : Z -> Prop) (F : gmap Z Fut) a f f' : F !! a = Some f ->
  (forall b, P b <-> is_Some (F !! b)) -> forall b, P b <-> is_Some (<[a := f']> F !! b).
Proof.
  intros Hf HP b. rewrite HP, lookup_insert_is_Some'. split; [by right|]. intros [<-|]; [by eexists|done].
Qed.

Lemma ptrs_change (F : gmap Z Fut) a f f' : F !! a = Some f -> finished f' = finished f ->
  (fun f => negb (finished f)) <$> F = (fun f => negb (finished f)) <$> <[a := f']> F.
Proof.
  intros Hf He. rewrite fmap_insert, He. symmetry. apply insert_id. by rewrite lookup_fmap, Hf.
Qed.

#[local] Instance due_waiters_perm t : Proper (Permutation ==> Permutation) (due_waiters t).
Proof. intros l l' Hl. unfold due_waiters. by rewrite Hl. Qed.

Lemma due_waiters_change t (F : gmap Z Fut) a d o fin : F !! a = Some (mkFut d (Some o) fin) -> d <= t ->
  due_waiters t (map_to_list F) ≡ₚ o :: due_waiters t (map_to_list (<[a := mkFut d None fin]> F)).
Proof.
  intros Hf Hd. rewrite <- (insert_delete_id F a _ Hf) at 1. rewrite <- (insert_delete_eq F a).
  rewrite !map_to_list_insert by apply lookup_delete_eq. unfold due_waiters. cbn.
  unfold due. cbn. by rewrite (proj2 (Z.leb_le _ _) Hd).
Qed.

Lemma expire_change t (F : gmap Z Fut) a d o fin : F !! a = Some (mkFut d o fin) -> d <= t ->
  expire t <$> <[a := mkFut d None fin]> F = expire t <$> F.
Proof.
  intros Hf Hd. rewrite fmap_insert. apply insert_id. rewrite lookup_fmap, Hf. cbn. unfold expire, due. cbn.
  by rewrite (proj2 (Z.leb_le _ _) Hd).
Qed.

Lemma no_due t (F : gmap Z Fut) : (forall a f, F !! a = Some f -> waiter f <> None -> t < deadline f) ->
  due_waiters t (map_to_list F) = [] /\ expire t <$> F = F.
Proof.
  intros HF. split.
  - unfold due_waiters. assert (Hall : forall a f, (a, f) ∈ map_to_list F -> waiter f <> None -> t < deadline f)
      by (intros a f Hin%elem_of_map_to_list; eauto).
    induction (map_to_list F) as [|[a f] l IH]; [done|]. cbn. unfold due at 1. destruct (Z.leb_spec (deadline f) t) as [Hd|Hd].
    + destruct (waiter f) eqn:E.
      * assert (t < deadline f); [|lia]. apply (Hall a); [left|by rewrite E].
      * apply IH. intros b g Hin. apply (Hall b). by right.
    + apply IH. intros b g Hin. apply (Hall b). by right.
  - apply map_eq. intros a. rewrite lookup_fmap. destruct (F !! a) as [f|] eqn:Hf; [|done]. cbn. f_equal.
    unfold expire, due. destruct (Z.leb_spec (deadline f) t) as [Hd|]; [|done]. destruct f as [d [o|] fin]; [|done].
    cbn in Hd. assert (t < d); [|lia]. by apply (HF a _ Hf).
Qed.

Lemma advance_loop_ok fuel lo t w F ms : rel lo t w F ms -> (size ms < fuel)%nat ->
  exists ws w' ms', advance_loop fuel w t = Ret (ws, w') /\ ws ≡ₚ due_waiters t (map_to_list F) /\ now w' = now w /\
    rel lo t w' (expire t <$> F) ms' /\ (forall a f, F !! a = Some f -> a ∈ ms' -> t < deadline f).
Proof.
  revert w F ms. induction fuel as [|fuel IH]; intros w F ms R Hf; [lia|].
  pose proof (PairingHeap.heap_peek _ _ _ (r_heap _ _ _ _ _ R)) as Hpk. cbn [advance_loop].
  destruct (PairingHeap.peek_min (heap w)) as [first|].
  - destruct Hpk as (Hin & k & Hk & Hmin). destruct (proj1 (r_ms _ _ _ _ _ R first) Hin) as ([d o fin] & Hfirst & Hw).
    destruct (rel_node _ _ _ _ _ _ _ R Hfirst) as (n & Hn & He). unfold PairingHeap.deref. rewrite Hn. cbn [mbind outcome_bind].
    destruct He as [Hexp He]. cbn in *.
    assert (k = d) as -> by (unfold PairingHeap.key_at in Hk; rewrite Hn in Hk; injection Hk as Hk; change (expiry (PairingHeap.data n) = k) in Hk; congruence). rewrite Hexp.
    destruct (Z.ltb_spec t d) as [Hlt|Hge].
    + assert (Hno : forall a f, F !! a = Some f -> waiter f <> None -> t < deadline f).
      { intros a f Ha Hwa. destruct (Hmin a) as (ka & Hka & Hle); [apply R; eauto|].
        destruct (rel_node _ _ _ _ _ _ _ R Ha) as (na & Hna & Hea & _). unfold PairingHeap.key_at in Hka. rewrite Hna in Hka. cbn in Hka.
        injection Hka as Hka. change (ord_key (PairingHeap.data na)) with (expiry (PairingHeap.data na)) in Hka. lia. }
      destruct (no_due t F Hno) as [-> Hex]. exists [], w, ms. rewrite Hex. split_and!; try done.
      intros a f Ha Hams. apply R in Hams as (f' & Hf' & Hw'). rewrite Ha in Hf'. injection Hf' as <-. eauto.
    + destruct (state (PairingHeap.data n)) eqn:Est; [by destruct He as (? & _)| |by destruct He as (? & _)].
      destruct He as (wk & -> & Htask & -> & Hlo). rewrite Htask.
      set (e' := mkEntry d None Expired).
      pose proof (PairingHeap.heap_data _ _ _ _ _ e' (r_heap _ _ _ _ _ R) Hn (eq_sym Hexp)) as Hheap.
      change (PairingHeap.mkNode _ _ _ _ e') with (set_entry n e') in Hheap.
      destruct (PairingHeap.heap_remove _ _ _ _ Hheap Hin) as (heap1 & st1 & -> & Hh1 & Hdet & Hs1 & Ho1). cbn [mbind outcome_bind].
      pose proof (data_change _ _ _ _ _ Hs1) as Hdata. pose proof (data_dom _ _ _ _ _ (ex_intro _ _ Hn) Hs1) as Hdom.
      set (f' := mkFut d None false).
      destruct (IH (mkWorld (now w) heap1 st1 (ptrs w)) (<[first := f']> F) (ms ∖ {[first]})) as (ws & w' & ms' & -> & Hws & Hnow & R' & Hlast).
      * split; cbn.
        -- rewrite (r_ptrs _ _ _ _ _ R). by eapply ptrs_change.
        -- eapply dom_change; [done|]. intros b. by rewrite Hdom, (r_dom _ _ _ _ _ R).
        -- eapply nodes_change; [done|apply R|]. by split.
        -- done.
        -- intros b. rewrite elem_of_difference, elem_of_singleton, (r_ms _ _ _ _ _ R). destruct (decide (b = first)) as [->|].
           ++ rewrite lookup_insert_eq. split; [tauto|]. intros (f & [= <-] & Hne). done.
           ++ rewrite lookup_insert_ne by done. tauto.
        -- intros b Hb Hnb. destruct (decide (b = first)) as [->|Hne]; [done|].
           eapply PairingHeap.detached_frame; [apply Ho1; intros Hb'; apply Hnb; apply elem_of_difference; by rewrite elem_of_singleton|].
           eapply PairingHeap.detached_frame; [by rewrite lookup_insert_ne|]. apply R; [by apply Hdom|].
           intros Hb'. apply Hnb, elem_of_difference. by rewrite elem_of_singleton.
      * assert (Hsub : {[first]} ⊆ ms) by (by apply singleton_subseteq_l). pose proof (subseteq_size _ _ Hsub) as Hsz.
        rewrite size_difference, size_singleton in * by done. lia.
      * cbn [mbind outcome_bind]. exists (wk :: ws), w', ms'. split_and!; [done| |done| |].
        -- rewrite (due_waiters_change t F first d wk false Hfirst Hge). by rewrite Hws.
        -- by rewrite <- (expire_change t F first d (Some wk) false Hfirst Hge).
        -- intros a f Ha Hams. destruct (decide (a = first)) as [->|]; [|eapply Hlast; [by rewrite lookup_insert_ne|done]].
           rewrite Hfirst in Ha. injection Ha as <-. apply (Hlast first f'); [by rewrite lookup_insert_eq|done].
  - subst ms. assert (Hno : forall a f, F !! a = Some f -> waiter f <> None -> t < deadline f).
    { intros a f Ha Hwa. exfalso. apply (not_elem_of_empty (C := gset Z) a). apply R. eauto. }
    destruct (no_due t F Hno) as [-> Hex]. exists [], w, ∅. rewrite Hex. by split_and!.
Qed.


(** The timer and the deadlines agree. *)
Definition sim (w : World) (s : Spec) : Prop :=
  now w = clock s /\ exists ms, rel (clock s) (clock s) w (futs s) ms.

Lemma rel_ptr lo hi w F ms a : rel lo hi w F ms -> ptrs w !! a = (fun f => negb (finished f)) <$> F !! a.
Proof. intros R. by rewrite (r_ptrs _ _ _ _ _ R), lookup_fmap. Qed.

Lemma rel_dom_ptr lo hi w F ms a : rel lo hi w F ms -> a ∈ dom (ptrs w) <-> a ∈ dom F.
Proof. intros R. by rewrite (r_ptrs _ _ _ _ _ R), dom_fmap. Qed.

(** A future outside the heap changes its entry and stays outside. *)
Lemma rel_outside lo hi w F ms a n e f' p' : rel lo hi w F ms -> nodes w !! a = Some n -> is_Some (F !! a) -> a ∉ ms ->
  entry_ok lo hi e f' -> waiter f' = None -> p' = negb (finished f') ->
  rel lo hi (mkWorld (now w) (heap w) (<[a := set_entry n e]> (nodes w)) (<[a := p']> (ptrs w))) (<[a := f']> F) ms.
Proof.
  intros R Hn [f Hf] Hms He Hw ->. pose proof (data_change _ _ _ _ _ (PairingHeap.same_data_refl (<[a := set_entry n e]> (nodes w)))) as Hd.
  split; cbn.
  - by rewrite fmap_insert, (r_ptrs _ _ _ _ _ R).
  - eapply dom_change; [done|]. intros b. rewrite lookup_insert_is_Some', (r_dom _ _ _ _ _ R). split; [intros [<-|]; [by eexists|done]|by right].
  - eapply nodes_change; [exact Hd|apply R|done].
  - eapply PairingHeap.heap_frame, R. intros b Hb. apply lookup_insert_ne. congruence.
  - intros b. rewrite (r_ms _ _ _ _ _ R). destruct (decide (b = a)) as [->|]; [|by rewrite lookup_insert_ne].
    rewrite lookup_insert_eq. split; [intros Hb%R; done|]. intros (g & [= <-] & Hne). done.
  - intros b Hb Hnb. destruct (decide (b = a)) as [->|].
    + destruct (r_out _ _ _ _ _ R a (ex_intro _ _ Hn) Hms) as (d & Hd'). rewrite Hn in Hd'. injection Hd' as ->.
      exists e. by rewrite lookup_insert_eq.
    + eapply PairingHeap.detached_frame; [by rewrite lookup_insert_ne|]. rewrite lookup_insert_ne in Hb by done. by apply R.
Qed.

Lemma poll_sim w s a cx : sim w s ->
  match spec_step s (Poll a cx) with
  | Ret (r', s') => exists r w', step w (Poll a cx) = Ret (r, w') /\ same_reply r r' /\ sim w' s'
  | o => step w (Poll a cx) = match o with Panic m => Panic m | _ => Diverge end
  end.
Proof.
  intros [Hnow [ms R]]. cbn [spec_step step]. unfold poll. rewrite (rel_ptr _ _ _ _ _ a R).
  destruct (futs s !! a) as [[d o fin]|] eqn:Hf; [|done]. cbn. destruct fin; [done|]. cbn.
  destruct (rel_node _ _ _ _ _ _ _ R Hf) as (n & Hn & Hexp & Hst). unfold PairingHeap.deref. rewrite Hn. cbn [mbind outcome_bind].
  rewrite Hexp, Hnow, Z.geb_leb. cbn in *.
  assert (Hmsa : o = None -> a ∉ ms).
  { intros -> (g & Hg & Hne)%R. rewrite Hf in Hg. by injection Hg as <-. }
  destruct (state (PairingHeap.data n)) eqn:Est.
  - destruct Hst as (-> & Htask & _). rewrite Htask. destruct (Z.leb_spec d (clock s)) as [Hle|Hgt]; cbn [mbind outcome_bind].
    + do 2 eexists. split; [done|]. split; [constructor|]. split; [done|]. exists ms. cbn.
      pose proof (rel_outside _ _ w (futs s) ms a n (mkEntry d None Expired) (mkFut d None true) false R Hn) as Ro.
      rewrite Hnow in Ro. apply Ro; try done. by apply Hmsa.
    + set (e' := mkEntry d (Some cx) Registered). set (st := <[a := set_entry n e']> (nodes w)).
      pose proof (Hmsa eq_refl) as Hnm.
      destruct (r_out _ _ _ _ _ R a (ex_intro _ _ Hn) Hnm) as (d0 & Hd0). rewrite Hn in Hd0. injection Hd0 as ->.
      destruct (PairingHeap.heap_insert (heap w) st ms a) as (heap1 & st1 & -> & Hh1 & Hs1 & Ho1).
      { eapply PairingHeap.heap_frame, R. intros b Hb. apply lookup_insert_ne. congruence. }
      { exists e'. apply lookup_insert_eq. } { done. }
      cbn [mbind outcome_bind]. do 2 eexists. split; [done|]. split; [constructor|]. split; [done|].
      exists ({[a]} ∪ ms). cbn [clock futs].
      pose proof (data_change _ _ _ _ _ Hs1) as Hdata. pose proof (data_dom _ _ _ _ _ (ex_intro _ _ Hn) Hs1) as Hdom. split; cbn.
      * rewrite (r_ptrs _ _ _ _ _ R). by eapply ptrs_change.
      * eapply dom_change; [done|]. intros b. by rewrite Hdom, (r_dom _ _ _ _ _ R).
      * eapply nodes_change; [done|apply R|]. split; [done|]. by exists cx.
      * done.
      * intros b. rewrite elem_of_union, elem_of_singleton, (r_ms _ _ _ _ _ R). destruct (decide (b = a)) as [->|].
        -- rewrite lookup_insert_eq. split; [by eexists|by left].
        -- rewrite lookup_insert_ne by done. split; [intros [?|?]; done|by right].
      * intros b Hb [Hba Hnb]%not_elem_of_union. rewrite not_elem_of_singleton in Hba.
        eapply PairingHeap.detached_frame; [apply Ho1; by rewrite not_elem_of_union, not_elem_of_singleton|].
        eapply PairingHeap.detached_frame; [unfold st; by rewrite lookup_insert_ne|]. apply R; [by apply Hdom|done].
  - destruct Hst as (t & -> & Htask & _ & Hlo). rewrite Htask, (proj2 (Z.leb_gt _ _) Hlo). cbn [mbind outcome_bind].
    destruct (Z.eqb_spec t cx) as [->|Hne]; (do 2 eexists; split; [done|]; split; [constructor|]; split; [done|]; exists ms; cbn [clock futs]).
    + by rewrite insert_id.
    + set (e' := mkEntry d (Some cx) Registered).
      pose proof (data_change _ _ _ _ _ (PairingHeap.same_data_refl (<[a := set_entry n e']> (nodes w)))) as Hdata. split; cbn.
      * rewrite (r_ptrs _ _ _ _ _ R). by eapply ptrs_change.
      * eapply dom_change; [done|]. intros b. rewrite lookup_insert_is_Some', (r_dom _ _ _ _ _ R). split; [intros [<-|]; [by eexists|done]|by right].
      * eapply nodes_change; [done|apply R|]. split; [done|]. by exists cx.
      * apply PairingHeap.heap_data; [apply R|done|exact (eq_sym Hexp)].
      * intros b. rewrite (r_ms _ _ _ _ _ R). destruct (decide (b = a)) as [->|]; [|by rewrite lookup_insert_ne].
        rewrite lookup_insert_eq, Hf. split; intros _; by eexists.
      * intros b Hb Hnb. assert (b <> a) by (intros ->; apply Hnb, R; by eexists).
        eapply PairingHeap.detached_frame; [by rewrite lookup_insert_ne|]. rewrite lookup_insert_ne in Hb by done. by apply R.
  - destruct Hst as (-> & Htask & Hhi). rewrite (proj2 (Z.leb_le _ _) Hhi). cbn [mbind outcome_bind].
    do 2 eexists. split; [done|]. split; [constructor|]. split; [done|]. exists ms. cbn.
    pose proof (rel_outside _ _ w (futs s) ms a n (PairingHeap.data n) (mkFut d None true) false R Hn) as Ro.
    rewrite insert_id in Ro by (rewrite Hn; f_equal; by destruct n).
    apply Ro; try done; [by apply Hmsa|]. by split; [|rewrite Est].
Qed.


Lemma new_future_sim w s a e : sim w s -> a ∉ dom (futs s) -> sim (wait_until w a e) (mkSpec (clock s) (<[a := mkFut e None false]> (futs s))).
Proof.
  intros [Hnow [ms R]] Ha. split; [done|]. exists ms. cbn [clock futs].
  assert (Hna : nodes w !! a = None).
  { apply eq_None_not_Some. intros Hs%R. by apply Ha, elem_of_dom. }
  assert (Hms : a ∉ ms) by (intros (f & Hf & _)%R; apply Ha, elem_of_dom; by eexists).
  split; cbn.
  - by rewrite fmap_insert, (r_ptrs _ _ _ _ _ R).
  - intros b. rewrite !lookup_insert_is_Some'. by rewrite (r_dom _ _ _ _ _ R).
  - intros b eb fb. destruct (decide (b = a)) as [->|].
    + rewrite !lookup_insert_eq. intros [= <-] [= <-]. by split.
    + rewrite !lookup_insert_ne by done. apply R.
  - eapply PairingHeap.heap_frame, R. intros b Hb. apply lookup_insert_ne. congruence.
  - intros b. rewrite (r_ms _ _ _ _ _ R). destruct (decide (b = a)) as [->|]; [|by rewrite lookup_insert_ne].
    rewrite lookup_insert_eq. split; [intros Hb%R; done|]. intros (g & [= <-] & Hne). done.
  - intros b Hb Hnb. destruct (decide (b = a)) as [->|]; [eexists; apply lookup_insert_eq|].
    eapply PairingHeap.detached_frame; [by rewrite lookup_insert_ne|]. rewrite lookup_insert_ne in Hb by done. by apply R.
Qed.

Lemma drop_sim w s a : sim w s -> a ∈ dom (futs s) -> exists w', drop w a = Ret w' /\ sim w' (mkSpec (clock s) (delete a (futs s))).
Proof.
  intros [Hnow [ms R]] [[d o fin] Hf]%elem_of_dom. destruct (rel_node _ _ _ _ _ _ _ R Hf) as (n & Hn & Hexp & Hst).
  assert (Hgo : exists heap1 st1,
    match ptrs w !! a with
    | Some true => n ← PairingHeap.deref (nodes w) a;
        match state (PairingHeap.data n) with Registered => PairingHeap.remove (heap w) (nodes w) a | _ => Ret (heap w, nodes w) end
    | _ => Ret (heap w, nodes w)
    end = Ret (heap1, st1) /\ PairingHeap.heap_rep heap1 st1 (ms ∖ {[a]}) /\ PairingHeap.same_data (nodes w) st1 /\
    forall b, b ∉ ms -> st1 !! b = nodes w !! b).
  { rewrite (rel_ptr _ _ _ _ _ a R), Hf. cbn. unfold PairingHeap.deref. rewrite Hn. cbn [mbind outcome_bind].
    destruct (decide (a ∈ ms)) as [Hin|Hni].
    - pose proof (proj1 (r_ms _ _ _ _ _ R a) Hin) as (g & Hg & Hw). rewrite Hf in Hg. injection Hg as <-. cbn in *.
      destruct (state (PairingHeap.data n)); [by destruct Hst as (? & _)| |by destruct Hst as (? & _)].
      destruct Hst as (t & _ & _ & -> & _). cbn.
      destruct (PairingHeap.heap_remove _ _ _ _ (r_heap _ _ _ _ _ R) Hin) as (heap1 & st1 & -> & Hh1 & _ & Hs1 & Ho1).
      by exists heap1, st1.
    - assert (Hms : ms ∖ {[a]} = ms) by (apply set_eq; intros b; rewrite elem_of_difference, elem_of_singleton; split; [tauto|]; intros Hb; split; congruence).
      exists (heap w), (nodes w). rewrite Hms. split_and!; [|apply R|done|done].
      destruct fin; [done|]. cbn. destruct (state (PairingHeap.data n)); try done.
      exfalso. apply Hni, R. destruct Hst as (t & ? & _). cbn in *. exists (mkFut d o false). split; [done|]. cbn. congruence. }
  destruct Hgo as (heap1 & st1 & Hgo & Hh1 & Hs1 & Ho1). unfold drop. rewrite Hgo. cbn [mbind outcome_bind].
  eexists. split; [done|]. split; [done|]. exists (ms ∖ {[a]}). cbn [clock futs].
  assert (Hdom : forall b, is_Some (st1 !! b) <-> is_Some (nodes w !! b)).
  { intros b. specialize (Hs1 b). destruct (st1 !! b), (nodes w !! b); (done || by split; eexists). }
  split; cbn.
  - by rewrite fmap_delete, (r_ptrs _ _ _ _ _ R).
  - intros b. rewrite !lookup_delete_is_Some. by rewrite Hdom, (r_dom _ _ _ _ _ R).
  - intros b eb fb Hb [Hne Hfb]%lookup_delete_Some. rewrite lookup_delete_ne, Hs1 in Hb by done. by eapply R.
  - eapply PairingHeap.heap_frame, Hh1. intros b [_ Hb]%elem_of_difference. rewrite elem_of_singleton in Hb. by apply lookup_delete_ne.
  - intros b. rewrite elem_of_difference, elem_of_singleton, (r_ms _ _ _ _ _ R). destruct (decide (b = a)) as [->|].
    + rewrite lookup_delete_eq. split; [tauto|]. by intros (? & [=] & _).
    + rewrite lookup_delete_ne by done. tauto.
  - intros b [Hne Hb]%lookup_delete_is_Some Hnb. rewrite elem_of_difference, elem_of_singleton in Hnb.
    assert (Hbm : b ∉ ms) by (intros Hb'; apply Hnb; split; [done|congruence]).
    eapply PairingHeap.detached_frame; [by rewrite lookup_delete_ne|]. eapply PairingHeap.detached_frame; [by apply Ho1|].
    apply R; [by apply Hdom|done].
Qed.

Lemma advance_sim w s t : sim w s -> clock s <= t ->
  exists ws w', advance_clock w t = Ret (ws, w') /\ ws ≡ₚ due_waiters t (map_to_list (futs s)) /\
    sim w' (mkSpec t (expire t <$> futs s)).
Proof.
  intros [Hnow [ms R]] Ht. unfold advance_clock. rewrite Hnow, (proj2 (Z.leb_le _ _) Ht).
  assert (R1 : rel (clock s) t w (futs s) ms).
  { destruct R as [R1 R2 R3 R4 R5 R6]. split; try done. intros a e f He Hf. destruct (R3 a e f He Hf) as [? Hs]. split; [done|].
    destruct (state e); try done. destruct Hs as (? & ? & ?). split_and!; [done..|lia]. }
  assert (Hsz : (size ms < S (size (nodes w)))%nat).
  { apply Nat.lt_succ_r. rewrite <- (size_dom (D := gset Z) (nodes w)). apply subseteq_size. intros a Ha.
    apply elem_of_dom. by eapply PairingHeap.heap_dom; [apply R|]. }
  destruct (advance_loop_ok _ _ _ _ _ _ R1 Hsz) as (ws & w' & ms' & -> & Hws & Hn' & R' & Hlast). cbn [mbind outcome_bind].
  do 2 eexists. split; [done|]. split; [done|]. split; [done|]. exists ms'. cbn [clock futs].
  destruct R' as [P1 P2 P3 P4 P5 P6]. split; try done. intros a e f He Hf. destruct (P3 a e f He Hf) as [Hexp Hs]. split; [done|].
  destruct (state e); try done. destruct Hs as (o & Ho & Htask & Hfin & Hlo). exists o. split_and!; try done.
  rewrite lookup_fmap in Hf. destruct (futs s !! a) as [g|] eqn:Hg; [|done]. injection Hf as <-.
  assert (deadline (expire t g) = deadline g) as -> by (unfold expire; by destruct (due t g)).
  apply (Hlast a g Hg). apply P5. exists (expire t g). rewrite lookup_fmap, Hg. split; [done|]. congruence.
Qed.

(** One call agrees with its meaning, panics included. *)
Lemma step_sim w s e : sim w s ->
  match spec_step s e with
  | Ret (r', s') => exists r w', step w e = Ret (r, w') /\ same_reply r r' /\ sim w' s'
  | Panic m => step w e = Panic m
  | Diverge => False
  end.
Proof.
  intros Hs. pose proof Hs as [Hnow [ms R]]. pose proof (fun a => rel_dom_ptr _ _ _ _ _ a R) as Hdom. destruct e as [a e|a t|a cx|a|t].
  - cbn [spec_step step]. destruct (decide (a ∈ dom (futs s))) as [Hin|Hni].
    + rewrite decide_True by (by apply Hdom). do 2 eexists. split; [done|]. split; [constructor|done].
    + rewrite decide_False by (by rewrite Hdom). do 2 eexists. split; [done|]. split; [constructor|]. by apply new_future_sim.
  - cbn [spec_step step]. destruct (decide (a ∈ dom (futs s))) as [Hin|Hni].
    + rewrite decide_True by (by apply Hdom). do 2 eexists. split; [done|]. split; [constructor|done].
    + rewrite decide_False by (by rewrite Hdom). do 2 eexists. split; [done|]. split; [constructor|].
      unfold wait. rewrite Hnow. by apply new_future_sim.
  - pose proof (poll_sim w s a cx Hs) as Hp. destruct (spec_step s (Poll a cx)) as [[r' s']|m|] eqn:E; [done|done|].
    cbn in E. destruct (futs s !! a) as [[d o []]|]; try done. by destruct (d <=? clock s).
  - cbn [spec_step step]. destruct (decide (a ∈ dom (ptrs w))) as [Hin|Hni].
    + destruct (drop_sim w s a Hs) as (w' & -> & Hs'); [by apply Hdom|]. cbn. do 2 eexists. split; [done|]. split; [constructor|done].
    + rewrite delete_id by (apply not_elem_of_dom; by rewrite <- Hdom). do 2 eexists. split; [done|]. split; [constructor|].
      split; [done|by exists ms].
  - cbn [spec_step step]. destruct (Z.leb_spec (clock s) t) as [Hle|Hgt].
    + destruct (advance_sim w s t Hs Hle) as (ws & w' & -> & Hws & Hs'). cbn. do 2 eexists. split; [done|]. split; [by constructor|done].
    + unfold advance_clock. by rewrite Hnow, (proj2 (Z.leb_gt _ _) Hgt).
Qed.

Lemma run_sim es w s : sim w s ->
  match spec_run s es with
  | Ret (rs', s') => exists rs w', run w es = Ret (rs, w') /\ Forall2 same_reply rs rs' /\ sim w' s'
  | Panic m => run w es = Panic m
  | Diverge => False
  end.
Proof.
  revert w s. induction es as [|e es IH]; intros w s Hs; cbn [run spec_run]; [do 2 eexists; by split_and!|].
  pose proof (step_sim w s e Hs) as Hst. destruct (spec_step s e) as [[r' s']|m|]; [|by rewrite Hst|done].
  destruct Hst as (r & w' & -> & Hr & Hs'). cbn [mbind outcome_bind]. specialize (IH w' s' Hs').
  destruct (spec_run s' es) as [[rs' s2]|m|]; [|by rewrite IH|done]. destruct IH as (rs & w2 & -> & Hrs & Hs2). cbn.
  do 2 eexists. split; [done|]. split; [by constructor|done].
Qed.

Lemma new_sim t : sim (new t) (mkSpec t ∅).
Proof.
  split; [done|]. exists ∅. split; cbn; try done.
  - intros a. by rewrite !lookup_empty.
  - intros a. split; [set_solver|]. by intros (f & [=] & _).
  - intros a [? [=]].
Qed.

(** C27: A timer implements deadlines.  For any sequence of new futures, polls, drops and advances
    of the clock, the timer (its entries linked into the pairing heap, expired ones taken out by
    the clock) answers as the specification in which a future is its deadline and its waiter: a
    poll is ready exactly when the clock has reached the deadline, advancing the clock wakes
    exactly the last waiters of the futures whose deadline it reaches, each once, and the only
    panics are a clock that goes back and a poll after completion. *)
Theorem timer_refines_deadlines (t : Z) (es : list event) :
  match spec_run (mkSpec t ∅) es with
  | Ret (rs', s) => exists rs w, run (new t) es = Ret (rs, w) /\ Forall2 same_reply rs rs' /\ now w = clock s
  | Panic m => run (new t) es = Panic m
  | Diverge => False
  end.
Proof.
  pose proof (run_sim es (new t) (mkSpec t ∅) (new_sim t)) as Hr. destruct (spec_run _ es) as [[rs' s]|m|]; [|done|done].
  destruct Hr as (rs & w & Hrun & Hrs & Hnow & _). by exists rs, w.
Qed.

(** Two futures, as in the unit test of timer.rs. *)
Example two_timers :
  (r ← run (new 0) [Wait 1 2000; Poll 1 7; Advance 500; Poll 1 7; Wait 2 1000; Poll 2 8; Advance 1000; Poll 2 9;
                    Advance 1500; Poll 1 7; Poll 2 9; Advance 2250; Poll 1 7]; Ret r.1) =
  Ret [Done; Pending; Woken []; Pending; Done; Pending; Woken []; Pending; Woken [9]; Pending; Ready; Woken [7]; Ready].
Proof. vm_compute. reflexivity. Qed.

End Timer.
