(* ===== verification/LinkedList.v ===== *)
(** * The intrusive doubly linked list
    (src/src/rust/collections/intrusive/double_linked_list.rs)

    The nodes live outside the list, in the futures that wait, and are linked by raw pointers.  The
    memory of the nodes is a map from addresses; following a pointer to no node, undefined in the
    code, is a panic of the model.  A list is shown to be the sequence of its nodes' addresses:
    every operation that the code's contract allows returns, does to that sequence what its name
    says, and leaves a removed node unlinked. *)

From S2P Require Import Prelude.

Module LinkedList.

Record ListNode (T : Type) := mkNode { prev : option Z; next : option Z; data : T }.
Arguments mkNode {T} prev next data.
Arguments prev {T} l.
Arguments next {T} l.
Arguments data {T} l.

Record t := mk { head : option Z; tail : option Z }.

Section list.
Context {T : Type}.
Abbreviation node := (ListNode T).
Abbreviation store := (gmap Z node).

Definition new_node (d : T) : node := mkNode None None d.

Definition set_prev v (n : node) : node := mkNode v (next n) (data n).
Definition set_next v (n : node) : node := mkNode (prev n) v (data n).
Definition set_data v (n : node) : node := mkNode (prev n) (next n) v.

Definition deref (st : store) (p : Z) : outcome node :=
  match st !! p with
  | Some n => Ret n
  | None => Panic "dangling pointer"
  end.

Definition modify (st : store) (p : Z) (f : node -> node) : outcome store :=
  n ← deref st p; Ret (<[p := f n]> st).

Definition new : t := mk None None.

Definition add_front (self : t) (st : store) (node : Z) : outcome (t * store) :=
  st ← modify st node (set_next (head self));
  st ← modify st node (set_prev None);
  st ← match head self with
       | Some head => modify st head (set_prev (Some node))
       | None => Ret st
       end;
  Ret (mk (Some node) (match tail self with None => Some node | tail => tail end), st).

Definition peek_first (self : t) : option Z := head self.
Definition peek_last (self : t) : option Z := tail self.

Definition remove_first (self : t) (st : store) : outcome (option Z * t * store) :=
  match head self with
  | None => Ret (None, self, st)
  | Some head =>
      first_ref ← deref st head;
      '(tail_, st) ←
        match next first_ref with
        | None => Ret (None, st)
        | Some next => st ← modify st next (set_prev None); Ret (tail self, st)
        end;
      st ← modify st head (set_prev None);
      st ← modify st head (set_next None);
      Ret (Some head, mk (next first_ref) tail_, st)
  end.

Definition remove_last (self : t) (st : store) : outcome (option Z * t * store) :=
  match tail self with
  | None => Ret (None, self, st)
  | Some tail =>
      last_ref ← deref st tail;
      '(head_, st) ←
        match prev last_ref with
        | None => Ret (None, st)
        | Some prev => st ← modify st prev (set_next None); Ret (head self, st)
        end;
      st ← modify st tail (set_prev None);
      st ← modify st tail (set_next None);
      Ret (Some tail, mk head_ (prev last_ref), st)
  end.

Definition is_empty (self : t) : bool :=
  match head self with None => true | Some _ => false end.

Definition remove (self : t) (st : store) (node : Z) : outcome (bool * t * store) :=
  n ← deref st node;
  let unlink (head_ : option Z) (st : store) :=
    '(tail_, st) ←
      match next n with
      | None => Ret (prev n, st)
      | Some next => st ← modify st next (set_prev (prev n)); Ret (tail self, st)
      end;
    st ← modify st node (set_next None);
    st ← modify st node (set_prev None);
    Ret (true, mk head_ tail_, st) in
  match prev n with
  | None => if bool_decide (head self = Some node) then unlink (next n) st else Ret (false, self, st)
  | Some prev => st ← modify st prev (set_next (next n)); unlink (head self) st
  end.

Section drain.
Context {S : Type} (func : S -> T -> S * T).

(** The loop of [drain] ([forward]) and [reverse_drain]; the callback changes its own state and the
    node's data. *)
Fixpoint drain_loop (forward : bool) (fuel : nat) (st : store) (s : S) (current : option Z) : outcome (S * store) :=
  match current with
  | None => Ret (s, st)
  | Some node =>
      match fuel with
      | O => Diverge
      | Datatypes.S fuel =>
          node_ref ← deref st node;
          let current := if forward then next node_ref else prev node_ref in
          let '(s, d) := func s (data node_ref) in
          drain_loop forward fuel (<[node := mkNode None None d]> st) s current
      end
  end.

(** The number of nodes bounds the loops. *)
Definition drain (self : t) (st : store) (s : S) : outcome (S * t * store) :=
  '(s, st) ← drain_loop true (size st) st s (head self); Ret (s, mk None None, st).

Definition reverse_drain (self : t) (st : store) (s : S) : outcome (S * t * store) :=
  '(s, st) ← drain_loop false (size st) st s (tail self); Ret (s, mk None None, st).

End drain.

(** ** Lists of nodes *)

(** The nodes [l] are linked in this order, after [p] and before [nx]. *)
Fixpoint seg (st : store) (p : option Z) (l : list Z) (nx : option Z) : Prop :=
  match l with
  | [] => True
  | a :: l =>
      (exists d, st !! a = Some (mkNode p (match l with [] => nx | b :: _ => Some b end) d)) /\ seg st (Some a) l nx
  end.

Definition first_or (l : list Z) (nx : option Z) : option Z := match l with [] => nx | a :: _ => Some a end.
Definition last_or (p : option Z) (l : list Z) : option Z := match last l with None => p | q => q end.

Record rep (lst : t) (st : store) (l : list Z) : Prop := {
  rep_nodup : NoDup l;
  rep_head : head lst = list.head l;
  rep_tail : tail lst = last l;
  rep_seg : seg st None l None;
}.

(** A node that is in no list. *)
Definition unlinked (st : store) (a : Z) (d : T) : Prop := st !! a = Some (mkNode None None d).

(** Everything but the links of the nodes in [l] is the same. *)
Definition same_but (l : list Z) (st st' : store) : Prop :=
  (forall a, a ∉ l -> st' !! a = st !! a) /\ (forall a, data <$> st' !! a = data <$> st !! a).

Lemma seg_app st p l k nx : seg st p (l ++ k) nx <-> seg st p l (first_or k nx) /\ seg st (last_or p l) k nx.
Proof.
  revert p. induction l as [|a l IH]; intros p; cbn; [tauto|]. rewrite IH.
  assert (last_or (Some a) l = last_or p (a :: l)) as -> by (unfold last_or; rewrite last_cons; by destruct (last l)).
  destruct l as [|b l]; cbn; [destruct k|]; cbn; tauto.
Qed.

Lemma seg_frame st st' p l nx : (forall a, a ∈ l -> st' !! a = st !! a) -> seg st p l nx -> seg st' p l nx.
Proof.
  revert p. induction l as [|a l IH]; intros p Hf; cbn; [done|]. intros [[d Hd] Hs]. split.
  - exists d. rewrite Hf by left. done.
  - apply IH; [|done]. intros b Hb. apply Hf. by right.
Qed.

(** The link out of the last node, and the link into the first. *)
Lemma seg_set_next st p l a nx nx' : NoDup (l ++ [a]) -> seg st p (l ++ [a]) nx ->
  exists n, st !! a = Some n /\ seg (<[a := set_next nx' n]> st) p (l ++ [a]) nx'.
Proof.
  intros (_ & Hni & _)%NoDup_app [Hl [[d Hd] _]]%seg_app. eexists. split; [exact Hd|]. apply seg_app. split.
  - eapply seg_frame, Hl. intros b Hb. apply lookup_insert_ne. intros <-. apply (Hni _ Hb). left.
  - split; [|done]. exists d. apply lookup_insert_eq.
Qed.

Lemma seg_set_prev st p p' a l nx : NoDup (a :: l) -> seg st p (a :: l) nx ->
  exists n, st !! a = Some n /\ seg (<[a := set_prev p' n]> st) p' (a :: l) nx.
Proof.
  intros [Hni _]%NoDup_cons [[d Hd] Hl]. eexists. split; [exact Hd|]. split; [exists d; apply lookup_insert_eq|].
  eapply seg_frame, Hl. intros b Hb. apply lookup_insert_ne. by intros <-.
Qed.

Lemma seg_lookup st p l a k nx : seg st p (l ++ a :: k) nx ->
  exists d, st !! a = Some (mkNode (last_or p l) (first_or k nx) d).
Proof. intros [_ [[d Hd] _]]%seg_app. exists d. by destruct k. Qed.

Lemma same_but_insert l st a n n' : a ∈ l -> st !! a = Some n -> data n' = data n -> same_but l st (<[a := n']> st).
Proof.
  intros Ha Hn Hd. split; intros b.
  - intros Hb. apply lookup_insert_ne. by intros ->.
  - destruct (decide (b = a)) as [->|]; [|by rewrite lookup_insert_ne]. rewrite lookup_insert_eq, Hn. cbn. by rewrite Hd.
Qed.

#[export] Instance same_but_po l : PreOrder (same_but l).
Proof.
  split; [by split|]. intros st1 st2 st3 [H1 H2] [H3 H4]. split; intros a.
  - intros Ha. by rewrite H3, H1.
  - by rewrite H4, H2.
Qed.

Lemma same_but_mono l k st st' : l ⊆ k -> same_but l st st' -> same_but k st st'.
Proof. intros Hk [H1 H2]. split; [|done]. intros a Ha. apply H1. set_solver. Qed.

(** ** The operations on the sequence of addresses *)

Lemma rep_new st : rep new st [].
Proof. split; [constructor|done..]. Qed.

Lemma rep_frame lst st st' l : (forall a, a ∈ l -> st' !! a = st !! a) -> rep lst st l -> rep lst st' l.
Proof. intros Hf [H1 H2 H3 H4]. split; try done. by eapply seg_frame. Qed.

(** The data of the nodes does not matter to the links. *)
Lemma seg_set_data st a n d p l nx : st !! a = Some n -> seg st p l nx -> seg (<[a := set_data d n]> st) p l nx.
Proof.
  intros Hn. revert p. induction l as [|b l IH]; intros p; cbn; [done|]. intros [[e He] Hs]. split; [|auto].
  destruct (decide (b = a)) as [->|]; [|rewrite lookup_insert_ne by done; eauto].
  rewrite lookup_insert_eq. exists d. rewrite Hn in He. by injection He as ->.
Qed.

Lemma rep_set_data lst st l a n d : st !! a = Some n -> rep lst st l -> rep lst (<[a := set_data d n]> st) l.
Proof. intros Hn [H1 H2 H3 H4]. split; try done. by apply seg_set_data. Qed.

Lemma node_modify_ok (st : store) a n f : st !! a = Some n -> modify st a f = Ret (<[a := f n]> st).
Proof. intros Hn. unfold modify, deref. by rewrite Hn. Qed.

Lemma add_front_ok lst st l a n : rep lst st l -> st !! a = Some n -> a ∉ l ->
  exists lst' st', add_front lst st a = Ret (lst', st') /\ rep lst' st' (a :: l) /\ same_but (a :: l) st st'.
Proof.
  intros [Hnd Hh Ht Hs] Hn Ha. unfold add_front. rewrite (node_modify_ok st a n) by done. cbn [mbind outcome_bind].
  rewrite (node_modify_ok _ a _ _ (lookup_insert_eq _ _ _)), insert_insert_eq. cbn [mbind outcome_bind]. rewrite Hh, Ht.
  set (n1 := set_prev None _). assert (Hs1 : same_but (a :: l) st (<[a := n1]> st)) by (apply (same_but_insert _ _ _ n); [left|done..]).
  assert (Hseg : seg (<[a := n1]> st) None l None) by (eapply seg_frame, Hs; intros b Hb; apply lookup_insert_ne; by intros <-).
  destruct l as [|b l]; cbn [list.head].
  - cbn. do 2 eexists. split; [done|]. split; [|done]. split; cbn; try done; [apply NoDup_singleton|].
    split; [|done]. exists (data n). apply lookup_insert_eq.
  - destruct (seg_set_prev _ None (Some a) b l None Hnd Hseg) as (nb & Hb & Hseg'). rewrite (node_modify_ok _ b nb) by done. cbn [mbind outcome_bind].
    do 2 eexists. split; [done|]. split; [|etrans; [exact Hs1|apply (same_but_insert _ _ _ nb); [right; left|done..]]].
    split; [by constructor|done|cbn; by destruct (last_is_Some (b :: l)) as [_ [x ->]]|].
    cbn [seg]. split; [|exact Hseg']. exists (data n). rewrite lookup_insert_ne by (intros <-; apply Ha; left). apply lookup_insert_eq.
Qed.

Lemma last_or_app p l b : last_or p (l ++ [b]) = Some b.
Proof. unfold last_or. by rewrite last_snoc. Qed.

Lemma unlink_tail lst st l1 a l2 d p1 : NoDup (l1 ++ a :: l2) -> seg st None l1 (first_or l2 None) ->
  seg st (Some a) l2 None -> st !! a = Some (mkNode p1 (first_or l2 None) d) -> p1 = last_or None l1 ->
  tail lst = last (l1 ++ a :: l2) ->
  exists lst' st' tail_, ('(tail_, st) ←
      match first_or l2 None with
      | None => Ret (p1, st)
      | Some next => st ← modify st next (set_prev p1); Ret (tail lst, st)
      end;
    st ← modify st a (set_next None);
    st ← modify st a (set_prev None);
    Ret (true, mk (list.head (l1 ++ l2)) tail_, st)) = Ret (true, lst', st') /\ lst' = mk (list.head (l1 ++ l2)) tail_ /\
    tail_ = last (l1 ++ l2) /\ seg st' None (l1 ++ l2) None /\ unlinked st' a d /\ same_but (l1 ++ a :: l2) st st'.
Proof.
  intros Hnd Hs1 Hs2 Ha Hp1 Ht. apply NoDup_app in Hnd as (Hnd1 & Hdis & [Ha2 Hnd2]%NoDup_cons).
  assert (Ha1 : a ∉ l1) by (intros Hin; apply (Hdis _ Hin); left).
  destruct l2 as [|b l2]; cbn [first_or] in *.
  - cbn [mbind outcome_bind]. rewrite (node_modify_ok _ a _ _ Ha). cbn [mbind outcome_bind].
    rewrite (node_modify_ok _ a _ _ (lookup_insert_eq _ _ _)), insert_insert_eq. cbn [mbind outcome_bind].
    do 3 eexists. split; [done|]. rewrite app_nil_r. split; [done|]. split_and!.
    + rewrite Hp1. unfold last_or. by destruct (last l1).
    + eapply seg_frame, Hs1. intros c Hc. apply lookup_insert_ne. by intros <-.
    + apply lookup_insert_eq.
    + eapply same_but_insert; [apply elem_of_app; right; left|exact Ha|done].
  - destruct (seg_set_prev st (Some a) p1 b l2 None Hnd2 Hs2) as (nb & Hb & Hs2').
    rewrite (node_modify_ok _ b _ _ Hb). cbn [mbind outcome_bind].
    assert (Hab : <[b := set_prev p1 nb]> st !! a = Some (mkNode p1 (Some b) d)) by (rewrite lookup_insert_ne; [done|intros ->; apply Ha2; left]).
    rewrite (node_modify_ok _ a _ _ Hab). cbn [mbind outcome_bind].
    rewrite (node_modify_ok _ a _ _ (lookup_insert_eq _ _ _)), insert_insert_eq. cbn [mbind outcome_bind].
    do 3 eexists. split; [done|]. split; [done|]. split_and!.
    + rewrite Ht, !last_app, !last_cons. by destruct (last l2).
    + apply seg_app. rewrite <- Hp1. cbn [first_or]. split; (eapply seg_frame; [|eassumption]).
      * intros c Hc. rewrite !lookup_insert_ne; [done|intros <-; apply (Hdis _ Hc); right; left|by intros <-].
      * intros c Hc. apply lookup_insert_ne. by intros <-.
    + apply lookup_insert_eq.
    + etrans; [apply (same_but_insert _ st b nb (set_prev p1 nb)); [|exact Hb|done]|eapply same_but_insert; [|exact Hab|done]].
      * apply elem_of_app. right. right. left.
      * apply elem_of_app. right. left.
Qed.

Lemma list_remove_ok lst st l1 a l2 : rep lst st (l1 ++ a :: l2) ->
  exists lst' st' d, remove lst st a = Ret (true, lst', st') /\ rep lst' st' (l1 ++ l2) /\ unlinked st' a d /\
    same_but (l1 ++ a :: l2) st st'.
Proof.
  intros [Hnd Hh Ht Hs]. destruct (seg_lookup _ _ _ _ _ _ Hs) as [d Hd]. unfold remove, deref. rewrite Hd. cbn [mbind outcome_bind next prev].
  assert (Hnd' : NoDup (l1 ++ l2)) by (apply NoDup_app in Hnd as (? & Hx & [? ?]%NoDup_cons); apply NoDup_app; split_and!; [done|intros x Hin1 Hin2; apply (Hx x Hin1); by right|done]).
  apply seg_app in Hs as [Hs1 [_ Hs2]].
  destruct l1 as [|b l1 _] using rev_ind.
  - cbn [app last_or last] in *. rewrite bool_decide_eq_true_2 by done.
    destruct (unlink_tail lst st [] a l2 d None Hnd I Hs2 Hd eq_refl Ht) as (lst' & st' & tail_ & Heq & -> & Htl & Hseg & Hul & Hsb).
    cbn [app] in *. assert (Hfo : first_or l2 None = list.head l2) by (by destruct l2). rewrite <- Hfo in Heq. rewrite Heq.
    do 3 eexists. split; [done|]. split_and!; [by split|done..].
  - rewrite last_or_app in *. destruct (seg_set_next st None l1 b _ (first_or l2 None) ltac:(by apply NoDup_app in Hnd as (? & _)) Hs1) as (nb & Hb & Hs1').
    rewrite (node_modify_ok _ b _ _ Hb). cbn [mbind outcome_bind].
    assert (Hba : b <> a) by (intros ->; apply NoDup_app in Hnd as (_ & Hx & _); apply (Hx a); [apply elem_of_app; right; left|left]).
    assert (Hb2 : b ∉ l2) by (intros Hin; apply NoDup_app in Hnd as (_ & Hx & _); apply (Hx b); [apply elem_of_app; right; left|by right]).
    destruct (unlink_tail lst (<[b := set_next (first_or l2 None) nb]> st) (l1 ++ [b]) a l2 d (Some b) Hnd Hs1') as
      (lst' & st' & tail_ & Heq & -> & Htl & Hseg & Hul & Hsb); [|by rewrite lookup_insert_ne|by rewrite last_or_app|done|].
    { eapply seg_frame, Hs2. intros c Hc. apply lookup_insert_ne. by intros <-. }
    rewrite Hh. replace (list.head ((l1 ++ [b]) ++ a :: l2)) with (list.head ((l1 ++ [b]) ++ l2)) by (by destruct l1). rewrite Heq.
    do 3 eexists. split; [done|]. split_and!; [by split|done|].
    etrans; [|exact Hsb]. apply (same_but_insert _ st b nb (set_next (first_or l2 None) nb)); [|exact Hb|done]. apply elem_of_app. left. apply elem_of_app. right. left.
Qed.

Lemma remove_absent lst st l a d : rep lst st l -> a ∉ l -> unlinked st a d -> remove lst st a = Ret (false, lst, st).
Proof.
  intros R Ha Hd. unfold remove, deref. rewrite Hd. cbn. rewrite bool_decide_eq_false_2; [done|].
  rewrite (rep_head _ _ _ R). destruct l; [done|]. intros [= ->]. apply Ha. left.
Qed.

(** Removing at an end is removing that node. *)
Lemma remove_first_is_remove lst st a l : rep lst st (a :: l) ->
  remove_first lst st = ('(_, lst', st') ← remove lst st a; Ret (Some a, lst', st')).
Proof.
  intros R. destruct (seg_lookup st None [] a l None (rep_seg _ _ _ R)) as [d Hd]. cbn in Hd.
  unfold remove_first, remove. rewrite (rep_head _ _ _ R). cbn [list.head]. replace (deref st a) with (Ret (mkNode None (first_or l None) d)) by (unfold deref; by rewrite Hd). cbn [mbind outcome_bind next prev].
  rewrite bool_decide_eq_true_2 by done. destruct (first_or l None) as [b|] eqn:E.
  - unfold modify. destruct (deref st b) as [nb| |]; [|done..]. cbn [mbind outcome_bind].
    destruct (deref _ a) as [na| |] eqn:Ea; [|done..]. cbn [mbind outcome_bind]. unfold deref.
    rewrite !lookup_insert_eq. cbn [mbind outcome_bind]. by rewrite !insert_insert_eq.
  - cbn [mbind outcome_bind]. unfold modify, deref. rewrite Hd. cbn [mbind outcome_bind].
    rewrite !lookup_insert_eq. cbn [mbind outcome_bind]. by rewrite !insert_insert_eq.
Qed.

Lemma remove_last_is_remove lst st l a : rep lst st (l ++ [a]) ->
  remove_last lst st = ('(_, lst', st') ← remove lst st a; Ret (Some a, lst', st')).
Proof.
  intros R. destruct (seg_lookup st None l a [] None (rep_seg _ _ _ R)) as [d Hd]. cbn in Hd.
  unfold remove_last, remove. rewrite (rep_tail _ _ _ R), last_snoc. replace (deref st a) with (Ret (mkNode (last_or None l) None d)) by (unfold deref; by rewrite Hd). cbn [mbind outcome_bind next prev].
  destruct l as [|b l _] using rev_ind.
  - rewrite bool_decide_eq_true_2 by apply R. cbn [last_or last mbind outcome_bind].
    unfold modify, deref. rewrite Hd. cbn [mbind outcome_bind]. rewrite !lookup_insert_eq. cbn [mbind outcome_bind]. by rewrite !insert_insert_eq.
  - rewrite last_or_app. unfold modify. destruct (deref st b) as [nb| |]; [|done..]. cbn [mbind outcome_bind].
    destruct (deref _ a) as [na| |] eqn:Ea; [|done..]. cbn [mbind outcome_bind]. unfold deref.
    rewrite !lookup_insert_eq. cbn [mbind outcome_bind]. by rewrite !insert_insert_eq.
Qed.

Lemma remove_first_ok lst st l : rep lst st l ->
  match l with
  | [] => remove_first lst st = Ret (None, lst, st)
  | a :: l => exists lst' st' d, remove_first lst st = Ret (Some a, lst', st') /\ rep lst' st' l /\ unlinked st' a d
  end.
Proof.
  intros R. destruct l as [|a l]; [unfold remove_first; by rewrite (rep_head _ _ _ R)|].
  rewrite (remove_first_is_remove _ _ _ _ R). destruct (list_remove_ok lst st [] a l R) as (lst' & st' & d & -> & HR & Hu & _).
  by exists lst', st', d.
Qed.

Lemma remove_last_ok lst st l : rep lst st l ->
  match last l with
  | None => remove_last lst st = Ret (None, lst, st)
  | Some a => exists lst' st' d, remove_last lst st = Ret (Some a, lst', st') /\ rep lst' st' (removelast l) /\ unlinked st' a d
  end.
Proof.
  intros R. destruct l as [|a l _] using rev_ind; [unfold remove_last; by rewrite (rep_tail _ _ _ R)|].
  rewrite last_snoc, removelast_last, (remove_last_is_remove _ _ _ _ R).
  destruct (list_remove_ok lst st l a [] R) as (lst' & st' & d & -> & HR & Hu & _). rewrite app_nil_r in HR. by exists lst', st', d.
Qed.

Lemma is_empty_ok lst st l : rep lst st l -> is_empty lst = bool_decide (l = []).
Proof. intros R. unfold is_empty. rewrite (rep_head _ _ _ R). by destruct l. Qed.

Section drained.
Context {S : Type} (func : S -> T -> S * T).

(** What draining does: each node is unlinked and given to the callback, in this order. *)
Fixpoint drained (l : list Z) (s : S) (st : store) : S * store :=
  match l with
  | [] => (s, st)
  | a :: l =>
      match st !! a with
      | Some n => let '(s, d) := func s (data n) in drained l s (<[a := mkNode None None d]> st)
      | None => (s, st)
      end
  end.

Lemma drain_loop_forward fuel l p s st : NoDup l -> seg st p l None -> (length l <= fuel)%nat ->
  drain_loop func true fuel st s (list.head l) = Ret (drained l s st).
Proof.
  revert fuel p s st. induction l as [|a l IH]; intros fuel p s st; [by destruct fuel|].
  intros [Ha Hnd]%NoDup_cons [[d Hd] Hs] Hf. cbn in Hf. destruct fuel as [|fuel]; [lia|]. cbn. unfold deref. rewrite Hd. cbn.
  destruct (func s d) as [s' d']. replace (match l with [] => None | b :: _ => Some b end) with (list.head l) by (by destruct l).
  apply (IH _ (Some a)); [done| |lia]. eapply seg_frame, Hs. intros b Hb. apply lookup_insert_ne. by intros <-.
Qed.

Lemma drain_loop_backward fuel l nx s st : NoDup l -> seg st None l nx -> (length l <= fuel)%nat ->
  drain_loop func false fuel st s (last l) = Ret (drained (reverse l) s st).
Proof.
  revert fuel nx s st. induction l as [|a l IH] using rev_ind; intros fuel nx s st; [by destruct fuel|].
  intros (Hnd & Ha & _)%NoDup_app [Hs [[d Hd] _]]%seg_app Hf. rewrite length_app in Hf. cbn in Hf. destruct fuel as [|fuel]; [lia|].
  rewrite last_snoc, reverse_snoc. cbn. unfold deref. rewrite Hd. cbn. destruct (func s d) as [s' d'].
  replace (last_or None l) with (last l) by (unfold last_or; by destruct (last l)).
  apply (IH _ (Some a)); [done| |lia]. eapply seg_frame, Hs. intros b Hb. apply lookup_insert_ne. intros <-. apply (Ha _ Hb). left.
Qed.

Lemma seg_size st p l nx : NoDup l -> seg st p l nx -> (length l <= size st)%nat.
Proof.
  intros Hnd Hs. rewrite <- (size_dom (D := gset Z) st). rewrite <- (size_list_to_set (C := gset Z) l) by done.
  apply subseteq_size. intros a Ha%elem_of_list_to_set. apply elem_of_dom.
  apply list_elem_of_split in Ha as (l1 & l2 & ->). destruct (seg_lookup _ _ _ _ _ _ Hs) as [d Hd]. by eexists.
Qed.

Lemma drain_ok lst st l s : rep lst st l ->
  drain func lst st s = Ret ((drained l s st).1, new, (drained l s st).2).
Proof.
  intros R. unfold drain. rewrite (rep_head _ _ _ R).
  rewrite (drain_loop_forward _ l None) by (try apply R; eapply seg_size; apply R). cbn. by destruct (drained l s st).
Qed.

Lemma reverse_drain_ok lst st l s : rep lst st l ->
  reverse_drain func lst st s = Ret ((drained (reverse l) s st).1, new, (drained (reverse l) s st).2).
Proof.
  intros R. unfold reverse_drain. rewrite (rep_tail _ _ _ R).
  rewrite (drain_loop_backward _ l None) by (try apply R; eapply seg_size; apply R). cbn. by destruct (drained (reverse l) s st).
Qed.

End drained.

End list.
End LinkedList.
