(* ===== verification/IntrusiveQueue.v ===== *)
(** * The intrusive queue
    (src/src/rust/collections/intrusive/intrusive_queue.rs)

    A FIFO queue of reference-counted elements that are linked through a pointer of their own; a queued
    element keeps the reference it was pushed with as a raw pointer.  The elements' memory is a map from
    addresses to cells with their strong count; using a freed cell is a panic of the model.  A
    program that holds references to elements ([QueueClient]) and pushes none that is already queued
    sees a FIFO queue, and the counts are exact. *)

From S2P Require Import Prelude.

Module IntrusiveQueue.

(** An element behind an [Rc]: its strong count, the pointer of [IntrusivelyQueueable], its data. *)
Record cell (T : Type) := mkCell { strong : Z; queue_next : option Z; payload : T }.
Arguments mkCell {T} strong queue_next payload.
Arguments strong {T} c.
Arguments queue_next {T} c.
Arguments payload {T} c.

Record t := mk { front : option Z; back : option Z; qlen : Z }.

Section queue.
Context {T : Type}.
#[local] Abbreviation mem := (gmap Z (cell T)).

Definition get (m : mem) (p : Z) : outcome (cell T) :=
  match m !! p with
  | Some c => Ret c
  | None => Panic "use after free"
  end.

Definition set_queue_next (m : mem) (p : Z) (element : option Z) : outcome mem :=
  c ← get m p; Ret (<[p := mkCell (strong c) element (payload c)]> m).

Definition get_queue_next (m : mem) (p : Z) : outcome (option Z) :=
  c ← get m p; Ret (queue_next c).

(** [Rc::clone], and the drop of an [Rc], which frees the element with its last reference. *)
Definition rc_clone (m : mem) (p : Z) : outcome mem :=
  c ← get m p; Ret (<[p := mkCell (strong c + 1) (queue_next c) (payload c)]> m).

Definition rc_drop (m : mem) (p : Z) : outcome mem :=
  c ← get m p;
  Ret (if strong c =? 1 then delete p m else <[p := mkCell (strong c - 1) (queue_next c) (payload c)]> m).

Definition new : t := mk None None 0.

Definition is_empty (self : t) : bool :=
  match front self with None => true | Some _ => false end.

Definition len (self : t) : Z := qlen self.

Definition pop_element (self : t) (m : mem) : outcome (option Z * t * mem) :=
  match front self with
  | None => Ret (None, self, m)
  | Some popped =>
      front' ← get_queue_next m popped;
      let back' := match front' with None => None | Some _ => back self end in
      m ← set_queue_next m popped None;
      Ret (Some popped, mk front' back' (wrap64 (qlen self - 1)), m)
  end.

Definition push_element (self : t) (m : mem) (added : Z) : outcome (t * mem) :=
  m ← set_queue_next m added None;
  '(front', m) ←
    match front self with
    | None => Ret (Some added, m)
    | front =>
        match back self with
        | None => Panic "called `Option::unwrap()` on a `None` value"
        | Some old_back => m ← set_queue_next m old_back (Some added); Ret (front, m)
        end
    end;
  Ret (mk front' (Some added) (wrap64 (qlen self + 1)), m).

(** [drop]: pops everything; each popped reference is dropped at once. *)
Fixpoint drop_loop (fuel : nat) (self : t) (m : mem) : outcome (t * mem) :=
  match fuel with
  | O => Diverge
  | S fuel =>
      '(popped, self, m) ← pop_element self m;
      match popped with
      | None => Ret (self, m)
      | Some p => m ← rc_drop m p; drop_loop fuel self m
      end
  end.

(** The number of elements in memory bounds the loop. *)
Definition drop_queue (self : t) (m : mem) : outcome (t * mem) := drop_loop (S (size m)) self m.

(** ** The queue as the list of its elements *)

Fixpoint chain (m : mem) (l : list Z) : Prop :=
  match l with
  | [] => True
  | a :: l => (exists c, m !! a = Some c /\ queue_next c = head l) /\ chain m l
  end.

Record rep (self : t) (m : mem) (l : list Z) : Prop := {
  rp_nodup : NoDup l;
  rp_chain : chain m l;
  rp_front : front self = head l;
  rp_back : back self = last l;
  rp_len : qlen self = wrap64 (blen l)
}.

Lemma chain_frame (m m' : mem) l : (forall a, a ∈ l -> m' !! a = m !! a) -> chain m l -> chain m' l.
Proof.
  induction l as [|a l IH]; intros Hf H; [done|]. destruct H as [(c & Hc & Hn) H]. split.
  - exists c. rewrite Hf by (by left). done.
  - apply IH; [|done]. intros x Hx. apply Hf. by right.
Qed.

Lemma chain_snoc (m : mem) l a c :
  a ∉ l -> m !! a = Some c -> queue_next c = None -> chain m l -> NoDup l ->
  match last l with
  | None => chain m (l ++ [a])
  | Some b => exists cb, m !! b = Some cb /\
      chain (<[b := mkCell (strong cb) (Some a) (payload cb)]> m) (l ++ [a])
  end.
Proof.
  intros Ha Hc Hn. induction l as [|b l IH]; intros H Hd.
  { simpl. split; [|done]. exists c. done. }
  destruct H as [(cb & Hb & Hnb) H]. apply not_elem_of_cons in Ha as [Hab Ha]. apply NoDup_cons in Hd as [Hbl Hd].
  specialize (IH Ha H Hd). destruct l as [|b' l].
  - simpl. exists cb. split; [done|]. split.
    + eexists. rewrite lookup_insert_eq. done.
    + split; [|done]. exists c. by rewrite lookup_insert_ne by done.
  - change (last (b :: b' :: l)) with (last (b' :: l)). destruct (last (b' :: l)) as [z|] eqn:El.
    + destruct IH as (cz & Hz & Hch). exists cz. split; [done|].
      assert (Hzl : z ∈ b' :: l) by (by apply last_Some_elem_of).
      split; [|exact Hch]. exists cb. rewrite lookup_insert_ne by (intros ->; done). done.
    + apply last_None in El. done.
Qed.

(** What linking leaves alone. *)
Definition view (m : mem) : gmap Z (Z * T) := (fun c => (strong c, payload c)) <$> m.

Lemma set_next_ok (m : mem) a c v :
  m !! a = Some c ->
  set_queue_next m a v = Ret (<[a := mkCell (strong c) v (payload c)]> m) /\
  view (<[a := mkCell (strong c) v (payload c)]> m) = view m.
Proof.
  intros Ha. unfold set_queue_next, get. rewrite Ha. split; [done|]. unfold view. rewrite fmap_insert. cbn.
  apply insert_id. by rewrite lookup_fmap, Ha.
Qed.

Lemma chain_lookup (m : mem) l a : chain m l -> a ∈ l -> exists c, m !! a = Some c.
Proof.
  induction l as [|b l IH]; intros H Hin; [by apply not_elem_of_nil in Hin|].
  destruct H as [(c & Hc & _) H]. apply elem_of_cons in Hin as [->|Hin]; [by exists c|by apply IH].
Qed.

Lemma push_rep self m l a c :
  rep self m l -> m !! a = Some c -> a ∉ l ->
  exists self' m', push_element self m a = Ret (self', m') /\ rep self' m' (l ++ [a]) /\ view m' = view m /\
    forall x, x ∉ l ++ [a] -> m' !! x = m !! x.
Proof.
  intros [] Ha Hal. unfold push_element. destruct (set_next_ok m a c None Ha) as [-> Hv]. cbn [mbind outcome_bind].
  set (m1 := <[a := mkCell (strong c) None (payload c)]> m) in *.
  assert (Ha1 : m1 !! a = Some (mkCell (strong c) None (payload c))) by (by apply lookup_insert_eq).
  assert (Hch : chain m1 l).
  { apply (chain_frame m); [|done]. intros x Hx. apply lookup_insert_ne. by intros ->. }
  assert (Hx1 : forall x, x ∉ l ++ [a] -> m1 !! x = m !! x).
  { intros x Hx. apply lookup_insert_ne. intros ->. apply Hx, elem_of_app. right. by left. }
  pose proof (chain_snoc m1 l a _ Hal Ha1 eq_refl Hch rp_nodup0) as Hs. rewrite rp_front0, rp_back0, rp_len0.
  assert (Hnd : NoDup (l ++ [a])) by (by apply NoDup_app; repeat split; [done| |apply NoDup_singleton];
    intros x Hx ->%list_elem_of_singleton).
  assert (Hrep : forall f m2, f = head (l ++ [a]) -> chain m2 (l ++ [a]) ->
    rep (mk f (Some a) (wrap64 (wrap64 (blen l) + 1))) m2 (l ++ [a])).
  { intros f m2 -> H2. constructor; try done; cbn; [by rewrite last_snoc|].
    rewrite blen_app. change (blen [a]) with 1. unfold wrap64. by rewrite Zplus_mod_idemp_l. }
  destruct l as [|b l].
  - cbn. eexists _, _. split; [done|]. split; [by apply Hrep|]. by split.
  - cbn [head]. destruct (last (b :: l)) as [z|] eqn:El; [|by apply last_None in El].
    destruct Hs as (cz & Hz & Hs). destruct (set_next_ok m1 z cz (Some a) Hz) as [-> Hv2].
    cbn [mbind outcome_bind]. eexists _, _. split; [done|]. split; [by apply Hrep|]. split; [congruence|].
    intros x Hx. rewrite lookup_insert_ne; [by apply Hx1|]. intros ->. apply Hx, elem_of_app. left.
    by apply last_Some_elem_of.
Qed.

Lemma pop_rep self m l :
  rep self m l ->
  match l with
  | [] => pop_element self m = Ret (None, self, m)
  | a :: l => exists self' m' c, pop_element self m = Ret (Some a, self', m') /\ rep self' m' l /\ view m' = view m /\
      m' !! a = Some c /\ queue_next c = None /\ forall x, x <> a -> m' !! x = m !! x
  end.
Proof.
  intros []. unfold pop_element. rewrite rp_front0. destruct l as [|a l]; [done|]. cbn [head].
  destruct rp_chain0 as [(c & Hc & Hn) Hch]. apply NoDup_cons in rp_nodup0 as [Hal Hd].
  unfold get_queue_next, get. rewrite Hc. cbn [mbind outcome_bind].
  destruct (set_next_ok m a c None Hc) as [-> Hv]. cbn [mbind outcome_bind].
  eexists _, _, _. split; [done|]. split; [|split; [done|split; [by apply lookup_insert_eq|split; [done|]]]].
  - constructor; cbn; try done.
    + apply (chain_frame m); [|done]. intros x Hx. apply lookup_insert_ne. by intros ->.
    + rewrite Hn, rp_back0. destruct l as [|b l]; [done|]. done.
    + rewrite rp_len0, blen_cons. unfold wrap64. rewrite Zminus_mod_idemp_l. f_equal. lia.
  - intros x Hx. by apply lookup_insert_ne.
Qed.

End queue.

End IntrusiveQueue.

(** ** A program that uses the queue *)

Module QueueClient.
Import IntrusiveQueue.

Section client.
Context {T : Type}.

(** The program holds references ([held], one entry for each [Rc] it owns) and one queue. *)
Record state := mkState { queue : t; memory : gmap Z (cell T); held : list Z }.

Inductive op :=
| New (a : Z) (d : T)
| CloneRc (a : Z)
| DropRc (a : Z)
| Push (a : Z)
| Pop
| DropQueue.

Fixpoint remove1 (a : Z) (l : list Z) : list Z :=
  match l with
  | [] => []
  | x :: l => if decide (x = a) then l else x :: remove1 a l
  end.

(** A call and what it answers: the element popped. *)
Definition exec (o : op) (s : state) : outcome (option Z * state) :=
  match o with
  | New a d => Ret (None, mkState (queue s) (<[a := mkCell 1 None d]> (memory s)) (a :: held s))
  | CloneRc a => m ← rc_clone (memory s) a; Ret (None, mkState (queue s) m (a :: held s))
  | DropRc a => m ← rc_drop (memory s) a; Ret (None, mkState (queue s) m (remove1 a (held s)))
  | Push a =>
      '(q, m) ← push_element (queue s) (memory s) a;
      Ret (None, mkState q m (remove1 a (held s)))
  | Pop =>
      '(r, q, m) ← pop_element (queue s) (memory s);
      Ret (r, mkState q m (match r with Some a => a :: held s | None => held s end))
  | DropQueue =>
      '(_, m) ← drop_queue (queue s) (memory s);
      Ret (None, mkState new m (held s))
  end.

(** The queue it stands for. *)
Definition spec (o : op) (l : list Z) : option Z * list Z :=
  match o with
  | Push a => (None, l ++ [a])
  | Pop => (head l, tail l)
  | DropQueue => (None, [])
  | _ => (None, l)
  end.

(** What ownership allows, and the queue's own condition: an element is in it once. *)
Definition allowed (o : op) (s : state) (l : list Z) : Prop :=
  match o with
  | New a _ => memory s !! a = None
  | CloneRc a | DropRc a => a ∈ held s
  | Push a => a ∈ held s /\ a ∉ l
  | Pop | DropQueue => True
  end.

Definition cnt (a : Z) (l : list Z) : Z := Z.of_nat (count_occ Z.eq_dec l a).

(** The strong count of an element is the number of references the program and the queue hold, and
    it is freed exactly when there is none. *)
Definition counted (m : gmap Z (cell T)) (l held : list Z) : Prop :=
  forall a, match m !! a with
            | Some c => strong c = cnt a held + cnt a l /\ 0 < strong c /\ (a ∉ l -> queue_next c = None)
            | None => a ∉ held /\ a ∉ l
            end.

Definition refines (s : state) (l : list Z) : Prop :=
  rep (queue s) (memory s) l /\ counted (memory s) l (held s).

Lemma cnt_elem a l : a ∈ l <-> 0 < cnt a l.
Proof. unfold cnt. rewrite list_elem_of_In, (count_occ_In Z.eq_dec). lia. Qed.

Lemma cnt_cons a x l : cnt a (x :: l) = (if decide (a = x) then 1 else 0) + cnt a l.
Proof. unfold cnt. cbn. destruct (Z.eq_dec x a), (decide (a = x)); try congruence; lia. Qed.

Lemma refs_app a l k : cnt a (l ++ k) = cnt a l + cnt a k.
Proof. unfold cnt. rewrite count_occ_app. lia. Qed.

Lemma cnt_nonneg a l : 0 <= cnt a l.
Proof. unfold cnt. lia. Qed.

Lemma cnt_remove1 a x l : x ∈ l -> cnt a (remove1 x l) = cnt a l - (if decide (a = x) then 1 else 0).
Proof.
  induction l as [|y l IH]; intros Hx; [by apply not_elem_of_nil in Hx|]. cbn [remove1].
  destruct (decide (y = x)) as [->|Hne].
  - rewrite cnt_cons. case_decide; lia.
  - apply elem_of_cons in Hx as [->|Hx]; [done|]. rewrite !cnt_cons, (IH Hx). lia.
Qed.

Lemma counted_view (m m' : gmap Z (cell T)) l held :
  view m' = view m -> counted m l held ->
  (forall a c, m' !! a = Some c -> a ∉ l -> queue_next c = None) -> counted m' l held.
Proof.
  intros Hv H Hn a. specialize (H a). pose proof (f_equal (lookup a) Hv) as Ha. unfold view in Ha.
  rewrite !lookup_fmap in Ha. specialize (Hn a).
  destruct (m' !! a) as [c'|], (m !! a) as [c|]; try done. cbn in Ha. injection Ha as E _. rewrite E.
  destruct H as (H1 & H2 & _). auto.
Qed.

Lemma not_mem_cnt a l : a ∉ l <-> cnt a l = 0.
Proof. rewrite cnt_elem. pose proof (cnt_nonneg a l). lia. Qed.

(** Changing who holds which reference, with the counts unchanged. *)
Lemma counted_move (m : gmap Z (cell T)) l held l' held' :
  (forall a, cnt a held' + cnt a l' = cnt a held + cnt a l) ->
  (forall a c, m !! a = Some c -> a ∉ l' -> queue_next c = None) -> counted m l held -> counted m l' held'.
Proof.
  intros Hc Hn H a. specialize (H a). specialize (Hc a). specialize (Hn a).
  pose proof (cnt_nonneg a l). pose proof (cnt_nonneg a held).
  pose proof (cnt_nonneg a l'). pose proof (cnt_nonneg a held').
  destruct (m !! a) as [c|].
  - rewrite Hc. destruct H as (Hs1 & Hs2 & _). auto.
  - rewrite !not_mem_cnt in *. lia.
Qed.

(** One reference of the program goes. *)
Lemma rc_drop_ok (m : gmap Z (cell T)) l held held' a :
  counted m l held -> (forall x, cnt x held' = cnt x held - (if decide (x = a) then 1 else 0)) -> a ∈ held ->
  exists m', rc_drop m a = Ret m' /\ counted m' l held' /\
    forall x, x <> a \/ x ∈ l -> queue_next <$> m' !! x = queue_next <$> m !! x.
Proof.
  intros H Hc Ha. pose proof (H a) as Hx. unfold rc_drop, get. destruct (m !! a) as [c|] eqn:E; [|by destruct Hx].
  destruct Hx as (H1 & H2 & H3). cbn [mbind outcome_bind]. eexists. split; [done|].
  pose proof (proj1 (cnt_elem a held) Ha). pose proof (cnt_nonneg a l). split.
  - intros x. specialize (H x). specialize (Hc x). destruct (decide (x = a)) as [->|Hne].
    + rewrite E in H. destruct (Z.eqb_spec (strong c) 1).
      * rewrite lookup_delete_eq, !not_mem_cnt. lia.
      * rewrite lookup_insert_eq. cbn. split; [lia|]. split; [lia|done].
    + rewrite Z.sub_0_r in Hc. destruct (strong c =? 1);
        rewrite ?lookup_delete_ne, ?lookup_insert_ne by done; destruct (m !! x); rewrite ?Hc; try done;
        (split; [|by destruct H]); apply not_mem_cnt; rewrite Hc; apply not_mem_cnt; by destruct H.
  - intros x Hx. destruct (decide (x = a)) as [->|Hne].
    + destruct Hx as [|Hx%cnt_elem]; [done|]. rewrite (proj2 (Z.eqb_neq _ _)) by lia.
      by rewrite lookup_insert_eq, E.
    + destruct (strong c =? 1); by rewrite ?lookup_delete_ne, ?lookup_insert_ne by done.
Qed.

Lemma chain_view (m m' : gmap Z (cell T)) l :
  (forall x, x ∈ l -> queue_next <$> m' !! x = queue_next <$> m !! x) -> chain m l -> chain m' l.
Proof.
  induction l as [|a l IH]; intros Hf H; [done|]. destruct H as [(c & Hc & Hn) H]. split.
  - specialize (Hf a ltac:(by left)). rewrite Hc in Hf. destruct (m' !! a) as [c'|]; [|done].
    injection Hf as Hf. exists c'. by rewrite Hf.
  - apply IH; [|done]. intros x Hx. apply Hf. by right.
Qed.

Lemma rep_next q (m m' : gmap Z (cell T)) l :
  (forall x, x ∈ l -> queue_next <$> m' !! x = queue_next <$> m !! x) -> rep q m l -> rep q m' l.
Proof. intros Hf []. constructor; try done. by apply (chain_view m). Qed.

(** The first element's reference moves from the queue to the program. *)
Lemma pop_counted q (m : gmap Z (cell T)) a l held :
  rep q m (a :: l) -> counted m (a :: l) held ->
  exists q' m', pop_element q m = Ret (Some a, q', m') /\ rep q' m' l /\ counted m' l (a :: held) /\
    dom m' = dom m.
Proof.
  intros HR HC. destruct (pop_rep q m _ HR) as (q' & m' & c & -> & HR' & Hv & Hc & Hn & Hx).
  exists q', m'. split; [done|]. split; [done|]. split.
  - apply (counted_move m' (a :: l) held).
    + intros x. rewrite !cnt_cons. lia.
    + intros x cx Hcx Hxl. destruct (decide (x = a)) as [->|Hne]; [congruence|].
      rewrite Hx in Hcx by done. specialize (HC x). rewrite Hcx in HC. apply HC.
      by apply not_elem_of_cons.
    + apply (counted_view m m'); [done|done|]. intros x cx Hcx [Hne Hxl]%not_elem_of_cons.
      rewrite Hx in Hcx by done. specialize (HC x). rewrite Hcx in HC. apply HC. by apply not_elem_of_cons.
  - apply (f_equal dom) in Hv. unfold view in Hv. by rewrite !dom_fmap_L in Hv.
Qed.

Lemma drop_loop_ok fuel q (m : gmap Z (cell T)) l held :
  (length l < fuel)%nat -> rep q m l -> counted m l held ->
  exists q' m', drop_loop fuel q m = Ret (q', m') /\ counted m' [] held.
Proof.
  revert q m l. induction fuel as [|fuel IH]; intros q m l Hf HR HC; [lia|]. cbn [drop_loop].
  destruct l as [|a l].
  - pose proof (pop_rep q m _ HR) as ->. cbn. by exists q, m.
  - destruct (pop_counted q m a l held HR HC) as (q1 & m1 & -> & HR1 & HC1 & _). cbn [mbind outcome_bind].
    destruct (rc_drop_ok m1 l (a :: held) held a HC1) as (m2 & -> & HC2 & Hn); [|by left|].
    { intros x. rewrite cnt_cons. lia. }
    cbn [mbind outcome_bind]. apply (IH q1 m2 l); [cbn in Hf; lia| |done].
    apply (rep_next q1 m1); [|done]. intros x Hx. apply Hn. by right.
Qed.

Lemma chain_size (m : gmap Z (cell T)) l : NoDup l -> chain m l -> (length l <= size m)%nat.
Proof.
  intros Hd Hch. rewrite <- (size_list_to_set (C := gset Z) l Hd), <- size_dom.
  apply subseteq_size. intros x Hx%elem_of_list_to_set. apply elem_of_dom.
  destruct (chain_lookup m l x Hch Hx) as [c Hc]. by exists c.
Qed.

Lemma queue_rep_new (m : gmap Z (cell T)) : rep new m [].
Proof. constructor; try done. apply NoDup_nil_2. Qed.

(** One call. *)
Lemma exec_refines o s l :
  refines s l -> allowed o s l ->
  exists s', exec o s = Ret (fst (spec o l), s') /\ refines s' (snd (spec o l)).
Proof.
  intros [HR HC] Ho. destruct s as [q m h]. cbn [queue memory held] in *.
  destruct o as [a d|a|a|a| |]; cbn [exec spec fst snd allowed queue memory held] in *.
  - eexists. split; [done|]. pose proof (HC a) as Ha. rewrite Ho in Ha. destruct Ha as [Hh Hl]. split; cbn.
    + apply (rep_next q m); [|done]. intros x Hx. rewrite lookup_insert_ne; [done|]. by intros ->.
    + intros x. destruct (decide (x = a)) as [->|Hne].
      * rewrite lookup_insert_eq. cbn. rewrite cnt_cons, decide_True by done.
        rewrite not_mem_cnt in Hh, Hl. split; [lia|split; [lia|done]].
      * rewrite lookup_insert_ne by done. specialize (HC x). rewrite cnt_cons, decide_False by done.
        destruct (m !! x); [done|]. rewrite not_elem_of_cons. by destruct HC.
  - pose proof (HC a) as Ha. unfold rc_clone, get. destruct (m !! a) as [c|] eqn:E; [|by destruct Ha].
    cbn. eexists. split; [done|]. split; cbn.
    + apply (rep_next q m); [|done]. intros x Hx. destruct (decide (x = a)) as [->|Hne].
      * by rewrite lookup_insert_eq, E.
      * by rewrite lookup_insert_ne by done.
    + intros x. rewrite cnt_cons. destruct (decide (x = a)) as [->|Hne].
      * rewrite lookup_insert_eq. cbn. destruct Ha as (H1 & H2 & H3). split; [lia|split; [lia|done]].
      * rewrite lookup_insert_ne by done. specialize (HC x). destruct (m !! x); [done|].
        rewrite not_elem_of_cons. by destruct HC.
  - destruct (rc_drop_ok m l h (remove1 a h) a HC) as (m' & -> & HC' & Hn); [by intros; apply cnt_remove1|done|].
    cbn. eexists. split; [done|]. split; [|done]. apply (rep_next q m); [|done]. intros x Hx. apply Hn. by right.
  - destruct Ho as [Hh Hl]. pose proof (HC a) as Ha. destruct (m !! a) as [c|] eqn:E; [|by destruct Ha].
    destruct (push_rep q m l a c HR E Hl) as (q' & m' & -> & HR' & Hv & Hx). cbn. eexists. split; [done|].
    assert (Hout : forall x cx, m !! x = Some cx -> x ∉ l ++ [a] -> queue_next cx = None).
    { intros x cx Hcx Hxl. specialize (HC x). rewrite Hcx in HC. apply HC. intros Hin. apply Hxl, elem_of_app. by left. }
    split; [done|]. cbn [held memory]. apply (counted_view m m'); [done| |].
    + apply (counted_move m l h); [|done|done]. intros x. rewrite refs_app, cnt_remove1, cnt_cons by done.
      change (cnt x []) with 0. lia.
    + intros x cx Hcx Hxl. rewrite Hx in Hcx by done. by eapply Hout.
  - destruct l as [|a l].
    + pose proof (pop_rep q m _ HR) as ->. cbn. eexists. split; [done|]. by split.
    + destruct (pop_counted q m a l h HR HC) as (q' & m' & -> & HR' & HC' & _). cbn. eexists. split; [done|]. by split.
  - destruct (drop_loop_ok (Datatypes.S (size m)) q m l h) as (q' & m' & E & HC'); [|done|done|].
    { pose proof (chain_size m l (rp_nodup _ _ _ HR) (rp_chain _ _ _ HR)). lia. }
    unfold drop_queue. rewrite E. cbn. eexists. split; [done|]. split; [|done]. apply queue_rep_new.
Qed.

(** ** Sequences of calls *)

Fixpoint exec_all (os : list op) (s : state) : outcome (list (option Z) * state) :=
  match os with
  | [] => Ret ([], s)
  | o :: os => '(r, s) ← exec o s; '(rs, s) ← exec_all os s; Ret (r :: rs, s)
  end.

Fixpoint spec_all (os : list op) (l : list Z) : list (option Z) * list Z :=
  match os with
  | [] => ([], l)
  | o :: os => let '(r, l) := spec o l in let '(rs, l) := spec_all os l in (r :: rs, l)
  end.

Fixpoint allowed_all (os : list op) (s : state) (l : list Z) : Prop :=
  match os with
  | [] => True
  | o :: os => allowed o s l /\ match exec o s with Ret (_, s') => allowed_all os s' (snd (spec o l)) | _ => True end
  end.

Definition start : state := mkState new ∅ [].

Lemma start_refines : refines start [].
Proof. split; [apply queue_rep_new|]. intros a. cbn. split; apply not_elem_of_nil. Qed.

(** Any sequence of allowed calls returns, answers as a FIFO queue, and ends with exact counts: an
    element is in memory exactly while the program or the queue holds it. *)
Theorem intrusive_queue_is_fifo os s l :
  refines s l -> allowed_all os s l ->
  exists s', exec_all os s = Ret (fst (spec_all os l), s') /\ refines s' (snd (spec_all os l)).
Proof.
  revert s l. induction os as [|o os IH]; intros s l HR Hok; [by exists s|]. destruct Hok as [Ho Hok].
  destruct (exec_refines o s l HR Ho) as (s1 & E & HR1). rewrite E in Hok. cbn [exec_all spec_all]. rewrite E.
  destruct (spec o l) as [r l1]. cbn [fst snd mbind outcome_bind] in *.
  destruct (IH s1 l1 HR1 Hok) as (s2 & -> & HR2). destruct (spec_all os l1) as [rs l2]. cbn. by exists s2.
Qed.

End client.

(** The code's own test of first-in first-out order. *)
Example fifo_order :
  ('(answers, _) ← exec_all [New 1 1; New 2 2; New 3 3; Push 1; Push 2; Push 3; Pop; Pop; Pop; Pop] (start (T := Z));
   Ret answers) = Ret [None; None; None; None; None; None; Some 1; Some 2; Some 3; None].
Proof. vm_compute. reflexivity. Qed.

(** An element pushed again while it is queued cuts the queue behind it: the element that followed it
    is lost, with its reference, and the length stays wrong. *)
Example pushed_twice_loses_an_element :
  match exec_all [New 1 1; New 2 2; CloneRc 1; Push 1; Push 2; Push 1; Pop; Pop] (start (T := Z)) with
  | Ret (answers, s) => (drop 6 answers, qlen (queue s), strong <$> memory s !! 2)
  | _ => ([], 0, None)
  end = ([Some 1; None], 2, Some 1).
Proof. vm_compute. reflexivity. Qed.

End QueueClient.
