(* ===== verification/Watched.v ===== *)
(** * Watched values
    (src/src/rust/runtime/watched.rs)

    A value whose changes can be awaited: a future links a node of its own into the value's list of
    waiters when it is first polled, and changing the value drains the list, oldest waiter first,
    and wakes the tasks.  The list of raw pointers is shown to implement a queue of waiting futures:
    every change wakes each of them once, in the order in which they began to wait.  Wakers are
    identified by numbers. *)

From S2P Require Import Prelude LinkedList.

Module Watched.

Inductive WatchState := Unregistered | Registered | Completed (polled : bool).

Record WatchEntry := mkEntry { task : option Z; state : WatchState }.

(** [Completable] names the address of the future's node. *)
Inductive WatchFuture := Completable (wait_node : Z) | Pending.

Section watched.
Context {V : Type}.
Abbreviation node := (LinkedList.ListNode WatchEntry).

(** The value, its waiters, and the nodes of the futures that exist. *)
Record World := mkWorld { value : V; waiters : LinkedList.t; nodes : gmap Z node }.

Definition new (v : V) : World := mkWorld v LinkedList.new ∅.

Definition set_without_notify (w : World) (new_value : V) : World := mkWorld new_value (waiters w) (nodes w).

(** The callback of [modify]: wake the task and complete the entry; the tasks woken are collected. *)
Definition notify (woken : list Z) (e : WatchEntry) : list Z * WatchEntry :=
  (match task e with Some handle => woken ++ [handle] | None => woken end, mkEntry None (Completed false)).

Definition modify (w : World) (f : V -> V) : outcome (list Z * World) :=
  let v := f (value w) in
  '(woken, lst, st) ← LinkedList.reverse_drain notify (waiters w) (nodes w) [];
  Ret (woken, mkWorld v lst st).

Definition set (w : World) (new_value : V) : outcome (list Z * World) := modify w (fun _ => new_value).

Definition get (w : World) : V := value w.

(** The future's node is at the address [a]. *)
Definition watch (w : World) (a : Z) : V * WatchFuture * World :=
  (get w, Completable a, mkWorld (value w) (waiters w) (<[a := LinkedList.new_node (mkEntry None Unregistered)]> (nodes w))).

(** [true] is [Poll::Ready]. *)
Definition poll (w : World) (fut : WatchFuture) (cx : Z) : outcome (bool * World) :=
  match fut with
  | Pending => Ret (false, w)
  | Completable a =>
      n ← LinkedList.deref (nodes w) a;
      let e := LinkedList.data n in
      match state e with
      | Unregistered =>
          let st := <[a := LinkedList.set_data (mkEntry (Some cx) Registered) n]> (nodes w) in
          '(lst, st) ← LinkedList.add_front (waiters w) st a;
          Ret (false, mkWorld (value w) lst st)
      | Registered =>
          let will_wake := match task e with Some t => t =? cx | None => false end in
          Ret (false, if will_wake then w
                      else mkWorld (value w) (waiters w) (<[a := LinkedList.set_data (mkEntry (Some cx) Registered) n]> (nodes w)))
      | Completed _ =>
          Ret (true, mkWorld (value w) (waiters w) (<[a := LinkedList.set_data (mkEntry (task e) (Completed true)) n]> (nodes w)))
      end
  end.

Definition is_terminated (w : World) (fut : WatchFuture) : outcome bool :=
  match fut with
  | Pending => Ret false
  | Completable a =>
      n ← LinkedList.deref (nodes w) a;
      Ret (match state (LinkedList.data n) with Completed true => true | _ => false end)
  end.

(** Dropping a future; its node's memory goes away. *)
Definition drop (w : World) (fut : WatchFuture) : outcome World :=
  match fut with
  | Pending => Ret w
  | Completable a =>
      n ← LinkedList.deref (nodes w) a;
      match state (LinkedList.data n) with
      | Registered =>
          '(removed, lst, st) ← LinkedList.remove (waiters w) (nodes w) a;
          if (removed : bool) then Ret (mkWorld (value w) lst (delete a st))
          else Panic "Future could not be removed from wait queue"
      | _ => Ret (mkWorld (value w) (waiters w) (delete a (nodes w)))
      end
  end.

(** ** Runs *)

Inductive event :=
| Watch (a : Z)
| Poll (a cx : Z)
| Terminated (a : Z)
| Drop (a : Z)
| Set_ (v : V)
| SetWithoutNotify (v : V)
| Modify (f : V -> V)
| Get.

Inductive reply := Done | Value (v : V) | Ready | NotReady | Bool (b : bool) | Woken (tasks : list Z).

(** A future is created at an address that is free, and only existing futures are used. *)
Definition step (w : World) (e : event) : outcome (reply * World) :=
  match e with
  | Watch a => if decide (a ∈ dom (nodes w)) then Ret (Done, w) else let '(v, _, w) := watch w a in Ret (Value v, w)
  | Poll a cx => if decide (a ∈ dom (nodes w)) then '(r, w) ← poll w (Completable a) cx; Ret (if (r : bool) then Ready else NotReady, w) else Ret (Done, w)
  | Terminated a => if decide (a ∈ dom (nodes w)) then b ← is_terminated w (Completable a); Ret (Bool b, w) else Ret (Done, w)
  | Drop a => if decide (a ∈ dom (nodes w)) then w ← drop w (Completable a); Ret (Done, w) else Ret (Done, w)
  | Set_ v => '(ts, w) ← set w v; Ret (Woken ts, w)
  | SetWithoutNotify v => Ret (Done, set_without_notify w v)
  | Modify f => '(ts, w) ← modify w f; Ret (Woken ts, w)
  | Get => Ret (Value (get w), w)
  end.

Fixpoint run (w : World) (es : list event) : outcome (list reply * World) :=
  match es with
  | [] => Ret ([], w)
  | e :: es => '(r, w) ← step w e; '(rs, w) ← run w es; Ret (r :: rs, w)
  end.

(** ** What watching a value means *)

(** A future has not been polled, waits with a task, or has seen a change. *)
Inductive fut := Idle | Waiting (task : Z) | Changed (polled : bool).

(** The waiting futures in the order in which they began to wait. *)
Record Spec := mkSpec { current : V; futs : gmap Z fut; queue : list Z }.

Definition task_of (F : gmap Z fut) (a : Z) : option Z :=
  match F !! a with Some (Waiting t) => Some t | _ => None end.

(** Every waiting future sees the change. *)
Definition changed (f : fut) : fut := match f with Waiting _ => Changed false | f => f end.

Definition spec_change (s : Spec) (v : V) : reply * Spec :=
  (Woken (omap (task_of (futs s)) (queue s)), mkSpec v (changed <$> futs s) []).

Definition spec_step (s : Spec) (e : event) : reply * Spec :=
  match e with
  | Watch a =>
      match futs s !! a with
      | Some _ => (Done, s)
      | None => (Value (current s), mkSpec (current s) (<[a := Idle]> (futs s)) (queue s))
      end
  | Poll a cx =>
      match futs s !! a with
      | None => (Done, s)
      | Some Idle => (NotReady, mkSpec (current s) (<[a := Waiting cx]> (futs s)) (queue s ++ [a]))
      | Some (Waiting _) => (NotReady, mkSpec (current s) (<[a := Waiting cx]> (futs s)) (queue s))
      | Some (Changed _) => (Ready, mkSpec (current s) (<[a := Changed true]> (futs s)) (queue s))
      end
  | Terminated a =>
      (match futs s !! a with None => Done | Some f => Bool (match f with Changed true => true | _ => false end) end, s)
  | Drop a => (Done, mkSpec (current s) (delete a (futs s)) (filter (fun b => b <> a) (queue s)))
  | Set_ v => spec_change s v
  | SetWithoutNotify v => (Done, mkSpec v (futs s) (queue s))
  | Modify f => spec_change s (f (current s))
  | Get => (Value (current s), s)
  end.

Fixpoint spec_run (s : Spec) (es : list event) : list reply * Spec :=
  match es with
  | [] => ([], s)
  | e :: es => let '(r, s) := spec_step s e in let '(rs, s) := spec_run s es in (r :: rs, s)
  end.

(** ** The list of waiters implements the queue *)

Definition entry_of (f : fut) : WatchEntry :=
  match f with
  | Idle => mkEntry None Unregistered
  | Waiting t => mkEntry (Some t) Registered
  | Changed b => mkEntry None (Completed b)
  end.

Definition is_waiting (f : fut) : Prop := match f with Waiting _ => True | _ => False end.

Record sim (w : World) (s : Spec) : Prop := {
  s_value : value w = current s;
  s_nodes : forall a, LinkedList.data <$> nodes w !! a = entry_of <$> futs s !! a;
  s_list : LinkedList.rep (waiters w) (nodes w) (reverse (queue s));
  s_queue : forall a, a ∈ queue s <-> exists f, futs s !! a = Some f /\ is_waiting f;
  s_out : forall a e, a ∉ queue s -> LinkedList.data <$> nodes w !! a = Some e -> LinkedList.unlinked (nodes w) a e;
}.

Lemma sim_node w s a f : sim w s -> futs s !! a = Some f ->
  exists n, nodes w !! a = Some n /\ LinkedList.data n = entry_of f.
Proof.
  intros R Hf. pose proof (s_nodes _ _ R a) as Hn. rewrite Hf in Hn. destruct (nodes w !! a) as [n|]; [|done].
  exists n. split; [done|]. by injection Hn.
Qed.

Lemma sim_dom w s a : sim w s -> a ∈ dom (nodes w) <-> a ∈ dom (futs s).
Proof.
  intros R. rewrite !elem_of_dom. pose proof (s_nodes _ _ R a) as Hn.
  destruct (nodes w !! a), (futs s !! a); (done || by split; eexists).
Qed.

Lemma sim_nodup w s : sim w s -> NoDup (queue s).
Proof. intros R. pose proof (LinkedList.rep_nodup _ _ _ (s_list _ _ R)) as H. by rewrite reverse_Permutation in H. Qed.

(** Draining the waiters wakes their tasks in order and completes their entries. *)
Lemma drained_notify (F : gmap Z fut) q acc st : NoDup q ->
  (forall a, a ∈ q -> exists n t, st !! a = Some n /\ LinkedList.data n = mkEntry (Some t) Registered /\ task_of F a = Some t) ->
  exists st', LinkedList.drained notify q acc st = (acc ++ omap (task_of F) q, st') /\
    forall b, st' !! b = if decide (b ∈ q) then Some (LinkedList.new_node (mkEntry None (Completed false))) else st !! b.
Proof.
  revert acc st. induction q as [|a q IH]; intros acc st Hnd Hq.
  - exists st. cbn. rewrite app_nil_r. split; [done|]. intros b. by rewrite decide_False by apply not_elem_of_nil.
  - apply NoDup_cons in Hnd as [Ha Hnd]. destruct (Hq a) as (n & t & Hn & Hd & Ht); [left|]. cbn. rewrite Hn, Hd. cbn. rewrite Ht.
    destruct (IH (acc ++ [t]) (<[a := LinkedList.new_node (mkEntry None (Completed false))]> st) Hnd) as (st' & Heq & Hst').
    { intros b Hb. rewrite lookup_insert_ne by (by intros <-). apply Hq. by right. }
    exists st'. split; [unfold LinkedList.new_node in Heq; by rewrite Heq, <- app_assoc|]. intros b. rewrite Hst'.
    destruct (decide (b ∈ q)) as [Hb|Hb]; [by rewrite decide_True by (by right)|]. destruct (decide (b = a)) as [->|Hne].
    + rewrite decide_True by left. apply lookup_insert_eq.
    + rewrite decide_False by (by intros [|]%elem_of_cons). by apply lookup_insert_ne.
Qed.

Lemma sim_waiting w s a : sim w s -> a ∈ queue s ->
  exists n t, nodes w !! a = Some n /\ LinkedList.data n = mkEntry (Some t) Registered /\ task_of (futs s) a = Some t /\ futs s !! a = Some (Waiting t).
Proof.
  intros R Ha. apply R in Ha as ([|t|] & Hf & Hw); try done. destruct (sim_node _ _ _ _ R Hf) as (n & Hn & Hd).
  exists n, t. split_and!; try done. unfold task_of. by rewrite Hf.
Qed.

Lemma modify_sim w s f : sim w s ->
  exists ts w', modify w f = Ret (ts, w') /\ (Woken ts, mkSpec (f (value w)) (changed <$> futs s) []) = spec_change s (f (value w)) /\
    sim w' (mkSpec (f (value w)) (changed <$> futs s) []).
Proof.
  intros R. unfold modify. rewrite (LinkedList.reverse_drain_ok _ _ _ _ _ (s_list _ _ R)), reverse_involutive.
  destruct (drained_notify (futs s) (queue s) [] (nodes w)) as (st' & Heq & Hst'); [by eapply sim_nodup| |].
  { intros a Ha. destruct (sim_waiting _ _ _ R Ha) as (n & t & ? & ? & ? & _). by exists n, t. }
  rewrite Heq. cbn. do 2 eexists. split; [done|]. split; [done|]. split; cbn [value waiters nodes current futs queue]; [done| | | |].
  - intros a. rewrite Hst', lookup_fmap. destruct (decide (a ∈ queue s)) as [Ha|Ha].
    + destruct (sim_waiting _ _ _ R Ha) as (n & t & _ & _ & _ & ->). done.
    + rewrite (s_nodes _ _ R). destruct (futs s !! a) as [[|t|]|] eqn:Hf; try done. exfalso. apply Ha, R. by exists (Waiting t).
  - apply LinkedList.rep_new.
  - intros a. split; [by intros ?%not_elem_of_nil|]. intros (g & Hg & Hw). rewrite lookup_fmap in Hg.
    destruct (futs s !! a) as [[]|]; naive_solver.
  - intros a e _. rewrite Hst'. unfold LinkedList.unlinked. rewrite Hst'. destruct (decide (a ∈ queue s)) as [Ha|Ha].
    + intros [= <-]. done.
    + intros He. by apply R.
Qed.

(** A poll that only changes the future's own entry. *)
Lemma update_sim w s a n f g : sim w s -> futs s !! a = Some f -> nodes w !! a = Some n -> is_waiting f <-> is_waiting g ->
  sim (mkWorld (value w) (waiters w) (<[a := LinkedList.set_data (entry_of g) n]> (nodes w))) (mkSpec (current s) (<[a := g]> (futs s)) (queue s)).
Proof.
  intros R Hf Hn Hw. split; cbn [value waiters nodes current futs queue]; [apply R| | | |].
  - intros b. destruct (decide (b = a)) as [->|]; [by rewrite !lookup_insert_eq|]. rewrite !lookup_insert_ne by done. apply R.
  - apply LinkedList.rep_set_data; [done|apply R].
  - intros b. rewrite (s_queue _ _ R). destruct (decide (b = a)) as [->|]; [|by rewrite lookup_insert_ne].
    rewrite lookup_insert_eq, Hf. naive_solver.
  - intros b e Hb. unfold LinkedList.unlinked. destruct (decide (b = a)) as [->|]; [|rewrite !lookup_insert_ne by done; by apply R].
    rewrite lookup_insert_eq. cbn. intros [= <-]. do 2 f_equal.
    pose proof (s_out _ _ R a (LinkedList.data n) Hb ltac:(by rewrite Hn)) as Hu. unfold LinkedList.unlinked in Hu. rewrite Hn in Hu.
    injection Hu as ->. done.
Qed.

(** The first poll puts the future at the end of the queue. *)
Lemma register_sim w s a n cx : sim w s -> futs s !! a = Some Idle -> nodes w !! a = Some n ->
  exists lst st, LinkedList.add_front (waiters w) (<[a := LinkedList.set_data (mkEntry (Some cx) Registered) n]> (nodes w)) a = Ret (lst, st) /\
    sim (mkWorld (value w) lst st) (mkSpec (current s) (<[a := Waiting cx]> (futs s)) (queue s ++ [a])).
Proof.
  intros R Hf Hn. assert (Ha : a ∉ queue s) by (intros (f & Hf' & Hw)%R; naive_solver).
  assert (Har : a ∉ reverse (queue s)) by (by rewrite elem_of_reverse).
  destruct (LinkedList.add_front_ok (waiters w) (<[a := LinkedList.set_data (mkEntry (Some cx) Registered) n]> (nodes w)) (reverse (queue s)) a
    (LinkedList.set_data (mkEntry (Some cx) Registered) n)) as (lst & st & -> & Hrep & Hout & Hdata);
    [apply LinkedList.rep_set_data; [done|apply R]|apply lookup_insert_eq|done|].
  exists lst, st. split; [done|]. split; cbn [value waiters nodes current futs queue]; [apply R| | | |].
  - intros b. rewrite Hdata. destruct (decide (b = a)) as [->|]; [by rewrite !lookup_insert_eq|]. rewrite !lookup_insert_ne by done. apply R.
  - by rewrite reverse_snoc.
  - intros b. rewrite elem_of_app, list_elem_of_singleton, (s_queue _ _ R). destruct (decide (b = a)) as [->|].
    + rewrite lookup_insert_eq. split; [intros _; by eexists|by right].
    + rewrite lookup_insert_ne by done. split; [by intros [|]|by left].
  - intros b e [Hb Hne]%not_elem_of_app. rewrite list_elem_of_singleton in Hne. intros He. unfold LinkedList.unlinked.
    assert (Hsame : st !! b = nodes w !! b) by (rewrite Hout; [by apply lookup_insert_ne|by rewrite elem_of_cons, elem_of_reverse; intros [|]]).
    rewrite Hsame in *. by apply R.
Qed.

Lemma watched_poll_sim w s a f cx : sim w s -> futs s !! a = Some f ->
  exists b w', poll w (Completable a) cx = Ret (b, w') /\ ((if b then Ready else NotReady) = (spec_step s (Poll a cx)).1) /\
    sim w' (spec_step s (Poll a cx)).2.
Proof.
  intros R Hf. destruct (sim_node _ _ _ _ R Hf) as (n & Hn & Hd). cbn. unfold LinkedList.deref. rewrite Hn, Hf. cbn. rewrite Hd.
  destruct f as [|t|b]; cbn.
  - destruct (register_sim w s a n cx R Hf Hn) as (lst & st & -> & Hs). cbn. by do 2 eexists.
  - do 2 eexists. split; [done|]. split; [done|]. destruct (Z.eqb_spec t cx) as [->|].
    + rewrite insert_id by done. by destruct s.
    + by eapply (update_sim w s a n (Waiting t) (Waiting cx)).
  - do 2 eexists. split; [done|]. split; [done|]. by eapply (update_sim w s a n (Changed b) (Changed true)).
Qed.

Lemma delete_sim w s a lst st : sim w s -> LinkedList.rep lst st (reverse (filter (fun b => b <> a) (queue s))) ->
  (forall b, b <> a -> LinkedList.data <$> st !! b = LinkedList.data <$> nodes w !! b) ->
  (forall b, b ∉ queue s -> st !! b = nodes w !! b) ->
  sim (mkWorld (value w) lst (delete a st)) (mkSpec (current s) (delete a (futs s)) (filter (fun b => b <> a) (queue s))).
Proof.
  intros R Hrep Hdata Hout. split; cbn [value waiters nodes current futs queue]; [apply R| | | |].
  - intros b. destruct (decide (b = a)) as [->|]; [by rewrite !lookup_delete_eq|]. rewrite !lookup_delete_ne, Hdata by done. apply R.
  - eapply LinkedList.rep_frame, Hrep. intros b [Hne _]%elem_of_reverse%list_elem_of_filter. by apply lookup_delete_ne.
  - intros b. rewrite list_elem_of_filter, (s_queue _ _ R). destruct (decide (b = a)) as [->|]; [rewrite lookup_delete_eq; naive_solver|].
    rewrite lookup_delete_ne by done. naive_solver.
  - intros b e Hb He. unfold LinkedList.unlinked. destruct (decide (b = a)) as [->|Hne]; [by rewrite lookup_delete_eq in He|].
    rewrite lookup_delete_ne in * by done. assert (Hbq : b ∉ queue s) by (intros Hin; apply Hb, list_elem_of_filter; done).
    rewrite (Hout b Hbq) in *. by apply R.
Qed.

Lemma filter_absent (a : Z) (q : list Z) : a ∉ q -> filter (fun b => b <> a) q = q.
Proof.
  induction q as [|b q IH]; [done|]. intros [Hne Hni]%not_elem_of_cons. rewrite filter_cons_True by congruence. by rewrite IH.
Qed.

Lemma watched_drop_sim w s a f : sim w s -> futs s !! a = Some f ->
  exists w', drop w (Completable a) = Ret w' /\ sim w' (spec_step s (Drop a)).2.
Proof.
  intros R Hf. destruct (sim_node _ _ _ _ R Hf) as (n & Hn & Hd). cbn. unfold LinkedList.deref. rewrite Hn. cbn. rewrite Hd.
  assert (Hplain : a ∉ queue s -> sim (mkWorld (value w) (waiters w) (delete a (nodes w))) (mkSpec (current s) (delete a (futs s)) (filter (fun b => b <> a) (queue s)))).
  { intros Ha. apply delete_sim; try done. rewrite filter_absent by done. apply R. }
  destruct f as [|t|b]; cbn; [eexists; split; [done|]; apply Hplain; intros (g & Hg & Hw)%R; naive_solver| |
    eexists; split; [done|]; apply Hplain; intros (g & Hg & Hw)%R; naive_solver].
  assert (Ha : a ∈ queue s) by (apply R; by exists (Waiting t)). pose proof (sim_nodup _ _ R) as Hnd. pose proof (s_list _ _ R) as Hrep.
  apply list_elem_of_split in Ha as (q1 & q2 & Hq). rewrite Hq in Hrep, Hnd. rewrite reverse_app, reverse_cons, <- app_assoc in Hrep. cbn [app] in Hrep.
  destruct (LinkedList.list_remove_ok _ _ _ _ _ Hrep) as (lst & st & d & -> & Hrep' & _ & Hout & Hdata). cbn. eexists. split; [done|].
  apply NoDup_app in Hnd as (_ & Hd1 & [Ha2 _]%NoDup_cons).
  assert (Hfil : filter (fun b => b <> a) (queue s) = q1 ++ q2).
  { rewrite Hq, filter_app, filter_cons_False by (by intros []). rewrite !filter_absent; [done|done|]. intros Hin. apply (Hd1 _ Hin). left. }
  apply delete_sim; [done|by rewrite Hfil, reverse_app|done|]. intros b Hb. apply Hout. rewrite Hq in Hb. intros Hin. apply Hb.
  rewrite elem_of_app, elem_of_cons, !elem_of_reverse in Hin. rewrite elem_of_app, elem_of_cons. tauto.
Qed.

Lemma watch_sim w s a : sim w s -> futs s !! a = None -> sim (watch w a).2 (mkSpec (current s) (<[a := Idle]> (futs s)) (queue s)).
Proof.
  intros R Hf. assert (Ha : a ∉ queue s) by (intros (f & Hf' & _)%R; naive_solver). unfold watch. split; cbn [snd value waiters nodes current futs queue]; [apply R| | | |].
  - intros b. destruct (decide (b = a)) as [->|]; [by rewrite !lookup_insert_eq|]. rewrite !lookup_insert_ne by done. apply R.
  - eapply LinkedList.rep_frame; [|apply R]. intros b. rewrite elem_of_reverse. intros Hb. apply lookup_insert_ne. by intros <-.
  - intros b. rewrite (s_queue _ _ R). destruct (decide (b = a)) as [->|]; [|by rewrite lookup_insert_ne].
    rewrite lookup_insert_eq, Hf. naive_solver.
  - intros b e Hb. unfold LinkedList.unlinked. destruct (decide (b = a)) as [->|].
    + rewrite lookup_insert_eq. by intros [= <-].
    + rewrite !lookup_insert_ne by done. by apply R.
Qed.

Lemma watched_step_sim w s e : sim w s -> exists w', step w e = Ret ((spec_step s e).1, w') /\ sim w' (spec_step s e).2.
Proof.
  intros R. pose proof (fun a => sim_dom w s a R) as Hdom.
  assert (Hcase : forall a, (exists f, futs s !! a = Some f /\ a ∈ dom (nodes w)) \/ (futs s !! a = None /\ a ∉ dom (nodes w))).
  { intros a. destruct (futs s !! a) as [f|] eqn:E; [left|right].
    - exists f. split; [done|]. apply Hdom, elem_of_dom. by eexists.
    - split; [done|]. rewrite Hdom, elem_of_dom, E. by intros []. }
  destruct e as [a|a cx|a|a|v|v|f|]; cbn [step].
  - cbn [spec_step]. destruct (Hcase a) as [(f & -> & Hin)|[Hf Hni]]; [rewrite decide_True by done; by eexists|].
    rewrite decide_False, Hf by done. cbn. unfold get. rewrite (s_value _ _ R). eexists. split; [done|].
    rewrite <- (s_value _ _ R). pose proof (watch_sim w s a R Hf) as Hs. by rewrite <- (s_value _ _ R) in Hs.
  - destruct (Hcase a) as [(f & Hf & Hin)|[Hf Hni]].
    + rewrite decide_True by done. destruct (watched_poll_sim w s a f cx R Hf) as (b & w' & -> & Hr & Hs). cbn [mbind outcome_bind]. rewrite Hr. by eexists.
    + rewrite decide_False by done. cbn. rewrite Hf. by eexists.
  - cbn [spec_step]. destruct (Hcase a) as [(f & Hf & Hin)|[Hf Hni]]; rewrite Hf.
    + rewrite decide_True by done. destruct (sim_node _ _ _ _ R Hf) as (n & Hn & Hd). cbn. unfold LinkedList.deref. rewrite Hn. cbn. rewrite Hd.
      eexists. split; [|done]. by destruct f as [| |[]].
    + rewrite decide_False by done. by eexists.
  - destruct (Hcase a) as [(f & Hf & Hin)|[Hf Hni]].
    + rewrite decide_True by done. destruct (watched_drop_sim w s a f R Hf) as (w' & -> & Hs). by eexists.
    + rewrite decide_False by done. cbn. eexists. split; [done|]. rewrite delete_id by done.
      rewrite filter_absent by (intros (f & Hf' & _)%R; naive_solver). by destruct s.
  - unfold set. destruct (modify_sim w s (fun _ => v) R) as (ts & w' & -> & Hr & Hs). cbn [mbind outcome_bind spec_step]. rewrite <- Hr. by eexists.
  - eexists. split; [done|]. destruct R. by split.
  - destruct (modify_sim w s f R) as (ts & w' & -> & Hr & Hs). cbn [mbind outcome_bind spec_step]. rewrite <- (s_value _ _ R), <- Hr. by eexists.
  - cbn. unfold get. rewrite (s_value _ _ R). by eexists.
Qed.

(** A watched value wakes every waiter once per change, in order.  For any sequence of new
    futures, polls, drops and changes, the linked list of waiters answers as a queue: a future
    waits from its first poll on, a change wakes the tasks of exactly the waiting futures (the last
    task each was polled with), oldest first, and makes them ready, [set_without_notify] wakes
    nobody, a dropped future leaves the queue wherever it stands, and nothing panics. *)
Theorem watched_value_refines_queue (v : V) (es : list event) :
  exists w, run (new v) es = Ret ((spec_run (mkSpec v ∅ []) es).1, w) /\ value w = current (spec_run (mkSpec v ∅ []) es).2.
Proof.
  assert (R : sim (new v) (mkSpec v ∅ [])).
  { split; cbn; try done; [apply LinkedList.rep_new|]. intros a. split; [by intros ?%not_elem_of_nil|]. by intros (f & Hf & _). }
  revert R. generalize (new v) (mkSpec v ∅ []). induction es as [|e es IH]; intros w s R; cbn [run spec_run].
  - exists w. split; [done|apply R].
  - destruct (watched_step_sim w s e R) as (w' & -> & R'). destruct (spec_step s e) as [r s'] eqn:E. cbn [mbind outcome_bind fst snd] in *.
    destruct (IH w' s' R') as (w2 & -> & Hv). destruct (spec_run s' es) as [rs s2]. cbn. by exists w2.
Qed.

End watched.
Arguments World V : clear implicits.
Arguments event V : clear implicits.
Arguments reply V : clear implicits.
Arguments Spec V : clear implicits.

(** Three futures; the second is dropped, the first was polled again by another task. *)
Example wake_in_order :
  (r ← run (new 0) [Watch 1; Watch 2; Watch 3; Poll 3 7; Poll 2 8; Poll 1 9; Drop 2; Poll 3 6; Modify (Z.add 5);
                    Poll 3 6; Poll 1 9; Get; Set_ 0]; Ret r.1) =
  Ret [Value 0; Value 0; Value 0; NotReady; NotReady; NotReady; Done; NotReady; Woken [6; 9]; Ready; Ready; Value 5; Woken []].
Proof. vm_compute. reflexivity. Qed.

(** A future that has not been polled yet does not see a change made after it was created. *)
Example unpolled_future_misses_change :
  (r ← run (new 0) [Watch 1; Set_ 1; Poll 1 7]; Ret r.1) = Ret [Value 0; Woken []; NotReady].
Proof. vm_compute. reflexivity. Qed.

End Watched.
