(* ===== verification/SeqNumber.v ===== *)
(** * TCP sequence numbers (src/src/rust/inetstack/protocols/tcp/sequence_number.rs)

    Sequence numbers are 32-bit values whose arithmetic wraps and whose order is the sign
    of the wrapped difference.  The file models the operations and relates the machine
    comparisons to the order of the unbounded stream positions they stand for. *)

From S2P Require Import Prelude.

Module Seq.

(** [struct SeqNumber { value: u32 }]; [From<u32>] and [Into<u32>] are the identity. *)
Abbreviation SeqNumber := Z.

Definition add (self other : SeqNumber) : SeqNumber := wrap32 (self + other).
Definition sub (self other : SeqNumber) : SeqNumber := wrap32 (self - other).

Definition lt (self other : SeqNumber) : bool := as_i32 (wrap32 (self - other)) <? 0.
Definition le (self other : SeqNumber) : bool := as_i32 (wrap32 (self - other)) <=? 0.
Definition gt (self other : SeqNumber) : bool := 0 <? as_i32 (wrap32 (self - other)).
Definition ge (self other : SeqNumber) : bool := 0 <=? as_i32 (wrap32 (self - other)).

End Seq.

Declare Scope seq_scope.
Delimit Scope seq_scope with seq.
Infix "⊕" := Seq.add (at level 50, left associativity) : seq_scope.
Infix "⊖" := Seq.sub (at level 50, left associativity) : seq_scope.
Infix "<ₛ" := Seq.lt (at level 70, no associativity) : seq_scope.
Infix "≤ₛ" := Seq.le (at level 70, no associativity) : seq_scope.
Infix ">ₛ" := Seq.gt (at level 70, no associativity) : seq_scope.
Infix "≥ₛ" := Seq.ge (at level 70, no associativity) : seq_scope.
#[global] Open Scope seq_scope.

(** The tactic that reduces a sequence-number goal to linear arithmetic. *)
Ltac seq_unfold :=
  unfold Seq.add, Seq.sub, Seq.lt, Seq.le, Seq.gt, Seq.ge, as_i32, wrap32, u32_ok in *.
Ltac seq_lia :=
  seq_unfold; repeat case_match; Z.div_mod_to_equations; lia.

Lemma seq_add_ok a b : u32_ok (a ⊕ b).
Proof. apply wrap32_ok. Qed.

Lemma seq_sub_ok a b : u32_ok (a ⊖ b).
Proof. apply wrap32_ok. Qed.

Lemma seq_add_assoc a b c : a ⊕ b ⊕ c = a ⊕ (b + c).
Proof. unfold Seq.add. rewrite wrap32_add_l. f_equal. lia. Qed.

Lemma seq_add_sub a b : u32_ok a -> a ⊕ b ⊖ b = a.
Proof.
  intros. unfold Seq.add, Seq.sub. rewrite wrap32_sub_l.
  replace (a + b - b) with a by lia. by apply wrap32_small.
Qed.

Lemma seq_sub_add a b : u32_ok a -> b ⊕ (a ⊖ b) = a.
Proof.
  intros. unfold Seq.add, Seq.sub. rewrite wrap32_add_r.
  replace (b + (a - b)) with a by lia. by apply wrap32_small.
Qed.

Lemma seq_add_0 a : u32_ok a -> a ⊕ 0 = a.
Proof. intros. unfold Seq.add. rewrite Z.add_0_r. by apply wrap32_small. Qed.

Lemma seq_add_inj a b c : u32_ok b -> u32_ok c -> a ⊕ b = a ⊕ c -> b = c.
Proof. seq_lia. Qed.

(** The wrapped difference of two positions is their signed distance when it fits an [i32]. *)
Lemma as_i32_wrap32 d : - 2^31 <= d < 2^31 -> as_i32 (wrap32 d) = d.
Proof. intros. seq_lia. Qed.

Lemma seq_diff b i j : wrap32 ((b ⊕ i) - (b ⊕ j)) = wrap32 (i - j).
Proof.
  unfold Seq.add. rewrite wrap32_sub_l, wrap32_sub_r. f_equal. lia.
Qed.

Lemma seq_sub_distance b i j : 0 <= i - j < 2^32 -> (b ⊕ i) ⊖ (b ⊕ j) = i - j.
Proof. intros. unfold Seq.sub. rewrite seq_diff. by apply wrap32_small. Qed.

(** The four comparisons on positions less than 2^31 apart are those of the positions. *)
Lemma seq_lt_window b i j : - 2^31 <= i - j < 2^31 -> (b ⊕ i <ₛ b ⊕ j) = (i <? j).
Proof. intros. unfold Seq.lt. rewrite seq_diff, as_i32_wrap32 by lia. lia. Qed.

Lemma seq_le_window b i j : - 2^31 <= i - j < 2^31 -> (b ⊕ i ≤ₛ b ⊕ j) = (i <=? j).
Proof. intros. unfold Seq.le. rewrite seq_diff, as_i32_wrap32 by lia. lia. Qed.

Lemma seq_gt_window b i j : - 2^31 <= i - j < 2^31 -> (b ⊕ i >ₛ b ⊕ j) = (j <? i).
Proof. intros. unfold Seq.gt. rewrite seq_diff, as_i32_wrap32 by lia. lia. Qed.

Lemma seq_ge_window b i j : - 2^31 <= i - j < 2^31 -> (b ⊕ i ≥ₛ b ⊕ j) = (j <=? i).
Proof. intros. unfold Seq.ge. rewrite seq_diff, as_i32_wrap32 by lia. lia. Qed.

Lemma seq_eqb_window b i j : - 2^32 < i - j < 2^32 -> (b ⊕ i =? b ⊕ j) = (i =? j).
Proof.
  intros H. destruct (Z.eqb_spec i j) as [->|Hne]; [apply Z.eqb_refl|].
  apply Z.eqb_neq. intros E. pose proof (seq_diff b i j) as D. rewrite E, Z.sub_diag in D.
  unfold wrap32 in D. rewrite Z.mod_0_l in D by lia. symmetry in D.
  apply Z.mod_divide in D as [k Hk]; [|lia]. nia.
Qed.

Lemma seq_lt_irrefl a : (a <ₛ a) = false.
Proof. unfold Seq.lt. by rewrite Z.sub_diag. Qed.

Lemma seq_le_refl a : (a ≤ₛ a) = true.
Proof. unfold Seq.le. by rewrite Z.sub_diag. Qed.

Lemma seq_le_lt_eq a b : u32_ok a -> u32_ok b -> (a ≤ₛ b) = ((a <ₛ b) || (a =? b))%bool.
Proof. intros. seq_unfold. repeat case_match; Z.div_mod_to_equations; lia. Qed.

#[export] Hint Resolve seq_add_ok seq_sub_ok : capy.
#[export] Hint Rewrite seq_add_assoc : capy.

(** ** Properties *)

(** On any two stream positions less than 2^31 apart, the four machine comparisons
    of their sequence numbers decide the order of the positions and the machine subtraction
    returns their distance, wherever the 32-bit counter wraps. *)
Theorem seq_order_agrees (b i j : Z) :
  - 2^31 <= i - j < 2^31 ->
  (b ⊕ i <ₛ b ⊕ j) = (i <? j) /\ (b ⊕ i ≤ₛ b ⊕ j) = (i <=? j) /\
  (b ⊕ i >ₛ b ⊕ j) = (j <? i) /\ (b ⊕ i ≥ₛ b ⊕ j) = (j <=? i) /\
  (j <= i -> (b ⊕ i) ⊖ (b ⊕ j) = i - j).
Proof.
  intros. rewrite seq_lt_window, seq_le_window, seq_gt_window, seq_ge_window by done.
  repeat split; try done. intros. apply seq_sub_distance. lia.
Qed.

Lemma seq_order_agrees_witness :
  (4294967290 ⊕ 10 <ₛ 4294967290 ⊕ 3) = false /\ (4294967290 ⊕ 10) ⊖ (4294967290 ⊕ 3) = 7.
Proof.
  destruct (seq_order_agrees 4294967290 10 3 ltac:(lia)) as (H & _ & _ & _ & Hd).
  split; [exact H | apply Hd; lia].
Defined.

(** the order is not an order.  Two distinct sequence numbers are each less than the
    other exactly when they are 2^31 apart, and there are [a < b < c < a]. *)
Theorem seq_order_cycles :
  (forall a b, u32_ok a -> u32_ok b ->
     (a <ₛ b) = true /\ (b <ₛ a) = true <-> a ⊖ b = 2^31) /\
  (exists a b c, u32_ok a /\ u32_ok b /\ u32_ok c /\
     (a <ₛ b) = true /\ (b <ₛ c) = true /\ (c <ₛ a) = true).
Proof.
  split.
  - intros a b Ha Hb. seq_unfold. split.
    + intros [H1 H2]. repeat case_match; Z.div_mod_to_equations; lia.
    + intros H. split; repeat case_match; Z.div_mod_to_equations; lia.
  - exists 0, (3 * 2^29), (6 * 2^29). repeat split; vm_compute; congruence.
Qed.
