(* ===== verification/Buffer.v ===== *)
(** * Buffers (src/src/rust/runtime/memory/buffer)

    A [DataBuffer] is a window ([offset], [len]) on a shared, reference-counted byte array.
    The protocol code only ever shrinks a window with [adjust] (from the front) and [trim]
    (from the back), and reads it through [deref].  [DataBuffer] models that representation;
    the rest of the development works on the byte list a buffer dereferences to, with the
    list operations [adjust] and [trim], and the refinement lemmas below say the windows
    behave like those lists. *)

From S2P Require Import Prelude.

Module DataBuffer.

Record t := mk { data : option (list Z); offset : nat; len : nat }.

Definition adjust (self : t) (nbytes : nat) : outcome t :=
  if Nat.ltb (len self) nbytes then Panic "adjusting past end of buffer"
  else Ret (mk (data self) (offset self + nbytes) (len self - nbytes)).

Definition trim (self : t) (nbytes : nat) : outcome t :=
  if Nat.ltb (len self) nbytes then Panic "trimming past beginning of buffer"
  else Ret (mk (data self) (offset self) (len self - nbytes)).

Definition new (capacity : nat) : Result t :=
  if Nat.eqb capacity 0 then Err (mkFail EINVAL "zero-capacity buffer")
  else Ok (mk (Some (replicate capacity 0)) 0 capacity).

Definition empty : t := mk None 0 0.

Definition from_slice (src : list Z) : t := mk (Some src) 0 (length src).

Definition deref (self : t) : outcome (list Z) :=
  match data self with
  | None => Ret []
  | Some buf => slice buf (offset self) (offset self + len self)
  end.

(** The window lies inside the array; an absent array has an empty window. *)
Definition wf (self : t) : Prop :=
  match data self with
  | None => len self = 0%nat
  | Some buf => (offset self + len self <= length buf)%nat
  end.

End DataBuffer.

Module Buffer.

(** A buffer as the protocol code sees it: the bytes it dereferences to. *)
Abbreviation t := (list Z).

Definition adjust (self : t) (nbytes : Z) : outcome t :=
  if blen self <? nbytes then Panic "adjusting past end of buffer"
  else Ret (drop (Z.to_nat nbytes) self).

Definition trim (self : t) (nbytes : Z) : outcome t :=
  if blen self <? nbytes then Panic "trimming past beginning of buffer"
  else Ret (take (Z.to_nat (blen self - nbytes)) self).

End Buffer.

Lemma buffer_adjust_ok l n : 0 <= n <= blen l -> Buffer.adjust l n = Ret (drop (Z.to_nat n) l).
Proof. intros. unfold Buffer.adjust. by rewrite (proj2 (Z.ltb_ge _ _)) by lia. Qed.

Lemma buffer_trim_ok l n :
  0 <= n <= blen l -> Buffer.trim l n = Ret (take (Z.to_nat (blen l - n)) l).
Proof. intros. unfold Buffer.trim. by rewrite (proj2 (Z.ltb_ge _ _)) by lia. Qed.

Lemma buffer_adjust_app pre l : Buffer.adjust (pre ++ l) (blen pre) = Ret l.
Proof.
  rewrite buffer_adjust_ok by (rewrite blen_app; unfold blen; lia).
  unfold blen. by rewrite Nat2Z.id, drop_app_length.
Qed.

Lemma buffer_trim_0 l : Buffer.trim l 0 = Ret l.
Proof.
  rewrite buffer_trim_ok by (unfold blen; lia).
  unfold blen. rewrite Z.sub_0_r, Nat2Z.id. by rewrite firstn_all.
Qed.

(** ** Refinement *)

(** [represents d l]: the well-formed window [d] dereferences to [l]. *)
Definition represents (d : DataBuffer.t) (l : Buffer.t) : Prop :=
  DataBuffer.wf d /\ DataBuffer.deref d = Ret l.

Lemma represents_len d l : represents d l -> DataBuffer.len d = length l.
Proof.
  intros [Hwf Hd]. unfold DataBuffer.wf, DataBuffer.deref, slice in *.
  destruct (DataBuffer.data d) as [buf|]; [|by simplify_eq].
  case_match; simplify_eq. rewrite length_take, length_drop. lia.
Qed.

Lemma represents_from_slice l : represents (DataBuffer.from_slice l) l.
Proof.
  split; unfold DataBuffer.wf, DataBuffer.deref, slice; simpl; [lia|].
  rewrite Nat.sub_0_r, drop_0, firstn_all.
  by rewrite (proj2 (Nat.leb_le _ _)).
Qed.

Lemma represents_empty : represents DataBuffer.empty [].
Proof. by split. Qed.

Lemma represents_slice d l :
  represents d l ->
  (DataBuffer.data d = None /\ l = []) \/
  exists buf, DataBuffer.data d = Some buf /\
    (DataBuffer.offset d + DataBuffer.len d <= length buf)%nat /\
    l = take (DataBuffer.len d) (drop (DataBuffer.offset d) buf).
Proof.
  intros [Hwf Hd]. unfold DataBuffer.wf, DataBuffer.deref, slice in *.
  destruct (DataBuffer.data d) as [buf|]; [right|left; by simplify_eq].
  exists buf. repeat split; [done|]. case_match; simplify_eq. f_equal. lia.
Qed.

Lemma window_represents dat off ln l :
  (match dat with None => ln = 0%nat | Some buf => (off + ln <= length buf)%nat end) ->
  l = (match dat with None => [] | Some buf => take ln (drop off buf) end) ->
  represents (DataBuffer.mk dat off ln) l.
Proof.
  intros Hwf ->. split; [done|]. unfold DataBuffer.deref, slice. simpl.
  destruct dat as [buf|]; [|done].
  rewrite (proj2 (Nat.leb_le off _)), (proj2 (Nat.leb_le (off + ln) _)) by lia. simpl.
  do 2 f_equal. lia.
Qed.

(** The window operations implement the list operations: on every buffer and every
    byte count [adjust] and [trim] panic exactly when the list operations do, and otherwise
    the new window dereferences to the shortened list. *)
Theorem databuffer_refines_list (d : DataBuffer.t) (l : Buffer.t) (n : nat) :
  represents d l ->
  (match DataBuffer.adjust d n, Buffer.adjust l (Z.of_nat n) with
   | Ret d', Ret l' => represents d' l'
   | Panic m, Panic m' => m = m'
   | _, _ => False
   end) /\
  (match DataBuffer.trim d n, Buffer.trim l (Z.of_nat n) with
   | Ret d', Ret l' => represents d' l'
   | Panic m, Panic m' => m = m'
   | _, _ => False
   end).
Proof.
  intros Hr. pose proof (represents_len _ _ Hr) as Hlen.
  apply represents_slice in Hr.
  unfold DataBuffer.adjust, DataBuffer.trim, Buffer.adjust, Buffer.trim, blen in *.
  rewrite Hlen.
  destruct (Nat.ltb_spec (length l) n), (Z.ltb_spec (Z.of_nat (length l)) (Z.of_nat n));
    try lia; [done|].
  destruct d as [dat off ln]; simpl in *. rewrite Nat2Z.id. subst ln.
  destruct Hr as [[-> ->]|(buf & -> & Hwf & Hl)]; split; apply window_represents; simpl in *.
  - lia.
  - by rewrite drop_nil.
  - lia.
  - by rewrite take_nil.
  - lia.
  - rewrite Hl at 1. rewrite skipn_firstn_comm, drop_drop. f_equal.
  - lia.
  - rewrite Hl at 2. rewrite take_take. f_equal. lia.
Qed.

Lemma databuffer_refines_list_witness :
  represents (DataBuffer.from_slice [1; 2; 3]) [1; 2; 3] /\
  DataBuffer.adjust (DataBuffer.from_slice [1; 2; 3]) 1 =
    Ret (DataBuffer.mk (Some [1; 2; 3]) 1 2) /\
  represents (DataBuffer.mk (Some [1; 2; 3]) 1 2) [2; 3].
Proof.
  split; [apply represents_from_slice|]. split; [reflexivity|].
  exact (proj1 (databuffer_refines_list (DataBuffer.from_slice [1; 2; 3]) [1; 2; 3] 1
                  (represents_from_slice _))).
Defined.
