(* ===== verification/Sga.v ===== *)
(** * Shared memory and scatter-gather arrays
    (src/src/rust/runtime/memory/buffer/databuffer.rs, runtime/types/memory.rs,
    catpowder/runtime/memory.rs)

    The data of a heap buffer lives in an [Arc<[u8]>]: a block with a count of its holders.  A buffer
    is a window on a block; a scatter-gather array is a pointer and a length that the application
    owns, made from a block by [Arc::into_raw] and given back by [Arc::from_raw].  The heap is a
    store of blocks; what the language leaves undefined (a dangling or interior pointer given to
    [Arc::from_raw], a wrong length, a read outside a block) is [Panic].  Counts do not overflow. *)

From S2P Require Import Prelude Buffer.

(** ** The heap *)

Record block := mkBlock { strong : Z; bytes : list Z }.
Record heap := mkHeap { blocks : gmap Z block; next : Z }.

(** A raw pointer: null, or a block and an offset in it. *)
Definition pointer : Type := option (Z * nat).

(** A computation on the heap. *)
Definition M (A : Type) : Type := heap -> outcome (A * heap).

#[export] Instance M_ret : MRet M := fun A a m => Ret (a, m).
#[export] Instance M_bind : MBind M := fun A B k x m =>
  match x m with
  | Ret (a, m) => k a m
  | Panic msg => Panic msg
  | Diverge => Diverge
  end.

Definition ub {A} (msg : string) : M A := fun _ => Panic msg.

Module Arc.

Definition new (l : list Z) : M Z := fun m => Ret (next m, mkHeap (<[next m := mkBlock 1 l]> (blocks m)) (next m + 1)).

Definition get (b : Z) : M block := fun m =>
  match blocks m !! b with Some x => Ret (x, m) | None => Panic "use after free" end.

Definition put (b : Z) (x : block) : M unit := fun m => Ret (tt, mkHeap (<[b := x]> (blocks m)) (next m)).

Definition clone (b : Z) : M unit := x ← get b; put b (mkBlock (strong x + 1) (bytes x)).

Definition free (b : Z) : M unit := fun m => Ret (tt, mkHeap (delete b (blocks m)) (next m)).

Definition drop (b : Z) : M unit :=
  x ← get b;
  if strong x =? 1 then free b else put b (mkBlock (strong x - 1) (bytes x)).

Definition into_raw (b : Z) : pointer := Some (b, 0%nat).

(** The pointer and length must be those of a whole block. *)
Definition from_raw (b : Z) (off : nat) (len : nat) : M Z :=
  x ← get b;
  if Nat.eqb off 0 && Nat.eqb len (length (bytes x)) then mret b else ub "Arc::from_raw of a pointer that Arc::into_raw did not return".

End Arc.

(** [slice::from_raw_parts] *)
Definition read (ptr : pointer) (len : nat) : M (list Z) :=
  match ptr with
  | None => ub "null slice"
  | Some (b, off) =>
      x ← Arc.get b;
      if Nat.leb (off + len) (length (bytes x)) then mret (take len (skipn off (bytes x))) else ub "read out of bounds"
  end.

(** The application stores a byte. *)
Definition poke (ptr : pointer) (i : nat) (v : Z) : M unit :=
  match ptr with
  | None => ub "null pointer"
  | Some (b, off) =>
      x ← Arc.get b;
      if Nat.ltb (off + i) (length (bytes x)) then Arc.put b (mkBlock (strong x) (<[(off + i)%nat := v]> (bytes x))) else ub "write out of bounds"
  end.

(** ** Buffers *)

Module HeapBuffer.

Record t := mk { data : option Z; offset : nat; len : nat }.

Definition adjust (self : t) (nbytes : nat) : M t :=
  if Nat.ltb (len self) nbytes then ub "adjusting past end of buffer"
  else mret (mk (data self) (offset self + nbytes) (len self - nbytes)).

Definition trim (self : t) (nbytes : nat) : M t :=
  if Nat.ltb (len self) nbytes then ub "trimming past beginning of buffer"
  else mret (mk (data self) (offset self) (len self - nbytes)).

Definition new (capacity : nat) : M (Result t) :=
  if Nat.eqb capacity 0 then mret (Err (mkFail EINVAL "zero-capacity buffer")) else
  b ← Arc.new (replicate capacity 0);
  mret (Ok (mk (Some b) 0 capacity)).

Definition from_raw_parts (ptr : pointer) (len : nat) : M (Result t) :=
  if Nat.eqb len 0 then mret (Err (mkFail EINVAL "zero-length buffer")) else
  match ptr with
  | None => mret (Err (mkFail EINVAL "null data pointer"))
  | Some (b, off) => b ← Arc.from_raw b off len; mret (Ok (mk (Some b) 0 len))
  end.

Definition into_raw (dbuf : t) : Result pointer :=
  match data dbuf with
  | Some b => Ok (Arc.into_raw b)
  | None => Err (mkFail EINVAL "zero-length buffer")
  end.

Definition empty : t := mk None 0 0.

Definition from_slice (src : list Z) : M t :=
  b ← Arc.new src;
  mret (mk (Some b) 0 (length src)).

Definition deref (self : t) : M (list Z) :=
  match data self with
  | None => mret []
  | Some b =>
      x ← Arc.get b;
      if Nat.leb (offset self + len self) (length (bytes x)) then mret (take (len self) (skipn (offset self) (bytes x)))
      else ub "range end index out of range for slice"
  end.

(** A store through [deref_mut]: the bytes of the window become [l]. *)
Definition deref_mut (self : t) (l : list Z) : M unit :=
  match data self with
  | None => mret tt
  | Some b =>
      x ← Arc.get b;
      if negb (strong x =? 1) then ub "cannot write to a shared buffer" else
      if Nat.leb (offset self + len self) (length (bytes x)) then
        Arc.put b (mkBlock (strong x) (take (offset self) (bytes x) ++ l ++ skipn (offset self + len self) (bytes x)))
      else ub "range end index out of range for slice"
  end.

Definition clone (self : t) : M t :=
  match data self with
  | None => mret self
  | Some b => _ ← Arc.clone b; mret self
  end.

Definition drop (self : t) : M unit :=
  match data self with
  | None => mret tt
  | Some b => Arc.drop b
  end.

End HeapBuffer.

(** ** Scatter-gather arrays *)

Record demi_sgaseg_t := mkSeg { sgaseg_buf : pointer; sgaseg_len : Z }.

(** [sga_buf] is the address of a device buffer, [None] when the data is on the heap; [sga_addr] the
    16 bytes of the address. *)
Record demi_sgarray_t := mkSga { sga_buf : option Z; sga_numsegs : Z; sga_segs : demi_sgaseg_t; sga_addr : list Z }.

Definition zeroed_addr : list Z := replicate 16 0.

Definition heap_sga (ptr : pointer) (len : nat) : demi_sgarray_t := mkSga None 1 (mkSeg ptr (wrap32 (Z.of_nat len))) zeroed_addr.

(** The memory runtime of the library OSes without device buffers. *)
Module LinuxMemory.

Definition into_sgarray (dbuf : HeapBuffer.t) : M (Result demi_sgarray_t) :=
  copy ← HeapBuffer.clone dbuf;
  match HeapBuffer.into_raw copy with
  | Err e => _ ← HeapBuffer.drop dbuf; mret (Err e)
  | Ok dbuf_ptr => _ ← HeapBuffer.drop dbuf; mret (Ok (heap_sga dbuf_ptr (HeapBuffer.len dbuf)))
  end.

Definition alloc_sgarray (size : nat) : M (Result demi_sgarray_t) :=
  r ← HeapBuffer.new size;
  match r with
  | Err e => mret (Err e)
  | Ok dbuf =>
      match HeapBuffer.into_raw dbuf with
      | Err e => mret (Err e)
      | Ok dbuf_ptr => mret (Ok (heap_sga dbuf_ptr size))
      end
  end.

Definition free_sgarray (sga : demi_sgarray_t) : M (Result unit) :=
  if negb (sga_numsegs sga =? 1) then mret (Err (mkFail EINVAL "scatter-gather array with invalid size")) else
  r ← HeapBuffer.from_raw_parts (sgaseg_buf (sga_segs sga)) (Z.to_nat (sgaseg_len (sga_segs sga)));
  match r with
  | Err e => mret (Err e)
  | Ok dbuf => _ ← HeapBuffer.drop dbuf; mret (Ok tt)
  end.

Definition clone_sgarray (sga : demi_sgarray_t) : M (Result HeapBuffer.t) :=
  if negb (sga_numsegs sga =? 1) then mret (Err (mkFail EINVAL "scatter-gather array with invalid size")) else
  seg_slice ← read (sgaseg_buf (sga_segs sga)) (Z.to_nat (sgaseg_len (sga_segs sga)));
  buf ← HeapBuffer.from_slice seg_slice;
  mret (Ok buf).

End LinuxMemory.
