(* ===== verification/SgaSafety.v ===== *)
(** * Memory safety of buffers and scatter-gather arrays

    A library and its application hold buffers and arrays on one heap ([SgaHost]).  In every state
    they reach, counts are exact, nothing dangles, nothing leaks, and each operation shows exactly the
    bytes it promises; the misuses that are undefined or that panic are named. *)

From S2P Require Import Prelude Buffer Sga.

Module SgaHost.

(** What is held: a buffer by the library, an array by the application. *)
Inductive item := Buf (d : HeapBuffer.t) | Arr (a : demi_sgarray_t).

Definition block_of (x : item) : option Z :=
  match x with
  | Buf d => HeapBuffer.data d
  | Arr a => fst <$> sgaseg_buf (sga_segs a)
  end.

Record state := mkState { mem : heap; items : gmap Z item }.

Inductive event :=
| ENew (h : Z) (capacity : nat)
| ESlice (h : Z) (src : list Z)
| EClone (h h' : Z)
| EAdjust (h : Z) (n : nat)
| ETrim (h : Z) (n : nat)
| EWrite (h : Z) (l : list Z)
| EDrop (h : Z)
| EAlloc (h : Z) (size : nat)
| EPoke (h : Z) (i : nat) (v : Z)
| ESend (a h : Z)
| EFree (a : Z)
| EPop (h : Z).

(** Runs an operation that creates an item under a handle that is not in use. *)
Definition create (h : Z) (m : M (option item)) (s : state) : outcome state :=
  match items s !! h with
  | Some _ => Ret s
  | None =>
      '(r, mm) ← m (mem s);
      Ret (mkState mm (match r with Some x => <[h := x]> (items s) | None => items s end))
  end.

Definition as_item {A} (f : A -> item) (m : M (Result A)) : M (option item) :=
  r ← m;
  mret (match r with Ok x => Some (f x) | Err _ => None end).

(** Runs an operation on an item that is held, which becomes another or is given up. *)
Definition update (h : Z) (m : item -> M (option item)) (s : state) : outcome state :=
  match items s !! h with
  | None => Ret s
  | Some x =>
      '(r, mm) ← m x (mem s);
      Ret (mkState mm (match r with Some x => <[h := x]> (items s) | None => delete h (items s) end))
  end.

Definition on_buf (f : HeapBuffer.t -> M (option item)) (x : item) : M (option item) :=
  match x with Buf d => f d | Arr _ => mret (Some x) end.

Definition on_arr (f : demi_sgarray_t -> M (option item)) (x : item) : M (option item) :=
  match x with Arr a => f a | Buf _ => mret (Some x) end.

(** The application stays inside its array. *)
Definition poke_array (i : nat) (v : Z) (a : demi_sgarray_t) : M (option item) :=
  if Z.of_nat i <? sgaseg_len (sga_segs a) then _ ← poke (sgaseg_buf (sga_segs a)) i v; mret (Some (Arr a)) else mret (Some (Arr a)).

Definition step (e : event) (s : state) : outcome state :=
  match e with
  | ENew h capacity => create h (as_item Buf (HeapBuffer.new capacity)) s
  | ESlice h src => create h (d ← HeapBuffer.from_slice src; mret (Some (Buf d))) s
  | EClone h h' =>
      match items s !! h with
      | Some (Buf d) => create h' (d ← HeapBuffer.clone d; mret (Some (Buf d))) s
      | _ => Ret s
      end
  | EAdjust h n => update h (on_buf (fun d => d ← HeapBuffer.adjust d n; mret (Some (Buf d)))) s
  | ETrim h n => update h (on_buf (fun d => d ← HeapBuffer.trim d n; mret (Some (Buf d)))) s
  | EWrite h l => update h (on_buf (fun d => if Nat.eqb (length l) (HeapBuffer.len d) then _ ← HeapBuffer.deref_mut d l; mret (Some (Buf d)) else mret (Some (Buf d)))) s
  | EDrop h => update h (on_buf (fun d => _ ← HeapBuffer.drop d; mret None)) s
  | EAlloc h size => create h (as_item Arr (LinuxMemory.alloc_sgarray size)) s
  | EPoke h i v => update h (on_arr (poke_array i v)) s
  | ESend a h =>
      match items s !! a with
      | Some (Arr sga) => create h (as_item Buf (LinuxMemory.clone_sgarray sga)) s
      | _ => Ret s
      end
  | EFree a => update a (on_arr (fun sga => r ← LinuxMemory.free_sgarray sga; mret (match r with Ok _ => None | Err _ => Some (Arr sga) end))) s
  | EPop h => update h (on_buf (fun d => as_item Arr (LinuxMemory.into_sgarray d))) s
  end.

(** Arrays of 4 GiB and more are not asked for. *)
Definition reasonable (e : event) : Prop :=
  match e with
  | EAlloc _ size => Z.of_nat size < 2^32
  | ENew _ size => Z.of_nat size < 2^32
  | ESlice _ src => blen src < 2^32
  | _ => True
  end.

Inductive reach : state -> Prop :=
| reach_start n : reach (mkState (mkHeap ∅ n) ∅)
| reach_step e s s' : reach s -> reasonable e -> step e s = Ret s' -> reach s'.

(** ** What an item shows *)

Definition window (m : heap) (b : Z) (off len : nat) : option (list Z) :=
  match blocks m !! b with
  | Some x => Some (take len (drop off (bytes x)))
  | None => None
  end.

Definition shows (m : heap) (x : item) : option (list Z) :=
  match x with
  | Buf d => match HeapBuffer.data d with Some b => window m b (HeapBuffer.offset d) (HeapBuffer.len d) | None => Some [] end
  | Arr a => match sgaseg_buf (sga_segs a) with Some (b, off) => window m b off (Z.to_nat (sgaseg_len (sga_segs a))) | None => None end
  end.

Definition contents (s : state) (h : Z) : option (list Z) := items s !! h ≫= shows (mem s).

(** The block and window of an item lie in the heap. *)
Definition inside (m : heap) (b : Z) (off len : nat) : Prop :=
  exists x, blocks m !! b = Some x /\ (off + len <= length (bytes x))%nat /\ blen (bytes x) < 2^32.

Definition in_range (m : heap) (x : item) : Prop :=
  match x with
  | Buf d => match HeapBuffer.data d with Some b => inside m b (HeapBuffer.offset d) (HeapBuffer.len d) | None => HeapBuffer.len d = 0%nat end
  | Arr a => sga_buf a = None /\ sga_numsegs a = 1 /\ 0 <= sgaseg_len (sga_segs a) < 2^32 /\
             exists b, sgaseg_buf (sga_segs a) = Some (b, 0%nat) /\ inside m b 0 (Z.to_nat (sgaseg_len (sga_segs a)))
  end.

(** The array is a whole, non-empty block. *)
Definition whole (m : heap) (a : demi_sgarray_t) : Prop :=
  exists b x, sgaseg_buf (sga_segs a) = Some (b, 0%nat) /\ blocks m !! b = Some x /\ sgaseg_len (sga_segs a) = blen (bytes x) /\ bytes x <> [].

(** The number of items that hold a block. *)
Definition holds (b : Z) (x : item) : bool := bool_decide (block_of x = Some b).
Definition holders (it : gmap Z item) (b : Z) : nat := size (filter (fun kx => Is_true (holds b kx.2)) it).

Record inv (s : state) : Prop := {
  i_count : forall b x, blocks (mem s) !! b = Some x -> strong x = Z.of_nat (holders (items s) b) /\ 0 < strong x;
  i_range : forall h x, items s !! h = Some x -> in_range (mem s) x;
  i_next : forall b, is_Some (blocks (mem s) !! b) -> b < next (mem s);
}.

(** ** Counting holders *)

Lemma holders_new it h x b : it !! h = None -> holders (<[h := x]> it) b = (holders it b + if holds b x then 1 else 0)%nat.
Proof.
  intros Hn. unfold holders. rewrite map_filter_insert. cbn. destruct (decide (Is_true (holds b x))) as [T|F].
  - rewrite map_size_insert_None by (apply map_lookup_filter_None_2; by left). destruct (holds b x); [lia|done].
  - rewrite delete_id by done. destruct (holds b x); [done|lia].
Qed.

Lemma holders_gone it h x b : it !! h = Some x -> holders it b = (holders (delete h it) b + if holds b x then 1 else 0)%nat.
Proof. intros Hh. rewrite <- (insert_delete_id it h x Hh) at 1. apply holders_new, lookup_delete_eq. Qed.

Lemma holders_same it h x y b : it !! h = Some x -> block_of y = block_of x -> holders (<[h := y]> it) b = holders it b.
Proof.
  intros Hh E. rewrite <- insert_delete_eq. rewrite holders_new by apply lookup_delete_eq. rewrite (holders_gone it h x b Hh).
  unfold holds. by rewrite E.
Qed.

Lemma holds_true b x : block_of x = Some b -> holds b x = true.
Proof. intros E. by apply bool_decide_eq_true_2. Qed.

Lemma holds_false b x : block_of x <> Some b -> holds b x = false.
Proof. intros E. by apply bool_decide_eq_false_2. Qed.

Lemma holders_pos it h x b : it !! h = Some x -> block_of x = Some b -> (0 < holders it b)%nat.
Proof. intros Hh E. rewrite (holders_gone it h x b Hh), (holds_true b x E). lia. Qed.

(** Two holders of a block that one holder counts are the same. *)
Lemma sole_holder it b h h' x y : it !! h = Some x -> it !! h' = Some y -> block_of x = Some b -> block_of y = Some b -> holders it b = 1%nat -> h = h'.
Proof.
  intros Hh Hh' Ex Ey H1. destruct (decide (h = h')); [done|]. rewrite (holders_gone it h x b Hh), (holds_true b x Ex) in H1.
  assert (H2 : delete h it !! h' = Some y) by (by rewrite lookup_delete_ne). pose proof (holders_pos _ _ _ _ H2 Ey). lia.
Qed.

Lemma in_range_block m x b : in_range m x -> block_of x = Some b -> exists blk, blocks m !! b = Some blk /\ blen (bytes blk) < 2^32.
Proof.
  destruct x as [d|a]; cbn.
  - intros H E. rewrite E in H. destruct H as (blk & ? & _ & ?). by exists blk.
  - intros (_ & _ & _ & b' & -> & blk & ? & _ & ?) [= <-]. by exists blk.
Qed.

(** What an item shows and its range depend on its block only. *)
Lemma range_ext m m' x : (forall b blk, block_of x = Some b -> blocks m !! b = Some blk -> exists blk', blocks m' !! b = Some blk' /\ length (bytes blk') = length (bytes blk)) ->
  in_range m x -> in_range m' x.
Proof.
  intros E. assert (Hi : forall b off len, block_of x = Some b -> inside m b off len -> inside m' b off len).
  { intros b off len Hb (blk & H1 & H2 & H3). destruct (E b blk Hb H1) as (blk' & H4 & H5). exists blk'. unfold blen in *. rewrite H5. done. }
  destruct x as [d|a]; cbn in *.
  - destruct (HeapBuffer.data d) as [b|]; [by apply Hi|done].
  - intros (H0 & H1 & H2 & b & H3 & H4). do 3 (split; [done|]). exists b. split; [done|]. apply Hi; [by rewrite H3|done].
Qed.

Lemma shows_ext m m' x : (forall b, block_of x = Some b -> bytes <$> (blocks m' !! b) = bytes <$> (blocks m !! b)) -> shows m' x = shows m x.
Proof.
  intros E. assert (Hw : forall b off len, block_of x = Some b -> window m' b off len = window m b off len).
  { intros b off len Hb. specialize (E b Hb). unfold window. destruct (blocks m' !! b), (blocks m !! b); cbn in E; by simplify_eq/=; rewrite ?E. }
  destruct x as [d|a]; cbn in *.
  - destruct (HeapBuffer.data d) as [b|]; [by apply Hw|done].
  - destruct (sgaseg_buf (sga_segs a)) as [[b off]|]; [by apply Hw|done].
Qed.

(** Contents that do not change. *)
Definition others (P : Z -> Prop) (s s' : state) : Prop := forall k, ~ P k -> contents s' k = contents s k.

Lemma no_block_beyond s h x b : inv s -> items s !! h = Some x -> block_of x = Some b -> b < next (mem s).
Proof. intros I Hh E. apply I. destruct (in_range_block _ _ _ (i_range _ I h x Hh) E) as (blk & -> & _). by eexists. Qed.

Lemma holders_zero s b : inv s -> blocks (mem s) !! b = None -> holders (items s) b = 0%nat.
Proof.
  intros I Hb. unfold holders. apply map_size_empty_iff, map_empty_filter. intros h x Hh Hx. cbn in Hx. apply bool_decide_unpack in Hx.
  destruct (in_range_block _ _ _ (i_range _ I h x Hh) Hx) as (blk & E & _). congruence.
Qed.

(** ** The ways a state changes *)

(** A new block with one item. *)
Lemma sga_inv_add s h x l : inv s -> items s !! h = None -> block_of x = Some (next (mem s)) -> blen l < 2^32 ->
  let s' := mkState (mkHeap (<[next (mem s) := mkBlock 1 l]> (blocks (mem s))) (next (mem s) + 1)) (<[h := x]> (items s)) in
  in_range (mem s') x -> inv s' /\ others (eq h) s s'.
Proof.
  intros I Hh Hb Hl s' Hr. assert (Hfree : blocks (mem s) !! next (mem s) = None).
  { destruct (blocks (mem s) !! next (mem s)) eqn:E; [|done]. assert (next (mem s) < next (mem s)) by (apply I; by rewrite E). lia. }
  split.
  - split.
    + intros b y Hy. cbn [s' mem items blocks] in *. rewrite holders_new by done. apply lookup_insert_Some in Hy as [[<- <-]|[Hne Hy]].
      * rewrite (holds_true _ _ Hb), (holders_zero s _ I Hfree). cbn. lia.
      * rewrite holds_false by congruence. rewrite Nat.add_0_r. by apply (i_count _ I).
    + intros k y Hk. cbn [s' items] in Hk. apply lookup_insert_Some in Hk as [[<- <-]|[Hne Hk]]; [done|]. eapply range_ext; [|by eapply I].
      intros b blk E Hb'. exists blk. split; [|done]. cbn. rewrite lookup_insert_ne; [done|]. pose proof (no_block_beyond s k y b I Hk E). lia.
    + intros b. cbn. rewrite lookup_insert_is_Some'. intros [<-|Hb']; [lia|]. pose proof (i_next _ I b Hb'). lia.
  - intros k Hk. unfold contents. cbn [s' items mem]. rewrite lookup_insert_ne by done. destruct (items s !! k) as [y|] eqn:E; [|done]. cbn.
    apply shows_ext. intros b Hb'. cbn. rewrite lookup_insert_ne; [done|]. pose proof (no_block_beyond s k y b I E Hb'). lia.
Qed.

(** Another item on a block. *)
Lemma inv_share s h h' x b blk : inv s -> items s !! h = None -> items s !! h' = Some x -> block_of x = Some b -> blocks (mem s) !! b = Some blk ->
  let s' := mkState (mkHeap (<[b := mkBlock (strong blk + 1) (bytes blk)]> (blocks (mem s))) (next (mem s))) (<[h := x]> (items s)) in
  inv s' /\ others (eq h) s s' /\ contents s' h = contents s h'.
Proof.
  intros I Hh Hh' Hb Hblk s'. assert (Hm : forall y, shows (mem s') y = shows (mem s) y).
  { intros y. apply shows_ext. intros b' _. cbn. destruct (decide (b = b')) as [<-|]; [by rewrite lookup_insert_eq, Hblk|by rewrite lookup_insert_ne]. }
  assert (Hr : forall y, in_range (mem s) y -> in_range (mem s') y).
  { intros y. apply range_ext. intros b' blk' _ H'. cbn. destruct (decide (b = b')) as [<-|]; [|exists blk'; by rewrite lookup_insert_ne].
    exists (mkBlock (strong blk + 1) (bytes blk)). rewrite lookup_insert_eq. split; [done|]. cbn. congruence. }
  split_and!.
  - split.
    + intros b' y Hy. cbn [s' mem items blocks] in *. rewrite holders_new by done. apply lookup_insert_Some in Hy as [[<- <-]|[Hne Hy]].
      * rewrite (holds_true _ _ Hb). destruct (i_count _ I b blk Hblk) as [-> H0]. cbn. lia.
      * rewrite holds_false by congruence. rewrite Nat.add_0_r. by apply (i_count _ I).
    + intros k y Hk. cbn [s' items] in Hk. apply Hr. apply lookup_insert_Some in Hk as [[<- <-]|[Hne Hk]]; by eapply I.
    + intros b'. cbn. rewrite lookup_insert_is_Some'. intros [<-|Hb']; apply I; [by rewrite Hblk|done].
  - intros k Hk. unfold contents. cbn [s' items]. rewrite lookup_insert_ne by done. destruct (items s !! k); [apply Hm|done].
  - unfold contents. cbn [s' items]. rewrite lookup_insert_eq, Hh'. apply Hm.
Qed.

(** Another item without a block. *)
Lemma inv_share_none s h h' d : inv s -> items s !! h = None -> items s !! h' = Some (Buf d) -> HeapBuffer.data d = None ->
  let s' := mkState (mem s) (<[h := Buf d]> (items s)) in inv s' /\ others (eq h) s s' /\ contents s' h = contents s h'.
Proof.
  intros I Hh Hh' Hd s'. split_and!.
  - split; cbn [s' mem items].
    + intros b y Hy. rewrite holders_new, holds_false by (done || (cbn; congruence)). rewrite Nat.add_0_r. by apply (i_count _ I).
    + intros k y [[<- <-]|[_ Hk]]%lookup_insert_Some; by eapply I.
    + apply I.
  - intros k Hk. unfold contents. cbn. by rewrite lookup_insert_ne.
  - unfold contents. cbn. by rewrite lookup_insert_eq, Hh'.
Qed.

(** An item becomes another on the same block. *)
Lemma inv_replace s h x y : inv s -> items s !! h = Some x -> block_of y = block_of x -> in_range (mem s) y ->
  inv (mkState (mem s) (<[h := y]> (items s))) /\ others (eq h) s (mkState (mem s) (<[h := y]> (items s))).
Proof.
  intros I Hh E Hr. split.
  - split; cbn [mem items].
    + intros b z Hz. rewrite (holders_same _ _ _ _ _ Hh E). by apply (i_count _ I).
    + intros k z [[<- <-]|[_ Hk]]%lookup_insert_Some; [done|by eapply I].
    + apply I.
  - intros k Hk. unfold contents. cbn. by rewrite lookup_insert_ne.
Qed.

(** The bytes of a block change. *)
Lemma inv_bytes s b blk l : inv s -> blocks (mem s) !! b = Some blk -> length l = length (bytes blk) ->
  let s' := mkState (mkHeap (<[b := mkBlock (strong blk) l]> (blocks (mem s))) (next (mem s))) (items s) in
  inv s' /\ others (fun k => exists x, items s !! k = Some x /\ block_of x = Some b) s s'.
Proof.
  intros I Hb Hl s'. split.
  - split.
    + intros b' y Hy. cbn [s' mem items blocks] in *. apply lookup_insert_Some in Hy as [[<- <-]|[Hne Hy]]; [exact (i_count _ I b blk Hb)|by apply (i_count _ I)].
    + intros k y Hk. eapply range_ext; [|by eapply I]. intros b' blk' _ H'. cbn. destruct (decide (b = b')) as [<-|]; [|exists blk'; by rewrite lookup_insert_ne].
      exists (mkBlock (strong blk) l). rewrite lookup_insert_eq. split; [done|]. cbn. congruence.
    + intros b'. cbn. rewrite lookup_insert_is_Some'. intros [<-|Hb']; apply I; [by rewrite Hb|done].
  - intros k Hk. unfold contents. cbn [s' items]. destruct (items s !! k) as [y|] eqn:E; [|done]. cbn. apply shows_ext. intros b' Hb'. cbn.
    rewrite lookup_insert_ne; [done|]. intros ->. destruct Hk. by exists y.
Qed.

(** An item is given up: its block is freed with the last holder. *)
Lemma sga_inv_drop s h x b : inv s -> items s !! h = Some x -> block_of x = Some b ->
  exists mm, Arc.drop b (mem s) = Ret (tt, mm) /\ inv (mkState mm (delete h (items s))) /\ others (eq h) s (mkState mm (delete h (items s))).
Proof.
  intros I Hh Hb. destruct (in_range_block _ _ _ (i_range _ I h x Hh) Hb) as (blk & Hblk & _). destruct (i_count _ I b blk Hblk) as [Hc Hp].
  pose proof (holders_gone _ _ _ b Hh) as Hg. rewrite (holds_true _ _ Hb) in Hg.
  assert (Hc' : forall b' y, b' <> b -> blocks (mem s) !! b' = Some y -> strong y = Z.of_nat (holders (delete h (items s)) b') /\ 0 < strong y).
  { intros b' y Hne Hy. destruct (i_count _ I b' y Hy) as [-> H0]. rewrite (holders_gone _ _ _ b' Hh), holds_false in * by congruence. lia. }
  unfold Arc.drop, mbind, M_bind, Arc.get. rewrite Hblk. destruct (Z.eqb_spec (strong blk) 1) as [E1|E1].
  - assert (Hz : forall k y, delete h (items s) !! k = Some y -> block_of y <> Some b) by (intros k y Hk Ey; pose proof (holders_pos _ _ _ _ Hk Ey); lia).
    eexists. split; [reflexivity|]. split.
    + split; cbn.
      * intros b' y [Hne Hy]%lookup_delete_Some. by apply Hc'.
      * intros k y Hk. eapply range_ext; [|apply (i_range _ I k); by apply lookup_delete_Some in Hk as [_ Hk]]. intros b' blk' E H'. exists blk'. split; [|done]. cbn.
        rewrite lookup_delete_ne; [done|]. intros ->. by eapply Hz.
      * intros b'. rewrite lookup_delete_is_Some. intros [_ Hb']. by apply I.
    + intros k Hk. unfold contents. cbn. rewrite lookup_delete_ne by done. destruct (items s !! k) as [y|] eqn:E; [|done]. cbn. apply shows_ext. intros b' Hb'. cbn.
      rewrite lookup_delete_ne; [done|]. intros ->. eapply (Hz k y); [by rewrite lookup_delete_ne|done].
  - eexists. split; [reflexivity|]. split.
    + split; cbn.
      * intros b' y [[<- <-]|[Hne Hy]]%lookup_insert_Some; [cbn; lia|by apply Hc'].
      * intros k y Hk. eapply range_ext; [|apply (i_range _ I k); by apply lookup_delete_Some in Hk as [_ Hk]]. intros b' blk' E H'. cbn.
        destruct (decide (b = b')) as [<-|]; [|exists blk'; by rewrite lookup_insert_ne]. eexists. rewrite lookup_insert_eq. split; [done|]. cbn. congruence.
      * intros b'. rewrite lookup_insert_is_Some'. intros [<-|Hb']; apply I; [by rewrite Hblk|done].
    + intros k Hk. unfold contents. cbn. rewrite lookup_delete_ne by done. destruct (items s !! k) as [y|] eqn:E; [|done]. cbn. apply shows_ext. intros b' Hb'. cbn.
      destruct (decide (b = b')) as [<-|]; [by rewrite lookup_insert_eq, Hblk|by rewrite lookup_insert_ne].
Qed.

(** ** What the operations do *)

(** What a step that returns promises. *)
Definition effect (e : event) (s s' : state) : Prop :=
  match e with
  | ENew h n => others (eq h) s s' /\ (items s !! h = None -> contents s' h = if Nat.eqb n 0 then None else Some (replicate n 0))
  | ESlice h src => others (eq h) s s' /\ (items s !! h = None -> contents s' h = Some src)
  | EClone h h' => others (eq h') s s' /\ forall d, items s !! h = Some (Buf d) -> items s !! h' = None -> contents s' h' = contents s h
  | EAdjust h n => others (eq h) s s' /\ forall d, items s !! h = Some (Buf d) -> contents s' h = drop n <$> contents s h
  | ETrim h n => others (eq h) s s' /\ forall d, items s !! h = Some (Buf d) -> contents s' h = (fun l => take (length l - n) l) <$> contents s h
  | EWrite h l => others (eq h) s s' /\ forall d, items s !! h = Some (Buf d) -> length l = HeapBuffer.len d -> contents s' h = Some l
  | EDrop h => others (eq h) s s' /\ forall d, items s !! h = Some (Buf d) -> items s' !! h = None
  | EAlloc h n => others (eq h) s s' /\ (items s !! h = None -> contents s' h = if Nat.eqb n 0 then None else Some (replicate n 0)) /\
      forall a, items s !! h = None -> items s' !! h = Some (Arr a) -> whole (mem s') a
  | EPoke h i v => others (fun k => exists x y, items s !! h = Some x /\ items s !! k = Some y /\ block_of x = block_of y) s s' /\
      forall a l, items s !! h = Some (Arr a) -> contents s h = Some l -> contents s' h = Some (<[i := v]> l)
  | ESend a h => others (eq h) s s' /\ forall g, items s !! a = Some (Arr g) -> items s !! h = None -> contents s' h = contents s a
  | EFree a => others (eq a) s s' /\ forall g, items s !! a = Some (Arr g) -> whole (mem s) g -> items s' !! a = None
  | EPop h => others (eq h) s s' /\ forall d b, items s !! h = Some (Buf d) -> HeapBuffer.data d = Some b ->
      exists a, items s' !! h = Some (Arr a) /\ contents s' h = window (mem s) b 0 (HeapBuffer.len d) /\ (HeapBuffer.offset d = 0%nat -> contents s' h = contents s h)
  end.

(** The steps that panic: past the end of a buffer, a store to a shared buffer, and an array that is
    not a whole block given back. *)
Definition misuse (e : event) (s : state) : Prop :=
  match e with
  | EAdjust h n | ETrim h n => exists d, items s !! h = Some (Buf d) /\ (HeapBuffer.len d < n)%nat
  | EWrite h _ => exists d b, items s !! h = Some (Buf d) /\ HeapBuffer.data d = Some b /\ (1 < holders (items s) b)%nat
  | EFree a => exists g, items s !! a = Some (Arr g) /\ ~ whole (mem s) g
  | _ => False
  end.

Definition correct (e : event) (s : state) : Prop :=
  match step e s with
  | Ret s' => inv s' /\ effect e s s'
  | Panic _ => misuse e s
  | Diverge => False
  end.

Ltac run := unfold mbind, outcome_bind, M_bind, mret, M_ret; cbn.

Lemma others_refl P s : others P s s.
Proof. by intros k _. Qed.

Lemma same_state s : mkState (mem s) (items s) = s.
Proof. by destruct s. Qed.

Lemma window_all m b x l : blocks m !! b = Some x -> bytes x = l -> window m b 0 (length l) = Some l.
Proof. intros E <-. unfold window. by rewrite E, drop_0, take_ge. Qed.

Lemma wrap32_nat n : Z.of_nat n < 2^32 -> Z.to_nat (wrap32 (Z.of_nat n)) = n.
Proof. intros H. rewrite wrap32_small by (split; [lia|done]). lia. Qed.

(** A new block [l] with an item on all of it. *)
Definition fresh_block (s : state) (l : list Z) : heap := mkHeap (<[next (mem s) := mkBlock 1 l]> (blocks (mem s))) (next (mem s) + 1).

Lemma new_buffer s h l : inv s -> items s !! h = None -> blen l < 2^32 ->
  let s' := mkState (fresh_block s l) (<[h := Buf (HeapBuffer.mk (Some (next (mem s))) 0 (length l))]> (items s)) in
  inv s' /\ others (eq h) s s' /\ contents s' h = Some l.
Proof.
  intros I Hh Hl s'. destruct (sga_inv_add s h (Buf (HeapBuffer.mk (Some (next (mem s))) 0 (length l))) l I Hh eq_refl Hl) as [I' O'].
  { cbn. exists (mkBlock 1 l). cbn; rewrite lookup_insert_eq. split; [done|]. split; [done|done]. }
  split_and!; [done|done|]. unfold contents. cbn [s' items]. rewrite lookup_insert_eq. cbn. eapply window_all; [cbn; by rewrite lookup_insert_eq|done].
Qed.

Lemma new_array s h l : inv s -> items s !! h = None -> blen l < 2^32 -> l <> [] ->
  let s' := mkState (fresh_block s l) (<[h := Arr (heap_sga (Some (next (mem s), 0%nat)) (length l))]> (items s)) in
  inv s' /\ others (eq h) s s' /\ contents s' h = Some l /\ whole (mem s') (heap_sga (Some (next (mem s), 0%nat)) (length l)).
Proof.
  intros I Hh Hl Hn s'. assert (Hw : sgaseg_len (sga_segs (heap_sga (Some (next (mem s), 0%nat)) (length l))) = blen l) by (cbn; rewrite wrap32_small; [done|split; [lia|exact Hl]]).
  assert (Hw' : Z.to_nat (wrap32 (Z.of_nat (length l))) = length l) by (apply wrap32_nat; exact Hl).
  destruct (sga_inv_add s h (Arr (heap_sga (Some (next (mem s), 0%nat)) (length l))) l I Hh eq_refl Hl) as [I' O'].
  { split; [done|]. split; [done|]. rewrite Hw. split; [unfold blen in *; lia|]. exists (next (mem s)). split; [done|]. exists (mkBlock 1 l). cbn. rewrite lookup_insert_eq.
    split; [done|]. split; [|done]. unfold blen. lia. }
  split_and!; [done|done| |].
  - unfold contents. cbn [s' items]. rewrite lookup_insert_eq. cbn. rewrite Hw'. eapply window_all; [cbn; by rewrite lookup_insert_eq|done].
  - exists (next (mem s)), (mkBlock 1 l). cbn. rewrite lookup_insert_eq. split; [done|]. split; [done|]. split; [|done]. rewrite wrap32_small; [done|split; [lia|exact Hl]].
Qed.

Lemma replicate_blen n : blen (replicate n 0) = Z.of_nat n.
Proof. unfold blen. by rewrite length_replicate. Qed.

Lemma sga_new_ok h n s : inv s -> Z.of_nat n < 2^32 -> correct (ENew h n) s.
Proof.
  intros I Hn. unfold correct. cbn [step]. unfold create. destruct (items s !! h) eqn:Hh; [split; [done|]; split; [apply others_refl|by rewrite Hh]|].
  unfold as_item, HeapBuffer.new, mbind, outcome_bind, M_bind. destruct (Nat.eqb_spec n 0) as [->|H0]; cbn.
  - rewrite same_state. split; [done|]. split; [apply others_refl|]. intros _. unfold contents. by rewrite Hh.
  - pose proof (new_buffer s h (replicate n 0) I Hh) as (I' & O' & C'); [by rewrite replicate_blen|]. rewrite length_replicate in *. split; [done|]. split; [done|].
    intros _. by rewrite (proj2 (Nat.eqb_neq n 0)).
Qed.

Lemma slice_ok h l s : inv s -> blen l < 2^32 -> correct (ESlice h l) s.
Proof.
  intros I Hn. unfold correct. cbn [step]. unfold create. destruct (items s !! h) eqn:Hh; [split; [done|]; split; [apply others_refl|by rewrite Hh]|].
  destruct (new_buffer s h l I Hh Hn) as (I' & O' & C'). split; [done|]. by split.
Qed.

Lemma sga_alloc_ok h n s : inv s -> Z.of_nat n < 2^32 -> correct (EAlloc h n) s.
Proof.
  intros I Hn. unfold correct. cbn [step]. unfold create. destruct (items s !! h) eqn:Hh; [split; [done|]; split; [apply others_refl|]; split; [by rewrite Hh|by rewrite Hh]|].
  unfold as_item, LinuxMemory.alloc_sgarray, HeapBuffer.new, mbind, outcome_bind, M_bind. destruct (Nat.eqb_spec n 0) as [->|H0]; cbn.
  - rewrite same_state. split; [done|]. split; [apply others_refl|]. split; [intros _; unfold contents; by rewrite Hh|intros a _; cbn; congruence].
  - pose proof (new_array s h (replicate n 0) I Hh) as (I' & O' & C' & W'); [by rewrite replicate_blen|by destruct n|]. rewrite length_replicate in *. split; [done|]. split; [done|].
    split; [intros _; by rewrite (proj2 (Nat.eqb_neq n 0))|]. intros a _ Ha. cbn in Ha. rewrite lookup_insert_eq in Ha. by injection Ha as <-.
Qed.

Lemma sga_clone_ok h h' s : inv s -> correct (EClone h h') s.
Proof.
  intros I. unfold correct. cbn [step]. destruct (items s !! h) as [[d|a]|] eqn:Hh; [|split; [done|]; split; [apply others_refl|]; rewrite Hh; by intros ? ?..].
  unfold create. destruct (items s !! h') eqn:Hh'; [split; [done|]; split; [apply others_refl|]; rewrite Hh'; by intros ? ? ?|].
  unfold HeapBuffer.clone. destruct (HeapBuffer.data d) as [b|] eqn:Hd.
  - destruct (in_range_block _ (Buf d) b (i_range _ I h _ Hh) Hd) as (blk & Hb & _). unfold Arc.clone, Arc.get, mbind, outcome_bind, M_bind. rewrite Hb. cbn.
    destruct (inv_share s h' h (Buf d) b blk I Hh' Hh Hd Hb) as (I' & O' & C'). split; [done|]. split; [done|]. by intros ? _ _.
  - cbn. destruct (inv_share_none s h' h d I Hh' Hh Hd) as (I' & O' & C'). split; [done|]. split; [done|]. by intros ? _ _.
Qed.

(** The window of a buffer shrinks. *)
Lemma shrink_ok s h d d' (f : list Z -> list Z) : inv s -> items s !! h = Some (Buf d) -> HeapBuffer.data d' = HeapBuffer.data d ->
  (HeapBuffer.offset d' + HeapBuffer.len d' <= HeapBuffer.offset d + HeapBuffer.len d)%nat -> (HeapBuffer.len d = 0 -> HeapBuffer.len d' = 0)%nat ->
  (forall l, (HeapBuffer.offset d + HeapBuffer.len d <= length l)%nat -> take (HeapBuffer.len d') (drop (HeapBuffer.offset d') l) = f (take (HeapBuffer.len d) (drop (HeapBuffer.offset d) l))) -> f [] = [] ->
  let s' := mkState (mem s) (<[h := Buf d']> (items s)) in inv s' /\ others (eq h) s s' /\ contents s' h = f <$> contents s h.
Proof.
  intros I Hh Hd Hle H0 Hf Hn s'. pose proof (i_range _ I h _ Hh) as Hr. cbn in Hr. destruct (inv_replace s h (Buf d) (Buf d') I Hh) as [I' O']; [done| |].
  - cbn. rewrite Hd. destruct (HeapBuffer.data d) as [b|]; [|by apply H0]. destruct Hr as (x & H1 & H2 & H3). exists x. split_and!; [done|lia|done].
  - split_and!; [done|done|]. unfold contents. cbn [s' items]. rewrite lookup_insert_eq, Hh. cbn. rewrite Hd. destruct (HeapBuffer.data d) as [b|]; [|cbn; by rewrite Hn].
    destruct Hr as (x & H1 & H2 & H3). unfold window. rewrite H1. cbn. by rewrite Hf.
Qed.

Lemma adjust_ok h n s : inv s -> correct (EAdjust h n) s.
Proof.
  intros I. unfold correct. cbn [step]. unfold update. destruct (items s !! h) as [[d|a]|] eqn:Hh; cbn [on_buf].
  - unfold HeapBuffer.adjust. destruct (Nat.ltb_spec (HeapBuffer.len d) n); cbn; [by exists d|].
    destruct (shrink_ok s h d (HeapBuffer.mk (HeapBuffer.data d) (HeapBuffer.offset d + n) (HeapBuffer.len d - n)) (drop n) I Hh) as (I' & O' & C'); cbn; try done; try lia.
    + intros l Hl. rewrite <- drop_drop. by rewrite skipn_firstn_comm.
    + apply drop_nil.
  - run. rewrite (insert_id _ _ _ Hh), same_state. split; [done|]. split; [apply others_refl|]. rewrite Hh. by intros ? ?.
  - split; [done|]. split; [apply others_refl|]. rewrite Hh. by intros ? ?.
Qed.

Lemma sga_trim_ok h n s : inv s -> correct (ETrim h n) s.
Proof.
  intros I. unfold correct. cbn [step]. unfold update. destruct (items s !! h) as [[d|a]|] eqn:Hh; cbn [on_buf].
  - unfold HeapBuffer.trim. destruct (Nat.ltb_spec (HeapBuffer.len d) n); cbn; [by exists d|].
    destruct (shrink_ok s h d (HeapBuffer.mk (HeapBuffer.data d) (HeapBuffer.offset d) (HeapBuffer.len d - n)) (fun l => take (length l - n) l) I Hh) as (I' & O' & C'); cbn; try done; try lia.
    intros l Hl. rewrite take_take, length_take, length_drop. f_equal. lia.
  - run. rewrite (insert_id _ _ _ Hh), same_state. split; [done|]. split; [apply others_refl|]. rewrite Hh. by intros ? ?.
  - split; [done|]. split; [apply others_refl|]. rewrite Hh. by intros ? ?.
Qed.

Lemma sga_write_ok h l s : inv s -> correct (EWrite h l) s.
Proof.
  intros I. unfold correct. cbn [step]. unfold update. destruct (items s !! h) as [[d|a]|] eqn:Hh; cbn [on_buf].
  - destruct (Nat.eqb_spec (length l) (HeapBuffer.len d)) as [Hl|Hl].
    2: { run. rewrite (insert_id _ _ _ Hh), same_state. split; [done|]. split; [apply others_refl|]. rewrite Hh. by intros ? [= <-]. }
    pose proof (i_range _ I h _ Hh) as Hr. cbn in Hr. unfold HeapBuffer.deref_mut. destruct (HeapBuffer.data d) as [b|] eqn:Hd.
    2: { run. rewrite (insert_id _ _ _ Hh), same_state. split; [done|]. split; [apply others_refl|]. intros d' Hd' _. rewrite Hh in Hd'. injection Hd' as <-.
         unfold contents. rewrite Hh. cbn. rewrite Hd. rewrite Hr in Hl. by destruct l. }
    destruct Hr as (x & Hx & Hle & _). destruct (i_count _ I b x Hx) as [Hc Hp]. unfold mbind, outcome_bind, M_bind, Arc.get. rewrite Hx.
    destruct (Z.eqb_spec (strong x) 1) as [H1|H1]; cbn [negb].
    2: { cbn. exists d, b. split_and!; [done|done|lia]. }
    rewrite (proj2 (Nat.leb_le _ _)) by done. cbn. rewrite (insert_id _ _ _ Hh). set (l' := _ ++ _).
    assert (Hl' : length l' = length (bytes x)) by (unfold l'; rewrite !length_app, length_take, length_drop; lia).
    destruct (inv_bytes s b x l' I Hx Hl') as [I' O']. split; [done|]. split.
    + intros k Hk. apply O'. intros (y & Hy & Ey). destruct Hk. eapply (sole_holder _ b h k (Buf d) y); [done|done|done|done|lia].
    + intros d' Hd' _. rewrite Hh in Hd'. injection Hd' as <-. unfold contents. cbn [items]. rewrite Hh. cbn. rewrite Hd. unfold window. cbn. rewrite lookup_insert_eq. cbn. f_equal.
      unfold l'. rewrite drop_app_ge by (rewrite length_take; lia). rewrite length_take. replace (HeapBuffer.offset d - _)%nat with 0%nat by lia. rewrite drop_0, <- Hl. apply take_app_length.
  - run. rewrite (insert_id _ _ _ Hh), same_state. split; [done|]. split; [apply others_refl|]. rewrite Hh. by intros ? ?.
  - split; [done|]. split; [apply others_refl|]. rewrite Hh. by intros ? ?.
Qed.

Lemma inv_drop_none s h d : inv s -> items s !! h = Some (Buf d) -> HeapBuffer.data d = None ->
  let s' := mkState (mem s) (delete h (items s)) in inv s' /\ others (eq h) s s'.
Proof.
  intros I Hh Hd s'. split.
  - split; cbn [s' mem items].
    + intros b y Hy. destruct (i_count _ I b y Hy) as [-> H0]. rewrite (holders_gone _ _ _ b Hh), holds_false in * by (cbn; congruence). lia.
    + intros k y [_ Hk]%lookup_delete_Some. by eapply I.
    + apply I.
  - intros k Hk. unfold contents. cbn. by rewrite lookup_delete_ne.
Qed.

Lemma sga_drop_ok h s : inv s -> correct (EDrop h) s.
Proof.
  intros I. unfold correct. cbn [step]. unfold update. destruct (items s !! h) as [[d|a]|] eqn:Hh; cbn [on_buf].
  - unfold HeapBuffer.drop. destruct (HeapBuffer.data d) as [b|] eqn:Hd.
    + destruct (sga_inv_drop s h (Buf d) b I Hh Hd) as (mm & E & I' & O'). unfold mbind, outcome_bind, M_bind. rewrite E. cbn. split; [done|]. split; [done|]. intros ? _. apply lookup_delete_eq.
    + cbn. destruct (inv_drop_none s h d I Hh Hd) as [I' O']. split; [done|]. split; [done|]. intros ? _. apply lookup_delete_eq.
  - run. rewrite (insert_id _ _ _ Hh), same_state. split; [done|]. split; [apply others_refl|]. rewrite Hh. by intros ? ?.
  - split; [done|]. split; [apply others_refl|]. rewrite Hh. by intros ? ?.
Qed.

Lemma poke_ok h i v s : inv s -> correct (EPoke h i v) s.
Proof.
  intros I. unfold correct. cbn [step]. unfold update. destruct (items s !! h) as [[d|a]|] eqn:Hh; cbn [on_arr].
  - run. rewrite (insert_id _ _ _ Hh), same_state. split; [done|]. split; [apply others_refl|]. rewrite Hh. by intros ? ?.
  - pose proof (i_range _ I h _ Hh) as (_ & _ & Hl & b & Hp & x & Hx & Hle & Hlt). unfold poke_array, poke. rewrite Hp. destruct (Z.ltb_spec (Z.of_nat i) (sgaseg_len (sga_segs a))) as [Hi|Hi].
    + unfold mbind, outcome_bind, M_bind, Arc.get. rewrite Hx. rewrite (proj2 (Nat.ltb_lt _ _)) by lia. cbn. rewrite (insert_id _ _ _ Hh).
      destruct (inv_bytes s b x (<[i := v]> (bytes x)) I Hx) as [I' O']; [apply length_insert|]. split; [done|]. split.
      * intros k Hk. apply O'. intros (y & Hy & Ey). destruct Hk. exists (Arr a), y. split_and!; [done|done|]. cbn. by rewrite Hp, Ey.
      * intros a' l Ha Hc. rewrite Hh in Ha. injection Ha as <-. unfold contents in *. cbn [items]. rewrite Hh in *. cbn in *. rewrite Hp in *. unfold window in *. cbn. rewrite lookup_insert_eq, Hx in *.
        cbn [bytes]. rewrite drop_0 in *. injection Hc as <-. f_equal. by rewrite take_insert_lt by lia.
    + run. rewrite (insert_id _ _ _ Hh), same_state. split; [done|]. split; [apply others_refl|]. intros a' l Ha Hc. rewrite Hh in Ha. injection Ha as <-. rewrite Hc.
      unfold contents in Hc. rewrite Hh in Hc. cbn in Hc. rewrite Hp in Hc. unfold window in Hc. rewrite Hx in Hc. injection Hc as <-. by rewrite list_insert_ge by (rewrite length_take; lia).
  - split; [done|]. split; [apply others_refl|]. rewrite Hh. by intros ? ?.
Qed.

(** Copying an array. *)
Lemma array_read m a l : in_range m (Arr a) -> shows m (Arr a) = Some l -> read (sgaseg_buf (sga_segs a)) (Z.to_nat (sgaseg_len (sga_segs a))) m = Ret (l, m) /\ blen l < 2^32.
Proof.
  intros (_ & _ & Hl & b & Hp & x & Hx & Hle & Hlt). cbn. rewrite Hp. unfold window. rewrite Hx. intros [= <-]. split.
  - unfold read, mbind, M_bind, Arc.get. rewrite Hx, (proj2 (Nat.leb_le _ _)) by done. done.
  - unfold blen in *. rewrite length_take, length_drop. lia.
Qed.

Lemma range_shows m x : in_range m x -> exists l, shows m x = Some l.
Proof.
  destruct x as [d|a]; cbn.
  - destruct (HeapBuffer.data d) as [b|]; [|by eexists]. intros (x & Hx & _). unfold window. rewrite Hx. by eexists.
  - intros (_ & _ & _ & b & -> & x & Hx & _). unfold window. rewrite Hx. by eexists.
Qed.

Lemma send_ok a h s : inv s -> correct (ESend a h) s.
Proof.
  intros I. unfold correct. cbn [step]. destruct (items s !! a) as [[d|g]|] eqn:Ha; [split; [done|]; split; [apply others_refl|]; rewrite Ha; by intros ? ?| |split; [done|]; split; [apply others_refl|]; rewrite Ha; by intros ? ?].
  unfold create. destruct (items s !! h) eqn:Hh; [split; [done|]; split; [apply others_refl|]; rewrite Hh; by intros ? ? ?|].
  pose proof (i_range _ I a _ Ha) as Hr. destruct (range_shows _ _ Hr) as [l Hs]. destruct (array_read _ _ _ Hr Hs) as [Hread Hl]. pose proof Hr as (_ & Hn & _).
  unfold as_item, LinuxMemory.clone_sgarray. rewrite Hn. cbn [Z.eqb Pos.eqb negb]. unfold mbind, outcome_bind, M_bind. rewrite Hread. cbn.
  destruct (new_buffer s h l I Hh Hl) as (I' & O' & C'). split; [done|]. split; [done|]. intros ? _ _. transitivity (Some l); [exact C'|]. unfold contents. by rewrite Ha.
Qed.

Lemma free_ok a s : inv s -> correct (EFree a) s.
Proof.
  intros I. unfold correct. cbn [step]. unfold update. destruct (items s !! a) as [[d|g]|] eqn:Ha; cbn [on_arr].
  - run. rewrite (insert_id _ _ _ Ha), same_state. split; [done|]. split; [apply others_refl|]. rewrite Ha. by intros ? ?.
  - pose proof (i_range _ I a _ Ha) as (_ & Hn & Hl & b & Hp & x & Hx & Hle & Hlt). unfold LinuxMemory.free_sgarray, HeapBuffer.from_raw_parts. rewrite Hn, Hp. cbn [Z.eqb Pos.eqb negb].
    destruct (Nat.eqb_spec (Z.to_nat (sgaseg_len (sga_segs g))) 0) as [H0|H0].
    { run. rewrite (insert_id _ _ _ Ha), same_state. split; [done|]. split; [apply others_refl|]. rewrite Ha. intros ? [= <-] (b' & x' & W1 & W2 & W3 & W4). exfalso.
      assert (blen (bytes x') <> 0) by (unfold blen; destruct (bytes x'); [done|cbn; lia]). lia. }
    unfold mbind, outcome_bind, M_bind, Arc.from_raw, Arc.get. unfold mbind, M_bind. rewrite Hx. cbn [Nat.eqb andb]. destruct (Nat.eqb_spec (Z.to_nat (sgaseg_len (sga_segs g))) (length (bytes x))) as [E|E]; cbn.
    + destruct (sga_inv_drop s a (Arr g) b I Ha) as (mm & Ed & I' & O'); [cbn; by rewrite Hp|]. unfold HeapBuffer.drop. cbn. rewrite Ed. cbn. split; [done|]. split; [done|]. intros ? _ _. apply lookup_delete_eq.
    + exists g. split; [done|]. intros (b' & x' & W1 & W2 & W3 & W4). rewrite Hp in W1. injection W1 as <-. rewrite Hx in W2. injection W2 as <-. unfold blen in W3. lia.
  - split; [done|]. split; [apply others_refl|]. rewrite Ha. by intros ? ?.
Qed.

Lemma heap_eta m : mkHeap (blocks m) (next m) = m.
Proof. by destruct m. Qed.

(** Cloning a reference and dropping the original. *)
Lemma clone_then_drop m b x : blocks m !! b = Some x -> 0 < strong x -> (_ ← Arc.clone b; Arc.drop b) m = Ret (tt, m).
Proof.
  intros Hx Hp. unfold Arc.clone, Arc.drop, Arc.get, Arc.put, mbind, M_bind. rewrite Hx. cbn. rewrite lookup_insert_eq. cbn. rewrite (proj2 (Z.eqb_neq _ _)) by lia.
  cbn. rewrite insert_insert_eq, Z.add_simpl_r. rewrite insert_id; [by rewrite heap_eta|]. rewrite Hx. by destruct x.
Qed.

Lemma pop_ok h s : inv s -> correct (EPop h) s.
Proof.
  intros I. unfold correct. cbn [step]. unfold update. destruct (items s !! h) as [[d|a]|] eqn:Hh; cbn [on_buf].
  - pose proof (i_range _ I h _ Hh) as Hr. cbn in Hr. unfold as_item, LinuxMemory.into_sgarray, HeapBuffer.clone, HeapBuffer.into_raw, HeapBuffer.drop.
    destruct (HeapBuffer.data d) as [b|] eqn:Hd.
    + destruct Hr as (x & Hx & Hle & Hlt). pose proof (i_count _ I b x Hx) as [_ Hp]. pose proof (clone_then_drop _ _ _ Hx Hp) as E.
      unfold mbind, outcome_bind, M_bind in *. destruct (Arc.clone b (mem s)) as [[[] m1]| |]; try done. unfold mret, M_ret. rewrite Hd. rewrite E.
      assert (Hlen : Z.of_nat (HeapBuffer.len d) < 2^32) by (unfold blen in Hlt; lia). cbn [Arc.into_raw].
      destruct (inv_replace s h (Buf d) (Arr (heap_sga (Some (b, 0%nat)) (HeapBuffer.len d))) I Hh) as [I' O']; [done| |].
      { split; [done|]. split; [done|]. cbn [heap_sga sga_segs sgaseg_len sgaseg_buf]. rewrite wrap32_small by (split; [lia|done]). split; [lia|]. exists b. split; [done|]. exists x. split; [done|]. split; [lia|done]. }
      split; [done|]. split; [done|]. intros d' b' Hd' Hb'. rewrite Hh in Hd'. injection Hd' as <-. rewrite Hd in Hb'. injection Hb' as <-. eexists. split; [apply lookup_insert_eq|].
      unfold contents. cbn [items mem]. rewrite lookup_insert_eq, Hh. cbn. rewrite (wrap32_nat _ Hlen), Hd. split; [done|]. by intros ->.
    + run. rewrite Hd. destruct (inv_drop_none s h d I Hh Hd) as [I' O']. split; [done|]. split; [done|]. intros d' b' Hd' Hb'. rewrite Hh in Hd'. injection Hd' as <-. congruence.
  - run. rewrite (insert_id _ _ _ Hh), same_state. split; [done|]. split; [apply others_refl|]. rewrite Hh. by intros ? ? ?.
  - split; [done|]. split; [apply others_refl|]. rewrite Hh. by intros ? ? ?.
Qed.

Lemma sga_step_ok e s : inv s -> reasonable e -> correct e s.
Proof.
  intros I Hr. destruct e; cbn in Hr; auto using sga_new_ok, slice_ok, sga_clone_ok, adjust_ok, sga_trim_ok, sga_write_ok, sga_drop_ok, sga_alloc_ok, poke_ok, send_ok, free_ok, pop_ok.
Qed.

Lemma sga_reach_inv s : reach s -> inv s.
Proof.
  induction 1 as [n|e s s' _ IH Hr E].
  - split; cbn; [done|done|]. intros b [? ?]. done.
  - pose proof (sga_step_ok e s IH Hr) as C. unfold correct in C. rewrite E in C. apply C.
Qed.

(** Reading through the code's own accessors gives the contents. *)
Lemma deref_shows m d : in_range m (Buf d) -> exists l, HeapBuffer.deref d m = Ret (l, m) /\ shows m (Buf d) = Some l /\ length l = HeapBuffer.len d.
Proof.
  unfold HeapBuffer.deref. cbn. destruct (HeapBuffer.data d) as [b|]; [|intros ->; by exists []]. intros (x & Hx & Hle & _). unfold mbind, M_bind, Arc.get, window.
  rewrite Hx, (proj2 (Nat.leb_le _ _)) by done. eexists. split; [done|]. split; [done|]. rewrite length_take, length_drop. lia.
Qed.

(** A block is in the heap exactly when something holds it. *)
Lemma no_leak s b : inv s -> is_Some (blocks (mem s) !! b) <-> exists h x, items s !! h = Some x /\ block_of x = Some b.
Proof.
  intros I. split.
  - intros [x Hx]. destruct (i_count _ I b x Hx) as [Hc Hp]. destruct (decide (exists h y, items s !! h = Some y /\ block_of y = Some b)) as [|N]; [done|]. exfalso.
    assert (holders (items s) b = 0%nat); [|lia]. apply map_size_empty_iff, map_empty_filter. intros h y Hh Hy. apply bool_decide_unpack in Hy. destruct N. by exists h, y.
  - intros (h & x & Hh & E). destruct (in_range_block _ _ _ (i_range _ I h x Hh) E) as (blk & -> & _). by eexists.
Qed.

(** C20: Buffers and scatter-gather arrays are memory safe.  In every state a library and its
    application reach by creating, sharing, shrinking, writing and dropping buffers, allocating,
    filling, sending and freeing arrays, and turning received buffers into arrays: a block is in the
    heap exactly while something holds it and its count is the number of holders (no leak, no
    dangling pointer); every buffer and array can be read and shows its contents; and every further
    operation either returns and does exactly what it promises, leaving the contents of everything
    else unchanged (a send copies, so later stores to the array do not reach it; a buffer that
    starts at the front of its block becomes an array with the same bytes), except that a store of
    the application into an array may be seen by the buffers and arrays on the same block (a received
    buffer that was cloned before it became an array); or it is one of the named misuses: shrinking
    past the end, writing to a shared buffer, and giving back an array that is not a whole block. *)
Theorem sgarrays_are_safe (s : state) :
  reach s ->
  (forall b, is_Some (blocks (mem s) !! b) <-> exists h x, items s !! h = Some x /\ block_of x = Some b) /\
  (forall b x, blocks (mem s) !! b = Some x -> strong x = Z.of_nat (holders (items s) b)) /\
  (forall h d, items s !! h = Some (Buf d) -> exists l, HeapBuffer.deref d (mem s) = Ret (l, mem s) /\ contents s h = Some l) /\
  (forall h a, items s !! h = Some (Arr a) -> exists l, read (sgaseg_buf (sga_segs a)) (Z.to_nat (sgaseg_len (sga_segs a))) (mem s) = Ret (l, mem s) /\ contents s h = Some l) /\
  (forall e, reasonable e -> match step e s with Ret s' => effect e s s' | Panic _ => misuse e s | Diverge => False end).
Proof.
  intros I%sga_reach_inv. split_and!.
  - intros b. by apply no_leak.
  - intros b x Hx. by apply I.
  - intros h d Hh. destruct (deref_shows _ _ (i_range _ I h _ Hh)) as (l & E & Hs & _). exists l. split; [done|]. unfold contents. by rewrite Hh.
  - intros h a Hh. pose proof (i_range _ I h _ Hh) as Hr. destruct (range_shows _ _ Hr) as [l Hs]. destruct (array_read _ _ _ Hr Hs) as [E _]. exists l. split; [done|].
    unfold contents. by rewrite Hh.
  - intros e Hr. pose proof (sga_step_ok e s I Hr) as C. unfold correct in C. destruct (step e s); [by destruct C|done|done].
Qed.

(** ** Executions *)

Fixpoint run_all (es : list event) (s : state) : outcome state :=
  match es with
  | [] => Ret s
  | e :: es => s ← step e s; run_all es s
  end.

Definition start : state := mkState (mkHeap ∅ 1) ∅.

Lemma run_all_reach es : forall s s', reach s -> Forall reasonable es -> run_all es s = Ret s' -> reach s'.
Proof.
  induction es as [|e es IH]; intros s s' R Hr E; cbn in E; [by injection E as <-|]. destruct (step e s) as [s1| |] eqn:E1; try done. inversion_clear Hr.
  eapply IH; [|done|done]. by eapply reach_step.
Qed.

(** What an item shows after some events. *)
Definition after (es : list event) (h : Z) : option (list Z) :=
  match run_all es start with Ret s => contents s h | _ => None end.

Lemma run_all_returns es s : match run_all es s with Ret _ => true | _ => false end = true -> exists s', run_all es s = Ret s'.
Proof. destruct (run_all es s); [by eexists|done|done]. Qed.

Definition demo_events : list event := [EAlloc 1 2; EPoke 1 0 7; ESend 1 2; EPoke 1 1 9; EFree 1].

(** An array is filled, sent and freed: the buffer that was sent keeps the bytes, and can be dropped. *)
Lemma sgarrays_are_safe_witness : exists s,
  reach s /\ after demo_events 2 = Some [7; 0] /\ after demo_events 1 = None /\ match step (EFree 3) s with Ret s' => effect (EFree 3) s s' | Panic _ => misuse (EFree 3) s | Diverge => False end.
Proof.
  destruct (run_all_returns demo_events start eq_refl) as [s E].
  assert (R : reach s) by (apply (run_all_reach demo_events start s); [apply (reach_start 1)|repeat constructor|exact E]).
  destruct (sgarrays_are_safe s R) as (_ & _ & _ & _ & H). exists s. split; [exact R|]. split; [reflexivity|]. split; [reflexivity|]. exact (H (EFree 3) I).
Defined.

(** A received frame whose first bytes were taken off as headers: the array shows the headers. *)
Example popped_array_shows_headers :
  after [ESlice 1 [1; 2; 3; 4; 5; 6]; EAdjust 1 4] 1 = Some [5; 6] /\ after [ESlice 1 [1; 2; 3; 4; 5; 6]; EAdjust 1 4; EPop 1] 1 = Some [1; 2].
Proof. split; reflexivity. Qed.

(** An array made from part of a block cannot be given back. *)
Example popped_array_cannot_be_freed :
  run_all [ESlice 1 [1; 2; 3; 4; 5; 6]; ETrim 1 2; EPop 1; EFree 1] start = Panic "Arc::from_raw of a pointer that Arc::into_raw did not return".
Proof. reflexivity. Qed.

End SgaHost.
