(* ===== verification/Net.v ===== *)
(** * Addresses, the IPv4 layer and its neighbours

    Models src/src/rust/inetstack/protocols/{ethernet2,ip,ipv4} and the UDP header of
    .../udp/datagram/header.rs: the header records, their parsers with every rejection, their
    serializers as writes into a caller-supplied slice, and the Internet checksum. *)

From S2P Require Import Prelude Buffer.

(** ** Addresses *)

(** [std::net::Ipv4Addr], by its 32-bit value; [octets] is its big-endian form. *)
Abbreviation Ipv4Addr := Z.
Definition octets (a : Ipv4Addr) : list Z := be32 a.
(** [Ipv4Addr::new(a, b, c, d)] *)
Definition Ipv4Addr_new (a b c d : Z) : Ipv4Addr := get32 [a; b; c; d].

Record SocketAddrV4 := mkAddr { ip : Ipv4Addr; port : Z }.

#[export] Instance SocketAddrV4_eq_dec : EqDecision SocketAddrV4.
Proof. solve_decision. Defined.
#[export] Instance SocketAddrV4_countable : Countable SocketAddrV4.
Proof.
  refine (inj_countable' (fun a => (ip a, port a)) (fun p => mkAddr (fst p) (snd p)) _).
  by intros [].
Defined.

(** A MAC address: six bytes. *)
Abbreviation MacAddress := (list Z).

(** ** Ethernet II (ethernet2/frame.rs, ethernet2/protocol.rs) *)

Inductive EtherType2 := EtArp | EtIpv4 | EtIpv6.

Definition EtherType2_to_u16 (e : EtherType2) : Z :=
  match e with EtArp => 0x806 | EtIpv4 => 0x800 | EtIpv6 => 0x86dd end.

Definition EtherType2_try_from (n : Z) : Result EtherType2 :=
  if n =? 0x806 then Ok EtArp
  else if n =? 0x800 then Ok EtIpv4
  else if n =? 0x86dd then Ok EtIpv6
  else Err (mkFail ENOTSUP "unsupported ETHERTYPE").

Module Ethernet2Header.

Record t := new { dst_addr : MacAddress; src_addr : MacAddress; ether_type : EtherType2 }.

Definition ETHERNET2_HEADER_SIZE : nat := 14.

Definition compute_size (self : t) : nat := ETHERNET2_HEADER_SIZE.

Definition parse (buf : list Z) : outcome (Result (t * list Z)) :=
  if Nat.ltb (length buf) ETHERNET2_HEADER_SIZE then fail EBADMSG "frame too small" else
  hdr_buf ← slice buf 0 ETHERNET2_HEADER_SIZE;
  dst ← slice hdr_buf 0 6;
  src ← slice hdr_buf 6 12;
  et ← read_u16 hdr_buf 12;
  ety ←? Ret (EtherType2_try_from et);
  rest ← Buffer.adjust buf (Z.of_nat ETHERNET2_HEADER_SIZE);
  Ret (Ok (new dst src ety, rest)).

Definition serialize (self : t) (buf : list Z) : outcome (list Z) :=
  if negb (Nat.eqb (length buf) ETHERNET2_HEADER_SIZE) then Panic "try_into" else
  buf ← write_at buf 0 (dst_addr self);
  buf ← write_at buf 6 (src_addr self);
  write_at buf 12 (be16 (EtherType2_to_u16 (ether_type self))).

(** The two setters of the switch build. *)
Definition set_dst_addr (self : t) (addr : MacAddress) : t := new addr (src_addr self) (ether_type self).
Definition set_src_addr (self : t) (addr : MacAddress) : t := new (dst_addr self) addr (ether_type self).

End Ethernet2Header.

(** ** The Internet checksum

    The three headers share the accumulation loops: 16-bit big-endian words summed into a
    [u32], and the final loop that subtracts 0xFFFF. *)

(** [state += NetworkEndian::read_u16(chunk) as u32] over [chunks_exact(2)], then the
    zero-padded remainder byte. *)
Fixpoint add_chunks (state : Z) (data : list Z) : Z :=
  match data with
  | a :: b :: rest => add_chunks (wrap32 (state + get16 [a; b])) rest
  | [b] => wrap32 (state + get16 [b; 0])
  | [] => state
  end.

Fixpoint fold_ffff_loop (fuel : nat) (state : Z) : outcome Z :=
  match fuel with
  | O => Diverge
  | S k => if state >? 0xffff then fold_ffff_loop k (state - 0xffff) else Ret state
  end.

(** [while state > 0xFFFF { state -= 0xFFFF; }]; the fuel is the number of iterations. *)
Definition fold_ffff (state : Z) : outcome Z :=
  fold_ffff_loop (S (Z.to_nat (state / 0xffff))) state.

(** [!state as u16] *)
Definition not_u16 (state : Z) : Z := wrap16 (Z.lnot state).

(** ** IPv4 (ip/protocol.rs, ipv4/datagram.rs) *)

Inductive IpProtocol := ICMPv4 | TCP | UDP.

Definition IpProtocol_to_u8 (p : IpProtocol) : Z :=
  match p with ICMPv4 => 0x01 | TCP => 0x06 | UDP => 0x11 end.

Definition IpProtocol_try_from (n : Z) : Result IpProtocol :=
  if n =? 0x01 then Ok ICMPv4
  else if n =? 0x06 then Ok TCP
  else if n =? 0x11 then Ok UDP
  else Err (mkFail ENOTSUP "unsupported IPv4 protocol").

Module Ipv4Header.

Record t := mk {
  version : Z; ihl : Z; dscp : Z; ecn : Z; total_length : Z; identification : Z;
  flags : Z; fragment_offset : Z; ttl : Z; protocol : IpProtocol; header_checksum : Z;
  src_addr : Ipv4Addr; dst_addr : Ipv4Addr
}.

Definition IPV4_HEADER_MIN_SIZE : nat := 20.
Definition IPV4_VERSION : Z := 4.
Definition IPV4_IHL_NO_OPTIONS : Z := 5.
Definition DEFAULT_IPV4_TTL : Z := 255.
Definition IPV4_CTRL_FLAG_EVIL : Z := 4.
Definition IPV4_CTRL_FLAG_DF : Z := 2.
Definition IPV4_CTRL_FLAG_MF : Z := 1.

Definition new (src dst : Ipv4Addr) (proto : IpProtocol) : t :=
  mk IPV4_VERSION IPV4_IHL_NO_OPTIONS 0 0 (Z.of_nat IPV4_HEADER_MIN_SIZE) 0
     IPV4_CTRL_FLAG_DF 0 DEFAULT_IPV4_TTL proto 0 src dst.

Definition compute_size (self : t) : nat := IPV4_HEADER_MIN_SIZE.

(** Words 0..4, then 6..9: the checksum word is skipped. *)
Definition compute_checksum (buf : list Z) : outcome Z :=
  w0 ← read_u16 buf 0;
  w1 ← read_u16 buf 2;
  w2 ← read_u16 buf 4;
  w3 ← read_u16 buf 6;
  w4 ← read_u16 buf 8;
  w6 ← read_u16 buf 12;
  w7 ← read_u16 buf 14;
  w8 ← read_u16 buf 16;
  w9 ← read_u16 buf 18;
  state ← fold_ffff (0xffff + w0 + w1 + w2 + w3 + w4 + w6 + w7 + w8 + w9);
  Ret (not_u16 state).

Definition parse (buf : list Z) : outcome (Result (t * list Z)) :=
  if Nat.ltb (length buf) IPV4_HEADER_MIN_SIZE then fail EBADMSG "ipv4 datagram too small" else
  b0 ← index buf 0;
  let version := Z.shiftr b0 4 in
  if negb (version =? IPV4_VERSION) then fail ENOTSUP "unsupported IP version" else
  let ihl := Z.land b0 0xf in
  let hdr_size := Z.to_nat (Z.shiftl ihl 2) in
  if Nat.ltb hdr_size IPV4_HEADER_MIN_SIZE then fail EBADMSG "ipv4 IHL is too small" else
  if Nat.ltb (length buf) hdr_size then fail EBADMSG "ipv4 datagram too small to fit in header" else
  hdr_buf ← slice buf 0 hdr_size;
  b1 ← index hdr_buf 1;
  let dscp := Z.shiftr b1 2 in
  let ecn := Z.land b1 3 in
  total_length ← read_u16 hdr_buf 2;
  if Nat.ltb (Z.to_nat total_length) hdr_size then fail EBADMSG "ipv4 datagram smaller than header" else
  if Nat.ltb (length buf) (Z.to_nat total_length) then fail EBADMSG "ipv4 datagram size mismatch" else
  identification ← read_u16 hdr_buf 4;
  b6 ← index hdr_buf 6;
  let flags := Z.shiftr b6 5 in
  if negb (Z.land flags IPV4_CTRL_FLAG_EVIL =? 0) then fail EBADMSG "ipv4 datagram is marked as evil" else
  if negb (Z.land flags IPV4_CTRL_FLAG_MF =? 0) then fail ENOTSUP "ipv4 fragmentation is not supported" else
  w6 ← read_u16 hdr_buf 6;
  let fragment_offset := Z.land w6 0x1fff in
  if negb (fragment_offset =? 0) then fail ENOTSUP "ipv4 fragmentation is not supported" else
  time_to_live ← index hdr_buf 8;
  if time_to_live =? 0 then fail EBADMSG "ipv4 datagram too old" else
  b9 ← index hdr_buf 9;
  protocol ←? Ret (IpProtocol_try_from b9);
  header_checksum ← read_u16 hdr_buf 10;
  if header_checksum =? 0xffff then fail EBADMSG "ipv4 checksum invalid" else
  expected ← compute_checksum hdr_buf;
  if negb (header_checksum =? expected) then fail EBADMSG "ipv4 checksum mismatch" else
  src_addr ← read_u32 hdr_buf 12;
  dst_addr ← read_u32 hdr_buf 16;
  let padding_bytes := blen buf - total_length in
  body ← Buffer.adjust buf (Z.of_nat hdr_size);
  body ← Buffer.trim body padding_bytes;
  Ret (Ok (mk version ihl dscp ecn total_length identification flags fragment_offset
             time_to_live protocol header_checksum src_addr dst_addr, body)).

Definition serialize (self : t) (buf : list Z) (payload_len : Z) : outcome (list Z) :=
  if negb (Nat.eqb (length buf) IPV4_HEADER_MIN_SIZE) then Panic "buffer to small" else
  buf ← write_at buf 0 [Z.lor (wrap8 (Z.shiftl (version self) 4)) (ihl self)];
  buf ← write_at buf 1 [Z.lor (wrap8 (Z.shiftl (dscp self) 2)) (Z.land (ecn self) 3)];
  buf ← write_at buf 2 (be16 (wrap16 (Z.of_nat IPV4_HEADER_MIN_SIZE + wrap16 payload_len)));
  buf ← write_at buf 4 (be16 (identification self));
  buf ← write_at buf 6
          (be16 (Z.lor (wrap16 (Z.shiftl (flags self) 13)) (Z.land (fragment_offset self) 0x1fff)));
  buf ← write_at buf 8 [ttl self];
  buf ← write_at buf 9 [IpProtocol_to_u8 (protocol self)];
  buf ← write_at buf 12 (octets (src_addr self));
  buf ← write_at buf 16 (octets (dst_addr self));
  checksum ← compute_checksum buf;
  write_at buf 10 (be16 checksum).

Definition get_src_addr (self : t) : Ipv4Addr := src_addr self.
Definition get_dest_addr (self : t) : Ipv4Addr := dst_addr self.
Definition get_protocol (self : t) : IpProtocol := protocol self.

End Ipv4Header.

(** ** UDP (udp/datagram/header.rs) *)

Module UdpHeader.

Record t := new { src_port : Z; dest_port : Z }.

Definition UDP_HEADER_SIZE : nat := 8.

Definition checksum (ipv4_hdr : Ipv4Header.t) (udp_hdr data : list Z) : outcome Z :=
  let src_octets := octets (Ipv4Header.get_src_addr ipv4_hdr) in
  let dst_octets := octets (Ipv4Header.get_dest_addr ipv4_hdr) in
  let state := add_chunks 0xffff src_octets in
  let state := add_chunks state dst_octets in
  let state := wrap32 (state + get16 [0; IpProtocol_to_u8 UDP]) in
  let state := wrap32 (state + wrap32 (blen udp_hdr + blen data)) in
  if negb (Nat.eqb (length udp_hdr) UDP_HEADER_SIZE) then Panic "try_into" else
  w0 ← read_u16 udp_hdr 0;
  w1 ← read_u16 udp_hdr 2;
  w2 ← read_u16 udp_hdr 4;
  let state := wrap32 (wrap32 (wrap32 (state + w0) + w1) + w2) in
  let state := add_chunks state data in
  state ← fold_ffff state;
  Ret (not_u16 state).

Definition parse_from_slice (ipv4_hdr : Ipv4Header.t) (buf : list Z) (checksum_offload : bool) :
  outcome (Result (t * list Z)) :=
  if Nat.ltb (length buf) UDP_HEADER_SIZE then fail EBADMSG "UDP segment too small" else
  hdr_buf ← slice buf 0 UDP_HEADER_SIZE;
  src_port ← read_u16 hdr_buf 0;
  dest_port ← read_u16 hdr_buf 2;
  len ← read_u16 hdr_buf 4;
  if negb (len =? blen buf) then fail EBADMSG "UDP length mismatch" else
  _ ←? (if checksum_offload then Ret (Ok tt) else
         payload_buf ← slice_from buf UDP_HEADER_SIZE;
         ck ← read_u16 hdr_buf 6;
         if ck =? 0 then Ret (Ok tt) else
         expected ← checksum ipv4_hdr hdr_buf payload_buf;
         if negb (ck =? expected) then fail EBADMSG "UDP checksum mismatch" else Ret (Ok tt));
  rest ← slice_from buf UDP_HEADER_SIZE;
  Ret (Ok (new src_port dest_port, rest)).

Definition serialize (self : t) (buf : list Z) (ipv4_hdr : Ipv4Header.t) (data : list Z)
  (checksum_offload : bool) : outcome (list Z) :=
  fixed_buf ← slice buf 0 UDP_HEADER_SIZE;
  fixed_buf ← write_at fixed_buf 0 (be16 (src_port self));
  fixed_buf ← write_at fixed_buf 2 (be16 (dest_port self));
  fixed_buf ← write_at fixed_buf 4 (be16 (wrap16 (Z.of_nat UDP_HEADER_SIZE + blen data)));
  ck ← (if checksum_offload then Ret 0 else checksum ipv4_hdr fixed_buf data);
  fixed_buf ← write_at fixed_buf 6 (be16 ck);
  write_at buf 0 fixed_buf.

End UdpHeader.

(** ** Lemmas *)

#[local] Strategy 1000 [Z.div Z.modulo Z.pow Z.lor Z.land Z.shiftl Z.shiftr].

Lemma fold_ffff_loop_spec fuel s :
  0 <= s -> s / 0xffff < Z.of_nat fuel ->
  exists r, fold_ffff_loop fuel s = Ret r /\ 0 <= r <= 0xffff /\
    r mod 0xffff = s mod 0xffff /\ (0 < s -> 0 < r).
Proof.
  revert s. induction fuel as [|k IH]; intros s Hs Hf.
  - exfalso. pose proof (Z.div_pos s 0xffff). lia.
  - simpl. destruct (Z.gtb_spec s 0xffff).
    + destruct (IH (s - 0xffff)) as (r & -> & Hr & Hm & Hp).
      * lia.
      * replace (s - 0xffff) with (s + (-1) * 0xffff) by lia.
        rewrite Z.div_add by lia. lia.
      * exists r. repeat split; try lia.
        rewrite Hm. replace (s - 0xffff) with (s + (-1) * 0xffff) by lia.
        by rewrite Z.mod_add by lia.
    + exists s. repeat split; lia.
Qed.

(** The folding loop ends, in the range of a [u16], congruent to the sum modulo 0xFFFF. *)
Lemma fold_ffff_spec s :
  0 <= s -> exists r, fold_ffff s = Ret r /\ 0 <= r <= 0xffff /\
    r mod 0xffff = s mod 0xffff /\ (0 < s -> 0 < r).
Proof.
  intros. apply fold_ffff_loop_spec; [done|].
  pose proof (Z.div_pos s 0xffff). lia.
Qed.

Lemma not_u16_eq s : 0 <= s <= 0xffff -> not_u16 s = 0xffff - s.
Proof.
  intros. unfold not_u16, wrap16, Z.lnot. replace (Z.pred (- s)) with (0xffff - s + (-1) * 2^16) by lia.
  rewrite Z.mod_add by lia. apply Z.mod_small. lia.
Qed.

Lemma add_chunks_ok state l : u32_ok state -> u32_ok (add_chunks state l).
Proof.
  revert state. induction l as [l IH] using (induction_ltof1 _ (@length Z)).
  intros state Hs. destruct l as [|a [|b l]]; simpl; [done|apply wrap32_ok|].
  apply IH; [unfold ltof; simpl; lia|apply wrap32_ok].
Qed.

(** The sum of the 16-bit big-endian words of a byte string (RFC 1071). *)
Fixpoint sum16 (l : list Z) : Z :=
  match l with
  | a :: b :: rest => (a * 2^8 + b) + sum16 rest
  | [b] => b * 2^8
  | [] => 0
  end.

Lemma add_chunks_sum16 state l :
  bytes_ok l -> 0 <= state -> state + 2^16 * blen l < 2^32 -> add_chunks state l = state + sum16 l.
Proof.
  revert state. induction l as [l IH] using (induction_ltof1 _ (@length Z)).
  intros state Hok Hs Hb. destruct l as [|a [|b l]]; simpl; [lia| |].
  - apply Forall_cons in Hok as [Ha _]. unfold u8_ok, blen in *. simpl in *.
    rewrite wrap32_small by (unfold u32_ok; lia). lia.
  - apply Forall_cons in Hok as [Ha Hok]. apply Forall_cons in Hok as [Hb' Hok].
    unfold u8_ok in *. rewrite !blen_cons in Hb. pose proof (blen_nonneg l).
    rewrite wrap32_small by (unfold u32_ok; lia).
    rewrite IH; [lia|unfold ltof; simpl; lia|done|lia|lia].
Qed.

(** The checksum of any 20-byte header is defined and is never 0xFFFF, the value [parse]
    rejects as invalid. *)
Lemma ipv4_checksum_defined l :
  length l = 20%nat -> bytes_ok l ->
  exists c, Ipv4Header.compute_checksum l = Ret c /\ 0 <= c < 0xffff /\
    (sum16 (take 10 l) + c + sum16 (drop 12 l)) mod 0xffff = 0.
Proof.
  intros Hl Hok. explode l Hl. unfold bytes_ok in Hok.
  repeat match goal with H : Forall _ (_ :: _) |- _ => apply Forall_cons in H as [? H] end.
  unfold u8_ok in *. unfold Ipv4Header.compute_checksum. run_bytes.
  match goal with |- context [fold_ffff ?e] => set (sum := e) end.
  destruct (fold_ffff_spec sum) as (r & Hr & Hb & Hm & Hp); [subst sum; lia|].
  assert (0 < r) by (apply Hp; subst sum; lia).
  rewrite Hr. run_bytes. exists (0xffff - r). rewrite not_u16_eq by lia.
  split; [done|]. split; [lia|]. subst sum. clear Hr Hp. cbn [sum16 take drop].
  Z.div_mod_to_equations. lia.
Qed.

Lemma EtherType2_roundtrip e : EtherType2_try_from (EtherType2_to_u16 e) = Ok e.
Proof. by destruct e. Qed.

Lemma IpProtocol_roundtrip p : IpProtocol_try_from (IpProtocol_to_u8 p) = Ok p.
Proof. by destruct p. Qed.

Lemma ethernet2_serialize_parse h buf payload :
  length buf = 14%nat ->
  length (Ethernet2Header.dst_addr h) = 6%nat -> length (Ethernet2Header.src_addr h) = 6%nat ->
  exists bytes, Ethernet2Header.serialize h buf = Ret bytes /\ length bytes = 14%nat /\
    Ethernet2Header.parse (bytes ++ payload) = Ret (Ok (h, payload)).
Proof.
  intros Hb Hd Hs. destruct h as [d s e]. simpl in *.
  explode buf Hb. explode d Hd. explode s Hs.
  unfold Ethernet2Header.serialize, Ethernet2Header.ETHERNET2_HEADER_SIZE.
  cbn [Ethernet2Header.dst_addr Ethernet2Header.src_addr Ethernet2Header.ether_type].
  eexists. split; [run_bytes; reflexivity|].
  split; [reflexivity|].
  unfold Ethernet2Header.parse, Ethernet2Header.ETHERNET2_HEADER_SIZE. run_bytes.
  rewrite be16_get16' by (destruct e; unfold u16_ok; simpl; lia).
  rewrite EtherType2_roundtrip. change (Z.of_nat 14) with 14.
  rewrite buffer_adjust_ok by (rewrite !blen_cons; pose proof (blen_nonneg payload); lia).
  done.
Qed.

(** An IPv4 header the stack can put on the wire and accept back. *)
Record ipv4_wf (h : Ipv4Header.t) : Prop := {
  ipv4_version : Ipv4Header.version h = 4;
  ipv4_ihl : Ipv4Header.ihl h = 5;
  ipv4_dscp : 0 <= Ipv4Header.dscp h < 64;
  ipv4_ecn : 0 <= Ipv4Header.ecn h < 4;
  ipv4_ident : u16_ok (Ipv4Header.identification h);
  ipv4_flags : Ipv4Header.flags h = 0 \/ Ipv4Header.flags h = Ipv4Header.IPV4_CTRL_FLAG_DF;
  ipv4_frag : Ipv4Header.fragment_offset h = 0;
  ipv4_ttl : 0 < Ipv4Header.ttl h < 2^8;
  ipv4_src : u32_ok (Ipv4Header.src_addr h);
  ipv4_dst : u32_ok (Ipv4Header.dst_addr h)
}.

(** [h] with the two fields that [serialize] computes. *)
Definition ipv4_on_wire (h : Ipv4Header.t) (len ck : Z) : Ipv4Header.t :=
  Ipv4Header.mk (Ipv4Header.version h) (Ipv4Header.ihl h) (Ipv4Header.dscp h) (Ipv4Header.ecn h)
    len (Ipv4Header.identification h) (Ipv4Header.flags h) (Ipv4Header.fragment_offset h)
    (Ipv4Header.ttl h) (Ipv4Header.protocol h) ck (Ipv4Header.src_addr h) (Ipv4Header.dst_addr h).

Lemma dscp_ecn_byte d e :
  0 <= d < 64 -> 0 <= e < 4 ->
  let b := Z.lor (wrap8 (Z.shiftl d 2)) (Z.land e 3) in
  Z.shiftr b 2 = d /\ Z.land b 3 = e /\ u8_ok b.
Proof.
  intros Hd He b. assert (b = d * 2^2 + e) as ->.
  { subst b. rewrite (land_ones_mod e 3 2), (Z.mod_small e) by lia.
    rewrite wrap8_small by (unfold u8_ok; rewrite Z.shiftl_mul_pow2; lia).
    by rewrite lor_shiftl_add by lia. }
  rewrite shiftr_div, (land_ones_mod _ 3 2) by lia. unfold u8_ok.
  Z.div_mod_to_equations. lia.
Qed.

(** The twenty bytes of the header, by their values. *)
Definition ipv4_bytes (h : Ipv4Header.t) (len ck : Z) : list Z :=
  [69; Z.lor (wrap8 (Z.shiftl (Ipv4Header.dscp h) 2)) (Z.land (Ipv4Header.ecn h) 3)]
  ++ be16 len ++ be16 (Ipv4Header.identification h) ++ be16 (Ipv4Header.flags h * 2^13)
  ++ [Ipv4Header.ttl h; IpProtocol_to_u8 (Ipv4Header.protocol h)] ++ be16 ck
  ++ octets (Ipv4Header.src_addr h) ++ octets (Ipv4Header.dst_addr h).

Lemma ipv4_bytes_ok h len ck : ipv4_wf h -> bytes_ok (ipv4_bytes h len ck).
Proof.
  intros []. destruct (dscp_ecn_byte _ _ ipv4_dscp0 ipv4_ecn0) as (_ & _ & ?).
  unfold ipv4_bytes, octets, bytes_ok. rewrite !Forall_app.
  repeat split; try apply be16_ok; try apply be32_ok.
  - constructor; [unfold u8_ok; lia|]. by constructor.
  - constructor; [unfold u8_ok; lia|]. constructor; [|done].
    destruct (Ipv4Header.protocol h); unfold u8_ok; simpl; lia.
Qed.

(** The checksum does not read its own field. *)
Lemma ipv4_checksum_skip pre x y x' y' post :
  length pre = 10%nat -> length post = 8%nat ->
  Ipv4Header.compute_checksum (pre ++ x :: y :: post) =
  Ipv4Header.compute_checksum (pre ++ x' :: y' :: post).
Proof. intros Hp Hq. explode pre Hp. explode post Hq. reflexivity. Qed.

Lemma ipv4_checksum_field h len c c' :
  Ipv4Header.compute_checksum (ipv4_bytes h len c) = Ipv4Header.compute_checksum (ipv4_bytes h len c').
Proof.
  unfold ipv4_bytes, octets. run_bytes.
  exact (ipv4_checksum_skip [_; _; _; _; _; _; _; _; _; _] _ _ _ _ [_; _; _; _; _; _; _; _]
           eq_refl eq_refl).
Qed.

(** The nine writes before the checksum cover every byte but those of the checksum. *)
Lemma ipv4_writes {A} b0 b1 l2 l4 l6 b8 b9 l12 l16 buf (k : list Z -> outcome A) :
  length buf = 20%nat -> length l2 = 2%nat -> length l4 = 2%nat -> length l6 = 2%nat ->
  length l12 = 4%nat -> length l16 = 4%nat ->
  (buf ← write_at buf 0 [b0]; buf ← write_at buf 1 [b1]; buf ← write_at buf 2 l2;
   buf ← write_at buf 4 l4; buf ← write_at buf 6 l6; buf ← write_at buf 8 [b8];
   buf ← write_at buf 9 [b9]; buf ← write_at buf 12 l12; buf ← write_at buf 16 l16; k buf) =
  k (([b0; b1] ++ l2 ++ l4 ++ l6 ++ [b8; b9]) ++ nth 10 buf 0 :: nth 11 buf 0 :: (l12 ++ l16)).
Proof.
  intros Hb H2 H4 H6 H12 H16.
  explode buf Hb. explode l2 H2. explode l4 H4. explode l6 H6. explode l12 H12. explode l16 H16.
  reflexivity.
Qed.

Lemma ipv4_serialize_with h buf n c :
  length buf = 20%nat -> ipv4_wf h -> 0 <= n -> 20 + n < 2^16 ->
  Ipv4Header.compute_checksum (ipv4_bytes h (20 + n) 0) = Ret c ->
  Ipv4Header.serialize h buf n = Ret (ipv4_bytes h (20 + n) c).
Proof.
  intros Hb [] Hn Hn' Hc. unfold Ipv4Header.serialize, Ipv4Header.IPV4_HEADER_MIN_SIZE, octets.
  rewrite Hb. change (Z.of_nat 20) with 20. cbn [Nat.eqb negb].
  rewrite (wrap16_small n), (wrap16_small (20 + n)) by (unfold u16_ok; lia).
  rewrite (wrap16_small (Z.shiftl (Ipv4Header.flags h) 13))
    by (destruct ipv4_flags0 as [-> | ->]; by vm_compute).
  rewrite ipv4_version0, ipv4_ihl0, ipv4_frag0, Z.land_0_l, Z.lor_0_r,
    (Z.shiftl_mul_pow2 (Ipv4Header.flags h)) by lia.
  change (Z.lor (wrap8 (Z.shiftl 4 4)) 5) with 69.
  rewrite ipv4_writes by done.
  erewrite ipv4_checksum_skip by reflexivity.
  unfold ipv4_bytes, octets in *. rewrite <- !app_assoc in *.
  cbn [be16 app] in Hc |- *. rewrite Hc. reflexivity.
Qed.

Lemma ipv4_bytes_sum h len c :
  u16_ok c ->
  sum16 (ipv4_bytes h len c) =
  sum16 (take 10 (ipv4_bytes h len 0)) + c + sum16 (drop 12 (ipv4_bytes h len 0)).
Proof.
  intros Hc. unfold ipv4_bytes, octets. run_bytes. cbn [sum16].
  rewrite (be16_get16' c) by done. lia.
Qed.

Lemma ipv4_serialize_bytes h buf n :
  length buf = 20%nat -> ipv4_wf h -> 0 <= n -> 20 + n < 2^16 ->
  exists c, Ipv4Header.serialize h buf n = Ret (ipv4_bytes h (20 + n) c) /\ 0 <= c < 0xffff /\
    Ipv4Header.compute_checksum (ipv4_bytes h (20 + n) c) = Ret c /\
    sum16 (ipv4_bytes h (20 + n) c) mod 0xffff = 0.
Proof.
  intros Hb Hwf Hn Hn'.
  destruct (ipv4_checksum_defined (ipv4_bytes h (20 + n) 0)) as (c & Hc & Hr & Hsum);
    [reflexivity|by apply ipv4_bytes_ok|].
  exists c. split; [by apply ipv4_serialize_with|]. split; [done|].
  rewrite (ipv4_checksum_field h _ c 0), ipv4_bytes_sum by (unfold u16_ok; lia).
  split; [exact Hc|exact Hsum].
Qed.

Lemma ipv4_parse_bytes h payload padding c :
  ipv4_wf h -> 20 + blen payload < 2^16 -> 0 <= c < 0xffff ->
  Ipv4Header.compute_checksum (ipv4_bytes h (20 + blen payload) c) = Ret c ->
  Ipv4Header.parse (ipv4_bytes h (20 + blen payload) c ++ payload ++ padding) =
    Ret (Ok (ipv4_on_wire h (20 + blen payload) c, payload)).
Proof.
  intros Hwf Hn Hc Hck. pose proof (blen_nonneg payload).
  destruct (dscp_ecn_byte _ _ (ipv4_dscp _ Hwf) (ipv4_ecn _ Hwf)) as (Hd & He & _).
  destruct Hwf. unfold Ipv4Header.parse.
  rewrite (proj2 (Nat.ltb_ge _ _)) by (rewrite !length_app; simpl; unfold Ipv4Header.IPV4_HEADER_MIN_SIZE; lia).
  unfold ipv4_bytes, octets, Ipv4Header.IPV4_HEADER_MIN_SIZE in *.
  revert Hck. run_bytes. unfold be32. intros Hck.
  change (Z.land 69 15) with 5. change (Z.shiftr 69 4) with 4.
  change (Z.to_nat (Z.shiftl 5 2)) with 20%nat. run_bytes. rewrite Hd, He.
  rewrite !be16_get16', !be32_get32' by
    (first [done | unfold u16_ok; lia | unfold u16_ok; destruct ipv4_flags0 as [-> | ->]; unfold Ipv4Header.IPV4_CTRL_FLAG_DF; lia]).
  rewrite (proj2 (Nat.ltb_ge (Z.to_nat _) _)) by lia.
  rewrite (proj2 (Nat.ltb_ge _ (Z.to_nat _))) by (rewrite length_app; unfold blen in *; lia).
  cbn [app]. rewrite take_0, Hck. clear Hck.
  assert (Hfl : Z.shiftr ((Ipv4Header.flags h * 2^13) / 2^8 mod 2^8) 5 = Ipv4Header.flags h /\
     Z.land (Ipv4Header.flags h) 4 = 0 /\ Z.land (Ipv4Header.flags h) 1 = 0 /\
     Z.land (Ipv4Header.flags h * 2^13) 0x1fff = 0)
    by (destruct ipv4_flags0 as [-> | ->]; by vm_compute).
  destruct Hfl as (-> & Hf4 & Hf1 & Hfo).
  unfold Ipv4Header.IPV4_CTRL_FLAG_EVIL, Ipv4Header.IPV4_CTRL_FLAG_MF.
  rewrite Hf4, Hf1, Hfo, IpProtocol_roundtrip.
  rewrite (proj2 (Z.eqb_neq (Ipv4Header.ttl h) 0)) by lia. cbn [mbind outcome_bind try_bind negb Z.eqb].
  rewrite (proj2 (Z.eqb_neq c 0xffff)), Z.eqb_refl by lia. cbn [mbind outcome_bind negb].
  rewrite buffer_adjust_ok by (rewrite !blen_cons, blen_app; pose proof (blen_nonneg padding); lia).
  change (Z.to_nat (Z.of_nat 20)) with 20%nat. simpl. rewrite drop_0, !blen_cons, blen_app.
  rewrite buffer_trim_ok by (rewrite blen_app; pose proof (blen_nonneg padding); lia).
  simpl. unfold ipv4_on_wire. rewrite ipv4_version0, ipv4_ihl0, ipv4_frag0.
  do 4 f_equal. rewrite blen_app.
  match goal with |- take (Z.to_nat ?e) _ = _ => replace e with (blen payload) by lia end.
  unfold blen. by rewrite Nat2Z.id, take_app_length.
Qed.

Lemma udp_checksum_defined ip hdr data :
  length hdr = 8%nat -> exists c, UdpHeader.checksum ip hdr data = Ret c /\ u16_ok c.
Proof.
  intros Hl. explode hdr Hl. unfold UdpHeader.checksum. simpl.
  match goal with |- context [fold_ffff ?e] => set (sum := e) end.
  destruct (fold_ffff_spec sum) as (r & -> & Hb & _).
  { apply add_chunks_ok, wrap32_ok. }
  eexists. split; [reflexivity|]. rewrite not_u16_eq by lia. unfold u16_ok. lia.
Qed.

(** The checksum looks at the addresses of the IPv4 header only. *)
Lemma udp_checksum_addrs ip ip' hdr data :
  Ipv4Header.get_src_addr ip' = Ipv4Header.get_src_addr ip -> Ipv4Header.get_dest_addr ip' = Ipv4Header.get_dest_addr ip ->
  UdpHeader.checksum ip' hdr data = UdpHeader.checksum ip hdr data.
Proof. intros Hs Hd. unfold UdpHeader.checksum. by rewrite Hs, Hd. Qed.

(** Whether the two sides compute the checksum or leave it to the hardware. *)
Lemma udp_serialize_parse h buf ip data off :
  length buf = 8%nat -> u16_ok (UdpHeader.src_port h) -> u16_ok (UdpHeader.dest_port h) ->
  8 + blen data < 2^16 ->
  exists bytes, UdpHeader.serialize h buf ip data off = Ret bytes /\ length bytes = 8%nat /\
    forall ip' off', Ipv4Header.get_src_addr ip' = Ipv4Header.get_src_addr ip -> Ipv4Header.get_dest_addr ip' = Ipv4Header.get_dest_addr ip ->
      UdpHeader.parse_from_slice ip' (bytes ++ data) off' = Ret (Ok (h, data)).
Proof.
  intros Hb Hs Hd Hn. pose proof (blen_nonneg data). explode buf Hb. destruct h as [sp dp].
  simpl in Hs, Hd.
  assert (Hw : wrap16 (8 + blen data) = 8 + blen data) by (apply wrap16_small; unfold u16_ok; lia).
  unfold UdpHeader.serialize. simpl. change (Z.of_nat UdpHeader.UDP_HEADER_SIZE) with 8. rewrite Hw.
  set (hdr := [sp / 2 ^ 8 mod 2 ^ 8; sp mod 2 ^ 8; dp / 2 ^ 8 mod 2 ^ 8; dp mod 2 ^ 8;
      (8 + blen data) / 2 ^ 8 mod 2 ^ 8; (8 + blen data) mod 2 ^ 8; z5; z6]).
  assert (exists c, (if off then Ret 0 else UdpHeader.checksum ip hdr data) = Ret c /\ u16_ok c /\
    (c = 0 \/ UdpHeader.checksum ip hdr data = Ret c)) as (c & Hc & Hcok & Hck).
  { destruct off; [exists 0; split; [done|]; split; [unfold u16_ok; lia|by left]|].
    destruct (udp_checksum_defined ip hdr data eq_refl) as (c & Hc & Ho). exists c. auto. }
  rewrite Hc. eexists. split; [reflexivity|]. split; [reflexivity|]. intros ip' off' Hsrc Hdst.
  unfold UdpHeader.parse_from_slice. simpl.
  rewrite !be16_get16' by (try done; unfold u16_ok; lia).
  rewrite (proj2 (Z.eqb_eq _ _)) by (rewrite !blen_cons; lia). simpl.
  rewrite drop_0. destruct off'; [done|]. simpl. destruct (Z.eqb_spec c 0) as [->|Hne]; [done|].
  destruct Hck as [|Hck]; [done|]. rewrite (udp_checksum_addrs ip ip') by done.
  match goal with |- context [UdpHeader.checksum ip ?l data] => change (UdpHeader.checksum ip l data) with (UdpHeader.checksum ip hdr data) end.
  rewrite Hck. simpl. by rewrite Z.eqb_refl.
Qed.

(** ** Properties *)

(** IPv4 headers round-trip.  Any header the stack builds, serialized into a fresh
    20-byte slice for a payload that fits a datagram, parses back (trailing link-layer padding
    included) to the same header with the length and checksum filled in, and to exactly the
    payload; and the sixteen-bit words of the emitted header sum to zero modulo 0xFFFF, which
    is RFC 1071's validity condition. *)
Theorem ipv4_roundtrip (h : Ipv4Header.t) (buf payload padding : list Z) :
  ipv4_wf h -> length buf = Ipv4Header.IPV4_HEADER_MIN_SIZE -> 20 + blen payload < 2^16 ->
  exists bytes c,
    Ipv4Header.serialize h buf (blen payload) = Ret bytes /\
    length bytes = Ipv4Header.IPV4_HEADER_MIN_SIZE /\
    Ipv4Header.parse (bytes ++ payload ++ padding) =
      Ret (Ok (ipv4_on_wire h (20 + blen payload) c, payload)) /\
    sum16 bytes mod 0xffff = 0.
Proof.
  intros Hwf Hb Hn.
  destruct (ipv4_serialize_bytes h buf (blen payload) Hb Hwf (blen_nonneg _) Hn)
    as (c & Hs & Hc & Hck & Hsum).
  exists (ipv4_bytes h (20 + blen payload) c), c. repeat split; try done.
  by apply ipv4_parse_bytes.
Qed.

Lemma ipv4_new_wf src dst p : u32_ok src -> u32_ok dst -> ipv4_wf (Ipv4Header.new src dst p).
Proof. intros. constructor; simpl; try done; try lia; unfold u16_ok; auto; lia. Qed.

Lemma ipv4_roundtrip_witness :
  exists bytes c,
    Ipv4Header.serialize (Ipv4Header.new 167772417 167772418 TCP) (replicate 20 7) 3 = Ret bytes /\
    Ipv4Header.parse (bytes ++ [1; 2; 3] ++ [0; 0]) =
      Ret (Ok (ipv4_on_wire (Ipv4Header.new 167772417 167772418 TCP) 23 c, [1; 2; 3])).
Proof.
  destruct (ipv4_roundtrip (Ipv4Header.new 167772417 167772418 TCP) (replicate 20 7) [1; 2; 3] [0; 0])
    as (bytes & c & H1 & _ & H2 & _).
  - apply ipv4_new_wf; unfold u32_ok; lia.
  - reflexivity.
  - vm_compute. reflexivity.
  - exists bytes, c. split; [exact H1 | exact H2].
Defined.
