(* ===== verification/TtlCache.v ===== *)
(** * The cache with expiration times
    (src/src/rust/inetstack/collections/hashttlcache/mod.rs)

    A map of living values and a graveyard of expired ones; a clean-up, at each insertion, buries
    what has expired by the cache's own clock.  Instants and durations are nanoseconds, unbounded.
    The operations are shown to agree with a map from keys to values and deadlines in which nothing
    is removed by time except at an insertion. *)

From S2P Require Import Prelude.

Module HashTtlCache.
Section cache.
Context {K V : Type} `{Countable K}.

Record Record_ := mkRecord { value : V; expiration : option Z }.

Definition has_expired (self : Record_) (now : Z) : bool :=
  match expiration self with
  | Some e => e <=? now
  | None => false
  end.

Record t := mk { living : gmap K Record_; graveyard : gmap K V; default_ttl : option Z; clock : Z }.

Definition check_ttl (ttl : option Z) : outcome unit :=
  match ttl with
  | Some ttl => if 0 <? ttl then Ret tt else Panic "assertion failed: ttl > Duration::new(0, 0)"
  | None => Ret tt
  end.

Definition new (now : Z) (default_ttl : option Z) : outcome t :=
  _ ← check_ttl default_ttl;
  Ret (mk ∅ ∅ default_ttl now).

Definition clear (self : t) : t := mk ∅ ∅ (default_ttl self) (clock self).

Definition advance_clock (self : t) (now : Z) : outcome t :=
  if clock self <=? now then Ret (mk (living self) (graveyard self) (default_ttl self) now)
  else Panic "assertion failed: now >= self.clock".

(** One dead entry moves to the graveyard. *)
Definition bury (self : t) (k : K) : outcome t :=
  match living self !! k with
  | Some v => Ret (mk (delete k (living self)) (<[k := value v]> (graveyard self)) (default_ttl self) (clock self))
  | None => Panic "called `Option::unwrap()` on a `None` value"
  end.

Fixpoint bury_all (self : t) (ks : list K) : outcome t :=
  match ks with
  | [] => Ret self
  | k :: ks => self ← bury self k; bury_all self ks
  end.

Definition dead_entries (self : t) : list K :=
  omap (fun p => if has_expired p.2 (clock self) then Some p.1 else None) (map_to_list (living self)).

Definition cleanup (self : t) : outcome t := bury_all self (dead_entries self).

Definition insert_with_ttl (self : t) (key : K) (v : V) (ttl : option Z) : outcome (option V * t) :=
  _ ← check_ttl ttl;
  let expiration := (fun ttl => clock self + ttl) <$> ttl in
  self ← cleanup self;
  let r := mkRecord v expiration in
  Ret (value <$> living self !! key, mk (<[key := r]> (living self)) (graveyard self) (default_ttl self) (clock self)).

Definition insert (self : t) (key : K) (v : V) : outcome (option V * t) := insert_with_ttl self key v (default_ttl self).

(** [todo!()] *)
Definition remove (self : t) (key : K) : outcome (option V * t) := Panic "not yet implemented".

Definition get (self : t) (key : K) : option V := value <$> living self !! key.

(** What the iterator yields, in some order. *)
Definition iter (self : t) : list (K * V) :=
  omap (fun p => if has_expired p.2 (clock self) then None else Some (p.1, value p.2)) (map_to_list (living self)).

(** ** Clean-up removes exactly what has expired *)

Definition alive (now : Z) (p : K * Record_) : Prop := has_expired p.2 now = false.

#[export] Instance alive_dec now p : Decision (alive now p).
Proof. unfold alive. apply _. Defined.

Lemma dead_entries_spec self k : k ∈ dead_entries self <-> exists r, living self !! k = Some r /\ has_expired r (clock self) = true.
Proof.
  unfold dead_entries. rewrite list_elem_of_omap. split.
  - intros ([k' r] & Hin & Hd). cbn in Hd. apply elem_of_map_to_list in Hin. destruct (has_expired r (clock self)) eqn:E; [|done].
    injection Hd as ->. by exists r.
  - intros (r & Hr & Hd). exists (k, r). split; [by apply elem_of_map_to_list|]. cbn. by rewrite Hd.
Qed.

Lemma dead_entries_nodup self : NoDup (dead_entries self).
Proof.
  unfold dead_entries. pose proof (NoDup_fst_map_to_list (living self)) as Hnd. revert Hnd.
  induction (map_to_list (living self)) as [|[k r] l IH]; cbn; [constructor|]. intros [Hk Hnd]%NoDup_cons.
  destruct (has_expired r (clock self)); [|by apply IH]. constructor; [|by apply IH].
  intros ([k' r'] & Hin & Hk')%list_elem_of_omap. cbn in Hk'. destruct (has_expired r' (clock self)); [|done]. injection Hk' as ->.
  apply Hk, list_elem_of_fmap. by exists (k, r').
Qed.

Lemma bury_all_ok self ks : NoDup ks -> (forall k, k ∈ ks -> is_Some (living self !! k)) ->
  exists self', bury_all self ks = Ret self' /\ clock self' = clock self /\ default_ttl self' = default_ttl self /\
    forall k, living self' !! k = if decide (k ∈ ks) then None else living self !! k.
Proof.
  revert self. induction ks as [|k ks IH]; intros self Hnd Hks; cbn [bury_all].
  - exists self. by split_and!.
  - apply NoDup_cons in Hnd as [Hk Hnd]. destruct (Hks k) as [r Hr]; [left|]. unfold bury. rewrite Hr. cbn [mbind outcome_bind].
    destruct (IH (mk (delete k (living self)) (<[k := value r]> (graveyard self)) (default_ttl self) (clock self)) Hnd) as (self' & -> & Hc & Hd & Hl).
    { intros j Hj. cbn. rewrite lookup_delete_ne by (by intros <-). apply Hks. by right. }
    exists self'. split_and!; try done. intros j. rewrite Hl. cbn. destruct (decide (j ∈ ks)) as [Hj|Hj].
    + by rewrite decide_True by (by right).
    + destruct (decide (j = k)) as [->|Hne]; [by rewrite lookup_delete_eq, decide_True by left|].
      by rewrite lookup_delete_ne, decide_False by (done || by intros [|]%elem_of_cons).
Qed.

Lemma cleanup_ok self : exists self', cleanup self = Ret self' /\ clock self' = clock self /\ default_ttl self' = default_ttl self /\
  living self' = filter (alive (clock self)) (living self).
Proof.
  destruct (bury_all_ok self (dead_entries self) (dead_entries_nodup self)) as (self' & Hb & Hc & Hd & Hl).
  { intros k (r & Hr & _)%dead_entries_spec. by exists r. }
  exists self'. split_and!; try done. apply map_eq. intros k. rewrite Hl. symmetry. case_decide as Hk.
  - apply dead_entries_spec in Hk as (r & Hr & He). apply map_lookup_filter_None. right. intros r' Hr'. unfold alive. cbn. congruence.
  - destruct (living self !! k) as [r|] eqn:Hr; [|by apply map_lookup_filter_None; left].
    apply map_lookup_filter_Some. split; [done|]. unfold alive. cbn. destruct (has_expired r (clock self)) eqn:E; [|done].
    exfalso. apply Hk, dead_entries_spec. eauto.
Qed.

(** An insertion never panics for a positive time to live; it stores the value with its deadline and
    buries the expired entries. *)
Lemma ttl_insert_ok self k v : (forall ttl, default_ttl self = Some ttl -> 0 < ttl) ->
  exists self', insert self k v = Ret (value <$> filter (alive (clock self)) (living self) !! k, self') /\
    clock self' = clock self /\ default_ttl self' = default_ttl self /\
    living self' = <[k := mkRecord v ((fun ttl => clock self + ttl) <$> default_ttl self)]> (filter (alive (clock self)) (living self)).
Proof.
  intros Ht. unfold insert, insert_with_ttl. assert (check_ttl (default_ttl self) = Ret tt) as ->.
  { unfold check_ttl. destruct (default_ttl self) as [ttl|]; [|done]. by rewrite (proj2 (Z.ltb_lt _ _) (Ht ttl eq_refl)). }
  cbn [mbind outcome_bind]. destruct (cleanup_ok self) as (self' & -> & Hc & Hd & Hl). cbn [mbind outcome_bind].
  eexists. split; [by rewrite Hl|]. cbn. split_and!; [done|done|done].
Qed.

(** The value just inserted is found, and another key keeps its value unless it had expired. *)
Lemma get_insert self self' k v o : (forall ttl, default_ttl self = Some ttl -> 0 < ttl) -> insert self k v = Ret (o, self') ->
  get self' k = Some v /\ forall j, j <> k -> get self' j = value <$> filter (alive (clock self)) (living self) !! j.
Proof.
  intros Ht Hi. destruct (ttl_insert_ok self k v Ht) as (s' & Hs & _ & _ & Hl). rewrite Hs in Hi. injection Hi as <- <-.
  unfold get. rewrite Hl, lookup_insert_eq. split; [done|]. intros j Hj. by rewrite lookup_insert_ne by congruence.
Qed.

End cache.
Arguments Record_ V : clear implicits.
Arguments t K V {_ _}.
End HashTtlCache.

(** [get] does not look at the expiration time: a value outlives its time to live until a later
    insertion buries it, although the iterator no longer yields it. *)
Example expired_value_is_returned :
  (c ← HashTtlCache.new (K := Z) (V := Z) 0 (Some 10);
   '(_, c) ← HashTtlCache.insert c 1 100;
   c ← HashTtlCache.advance_clock c 20;
   let before := (HashTtlCache.get c 1, HashTtlCache.iter c) in
   '(_, c) ← HashTtlCache.insert c 2 200;
   Ret (before, HashTtlCache.get c 1)) = Ret (Some 100, [], None).
Proof. vm_compute. reflexivity. Qed.
