(* ===== verification/Packet.v ===== *)
(** * Packets handed to the device
    (src/src/rust/runtime/network/mod.rs)

    A protocol transmits anything that can write its headers and give its body.  A device writes
    the headers into a zeroed area of their size and sends the body after them: the bytes on the
    wire are [wire]. *)

From S2P Require Import Prelude.

Class PacketBuf (A : Type) := {
  header_size : A -> nat;
  write_header : A -> list Z -> outcome (list Z);
  body_size : A -> nat;
  take_body : A -> option (list Z);
}.

Definition wire {A} `{PacketBuf A} (pkt : A) : outcome (list Z) :=
  hdr ← write_header pkt (replicate (header_size pkt) 0);
  Ret (hdr ++ default [] (take_body pkt)).

(** [f] applied to [&mut buf[i..i + n]]. *)
Definition on_slice (buf : list Z) (i n : nat) (f : list Z -> outcome (list Z)) : outcome (list Z) :=
  part ← slice buf i (i + n);
  part ← f part;
  write_at buf i part.

Lemma on_slice_mid pre old post f new i n : i = length pre -> n = length old -> f old = Ret new -> length new = length old ->
  on_slice (pre ++ old ++ post) i n f = Ret (pre ++ new ++ post).
Proof.
  intros -> -> Hf Hl. unfold on_slice, slice.
  rewrite (proj2 (Nat.leb_le _ _)), (proj2 (Nat.leb_le _ _)) by (rewrite ?length_app; lia). cbn [andb mbind outcome_bind].
  replace (length pre + length old - length pre)%nat with (length old) by lia.
  rewrite drop_app_length, take_app_length, Hf. cbn [mbind outcome_bind]. by apply write_at_mid.
Qed.
