(* ===== verification/Catnip.v ===== *)
(** * The runtime of the Catnip library OS: device buffers
    (src/src/rust/catnip/runtime/{memory,network.rs}, runtime/memory/buffer/{mod,dpdkbuffer}.rs)

    Catnip keeps packets in buffers of DPDK (mbufs) next to buffers on the heap.  DPDK is an external
    library: its functions are the class [Dpdk], and what they document the class [DpdkLaws]; an mbuf
    is seen as its data, the room it has and the segment chained to it.  [MemoryPool],
    [DPDKBuffer] and [MemoryManager] follow the code; [transmit] hands a packet to the device. *)

From S2P Require Import Prelude Buffer Packet Sga.

Definition ENOMEM : Z := 12.
Definition EFAULT : Z := 14.

Record rte_mbuf := mkMbuf { buf_addr : Z; buf_len : Z; data_off : Z; mdata : list Z; mpool : Z; mnext : option Z }.

Definition set_mdata v (m : rte_mbuf) := mkMbuf (buf_addr m) (buf_len m) (data_off m) v (mpool m) (mnext m).
Definition set_window off v (m : rte_mbuf) := mkMbuf (buf_addr m) (buf_len m) off v (mpool m) (mnext m).
Definition set_mnext v (m : rte_mbuf) := mkMbuf (buf_addr m) (buf_len m) (data_off m) (mdata m) (mpool m) v.

(** [None] stands for a null pointer or a non-zero return value. *)
Class Dpdk (D : Type) := {
  mbuf : D -> Z -> option rte_mbuf;
  sent : D -> list (list Z);
  rte_pktmbuf_alloc : D -> Z -> option (Z * D);
  rte_pktmbuf_free : D -> Z -> D;
  rte_pktmbuf_clone : D -> Z -> Z -> option (Z * D);
  rte_pktmbuf_adj : D -> Z -> Z -> option D;
  rte_pktmbuf_trim : D -> Z -> Z -> option D;
  rte_pktmbuf_chain : D -> Z -> Z -> option D;
  rte_eth_tx_burst : D -> Z -> bool * D;
  rte_eth_rx_burst : D -> Z -> Z -> list Z * D;
  (** Stores to the fields and the data of an mbuf. *)
  store_data_len : D -> Z -> Z -> D;
  store_data : D -> Z -> list Z -> D;
}.

(** The bytes of a packet of one or two segments. *)
Definition packet_of {D} `{Dpdk D} (d : D) (p : Z) : list Z :=
  match mbuf d p with
  | Some m => mdata m ++ match mnext m with Some q => match mbuf d q with Some m' => mdata m' | None => [] end | None => [] end
  | None => []
  end.

(** The packet has one segment, or two. *)
Definition short_packet {D} `{Dpdk D} (d : D) (p : Z) : Prop :=
  exists m, mbuf d p = Some m /\ match mnext m with Some q => exists m', mbuf d q = Some m' /\ mnext m' = None | None => True end.

(** [d'] differs from [d] in the mbuf [p] only. *)
Definition only_mbuf {D} `{Dpdk D} (p : Z) (d d' : D) : Prop := (forall q, q <> p -> mbuf d' q = mbuf d q) /\ sent d' = sent d.

Class DpdkLaws (D : Type) `{Dpdk D} : Prop := {
  alloc_law d pool p d' : rte_pktmbuf_alloc d pool = Some (p, d') -> mbuf d p = None /\ only_mbuf p d d' /\
    exists m, mbuf d' p = Some m /\ mdata m = [] /\ mpool m = pool /\ mnext m = None /\ 0 <= data_off m <= buf_len m /\ buf_len m < 2^16;
  free_law d p : only_mbuf p d (rte_pktmbuf_free d p) /\ mbuf (rte_pktmbuf_free d p) p = None;
  clone_law d pool p m q d' : mbuf d p = Some m -> rte_pktmbuf_clone d p pool = Some (q, d') -> mbuf d q = None /\ only_mbuf q d d' /\ mbuf d' q = Some m;
  adj_law d p m n : mbuf d p = Some m -> 0 <= n ->
    if n <=? blen (mdata m) then exists d', rte_pktmbuf_adj d p n = Some d' /\ only_mbuf p d d' /\ mbuf d' p = Some (set_window (data_off m + n) (drop (Z.to_nat n) (mdata m)) m)
    else rte_pktmbuf_adj d p n = None;
  trim_law d p m n : mbuf d p = Some m -> 0 <= n ->
    if n <=? blen (mdata m) then exists d', rte_pktmbuf_trim d p n = Some d' /\ only_mbuf p d d' /\ mbuf d' p = Some (set_mdata (take (Z.to_nat (blen (mdata m) - n)) (mdata m)) m)
    else rte_pktmbuf_trim d p n = None;
  chain_law d p q m m' d' : mbuf d p = Some m -> mbuf d q = Some m' -> p <> q -> mnext m = None -> rte_pktmbuf_chain d p q = Some d' ->
    only_mbuf p d d' /\ mbuf d' p = Some (set_mnext (Some q) m);
  tx_law d p d' : short_packet d p -> rte_eth_tx_burst d p = (true, d') -> sent d' = sent d ++ [packet_of d p];
  store_len_law d p m n : mbuf d p = Some m -> 0 <= n <= buf_len m - data_off m ->
    only_mbuf p d (store_data_len d p n) /\ exists l, mbuf (store_data_len d p n) p = Some (set_mdata l m) /\ blen l = n;
  store_data_law d p m l : mbuf d p = Some m -> length l = length (mdata m) -> only_mbuf p d (store_data d p l) /\ mbuf (store_data d p l) p = Some (set_mdata l m);
}.

Section catnip.
Context {D : Type} `{Dpdk D}.

(** The heap and the device. *)
Record memory := mkMemory { hp : heap; dev : D }.

Definition K (A : Type) : Type := memory -> outcome (A * memory).

#[export] Instance K_ret : MRet K := fun A a m => Ret (a, m).
#[export] Instance K_bind : MBind K := fun A B k x m =>
  match x m with
  | Ret (a, m) => k a m
  | Panic msg => Panic msg
  | Diverge => Diverge
  end.

Definition panics {A} (msg : string) : K A := fun _ => Panic msg.
Definition on_heap {A} (x : M A) : K A := fun m =>
  match x (hp m) with
  | Ret (a, h) => Ret (a, mkMemory h (dev m))
  | Panic msg => Panic msg
  | Diverge => Diverge
  end.
Definition device : K D := fun m => Ret (dev m, m).
Definition set_device (d : D) : K unit := fun m => Ret (tt, mkMemory (hp m) d).
Definition run {A} (o : outcome A) : K A := fun m =>
  match o with Ret a => Ret (a, m) | Panic msg => Panic msg | Diverge => Diverge end.

(** [*mbuf_ptr] *)
Definition deref_mbuf (p : Z) : K rte_mbuf := fun m =>
  match mbuf (dev m) p with Some x => Ret (x, m) | None => Panic "dangling mbuf pointer" end.

(** ** Pools (memory/mempool.rs) *)

Definition alloc_mbuf (pool : Z) (size : option Z) : K (Result Z) :=
  d ← device;
  match rte_pktmbuf_alloc d pool with
  | None => mret (Err (mkFail ENOMEM "cannot allocate more mbufs"))
  | Some (mbuf_ptr, d) =>
      _ ← set_device d;
      x ← deref_mbuf mbuf_ptr;
      let num_bytes := wrap16 (buf_len x - data_off x) in
      match size with
      | Some size =>
          if num_bytes <? wrap16 size then
            d ← device;
            _ ← set_device (rte_pktmbuf_free d mbuf_ptr);
            mret (Err (mkFail EFAULT "cannot allocate a mbuf this big"))
          else
            d ← device;
            _ ← set_device (store_data_len d mbuf_ptr (wrap16 size));
            mret (Ok mbuf_ptr)
      | None =>
          d ← device;
          _ ← set_device (store_data_len d mbuf_ptr num_bytes);
          mret (Ok mbuf_ptr)
      end
  end.

Definition free_mbuf (mbuf_ptr : Z) : K unit :=
  d ← device;
  set_device (rte_pktmbuf_free d mbuf_ptr).

Definition clone_mbuf (mbuf_ptr : Z) : K (Result Z) :=
  x ← deref_mbuf mbuf_ptr;
  d ← device;
  match rte_pktmbuf_clone d mbuf_ptr (mpool x) with
  | None => mret (Err (mkFail EINVAL "cannot clone mbuf"))
  | Some (mbuf_ptr_clone, d) => _ ← set_device d; mret (Ok mbuf_ptr_clone)
  end.

(** ** Buffers (buffer/dpdkbuffer.rs, buffer/mod.rs) *)

Definition mlen (p : Z) : K Z := x ← deref_mbuf p; mret (blen (mdata x)).

Definition madjust (p nbytes : Z) : K unit :=
  n ← mlen p;
  if n <? nbytes then panics "assertion failed: nbytes <= self.len()" else
  d ← device;
  match rte_pktmbuf_adj d p (wrap16 nbytes) with
  | Some d => set_device d
  | None => panics "rte_pktmbuf_adj failed"
  end.

Definition mtrim (p nbytes : Z) : K unit :=
  n ← mlen p;
  if n <? nbytes then panics "assertion failed: nbytes <= self.len()" else
  d ← device;
  match rte_pktmbuf_trim d p (wrap16 nbytes) with
  | Some d => set_device d
  | None => panics "rte_pktmbuf_trim failed"
  end.

Definition data_ptr (p : Z) : K pointer := x ← deref_mbuf p; mret (Some (buf_addr x, Z.to_nat (data_off x))).

(** [Clone] for [DPDKBuffer] *)
Definition mclone (p : Z) : K Z :=
  r ← clone_mbuf p;
  match r with
  | Ok p => mret p
  | Err _ => panics "failed to clone mbuf"
  end.

Inductive RtBuffer := Heap (d : HeapBuffer.t) | DPDK (p : Z).

Definition buffer_adjust (b : RtBuffer) (nbytes : Z) : K RtBuffer :=
  match b with
  | Heap d => d ← on_heap (HeapBuffer.adjust d (Z.to_nat nbytes)); mret (Heap d)
  | DPDK p => _ ← madjust p nbytes; mret b
  end.

Definition buffer_trim (b : RtBuffer) (nbytes : Z) : K RtBuffer :=
  match b with
  | Heap d => d ← on_heap (HeapBuffer.trim d (Z.to_nat nbytes)); mret (Heap d)
  | DPDK p => _ ← mtrim p nbytes; mret b
  end.

Definition buffer_deref (b : RtBuffer) : K (list Z) :=
  match b with
  | Heap d => on_heap (HeapBuffer.deref d)
  | DPDK p => x ← deref_mbuf p; mret (mdata x)
  end.

Definition buffer_drop (b : RtBuffer) : K unit :=
  match b with
  | Heap d => on_heap (HeapBuffer.drop d)
  | DPDK p => free_mbuf p
  end.

(** ** Configuration (memory/config.rs, memory/consts.rs) *)

Record MemoryConfig := mkMemoryConfig { inline_body_size : Z; header_pool_size : Z; max_body_size : Z; body_pool_size : Z; cache_size : Z }.

Definition MemoryConfig_default (default_max_body_size : Z) : MemoryConfig := mkMemoryConfig 1024 (8192 - 1) default_max_body_size (8192 - 1) 250.

Definition MemoryConfig_new (default_max_body_size : Z) (inline header max body cache : option Z) : MemoryConfig :=
  let c := MemoryConfig_default default_max_body_size in
  mkMemoryConfig (default (inline_body_size c) inline) (default (header_pool_size c) header) (default (max_body_size c) max)
    (default (body_pool_size c) body) (default (cache_size c) cache).

(** ** Memory manager (memory/manager.rs) *)

Record MemoryManager := mkManager { config : MemoryConfig; header_pool : Z; body_pool : Z }.

Definition into_sgarray (buf : RtBuffer) : K (Result demi_sgarray_t) :=
  match buf with
  | Heap dbuf =>
      copy ← on_heap (HeapBuffer.clone dbuf);
      match HeapBuffer.into_raw copy with
      | Err e => _ ← on_heap (HeapBuffer.drop dbuf); mret (Err e)
      | Ok dbuf_ptr =>
          _ ← on_heap (HeapBuffer.drop dbuf);
          mret (Ok (heap_sga (match dbuf_ptr with Some (b, o) => Some (b, (o + HeapBuffer.offset dbuf)%nat) | None => None end) (HeapBuffer.len dbuf)))
      end
  | DPDK p =>
      ptr ← data_ptr p;
      n ← mlen p;
      mret (Ok (mkSga (Some p) 1 (mkSeg ptr (wrap32 n)) zeroed_addr))
  end.

Definition alloc_header_mbuf (self : MemoryManager) : K (Result Z) := alloc_mbuf (header_pool self) None.
Definition alloc_body_mbuf (self : MemoryManager) : K (Result Z) := alloc_mbuf (body_pool self) None.

Definition alloc_sgarray (self : MemoryManager) (size : Z) : K (Result demi_sgarray_t) :=
  if (inline_body_size (config self) <? size) && (size <=? max_body_size (config self)) then
    r ← alloc_mbuf (body_pool self) (Some size);
    match r with
    | Err e => mret (Err e)
    | Ok mbuf_ptr =>
        ptr ← data_ptr mbuf_ptr;
        mret (Ok (mkSga (Some mbuf_ptr) 1 (mkSeg ptr (wrap32 size)) zeroed_addr))
    end
  else
    r ← on_heap (HeapBuffer.new (Z.to_nat size));
    match r with
    | Err e => mret (Err e)
    | Ok dbuf =>
        match HeapBuffer.into_raw dbuf with
        | Err e => mret (Err e)
        | Ok dbuf_ptr => mret (Ok (heap_sga dbuf_ptr (Z.to_nat size)))
        end
    end.

Definition free_sgarray (sga : demi_sgarray_t) : K (Result unit) :=
  if negb (sga_numsegs sga =? 1) then mret (Err (mkFail EINVAL "scatter-gather array with invalid size")) else
  match sga_buf sga with
  | Some mbuf_ptr => _ ← free_mbuf mbuf_ptr; mret (Ok tt)
  | None =>
      r ← on_heap (HeapBuffer.from_raw_parts (sgaseg_buf (sga_segs sga)) (Z.to_nat (sgaseg_len (sga_segs sga))));
      match r with
      | Err e => mret (Err e)
      | Ok dbuf => _ ← on_heap (HeapBuffer.drop dbuf); mret (Ok tt)
      end
  end.

(** The subtraction [orig_len - len] wraps below zero, and the assertion of [trim] fails then. *)
Definition clone_sgarray (sga : demi_sgarray_t) : K (Result RtBuffer) :=
  if negb (sga_numsegs sga =? 1) then mret (Err (mkFail EINVAL "scatter-gather array with invalid size")) else
  let len := sgaseg_len (sga_segs sga) in
  match sga_buf sga with
  | Some mbuf_ptr =>
      r ← clone_mbuf mbuf_ptr;
      match r with
      | Err _ => panics "failed to clone mbuf"
      | Ok body_clone =>
          x ← deref_mbuf mbuf_ptr;
          let orig_len := wrap16 (buf_len x - data_off x) in
          let trim := (orig_len - len) mod 2^64 in
          _ ← mtrim body_clone trim;
          mret (Ok (DPDK body_clone))
      end
  | None =>
      seg_slice ← on_heap (read (sgaseg_buf (sga_segs sga)) (Z.to_nat len));
      buf ← on_heap (HeapBuffer.from_slice seg_slice);
      mret (Ok (Heap buf))
  end.

(** ** The device (runtime/network.rs) *)

Definition MIN_PAYLOAD_SIZE : nat := 46.
Definition RECEIVE_BATCH_SIZE : Z := 100.

(** [slice_mut()[i..]]: the bytes from [i] are replaced by [l]. *)
Definition overwrite (p : Z) (i : nat) (l : list Z) : K unit :=
  x ← deref_mbuf p;
  data ← run (write_at (mdata x) i l);
  d ← device;
  set_device (store_data d p data).

Definition tx (p : Z) : K unit :=
  d ← device;
  let '(taken, d) := rte_eth_tx_burst d p in
  _ ← set_device d;
  if (taken : bool) then mret tt else panics "assertion failed: num_sent == 1".

(** Zeros up to the minimal size, and the rest of the mbuf cut off. *)
Definition pad_and_send (p : Z) (used : nat) : K unit :=
  _ ← (if Nat.ltb used MIN_PAYLOAD_SIZE then overwrite p used (replicate (MIN_PAYLOAD_SIZE - used) 0) else mret tt);
  n ← mlen p;
  _ ← mtrim p ((n - Z.of_nat (Nat.max used MIN_PAYLOAD_SIZE)) mod 2^64);
  tx p.

(** The mbuf of a body that does not fit behind the headers. *)
Definition body_mbuf (self : MemoryManager) (body : RtBuffer) : K Z :=
  match body with
  | DPDK p => q ← mclone p; _ ← free_mbuf p; mret q
  | Heap d =>
      r ← alloc_body_mbuf self;
      match r with
      | Err _ => panics "failed to allocate body mbuf"
      | Ok q =>
          bytes ← on_heap (HeapBuffer.deref d);
          n ← mlen q;
          if n <? blen bytes then panics "assertion failed: mbuf.len() >= bytes.len()" else
          _ ← overwrite q 0 bytes;
          _ ← mtrim q (n - blen bytes);
          _ ← on_heap (HeapBuffer.drop d);
          mret q
      end
  end.

Definition send_with_body (self : MemoryManager) (h : Z) (header_size : nat) (body : RtBuffer) : K unit :=
  bytes ← buffer_deref body;
  n ← mlen h;
  let inline_space := (n - Z.of_nat header_size) in
  if inline_space <? blen bytes then
    if Nat.ltb (header_size + length bytes) MIN_PAYLOAD_SIZE then panics "assertion failed: header_size + body.len() >= MIN_PAYLOAD_SIZE" else
    _ ← mtrim h (n - Z.of_nat header_size);
    q ← body_mbuf self body;
    d ← device;
    match rte_pktmbuf_chain d h q with
    | None => panics "assertion failed: rte_pktmbuf_chain(..) == 0"
    | Some d => _ ← set_device d; tx h
    end
  else
    _ ← overwrite h header_size bytes;
    _ ← pad_and_send h (header_size + length bytes);
    buffer_drop body.

(** [body] is the buffer that [take_body] returns. *)
Definition transmit {P} `{PacketBuf P} (self : MemoryManager) (pkt : P) (body : option RtBuffer) : K unit :=
  r ← alloc_header_mbuf self;
  match r with
  | Err _ => panics "failed to allocate header mbuf"
  | Ok h =>
      n ← mlen h;
      if n <? Z.of_nat (header_size pkt) then panics "assertion failed: header_size <= header_mbuf.len()" else
      x ← deref_mbuf h;
      hdr ← run (write_header pkt (take (header_size pkt) (mdata x)));
      _ ← overwrite h 0 hdr;
      match body with
      | Some body => send_with_body self h (header_size pkt) body
      | None => pad_and_send h (header_size pkt)
      end
  end.

(** [receive] takes the even queues, [receive_tcpmig] the odd ones. *)
Definition receive (queue_id : Z) : K (list RtBuffer) :=
  d ← device;
  let '(packets, d) := rte_eth_rx_burst d (queue_id * 2) RECEIVE_BATCH_SIZE in
  _ ← set_device d;
  if Nat.leb (length packets) (Z.to_nat RECEIVE_BATCH_SIZE) then mret (map DPDK packets) else panics "assertion failed: nb_rx as usize <= RECEIVE_BATCH_SIZE".

Definition receive_tcpmig (queue_id : Z) : K (list RtBuffer) :=
  d ← device;
  let '(packets, d) := rte_eth_rx_burst d (queue_id * 2 + 1) RECEIVE_BATCH_SIZE in
  _ ← set_device d;
  if Nat.leb (length packets) (Z.to_nat RECEIVE_BATCH_SIZE) then mret (map DPDK packets) else panics "assertion failed: nb_rx as usize <= RECEIVE_BATCH_SIZE".

End catnip.
Arguments memory D : clear implicits.
Arguments mkMemory {D} hp dev.
