(* ===== verification/CatnipSafety.v ===== *)
(** * What Catnip hands to the device, and what it does with arrays in device buffers

    A packet reaches the device as its headers, its body and the padding, whichever of the three ways
    the code takes.  An array in a device buffer is not sent whole: its clone is cut twice. *)

From S2P Require Import Prelude Buffer Packet Sga SgaSafety Catnip.

Section device.
Context {D : Type} `{DP : Dpdk D} `{!DpdkLaws D}.

Abbreviation memory := (memory D).

(** ** Single operations *)

Lemma mlen_ok (m : memory) p x : mbuf (dev m) p = Some x -> mlen p m = Ret (blen (mdata x), m).
Proof. intros E. unfold mlen, deref_mbuf, mbind, K_bind. by rewrite E. Qed.

Lemma mtrim_ok (m : memory) p x n : mbuf (dev m) p = Some x -> 0 <= n <= blen (mdata x) -> n < 2^16 ->
  exists d', mtrim p n m = Ret (tt, mkMemory (hp m) d') /\ only_mbuf p (dev m) d' /\ mbuf d' p = Some (set_mdata (take (Z.to_nat (blen (mdata x) - n)) (mdata x)) x).
Proof.
  intros E Hn H16. pose proof (trim_law (dev m) p x n E ltac:(lia)) as T. rewrite (proj2 (Z.leb_le _ _)) in T by lia. destruct T as (d' & T1 & T2 & T3).
  exists d'. split; [|done]. unfold mtrim, mbind, K_bind. rewrite (mlen_ok m p x E). rewrite (proj2 (Z.ltb_ge _ _)) by lia. unfold device.
  rewrite wrap16_small by (split; lia). by rewrite T1.
Qed.

Lemma overwrite_ok (m : memory) p x i l pre old post : mbuf (dev m) p = Some x -> mdata x = pre ++ old ++ post -> i = length pre -> length l = length old ->
  exists d', overwrite p i l m = Ret (tt, mkMemory (hp m) d') /\ only_mbuf p (dev m) d' /\ mbuf d' p = Some (set_mdata (pre ++ l ++ post) x).
Proof.
  intros E Hd Hi Hl. assert (Hlen : length (pre ++ l ++ post) = length (mdata x)) by (rewrite Hd, !length_app; lia).
  destruct (store_data_law (dev m) p x (pre ++ l ++ post) E Hlen) as [S1 S2]. eexists. split; [|split; [exact S1|exact S2]].
  unfold overwrite, mbind, K_bind, deref_mbuf, run. rewrite E, Hd, (write_at_mid pre old post l i Hi Hl). done.
Qed.

(** ** A device that does not refuse *)

(** The pools give mbufs of at least some room, and the device takes what it is handed. *)
Record eager (pool : Z) (room : Z) : Prop := {
  e_alloc : forall d, exists p d' x, rte_pktmbuf_alloc d pool = Some (p, d') /\ mbuf d' p = Some x /\ room <= buf_len x - data_off x;
  e_tx : forall d p, exists d', rte_eth_tx_burst d p = (true, d');
  e_chain : forall d p q, exists d', rte_pktmbuf_chain d p q = Some d';
  e_clone : forall d p pool, exists q d', rte_pktmbuf_clone d p pool = Some (q, d');
}.

Lemma mbuf_alloc_ok pool room (m : memory) : eager pool room ->
  exists p d' x, alloc_mbuf pool None m = Ret (Ok p, mkMemory (hp m) d') /\ mbuf (dev m) p = None /\ only_mbuf p (dev m) d' /\ mbuf d' p = Some x /\
    room <= blen (mdata x) < 2^16 /\ mnext x = None.
Proof.
  intros E. destruct (e_alloc _ _ E (dev m)) as (p & d1 & x1 & Ha & Hx1 & Hroom). destruct (alloc_law _ _ _ _ Ha) as (Hnew & [O1 O1s] & x & Hx & Hd & _ & Hn & Hoff & Hb).
  rewrite Hx in Hx1. injection Hx1 as <-. destruct (store_len_law d1 p x (buf_len x - data_off x) Hx ltac:(lia)) as ([O2 O2s] & l & Hl & Hll).
  exists p, (store_data_len d1 p (buf_len x - data_off x)), (set_mdata l x). split_and!.
  - unfold alloc_mbuf, mbind, K_bind, device, set_device, deref_mbuf. rewrite Ha. cbn. rewrite Hx. rewrite wrap16_small by (split; lia). done.
  - done.
  - split; [intros q Hq; by rewrite O2, O1|congruence].
  - done.
  - cbn. lia.
  - cbn. lia.
  - done.
Qed.

Lemma tx_ok pool room (m : memory) p : eager pool room -> short_packet (dev m) p -> exists d', tx p m = Ret (tt, mkMemory (hp m) d') /\ sent d' = sent (dev m) ++ [packet_of (dev m) p].
Proof.
  intros E Hp. destruct (e_tx _ _ E (dev m) p) as (d' & Hd). exists d'. split; [|by apply tx_law]. unfold tx, mbind, K_bind, device, set_device. by rewrite Hd.
Qed.

(** Zeros up to the minimal size. *)
Definition padding (n : nat) : list Z := replicate (MIN_PAYLOAD_SIZE - n) 0.

Lemma pad_and_send_ok pool room (m : memory) p x front rest : eager pool room -> mbuf (dev m) p = Some x -> mdata x = front ++ rest -> mnext x = None ->
  (MIN_PAYLOAD_SIZE <= length (mdata x))%nat -> blen (mdata x) < 2^16 ->
  exists d', pad_and_send p (length front) m = Ret (tt, mkMemory (hp m) d') /\ sent d' = sent (dev m) ++ [front ++ padding (length front)].
Proof.
  intros E Hx Hd Hn Hmin H16.
  assert (Hpad : exists d1 rest', (if Nat.ltb (length front) MIN_PAYLOAD_SIZE then overwrite p (length front) (replicate (MIN_PAYLOAD_SIZE - length front) 0) else mret tt) m = Ret (tt, mkMemory (hp m) d1) /\
    sent d1 = sent (dev m) /\ mbuf d1 p = Some (set_mdata (front ++ padding (length front) ++ rest') x) /\ length (front ++ padding (length front) ++ rest') = length (mdata x)).
  { rewrite Hd, length_app in Hmin. destruct (Nat.ltb_spec (length front) MIN_PAYLOAD_SIZE) as [Hlt|Hge].
    - set (k := (MIN_PAYLOAD_SIZE - length front)%nat). destruct (overwrite_ok m p x (length front) (replicate k 0) front (take k rest) (drop k rest)) as (d1 & H1 & [_ H2] & H3); [done|by rewrite take_drop|done|rewrite length_replicate, length_take; lia|].
      exists d1, (drop k rest). split_and!; try done. rewrite Hd, !length_app, length_drop. unfold padding. rewrite length_replicate. fold k. lia.
    - exists (dev m), rest. unfold padding. replace (MIN_PAYLOAD_SIZE - length front)%nat with 0%nat by lia. cbn [replicate app]. split_and!; [by destruct m|done| |by rewrite Hd].
      rewrite Hx, <- Hd. by destruct x. }
  destruct Hpad as (d1 & rest' & Hp & Hs1 & Hx1 & Hl1). set (x1 := set_mdata _ x) in *. set (u := Nat.max (length front) MIN_PAYLOAD_SIZE).
  assert (Hu : length (front ++ padding (length front)) = u) by (rewrite length_app; unfold padding; rewrite length_replicate; lia).
  assert (Hlen : blen (mdata x1) = blen (mdata x)) by (unfold blen; f_equal; exact Hl1).
  assert (Hub : (u <= length (mdata x))%nat) by (rewrite <- Hl1, app_assoc, length_app, Hu; lia).
  destruct (mtrim_ok (mkMemory (hp m) d1) p x1 (blen (mdata x) - Z.of_nat u) Hx1) as (d2 & Ht & [_ Hs2] & Hx2); [rewrite Hlen; unfold blen; lia|lia|].
  assert (Hsp : short_packet d2 p) by (eexists; split; [exact Hx2|]; cbn; by rewrite Hn). destruct (tx_ok pool room (mkMemory (hp m) d2) p E Hsp) as (d3 & Hsend & Hs3). exists d3. split.
  - unfold pad_and_send, mbind, K_bind. rewrite Hp. rewrite (mlen_ok (mkMemory (hp m) d1) p x1 Hx1), Hlen. rewrite Z.mod_small by (unfold blen in *; lia). fold u. by rewrite Ht.
  - rewrite Hlen in Hx2. replace (Z.to_nat (blen (mdata x) - (blen (mdata x) - Z.of_nat u))) with u in Hx2 by (unfold blen; lia).
    cbn [dev] in *. rewrite Hs3, Hs2, Hs1. f_equal. f_equal. unfold packet_of. rewrite Hx2. cbn. rewrite Hn, app_nil_r, app_assoc, <- Hu. apply take_app_length.
Qed.

(** ** Bodies *)

(** The body's bytes; a body in a device buffer is a single segment. *)
Definition body_shows (m : memory) (body : RtBuffer) (bytes : list Z) : Prop :=
  buffer_deref body m = Ret (bytes, m) /\ blen bytes < 2^16 /\
  match body with DPDK p => exists x, mbuf (dev m) p = Some x /\ mnext x = None | Heap _ => True end.

Lemma heap_drop_ok d (h : heap) l h' : HeapBuffer.deref d h = Ret (l, h') -> h' = h /\ exists h2, HeapBuffer.drop d h = Ret (tt, h2).
Proof.
  unfold HeapBuffer.deref, HeapBuffer.drop. destruct (HeapBuffer.data d) as [b|]; [|intros [= _ <-]; split; [done|by eexists]].
  unfold Arc.drop, mbind, M_bind, Arc.get. destruct (blocks h !! b) as [x|]; [|done]. destruct (Nat.leb _ _); [|done]. intros [= _ <-]. split; [done|]. destruct (strong x =? 1); by eexists.
Qed.

(** The mbuf of the body is new and shows the same bytes. *)
Lemma body_mbuf_ok mm room (m : memory) body bytes h x : eager (body_pool mm) room -> body_shows m body bytes ->
  match body with Heap _ => blen bytes <= room | DPDK p => p <> h end -> mbuf (dev m) h = Some x ->
  exists q m' y, body_mbuf mm body m = Ret (q, m') /\ q <> h /\ mbuf (dev m') h = Some x /\ mbuf (dev m') q = Some y /\ mdata y = bytes /\ mnext y = None /\ sent (dev m') = sent (dev m).
Proof.
  intros E (Hd & H16 & Hm) Hfit Hx. destruct body as [d|p]; cbn [body_mbuf].
  - destruct (mbuf_alloc_ok (body_pool mm) room m E) as (q & d1 & y & Ha & Hnew & [O1 S1] & Hy & Hroom & Hn).
    assert (Hqh : q <> h) by congruence. cbn [buffer_deref] in Hd. unfold on_heap in Hd. destruct (HeapBuffer.deref d (hp m)) as [[l h1]| |] eqn:Ed; try done.
    injection Hd as -> Hh1. destruct (heap_drop_ok _ _ _ _ Ed) as [-> (h2 & Hdrop)].
    destruct (overwrite_ok (mkMemory (hp m) d1) q y 0 bytes [] (take (length bytes) (mdata y)) (drop (length bytes) (mdata y)) Hy) as (d2 & Hw & [O2 S2] & Hy2);
      [by rewrite take_drop|done|rewrite length_take; unfold blen in *; lia|]. cbn [app dev hp] in *. set (y2 := set_mdata _ y) in *.
    assert (Hl2 : blen (mdata y2) = blen (mdata y)) by (unfold y2, blen; cbn; rewrite length_app, length_drop; unfold blen in *; lia).
    destruct (mtrim_ok (mkMemory (hp m) d2) q y2 (blen (mdata y) - blen bytes) Hy2) as (d3 & Ht & [O3 S3] & Hy3); [rewrite Hl2; unfold blen in *; lia|unfold blen in *; lia|]. cbn [dev hp] in *.
    rewrite Hl2 in Hy3. replace (Z.to_nat (blen (mdata y) - (blen (mdata y) - blen bytes))) with (length bytes) in Hy3 by (unfold blen; lia).
    exists q, (mkMemory h2 d3). eexists. split_and!; [|done| |exact Hy3| |done|]; cbn [dev].
    + unfold alloc_body_mbuf, mbind, K_bind. rewrite Ha. unfold on_heap at 1. cbn [hp dev]. rewrite Ed. rewrite (mlen_ok (mkMemory (hp m) d1) q y Hy).
      rewrite (proj2 (Z.ltb_ge _ _)) by (unfold blen in *; lia). rewrite Hw, Ht. unfold on_heap. cbn [hp]. by rewrite Hdrop.
    + by rewrite O3, O2, O1.
    + cbn. apply take_app_length.
    + congruence.
  - destruct Hm as (y & Hy & Hn). cbn [buffer_deref] in Hd. unfold mbind, K_bind, deref_mbuf in Hd. rewrite Hy in Hd. injection Hd as Hd.
    destruct (e_clone _ _ E (dev m) p (mpool y)) as (q & d1 & Hc). destruct (clone_law _ _ _ _ _ _ Hy Hc) as (Hnew & [O1 S1] & Hq).
    destruct (free_law d1 p) as ([O2 S2] & _). exists q, (mkMemory (hp m) (rte_pktmbuf_free d1 p)), y. assert (Hqp : q <> p) by congruence. assert (Hqh : q <> h) by congruence.
    split_and!; [|done| | |done|done|]; cbn [dev].
    + unfold mclone, clone_mbuf, free_mbuf, mbind, K_bind, deref_mbuf, device, set_device. rewrite Hy. cbn. by rewrite Hc.
    + rewrite O2, O1; [done|done|congruence].
    + by rewrite O2.
    + congruence.
Qed.

(** ** Packets *)

Lemma send_with_body_ok mm hroom room (m : memory) h x hdr rest body bytes : eager (header_pool mm) hroom -> eager (body_pool mm) room ->
  mbuf (dev m) h = Some x -> mdata x = hdr ++ rest -> mnext x = None -> (MIN_PAYLOAD_SIZE <= length (mdata x))%nat -> blen (mdata x) < 2^16 ->
  body_shows m body bytes -> match body with Heap _ => blen bytes <= room | DPDK p => p <> h end ->
  exists m', send_with_body mm h (length hdr) body m = Ret (tt, m') /\ sent (dev m') = sent (dev m) ++ [hdr ++ bytes ++ padding (length hdr + length bytes)].
Proof.
  intros E1 E2 Hx Hd Hn Hmin H16 Hb Hfit. pose proof Hb as (Hder & Hb16 & _). pose proof (f_equal length Hd) as Hlen. rewrite length_app in Hlen.
  unfold send_with_body, mbind, K_bind in *. rewrite Hder. rewrite (mlen_ok m h x Hx) in *. destruct (Z.ltb_spec (blen (mdata x) - Z.of_nat (length hdr)) (blen bytes)) as [Hbig|Hsmall].
  - rewrite (proj2 (Nat.ltb_ge _ _)) by (unfold blen in *; lia).
    destruct (mtrim_ok m h x (blen (mdata x) - Z.of_nat (length hdr)) Hx) as (d1 & Ht & [O1 S1] & Hx1); [unfold blen; lia|unfold blen in *; lia|]. rewrite Ht. cbn [hp dev].
    replace (Z.to_nat (blen (mdata x) - (blen (mdata x) - Z.of_nat (length hdr)))) with (length hdr) in Hx1 by (unfold blen; lia). rewrite Hd, take_app_length in Hx1.
    assert (Hb1 : body_shows (mkMemory (hp m) d1) body bytes).
    { destruct Hb as (B1 & B2 & B3). split_and!; [|done|].
      - destruct body as [d|p]; cbn [buffer_deref] in *; [unfold on_heap in *; cbn [hp dev]; destruct (HeapBuffer.deref d (hp m)) as [[l h1]| |]; try done; injection B1 as -> E; apply (f_equal hp) in E; cbn in E; by rewrite E|].
        unfold mbind, K_bind, deref_mbuf in *. cbn [dev]. rewrite O1 by done. destruct (mbuf (dev m) p); [|done]. by injection B1 as ->.
      - destruct body as [d|p]; [done|]. cbn [dev]. by rewrite O1. }
    destruct (body_mbuf_ok mm room (mkMemory (hp m) d1) body bytes h _ E2 Hb1 Hfit Hx1) as (q & m2 & y & Hbm & Hqh & Hx2 & Hy & Hyd & Hyn & S2). rewrite Hbm. unfold device.
    destruct (e_chain _ _ E2 (dev m2) h q) as (d3 & Hch). destruct (chain_law _ _ _ _ _ _ Hx2 Hy (not_eq_sym Hqh) Hn Hch) as ([O3 S3] & Hx3). rewrite Hch.
    assert (Hsp : short_packet d3 h) by (eexists; split; [exact Hx3|]; cbn; exists y; by rewrite O3).
    destruct (tx_ok (header_pool mm) hroom (mkMemory (hp m2) d3) h E1 Hsp) as (d4 & Htx & S4). exists (mkMemory (hp m2) d4). split; [exact Htx|]. cbn [dev] in *.
    rewrite S4, S3, S2, S1. f_equal. f_equal. unfold packet_of. rewrite Hx3. cbn. rewrite O3, Hy, Hyd by done. f_equal.
    unfold padding. replace (MIN_PAYLOAD_SIZE - _)%nat with 0%nat by (unfold blen in *; lia). by rewrite app_nil_r.
  - destruct (overwrite_ok m h x (length hdr) bytes hdr (take (length bytes) rest) (drop (length bytes) rest) Hx) as (d1 & Hw & [O1 S1] & Hx1);
      [by rewrite take_drop|done|rewrite length_take; unfold blen in *; lia|]. rewrite Hw.
    assert (Hl1 : length (hdr ++ bytes ++ drop (length bytes) rest) = length (mdata x)) by (rewrite !length_app, length_drop; unfold blen in *; lia).
    destruct (pad_and_send_ok (header_pool mm) hroom (mkMemory (hp m) d1) h _ (hdr ++ bytes) (drop (length bytes) rest) E1 Hx1) as (d2 & Hps & S2);
      [cbn; by rewrite <- app_assoc|done|cbn; by rewrite Hl1|unfold blen; cbn; by rewrite Hl1|]. rewrite length_app in *. rewrite Hps. cbn [hp dev] in *.
    assert (Hdrop : exists m', buffer_drop body (mkMemory (hp m) d2) = Ret (tt, m') /\ sent (dev m') = sent d2).
    { destruct body as [d|p]; cbn [buffer_drop buffer_deref] in *.
      - unfold on_heap in *. destruct (HeapBuffer.deref d (hp m)) as [[l h1]| |] eqn:Ed; try done. destruct (heap_drop_ok _ _ _ _ Ed) as [_ (h2 & Hdrop)]. cbn [hp dev]. rewrite Hdrop. by eexists.
      - unfold free_mbuf, mbind, K_bind, device, set_device. eexists. split; [done|]. cbn. apply free_law. }
    destruct Hdrop as (m' & Hdr & S3). exists m'. split; [exact Hdr|]. rewrite S3, S2, S1. by rewrite <- app_assoc.
Qed.

Lemma only_mbuf_shows (m : memory) p d' body bytes : only_mbuf p (dev m) d' -> mbuf (dev m) p = None -> body_shows m body bytes -> body_shows (mkMemory (hp m) d') body bytes.
Proof.
  intros [O S] Hp (B1 & B2 & B3). split_and!; [|done|].
  - destruct body as [d|q]; cbn [buffer_deref] in *; [unfold on_heap in *; cbn [hp dev]; destruct (HeapBuffer.deref d (hp m)) as [[l h1]| |]; try done; injection B1 as -> E; apply (f_equal hp) in E; cbn in E; by rewrite E|].
    unfold mbind, K_bind, deref_mbuf in *. cbn [dev]. destruct (mbuf (dev m) q) eqn:E; [|done]. rewrite O, E by congruence. by injection B1 as ->.
  - destruct body as [d|q]; [done|]. destruct B3 as (y & Hy & Hn). cbn [dev]. exists y. by rewrite O by congruence.
Qed.

(** C21: A packet reaches the device whole.  Take a device whose pools give mbufs with room for the
    headers, for the minimal packet and (for a body on the heap) for the body, and which accepts what
    it is handed.  Then, whether the body is absent, fits behind the headers or has to be chained,
    and whether it lies on the heap or in a device buffer, [transmit] returns, and the device was
    handed exactly one packet more: the headers as [write_header] writes them, the bytes of the body,
    and zeros up to the minimal size. *)
Theorem transmit_sends_packet {P} `{PacketBuf P} (mm : MemoryManager) (hroom room : Z) (m : memory) (pkt : P) (body : option RtBuffer) (bytes : list Z) :
  eager (header_pool mm) hroom -> eager (body_pool mm) room ->
  Z.of_nat (Nat.max (header_size pkt) MIN_PAYLOAD_SIZE) <= hroom ->
  (forall area, length area = header_size pkt -> exists hdr, write_header pkt area = Ret hdr /\ length hdr = header_size pkt) ->
  match body with
  | Some b => body_shows m b bytes /\ match b with Heap _ => blen bytes <= room | DPDK _ => True end
  | None => bytes = []
  end ->
  exists m' area hdr, transmit mm pkt body m = Ret (tt, m') /\ length area = header_size pkt /\ write_header pkt area = Ret hdr /\
    sent (dev m') = sent (dev m) ++ [hdr ++ bytes ++ padding (header_size pkt + length bytes)].
Proof.
  intros E1 E2 Hroom Hwr Hbody. destruct (mbuf_alloc_ok (header_pool mm) hroom m E1) as (h & d1 & x & Ha & Hnew & O1 & Hx & Hr & Hn).
  set (area := take (header_size pkt) (mdata x)). assert (Harea : length area = header_size pkt) by (unfold area; rewrite length_take; unfold blen in *; lia).
  destruct (Hwr area Harea) as (hdr & Hw & Hlh).
  destruct (overwrite_ok (mkMemory (hp m) d1) h x 0 hdr [] area (drop (header_size pkt) (mdata x)) Hx) as (d2 & Hov & [O2 S2] & Hx2); [by rewrite <- (take_drop (header_size pkt) (mdata x)) at 1|done|lia|].
  cbn [app hp dev] in *. set (rest := drop (header_size pkt) (mdata x)) in *. set (x2 := set_mdata (hdr ++ rest) x) in *.
  assert (Hl2 : length (mdata x2) = length (mdata x)) by (unfold x2; cbn; rewrite length_app; unfold rest; rewrite length_drop; unfold blen in *; lia).
  assert (O12 : only_mbuf h (dev m) d2) by (destruct O1 as [O1 S1]; split; [intros q Hq; by rewrite O2, O1|congruence]).
  assert (Hgo : forall k, match body with Some b => send_with_body mm h (header_size pkt) b | None => pad_and_send h (header_size pkt) end = k -> transmit mm pkt body m = k (mkMemory (hp m) d2)).
  { intros k <-. unfold transmit, alloc_header_mbuf, mbind, K_bind. rewrite Ha. rewrite (mlen_ok (mkMemory (hp m) d1) h x Hx). rewrite (proj2 (Z.ltb_ge _ _)) by (unfold blen in *; lia).
    unfold deref_mbuf. cbn [dev]. rewrite Hx. unfold run. fold area. rewrite Hw. by rewrite Hov. }
  rewrite (Hgo _ eq_refl). destruct body as [b|].
  - destruct Hbody as [Hb Hfit]. pose proof (only_mbuf_shows m h d2 b bytes O12 Hnew Hb) as Hb2. rewrite <- Hlh.
    destruct (send_with_body_ok mm hroom room (mkMemory (hp m) d2) h x2 hdr rest b bytes E1 E2 Hx2 eq_refl Hn) as (m' & Hs & S3); [rewrite Hl2; unfold blen in *; lia|unfold blen in *; lia|done| |].
    { destruct b as [d|p]; [done|]. destruct Hb as (_ & _ & y & Hy & _). congruence. }
    exists m', area, hdr. split_and!; [done|by rewrite Hlh|done|]. rewrite S3. cbn [dev]. by destruct O12 as [_ ->].
  - subst bytes. rewrite Nat.add_0_r. destruct (pad_and_send_ok (header_pool mm) hroom (mkMemory (hp m) d2) h x2 hdr rest E1 Hx2 eq_refl Hn) as (d3 & Hs & S3); [rewrite Hl2; unfold blen in *; lia|unfold blen in *; lia|].
    rewrite Hlh in Hs, S3. exists (mkMemory (hp m) d3), area, hdr. split_and!; [done|done|done|]. cbn [dev] in *. rewrite S3. by destruct O12 as [_ ->].
Qed.

(** ** Arrays in device buffers *)

(** The clone of a device buffer is cut by the part of the room the array does not use, although the
    buffer already had the length of the array. *)
Lemma clone_cuts_twice (m : memory) p x q d' len addr ptr : mbuf (dev m) p = Some x -> 0 <= data_off x <= buf_len x -> buf_len x < 2^16 ->
  blen (mdata x) = len -> len <= buf_len x - data_off x -> rte_pktmbuf_clone (dev m) p (mpool x) = Some (q, d') ->
  let sga := mkSga (Some p) 1 (mkSeg ptr len) addr in
  if buf_len x - data_off x - len <=? len
  then exists m' y, clone_sgarray sga m = Ret (Ok (DPDK q), m') /\ mbuf (dev m') q = Some y /\ blen (mdata y) = 2 * len - (buf_len x - data_off x)
  else clone_sgarray sga m = Panic "assertion failed: nbytes <= self.len()".
Proof.
  intros Hx Hoff H16 Hlen Hle Hc sga. destruct (clone_law _ _ _ _ _ _ Hx Hc) as (Hnew & [O S] & Hq). pose proof (blen_nonneg (mdata x)).
  assert (Hp : mbuf d' p = Some x) by (rewrite O; [done|congruence]).
  assert (Hw : wrap16 (buf_len x - data_off x) = buf_len x - data_off x) by (apply wrap16_small; split; lia).
  destruct (Z.leb_spec (buf_len x - data_off x - len) len) as [Hok|Hbad].
  - destruct (mtrim_ok (mkMemory (hp m) d') q x (buf_len x - data_off x - len) Hq) as (d2 & Ht & _ & Hy); [lia|lia|]. eexists (mkMemory (hp m) d2), _. split_and!; [|exact Hy|].
    + unfold clone_sgarray, clone_mbuf, mbind, K_bind, deref_mbuf, device, set_device. cbn [sga sga_numsegs sga_buf Z.eqb Pos.eqb negb]. rewrite Hx. cbn. rewrite Hc. cbn. rewrite Hp, Hw.
      rewrite Z.mod_small by lia. by rewrite Ht.
    + cbn. unfold blen in *. rewrite length_take. lia.
  - unfold clone_sgarray, clone_mbuf, mbind, K_bind, deref_mbuf, device, set_device. cbn [sga sga_numsegs sga_buf Z.eqb Pos.eqb negb]. rewrite Hx. cbn. rewrite Hc. cbn. rewrite Hp, Hw.
    rewrite Z.mod_small by lia. unfold mtrim, mbind, K_bind. rewrite (mlen_ok (mkMemory (hp m) d') q x Hq). by rewrite (proj2 (Z.ltb_lt _ _)) by lia.
Qed.

(** On the heap Catnip does what the other library OSes do. *)
Lemma heap_alloc_same mm size (m : memory) : 0 <= size <= inline_body_size (config mm) ->
  alloc_sgarray mm size m = on_heap (LinuxMemory.alloc_sgarray (Z.to_nat size)) m.
Proof.
  intros Hs. unfold alloc_sgarray, LinuxMemory.alloc_sgarray, on_heap, mbind, K_bind, M_bind. rewrite (proj2 (Z.ltb_ge _ _)) by lia. cbn [andb].
  destruct (HeapBuffer.new (Z.to_nat size) (hp m)) as [[[b|e] h]| |]; try done. by destruct (HeapBuffer.into_raw b).
Qed.

Lemma heap_free_same sga (m : memory) : sga_buf sga = None -> free_sgarray sga m = on_heap (LinuxMemory.free_sgarray sga) m.
Proof.
  intros Hs. unfold free_sgarray, LinuxMemory.free_sgarray, on_heap, mbind, K_bind, M_bind. rewrite Hs. destruct (sga_numsegs sga =? 1); cbn [negb]; [|by destruct m].
  destruct (HeapBuffer.from_raw_parts _ _ (hp m)) as [[[b|e] h]| |]; try done. cbn. by destruct (HeapBuffer.drop b h) as [[? ?]| |].
Qed.

Lemma heap_clone_same sga (m : memory) : sga_buf sga = None -> clone_sgarray sga m = on_heap (r ← LinuxMemory.clone_sgarray sga; mret (match r with Ok d => Ok (Heap d) | Err e => Err e end)) m.
Proof.
  intros Hs. unfold clone_sgarray, LinuxMemory.clone_sgarray, on_heap, mbind, K_bind, M_bind. rewrite Hs. destruct (sga_numsegs sga =? 1); cbn [negb]; [|by destruct m].
  by destruct (read _ _ (hp m)) as [[l h]| |].
Qed.

End device.

(** ** A device with unlimited pools *)

Module SimDevice.

Record t := mk { mbufs : gmap Z rte_mbuf; log : list (list Z) }.

Definition put (p : Z) (x : rte_mbuf) (d : t) : t := mk (<[p := x]> (mbufs d)) (log d).
Definition new_ptr (d : t) : Z := fresh (dom (mbufs d) : gset Z).

Definition the_packet (d : t) (p : Z) : list Z :=
  match mbufs d !! p with
  | Some m => mdata m ++ match mnext m with Some q => match mbufs d !! q with Some m' => mdata m' | None => [] end | None => [] end
  | None => []
  end.

#[export] Instance sim_dpdk : Dpdk t := {
  mbuf d p := mbufs d !! p;
  sent := log;
  rte_pktmbuf_alloc d pool := Some (new_ptr d, put (new_ptr d) (mkMbuf (new_ptr d) 2304 128 [] pool None) d);
  rte_pktmbuf_free d p := mk (delete p (mbufs d)) (log d);
  rte_pktmbuf_clone d p pool := Some (new_ptr d, match mbufs d !! p with Some m => put (new_ptr d) m d | None => d end);
  rte_pktmbuf_adj d p n := match mbufs d !! p with
    | Some m => if n <=? blen (mdata m) then Some (put p (set_window (data_off m + n) (drop (Z.to_nat n) (mdata m)) m) d) else None | None => None end;
  rte_pktmbuf_trim d p n := match mbufs d !! p with
    | Some m => if n <=? blen (mdata m) then Some (put p (set_mdata (take (Z.to_nat (blen (mdata m) - n)) (mdata m)) m) d) else None | None => None end;
  rte_pktmbuf_chain d p q := Some (match mbufs d !! p with Some m => put p (set_mnext (Some q) m) d | None => d end);
  rte_eth_tx_burst d p := (true, mk (mbufs d) (log d ++ [the_packet d p]));
  rte_eth_rx_burst d _ _ := ([], d);
  store_data_len d p n := match mbufs d !! p with Some m => put p (set_mdata (replicate (Z.to_nat n) 0) m) d | None => d end;
  store_data d p l := match mbufs d !! p with Some m => put p (set_mdata l m) d | None => d end;
}.

Lemma new_ptr_free d : mbufs d !! new_ptr d = None.
Proof. unfold new_ptr. apply (not_elem_of_dom (D := gset Z)). exact (is_fresh (dom (mbufs d) : gset Z)). Qed.

Lemma put_only p x d : only_mbuf p d (put p x d).
Proof. split; [|done]. intros q Hq. cbn. by rewrite lookup_insert_ne. Qed.

Lemma put_at p x d : mbuf (put p x d) p = Some x.
Proof. cbn. by rewrite lookup_insert_eq. Qed.

#[export] Instance sim_laws : DpdkLaws t.
Proof.
  split.
  - intros d pool p d' [= <- <-]. split; [apply new_ptr_free|]. split; [apply put_only|]. eexists. split; [apply put_at|]. cbn. split_and!; try done.
  - intros d p. cbn. split; [split; [intros q Hq; cbn; by rewrite lookup_delete_ne|done]|by rewrite lookup_delete_eq].
  - intros d pool p m q d' Hp. cbn in *. rewrite Hp. intros [= <- <-]. split; [apply new_ptr_free|]. split; [apply put_only|apply put_at].
  - intros d p m n Hp Hn. cbn in *. rewrite Hp. destruct (n <=? blen (mdata m)); [|done]. eexists. split; [done|]. split; [apply put_only|apply put_at].
  - intros d p m n Hp Hn. cbn in *. rewrite Hp. destruct (n <=? blen (mdata m)); [|done]. eexists. split; [done|]. split; [apply put_only|apply put_at].
  - intros d p q m m' d' Hp Hq Hne Hnx. cbn in *. rewrite Hp. intros [= <-]. split; [apply put_only|apply put_at].
  - intros d p d' _ [= <-]. done.
  - intros d p m n Hp Hn. cbn in *. rewrite Hp. split; [apply put_only|]. eexists. split; [apply put_at|]. unfold blen. rewrite length_replicate. lia.
  - intros d p m l Hp Hl. cbn in *. rewrite Hp. split; [apply put_only|apply put_at].
Qed.

Lemma sim_eager pool : eager (D := t) pool 2176.
Proof.
  split.
  - intros d. do 3 eexists. split; [done|]. split; [apply put_at|]. cbn. lia.
  - intros d p. by eexists.
  - intros d p q. by eexists.
  - intros d p pool'. by do 2 eexists.
Qed.

Definition manager : MemoryManager := mkManager (MemoryConfig_default 2304) 1 2.

(** A packet with two bytes of headers. *)
Definition demo_packet : Type := unit.
#[export] Instance demo_packet_buf : PacketBuf demo_packet := {
  header_size _ := 2%nat; write_header _ _ := Ret [8; 9]; body_size _ := 3%nat; take_body _ := Some [1; 2; 3];
}.

Definition demo_memory : memory t := mkMemory (mkHeap {[1 := mkBlock 1 [1; 2; 3]]} 2) (mk ∅ []).

Lemma transmit_sends_packet_witness :
  exists m', transmit manager (tt : demo_packet) (Some (Heap (HeapBuffer.mk (Some 1) 0 3))) demo_memory = Ret (tt, m') /\
    sent (dev m') = [[8; 9] ++ [1; 2; 3] ++ replicate 41 0].
Proof.
  destruct (transmit_sends_packet manager 2176 2176 demo_memory (tt : demo_packet) (Some (Heap (HeapBuffer.mk (Some 1) 0 3))) [1; 2; 3]) as (m' & area & hdr & Ht & _ & Hw & Hs).
  - apply sim_eager.
  - apply sim_eager.
  - cbn. lia.
  - intros area _. by exists [8; 9].
  - split; [|unfold blen; cbn; lia]. split; [reflexivity|]. split; [reflexivity|exact I].
  - exists m'. split; [exact Ht|]. injection Hw as <-. exact Hs.
Defined.

(** An array of 1500 bytes in a device buffer is sent as its first 824 bytes, and one of 1080 bytes
    cannot be sent at all. *)
Definition sent_length (size : Z) : option (outcome Z) :=
  match alloc_sgarray manager size (mkMemory (mkHeap ∅ 1) (mk ∅ [])) with
  | Ret (Ok sga, m) =>
      Some (match clone_sgarray sga m with
            | Ret (Ok b, m) => match buffer_deref b m with Ret (l, _) => Ret (blen l) | Panic msg => Panic msg | Diverge => Diverge end
            | Ret (Err _, _) => Panic "error"
            | Panic msg => Panic msg
            | Diverge => Diverge
            end)
  | _ => None
  end.

Example array_is_sent_short : sent_length 1500 = Some (Ret 824) /\ sent_length 1080 = Some (Panic "assertion failed: nbytes <= self.len()").
Proof. split; reflexivity. Qed.

End SimDevice.
