(* ===== verification/Arp.v ===== *)
(** * Address resolution
    (src/src/rust/inetstack/protocols/arp/, src/src/rust/runtime/network/config/arp.rs)

    Messages, the cache, and the peer: it answers requests, learns from what it hears, and resolves
    an address by asking until it is answered or has asked often enough.  A query waits on a
    one-shot channel; the channels of an address hang in the peer's table of waiters.  The coroutine
    of a query is a state machine with one definition per poll. *)

From S2P Require Import Prelude Buffer Net Packet TtlCache.

(** ** Messages (packet/header.rs, packet/message.rs) *)

Inductive ArpOperation := Request | Reply.

Definition ArpOperation_to_u16 (o : ArpOperation) : Z := match o with Request => 1 | Reply => 2 end.

Definition ArpOperation_from_u16 (n : Z) : option ArpOperation :=
  if n =? 1 then Some Request else if n =? 2 then Some Reply else None.

Definition ARP_HTYPE_ETHER2 : Z := 1.
Definition ARP_HLEN_ETHER2 : Z := 6.
Definition ARP_PTYPE_IPV4 : Z := 0x800.
Definition ARP_PLEN_IPV4 : Z := 4.
Definition ARP_MESSAGE_SIZE : nat := 28.

Module ArpHeader.

Record t := new {
  operation : ArpOperation;
  sender_hardware_addr : MacAddress;
  sender_protocol_addr : Ipv4Addr;
  target_hardware_addr : MacAddress;
  target_protocol_addr : Ipv4Addr;
}.

Definition compute_size (self : t) : nat := ARP_MESSAGE_SIZE.

Definition parse (buf : Buffer.t) : outcome (Result t) :=
  if Nat.ltb (length buf) ARP_MESSAGE_SIZE then fail EBADMSG "ARP message too short" else
  buf ← slice buf 0 ARP_MESSAGE_SIZE;
  hardware_type ← read_u16 buf 0;
  if negb (hardware_type =? ARP_HTYPE_ETHER2) then fail ENOTSUP "unsupported HTYPE" else
  protocol_type ← read_u16 buf 2;
  if negb (protocol_type =? ARP_PTYPE_IPV4) then fail ENOTSUP "unsupported PTYPE" else
  hardware_address_len ← index buf 4;
  if negb (hardware_address_len =? ARP_HLEN_ETHER2) then fail ENOTSUP "unsupported HLEN" else
  protocol_address_len ← index buf 5;
  if negb (protocol_address_len =? ARP_PLEN_IPV4) then fail ENOTSUP "unsupported PLEN" else
  oper ← read_u16 buf 6;
  match ArpOperation_from_u16 oper with
  | None => fail ENOTSUP "unsupported OPER"
  | Some operation =>
      sender_hardware_addr ← slice buf 8 14;
      sender_protocol_addr ← read_u32 buf 14;
      target_hardware_addr ← slice buf 18 24;
      target_protocol_addr ← read_u32 buf 24;
      Ret (Ok (new operation sender_hardware_addr sender_protocol_addr target_hardware_addr target_protocol_addr))
  end.

Definition serialize (self : t) (buf : list Z) : outcome (list Z) :=
  part ← slice buf 0 ARP_MESSAGE_SIZE;
  part ← write_at part 0 (be16 ARP_HTYPE_ETHER2);
  part ← write_at part 2 (be16 ARP_PTYPE_IPV4);
  part ← write_at part 4 [ARP_HLEN_ETHER2];
  part ← write_at part 5 [ARP_PLEN_IPV4];
  part ← write_at part 6 (be16 (ArpOperation_to_u16 (operation self)));
  part ← write_at part 8 (sender_hardware_addr self);
  part ← write_at part 14 (octets (sender_protocol_addr self));
  part ← write_at part 18 (target_hardware_addr self);
  part ← write_at part 24 (octets (target_protocol_addr self));
  write_at buf 0 part.

Definition get_operation (self : t) : ArpOperation := operation self.
Definition get_sender_hardware_addr (self : t) : MacAddress := sender_hardware_addr self.
Definition get_sender_protocol_addr (self : t) : Ipv4Addr := sender_protocol_addr self.
Definition get_destination_protocol_addr (self : t) : Ipv4Addr := target_protocol_addr self.

End ArpHeader.

Module ArpMessage.

Record t := new { ethernet2_hdr : Ethernet2Header.t; header : ArpHeader.t }.

Definition header_size (self : t) : nat :=
  Ethernet2Header.compute_size (ethernet2_hdr self) + ArpHeader.compute_size (header self).

Definition write_header (self : t) (buf : list Z) : outcome (list Z) :=
  let eth_hdr_size := Ethernet2Header.compute_size (ethernet2_hdr self) in
  let arp_pdu_size := ArpHeader.compute_size (header self) in
  buf ← on_slice buf 0 eth_hdr_size (Ethernet2Header.serialize (ethernet2_hdr self));
  on_slice buf eth_hdr_size arp_pdu_size (ArpHeader.serialize (header self)).

End ArpMessage.

#[export] Instance arp_packet : PacketBuf ArpMessage.t := {
  Packet.header_size := ArpMessage.header_size;
  Packet.write_header := ArpMessage.write_header;
  Packet.body_size := fun _ => 0%nat;
  Packet.take_body := fun _ => None;
}.

(** ** Configuration (config/arp.rs) *)

Record ArpConfig := mkArpConfig {
  cache_ttl : Z;
  request_timeout : Z;
  retry_count : nat;
  initial_values : gmap Ipv4Addr MacAddress;
  disable_arp : bool;
}.

Definition secs (n : Z) : Z := n * 1000000000.

Definition ArpConfig_default : ArpConfig := mkArpConfig (secs 15) (secs 20) 5 ∅ false.

Definition ArpConfig_new (ttl timeout : option Z) (retries : option nat) (values : option (gmap Ipv4Addr MacAddress))
  (disable : option bool) : ArpConfig :=
  let c := ArpConfig_default in
  mkArpConfig (default (cache_ttl c) ttl) (default (request_timeout c) timeout) (default (retry_count c) retries)
    (default (initial_values c) values) (default (disable_arp c) disable).

(** ** The cache (cache/mod.rs) *)

Module ArpCache.

Definition DUMMY_MAC_ADDRESS : MacAddress := replicate 6 0.

Record t := mk { cache : HashTtlCache.t Ipv4Addr MacAddress; disable : bool }.

Definition insert (self : t) (ipv4_addr : Ipv4Addr) (link_addr : MacAddress) : outcome (option MacAddress * t) :=
  '(old, c) ← HashTtlCache.insert (cache self) ipv4_addr link_addr;
  Ret (old, mk c (disable self)).

Fixpoint insert_all (self : t) (values : list (Ipv4Addr * MacAddress)) : outcome t :=
  match values with
  | [] => Ret self
  | (k, v) :: values => '(_, self) ← insert self k v; insert_all self values
  end.

Definition new (now : Z) (default_ttl : option Z) (values : option (gmap Ipv4Addr MacAddress)) (disable : bool) : outcome t :=
  c ← HashTtlCache.new now default_ttl;
  let peer := mk c disable in
  match values with
  | Some values => insert_all peer (map_to_list values)
  | None => Ret peer
  end.

Definition get (self : t) (ipv4_addr : Ipv4Addr) : option MacAddress :=
  if disable self then Some DUMMY_MAC_ADDRESS else HashTtlCache.get (cache self) ipv4_addr.

Definition advance_clock (self : t) (now : Z) : outcome t :=
  c ← HashTtlCache.advance_clock (cache self) now;
  Ret (mk c (disable self)).

Definition clear (self : t) : t := mk (HashTtlCache.clear (cache self)) (disable self).

(** What a test can export: the resolutions that have not expired. *)
Definition export (self : t) : gmap Ipv4Addr MacAddress := list_to_map (HashTtlCache.iter (cache self)).

End ArpCache.

(** ** The peer (peer.rs) *)

Module ArpPeer.

(** A one-shot channel: nothing yet, the value sent, or the sender dropped without sending. *)
Inductive chan := Open | Sent (m : MacAddress) | Canceled.

#[export] Instance chan_eq_dec : EqDecision chan.
Proof. solve_decision. Defined.

Record t := mk {
  local_link_addr : MacAddress;
  local_ipv4_addr : Ipv4Addr;
  arp_config : ArpConfig;
  cache : ArpCache.t;
  waiters : gmap Ipv4Addr (list Z);
  chans : gmap Z chan;
  next_chan : Z;
}.

Definition set_cache v (p : t) : t := mk (local_link_addr p) (local_ipv4_addr p) (arp_config p) v (waiters p) (chans p) (next_chan p).
Definition set_waiters v (p : t) : t := mk (local_link_addr p) (local_ipv4_addr p) (arp_config p) (cache p) v (chans p) (next_chan p).
Definition set_chans v (p : t) : t := mk (local_link_addr p) (local_ipv4_addr p) (arp_config p) (cache p) (waiters p) v (next_chan p).

Definition new (now : Z) (local_link_addr : MacAddress) (local_ipv4_addr : Ipv4Addr) (c : ArpConfig) : outcome t :=
  cache ← ArpCache.new now (Some (cache_ttl c)) (Some (initial_values c)) (disable_arp c);
  Ret (mk local_link_addr local_ipv4_addr c cache ∅ ∅ 0).

(** The senders of a wait queue send or are dropped: the channels still open change. *)
Fixpoint resolve (cs : gmap Z chan) (queue : list Z) (c : chan) : gmap Z chan :=
  match queue with
  | [] => cs
  | ch :: queue => resolve (match cs !! ch with Some Open => <[ch := c]> cs | _ => cs end) queue c
  end.

Definition do_drop (self : t) (ipv4_addr : Ipv4Addr) : t :=
  let queue := default [] (waiters self !! ipv4_addr) in
  set_chans (resolve (chans self) queue Canceled) (set_waiters (delete ipv4_addr (waiters self)) self).

Definition do_insert (self : t) (ipv4_addr : Ipv4Addr) (link_addr : MacAddress) : outcome (option MacAddress * t) :=
  let self :=
    match waiters self !! ipv4_addr with
    | Some wait_queue =>
        set_chans (resolve (chans self) wait_queue (Sent link_addr)) (set_waiters (delete ipv4_addr (waiters self)) self)
    | None => self
    end in
  '(old, c) ← ArpCache.insert (cache self) ipv4_addr link_addr;
  Ret (old, set_cache c self).

(** The receiver's channel is returned. *)
Definition do_wait_link_addr (self : t) (ipv4_addr : Ipv4Addr) : Z * t :=
  let ch := next_chan self in
  let with_chan c w := mk (local_link_addr self) (local_ipv4_addr self) (arp_config self) (cache self) w
                          (<[ch := c]> (chans self)) (ch + 1) in
  match ArpCache.get (cache self) ipv4_addr with
  | Some link_addr => (ch, with_chan (Sent link_addr) (waiters self))
  | None =>
      match waiters self !! ipv4_addr with
      | Some wait_queue => (ch, with_chan Open (<[ipv4_addr := wait_queue ++ [ch]]> (waiters self)))
      | None => (ch, with_chan Open (<[ipv4_addr := [ch]]> (waiters self)))
      end
  end.

(** One turn of the background task; it then waits for a second. *)
Definition background (self : t) (now : Z) : outcome t :=
  c ← ArpCache.advance_clock (cache self) now;
  Ret (set_cache c self).

(** The messages transmitted are returned with the result. *)
Definition receive (self : t) (buf : Buffer.t) : outcome (Result unit * t * list ArpMessage.t) :=
  h ← ArpHeader.parse buf;
  match h with
  | Err e => Ret (Err e, self, [])
  | Ok header =>
      let sender_ip := ArpHeader.get_sender_protocol_addr header in
      let sender_mac := ArpHeader.get_sender_hardware_addr header in
      '(merge_flag, self) ←
        match ArpCache.get (cache self) sender_ip with
        | Some _ => '(_, self) ← do_insert self sender_ip sender_mac; Ret (true, self)
        | None => Ret (false, self)
        end;
      if negb (ArpHeader.get_destination_protocol_addr header =? local_ipv4_addr self) then
        Ret (if (merge_flag : bool) then Ok tt else Err (mkFail EBADMSG "unrecognized IP address"), self, [])
      else
        self ← (if (merge_flag : bool) then Ret self else '(_, self) ← do_insert self sender_ip sender_mac; Ret self);
        match ArpHeader.get_operation header with
        | Request =>
            let reply := ArpMessage.new
              (Ethernet2Header.new sender_mac (local_link_addr self) EtArp)
              (ArpHeader.new Reply (local_link_addr self) (local_ipv4_addr self) sender_mac sender_ip) in
            Ret (Ok tt, self, [reply])
        | Reply =>
            '(_, c) ← ArpCache.insert (cache self) sender_ip sender_mac;
            Ret (Ok tt, set_cache c self, [])
        end
  end.

Definition try_query (self : t) (ipv4_addr : Ipv4Addr) : option MacAddress := ArpCache.get (cache self) ipv4_addr.

Definition broadcast : MacAddress := replicate 6 255.

Definition request (self : t) (ipv4_addr : Ipv4Addr) : ArpMessage.t :=
  ArpMessage.new
    (Ethernet2Header.new broadcast (local_link_addr self) EtArp)
    (ArpHeader.new Request (local_link_addr self) (local_ipv4_addr self) broadcast ipv4_addr).

(** The coroutine of a query: not polled yet; waiting for its channel or the timer, with so many
    attempts left; finished. *)
Inductive query :=
| QStart
| QWaiting (ch : Z) (attempts : nat) (deadline : Z)
| QDone (r : Result MacAddress).

(** One poll of [arp_response.with_timeout(timer)].  [futures::select!] polls its branches in a
    pseudo-random order, which is an input. *)
Definition with_timeout (c : chan) (now deadline : Z) (timer_first : bool) : outcome (option (Result MacAddress)) :=
  let response :=
    match c with
    | Open => Ret None
    | Sent m => Ret (Some (Ok m))
    | Canceled => Panic "Dropped waiter?"
    end in
  let timer := if deadline <=? now then Some (Err (mkFail ETIMEDOUT "timer expired")) else None in
  if timer_first
  then match timer with Some r => Ret (Some r) | None => response end
  else r ← response; match r with Some r => Ret (Some r) | None => Ret timer end.

Definition chan_of (self : t) (ch : Z) : chan := default Canceled (chans self !! ch).

(** The [for] loop from the top of an iteration. *)
Fixpoint attempt (self : t) (now : Z) (timer_first : nat -> bool) (addr : Ipv4Addr) (ch : Z) (attempts : nat) :
  outcome (query * t * list ArpMessage.t) :=
  match attempts with
  | O => Ret (QDone (Err (mkFail ETIMEDOUT "ARP query timeout")), do_drop self addr, [])
  | S attempts =>
      let deadline := now + request_timeout (arp_config self) in
      r ← with_timeout (chan_of self ch) now deadline (timer_first attempts);
      match r with
      | None => Ret (QWaiting ch attempts deadline, self, [request self addr])
      | Some (Ok link_addr) => Ret (QDone (Ok link_addr), self, [request self addr])
      | Some (Err _) =>
          '(q, self', tx) ← attempt self now timer_first addr ch attempts;
          Ret (q, self', request self addr :: tx)
      end
  end.

Definition poll_query (self : t) (now : Z) (timer_first : nat -> bool) (addr : Ipv4Addr) (q : query) :
  outcome (query * t * list ArpMessage.t) :=
  match q with
  | QStart =>
      match ArpCache.get (cache self) addr with
      | Some link_addr => Ret (QDone (Ok link_addr), self, [])
      | None =>
          let '(ch, self) := do_wait_link_addr self addr in
          attempt self now timer_first addr ch (retry_count (arp_config self) + 1)
      end
  | QWaiting ch attempts deadline =>
      r ← with_timeout (chan_of self ch) now deadline (timer_first attempts);
      match r with
      | None => Ret (q, self, [])
      | Some (Ok link_addr) => Ret (QDone (Ok link_addr), self, [])
      | Some (Err _) => attempt self now timer_first addr ch attempts
      end
  | QDone _ => Panic "`async fn` resumed after completion"
  end.

End ArpPeer.
