(* ===== verification/ArpSafety.v ===== *)
(** * Address resolution is sound
    (src/src/rust/inetstack/protocols/arp/)

    ARP messages round-trip; a host's peer, whatever it receives and however its queries are
    polled, answers a query only with what it heard for that address, gives up only after all its
    requests, and does not forget who waits. *)

From S2P Require Import Prelude Buffer Net Packet TtlCache Arp.

(** ** Messages round-trip *)

Definition arp_wf (h : ArpHeader.t) : Prop :=
  length (ArpHeader.sender_hardware_addr h) = 6%nat /\ length (ArpHeader.target_hardware_addr h) = 6%nat /\
  u32_ok (ArpHeader.sender_protocol_addr h) /\ u32_ok (ArpHeader.target_protocol_addr h).

Lemma arp_serialize_parse h buf pad : length buf = 28%nat -> arp_wf h ->
  exists bytes, ArpHeader.serialize h buf = Ret bytes /\ length bytes = 28%nat /\
    ArpHeader.parse (bytes ++ pad) = Ret (Ok h).
Proof.
  intros Hb (Hs & Ht & Hsi & Hti). destruct h as [op sm si tm ti]. cbn in Hs, Ht, Hsi, Hti. explode sm Hs. explode tm Ht. explode buf Hb.
  unfold ArpHeader.serialize, octets, ARP_MESSAGE_SIZE. cbn [ArpHeader.operation ArpHeader.sender_hardware_addr ArpHeader.sender_protocol_addr ArpHeader.target_hardware_addr ArpHeader.target_protocol_addr].
  run_bytes. eexists. split; [reflexivity|]. split; [reflexivity|].
  unfold ArpHeader.parse, ARP_MESSAGE_SIZE. cbn [app length Nat.ltb Nat.leb]. run_bytes.
  destruct op; cbn; rewrite !be32_get32' by done; done.
Qed.

Lemma arp_message_wire m : length (Ethernet2Header.dst_addr (ArpMessage.ethernet2_hdr m)) = 6%nat ->
  length (Ethernet2Header.src_addr (ArpMessage.ethernet2_hdr m)) = 6%nat -> arp_wf (ArpMessage.header m) ->
  exists bytes payload, wire m = Ret bytes /\ Ethernet2Header.parse bytes = Ret (Ok (ArpMessage.ethernet2_hdr m, payload)) /\
    ArpHeader.parse payload = Ret (Ok (ArpMessage.header m)).
Proof.
  intros Hd Hs Hw. destruct (arp_serialize_parse _ (replicate 28 0) [] eq_refl Hw) as (ab & Ha & Hal & Hap).
  destruct (ethernet2_serialize_parse _ (replicate 14 0) ab eq_refl Hd Hs) as (eb & He & Hel & Hep).
  exists (eb ++ ab), ab. split_and!; [|done|by rewrite app_nil_r in Hap].
  unfold wire. cbn [Packet.header_size Packet.write_header Packet.take_body arp_packet]. unfold ArpMessage.write_header, ArpMessage.header_size.
  change (Ethernet2Header.compute_size _ + ArpHeader.compute_size _)%nat with 42%nat.
  change (replicate 42 0) with ([] ++ replicate 14 0 ++ replicate 28 0).
  rewrite (on_slice_mid [] (replicate 14 0) (replicate 28 0) _ eb) by done. cbn [mbind outcome_bind app].
  replace (eb ++ replicate 28 0) with (eb ++ replicate 28 0 ++ []) by (by rewrite app_nil_r).
  rewrite (on_slice_mid eb (replicate 28 0) [] _ ab) by done. cbn [mbind outcome_bind default]. by rewrite !app_nil_r.
Qed.

(** ** A host that resolves addresses *)

Module ArpHost.
Import ArpPeer.

(** The peer, the clock, the queries with their addresses, and logs: the messages transmitted (with
    the query that sent them) and the pairs of addresses of the well-formed messages heard. *)
Record host := mkHost {
  peer : ArpPeer.t;
  now : Z;
  queries : gmap Z (Ipv4Addr * query);
  sent : list (option Z * ArpMessage.t);
  heard : list (Ipv4Addr * MacAddress);
}.

Inductive event :=
| Receive (buf : list Z)
| Query (id : Z) (addr : Ipv4Addr)
| Poll (id : Z) (timer_first : nat -> bool)
| Background
| Tick (nanos : N).

Definition hears (buf : list Z) : list (Ipv4Addr * MacAddress) :=
  match ArpHeader.parse buf with
  | Ret (Ok h) => [(ArpHeader.get_sender_protocol_addr h, ArpHeader.get_sender_hardware_addr h)]
  | _ => []
  end.

Definition finished (q : query) : bool := match q with QDone _ => true | _ => false end.

Definition step (h : host) (e : event) : outcome host :=
  match e with
  | Receive buf =>
      '(_, p, tx) ← receive (peer h) buf;
      Ret (mkHost p (now h) (queries h) (sent h ++ map (pair None) tx) (heard h ++ hears buf))
  | Query id addr =>
      match queries h !! id with
      | Some _ => Ret h
      | None => Ret (mkHost (peer h) (now h) (<[id := (addr, QStart)]> (queries h)) (sent h) (heard h))
      end
  | Poll id timer_first =>
      match queries h !! id with
      | Some (addr, q) =>
          if finished q then Ret h
          else
            '(q, p, tx) ← poll_query (peer h) (now h) timer_first addr q;
            Ret (mkHost p (now h) (<[id := (addr, q)]> (queries h)) (sent h ++ map (pair (Some id)) tx) (heard h))
      | None => Ret h
      end
  | Background =>
      p ← background (peer h) (now h);
      Ret (mkHost p (now h) (queries h) (sent h) (heard h))
  | Tick d => Ret (mkHost (peer h) (now h + Z.of_N d) (queries h) (sent h) (heard h))
  end.

Fixpoint run (h : host) (es : list event) : outcome host :=
  match es with
  | [] => Ret h
  | e :: es => h ← step h e; run h es
  end.

(** A new host has heard its configured values. *)
Definition start (t : Z) (mac : MacAddress) (ip : Ipv4Addr) (c : ArpConfig) : outcome host :=
  p ← ArpPeer.new t mac ip c;
  Ret (mkHost p t ∅ [] (map_to_list (initial_values c))).

(** ** Single operations *)

Lemma resolve_lookup cs l c ch : c <> Open ->
  resolve cs l c !! ch = if decide (ch ∈ l /\ cs !! ch = Some Open) then Some c else cs !! ch.
Proof.
  intros Hc. revert cs. induction l as [|x l IH]; intros cs; cbn [resolve].
  - rewrite decide_False; [done|]. by intros [?%not_elem_of_nil _].
  - rewrite IH. destruct (cs !! x) as [[| |]|] eqn:Hx; destruct (decide (ch = x)) as [->|Hne];
      rewrite ?lookup_insert_eq, ?lookup_insert_ne by done; rewrite ?Hx; repeat case_decide; try done;
      set_solver.
Qed.

Section host.
Context (c : ArpConfig) (mac : MacAddress) (ip : Ipv4Addr).

(** An answer is good if it was heard for the address, or resolution is disabled. *)
Definition good (hd : list (Ipv4Addr * MacAddress)) (a : Ipv4Addr) (m : MacAddress) : Prop :=
  (disable_arp c = true /\ m = ArpCache.DUMMY_MAC_ADDRESS) \/ (a, m) ∈ hd.

(** The cache of a peer: positive time to live, its own clock not ahead, only what was heard. *)
Record cache_inv (k : ArpCache.t) (t : Z) (hd : list (Ipv4Addr * MacAddress)) : Prop := {
  c_ttl : HashTtlCache.default_ttl (ArpCache.cache k) = Some (cache_ttl c) /\ 0 < cache_ttl c;
  c_clock : HashTtlCache.clock (ArpCache.cache k) <= t;
  c_disable : ArpCache.disable k = disable_arp c;
  c_heard : forall a r, HashTtlCache.living (ArpCache.cache k) !! a = Some r -> (a, HashTtlCache.value r) ∈ hd;
}.

Lemma cache_get k t hd a m : cache_inv k t hd -> ArpCache.get k a = Some m -> good hd a m.
Proof.
  intros K. unfold ArpCache.get. rewrite (c_disable _ _ _ K). destruct (disable_arp c) eqn:E; [intros [= <-]; by left|].
  unfold HashTtlCache.get. destruct (HashTtlCache.living _ !! a) as [r|] eqn:Hr; [|done]. intros [= <-]. right. by apply (c_heard _ _ _ K).
Qed.

Lemma cache_mono k t t' hd hd' : t <= t' -> (forall x, x ∈ hd -> x ∈ hd') -> cache_inv k t hd -> cache_inv k t' hd'.
Proof. intros Ht Hh [H1 H2 H3 H4]. split; try done; [lia|eauto]. Qed.

Lemma cache_insert k t hd a m : cache_inv k t hd -> (a, m) ∈ hd ->
  exists o k', ArpCache.insert k a m = Ret (o, k') /\ cache_inv k' t hd.
Proof.
  intros K Hin. destruct (c_ttl _ _ _ K) as [Ht Hp]. unfold ArpCache.insert.
  destruct (HashTtlCache.ttl_insert_ok (ArpCache.cache k) a m) as (k' & -> & Hc & Hd & Hl); [intros ttl; rewrite Ht; by intros [= <-]|].
  cbn. do 2 eexists. split; [done|]. split; cbn; [by rewrite Hd|rewrite Hc; apply K|apply K|].
  intros b r. rewrite Hl. destruct (decide (b = a)) as [->|Hne]; [rewrite lookup_insert_eq; by intros [= <-]|].
  rewrite lookup_insert_ne by done. intros [Hr _]%map_lookup_filter_Some. by apply (c_heard _ _ _ K).
Qed.

Lemma cache_advance k t hd : cache_inv k t hd -> exists k', ArpCache.advance_clock k t = Ret k' /\ cache_inv k' t hd.
Proof.
  intros K. unfold ArpCache.advance_clock, HashTtlCache.advance_clock. rewrite (proj2 (Z.leb_le _ _) (c_clock _ _ _ K)). cbn.
  eexists. split; [done|]. destruct K as [H1 H2 H3 H4]. by split.
Qed.

(** Who waits on which channel, and in which queue the channel is. *)
Record inv (p : ArpPeer.t) (t : Z) (qs : gmap Z (Ipv4Addr * query)) (hd : list (Ipv4Addr * MacAddress)) : Prop := {
  i_local : arp_config p = c /\ local_link_addr p = mac /\ local_ipv4_addr p = ip;
  i_cache : cache_inv (cache p) t hd;
  i_open : forall a l ch, waiters p !! a = Some l -> ch ∈ l -> chans p !! ch = Some Open;
  i_one : forall a b l k ch, waiters p !! a = Some l -> waiters p !! b = Some k -> ch ∈ l -> ch ∈ k -> a = b;
  i_next : forall ch, is_Some (chans p !! ch) -> ch < next_chan p;
  i_wait : forall id a ch n d, qs !! id = Some (a, QWaiting ch n d) -> exists st, chans p !! ch = Some st /\
    match st with
    | Open => exists l, waiters p !! a = Some l /\ ch ∈ l
    | Sent m => good hd a m
    | Canceled => exists id' q, id' <> id /\ qs !! id' = Some (a, q)
    end;
  i_own : forall id id' a a' ch n n' d d', qs !! id = Some (a, QWaiting ch n d) -> qs !! id' = Some (a', QWaiting ch n' d') -> id = id';
  i_done : forall id a m, qs !! id = Some (a, QDone (Ok m)) -> good hd a m;
}.

Lemma good_mono hd hd' a m : (forall x, x ∈ hd -> x ∈ hd') -> good hd a m -> good hd' a m.
Proof. intros Hh [?|?]; [by left|right; auto]. Qed.

Lemma inv_mono p t t' qs hd hd' : t <= t' -> (forall x, x ∈ hd -> x ∈ hd') -> inv p t qs hd -> inv p t' qs hd'.
Proof.
  intros Ht Hh [H1 H2 H3 H4 H5 H6 H7 H8]. split; try done; [by eapply cache_mono| |].
  - intros id a ch n d Hq. destruct (H6 _ _ _ _ _ Hq) as (st & Hst & Hm). exists st. split; [done|].
    destruct st; [done|by eapply good_mono|done].
  - intros id a m Hq. eapply good_mono; [done|eauto].
Qed.

Lemma inv_cache p t qs hd k : inv p t qs hd -> cache_inv k t hd -> inv (set_cache k p) t qs hd.
Proof. intros [H1 H2 H3 H4 H5 H6 H7 H8] K. by split. Qed.

(** A queue leaves the table and its channels are resolved. *)
Lemma inv_resolve p t qs hd a l st : inv p t qs hd -> waiters p !! a = Some l -> st <> Open ->
  match st with Open => True | Sent m => good hd a m | Canceled => forall id ch n d, qs !! id = Some (a, QWaiting ch n d) -> exists id' q, id' <> id /\ qs !! id' = Some (a, q) end ->
  inv (set_chans (resolve (chans p) l st) (set_waiters (delete a (waiters p)) p)) t qs hd.
Proof.
  intros I Hl Hst Hgood. split; cbn; [apply I|apply I| | | | |apply I|apply I].
  - intros b k ch [Hne Hk]%lookup_delete_Some Hch. pose proof (i_open _ _ _ _ I b k ch Hk Hch) as Ho. rewrite resolve_lookup by done.
    rewrite decide_False; [done|]. intros [Hin _]. by apply Hne, (i_one _ _ _ _ I a b l k ch).
  - intros b b' k k' ch [_ Hk]%lookup_delete_Some [_ Hk']%lookup_delete_Some. by eapply I.
  - intros ch. rewrite resolve_lookup by done. case_decide as Hd; [|apply I]. intros _. apply I. destruct Hd as [_ ->]. by eexists.
  - intros id b ch n d Hq. destruct (i_wait _ _ _ _ I _ _ _ _ _ Hq) as (s & Hs & Hm). rewrite resolve_lookup by done.
    case_decide as Hd.
    + exists st. split; [done|]. destruct Hd as [Hin Ho]. rewrite Ho in Hs. injection Hs as <-. destruct Hm as (k & Hk & Hch).
      assert (a = b) as -> by (by eapply (i_one _ _ _ _ I)). destruct st; [done|done|by eapply Hgood].
    + exists s. split; [done|]. destruct s; try done. destruct Hm as (k & Hk & Hch). exists k. split; [|done].
      apply lookup_delete_Some. split; [|done]. intros <-. apply Hd. split; [|done]. congruence.
Qed.

Lemma insert_inv p t qs hd a m : inv p t qs hd -> (a, m) ∈ hd ->
  exists o p', do_insert p a m = Ret (o, p') /\ inv p' t qs hd /\
    (forall id ch n d, qs !! id = Some (a, QWaiting ch n d) -> chans p !! ch = Some Open -> chans p' !! ch = Some (Sent m)) /\
    (forall ch m', chans p !! ch = Some (Sent m') -> chans p' !! ch = Some (Sent m')).
Proof.
  intros I Hin. unfold do_insert. set (p1 := match waiters p !! a with Some _ => _ | None => _ end).
  assert (I1 : inv p1 t qs hd /\ (forall id ch n d, qs !! id = Some (a, QWaiting ch n d) -> chans p !! ch = Some Open -> chans p1 !! ch = Some (Sent m)) /\
    (forall ch m', chans p !! ch = Some (Sent m') -> chans p1 !! ch = Some (Sent m'))).
  { unfold p1. destruct (waiters p !! a) as [l|] eqn:Hl.
    - split_and!; [apply inv_resolve; [done|done|done|by right]| |].
      + intros id ch n d Hq Ho. cbn. rewrite resolve_lookup by done. rewrite decide_True; [done|]. split; [|done].
        destruct (i_wait _ _ _ _ I _ _ _ _ _ Hq) as (s & Hs & Hm). rewrite Ho in Hs. injection Hs as <-. destruct Hm as (k & Hk & Hch). congruence.
      + intros ch m' Hs. cbn. rewrite resolve_lookup by done. rewrite decide_False; [done|]. rewrite Hs. by intros [_ ?].
    - split_and!; try done. intros id ch n d Hq Ho. destruct (i_wait _ _ _ _ I _ _ _ _ _ Hq) as (s & Hs & Hm). rewrite Ho in Hs. injection Hs as <-.
      destruct Hm as (k & Hk & _). congruence. }
  destruct I1 as (I1 & Hs & Hk). destruct (cache_insert (cache p1) t hd a m (i_cache _ _ _ _ I1) Hin) as (o & k & -> & K). cbn.
  do 2 eexists. split; [done|]. split; [by apply inv_cache|]. by split.
Qed.

(** ** Polls of a query *)

(** The possible ends of a poll that has reached the loop with [n] attempts left. *)
Inductive attempted (p : ArpPeer.t) (t : Z) (addr : Ipv4Addr) (ch : Z) (n : nat) : outcome (query * ArpPeer.t * list ArpMessage.t) -> Prop :=
| at_waiting n' : (n' < n)%nat -> attempted p t addr ch n (Ret (QWaiting ch n' (t + request_timeout (arp_config p)), p, replicate (n - n') (request p addr)))
| at_answered k m : (k <= n)%nat -> chan_of p ch = Sent m -> attempted p t addr ch n (Ret (QDone (Ok m), p, replicate k (request p addr)))
| at_timeout e : errno e = ETIMEDOUT -> attempted p t addr ch n (Ret (QDone (Err e), do_drop p addr, replicate n (request p addr)))
| at_canceled : chan_of p ch = Canceled -> attempted p t addr ch n (Panic "Dropped waiter?").

Lemma attempt_spec p t tf addr ch n : attempted p t addr ch n (attempt p t tf addr ch n).
Proof.
  induction n as [|n IH]; cbn [attempt]; [by apply (at_timeout p t addr ch 0)|].
  assert (Hnext : attempted p t addr ch (S n) ('(q, p', tx) ← attempt p t tf addr ch n; Ret (q, p', request p addr :: tx))).
  { destruct IH as [n' Hn|k m Hk Hm|e He|Hc]; cbn [mbind outcome_bind].
    - replace (request p addr :: replicate (n - n') (request p addr)) with (replicate (S n - n') (request p addr)) by (by rewrite Nat.sub_succ_l by lia).
      apply at_waiting. lia.
    - by apply (at_answered p t addr ch (S n) (S k)); [lia|].
    - by apply (at_timeout p t addr ch (S n)).
    - by apply at_canceled. }
  unfold with_timeout. set (d := t + request_timeout (arp_config p)).
  assert (Hw : attempted p t addr ch (S n) (Ret (QWaiting ch n d, p, [request p addr]))).
  { replace [request p addr] with (replicate (S n - n) (request p addr)) by (by replace (S n - n)%nat with 1%nat by lia). apply at_waiting. lia. }
  destruct (tf n), (d <=? t), (chan_of p ch) as [|m|] eqn:E; cbn [mbind outcome_bind]; try done;
    try (by apply (at_answered p t addr ch (S n) 1 m); [lia|]); by apply at_canceled.
Qed.

(** *** Queries change state *)

Definition is_waiting_on (ch : Z) (q : query) : Prop := match q with QWaiting ch' _ _ => ch' = ch | _ => False end.

(** A query moves on while the peer stays the same. *)
Lemma update_inv p t qs hd id a q q' : inv p t qs hd -> qs !! id = Some (a, q) ->
  (forall ch, is_waiting_on ch q' -> is_waiting_on ch q) -> (forall m, q' = QDone (Ok m) -> good hd a m) ->
  inv p t (<[id := (a, q')]> qs) hd.
Proof.
  intros I Hq Hw Hg. split; try apply I.
  - intros id2 b ch n d. destruct (decide (id2 = id)) as [->|Hne].
    + rewrite lookup_insert_eq. intros [= <- ->]. destruct q as [|ch' n' d'|]; try by destruct (Hw ch eq_refl).
      destruct (Hw ch eq_refl). destruct (i_wait _ _ _ _ I _ _ _ _ _ Hq) as (st & Hst & Hm). exists st. split; [done|].
      destruct st; try done. destruct Hm as (id' & q & Hne & Hq'). exists id', q. split; [done|]. by rewrite lookup_insert_ne.
    + rewrite lookup_insert_ne by done. intros Hq2. destruct (i_wait _ _ _ _ I _ _ _ _ _ Hq2) as (st & Hst & Hm). exists st. split; [done|].
      destruct st; try done. destruct Hm as (id' & q2 & Hne' & Hq'). destruct (decide (id' = id)) as [->|Hne2].
      * exists id, q'. rewrite lookup_insert_eq. split; [done|]. congruence.
      * exists id', q2. split; [done|]. by rewrite lookup_insert_ne.
  - assert (Hback : forall id2 b ch n d, <[id := (a, q')]> qs !! id2 = Some (b, QWaiting ch n d) -> exists n' d', qs !! id2 = Some (b, QWaiting ch n' d')).
    { intros id2 b ch n d. destruct (decide (id2 = id)) as [->|]; [|rewrite lookup_insert_ne by done; eauto].
      rewrite lookup_insert_eq. intros [= <- ->]. destruct q as [|ch' n' d'|]; try by destruct (Hw ch eq_refl). destruct (Hw ch eq_refl). eauto. }
    intros id1 id2 a1 a2 ch n n' d d' (? & ? & H1)%Hback (? & ? & H2)%Hback. by eapply (i_own _ _ _ _ I).
  - intros id2 b m. destruct (decide (id2 = id)) as [->|]; [|rewrite lookup_insert_ne by done; apply I].
    rewrite lookup_insert_eq. intros [= <- ->]. by apply Hg.
Qed.

(** A new channel. *)
Lemma wait_inv p t qs hd id a n d : inv p t qs hd -> qs !! id = Some (a, QStart) -> ArpCache.get (cache p) a = None ->
  let '(ch, p') := do_wait_link_addr p a in
  chan_of p' ch = Open /\ cache p' = cache p /\ arp_config p' = arp_config p /\ request p' a = request p a /\ inv p' t (<[id := (a, QWaiting ch n d)]> qs) hd.
Proof.
  intros I Hq Hg. unfold do_wait_link_addr. rewrite Hg. set (ch := next_chan p).
  assert (Hfresh : chans p !! ch = None).
  { destruct (chans p !! ch) eqn:E; [|done]. assert (ch < next_chan p) by (apply (i_next _ _ _ _ I); by eexists). unfold ch in *. lia. }
  set (l := default [] (waiters p !! a) ++ [ch]).
  assert (Hwl : forall b k x, <[a := l]> (waiters p) !! b = Some k -> x ∈ k -> (b = a /\ x = ch) \/ exists k', waiters p !! b = Some k' /\ x ∈ k').
  { intros b k x. destruct (decide (b = a)) as [->|]; [|rewrite lookup_insert_ne by done; eauto].
    rewrite lookup_insert_eq. intros [= <-] [Hx|Hx%list_elem_of_singleton]%elem_of_app; [right|left; done].
    destruct (waiters p !! a) as [k'|]; [by exists k'|]. by apply not_elem_of_nil in Hx. }
  assert (Hne : forall b k x, waiters p !! b = Some k -> x ∈ k -> x <> ch).
  { intros b k x Hk Hx ->. pose proof (i_open _ _ _ _ I b k ch Hk Hx). congruence. }
  assert (Hgo : let p' := mk (local_link_addr p) (local_ipv4_addr p) (arp_config p) (cache p) (<[a := l]> (waiters p)) (<[ch := Open]> (chans p)) (ch + 1) in
    chan_of p' ch = Open /\ cache p' = cache p /\ arp_config p' = arp_config p /\ request p' a = request p a /\ inv p' t (<[id := (a, QWaiting ch n d)]> qs) hd);
    [|unfold l in Hgo; by destruct (waiters p !! a)].
  cbn. split_and!; try done; [unfold chan_of; cbn; by rewrite lookup_insert_eq|].
  assert (Hold : forall id2 b x n' d', qs !! id2 = Some (b, QWaiting x n' d') -> x <> ch).
  { intros id2 b x n' d' H2 ->. destruct (i_wait _ _ _ _ I _ _ _ _ _ H2) as (st & Hst & _). congruence. }
  split; cbn; [apply I|apply I| | | | | |].
  - intros b k x Hk Hx. destruct (Hwl b k x Hk Hx) as [[-> ->]|(k' & Hk' & Hx')]; [apply lookup_insert_eq|].
    rewrite lookup_insert_ne by (symmetry; by eapply Hne). by eapply I.
  - intros b1 b2 k1 k2 x H1 H2 Hx1 Hx2. destruct (Hwl _ _ _ H1 Hx1) as [[-> ->]|(k1' & H1' & Hx1')], (Hwl _ _ _ H2 Hx2) as [[-> Hx]|(k2' & H2' & Hx2')]; try done.
    + by destruct (Hne _ _ _ H2' Hx2').
    + by destruct (Hne _ _ _ H1' Hx1').
    + by eapply (i_one _ _ _ _ I).
  - intros x. destruct (decide (x = ch)) as [->|]; [lia|]. rewrite lookup_insert_ne by done. intros Hx%(i_next _ _ _ _ I). unfold ch. lia.
  - intros id2 b x n' d'. destruct (decide (id2 = id)) as [->|Hid].
    + rewrite lookup_insert_eq. intros [= <- <- <- <-]. exists Open. split; [apply lookup_insert_eq|]. exists l. split; [apply lookup_insert_eq|].
      apply elem_of_app. right. left.
    + rewrite lookup_insert_ne by done. intros H2. destruct (i_wait _ _ _ _ I _ _ _ _ _ H2) as (st & Hst & Hm). exists st.
      split; [rewrite lookup_insert_ne; [done|symmetry; by eapply Hold]|]. destruct st; [|done|].
      * destruct Hm as (k & Hk & Hx). destruct (decide (b = a)) as [->|]; [|exists k; by rewrite lookup_insert_ne].
        exists l. rewrite lookup_insert_eq. split; [done|]. apply elem_of_app. left. by rewrite Hk.
      * destruct Hm as (id' & q' & Hne' & Hq'). destruct (decide (id' = id)) as [->|]; [|exists id', q'; by rewrite lookup_insert_ne].
        rewrite Hq in Hq'. injection Hq' as <- <-. exists id, (QWaiting ch n d). by rewrite lookup_insert_eq.
  - intros id1 id2 a1 a2 x n1 n2 d1 d2. destruct (decide (id1 = id)) as [->|], (decide (id2 = id)) as [->|]; try done;
      rewrite ?lookup_insert_eq, ?lookup_insert_ne by done.
    + intros [= <- <- <- <-] H2. by destruct (Hold _ _ _ _ _ H2).
    + intros H1 [= <- <- <- <-]. by destruct (Hold _ _ _ _ _ H1).
    + apply (i_own _ _ _ _ I).
  - intros id2 b m. destruct (decide (id2 = id)) as [->|]; [by rewrite lookup_insert_eq|]. rewrite lookup_insert_ne by done. apply I.
Qed.

Lemma drop_inv p t qs hd id a r : inv p t qs hd -> qs !! id = Some (a, QDone r) -> inv (do_drop p a) t qs hd.
Proof.
  intros I Hq. unfold do_drop. destruct (waiters p !! a) as [l|] eqn:Hl; cbn [default].
  - apply inv_resolve; [done|done|done|]. intros id2 ch n d H2. exists id, (QDone r). split; [intros ->; congruence|done].
  - cbn [resolve]. rewrite delete_id by done. by destruct p.
Qed.

Definition req (a : Ipv4Addr) : ArpMessage.t :=
  ArpMessage.new (Ethernet2Header.new broadcast mac EtArp) (ArpHeader.new Request mac ip broadcast a).

Lemma request_req p t qs hd a : inv p t qs hd -> request p a = req a.
Proof. intros I. destruct (i_local _ _ _ _ I) as (_ & H1 & H2). unfold request, req. by rewrite H1, H2. Qed.

(** The number of requests a query has made. *)
Definition asked (q : query) (k : nat) : Prop :=
  match q with
  | QStart => k = 0%nat
  | QWaiting _ n _ => (k + n = retry_count c + 1)%nat
  | QDone (Ok _) => (k <= retry_count c + 1)%nat
  | QDone (Err e) => errno e = ETIMEDOUT /\ k = (retry_count c + 1)%nat
  end.

(** The outcome of one poll of query [id]. *)
Definition polled (qs : gmap Z (Ipv4Addr * query)) (hd : list (Ipv4Addr * MacAddress)) (t : Z) (id : Z) (a : Ipv4Addr) (q : query)
  (o : outcome (query * ArpPeer.t * list ArpMessage.t)) : Prop :=
  match o with
  | Ret (q', p', tx) => inv p' t (<[id := (a, q')]> qs) hd /\
      exists k, tx = replicate k (req a) /\ forall k0, asked q k0 -> asked q' (k0 + k)
  | Panic msg => msg = "Dropped waiter?"%string /\ exists id' q', id' <> id /\ qs !! id' = Some (a, q')
  | Diverge => False
  end.

Lemma attempt_inv p t qs hd id a ch n m d o : inv p t qs hd -> qs !! id = Some (a, QWaiting ch m d) ->
  (chan_of p ch = Canceled -> exists id' q', id' <> id /\ qs !! id' = Some (a, q')) -> attempted p t a ch n o ->
  match o with
  | Ret (q', p', tx) => inv p' t (<[id := (a, q')]> qs) hd /\
      exists k, tx = replicate k (req a) /\ forall k0, (k0 + n = retry_count c + 1)%nat -> asked q' (k0 + k)
  | Panic msg => msg = "Dropped waiter?"%string /\ exists id' q', id' <> id /\ qs !! id' = Some (a, q')
  | Diverge => False
  end.
Proof.
  intros I Hq Hc [n' Hn|k m' Hk Hm|e He|Hcc]; try rewrite (request_req p t qs hd) by done.
  - split; [eapply update_inv; [done|done|by intros ? <-|done]|]. eexists. split; [done|]. intros k0 Hk0. cbn. lia.
  - split; [|eexists; split; [done|]; intros k0 Hk0; cbn; lia]. eapply update_inv; [done|done|done|]. intros m2 [= <-].
    destruct (i_wait _ _ _ _ I _ _ _ _ _ Hq) as (st & Hst & Hg). unfold chan_of in Hm. rewrite Hst in Hm. cbn in Hm. by subst st.
  - split; [|eexists; split; [done|]; intros k0 Hk0; by cbn]. eapply (drop_inv _ _ _ _ id); [|apply lookup_insert_eq].
    by eapply update_inv.
  - split; [done|auto].
Qed.

Lemma insert_twice (qs : gmap Z (Ipv4Addr * query)) id x y : <[id := x]> (<[id := y]> qs) = <[id := x]> qs.
Proof. apply insert_insert_eq. Qed.

Lemma poll_inv p t tf qs hd id a q : inv p t qs hd -> qs !! id = Some (a, q) -> finished q = false ->
  polled qs hd t id a q (poll_query p t tf a q).
Proof.
  intros I Hq Hf. destruct q as [|ch n d|]; [| |done]; cbn [poll_query].
  - destruct (ArpCache.get (cache p) a) as [m|] eqn:Hg.
    + split; [|by exists 0%nat; split; [done|]; intros k0 ->; cbn; lia]. eapply update_inv; [done|done|done|].
      intros m' [= <-]. by eapply cache_get; [apply I|].
    + pose proof (wait_inv p t qs hd id a 0 0 I Hq Hg) as Hw. destruct (do_wait_link_addr p a) as [ch p1]. destruct Hw as (Ho & _ & Hcfg & Hr & I1).
      destruct (i_local _ _ _ _ I) as (Hc & _). rewrite Hcfg, Hc.
      pose proof (attempt_inv p1 t _ hd id a ch (retry_count c + 1) 0 0 _ I1 (lookup_insert_eq _ _ _) ltac:(by rewrite Ho) (attempt_spec p1 t tf a ch _)) as Ha.
      pose proof (attempt_spec p1 t tf a ch (retry_count c + 1)) as Hsp.
      destruct (attempt p1 t tf a ch (retry_count c + 1)) as [[[q' p'] tx]|msg|]; [|inversion Hsp; congruence|done].
      rewrite insert_twice in Ha. destruct Ha as (I' & k & -> & Hk). split; [done|]. exists k. split; [done|]. intros k0 ->. by apply Hk.
  - destruct (i_wait _ _ _ _ I _ _ _ _ _ Hq) as (st & Hst & Hm).
    assert (Hco : chan_of p ch = st) by (unfold chan_of; by rewrite Hst). rewrite Hco.
    assert (Hnone : polled qs hd t id a (QWaiting ch n d) (Ret (QWaiting ch n d, p, []))).
    { split; [by rewrite insert_id|]. exists 0%nat. split; [done|]. intros k0 Hk0. cbn in *. lia. }
    assert (Hok : forall m, st = Sent m -> polled qs hd t id a (QWaiting ch n d) (Ret (QDone (Ok m), p, []))).
    { intros m ->. split; [eapply update_inv; [done|done|done|by intros ? [= <-]]|]. exists 0%nat. split; [done|]. intros k0 Hk0. cbn in *. lia. }
    assert (Hca : st = Canceled -> exists id' q', id' <> id /\ qs !! id' = Some (a, q')) by (by intros ->).
    pose proof (attempt_inv p t qs hd id a ch n n d _ I Hq ltac:(rewrite Hco; exact Hca) (attempt_spec p t tf a ch n)) as Ha.
    unfold with_timeout. destruct (tf n), (d <=? t), st as [|m|]; cbn [mbind outcome_bind]; try done; try (by apply Hok); split; auto.
Qed.

(** *** Messages received *)

Lemma arp_parse_total buf : exists r, ArpHeader.parse buf = Ret r.
Proof.
  unfold ArpHeader.parse. destruct (Nat.ltb_spec (length buf) ARP_MESSAGE_SIZE) as [|Hl]; [by eexists|].
  assert (slice buf 0 ARP_MESSAGE_SIZE = Ret (take 28 buf)) as ->.
  { unfold slice. rewrite (proj2 (Nat.leb_le ARP_MESSAGE_SIZE _) Hl). cbn [Nat.leb andb]. by rewrite drop_0. }
  cbn [mbind outcome_bind]. assert (Ht : length (take 28 buf) = 28%nat) by (rewrite length_take; unfold ARP_MESSAGE_SIZE in *; lia).
  set (b := take 28 buf) in *. clearbody b. explode b Ht. run_bytes.
  repeat (match goal with |- context [if ?x then _ else _] => destruct x end; [by eexists|]).
  destruct (ArpOperation_from_u16 _); by eexists.
Qed.

Lemma receive_inv p t qs hd buf : inv p t qs hd -> (forall x, x ∈ hears buf -> x ∈ hd) ->
  exists r p' tx, receive p buf = Ret (r, p', tx) /\ inv p' t qs hd /\
    forall h id ch n d, ArpHeader.parse buf = Ret (Ok h) -> ArpHeader.get_destination_protocol_addr h = ip ->
      qs !! id = Some (ArpHeader.get_sender_protocol_addr h, QWaiting ch n d) -> chans p !! ch = Some Open ->
      chans p' !! ch = Some (Sent (ArpHeader.get_sender_hardware_addr h)).
Proof.
  intros I Hh. unfold receive, hears in *. destruct (arp_parse_total buf) as [[h|e] Hp]; rewrite Hp in *; cbn [mbind outcome_bind];
    [|do 3 eexists; split; [done|]; by split].
  set (a := ArpHeader.get_sender_protocol_addr h) in *. set (m := ArpHeader.get_sender_hardware_addr h) in *.
  assert (Hin : (a, m) ∈ hd) by (apply Hh; left). destruct (insert_inv p t qs hd a m I Hin) as (o & p1 & Hins & I1 & Hs & Hk).
  destruct (i_local _ _ _ _ I) as (_ & _ & Hip). destruct (i_local _ _ _ _ I1) as (_ & _ & Hip1).
  assert (Hwin : forall id ch n d, qs !! id = Some (a, QWaiting ch n d) -> chans p !! ch = Some Open -> chans p1 !! ch = Some (Sent m)) by eauto.
  assert (Htail : exists r p' tx, match ArpHeader.get_operation h with
        | Request => Ret (Ok tt, p1, [ArpMessage.new (Ethernet2Header.new m (local_link_addr p1) EtArp) (ArpHeader.new Reply (local_link_addr p1) (local_ipv4_addr p1) m a)])
        | Reply => '(_, c) ← ArpCache.insert (cache p1) a m; Ret (Ok tt, set_cache c p1, [])
        end = Ret (r, p', tx) /\ inv p' t qs hd /\ chans p' = chans p1).
  { destruct (ArpHeader.get_operation h); [do 3 eexists; by split_and!|].
    destruct (cache_insert (cache p1) t hd a m (i_cache _ _ _ _ I1) Hin) as (o2 & k & -> & K). cbn. do 3 eexists. split; [done|]. split; [by apply inv_cache|done]. }
  destruct Htail as (r & p' & tx & Htail & I' & Hch). rewrite Hip1 in Htail.
  destruct (ArpCache.get (cache p) a) as [m'|]; rewrite ?Hins; cbn [mbind outcome_bind]; rewrite ?Hip, ?Hip1;
    destruct (Z.eqb_spec (ArpHeader.get_destination_protocol_addr h) ip) as [Hd|Hd]; cbn [negb mbind outcome_bind]; rewrite ?Hins; cbn [mbind outcome_bind].
  - rewrite ?Hip1, Htail. do 3 eexists. split; [done|]. split; [done|]. intros h' id ch n d [= <-] _ Hq Ho. rewrite Hch. eauto.
  - do 3 eexists. split; [done|]. split; [done|]. intros h' id ch n d [= <-] Hd'. done.
  - rewrite ?Hip1, Htail. do 3 eexists. split; [done|]. split; [done|]. intros h' id ch n d [= <-] _ Hq Ho. rewrite Hch. eauto.
  - do 3 eexists. split; [done|]. split; [done|]. intros h' id ch n d [= <-] Hd'. done.
Qed.

(** ** The host *)

(** The requests of a query. *)
Definition requests (l : list (option Z * ArpMessage.t)) (id : Z) : list ArpMessage.t :=
  omap (fun x => if decide (x.1 = Some id) then Some x.2 else None) l.

Lemma requests_app l k id : requests (l ++ k) id = requests l id ++ requests k id.
Proof. apply omap_app. Qed.

Lemma requests_tag o l id : requests (map (pair o) l) id = if decide (o = Some id) then l else [].
Proof.
  unfold requests. induction l as [|x l IH]; cbn; [by case_decide|]. destruct (decide (o = Some id)); [|done]. by rewrite IH.
Qed.

Record host_inv (h : host) : Prop := {
  hi_inv : inv (peer h) (now h) (queries h) (heard h);
  hi_sent : forall id, match queries h !! id with
    | None => requests (sent h) id = []
    | Some (a, q) => exists k, requests (sent h) id = replicate k (req a) /\ asked q k
    end;
}.

Lemma arp_step_inv h e : host_inv h ->
  (exists h', step h e = Ret h' /\ host_inv h') \/
  (step h e = Panic "Dropped waiter?" /\ exists id id' a q q', id <> id' /\ queries h !! id = Some (a, q) /\ queries h !! id' = Some (a, q')).
Proof.
  intros [I Hs]. destruct e as [buf|id a|id tf| |d]; cbn [step].
  - left. assert (I1 : inv (peer h) (now h) (queries h) (heard h ++ hears buf)) by (eapply inv_mono, I; [lia|intros x Hx; apply elem_of_app; by left]).
    destruct (receive_inv _ _ _ _ buf I1) as (r & p' & tx & -> & I' & _); [intros x Hx; apply elem_of_app; by right|]. cbn.
    eexists. split; [done|]. split; [done|]. cbn [peer now queries sent heard]. intros id. specialize (Hs id). rewrite requests_app, requests_tag. cbn [decide]. rewrite decide_False by done. by rewrite app_nil_r.
  - left. destruct (queries h !! id) as [x|] eqn:Hq; [eexists; split; [done|by split]|]. eexists. split; [done|]. split; cbn [peer now queries sent heard].
    + split; try apply I.
      * intros id2 b ch n d. destruct (decide (id2 = id)) as [->|]; [by rewrite lookup_insert_eq|]. rewrite lookup_insert_ne by done. intros H2.
        destruct (i_wait _ _ _ _ I _ _ _ _ _ H2) as (st & Hst & Hm). exists st. split; [done|]. destruct st; try done.
        destruct Hm as (id' & q & Hne & Hq'). exists id', q. split; [done|]. rewrite lookup_insert_ne by congruence. done.
      * intros id1 id2 a1 a2 ch n n' d d'. destruct (decide (id1 = id)) as [->|], (decide (id2 = id)) as [->|]; rewrite ?lookup_insert_eq, ?lookup_insert_ne by done; try done.
        apply (i_own _ _ _ _ I).
      * intros id2 b m. destruct (decide (id2 = id)) as [->|]; [by rewrite lookup_insert_eq|]. rewrite lookup_insert_ne by done. apply I.
    + intros id2. specialize (Hs id2). destruct (decide (id2 = id)) as [->|]; [|by rewrite lookup_insert_ne]. rewrite lookup_insert_eq. rewrite Hq in Hs.
      exists 0%nat. by rewrite Hs.
  - destruct (queries h !! id) as [[a q]|] eqn:Hq; [|left; eexists; split; [done|by split]].
    destruct (finished q) eqn:Hf; [left; eexists; split; [done|by split]|].
    pose proof (poll_inv _ _ tf _ _ id a q I Hq Hf) as Hp. destruct (poll_query (peer h) (now h) tf a q) as [[[q' p'] tx]|msg|]; [|right|done].
    + left. cbn. eexists. split; [done|]. destruct Hp as (I' & k & -> & Hk). split; [done|]. cbn [peer now queries sent heard]. intros id2. rewrite requests_app, requests_tag.
      specialize (Hs id2). destruct (decide (id2 = id)) as [->|Hne].
      * rewrite lookup_insert_eq, decide_True by done. rewrite Hq in Hs. destruct Hs as (k0 & -> & Hk0). exists (k0 + k)%nat.
        split; [by rewrite replicate_add|by apply Hk].
      * rewrite lookup_insert_ne, decide_False, app_nil_r by congruence. done.
    + destruct Hp as (-> & id' & q' & Hne & Hq'). split; [done|]. exists id, id', a, q, q'. by split_and!.
  - left. unfold background. destruct (cache_advance _ _ _ (i_cache _ _ _ _ I)) as (k & -> & K). cbn. eexists. split; [done|].
    split; [by apply inv_cache|done].
  - left. eexists. split; [done|]. split; [|done]. cbn. eapply inv_mono, I; [lia|done].
Qed.

Lemma arp_run_inv es h h' : host_inv h -> run h es = Ret h' -> host_inv h'.
Proof.
  revert h. induction es as [|e es IH]; intros h Hi; cbn [run]; [by intros [= <-]|].
  destruct (arp_step_inv h e Hi) as [(h1 & -> & H1)|[-> _]]; cbn [mbind outcome_bind]; [by apply IH|done].
Qed.

Lemma insert_all_inv k t hd l : cache_inv k t hd -> (forall x, x ∈ l -> x ∈ hd) ->
  exists k', ArpCache.insert_all k l = Ret k' /\ cache_inv k' t hd.
Proof.
  revert k. induction l as [|[a m] l IH]; intros k K Hl; cbn [ArpCache.insert_all]; [by exists k|].
  destruct (cache_insert k t hd a m K) as (o & k1 & -> & K1); [apply Hl; left|]. cbn [mbind outcome_bind]. apply IH; [done|].
  intros x Hx. apply Hl. by right.
Qed.

Lemma arp_start_inv t h : start t mac ip c = Ret h -> host_inv h.
Proof.
  unfold start, ArpPeer.new, ArpCache.new, HashTtlCache.new, HashTtlCache.check_ttl. destruct (Z.ltb_spec 0 (cache_ttl c)) as [Ht|]; [|done].
  cbn [mbind outcome_bind].
  destruct (insert_all_inv (ArpCache.mk (HashTtlCache.mk ∅ ∅ (Some (cache_ttl c)) t) (disable_arp c)) t (map_to_list (initial_values c)) (map_to_list (initial_values c)))
    as (k & -> & K); [split; try done; cbn; lia|done|]. cbn. intros [= <-]. split; cbn; [|done]. split; cbn; try done. by intros ch [? ?].
Qed.

(** A query whose answer has arrived takes it, unless its last attempt has expired and the timer is
    looked at first. *)
Lemma poll_answered p t timer_first addr ch n d m :
  chan_of p ch = Sent m -> 0 < request_timeout (arp_config p) ->
  exists p' tx, poll_query p t timer_first addr (QWaiting ch n d) =
    Ret (QDone (if timer_first n && (d <=? t) && (n =? 0)%nat then Err (mkFail ETIMEDOUT "ARP query timeout") else Ok m), p', tx).
Proof.
  intros Hc Ht. cbn [poll_query]. rewrite Hc. unfold with_timeout.
  destruct (timer_first n), (d <=? t); cbn [mbind outcome_bind andb]; try by do 2 eexists.
  destruct n as [|n]; cbn [attempt Nat.eqb]; [by do 2 eexists|]. rewrite Hc. unfold with_timeout.
  rewrite (proj2 (Z.leb_gt _ _)) by lia. destruct (timer_first n); cbn; by do 2 eexists.
Qed.

(** C16: Address resolution is sound and does not forget who waits.  In every state a host reaches by
    receiving any bytes, starting queries, polling them (its [select!] choosing either branch), ticks
    of the clock and turns of the background task: a query that has an answer has one that was heard
    for its address (or the dummy address when resolution is disabled); a query that failed has
    failed with ETIMEDOUT after [retry_count + 1] requests for its address; the next event returns,
    unless two queries ask for the same address (then the time-out of one can make the other panic);
    and when a message addressed to this host comes from the address a query waits for, the query is
    answered with the sender's hardware address at its next poll, whichever branch its [select!]
    looks at first, with one exception: if the deadline of its last attempt has passed and the poll
    looks at the timer first, it fails with ETIMEDOUT (request time-outs being positive). *)
Theorem arp_answers_are_sound (t : Z) (es : list event) (h0 h : host) :
  start t mac ip c = Ret h0 -> run h0 es = Ret h ->
  (forall id a m, queries h !! id = Some (a, QDone (Ok m)) -> good (heard h) a m) /\
  (forall id a e, queries h !! id = Some (a, QDone (Err e)) ->
     errno e = ETIMEDOUT /\ requests (sent h) id = replicate (retry_count c + 1) (req a)) /\
  (forall e, (exists h', step h e = Ret h') \/
     (step h e = Panic "Dropped waiter?" /\
      exists id id' a q q', id <> id' /\ queries h !! id = Some (a, q) /\ queries h !! id' = Some (a, q'))) /\
  (forall buf x id ch n d timer_first, 0 < request_timeout c -> ArpHeader.parse buf = Ret (Ok x) -> ArpHeader.get_destination_protocol_addr x = ip ->
     queries h !! id = Some (ArpHeader.get_sender_protocol_addr x, QWaiting ch n d) -> chans (peer h) !! ch = Some Open ->
     exists h1 h2, step h (Receive buf) = Ret h1 /\ step h1 (Poll id timer_first) = Ret h2 /\
       queries h2 !! id = Some (ArpHeader.get_sender_protocol_addr x,
         QDone (if timer_first n && (d <=? now h) && (n =? 0)%nat then Err (mkFail ETIMEDOUT "ARP query timeout")
                else Ok (ArpHeader.get_sender_hardware_addr x)))).
Proof.
  intros H0 Hrun. pose proof (arp_run_inv _ _ _ (arp_start_inv _ _ H0) Hrun) as Hi. pose proof Hi as [I Hs]. split_and!.
  - apply I.
  - intros id a e Hq. specialize (Hs id). rewrite Hq in Hs. destruct Hs as (k & -> & He & ->). done.
  - intros e. destruct (arp_step_inv h e Hi) as [(h' & ? & _)|?]; [left; eauto|by right].
  - intros buf x id ch n d timer_first Ht Hp Hd Hq Ho. assert (I1 : inv (peer h) (now h) (queries h) (heard h ++ hears buf)) by (eapply inv_mono, I; [lia|intros y Hy; apply elem_of_app; by left]).
    destruct (receive_inv _ _ _ _ buf I1) as (r & p' & tx & Hr & I' & Ha); [intros y Hy; apply elem_of_app; by right|].
    pose proof (Ha x id ch n d Hp Hd Hq Ho) as Hsent.
    destruct (poll_answered p' (now h) timer_first (ArpHeader.get_sender_protocol_addr x) ch n d (ArpHeader.get_sender_hardware_addr x))
      as (p'' & tx' & Hpoll); [unfold chan_of; by rewrite Hsent|by rewrite (proj1 (i_local _ _ _ _ I'))|].
    cbn [step]. rewrite Hr. cbn [mbind outcome_bind]. do 2 eexists. split; [done|]. cbn [queries peer now]. rewrite Hq, Hpoll.
    cbn. split; [done|]. apply lookup_insert_eq.
Qed.

End host.

(** Two hosts' addresses for the examples. *)
Definition mac1 : MacAddress := [2; 0; 0; 0; 0; 1].
Definition mac2 : MacAddress := [2; 0; 0; 0; 0; 2].
Definition ip1 : Ipv4Addr := Ipv4Addr_new 10 0 0 1.
Definition ip2 : Ipv4Addr := Ipv4Addr_new 10 0 0 2.

Definition quick_config : ArpConfig := ArpConfig_new None (Some 10) (Some 1%nat) None None.

(** A reply of the second host to the first. *)
Definition demo_reply : list Z := [0; 1; 8; 0; 6; 4; 0; 2; 2; 0; 0; 0; 0; 2; 10; 0; 0; 2; 2; 0; 0; 0; 0; 1; 10; 0; 0; 1].

Definition response_first : nat -> bool := fun _ => false.

Definition run_demo (es : list event) : outcome host := h ← start 0 mac1 ip1 quick_config; run h es.

Definition answers (es : list event) : outcome (list (Z * (Ipv4Addr * query))) := h ← run_demo es; Ret (map_to_list (queries h)).

Example demo_answered : answers [Query 7 ip2; Poll 7 response_first; Receive demo_reply; Poll 7 response_first] = Ret [(7, (ip2, QDone (Ok mac2)))].
Proof. vm_compute. reflexivity. Qed.

Example demo_unanswered :
  (h ← run_demo [Query 7 ip2; Poll 7 response_first; Tick 10; Poll 7 response_first; Tick 10; Poll 7 response_first];
   Ret (map_to_list (queries h), length (sent h))) = Ret ([(7, (ip2, QDone (Err (mkFail ETIMEDOUT "ARP query timeout"))))], 2%nat).
Proof. vm_compute. reflexivity. Qed.

(** Two queries for one address: the time-out of the first drops the sender of the second. *)
Example duplicate_query_panics :
  answers [Query 7 ip2; Poll 7 response_first; Tick 5; Query 8 ip2; Poll 8 response_first; Tick 5; Poll 7 response_first; Tick 9; Poll 7 response_first;
           Tick 1; Poll 7 response_first; Poll 8 response_first] = Panic "Dropped waiter?".
Proof. vm_compute. reflexivity. Qed.

Definition demo_events : list event := [Query 7 ip2; Poll 7 response_first; Receive demo_reply; Poll 7 response_first].

Definition demo_start : host := Eval vm_compute in match start 0 mac1 ip1 quick_config with Ret h => h | _ => mkHost (ArpPeer.mk [] 0 quick_config (ArpCache.mk (HashTtlCache.mk ∅ ∅ None 0) false) ∅ ∅ 0) 0 ∅ [] [] end.

Definition demo_end : host := Eval vm_compute in match run demo_start demo_events with Ret h => h | _ => demo_start end.

Lemma arp_answers_are_sound_witness :
  start 0 mac1 ip1 quick_config = Ret demo_start /\ run demo_start demo_events = Ret demo_end /\
  queries demo_end !! 7 = Some (ip2, QDone (Ok mac2)) /\ good quick_config (heard demo_end) ip2 mac2.
Proof.
  assert (H0 : start 0 mac1 ip1 quick_config = Ret demo_start) by (vm_compute; reflexivity).
  assert (H1 : run demo_start demo_events = Ret demo_end) by (vm_compute; reflexivity).
  assert (Hq : queries demo_end !! 7 = Some (ip2, QDone (Ok mac2))) by (vm_compute; reflexivity).
  split; [exact H0|]. split; [exact H1|]. split; [exact Hq|].
  exact (proj1 (arp_answers_are_sound quick_config mac1 ip1 0 demo_events demo_start demo_end H0 H1) 7 ip2 mac2 Hq).
Defined.

End ArpHost.
