(* ===== verification/Ports.v ===== *)
(** * Ephemeral ports
    (src/src/rust/inetstack/protocols/ip/ephemeral.rs)

    The pool of free private ports: a vector used as a stack.  The shuffle of the random number
    generator is a parameter of which only documented behaviour is used: it permutes the vector. *)

From S2P Require Import Prelude.

Definition FIRST_PRIVATE_PORT : Z := 49152.
Definition LAST_PRIVATE_PORT : Z := 65535.

Abbreviation EphemeralPorts := (list Z) (only parsing).

Module Ports.

(** The private ports in the order they are pushed: the range excludes its end. *)
Definition private_range : list Z :=
  map (fun i => FIRST_PRIVATE_PORT + Z.of_nat i) (seq 0 (Z.to_nat (LAST_PRIVATE_PORT - FIRST_PRIVATE_PORT))).

(** [new]; the core id is the value of the environment variable, if set. *)
Definition new (shuffle : list Z -> list Z) (core_id : option Z) : EphemeralPorts :=
  let ports := shuffle private_range in
  match core_id with
  | Some id => ports ++ [wrap16 (9999 + id)]
  | None => ports
  end.

Definition first_private_port : Z := FIRST_PRIVATE_PORT.

Definition is_private (port : Z) : bool := FIRST_PRIVATE_PORT <=? port.

(** [alloc_any]: the last port of the vector. *)
Definition alloc_any (self : EphemeralPorts) : Result Z * EphemeralPorts :=
  match last self with
  | Some port => (Ok port, take (length self - 1) self)
  | None => (Err (mkFail EADDRINUSE "all port numbers in the ephemeral port range are currently in use"), self)
  end.

Definition alloc_port (port : Z) (self : EphemeralPorts) : Result unit * EphemeralPorts :=
  if decide (port ∈ self) then (Ok tt, filter (fun p => p <> port) self)
  else (Err (mkFail ENOENT "port number not found"), self).

Definition free (port : Z) (self : EphemeralPorts) : EphemeralPorts := self ++ [port].

End Ports.

(** ** The pool as an allocator *)

Lemma alloc_any_ok self port self' :
  Ports.alloc_any self = (Ok port, self') -> self = self' ++ [port].
Proof.
  unfold Ports.alloc_any. destruct (last self) as [p|] eqn:E; [|done]. intros [= <- <-].
  apply last_Some in E as [l ->]. by rewrite length_app, Nat.add_sub, take_app_length.
Qed.

Lemma alloc_any_err self e self' : Ports.alloc_any self = (Err e, self') -> self = [] /\ self' = [] /\ errno e = EADDRINUSE.
Proof.
  unfold Ports.alloc_any. destruct (last self) as [p|] eqn:E; [done|]. apply last_None in E as ->. intros [= <- <-]. done.
Qed.

Lemma filter_ne_id (port : Z) (l : list Z) : port ∉ l -> filter (fun p => p <> port) l = l.
Proof.
  induction l as [|x l IH]; [done|]. intros [Hx Hl]%not_elem_of_cons. rewrite filter_cons_True by done. by rewrite IH.
Qed.

Lemma filter_ne_perm (port : Z) (l : list Z) : NoDup l -> port ∈ l -> l ≡ₚ port :: filter (fun p => p <> port) l.
Proof.
  intros Hnd Hin. apply elem_of_Permutation in Hin as [l' Hp]. rewrite Hp in Hnd |- *. apply NoDup_cons in Hnd as [Hn _].
  rewrite filter_cons_False by auto. by rewrite filter_ne_id.
Qed.

Lemma alloc_port_ok port self self' :
  NoDup self -> Ports.alloc_port port self = (Ok tt, self') -> self ≡ₚ port :: self'.
Proof. intros Hnd. unfold Ports.alloc_port. case_decide; [|done]. intros [= <-]. by apply filter_ne_perm. Qed.

Lemma range_nodup a n : NoDup (map (fun i => a + Z.of_nat i) (seq 0 n)).
Proof. apply NoDup_fmap_2_strong; [|apply NoDup_seq]. intros x y _ _ ?. lia. Qed.

Lemma private_range_elem p : p ∈ Ports.private_range <-> FIRST_PRIVATE_PORT <= p < LAST_PRIVATE_PORT.
Proof.
  unfold Ports.private_range. rewrite list_elem_of_fmap. setoid_rewrite elem_of_seq.
  unfold FIRST_PRIVATE_PORT, LAST_PRIVATE_PORT. split.
  - intros (i & -> & Hi). lia.
  - intros Hp. exists (Z.to_nat (p - 49152)). lia.
Qed.

Lemma new_nodup shuffle core_id :
  (forall l, shuffle l ≡ₚ l) -> (forall id, core_id = Some id -> 0 <= id /\ 9999 + id < FIRST_PRIVATE_PORT) ->
  NoDup (Ports.new shuffle core_id).
Proof.
  intros Hs Hid. unfold Ports.new. destruct core_id as [id|]; [|rewrite Hs; apply range_nodup].
  destruct (Hid id eq_refl) as [H0 H1]. unfold FIRST_PRIVATE_PORT in H1. rewrite wrap16_small by (split; lia).
  rewrite <- Permutation_cons_append, Hs. apply NoDup_cons. split; [|apply range_nodup].
  rewrite private_range_elem. unfold FIRST_PRIVATE_PORT. lia.
Qed.

(** A run of the pool with the ports its clients hold; a client frees only what it holds. *)
Inductive pool_reach (initial : list Z) : list Z -> list Z -> Prop :=
  | pool_start : pool_reach initial initial []
  | pool_any pool held port pool' :
      pool_reach initial pool held -> Ports.alloc_any pool = (Ok port, pool') ->
      pool_reach initial pool' (port :: held)
  | pool_port pool held port pool' :
      pool_reach initial pool held -> Ports.alloc_port port pool = (Ok tt, pool') ->
      pool_reach initial pool' (port :: held)
  | pool_free pool held port :
      pool_reach initial pool (port :: held) -> pool_reach initial (Ports.free port pool) held
  | pool_reorder pool held held' :
      pool_reach initial pool held -> held ≡ₚ held' -> pool_reach initial pool held'.

Lemma pool_split initial pool held :
  NoDup initial -> pool_reach initial pool held -> pool ++ held ≡ₚ initial.
Proof.
  intros Hnd. induction 1 as [|pool held port pool' _ IH E|pool held port pool' _ IH E|pool held port _ IH|pool held held' _ IH Hp].
  - by rewrite app_nil_r.
  - apply alloc_any_ok in E as ->. by rewrite <- IH, <- app_assoc.
  - apply alloc_port_ok in E; [|rewrite <- IH in Hnd; by apply NoDup_app in Hnd as [? _]].
    rewrite <- IH, E. cbn. by rewrite Permutation_middle.
  - unfold Ports.free. by rewrite <- app_assoc.
  - by rewrite <- Hp.
Qed.

(** C39: In every run of the ephemeral-port pool in which clients free only ports they hold, the free
    and the held ports together are exactly the initial ports, without duplicates: a port handed
    out (any, or a given one) was not held, asking for any port fails with EADDRINUSE only when
    every port is held, and asking for a given port fails with ENOENT only when it is held or not
    in the pool's range. *)
Theorem ports_never_shared (initial pool held : list Z) :
  NoDup initial -> pool_reach initial pool held ->
  pool ++ held ≡ₚ initial /\ NoDup (pool ++ held) /\
  (forall port pool', Ports.alloc_any pool = (Ok port, pool') -> port ∉ held /\ port ∈ initial) /\
  (forall e pool', Ports.alloc_any pool = (Err e, pool') -> errno e = EADDRINUSE /\ held ≡ₚ initial) /\
  (forall port pool', Ports.alloc_port port pool = (Ok tt, pool') -> port ∉ held /\ port ∈ initial) /\
  (forall port e pool', Ports.alloc_port port pool = (Err e, pool') ->
     errno e = ENOENT /\ pool' = pool /\ (port ∈ held \/ port ∉ initial)).
Proof.
  intros Hnd Hr. pose proof (pool_split _ _ _ Hnd Hr) as Hp. rewrite <- Hp in Hnd.
  assert (Hfree : forall p, p ∈ pool -> p ∉ held /\ p ∈ initial).
  { intros p Hin. apply NoDup_app in Hnd as (_ & Hd & _). split; [by apply Hd|]. rewrite <- Hp. apply elem_of_app. by left. }
  split; [done|]. split; [done|]. split; [|split; [|split]].
  - intros port pool' E%alloc_any_ok. apply Hfree. rewrite E. apply elem_of_app. right. by left.
  - intros e pool' (-> & _ & He)%alloc_any_err. by split.
  - intros port pool' E. apply Hfree. unfold Ports.alloc_port in E. by case_decide.
  - intros port e pool' E. unfold Ports.alloc_port in E. case_decide as Hin; [done|]. injection E as <- <-.
    split; [done|]. split; [done|]. rewrite <- Hp. destruct (decide (port ∈ held)); [by left|right].
    rewrite elem_of_app. by intros [|].
Qed.

Lemma ports_never_shared_witness :
  exists pool, pool_reach [49152; 49153; 49154] pool [49153; 49154] /\ NoDup (pool ++ [49153; 49154]).
Proof.
  exists [49152].
  assert (H : pool_reach [49152; 49153; 49154] [49152] [49153; 49154]).
  { eapply (pool_port _ [49152; 49153]); [|reflexivity]. eapply pool_any; [apply pool_start|reflexivity]. }
  split; [exact H|]. apply (ports_never_shared [49152; 49153; 49154]); [|exact H].
  apply (bool_decide_unpack _). reflexivity.
Defined.

(** The pool leaves out the last private port: the range that fills it excludes its end. *)
Example last_private_port_missing : LAST_PRIVATE_PORT ∉ Ports.private_range /\ Ports.is_private LAST_PRIVATE_PORT = true.
Proof. split; [|done]. rewrite private_range_elem. lia. Qed.
