(* ===== verification/SharedQueue.v ===== *)
(** * Shared queues of the UDP sockets
    (src/src/rust/inetstack/protocols/udp/queue.rs)

    A bounded queue over the multi-producer channel of the futures crate, which is not part of this
    repository: the class [Mpsc] is the interface used of it and [MpscLaws] the documented behaviour
    relied on.  A full queue makes room by dropping its oldest messages.  An asynchronous pop that
    waits keeps the receiving end borrowed. *)

From S2P Require Import Prelude.

(** A bounded channel with one sending and one receiving end. *)
Class Mpsc (T C : Type) := {
  channel : nat -> C;
  messages : C -> list T;
  buffer_size : C -> nat;
  try_send : C -> T -> option C;
  try_next : C -> option (T * C);
}.

(** Sending succeeds while fewer messages than the buffer size wait (the channel also has a slot for
    its sender, so it may succeed longer); messages come out in the order they were sent. *)
Class MpscLaws (T C : Type) `{Mpsc T C} : Prop := {
  channel_new n : messages (channel n) = [] /\ buffer_size (channel n) = n;
  try_send_room c x : (length (messages c) < buffer_size c)%nat -> is_Some (try_send c x);
  try_send_some c x c' : try_send c x = Some c' -> messages c' = messages c ++ [x] /\ buffer_size c' = buffer_size c;
  try_next_none c : messages c = [] -> try_next c = None;
  try_next_some c x l : messages c = x :: l -> exists c', try_next c = Some (x, c') /\ messages c' = l /\ buffer_size c' = buffer_size c;
}.

(** The channel as a list with one slot more than its size. *)
Record ListChannel (T : Type) := mkListChannel { lc_messages : list T; lc_size : nat }.
Arguments mkListChannel {T} lc_messages lc_size.
Arguments lc_messages {T} l.
Arguments lc_size {T} l.

#[export] Instance list_channel T : Mpsc T (ListChannel T) := {
  channel n := mkListChannel [] n;
  messages := lc_messages;
  buffer_size := lc_size;
  try_send c x := if Nat.ltb (length (lc_messages c)) (lc_size c + 1) then Some (mkListChannel (lc_messages c ++ [x]) (lc_size c)) else None;
  try_next c := match lc_messages c with x :: l => Some (x, mkListChannel l (lc_size c)) | [] => None end;
}.

#[export] Instance list_channel_laws T : MpscLaws T (ListChannel T).
Proof.
  split; try done.
  - intros [l n] x. cbn -[Nat.ltb]. intros Hl. rewrite (proj2 (Nat.ltb_lt _ _)) by lia. by eexists.
  - intros [l n] x c'. cbn -[Nat.ltb]. destruct (Nat.ltb _ _); [|done]. by intros [= <-].
  - intros [l n]. cbn. by intros ->.
  - intros [l n] x k. cbn. intros ->. by eexists.
Qed.

Module SharedQueue.
Section queue.
Context {T C : Type} `{Mpsc T C}.

(** [rx_borrowed]: a pending [pop] holds the mutable borrow of the receiving end. *)
Record t := mk { ch : C; len : Z; capacity : Z; rx_borrowed : bool }.

Definition new (size : nat) : t := mk (channel size) 0 (Z.of_nat size) false.

Definition try_pop (self : t) : outcome (option T * t) :=
  if rx_borrowed self then Panic "already borrowed: BorrowMutError" else
  match try_next (ch self) with
  | Some (msg, c) => Ret (Some msg, mk c (wrap64 (len self - 1)) (capacity self) false)
  | None => Ret (None, self)
  end.

(** [while length >= capacity / 2 { try_pop }] *)
Fixpoint make_room (fuel : nat) (self : t) : outcome t :=
  if capacity self / 2 <=? len self then
    match fuel with
    | O => Diverge
    | S fuel => '(_, self) ← try_pop self; make_room fuel self
    end
  else Ret self.

(** The loop runs at most once for each message. *)
Definition push (self : t) (msg : T) : outcome (Result unit * t) :=
  self ← (if len self =? capacity self then make_room (Z.to_nat (len self)) self else Ret self);
  match try_send (ch self) msg with
  | Some c => Ret (Ok tt, mk c (wrap64 (len self + 1)) (capacity self) (rx_borrowed self))
  | None => Ret (Err (mkFail EIO "failed to push to shared queue"), self)
  end.

(** One poll of the future returned by [pop]: [resumed] if it was pending before. *)
Definition poll_pop (resumed : bool) (self : t) : outcome (option T * t) :=
  if negb resumed && rx_borrowed self then Panic "already borrowed: BorrowMutError" else
  match try_next (ch self) with
  | Some (msg, c) => Ret (Some msg, mk c (wrap64 (len self - 1)) (capacity self) false)
  | None => Ret (None, mk (ch self) (len self) (capacity self) true)
  end.

(** ** The queue as the list of its messages *)

Record holds (self : t) (size : nat) (l : list T) : Prop := {
  h_messages : messages (ch self) = l;
  h_buffer : buffer_size (ch self) = size;
  h_capacity : capacity self = Z.of_nat size;
  h_len : len self = blen l;
  h_bound : (length l <= size)%nat;
  h_size : (2 <= size)%nat /\ Z.of_nat size < 2^63;
}.

Context `{!MpscLaws T C}.

Lemma queue_new_holds size : (2 <= size)%nat -> Z.of_nat size < 2^63 -> holds (new size) size [].
Proof. intros Hs Hb. destruct (channel_new size) as [H1 H2]. split; cbn; (done || lia). Qed.

(** What a push leaves in a queue of the given size. *)
Definition pushed (size : nat) (l : list T) (x : T) : list T :=
  (if Nat.eqb (length l) size then list.drop (size - (size / 2 - 1)) l else l) ++ [x].

Lemma pushed_length size l x : (2 <= size)%nat -> (length l <= size)%nat -> (length (pushed size l x) <= size)%nat.
Proof.
  intros Hs Hl. unfold pushed. rewrite length_app. change (length [x]) with 1%nat. destruct (Nat.eqb_spec (length l) size) as [E|]; [|lia].
  rewrite length_drop. pose proof (Nat.div_lt size 2 ltac:(lia) ltac:(lia)). lia.
Qed.

Lemma try_pop_ok self size x l : holds self size (x :: l) -> rx_borrowed self = false ->
  exists self', try_pop self = Ret (Some x, self') /\ holds self' size l /\ rx_borrowed self' = false.
Proof.
  intros [H1 H2 H3 H4 H5 H6] Hb. unfold try_pop. rewrite Hb. destruct (try_next_some _ _ _ H1) as (c & -> & Hc & Hn).
  eexists. split; [done|]. split; [|done]. cbn in H5. rewrite blen_cons in H4. unfold blen in *.
  split; cbn; try done; [congruence| |lia]. unfold wrap64, blen. rewrite H4, Z.mod_small by lia. lia.
Qed.

Lemma try_pop_empty self size : holds self size [] -> rx_borrowed self = false -> try_pop self = Ret (None, self).
Proof. intros Hh Hb. unfold try_pop. by rewrite Hb, try_next_none by apply Hh. Qed.

Lemma make_room_ok fuel self size l : holds self size l -> rx_borrowed self = false -> (length l <= fuel)%nat ->
  exists self', make_room fuel self = Ret self' /\ holds self' size (list.drop (length l - (size / 2 - 1)) l) /\ rx_borrowed self' = false.
Proof.
  intros Hh Hb Hf. assert (Hcap : capacity self / 2 = Z.of_nat (size / 2)) by (rewrite (h_capacity _ _ _ Hh), Nat2Z.inj_div; done).
  assert (H2 : (1 <= size / 2)%nat) by (apply Nat.div_le_lower_bound; [done|]; destruct Hh; lia).
  revert self l Hh Hb Hf Hcap. induction fuel as [|fuel IH]; intros self l Hh Hb Hf Hcap; cbn [make_room]; rewrite (h_len _ _ _ Hh), Hcap; unfold blen.
  - destruct l; [|cbn in Hf; lia]. change (Z.of_nat (length [])) with 0. rewrite (proj2 (Z.leb_gt _ _)) by lia. exists self. by rewrite drop_nil.
  - destruct (Z.leb_spec (Z.of_nat (size / 2)) (Z.of_nat (length l))) as [Hle|Hgt].
    + destruct l as [|x l]; [change (Z.of_nat (length [])) with 0 in Hle; lia|]. destruct (try_pop_ok _ _ _ _ Hh Hb) as (self1 & -> & Hh1 & Hb1). cbn [mbind outcome_bind].
      cbn [length] in Hf, Hle. destruct (IH self1 l Hh1 Hb1) as (self' & -> & Hh' & Hb'); [lia| |].
      { rewrite (h_capacity _ _ _ Hh1), Nat2Z.inj_div. done. }
      exists self'. split; [done|]. split; [|done]. cbn [length]. by replace (S (length l) - (size / 2 - 1))%nat with (S (length l - (size / 2 - 1))) by lia.
    + exists self. replace (length l - (size / 2 - 1))%nat with 0%nat by lia. by rewrite drop_0.
Qed.

(** A push to a queue that has room does not touch the receiving end. *)
Lemma push_room self size l x : holds self size l -> (length l < size)%nat ->
  exists self', push self x = Ret (Ok tt, self') /\ holds self' size (l ++ [x]) /\ rx_borrowed self' = rx_borrowed self.
Proof.
  intros [H1 H2 H3 H4 H5 H6] Hlt. unfold push. rewrite H3, H4, (proj2 (Z.eqb_neq _ _)) by (unfold blen; lia). cbn [mbind outcome_bind].
  destruct (try_send_room (ch self) x) as [c Hc]; [by rewrite H1, H2|]. rewrite Hc. apply try_send_some in Hc as [Hm Hn].
  eexists. split; [done|]. split; [|done]. split; cbn; try done; [by rewrite Hm, H1|congruence| |rewrite length_app; cbn; lia].
  unfold wrap64. rewrite H4, blen_app, Z.mod_small; [done|]. unfold blen. lia.
Qed.

(** A push never fails; a full queue loses its oldest messages. *)
Lemma queue_push_ok self size l x : holds self size l -> rx_borrowed self = false ->
  exists self', push self x = Ret (Ok tt, self') /\ holds self' size (pushed size l x) /\ rx_borrowed self' = false.
Proof.
  intros Hh Hb. unfold pushed. destruct (Nat.eqb_spec (length l) size) as [E|E].
  - destruct (make_room_ok (Z.to_nat (blen l)) self size l Hh Hb) as (self1 & H1 & Hh1 & Hb1); [unfold blen; lia|]. rewrite E in Hh1.
    destruct (h_size _ _ _ Hh). pose proof (Nat.div_lt size 2 ltac:(lia) ltac:(lia)).
    assert (Hlt : (length (list.drop (size - (size / 2 - 1)) l) < size)%nat) by (rewrite length_drop; lia).
    destruct (push_room self1 size _ x Hh1 Hlt) as (self' & Hp & Hh' & Hb'). exists self'. rewrite Hb', Hb1. split; [|done].
    rewrite <- Hp. unfold push at 1. rewrite (h_len _ _ _ Hh), (h_capacity _ _ _ Hh), (proj2 (Z.eqb_eq _ _)) by (unfold blen; lia). rewrite H1. cbn [mbind outcome_bind].
    unfold push. rewrite (h_len _ _ _ Hh1), (h_capacity _ _ _ Hh1), (proj2 (Z.eqb_neq _ _)) by (unfold blen; lia). cbn [mbind outcome_bind]. by rewrite (h_len _ _ _ Hh1), (h_capacity _ _ _ Hh1).
  - pose proof (h_bound _ _ _ Hh). destruct (push_room self size l x Hh) as (self' & ? & ? & Hb'); [lia|]. exists self'. by rewrite Hb', Hb.
Qed.

(** Only a full queue whose receiving end is borrowed cannot be pushed to. *)
Lemma push_blocked self size l x : holds self size l -> length l = size -> rx_borrowed self = true ->
  push self x = Panic "already borrowed: BorrowMutError".
Proof.
  intros Hh E Hb. unfold push. rewrite (h_len _ _ _ Hh), (h_capacity _ _ _ Hh), (proj2 (Z.eqb_eq _ _)) by (unfold blen; lia).
  destruct (h_size _ _ _ Hh). replace (Z.to_nat (blen l)) with (S (Z.to_nat (blen l) - 1)) by (unfold blen; lia). cbn [make_room].
  rewrite (h_capacity _ _ _ Hh), (h_len _ _ _ Hh), (proj2 (Z.leb_le _ _)); [unfold try_pop; by rewrite Hb|].
  unfold blen. rewrite E. apply Z.div_le_upper_bound; lia.
Qed.

(** A poll of [pop] takes the oldest message, or waits and keeps the receiver borrowed. *)
Lemma poll_pop_ok resumed self size l : holds self size l -> resumed = rx_borrowed self ->
  exists self', poll_pop resumed self = Ret (head l, self') /\ holds self' size (tail l) /\ rx_borrowed self' = match l with [] => true | _ => false end.
Proof.
  intros [H1 H2 H3 H4 H5 H6] ->. unfold poll_pop. rewrite andb_negb_l. destruct l as [|x l]; cbn.
  - rewrite (try_next_none _ H1). eexists. split; [done|]. by split.
  - destruct (try_next_some _ _ _ H1) as (c & -> & Hc & Hn). eexists. split; [done|]. split; [|done]. cbn in H5. rewrite blen_cons in H4. unfold blen in *.
    split; cbn; try done; [congruence| |lia]. unfold wrap64, blen. rewrite H4, Z.mod_small by lia. lia.
Qed.

End queue.
Arguments t C : clear implicits.
End SharedQueue.
