(* ===== verification/Udp.v ===== *)
(** * UDP
    (src/src/rust/inetstack/protocols/udp/: datagram/mod.rs, peer.rs, futures/)

    Datagrams, the sockets of the UDP peer with their receive queues, the fast path (the link
    address is known) and the slow path (a background task resolves it), and the pop futures.
    The receive queues are shared with the pop futures, so they live in a store.  The ARP peer is
    shared with the rest of the stack and passed in and out. *)

From S2P Require Import Prelude Buffer Net Packet TtlCache Arp Ports SharedQueue.

(** ** Datagrams (datagram/mod.rs) *)

Module UdpDatagram.

Record t := new {
  ethernet2_hdr : Ethernet2Header.t;
  ipv4_hdr : Ipv4Header.t;
  udp_hdr : UdpHeader.t;
  data : Buffer.t;
  checksum_offload : bool;
}.

Definition header_size (self : t) : nat :=
  Ethernet2Header.compute_size (ethernet2_hdr self) + Ipv4Header.compute_size (ipv4_hdr self) + UdpHeader.UDP_HEADER_SIZE.

Definition body_size (self : t) : nat := length (data self).

Definition write_header (self : t) (buf : list Z) : outcome (list Z) :=
  let eth_hdr_size := Ethernet2Header.compute_size (ethernet2_hdr self) in
  let udp_hdr_size := UdpHeader.UDP_HEADER_SIZE in
  let ipv4_payload_len := Z.of_nat udp_hdr_size + blen (data self) in
  buf ← on_slice buf 0 eth_hdr_size (Ethernet2Header.serialize (ethernet2_hdr self));
  let cur_pos := eth_hdr_size in
  let ipv4_hdr_size := Ipv4Header.compute_size (ipv4_hdr self) in
  buf ← on_slice buf cur_pos ipv4_hdr_size (fun b => Ipv4Header.serialize (ipv4_hdr self) b ipv4_payload_len);
  let cur_pos := (cur_pos + ipv4_hdr_size)%nat in
  on_slice buf cur_pos udp_hdr_size (fun b => UdpHeader.serialize (udp_hdr self) b (ipv4_hdr self) (data self) (checksum_offload self)).

Definition take_body (self : t) : option Buffer.t := Some (data self).

End UdpDatagram.

#[export] Instance udp_packet : PacketBuf UdpDatagram.t := {
  Packet.header_size := UdpDatagram.header_size;
  Packet.write_header := UdpDatagram.write_header;
  Packet.body_size := UdpDatagram.body_size;
  Packet.take_body := UdpDatagram.take_body;
}.

(** ** The peer (peer.rs) *)

Definition EEXIST : Z := 17.

Record Slot := mkSlot { local : SocketAddrV4; remote : SocketAddrV4; data : Buffer.t }.

(** What the peer transmits. *)
Inductive tx := TxArp (m : ArpMessage.t) | TxUdp (d : UdpDatagram.t).

Module UdpPeer.

Definition RECV_QUEUE_MAX_SIZE : nat := 1024.
Definition SEND_QUEUE_MAX_SIZE : nat := 1024.

(** The background task waits for a datagram ([resumed] after its first poll) or resolves the
    address of one. *)
Inductive bg := Popping (resumed : bool) | Querying (slot : Slot) (q : ArpPeer.query).

Section peer.
Context {C : Type} `{Mpsc Slot C}.
Abbreviation queue := (SharedQueue.t C).

Record t := mk {
  ephemeral_ports : EphemeralPorts;
  sockets : gmap Z (option SocketAddrV4);
  bound : gmap SocketAddrV4 Z;
  queues : gmap Z queue;
  next_queue : Z;
  send_queue : queue;
  local_link_addr : MacAddress;
  local_ipv4_addr : Ipv4Addr;
  checksum_offload : bool;
  background_task : bg;
}.

Definition set_ports v (s : t) := mk v (sockets s) (bound s) (queues s) (next_queue s) (send_queue s) (local_link_addr s) (local_ipv4_addr s) (checksum_offload s) (background_task s).
Definition set_sockets v (s : t) := mk (ephemeral_ports s) v (bound s) (queues s) (next_queue s) (send_queue s) (local_link_addr s) (local_ipv4_addr s) (checksum_offload s) (background_task s).
Definition set_bound v (s : t) := mk (ephemeral_ports s) (sockets s) v (queues s) (next_queue s) (send_queue s) (local_link_addr s) (local_ipv4_addr s) (checksum_offload s) (background_task s).
Definition set_queues v n (s : t) := mk (ephemeral_ports s) (sockets s) (bound s) v n (send_queue s) (local_link_addr s) (local_ipv4_addr s) (checksum_offload s) (background_task s).
Definition set_send_queue v (s : t) := mk (ephemeral_ports s) (sockets s) (bound s) (queues s) (next_queue s) v (local_link_addr s) (local_ipv4_addr s) (checksum_offload s) (background_task s).
Definition set_background v (s : t) := mk (ephemeral_ports s) (sockets s) (bound s) (queues s) (next_queue s) (send_queue s) (local_link_addr s) (local_ipv4_addr s) (checksum_offload s) v.

Definition new (shuffle : list Z -> list Z) (core_id : option Z) (local_link_addr : MacAddress) (local_ipv4_addr : Ipv4Addr) (offload_checksum : bool) : t :=
  mk (Ports.new shuffle core_id) ∅ ∅ ∅ 0 (SharedQueue.new (T := Slot) SEND_QUEUE_MAX_SIZE) local_link_addr local_ipv4_addr offload_checksum (Popping false).

Definition do_send (local_ipv4_addr : Ipv4Addr) (local_link_addr remote_link_addr : MacAddress) (buf : Buffer.t)
  (local remote : SocketAddrV4) (offload_checksum : bool) : UdpDatagram.t :=
  let udp_header := UdpHeader.new (port local) (port remote) in
  UdpDatagram.new
    (Ethernet2Header.new remote_link_addr local_link_addr EtIpv4)
    (Ipv4Header.new local_ipv4_addr (ip remote) UDP)
    udp_header buf offload_checksum.

Definition send_slot (self : t) (link_addr : MacAddress) (s : Slot) : tx :=
  TxUdp (do_send (local_ipv4_addr self) (local_link_addr self) link_addr (data s) (local s) (remote s) (checksum_offload self)).

(** One poll of the background task: it runs until it has to wait. *)
Fixpoint background_sender (fuel : nat) (self : t) (arp : ArpPeer.t) (now : Z) (timer_first : nat -> bool) : outcome (t * ArpPeer.t * list tx) :=
  match fuel with
  | O => Diverge
  | S fuel =>
      match background_task self with
      | Popping resumed =>
          '(m, q) ← SharedQueue.poll_pop (T := Slot) resumed (send_queue self);
          let self := set_send_queue q self in
          match m with
          | None => Ret (set_background (Popping true) self, arp, [])
          | Some slot => background_sender fuel (set_background (Querying slot ArpPeer.QStart) self) arp now timer_first
          end
      | Querying slot q =>
          '(q, arp, ms) ← ArpPeer.poll_query arp now timer_first (ip (remote slot)) q;
          match q with
          | ArpPeer.QDone r =>
              let sent := match r with Ok link_addr => [send_slot self link_addr slot] | Err _ => [] end in
              '(self, arp, txs) ← background_sender fuel (set_background (Popping false) self) arp now timer_first;
              Ret (self, arp, map TxArp ms ++ sent ++ txs)
          | q => Ret (set_background (Querying slot q) self, arp, map TxArp ms)
          end
      end
  end.

(** Two steps for each datagram that waits, one for the one in hand and one to find none. *)
Definition background_fuel (self : t) : nat := 2 * Z.to_nat (SharedQueue.len (send_queue self)) + 2.

Definition do_socket (self : t) (qd : Z) : Result unit * t :=
  match sockets self !! qd with
  | None => (Ok tt, set_sockets (<[qd := None]> (sockets self)) self)
  | Some _ => (Err (mkFail EEXIST "queue descriptor in use"), self)
  end.

(** The ports of [do_bind]: a private port is taken from the pool, port 0 is replaced by a free one. *)
Definition bind_port (self : t) (addr : SocketAddrV4) : Result SocketAddrV4 * t :=
  if Ports.is_private (port addr) then
    match Ports.alloc_port (port addr) (ephemeral_ports self) with
    | (Ok _, ps) => (Ok addr, set_ports ps self)
    | (Err e, ps) => (Err e, set_ports ps self)
    end
  else if port addr =? 0 then
    match Ports.alloc_any (ephemeral_ports self) with
    | (Ok new_port, ps) => (Ok (mkAddr (ip addr) new_port), set_ports ps self)
    | (Err e, ps) => (Err e, set_ports ps self)
    end
  else (Ok addr, self).

Definition do_bind (self : t) (qd : Z) (addr : SocketAddrV4) : Result unit * t :=
  match bound self !! addr with
  | Some _ => (Err (mkFail EADDRINUSE "address in use"), self)
  | None =>
      match bind_port self addr with
      | (Err e, self) => (Err e, self)
      | (Ok addr, self) =>
          let '(ret, self) :=
            match sockets self !! qd with
            | Some None =>
                let was_bound := bound self !! addr in
                let self := set_sockets (<[qd := Some addr]> (sockets self)) self in
                let self := set_queues (<[next_queue self := SharedQueue.new (T := Slot) RECV_QUEUE_MAX_SIZE]> (queues self)) (next_queue self + 1)
                              (set_bound (<[addr := next_queue self]> (bound self)) self) in
                (match was_bound with Some _ => Err (mkFail EADDRINUSE "address in use") | None => Ok tt end, self)
            | _ => (Err (mkFail EBADF "invalid queue descriptor"), self)
            end in
          match ret with
          | Ok _ => (Ok tt, self)
          | Err e => (Err e, if Ports.is_private (port addr) then set_ports (Ports.free (port addr) (ephemeral_ports self)) self else self)
          end
      end
  end.

Definition do_close (self : t) (qd : Z) : Result unit * t :=
  match sockets self !! qd with
  | None => (Err (mkFail EBADF "invalid queue descriptor"), self)
  | Some socket =>
      let self := set_sockets (delete qd (sockets self)) self in
      match socket with
      | Some local =>
          match bound self !! local with
          | Some _ => (Ok tt, set_bound (delete local (bound self)) self)
          | None => (Err (mkFail EBADF "invalid queue descriptor"), self)
          end
      | None => (Err (mkFail EBADF "invalid queue descriptor"), self)
      end
  end.

Definition do_pushto (self : t) (arp : ArpPeer.t) (qd : Z) (data : Buffer.t) (remote : SocketAddrV4) : outcome (Result unit * t * list tx) :=
  match sockets self !! qd with
  | Some (Some local) =>
      match ArpPeer.try_query arp (ip remote) with
      | Some link_addr => Ret (Ok tt, self, [send_slot self link_addr (mkSlot local remote data)])
      | None =>
          '(r, q) ← SharedQueue.push (send_queue self) (mkSlot local remote data);
          Ret (r, set_send_queue q self, [])
      end
  | _ => Ret (Err (mkFail EBADF "invalid queue descriptor"), self, [])
  end.

(** A pop future holds its descriptor and its queue. *)
Record UdpPopFuture := mkPop { qd : Z; recv_queue : Z }.

Definition do_pop (self : t) (qd : Z) : outcome UdpPopFuture :=
  match sockets self !! qd with
  | Some (Some local) =>
      match bound self !! local with
      | Some q => Ret (mkPop qd q)
      | None => Panic "called `Option::unwrap()` on a `None` value"
      end
  | _ => Panic "invalid queue descriptor"
  end.

(** One poll of a pop future (futures/pop.rs); [None] is [Poll::Pending]. *)
Definition poll_pop_future (self : t) (f : UdpPopFuture) : outcome (option (SocketAddrV4 * Buffer.t) * t) :=
  match queues self !! recv_queue f with
  | Some q =>
      '(m, q) ← SharedQueue.try_pop (T := Slot) q;
      Ret (match m with Some s => Some (remote s, data s) | None => None end, set_queues (<[recv_queue f := q]> (queues self)) (next_queue self) self)
  | None => Panic "dangling queue"
  end.

Definition do_receive (self : t) (ipv4_hdr : Ipv4Header.t) (buf : Buffer.t) : outcome (Result unit * t) :=
  r ← UdpHeader.parse_from_slice ipv4_hdr buf (checksum_offload self);
  match r with
  | Err e => Ret (Err e, self)
  | Ok (hdr, data) =>
      let local := mkAddr (Ipv4Header.get_dest_addr ipv4_hdr) (UdpHeader.dest_port hdr) in
      let remote := mkAddr (Ipv4Header.get_src_addr ipv4_hdr) (UdpHeader.src_port hdr) in
      let found := match bound self !! local with
                   | Some q => Some q
                   | None => bound self !! mkAddr 0 (UdpHeader.dest_port hdr)
                   end in
      match found with
      | None => Ret (Err (mkFail ENOTCONN "port not bound"), self)
      | Some id =>
          match queues self !! id with
          | None => Panic "dangling queue"
          | Some q =>
              '(r, q) ← SharedQueue.push q (mkSlot local remote data);
              match r with
              | Ok _ => Ret (Ok tt, set_queues (<[id := q]> (queues self)) (next_queue self) self)
              | Err _ => Panic "called `Result::unwrap()` on an `Err` value"
              end
          end
      end
  end.

End peer.
Arguments t C : clear implicits.
End UdpPeer.
