(* ===== verification/UdpSafety.v ===== *)
(** * UDP sockets are consistent and deliver in order
    (src/src/rust/inetstack/protocols/udp/)

    A host that runs the UDP peer and the ARP peer: whatever calls the application makes and
    whatever arrives, the socket tables stay consistent, datagrams are queued for the socket bound
    to their destination and read in order, and the background task sends what waits once its
    address is resolved. *)

From S2P Require Import Prelude Buffer Net Packet TtlCache Arp ArpSafety Ports SharedQueue Udp.

(** The parser is total: any bytes give a datagram or an error. *)
Lemma udp_parse_total iph buf off : exists r, UdpHeader.parse_from_slice iph buf off = Ret r.
Proof.
  unfold UdpHeader.parse_from_slice. destruct (Nat.ltb_spec (length buf) UdpHeader.UDP_HEADER_SIZE) as [|Hl]; [by eexists|].
  unfold UdpHeader.UDP_HEADER_SIZE in *. rewrite <- (take_drop 8 buf). assert (Ht : length (take 8 buf) = 8%nat) by (rewrite length_take; lia).
  generalize dependent (take 8 buf). intros b Hb. generalize (drop 8 buf). intros rest.
  assert (slice (b ++ rest) 0 8 = Ret b) as ->.
  { explode b Hb. by run_bytes. }
  assert (slice_from (b ++ rest) 8 = Ret rest) as ->.
  { explode b Hb. by run_bytes. }
  destruct (udp_checksum_defined iph b rest Hb) as (ck & Hc & _). cbn [mbind outcome_bind].
  assert (Hw : forall i, (i + 2 <= 8)%nat -> exists w, read_u16 b i = Ret w).
  { intros i Hi. explode b Hb. do 7 (destruct i as [|i]; [by eexists|]). lia. }
  destruct (Hw 0%nat) as [w0 ->]; [lia|]. destruct (Hw 2%nat) as [w1 ->]; [lia|]. destruct (Hw 4%nat) as [w2 ->]; [lia|]. destruct (Hw 6%nat) as [w3 ->]; [lia|].
  cbn [mbind outcome_bind]. destruct (negb _); [by eexists|]. destruct off; [by eexists|]. destruct (w3 =? 0); [by eexists|]. rewrite Hc. cbn [mbind outcome_bind].
  destruct (negb _); by eexists.
Qed.

Module UdpHost.
Import UdpPeer.

Section host.
Context {C : Type} `{Mpsc Slot C}.

Record host := mkHost {
  udp : UdpPeer.t C;
  arp : ArpPeer.t;
  now : Z;
  pops : gmap Z UdpPopFuture;
  heard : list (Ipv4Addr * MacAddress);
}.

Inductive event :=
| Socket (qd : Z)
| Bind (qd : Z) (addr : SocketAddrV4)
| Close (qd : Z)
| PushTo (qd : Z) (data : Buffer.t) (remote : SocketAddrV4)
| Pop (id qd : Z)
| PollPop (id : Z)
| Receive (ipv4_hdr : Ipv4Header.t) (buf : Buffer.t)
| Background (timer_first : nat -> bool)
| ArpReceive (buf : Buffer.t)
| ArpBackground
| Tick (nanos : N).

Definition set_udp v (h : host) := mkHost v (arp h) (now h) (pops h) (heard h).
Definition set_arp v (h : host) := mkHost (udp h) v (now h) (pops h) (heard h).

Definition step (h : host) (e : event) : outcome (host * list tx) :=
  match e with
  | Socket qd => Ret (set_udp (do_socket (udp h) qd).2 h, [])
  | Bind qd addr => Ret (set_udp (do_bind (udp h) qd addr).2 h, [])
  | Close qd => Ret (set_udp (do_close (udp h) qd).2 h, [])
  | PushTo qd data remote => '(_, u, txs) ← do_pushto (udp h) (arp h) qd data remote; Ret (set_udp u h, txs)
  | Pop id qd => f ← do_pop (udp h) qd; Ret (mkHost (udp h) (arp h) (now h) (<[id := f]> (pops h)) (heard h), [])
  | PollPop id =>
      match pops h !! id with
      | Some f => '(_, u) ← poll_pop_future (udp h) f; Ret (set_udp u h, [])
      | None => Ret (h, [])
      end
  | Receive ipv4_hdr buf => '(_, u) ← do_receive (udp h) ipv4_hdr buf; Ret (set_udp u h, [])
  | Background tf =>
      '(u, a, txs) ← background_sender (background_fuel (udp h)) (udp h) (arp h) (now h) tf;
      Ret (mkHost u a (now h) (pops h) (heard h), txs)
  | ArpReceive buf =>
      '(_, a, ms) ← ArpPeer.receive (arp h) buf;
      Ret (mkHost (udp h) a (now h) (pops h) (heard h ++ ArpHost.hears buf), map TxArp ms)
  | ArpBackground => a ← ArpPeer.background (arp h) (now h); Ret (set_arp a h, [])
  | Tick d => Ret (mkHost (udp h) (arp h) (now h + Z.of_N d) (pops h) (heard h), [])
  end.

Fixpoint run (h : host) (es : list event) : outcome host :=
  match es with
  | [] => Ret h
  | e :: es => '(h, _) ← step h e; run h es
  end.

(** [core_id] is the environment variable CORE_ID, if it is set. *)
Definition start (shuffle : list Z -> list Z) (core_id : option Z) (t : Z) (mac : MacAddress) (ip : Ipv4Addr) (c : ArpConfig)
    (offload : bool) : outcome host :=
  a ← ArpPeer.new t mac ip c;
  Ret (mkHost (UdpPeer.new shuffle core_id mac ip offload) a t ∅ (map_to_list (initial_values c))).

(** The messages that wait in a receive queue. *)
Definition mailbox (u : UdpPeer.t C) (id : Z) : list Slot :=
  match queues u !! id with Some q => messages (SharedQueue.ch q) | None => [] end.

(** ** The invariant *)

(** [core] is the port that CORE_ID puts into the pool of free ports, which is not a private one. *)
Context `{!MpscLaws Slot C} (c : ArpConfig) (mac : MacAddress) (ip0 : Ipv4Addr) (core : option Z).

Abbreviation arp_inv := (ArpHost.inv c mac ip0).

(** The sockets: one bound endpoint for each bound socket, each with a queue of its own, and no
    free port is in use. *)
Record sock_inv (u : UdpPeer.t C) : Prop := {
  s_bound : forall a, is_Some (bound u !! a) <-> exists qd, sockets u !! qd = Some (Some a);
  s_one : forall qd qd' a, sockets u !! qd = Some (Some a) -> sockets u !! qd' = Some (Some a) -> qd = qd';
  s_queue : forall a b id, bound u !! a = Some id -> bound u !! b = Some id -> a = b;
  s_live : forall a id, bound u !! a = Some id -> is_Some (queues u !! id);
  s_next : forall id, is_Some (queues u !! id) -> id < next_queue u;
  s_holds : forall id q, queues u !! id = Some q -> SharedQueue.rx_borrowed q = false /\ exists l, SharedQueue.holds q RECV_QUEUE_MAX_SIZE l;
  s_ports : NoDup (ephemeral_ports u) /\ forall p, p ∈ ephemeral_ports u ->
    (Ports.is_private p = true \/ core = Some p) /\ forall a, port a = p -> bound u !! a = None;
}.

(** The background task and the queue it empties. *)
Definition bg_inv (u : UdpPeer.t C) (a : ArpPeer.t) (t : Z) (hd : list (Ipv4Addr * MacAddress)) : Prop :=
  (exists l, SharedQueue.holds (send_queue u) SEND_QUEUE_MAX_SIZE l) /\
  match background_task u with
  | Popping resumed => SharedQueue.rx_borrowed (send_queue u) = resumed /\ arp_inv a t ∅ hd
  | Querying slot q => SharedQueue.rx_borrowed (send_queue u) = false /\ ArpHost.finished q = false /\ arp_inv a t {[0 := (ip (remote slot), q)]} hd
  end.

Record host_inv (h : host) : Prop := {
  h_sock : sock_inv (udp h);
  h_bg : bg_inv (udp h) (arp h) (now h) (heard h);
  h_pops : forall id f, pops h !! id = Some f -> is_Some (queues (udp h) !! recv_queue f);
}.

(** Parts of the peer that the invariant of the sockets does not look at. *)
Lemma sock_inv_frame u u' : ephemeral_ports u' = ephemeral_ports u -> sockets u' = sockets u -> bound u' = bound u -> queues u' = queues u ->
  next_queue u' = next_queue u -> sock_inv u -> sock_inv u'.
Proof. intros H1 H2 H3 H4 H5 [I1 I2 I3 I4 I5 I6 I7]. split; rewrite ?H1, ?H2, ?H3, ?H4, ?H5; done. Qed.

(** A queue of the store changes. *)
Lemma sock_inv_queue u id q l : sock_inv u -> is_Some (queues u !! id) -> SharedQueue.rx_borrowed q = false -> SharedQueue.holds q RECV_QUEUE_MAX_SIZE l ->
  sock_inv (set_queues (<[id := q]> (queues u)) (next_queue u) u).
Proof.
  intros [I1 I2 I3 I4 I5 I6 I7] Hid Hb Hq. split; cbn; try done.
  - intros a j Hj. rewrite lookup_insert_is_Some'. right. eauto.
  - intros j. rewrite lookup_insert_is_Some'. intros [<-|]; eauto.
  - intros j q'. destruct (decide (j = id)) as [->|]; [rewrite lookup_insert_eq; intros [= <-]; eauto|rewrite lookup_insert_ne by done; eauto].
Qed.

Lemma arp_inv_done a t hd x q : arp_inv a t {[0 := (x, q)]} hd -> arp_inv a t ∅ hd.
Proof. intros [H1 H2 H3 H4 H5 H6 H7 H8]. by split. Qed.

Lemma arp_inv_start a t hd x : arp_inv a t ∅ hd -> arp_inv a t {[0 := (x, ArpPeer.QStart)]} hd.
Proof.
  intros [H1 H2 H3 H4 H5 H6 H7 H8]. split; try done.
  - intros id y ch n d [_ [=]]%lookup_singleton_Some.
  - intros id id' y y' ch n n' d d' [_ [=]]%lookup_singleton_Some.
  - intros id y m [_ [=]]%lookup_singleton_Some.
Qed.

(** *** The background task *)

(** The datagrams of the slow path that wait, the one in hand first. *)
Definition waiting (u : UdpPeer.t C) : list Slot :=
  match background_task u with Querying slot _ => [slot] | Popping _ => [] end ++ messages (SharedQueue.ch (send_queue u)).

Definition datagrams (txs : list tx) : list UdpDatagram.t := omap (fun x => match x with TxUdp d => Some d | TxArp _ => None end) txs.

(** What is sent for datagrams whose addresses were resolved, or not. *)
Definition sends (u : UdpPeer.t C) (outs : list (Slot * Result MacAddress)) : list UdpDatagram.t :=
  omap (fun '(s, r) => match r with
    | Ok m => Some (do_send (local_ipv4_addr u) (local_link_addr u) m (data s) (local s) (remote s) (checksum_offload u))
    | Err _ => None
    end) outs.

(** A turn of the background task takes a first part of what waits and sends, in order, every
    datagram of it whose address was resolved, to the resolved address. *)
Record bg_turn (u u' : UdpPeer.t C) (hd : list (Ipv4Addr * MacAddress)) (txs : list tx) : Prop := {
  t_frame : ephemeral_ports u' = ephemeral_ports u /\ sockets u' = sockets u /\ bound u' = bound u /\ queues u' = queues u /\ next_queue u' = next_queue u;
  t_local : local_ipv4_addr u' = local_ipv4_addr u /\ local_link_addr u' = local_link_addr u /\ checksum_offload u' = checksum_offload u;
  t_sent : exists outs, waiting u = map fst outs ++ waiting u' /\ datagrams txs = sends u outs /\
    forall s m, (s, Ok m) ∈ outs -> ArpHost.good c hd (ip (remote s)) m;
}.

Lemma bg_turn_same u u' hd txs : bg_turn u u' hd txs -> sock_inv u -> sock_inv u'.
Proof. intros [(H1 & H2 & H3 & H4 & H5) _ _]. by apply sock_inv_frame. Qed.

Lemma datagrams_app l k : datagrams (l ++ k) = datagrams l ++ datagrams k.
Proof. apply omap_app. Qed.

Lemma datagrams_arp ms : datagrams (map TxArp ms) = [].
Proof. by induction ms. Qed.

(** A datagram taken from the queue is the one in hand. *)
Lemma bg_turn_take u q slot hd u' txs resumed : background_task u = Popping resumed ->
  messages (SharedQueue.ch (send_queue u)) = slot :: messages (SharedQueue.ch q) ->
  bg_turn (set_background (Querying slot ArpPeer.QStart) (set_send_queue q u)) u' hd txs -> bg_turn u u' hd txs.
Proof. intros E Hm [H1 H2 (outs & Hw & Ho)]. split; [done|done|]. exists outs. split; [|done]. rewrite <- Hw. unfold waiting. by rewrite E, Hm. Qed.

(** The datagram in hand is dealt with. *)
Lemma bg_turn_done u slot q r hd u' ms txs : background_task u = Querying slot q ->
  (forall m, r = Ok m -> ArpHost.good c hd (ip (remote slot)) m) ->
  bg_turn (set_background (Popping false) u) u' hd txs ->
  bg_turn u u' hd (map TxArp ms ++ match r with Ok m => [send_slot (set_background (Popping false) u) m slot] | Err _ => [] end ++ txs).
Proof.
  intros E Hr [H1 H2 (outs & Hw & Hd & Ho)]. split; [done|done|]. exists ((slot, r) :: outs). split; [|split].
  - unfold waiting in *. rewrite E. cbn in *. by rewrite Hw.
  - rewrite !datagrams_app, datagrams_arp, Hd. by destruct r.
  - intros s m [[= <- <-]|Hin]%elem_of_cons; [by apply Hr|by apply Ho].
Qed.

Lemma bg_turn_rest u u' hd ms : waiting u' = waiting u -> ephemeral_ports u' = ephemeral_ports u /\ sockets u' = sockets u /\ bound u' = bound u /\ queues u' = queues u /\ next_queue u' = next_queue u ->
  local_ipv4_addr u' = local_ipv4_addr u /\ local_link_addr u' = local_link_addr u /\ checksum_offload u' = checksum_offload u -> bg_turn u u' hd (map TxArp ms).
Proof. intros Hw H1 H2. split; [done|done|]. exists []. rewrite datagrams_arp. split; [done|]. split; [done|]. by intros s m ?%elem_of_nil. Qed.

Lemma background_inv fuel u a t tf hd l : bg_inv u a t hd -> SharedQueue.holds (send_queue u) SEND_QUEUE_MAX_SIZE l ->
  (2 * length l + match background_task u with Popping _ => 1 | _ => 2 end <= fuel)%nat ->
  exists u' a' txs, background_sender fuel u a t tf = Ret (u', a', txs) /\ bg_inv u' a' t hd /\ bg_turn u u' hd txs.
Proof.
  revert u a l. induction fuel as [|fuel IH]; intros u a l [_ Hb] Hl Hf; [destruct (background_task u); lia|]. cbn [background_sender].
  destruct (background_task u) as [resumed|slot q] eqn:E.
  - destruct Hb as [Hr Ha]. destruct (SharedQueue.poll_pop_ok resumed (send_queue u) _ l Hl) as (q & Hq & Hh & Hbo); [done|]. rewrite Hq. cbn [mbind outcome_bind].
    pose proof (SharedQueue.h_messages _ _ _ Hh) as Hm. pose proof (SharedQueue.h_messages _ _ _ Hl) as Hm0.
    destruct l as [|slot l]; cbn [head tail] in *.
    + do 3 eexists. split; [done|]. split; [split; cbn; [by eexists|done]|]. apply (bg_turn_rest _ _ _ []); [|done|done]. unfold waiting. cbn. by rewrite E, Hm, Hm0.
    + destruct (IH (set_background (Querying slot ArpPeer.QStart) (set_send_queue q u)) a l) as (u' & a' & txs & -> & Hb' & Ht'); cbn.
      * split; [by eexists|]. cbn. split_and!; [done|done|by apply arp_inv_start].
      * done.
      * cbn in Hf. lia.
      * exists u', a', txs. split; [done|]. split; [done|]. eapply bg_turn_take; [done| |done]. by rewrite Hm0, Hm.
  - destruct Hb as (Hr & Hfin & Ha).
    pose proof (ArpHost.poll_inv c mac ip0 a t tf _ hd 0 (ip (remote slot)) q Ha (lookup_singleton_eq _ _) Hfin) as Hp.
    destruct (ArpPeer.poll_query a t tf (ip (remote slot)) q) as [[[q' a1] ms]|msg|]; cbn [mbind outcome_bind]; [| |done].
    + destruct Hp as [Ha1 _]. rewrite insert_singleton_eq in Ha1. destruct (ArpHost.finished q') eqn:Hf'.
      * destruct q' as [| |r]; [done|done|]. destruct (IH (set_background (Popping false) u) a1 l) as (u' & a' & txs & -> & Hb' & Ht'); cbn.
        -- split; [by eexists|]. cbn. split; [done|by eapply arp_inv_done].
        -- done.
        -- lia.
        -- do 3 eexists. split; [done|]. split; [done|]. eapply bg_turn_done; [done| |done].
           intros m ->. eapply (ArpHost.i_done _ _ _ _ _ _ _ Ha1 0). apply lookup_singleton_eq.
      * assert (Hgo : exists u' a' txs, Ret (set_background (Querying slot q') u, a1, map TxArp ms) = Ret (u', a', txs) /\ bg_inv u' a' t hd /\ bg_turn u u' hd txs).
        { do 3 eexists. split; [done|]. split; [split; [by eexists|by split_and!]|]. apply bg_turn_rest; [|done|done]. unfold waiting. by rewrite E. }
        destruct q'; [exact Hgo|exact Hgo|done].
    + exfalso. destruct Hp as (_ & id' & q' & Hne & [Heq _]%lookup_singleton_Some). done.
Qed.

(** *** The sockets *)

Lemma socket_sock_inv u qd : sock_inv u -> sock_inv (do_socket u qd).2.
Proof.
  intros I. unfold do_socket. destruct (sockets u !! qd) as [x|] eqn:E; [done|]. destruct I as [I1 I2 I3 I4 I5 I6 I7].
  assert (Hs : forall qd' a, <[qd := None]> (sockets u) !! qd' = Some (Some a) <-> sockets u !! qd' = Some (Some a)).
  { intros qd' a. destruct (decide (qd' = qd)) as [->|]; [by rewrite lookup_insert_eq, E|by rewrite lookup_insert_ne]. }
  split; cbn; try done; [intros a; setoid_rewrite Hs; apply I1|intros ? ? a ?%Hs ?%Hs; eauto].
Qed.

(** Ports leave the pool. *)
Lemma sock_inv_ports u ps : sock_inv u -> NoDup ps -> (forall p, p ∈ ps -> p ∈ ephemeral_ports u) -> sock_inv (set_ports ps u).
Proof. intros [I1 I2 I3 I4 I5 I6 [I7 I8]] Hnd Hsub. split; cbn; try done. split; [done|]. intros p Hp. auto. Qed.

Lemma bind_port_ok u addr r u' : sock_inv u -> core <> Some (port addr) -> bound u !! addr = None -> bind_port u addr = (r, u') ->
  exists ps, u' = set_ports ps u /\ NoDup ps /\ (forall p, p ∈ ps -> p ∈ ephemeral_ports u) /\
    match r with
    | Ok a => ip a = ip addr /\ (port addr <> 0 -> a = addr) /\ bound u !! a = None /\ port a ∉ ps /\ (Ports.is_private (port a) = true -> port a ∈ ephemeral_ports u)
    | Err _ => True
    end.
Proof.
  intros I Hcore Hb. destruct (s_ports _ I) as [Hnd Hp]. unfold bind_port. destruct (Ports.is_private (port addr)) eqn:Hpr.
  - destruct (Ports.alloc_port (port addr) (ephemeral_ports u)) as [[[]|e] ps] eqn:E; intros [= <- <-]; exists ps; split; try done.
    + assert (Hin : port addr ∈ ephemeral_ports u) by (unfold Ports.alloc_port in E; by case_decide).
      apply alloc_port_ok in E; [|done]. rewrite E in Hnd. apply NoDup_cons in Hnd as [Hn Hnd]. split; [done|]. split; [|done]. intros p. rewrite E. by right.
    + unfold Ports.alloc_port in E. case_decide; [done|]. injection E as _ <-. done.
  - destruct (Z.eqb_spec (port addr) 0) as [H0|H0].
    + destruct (Ports.alloc_any (ephemeral_ports u)) as [[p|e] ps] eqn:E; intros [= <- <-]; exists ps; split; try done.
      * apply alloc_any_ok in E. rewrite E in *. apply NoDup_app in Hnd as (Hnd & Hd & _). assert (Hin : p ∈ ps ++ [p]) by (apply elem_of_app; right; by left).
        split; [done|]. split; [intros q Hq; apply elem_of_app; by left|]. cbn. split_and!; [done|done|by apply (Hp p)| |done].
        intros Hx. by apply (Hd p Hx), list_elem_of_singleton.
      * apply alloc_any_err in E as (E1 & -> & _). split; [apply NoDup_nil_2|]. split; [|done]. by intros p ?%elem_of_nil.
    + intros [= <- <-]. exists (ephemeral_ports u). split; [by destruct u|]. split_and!; try done.
      * intros Hx. apply Hp in Hx as [[Hx|Hx] _]; congruence.
      * congruence.
Qed.

Lemma free_sock_inv u ps a : sock_inv u -> NoDup ps -> (forall p, p ∈ ps -> p ∈ ephemeral_ports u) -> port a ∉ ps -> port a ∈ ephemeral_ports u ->
  sock_inv (set_ports (Ports.free (port a) ps) u).
Proof.
  intros I Hnd Hsub Hn Hin. apply sock_inv_ports; [done| |].
  - unfold Ports.free. apply NoDup_app. split_and!; [done| |apply NoDup_singleton]. intros p Hp ->%list_elem_of_singleton. done.
  - intros p [?| ->%list_elem_of_singleton]%elem_of_app; auto.
Qed.

(** A fresh queue for an endpoint that is free. *)
Lemma bound_sock_inv u qd a : sock_inv u -> bound u !! a = None -> port a ∉ ephemeral_ports u -> sockets u !! qd = Some None ->
  sock_inv (set_queues (<[next_queue u := SharedQueue.new (T := Slot) RECV_QUEUE_MAX_SIZE]> (queues u)) (next_queue u + 1)
    (set_bound (<[a := next_queue u]> (bound u)) (set_sockets (<[qd := Some a]> (sockets u)) u))).
Proof.
  intros [I1 I2 I3 I4 I5 I6 [I7 I8]] Hb Hp Hq.
  assert (Hfree : forall qd', sockets u !! qd' = Some (Some a) -> False).
  { intros qd' Hx. apply (is_Some_None (A := Z)). rewrite <- Hb. apply I1. by exists qd'. }
  assert (Hnew : forall b id, bound u !! b = Some id -> id <> next_queue u).
  { intros b id Hx. assert (id < next_queue u) by (by eapply I5, I4). lia. }
  split; cbn.
  - intros b. destruct (decide (b = a)) as [->|Hne].
    + rewrite lookup_insert_eq. split; [|done]. intros _. exists qd. by rewrite lookup_insert_eq.
    + rewrite lookup_insert_ne by done. rewrite I1. split; intros [qd' Hx]; exists qd'.
      * rewrite lookup_insert_ne; [done|]. intros ->. congruence.
      * destruct (decide (qd' = qd)) as [->|]; [rewrite lookup_insert_eq in Hx; congruence|by rewrite lookup_insert_ne in Hx].
  - intros q1 q2 b. destruct (decide (q1 = qd)) as [->|], (decide (q2 = qd)) as [->|]; rewrite ?lookup_insert_eq, ?lookup_insert_ne by done; try done; eauto.
    + intros [= <-] Hx. destruct (Hfree _ Hx).
    + intros Hx [= <-]. destruct (Hfree _ Hx).
  - intros b1 b2 id. destruct (decide (b1 = a)) as [->|], (decide (b2 = a)) as [->|]; rewrite ?lookup_insert_eq, ?lookup_insert_ne by done; try done; eauto.
    + intros [= <-] Hx. by destruct (Hnew _ _ Hx).
    + intros Hx [= <-]. by destruct (Hnew _ _ Hx).
  - intros b id. rewrite lookup_insert_is_Some'. destruct (decide (b = a)) as [->|]; [rewrite lookup_insert_eq; intros [= <-]; by left|].
    rewrite lookup_insert_ne by done. intros Hx. right. eauto.
  - intros id. rewrite lookup_insert_is_Some'. intros [<-|Hx%I5]; lia.
  - intros id q. destruct (decide (id = next_queue u)) as [->|]; [|rewrite lookup_insert_ne by done; apply I6].
    rewrite lookup_insert_eq. intros [= <-]. split; [done|]. exists []. apply SharedQueue.queue_new_holds; unfold RECV_QUEUE_MAX_SIZE; lia.
  - split; [done|]. intros p Hin. destruct (I8 p Hin) as [H1 H2]. split; [done|]. intros b Hpb. rewrite lookup_insert_ne; [auto|]. intros <-. congruence.
Qed.

(** Binding: on success the descriptor, which was not bound, gets a free endpoint of the address
    asked for and an empty queue; on failure nothing changes but the order of the free ports. *)
Record bind_result (u : UdpPeer.t C) (qd : Z) (addr : SocketAddrV4) (r : Result unit) (u' : UdpPeer.t C) : Prop := {
  b_inv : sock_inv u';
  b_rest : send_queue u' = send_queue u /\ background_task u' = background_task u /\ checksum_offload u' = checksum_offload u;
  b_ok : match r with
    | Ok _ => exists a, ip a = ip addr /\ (port addr <> 0 -> a = addr) /\ bound u !! a = None /\ sockets u !! qd = Some None /\
        sockets u' = <[qd := Some a]> (sockets u) /\ bound u' = <[a := next_queue u]> (bound u) /\ next_queue u' = next_queue u + 1 /\
        queues u' = <[next_queue u := SharedQueue.new (T := Slot) RECV_QUEUE_MAX_SIZE]> (queues u)
    | Err _ => sockets u' = sockets u /\ bound u' = bound u /\ queues u' = queues u
    end;
}.

Lemma do_bind_ok u qd addr : sock_inv u -> core <> Some (port addr) -> bind_result u qd addr (do_bind u qd addr).1 (do_bind u qd addr).2.
Proof.
  intros I Hcore. unfold do_bind. destruct (bound u !! addr) as [x|] eqn:Hb; [by split|].
  destruct (bind_port u addr) as [r u1] eqn:E. destruct (bind_port_ok u addr r u1 I Hcore Hb E) as (ps & -> & Hnd & Hsub & Hr).
  destruct r as [a|e]; [|split; [by apply sock_inv_ports|done|done]]. destruct Hr as (Hip & Hpo & Hba & Hn & Hpr).
  assert (Herr : forall e, bind_result u qd addr (Err e) (if Ports.is_private (port a) then set_ports (Ports.free (port a) ps) u else set_ports ps u)).
  { intros e. destruct (Ports.is_private (port a)) eqn:Hp; split; try done; [by apply free_sock_inv; auto|by apply sock_inv_ports]. }
  cbn [sockets set_ports]. destruct (sockets u !! qd) as [[b|]|] eqn:Hq; [apply Herr| |apply Herr]. cbn. rewrite Hba.
  split; cbn; [|done|by exists a; split_and!]. apply (bound_sock_inv (set_ports ps u)); try done. by apply sock_inv_ports.
Qed.

Lemma close_sock_inv u qd : sock_inv u -> sock_inv (do_close u qd).2.
Proof.
  intros I. unfold do_close. destruct (sockets u !! qd) as [[a|]|] eqn:E; [| |done]; destruct I as [I1 I2 I3 I4 I5 I6 [I7 I8]].
  - assert (is_Some (bound u !! a)) as [x Hx] by (apply I1; by exists qd). cbn [bound set_sockets]. rewrite Hx. split; cbn; try done.
    + intros b. rewrite lookup_delete_is_Some. rewrite I1. split.
      * intros [Hne [qd' Hq]]. exists qd'. rewrite lookup_delete_ne; [done|]. intros ->. congruence.
      * intros [qd' [Hne Hq]%lookup_delete_Some]. split; [|by exists qd']. intros <-. by apply Hne, (I2 _ _ a).
    + intros q1 q2 b [_ H1]%lookup_delete_Some [_ H2]%lookup_delete_Some. eauto.
    + intros b1 b2 id [_ H1]%lookup_delete_Some [_ H2]%lookup_delete_Some. eauto.
    + intros b id [_ H1]%lookup_delete_Some. eauto.
    + split; [done|]. intros p Hp. destruct (I8 p Hp) as [H1 H2]. split; [done|]. intros b Hpb. apply lookup_delete_None. right. auto.
  - split; cbn; try done.
    + intros b. rewrite I1. split; intros [qd' Hq]; exists qd'.
      * rewrite lookup_delete_ne; [done|]. intros ->. congruence.
      * by apply lookup_delete_Some in Hq as [_ Hq].
    + intros q1 q2 b [_ H1]%lookup_delete_Some [_ H2]%lookup_delete_Some. eauto.
Qed.

(** *** Queues *)

Lemma mailbox_insert u id q j : mailbox (set_queues (<[id := q]> (queues u)) (next_queue u) u) j = if decide (j = id) then messages (SharedQueue.ch q) else mailbox u j.
Proof. unfold mailbox. cbn. case_decide as E; [subst; by rewrite lookup_insert_eq|by rewrite lookup_insert_ne]. Qed.

(** The queue a datagram for an endpoint belongs to: of that endpoint, else of the wildcard. *)
Definition addressee (u : UdpPeer.t C) (a : SocketAddrV4) : option Z :=
  match bound u !! a with Some q => Some q | None => bound u !! mkAddr 0 (port a) end.

(** What the arrival of a datagram does. *)
Record received (u : UdpPeer.t C) (iph : Ipv4Header.t) (buf : Buffer.t) (r : Result unit) (u' : UdpPeer.t C) : Prop := {
  r_bad : forall e, UdpHeader.parse_from_slice iph buf (checksum_offload u) = Ret (Err e) -> r = Err e /\ u' = u;
  r_good : forall hdr data, UdpHeader.parse_from_slice iph buf (checksum_offload u) = Ret (Ok (hdr, data)) ->
    let local := mkAddr (Ipv4Header.get_dest_addr iph) (UdpHeader.dest_port hdr) in
    let remote := mkAddr (Ipv4Header.get_src_addr iph) (UdpHeader.src_port hdr) in
    match addressee u local with
    | None => u' = u /\ exists e, r = Err e /\ errno e = ENOTCONN
    | Some id => r = Ok tt /\ forall j, mailbox u' j = if decide (j = id) then SharedQueue.pushed RECV_QUEUE_MAX_SIZE (mailbox u id) (mkSlot local remote data) else mailbox u j
    end;
}.

Lemma do_receive_ok u iph buf : sock_inv u -> exists r u', do_receive u iph buf = Ret (r, u') /\ sock_inv u' /\ received u iph buf r u' /\
  (forall id, is_Some (queues u !! id) -> is_Some (queues u' !! id)) /\ send_queue u' = send_queue u /\ background_task u' = background_task u.
Proof.
  intros I. unfold do_receive. destruct (udp_parse_total iph buf (checksum_offload u)) as [[[hdr dt]|e] Hp]; rewrite Hp; cbn [mbind outcome_bind].
  2:{ do 2 eexists. split; [done|]. split_and!; try done. split; [by rewrite Hp; intros e' [= <-]|by rewrite Hp]. }
  change (match bound u !! mkAddr _ _ with Some q => Some q | None => _ end) with (addressee u (mkAddr (Ipv4Header.get_dest_addr iph) (UdpHeader.dest_port hdr))).
  destruct (addressee u _) as [id|] eqn:Ha.
  - assert (Hq : is_Some (queues u !! id)).
    { unfold addressee in Ha. destruct (bound u !! mkAddr (Ipv4Header.get_dest_addr iph) _) eqn:E; [injection Ha as <-|]; by eapply (s_live _ I). }
    destruct Hq as [q Hq]. destruct (s_holds _ I id q Hq) as [Hb [l Hl]]. rewrite Hq.
    destruct (SharedQueue.queue_push_ok q _ l (mkSlot (mkAddr (Ipv4Header.get_dest_addr iph) (UdpHeader.dest_port hdr)) (mkAddr (Ipv4Header.get_src_addr iph) (UdpHeader.src_port hdr)) dt) Hl Hb)
      as (q' & -> & Hl' & Hb'). cbn [mbind outcome_bind]. do 2 eexists. split; [done|]. split; [by eapply sock_inv_queue|]. split; [|split; [|done]].
    + split; [by rewrite Hp|]. rewrite Hp. intros hdr' data' [= <- <-]. cbv zeta. rewrite Ha. split; [done|]. intros j. rewrite mailbox_insert.
      case_decide; [|done]. rewrite (SharedQueue.h_messages _ _ _ Hl'). unfold mailbox. by rewrite Hq, (SharedQueue.h_messages _ _ _ Hl).
    + intros j. cbn. rewrite lookup_insert_is_Some'. auto.
  - do 2 eexists. split; [done|]. split_and!; try done. split; [by rewrite Hp|]. rewrite Hp. intros hdr' data' [= <- <-]. cbv zeta. rewrite Ha. split; [done|]. by eexists.
Qed.

(** What the poll of a pop future does: it takes the oldest message of its queue. *)
Definition popped (u : UdpPeer.t C) (f : UdpPopFuture) (r : option (SocketAddrV4 * Buffer.t)) (u' : UdpPeer.t C) : Prop :=
  r = option_map (fun s => (remote s, data s)) (head (mailbox u (recv_queue f))) /\
  forall j, mailbox u' j = if decide (j = recv_queue f) then tail (mailbox u j) else mailbox u j.

Lemma poll_pop_future_ok u f : sock_inv u -> is_Some (queues u !! recv_queue f) -> exists r u', poll_pop_future u f = Ret (r, u') /\ sock_inv u' /\ popped u f r u' /\
  (forall id, is_Some (queues u !! id) -> is_Some (queues u' !! id)) /\ send_queue u' = send_queue u /\ background_task u' = background_task u.
Proof.
  intros I [q Hq]. unfold poll_pop_future. rewrite Hq. destruct (s_holds _ I _ _ Hq) as [Hb [l Hl]].
  assert (Hgo : exists m q', SharedQueue.try_pop (T := Slot) q = Ret (m, q') /\ m = head l /\ SharedQueue.holds q' RECV_QUEUE_MAX_SIZE (tail l) /\ SharedQueue.rx_borrowed q' = false).
  { destruct l as [|x l]; [do 2 eexists; split; [by eapply SharedQueue.try_pop_empty|done]|].
    destruct (SharedQueue.try_pop_ok _ _ _ _ Hl Hb) as (q' & ? & ? & ?). by exists (Some x), q'. }
  destruct Hgo as (m & q' & -> & -> & Hl' & Hb'). cbn [mbind outcome_bind]. do 2 eexists. split; [done|]. split; [by eapply sock_inv_queue|]. split; [|split; [|done]].
  - split; [unfold mailbox; rewrite Hq, (SharedQueue.h_messages _ _ _ Hl); by destruct l|]. intros j. rewrite mailbox_insert. case_decide as E; [|done]. subst j.
    rewrite (SharedQueue.h_messages _ _ _ Hl'). unfold mailbox. by rewrite Hq, (SharedQueue.h_messages _ _ _ Hl).
  - intros j. cbn. rewrite lookup_insert_is_Some'. auto.
Qed.

(** What sending does: a datagram to a known address is sent at once, others wait, unless the
    queue is full while the background task waits on it. *)
Definition full_and_borrowed (u : UdpPeer.t C) : Prop :=
  length (messages (SharedQueue.ch (send_queue u))) = SEND_QUEUE_MAX_SIZE /\ SharedQueue.rx_borrowed (send_queue u) = true.

Record pushed_to (u : UdpPeer.t C) (a : ArpPeer.t) (hd : list (Ipv4Addr * MacAddress)) (qd : Z) (dt : Buffer.t) (rem : SocketAddrV4) (r : Result unit) (u' : UdpPeer.t C) (txs : list tx) : Prop := {
  p_bad : (forall loc, sockets u !! qd <> Some (Some loc)) -> u' = u /\ txs = [] /\ exists e, r = Err e /\ errno e = EBADF;
  p_known : forall loc m, sockets u !! qd = Some (Some loc) -> ArpPeer.try_query a (ip rem) = Some m -> ArpHost.good c hd (ip rem) m /\ r = Ok tt /\ u' = u /\
    txs = [TxUdp (do_send (local_ipv4_addr u) (local_link_addr u) m dt loc rem (checksum_offload u))];
  p_unknown : forall loc, sockets u !! qd = Some (Some loc) -> ArpPeer.try_query a (ip rem) = None -> r = Ok tt /\ txs = [] /\
    ((length (messages (SharedQueue.ch (send_queue u))) < SEND_QUEUE_MAX_SIZE)%nat -> waiting u' = waiting u ++ [mkSlot loc rem dt]);
}.

Lemma do_pushto_ok u a t hd qd dt rem : sock_inv u -> bg_inv u a t hd ->
  (exists r u' txs, do_pushto u a qd dt rem = Ret (r, u', txs) /\ sock_inv u' /\ bg_inv u' a t hd /\ pushed_to u a hd qd dt rem r u' txs /\ queues u' = queues u) \/
  (do_pushto u a qd dt rem = Panic "already borrowed: BorrowMutError" /\ full_and_borrowed u).
Proof.
  intros I B. unfold do_pushto. destruct (sockets u !! qd) as [[loc|]|] eqn:Hq; cycle 1.
  1,2: left; do 3 eexists; split; [done|]; split_and!; try done; split; try (by rewrite Hq); intros _; split_and!; try done; by eexists.
  destruct (ArpPeer.try_query a (ip rem)) as [m|] eqn:Ha.
  - left. do 3 eexists. split; [done|]. split_and!; try done. split; [intros Hx; by destruct (Hx loc)| |by rewrite Ha].
    rewrite Hq, Ha. intros loc' m' [= <-] [= <-]. split_and!; try done.
    destruct B as [_ B]. destruct (background_task u) as [|slot q]; [destruct B as [_ B]|destruct B as (_ & _ & B)]; exact (ArpHost.cache_get _ _ _ _ _ _ (ArpHost.i_cache _ _ _ _ _ _ _ B) Ha).
  - destruct B as [[l Hl] B]. pose proof (SharedQueue.h_messages _ _ _ Hl) as Hm. pose proof (SharedQueue.h_bound _ _ _ Hl) as Hbd.
    assert (Hdone : forall q' l', SharedQueue.push (send_queue u) (mkSlot loc rem dt) = Ret (Ok tt, q') -> SharedQueue.holds q' SEND_QUEUE_MAX_SIZE l' ->
      SharedQueue.rx_borrowed q' = SharedQueue.rx_borrowed (send_queue u) -> ((length l < SEND_QUEUE_MAX_SIZE)%nat -> l' = l ++ [mkSlot loc rem dt]) ->
      exists r u' txs, ('(r, q) ← SharedQueue.push (send_queue u) (mkSlot loc rem dt); Ret (r, set_send_queue q u, [])) = Ret (r, u', txs) /\
        sock_inv u' /\ bg_inv u' a t hd /\ pushed_to u a hd qd dt rem r u' txs /\ queues u' = queues u).
    { intros q' l' -> Hl' Hb' Hlt. cbn [mbind outcome_bind]. do 3 eexists. split; [done|]. split; [by apply (sock_inv_frame u)|]. split; [split; [by eexists|cbn; by rewrite Hb']|].
      split; [|done]. split; [intros Hx; by destruct (Hx loc)|by rewrite Ha|]. intros loc'. rewrite Hq. intros [= <-] _. split_and!; try done.
      intros Hlt'. unfold waiting. cbn. rewrite (SharedQueue.h_messages _ _ _ Hl'), Hm in *. rewrite Hlt by done. by rewrite app_assoc. }
    destruct (decide (length l < SEND_QUEUE_MAX_SIZE)%nat) as [Hlt|Hge].
    + left. destruct (SharedQueue.push_room _ _ _ (mkSlot loc rem dt) Hl Hlt) as (q' & H1 & H2 & H3). by eapply Hdone.
    + destruct (SharedQueue.rx_borrowed (send_queue u)) eqn:Hb.
      * right. rewrite (SharedQueue.push_blocked _ _ _ _ Hl); [|lia|done]. split; [done|]. split; [rewrite Hm; lia|done].
      * left. destruct (SharedQueue.queue_push_ok _ _ _ (mkSlot loc rem dt) Hl Hb) as (q' & H1 & H2 & H3). eapply Hdone; [done|done|congruence|done].
Qed.

(** *** Steps of the host *)

Lemma bg_inv_frame u u' a t hd : send_queue u' = send_queue u -> background_task u' = background_task u -> bg_inv u a t hd -> bg_inv u' a t hd.
Proof. intros H1 H2. unfold bg_inv. by rewrite H1, H2. Qed.

Lemma bg_inv_arp u a t hd a' t' hd' : bg_inv u a t hd -> (forall qs, arp_inv a t qs hd -> arp_inv a' t' qs hd') -> bg_inv u a' t' hd'.
Proof. intros [H1 H2] Ha. split; [done|]. destruct (background_task u); naive_solver. Qed.

Lemma bg_inv_query u a t hd : bg_inv u a t hd -> exists qs, arp_inv a t qs hd.
Proof. intros [_ B]. destruct (background_task u) as [|slot q]; [|destruct B as [_ B]]; by eexists; apply B. Qed.

Lemma do_pop_ok u qd : sock_inv u ->
  match sockets u !! qd with
  | Some (Some a) => exists id, bound u !! a = Some id /\ do_pop u qd = Ret (mkPop qd id)
  | _ => do_pop u qd = Panic "invalid queue descriptor"
  end.
Proof.
  intros I. unfold do_pop. destruct (sockets u !! qd) as [[a|]|] eqn:E; [|done|done].
  destruct (proj2 (s_bound _ I a)) as [id Hid]; [by exists qd|]. exists id. by rewrite Hid.
Qed.

(** The two ways an event can fail. *)
Inductive misuse (h : host) : event -> string -> Prop :=
| MisusePop id qd : (forall a, sockets (udp h) !! qd <> Some (Some a)) -> misuse h (Pop id qd) "invalid queue descriptor"
| MisuseFull qd dt rem : full_and_borrowed (udp h) -> misuse h (PushTo qd dt rem) "already borrowed: BorrowMutError".

(** The application does not bind a socket to the port of CORE_ID by its number. *)
Definition event_ok (e : event) : Prop := match e with Bind _ addr => core <> Some (port addr) | _ => True end.

Lemma udp_step_inv h e : host_inv h ->
  (exists h' txs, step h e = Ret (h', txs) /\ (event_ok e -> host_inv h')) \/ (exists msg, step h e = Panic msg /\ misuse h e msg).
Proof.
  intros [I B P]. destruct e as [qd|qd addr|qd|qd dt rem|id qd|id|iph buf|tf|buf| |d]; cbn [step].
  - left. do 2 eexists. split; [done|]. intros _. unfold do_socket. split; [by apply socket_sock_inv| |]; cbn; destruct (sockets (udp h) !! qd); done.
  - left. do 2 eexists. split; [done|]. intros Hok. destruct (do_bind_ok (udp h) qd addr I Hok) as [B1 (B2 & B3 & _) B4]. split; cbn; [done|by apply (bg_inv_frame (udp h))|].
    intros id f Hf. specialize (P id f Hf). destruct (do_bind (udp h) qd addr).1 as [v|e].
    + destruct B4 as (a & _ & _ & _ & _ & _ & _ & _ & ->). rewrite lookup_insert_is_Some'. by right.
    + by destruct B4 as (_ & _ & ->).
  - left. do 2 eexists. split; [done|]. intros _. unfold do_close. split; [by apply close_sock_inv| |]; cbn; destruct (sockets (udp h) !! qd) as [[a|]|]; try done; cbn; by destruct (bound (udp h) !! a).
  - destruct (do_pushto_ok (udp h) (arp h) (now h) (heard h) qd dt rem I B) as [(r & u' & txs & -> & I' & B' & _ & Hq)|[-> Hf]]; [left|right; by eexists; split; [|constructor]].
    do 2 eexists. split; [done|]. intros _. split; [done|done|]. cbn. by rewrite Hq.
  - pose proof (do_pop_ok (udp h) qd I) as Hp. destruct (sockets (udp h) !! qd) as [[a|]|] eqn:E; [destruct Hp as (q & Hq & ->); left| |].
    + do 2 eexists. split; [done|]. intros _. split; [done|done|]. cbn. intros id' f [[<- <-]|[Hne Hf]]%lookup_insert_Some; [by eapply (s_live _ I)|by eapply P].
    + right. rewrite Hp. eexists. split; [done|]. constructor. by rewrite E.
    + right. rewrite Hp. eexists. split; [done|]. constructor. by rewrite E.
  - left. destruct (pops h !! id) as [f|] eqn:Hf; [|do 2 eexists; split; [done|by intros _; split]].
    destruct (poll_pop_future_ok (udp h) f I (P _ _ Hf)) as (r & u' & -> & I' & _ & Hq & Hs & Hbt). do 2 eexists. split; [done|]. intros _.
    split; cbn; [done|by apply (bg_inv_frame (udp h))|]. intros id' f' Hf'. by eapply Hq, P.
  - left. destruct (do_receive_ok (udp h) iph buf I) as (r & u' & -> & I' & _ & Hq & Hs & Hbt). do 2 eexists. split; [done|]. intros _.
    split; cbn; [done|by apply (bg_inv_frame (udp h))|]. intros id' f' Hf'. by eapply Hq, P.
  - left. destruct B as [[l Hl] B]. destruct (background_inv (background_fuel (udp h)) (udp h) (arp h) (now h) tf (heard h) l) as (u' & a' & txs & -> & B' & T').
    + split; [by eexists|done].
    + done.
    + unfold background_fuel. rewrite (SharedQueue.h_len _ _ _ Hl). unfold blen. destruct (background_task (udp h)); lia.
    + do 2 eexists. split; [done|]. intros _. split; [by eapply bg_turn_same|done|]. cbn. destruct T' as [(_ & _ & _ & -> & _) _ _]. done.
  - left. assert (B1 : bg_inv (udp h) (arp h) (now h) (heard h ++ ArpHost.hears buf)).
    { eapply bg_inv_arp; [done|]. intros qs. apply ArpHost.inv_mono; [lia|]. intros x Hx. apply elem_of_app. by left. }
    assert (Hh : forall x, x ∈ ArpHost.hears buf -> x ∈ heard h ++ ArpHost.hears buf) by (intros x Hx; apply elem_of_app; by right).
    destruct (bg_inv_query _ _ _ _ B1) as [qs A]. destruct (ArpHost.receive_inv _ _ _ _ _ _ _ buf A Hh) as (r & a' & ms & Hr & _ & _).
    rewrite Hr. do 2 eexists. split; [done|]. intros _. split; cbn; [done| |done]. eapply bg_inv_arp; [done|]. intros qs' A'.
    destruct (ArpHost.receive_inv _ _ _ _ _ _ _ buf A' Hh) as (r' & a'' & ms' & Hr' & A'' & _). congruence.
  - left. destruct (bg_inv_query _ _ _ _ B) as [qs A]. unfold ArpPeer.background. destruct (ArpHost.cache_advance _ _ _ _ (ArpHost.i_cache _ _ _ _ _ _ _ A)) as (k & -> & K).
    do 2 eexists. split; [done|]. intros _. split; cbn; [done| |done]. eapply bg_inv_arp; [done|]. intros qs' A'. by apply ArpHost.inv_cache.
  - left. do 2 eexists. split; [done|]. intros _. split; cbn; [done| |done]. eapply bg_inv_arp; [done|]. intros qs. apply ArpHost.inv_mono; [lia|done].
Qed.

Lemma udp_run_inv es h h' : Forall event_ok es -> host_inv h -> run h es = Ret h' -> host_inv h'.
Proof.
  intros Hes. revert h. induction Hes as [|e es He Hes IH]; intros h Hi; cbn [run]; [by intros [= <-]|].
  destruct (udp_step_inv h e Hi) as [(h1 & txs & -> & H1)|(msg & -> & _)]; cbn [mbind outcome_bind]; [apply IH; auto|done].
Qed.

End host.

(** The values of CORE_ID that leave its port below the private ones. *)
Definition core_ok (core_id : option Z) : Prop := forall id, core_id = Some id -> 0 <= id /\ 9999 + id < FIRST_PRIVATE_PORT.
Definition core_port (core_id : option Z) : option Z := (fun id => wrap16 (9999 + id)) <$> core_id.

Section runs.
Context {C : Type} `{Mpsc Slot C} `{!MpscLaws Slot C} (c : ArpConfig) (mac : MacAddress) (ip0 : Ipv4Addr).

Lemma new_sock_inv shuffle core_id m a offload : (forall l, shuffle l ≡ₚ l) -> core_ok core_id ->
  sock_inv (core_port core_id) (UdpPeer.new shuffle core_id m a offload).
Proof.
  intros Hs Hc. split; cbn; try done.
  - intros b. split; [by intros [? ?]|by intros [? ?]].
  - by intros id [? ?].
  - split; [by apply (new_nodup shuffle core_id)|]. intros p Hp. split; [|done].
    assert (Hp' : p ∈ shuffle Ports.private_range \/ core_port core_id = Some p).
    { destruct core_id as [id|]; cbn in Hp; [|by left]. apply elem_of_app in Hp as [Hp| ->%list_elem_of_singleton]; [by left|by right]. }
    destruct Hp' as [Hp'|Hp']; [|by right]. left. rewrite Hs in Hp'. apply private_range_elem in Hp' as [Hp' _]. by apply Z.leb_le.
Qed.

Lemma udp_start_inv shuffle core_id t offload h : (forall l, shuffle l ≡ₚ l) -> core_ok core_id ->
  start shuffle core_id t mac ip0 c offload = Ret h -> host_inv c mac ip0 (core_port core_id) h.
Proof.
  intros Hs Hc. unfold start. destruct (ArpPeer.new t mac ip0 c) as [a| |] eqn:Ea; cbn [mbind outcome_bind]; [|done|done]. intros [= <-].
  destruct (ArpHost.arp_start_inv c mac ip0 t (ArpHost.mkHost a t ∅ [] (map_to_list (initial_values c)))) as [A _]; [unfold ArpHost.start; by rewrite Ea|].
  split; cbn [udp arp now pops heard]; [by apply new_sock_inv|split|done].
  - cbn. exists []. apply SharedQueue.queue_new_holds; unfold SEND_QUEUE_MAX_SIZE; lia.
  - done.
Qed.

(** C17: The UDP sockets of a host are sound, whether CORE_ID is set (so that its port is not a
    private one) or not, as long as the application binds no socket to the port of CORE_ID by its
    number.  In every state reached by any other calls of the application (socket, bind, close,
    pushto, pop), polls of its futures, datagrams and ARP messages with any content, turns of the background tasks and ticks of the clock: no two descriptors share an
    endpoint and no two endpoints share a queue, and no free port is in use; the next event returns,
    except that [pop] panics on a descriptor that is not bound and [pushto] when 1024 datagrams wait
    while the background task is not polled; a bind either gives a descriptor that was not bound a
    free endpoint with an empty queue or changes no socket; an arriving datagram is appended to the
    queue of exactly the endpoint it is addressed to, else of the wildcard, and one that is
    malformed or for a port that is not bound changes nothing; a pop takes the oldest message of its own queue and no other;
    a datagram to a known address is sent at once, others wait, and each turn of the background task
    sends in order, to addresses heard from the network, a first part of what waits and keeps the rest. *)
Theorem udp_sockets_are_sound (shuffle : list Z -> list Z) (core_id : option Z) (t : Z) (offload : bool) (es : list event) (h0 h : host (C := C)) :
  (forall l, shuffle l ≡ₚ l) -> core_ok core_id -> Forall (event_ok (core_port core_id)) es ->
  start shuffle core_id t mac ip0 c offload = Ret h0 -> run h0 es = Ret h ->
  (forall qd qd' a, sockets (udp h) !! qd = Some (Some a) -> sockets (udp h) !! qd' = Some (Some a) -> qd = qd') /\
  (forall a b id, bound (udp h) !! a = Some id -> bound (udp h) !! b = Some id -> a = b) /\
  (forall p a, p ∈ ephemeral_ports (udp h) -> port a = p -> bound (udp h) !! a = None) /\
  (forall e, (exists h' txs, step h e = Ret (h', txs)) \/ (exists msg, step h e = Panic msg /\ misuse h e msg)) /\
  (forall qd addr, core_port core_id <> Some (port addr) -> bind_result (core_port core_id) (udp h) qd addr (do_bind (udp h) qd addr).1 (do_bind (udp h) qd addr).2) /\
  (forall iph buf, exists r u', do_receive (udp h) iph buf = Ret (r, u') /\ received (udp h) iph buf r u') /\
  (forall id f, pops h !! id = Some f -> exists r u', poll_pop_future (udp h) f = Ret (r, u') /\ popped (udp h) f r u') /\
  (forall qd dt rem r u' txs, do_pushto (udp h) (arp h) qd dt rem = Ret (r, u', txs) -> pushed_to c (udp h) (arp h) (heard h) qd dt rem r u' txs) /\
  (forall tf, exists u' a' txs, background_sender (background_fuel (udp h)) (udp h) (arp h) (now h) tf = Ret (u', a', txs) /\ bg_turn c (udp h) u' (heard h) txs).
Proof.
  intros Hs Hc Hes H0 Hrun. pose proof (udp_run_inv _ _ _ _ _ _ _ Hes (udp_start_inv _ _ _ _ _ Hs Hc H0) Hrun) as Hi. pose proof Hi as [I B P]. split_and!.
  - apply I.
  - apply I.
  - intros p a Hp. by apply (proj2 (s_ports _ _ I)).
  - intros e. destruct (udp_step_inv _ _ _ _ h e Hi) as [(h' & txs & ? & _)|?]; [left; eauto|by right].
  - intros qd addr. by apply do_bind_ok.
  - intros iph buf. destruct (do_receive_ok _ (udp h) iph buf I) as (r & u' & ? & _ & ? & _). eauto.
  - intros id f Hf. destruct (poll_pop_future_ok _ (udp h) f I (P _ _ Hf)) as (r & u' & ? & _ & ? & _). eauto.
  - intros qd dt rem r u' txs Hp. destruct (do_pushto_ok c mac ip0 _ (udp h) (arp h) (now h) (heard h) qd dt rem I B) as [(r1 & u1 & txs1 & E & _ & _ & ? & _)|[E _]]; congruence.
  - intros tf. destruct B as [[l Hl] B]. destruct (background_inv c mac ip0 (background_fuel (udp h)) (udp h) (arp h) (now h) tf (heard h) l) as (u' & a' & txs & ? & _ & ?); [by split; [eexists|]|done| |eauto].
    unfold background_fuel. rewrite (SharedQueue.h_len _ _ _ Hl). unfold blen. destruct (background_task (udp h)); lia.
Qed.

End runs.

(** ** Examples *)

Abbreviation list_host := (host (C := ListChannel Slot)).

Definition keep_order (l : list Z) : list Z := l.

Definition demo_config : ArpConfig := ArpConfig_new None (Some 10) (Some 1%nat) (Some {[ArpHost.ip2 := ArpHost.mac2]}) None.

Definition demo_start : outcome list_host := start keep_order (Some 1) 0 ArpHost.mac1 ArpHost.ip1 demo_config true.

Definition host_of (o : outcome list_host) : list_host :=
  match o with
  | Ret h => h
  | _ => mkHost (UdpPeer.new keep_order None [] 0 false) (ArpPeer.mk [] 0 demo_config (ArpCache.mk (HashTtlCache.mk ∅ ∅ None 0) false) ∅ ∅ 0) 0 ∅ []
  end.

(** Datagrams of the second host to port 53 of the first. *)
Definition demo_header : Ipv4Header.t := Ipv4Header.new ArpHost.ip2 ArpHost.ip1 UDP.
Definition demo_datagram (x : Z) : Buffer.t := [0; 99; 0; 53; 0; 9; 0; 0; x].

Definition demo_events : list event :=
  [Socket 7; Bind 7 (mkAddr 0 53); Receive demo_header (demo_datagram 1); Pop 0 7; Receive demo_header (demo_datagram 2)].

Definition demo_end : list_host := host_of (h ← demo_start; run h demo_events).

Lemma udp_sockets_are_sound_witness :
  (forall l, keep_order l ≡ₚ l) /\ demo_start = Ret (host_of demo_start) /\ run (host_of demo_start) demo_events = Ret demo_end /\
  exists u', poll_pop_future (udp demo_end) (mkPop 7 0) = Ret (Some (mkAddr ArpHost.ip2 99, [1]), u') /\ mailbox u' 0 = [mkSlot (mkAddr ArpHost.ip1 53) (mkAddr ArpHost.ip2 99) [2]].
Proof.
  assert (Hs : forall l, keep_order l ≡ₚ l) by reflexivity.
  assert (H0 : demo_start = Ret (host_of demo_start)) by reflexivity.
  assert (H1 : run (host_of demo_start) demo_events = Ret demo_end) by reflexivity.
  split; [exact Hs|]. split; [exact H0|]. split; [exact H1|].
  assert (Hc : core_ok (Some 1)) by (intros id [= <-]; unfold FIRST_PRIVATE_PORT; lia).
  assert (He : Forall (event_ok (core_port (Some 1))) demo_events) by (repeat constructor; by vm_compute).
  destruct (udp_sockets_are_sound demo_config ArpHost.mac1 ArpHost.ip1 keep_order (Some 1) 0 true demo_events _ _ Hs Hc He H0 H1) as (_ & _ & _ & _ & _ & _ & Hp & _).
  destruct (Hp 0 (mkPop 7 0)) as (r & u' & -> & -> & Hm); [vm_compute; reflexivity|].
  exists u'. split; [vm_compute; reflexivity|]. rewrite Hm. vm_compute. reflexivity.
Defined.

(** A peer with one socket that is not bound, one free ephemeral port and the given send queue. *)
Definition small_peer (l : list Slot) (borrowed : bool) : UdpPeer.t (ListChannel Slot) :=
  UdpPeer.mk [50000] {[7 := None]} ∅ ∅ 0 (SharedQueue.mk (mkListChannel l SEND_QUEUE_MAX_SIZE) (blen l) 1024 borrowed) [] 0 false (Popping borrowed).

(** A socket that is not bound is removed by a close that fails. *)
Example close_unbound_removes :
  (do_close (small_peer [] false) 7).1 = Err (mkFail EBADF "invalid queue descriptor") /\ sockets (do_close (small_peer [] false) 7).2 !! 7 = None.
Proof. by vm_compute. Qed.

(** With CORE_ID = 1, port 10000 is in the pool of free ports (here after a single private one)
    although it is not private, so that a bind to it by its number does not take it out: a later bind to any port is given it again, fails
    and leaves both descriptors with the same endpoint and the first without its queue. *)
Example core_port_is_shared :
  let u := set_ports [50000; 10000] (do_socket (small_peer [] false) 8).2 in
  let u1 := (do_bind u 7 (mkAddr 0 10000)).2 in
  let '(r, u2) := do_bind u1 8 (mkAddr 0 0) in
  (do_bind u 7 (mkAddr 0 10000)).1 = Ok tt /\ r = Err (mkFail EADDRINUSE "address in use") /\
  sockets u2 !! 7 = Some (Some (mkAddr 0 10000)) /\ sockets u2 !! 8 = Some (Some (mkAddr 0 10000)) /\
  bound u1 !! mkAddr 0 10000 = Some 0 /\ bound u2 !! mkAddr 0 10000 = Some 1.
Proof. by vm_compute. Qed.

(** A closed socket does not give its ephemeral port back. *)
Example close_leaks_port :
  let u := (do_bind (small_peer [] false) 7 (mkAddr 0 50000)).2 in
  (do_bind (small_peer [] false) 7 (mkAddr 0 50000)).1 = Ok tt /\ (do_close u 7).1 = Ok tt /\
  (do_bind (do_socket (do_close u 7).2 7).2 7 (mkAddr 0 50000)).1 = Err (mkFail ENOENT "port number not found").
Proof. by vm_compute. Qed.

(** The pop of a descriptor that is not bound panics, it does not fail. *)
Example pop_unbound_panics : do_pop (small_peer [] false) 7 = Panic "invalid queue descriptor".
Proof. by vm_compute. Qed.

Definition unknown_peer : SocketAddrV4 := mkAddr (Ipv4Addr_new 10 0 0 9) 1.

(** 1024 datagrams wait for the background task, which waits in [pop]: the next one panics. *)
Example full_send_queue_panics :
  let u := (do_bind (small_peer (replicate 1024 (mkSlot unknown_peer unknown_peer [])) true) 7 (mkAddr 0 53)).2 in
  do_pushto u (arp (host_of demo_start)) 7 [1] unknown_peer = Panic "already borrowed: BorrowMutError".
Proof. by vm_compute. Qed.

End UdpHost.
