(* ===== verification/TcpSegment.v ===== *)
(** * TCP segments (src/src/rust/inetstack/protocols/tcp/segment.rs)

    The TCP header with its options: the parser over a byte cursor with each of its
    rejections, the serializer as writes into a slice of [compute_size] bytes, the checksum
    over the pseudo header, and the segment that the transmit path hands to the runtime. *)

From S2P Require Import Prelude Buffer SeqNumber Net.

Definition MIN_TCP_HEADER_SIZE : nat := 20.
Definition MAX_TCP_HEADER_SIZE : nat := 60.
Definition MAX_TCP_OPTIONS : nat := 5.

Record SelectiveAcknowlegement := mkSack { sack_begin : Seq.SeqNumber; sack_end : Seq.SeqNumber }.

Inductive TcpOptions2 :=
| NoOperation
| MaximumSegmentSize (mss : Z)
| WindowScale (scale : Z)
| SelectiveAcknowlegementPermitted
| SelectiveAcknowlegementOpt (num_sacks : nat) (sacks : list SelectiveAcknowlegement)
| Timestamp (sender_timestamp echo_timestamp : Z).

Module TcpOption.

Definition compute_size (self : TcpOptions2) : nat :=
  match self with
  | NoOperation => 1
  | MaximumSegmentSize _ => 4
  | WindowScale _ => 3
  | SelectiveAcknowlegementPermitted => 2
  | SelectiveAcknowlegementOpt num_sacks _ => 2 + 8 * num_sacks
  | Timestamp _ _ => 10
  end.

(** The loop over [sacks[0..num_sacks]], writing at byte [2 + 8 * i]. *)
Fixpoint write_sacks (buf : list Z) (i n : nat) (sacks : list SelectiveAcknowlegement) :
  outcome (list Z) :=
  match n with
  | O => Ret buf
  | S k =>
      match sacks !! i with
      | None => Panic "index out of bounds"
      | Some s =>
          buf ← write_at buf (2 + 8 * i) (be32 (sack_begin s));
          buf ← write_at buf (2 + 8 * i + 4) (be32 (sack_end s));
          write_sacks buf (S i) k sacks
      end
  end.

(** Writes the option at the start of [buf]; returns the slice and the bytes written. *)
Definition serialize (self : TcpOptions2) (buf : list Z) : outcome (list Z * nat) :=
  match self with
  | NoOperation =>
      buf ← write_at buf 0 [1];
      Ret (buf, 1%nat)
  | MaximumSegmentSize mss =>
      buf ← write_at buf 0 [2];
      buf ← write_at buf 1 [4];
      buf ← write_at buf 2 (be16 mss);
      Ret (buf, 4%nat)
  | WindowScale scale =>
      buf ← write_at buf 0 [3];
      buf ← write_at buf 1 [3];
      buf ← write_at buf 2 [scale];
      Ret (buf, 3%nat)
  | SelectiveAcknowlegementPermitted =>
      buf ← write_at buf 0 [4];
      buf ← write_at buf 1 [2];
      Ret (buf, 2%nat)
  | SelectiveAcknowlegementOpt num_sacks sacks =>
      buf ← write_at buf 0 [5];
      buf ← write_at buf 1 [wrap8 (2 + wrap8 (8 * wrap8 (Z.of_nat num_sacks)))];
      buf ← write_sacks buf 0 num_sacks sacks;
      Ret (buf, (2 + 8 * num_sacks)%nat)
  | Timestamp sender_timestamp echo_timestamp =>
      buf ← write_at buf 0 [8];
      buf ← write_at buf 1 [10];
      buf ← write_at buf 2 (be32 sender_timestamp);
      buf ← write_at buf 6 (be32 echo_timestamp);
      Ret (buf, 10%nat)
  end.

End TcpOption.

Module TcpHeader.

Record t := mk {
  src_port : Z; dst_port : Z;
  seq_num : Seq.SeqNumber; ack_num : Seq.SeqNumber;
  ns : bool; cwr : bool; ece : bool; urg : bool; ack : bool; psh : bool; rst : bool;
  syn : bool; fin : bool;
  window_size : Z; urgent_pointer : Z;
  num_options : nat; option_list : list TcpOptions2
}.

Definition new (src_port dst_port : Z) : t :=
  mk src_port dst_port 0 0 false false false false false false false false false 0 0 0
     (replicate MAX_TCP_OPTIONS NoOperation).

(** Field updates used on headers under construction and by [ControlBlock::receive]. *)
Definition set_seq_num (h : t) (v : Seq.SeqNumber) : t :=
  mk (src_port h) (dst_port h) v (ack_num h) (ns h) (cwr h) (ece h) (urg h) (ack h) (psh h)
     (rst h) (syn h) (fin h) (window_size h) (urgent_pointer h) (num_options h) (option_list h).
Definition set_ack (h : t) (v : Seq.SeqNumber) : t :=
  mk (src_port h) (dst_port h) (seq_num h) v (ns h) (cwr h) (ece h) (urg h) true (psh h)
     (rst h) (syn h) (fin h) (window_size h) (urgent_pointer h) (num_options h) (option_list h).
Definition set_window_size (h : t) (v : Z) : t :=
  mk (src_port h) (dst_port h) (seq_num h) (ack_num h) (ns h) (cwr h) (ece h) (urg h) (ack h)
     (psh h) (rst h) (syn h) (fin h) v (urgent_pointer h) (num_options h) (option_list h).
Definition set_psh (h : t) (v : bool) : t :=
  mk (src_port h) (dst_port h) (seq_num h) (ack_num h) (ns h) (cwr h) (ece h) (urg h) (ack h)
     v (rst h) (syn h) (fin h) (window_size h) (urgent_pointer h) (num_options h) (option_list h).
Definition set_rst (h : t) (v : bool) : t :=
  mk (src_port h) (dst_port h) (seq_num h) (ack_num h) (ns h) (cwr h) (ece h) (urg h) (ack h)
     (psh h) v (syn h) (fin h) (window_size h) (urgent_pointer h) (num_options h) (option_list h).
Definition set_syn (h : t) (v : bool) : t :=
  mk (src_port h) (dst_port h) (seq_num h) (ack_num h) (ns h) (cwr h) (ece h) (urg h) (ack h)
     (psh h) (rst h) v (fin h) (window_size h) (urgent_pointer h) (num_options h) (option_list h).
Definition set_fin (h : t) (v : bool) : t :=
  mk (src_port h) (dst_port h) (seq_num h) (ack_num h) (ns h) (cwr h) (ece h) (urg h) (ack h)
     (psh h) (rst h) (syn h) v (window_size h) (urgent_pointer h) (num_options h) (option_list h).

(** [self.option_list[self.num_options] = option; self.num_options += 1]: the list is an
    array of five. *)
Definition push_option (h : t) (option : TcpOptions2) : outcome t :=
  if Nat.ltb (num_options h) (length (option_list h)) then
    Ret (mk (src_port h) (dst_port h) (seq_num h) (ack_num h) (ns h) (cwr h) (ece h) (urg h)
            (ack h) (psh h) (rst h) (syn h) (fin h) (window_size h) (urgent_pointer h)
            (S (num_options h)) (<[num_options h := option]> (option_list h)))
  else Panic "index out of bounds".

(** The options in use, [(0..num_options).map(|i| &option_list[i])]. *)
Definition iter_options (self : t) : outcome (list TcpOptions2) :=
  if Nat.leb (num_options self) (length (option_list self))
  then Ret (take (num_options self) (option_list self))
  else Panic "index out of bounds".

Definition sum_sizes (opts : list TcpOptions2) : nat :=
  fold_right (fun o acc => (TcpOption.compute_size o + acc)%nat) 0%nat opts.

(** [size.wrapping_add(3) & !0x3] *)
Definition round4 (size : nat) : nat := Z.to_nat (Z.land (Z.of_nat size + 3) (Z.lnot 3)).

Definition compute_size (self : t) : outcome nat :=
  opts ← iter_options self;
  let size := (MIN_TCP_HEADER_SIZE + sum_sizes opts)%nat in
  let size := if Nat.ltb 0 (num_options self) then (size + 1)%nat else size in
  Ret (round4 size).

Definition flag (b : bool) (k : Z) : Z := if b then Z.shiftl 1 k else 0.

(** Octet 13 is assembled by successive [|= 1 << k]. *)
Definition flags_byte (h : t) : Z :=
  Z.lor (flag (cwr h) 7) (Z.lor (flag (ece h) 6) (Z.lor (flag (urg h) 5) (Z.lor (flag (ack h) 4)
    (Z.lor (flag (psh h) 3) (Z.lor (flag (rst h) 2) (Z.lor (flag (syn h) 1) (flag (fin h) 0))))))).

(** [tcp_checksum]: pseudo header, the fixed header without its checksum word, the options, the
    data. *)
Definition tcp_checksum (ipv4_header : Ipv4Header.t) (header data : list Z) : outcome Z :=
  let state := add_chunks 0xffff (octets (Ipv4Header.get_src_addr ipv4_header)) in
  let state := add_chunks state (octets (Ipv4Header.get_dest_addr ipv4_header)) in
  let state := wrap32 (state + get16 [0; IpProtocol_to_u8 TCP]) in
  let state := wrap32 (state + wrap32 (blen header + blen data)) in
  fixed_header ← slice header 0 MIN_TCP_HEADER_SIZE;
  before ← slice fixed_header 0 16;
  let state := add_chunks state before in
  urgent ← slice fixed_header 18 20;
  let state := add_chunks state urgent in
  if (Nat.ltb MIN_TCP_HEADER_SIZE (length header) && negb (Nat.eqb (length header mod 2) 0))%bool
  then Panic "assertion failed" else
  let state := add_chunks state (drop MIN_TCP_HEADER_SIZE header) in
  let state := add_chunks state data in
  state ← fold_ffff state;
  Ret (not_u16 state).

(** The option loop of [serialize]: each option writes at the start of [buf[cur_pos..]]. *)
Fixpoint serialize_options (opts : list TcpOptions2) (buf : list Z) (cur_pos : nat) :
  outcome (list Z * nat) :=
  match opts with
  | [] => Ret (buf, cur_pos)
  | o :: opts =>
      tail ← slice_from buf cur_pos;
      '(tail, bytes_written) ← TcpOption.serialize o tail;
      serialize_options opts (take cur_pos buf ++ tail) (cur_pos + bytes_written)
  end.

Definition serialize (self : t) (buf : list Z) (ipv4_hdr : Ipv4Header.t) (data : list Z)
  (tx_checksum_offload : bool) : outcome (list Z) :=
  _ ← slice buf 0 MIN_TCP_HEADER_SIZE;
  buf ← write_at buf 0 (be16 (src_port self));
  buf ← write_at buf 2 (be16 (dst_port self));
  buf ← write_at buf 4 (be32 (seq_num self));
  buf ← write_at buf 8 (be32 (ack_num self));
  size ← compute_size self;
  buf ← write_at buf 12
          [Z.lor (wrap8 (Z.shiftl (wrap8 (Z.of_nat size / 4)) 4)) (flag (ns self) 0)];
  buf ← write_at buf 13 [flags_byte self];
  buf ← write_at buf 14 (be16 (window_size self));
  buf ← write_at buf 18 (be16 (urgent_pointer self));
  opts ← iter_options self;
  '(buf, cur_pos) ← serialize_options opts buf MIN_TCP_HEADER_SIZE;
  '(buf, cur_pos) ←
    (if Nat.ltb 0 (num_options self)
     then buf ← write_at buf cur_pos [0]; Ret (buf, S cur_pos)
     else Ret (buf, cur_pos));
  _ ← slice_from buf cur_pos;
  let buf := take cur_pos buf ++ replicate (length buf - cur_pos) 0 in
  checksum ← (if tx_checksum_offload then Ret 0 else tcp_checksum ipv4_hdr buf data);
  write_at buf 16 (be16 checksum).

(** Reads from the option cursor ([Cursor] over the option bytes): the unread bytes are
    threaded; reading past the end is an [io::Error], which becomes [Fail]. *)
Definition read_u8 (rdr : list Z) : outcome (Result (Z * list Z)) :=
  match rdr with
  | b :: rdr => Ret (Ok (b, rdr))
  | [] => fail EIO "I/O error"
  end.
Definition rdr_u16 (rdr : list Z) : outcome (Result (Z * list Z)) :=
  if Nat.leb 2 (length rdr) then Ret (Ok (get16 rdr, drop 2 rdr)) else fail EIO "I/O error".
Definition rdr_u32 (rdr : list Z) : outcome (Result (Z * list Z)) :=
  if Nat.leb 4 (length rdr) then Ret (Ok (get32 rdr, drop 4 rdr)) else fail EIO "I/O error".

(** [for s in sacks.iter_mut().take(num_sacks)] on an array of four zero blocks. *)
Fixpoint read_sacks (n : nat) (rdr : list Z) : outcome (Result (list SelectiveAcknowlegement * list Z)) :=
  match n with
  | O => Ret (Ok ([], rdr))
  | S k =>
      '(b, rdr) ←? rdr_u32 rdr;
      '(e, rdr) ←? rdr_u32 rdr;
      '(l, rdr) ←? read_sacks k rdr;
      Ret (Ok (mkSack b e :: l, rdr))
  end.

Definition num_sacks_of (option_length : Z) : option nat :=
  if option_length =? 10 then Some 1%nat
  else if option_length =? 18 then Some 2%nat
  else if option_length =? 26 then Some 3%nat
  else if option_length =? 34 then Some 4%nat
  else None.

(** The option after its kind byte. *)
Definition parse_option (option_kind : Z) (rdr : list Z) : outcome (Result (TcpOptions2 * list Z)) :=
  if option_kind =? 2 then
    '(option_length, rdr) ←? read_u8 rdr;
    if negb (option_length =? 4) then fail EBADMSG "MSS size was not 4" else
    '(mss, rdr) ←? rdr_u16 rdr;
    Ret (Ok (MaximumSegmentSize mss, rdr))
  else if option_kind =? 3 then
    '(option_length, rdr) ←? read_u8 rdr;
    if negb (option_length =? 3) then fail EBADMSG "window scale size was not 3" else
    '(window_scale, rdr) ←? read_u8 rdr;
    Ret (Ok (WindowScale window_scale, rdr))
  else if option_kind =? 4 then
    '(option_length, rdr) ←? read_u8 rdr;
    if negb (option_length =? 2) then fail EBADMSG "SACK permitted size was not 2" else
    Ret (Ok (SelectiveAcknowlegementPermitted, rdr))
  else if option_kind =? 5 then
    '(option_length, rdr) ←? read_u8 rdr;
    match num_sacks_of option_length with
    | None => fail EBADMSG "invalid SACK size"
    | Some num_sacks =>
        '(l, rdr) ←? read_sacks num_sacks rdr;
        Ret (Ok (SelectiveAcknowlegementOpt num_sacks (l ++ replicate (4 - num_sacks) (mkSack 0 0)), rdr))
    end
  else if option_kind =? 8 then
    '(option_length, rdr) ←? read_u8 rdr;
    if negb (option_length =? 10) then fail EBADMSG "TCP timestamp size was not 10" else
    '(sender_timestamp, rdr) ←? rdr_u32 rdr;
    '(echo_timestamp, rdr) ←? rdr_u32 rdr;
    Ret (Ok (Timestamp sender_timestamp echo_timestamp, rdr))
  else fail EBADMSG "invalid TCP option".

(** The option loop; it runs while unread bytes remain, and each turn reads at least the kind
    byte, so [S (length rdr)] turns suffice. *)
Fixpoint parse_options (fuel : nat) (rdr : list Z) (num_options : nat) (option_list : list TcpOptions2) :
  outcome (Result (nat * list TcpOptions2)) :=
  match fuel with
  | O => Diverge
  | S k =>
      match rdr with
      | [] => Ret (Ok (num_options, option_list))
      | option_kind :: rdr =>
          if option_kind =? 0 then Ret (Ok (num_options, option_list))
          else if option_kind =? 1 then parse_options k rdr num_options option_list
          else
            '(o, rdr) ←? parse_option option_kind rdr;
            if Nat.leb (length option_list) num_options
            then fail EBADMSG "too many TCP options provided"
            else parse_options k rdr (S num_options) (<[num_options := o]> option_list)
      end
  end.

Definition parse (ipv4_header : Ipv4Header.t) (buf : list Z) (rx_checksum_offload : bool) :
  outcome (Result (t * list Z)) :=
  if Nat.ltb (length buf) MIN_TCP_HEADER_SIZE then fail EBADMSG "TCP segment too small" else
  b12 ← index buf 12;
  let data_offset := (Z.to_nat (Z.shiftr b12 4) * 4)%nat in
  if Nat.ltb (length buf) data_offset then fail EBADMSG "TCP segment smaller than data offset" else
  if Nat.ltb data_offset MIN_TCP_HEADER_SIZE then fail EBADMSG "TCP data offset too small" else
  if Nat.ltb MAX_TCP_HEADER_SIZE data_offset then fail EBADMSG "TCP data offset too large" else
  let hdr_buf := take data_offset buf in
  let data_buf := drop data_offset buf in
  src_port ← read_u16 hdr_buf 0;
  dst_port ← read_u16 hdr_buf 2;
  seq_num ← read_u32 hdr_buf 4;
  ack_num ← read_u32 hdr_buf 8;
  h12 ← index hdr_buf 12;
  h13 ← index hdr_buf 13;
  window_size ← read_u16 hdr_buf 14;
  _ ←? (if rx_checksum_offload then Ret (Ok tt) else
         checksum ← read_u16 hdr_buf 16;
         expected ← tcp_checksum ipv4_header hdr_buf data_buf;
         if negb (checksum =? expected) then fail EBADMSG "TCP checksum mismatch" else Ret (Ok tt));
  urgent_pointer ← read_u16 hdr_buf 18;
  '(num_options, option_list) ←?
    (if Nat.ltb MIN_TCP_HEADER_SIZE data_offset then
       rdr ← slice hdr_buf MIN_TCP_HEADER_SIZE data_offset;
       parse_options (S (length rdr)) rdr 0 (replicate MAX_TCP_OPTIONS NoOperation)
     else Ret (Ok (0%nat, replicate MAX_TCP_OPTIONS NoOperation)));
  buf ← Buffer.adjust buf (Z.of_nat data_offset);
  Ret (Ok (mk src_port dst_port seq_num ack_num
             (bit_set h12 0) (bit_set h13 7) (bit_set h13 6) (bit_set h13 5) (bit_set h13 4)
             (bit_set h13 3) (bit_set h13 2) (bit_set h13 1) (bit_set h13 0)
             window_size urgent_pointer num_options option_list, buf)).

End TcpHeader.

(** A segment handed to [NetworkRuntime::transmit]. *)
Record TcpSegment := mkTcpSegment {
  ethernet2_hdr : Ethernet2Header.t;
  ipv4_hdr : Ipv4Header.t;
  tcp_hdr : TcpHeader.t;
  data : option Buffer.t;
  tx_checksum_offload : bool
}.

Definition body_size (self : TcpSegment) : Z :=
  match data self with Some buf => blen buf | None => 0 end.

Definition header_size (self : TcpSegment) : outcome nat :=
  n ← TcpHeader.compute_size (tcp_hdr self);
  Ret (Ethernet2Header.compute_size (ethernet2_hdr self) + Ipv4Header.compute_size (ipv4_hdr self) + n)%nat.

(** Writes the three headers one after the other into [buf]. *)
Definition write_header (self : TcpSegment) (buf : list Z) : outcome (list Z) :=
  let eth_hdr_size := Ethernet2Header.compute_size (ethernet2_hdr self) in
  let ipv4_hdr_size := Ipv4Header.compute_size (ipv4_hdr self) in
  tcp_hdr_size ← TcpHeader.compute_size (tcp_hdr self);
  s ← slice buf 0 eth_hdr_size;
  s ← Ethernet2Header.serialize (ethernet2_hdr self) s;
  buf ← write_at buf 0 s;
  let cur_pos := eth_hdr_size in
  let ipv4_payload_len := Z.of_nat tcp_hdr_size + body_size self in
  s ← slice buf cur_pos (cur_pos + ipv4_hdr_size);
  s ← Ipv4Header.serialize (ipv4_hdr self) s ipv4_payload_len;
  buf ← write_at buf cur_pos s;
  let cur_pos := (cur_pos + ipv4_hdr_size)%nat in
  let payload := default [] (data self) in
  s ← slice buf cur_pos (cur_pos + tcp_hdr_size);
  s ← TcpHeader.serialize (tcp_hdr self) s (ipv4_hdr self) payload (tx_checksum_offload self);
  write_at buf cur_pos s.

(** ** Lemmas *)

(** The bytes an option occupies on the wire. *)
Definition sack_bytes (s : SelectiveAcknowlegement) : list Z := be32 (sack_begin s) ++ be32 (sack_end s).

Definition opt_bytes (o : TcpOptions2) : list Z :=
  match o with
  | NoOperation => [1]
  | MaximumSegmentSize mss => [2; 4] ++ be16 mss
  | WindowScale scale => [3; 3; scale]
  | SelectiveAcknowlegementPermitted => [4; 2]
  | SelectiveAcknowlegementOpt n sacks =>
      [5; wrap8 (2 + wrap8 (8 * wrap8 (Z.of_nat n)))] ++ concat (map sack_bytes (take n sacks))
  | Timestamp s e => [8; 10] ++ be32 s ++ be32 e
  end.

(** The options a header can carry and get back: not a no-op (which the parser drops), values
    in their width, one to four SACK blocks in an array of four with unused blocks zero. *)
Definition opt_wf (o : TcpOptions2) : Prop :=
  match o with
  | NoOperation => False
  | MaximumSegmentSize mss => u16_ok mss
  | WindowScale scale => u8_ok scale
  | SelectiveAcknowlegementPermitted => True
  | SelectiveAcknowlegementOpt n sacks =>
      (1 <= n <= 4)%nat /\ exists l, length l = n /\
        Forall (fun s => u32_ok (sack_begin s) /\ u32_ok (sack_end s)) l /\
        sacks = l ++ replicate (4 - n) (mkSack 0 0)
  | Timestamp s e => u32_ok s /\ u32_ok e
  end.

Record tcp_wf (h : TcpHeader.t) (opts : list TcpOptions2) : Prop := {
  tcp_src : u16_ok (TcpHeader.src_port h);
  tcp_dst : u16_ok (TcpHeader.dst_port h);
  tcp_seq : u32_ok (TcpHeader.seq_num h);
  tcp_ack : u32_ok (TcpHeader.ack_num h);
  tcp_win : u16_ok (TcpHeader.window_size h);
  tcp_urg : u16_ok (TcpHeader.urgent_pointer h);
  tcp_num : TcpHeader.num_options h = length opts;
  tcp_max : (length opts <= MAX_TCP_OPTIONS)%nat;
  tcp_opts : TcpHeader.option_list h = opts ++ replicate (MAX_TCP_OPTIONS - length opts) NoOperation;
  tcp_opts_wf : Forall opt_wf opts;
  tcp_fits : (TcpHeader.sum_sizes opts <= 39)%nat
}.

Lemma sacks_length n sacks :
  (n <= length sacks)%nat -> length (concat (map sack_bytes (take n sacks))) = (8 * n)%nat.
Proof.
  revert sacks. induction n as [|n IH]; intros sacks Hn; [done|].
  destruct sacks as [|s sacks]; [simpl in Hn; lia|]. cbn [take map concat].
  rewrite length_app, IH by (simpl in Hn; lia). unfold sack_bytes. simpl. lia.
Qed.

Lemma opt_bytes_length o : opt_wf o -> length (opt_bytes o) = TcpOption.compute_size o.
Proof.
  destruct o; simpl; try done. intros (Hn & l & Hl & _ & ->).
  rewrite sacks_length by (rewrite length_app; lia). lia.
Qed.

Lemma write_sacks_spec n i sacks hd old rest :
  length hd = (2 + 8 * i)%nat -> length old = (8 * n)%nat -> (i + n <= length sacks)%nat ->
  TcpOption.write_sacks (hd ++ old ++ rest) i n sacks =
    Ret (hd ++ concat (map sack_bytes (take n (drop i sacks))) ++ rest).
Proof.
  revert i hd old. induction n as [|n IH]; intros i hd old Hhd Hold Hs.
  - destruct old; [done|simpl in Hold; lia].
  - cbn [TcpOption.write_sacks].
    destruct (lookup_lt_is_Some_2 sacks i) as [s Hsi]; [lia|]. rewrite Hsi.
    destruct old as [|a0 [|a1 [|a2 [|a3 [|a4 [|a5 [|a6 [|a7 old]]]]]]]]; simpl in Hold; try lia.
    change (_ :: _ :: _ :: _ :: _ :: _ :: _ :: _ :: old)
      with ([a0; a1; a2; a3] ++ [a4; a5; a6; a7] ++ old).
    rewrite <- app_assoc, write_at_mid by (done || lia). cbn [mbind outcome_bind].
    rewrite (app_assoc hd), <- (app_assoc [a4; _; _; _]), write_at_mid
      by (done || (rewrite length_app; simpl; lia)).
    cbn [mbind outcome_bind]. rewrite (app_assoc (hd ++ _)), IH
      by (rewrite ?length_app; simpl; lia).
    rewrite (drop_S _ s i) by done. cbn [take map concat]. unfold sack_bytes.
    by rewrite <- !app_assoc.
Qed.

Lemma opt_serialize_spec o pre rest :
  opt_wf o -> length pre = TcpOption.compute_size o ->
  TcpOption.serialize o (pre ++ rest) = Ret (opt_bytes o ++ rest, TcpOption.compute_size o).
Proof.
  intros Hwf Hl. destruct o as [|m|s| |n sacks|s e]; [done|explode pre Hl; reflexivity..| |].
  - destruct Hwf as (Hn & l & Hll & _ & ->). cbn [TcpOption.compute_size] in *.
    destruct pre as [|p0 [|p1 pre]]; simpl in Hl; try lia.
    unfold TcpOption.serialize. rewrite (write_at_mid [] [p0] ((p1 :: pre) ++ rest)) by done.
    cbn [mbind outcome_bind app]. rewrite (write_at_mid [5] [p1] (pre ++ rest)) by done.
    cbn [mbind outcome_bind].
    rewrite (app_assoc [5]), (write_sacks_spec n 0 _ ([5] ++ [_]) pre rest)
      by (rewrite ?length_app; simpl; lia).
    done.
  - explode pre Hl. reflexivity.
Qed.

Lemma serialize_options_spec opts hd old rest :
  Forall opt_wf opts -> length old = TcpHeader.sum_sizes opts ->
  TcpHeader.serialize_options opts (hd ++ old ++ rest) (length hd) =
    Ret (hd ++ concat (map opt_bytes opts) ++ rest, (length hd + TcpHeader.sum_sizes opts)%nat).
Proof.
  intros Hwf. revert hd old. induction Hwf as [|o opts Ho Hwf IH]; intros hd old Hl.
  - simpl in Hl. destruct old; [|done]. simpl. by rewrite Nat.add_0_r.
  - cbn [TcpHeader.serialize_options TcpHeader.sum_sizes fold_right] in *.
    unfold slice_from. rewrite (proj2 (Nat.leb_le _ _)) by (rewrite length_app; lia).
    cbn [mbind outcome_bind]. rewrite drop_app_length, take_app_length.
    rewrite <- (take_drop (TcpOption.compute_size o) old), <- app_assoc.
    rewrite opt_serialize_spec by (done || (rewrite length_take; lia)).
    cbn [mbind outcome_bind].
    rewrite (app_assoc hd), <- (opt_bytes_length o), <- length_app by done.
    rewrite IH by (rewrite length_drop, (opt_bytes_length o) by done; unfold TcpHeader.sum_sizes; lia).
    cbn [map concat]. rewrite <- !app_assoc, length_app. do 2 f_equal. unfold TcpHeader.sum_sizes. lia.
Qed.

Lemma rdr_u32_app z rest : u32_ok z -> TcpHeader.rdr_u32 (be32 z ++ rest) = Ret (Ok (z, rest)).
Proof.
  intros Hz. unfold TcpHeader.rdr_u32, be32. cbn [app length Nat.leb drop get32].
  by rewrite be32_get32'.
Qed.

Lemma read_sacks_app l rest :
  Forall (fun s => u32_ok (sack_begin s) /\ u32_ok (sack_end s)) l ->
  TcpHeader.read_sacks (length l) (concat (map sack_bytes l) ++ rest) = Ret (Ok (l, rest)).
Proof.
  induction 1 as [|s l [Hb He] Hl IH]; [done|].
  cbn [length TcpHeader.read_sacks map concat]. unfold sack_bytes. rewrite <- !app_assoc.
  rewrite rdr_u32_app by done. cbn [try_bind mbind outcome_bind].
  rewrite rdr_u32_app by done. cbn [try_bind mbind outcome_bind].
  fold sack_bytes. rewrite IH. by destruct s.
Qed.

Lemma parse_options_step o rest fuel n ol :
  opt_wf o -> (n < length ol)%nat ->
  TcpHeader.parse_options (S fuel) (opt_bytes o ++ rest) n ol =
    TcpHeader.parse_options fuel rest (S n) (<[n := o]> ol).
Proof.
  intros Hwf Hn. assert (Hb : Nat.leb (length ol) n = false) by (apply Nat.leb_gt; lia).
  destruct o as [|m|s| |k sacks|s e]; [done| | | | |]; simpl in Hwf.
  - unfold opt_bytes. cbn -[be16 get16]. unfold TcpHeader.rdr_u16. cbn [be16 app length Nat.leb drop get16].
    rewrite be16_get16' by done. cbn -[Nat.leb]. by rewrite Hb.
  - cbn -[Nat.leb]. by rewrite Hb.
  - cbn -[Nat.leb]. by rewrite Hb.
  - destruct Hwf as (Hk & l & Hl & Hf & ->). unfold opt_bytes.
    assert (Hns : TcpHeader.num_sacks_of (wrap8 (2 + wrap8 (8 * wrap8 (Z.of_nat k)))) = Some k).
    { destruct k as [|[|[|[|[|k]]]]]; try lia; reflexivity. }
    rewrite take_app_length' by done.
    cbn -[Nat.leb TcpHeader.num_sacks_of TcpHeader.read_sacks]. rewrite Hns.
    rewrite <- Hl, read_sacks_app by done. cbn -[Nat.leb]. by rewrite Hb.
  - destruct Hwf as [Hs He]. unfold opt_bytes. rewrite <- !app_assoc.
    cbn -[Nat.leb be32 TcpHeader.rdr_u32]. rewrite rdr_u32_app by done. cbn -[Nat.leb be32 TcpHeader.rdr_u32].
    rewrite rdr_u32_app by done. cbn -[Nat.leb]. by rewrite Hb.
Qed.

Lemma parse_options_spec opts done_opts k fuel tl :
  Forall opt_wf opts -> (length opts <= k)%nat -> (length opts < fuel)%nat ->
  TcpHeader.parse_options fuel (concat (map opt_bytes opts) ++ 0 :: tl) (length done_opts)
      (done_opts ++ replicate k NoOperation) =
    Ret (Ok (length (done_opts ++ opts), (done_opts ++ opts) ++ replicate (k - length opts) NoOperation)).
Proof.
  intros Hwf. revert done_opts k fuel. induction Hwf as [|o opts Ho Hwf IH]; intros d k fuel Hk Hf.
  - destruct fuel; [lia|]. cbn. by rewrite app_nil_r, Nat.sub_0_r.
  - destruct fuel as [|fuel]; [simpl in Hf; lia|]. destruct k as [|k]; [simpl in Hk; lia|].
    cbn [map concat]. rewrite <- app_assoc, parse_options_step
      by (done || (rewrite length_app, length_replicate; lia)).
    cbn [replicate]. rewrite insert_app_r_alt, Nat.sub_diag by lia. cbn [insert list_insert].
    replace (S (length d)) with (length (d ++ [o])) by (rewrite length_app; simpl; lia).
    change (o :: replicate k NoOperation) with ([o] ++ replicate k NoOperation).
    rewrite app_assoc, IH by (simpl in *; lia). by rewrite <- (app_assoc d [o] opts).
Qed.

Lemma round4_spec n : (n <= TcpHeader.round4 n < n + 4)%nat /\ Z.of_nat (TcpHeader.round4 n) mod 4 = 0.
Proof.
  unfold TcpHeader.round4.
  replace (Z.land (Z.of_nat n + 3) (Z.lnot 3)) with ((Z.of_nat n + 3) / 2^2 * 2^2).
  - split; [|rewrite Z2Nat.id]; Z.div_mod_to_equations; lia.
  - rewrite <- Z.ldiff_land. change 3 with (Z.ones 2) at 3.
    by rewrite Z.ldiff_ones_r, Z.shiftr_div_pow2, Z.shiftl_mul_pow2 by lia.
Qed.

Lemma tcp_compute_size h opts :
  tcp_wf h opts ->
  TcpHeader.iter_options h = Ret opts /\
  TcpHeader.compute_size h = Ret (TcpHeader.round4
    (20 + TcpHeader.sum_sizes opts + if Nat.ltb 0 (length opts) then 1 else 0)).
Proof.
  intros []. assert (E : TcpHeader.iter_options h = Ret opts).
  { unfold TcpHeader.iter_options. rewrite tcp_opts0, tcp_num0.
    rewrite (proj2 (Nat.leb_le _ _)) by (rewrite length_app; lia). by rewrite take_app_length. }
  split; [done|]. unfold TcpHeader.compute_size. rewrite E. cbn [mbind outcome_bind].
  rewrite tcp_num0. do 2 f_equal. unfold MIN_TCP_HEADER_SIZE. destruct (Nat.ltb 0 _); lia.
Qed.

(** The eight writes of the fixed header leave only the checksum word. *)
Lemma tcp_fixed_writes {A} l0 l2 l4 l8 b12 b13 l14 l18 hd tl (k : list Z -> outcome A) :
  length hd = 20%nat -> length l0 = 2%nat -> length l2 = 2%nat -> length l4 = 4%nat ->
  length l8 = 4%nat -> length l14 = 2%nat -> length l18 = 2%nat ->
  (buf ← write_at (hd ++ tl) 0 l0; buf ← write_at buf 2 l2; buf ← write_at buf 4 l4;
   buf ← write_at buf 8 l8; buf ← write_at buf 12 [b12]; buf ← write_at buf 13 [b13];
   buf ← write_at buf 14 l14; buf ← write_at buf 18 l18; k buf) =
  k (((l0 ++ l2 ++ l4 ++ l8 ++ [b12; b13] ++ l14) ++ [nth 16 hd 0; nth 17 hd 0] ++ l18) ++ tl).
Proof.
  intros Hb H0 H2 H4 H8 H14 H18. explode hd Hb. explode l0 H0. explode l2 H2. explode l4 H4.
  explode l8 H8. explode l14 H14. explode l18 H18. reflexivity.
Qed.

Lemma tcp_checksum_skip ip pre x y x' y' post data :
  length pre = 16%nat -> (2 <= length post)%nat ->
  TcpHeader.tcp_checksum ip (pre ++ [x; y] ++ post) data =
  TcpHeader.tcp_checksum ip (pre ++ [x'; y'] ++ post) data.
Proof.
  intros Hp Hq. explode pre Hp. destruct post as [|p0 [|p1 post]]; [simpl in Hq; lia..|].
  reflexivity.
Qed.

Lemma tcp_checksum_defined ip hdr data :
  (20 <= length hdr)%nat -> Z.of_nat (length hdr) mod 4 = 0 ->
  exists c, TcpHeader.tcp_checksum ip hdr data = Ret c /\ u16_ok c.
Proof.
  intros Hl Hm. unfold TcpHeader.tcp_checksum, slice, MIN_TCP_HEADER_SIZE.
  assert (Hfh : length (take (20 - 0) (drop 0 hdr)) = 20%nat) by (rewrite length_take, length_drop; lia).
  rewrite (proj2 (Nat.leb_le 20 _)) by done. cbn [Nat.leb andb mbind outcome_bind Nat.sub drop] in *.
  rewrite Hfh. cbn [Nat.leb andb mbind outcome_bind].
  assert (E : Nat.eqb (length hdr mod 2) 0 = true).
  { apply Nat.eqb_eq. apply Nat2Z.inj. rewrite Nat2Z.inj_mod. change (Z.of_nat 2) with 2.
    change (Z.of_nat 0) with 0. Z.div_mod_to_equations. lia. }
  rewrite E, andb_false_r.
  match goal with |- context [fold_ffff ?e] => destruct (fold_ffff_spec e) as (r & -> & Hr & _) end.
  { do 4 apply add_chunks_ok. apply wrap32_ok. }
  eexists. split; [reflexivity|]. rewrite not_u16_eq by lia. unfold u16_ok. lia.
Qed.

Lemma flags_byte_bits h :
  let b := TcpHeader.flags_byte h in
  bit_set b 7 = TcpHeader.cwr h /\ bit_set b 6 = TcpHeader.ece h /\ bit_set b 5 = TcpHeader.urg h /\
  bit_set b 4 = TcpHeader.ack h /\ bit_set b 3 = TcpHeader.psh h /\ bit_set b 2 = TcpHeader.rst h /\
  bit_set b 1 = TcpHeader.syn h /\ bit_set b 0 = TcpHeader.fin h.
Proof.
  unfold TcpHeader.flags_byte.
  destruct (TcpHeader.cwr h), (TcpHeader.ece h), (TcpHeader.urg h), (TcpHeader.ack h),
    (TcpHeader.psh h), (TcpHeader.rst h), (TcpHeader.syn h), (TcpHeader.fin h); by vm_compute.
Qed.

(** The data-offset octet of a header of [n] bytes. *)
Lemma offset_byte n nsf :
  (20 <= n <= 60)%nat -> Z.of_nat n mod 4 = 0 ->
  let b := Z.lor (wrap8 (Z.shiftl (wrap8 (Z.of_nat n / 4)) 4)) (TcpHeader.flag nsf 0) in
  (Z.to_nat (Z.shiftr b 4) * 4)%nat = n /\ bit_set b 0 = nsf.
Proof.
  intros Hn Hm b.
  assert (Hq : exists q : nat, n = (4 * q)%nat /\ (5 <= q <= 15)%nat).
  { exists (Z.to_nat (Z.of_nat n / 4)). Z.div_mod_to_equations. lia. }
  destruct Hq as (q & -> & Hq). subst b.
  replace (Z.of_nat (4 * q) / 4) with (Z.of_nat q) by (Z.div_mod_to_equations; lia).
  do 16 (destruct q as [|q]; [try lia; destruct nsf; by vm_compute|]). lia.
Qed.

(** The header as it lies on the wire: fixed part, options, end-of-list and zero padding. *)
Definition tcp_fixed (h : TcpHeader.t) (size : nat) (ck : list Z) : list Z :=
  (be16 (TcpHeader.src_port h) ++ be16 (TcpHeader.dst_port h) ++ be32 (TcpHeader.seq_num h) ++
   be32 (TcpHeader.ack_num h) ++
   [Z.lor (wrap8 (Z.shiftl (wrap8 (Z.of_nat size / 4)) 4)) (TcpHeader.flag (TcpHeader.ns h) 0);
    TcpHeader.flags_byte h] ++ be16 (TcpHeader.window_size h)) ++ ck ++
  be16 (TcpHeader.urgent_pointer h).

Definition tcp_area (opts : list TcpOptions2) (size : nat) : list Z :=
  concat (map opt_bytes opts) ++ replicate (size - 20 - TcpHeader.sum_sizes opts) 0.

Lemma concat_opt_length opts :
  Forall opt_wf opts -> length (concat (map opt_bytes opts)) = TcpHeader.sum_sizes opts.
Proof.
  induction 1 as [|o opts Ho H IH]; [done|]. cbn [map concat].
  rewrite length_app, IH, opt_bytes_length by done. done.
Qed.

(** What [serialize] writes after the options, whatever the slice held before. *)
Lemma tcp_finish_options opts fx rest :
  Forall opt_wf opts -> length fx = 20%nat ->
  (Nat.ltb 0 (length opts) = true -> rest <> []) ->
  let cur_pos := (20 + TcpHeader.sum_sizes opts)%nat in
  let buf := fx ++ concat (map opt_bytes opts) ++ rest in
  exists buf' cur_pos',
    (if Nat.ltb 0 (length opts)
     then buf ← write_at buf cur_pos [0]; Ret (buf, S cur_pos)
     else Ret (buf, cur_pos)) = Ret (buf', cur_pos') /\ (cur_pos' <= length buf')%nat /\
    take cur_pos' buf' ++ replicate (length buf' - cur_pos') 0 =
      fx ++ concat (map opt_bytes opts) ++ replicate (length rest) 0.
Proof.
  intros Hwf Hfx Hr cur_pos buf. pose proof (concat_opt_length opts Hwf) as Hlen.
  assert (Hcp : cur_pos = length (fx ++ concat (map opt_bytes opts))) by (rewrite length_app; lia).
  destruct (Nat.ltb 0 (length opts)).
  - destruct rest as [|r0 rest]; [by destruct Hr|]. subst buf.
    rewrite app_assoc. change (r0 :: rest) with ([r0] ++ rest) at 1.
    rewrite write_at_mid by done. cbn [mbind outcome_bind]. do 2 eexists. split; [reflexivity|].
    rewrite (app_assoc _ [0]).
    replace (S cur_pos) with (length ((fx ++ concat (map opt_bytes opts)) ++ [0]))
      by (rewrite length_app; simpl; lia).
    split; [rewrite (length_app (_ ++ [0])); lia|].
    rewrite take_app_length, (length_app (_ ++ [0])), <- !app_assoc, Nat.add_comm, Nat.add_sub. done.
  - do 2 eexists. split; [reflexivity|]. subst buf. rewrite Hcp, !app_assoc.
    split; [rewrite (length_app (fx ++ _)); lia|].
    by rewrite take_app_length, (length_app (fx ++ _)), Nat.add_comm, Nat.add_sub.
Qed.

Lemma tcp_size_bounds h opts size :
  tcp_wf h opts -> TcpHeader.compute_size h = Ret size ->
  (20 + TcpHeader.sum_sizes opts + (if Nat.ltb 0 (length opts) then 1 else 0) <= size)%nat /\
  (20 <= size <= 60)%nat /\ Z.of_nat size mod 4 = 0 /\ (opts = [] -> size = 20%nat).
Proof.
  intros Hwf. rewrite (proj2 (tcp_compute_size h opts Hwf)). pose proof (tcp_fits _ _ Hwf) as Hf.
  set (e := (if Nat.ltb 0 (length opts) then 1 else 0)%nat).
  destruct (round4_spec (20 + TcpHeader.sum_sizes opts + e)) as [Hr Hm].
  assert (Hsz : opts = [] -> TcpHeader.round4 (20 + TcpHeader.sum_sizes opts + e) = 20%nat) by (by intros ->).
  assert (e <= 1)%nat by (subst e; destruct (Nat.ltb 0 (length opts)); lia).
  clearbody e. set (r := TcpHeader.round4 _) in *. clearbody r. intros [= <-].
  repeat split; try lia; [|done..]. Z.div_mod_to_equations. lia.
Qed.

Lemma tcp_serialize_bytes h opts buf ip data off size :
  tcp_wf h opts -> TcpHeader.compute_size h = Ret size -> length buf = size ->
  exists c, u16_ok c /\
    TcpHeader.serialize h buf ip data off = Ret (tcp_fixed h size (be16 c) ++ tcp_area opts size) /\
    (off = false ->
       TcpHeader.tcp_checksum ip (tcp_fixed h size (be16 c) ++ tcp_area opts size) data = Ret c).
Proof.
  intros Hwf Hsz Hb. destruct (tcp_size_bounds h opts size Hwf Hsz) as (Hge & Hrng & Hmod & _).
  destruct (tcp_compute_size h opts Hwf) as [Hio _].
  pose proof (tcp_opts_wf _ _ Hwf) as Hows. pose proof (tcp_num _ _ Hwf) as Hnum.
  set (sz := TcpHeader.sum_sizes opts) in *.
  assert (Hsplit : exists hd old rest, buf = hd ++ old ++ rest /\ length hd = 20%nat /\
      length old = sz /\ length rest = (size - 20 - sz)%nat).
  { exists (take 20 buf), (take sz (drop 20 buf)), (drop sz (drop 20 buf)).
    rewrite !take_drop, !length_take, !length_drop. repeat split; lia. }
  destruct Hsplit as (hd & old & rest & -> & Hhd & Hold & Hrest).
  unfold TcpHeader.serialize, slice, MIN_TCP_HEADER_SIZE.
  rewrite (proj2 (Nat.leb_le 20 _)) by lia. cbn [Nat.leb andb]. rewrite Hsz, Hio, Hnum.
  cbn [mbind outcome_bind]. rewrite tcp_fixed_writes by done.
  match goal with |- context [TcpHeader.serialize_options opts (?f ++ _) _] => set (fx := f) end.
  assert (Hfx : length fx = 20%nat) by reflexivity.
  pose proof (serialize_options_spec opts fx old rest Hows Hold) as Hser. rewrite Hfx in Hser.
  rewrite Hser. cbn [mbind outcome_bind]. clear Hser. change (TcpHeader.sum_sizes opts) with sz.
  destruct (tcp_finish_options opts fx rest Hows Hfx) as (buf' & cp' & E & Hcp & Htk).
  { intros Hlt. rewrite Hlt in Hge. by destruct rest; simpl in Hrest; [lia|]. }
  cbn zeta in E. change (TcpHeader.sum_sizes opts) with sz in E. rewrite E. clear E.
  cbn [mbind outcome_bind]. unfold slice_from. rewrite (proj2 (Nat.leb_le _ _)) by done.
  cbn [mbind outcome_bind]. rewrite Htk, Hrest.
  change (concat (map opt_bytes opts) ++ replicate (size - 20 - sz) 0) with (tcp_area opts size).
  assert (Har : length (tcp_area opts size) = (size - 20)%nat).
  { unfold tcp_area. rewrite length_app, length_replicate, concat_opt_length by done. lia. }
  assert (Hck : exists c, u16_ok c /\
    (if off then Ret 0 else TcpHeader.tcp_checksum ip (fx ++ tcp_area opts size) data) = Ret c).
  { destruct off; [exists 0; split; [unfold u16_ok; lia|done]|].
    destruct (tcp_checksum_defined ip (fx ++ tcp_area opts size) data) as (c & Hc & Hok); [..|by exists c];
      rewrite length_app, Har, Hfx; [lia|]. by replace (20 + (size - 20))%nat with size by lia. }
  destruct Hck as (c & Hok & Hc). exists c. split; [done|]. rewrite Hc. cbn [mbind outcome_bind].
  subst fx. rewrite <- !(app_assoc _ _ (tcp_area opts size)) in *.
  rewrite write_at_mid by done. unfold tcp_fixed. rewrite <- !(app_assoc _ _ (tcp_area opts size)).
  split; [done|]. intros ->. rewrite <- Hc. apply (tcp_checksum_skip _ _ _ _ _ _ (_ ++ tcp_area opts size)); [done|].
  rewrite length_app. simpl. lia.
Qed.

Lemma tcp_parse_area opts size :
  Forall opt_wf opts -> (length opts <= MAX_TCP_OPTIONS)%nat ->
  (20 + TcpHeader.sum_sizes opts + (if Nat.ltb 0 (length opts) then 1 else 0) <= size)%nat ->
  (opts = [] -> size = 20%nat) ->
  (if Nat.ltb 20 size
   then TcpHeader.parse_options (S (length (tcp_area opts size))) (tcp_area opts size) 0
          (replicate MAX_TCP_OPTIONS NoOperation)
   else Ret (Ok (0%nat, replicate MAX_TCP_OPTIONS NoOperation))) =
  Ret (Ok (length opts, opts ++ replicate (MAX_TCP_OPTIONS - length opts) NoOperation)).
Proof.
  intros Hwf Hmax Hge Hnil. destruct opts as [|o opts].
  - by rewrite (Hnil eq_refl).
  - cbn [length] in Hge. rewrite (proj2 (Nat.ltb_lt 0 (S _))) in Hge by lia.
    rewrite (proj2 (Nat.ltb_lt 20 size)) by lia.
    assert (Hle : (length (o :: opts) <= length (tcp_area (o :: opts) size))%nat).
    { unfold tcp_area. rewrite length_app, concat_opt_length by done.
      enough (length (o :: opts) <= TcpHeader.sum_sizes (o :: opts))%nat by lia.
      clear. induction (o :: opts) as [|p l IH]; [simpl; lia|].
      cbn [length TcpHeader.sum_sizes fold_right] in *.
      enough (1 <= TcpOption.compute_size p)%nat by (unfold TcpHeader.sum_sizes in IH; lia).
      destruct p; simpl; lia. }
    unfold tcp_area at 2. destruct (size - 20 - TcpHeader.sum_sizes (o :: opts))%nat as [|k] eqn:Ek; [lia|].
    cbn [replicate]. apply (parse_options_spec (o :: opts) []); [done|done|lia].
Qed.

(** Every read of the fixed header gets the field back, whatever follows. *)
Lemma tcp_fixed_reads h opts size c rest :
  tcp_wf h opts -> u16_ok c ->
  let buf := tcp_fixed h size (be16 c) ++ rest in
  read_u16 buf 0 = Ret (TcpHeader.src_port h) /\ read_u16 buf 2 = Ret (TcpHeader.dst_port h) /\
  read_u32 buf 4 = Ret (TcpHeader.seq_num h) /\ read_u32 buf 8 = Ret (TcpHeader.ack_num h) /\
  index buf 12 = Ret (Z.lor (wrap8 (Z.shiftl (wrap8 (Z.of_nat size / 4)) 4))
                        (TcpHeader.flag (TcpHeader.ns h) 0)) /\
  index buf 13 = Ret (TcpHeader.flags_byte h) /\
  read_u16 buf 14 = Ret (TcpHeader.window_size h) /\ read_u16 buf 16 = Ret c /\
  read_u16 buf 18 = Ret (TcpHeader.urgent_pointer h).
Proof.
  intros [] Hc buf. subst buf. unfold tcp_fixed, read_u16, read_u32, slice, index.
  cbn [be16 be32 app length Nat.leb Nat.add Nat.sub andb drop take mbind outcome_bind get16 get32
       lookup list_lookup].
  rewrite !be16_get16', !be32_get32' by done. done.
Qed.

Lemma tcp_parse_bytes h opts ip data size c rx :
  tcp_wf h opts -> TcpHeader.compute_size h = Ret size -> u16_ok c ->
  (rx = false -> TcpHeader.tcp_checksum ip (tcp_fixed h size (be16 c) ++ tcp_area opts size) data = Ret c) ->
  TcpHeader.parse ip ((tcp_fixed h size (be16 c) ++ tcp_area opts size) ++ data) rx = Ret (Ok (h, data)).
Proof.
  intros Hwf Hsz Hc Hck. destruct (tcp_size_bounds h opts size Hwf Hsz) as (Hge & Hrng & Hmod & Hnil).
  destruct (offset_byte size (TcpHeader.ns h) Hrng Hmod) as [Hoff Hns].
  destruct (flags_byte_bits h) as (Hf7 & Hf6 & Hf5 & Hf4 & Hf3 & Hf2 & Hf1 & Hf0).
  pose proof (tcp_parse_area opts size (tcp_opts_wf _ _ Hwf) (tcp_max _ _ Hwf) Hge Hnil) as Hpa.
  set (area := tcp_area opts size) in *.
  assert (Har : length area = (size - 20)%nat).
  { unfold area, tcp_area. rewrite length_app, length_replicate, concat_opt_length by apply Hwf. lia. }
  destruct (tcp_fixed_reads h opts size c area Hwf Hc) as (H0 & H2 & H4 & H8 & H12 & H13 & H14 & H16 & H18).
  assert (Hb12 : index ((tcp_fixed h size (be16 c) ++ area) ++ data) 12 = index (tcp_fixed h size (be16 c) ++ area) 12)
    by done.
  set (hdr := tcp_fixed h size (be16 c) ++ area) in *.
  assert (Hhl : length hdr = size) by (unfold hdr; rewrite length_app, Har; simpl; lia).
  assert (Hsl : slice hdr 20 size = Ret area).
  { unfold slice. rewrite Hhl, Nat.leb_refl, (proj2 (Nat.leb_le 20 size)) by lia.
    cbn [andb]. unfold hdr. rewrite drop_app_length', take_ge by (done || lia). done. }
  assert (Hadj : Buffer.adjust (hdr ++ data) (Z.of_nat size) = Ret data)
    by (rewrite <- Hhl; apply (buffer_adjust_app _ data)).
  unfold TcpHeader.parse, MIN_TCP_HEADER_SIZE, MAX_TCP_HEADER_SIZE.
  rewrite (proj2 (Nat.ltb_ge _ 20)), Hb12, H12 by (rewrite length_app; lia).
  cbn [mbind outcome_bind]. rewrite Hoff, (proj2 (Nat.ltb_ge _ size)) by (rewrite length_app; lia).
  rewrite (proj2 (Nat.ltb_ge size 20)), (proj2 (Nat.ltb_ge 60 size)) by lia.
  rewrite take_app_length', drop_app_length', H0, H2, H4, H8, H12, H13, H14, H16, H18, Hsl, Hadj by done.
  cbn [mbind outcome_bind]. rewrite Hpa, Hns, Hf0, Hf1, Hf2, Hf3, Hf4, Hf5, Hf6, Hf7.
  assert (Hcks : (if rx then Ret (Ok tt) else
      expected ← TcpHeader.tcp_checksum ip hdr data;
      if negb (c =? expected) then fail EBADMSG "TCP checksum mismatch" else Ret (Ok tt)) = Ret (Ok tt)).
  { destruct rx; [done|]. rewrite Hck by done. cbn [mbind outcome_bind]. by rewrite Z.eqb_refl. }
  rewrite Hcks. cbn [try_bind mbind outcome_bind].
  rewrite <- (tcp_opts _ _ Hwf), <- (tcp_num _ _ Hwf). by destruct h.
Qed.

(** ** Properties *)

(** C32: TCP headers round-trip.  A header with up to five options (maximum segment size,
    window scale, SACK-permitted, one to four SACK blocks, timestamps) that fits sixty bytes,
    serialized into a slice of [compute_size] bytes whatever that slice held, never panics, and
    the parser gives back the same header, options included, and exactly the data that follows
    it.  The receiver may skip checksum verification; when it does not, the sender must not
    have left the checksum to the device. *)
Theorem tcp_header_roundtrip (h : TcpHeader.t) (opts : list TcpOptions2) (ip : Ipv4Header.t)
    (buf data : list Z) (tx_offload rx_offload : bool) :
  tcp_wf h opts -> TcpHeader.compute_size h = Ret (length buf) ->
  (rx_offload = false -> tx_offload = false) ->
  exists bytes,
    TcpHeader.serialize h buf ip data tx_offload = Ret bytes /\ length bytes = length buf /\
    TcpHeader.parse ip (bytes ++ data) rx_offload = Ret (Ok (h, data)).
Proof.
  intros Hwf Hsz Hoff.
  destruct (tcp_serialize_bytes h opts buf ip data tx_offload _ Hwf Hsz eq_refl) as (c & Hc & Hs & Hck).
  destruct (tcp_size_bounds h opts _ Hwf Hsz) as (Hge & Hrng & _ & _).
  eexists. split; [exact Hs|]. split.
  - rewrite length_app. unfold tcp_area.
    rewrite length_app, length_replicate, concat_opt_length by apply Hwf. simpl in *. lia.
  - apply tcp_parse_bytes; auto.
Qed.

(** The SYN the stack sends: window scale and maximum segment size. *)
Definition syn_example : TcpHeader.t :=
  TcpHeader.mk 52000 80 4294967295 0 false false false false false false false true false 65535 0 2
    [WindowScale 7; MaximumSegmentSize 1450; NoOperation; NoOperation; NoOperation].

Lemma tcp_header_roundtrip_witness :
  exists bytes,
    TcpHeader.serialize syn_example (replicate 28 9) (Ipv4Header.new 1 2 TCP) [1; 2; 3] false = Ret bytes /\
    TcpHeader.parse (Ipv4Header.new 1 2 TCP) (bytes ++ [1; 2; 3]) false =
      Ret (Ok (syn_example, [1; 2; 3])).
Proof.
  destruct (tcp_header_roundtrip syn_example [WindowScale 7; MaximumSegmentSize 1450]
    (Ipv4Header.new 1 2 TCP) (replicate 28 9) [1; 2; 3] false false) as (b & H1 & _ & H2).
  - constructor; try reflexivity; unfold u16_ok, u32_ok, MAX_TCP_OPTIONS; simpl; try lia.
    repeat constructor; simpl; unfold u16_ok, u8_ok; lia.
  - reflexivity.
  - reflexivity.
  - exists b. split; [exact H1 | exact H2].
Defined.
