(* ===== verification/TcpMigSegment.v ===== *)
(** * TCPMig segments (src/src/rust/inetstack/protocols/tcpmig/segment)

    The messages of the migration protocol: the 28-byte header that doubles as a UDP header,
    its checksum, the fragmenter that cuts a serialized connection into MTU-sized segments and
    the defragmenter that puts the pieces back together in whatever order they arrive. *)

From S2P Require Import Prelude Buffer Net.

Definition TCPMIG_HEADER_SIZE : nat := 28.
Definition RPS_SIGNAL_HEADER_SIZE : nat := 20.
Definition MAGIC_NUMBER : Z := 0xCAFEDEAD.
Definition RPS_SIGNAL_SIGNATURE : Z := 0xABCDABCD.
Definition FLAG_LOAD_BIT : Z := 0.
Definition FLAG_NEXT_FRAGMENT : Z := 1.
Definition STAGE_BIT_SHIFT : Z := 4.

(** [1500 - IPV4_HEADER_DEFAULT_SIZE - TCPMIG_HEADER_SIZE] *)
Definition MAX_FRAGMENT_SIZE : nat := 1452.

Module MigrationStage.

Inductive t :=
| None
| Rejected
| PrepareMigration
| PrepareMigrationAck
| ConnectionState
| ConnectionStateAck
| HeartbeatUpdate
| HeartbeatResponse.

#[global] Instance eq_dec : EqDecision t.
Proof. solve_decision. Defined.

(** [stage as u8] *)
Definition to_u8 (s : t) : Z :=
  match s with
  | None => 0
  | Rejected => 1
  | PrepareMigration => 2
  | PrepareMigrationAck => 3
  | ConnectionState => 4
  | ConnectionStateAck => 5
  | HeartbeatUpdate => 12
  | HeartbeatResponse => 13
  end.

Definition try_from (value : Z) : option t :=
  if value =? 0 then Some None
  else if value =? 1 then Some Rejected
  else if value =? 2 then Some PrepareMigration
  else if value =? 3 then Some PrepareMigrationAck
  else if value =? 4 then Some ConnectionState
  else if value =? 5 then Some ConnectionStateAck
  else if value =? 12 then Some HeartbeatUpdate
  else if value =? 13 then Some HeartbeatResponse
  else Datatypes.None.

End MigrationStage.

Module TcpMigHeader.

Record t := mk {
  origin : SocketAddrV4;
  client : SocketAddrV4;
  length : Z;
  fragment_offset : Z;
  flag_load : bool;
  flag_next_fragment : bool;
  stage : MigrationStage.t;
  source_udp_port : Z;
  dest_udp_port : Z
}.

Definition new (origin client : SocketAddrV4) (payload_length : Z) (stage : MigrationStage.t)
  (source_udp_port dest_udp_port : Z) : t :=
  mk origin client (wrap16 (Z.of_nat TCPMIG_HEADER_SIZE + payload_length)) 0 false false stage
     source_udp_port dest_udp_port.

Definition get_source_udp_port (self : t) : Z := source_udp_port self.

Definition swap_src_dst_port (self : t) : t :=
  mk (origin self) (client self) (length self) (fragment_offset self) (flag_load self)
     (flag_next_fragment self) (stage self) (dest_udp_port self) (source_udp_port self).

(** Field updates made on copies of a header. *)
Definition set_stage (self : t) (v : MigrationStage.t) : t :=
  mk (origin self) (client self) (length self) (fragment_offset self) (flag_load self)
     (flag_next_fragment self) v (source_udp_port self) (dest_udp_port self).
Definition set_flag_load (self : t) (v : bool) : t :=
  mk (origin self) (client self) (length self) (fragment_offset self) v
     (flag_next_fragment self) (stage self) (source_udp_port self) (dest_udp_port self).
Definition set_fragment (self : t) (next : bool) (offset : Z) : t :=
  mk (origin self) (client self) (length self) offset (flag_load self)
     next (stage self) (source_udp_port self) (dest_udp_port self).

Definition is_tcpmig (buf : list Z) : outcome bool :=
  if Nat.leb TCPMIG_HEADER_SIZE (List.length buf)
  then m ← read_u32 buf 8; Ret (m =? MAGIC_NUMBER)
  else Ret false.

Definition is_rps_signal (buf : list Z) : outcome bool :=
  if Nat.leb RPS_SIGNAL_HEADER_SIZE (List.length buf)
  then m ← read_u32 buf 8; Ret (m =? RPS_SIGNAL_SIGNATURE)
  else Ret false.

Definition size (self : t) : nat := TCPMIG_HEADER_SIZE.

Definition serialize_flags_and_stage (self : t) : Z :=
  Z.lor (Z.lor (Z.shiftl (if flag_load self then 1 else 0) FLAG_LOAD_BIT)
               (Z.shiftl (if flag_next_fragment self then 1 else 0) FLAG_NEXT_FRAGMENT))
        (wrap8 (Z.shiftl (MigrationStage.to_u8 (stage self)) STAGE_BIT_SHIFT)).

(** [chunks_exact(2)] folded with [wrapping_add]; a trailing odd byte is dropped. *)
Fixpoint sum_chunks (sum : Z) (l : list Z) : Z :=
  match l with
  | a :: b :: rest => sum_chunks (wrap16 (sum + get16 [a; b])) rest
  | _ => sum
  end.

(** [chunks_exact(2).remainder()] padded to two bytes. *)
Fixpoint chunks_rem (l : list Z) : list Z :=
  match l with
  | _ :: _ :: rest => chunks_rem rest
  | [b] => [b; 0]
  | [] => [0; 0]
  end.

Definition checksum (ipv4_hdr : Ipv4Header.t) (migration_hdr data : list Z) : outcome Z :=
  before ← slice migration_hdr 0 6;
  after ← slice_from migration_hdr 8;
  let sum := sum_chunks 0 (octets (Ipv4Header.get_src_addr ipv4_hdr)) in
  let sum := sum_chunks sum (octets (Ipv4Header.get_dest_addr ipv4_hdr)) in
  let sum := sum_chunks sum before in
  let sum := sum_chunks sum after in
  let sum := sum_chunks sum data in
  let sum := sum_chunks sum (chunks_rem data) in
  Ret (wrap16 (- sum)).

Definition parse_from_slice (ipv4_hdr : Ipv4Header.t) (buf : list Z) : outcome (Result (t * list Z)) :=
  if Nat.ltb (List.length buf) TCPMIG_HEADER_SIZE then fail EBADMSG "TCPMig segment too small" else
  magic ← read_u32 buf 8;
  if negb (magic =? MAGIC_NUMBER) then fail EBADMSG "not a TCPMig segment" else
  hdr_buf ← slice buf 0 TCPMIG_HEADER_SIZE;
  source_udp_port ← read_u16 hdr_buf 0;
  dest_udp_port ← read_u16 hdr_buf 2;
  length ← read_u16 hdr_buf 4;
  ck ← read_u16 hdr_buf 6;
  origin_ip ← read_u32 hdr_buf 12;
  origin_port ← read_u16 hdr_buf 16;
  client_ip ← read_u32 hdr_buf 18;
  client_port ← read_u16 hdr_buf 22;
  fragment_offset ← read_u16 hdr_buf 24;
  flags ← index hdr_buf 26;
  let flag_load := bit_set flags FLAG_LOAD_BIT in
  let flag_next_fragment := bit_set flags FLAG_NEXT_FRAGMENT in
  let stage := Z.shiftr (Z.land flags 0xF0) STAGE_BIT_SHIFT in
  match MigrationStage.try_from stage with
  | None => fail EBADMSG "Invalid TCPMig stage"
  | Some stage =>
      payload_buf ← slice_from buf TCPMIG_HEADER_SIZE;
      expected ← checksum ipv4_hdr hdr_buf payload_buf;
      if (negb (ck =? 0) && negb (ck =? expected))%bool
      then fail EBADMSG "TCPMig checksum mismatch" else
      Ret (Ok (mk (mkAddr origin_ip origin_port) (mkAddr client_ip client_port) length
                 fragment_offset flag_load flag_next_fragment stage source_udp_port dest_udp_port,
               payload_buf))
  end.

(** [parse] copies the payload slice into a fresh buffer. *)
Definition parse (ipv4_hdr : Ipv4Header.t) (buf : Buffer.t) : outcome (Result (t * Buffer.t)) :=
  parse_from_slice ipv4_hdr buf.

Definition serialize (self : t) (buf : list Z) (ipv4_hdr : Ipv4Header.t) (data : list Z) :
  outcome (list Z) :=
  fixed_buf ← slice buf 0 TCPMIG_HEADER_SIZE;
  fixed_buf ← write_at fixed_buf 0 (be16 (source_udp_port self));
  fixed_buf ← write_at fixed_buf 2 (be16 (dest_udp_port self));
  fixed_buf ← write_at fixed_buf 4 (be16 (length self));
  fixed_buf ← write_at fixed_buf 6 (be16 0);
  fixed_buf ← write_at fixed_buf 8 (be32 MAGIC_NUMBER);
  fixed_buf ← write_at fixed_buf 12 (octets (ip (origin self)));
  fixed_buf ← write_at fixed_buf 16 (be16 (port (origin self)));
  fixed_buf ← write_at fixed_buf 18 (octets (ip (client self)));
  fixed_buf ← write_at fixed_buf 22 (be16 (port (client self)));
  fixed_buf ← write_at fixed_buf 24 (be16 (fragment_offset self));
  fixed_buf ← write_at fixed_buf 26 [serialize_flags_and_stage self];
  fixed_buf ← write_at fixed_buf 27 [0];
  ck ← checksum ipv4_hdr fixed_buf data;
  fixed_buf ← write_at fixed_buf 6 (be16 ck);
  write_at buf 0 fixed_buf.

End TcpMigHeader.

(** A TCPMig packet. *)
Record TcpMigSegment := mkTcpMigSegment {
  mig_ethernet2_hdr : Ethernet2Header.t;
  mig_ipv4_hdr : Ipv4Header.t;
  tcpmig_hdr : TcpMigHeader.t;
  mig_data : Buffer.t
}.

Definition mig_header_size (self : TcpMigSegment) : nat :=
  Ethernet2Header.compute_size (mig_ethernet2_hdr self) +
  Ipv4Header.compute_size (mig_ipv4_hdr self) + TcpMigHeader.size (tcpmig_hdr self).

Definition mig_body_size (self : TcpMigSegment) : nat := length (mig_data self).

Definition mig_write_header (self : TcpMigSegment) (buf : list Z) : outcome (list Z) :=
  let eth_hdr_size := Ethernet2Header.compute_size (mig_ethernet2_hdr self) in
  let tcpmig_hdr_size := TcpMigHeader.size (tcpmig_hdr self) in
  let ipv4_payload_len := (tcpmig_hdr_size + length (mig_data self))%nat in
  s ← slice buf 0 eth_hdr_size;
  s ← Ethernet2Header.serialize (mig_ethernet2_hdr self) s;
  buf ← write_at buf 0 s;
  let cur_pos := eth_hdr_size in
  let ipv4_hdr_size := Ipv4Header.compute_size (mig_ipv4_hdr self) in
  s ← slice buf cur_pos (cur_pos + ipv4_hdr_size);
  s ← Ipv4Header.serialize (mig_ipv4_hdr self) s (Z.of_nat ipv4_payload_len);
  buf ← write_at buf cur_pos s;
  let cur_pos := (cur_pos + ipv4_hdr_size)%nat in
  s ← slice buf cur_pos (cur_pos + tcpmig_hdr_size);
  s ← TcpMigHeader.serialize (tcpmig_hdr self) s (mig_ipv4_hdr self) (mig_data self);
  write_at buf cur_pos s.

Module TcpMigFragmenter.

Record t := mk { segment : TcpMigSegment; current_fragment : Z }.

(** [TcpMigSegment::fragments] *)
Definition fragments (self : TcpMigSegment) : t := mk self 0.

Definition with_data (s : TcpMigSegment) (hdr : TcpMigHeader.t) (d : Buffer.t) : TcpMigSegment :=
  mkTcpMigSegment (mig_ethernet2_hdr s) (mig_ipv4_hdr s) hdr d.

Definition next (self : t) : outcome (option TcpMigSegment * t) :=
  let s := segment self in
  if (Nat.eqb (length (mig_data s)) 0 && negb (current_fragment self =? 0))%bool
  then Ret (None, self) else
  '(flag_next, data, rest) ←
    (if Nat.leb (length (mig_data s)) MAX_FRAGMENT_SIZE
     then Ret (false, mig_data s, [])
     else
       d ← Buffer.trim (mig_data s) (blen (mig_data s) - Z.of_nat MAX_FRAGMENT_SIZE);
       r ← Buffer.adjust (mig_data s) (Z.of_nat MAX_FRAGMENT_SIZE);
       Ret (true, d, r));
  let hdr := TcpMigHeader.set_fragment (tcpmig_hdr s) flag_next (current_fragment self) in
  Ret (Some (with_data s hdr data),
       mk (with_data s (tcpmig_hdr s) rest) (wrap16 (current_fragment self + 1))).

(** [for fragment in segment.fragments()]: the segments in the order they are transmitted. *)
Fixpoint collect (fuel : nat) (self : t) : outcome (list TcpMigSegment) :=
  match fuel with
  | O => Diverge
  | S k =>
      '(item, self) ← next self;
      match item with
      | None => Ret []
      | Some s => l ← collect k self; Ret (s :: l)
      end
  end.

End TcpMigFragmenter.

Module TcpMigDefragmenter.

Record t := mk {
  fragments : list Buffer.t;
  total_fragments : option nat;
  current_fragments : nat;
  current_size : nat
}.

Definition new : t := mk [] None 0 0.

(** [current_size] is not reset. *)
Definition reset (self : t) : t := mk [] None 0 (current_size self).

(** The fold that copies each fragment at [start..start + f.len()]. *)
Fixpoint copy_fragments (buffer : list Z) (start : nat) (fragments : list Buffer.t) : outcome (list Z) :=
  match fragments with
  | [] => Ret buffer
  | f :: fragments =>
      buffer ← write_at buffer start f;
      copy_fragments buffer (start + length f) fragments
  end.

Definition defragment (self : t) (hdr : TcpMigHeader.t) (buf : Buffer.t) :
  outcome (t * option (TcpMigHeader.t * Buffer.t)) :=
  let offset := Z.to_nat (TcpMigHeader.fragment_offset hdr) in
  let last := negb (TcpMigHeader.flag_next_fragment hdr) in
  if (last && Nat.eqb offset 0)%bool then Ret (reset self, Some (hdr, buf)) else
  total ← (if last
           then if Nat.ltb (offset + 1) (length (fragments self))
                then Panic "capacity overflow"
                else Ret (Some (offset + 1)%nat)
           else Ret (total_fragments self));
  let frags := fragments self ++ replicate (offset + 1 - length (fragments self)) [] in
  let frags := <[offset := buf]> frags in
  let self := mk frags total (current_fragments self + 1) (current_size self + length buf) in
  match total with
  | None => Ret (self, None)
  | Some count =>
      if negb (Nat.eqb count (current_fragments self)) then Ret (self, None) else
      let hdr := TcpMigHeader.set_fragment hdr false 0 in
      if Nat.eqb (current_size self) 0 then Panic "zero-capacity buffer" else
      buffer ← copy_fragments (replicate (current_size self) 0) 0 frags;
      Ret (reset self, Some (hdr, buffer))
  end.

(** The packets of one migration, in arrival order, with what each call returned. *)
Fixpoint defragment_all (self : t) (pkts : list (TcpMigHeader.t * Buffer.t)) :
  outcome (t * list (option (TcpMigHeader.t * Buffer.t))) :=
  match pkts with
  | [] => Ret (self, [])
  | (hdr, buf) :: pkts =>
      '(self, r) ← defragment self hdr buf;
      '(self, rs) ← defragment_all self pkts;
      Ret (self, r :: rs)
  end.

End TcpMigDefragmenter.

(** ** Lemmas *)

(** *** The header *)

Record mig_wf (h : TcpMigHeader.t) : Prop := {
  mig_origin_ip : u32_ok (ip (TcpMigHeader.origin h));
  mig_origin_port : u16_ok (port (TcpMigHeader.origin h));
  mig_client_ip : u32_ok (ip (TcpMigHeader.client h));
  mig_client_port : u16_ok (port (TcpMigHeader.client h));
  mig_length : u16_ok (TcpMigHeader.length h);
  mig_offset : u16_ok (TcpMigHeader.fragment_offset h);
  mig_src : u16_ok (TcpMigHeader.source_udp_port h);
  mig_dst : u16_ok (TcpMigHeader.dest_udp_port h)
}.

(** The 28 bytes of the header, by their values. *)
Definition mig_bytes (h : TcpMigHeader.t) (ck : Z) : list Z :=
  (be16 (TcpMigHeader.source_udp_port h) ++ be16 (TcpMigHeader.dest_udp_port h) ++
   be16 (TcpMigHeader.length h)) ++ be16 ck ++
  (be32 MAGIC_NUMBER ++ be32 (ip (TcpMigHeader.origin h)) ++ be16 (port (TcpMigHeader.origin h)) ++
   be32 (ip (TcpMigHeader.client h)) ++ be16 (port (TcpMigHeader.client h)) ++
   be16 (TcpMigHeader.fragment_offset h) ++ [TcpMigHeader.serialize_flags_and_stage h; 0]).

Lemma mig_writes {A} l0 l2 l4 l6 l8 l12 l16 l18 l22 l24 b26 b27 buf (k : list Z -> outcome A) :
  length buf = 28%nat -> length l0 = 2%nat -> length l2 = 2%nat -> length l4 = 2%nat ->
  length l6 = 2%nat -> length l8 = 4%nat -> length l12 = 4%nat -> length l16 = 2%nat ->
  length l18 = 4%nat -> length l22 = 2%nat -> length l24 = 2%nat ->
  (buf ← write_at buf 0 l0; buf ← write_at buf 2 l2; buf ← write_at buf 4 l4;
   buf ← write_at buf 6 l6; buf ← write_at buf 8 l8; buf ← write_at buf 12 l12;
   buf ← write_at buf 16 l16; buf ← write_at buf 18 l18; buf ← write_at buf 22 l22;
   buf ← write_at buf 24 l24; buf ← write_at buf 26 [b26]; buf ← write_at buf 27 [b27]; k buf) =
  k ((l0 ++ l2 ++ l4) ++ l6 ++ (l8 ++ l12 ++ l16 ++ l18 ++ l22 ++ l24 ++ [b26; b27])).
Proof.
  intros Hb H0 H2 H4 H6 H8 H12 H16 H18 H22 H24.
  explode buf Hb. explode l0 H0. explode l2 H2. explode l4 H4. explode l6 H6. explode l8 H8.
  explode l12 H12. explode l16 H16. explode l18 H18. explode l22 H22. explode l24 H24. reflexivity.
Qed.

Lemma mig_checksum_skip ip pre x y x' y' post data :
  length pre = 6%nat -> length post = 20%nat ->
  TcpMigHeader.checksum ip (pre ++ [x; y] ++ post) data =
  TcpMigHeader.checksum ip (pre ++ [x'; y'] ++ post) data.
Proof. intros Hp Hq. explode pre Hp. explode post Hq. reflexivity. Qed.

Lemma mig_checksum_defined ip pre ck post data :
  length pre = 6%nat -> length ck = 2%nat -> length post = 20%nat ->
  exists c, TcpMigHeader.checksum ip (pre ++ ck ++ post) data = Ret c /\ u16_ok c.
Proof.
  intros Hp Hc Hq. unfold TcpMigHeader.checksum, slice, slice_from.
  rewrite (proj2 (Nat.leb_le 6 _)), (proj2 (Nat.leb_le 8 _)) by (rewrite !length_app, Hp, Hc, Hq; lia).
  eexists. split; [reflexivity|]. apply wrap16_ok.
Qed.

Lemma stage_flags_byte h :
  let b := TcpMigHeader.serialize_flags_and_stage h in
  bit_set b FLAG_LOAD_BIT = TcpMigHeader.flag_load h /\
  bit_set b FLAG_NEXT_FRAGMENT = TcpMigHeader.flag_next_fragment h /\
  MigrationStage.try_from (Z.shiftr (Z.land b 0xF0) STAGE_BIT_SHIFT) = Some (TcpMigHeader.stage h).
Proof.
  unfold TcpMigHeader.serialize_flags_and_stage.
  destruct (TcpMigHeader.flag_load h), (TcpMigHeader.flag_next_fragment h),
    (TcpMigHeader.stage h); by vm_compute.
Qed.

Lemma mig_serialize_bytes h buf ip data :
  length buf = 28%nat ->
  exists c, u16_ok c /\ TcpMigHeader.serialize h buf ip data = Ret (mig_bytes h c) /\
    TcpMigHeader.checksum ip (mig_bytes h c) data = Ret c.
Proof.
  intros Hb. unfold TcpMigHeader.serialize, slice, TCPMIG_HEADER_SIZE, octets.
  rewrite Hb. cbn [Nat.leb andb mbind outcome_bind].
  rewrite mig_writes by (done || (rewrite length_take, length_drop; lia)).
  match goal with |- context [TcpMigHeader.checksum ip (?a ++ ?b ++ ?c) data] =>
    destruct (mig_checksum_defined ip a b c data) as (ck & Hc & Hok); [reflexivity..|] end.
  exists ck. split; [done|]. rewrite Hc. split.
  - cbn [mbind outcome_bind].
    rewrite write_at_mid by reflexivity. cbn [mbind outcome_bind].
    unfold write_at. rewrite (proj2 (Nat.leb_le _ _)) by (rewrite Hb; simpl; lia).
    rewrite drop_ge by (rewrite Hb; simpl; lia). by rewrite take_0, app_nil_r.
  - rewrite <- Hc. unfold mig_bytes. apply mig_checksum_skip; reflexivity.
Qed.

Lemma mig_reads h ck rest :
  mig_wf h -> u16_ok ck ->
  let buf := mig_bytes h ck ++ rest in
  read_u16 buf 0 = Ret (TcpMigHeader.source_udp_port h) /\
  read_u16 buf 2 = Ret (TcpMigHeader.dest_udp_port h) /\
  read_u16 buf 4 = Ret (TcpMigHeader.length h) /\ read_u16 buf 6 = Ret ck /\
  read_u32 buf 8 = Ret MAGIC_NUMBER /\
  read_u32 buf 12 = Ret (ip (TcpMigHeader.origin h)) /\ read_u16 buf 16 = Ret (port (TcpMigHeader.origin h)) /\
  read_u32 buf 18 = Ret (ip (TcpMigHeader.client h)) /\ read_u16 buf 22 = Ret (port (TcpMigHeader.client h)) /\
  read_u16 buf 24 = Ret (TcpMigHeader.fragment_offset h) /\
  index buf 26 = Ret (TcpMigHeader.serialize_flags_and_stage h).
Proof.
  intros [] Hc buf. subst buf. unfold mig_bytes, read_u16, read_u32, slice, index.
  cbn [be16 be32 app length Nat.leb Nat.add Nat.sub andb drop take mbind outcome_bind get16 get32
       lookup list_lookup].
  rewrite !be16_get16', !be32_get32' by (done || (unfold MAGIC_NUMBER, u32_ok; lia)). done.
Qed.

Lemma mig_parse_bytes h ck ip data :
  mig_wf h -> u16_ok ck -> TcpMigHeader.checksum ip (mig_bytes h ck) data = Ret ck ->
  TcpMigHeader.parse ip (mig_bytes h ck ++ data) = Ret (Ok (h, data)).
Proof.
  intros Hwf Hok Hck. unfold TcpMigHeader.parse, TcpMigHeader.parse_from_slice, TCPMIG_HEADER_SIZE.
  rewrite (proj2 (Nat.ltb_ge _ _)) by (rewrite length_app; simpl; lia).
  destruct (mig_reads h ck data Hwf Hok) as (_ & _ & _ & _ & -> & _).
  cbn [mbind outcome_bind]. rewrite Z.eqb_refl. cbn [negb].
  unfold slice, slice_from. rewrite !(proj2 (Nat.leb_le 28 _)) by (rewrite length_app; simpl; lia).
  cbn [Nat.leb andb mbind outcome_bind]. rewrite drop_0, take_app_length', drop_app_length' by reflexivity.
  pose proof (mig_reads h ck [] Hwf Hok) as Hr. rewrite app_nil_r in Hr. cbv zeta in Hr.
  destruct Hr as (-> & -> & -> & -> & _ & -> & -> & -> & -> & -> & ->).
  cbn [mbind outcome_bind]. destruct (stage_flags_byte h) as (-> & -> & ->).
  cbn [mbind outcome_bind]. rewrite Hck. cbn [mbind outcome_bind].
  rewrite Z.eqb_refl, andb_false_r. by destruct h as [[] []].
Qed.

(** *** Fragmentation *)

(** The [i]-th of [n] fragments of a segment. *)
Definition nth_fragment (s : TcpMigSegment) (n i : nat) (d : Buffer.t) : TcpMigSegment :=
  TcpMigFragmenter.with_data s
    (TcpMigHeader.set_fragment (tcpmig_hdr s) (Nat.ltb (i + 1) n) (Z.of_nat i)) d.

Lemma fragmenter_next_small s cf :
  (length (mig_data s) <= MAX_FRAGMENT_SIZE)%nat -> (mig_data s <> [] \/ cf = 0) ->
  TcpMigFragmenter.next (TcpMigFragmenter.mk s cf) =
    Ret (Some (TcpMigFragmenter.with_data s (TcpMigHeader.set_fragment (tcpmig_hdr s) false cf) (mig_data s)),
         TcpMigFragmenter.mk (TcpMigFragmenter.with_data s (tcpmig_hdr s) []) (wrap16 (cf + 1))).
Proof.
  intros Hs Hne. unfold TcpMigFragmenter.next.
  cbn [TcpMigFragmenter.segment TcpMigFragmenter.current_fragment].
  assert (E : (Nat.eqb (length (mig_data s)) 0 && negb (cf =? 0))%bool = false).
  { destruct Hne as [Hne | ->]; [|apply andb_false_r].
    destruct (mig_data s); [done|]. done. }
  rewrite E, (proj2 (Nat.leb_le _ _)) by done. done.
Qed.

Lemma fragmenter_next_large s cf :
  (MAX_FRAGMENT_SIZE < length (mig_data s))%nat ->
  TcpMigFragmenter.next (TcpMigFragmenter.mk s cf) =
    Ret (Some (TcpMigFragmenter.with_data s (TcpMigHeader.set_fragment (tcpmig_hdr s) true cf)
                 (take MAX_FRAGMENT_SIZE (mig_data s))),
         TcpMigFragmenter.mk (TcpMigFragmenter.with_data s (tcpmig_hdr s)
                 (drop MAX_FRAGMENT_SIZE (mig_data s))) (wrap16 (cf + 1))).
Proof.
  intros Hl. unfold TcpMigFragmenter.next.
  cbn [TcpMigFragmenter.segment TcpMigFragmenter.current_fragment].
  rewrite (proj2 (Nat.eqb_neq _ _)), (proj2 (Nat.leb_gt _ _)) by lia. cbn [andb].
  rewrite buffer_trim_ok, buffer_adjust_ok by (unfold blen; lia). cbn [mbind outcome_bind].
  replace (blen (mig_data s) - (blen (mig_data s) - Z.of_nat MAX_FRAGMENT_SIZE))
    with (Z.of_nat MAX_FRAGMENT_SIZE) by lia.
  by rewrite !Nat2Z.id.
Qed.

Lemma fragmenter_next_done s cf :
  mig_data s = [] -> cf <> 0 ->
  TcpMigFragmenter.next (TcpMigFragmenter.mk s cf) = Ret (None, TcpMigFragmenter.mk s cf).
Proof.
  intros Hd Hc. unfold TcpMigFragmenter.next. cbn [TcpMigFragmenter.segment TcpMigFragmenter.current_fragment].
  rewrite Hd. by rewrite (proj2 (Z.eqb_neq _ _)).
Qed.

(** The pieces of a byte string, as the fragmenter cuts it. *)
Lemma collect_spec fuel s (cf : nat) :
  (length (mig_data s) / MAX_FRAGMENT_SIZE + 2 <= fuel)%nat ->
  Z.of_nat (cf + length (mig_data s) / MAX_FRAGMENT_SIZE) < 65535 ->
  (mig_data s <> [] \/ cf = 0%nat) ->
  exists D : list Buffer.t, D <> [] /\ concat D = mig_data s /\
    Forall (fun d => length d <= MAX_FRAGMENT_SIZE)%nat D /\
    (2 <= length D -> mig_data s <> [])%nat /\
    TcpMigFragmenter.collect fuel (TcpMigFragmenter.mk s (Z.of_nat cf)) =
      Ret (imap (fun i d => nth_fragment s (cf + length D) (cf + i) d) D).
Proof.
  revert s cf. induction fuel as [|fuel IH]; intros s cf Hf Hcf Hne; [lia|].
  cbn [TcpMigFragmenter.collect].
  destruct (Nat.leb_spec (length (mig_data s)) MAX_FRAGMENT_SIZE) as [Hs|Hl].
  - exists [mig_data s]. rewrite fragmenter_next_small by (done || (destruct Hne; [by left|right; lia])).
    cbn [mbind outcome_bind]. destruct fuel as [|fuel]; [lia|]. cbn [TcpMigFragmenter.collect].
    assert (wrap16 (Z.of_nat cf + 1) <> 0) by (rewrite wrap16_small; unfold u16_ok; lia).
    rewrite fragmenter_next_done by done. cbn [mbind outcome_bind].
    repeat split; try done.
    + simpl. apply app_nil_r.
    + constructor; [done|constructor].
    + simpl. lia.
    + simpl. unfold nth_fragment. rewrite Nat.add_0_r, (proj2 (Nat.ltb_ge _ _)) by lia. done.
  - rewrite fragmenter_next_large by done. cbn [mbind outcome_bind].
    assert (Hq : (length (drop MAX_FRAGMENT_SIZE (mig_data s)) / MAX_FRAGMENT_SIZE + 1 =
                  length (mig_data s) / MAX_FRAGMENT_SIZE)%nat).
    { rewrite length_drop.
      replace (length (mig_data s)) with (length (mig_data s) - MAX_FRAGMENT_SIZE + 1 * MAX_FRAGMENT_SIZE)%nat at 2 by lia.
      rewrite Nat.div_add by (unfold MAX_FRAGMENT_SIZE; lia). done. }
    rewrite wrap16_small by (unfold u16_ok; lia).
    replace (Z.of_nat cf + 1) with (Z.of_nat (S cf)) by lia.
    destruct (IH (TcpMigFragmenter.with_data s (tcpmig_hdr s) (drop MAX_FRAGMENT_SIZE (mig_data s))) (S cf))
      as (D & HD & Hcat & Hall & _ & ->); cbn [TcpMigFragmenter.with_data mig_data] in *.
    + lia.
    + lia.
    + left. intros E%(f_equal length). rewrite length_drop in E. simpl in E. lia.
    + exists (take MAX_FRAGMENT_SIZE (mig_data s) :: D). repeat split; try done.
      * simpl. rewrite Hcat. apply take_drop.
      * constructor; [rewrite length_take; lia|done].
      * intros _ E. rewrite E in Hl. simpl in Hl. lia.
      * cbn [mbind outcome_bind imap]. do 2 f_equal.
        -- unfold nth_fragment. rewrite Nat.add_0_r, (proj2 (Nat.ltb_lt _ _)); [done|].
           destruct D; [done|]. simpl. lia.
        -- apply imap_ext. intros i d _. cbn [compose length].
           replace (cf + S i)%nat with (S cf + i)%nat by lia.
           replace (cf + S (length D))%nat with (S cf + length D)%nat by lia. done.
Qed.

(** *** Reassembly *)

Section reassembly.
Context (h : TcpMigHeader.t) (D : list Buffer.t).

Definition piece (i : nat) : Buffer.t := match D !! i with Some b => b | None => [] end.

(** Fragment [i] as it arrives. *)
Definition packet (i : nat) : TcpMigHeader.t * Buffer.t :=
  (TcpMigHeader.set_fragment h (Nat.ltb (i + 1) (length D)) (Z.of_nat i), piece i).

(** The defragmenter after the fragments [P] arrived, in any order. *)
Record defrag_inv (P : list nat) (d : TcpMigDefragmenter.t) : Prop := {
  di_count : TcpMigDefragmenter.current_fragments d = length P;
  di_size : TcpMigDefragmenter.current_size d = sum_list_with (fun i => length (piece i)) P;
  di_len : (length (TcpMigDefragmenter.fragments d) <= length D)%nat;
  di_in : forall i, i ∈ P -> (i < length (TcpMigDefragmenter.fragments d))%nat;
  di_look : forall i, (i < length (TcpMigDefragmenter.fragments d))%nat ->
    TcpMigDefragmenter.fragments d !! i = Some (if decide (i ∈ P) then piece i else []);
  di_total : TcpMigDefragmenter.total_fragments d =
    if decide ((length D - 1)%nat ∈ P) then Some (length D) else None
}.

Lemma defrag_inv_new : defrag_inv [] TcpMigDefragmenter.new.
Proof.
  constructor; simpl; try done; try lia.
  intros i Hi. by apply not_elem_of_nil in Hi.
Qed.

(** The state after storing fragment [i], before the completeness test. *)
Definition store (d : TcpMigDefragmenter.t) (i : nat) : TcpMigDefragmenter.t :=
  TcpMigDefragmenter.mk
    (<[i := piece i]> (TcpMigDefragmenter.fragments d ++
        replicate (i + 1 - length (TcpMigDefragmenter.fragments d)) []))
    (if Nat.ltb (i + 1) (length D) then TcpMigDefragmenter.total_fragments d else Some (length D))
    (TcpMigDefragmenter.current_fragments d + 1)
    (TcpMigDefragmenter.current_size d + length (piece i)).

Lemma defrag_store_inv P d i :
  defrag_inv P d -> (i < length D)%nat -> i ∉ P -> defrag_inv (i :: P) (store d i).
Proof.
  intros [Hc Hs Hl Hin Hlk Ht] Hi Hni. constructor; unfold store; cbn -[Nat.ltb decide].
  - lia.
  - lia.
  - rewrite length_insert, length_app, length_replicate. lia.
  - intros j Hj. rewrite length_insert, length_app, length_replicate.
    apply elem_of_cons in Hj as [-> | Hj]; [lia|]. specialize (Hin j Hj). lia.
  - intros j. rewrite length_insert, length_app, length_replicate. intros Hj.
    destruct (decide (j = i)) as [-> | Hne].
    + rewrite list_lookup_insert_eq by (rewrite length_app, length_replicate; lia).
      by rewrite decide_True by set_solver.
    + rewrite list_lookup_insert_ne by done.
      destruct (decide (j < length (TcpMigDefragmenter.fragments d))%nat) as [Hlt|Hge].
      * rewrite lookup_app_l, Hlk by done. f_equal.
        destruct (decide (j ∈ P)); [by rewrite decide_True by set_solver|].
        rewrite decide_False; [done|]. by intros [?|?]%elem_of_cons.
      * rewrite lookup_app_r, lookup_replicate_2 by lia.
        rewrite decide_False; [done|]. intros [?|Hj']%elem_of_cons; [done|].
        apply Hin in Hj'. lia.
  - rewrite Ht. destruct (Nat.ltb_spec (i + 1) (length D)).
    + destruct (decide (_ ∈ P)) as [?|?];
        [by rewrite decide_True by set_solver|].
      rewrite decide_False; [done|]. intros [?|?]%elem_of_cons; [lia|done].
    + rewrite decide_True; [done|]. replace i with (length D - 1)%nat by lia. set_solver.
Qed.

(** One arrival stores the fragment, and completes only when the count says so. *)
Lemma defragment_store P d i :
  defrag_inv P d -> (i < length D)%nat -> (2 <= length D)%nat ->
  TcpMigDefragmenter.defragment d (fst (packet i)) (snd (packet i)) =
    match TcpMigDefragmenter.total_fragments (store d i) with
    | None => Ret (store d i, None)
    | Some count =>
        if negb (Nat.eqb count (TcpMigDefragmenter.current_fragments (store d i)))
        then Ret (store d i, None) else
        if Nat.eqb (TcpMigDefragmenter.current_size (store d i)) 0 then Panic "zero-capacity buffer" else
        buffer ← TcpMigDefragmenter.copy_fragments
          (replicate (TcpMigDefragmenter.current_size (store d i)) 0) 0
          (TcpMigDefragmenter.fragments (store d i));
        Ret (TcpMigDefragmenter.reset (store d i), Some (TcpMigHeader.set_fragment h false 0, buffer))
    end.
Proof.
  intros Hinv Hi Hn. unfold TcpMigDefragmenter.defragment, packet. cbn [fst snd].
  cbn [TcpMigHeader.set_fragment TcpMigHeader.fragment_offset TcpMigHeader.flag_next_fragment].
  rewrite Nat2Z.id. pose proof (di_len _ _ Hinv).
  destruct (Nat.ltb_spec (i + 1) (length D)) as [Hlt|Hge]; cbn [negb andb].
  - unfold store. rewrite (proj2 (Nat.ltb_lt _ _)) by lia. done.
  - rewrite (proj2 (Nat.eqb_neq i 0)), (proj2 (Nat.ltb_ge (i + 1) (length (TcpMigDefragmenter.fragments d)))) by lia.
    unfold store. rewrite (proj2 (Nat.ltb_ge (i + 1) (length D))) by lia.
    replace (i + 1)%nat with (length D) at 1 by lia. done.
Qed.

Lemma copy_fragments_spec frags done rest :
  length rest = length (concat frags) ->
  TcpMigDefragmenter.copy_fragments (done ++ rest) (length done) frags = Ret (done ++ concat frags).
Proof.
  revert done rest. induction frags as [|f frags IH]; intros dn rest Hl; cbn [concat] in *.
  - destruct rest; [by rewrite app_nil_r|done].
  - rewrite length_app in Hl. cbn [TcpMigDefragmenter.copy_fragments].
    rewrite <- (take_drop (length f) rest).
    rewrite write_at_mid by (done || (rewrite length_take; lia)). cbn [mbind outcome_bind].
    rewrite app_assoc, <- length_app, IH by (rewrite length_drop; lia).
    by rewrite <- app_assoc.
Qed.

Lemma piece_lookup i : (i < length D)%nat -> D !! i = Some (piece i).
Proof. intros Hi. unfold piece. by destruct (lookup_lt_is_Some_2 D i Hi) as [x ->]. Qed.

Lemma pieces_all : (piece <$> seq 0 (length D)) = D.
Proof.
  apply list_eq. intros i. rewrite list_lookup_fmap. unfold piece.
  destruct (D !! i) as [x|] eqn:E.
  - rewrite lookup_seq_lt by (by eapply lookup_lt_Some).
    cbn. by rewrite E.
  - apply lookup_ge_None in E. rewrite lookup_seq_ge by lia. done.
Qed.

Lemma sum_length_concat (l : list Buffer.t) : sum_list_with length l = length (concat l).
Proof. induction l as [|x l IH]; [done|]. simpl. by rewrite length_app, IH. Qed.

(** When every fragment arrived, the store is the list of pieces. *)
Lemma defrag_full P d :
  defrag_inv P d -> P ≡ₚ seq 0 (length D) -> D <> [] ->
  TcpMigDefragmenter.fragments d = D /\
  TcpMigDefragmenter.current_size d = length (concat D) /\
  TcpMigDefragmenter.total_fragments d = Some (length D) /\
  TcpMigDefragmenter.current_fragments d = length D.
Proof.
  intros [Hc Hs Hl Hin Hlk Ht] HP Hne.
  assert (Hmem : forall i, (i < length D)%nat -> i ∈ P).
  { intros i Hi. rewrite HP. apply elem_of_seq. lia. }
  assert (0 < length D)%nat by (destruct D; [done|simpl; lia]).
  assert (Hlen : length (TcpMigDefragmenter.fragments d) = length D).
  { pose proof (Hin _ (Hmem (length D - 1)%nat ltac:(lia))). lia. }
  repeat split.
  - apply list_eq. intros i. destruct (decide (i < length D)%nat) as [Hi|Hi].
    + rewrite Hlk, decide_True by (auto with lia). symmetry. by apply piece_lookup.
    + rewrite !lookup_ge_None_2 by lia. done.
  - rewrite Hs, HP, <- sum_length_concat. rewrite <- pieces_all at 2.
    clear. induction (seq 0 (length D)) as [|i l IH]; [done|]. simpl. by rewrite IH.
  - rewrite Ht, decide_True; [done|]. apply Hmem. lia.
  - by rewrite Hc, HP, length_seq.
Qed.

Lemma defragment_all_spec P order d :
  defrag_inv P d -> (P ++ order) ≡ₚ seq 0 (length D) -> order <> [] ->
  (2 <= length D)%nat -> concat D <> [] ->
  exists d', TcpMigDefragmenter.defragment_all d (packet <$> order) =
    Ret (d', replicate (length order - 1) None ++
              [Some (TcpMigHeader.set_fragment h false 0, concat D)]) /\
    TcpMigDefragmenter.fragments d' = [] /\ TcpMigDefragmenter.total_fragments d' = None /\
    TcpMigDefragmenter.current_fragments d' = 0%nat.
Proof.
  revert P d. induction order as [|i order IH]; intros P d Hinv HP Hne Hn Hcat; [done|].
  assert (Hi : (i < length D)%nat).
  { assert (i ∈ seq 0 (length D)) by (rewrite <- HP; set_solver). apply elem_of_seq in H. lia. }
  assert (Hnd : NoDup (P ++ i :: order)) by (rewrite HP; apply NoDup_seq).
  assert (Hni : i ∉ P) by (apply NoDup_app in Hnd as (_ & Hd & _); intros ?; by eapply Hd; [|left]).
  pose proof (defrag_store_inv P d i Hinv Hi Hni) as Hinv'.
  assert (HP' : (i :: P) ++ order ≡ₚ seq 0 (length D)) by (rewrite <- HP; solve_Permutation).
  rewrite fmap_cons. cbn [TcpMigDefragmenter.defragment_all].
  destruct (packet i) as [hd bf] eqn:Ep.
  pose proof (defragment_store P d i Hinv Hi Hn) as Hst. rewrite Ep in Hst. cbn [fst snd] in Hst.
  destruct order as [|j order].
  - rewrite app_nil_r in HP'.
    destruct (defrag_full (i :: P) (store d i) Hinv' HP') as (Hf & Hs & Ht & Hc); [by intros ->|].
    rewrite Hst, Ht, Hc, Nat.eqb_refl, Hf, Hs. cbn [negb].
    rewrite (proj2 (Nat.eqb_neq _ _)) by (destruct (concat D); simpl; [done|lia]).
    pose proof (copy_fragments_spec D [] (replicate (length (concat D)) 0)) as Hcp.
    cbn [app length] in Hcp. rewrite Hcp by apply length_replicate. eexists. split; [reflexivity|]. done.
  - assert (Hlt : (TcpMigDefragmenter.current_fragments (store d i) < length D)%nat).
    { rewrite (di_count _ _ Hinv'). apply Permutation_length in HP'. rewrite length_app, length_seq in HP'. simpl in *. lia. }
    assert (E : TcpMigDefragmenter.defragment d hd bf = Ret (store d i, None)).
    { rewrite Hst, (di_total _ _ Hinv'). case_decide; [|done].
      by rewrite (proj2 (Nat.eqb_neq _ _)) by lia. }
    rewrite E. cbn [mbind outcome_bind].
    destruct (IH (i :: P) (store d i) Hinv' HP') as (d' & E' & Hrest); [done..|].
    exists d'. rewrite E'. split; [|done].
    cbn [mbind outcome_bind length Nat.sub]. by rewrite Nat.sub_0_r.
Qed.

End reassembly.

(** Any arrival order of the fragments is an order of their indices. *)
Lemma arrival_order s (D : list Buffer.t) arrival :
  arrival ≡ₚ imap (fun i d => nth_fragment s (0 + length D) (0 + i) d) D ->
  exists order, order ≡ₚ seq 0 (length D) /\
    (fun f => (tcpmig_hdr f, mig_data f)) <$> arrival = packet (tcpmig_hdr s) D <$> order.
Proof.
  intros Harr.
  assert (Hpk : (fun f => (tcpmig_hdr f, mig_data f)) <$>
      imap (fun i d => nth_fragment s (0 + length D) (0 + i) d) D = packet (tcpmig_hdr s) D <$> seq 0 (length D)).
  { apply list_eq. intros i. rewrite !list_lookup_fmap, list_lookup_imap.
    destruct (decide (i < length D)%nat) as [Hi|Hi].
    - rewrite (piece_lookup D i Hi), lookup_seq_lt by done. done.
    - rewrite (lookup_ge_None_2 D), (lookup_ge_None_2 (seq _ _)) by (rewrite ?length_seq; lia). done. }
  apply (Permutation_map (fun f => (tcpmig_hdr f, mig_data f))) in Harr.
  change (map ?f ?l) with (f <$> l) in Harr. rewrite Hpk in Harr.
  destruct (Permutation_map_inv _ _ Harr) as (order & E & Hord). by exists order.
Qed.

(** Every way the fragments of a segment can arrive gives it back. *)
Lemma reassembles (s : TcpMigSegment) (fuel : nat) :
  Z.of_nat (length (mig_data s) / MAX_FRAGMENT_SIZE) < U16_MAX ->
  (length (mig_data s) / MAX_FRAGMENT_SIZE + 2 <= fuel)%nat ->
  exists frags,
    TcpMigFragmenter.collect fuel (TcpMigFragmenter.fragments s) = Ret frags /\
    Forall (fun f => mig_body_size f <= MAX_FRAGMENT_SIZE)%nat frags /\
    forall arrival, arrival ≡ₚ frags ->
      exists d,
        TcpMigDefragmenter.defragment_all TcpMigDefragmenter.new
            ((fun f => (tcpmig_hdr f, mig_data f)) <$> arrival) =
          Ret (d, replicate (length frags - 1) None ++
                    [Some (TcpMigHeader.set_fragment (tcpmig_hdr s) false 0, mig_data s)]) /\
        TcpMigDefragmenter.fragments d = [] /\ TcpMigDefragmenter.total_fragments d = None /\
        TcpMigDefragmenter.current_fragments d = 0%nat.
Proof.
  intros Hn Hf.
  destruct (collect_spec fuel s 0 Hf) as (D & HD & Hcat & Hall & Hne & Hcol);
    [unfold U16_MAX in Hn; lia|by right|].
  eexists. split; [exact Hcol|]. split.
  - apply Forall_lookup_2. intros i f Hi. rewrite list_lookup_imap in Hi.
    apply fmap_Some in Hi as (d & Hd & ->). by eapply (Forall_lookup_1 _ _ _ _ Hall).
  - intros arrival Harr. rewrite length_imap.
    destruct (arrival_order s D arrival Harr) as (order & Hord & ->).
    destruct (decide (2 <= length D)%nat) as [H2|H2].
    + assert (Hlen : length order = length D) by (rewrite Hord; apply length_seq).
      destruct (defragment_all_spec (tcpmig_hdr s) D [] order TcpMigDefragmenter.new) as (d & E & Hrest);
        [apply defrag_inv_new|done|intros ->; rewrite <- Hlen in H2; simpl in H2; lia|done|rewrite Hcat; auto|].
      exists d. rewrite E, Hlen, Hcat. done.
    + destruct D as [|x [|y D]]; [done| |simpl in H2; lia].
      simpl in Hcat. rewrite app_nil_r in Hcat. subst x.
      apply Permutation_singleton_r in Hord as ->. eexists. split; [reflexivity|]. done.
Qed.

(** ** Properties *)

(** TCPMig headers round-trip: any header, serialized with its checksum in front of any
    payload, is recognised as TCPMig and parses back to itself and that payload. *)
Theorem tcpmig_header_roundtrip (h : TcpMigHeader.t) (buf : list Z) (ip : Ipv4Header.t) (data : list Z) :
  mig_wf h -> length buf = TCPMIG_HEADER_SIZE ->
  exists bytes,
    TcpMigHeader.serialize h buf ip data = Ret bytes /\ length bytes = TCPMIG_HEADER_SIZE /\
    TcpMigHeader.is_tcpmig (bytes ++ data) = Ret true /\
    TcpMigHeader.parse ip (bytes ++ data) = Ret (Ok (h, data)).
Proof.
  intros Hwf Hb. destruct (mig_serialize_bytes h buf ip data Hb) as (c & Hc & Hs & Hck).
  exists (mig_bytes h c). split; [done|]. split; [done|]. split; [|by apply mig_parse_bytes].
  unfold TcpMigHeader.is_tcpmig, TCPMIG_HEADER_SIZE.
  rewrite (proj2 (Nat.leb_le _ _)) by (rewrite length_app; simpl; lia).
  destruct (mig_reads h c data Hwf Hc) as (_ & _ & _ & _ & -> & _). done.
Qed.

Definition mig_example : TcpMigHeader.t :=
  TcpMigHeader.mk (mkAddr 167772417 10000) (mkAddr 167772418 5000) 28 2 true true
    MigrationStage.ConnectionState 10000 10001.

Lemma tcpmig_header_roundtrip_witness :
  exists bytes,
    TcpMigHeader.serialize mig_example (replicate 28 5) (Ipv4Header.new 1 2 UDP) [1; 2; 3] = Ret bytes /\
    TcpMigHeader.parse (Ipv4Header.new 1 2 UDP) (bytes ++ [1; 2; 3]) = Ret (Ok (mig_example, [1; 2; 3])).
Proof.
  destruct (tcpmig_header_roundtrip mig_example (replicate 28 5) (Ipv4Header.new 1 2 UDP) [1; 2; 3])
    as (b & H1 & _ & _ & H2).
  - constructor; unfold u16_ok, u32_ok; simpl; lia.
  - reflexivity.
  - exists b. split; [exact H1 | exact H2].
Defined.

(** C31: fragmentation and reassembly.  The fragmenter ends and cuts a segment of any size up
    to 65535 fragments into pieces of at most [MAX_FRAGMENT_SIZE] bytes; in whatever order those
    pieces reach a fresh defragmenter, it answers nothing until the last one and then gives back
    the segment's header and exactly its payload, and it holds no fragment afterwards. *)
Theorem tcpmig_reassembly (s : TcpMigSegment) (fuel : nat) :
  Z.of_nat (length (mig_data s) / MAX_FRAGMENT_SIZE) < U16_MAX ->
  (length (mig_data s) / MAX_FRAGMENT_SIZE + 2 <= fuel)%nat ->
  exists frags,
    TcpMigFragmenter.collect fuel (TcpMigFragmenter.fragments s) = Ret frags /\
    Forall (fun f => mig_body_size f <= MAX_FRAGMENT_SIZE)%nat frags /\
    forall arrival, arrival ≡ₚ frags ->
      exists d,
        TcpMigDefragmenter.defragment_all TcpMigDefragmenter.new
            ((fun f => (tcpmig_hdr f, mig_data f)) <$> arrival) =
          Ret (d, replicate (length frags - 1) None ++
                    [Some (TcpMigHeader.set_fragment (tcpmig_hdr s) false 0, mig_data s)]) /\
        TcpMigDefragmenter.fragments d = [] /\ TcpMigDefragmenter.total_fragments d = None /\
        TcpMigDefragmenter.current_fragments d = 0%nat.
Proof. apply reassembles. Qed.

Lemma tcpmig_reassembly_witness :
  let s := mkTcpMigSegment (Ethernet2Header.new [] [] EtIpv4) (Ipv4Header.new 1 2 UDP) mig_example
             (replicate (Nat.mul 1500 2) 7) in
  exists frags,
    TcpMigFragmenter.collect 4 (TcpMigFragmenter.fragments s) = Ret frags /\
    exists d, TcpMigDefragmenter.defragment_all TcpMigDefragmenter.new
            ((fun f => (tcpmig_hdr f, mig_data f)) <$> reverse frags) =
          Ret (d, replicate (length frags - 1) None ++
                    [Some (TcpMigHeader.set_fragment mig_example false 0, mig_data s)]).
Proof.
  intros s. destruct (tcpmig_reassembly s 4) as (frags & H1 & _ & H2).
  - vm_compute. reflexivity.
  - apply Nat.leb_le. vm_compute. reflexivity.
  - exists frags. split; [exact H1|].
    destruct (H2 (reverse frags)) as (d & E & _); [apply reverse_Permutation|].
    exists d. exact E.
Defined.
