(* ===== verification/Congestion.v ===== *)
(** * Congestion control interface
    (src/src/rust/inetstack/protocols/tcp/established/congestion_control/{mod,none}.rs)

    The three traits a connection calls into ([SlowStartCongestionAvoidance],
    [FastRetransmitRecovery], [LimitedTransmit]) as one class of state transformers on the
    algorithm's state [C]; [None], which takes every default method, is an instance.  The
    laws a connection relies on are a second class. *)

From S2P Require Import Prelude SeqNumber.

(** [now] is what [Instant::now()] reads in the callback; durations are in nanoseconds. *)
Class CongestionControl (C : Type) := {
  cc_get_cwnd : C -> Z;
  cc_on_cwnd_check_before_send : forall now : Z, C -> outcome C;
  cc_on_ack_received :
    forall (now rto : Z) (send_unacked send_next ack_seq_no : Seq.SeqNumber), C -> outcome C;
  cc_on_rto : forall send_unacked : Seq.SeqNumber, C -> outcome C;
  cc_on_send : forall (now rto num_sent_bytes : Z), C -> outcome C;
  cc_get_duplicate_ack_count : C -> Z;
  cc_get_retransmit_now_flag : C -> bool;
  cc_on_fast_retransmit : C -> outcome C;
  cc_get_limited_transmit_cwnd_increase : C -> Z
}.

(** What a connection relies on: states of the algorithm that are [cc_ok] stay so, and no callback
    panics in them. *)
Class CongestionControlLaws (C : Type) `{CongestionControl C} := {
  cc_ok : C -> Prop;
  cc_on_cwnd_check_total now c :
    cc_ok c -> exists c', cc_on_cwnd_check_before_send now c = Ret c' /\ cc_ok c';
  cc_on_ack_total now rto una nxt ack c :
    cc_ok c -> exists c', cc_on_ack_received now rto una nxt ack c = Ret c' /\ cc_ok c';
  cc_on_rto_total una c : cc_ok c -> exists c', cc_on_rto una c = Ret c' /\ cc_ok c';
  cc_on_send_total now rto n c : cc_ok c -> exists c', cc_on_send now rto n c = Ret c' /\ cc_ok c';
  cc_on_fast_retransmit_total c : cc_ok c -> exists c', cc_on_fast_retransmit c = Ret c' /\ cc_ok c'
}.

(** The constructor a control block is given ([CongestionControlConstructor]); the code passes no
    options. *)
Definition CongestionControlConstructor (C : Type) : Type := Z -> Seq.SeqNumber -> C.

(** [none::None]: congestion control which does nothing. *)
Inductive CcNone := mkCcNone.

Definition CcNone_new : CongestionControlConstructor CcNone := fun _ _ => mkCcNone.

#[export] Instance CcNone_congestion_control : CongestionControl CcNone := {
  cc_get_cwnd := fun _ => U32_MAX;
  cc_on_cwnd_check_before_send := fun _ c => Ret c;
  cc_on_ack_received := fun _ _ _ _ _ c => Ret c;
  cc_on_rto := fun _ c => Ret c;
  cc_on_send := fun _ _ _ c => Ret c;
  cc_get_duplicate_ack_count := fun _ => 0;
  cc_get_retransmit_now_flag := fun _ => false;
  cc_on_fast_retransmit := fun c => Ret c;
  cc_get_limited_transmit_cwnd_increase := fun _ => 0
}.

#[export] Instance CcNone_laws : CongestionControlLaws CcNone.
Proof. by apply (Build_CongestionControlLaws _ _ (fun _ => True)); intros; eexists. Defined.
