(* ===== verification/Rto.v ===== *)
(** * The retransmission timeout calculator
    (src/src/rust/inetstack/protocols/tcp/established/rto.rs)

    RFC 6298's estimator in binary64 arithmetic, with the executable IEEE 754 operations of the
    Standard Library's [SpecFloat] (53 bits of precision, exponent bound 1024), so a run of
    the model rounds as the program does.  A [Duration] is its number of nanoseconds. *)

From Stdlib Require Import SpecFloat.
From S2P Require Import Prelude.

Module F64.

Definition prec : Z := 53.
Definition emax : Z := 1024.

Definition t : Type := spec_float.

Definition add (x y : t) : t := SFadd prec emax x y.
Definition sub (x y : t) : t := SFsub prec emax x y.
Definition mul (x y : t) : t := SFmul prec emax x y.
Definition div (x y : t) : t := SFdiv prec emax x y.
Definition abs (x : t) : t := SFabs x.
Definition ltb (x y : t) : bool := SFltb x y.

(** [z as f64], rounded to nearest even. *)
Definition of_Z (z : Z) : t := binary_normalize prec emax z 0 false.

(** A decimal literal n/d: the double nearest to it. *)
Definition lit (n d : Z) : t := div (of_Z n) (of_Z d).

(** [f64::max]: a NaN argument is ignored. *)
Definition max (x y : t) : t :=
  match x, y with
  | S754_nan, _ => y
  | _, S754_nan => x
  | _, _ => if ltb x y then y else x
  end.

(** [f64::clamp]: NaN passes through. *)
Definition clamp (x lo hi : t) : t :=
  if ltb x lo then lo else if ltb hi x then hi else x.

Definition NANOS_PER_SEC : Z := 1000000000.

(** [Duration::as_secs_f64] *)
Definition as_secs_f64 (d : Z) : t :=
  add (of_Z (d / NANOS_PER_SEC)) (div (of_Z (d mod NANOS_PER_SEC)) (of_Z NANOS_PER_SEC)).

(** n / d rounded to nearest, ties to even. *)
Definition round_half_even (n d : Z) : Z :=
  let q := n / d in
  let r := n mod d in
  if 2 * r <? d then q
  else if d <? 2 * r then q + 1
  else if Z.even q then q else q + 1.

(** [Duration::from_secs_f64]: exact value in nanoseconds, rounded; panics on negative, NaN or
    overflowing input. *)
Definition from_secs_f64 (x : t) : outcome Z :=
  match x with
  | S754_zero _ => Ret 0
  | S754_finite false m e =>
      let n := if 0 <=? e then Z.pos m * 2^e * NANOS_PER_SEC
               else round_half_even (Z.pos m * NANOS_PER_SEC) (2^(-e)) in
      if 2^64 * NANOS_PER_SEC <=? n
      then Panic "can not convert float seconds to Duration: value is either too big or NaN"
      else Ret n
  | S754_finite true _ _ => Panic "can not convert float seconds to Duration: value is negative"
  | _ => Panic "can not convert float seconds to Duration: value is either too big or NaN"
  end.

End F64.

Module RtoCalculator.

Record t := mk { srtt : F64.t; rttvar : F64.t; rto : F64.t; received_sample : bool }.

Definition new : t := mk (F64.of_Z 1) (F64.of_Z 0) (F64.of_Z 1) false.

Definition LOWER_BOUND_SEC : F64.t := F64.lit 1 10.
Definition UPPER_BOUND_SEC : F64.t := F64.of_Z 60.

Definition update_rto (self : t) (new_rto : F64.t) : t :=
  mk (srtt self) (rttvar self) (F64.clamp new_rto LOWER_BOUND_SEC UPPER_BOUND_SEC)
     (received_sample self).

Definition add_sample (self : t) (rtt : Z) : t :=
  let ALPHA := F64.lit 1 8 in
  let BETA := F64.lit 1 4 in
  let GRANULARITY := F64.lit 1 1000 in
  let one := F64.of_Z 1 in
  let rtt := F64.as_secs_f64 rtt in
  let self :=
    if negb (received_sample self) then
      mk rtt (F64.div rtt (F64.of_Z 2)) (rto self) true
    else
      let rttvar' := F64.add (F64.mul (F64.sub one BETA) (rttvar self))
                             (F64.mul BETA (F64.abs (F64.sub (srtt self) rtt))) in
      let srtt' := F64.add (F64.mul (F64.sub one ALPHA) (srtt self)) (F64.mul ALPHA rtt) in
      mk srtt' rttvar' (rto self) true in
  let new_rto := F64.add (srtt self) (F64.max GRANULARITY (F64.mul (F64.of_Z 4) (rttvar self))) in
  update_rto self new_rto.

Definition back_off (self : t) : t := update_rto self (F64.mul (rto self) (F64.of_Z 2)).

(** [rto()] as a [Duration]. *)
Definition get_rto (self : t) : outcome Z := F64.from_secs_f64 (rto self).

End RtoCalculator.

(** ** Lemmas on the rounded operations

    The estimator only needs to know that its values are never NaN and never negative, that
    their mantissa fits 53 bits, and that a converted duration is finite. *)

(** Not NaN, with a 53-bit mantissa. *)
Definition numeric (x : F64.t) : Prop :=
  match x with
  | S754_nan => False
  | S754_finite _ m _ => Z.pos m <= 2^53
  | _ => True
  end.

Definition nonneg (x : F64.t) : Prop :=
  match x with
  | S754_infinity s | S754_finite s _ _ => s = false
  | _ => True
  end.

(** Finite, with a bounded exponent. *)
Definition finite (B : Z) (x : F64.t) : Prop :=
  match x with
  | S754_finite _ _ e => e <= B
  | S754_zero _ => True
  | _ => False
  end.

Lemma digits_spec p : 2^(Z.pos (digits2_pos p) - 1) <= Z.pos p < 2^(Z.pos (digits2_pos p)).
Proof.
  induction p as [p IH|p IH|]; cbn [digits2_pos].
  - rewrite Pos2Z.inj_succ, (Pos2Z.inj_xI p). rewrite Z.pow_succ_r by lia.
    replace (Z.succ (Z.pos (digits2_pos p)) - 1) with (Z.succ (Z.pos (digits2_pos p) - 1)) by lia.
    rewrite Z.pow_succ_r by lia. lia.
  - rewrite Pos2Z.inj_succ, (Pos2Z.inj_xO p). rewrite Z.pow_succ_r by lia.
    replace (Z.succ (Z.pos (digits2_pos p)) - 1) with (Z.succ (Z.pos (digits2_pos p) - 1)) by lia.
    rewrite Z.pow_succ_r by lia. lia.
  - vm_compute. done.
Qed.

Lemma zdigits_lt m : 0 <= m -> m < 2^(Zdigits2 m).
Proof. destruct m; intros; [done| |lia]. apply digits_spec. Qed.

Lemma zdigits_nonneg m : 0 <= Zdigits2 m.
Proof. destruct m; simpl; lia. Qed.

Lemma zdigits_le m k : 0 <= k -> 0 <= m < 2^k -> Zdigits2 m <= k.
Proof.
  intros Hk Hm. destruct m as [|p|p]; simpl; [lia| |lia].
  pose proof (digits_spec p) as [Hlo _].
  destruct (Z.le_gt_cases (Z.pos (digits2_pos p)) k); [done|]. exfalso.
  assert (2^k <= 2^(Z.pos (digits2_pos p) - 1)) by (apply Z.pow_le_mono_r; lia). lia.
Qed.

Lemma shr_1_spec r : 0 <= shr_m r -> shr_m (shr_1 r) = shr_m r / 2.
Proof.
  destruct r as [[|[p|p|]|p] r s]; cbn; intros; try done; try lia.
  - rewrite (Pos2Z.inj_xI p). Z.div_mod_to_equations. lia.
  - rewrite (Pos2Z.inj_xO p). Z.div_mod_to_equations. lia.
Qed.

Lemma shr_iter_spec p r : 0 <= shr_m r -> shr_m (SpecFloat.iter_pos shr_1 p r) = shr_m r / 2^(Z.pos p).
Proof.
  revert r. induction p as [p IH|p IH|]; intros r Hr; cbn [SpecFloat.iter_pos].
  - assert (0 <= shr_m (shr_1 r)) by (rewrite shr_1_spec by done; Z.div_mod_to_equations; lia).
    rewrite !IH, shr_1_spec; [|done|done|rewrite IH by done; apply Z.div_pos; lia].
    rewrite !Z.div_div by lia. f_equal. rewrite (Pos2Z.inj_xI p).
    rewrite Z.pow_add_r, Z.pow_twice_r by lia. lia.
  - rewrite !IH; [|done|rewrite IH by done; apply Z.div_pos; lia].
    rewrite Z.div_div by lia. f_equal. rewrite (Pos2Z.inj_xO p), Z.pow_twice_r. lia.
  - rewrite shr_1_spec by done. done.
Qed.

(** A shift to [fexp]: the mantissa stays below 2^53 and below what the digits left allow. *)
Lemma shr_fexp_spec m e l :
  0 <= m ->
  let '(r, e') := shr_fexp F64.prec F64.emax m e l in
  0 <= shr_m r < 2^53 /\ e <= e' /\
  (e' = e \/ e' = fexp F64.prec F64.emax (Zdigits2 m + e)) /\
  shr_m r < 2^(Z.max 0 (Zdigits2 m + e - e')).
Proof.
  intros Hm. unfold shr_fexp, shr.
  pose proof (zdigits_lt m Hm) as Hlt. pose proof (zdigits_nonneg m) as Hd.
  assert (Hl : shr_m (shr_record_of_loc m l) = m) by (destruct l as [|[]]; done).
  assert (Hf : Zdigits2 m + e - 53 <= fexp F64.prec F64.emax (Zdigits2 m + e))
    by (unfold fexp, F64.prec; lia).
  destruct (fexp F64.prec F64.emax (Zdigits2 m + e) - e) as [|p|p] eqn:Ek.
  - rewrite Hl. split; [|split; [lia|split; [by left|]]].
    + split; [done|]. eapply Z.lt_le_trans; [exact Hlt|]. apply Z.pow_le_mono_r; lia.
    + replace (Z.max 0 (Zdigits2 m + e - e)) with (Zdigits2 m) by lia. done.
  - rewrite shr_iter_spec by (by rewrite Hl). rewrite Hl.
    assert (Hdiv : m / 2^Z.pos p < 2^(Z.max 0 (Zdigits2 m - Z.pos p))).
    { apply Z.div_lt_upper_bound; [lia|]. rewrite <- Z.pow_add_r by lia.
      eapply Z.lt_le_trans; [exact Hlt|]. apply Z.pow_le_mono_r; lia. }
    split; [|split; [lia|split; [right; lia|]]].
    + split; [apply Z.div_pos; lia|]. eapply Z.lt_le_trans; [exact Hdiv|]. apply Z.pow_le_mono_r; lia.
    + replace (Zdigits2 m + e - (e + Z.pos p)) with (Zdigits2 m - Z.pos p) by lia. done.
  - rewrite Hl. split; [|split; [lia|split; [by left|]]].
    + split; [done|]. eapply Z.lt_le_trans; [exact Hlt|]. apply Z.pow_le_mono_r; lia.
    + replace (Z.max 0 (Zdigits2 m + e - e)) with (Zdigits2 m) by lia. done.
Qed.

Lemma round_even_bounds m l : 0 <= m -> 0 <= round_nearest_even m l <= m + 1.
Proof. intros. destruct l as [|[]]; simpl; try lia. destruct (Z.even m); lia. Qed.

Lemma round_aux_numeric s m e l : 0 <= m -> numeric (binary_round_aux F64.prec F64.emax s m e l) /\
  (s = false -> nonneg (binary_round_aux F64.prec F64.emax s m e l)).
Proof.
  intros Hm. unfold binary_round_aux. pose proof (shr_fexp_spec m e l Hm) as H1.
  destruct (shr_fexp F64.prec F64.emax m e l) as [r e'] eqn:E1. destruct H1 as ([Hr _] & _).
  pose proof (round_even_bounds _ (loc_of_shr_record r) Hr) as Hre.
  pose proof (shr_fexp_spec _ e' loc_Exact (proj1 Hre)) as H2.
  destruct (shr_fexp F64.prec F64.emax (round_nearest_even (shr_m r) (loc_of_shr_record r)) e' loc_Exact)
    as [r2 e2] eqn:E2. destruct H2 as ([Hr2 Hr2'] & _).
  destruct (shr_m r2) as [|q|q]; [done| |lia].
  destruct (e2 <=? F64.emax - F64.prec); [|done]. simpl. split; [lia|done].
Qed.

Lemma round_aux_finite B s m e l k :
  0 <= B <= 900 -> 0 <= k -> 0 <= m < 2^k -> k + e <= B -> e <= B ->
  finite B (binary_round_aux F64.prec F64.emax s m e l).
Proof.
  intros HB Hk Hm Hke He. unfold binary_round_aux. pose proof (zdigits_le m k Hk Hm) as Hd.
  pose proof (zdigits_nonneg m).
  pose proof (shr_fexp_spec m e l ltac:(lia)) as H1.
  destruct (shr_fexp F64.prec F64.emax m e l) as [r e'] eqn:E1. destruct H1 as ([Hr _] & He1 & He2 & Hlt).
  pose proof (round_even_bounds _ (loc_of_shr_record r) Hr) as Hre.
  set (m2 := round_nearest_even (shr_m r) (loc_of_shr_record r)) in *.
  assert (Hd2 : Zdigits2 m2 <= Z.max 0 (Zdigits2 m + e - e') + 1).
  { apply zdigits_le; [lia|]. split; [lia|]. rewrite Z.pow_add_r by lia.
    change (2^1) with 2. set (x := 2^Z.max 0 (Zdigits2 m + e - e')) in *. lia. }
  assert (He' : e' <= B /\ Zdigits2 m2 + e' <= B + 2)
    by (unfold fexp, F64.prec, emin, F64.emax in He2; lia).
  pose proof (shr_fexp_spec m2 e' loc_Exact (proj1 Hre)) as H2.
  destruct (shr_fexp F64.prec F64.emax m2 e' loc_Exact) as [r2 e2] eqn:E2.
  destruct H2 as ([Hr2 _] & _ & Hee & _).
  assert (e2 <= B) by (unfold fexp, F64.prec, emin, F64.emax in Hee; lia).
  destruct (shr_m r2) as [|q|q]; [done| |lia].
  rewrite (proj2 (Z.leb_le _ _)) by (unfold F64.emax, F64.prec; lia). simpl. lia.
Qed.

Lemma shl_align_pos m e e' : e' <= e -> Z.pos (fst (shl_align m e e')) = Z.pos m * 2^(e - e').
Proof.
  intros He. unfold shl_align. destruct (e' - e) as [|d|d] eqn:Ed; [|lia|].
  - replace (e - e') with 0 by lia. simpl. lia.
  - replace (e - e') with (Z.pos d) by lia. cbn [fst]. clear.
    induction d as [|d IH] using Pos.peano_ind; [simpl; lia|].
    rewrite Pos.iter_succ, (Pos2Z.inj_xO (Pos.iter _ _ _)), IH, Pos2Z.inj_succ, Z.pow_succ_r by lia. lia.
Qed.

Lemma binary_round_numeric s m e :
  numeric (binary_round F64.prec F64.emax s m e) /\
  (s = false -> nonneg (binary_round F64.prec F64.emax s m e)).
Proof. unfold binary_round. destruct (shl_align _ _ _). by apply round_aux_numeric. Qed.

(** A conversion of magnitude below 2^k does not overflow. *)
Lemma binary_round_finite B s m e k :
  0 <= B <= 900 -> 0 <= k -> Z.pos m < 2^k -> k + e <= B -> e <= B ->
  finite B (binary_round F64.prec F64.emax s m e).
Proof.
  intros HB Hk Hm Hke He. unfold binary_round.
  set (e' := fexp F64.prec F64.emax (Z.pos (digits2_pos m) + e)).
  destruct (Z.le_gt_cases e' e) as [Hle|Hgt].
  - pose proof (shl_align_pos m e e' Hle) as Hs.
    assert (Hee : snd (shl_align m e e') = e') .
    { unfold shl_align. destruct (e' - e) eqn:Ed; simpl; lia. }
    destruct (shl_align m e e') as [m' e''] eqn:E. cbn [fst snd] in *. subst e''.
    apply (round_aux_finite _ _ _ _ _ (k + (e - e'))); try lia.
    rewrite Hs, Z.pow_add_r by lia. split; [lia|]. apply Z.mul_lt_mono_pos_r; lia.
  - assert (E : shl_align m e e' = (m, e)).
    { unfold shl_align. destruct (e' - e) eqn:Ed; try done. lia. }
    rewrite E. by apply (round_aux_finite _ _ _ _ _ k).
Qed.

Lemma normalize_numeric z e :
  numeric (binary_normalize F64.prec F64.emax z e false) /\
  (0 <= z -> nonneg (binary_normalize F64.prec F64.emax z e false)).
Proof.
  destruct z as [|p|p]; simpl; [done| |]; destruct (binary_round_numeric false p e), (binary_round_numeric true p e);
    split; auto; lia.
Qed.

Lemma add_good x y :
  numeric x -> nonneg x -> numeric y -> nonneg y -> numeric (F64.add x y) /\ nonneg (F64.add x y).
Proof.
  intros Nx Px Ny Py. unfold F64.add.
  destruct x as [[]|sx| |sx mx ex], y as [[]|sy| |sy my ey]; simpl in Nx, Px, Ny, Py; subst;
    try (by split; simpl; auto); try done.
  cbn [SFadd cond_Zopp].
  destruct (normalize_numeric (Z.pos (fst (shl_align mx ex (Z.min ex ey))) +
     Z.pos (fst (shl_align my ey (Z.min ex ey)))) (Z.min ex ey)) as [H1 H2].
  split; [done|]. apply H2. lia.
Qed.

Lemma mul_good x y :
  numeric x -> nonneg x -> finite 900 x -> (forall s, x <> S754_zero s) -> numeric y -> nonneg y ->
  numeric (F64.mul x y) /\ nonneg (F64.mul x y).
Proof.
  intros Nx Px Fx Hz Ny Py. unfold F64.mul.
  destruct x as [s|sx| |sx mx ex]; simpl in Nx, Px, Fx; try done; [by destruct (Hz s)|]. subst.
  destruct y as [sy|sy| |sy my ey]; simpl in Ny, Py; subst; try done.
  cbn [SFmul xorb]. destruct (round_aux_numeric false (Z.pos (mx * my)) (ex + ey) loc_Exact ltac:(lia)). auto.
Qed.

Lemma abs_sub_good x y :
  numeric x -> numeric y -> finite 900 y ->
  numeric (F64.abs (F64.sub x y)) /\ nonneg (F64.abs (F64.sub x y)).
Proof.
  intros Nx Ny Fy. unfold F64.abs, F64.sub.
  assert (H : numeric (SFsub F64.prec F64.emax x y)).
  { destruct x as [sx|sx| |sx mx ex], y as [sy|sy| |sy my ey]; simpl in *; try done.
    - by destruct sx, sy.
    - apply normalize_numeric. }
  destruct (SFsub F64.prec F64.emax x y); simpl in *; done.
Qed.

Lemma div_core_spec m1 e1 m2 e2 q e' l :
  0 <= m1 -> 0 < m2 -> SFdiv_core_binary F64.prec F64.emax m1 e1 m2 e2 = (q, e', l) ->
  0 <= q < 2^(Zdigits2 m1 + (e1 - e2 - e')) /\ e' <= e1 - e2.
Proof.
  intros H1 H2 E. unfold SFdiv_core_binary in E. pose proof (zdigits_lt m1 H1) as Hlt.
  pose proof (zdigits_nonneg m1).
  set (e0 := Z.min (fexp F64.prec F64.emax (Zdigits2 m1 + e1 - (Zdigits2 m2 + e2))) (e1 - e2)) in *.
  assert (He0 : e0 <= e1 - e2) by lia.
  set (s := e1 - e2 - e0) in *.
  assert (Ha : match s with Z0 => m1 | Z.pos _ => Z.shiftl m1 s | Z.neg _ => 0 end = m1 * 2^s).
  { destruct s eqn:Es; [lia| |lia]. rewrite Z.shiftl_mul_pow2 by lia. done. }
  rewrite Ha in E. pose proof (Z_div_mod (m1 * 2^s) m2 ltac:(lia)) as Hd.
  destruct (Z.div_eucl (m1 * 2^s) m2) as [q0 r0]. injection E as <- <- _.
  destruct Hd as [Hd Hr]. split; [|done]. fold s.
  assert (m1 * 2^s < 2^(Zdigits2 m1 + s)).
  { rewrite Z.pow_add_r by lia. apply Z.mul_lt_mono_pos_r; lia. }
  assert (0 <= m1 * 2^s) by lia. split; [|nia]. assert (-1 < q0) by nia. lia.
Qed.

(** Division by a positive number that is not tiny. *)
Lemma div_good x m e :
  numeric x -> nonneg x -> -100 <= e ->
  numeric (F64.div x (S754_finite false m e)) /\ nonneg (F64.div x (S754_finite false m e)) /\
  (finite 500 x -> finite 700 (F64.div x (S754_finite false m e))).
Proof.
  intros Nx Px He. unfold F64.div. destruct x as [s|s| |s mx ex]; simpl in Nx, Px; subst; try done.
  unfold SFdiv. destruct (SFdiv_core_binary _ _ _ _ _ _) as [[q e'] l] eqn:E.
  apply div_core_spec in E as [[Hq0 Hq] He']; [|lia..].
  cbn [xorb]. destruct (round_aux_numeric false q e' l Hq0) as [H1 H2]. repeat split; auto.
  intros Hex. pose proof (zdigits_le (Z.pos mx) 54 ltac:(lia) ltac:(lia)). pose proof (zdigits_nonneg (Z.pos mx)).
  simpl in Hex. eapply (round_aux_finite _ _ _ _ _ (Zdigits2 (Z.pos mx) + (ex - e - e'))); lia.
Qed.

Lemma of_Z_good z : 0 <= z < 2^64 ->
  numeric (F64.of_Z z) /\ nonneg (F64.of_Z z) /\ finite 500 (F64.of_Z z).
Proof.
  intros Hz. unfold F64.of_Z. destruct (normalize_numeric z 0) as [H1 H2].
  split; [done|]. split; [apply H2; lia|]. destruct z as [|p|p]; [done| |lia].
  apply (binary_round_finite _ _ _ _ 64); lia.
Qed.

Lemma add_finite x y :
  numeric x -> nonneg x -> finite 700 x -> numeric y -> nonneg y -> finite 700 y -> finite 900 (F64.add x y).
Proof.
  intros Nx Px Fx Ny Py Fy. unfold F64.add.
  destruct x as [[]|sx| |sx mx ex], y as [[]|sy| |sy my ey]; simpl in Nx, Px, Fx, Ny, Py, Fy; subst; try done;
    try (simpl; lia).
  cbn [SFadd cond_Zopp].
  pose proof (shl_align_pos mx ex (Z.min ex ey) ltac:(lia)) as Hx.
  pose proof (shl_align_pos my ey (Z.min ex ey) ltac:(lia)) as Hy.
  set (ez := Z.min ex ey) in *.
  assert (Hx' : Z.pos mx * 2^(ex - ez) <= 2^(53 + (Z.max ex ey - ez))).
  { rewrite Z.pow_add_r by lia. apply Z.mul_le_mono_nonneg; try lia; apply Z.pow_le_mono_r; lia. }
  assert (Hy' : Z.pos my * 2^(ey - ez) <= 2^(53 + (Z.max ex ey - ez))).
  { rewrite Z.pow_add_r by lia. apply Z.mul_le_mono_nonneg; try lia; apply Z.pow_le_mono_r; lia. }
  destruct (Z.pos (fst (shl_align mx ex ez)) + Z.pos (fst (shl_align my ey ez))) as [|p|p] eqn:E; [lia| |lia].
  apply (binary_round_finite _ _ _ _ (55 + (Z.max ex ey - ez))); try lia.
  rewrite <- E, Hx, Hy.
  replace (55 + (Z.max ex ey - ez)) with (2 + (53 + (Z.max ex ey - ez))) by lia.
  rewrite (Z.pow_add_r 2 2) by lia. lia.
Qed.

(** A duration that fits Rust's [Duration] converts to a finite, nonnegative double. *)
Lemma as_secs_good d : 0 <= d < 2^64 * F64.NANOS_PER_SEC ->
  numeric (F64.as_secs_f64 d) /\ nonneg (F64.as_secs_f64 d) /\ finite 900 (F64.as_secs_f64 d).
Proof.
  intros Hd. unfold F64.as_secs_f64, F64.NANOS_PER_SEC in *.
  destruct (of_Z_good (d / 1000000000)) as (N1 & P1 & F1); [Z.div_mod_to_equations; lia|].
  destruct (of_Z_good (d mod 1000000000)) as (N2 & P2 & F2); [Z.div_mod_to_equations; lia|].
  change (F64.of_Z 1000000000) with (S754_finite false 8388608000000000 (-23)).
  destruct (div_good (F64.of_Z (d mod 1000000000)) 8388608000000000 (-23) N2 P2 ltac:(lia)) as (N3 & P3 & F3).
  destruct (add_good _ _ N1 P1 N3 P3). split; [done|]. split; [done|].
  apply add_finite; auto. destruct (F64.of_Z (d / 1000000000)); simpl in *; try done. lia.
Qed.

(** ** The calculator *)

(** Timeouts between the bounds, and estimates that can be updated again. *)
Record rto_wf (r : RtoCalculator.t) : Prop := {
  rw_srtt : numeric (RtoCalculator.srtt r) /\ nonneg (RtoCalculator.srtt r);
  rw_rttvar : numeric (RtoCalculator.rttvar r) /\ nonneg (RtoCalculator.rttvar r);
  rw_rto : numeric (RtoCalculator.rto r) /\ nonneg (RtoCalculator.rto r);
  rw_lo : F64.ltb (RtoCalculator.rto r) RtoCalculator.LOWER_BOUND_SEC = false;
  rw_hi : F64.ltb RtoCalculator.UPPER_BOUND_SEC (RtoCalculator.rto r) = false
}.

Lemma rto_new_wf : rto_wf RtoCalculator.new.
Proof. constructor; repeat split; try (by vm_compute); simpl; lia. Qed.

Lemma clamp_good x :
  numeric x -> nonneg x ->
  let y := F64.clamp x RtoCalculator.LOWER_BOUND_SEC RtoCalculator.UPPER_BOUND_SEC in
  numeric y /\ nonneg y /\ F64.ltb y RtoCalculator.LOWER_BOUND_SEC = false /\
  F64.ltb RtoCalculator.UPPER_BOUND_SEC y = false.
Proof.
  intros Nx Px. unfold F64.clamp.
  destruct (F64.ltb x RtoCalculator.LOWER_BOUND_SEC) eqn:E1; [repeat split; by vm_compute|].
  destruct (F64.ltb RtoCalculator.UPPER_BOUND_SEC x) eqn:E2; [repeat split; by vm_compute|].
  done.
Qed.

Lemma update_rto_wf r x :
  numeric (RtoCalculator.srtt r) -> nonneg (RtoCalculator.srtt r) ->
  numeric (RtoCalculator.rttvar r) -> nonneg (RtoCalculator.rttvar r) ->
  numeric x -> nonneg x -> rto_wf (RtoCalculator.update_rto r x).
Proof.
  intros. destruct (clamp_good x) as (H1' & H2' & H3' & H4'); [done|done|].
  constructor; simpl; done.
Qed.

Lemma mul_two_good x : numeric x -> nonneg x ->
  numeric (F64.mul x (F64.of_Z 2)) /\ nonneg (F64.mul x (F64.of_Z 2)).
Proof.
  intros Nx Px. unfold F64.mul. change (F64.of_Z 2) with (S754_finite false 4503599627370496 (-51)).
  destruct x as [s|s| |s m e]; simpl in Nx, Px; subst; try done.
  cbn [SFmul xorb].
  destruct (round_aux_numeric false (Z.pos (m * 4503599627370496)) (e + -51) loc_Exact ltac:(lia)). auto.
Qed.

Lemma back_off_wf r : rto_wf r -> rto_wf (RtoCalculator.back_off r).
Proof.
  intros [[] [] [N P] _ _]. unfold RtoCalculator.back_off.
  destruct (mul_two_good _ N P). by apply update_rto_wf.
Qed.

(** Multiplication by one of the estimator's positive constants. *)
Lemma mul_const_good m e x : Z.pos m <= 2^53 -> e <= 900 -> numeric x -> nonneg x ->
  numeric (F64.mul (S754_finite false m e) x) /\ nonneg (F64.mul (S754_finite false m e) x).
Proof. intros. by apply mul_good. Qed.

Lemma max_good m e x : Z.pos m <= 2^53 -> numeric x -> nonneg x ->
  numeric (F64.max (S754_finite false m e) x) /\ nonneg (F64.max (S754_finite false m e) x).
Proof. intros. unfold F64.max. destruct x; try done; by destruct (F64.ltb _ _). Qed.

Lemma add_sample_wf r d :
  rto_wf r -> 0 <= d < 2^64 * F64.NANOS_PER_SEC -> rto_wf (RtoCalculator.add_sample r d).
Proof.
  intros [[Ns Ps] [Nv Pv] _ _ _] Hd. destruct (as_secs_good d Hd) as (Nr & Pr & Fr).
  unfold RtoCalculator.add_sample.
  change (F64.lit 1 1000) with (S754_finite false 4611686018427388 (-62)).
  change (F64.of_Z 4) with (S754_finite false 4503599627370496 (-50)).
  change (F64.sub (F64.of_Z 1) (F64.lit 1 4)) with (S754_finite false 6755399441055744 (-53)).
  change (F64.sub (F64.of_Z 1) (F64.lit 1 8)) with (S754_finite false 7881299347898368 (-53)).
  change (F64.lit 1 4) with (S754_finite false 4503599627370496 (-54)).
  change (F64.lit 1 8) with (S754_finite false 4503599627370496 (-55)).
  change (F64.of_Z 2) with (S754_finite false 4503599627370496 (-51)).
  set (rtt := F64.as_secs_f64 d) in *. clearbody rtt.
  match goal with |- rto_wf (RtoCalculator.update_rto (if ?c then ?r1 else ?r2) _) =>
    assert (Hr : (numeric (RtoCalculator.srtt (if c then r1 else r2)) /\ nonneg (RtoCalculator.srtt (if c then r1 else r2))) /\
      (numeric (RtoCalculator.rttvar (if c then r1 else r2)) /\ nonneg (RtoCalculator.rttvar (if c then r1 else r2))));
    [|set (r' := if c then r1 else r2) in *; clearbody r'] end.
  - destruct (negb (RtoCalculator.received_sample r)); cbn [RtoCalculator.srtt RtoCalculator.rttvar].
    + destruct (div_good rtt 4503599627370496 (-51) Nr Pr ltac:(lia)) as (? & ? & _). done.
    + destruct (abs_sub_good _ _ Ns Nr Fr) as [Na Pa].
      split; apply add_good; apply mul_const_good; try done; lia.
  - destruct Hr as [[Ns' Ps'] [Nv' Pv']].
    destruct (mul_const_good 4503599627370496 (-50) _ ltac:(lia) ltac:(lia) Nv' Pv') as [Nm Pm].
    destruct (max_good 4611686018427388 (-62) _ ltac:(lia) Nm Pm) as [Nx Px].
    destruct (add_good _ _ Ns' Ps' Nx Px). by apply update_rto_wf.
Qed.

Lemma round_half_even_bounds n d k : 0 <= n -> 0 < d -> n <= k * d -> 0 <= F64.round_half_even n d <= k.
Proof.
  intros Hn Hd Hk. unfold F64.round_half_even.
  pose proof (Z.div_mod n d ltac:(lia)) as E. pose proof (Z.mod_pos_bound n d Hd) as Hr.
  set (q := n / d) in *. set (r := n mod d) in *.
  assert (0 <= q) by (subst q; apply Z.div_pos; lia).
  assert (q <= k) by nia. assert (q = k -> r = 0) by nia.
  repeat case_match; lia.
Qed.

(** A well-formed calculator always yields a timeout, of at most a minute. *)
Lemma get_rto_total r : rto_wf r -> exists d, RtoCalculator.get_rto r = Ret d /\ 0 <= d <= 60 * F64.NANOS_PER_SEC.
Proof.
  intros [_ _ [N P] _ Hhi]. unfold RtoCalculator.get_rto.
  destruct (RtoCalculator.rto r) as [s|s| |s m e]; simpl in N, P; subst; try done.
  - exists 0. split; [done|]. unfold F64.NANOS_PER_SEC. lia.
  - change RtoCalculator.UPPER_BOUND_SEC with (S754_finite false 8444249301319680 (-47)) in Hhi.
    assert (Hc : e < -47 \/ (e = -47 /\ Z.pos m <= 8444249301319680)).
    { unfold F64.ltb, SFltb, SFcompare in Hhi.
      destruct (Z.compare_spec (-47) e) as [<-| |]; [|done|lia].
      right. split; [done|]. apply Z.nlt_ge. intros Hm.
      assert (Ec : Pos.compare 8444249301319680 m = Lt) by (apply Pos.compare_lt_iff; lia).
      unfold Pos.compare in Ec. rewrite Ec in Hhi. discriminate Hhi. }
    unfold F64.from_secs_f64. rewrite (proj2 (Z.leb_gt 0 e)) by lia.
    assert (Hb : 0 <= F64.round_half_even (Z.pos m * F64.NANOS_PER_SEC) (2^(-e)) <= 60 * F64.NANOS_PER_SEC).
    { apply round_half_even_bounds; [unfold F64.NANOS_PER_SEC; lia|lia|].
      enough (Z.pos m <= 60 * 2^(-e)) by (unfold F64.NANOS_PER_SEC; lia).
      destruct Hc as [Hlt|[-> Hm]]; [|lia].
      assert (2^48 <= 2^(-e)) by (apply Z.pow_le_mono_r; lia). lia. }
    rewrite (proj2 (Z.leb_gt _ _)) by (unfold F64.NANOS_PER_SEC in *; lia). eauto.
Qed.

(** ** Properties *)

(** What a connection does to its calculator. *)
Inductive RtoEvent := RtoSample (rtt : Z) | RtoBackOff.

Definition rto_step (r : RtoCalculator.t) (e : RtoEvent) : RtoCalculator.t :=
  match e with
  | RtoSample rtt => RtoCalculator.add_sample r rtt
  | RtoBackOff => RtoCalculator.back_off r
  end.

(** C33: the retransmission timeout stays in bounds.  After any sequence of round-trip samples
    (any duration the type can hold) and back-offs, the stored timeout is a number, never below
    0.1 s nor above 60 s in the order of doubles, and [rto()] converts it to a [Duration] of at
    most a minute without panicking: neither NaN, infinities nor negative values can arise. *)
Theorem rto_always_in_bounds (es : list RtoEvent) :
  Forall (fun e => match e with RtoSample d => 0 <= d < 2^64 * F64.NANOS_PER_SEC | _ => True end) es ->
  let r := foldl rto_step RtoCalculator.new es in
  F64.ltb (RtoCalculator.rto r) RtoCalculator.LOWER_BOUND_SEC = false /\
  F64.ltb RtoCalculator.UPPER_BOUND_SEC (RtoCalculator.rto r) = false /\
  exists d, RtoCalculator.get_rto r = Ret d /\ 0 <= d <= 60 * F64.NANOS_PER_SEC.
Proof.
  intros Hes r. enough (Hwf : rto_wf r).
  { split; [apply Hwf|]. split; [apply Hwf|]. by apply get_rto_total. }
  subst r. generalize RtoCalculator.new, rto_new_wf. induction Hes as [|[d|] es He Hes IH]; intros r Hr; [done| |].
  - apply IH. by apply add_sample_wf.
  - apply IH. by apply back_off_wf.
Qed.

Lemma rto_always_in_bounds_witness :
  let r := foldl rto_step RtoCalculator.new [RtoSample 50000000; RtoSample 90000000000; RtoBackOff] in
  exists d, RtoCalculator.get_rto r = Ret d /\ 0 <= d <= 60 * F64.NANOS_PER_SEC.
Proof.
  refine (proj2 (proj2 (rto_always_in_bounds [RtoSample 50000000; RtoSample 90000000000; RtoBackOff] _))).
  unfold F64.NANOS_PER_SEC. repeat constructor; lia.
Defined.
