(* ===== verification/Profiler.v ===== *)
(** * The profiler (src/src/rust/perftools/profiler/mod.rs)

    The profiler keeps a tree of scopes, linked by shared pointers in both directions, and the scope the
    thread is in.  Entering a scope returns a guard with the time stamp; dropping the guard adds the
    time spent to the scope and goes back to its parent.  Scopes live in a store of addresses: an [Rc]
    that a child holds of its parent keeps both alive, so no scope is ever released.

    [Profiling] is the abstract view: every path of nested scopes has the durations of its visits.
    The feature auto-calibrate is off. *)

From S2P Require Import Prelude Rto.

(** ** Scopes *)

Record Scope := mkScope {
  sc_name : string;
  sc_pred : option Z;
  sc_succs : list Z;
  num_calls : Z;
  duration_sum : Z
}.

Definition Scope_new (name : string) (pred : option Z) : Scope := mkScope name pred [] 0 0.

Definition Scope_leave (duration : Z) (s : Scope) : Scope :=
  mkScope (sc_name s) (sc_pred s) (sc_succs s) (wrap64 (num_calls s + 1)) (wrap64 (duration_sum s + duration)).

Definition push_succ (x : Z) (s : Scope) : Scope :=
  mkScope (sc_name s) (sc_pred s) (sc_succs s ++ [x]) (num_calls s) (duration_sum s).

(** [Guard]; time stamps are 64-bit counters. *)
Record Guard := mkGuard { enter_time : Z }.

(** What is printed for a scope. *)
Record line := mkLine {
  l_depth : nat;
  l_name : string;
  l_percent : F64.t;
  l_cycles : F64.t;
  l_ns : F64.t
}.

Module Profiler.

(** The store of scopes is part of the state. *)
Record t := mk {
  roots : list Z;
  current : option Z;
  ns_per_cycle : F64.t;
  store : gmap Z Scope;
  next : Z
}.

Definition set_current (v : option Z) (p : t) : t := mk (roots p) v (ns_per_cycle p) (store p) (next p).
Definition set_roots (v : list Z) (p : t) : t := mk v (current p) (ns_per_cycle p) (store p) (next p).
Definition set_store (v : gmap Z Scope) (p : t) : t := mk (roots p) (current p) (ns_per_cycle p) v (next p).

(** [in_ns as f64 / (end_cycle - start_cycle) as f64] *)
Definition measure_ns_per_cycle (secs subsec_nanos start_cycle end_cycle : Z) : F64.t :=
  F64.div (F64.of_Z (wrap64 (wrap64 (secs * 1000000000) + subsec_nanos))) (F64.of_Z (wrap64 (end_cycle - start_cycle))).

Definition new (ns_per_cycle : F64.t) : t := mk [] None ns_per_cycle ∅ 0.

Definition scope (x : Z) (p : t) : outcome Scope :=
  match store p !! x with
  | Some s => Ret s
  | None => Panic "use after free"
  end.

(** [Rc::new(RefCell::new(scope))] *)
Definition alloc (s : Scope) (p : t) : Z * t :=
  (next p, mk (roots p) (current p) (ns_per_cycle p) (<[next p := s]> (store p)) (next p + 1)).

(** [iter().find(|s| s.borrow().name == name)] *)
Fixpoint find_named (name : string) (l : list Z) (p : t) : outcome (option Z) :=
  match l with
  | [] => Ret None
  | x :: l =>
      s ← scope x p;
      if String.eqb (sc_name s) name then Ret (Some x) else find_named name l p
  end.

(** The scope [name] at the current point of the tree. *)
Definition successor (name : string) (p : t) : outcome (Z * t) :=
  match current p with
  | Some c =>
      s ← scope c p;
      existing ← find_named name (sc_succs s) p;
      match existing with
      | Some x => Ret (x, p)
      | None =>
          let '(x, p) := alloc (Scope_new name (Some c)) p in
          s ← scope c p;
          Ret (x, set_store (<[c := push_succ x s]> (store p)) p)
      end
  | None =>
      existing ← find_named name (roots p) p;
      match existing with
      | Some x => Ret (x, p)
      | None => let '(x, p) := alloc (Scope_new name None) p in Ret (x, set_roots (roots p ++ [x]) p)
      end
  end.

Definition enter (name : string) (now : Z) (p : t) : outcome (Guard * t) :=
  '(x, p) ← successor name p;
  Ret (mkGuard now, set_current (Some x) p).

(** The tree is forgotten; the current scope stays in it until its root is left. *)
Definition reset (p : t) : t := set_roots [] p.

Definition leave (duration : Z) (p : t) : outcome t :=
  match current p with
  | Some c =>
      s ← scope c p;
      Ret (set_current (sc_pred s) (set_store (<[c := Scope_leave duration s]> (store p)) p))
  | None => Ret (set_current None p)
  end.

Definition Guard_drop (g : Guard) (now : Z) (p : t) : outcome t := leave (wrap64 (now - enter_time g)) p.

(** ** The report *)

Section write.
Context {W : Type}.
(** Writes a line, and reports whether that succeeded. *)
Variable writeln : line -> W -> W * bool.
Variable flush : W -> W * bool.

(** The sum of the parent, or of all roots. *)
Definition pred_sum (total_duration : Z) (s : Scope) (p : t) : outcome Z :=
  match sc_pred s with
  | None => Ret total_duration
  | Some x => q ← scope x p; Ret (duration_sum q)
  end.

Definition line_of (depth : nat) (s : Scope) (pred_sum : Z) (ns : F64.t) : line :=
  let mean := F64.div (F64.of_Z (duration_sum s)) (F64.of_Z (num_calls s)) in
  mkLine depth (sc_name s) (F64.mul (F64.div (F64.of_Z (duration_sum s)) (F64.of_Z pred_sum)) (F64.of_Z 100)) mean (F64.mul mean ns).

Definition beyond (depth : nat) (max_depth : option nat) : bool :=
  match max_depth with Some d => Nat.ltb d depth | None => false end.

(** [for x in l], stopping at the first failure. *)
Definition write_all (f : Z -> W -> outcome (W * bool)) : list Z -> W -> outcome (W * bool) :=
  fix go (l : list Z) (out : W) : outcome (W * bool) :=
    match l with
    | [] => Ret (out, true)
    | x :: l => r ← f x out; if (r.2 : bool) then go l r.1 else Ret r
    end.

Fixpoint write_recursive (fuel : nat) (total_duration : Z) (max_depth : option nat) (p : t) (depth : nat) (x : Z) (out : W) :
  outcome (W * bool) :=
  match fuel with
  | O => Diverge
  | S fuel =>
      if beyond depth max_depth then Ret (out, true) else
      s ← scope x p;
      ps ← pred_sum total_duration s p;
      let '(out, ok) := writeln (line_of depth s ps (ns_per_cycle p)) out in
      if negb ok then Ret (out, false) else
      write_all (write_recursive fuel total_duration max_depth p (S depth)) (sc_succs s) out
  end.

Fixpoint total (l : list Z) (p : t) : outcome Z :=
  match l with
  | [] => Ret 0
  | x :: l => s ← scope x p; r ← total l p; Ret (wrap64 (duration_sum s + r))
  end.

Definition write (max_depth : option nat) (p : t) (out : W) : outcome (W * bool) :=
  total_duration ← total (roots p) p;
  r ← write_all (write_recursive (S (size (store p))) total_duration max_depth p 0) (roots p) out;
  if (r.2 : bool) then Ret (flush r.1) else Ret r.

End write.

End Profiler.

(** ** The abstract view *)

Module Profiling.
Import Profiler.

(** A scope is named by the number of resets before its root was entered and its path, innermost name
    first. *)
#[local] Abbreviation key := (nat * list string)%type.

(** [entered] lists the scopes in the order of their first visit, [visits] the durations of the visits
    that have ended; the thread is in the scope ([base], [stack]), entered at the [times]. *)
Record view := mkView {
  gen : nat;
  base : nat;
  stack : list string;
  times : list Z;
  entered : list key;
  visits : list (key * Z)
}.

Definition durations (v : view) (k : key) : list Z := (filter (fun x => x.1 = k) (visits v)).*2.
Definition calls_of (v : view) (k : key) : Z := wrap64 (Z.of_nat (length (durations v k))).
Definition time_of (v : view) (k : key) : Z := wrap64 (foldr Z.add 0 (durations v k)).

Inductive event := EEnter (name : string) (now : Z) | ELeave (now : Z) | EReset.

Definition here (v : view) : nat := match stack v with [] => gen v | _ => base v end.

Definition spec (e : event) (v : view) : view :=
  match e with
  | EEnter name now =>
      let k := (here v, name :: stack v) in
      mkView (gen v) (here v) (name :: stack v) (now :: times v) (if decide (k ∈ entered v) then entered v else entered v ++ [k]) (visits v)
  | ELeave now =>
      match stack v, times v with
      | _ :: rest, time :: times =>
          mkView (gen v) (base v) rest times (entered v) (((base v, stack v), wrap64 (now - time)) :: visits v)
      | _, _ => v
      end
  | EReset => mkView (S (gen v)) (base v) (stack v) (times v) (entered v) (visits v)
  end.

Definition start : view := mkView 0 0 [] [] [] [].

(** A thread: the profiler, and the guards of the scopes it is in. *)
Definition step (e : event) (s : t * list Guard) : outcome (t * list Guard) :=
  let '(p, gs) := s in
  match e with
  | EEnter name now => r ← enter name now p; Ret (r.2, r.1 :: gs)
  | ELeave now =>
      match gs with
      | g :: gs => p ← Guard_drop g now p; Ret (p, gs)
      | [] => Ret s
      end
  | EReset => Ret (reset p, gs)
  end.

Fixpoint steps (es : list event) (s : t * list Guard) : outcome (t * list Guard) :=
  match es with
  | [] => Ret s
  | e :: es => s ← step e s; steps es s
  end.

(** ** The invariant *)

Definition child_of (g : nat) (path : list string) (k : key) : Prop :=
  k.1 = g /\ match k.2 with [] => False | _ :: rest => rest = path end.

#[global] Instance child_of_dec g path k : Decision (child_of g path k).
Proof. destruct k as [g' [|n l]]; apply _. Defined.

Definition children (v : view) (g : nat) (path : list string) : list key := filter (child_of g path) (entered v).

(** The scopes stored at the addresses [a]. *)
Record scope_ok (a : gmap key Z) (v : view) (k : key) (s : Scope) : Prop := {
  so_name : exists rest, k.2 = sc_name s :: rest /\
    sc_pred s = match rest with [] => None | _ => a !! (k.1, rest) end /\ (rest <> [] -> is_Some (a !! (k.1, rest)));
  so_succs : Some <$> sc_succs s = (fun k => a !! k) <$> children v k.1 k.2;
  so_calls : num_calls s = calls_of v k;
  so_time : duration_sum s = time_of v k
}.

Record inv (a : gmap key Z) (v : view) (p : t) : Prop := {
  pi_dom : forall k, is_Some (a !! k) <-> k ∈ entered v;
  pi_nodup : NoDup (entered v);
  pi_inj : forall k k' x, a !! k = Some x -> a !! k' = Some x -> k = k';
  pi_scope : forall k x, a !! k = Some x -> exists s, store p !! x = Some s /\ scope_ok a v k s;
  pi_next : forall x, is_Some (store p !! x) -> x < next p;
  pi_roots : Some <$> roots p = (fun k => a !! k) <$> children v (gen v) [];
  pi_cur : current p = match stack v with [] => None | _ => a !! (base v, stack v) end;
  pi_here : stack v <> [] -> is_Some (a !! (base v, stack v));
  pi_gen : forall k, is_Some (a !! k) -> (k.1 <= gen v)%nat;
  pi_visits : forall k d, (k, d) ∈ visits v -> k ∈ entered v
}.

Definition guards_ok (v : view) (gs : list Guard) : Prop := gs = mkGuard <$> times v /\ length (times v) = length (stack v).

Lemma children_elem v g path k : k ∈ children v g path <-> k ∈ entered v /\ k.1 = g /\ exists n, k.2 = n :: path.
Proof.
  unfold children. rewrite list_elem_of_filter. destruct k as [g' [|n l]]; unfold child_of; cbn; [|naive_solver].
  split; [by intros [[_ []] _]|]. by intros (_ & _ & n & ?).
Qed.

(** Looking a name up among the children of a scope, or among the roots. *)
Lemma find_named_ok a v p g path name l :
  inv a v p -> Some <$> l = (fun k => a !! k) <$> children v g path ->
  find_named name l p = Ret (a !! (g, name :: path)).
Proof.
  intros I El. assert (Hd : a !! (g, name :: path) = None \/ (g, name :: path) ∈ children v g path).
  { destruct (a !! (g, name :: path)) as [x|] eqn:E; [right|by left]. apply children_elem. split; [apply (pi_dom _ _ _ I); by eexists|].
    split; [done|]. by exists name. }
  assert (Hc : forall k, k ∈ children v g path -> k ∈ entered v /\ k.1 = g /\ exists n, k.2 = n :: path) by (intros k; apply children_elem).
  revert l El Hd. induction (children v g path) as [|k ks IH]; intros [|x l] El Hd; try discriminate El; cbn.
  - destruct Hd as [->|Hd]; [done|]. by apply elem_of_nil in Hd.
  - injection El as Ex El. destruct (pi_scope _ _ _ I k x) as (s & Hs & So); [done|]. destruct (so_name _ _ _ _ So) as (rest & Ek & _).
    unfold scope. rewrite Hs. cbn. destruct (Hc k) as (_ & Eg & n & Ek'); [by left|]. rewrite Ek in Ek'. injection Ek' as <- ->.
    destruct k as [g' kp]. cbn in *. subst g' kp. destruct (String.eqb_spec (sc_name s) name) as [En|Hne]; [by rewrite <- En, <- Ex|].
    apply IH; [intros k' Hk'; apply Hc; by right|done|]. destruct Hd as [|[Hd|Hd]%elem_of_cons]; [by left| |by right]. congruence.
Qed.


(** ** Steps *)

(** The view after a first visit. *)
Lemma children_new v v' k g path :
  entered v' = entered v ++ [k] ->
  children v' g path = children v g path ++ (if decide (child_of g path k) then [k] else []).
Proof. intros E. unfold children. rewrite E, filter_app. by destruct (decide (child_of g path k)) as [H|H]; [rewrite filter_cons_True|rewrite filter_cons_False]. Qed.

Lemma fmap_insert_other (a : gmap key Z) k x (l : list key) : k ∉ l -> (fun k' => <[k := x]> a !! k') <$> l = (fun k' => a !! k') <$> l.
Proof. intros Hk. apply list_fmap_ext. intros i k' Hi. rewrite lookup_insert_ne; [done|]. intros ->. apply Hk. by eapply list_elem_of_lookup_2. Qed.

(** The scopes when [k0] is entered for the first time, at the address [x]. *)
Section first_visit.
Context (a : gmap key Z) (v v' : view) (p : t) (k0 : key) (x : Z).
Hypothesis Hinv : inv a v p.
Hypothesis Hk0 : a !! k0 = None.
Hypothesis Hentered : entered v' = entered v ++ [k0].
Hypothesis Hvisits : visits v' = visits v.

Lemma first_fresh : k0 ∉ entered v.
Proof. rewrite <- (pi_dom _ _ _ Hinv), Hk0. by apply is_Some_None. Qed.

Lemma first_children g path l :
  Some <$> l = (fun k => a !! k) <$> children v g path ->
  Some <$> (if decide (child_of g path k0) then l ++ [x] else l) = (fun k => <[k0 := x]> a !! k) <$> children v' g path.
Proof.
  intros El. rewrite (children_new v v' k0) by done. rewrite fmap_app, fmap_insert_other, <- El.
  - destruct (decide (child_of g path k0)); cbn; [|by rewrite app_nil_r]. by rewrite fmap_app, lookup_insert_eq.
  - intros [? _]%children_elem. by apply first_fresh.
Qed.

Lemma first_scope k s :
  scope_ok a v k s -> scope_ok (<[k0 := x]> a) v' k (if decide (child_of k.1 k.2 k0) then push_succ x s else s).
Proof.
  intros []. pose proof (first_children _ _ _ so_succs0) as Hc. assert (Ed : durations v' k = durations v k) by (unfold durations; by rewrite Hvisits).
  assert (Hn : exists rest, k.2 = sc_name s :: rest /\ sc_pred s = match rest with [] => None | _ => <[k0 := x]> a !! (k.1, rest) end /\
    (rest <> [] -> is_Some (<[k0 := x]> a !! (k.1, rest)))).
  { destruct so_name0 as (rest & E1 & E2 & E3). exists rest. split; [done|].
    assert (Hne : rest <> [] -> <[k0 := x]> a !! (k.1, rest) = a !! (k.1, rest)).
    { intros Hr. apply lookup_insert_ne. intros Ee. destruct (E3 Hr). congruence. }
    destruct rest; [done|]. rewrite Hne by done. by split. }
  unfold calls_of, time_of in *. destruct (decide (child_of k.1 k.2 k0)); split; try done; unfold calls_of, time_of; by rewrite Ed.
Qed.

Lemma first_self g n rest pred :
  k0 = (g, n :: rest) -> pred = match rest with [] => None | _ => a !! (g, rest) end -> (rest <> [] -> is_Some (a !! (g, rest))) ->
  scope_ok (<[k0 := x]> a) v' k0 (Scope_new n pred).
Proof.
  intros E Ep Hr. assert (Hc : children v' g (n :: rest) = []).
  { apply list.elem_of_nil_inv. intros k (He & Eg & m & Ek)%children_elem. rewrite Hentered in He. apply elem_of_app in He as [He|He].
    - apply (pi_dom _ _ _ Hinv) in He as [y Hy]. destruct (pi_scope _ _ _ Hinv k y Hy) as (s & _ & So).
      destruct (so_name _ _ _ _ So) as (rest' & E1 & _ & E3). rewrite E1 in Ek. injection Ek as _ ->. rewrite Eg, <- E in E3.
      destruct E3; [done|congruence].
    - apply list_elem_of_singleton in He. subst k. rewrite E in Ek. cbn in Ek. injection Ek as _ Ek.
      apply (f_equal length) in Ek. cbn in Ek. lia. }
  assert (Hd : durations v' k0 = []).
  { unfold durations. rewrite Hvisits. assert (filter (fun y : key * Z => y.1 = k0) (visits v) = []) as ->; [|done].
    apply list.elem_of_nil_inv. intros [k d] [Ek Hv]%list_elem_of_filter. cbn in Ek. subst k. apply first_fresh. by apply (pi_visits _ _ _ Hinv _ d). }
  split; unfold calls_of, time_of; cbn; rewrite ?Hd; try done.
  - exists rest. rewrite E. cbn. split; [done|]. assert (Hne : rest <> [] -> <[(g, n :: rest) := x]> a !! (g, rest) = a !! (g, rest)).
    { intros _. apply lookup_insert_ne. intros [=Ee]. apply (f_equal length) in Ee. cbn in Ee. lia. }
    destruct rest; [done|]. rewrite Hne by done. by split; [|apply Hr].
  - rewrite E. cbn. by rewrite Hc.
Qed.

End first_visit.

(** The thread moves to another scope. *)
Lemma inv_move a v p b st tm :
  inv a v p -> (st <> [] -> is_Some (a !! (b, st))) ->
  inv a (mkView (gen v) b st tm (entered v) (visits v)) (set_current (match st with [] => None | _ => a !! (b, st) end) p).
Proof.
  intros [] Hst. split; try done. intros k x Hk. destruct (pi_scope0 k x Hk) as (s & Hs & []). by exists s.
Qed.

(** Who is the parent of the scope entered next. *)
Lemma parent_is_current a v p name k y :
  inv a v p -> a !! k = Some y -> (child_of k.1 k.2 (here v, name :: stack v) <-> current p = Some y).
Proof.
  intros I. destruct k as [g path]. intros Hk. destruct (pi_scope _ _ _ I _ y Hk) as (s & _ & So). destruct (so_name _ _ _ _ So) as (rest & Er & _). cbn in Er.
  rewrite (pi_cur _ _ _ I). unfold child_of, here. cbn. destruct (stack v) as [|n st].
  - split; [|done]. intros [_ <-]. done.
  - split; [by intros [-> <-]|]. intros E. pose proof (pi_inj _ _ _ I _ _ _ Hk E) as [= -> ->]. done.
Qed.

(** The store after a first visit. *)
Definition first_store (p : t) (name : string) (s0 : Scope) : gmap Z Scope :=
  let store' := <[next p := Scope_new name (current p)]> (store p) in
  match current p with Some y => <[y := push_succ (next p) s0]> store' | None => store' end.

Section first_state.
Context (a : gmap key Z) (v : view) (p : t) (name : string) (s0 : Scope) (tm : list Z).
#[local] Abbreviation k0 := (here v, name :: stack v).
Hypothesis Hinv : inv a v p.
Hypothesis Hk0 : a !! k0 = None.
Hypothesis Hs0 : match current p with Some y => store p !! y = Some s0 | None => True end.
#[local] Abbreviation v' := (mkView (gen v) (here v) (name :: stack v) tm (entered v ++ [k0]) (visits v)).

Lemma next_unused : store p !! next p = None.
Proof. destruct (store p !! next p) eqn:E; [|done]. exfalso. assert (next p < next p) by (apply (pi_next _ _ _ Hinv); by eexists). lia. Qed.

Lemma current_old y : current p = Some y -> y <> next p.
Proof. intros E. rewrite E in Hs0. intros ->. pose proof next_unused. congruence. Qed.

Lemma first_store_scope k x :
  <[k0 := next p]> a !! k = Some x -> exists s, first_store p name s0 !! x = Some s /\ scope_ok (<[k0 := next p]> a) v' k s.
Proof.
  unfold first_store. intros [[<- <-]|[Hne Hk]]%lookup_insert_Some.
  - exists (Scope_new name (current p)). split.
    + pose proof current_old as Hold. destruct (current p) as [y|]; [|by rewrite lookup_insert_eq]. rewrite lookup_insert_ne by (by apply Hold). by rewrite lookup_insert_eq.
    + apply (first_self a v v' p k0 (next p) Hinv Hk0) with (g := here v) (rest := stack v); try done.
      * rewrite (pi_cur _ _ _ Hinv). unfold here. by destruct (stack v).
      * intros Hst. pose proof (pi_here _ _ _ Hinv Hst). unfold here. by destruct (stack v).
  - destruct (pi_scope _ _ _ Hinv k x Hk) as (s & Hs & So). pose proof (first_scope a v v' p k0 (next p) Hinv Hk0 eq_refl eq_refl k s So) as So'.
    pose proof (parent_is_current a v p name k x Hinv Hk) as Hp. assert (Hxy : next p <> x) by (intros <-; pose proof next_unused; congruence).
    destruct (decide (child_of k.1 k.2 k0)) as [Hch|Hch].
    + apply Hp in Hch. rewrite Hch in Hs0 |- *. assert (s = s0) as -> by congruence. exists (push_succ (next p) s0). by rewrite lookup_insert_eq.
    + exists s. split; [|done]. destruct (current p) as [y|]; [|by rewrite lookup_insert_ne].
      rewrite lookup_insert_ne by naive_solver. by rewrite lookup_insert_ne.
Qed.

Lemma first_store_next x : is_Some (first_store p name s0 !! x) -> x < next p + 1.
Proof.
  intros Hx. assert (Hor : x = next p \/ is_Some (store p !! x)).
  { unfold first_store in Hx. destruct (current p) as [y|]; apply lookup_insert_is_Some' in Hx as [Hx|Hx]; try by auto.
    - right. subst y. by eexists.
    - apply lookup_insert_is_Some' in Hx as [Hx|Hx]; by auto. }
  destruct Hor as [->|Hx']; [lia|]. apply (pi_next _ _ _ Hinv) in Hx'. lia.
Qed.

Lemma first_roots :
  Some <$> match current p with Some _ => roots p | None => roots p ++ [next p] end = (fun k => <[k0 := next p]> a !! k) <$> children v' (gen v) [].
Proof.
  pose proof (first_children a v v' p k0 (next p) Hinv Hk0 eq_refl _ _ _ (pi_roots _ _ _ Hinv)) as Hr. etrans; [|exact Hr]. f_equal.
  rewrite (pi_cur _ _ _ Hinv). pose proof (pi_here _ _ _ Hinv) as Hh. clear Hr Hk0. unfold child_of, here. cbn. destruct (stack v) as [|n st].
  - by rewrite decide_True.
  - rewrite decide_False by (by intros [_ ?]). destruct Hh as [y ->]; done.
Qed.

Lemma inv_first :
  inv (<[k0 := next p]> a) v'
    (mk (match current p with Some _ => roots p | None => roots p ++ [next p] end) (Some (next p)) (ns_per_cycle p) (first_store p name s0) (next p + 1)).
Proof.
  pose proof (first_fresh a v p k0 Hinv Hk0) as Hf. pose proof next_unused as Hx. split; cbn [gen base stack times entered visits roots current ns_per_cycle store next].
  - intros k. rewrite lookup_insert_is_Some, elem_of_app, list_elem_of_singleton, (pi_dom _ _ _ Hinv). destruct (decide (k = k0)) as [->|]; [naive_solver|].
    split; [intros [?|[_ ?]]; [congruence|by left]|]. intros [?|?]; [right; split; [congruence|done]|done].
  - apply NoDup_app. split; [apply Hinv|]. split; [|apply NoDup_singleton]. by intros k Hk ->%list_elem_of_singleton.
  - intros k k' y [[<- <-]|[? Hk]]%lookup_insert_Some [[<- ?]|[? Hk']]%lookup_insert_Some; [done| | |by eapply Hinv].
    + destruct (pi_scope _ _ _ Hinv _ _ Hk') as (? & ? & _). congruence.
    + destruct (pi_scope _ _ _ Hinv _ _ Hk) as (? & ? & _). congruence.
  - apply first_store_scope.
  - apply first_store_next.
  - apply first_roots.
  - by rewrite lookup_insert_eq.
  - intros _. by rewrite lookup_insert_eq.
  - intros k [<-|Hk]%lookup_insert_is_Some'; [|by apply Hinv]. unfold here. cbn. pose proof (pi_here _ _ _ Hinv) as Hh. destruct (stack v) as [|n st]; [done|].
    by apply (pi_gen _ _ _ Hinv (base v, n :: st)), Hh.
  - intros k d Hk. apply elem_of_app. left. by apply (pi_visits _ _ _ Hinv _ d).
Qed.

End first_state.

Lemma enter_ok a v p name now :
  inv a v p -> exists a' p', enter name now p = Ret (mkGuard now, p') /\ inv a' (spec (EEnter name now) v) p'.
Proof.
  intros I. unfold enter, successor. set (k0 := (here v, name :: stack v)).
  assert (Hfind : forall l, (current p = None -> l = roots p) -> (forall c s, current p = Some c -> store p !! c = Some s -> l = sc_succs s) ->
    find_named name l p = Ret (a !! k0)).
  { intros l Hn Hsm. apply (find_named_ok a v); [done|]. unfold here. pose proof (pi_cur _ _ _ I) as Hc. pose proof (pi_here _ _ _ I) as Hh.
    destruct (stack v) as [|n st] eqn:Est; [rewrite (Hn Hc); apply I|]. destruct Hh as [c Hk]; [done|]. rewrite Hk in Hc.
    destruct (pi_scope _ _ _ I _ _ Hk) as (s & Hs & So). rewrite (Hsm c s Hc Hs). apply So. }
  assert (Hold : forall x, a !! k0 = Some x -> inv a (spec (EEnter name now) v) (set_current (Some x) p)).
  { intros x Hx. cbn. rewrite decide_True by (apply (pi_dom _ _ _ I); by eexists). pose proof (inv_move a v p (here v) (name :: stack v) (now :: times v) I) as Hm.
    cbn in Hm. fold k0 in Hm. rewrite Hx in Hm. apply Hm. by eexists. }
  assert (Hnew : a !! k0 = None -> forall s0, match current p with Some y => store p !! y = Some s0 | None => True end ->
    inv (<[k0 := next p]> a) (spec (EEnter name now) v)
      (mk (match current p with Some _ => roots p | None => roots p ++ [next p] end) (Some (next p)) (ns_per_cycle p) (first_store p name s0) (next p + 1))).
  { intros Hk s0 Hs0. cbn. rewrite decide_False by (by apply (first_fresh a v p)). by apply inv_first. }
  unfold first_store in Hnew. pose proof (pi_cur _ _ _ I) as Hc. destruct (current p) as [c|] eqn:Ec.
  - assert (exists s, store p !! c = Some s) as [s Hs].
    { destruct (stack v) as [|n0 st0]; [done|]. destruct (pi_scope _ _ _ I _ c (eq_sym Hc)) as (s & Hs & _). by exists s. }
    assert (Hsc : scope c p = Ret s) by (unfold scope; by rewrite Hs). rewrite Hsc. cbn. rewrite Hfind; [|done|by intros ? ? [= <-] ?; simplify_eq]. cbn.
    destruct (a !! k0) as [x|] eqn:Ek; [by exists a; eexists; split; [reflexivity|apply Hold]|].
    assert (Hne : next p <> c) by (intros <-; assert (next p < next p) by (apply (pi_next _ _ _ I); by eexists); lia).
    unfold scope, alloc. cbn. rewrite lookup_insert_ne, Hs by done. cbn. eexists _, _. split; [reflexivity|]. by apply Hnew.
  - rewrite Hfind by done. cbn. destruct (a !! k0) as [x|] eqn:Ek; [by exists a; eexists; split; [reflexivity|apply Hold]|].
    eexists _, _. split; [reflexivity|]. by apply (Hnew eq_refl (Scope_new name None)).
Qed.

(** A visit ends. *)
Lemma durations_cons v v' k k' d :
  visits v' = (k', d) :: visits v -> durations v' k = if decide (k' = k) then d :: durations v k else durations v k.
Proof. intros E. unfold durations. rewrite E. destruct (decide (k' = k)) as [->|Hne]; [by rewrite filter_cons_True|by rewrite filter_cons_False]. Qed.

Lemma leave_scope a v v' k s d :
  scope_ok a v k s -> entered v' = entered v -> visits v' = (k, d) :: visits v -> scope_ok a v' k (Scope_leave d s).
Proof.
  intros [] Ee Ev. pose proof (durations_cons v v' k k d Ev) as Ed. rewrite decide_True in Ed by done. split; cbn; [done| | |].
  - unfold children in *. by rewrite Ee.
  - rewrite so_calls0. unfold calls_of, wrap64. rewrite Ed, Zplus_mod_idemp_l. f_equal. cbn [length]. lia.
  - rewrite so_time0. unfold time_of, wrap64. rewrite Ed, Zplus_mod_idemp_l. f_equal. cbn. lia.
Qed.

Lemma leave_other a v v' k k' s d :
  scope_ok a v k s -> k <> k' -> entered v' = entered v -> visits v' = (k', d) :: visits v -> scope_ok a v' k s.
Proof.
  intros [] Hne Ee Ev. pose proof (durations_cons v v' k k' d Ev) as Ed. rewrite decide_False in Ed by done. split; [done| | |].
  - unfold children in *. by rewrite Ee.
  - unfold calls_of in *. by rewrite Ed.
  - unfold time_of in *. by rewrite Ed.
Qed.

Lemma leave_ok a v p n st tm d :
  inv a v p -> stack v = n :: st ->
  exists p', leave d p = Ret p' /\ inv a (mkView (gen v) (base v) st tm (entered v) (((base v, n :: st), d) :: visits v)) p'.
Proof.
  intros I Est. pose proof (pi_here _ _ _ I) as Hh. pose proof (pi_cur _ _ _ I) as Hc. rewrite Est in Hh, Hc. destruct Hh as [c Hk]; [done|].
  destruct (pi_scope _ _ _ I _ _ Hk) as (s & Hs & So). unfold leave, scope. rewrite Hc, Hk, Hs. cbn. eexists. split; [reflexivity|].
  destruct (so_name _ _ _ _ So) as (rest & Er & Ep & Hr). cbn in Er, Ep, Hr. injection Er as En <-.
  split; cbn; [apply I|apply I|apply I| | |apply I|done|done|apply I|].
  - intros k x Hx. destruct (decide ((base v, n :: st) = k)) as [<-|Hne].
    + assert (x = c) as -> by congruence. exists (Scope_leave d s). rewrite lookup_insert_eq. split; [done|]. by eapply leave_scope.
    + destruct (pi_scope _ _ _ I k x Hx) as (s' & Hs' & So'). exists s'. split; [|by eapply leave_other].
      rewrite lookup_insert_ne; [done|]. intros ->. by destruct Hne; apply (pi_inj _ _ _ I _ _ x).
  - intros x [<-|Hx]%lookup_insert_is_Some'; apply (pi_next _ _ _ I); [by eexists|done].
  - intros k d' [[= -> _]|Hv]%elem_of_cons; [apply (pi_dom _ _ _ I); by eexists|by apply (pi_visits _ _ _ I _ d')].
Qed.

Lemma prof_step_ok a v p gs e :
  inv a v p -> guards_ok v gs ->
  exists a' p' gs', step e (p, gs) = Ret (p', gs') /\ inv a' (spec e v) p' /\ guards_ok (spec e v) gs'.
Proof.
  intros I [Eg El]. destruct e as [name now|now|]; cbn [step].
  - destruct (enter_ok a v p name now I) as (a' & p' & E & I'). exists a', p', (mkGuard now :: gs). rewrite E. split; [done|]. split; [done|].
    split; cbn; [by rewrite Eg|by rewrite El].
  - cbn [spec]. subst gs. destruct (times v) as [|time tm] eqn:Et; cbn.
    + exists a, p, []. split; [done|]. destruct (stack v) eqn:Est; [|done]. split; [done|]. split; [by rewrite Et|by rewrite Et, Est].
    + destruct (stack v) as [|n st] eqn:Est; [done|]. destruct (leave_ok a v p n st tm (wrap64 (now - time)) I Est) as (p' & E & I').
      unfold Guard_drop. cbn. rewrite E. exists a, p', (mkGuard <$> tm). split; [done|]. split; [done|]. split; [done|]. cbn in El. by injection El.
  - exists a, (reset p), gs. split; [done|]. split; [|done]. assert (Hc : children v (S (gen v)) [] = []).
    { apply list.elem_of_nil_inv. intros k (He & Ek & _)%children_elem. apply (pi_dom _ _ _ I), (pi_gen _ _ _ I) in He. lia. }
    destruct I. split; cbn; try done.
    + intros k x Hx. destruct (pi_scope0 k x Hx) as (s & Hs & []). by exists s.
    + unfold children in *. cbn. by rewrite Hc.
    + intros k Hk. apply pi_gen0 in Hk. lia.
Qed.

(** ** Looking at the tree *)

(** Every scope's ancestors have been entered. *)
Lemma entered_closed a v p g l q : inv a v p -> is_Some (a !! (g, l ++ q)) -> q <> [] -> is_Some (a !! (g, q)).
Proof.
  intros I. induction l as [|n l IH]; intros Hs Hq; [done|]. apply IH; [|done]. destruct Hs as [x Hx].
  destruct (pi_scope _ _ _ I _ _ Hx) as (s & _ & So). destruct (so_name _ _ _ _ So) as (rest & Er & _ & Hr). cbn in Er, Hr. injection Er as _ <-.
  apply Hr. intros [_ ?]%app_eq_nil. done.
Qed.

(** The scope at a path from [l], outermost name first. *)
Fixpoint walk (names : list string) (l : list Z) (p : t) : outcome (option Scope) :=
  match names with
  | [] => Ret None
  | n :: names =>
      x ← find_named n l p;
      match x with
      | None => Ret None
      | Some x => s ← scope x p; match names with [] => Ret (Some s) | _ => walk names (sc_succs s) p end
      end
  end.

Lemma walk_ok a v p g names path l :
  inv a v p -> names <> [] -> Some <$> l = (fun k => a !! k) <$> children v g path ->
  walk names l p = Ret (a !! (g, reverse names ++ path) ≫= fun x => store p !! x).
Proof.
  intros I. revert path l. induction names as [|n names IH]; intros path l Hn El; [done|]. cbn [walk].
  rewrite (find_named_ok a v p g path n l I El). cbn [mbind outcome_bind]. rewrite reverse_cons, <- app_assoc. cbn [app].
  destruct (a !! (g, n :: path)) as [x|] eqn:Ex.
  - destruct (pi_scope _ _ _ I _ _ Ex) as (s & Hs & So). unfold scope. rewrite Hs. cbn [mbind outcome_bind].
    destruct names as [|n' names]; [cbn; by rewrite Ex; cbn; rewrite Hs|]. apply IH; [done|]. apply So.
  - destruct (a !! (g, reverse names ++ n :: path)) as [y|] eqn:Ey; [|done]. exfalso.
    destruct (entered_closed a v p g (reverse names) (n :: path) I); [by eexists|done|congruence].
Qed.

(** ** The report *)

Definition time_above (v : view) (g : nat) (total : Z) (path : list string) : Z :=
  match tail path with [] => total | rest => time_of v (g, rest) end.

Definition spec_line (v : view) (g : nat) (total : Z) (ns : F64.t) (path : list string) : line :=
  line_of (pred (length path)) (mkScope (hd EmptyString path) None [] (calls_of v (g, path)) (time_of v (g, path))) (time_above v g total path) ns.

(** A writer that collects the lines. *)
Definition collect (l : line) (out : list line) : list line * bool := (out ++ [l], true).
Definition flushed (out : list line) : list line * bool := (out, true).

(** Each element prints its own set of paths. *)
Lemma write_all_ok (a : gmap key Z) f (f_line : list string -> line) (P : key -> list string -> Prop) (ks : list key) l out :
  Some <$> l = (fun k => a !! k) <$> ks -> NoDup ks ->
  (forall k k' q, k ∈ ks -> k' ∈ ks -> P k q -> P k' q -> k = k') ->
  (forall k x out, k ∈ ks -> a !! k = Some x -> exists qs, f x out = Ret (out ++ (f_line <$> qs), true) /\ NoDup qs /\ forall q, q ∈ qs <-> P k q) ->
  exists qs, write_all f l out = Ret (out ++ (f_line <$> qs), true) /\ NoDup qs /\ forall q, q ∈ qs <-> exists k, k ∈ ks /\ P k q.
Proof.
  intros El Hnd Hdis Hf. revert l out El. induction Hnd as [|k ks Hk Hnd IH]; intros [|x l] out El; try discriminate El.
  - exists []. rewrite app_nil_r. split; [done|]. split; [constructor|]. intros q. split; [by intros ?%elem_of_nil|]. by intros (k & ?%elem_of_nil & _).
  - injection El as Ex El. destruct (Hf k x out) as (q1 & E1 & N1 & S1); [by left|done|].
    destruct (IH) with (l := l) (out := out ++ (f_line <$> q1)) as (q2 & E2 & N2 & S2); [|by intros; apply Hf; [right|]|done|].
    { intros k1 k2 q H1 H2. by apply Hdis; right. }
    exists (q1 ++ q2). cbn [write_all]. rewrite E1. cbn. fold (write_all f). unfold write_all in E2 |- *. rewrite E2, fmap_app, app_assoc. split; [done|]. split.
    + apply NoDup_app. split; [done|]. split; [|done]. intros q Hq1 (k' & Hk' & Hq2)%S2. apply S1 in Hq1.
      rewrite (Hdis k k' q) in Hk; [done|by left|by right|done|done].
    + intros q. rewrite elem_of_app, S1, S2. split.
      * intros [?|(k' & ? & ?)]; [exists k|exists k']; (split; [|done]); [by left|by right].
      * intros (k' & [->|?]%elem_of_cons & ?); [by left|]. right. by exists k'.
Qed.

(** The paths printed at or below a scope. *)
Definition printed (v : view) (max_depth : option nat) (k : key) (q : list string) : Prop :=
  (k.1, q) ∈ entered v /\ k.2 `suffix_of` q /\ beyond (pred (length q)) max_depth = false.

Lemma suffix_same_length {A} (l1 l2 q : list A) : l1 `suffix_of` q -> l2 `suffix_of` q -> length l1 = length l2 -> l1 = l2.
Proof. intros [x ->] [y E] El. by apply app_inj_2 in E as [_ ->]. Qed.

Lemma printed_disjoint v md g path k k' q :
  k ∈ children v g path -> k' ∈ children v g path -> printed v md k q -> printed v md k' q -> k = k'.
Proof.
  intros (_ & <- & n & E)%children_elem (_ & Eg & n' & E')%children_elem (_ & S1 & _) (_ & S2 & _).
  destruct k as [g1 q1], k' as [g2 q2]. cbn in *. subst. f_equal. by eapply suffix_same_length.
Qed.

Lemma beyond_mono d d' md : (d <= d')%nat -> beyond d' md = false -> beyond d md = false.
Proof. destruct md as [m|]; [|done]. unfold beyond. intros Hd Hb. apply Nat.ltb_ge. apply Nat.ltb_ge in Hb. lia. Qed.

(** Below a scope: itself, and what is below its children. *)
Lemma printed_below a v p md g path q :
  inv a v p -> path <> [] -> is_Some (a !! (g, path)) -> beyond (pred (length path)) md = false ->
  (printed v md (g, path) q <-> q = path \/ exists k, k ∈ children v g path /\ printed v md k q).
Proof.
  intros I Hne Hs Hb. unfold printed. cbn. split.
  - intros (He & [l ->] & Hq). destruct l as [|m l _] using rev_ind; [by left|]. right. rewrite <- app_assoc in *. cbn in *.
    exists (g, m :: path). split; [|split; [done|split; [by eexists|done]]]. apply children_elem. split; [|split; [done|by eexists]].
    apply (pi_dom _ _ _ I). apply (entered_closed a v p g l (m :: path) I); [by apply (pi_dom _ _ _ I)|done].
  - intros [->|(k & (_ & Eg & m & Ek)%children_elem & He & Hsuf & Hq)]; [split; [by apply (pi_dom _ _ _ I)|done]|].
    rewrite Ek in Hsuf. subst g. split; [done|]. split; [|done]. destruct Hsuf as [l ->]. exists (l ++ [m]). by rewrite <- app_assoc.
Qed.

(** A path is no longer than there are scopes. *)
Lemma path_bound a v p g path : inv a v p -> is_Some (a !! (g, path)) -> (length path <= length (entered v))%nat.
Proof.
  intros I Hs. set (l := (fun i => (g, drop i path)) <$> seq 0 (length path)).
  assert (Hl : length l = length path) by (unfold l; by rewrite length_fmap, length_seq). rewrite <- Hl. apply submseteq_length, NoDup_submseteq.
  - apply NoDup_fmap_2_strong; [|apply NoDup_seq]. intros i j Hi Hj [= E]. apply elem_of_seq in Hi, Hj. apply (f_equal length) in E.
    rewrite !length_drop in E. lia.
  - intros k (i & -> & Hi)%list_elem_of_fmap. apply elem_of_seq in Hi. apply (pi_dom _ _ _ I).
    apply (entered_closed a v p g (take i path)); [done|by rewrite take_drop|]. intros E. apply (f_equal length) in E. rewrite length_drop in E. cbn in E. lia.
Qed.

Lemma store_bound a v p : inv a v p -> (length (entered v) <= size (store p))%nat.
Proof.
  intros I. assert (H : exists l, Some <$> l = (fun k => a !! k) <$> entered v).
  { assert (Hall : forall k, k ∈ entered v -> is_Some (a !! k)) by (intros k; apply (pi_dom _ _ _ I)).
    induction (entered v) as [|k ks IH]; [by exists []|]. destruct IH as [l El]; [intros k' Hk'; apply Hall; by right|].
    destruct (Hall k) as [x Hx]; [by left|]. exists (x :: l). cbn. by rewrite Hx, El. }
  destruct H as [l El]. assert (Hlen : length l = length (entered v)) by (apply (f_equal length) in El; by rewrite !length_fmap in El).
  assert (Hl : forall x, x ∈ l -> exists k, k ∈ entered v /\ a !! k = Some x).
  { intros x Hx. assert (H : Some x ∈ (fun k => a !! k) <$> entered v) by (rewrite <- El; by apply list_elem_of_fmap_2).
    apply list_elem_of_fmap in H as (k & Hk & He). by exists k. }
  assert (Hnd : NoDup l).
  { apply (NoDup_fmap_1 Some). rewrite El. apply NoDup_fmap_2_strong; [|apply I]. intros k k' Hk Hk' E. apply (pi_dom _ _ _ I) in Hk as [x Hx].
    apply (pi_inj _ _ _ I k k' x); congruence. }
  rewrite <- Hlen, <- size_dom, <- (size_list_to_set (C := gset Z)) by done. apply subseteq_size. intros x Hx%elem_of_list_to_set.
  destruct (Hl x Hx) as (k & _ & Hk). destruct (pi_scope _ _ _ I k x Hk) as (s & Hs & _). apply elem_of_dom. by eexists.
Qed.

Lemma write_recursive_ok a v p T md fuel g path x out :
  inv a v p -> a !! (g, path) = Some x -> (length (entered v) < fuel + length path)%nat ->
  exists qs, write_recursive collect fuel T md p (pred (length path)) x out = Ret (out ++ (spec_line v g T (ns_per_cycle p) <$> qs), true) /\
    NoDup qs /\ forall q, q ∈ qs <-> printed v md (g, path) q.
Proof.
  intros I. revert g path x out. induction fuel as [|fuel IH]; intros g path x out Hx Hf.
  { assert (length path <= length (entered v))%nat by (apply (path_bound a v p g path I); by eexists). cbn in Hf. lia. }
  destruct (pi_scope _ _ _ I _ _ Hx) as (s & Hs & So). destruct (so_name _ _ _ _ So) as (rest & Er & Ep & Hr). cbn in Er, Ep, Hr.
  assert (Hne : path <> []) by (by rewrite Er). cbn [write_recursive]. destruct (beyond (pred (length path)) md) eqn:Hb.
  { exists []. cbn. rewrite app_nil_r. split; [done|]. split; [constructor|]. intros q. split; [by intros ?%elem_of_nil|].
    intros (_ & [l ->] & Hq). cbn in Hq. apply (beyond_mono (pred (length path))) in Hq; [congruence|]. rewrite length_app. lia. }
  unfold scope at 1. rewrite Hs. cbn [mbind outcome_bind]. assert (Hps : pred_sum T s p = Ret (time_above v g T path)).
  { unfold pred_sum, time_above. rewrite Ep, Er. cbn. destruct rest as [|m rest]; [done|]. destruct Hr as [y Hy]; [done|]. rewrite Hy.
    destruct (pi_scope _ _ _ I _ _ Hy) as (s' & Hs' & So'). unfold scope. rewrite Hs'. cbn. by rewrite (so_time _ _ _ _ So'). }
  rewrite Hps. cbn [mbind outcome_bind collect negb]. set (ln := line_of _ _ _ _).
  assert (El : ln = spec_line v g T (ns_per_cycle p) path) by (unfold ln, spec_line, line_of; cbn; by rewrite (so_time _ _ _ _ So), (so_calls _ _ _ _ So), Er).
  destruct (write_all_ok a (write_recursive collect fuel T md p (S (pred (length path)))) (spec_line v g T (ns_per_cycle p)) (printed v md)
    (children v g path) (sc_succs s) (out ++ [ln])) as (qs & E & N & Hq).
  - apply So.
  - apply NoDup_filter, I.
  - intros k k' q. apply printed_disjoint.
  - intros [g' q'] y out' (_ & Eg & n & Ek)%children_elem Hy. cbn in Eg, Ek. subst g' q'.
    destruct (IH g (n :: path) y out' Hy) as (qs & E & R); [cbn; lia|]. exists qs. cbn in E. by replace (S (pred (length path))) with (length path) by (rewrite Er; done).
  - exists (path :: qs). rewrite E, El, <- app_assoc. split; [done|]. split.
    + constructor; [|done]. intros (k & (_ & _ & n & Ek)%children_elem & _ & [l El'] & _)%Hq. rewrite Ek in El'.
      apply (f_equal length) in El'. rewrite length_app in El'. cbn in El'. lia.
    + intros q. rewrite elem_of_cons, Hq. symmetry. by apply (printed_below a v p).
Qed.

Definition total_of (v : view) : Z := foldr (fun k r => wrap64 (time_of v k + r)) 0 (children v (gen v) []).

Lemma total_ok a v p ks l : inv a v p -> Some <$> l = (fun k => a !! k) <$> ks -> total l p = Ret (foldr (fun k r => wrap64 (time_of v k + r)) 0 ks).
Proof.
  intros I. revert l. induction ks as [|k ks IH]; intros [|x l] El; try discriminate El; [done|]. injection El as Ex El. cbn.
  destruct (pi_scope _ _ _ I k x) as (s & Hs & So); [done|]. unfold scope. rewrite Hs. cbn. rewrite IH by done. cbn. by rewrite (so_time _ _ _ _ So).
Qed.

(** The report has a line for every path entered since the last reset, up to the depth asked for. *)
Lemma report_ok a v p md out :
  inv a v p ->
  exists qs, write collect flushed md p out = Ret (out ++ (spec_line v (gen v) (total_of v) (ns_per_cycle p) <$> qs), true) /\
    NoDup qs /\ forall q, q ∈ qs <-> (gen v, q) ∈ entered v /\ beyond (pred (length q)) md = false.
Proof.
  intros I. unfold write. rewrite (total_ok a v p _ _ I (pi_roots _ _ _ I)). cbn [mbind outcome_bind]. fold (total_of v).
  pose proof (store_bound a v p I) as Hb.
  destruct (write_all_ok a (write_recursive collect (S (size (store p))) (total_of v) md p 0) (spec_line v (gen v) (total_of v) (ns_per_cycle p)) (printed v md)
    (children v (gen v) []) (roots p) out) as (qs & E & N & Hq).
  - apply I.
  - apply NoDup_filter, I.
  - intros k k' q. apply printed_disjoint.
  - intros [g q] x out' (_ & Eg & n & Ek)%children_elem Hx. cbn in Eg, Ek. subst g q.
    apply (write_recursive_ok a v p (total_of v) md (S (size (store p))) (gen v) [n]); [done|done|cbn; lia].
  - exists qs. rewrite E. split; [done|]. split; [done|]. intros q. rewrite Hq. split.
    + intros (k & (_ & <- & _)%children_elem & ? & _ & ?). done.
    + intros [He Hd]. apply (pi_dom _ _ _ I) in He. assert (Hne : q <> []).
      { intros ->. destruct He as [x Hx]. destruct (pi_scope _ _ _ I _ _ Hx) as (s & _ & So). by destruct (so_name _ _ _ _ So) as (? & ? & _). }
      destruct q as [|n l _] using rev_ind; [done|]. exists (gen v, [n]). split; [|split; [by apply (pi_dom _ _ _ I)|split; [by eexists|done]]].
      apply children_elem. split; [|split; [done|by eexists]]. apply (pi_dom _ _ _ I). by eapply (entered_closed a v p).
Qed.

Lemma steps_ok es a v p gs :
  inv a v p -> guards_ok v gs ->
  exists a' p' gs', steps es (p, gs) = Ret (p', gs') /\ let v' := foldl (fun v e => spec e v) v es in inv a' v' p' /\ guards_ok v' gs'.
Proof.
  revert a v p gs. induction es as [|e es IH]; intros a v p gs I G; [by exists a, p, gs|].
  destruct (prof_step_ok a v p gs e I G) as (a' & p' & gs' & E & I' & G'). cbn [steps]. rewrite E. cbn [mbind outcome_bind foldl]. by eapply IH.
Qed.

(** The clock rate is measured once. *)
Lemma successor_ns name p x p' : successor name p = Ret (x, p') -> ns_per_cycle p' = ns_per_cycle p.
Proof.
  unfold successor, alloc. intros E. destruct (current p) as [c|].
  - destruct (scope c p) as [s| |]; cbn in E; try done. destruct (find_named name (sc_succs s) p) as [[y|]| |]; cbn in E; try done; [by simplify_eq|].
    destruct (scope c _) as [s'| |]; cbn in E; [by simplify_eq|done|done].
  - destruct (find_named name (roots p) p) as [[y|]| |]; cbn in E; try done; by simplify_eq.
Qed.

Lemma step_ns e p gs p' gs' : step e (p, gs) = Ret (p', gs') -> ns_per_cycle p' = ns_per_cycle p.
Proof.
  destruct e as [name now|now|]; cbn.
  - unfold enter. destruct (successor name p) as [[x q]| |] eqn:E; cbn; try done. intros [= <- _]. cbn. by eapply successor_ns.
  - destruct gs as [|g gs]; [by intros [= <- _]|]. unfold Guard_drop, leave, scope. destruct (current p) as [c|]; [|by intros [= <- _]].
    destruct (store p !! c); [|done]. by intros [= <- _].
  - by intros [= <- _].
Qed.

Lemma steps_ns es p gs p' gs' : steps es (p, gs) = Ret (p', gs') -> ns_per_cycle p' = ns_per_cycle p.
Proof.
  revert p gs. induction es as [|e es IH]; intros p gs; cbn [steps]; [by intros [= <- _]|].
  destruct (step e (p, gs)) as [[q gq]| |] eqn:E; cbn [mbind outcome_bind]; try done. intros Hs. rewrite (IH _ _ Hs). by eapply step_ns.
Qed.

Lemma inv_start ns : inv ∅ start (new ns).
Proof. split; cbn; try done; intros; try (by apply NoDup_nil_2); simplify_map_eq; try (split; [intros [? ?]; simplify_map_eq|by intros ?%elem_of_nil]); try by match goal with H : is_Some None |- _ => destruct H end. by apply elem_of_nil in H. Qed.

(** C29: The profiler reports exactly the time spent in each scope.  Whatever scopes a thread enters and
    leaves, and whenever it resets the profiler, no operation fails, and afterwards: the scope the tree
    has at a path of names, if the path was entered since the last reset, counts the visits that ended
    there and the sum of their durations (as 64-bit counters), and there is no scope at any other
    path.  The report terminates and has exactly one line for each such path up to the depth asked
    for, with those figures and the share of its parent. *)
Theorem profiler_reports_visits (ns : F64.t) (es : list event) :
  let v := foldl (fun v e => spec e v) start es in
  exists p gs, steps es (new ns, []) = Ret (p, gs) /\ length gs = length (stack v) /\
    (forall names, names <> [] -> exists o, walk names (roots p) p = Ret o /\
      let k := (gen v, reverse names) in
      match o with
      | Some s => k ∈ entered v /\ num_calls s = calls_of v k /\ duration_sum s = time_of v k
      | None => k ∉ entered v
      end) /\
    forall max_depth out, exists paths,
      write collect flushed max_depth p out = Ret (out ++ (spec_line v (gen v) (total_of v) ns <$> paths), true) /\
      NoDup paths /\ forall q, q ∈ paths <-> (gen v, q) ∈ entered v /\ beyond (pred (length q)) max_depth = false.
Proof.
  intros v. destruct (steps_ok es ∅ start (new ns) [] (inv_start ns)) as (a & p & gs & E & I & G); [done|]. fold v in I, G.
  exists p, gs. split; [done|]. split; [destruct G as [-> <-]; by rewrite length_fmap|]. split.
  - intros names Hn. eexists. split; [by apply (walk_ok a v p (gen v) names [] (roots p) I Hn), I|]. rewrite app_nil_r. cbn.
    pose proof (pi_dom _ _ _ I (gen v, reverse names)) as Hd. destruct (a !! (gen v, reverse names)) as [x|] eqn:Ex; cbn.
    + destruct (pi_scope _ _ _ I _ _ Ex) as (s & Hs & So). rewrite Hs. split; [apply Hd; by eexists|]. split; apply So.
    + intros He. by apply Hd, is_Some_None in He.
  - intros md out. assert (Hns : ns_per_cycle p = ns) by (by apply (steps_ns es (new ns) [] p gs)). rewrite <- Hns. by apply report_ok with a.
Qed.

(** ** The tests of the source *)

Definition visit (name : string) (inner : list event) : list event := EEnter name 0 :: inner ++ [ELeave 10].

Definition figures (names : list string) (es : list event) : option (Z * Z) :=
  match steps es (new (F64.of_Z 1), []) with
  | Ret (p, _) => match walk names (roots p) p with Ret (Some s) => Some (num_calls s, duration_sum s) | _ => None end
  | _ => None
  end.

(** [test_succ_reuse] *)
Example succ_reuse :
  let es := concat (replicate 3 (visit "a" [])) ++ concat (replicate 3 (visit "a" (visit "b" []))) in
  (figures ["a"] es, figures ["a"; "b"] es, figures ["b"] es) = (Some (6, 60), Some (3, 30), None).
Proof. reflexivity. Qed.

(** [test_reset_during_frame] *)
Example reset_during_frame :
  let frame (inner : list event) := visit "a" (visit "b" (visit "c" (inner ++ visit "d" []))) in
  match steps (frame [] ++ frame [EReset]) (new (F64.of_Z 1), []) with
  | Ret (p, _) => (roots p, current p)
  | _ => ([1], Some 1)
  end = ([], None).
Proof. reflexivity. Qed.

End Profiling.
