(* ===== verification/Cubic.v ===== *)
(** * Cubic congestion control
    (src/src/rust/inetstack/protocols/tcp/established/congestion_control/{cubic,options}.rs)

    RFC 8312's window with the single-precision arithmetic of the code, computed by the Standard
    Library's [SpecFloat] (24 bits of precision, exponent bound 128).  [f32::cbrt] and [f32::powi] have
    an unspecified precision: they are a class without laws, so what is proved holds however they
    round.  A watched value is its value; the tasks that watch one are polled in any order by the
    model of the connection, whether they were woken or not. *)

From Stdlib Require Import SpecFloat.
From S2P Require Import Prelude SeqNumber Congestion Rto.

(** ** Single precision *)

Module F32.

Definition prec : Z := 24.
Definition emax : Z := 128.

Definition t : Type := spec_float.

Definition add (x y : t) : t := SFadd prec emax x y.
Definition sub (x y : t) : t := SFsub prec emax x y.
Definition mul (x y : t) : t := SFmul prec emax x y.
Definition div (x y : t) : t := SFdiv prec emax x y.
Definition ltb (x y : t) : bool := SFltb x y.

(** [z as f32], rounded to nearest even. *)
Definition of_Z (z : Z) : t := binary_normalize prec emax z 0 false.

(** A decimal literal n/d: the float nearest to it. *)
Definition lit (n d : Z) : t := div (of_Z n) (of_Z d).

(** [x as u32]: truncates, saturates at both ends, and maps NaN to zero. *)
Definition to_u32 (x : t) : Z :=
  match x with
  | S754_infinity false => U32_MAX
  | S754_finite false m e => Z.min U32_MAX (if 0 <=? e then Z.pos m * 2^e else Z.pos m / 2^(-e))
  | _ => 0
  end.

(** [Duration::as_secs_f32] *)
Definition as_secs_f32 (d : Z) : t :=
  add (of_Z (d / F64.NANOS_PER_SEC)) (div (of_Z (d mod F64.NANOS_PER_SEC)) (of_Z F64.NANOS_PER_SEC)).

End F32.

(** The functions of the standard library with unspecified precision. *)
Class F32Functions := {
  cbrt : F32.t -> F32.t;
  powi : F32.t -> Z -> F32.t
}.

(** ** Options *)

Module Options.

Inductive OptionValue :=
| OptBool (b : bool)
| OptFloat (f : F64.t)
| OptInt (i : Z)
| OptString (s : string).

Record t := mk { inner : gmap string OptionValue }.

Definition default : t := mk ∅.

Definition get_bool (self : t) (key : string) : outcome (option bool) :=
  match inner self !! key with
  | None => Ret None
  | Some (OptBool b) => Ret (Some b)
  | Some _ => Panic "Value should be a bool"
  end.

Definition insert_bool (key : string) (value : bool) (self : t) : t :=
  mk (<[key := OptBool value]> (inner self)).

Definition get_float (self : t) (key : string) : outcome (option F64.t) :=
  match inner self !! key with
  | None => Ret None
  | Some (OptFloat f) => Ret (Some f)
  | Some _ => Panic "Value should be a float"
  end.

Definition insert_float (key : string) (value : F64.t) (self : t) : t :=
  mk (<[key := OptFloat value]> (inner self)).

Definition get_int (self : t) (key : string) : outcome (option Z) :=
  match inner self !! key with
  | None => Ret None
  | Some (OptInt i) => Ret (Some i)
  | Some _ => Panic "Value should be an int"
  end.

Definition insert_int (key : string) (value : Z) (self : t) : t :=
  mk (<[key := OptInt value]> (inner self)).

Definition get_string (self : t) (key : string) : outcome (option string) :=
  match inner self !! key with
  | None => Ret None
  | Some (OptString s) => Ret (Some s)
  | Some _ => Panic "Value should be a string"
  end.

Definition insert_string (key : string) (value : string) (self : t) : t :=
  mk (<[key := OptString value]> (inner self)).

End Options.

(** ** The algorithm *)

Module Cubic.

Record t := mk {
  mss : Z;
  ca_start : Z;
  cwnd : Z;
  fast_convergence_on : bool;
  initial_cwnd : Z;
  last_send_time : Z;
  last_congestion_was_rto : bool;
  retransmitted_packets_in_flight : Z;
  rtt_at_last_send : Z;
  ssthresh : Z;
  w_max : Z;
  duplicate_ack_count : Z;
  fast_retransmit_now : bool;
  in_fast_recovery : bool;
  prev_ack_seq_no : Seq.SeqNumber;
  recover : Seq.SeqNumber;
  limited_transmit_cwnd_increase : Z
}.

Definition set_ca (start : Z) (rto : bool) (s : t) : t :=
  mk (mss s) start (cwnd s) (fast_convergence_on s) (initial_cwnd s) (last_send_time s) rto
    (retransmitted_packets_in_flight s) (rtt_at_last_send s) (ssthresh s) (w_max s)
    (duplicate_ack_count s) (fast_retransmit_now s) (in_fast_recovery s) (prev_ack_seq_no s)
    (recover s) (limited_transmit_cwnd_increase s).
Definition set_cwnd (v : Z) (s : t) : t :=
  mk (mss s) (ca_start s) v (fast_convergence_on s) (initial_cwnd s) (last_send_time s)
    (last_congestion_was_rto s) (retransmitted_packets_in_flight s) (rtt_at_last_send s) (ssthresh s)
    (w_max s) (duplicate_ack_count s) (fast_retransmit_now s) (in_fast_recovery s)
    (prev_ack_seq_no s) (recover s) (limited_transmit_cwnd_increase s).
Definition set_last_send (time rtt : Z) (s : t) : t :=
  mk (mss s) (ca_start s) (cwnd s) (fast_convergence_on s) (initial_cwnd s) time
    (last_congestion_was_rto s) (retransmitted_packets_in_flight s) rtt (ssthresh s) (w_max s)
    (duplicate_ack_count s) (fast_retransmit_now s) (in_fast_recovery s) (prev_ack_seq_no s)
    (recover s) (limited_transmit_cwnd_increase s).
Definition set_rpif (v : Z) (s : t) : t :=
  mk (mss s) (ca_start s) (cwnd s) (fast_convergence_on s) (initial_cwnd s) (last_send_time s)
    (last_congestion_was_rto s) v (rtt_at_last_send s) (ssthresh s) (w_max s) (duplicate_ack_count s)
    (fast_retransmit_now s) (in_fast_recovery s) (prev_ack_seq_no s) (recover s)
    (limited_transmit_cwnd_increase s).
Definition set_ssthresh (v : Z) (s : t) : t :=
  mk (mss s) (ca_start s) (cwnd s) (fast_convergence_on s) (initial_cwnd s) (last_send_time s)
    (last_congestion_was_rto s) (retransmitted_packets_in_flight s) (rtt_at_last_send s) v (w_max s)
    (duplicate_ack_count s) (fast_retransmit_now s) (in_fast_recovery s) (prev_ack_seq_no s)
    (recover s) (limited_transmit_cwnd_increase s).
Definition set_w_max (v : Z) (s : t) : t :=
  mk (mss s) (ca_start s) (cwnd s) (fast_convergence_on s) (initial_cwnd s) (last_send_time s)
    (last_congestion_was_rto s) (retransmitted_packets_in_flight s) (rtt_at_last_send s) (ssthresh s)
    v (duplicate_ack_count s) (fast_retransmit_now s) (in_fast_recovery s) (prev_ack_seq_no s)
    (recover s) (limited_transmit_cwnd_increase s).
Definition set_dup (v : Z) (s : t) : t :=
  mk (mss s) (ca_start s) (cwnd s) (fast_convergence_on s) (initial_cwnd s) (last_send_time s)
    (last_congestion_was_rto s) (retransmitted_packets_in_flight s) (rtt_at_last_send s) (ssthresh s)
    (w_max s) v (fast_retransmit_now s) (in_fast_recovery s) (prev_ack_seq_no s) (recover s)
    (limited_transmit_cwnd_increase s).
Definition set_fast_retransmit_now (v : bool) (s : t) : t :=
  mk (mss s) (ca_start s) (cwnd s) (fast_convergence_on s) (initial_cwnd s) (last_send_time s)
    (last_congestion_was_rto s) (retransmitted_packets_in_flight s) (rtt_at_last_send s) (ssthresh s)
    (w_max s) (duplicate_ack_count s) v (in_fast_recovery s) (prev_ack_seq_no s) (recover s)
    (limited_transmit_cwnd_increase s).
Definition set_in_fast_recovery (v : bool) (s : t) : t :=
  mk (mss s) (ca_start s) (cwnd s) (fast_convergence_on s) (initial_cwnd s) (last_send_time s)
    (last_congestion_was_rto s) (retransmitted_packets_in_flight s) (rtt_at_last_send s) (ssthresh s)
    (w_max s) (duplicate_ack_count s) (fast_retransmit_now s) v (prev_ack_seq_no s) (recover s)
    (limited_transmit_cwnd_increase s).
Definition set_prev_ack (v : Seq.SeqNumber) (s : t) : t :=
  mk (mss s) (ca_start s) (cwnd s) (fast_convergence_on s) (initial_cwnd s) (last_send_time s)
    (last_congestion_was_rto s) (retransmitted_packets_in_flight s) (rtt_at_last_send s) (ssthresh s)
    (w_max s) (duplicate_ack_count s) (fast_retransmit_now s) (in_fast_recovery s) v (recover s)
    (limited_transmit_cwnd_increase s).
Definition set_recover (v : Seq.SeqNumber) (s : t) : t :=
  mk (mss s) (ca_start s) (cwnd s) (fast_convergence_on s) (initial_cwnd s) (last_send_time s)
    (last_congestion_was_rto s) (retransmitted_packets_in_flight s) (rtt_at_last_send s) (ssthresh s)
    (w_max s) (duplicate_ack_count s) (fast_retransmit_now s) (in_fast_recovery s)
    (prev_ack_seq_no s) v (limited_transmit_cwnd_increase s).
Definition set_ltci (v : Z) (s : t) : t :=
  mk (mss s) (ca_start s) (cwnd s) (fast_convergence_on s) (initial_cwnd s) (last_send_time s)
    (last_congestion_was_rto s) (retransmitted_packets_in_flight s) (rtt_at_last_send s) (ssthresh s)
    (w_max s) (duplicate_ack_count s) (fast_retransmit_now s) (in_fast_recovery s)
    (prev_ack_seq_no s) (recover s) v.

Definition BETA_CUBIC : F32.t := F32.lit 7 10.
Definition C : F32.t := F32.lit 4 10.
Definition DUP_ACK_THRESHOLD : Z := 3.

(** RFC 5681's initial window. *)
Definition initial_window (mss : Z) : Z :=
  if mss <=? 1095 then wrap32 (4 * mss) else if mss <=? 2190 then wrap32 (3 * mss) else wrap32 (2 * mss).

Definition new (now mss : Z) (seq_no : Seq.SeqNumber) (options : option Options.t) : outcome t :=
  if U32_MAX <? mss then Panic "called `Result::unwrap()` on an `Err` value" else
  let initial_cwnd := initial_window mss in
  fc ← Options.get_bool (default Options.default options) "fast_convergence";
  Ret (mk mss now initial_cwnd (default true fc) initial_cwnd now false 0 F64.NANOS_PER_SEC U32_MAX 0
         0 false false seq_no seq_no 0).

(** [self.fast_convergence()] *)
Definition fast_convergence (s : t) : outcome t :=
  if mss s =? 0 then Panic "attempt to divide by zero" else
  if cwnd s / mss s <? w_max s / mss s then
    Ret (set_w_max (F32.to_u32 (F32.div (F32.mul (F32.of_Z (cwnd s)) (F32.add (F32.of_Z 1) BETA_CUBIC))
                                  (F32.of_Z 2))) s)
  else Ret (set_w_max (cwnd s) s).

Definition increment_dup_ack_count (s : t) : Z * t :=
  let n := wrap32 (duplicate_ack_count s + 1) in
  let s := set_dup n s in
  (n, if n <? DUP_ACK_THRESHOLD then set_ltci (wrap32 (limited_transmit_cwnd_increase s + mss s)) s else s).

(** [(cwnd as f32 * Self::BETA_CUBIC) as u32] *)
Definition reduced (cwnd : Z) : Z := F32.to_u32 (F32.mul (F32.of_Z cwnd) BETA_CUBIC).

Definition remember_w_max (s : t) : outcome t :=
  if fast_convergence_on s then fast_convergence s else Ret (set_w_max (cwnd s) s).

Definition on_dup_ack_received (send_next ack_seq_no : Seq.SeqNumber) (s : t) : outcome t :=
  let '(duplicate_ack_count, s) := increment_dup_ack_count s in
  let ack_seq_no_diff := ack_seq_no ⊖ prev_ack_seq_no s in
  let ack_covers_recover := ack_seq_no ⊖ 1 >ₛ recover s in
  let retransmitted_packet_dropped_heuristic :=
    (mss s <? cwnd s) && (ack_seq_no_diff <=? wrap32 (4 * mss s)) in
  if ((duplicate_ack_count =? DUP_ACK_THRESHOLD) &&
      (ack_covers_recover || retransmitted_packet_dropped_heuristic))%bool then
    let s := set_recover send_next (set_in_fast_recovery true s) in
    let reduced_cwnd := reduced (cwnd s) in
    s ← remember_w_max s;
    Ret (set_fast_retransmit_now true
           (set_cwnd reduced_cwnd (set_ssthresh (Z.max reduced_cwnd (wrap32 (2 * mss s))) s)))
  else if ((DUP_ACK_THRESHOLD <? duplicate_ack_count) || in_fast_recovery s)%bool then
    Ret (set_cwnd (wrap32 (cwnd s + mss s)) s)
  else Ret s.

Definition on_ack_received_fast_recovery (now : Z) (send_unacked send_next ack_seq_no : Seq.SeqNumber)
  (s : t) : t :=
  let bytes_outstanding := send_next ⊖ send_unacked in
  let bytes_acknowledged := ack_seq_no ⊖ send_unacked in
  if ack_seq_no >ₛ recover s then
    set_in_fast_recovery false
      (set_ca now false
         (set_cwnd (Z.min (ssthresh s) (wrap32 (Z.max bytes_outstanding (mss s) + mss s))) s))
  else
    let s := set_fast_retransmit_now true s in
    if mss s <=? bytes_acknowledged
    then set_cwnd (wrap32 (wrap32 (cwnd s - bytes_acknowledged) + mss s)) s
    else set_cwnd (wrap32 (cwnd s - bytes_acknowledged)) s.

Section window.
Context `{F32Functions}.

Definition k (s : t) (w_max : F32.t) : F32.t :=
  if last_congestion_was_rto s then F32.of_Z 0
  else cbrt (F32.div (F32.mul w_max (F32.sub (F32.of_Z 1) BETA_CUBIC)) C).

Definition w_cubic (w_max t k : F32.t) : F32.t := F32.add (F32.mul C (powi (F32.sub t k) 3)) w_max.

Definition w_est (w_max t rtt : F32.t) : F32.t :=
  let bc := BETA_CUBIC in
  F32.add (F32.mul w_max bc)
    (F32.div (F32.mul (F32.div (F32.mul (F32.of_Z 3) (F32.sub (F32.of_Z 1) bc)) (F32.add (F32.of_Z 1) bc)) t)
       rtt).

(** [self.ca_start.get().elapsed()] is zero when the clock reads an earlier time. *)
Definition on_ack_received_ss_ca (now rto : Z) (send_unacked ack_seq_no : Seq.SeqNumber) (s : t) : t :=
  let bytes_acknowledged := ack_seq_no ⊖ send_unacked in
  if cwnd s <? ssthresh s then set_cwnd (wrap32 (cwnd s + Z.min bytes_acknowledged (mss s))) s
  else
    let t := F32.as_secs_f32 (Z.max 0 (now - ca_start s)) in
    let rtt := F32.as_secs_f32 rto in
    let mss_f32 := F32.of_Z (mss s) in
    let normalised_w_max := F32.div (F32.of_Z (w_max s)) mss_f32 in
    let k := k s normalised_w_max in
    let w_est := w_est normalised_w_max t rtt in
    if F32.ltb (w_cubic normalised_w_max t k) w_est
    then set_cwnd (F32.to_u32 (F32.mul w_est mss_f32)) s
    else
      let normalised_cwnd := F32.div (F32.of_Z (cwnd s)) mss_f32 in
      let cwnd_inc := F32.mul (F32.div (F32.sub (w_cubic normalised_w_max (F32.add t rtt) k) normalised_cwnd)
                                 normalised_cwnd) mss_f32 in
      set_cwnd (wrap32 (cwnd s + F32.to_u32 cwnd_inc)) s.

Definition on_rto_ss_ca (s : t) : outcome t :=
  let cwnd' := cwnd s in
  s ← remember_w_max s;
  let s := set_cwnd (mss s) s in
  let rpif := retransmitted_packets_in_flight s in
  let s := if rpif =? 0 then set_ssthresh (Z.max (reduced cwnd') (wrap32 (2 * mss s))) s else s in
  Ret (set_ca (ca_start s) true (set_rpif (wrap32 (rpif + 1)) s)).

Definition on_rto_fast_recovery (send_unacked : Seq.SeqNumber) (s : t) : t :=
  set_in_fast_recovery false (set_recover send_unacked s).

Definition on_cwnd_check_before_send (now : Z) (s : t) : t :=
  if rtt_at_last_send s <? Z.max 0 (now - last_send_time s) then
    set_ltci 0 (set_cwnd (Z.min (initial_cwnd s) (cwnd s)) s)
  else s.

Definition on_send (now rto num_bytes_sent : Z) (s : t) : t :=
  let s := set_last_send now rto s in
  set_ltci (Z.max 0 (limited_transmit_cwnd_increase s - num_bytes_sent)) s.

Definition on_ack_received (now rto : Z) (send_unacked send_next ack_seq_no : Seq.SeqNumber) (s : t) :
  outcome t :=
  let bytes_acknowledged := ack_seq_no ⊖ send_unacked in
  if bytes_acknowledged =? 0 then
    s ← on_dup_ack_received send_next ack_seq_no s;
    Ret (set_rpif (Z.max 0 (retransmitted_packets_in_flight s - 1)) s)
  else
    let s := set_dup 0 s in
    let s := if in_fast_recovery s
             then on_ack_received_fast_recovery now send_unacked send_next ack_seq_no s
             else on_ack_received_ss_ca now rto send_unacked ack_seq_no s in
    Ret (set_prev_ack ack_seq_no s).

Definition on_rto (send_unacked : Seq.SeqNumber) (s : t) : outcome t :=
  s ← on_rto_ss_ca s;
  Ret (on_rto_fast_recovery send_unacked s).

Definition on_fast_retransmit (s : t) : t := set_fast_retransmit_now false s.

End window.

End Cubic.

(** Cubic behind the interface of the connection. *)
#[export] Instance Cubic_congestion_control `{F32Functions} : CongestionControl Cubic.t := {
  cc_get_cwnd := Cubic.cwnd;
  cc_on_cwnd_check_before_send := fun now c => Ret (Cubic.on_cwnd_check_before_send now c);
  cc_on_ack_received := Cubic.on_ack_received;
  cc_on_rto := Cubic.on_rto;
  cc_on_send := fun now rto n c => Ret (Cubic.on_send now rto n c);
  cc_get_duplicate_ack_count := Cubic.duplicate_ack_count;
  cc_get_retransmit_now_flag := Cubic.fast_retransmit_now;
  cc_on_fast_retransmit := fun c => Ret (Cubic.on_fast_retransmit c);
  cc_get_limited_transmit_cwnd_increase := Cubic.limited_transmit_cwnd_increase
}.
