(* ===== verification/CtrlBlk.v ===== *)
(** * The established connection
    (src/src/rust/inetstack/protocols/tcp/established/{ctrlblk,sender}.rs and background/)

    The transmission control block of a connection past the handshake: its state as records, its
    operations as computations in a state monad whose results are values, panics or divergence,
    and whose effects (segments handed to the runtime, statistics, wake-ups) are a trace.  The
    background coroutines are one definition per turn of their loops. *)

From S2P Require Import Prelude Buffer SeqNumber Net TcpSegment Congestion Rto.

Definition RECV_QUEUE_SZ : nat := 2048.
Definition MAX_OUT_OF_ORDER : nat := 2048.
Definition UNSENT_QUEUE_CUTOFF : nat := 1024.

Inductive State :=
| Established | FinWait1 | FinWait2 | Closing | TimeWait | CloseWait | LastAck | Closed.

#[export] Instance State_eq_dec : EqDecision State.
Proof. solve_decision. Defined.

Record UnackedSegment := mkUnacked { bytes : Buffer.t; initial_tx : option Z }.

(** [Sender]: a [WatchedValue] is the cell it holds. *)
Record Sender := mkSender {
  send_unacked : Seq.SeqNumber;
  unacked_queue : list UnackedSegment;
  send_next : Seq.SeqNumber;
  unsent_queue : list Buffer.t;
  unsent_seq_no : Seq.SeqNumber;
  send_window : Z;
  send_window_last_update_seq : Seq.SeqNumber;
  send_window_last_update_ack : Seq.SeqNumber;
  snd_window_scale : Z;
  mss : Z
}.

Definition Sender_new (seq_no : Seq.SeqNumber) (send_window window_scale mss : Z) : Sender :=
  mkSender seq_no [] seq_no [] seq_no send_window seq_no seq_no window_scale mss.

(** [Receiver]; the statistics handles are effects. *)
Record Receiver := mkReceiver {
  reader_next : Seq.SeqNumber;
  receive_next : Seq.SeqNumber;
  recv_queue : list Buffer.t
}.

Definition Receiver_new (reader_next receive_next : Seq.SeqNumber) : Receiver :=
  mkReceiver reader_next receive_next [].

(** [ControlBlock]: the runtime, scheduler, clock and ARP handles are the environment; of the TCP
    configuration only the checksum flag is read; the reader's waker is whether one is
    registered. *)
Record ControlBlock (C : Type) := mkControlBlock {
  local : SocketAddrV4;
  remote : SocketAddrV4;
  local_link_addr : MacAddress;
  tx_offload : bool;
  sender : Sender;
  state : State;
  ack_delay_timeout : Z;
  ack_deadline : option Z;
  receive_buffer_size : Z;
  window_scale : Z;
  waker : bool;
  out_of_order : list (Seq.SeqNumber * Buffer.t);
  out_of_order_fin : option Seq.SeqNumber;
  receiver : Receiver;
  user_is_done_sending : bool;
  cc : C;
  retransmit_deadline : option Z;
  rto_calculator : RtoCalculator.t
}.
Arguments mkControlBlock {C}.
Arguments local {C}. Arguments remote {C}. Arguments local_link_addr {C}. Arguments tx_offload {C}.
Arguments sender {C}. Arguments state {C}. Arguments ack_delay_timeout {C}. Arguments ack_deadline {C}.
Arguments receive_buffer_size {C}. Arguments window_scale {C}. Arguments waker {C}.
Arguments out_of_order {C}. Arguments out_of_order_fin {C}. Arguments receiver {C}.
Arguments user_is_done_sending {C}. Arguments cc {C}. Arguments retransmit_deadline {C}.
Arguments rto_calculator {C}.

(** What a call hands to the outside. *)
Inductive effect :=
| Transmit (segment : TcpSegment)
| RecvQueueStatsSet (len : nat)
| RpsStatsIncrement
| StatsDisable
| WakeReader.

(** The environment of one call: the clock (constant between two [advance_clock]) and the ARP
    cache. *)
Record Env := mkEnv { now : Z; arp_try_query : Ipv4Addr -> option MacAddress }.

Section ctrlblk.
Context {C : Type} `{!CongestionControl C}.
#[local] Abbreviation CB := (ControlBlock C).

(** ** The monad *)

Definition M (A : Type) : Type := CB -> list effect -> outcome (A * CB * list effect).

#[export] Instance M_ret : MRet M := fun A a cb tr => Ret (a, cb, tr).
#[export] Instance M_bind : MBind M := fun A B k m cb tr =>
  match m cb tr with
  | Ret (a, cb', tr') => k a cb' tr'
  | Panic msg => Panic msg
  | Diverge => Diverge
  end.

Definition gets {A} (f : CB -> A) : M A := fun cb tr => Ret (f cb, cb, tr).
Definition modify (f : CB -> CB) : M unit := fun cb tr => Ret (tt, f cb, tr).
Definition effect_of (e : effect) : M unit := fun cb tr => Ret (tt, cb, tr ++ [e]).
Definition lift {A} (o : outcome A) : M A := fun cb tr =>
  match o with
  | Ret a => Ret (a, cb, tr)
  | Panic msg => Panic msg
  | Diverge => Diverge
  end.
Definition when (b : bool) (m : M unit) : M unit := if b then m else mret tt.

(** ** Field updates *)

Definition set_sender (v : Sender) (cb : CB) : CB :=
  mkControlBlock (local cb) (remote cb) (local_link_addr cb) (tx_offload cb) v (state cb)
    (ack_delay_timeout cb) (ack_deadline cb) (receive_buffer_size cb) (window_scale cb) (waker cb)
    (out_of_order cb) (out_of_order_fin cb) (receiver cb) (user_is_done_sending cb) (cc cb)
    (retransmit_deadline cb) (rto_calculator cb).
Definition set_state (v : State) (cb : CB) : CB :=
  mkControlBlock (local cb) (remote cb) (local_link_addr cb) (tx_offload cb) (sender cb) v
    (ack_delay_timeout cb) (ack_deadline cb) (receive_buffer_size cb) (window_scale cb) (waker cb)
    (out_of_order cb) (out_of_order_fin cb) (receiver cb) (user_is_done_sending cb) (cc cb)
    (retransmit_deadline cb) (rto_calculator cb).
Definition set_ack_deadline (v : option Z) (cb : CB) : CB :=
  mkControlBlock (local cb) (remote cb) (local_link_addr cb) (tx_offload cb) (sender cb) (state cb)
    (ack_delay_timeout cb) v (receive_buffer_size cb) (window_scale cb) (waker cb)
    (out_of_order cb) (out_of_order_fin cb) (receiver cb) (user_is_done_sending cb) (cc cb)
    (retransmit_deadline cb) (rto_calculator cb).
Definition set_waker (v : bool) (cb : CB) : CB :=
  mkControlBlock (local cb) (remote cb) (local_link_addr cb) (tx_offload cb) (sender cb) (state cb)
    (ack_delay_timeout cb) (ack_deadline cb) (receive_buffer_size cb) (window_scale cb) v
    (out_of_order cb) (out_of_order_fin cb) (receiver cb) (user_is_done_sending cb) (cc cb)
    (retransmit_deadline cb) (rto_calculator cb).
Definition set_out_of_order (v : list (Seq.SeqNumber * Buffer.t)) (cb : CB) : CB :=
  mkControlBlock (local cb) (remote cb) (local_link_addr cb) (tx_offload cb) (sender cb) (state cb)
    (ack_delay_timeout cb) (ack_deadline cb) (receive_buffer_size cb) (window_scale cb) (waker cb)
    v (out_of_order_fin cb) (receiver cb) (user_is_done_sending cb) (cc cb)
    (retransmit_deadline cb) (rto_calculator cb).
Definition set_out_of_order_fin (v : option Seq.SeqNumber) (cb : CB) : CB :=
  mkControlBlock (local cb) (remote cb) (local_link_addr cb) (tx_offload cb) (sender cb) (state cb)
    (ack_delay_timeout cb) (ack_deadline cb) (receive_buffer_size cb) (window_scale cb) (waker cb)
    (out_of_order cb) v (receiver cb) (user_is_done_sending cb) (cc cb)
    (retransmit_deadline cb) (rto_calculator cb).
Definition set_receiver (v : Receiver) (cb : CB) : CB :=
  mkControlBlock (local cb) (remote cb) (local_link_addr cb) (tx_offload cb) (sender cb) (state cb)
    (ack_delay_timeout cb) (ack_deadline cb) (receive_buffer_size cb) (window_scale cb) (waker cb)
    (out_of_order cb) (out_of_order_fin cb) v (user_is_done_sending cb) (cc cb)
    (retransmit_deadline cb) (rto_calculator cb).
Definition set_user_is_done_sending (v : bool) (cb : CB) : CB :=
  mkControlBlock (local cb) (remote cb) (local_link_addr cb) (tx_offload cb) (sender cb) (state cb)
    (ack_delay_timeout cb) (ack_deadline cb) (receive_buffer_size cb) (window_scale cb) (waker cb)
    (out_of_order cb) (out_of_order_fin cb) (receiver cb) v (cc cb)
    (retransmit_deadline cb) (rto_calculator cb).
Definition set_cc (v : C) (cb : CB) : CB :=
  mkControlBlock (local cb) (remote cb) (local_link_addr cb) (tx_offload cb) (sender cb) (state cb)
    (ack_delay_timeout cb) (ack_deadline cb) (receive_buffer_size cb) (window_scale cb) (waker cb)
    (out_of_order cb) (out_of_order_fin cb) (receiver cb) (user_is_done_sending cb) v
    (retransmit_deadline cb) (rto_calculator cb).
Definition set_retransmit_deadline (v : option Z) (cb : CB) : CB :=
  mkControlBlock (local cb) (remote cb) (local_link_addr cb) (tx_offload cb) (sender cb) (state cb)
    (ack_delay_timeout cb) (ack_deadline cb) (receive_buffer_size cb) (window_scale cb) (waker cb)
    (out_of_order cb) (out_of_order_fin cb) (receiver cb) (user_is_done_sending cb) (cc cb)
    v (rto_calculator cb).
Definition set_rto_calculator (v : RtoCalculator.t) (cb : CB) : CB :=
  mkControlBlock (local cb) (remote cb) (local_link_addr cb) (tx_offload cb) (sender cb) (state cb)
    (ack_delay_timeout cb) (ack_deadline cb) (receive_buffer_size cb) (window_scale cb) (waker cb)
    (out_of_order cb) (out_of_order_fin cb) (receiver cb) (user_is_done_sending cb) (cc cb)
    (retransmit_deadline cb) v.

(** Updates of one field of the sender. *)
Definition snd_set_unacked (v : Seq.SeqNumber) (s : Sender) : Sender :=
  mkSender v (unacked_queue s) (send_next s) (unsent_queue s) (unsent_seq_no s) (send_window s)
    (send_window_last_update_seq s) (send_window_last_update_ack s) (snd_window_scale s) (mss s).
Definition snd_set_unacked_queue (v : list UnackedSegment) (s : Sender) : Sender :=
  mkSender (send_unacked s) v (send_next s) (unsent_queue s) (unsent_seq_no s) (send_window s)
    (send_window_last_update_seq s) (send_window_last_update_ack s) (snd_window_scale s) (mss s).
Definition snd_set_next (v : Seq.SeqNumber) (s : Sender) : Sender :=
  mkSender (send_unacked s) (unacked_queue s) v (unsent_queue s) (unsent_seq_no s) (send_window s)
    (send_window_last_update_seq s) (send_window_last_update_ack s) (snd_window_scale s) (mss s).
Definition snd_set_unsent_queue (v : list Buffer.t) (s : Sender) : Sender :=
  mkSender (send_unacked s) (unacked_queue s) (send_next s) v (unsent_seq_no s) (send_window s)
    (send_window_last_update_seq s) (send_window_last_update_ack s) (snd_window_scale s) (mss s).
Definition snd_set_unsent_seq_no (v : Seq.SeqNumber) (s : Sender) : Sender :=
  mkSender (send_unacked s) (unacked_queue s) (send_next s) (unsent_queue s) v (send_window s)
    (send_window_last_update_seq s) (send_window_last_update_ack s) (snd_window_scale s) (mss s).
Definition snd_set_window (w : Z) (wl1 wl2 : Seq.SeqNumber) (s : Sender) : Sender :=
  mkSender (send_unacked s) (unacked_queue s) (send_next s) (unsent_queue s) (unsent_seq_no s) w
    wl1 wl2 (snd_window_scale s) (mss s).

Definition modify_sender (f : Sender -> Sender) : M unit := modify (fun cb => set_sender (f (sender cb)) cb).

(** ** Construction *)

Definition ControlBlock_new (local remote : SocketAddrV4) (local_link_addr : MacAddress)
  (tx_offload : bool) (receiver_seq_no : Seq.SeqNumber) (ack_delay_timeout : Z)
  (receiver_window_size receiver_window_scale : Z) (sender_seq_no : Seq.SeqNumber)
  (sender_window_size sender_window_scale sender_mss : Z)
  (cc_constructor : CongestionControlConstructor C) : CB :=
  mkControlBlock local remote local_link_addr tx_offload
    (Sender_new sender_seq_no sender_window_size sender_window_scale sender_mss)
    Established ack_delay_timeout None receiver_window_size receiver_window_scale false [] None
    (Receiver_new receiver_seq_no receiver_seq_no) false (cc_constructor sender_mss sender_seq_no)
    None RtoCalculator.new.

(** ** The receiver *)

(** [Receiver::pop] *)
Definition Receiver_pop : M (option Buffer.t) :=
  r ← gets receiver;
  match recv_queue r with
  | [] => mret None
  | buf :: q =>
      _ ← effect_of (RecvQueueStatsSet (length q));
      _ ← modify (set_receiver
            (mkReceiver (reader_next r ⊕ wrap32 (blen buf)) (receive_next r) q));
      mret (Some buf)
  end.

(** [Receiver::push] *)
Definition Receiver_push (buf : Buffer.t) : M unit :=
  r ← gets receiver;
  let q := recv_queue r ++ [buf] in
  _ ← effect_of (RecvQueueStatsSet (length q));
  _ ← effect_of RpsStatsIncrement;
  modify (set_receiver (mkReceiver (reader_next r) (receive_next r ⊕ wrap32 (blen buf)) q)).

(** ** Windows and segments *)

Definition get_receive_window_size (cb : CB) : Z :=
  let bytes_unread := receive_next (receiver cb) ⊖ reader_next (receiver cb) in
  wrap32 (receive_buffer_size cb - bytes_unread).

Definition hdr_window_size (cb : CB) : outcome Z :=
  let window_size := get_receive_window_size cb in
  let w := Z.shiftr window_size (window_scale cb) in
  if w <=? U16_MAX then Ret w else Panic "Window size overflow".

Definition tcp_header (cb : CB) : outcome TcpHeader.t :=
  let header := TcpHeader.new (port (local cb)) (port (remote cb)) in
  w ← hdr_window_size cb;
  Ret (TcpHeader.set_ack (TcpHeader.set_window_size header w) (receive_next (receiver cb))).

Definition emit (header : TcpHeader.t) (body : option Buffer.t) (remote_link_addr : MacAddress) : M unit :=
  let sent_fin := TcpHeader.fin header in
  cb ← gets id;
  let segment := mkTcpSegment
    (Ethernet2Header.new remote_link_addr (local_link_addr cb) EtIpv4)
    (Ipv4Header.new (ip (local cb)) (ip (remote cb)) TCP)
    header body (tx_offload cb) in
  _ ← effect_of (Transmit segment);
  _ ← modify (set_ack_deadline None);
  if sent_fin then
    match state cb with
    | Established => modify (set_state FinWait1)
    | CloseWait => modify (set_state LastAck)
    | _ => mret tt
    end
  else mret tt.

Definition send_ack (env : Env) : M unit :=
  cb ← gets id;
  header ← lift (tcp_header cb);
  let header := TcpHeader.set_seq_num header (send_next (sender cb)) in
  match arp_try_query env (ip (remote cb)) with
  | Some remote_link_addr => emit header None remote_link_addr
  | None => mret tt
  end.

Definition rto : M Z := cb ← gets id; lift (RtoCalculator.get_rto (rto_calculator cb)).

Definition disable_stats : M unit := effect_of StatsDisable.

(** [self.waker.borrow_mut().take()] and [wake]. *)
Definition wake_reader : M unit :=
  w ← gets waker;
  when w (_ ← modify (set_waker false); effect_of WakeReader).

Definition poll_recv : M (option Buffer.t) :=
  r ← gets receiver;
  match recv_queue r with
  | [] => _ ← modify (set_waker true); mret None
  | _ =>
      b ← Receiver_pop;
      match b with
      | Some buf => mret (Some buf)
      | None => lift (Panic "poll_recv failed to pop data from receive queue")
      end
  end.

(** ** The out-of-order store *)

(** The scan of the sorted store for the place of the new segment; [index] is the position of
    the head of [l].  The result is what the loop decided when it stopped. *)
Inductive ooo_scan :=
| OooDrop
| OooRemove (index : nat) (new_start new_end : Seq.SeqNumber) (buf : Buffer.t)
| OooInsert (action_index : nat) (new_start new_end : Seq.SeqNumber) (buf : Buffer.t).

Fixpoint scan_out_of_order (len index : nat) (l : list (Seq.SeqNumber * Buffer.t))
  (new_start new_end : Seq.SeqNumber) (buf : Buffer.t) : outcome ooo_scan :=
  match l with
  | [] => Ret (OooInsert len new_start new_end buf)
  | (stored_start, stored) :: l =>
      let stored_len := wrap32 (blen stored) in
      let stored_end := stored_start ⊕ wrap32 (stored_len - 1) in
      if new_start <ₛ stored_start then
        if new_end <ₛ stored_start then Ret (OooInsert index new_start new_end buf)
        else if stored_end <ₛ new_end then Ret (OooRemove index new_start new_end buf)
        else
          let excess := wrap32 ((new_end ⊖ stored_start) + 1) in
          let new_end := new_end ⊖ excess in
          buf ← Buffer.trim buf excess;
          Ret (OooInsert len new_start new_end buf)
      else
        if new_end ≤ₛ stored_end then Ret OooDrop
        else if stored_end <ₛ new_start then scan_out_of_order len (S index) l new_start new_end buf
        else
          let duplicate := stored_end ⊖ new_start in
          let new_start := new_start ⊕ duplicate in
          buf ← Buffer.adjust buf duplicate;
          scan_out_of_order len (S index) l new_start new_end buf
  end.

(** The passes over the store: each removes one encompassed segment, so the store's length
    plus one bounds their number. *)
Fixpoint store_passes (fuel : nat) (store : list (Seq.SeqNumber * Buffer.t))
  (new_start new_end : Seq.SeqNumber) (buf : Buffer.t) : outcome (list (Seq.SeqNumber * Buffer.t)) :=
  match fuel with
  | O => Diverge
  | S k =>
      r ← scan_out_of_order (length store) 0 store new_start new_end buf;
      match r with
      | OooDrop => Ret store
      | OooRemove index new_start new_end buf =>
          store_passes k (delete index store) new_start new_end buf
      | OooInsert action_index new_start new_end buf =>
          let store := take action_index store ++ (new_start, buf) :: drop action_index store in
          Ret (take MAX_OUT_OF_ORDER store)
      end
  end.

Definition store_out_of_order_segment (new_start new_end : Seq.SeqNumber) (buf : Buffer.t) : M unit :=
  store ← gets out_of_order;
  store ← lift (store_passes (S (length store)) store new_start new_end buf);
  modify (set_out_of_order store).

Definition store_out_of_order_fin (fin : Seq.SeqNumber) : M unit :=
  modify (set_out_of_order_fin (Some fin)).

(** ** Receiving data *)

(** The loop that moves now in-order entries of the store to the receive queue. *)
Fixpoint recover_out_of_order (store : list (Seq.SeqNumber * Buffer.t)) (recv_next : Seq.SeqNumber)
  (added_out_of_order : bool) : M (Seq.SeqNumber * bool) :=
  match store with
  | [] => _ ← modify (set_out_of_order []); mret (recv_next, added_out_of_order)
  | (start, buf) :: store' =>
      if start =? recv_next then
        _ ← Receiver_push buf;
        recover_out_of_order store' (recv_next ⊕ wrap32 (blen buf)) true
      else _ ← modify (set_out_of_order store); mret (recv_next, added_out_of_order)
  end.

(** Returns whether a FIN that was received out of order is now in order. *)
Definition receive_data (seg_start : Seq.SeqNumber) (buf : Buffer.t) : M bool :=
  cb ← gets id;
  let recv_next := receive_next (receiver cb) ⊕ wrap32 (blen buf) in
  _ ← Receiver_push buf;
  '(recv_next, added_out_of_order) ← recover_out_of_order (out_of_order cb) recv_next false;
  _ ← wake_reader;
  cb ← gets id;
  mret (added_out_of_order &&
        match out_of_order_fin cb with
        | Some fin => fin =? recv_next
        | None => false
        end)%bool.

(** ** The sender *)

(** [Sender::update_send_window] *)
Definition update_send_window (header : TcpHeader.t) (s : Sender) : Sender :=
  if ((send_window_last_update_seq s <ₛ TcpHeader.seq_num header)
      || ((send_window_last_update_seq s =? TcpHeader.seq_num header)
          && (send_window_last_update_ack s ≤ₛ TcpHeader.ack_num header)))%bool
  then snd_set_window (wrap32 (Z.shiftl (TcpHeader.window_size header) (snd_window_scale s)))
         (TcpHeader.seq_num header) (TcpHeader.ack_num header) s
  else s.

(** The loop of [Sender::remove_acknowledged_data]: while bytes remain, look at the front of the
    retransmission queue.  With an empty queue the loop does not end. *)
Fixpoint remove_acknowledged (q : list UnackedSegment) (bytes_remaining now : Z) (r : RtoCalculator.t) :
  outcome (list UnackedSegment * RtoCalculator.t) :=
  if bytes_remaining =? 0 then Ret (q, r) else
  match q with
  | [] => Diverge
  | segment :: q =>
      let r := match initial_tx segment with
               | Some t => RtoCalculator.add_sample r (Z.max 0 (now - t))
               | None => r
               end in
      if bytes_remaining <? blen (bytes segment) then
        b ← Buffer.adjust (bytes segment) bytes_remaining;
        Ret (mkUnacked b None :: q, r)
      else
        let bytes_remaining := if blen (bytes segment) =? 0 then 0 else bytes_remaining in
        remove_acknowledged q (bytes_remaining - blen (bytes segment)) now r
  end.

Definition remove_acknowledged_data (bytes_acknowledged now : Z) : M unit :=
  cb ← gets id;
  '(q, r) ← lift (remove_acknowledged (unacked_queue (sender cb)) bytes_acknowledged now
                    (rto_calculator cb));
  _ ← modify_sender (snd_set_unacked_queue q);
  modify (set_rto_calculator r).

Definition push_unacked_segment (segment : UnackedSegment) : M unit :=
  modify_sender (fun s => snd_set_unacked_queue (unacked_queue s ++ [segment]) s).

Definition modify_send_next (n : Z) : M unit :=
  modify_sender (fun s => snd_set_next (send_next s ⊕ n) s).

Definition cc_modify (f : C -> outcome C) : M unit :=
  c ← gets cc;
  c ← lift (f c);
  modify (set_cc c).

(** Start the retransmission timer if it is not running. *)
Definition start_retransmit_timer (env : Env) : M unit :=
  d ← gets retransmit_deadline;
  match d with
  | Some _ => mret tt
  | None => r ← rto; modify (set_retransmit_deadline (Some (now env + r)))
  end.

(** The immediate transmission of [Sender::send]; [false] when the window, the congestion window
    or ARP does not allow it. *)
Definition send_immediate (env : Env) (buf : Buffer.t) (buf_len : Z) : M bool :=
  s ← gets sender;
  let sent_data := send_next s ⊖ send_unacked s in
  let in_flight_after_send := wrap32 (sent_data + buf_len) in
  _ ← cc_modify (cc_on_cwnd_check_before_send (now env));
  c ← gets cc;
  let effective_cwnd := wrap32 (cc_get_cwnd c + cc_get_limited_transmit_cwnd_increase c) in
  let win_sz := send_window s in
  cb ← gets id;
  if ((0 <? win_sz) && (in_flight_after_send <=? win_sz)
      && (in_flight_after_send <=? effective_cwnd))%bool then
    match arp_try_query env (ip (remote cb)) with
    | None => mret false
    | Some remote_link_addr =>
        r ← rto;
        _ ← cc_modify (cc_on_send (now env) r sent_data);
        cb ← gets id;
        header ← lift (tcp_header cb);
        let header := TcpHeader.set_seq_num header (send_next s) in
        let header := if buf_len =? 0 then TcpHeader.set_fin header true
                      else TcpHeader.set_psh header true in
        let buf_len := if buf_len =? 0 then 1 else buf_len in
        _ ← emit header (Some buf) remote_link_addr;
        _ ← modify_send_next buf_len;
        _ ← modify_sender (fun s => snd_set_unsent_seq_no (unsent_seq_no s ⊕ buf_len) s);
        _ ← push_unacked_segment (mkUnacked buf (Some (now env)));
        _ ← start_retransmit_timer env;
        mret true
    end
  else mret false.

(** [Sender::send], also [ControlBlock::send]. *)
Definition send (env : Env) (buf : Buffer.t) : M (Result unit) :=
  cb ← gets id;
  if user_is_done_sending cb then mret (Err (mkFail EINVAL "Connection is closing")) else
  if U32_MAX <? blen buf then mret (Err (mkFail EINVAL "buffer too large")) else
  let buf_len := blen buf in
  sent ← (if Nat.eqb (length (unsent_queue (sender cb))) 0
          then send_immediate env buf buf_len else mret false);
  match sent with
  | true => mret (Ok tt)
  | false =>
      if Nat.ltb UNSENT_QUEUE_CUTOFF (length (unsent_queue (sender cb)))
      then mret (Err (mkFail EBUSY "too many packets to send")) else
      _ ← modify_sender (fun s => snd_set_unsent_queue (unsent_queue s ++ [buf]) s);
      _ ← modify_sender (fun s => snd_set_unsent_seq_no (unsent_seq_no s ⊕ buf_len) s);
      mret (Ok tt)
  end.

(** [Sender::retransmit]: the earliest unacknowledged segment, from SND.UNA. *)
Definition retransmit (env : Env) : M unit :=
  cb ← gets id;
  match unacked_queue (sender cb) with
  | [] => mret tt
  | segment :: q =>
      _ ← modify_sender (snd_set_unacked_queue (mkUnacked (bytes segment) None :: q));
      let data := bytes segment in
      match arp_try_query env (ip (remote cb)) with
      | None => mret tt
      | Some first_hop_link_addr =>
          header ← lift (tcp_header cb);
          let header := TcpHeader.set_seq_num header (send_unacked (sender cb)) in
          let header := if Nat.eqb (length data) 0 then TcpHeader.set_fin header true
                        else TcpHeader.set_psh header true in
          emit header (Some data) first_hop_link_addr
      end
  end.

(** [Sender::pop_one_unsent_byte]: the first byte of the front buffer, which stays queued. *)
Definition pop_one_unsent_byte : M (option Buffer.t) :=
  s ← gets sender;
  match unsent_queue s with
  | [] => mret None
  | buf :: q =>
      rest ← lift (Buffer.adjust buf 1);
      first ← lift (Buffer.trim buf (wrap64 (blen buf - 1)));
      _ ← modify_sender (snd_set_unsent_queue (rest :: q));
      mret (Some first)
  end.

(** [Sender::pop_unsent]: at most [max_bytes] of the front buffer, and whether to push. *)
Definition pop_unsent (max_bytes : Z) : M (option (Buffer.t * bool)) :=
  s ← gets sender;
  match unsent_queue s with
  | [] => mret None
  | buf :: q =>
      if max_bytes <? blen buf then
        rest ← lift (Buffer.adjust buf max_bytes);
        first ← lift (Buffer.trim buf (blen buf - max_bytes));
        _ ← modify_sender (snd_set_unsent_queue (rest :: q));
        mret (Some (first, false))
      else
        _ ← modify_sender (snd_set_unsent_queue q);
        mret (Some (buf, true))
  end.

Definition top_size_unsent (cb : CB) : option Z :=
  match unsent_queue (sender cb) with
  | [] => None
  | buf :: _ => Some (blen buf)
  end.

(** [close]: queue a FIN (an empty buffer) and remember that the user is done. *)
Definition close (env : Env) : M (Result unit) :=
  cb ← gets id;
  if user_is_done_sending cb then mret (Ok tt) else
  _ ← disable_stats;
  r ← send env [];
  match r with
  | Err _ => lift (Panic "send failed")
  | Ok _ => _ ← modify (set_user_is_done_sending true); mret (Ok tt)
  end.

(** ** Receiving a segment *)

(** A segment after the window check, with the duplicate front and the excess end cut off. *)
Record InWindow := mkInWindow {
  iw_header : TcpHeader.t;
  iw_data : Buffer.t;
  seg_start : Seq.SeqNumber;
  seg_end : Seq.SeqNumber;
  seg_len : Z
}.

(** Cut the end that lies beyond the receive window. *)
Definition trim_to_window (header : TcpHeader.t) (data : Buffer.t) (seg_start seg_end : Seq.SeqNumber)
  (seg_len : Z) (after_receive_window : Seq.SeqNumber) : outcome InWindow :=
  if ((0 <? seg_len) && (seg_end ≥ₛ after_receive_window))%bool then
    let excess := wrap32 ((seg_end ⊖ after_receive_window) + 1) in
    let seg_end := seg_end ⊖ excess in
    let seg_len := wrap32 (seg_len - excess) in
    let '(header, excess) :=
      if TcpHeader.fin header then (TcpHeader.set_fin header false, wrap32 (excess - 1))
      else (header, excess) in
    data ← Buffer.trim data excess;
    Ret (mkInWindow header data seg_start seg_end seg_len)
  else Ret (mkInWindow header data seg_start seg_end seg_len).

(** Acceptability of the segment; [None] when it was dropped (and acknowledged, unless a RST). *)
Definition check_window (env : Env) (header : TcpHeader.t) (data : Buffer.t) : M (option InWindow) :=
  cb ← gets id;
  let seg_start := TcpHeader.seq_num header in
  let seg_len := wrap32 (blen data) in
  let seg_len := if TcpHeader.syn header then wrap32 (seg_len + 1) else seg_len in
  let seg_len := if TcpHeader.fin header then wrap32 (seg_len + 1) else seg_len in
  let seg_end := if 0 <? seg_len then seg_start ⊕ wrap32 (seg_len - 1) else seg_start in
  let receive_next := receive_next (receiver cb) in
  let after_receive_window := receive_next ⊕ get_receive_window_size cb in
  let drop_segment := _ ← when (negb (TcpHeader.rst header)) (send_ack env); mret None in
  if negb (seg_start =? receive_next) then
    if seg_start <ₛ receive_next then
      if seg_end <ₛ receive_next then drop_segment
      else
        let duplicate := receive_next ⊖ seg_start in
        let seg_start := seg_start ⊕ duplicate in
        let seg_len := wrap32 (seg_len - duplicate) in
        let '(header, duplicate) :=
          if TcpHeader.syn header then (TcpHeader.set_syn header false, wrap32 (duplicate - 1))
          else (header, duplicate) in
        data ← lift (Buffer.adjust data duplicate);
        w ← lift (trim_to_window header data seg_start seg_end seg_len after_receive_window);
        mret (Some w)
    else if seg_start ≥ₛ after_receive_window then drop_segment
    else
      w ← lift (trim_to_window header data seg_start seg_end seg_len after_receive_window);
      mret (Some w)
  else
    w ← lift (trim_to_window header data seg_start seg_end seg_len after_receive_window);
    mret (Some w).

(** An in-window RST closes the connection. *)
Definition process_rst : M unit :=
  _ ← disable_stats;
  s ← gets state;
  match s with
  | Established | FinWait1 | FinWait2 | CloseWait => modify (set_state Closed)
  | Closing | LastAck | TimeWait => modify (set_state Closed)
  | Closed => mret tt
  end.

(** State changes when everything sent is acknowledged. *)
Definition all_acknowledged : M unit :=
  s ← gets state;
  match s with
  | Established => mret tt
  | FinWait1 => modify (set_state FinWait2)
  | Closing => modify (set_state TimeWait)
  | LastAck => modify (set_state Closed)
  | _ => mret tt
  end.

(** ACK processing; [false] when the segment was dropped for acknowledging unsent data. *)
Definition process_ack (env : Env) (header : TcpHeader.t) : M bool :=
  cb ← gets id;
  let send_unacknowledged := send_unacked (sender cb) in
  let send_next := send_next (sender cb) in
  let ack_num := TcpHeader.ack_num header in
  r ← rto;
  _ ← cc_modify (cc_on_ack_received (now env) r send_unacknowledged send_next ack_num);
  if send_unacknowledged <ₛ ack_num then
    if ack_num ≤ₛ send_next then
      let bytes_acknowledged := ack_num ⊖ send_unacknowledged in
      _ ← remove_acknowledged_data bytes_acknowledged (now env);
      _ ← modify_sender (snd_set_unacked ack_num);
      _ ← modify_sender (update_send_window header);
      if ack_num =? send_next then
        _ ← modify (set_retransmit_deadline None);
        _ ← all_acknowledged;
        mret true
      else
        r ← rto;
        _ ← modify (set_retransmit_deadline (Some (now env + r)));
        mret true
    else
      _ ← send_ack env;
      mret false
  else mret true.

(** A segment in the window but not at RCV.NXT: store its data and its FIN. *)
Definition process_out_of_order (env : Env) (w : InWindow) : M unit :=
  if 0 <? seg_len w then
    s ← gets state;
    match s with
    | Established | FinWait1 | FinWait2 =>
        '(len, end_) ←
          (if TcpHeader.fin (iw_header w) then
             _ ← store_out_of_order_fin (seg_end w);
             mret (wrap32 (seg_len w - 1), seg_end w ⊖ 1)
           else mret (seg_len w, seg_end w));
        _ ← when (0 <? len) (store_out_of_order_segment (seg_start w) end_ (iw_data w));
        send_ack env
    | _ => mret tt
    end
  else mret tt.

(** In-order text; whether an ACK should be scheduled, and whether a stored FIN is now due. *)
Definition process_text (w : InWindow) : M (bool * bool) :=
  if Nat.eqb (length (iw_data w)) 0 then mret (false, false) else
  s ← gets state;
  match s with
  | Established | FinWait1 | FinWait2 =>
      fin ← receive_data (seg_start w) (iw_data w);
      mret (true, fin)
  | _ => mret (false, false)
  end.

(** Consume a FIN: advance RCV.NXT, change state, acknowledge at once. *)
Definition process_fin (env : Env) : M unit :=
  _ ← disable_stats;
  r ← gets receiver;
  _ ← modify (set_receiver (mkReceiver (reader_next r) (receive_next r ⊕ 1) (recv_queue r)));
  s ← gets state;
  _ ← match s with
      | Established => modify (set_state CloseWait)
      | FinWait1 => modify (set_state Closing)
      | FinWait2 => modify (set_state TimeWait)
      | CloseWait | Closing | LastAck => mret tt
      | TimeWait => mret tt
      | Closed => lift (Panic "Bad TCP state")
      end;
  send_ack env.

(** Start the delayed-ACK timer, or acknowledge now if it was already running. *)
Definition schedule_ack (env : Env) : M unit :=
  cb ← gets id;
  match ack_deadline cb with
  | None => modify (set_ack_deadline (Some (now env + ack_delay_timeout cb)))
  | Some _ => _ ← modify (set_ack_deadline None); send_ack env
  end.

(** The main TCP receive routine. *)
Definition receive (env : Env) (header : TcpHeader.t) (data : Buffer.t) : M unit :=
  cb ← gets id;
  let receive_next := receive_next (receiver cb) in
  w ← check_window env header data;
  match w with
  | None => mret tt
  | Some w =>
      let header := iw_header w in
      if TcpHeader.rst header then process_rst
      else if TcpHeader.syn header then modify (set_state Closed)
      else if negb (TcpHeader.ack header) then mret tt
      else
        continue ← process_ack env header;
        match continue with
        | false => mret tt
        | true =>
            if negb (seg_start w =? receive_next) then process_out_of_order env w
            else
              '(should_schedule_ack, fin) ← process_text w;
              if (TcpHeader.fin header || fin)%bool then process_fin env
              else when should_schedule_ack (schedule_ack env)
        end
  end.

(** ** Background coroutines *)

(** [acknowledger], when the delayed-ACK deadline is reached. *)
Definition acknowledger (env : Env) : M unit :=
  d ← gets ack_deadline;
  match d with
  | Some t => if t <=? now env then send_ack env else mret tt
  | None => mret tt
  end.

(** [retransmitter], one turn: a fast retransmission if congestion control asks for one, else
    the expiry of the retransmission timer. *)
Definition retransmitter (env : Env) : M unit :=
  cb ← gets id;
  if cc_get_retransmit_now_flag (cc cb) then
    _ ← cc_modify cc_on_fast_retransmit;
    retransmit env
  else
    match retransmit_deadline cb with
    | Some t =>
        if t <=? now env then
          _ ← cc_modify (cc_on_rto (send_unacked (sender cb)));
          _ ← retransmit env;
          _ ← modify (fun cb => set_rto_calculator (RtoCalculator.back_off (rto_calculator cb)) cb);
          r ← rto;
          modify (set_retransmit_deadline (Some (now env + r)))
        else mret tt
    | None => mret tt
    end.

(** Where the background sender stands: at the top of its loop, or in PERSIST mode with the peer's
    link address, the probe byte it sent, that byte's sequence number and the next timeout. *)
Inductive SenderPc :=
| SenderTop
| SenderPersist (remote_link_addr : MacAddress) (probe : Buffer.t) (probe_seq : Seq.SeqNumber)
    (timeout : Z).

(** What a turn of the background sender did. *)
Inductive SenderTurn :=
| NothingUnsent
| WaitForWindow
| NoLinkAddress
| Probed
| SentSegment.

(** The window probe. *)
Definition send_probe (env : Env) (remote_link_addr : MacAddress) (send_next : Seq.SeqNumber) :
  M (SenderPc * SenderTurn) :=
  b ← pop_one_unsent_byte;
  match b with
  | None => lift (Panic "No unsent data?")
  | Some buf =>
      _ ← modify_send_next 1;
      _ ← push_unacked_segment (mkUnacked buf (Some (now env)));
      cb ← gets id;
      header ← lift (tcp_header cb);
      let header := TcpHeader.set_seq_num header send_next in
      _ ← emit header (Some buf) remote_link_addr;
      mret (SenderPersist remote_link_addr buf send_next 1000000000, Probed)
  end.

(** The end of a turn: form a segment of at most [max_size] bytes and send it. *)
Definition send_unsent (env : Env) (remote_link_addr : MacAddress) (send_next : Seq.SeqNumber)
  (sent_data max_size : Z) : M (SenderPc * SenderTurn) :=
  p ← pop_unsent max_size;
  match p with
  | None => lift (Panic "No unsent data with sequence number gap?")
  | Some (segment_data, do_push) =>
      let segment_data_len := wrap32 (blen segment_data) in
      r ← rto;
      _ ← cc_modify (cc_on_send (now env) r sent_data);
      cb ← gets id;
      header ← lift (tcp_header cb);
      let header := TcpHeader.set_seq_num header send_next in
      let header := if segment_data_len =? 0 then TcpHeader.set_fin header true
                    else TcpHeader.set_psh header do_push in
      let segment_data_len := if segment_data_len =? 0 then 1 else segment_data_len in
      _ ← emit header (Some segment_data) remote_link_addr;
      _ ← modify_send_next segment_data_len;
      _ ← push_unacked_segment (mkUnacked segment_data (Some (now env)));
      _ ← start_retransmit_timer env;
      mret (SenderTop, SentSegment)
  end.

(** [sender], from the top of its loop until it waits or has sent one segment; [arp] is the
    answer of the (awaited) ARP query. *)
Definition sender_top (env : Env) : M (SenderPc * SenderTurn) :=
  cb ← gets id;
  let s := sender cb in
  if send_next s =? unsent_seq_no s then mret (SenderTop, NothingUnsent) else
  let win_sz := send_window s in
  if win_sz =? 0 then
    match arp_try_query env (ip (remote cb)) with
    | None => mret (SenderTop, NoLinkAddress)
    | Some remote_link_addr => send_probe env remote_link_addr (send_next s)
    end
  else
    _ ← cc_modify (cc_on_cwnd_check_before_send (now env));
    c ← gets cc;
    let effective_cwnd := wrap32 (cc_get_cwnd c + cc_get_limited_transmit_cwnd_increase c) in
    match top_size_unsent cb with
    | None => lift (Panic "no buffer in unsent queue")
    | Some next_buf_size =>
        let sent_data := send_next s ⊖ send_unacked s in
        if ((win_sz <=? wrap32 (sent_data + wrap32 next_buf_size))
            || (effective_cwnd <=? sent_data)
            || (wrap32 (effective_cwnd - sent_data) <=? wrap32 (mss s)))%bool
        then mret (SenderTop, WaitForWindow)
        else
          match arp_try_query env (ip (remote cb)) with
          | None => mret (SenderTop, NoLinkAddress)
          | Some remote_link_addr =>
              let max_size := Z.min (Z.min (wrap32 (win_sz - sent_data)) (mss s))
                                    (wrap32 (effective_cwnd - sent_data)) in
              send_unsent env remote_link_addr (send_next s) sent_data max_size
          end
    end.

(** PERSIST mode: leave it when the window changed, else repeat the probe at each timeout. *)
Definition sender_persist (window_changed timeout_expired : bool) (remote_link_addr : MacAddress)
  (probe : Buffer.t) (probe_seq : Seq.SeqNumber) (timeout : Z) : M SenderPc :=
  if window_changed then mret SenderTop else
  if negb timeout_expired then mret (SenderPersist remote_link_addr probe probe_seq timeout) else
  cb ← gets id;
  header ← lift (tcp_header cb);
  let header := TcpHeader.set_seq_num header probe_seq in
  _ ← emit header (Some probe) remote_link_addr;
  mret (SenderPersist remote_link_addr probe probe_seq (timeout * 2)).

End ctrlblk.
