(* ===== verification/Wp.v ===== *)
(** * Total-correctness reasoning on the connection monad

    [wp m Q cb tr] says that the operation [m], run in the connection state [cb] after the trace
    [tr], returns (it neither panics nor diverges) and that its result, the new state and the
    new trace satisfy [Q].  The rules follow the monad's constructors; the tactic [wp_step]
    applies the one the goal's head calls for. *)

From S2P Require Import Prelude Buffer SeqNumber Net TcpSegment Congestion Rto CtrlBlk.

Section wp.
Context {C : Type}.

Definition wp {A} (m : M (C:=C) A) (Q : A -> ControlBlock C -> list effect -> Prop)
  (cb : ControlBlock C) (tr : list effect) : Prop :=
  match m cb tr with
  | Ret (a, cb', tr') => Q a cb' tr'
  | _ => False
  end.

Lemma wp_ret {A} (a : A) Q cb tr : Q a cb tr -> wp (mret a) Q cb tr.
Proof. done. Qed.

Lemma wp_bind {A B} (m : M A) (k : A -> M B) Q cb tr :
  wp m (fun a => wp (k a) Q) cb tr -> wp (m ≫= k) Q cb tr.
Proof. unfold wp, mbind, M_bind. by destruct (m cb tr) as [[[]]| |]. Qed.

Lemma wp_gets {A} (f : ControlBlock C -> A) Q cb tr : Q (f cb) cb tr -> wp (gets f) Q cb tr.
Proof. done. Qed.

Lemma wp_modify f (Q : unit -> ControlBlock C -> list effect -> Prop) cb tr :
  Q tt (f cb) tr -> wp (modify f) Q cb tr.
Proof. done. Qed.

Lemma wp_modify_sender f (Q : unit -> ControlBlock C -> list effect -> Prop) cb tr :
  Q tt (set_sender (f (sender cb)) cb) tr -> wp (modify_sender f) Q cb tr.
Proof. done. Qed.

Lemma wp_effect e (Q : unit -> ControlBlock C -> list effect -> Prop) cb tr :
  Q tt cb (tr ++ [e]) -> wp (effect_of e) Q cb tr.
Proof. done. Qed.

Lemma wp_lift {A} (o : outcome A) (a : A) Q cb tr : o = Ret a -> Q a cb tr -> wp (lift o) Q cb tr.
Proof. unfold wp, lift. by intros ->. Qed.

Lemma wp_mono {A} (m : M A) (Q Q' : A -> ControlBlock C -> list effect -> Prop) cb tr :
  wp m Q cb tr -> (forall a cb' tr', Q a cb' tr' -> Q' a cb' tr') -> wp m Q' cb tr.
Proof. unfold wp. intros. destruct (m cb tr) as [[[]]| |]; auto. Qed.

(** A computation that satisfies [wp] has an outcome, and every outcome satisfies the
    postcondition. *)
Lemma wp_run {A} (m : M A) (Q : A -> ControlBlock C -> list effect -> Prop) cb tr :
  wp m Q cb tr -> exists a cb' tr', m cb tr = Ret (a, cb', tr') /\ Q a cb' tr'.
Proof. unfold wp. destruct (m cb tr) as [[[a cb'] tr']| |]; try done. by exists a, cb', tr'. Qed.

End wp.

Ltac wp_step :=
  lazymatch goal with
  | |- wp (mbind _ _) _ _ _ => apply wp_bind
  | |- wp (mret _) _ _ _ => apply wp_ret
  | |- wp (gets _) _ _ _ => apply wp_gets
  | |- wp (modify _) _ _ _ => apply wp_modify
  | |- wp (modify_sender _) _ _ _ => apply wp_modify_sender
  | |- wp (effect_of _) _ _ _ => apply wp_effect
  | |- wp (modify_send_next _) _ _ _ => unfold modify_send_next; apply wp_modify_sender
  | |- wp (push_unacked_segment _) _ _ _ => unfold push_unacked_segment; apply wp_modify_sender
  end; cbv beta; try change (id ?x) with x.
Ltac wp_steps := repeat wp_step.

(** Reduce the fields of updated connection states. *)
Ltac fields :=
  cbn [set_sender set_state set_ack_deadline set_waker set_out_of_order set_out_of_order_fin
       set_receiver set_user_is_done_sending set_cc set_retransmit_deadline set_rto_calculator
       snd_set_unacked snd_set_unacked_queue snd_set_next snd_set_unsent_queue
       snd_set_unsent_seq_no snd_set_window
       local remote local_link_addr tx_offload sender state ack_delay_timeout ack_deadline
       receive_buffer_size window_scale waker out_of_order out_of_order_fin receiver
       user_is_done_sending cc retransmit_deadline rto_calculator
       send_unacked unacked_queue send_next unsent_queue unsent_seq_no send_window
       send_window_last_update_seq send_window_last_update_ack snd_window_scale mss
       reader_next receive_next recv_queue bytes initial_tx].

(** Case analysis on the condition a computation branches on. *)
Ltac wp_if E :=
  lazymatch goal with
  | |- wp (if ?c then _ else _) _ _ _ => destruct c eqn:E
  end.
