(* ===== verification/Stream.v ===== *)
(** * Byte streams and the pieces of them that buffers hold

    [at_pos S p buf] says that [buf] is the part of the stream [S] that starts at position [p].
    Cutting a buffer from the front moves its position, cutting it from the back does not;
    these are the only facts the proofs about queues and stores use. *)

From S2P Require Import Prelude Buffer SeqNumber.

Definition at_pos (S : list Z) (p : Z) (buf : list Z) : Prop :=
  forall i x, buf !! i = Some x -> S !! (Z.to_nat p + i)%nat = Some x.

Lemma at_pos_nil S p : at_pos S p [].
Proof. intros i x Hi. by rewrite lookup_nil in Hi. Qed.

Lemma at_pos_app S p l k :
  0 <= p -> at_pos S p (l ++ k) <-> at_pos S p l /\ at_pos S (p + blen l) k.
Proof.
  intros Hp. unfold at_pos, blen. split.
  - intros H. split; intros i x Hi.
    + apply H. by apply lookup_app_l_Some.
    + replace (Z.to_nat (p + Z.of_nat (length l)) + i)%nat
        with (Z.to_nat p + (length l + i))%nat by lia.
      apply H. rewrite lookup_app_r by lia. by replace (length l + i - length l)%nat with i by lia.
  - intros [H1 H2] i x Hi. apply lookup_app_Some in Hi as [Hi|[Hl Hi]]; [by apply H1|].
    apply H2 in Hi. rewrite <- Hi. f_equal. lia.
Qed.

Lemma at_pos_drop S p buf n :
  0 <= p -> 0 <= n -> at_pos S p buf -> at_pos S (p + n) (drop (Z.to_nat n) buf).
Proof.
  intros Hp Hn H i x Hi. rewrite lookup_drop in Hi. apply H in Hi. rewrite <- Hi. f_equal. lia.
Qed.

Lemma at_pos_take S p buf n : at_pos S p buf -> at_pos S p (take n buf).
Proof. intros H i x Hi. apply lookup_take_Some in Hi as [Hi _]. by apply H. Qed.

Lemma at_pos_end S p buf : 0 <= p -> at_pos S p buf -> buf <> [] -> p + blen buf <= blen S.
Proof.
  intros Hp H Hne. destruct (exists_last Hne) as (l & y & ->).
  assert (Hl : (Z.to_nat p + length l < length S)%nat).
  { eapply lookup_lt_Some. apply (H (length l) y). by rewrite lookup_app_r, Nat.sub_diag. }
  rewrite blen_app. unfold blen in *. simpl. lia.
Qed.

Lemma at_pos_take_drop S p buf :
  at_pos S p buf -> (Z.to_nat p + length buf <= length S)%nat ->
  buf = take (length buf) (drop (Z.to_nat p) S).
Proof.
  intros H Hl. apply list_eq. intros i. destruct (decide (i < length buf)%nat) as [Hi|Hi].
  - destruct (lookup_lt_is_Some_2 buf i Hi) as [x Hx]. rewrite Hx.
    rewrite lookup_take_lt by done. rewrite lookup_drop. symmetry. by apply H.
  - rewrite !lookup_ge_None_2; [done| |lia]. rewrite length_take. lia.
Qed.

(** A buffer at the front of the stream is a prefix of it. *)
Lemma at_pos_prefix S buf : at_pos S 0 buf -> buf `prefix_of` S.
Proof.
  intros H. destruct (decide (buf = [])) as [->|Hne]; [apply prefix_nil|].
  pose proof (at_pos_end S 0 buf ltac:(lia) H Hne). unfold blen in *.
  rewrite (at_pos_take_drop S 0 buf H) by lia.
  change (drop (Z.to_nat 0) S) with S. rewrite <- (take_drop (length buf) S) at 2. by eexists.
Qed.
