(* ===== verification/Receiving.v ===== *)
(** * The receive side of a connection

    The invariant that ties the receiver's fields, its queue and its out-of-order store to the
    byte stream [S] the peer sends (its first byte has sequence number [b]), and the proof that
    every operation of the receive path keeps it and returns.  Positions are distances from the
    start of the stream; the FIN takes the position after the last byte. *)

From S2P Require Import Prelude Buffer SeqNumber Net TcpSegment Congestion Rto CtrlBlk Wp Stream.

(** The states in which data is accepted; those entered by consuming the peer's FIN. *)
Definition data_open (s : State) : bool :=
  match s with Established | FinWait1 | FinWait2 => true | _ => false end.
Definition fin_received (s : State) : bool :=
  match s with CloseWait | LastAck | Closing | TimeWait => true | _ => false end.

(** An entry of the out-of-order store: a nonempty part of the stream that ends before [edge]. *)
Definition entry_ok (S : list Z) (b edge : Z) (e : Seq.SeqNumber * Buffer.t) : Prop :=
  exists p, fst e = b ⊕ p /\ 0 <= p /\ snd e <> [] /\ at_pos S p (snd e) /\ p + blen (snd e) <= edge.

Section receiving.
Context {C : Type} `{!CongestionControl C}.
Context (S : list Z) (b : Z).
Hypothesis short : blen S < 2^31 - 4.
#[local] Abbreviation CB := (ControlBlock C).

(** Bytes waiting for the reader. *)
Definition unread (cb : CB) : list Z := concat (recv_queue (receiver cb)).

(** [A] bytes were read by the application so far; [f] is 1 when the peer's FIN was consumed. *)
Record recv_inv (A f : Z) (cb : CB) : Prop := {
  ri_A : 0 <= A;
  ri_f : f = 0 \/ f = 1;
  ri_reader : reader_next (receiver cb) = b ⊕ A;
  ri_queue : at_pos S A (unread cb);
  ri_bound : A + blen (unread cb) <= blen S;
  ri_next : receive_next (receiver cb) = b ⊕ (A + blen (unread cb) + f);
  ri_open : data_open (state cb) = true -> f = 0;
  ri_closed : fin_received (state cb) = true -> f = 1;
  ri_fin : f = 1 -> A + blen (unread cb) = blen S;
  ri_window : blen (unread cb) + f <= receive_buffer_size cb;
  ri_size : receive_buffer_size cb <= 2^30;
  ri_scale : 0 <= window_scale cb /\ Z.shiftr (receive_buffer_size cb) (window_scale cb) <= U16_MAX;
  ri_ooo : Forall (entry_ok S b (A + receive_buffer_size cb)) (out_of_order cb);
  ri_ooo_fin : forall s, out_of_order_fin cb = Some s ->
    s = b ⊕ blen S /\ blen S + 1 <= A + receive_buffer_size cb
}.

(** The fields the invariant reads. *)
Definition recv_view (cb : CB) :=
  (receiver cb, state cb, receive_buffer_size cb, window_scale cb, out_of_order cb, out_of_order_fin cb).

Lemma recv_inv_view A f cb cb' : recv_view cb = recv_view cb' -> recv_inv A f cb -> recv_inv A f cb'.
Proof.
  unfold recv_view. intros [= Hr Hs Hb Hw Ho Hf] [].
  constructor; unfold unread in *; rewrite <- ?Hr, <- ?Hs, <- ?Hb, <- ?Hw, <- ?Ho, <- ?Hf; done.
Qed.

Lemma recv_view_unread cb cb' : recv_view cb = recv_view cb' -> unread cb = unread cb'.
Proof. unfold recv_view, unread. intros [= -> _ _ _ _ _]. done. Qed.

Lemma recv_view_state cb cb' : recv_view cb = recv_view cb' -> state cb = state cb'.
Proof. unfold recv_view. by intros [= _ -> _ _ _ _]. Qed.

(** The invariant looks at the state only through its two classes. *)
Lemma recv_inv_state A f cb s :
  (data_open s = true -> data_open (state cb) = true) ->
  (fin_received s = true -> fin_received (state cb) = true) ->
  recv_inv A f cb -> recv_inv A f (set_state s cb).
Proof. intros Ho Hf []. constructor; simpl in *; auto. Qed.

(** ** The advertised window *)

Lemma window_size A f cb :
  recv_inv A f cb ->
  get_receive_window_size cb = receive_buffer_size cb - (blen (unread cb) + f).
Proof.
  intros []. unfold get_receive_window_size. rewrite ri_next0, ri_reader0.
  pose proof (blen_nonneg (unread cb)).
  rewrite seq_sub_distance by lia.
  rewrite wrap32_small by (unfold u32_ok; lia). lia.
Qed.

(** What the header of every transmitted segment says about the receive side. *)
Definition ack_header (h : TcpHeader.t) : Prop :=
  TcpHeader.syn h = false /\ TcpHeader.rst h = false /\ TcpHeader.ack h = true /\
  u16_ok (TcpHeader.window_size h) /\
  exists k, 0 <= k <= blen S + 1 /\ TcpHeader.ack_num h = b ⊕ k.

Lemma tcp_header_ok A f cb :
  recv_inv A f cb ->
  exists w, tcp_header cb = Ret (TcpHeader.set_ack
    (TcpHeader.set_window_size (TcpHeader.new (port (local cb)) (port (remote cb))) w)
    (receive_next (receiver cb))) /\
    ack_header (TcpHeader.set_ack
      (TcpHeader.set_window_size (TcpHeader.new (port (local cb)) (port (remote cb))) w)
      (receive_next (receiver cb))).
Proof.
  intros H. unfold tcp_header, hdr_window_size. rewrite (window_size A f) by done.
  destruct H. pose proof (blen_nonneg (unread cb)).
  assert (Hle : Z.shiftr (receive_buffer_size cb - (blen (unread cb) + f)) (window_scale cb)
                <= Z.shiftr (receive_buffer_size cb) (window_scale cb)).
  { rewrite !Z.shiftr_div_pow2 by lia. apply Z.div_le_mono; lia. }
  rewrite (proj2 (Z.leb_le _ _)) by lia. eexists. split; [reflexivity|].
  do 3 (split; [done|]). split.
  - cbn [TcpHeader.window_size TcpHeader.set_ack TcpHeader.set_window_size]. unfold u16_ok, U16_MAX in *.
    split; [apply Z.shiftr_nonneg; lia|lia].
  - exists (A + blen (unread cb) + f). split; [lia|exact ri_next0].
Qed.

(** A pure acknowledgement: no data and no FIN, from SND.NXT, acknowledging RCV.NXT. *)
Definition pure_ack (cb : CB) (seg : TcpSegment) : Prop :=
  data seg = None /\ TcpHeader.fin (tcp_hdr seg) = false /\
  TcpHeader.seq_num (tcp_hdr seg) = send_next (sender cb) /\
  TcpHeader.ack_num (tcp_hdr seg) = receive_next (receiver cb) /\ ack_header (tcp_hdr seg).

(** [send_ack] at most transmits one pure acknowledgement and clears the delayed-ACK timer. *)
Lemma wp_send_ack env A f cb tr (Q : unit -> CB -> list effect -> Prop) :
  recv_inv A f cb ->
  Q tt cb tr ->
  (forall seg, pure_ack cb seg -> Q tt (set_ack_deadline None cb) (tr ++ [Transmit seg])) ->
  wp (send_ack env) Q cb tr.
Proof.
  intros H HQ HQ'. destruct (tcp_header_ok A f cb H) as (w & Hh & Hk).
  unfold send_ack. wp_steps. eapply wp_lift; [exact Hh|].
  destruct (arp_try_query env (ip (remote cb))); [|done].
  unfold emit. wp_steps. cbn [TcpHeader.fin TcpHeader.set_seq_num TcpHeader.set_ack
    TcpHeader.set_window_size TcpHeader.new]. apply wp_ret. apply HQ'. done.
Qed.

(** ** The receive queue *)

Lemma unread_push cb r n buf :
  unread (set_receiver (mkReceiver r n (recv_queue (receiver cb) ++ [buf])) cb) = unread cb ++ buf.
Proof. unfold unread. simpl. rewrite concat_app. simpl. by rewrite app_nil_r. Qed.

(** Bytes at RCV.NXT that fit the window can be pushed. *)
Lemma wp_push A cb tr buf (Q : unit -> CB -> list effect -> Prop) :
  recv_inv A 0 cb -> at_pos S (A + blen (unread cb)) buf -> buf <> [] ->
  blen (unread cb) + blen buf <= receive_buffer_size cb ->
  (forall cb' tr', recv_inv A 0 cb' -> unread cb' = unread cb ++ buf ->
     out_of_order cb' = out_of_order cb -> state cb' = state cb -> sender cb' = sender cb ->
     cb' = set_receiver (receiver cb') cb ->
     tr' = tr ++ [RecvQueueStatsSet (length (recv_queue (receiver cb) ++ [buf])); RpsStatsIncrement] ->
     Q tt cb' tr') ->
  wp (Receiver_push buf) Q cb tr.
Proof.
  intros H Hat Hne Hfit HQ. pose proof (blen_nonneg (unread cb)). pose proof (blen_nonneg buf).
  assert (Hend : A + blen (unread cb) + blen buf <= blen S).
  { destruct H. apply at_pos_end; [lia|done|done]. }
  unfold Receiver_push. wp_steps. rewrite <- app_assoc. apply HQ; try done.
  - destruct H. constructor; rewrite ?unread_push, ?blen_app; cbn -[Z.pow]; try done; try lia.
    + by apply at_pos_app.
    + rewrite ri_next0, wrap32_small by (unfold u32_ok; lia).
      rewrite seq_add_assoc. f_equal. lia.
  - apply unread_push.
Qed.

(** [poll_recv] hands over the oldest buffer, which is the next part of the stream. *)
Lemma wp_poll_recv A f cb tr (Q : option Buffer.t -> CB -> list effect -> Prop) :
  recv_inv A f cb ->
  (recv_queue (receiver cb) = [] -> recv_inv A f (set_waker true cb) ->
     Q None (set_waker true cb) tr) ->
  (forall buf cb' tr', recv_inv (A + blen buf) f cb' -> at_pos S A buf ->
     unread cb = buf ++ unread cb' -> cb' = set_receiver (receiver cb') cb ->
     tr' = tr ++ [RecvQueueStatsSet (length (recv_queue (receiver cb')))] -> Q (Some buf) cb' tr') ->
  wp poll_recv Q cb tr.
Proof.
  intros H HN HS. unfold poll_recv. wp_steps.
  destruct (recv_queue (receiver cb)) as [|buf q] eqn:Eq.
  - wp_steps. apply HN; [done|]. by apply (recv_inv_view A f cb).
  - unfold Receiver_pop. wp_steps. rewrite Eq. wp_steps.
    assert (Hu : unread cb = buf ++ concat q) by (unfold unread; by rewrite Eq).
    pose proof (blen_nonneg buf). pose proof (blen_nonneg (concat q)).
    destruct H. rewrite Hu, blen_app in *.
    apply (at_pos_app S A buf (concat q)) in ri_queue0 as [Hq1 Hq2]; [|done].
    apply HS; try done.
    constructor; unfold unread; cbn -[concat Z.pow]; try done; try lia.
    + rewrite ri_reader0, wrap32_small by (unfold u32_ok; lia). apply seq_add_assoc.
    + rewrite ri_next0. f_equal. lia.
    + eapply Forall_impl; [exact ri_ooo0|]. intros e (p & ? & ? & ? & ? & ?). exists p. repeat split; try done. lia.
    + intros s Hs. destruct (ri_ooo_fin0 s Hs). split; [done|lia].
Qed.

(** ** The out-of-order store *)

Lemma store_entry_end p buf : buf <> [] -> 0 <= p -> at_pos S p buf -> 0 < blen buf /\ p + blen buf <= blen S.
Proof.
  intros Hne Hp Hat. split; [|by apply at_pos_end]. destruct buf; [done|]. rewrite blen_cons.
  pose proof (blen_nonneg buf). lia.
Qed.

(** The new segment of the store routine: nonempty, at its position, below [edge]. *)
Definition new_ok (edge : Z) (new_start new_end : Seq.SeqNumber) (buf : Buffer.t) : Prop :=
  exists p, new_start = b ⊕ p /\ new_end = b ⊕ (p + blen buf - 1) /\ 0 <= p /\ buf <> [] /\
    at_pos S p buf /\ p + blen buf <= edge.

(** One scan never panics; what it keeps of the new segment is still a part of the stream. *)
Lemma scan_ok edge len l index ns ne buf :
  Forall (entry_ok S b edge) l -> new_ok edge ns ne buf ->
  (index + length l <= len)%nat ->
  exists r, scan_out_of_order len index l ns ne buf = Ret r /\
    match r with
    | OooDrop => True
    | OooRemove i ns' ne' buf' => (index <= i < index + length l)%nat /\ new_ok edge ns' ne' buf'
    | OooInsert i ns' ne' buf' => (i <= len)%nat /\ new_ok edge ns' ne' buf'
    end.
Proof.
  intros Hl. revert index ns ne buf. induction Hl as [|[ss stored] l He Hl IH]; intros index ns ne buf Hnew Hlen.
  - eexists. split; [reflexivity|]. split; [lia|done].
  - cbn [scan_out_of_order]. destruct He as (q & Hss & Hq & Hsne & Hsat & Hsedge). cbn [fst snd] in *.
    pose proof Hnew as (p & Hns & Hne & Hp & Hbne & Hbat & Hbedge).
    destruct (store_entry_end q stored Hsne Hq Hsat) as [Hs1 Hs2].
    destruct (store_entry_end p buf Hbne Hp Hbat) as [Hb1 Hb2].
    cbn [length] in Hlen. subst ss ns ne.
    rewrite (wrap32_small (blen stored)) by (unfold u32_ok; lia).
    rewrite (wrap32_small (blen stored - 1)), seq_add_assoc by (unfold u32_ok; lia).
    rewrite !seq_lt_window, seq_le_window by lia.
    destruct (Z.ltb_spec p q).
    + destruct (Z.ltb_spec (p + blen buf - 1) q); [eexists; split; [reflexivity|]; split; [lia|done]|].
      destruct (Z.ltb_spec (q + (blen stored - 1)) (p + blen buf - 1));
        [eexists; split; [reflexivity|]; split; [simpl; lia|done]|].
      rewrite seq_sub_distance by lia. rewrite wrap32_small by (unfold u32_ok; lia).
      rewrite buffer_trim_ok by lia. cbn [mbind outcome_bind]. eexists. split; [reflexivity|].
      split; [lia|]. exists p.
      assert (Hbl : blen (take (Z.to_nat (blen buf - (p + blen buf - 1 - q + 1))) buf) = q - p).
      { unfold blen in *. rewrite length_take. lia. }
      rewrite Hbl. repeat split; try done; try lia.
      * unfold Seq.sub, Seq.add. rewrite wrap32_sub_l. f_equal. lia.
      * apply blen_pos_ne. lia.
      * by apply at_pos_take.
    + destruct (Z.leb_spec (p + blen buf - 1) (q + (blen stored - 1))); [by eexists|].
      destruct (Z.ltb_spec (q + (blen stored - 1)) p).
      * destruct (IH (Datatypes.S index) (b ⊕ p) (b ⊕ (p + blen buf - 1)) buf Hnew) as (r & -> & Hr); [lia|].
        exists r. split; [done|]. destruct r; try done. split; [simpl; lia|tauto].
      * rewrite seq_sub_distance by lia. rewrite buffer_adjust_ok by lia. cbn [mbind outcome_bind].
        rewrite seq_add_assoc. set (d := q + (blen stored - 1) - p) in *.
        assert (Hbl : blen (drop (Z.to_nat d) buf) = blen buf - d).
        { unfold blen in *. rewrite length_drop. lia. }
        destruct (IH (Datatypes.S index) (b ⊕ (p + d)) (b ⊕ (p + blen buf - 1)) (drop (Z.to_nat d) buf))
          as (r & -> & Hr); [|lia|].
        -- exists (p + d). rewrite Hbl. repeat split; try lia.
           ++ f_equal. lia.
           ++ apply blen_pos_ne. lia.
           ++ apply at_pos_drop; [lia|lia|done].
        -- exists r. split; [done|]. destruct r; try done. split; [simpl; lia|tauto].
Qed.

(** The passes end within the fuel, and the store still holds parts of the stream. *)
Lemma store_passes_ok edge fuel store ns ne buf :
  Forall (entry_ok S b edge) store -> new_ok edge ns ne buf -> (length store < fuel)%nat ->
  exists store', store_passes fuel store ns ne buf = Ret store' /\ Forall (entry_ok S b edge) store'.
Proof.
  revert store ns ne buf. induction fuel as [|fuel IH]; intros store ns ne buf Hs Hn Hf; [lia|].
  cbn [store_passes].
  destruct (scan_ok edge (length store) store 0 ns ne buf Hs Hn) as (r & -> & Hr); [lia|].
  cbn [mbind outcome_bind]. destruct r as [|i ns' ne' buf'|i ns' ne' buf'].
  - by exists store.
  - destruct Hr as [Hi Hn']. apply IH; [|done|].
    + by apply Forall_delete.
    + rewrite length_delete by (apply lookup_lt_is_Some_2; lia). lia.
  - destruct Hr as [Hi (p & -> & -> & Hp & Hne & Hat & Hedge)]. eexists. split; [reflexivity|].
    apply Forall_take, Forall_app. split; [by apply Forall_take|].
    constructor; [|by apply Forall_drop]. by exists p.
Qed.

(** ** What the receive path leaves alone *)

(** Nothing is transmitted. *)
Definition quiet (e : effect) : Prop := forall seg, e <> Transmit seg.

Definition quiet_ext (tr tr' : list effect) : Prop := exists ext, tr' = tr ++ ext /\ Forall quiet ext.

Lemma quiet_refl tr : quiet_ext tr tr.
Proof. exists []. by rewrite app_nil_r. Qed.

Lemma quiet_trans tr1 tr2 tr3 : quiet_ext tr1 tr2 -> quiet_ext tr2 tr3 -> quiet_ext tr1 tr3.
Proof.
  intros (e1 & -> & H1) (e2 & -> & H2). exists (e1 ++ e2). rewrite app_assoc. split; [done|].
  by apply Forall_app.
Qed.

Lemma quiet_stats tr l : Forall quiet l -> quiet_ext tr (tr ++ l).
Proof. intros H. by exists l. Qed.

(** The send side, and the rest of what the receive path does not touch. *)
Definition tx_view (cb : CB) :=
  (sender cb, user_is_done_sending cb, rto_calculator cb, retransmit_deadline cb, cc cb,
   (local cb, remote cb, local_link_addr cb, tx_offload cb, receive_buffer_size cb, window_scale cb)).

(** Closing the loop over the store: entries at RCV.NXT move to the queue. *)
Lemma wp_recover A cb tr store added (Q : Seq.SeqNumber * bool -> CB -> list effect -> Prop) :
  recv_inv A 0 cb -> Forall (entry_ok S b (A + receive_buffer_size cb)) store ->
  (forall r cb' tr', recv_inv A 0 cb' -> fst r = receive_next (receiver cb') ->
     unread cb `prefix_of` unread cb' ->
     state cb' = state cb -> tx_view cb' = tx_view cb -> quiet_ext tr tr' -> Q r cb' tr') ->
  wp (recover_out_of_order store (receive_next (receiver cb)) added) Q cb tr.
Proof.
  intros H Hst. revert cb tr added H Hst. induction store as [|[start buf] store IH];
    intros cb tr added H Hst HQ.
  - cbn [recover_out_of_order]. wp_steps. apply HQ; try done; [|apply quiet_refl].
    destruct H. constructor; simpl; done.
  - cbn [recover_out_of_order]. destruct (Z.eqb_spec start (receive_next (receiver cb))) as [Heq|Hne].
    + apply Forall_cons in Hst as [(p & Hp1 & Hp2 & Hp3 & Hp4 & Hp5) Hst]. cbn [fst snd] in *.
      destruct (store_entry_end p buf Hp3 Hp2 Hp4) as [Hl1 Hl2].
      pose proof (blen_nonneg (unread cb)).
      assert (Hpos : p = A + blen (unread cb)).
      { destruct H. rewrite Heq, ri_next0, Z.add_0_r in Hp1.
        apply seq_add_inj in Hp1; unfold u32_ok; lia. }
      subst p. apply wp_bind. eapply wp_push; [exact H|done|done|lia|].
      intros cb' tr' H' Hu' Ho' Hs' _ Hcb' ->.
      assert (Hrb : receive_buffer_size cb' = receive_buffer_size cb) by (by rewrite Hcb').
      replace (receive_next (receiver cb) ⊕ wrap32 (blen buf)) with (receive_next (receiver cb')).
      2:{ rewrite (ri_next _ _ _ H'), (ri_next _ _ _ H), Hu', blen_app.
          rewrite wrap32_small by (unfold u32_ok; lia). rewrite seq_add_assoc. f_equal. lia. }
      apply IH; [done|by rewrite Hrb|].
      intros r cb'' tr'' H'' Hr'' Hpre Hs'' Hv'' Hq''. apply HQ; try done.
      * etrans; [|exact Hpre]. rewrite Hu'. by eexists.
      * congruence.
      * rewrite Hv'', Hcb'. done.
      * eapply quiet_trans; [|exact Hq'']. apply quiet_stats. by repeat constructor.
    + wp_steps. apply HQ; try done; [|apply quiet_refl].
      destruct H. constructor; simpl; done.
Qed.

(** In-order data: pushed, followed by whatever it makes in order; the answer says whether a
    stored FIN is now due, which happens only at the end of the stream. *)
Lemma wp_receive_data A cb tr ss buf (Q : bool -> CB -> list effect -> Prop) :
  recv_inv A 0 cb -> at_pos S (A + blen (unread cb)) buf -> buf <> [] ->
  blen (unread cb) + blen buf <= receive_buffer_size cb ->
  (forall fin cb' tr', recv_inv A 0 cb' -> (unread cb ++ buf) `prefix_of` unread cb' ->
     state cb' = state cb -> tx_view cb' = tx_view cb -> quiet_ext tr tr' ->
     (fin = true -> A + blen (unread cb') = blen S /\ blen S + 1 <= A + receive_buffer_size cb') ->
     Q fin cb' tr') ->
  wp (receive_data ss buf) Q cb tr.
Proof.
  intros H Hat Hne Hfit HQ. pose proof (blen_nonneg (unread cb)).
  unfold receive_data. wp_steps. eapply wp_push; [exact H|done|done|done|].
  intros cb' tr' H' Hu' Ho' Hs' _ Hcb' ->.
  replace (receive_next (receiver cb) ⊕ wrap32 (blen buf)) with (receive_next (receiver cb')).
  2:{ pose proof (ri_bound _ _ _ H') as Hbd. rewrite Hu', blen_app in Hbd.
      pose proof (blen_nonneg buf). destruct H as [HA _ _ _ _ Hn]. destruct H' as [_ _ _ _ _ Hn'].
      rewrite Hn, Hn', Hu', blen_app. rewrite wrap32_small by (unfold u32_ok; lia).
      rewrite seq_add_assoc. f_equal. lia. }
  apply wp_bind. eapply wp_recover; [exact H'| |].
  { rewrite Hcb'. cbn. apply (ri_ooo _ _ _ H). }
  intros [rn added] cb'' tr'' H'' Hr Hpre Hs'' Hv'' Hq''. cbn [fst] in Hr.
  assert (Hfin : forall cb3, recv_view cb3 = recv_view cb'' -> tx_view cb3 = tx_view cb'' ->
     forall tr3, quiet_ext tr'' tr3 ->
     Q (added && match out_of_order_fin cb3 with Some fin => fin =? rn | None => false end)%bool cb3 tr3).
  { intros cb3 Hv3 Ht3 tr3 Hq3. assert (H3 : recv_inv A 0 cb3) by (by apply (recv_inv_view A 0 cb'')).
    assert (Hu3 : unread cb3 = unread cb'') by (by apply recv_view_unread).
    apply HQ; [done|rewrite Hu3, <- Hu'; done| | | |].
    - apply recv_view_state in Hv3. congruence.
    - rewrite Ht3, Hv'', Hcb'. done.
    - eapply quiet_trans; [|exact Hq3]. eapply quiet_trans; [|exact Hq'']. apply quiet_stats. by repeat constructor.
    - intros [_ Hf]%andb_true_iff. destruct (out_of_order_fin cb3) as [s|] eqn:Es; [|done].
      apply Z.eqb_eq in Hf. destruct (ri_ooo_fin _ _ _ H3 s Es) as [Hs1 Hs2]. split; [|done].
      pose proof (ri_bound _ _ _ H3). pose proof (ri_A _ _ _ H3). pose proof (blen_nonneg (unread cb3)).
      pose proof (ri_next _ _ _ H'') as Hn''. rewrite <- Hr, <- Hf, Hs1, <- Hu3, Z.add_0_r in Hn''.
      apply seq_add_inj in Hn''; unfold u32_ok; lia. }
  unfold wake_reader. wp_steps. unfold when. destruct (waker cb'') eqn:Ew; wp_steps.
  - apply Hfin; [done|done|]. apply quiet_stats. by repeat constructor.
  - apply Hfin; [done|done|]. apply quiet_refl.
Qed.

(** ** Acceptability *)

(** A segment of a peer that sends the stream [S]: its data is the stream at position [p], a SYN
    precedes it, a FIN follows the last byte. *)
Definition seg_at (p : Z) (header : TcpHeader.t) (data : Buffer.t) : Prop :=
  TcpHeader.seq_num header = b ⊕ (p - Z.b2z (TcpHeader.syn header)) /\ 0 <= p <= blen S + 1 /\
  at_pos S p data /\ (TcpHeader.fin header = true -> p + blen data = blen S).

(** Only the two flags that lie outside the window may have been cleared. *)
Definition same_header (h h' : TcpHeader.t) : Prop :=
  TcpHeader.rst h' = TcpHeader.rst h /\ TcpHeader.ack h' = TcpHeader.ack h /\
  TcpHeader.ack_num h' = TcpHeader.ack_num h /\ TcpHeader.seq_num h' = TcpHeader.seq_num h /\
  TcpHeader.window_size h' = TcpHeader.window_size h /\
  (TcpHeader.syn h' = true -> TcpHeader.syn h = true) /\
  (TcpHeader.fin h' = true -> TcpHeader.fin h = true).

Lemma same_header_trans h1 h2 h3 : same_header h1 h2 -> same_header h2 h3 -> same_header h1 h3.
Proof. unfold same_header. intuition congruence. Qed.

(** A segment cut to the window [R, R + W): it starts at position [q], not before [R]. *)
Record win_ok (R W q : Z) (w : InWindow) : Prop := {
  wo_start : seg_start w = b ⊕ q;
  wo_lo : R <= q <= blen S + 1;
  wo_at : TcpHeader.syn (iw_header w) = false -> at_pos S q (iw_data w);
  wo_len : seg_len w = blen (iw_data w) + Z.b2z (TcpHeader.syn (iw_header w)) +
                       Z.b2z (TcpHeader.fin (iw_header w));
  wo_end : 0 < seg_len w -> seg_end w = b ⊕ (q + seg_len w - 1);
  wo_fit : 0 < seg_len w -> q + seg_len w <= R + W;
  wo_fin : TcpHeader.fin (iw_header w) = true -> TcpHeader.syn (iw_header w) = false ->
           q + blen (iw_data w) = blen S
}.

Lemma trim_ok R W q h d L send :
  0 <= R <= blen S + 1 -> 0 <= W <= 2^30 -> R <= q <= blen S + 1 ->
  L = blen d + Z.b2z (TcpHeader.syn h) + Z.b2z (TcpHeader.fin h) ->
  q + L <= blen S + 3 -> (0 < L -> send = b ⊕ (q + L - 1)) ->
  (0 < L -> q <= R + W /\ (TcpHeader.syn h = true -> q < R + W)) ->
  (TcpHeader.syn h = false -> at_pos S q d) ->
  (TcpHeader.fin h = true -> TcpHeader.syn h = false -> q + blen d = blen S) ->
  exists w, trim_to_window h d (b ⊕ q) send L (b ⊕ (R + W)) = Ret w /\ win_ok R W q w /\
    same_header h (iw_header w).
Proof.
  intros HR HW Hq HL Hend Hs Hin Hat Hfin. pose proof (blen_nonneg d). unfold trim_to_window.
  destruct (Z.ltb_spec 0 L) as [HL0|HL0]; cbn [andb].
  2:{ eexists. split; [reflexivity|]. split; [|by repeat split].
      constructor; simpl; try done; lia. }
  destruct (Hin HL0) as [Hle Hsyn]. rewrite (Hs HL0), seq_ge_window by lia.
  destruct (Z.leb_spec (R + W) (q + L - 1)) as [Hex|Hno].
  2:{ eexists. split; [reflexivity|]. split; [|by repeat split].
      constructor; simpl; try done; lia. }
  rewrite seq_sub_distance by lia. set (ex := q + L - 1 - (R + W)) in *.
  rewrite (wrap32_small (ex + 1)) by (unfold u32_ok; lia).
  rewrite (wrap32_small (L - (ex + 1))) by (unfold u32_ok; lia).
  assert (He : (b ⊕ (q + L - 1)) ⊖ (ex + 1) = b ⊕ (q + (L - (ex + 1)) - 1)).
  { unfold Seq.sub, Seq.add. rewrite wrap32_sub_l. f_equal. lia. }
  rewrite He. destruct (TcpHeader.fin h) eqn:Ef; cbn [Z.b2z] in HL.
  - assert (ex <= blen d) by (destruct (TcpHeader.syn h) eqn:Esyn; cbn [Z.b2z] in HL; [specialize (Hsyn eq_refl)|]; lia).
    rewrite (wrap32_small (ex + 1 - 1)), buffer_trim_ok by (unfold u32_ok; lia).
    cbn [mbind outcome_bind]. eexists. split; [reflexivity|]. split.
    + assert (Hb : blen (take (Z.to_nat (blen d - (ex + 1 - 1))) d) = blen d - ex)
        by (unfold blen in *; rewrite length_take; lia).
      constructor; cbn -[Z.pow]; rewrite ?Hb; try done; try lia.
      intros Hs'. by apply at_pos_take, Hat.
    + by repeat split.
  - assert (ex + 1 <= blen d) by (destruct (TcpHeader.syn h) eqn:Esyn; cbn [Z.b2z] in HL; [specialize (Hsyn eq_refl)|]; lia).
    rewrite buffer_trim_ok by lia.
    cbn [mbind outcome_bind]. eexists. split; [reflexivity|]. split.
    + assert (Hb : blen (take (Z.to_nat (blen d - (ex + 1))) d) = blen d - (ex + 1))
        by (unfold blen in *; rewrite length_take; lia).
      constructor; cbn -[Z.pow]; rewrite ?Hb, ?Ef; cbn [Z.b2z]; try done; try lia.
      intros Hs'. by apply at_pos_take, Hat.
    + by repeat split.
Qed.

(** The window check drops the segment (acknowledging it unless it is a RST) or returns the part
    of it that lies in the window. *)
Lemma wp_check_window env A f p cb tr header data
    (Q : option InWindow -> CB -> list effect -> Prop) :
  recv_inv A f cb -> seg_at p header data ->
  (TcpHeader.syn header = true -> TcpHeader.seq_num header = receive_next (receiver cb) ->
     get_receive_window_size cb <> 0) ->
  Q None cb tr ->
  (forall seg, pure_ack cb seg -> Q None (set_ack_deadline None cb) (tr ++ [Transmit seg])) ->
  (forall w q, win_ok (A + blen (unread cb) + f) (receive_buffer_size cb - (blen (unread cb) + f)) q w ->
     same_header header (iw_header w) -> Q (Some w) cb tr) ->
  wp (check_window env header data) Q cb tr.
Proof.
  intros H (Hseq & Hp & Hat & Hfin) Hsyn0 HQ HQack HQw.
  pose proof (window_size A f cb H) as HW. pose proof (blen_nonneg data) as Hd0.
  pose proof (blen_nonneg (unread cb)) as Hu0.
  assert (Hdend : p + blen data <= blen S + 1).
  { destruct (decide (data = [])) as [->|Hne]; [unfold blen in *; simpl in *; lia|].
    pose proof (at_pos_end S p data ltac:(lia) Hat Hne). lia. }
  assert (Hbnd := H). destruct Hbnd as [HA Hf _ _ Hbound Hnext _ _ Hf1 Hwin Hsize _ _ _].
  set (R := A + blen (unread cb) + f) in *.
  set (W := receive_buffer_size cb - (blen (unread cb) + f)) in *.
  assert (HR : 0 <= R <= blen S + 1) by (subst R; lia).
  assert (HWb : 0 <= W <= 2^30) by (subst W; lia).
  set (sg := Z.b2z (TcpHeader.syn header)) in *. set (ph := Z.b2z (TcpHeader.fin header)) in *.
  assert (Hsg : 0 <= sg <= 1) by (subst sg; destruct (TcpHeader.syn header); simpl; lia).
  assert (Hph : 0 <= ph <= 1) by (subst ph; destruct (TcpHeader.fin header); simpl; lia).
  assert (Hfinpos : ph = 1 -> p + blen data = blen S)
    by (subst ph; destruct (TcpHeader.fin header); [auto|simpl; lia]).
  set (L := blen data + sg + ph).
  unfold check_window. wp_steps. rewrite HW, Hseq, Hnext. fold R.
  assert (HL : (if TcpHeader.fin header
       then wrap32 ((if TcpHeader.syn header then wrap32 (wrap32 (blen data) + 1) else wrap32 (blen data)) + 1)
       else (if TcpHeader.syn header then wrap32 (wrap32 (blen data) + 1) else wrap32 (blen data))) = L).
  { subst L sg ph. rewrite (wrap32_small (blen data)) by (unfold u32_ok; lia).
    destruct (TcpHeader.fin header), (TcpHeader.syn header); simpl;
      rewrite ?wrap32_small; rewrite ?wrap32_small; unfold u32_ok; lia. }
  set (e := if 0 <? L then p - sg + L - 1 else p - sg).
  assert (He : (if 0 <? L then (b ⊕ (p - sg)) ⊕ wrap32 (L - 1) else b ⊕ (p - sg)) = b ⊕ e).
  { subst e. destruct (Z.ltb_spec 0 L); [|done].
    rewrite wrap32_small by (unfold u32_ok; lia). rewrite seq_add_assoc. f_equal. lia. }
  cbv zeta. rewrite HL, He, (seq_add_assoc b R W). clear HL He.
  assert (He' : p - sg <= e <= blen S + 2 /\ (0 < L -> e = p - sg + L - 1) /\ (L <= 0 -> e = p - sg)).
  { subst e. destruct (Z.ltb_spec 0 L); subst L; lia. }
  assert (Hdrop : wp (_ ← when (negb (TcpHeader.rst header)) (send_ack env); mret None) Q cb tr).
  { apply wp_bind. unfold when. destruct (negb (TcpHeader.rst header)); [|by wp_steps].
    eapply wp_send_ack; [exact H|by wp_steps|]. intros seg Hseg. wp_steps. auto. }
  rewrite seq_eqb_window, !seq_lt_window by lia.
  assert (Hkeep : R <= p - sg -> (0 < L -> p - sg <= R + W /\ (TcpHeader.syn header = true -> p - sg < R + W)) ->
    wp (w ← lift (trim_to_window header data (b ⊕ (p - sg)) (b ⊕ e) L (b ⊕ (R + W))); mret (Some w)) Q cb tr).
  { intros Hge Hin. destruct (trim_ok R W (p - sg) header data L (b ⊕ e)) as (w & Ew & Hw & Hsame).
    all: try done; try (subst L sg ph; lia).
    - intros HL0. destruct He' as (_ & He1 & _). by rewrite He1.
    - intros Es. subst sg. rewrite Es in *. simpl in *. by replace (p - 0) with p by lia.
    - intros Ef Es. subst sg. rewrite Es. simpl. rewrite <- (Hfin Ef). lia.
    - apply wp_bind. eapply wp_lift; [exact Ew|]. wp_steps. by eapply HQw. }
  destruct (Z.eqb_spec (p - sg) R) as [Heq|Hneq]; cbn [negb].
  - apply Hkeep; [lia|]. intros _. split; [lia|]. intros Es.
    specialize (Hsyn0 Es). rewrite Hseq, Hnext, HW in Hsyn0. fold R in Hsyn0. rewrite Heq in Hsyn0.
    specialize (Hsyn0 eq_refl). lia.
  - destruct (Z.ltb_spec (p - sg) R) as [Hlt|Hge].
    + destruct (Z.ltb_spec e R) as [Hd|Hnd]; [exact Hdrop|].
      assert (HL0 : 0 < L) by lia. destruct He' as (_ & He1 & _). specialize (He1 HL0).
      rewrite seq_sub_distance by lia. rewrite seq_add_assoc.
      replace (p - sg + (R - (p - sg))) with R by lia.
      rewrite (wrap32_small (L - (R - (p - sg)))) by (unfold u32_ok; lia).
      set (h' := if TcpHeader.syn header then TcpHeader.set_syn header false else header).
      assert (Hpair : (if TcpHeader.syn header
          then (TcpHeader.set_syn header false, wrap32 (R - (p - sg) - 1))
          else (header, R - (p - sg))) = (h', R - p)).
      { subst h' sg. destruct (TcpHeader.syn header); simpl in *; f_equal; [|lia].
        rewrite wrap32_small by (unfold u32_ok; lia). lia. }
      rewrite Hpair. clear Hpair.
      assert (Hh' : TcpHeader.syn h' = false /\ TcpHeader.fin h' = TcpHeader.fin header /\
                    same_header header h').
      { subst h'. destruct (TcpHeader.syn header) eqn:Es; by repeat split. }
      destruct Hh' as (Hsyn' & Hfin' & Hsame').
      apply wp_bind. eapply wp_lift; [apply buffer_adjust_ok; subst L; lia|].
      assert (Hbl : blen (drop (Z.to_nat (R - p)) data) = blen data - (R - p))
        by (unfold blen in *; rewrite length_drop; subst L; lia).
      destruct (trim_ok R W R h' (drop (Z.to_nat (R - p)) data) (L - (R - (p - sg))) (b ⊕ e))
        as (w & Ew & Hw & Hsame); try lia.
      * rewrite Hbl, Hsyn', Hfin'. subst L ph. simpl. lia.
      * intros _. f_equal. lia.
      * intros _. split; [lia|congruence].
      * intros _. replace R with (p + (R - p)) at 1 by lia. apply at_pos_drop; [lia|subst L; lia|done].
      * rewrite Hfin', Hbl. intros Ef _. rewrite <- (Hfin Ef). lia.
      * apply wp_bind. eapply wp_lift; [exact Ew|]. wp_steps. eapply HQw; [exact Hw|].
        by eapply same_header_trans.
    + rewrite seq_ge_window by lia. destruct (Z.leb_spec (R + W) (p - sg)); [exact Hdrop|].
      apply Hkeep; [lia|]. intros _. split; lia.
Qed.
End receiving.
