(* ===== verification/Sending.v ===== *)
(** * The send side of a connection

    The invariant that ties the sender's fields, its retransmission queue and its unsent queue to
    the byte stream [T] the application writes (its first byte has sequence number [c]), and
    the proof that acknowledgements, transmissions and retransmissions keep it: every segment
    handed to the runtime carries [T] at the position its sequence number says. *)

From S2P Require Import Prelude Buffer SeqNumber Net TcpSegment Congestion Rto CtrlBlk Wp Stream Receiving.

(** The sequence space a queued buffer takes; the empty buffer stands for the FIN. *)
Definition seglen (buf : Buffer.t) : Z := Z.max 1 (blen buf).

Fixpoint flight (q : list UnackedSegment) : Z :=
  match q with
  | [] => 0
  | s :: q => seglen (bytes s) + flight q
  end.

(** The retransmission queue from position [U] on; a FIN is last, after the last byte of [T]. *)
Fixpoint q_at (T : list Z) (U : Z) (q : list UnackedSegment) : Prop :=
  match q with
  | [] => True
  | s :: q =>
      at_pos T U (bytes s) /\ (bytes s = [] -> q = [] /\ U = blen T) /\
      q_at T (U + seglen (bytes s)) q
  end.

(** The unsent queue from position [N] on. *)
Fixpoint unsent_at (T : list Z) (user_done : bool) (N : Z) (l : list Buffer.t) : Prop :=
  match l with
  | [] => True
  | buf :: l =>
      at_pos T N buf /\ (buf = [] -> l = [] /\ N = blen T /\ user_done = true) /\
      unsent_at T user_done (N + blen buf) l
  end.

Definition has_fin (q : list UnackedSegment) : Prop := Exists (fun s => bytes s = []) q.

Definition MAX_DURATION : Z := 2^64 * F64.NANOS_PER_SEC.
Definition env_ok (env : Env) : Prop := 0 <= now env < MAX_DURATION.

(** A segment on the wire: it acknowledges a part of the peer's stream [S], its sequence number is
    that of its data in our stream [T], and a FIN is sent only after the user is done ([d]) and
    follows the last byte. *)
Definition tx_ok (S : list Z) (b : Z) (T : list Z) (d : bool) (c : Z) (e : effect) : Prop :=
  match e with
  | Transmit seg =>
      ack_header S b (tcp_hdr seg) /\
      exists pos, 0 <= pos <= blen T + 1 /\ TcpHeader.seq_num (tcp_hdr seg) = c ⊕ pos /\
        at_pos T pos (default [] (data seg)) /\
        (TcpHeader.fin (tcp_hdr seg) = true -> d = true /\ pos = blen T /\ default [] (data seg) = [])
  | _ => True
  end.

(** ** Queue lemmas *)

Lemma seglen_pos buf : 1 <= seglen buf.
Proof. unfold seglen. lia. Qed.

Lemma seglen_nonempty buf : buf <> [] -> seglen buf = blen buf.
Proof. intros H%blen_ne_pos. unfold seglen. lia. Qed.

Lemma flight_nonneg q : 0 <= flight q.
Proof. induction q as [|s q IH]; simpl; [lia|]. pose proof (seglen_pos (bytes s)). lia. Qed.

Lemma flight_app q q' : flight (q ++ q') = flight q + flight q'.
Proof. induction q as [|s q IH]; simpl; lia. Qed.

Lemma q_at_snoc T U q s :
  q_at T U q -> ~ has_fin q -> at_pos T (U + flight q) (bytes s) ->
  (bytes s = [] -> U + flight q = blen T) -> q_at T U (q ++ [s]).
Proof.
  revert U. induction q as [|s' q IH]; intros U Hq Hf Hat Hfin; cbn [app q_at flight] in *.
  - rewrite Z.add_0_r in *. auto.
  - destruct Hq as (H1 & H2 & H3). split; [done|]. split.
    + intros E. exfalso. apply Hf. by left.
    + apply IH; [done|intros ?; apply Hf; by right| |].
      * by replace (U + seglen (bytes s') + flight q) with (U + (seglen (bytes s') + flight q)) by lia.
      * intros E. specialize (Hfin E). lia.
Qed.

Lemma unsent_at_snoc T d N l buf :
  unsent_at T d N l -> Forall (fun b => b <> []) l -> at_pos T (N + blen (concat l)) buf ->
  (buf = [] -> N + blen (concat l) = blen T /\ d = true) -> unsent_at T d N (l ++ [buf]).
Proof.
  revert N. induction l as [|x l IH]; intros N Hl Hne Hat Hfin; cbn [app unsent_at concat] in *.
  - change (blen []) with 0 in *. rewrite Z.add_0_r in *. split; [done|]. split; [|done].
    intros E. destruct (Hfin E). auto.
  - rewrite blen_app in *. apply Forall_cons in Hne as [Hx Hne]. destruct Hl as (H1 & H2 & H3).
    split; [done|]. split; [done|]. apply IH; [done|done| |].
    + by replace (N + blen x + blen (concat l)) with (N + (blen x + blen (concat l))) by lia.
    + intros E. destruct (Hfin E). split; [lia|done].
Qed.

(** Queued data that is not a FIN stays what it is when the user finishes. *)
Lemma unsent_nonempty T N l : unsent_at T false N l -> Forall (fun b => b <> []) l.
Proof.
  revert N. induction l as [|x l IH]; intros N Hl; [done|]. destruct Hl as (H1 & H2 & H3).
  constructor; [|by eapply IH]. intros E. destruct (H2 E) as (_ & _ & ?). done.
Qed.

Lemma unsent_at_done T N l : unsent_at T false N l -> unsent_at T true N l.
Proof.
  revert N. induction l as [|x l IH]; intros N Hl; [done|]. destruct Hl as (H1 & H2 & H3).
  split; [done|]. split; [|by apply IH]. intros E. by destruct (H2 E) as (_ & _ & ?).
Qed.

Definition q_times (q : list UnackedSegment) : Prop :=
  Forall (fun s => match initial_tx s with Some t => 0 <= t | None => True end) q.

(** Removing [d] acknowledged units of sequence space terminates, and leaves the rest of the
    queue at its new position. *)
Lemma remove_acknowledged_ok T U q d t r :
  0 <= U -> q_at T U q -> q_times q -> 0 <= d <= flight q -> 0 <= t < MAX_DURATION -> rto_wf r ->
  exists q' r', remove_acknowledged q d t r = Ret (q', r') /\ rto_wf r' /\ q_at T (U + d) q' /\
    flight q' = flight q - d /\ q_times q' /\ (has_fin q' -> has_fin q).
Proof.
  intros HU Hq Ht Hd Htime Hr. revert U d r HU Hq Ht Hd Hr.
  induction q as [|s q IH]; intros U d r HU Hq Ht Hd Hr.
  - cbn [flight] in Hd. assert (d = 0) as -> by lia. exists [], r.
    do 5 (split; [done|]). done.
  - cbn [remove_acknowledged]. destruct (Z.eqb_spec d 0) as [->|Hd0].
    { exists (s :: q), r. rewrite Z.add_0_r, Z.sub_0_r. done. }
    destruct Hq as (H1 & H2 & H3). cbn [flight] in *. apply Forall_cons in Ht as [Hts Ht].
    set (r1 := match initial_tx s with Some t0 => RtoCalculator.add_sample r (Z.max 0 (t - t0)) | None => r end).
    assert (Hr1 : rto_wf r1).
    { subst r1. destruct (initial_tx s); [|done]. apply add_sample_wf; [done|]. unfold MAX_DURATION in *. lia. }
    clearbody r1. pose proof (blen_nonneg (bytes s)).
    destruct (Z.ltb_spec d (blen (bytes s))) as [Hlt|Hge].
    + rewrite buffer_adjust_ok by lia. cbn [mbind outcome_bind].
      assert (Hbl : blen (drop (Z.to_nat d) (bytes s)) = blen (bytes s) - d)
        by (unfold blen in *; rewrite length_drop; lia).
      eexists _, r1. split; [reflexivity|]. split; [done|]. cbn [q_at flight bytes].
      unfold seglen in *. rewrite Hbl.
      assert (Hnil : drop (Z.to_nat d) (bytes s) <> []) by (apply blen_pos_ne; lia).
      split; [split; [apply at_pos_drop; [lia|lia|done]|split; [done|]]|].
      { by replace (U + d + 1 `max` (blen (bytes s) - d)) with (U + 1 `max` blen (bytes s)) by lia. }
      split; [lia|]. split; [by constructor|].
      intros Hf. apply Exists_cons in Hf as [E|Hf]; [done|by right].
    + destruct (Z.eqb_spec (blen (bytes s)) 0) as [E0|E0].
      * assert (bytes s = []) as Eb by (unfold blen in E0; destruct (bytes s); [done|simpl in E0; lia]).
        destruct (H2 Eb) as [-> HUT]. cbn [flight] in Hd.
        assert (Hs : seglen (bytes s) = 1) by (unfold seglen; lia). rewrite Hs in *.
        assert (d = 1) as -> by lia. rewrite E0. cbn. exists [], r1.
        split; [done|]. split; [done|]. split; [done|]. split; [done|]. split; [constructor|].
        intros Hf. by apply Exists_nil in Hf.
      * assert (Hs : seglen (bytes s) = blen (bytes s)) by (unfold seglen; lia). rewrite Hs in *.
        destruct (IH (U + blen (bytes s)) (d - blen (bytes s)) r1) as (q' & r' & E & Hr' & Hq' & Hfl & Ht' & Hf');
          [lia|done|done|lia|done|].
        exists q', r'. rewrite E. split; [done|]. split; [done|].
        replace (U + d) with (U + blen (bytes s) + (d - blen (bytes s))) by lia.
        split; [done|]. split; [lia|]. split; [done|]. intros Hf. right. by apply Hf'.
Qed.


(** ** The invariant *)

(** The states in which our FIN was not sent, was sent, and was acknowledged. *)
Definition may_send (s : State) : bool :=
  match s with Established | CloseWait => true | _ => false end.
Definition fin_sent (s : State) : bool :=
  match s with FinWait1 | FinWait2 | Closing | TimeWait | LastAck => true | _ => false end.
Definition fin_acked (s : State) : bool :=
  match s with FinWait2 | TimeWait => true | _ => false end.

Section sending.
Context {C : Type} `{!CongestionControl C, !CongestionControlLaws C}.
Context (S : list Z) (b : Z).
Context (c : Z).
#[local] Abbreviation CB := (ControlBlock C).

(** [U] units of sequence space are acknowledged; [g] is 1 once our FIN was transmitted. *)
Record send_inv (T : list Z) (g U : Z) (cb : CB) : Prop := {
  si_U : 0 <= U;
  si_g : g = 0 \/ g = 1;
  si_una : send_unacked (sender cb) = c ⊕ U;
  si_q : q_at T U (unacked_queue (sender cb));
  si_times : q_times (unacked_queue (sender cb));
  si_flight : flight (unacked_queue (sender cb)) <= 2^30 + 1;
  si_next : send_next (sender cb) = c ⊕ (U + flight (unacked_queue (sender cb)));
  si_unsent : unsent_at T (user_is_done_sending cb) (U + flight (unacked_queue (sender cb)))
                (unsent_queue (sender cb));
  si_bufs : Forall (fun buf => blen buf <= 2^30) (unsent_queue (sender cb));
  si_total : U + flight (unacked_queue (sender cb)) - g + blen (concat (unsent_queue (sender cb))) = blen T;
  si_unsent_seq : unsent_seq_no (sender cb) =
    c ⊕ (U + flight (unacked_queue (sender cb)) + blen (concat (unsent_queue (sender cb))));
  si_fin_q : has_fin (unacked_queue (sender cb)) -> g = 1;
  si_fin : g = 1 -> unsent_queue (sender cb) = [] /\ user_is_done_sending cb = true;
  si_open : may_send (state cb) = true -> g = 0;
  si_closed : fin_sent (state cb) = true -> g = 1;
  si_acked : fin_acked (state cb) = true -> U = blen T + 1;
  si_window : 0 <= send_window (sender cb) <= 2^30;
  si_scale : 0 <= snd_window_scale (sender cb) <= 14;
  si_mss : 1 <= mss (sender cb);
  si_rto : rto_wf (rto_calculator cb);
  si_cc : cc_ok (cc cb)
}.

(** The fields the invariant reads. *)
Definition send_view (cb : CB) :=
  (sender cb, state cb, user_is_done_sending cb, rto_calculator cb, cc cb).

Lemma send_inv_view T g U cb cb' : send_view cb = send_view cb' -> send_inv T g U cb -> send_inv T g U cb'.
Proof.
  unfold send_view. intros [= Hs Ht Hd Hr Hc] [].
  constructor; rewrite <- ?Hs, <- ?Ht, <- ?Hd, <- ?Hr, <- ?Hc; done.
Qed.

(** Both directions. *)
Definition conn_inv (A f : Z) (T : list Z) (g U : Z) (cb : CB) : Prop :=
  recv_inv S b A f cb /\ send_inv T g U cb.

Lemma conn_inv_view A f T g U cb cb' :
  recv_view cb = recv_view cb' -> send_view cb = send_view cb' ->
  conn_inv A f T g U cb -> conn_inv A f T g U cb'.
Proof. intros Hr Hs []. split; [by eapply recv_inv_view|by eapply send_inv_view]. Qed.

(** Congestion control changes only its own state. *)
Lemma send_inv_cc T g U cb c' : cc_ok c' -> send_inv T g U cb -> send_inv T g U (set_cc c' cb).
Proof. intros Hc []. by constructor. Qed.

Lemma conn_inv_cc A f T g U cb c' : cc_ok c' -> conn_inv A f T g U cb -> conn_inv A f T g U (set_cc c' cb).
Proof. intros Hc []. split; [by apply (recv_inv_view S b A f cb)|by apply send_inv_cc]. Qed.

Definition tx_ext (T : list Z) (d : bool) (tr tr' : list effect) : Prop :=
  exists ext, tr' = tr ++ ext /\ Forall (tx_ok S b T d c) ext.

Lemma tx_ext_refl T d tr : tx_ext T d tr tr.
Proof. exists []. by rewrite app_nil_r. Qed.

Lemma tx_ext_trans T d tr1 tr2 tr3 : tx_ext T d tr1 tr2 -> tx_ext T d tr2 tr3 -> tx_ext T d tr1 tr3.
Proof.
  intros (e1 & -> & H1) (e2 & -> & H2). exists (e1 ++ e2). rewrite app_assoc. split; [done|].
  by apply Forall_app.
Qed.

Lemma tx_ext_one T d tr e : tx_ok S b T d c e -> tx_ext T d tr (tr ++ [e]).
Proof. intros H. exists [e]. auto. Qed.

Lemma quiet_tx T d tr tr' : quiet_ext tr tr' -> tx_ext T d tr tr'.
Proof.
  intros (ext & -> & H). exists ext. split; [done|]. eapply Forall_impl; [exact H|].
  intros [] He; try done. by destruct (He segment).
Qed.

(** Nothing but a segment from the peer closes a connection. *)
Definition stays_open (cb cb' : CB) : Prop := state cb' = Closed -> state cb = Closed.
#[local] Hint Extern 0 (stays_open _ _) => exact (fun H => H) : core.

(** ** Transmission *)

Definition after_emit (fin : bool) (s : State) : State :=
  if fin then match s with Established => FinWait1 | CloseWait => LastAck | s => s end else s.

Definition segment_of (cb : CB) (h : TcpHeader.t) (body : option Buffer.t) (link : MacAddress) : TcpSegment :=
  mkTcpSegment (Ethernet2Header.new link (local_link_addr cb) EtIpv4)
    (Ipv4Header.new (ip (local cb)) (ip (remote cb)) TCP) h body (tx_offload cb).

Lemma wp_emit h body link cb tr (Q : unit -> CB -> list effect -> Prop) :
  Q tt (set_state (after_emit (TcpHeader.fin h) (state cb)) (set_ack_deadline None cb))
    (tr ++ [Transmit (segment_of cb h body link)]) ->
  wp (emit h body link) Q cb tr.
Proof.
  intros HQ. unfold emit. wp_steps. unfold after_emit in HQ. fold (segment_of cb h body link).
  assert (Heta : set_state (state cb) (set_ack_deadline None cb) = set_ack_deadline None cb) by done.
  destruct (TcpHeader.fin h); [destruct (state cb) eqn:Es|]; wp_steps;
    rewrite ?Es, ?Heta in HQ; exact HQ.
Qed.

Lemma after_emit_recv A f fin (cb : CB) :
  recv_inv S b A f cb -> recv_inv S b A f (set_state (after_emit fin (state cb)) cb).
Proof. intros H. apply recv_inv_state; [| |done]; destruct fin, (state cb); done. Qed.

Lemma after_emit_open fin s : after_emit fin s = Closed -> s = Closed.
Proof. by destruct fin, s. Qed.

Lemma wp_rto (cb : CB) tr (Q : Z -> CB -> list effect -> Prop) :
  rto_wf (rto_calculator cb) -> (forall r, 0 <= r <= 60 * F64.NANOS_PER_SEC -> Q r cb tr) -> wp rto Q cb tr.
Proof.
  intros H HQ. unfold rto. wp_steps.
  destruct (get_rto_total _ H) as (d & Hd & Hb). eapply wp_lift; [exact Hd|]. auto.
Qed.

Lemma wp_cc_modify f cb tr (Q : unit -> CB -> list effect -> Prop) :
  (exists c', f (cc cb) = Ret c' /\ cc_ok c') -> (forall c', cc_ok c' -> Q tt (set_cc c' cb) tr) ->
  wp (cc_modify f) Q cb tr.
Proof. intros (c' & Hc & Hok) HQ. unfold cc_modify. wp_steps. eapply wp_lift; [exact Hc|]. wp_steps. by apply HQ. Qed.

Lemma wp_start_timer env cb tr (Q : unit -> CB -> list effect -> Prop) :
  rto_wf (rto_calculator cb) ->
  (forall d, Q tt (set_retransmit_deadline d cb) tr) -> wp (start_retransmit_timer env) Q cb tr.
Proof.
  intros H HQ. unfold start_retransmit_timer. wp_steps.
  destruct (retransmit_deadline cb) as [t|] eqn:E.
  - wp_steps. specialize (HQ (Some t)).
    assert (Heta : set_retransmit_deadline (Some t) cb = cb) by (rewrite <- E; by destruct cb).
    by rewrite Heta in HQ.
  - apply wp_bind. eapply wp_rto; [exact H|]. intros r _. wp_steps. apply HQ.
Qed.

(** A pure acknowledgement is a segment at SND.NXT with no data. *)
Lemma send_pos T g U cb : send_inv T g U cb -> 0 <= U + flight (unacked_queue (sender cb)) <= blen T + 1.
Proof.
  intros []. pose proof (flight_nonneg (unacked_queue (sender cb))).
  pose proof (blen_nonneg (concat (unsent_queue (sender cb)))). lia.
Qed.

Lemma pure_ack_tx T g U cb d seg : send_inv T g U cb -> pure_ack S b cb seg -> tx_ok S b T d c (Transmit seg).
Proof.
  intros HS (Hd & Hf & Hs & _ & Hk). pose proof (send_pos T g U cb HS). destruct HS. split; [done|].
  exists (U + flight (unacked_queue (sender cb))).
  split; [lia|]. split; [congruence|]. rewrite Hd, Hf. split; [apply at_pos_nil|done].
Qed.

(** ** Growth of the stream *)

Lemma at_pos_grow T X p buf : at_pos T p buf -> at_pos (T ++ X) p buf.
Proof. intros H i x Hi. apply lookup_app_l_Some. by apply H. Qed.

Lemma q_at_grow T X U q : ~ has_fin q -> q_at T U q -> q_at (T ++ X) U q.
Proof.
  revert U. induction q as [|s q IH]; intros U Hf Hq; [done|]. destruct Hq as (H1 & H2 & H3).
  split; [by apply at_pos_grow|]. split.
  - intros E. exfalso. apply Hf. by left.
  - apply IH; [|done]. intros Hq. apply Hf. by right.
Qed.

Lemma unsent_at_grow T X N l d : unsent_at T false N l -> unsent_at (T ++ X) d N l.
Proof.
  revert N. induction l as [|x l IH]; intros N Hl; [done|]. destruct Hl as (H1 & H2 & H3).
  split; [by apply at_pos_grow|]. split; [|by apply IH]. intros E. by destruct (H2 E) as (_ & _ & ?).
Qed.

Lemma at_pos_self T X : at_pos (T ++ X) (blen T) X.
Proof. intros i x Hi. unfold blen. rewrite Nat2Z.id. rewrite lookup_app_r by lia. rewrite <- Hi. f_equal. lia. Qed.

Lemma tx_ok_grow T X d e : tx_ok S b T false c e -> tx_ok S b (T ++ X) d c e.
Proof.
  destruct e as [seg| | | |]; try done. intros (Hk & pos & H1 & H2 & H3 & H4). split; [done|]. exists pos.
  pose proof (blen_nonneg X). rewrite blen_app.
  split; [lia|]. split; [done|]. split; [by apply at_pos_grow|]. intros Hf. by destruct (H4 Hf).
Qed.

(** Bytes the user hands over (or the end-of-send marker) join the unsent queue. *)
Lemma enqueue_inv T U cb buf d :
  send_inv T 0 U cb -> user_is_done_sending cb = false -> blen buf <= 2^30 -> (buf = [] -> d = true) ->
  send_inv (T ++ buf) 0 U
    (set_user_is_done_sending d
       (set_sender (snd_set_unsent_seq_no (unsent_seq_no (sender cb) ⊕ blen buf)
                      (snd_set_unsent_queue (unsent_queue (sender cb) ++ [buf]) (sender cb))) cb)).
Proof.
  intros H Hd Hb Hfin. destruct H. pose proof (blen_nonneg buf). rewrite Hd in *.
  assert (Hnf : ~ has_fin (unacked_queue (sender cb))) by (intros Hf; specialize (si_fin_q0 Hf); lia).
  assert (Hcc : blen (concat (unsent_queue (sender cb) ++ [buf])) =
                blen (concat (unsent_queue (sender cb))) + blen buf).
  { rewrite concat_app, blen_app. simpl. by rewrite app_nil_r. }
  constructor; fields; rewrite ?Hcc, ?blen_app; try done; try lia.
  - by apply q_at_grow.
  - apply unsent_at_snoc.
    + by apply unsent_at_grow.
    + by eapply unsent_nonempty.
    + replace (U + flight (unacked_queue (sender cb)) + blen (concat (unsent_queue (sender cb))))
        with (blen T) by lia. apply at_pos_self.
    + intros E. subst buf. rewrite app_nil_r. split; [lia|auto].
  - apply Forall_app. auto.
  - rewrite si_unsent_seq0, seq_add_assoc. f_equal. lia.
  - intros Hs. specialize (si_acked0 Hs). destruct (state cb); simpl in *; try done;
      specialize (si_closed0 eq_refl); lia.
Qed.

(** The sender after a new segment [buf] was transmitted from the front of the unsent queue. *)
Definition sent_sender (s : Sender) (buf : Buffer.t) (l : list Buffer.t) (t : Z) (useq : Seq.SeqNumber) : Sender :=
  mkSender (send_unacked s) (unacked_queue s ++ [mkUnacked buf (Some t)]) (send_next s ⊕ seglen buf)
    l useq (send_window s) (send_window_last_update_seq s) (send_window_last_update_ack s)
    (snd_window_scale s) (mss s).

Definition fin_of (buf : Buffer.t) : bool := match buf with [] => true | _ => false end.

Lemma unsent_front T d N buf rest l :
  0 <= N -> unsent_at T d N ((buf ++ rest) :: l) -> (buf = [] -> rest = []) ->
  let l' := match rest with [] => l | _ => rest :: l end in
  at_pos T N buf /\ (buf = [] -> l' = [] /\ N = blen T /\ d = true) /\
  unsent_at T d (N + blen buf) l'.
Proof.
  intros HN (H1 & H2 & H3) Hb l'. apply at_pos_app in H1 as [H1 H1']; [|done].
  rewrite blen_app in H3. split; [done|]. split.
  - intros E. destruct (H2 ltac:(by rewrite E, (Hb E))) as (-> & -> & ->). subst l'. by rewrite (Hb E).
  - subst l'. destruct rest as [|x rest].
    + change (blen []) with 0 in H3. by rewrite Z.add_0_r in H3.
    + split; [done|]. split; [done|]. by replace (N + blen buf + blen (x :: rest)) with (N + (blen buf + blen (x :: rest))) by lia.
Qed.

Lemma transmit_inv T U cb cb' buf rest l t useq :
  send_inv T 0 U cb -> unsent_queue (sender cb) = (buf ++ rest) :: l -> (buf = [] -> rest = []) ->
  flight (unacked_queue (sender cb)) + blen buf <= 2^30 + (if fin_of buf then 0 else 1) -> 0 <= t ->
  let l' := match rest with [] => l | _ => rest :: l end in
  useq = c ⊕ (U + flight (unacked_queue (sender cb)) + seglen buf + blen (concat l')) ->
  sender cb' = sent_sender (sender cb) buf l' t useq ->
  state cb' = after_emit (fin_of buf) (state cb) ->
  user_is_done_sending cb' = user_is_done_sending cb -> rto_calculator cb' = rto_calculator cb ->
  cc_ok (cc cb') -> send_inv T (if fin_of buf then 1 else 0) U cb'.
Proof.
  intros H Hu Hb Hfl Ht l' Hus Es Est Ed Er Hcok. destruct H.
  pose proof (flight_nonneg (unacked_queue (sender cb))) as Hfn. rewrite Hu in *.
  destruct (unsent_front T (user_is_done_sending cb) (U + flight (unacked_queue (sender cb))) buf rest l)
    as (Hat & Hfin & Hl'); [lia|done|done|]. fold l' in Hfin, Hl'.
  assert (Hnf : ~ has_fin (unacked_queue (sender cb))) by (intros Hf; specialize (si_fin_q0 Hf); lia).
  assert (Hcc : blen (concat l') = blen rest + blen (concat l)).
  { subst l'. destruct rest; [done|]. cbn [concat]. by rewrite blen_app. }
  cbn [concat] in si_total0. rewrite !blen_app in si_total0.
  assert (Hfl1 : flight (unacked_queue (sender cb) ++ [mkUnacked buf (Some t)]) =
                 flight (unacked_queue (sender cb)) + seglen buf) by (rewrite flight_app; simpl; lia).
  assert (Hseg : seglen buf = blen buf + (if fin_of buf then 1 else 0)).
  { unfold seglen. destruct buf as [|x buf]; [done|]. rewrite blen_cons. pose proof (blen_nonneg buf). simpl. lia. }
  assert (Hst : fin_sent (state cb) = false).
  { destruct (fin_sent (state cb)); [|done]. specialize (si_closed0 eq_refl). lia. }
  constructor; rewrite ?Es, ?Est, ?Ed, ?Er; unfold sent_sender; fields; rewrite ?Hfl1; try done.
  - destruct (fin_of buf); auto.
  - apply q_at_snoc; [done|done|done|]. intros E. by destruct (Hfin E) as (_ & ? & _).
  - apply Forall_app. split; [done|]. by repeat constructor.
  - destruct (fin_of buf); lia.
  - rewrite si_next0, seq_add_assoc. f_equal. lia.
  - destruct (decide (buf = [])) as [E|E]; [by destruct (Hfin E) as (-> & _)|].
    rewrite Hseg. destruct buf; [done|]. simpl. by replace (U + (flight (unacked_queue (sender cb)) + (blen (z :: buf) + 0)))
      with (U + flight (unacked_queue (sender cb)) + blen (z :: buf)) by lia.
  - apply Forall_cons in si_bufs0 as [Hb1 Hb2]. rewrite blen_app in Hb1. pose proof (blen_nonneg buf).
    subst l'. destruct rest; [done|]. constructor; [lia|done].
  - rewrite Hcc, Hseg. lia.
  - rewrite Hus. f_equal. lia.
  - intros Hf. apply Exists_app in Hf as [Hf|Hf]; [by destruct Hnf|].
    apply Exists_cons in Hf as [E|Hf]; [|by apply Exists_nil in Hf]. simpl in E. by rewrite E.
  - intros E. destruct buf; [|simpl in E; lia]. by destruct (Hfin eq_refl) as (? & ? & ?).
  - destruct buf; [|done]. destruct (state cb); done.
  - destruct buf; [done|]. cbn [fin_of after_emit]. by rewrite Hst.
  - intros E. destruct buf, (state cb); simpl in *; done.
Qed.

Lemma transmit_tx T U cb buf rest l seg :
  send_inv T 0 U cb -> unsent_queue (sender cb) = (buf ++ rest) :: l -> (buf = [] -> rest = []) ->
  TcpHeader.seq_num (tcp_hdr seg) = send_next (sender cb) -> data seg = Some buf ->
  TcpHeader.fin (tcp_hdr seg) = fin_of buf -> ack_header S b (tcp_hdr seg) ->
  tx_ok S b T (user_is_done_sending cb) c (Transmit seg).
Proof.
  intros H Hu Hb Hs Hd Hf Hk. pose proof (send_pos T 0 U cb H). destruct H. split; [done|]. pose proof (flight_nonneg (unacked_queue (sender cb))).
  rewrite Hu in si_unsent0. destruct (unsent_front T (user_is_done_sending cb) (U + flight (unacked_queue (sender cb))) buf rest l)
    as (Hat & Hfin & _); [lia|done|done|].
  exists (U + flight (unacked_queue (sender cb))). rewrite Hd, Hf. split; [lia|]. split; [congruence|].
  split; [done|]. intros E. destruct buf; [|done]. by destruct (Hfin eq_refl) as (_ & ? & ?).
Qed.

Lemma fin_of_len buf : (blen buf =? 0) = fin_of buf.
Proof. destruct buf; [done|]. rewrite blen_cons. pose proof (blen_nonneg buf). simpl. lia. Qed.

Lemma seglen_fin buf : (if fin_of buf then 1 else blen buf) = seglen buf.
Proof. destruct buf; [done|]. unfold seglen. rewrite blen_cons. pose proof (blen_nonneg buf). simpl. lia. Qed.

Lemma in_flight T g U cb :
  send_inv T g U cb ->
  send_next (sender cb) ⊖ send_unacked (sender cb) = flight (unacked_queue (sender cb)).
Proof.
  intros []. rewrite si_next0, si_una0. pose proof (flight_nonneg (unacked_queue (sender cb))).
  rewrite seq_sub_distance by lia. lia.
Qed.

(** The immediate path either leaves everything but congestion control alone, or transmits the
    buffer and puts it on the retransmission queue. *)
Lemma wp_send_immediate env A f T U cb tr buf d (Q : bool -> CB -> list effect -> Prop) :
  env_ok env -> recv_inv S b A f cb -> send_inv T 0 U cb -> unsent_queue (sender cb) = [] ->
  user_is_done_sending cb = false -> blen buf <= 2^30 -> (buf = [] -> d = true) ->
  (forall c', cc_ok c' -> Q false (set_cc c' cb) tr) ->
  (forall cb' tr', recv_inv S b A f cb' ->
     send_inv (T ++ buf) (if fin_of buf then 1 else 0) U (set_user_is_done_sending d cb') ->
     user_is_done_sending cb' = false -> stays_open cb cb' -> tx_ext (T ++ buf) d tr tr' -> Q true cb' tr') ->
  wp (send_immediate env buf (blen buf)) Q cb tr.
Proof.
  intros Henv HR HS Hu Hnd Hb Hfin HQf HQt. unfold send_immediate. wp_step. wp_step.
  rewrite (in_flight T 0 U) by done. set (F := flight (unacked_queue (sender cb))).
  assert (HF : 0 <= F <= 2^30 + 1) by (split; [apply flight_nonneg|by destruct HS]).
  pose proof (blen_nonneg buf). rewrite wrap32_small by (unfold u32_ok; lia).
  wp_step. apply wp_cc_modify; [apply cc_on_cwnd_check_total, HS|]. intros c1 Hc1. wp_steps. fields.
  wp_if Eg; [|wp_steps; by apply HQf].
  apply andb_true_iff in Eg as [[Hw0 Hw]%andb_true_iff _]. apply Z.ltb_lt in Hw0. apply Z.leb_le in Hw.
  assert (HSw : send_window (sender cb) <= 2^30) by apply (si_window _ _ _ _ HS).
  destruct (arp_try_query env (ip (remote cb))) as [link|]; [|wp_steps; by apply HQf].
  wp_step. apply wp_rto; [apply (si_rto _ _ _ _ HS)|]. intros r1 _.
  wp_step. apply wp_cc_modify; [by apply cc_on_send_total|]. intros c2 Hc2. wp_steps. fields.
  destruct (tcp_header_ok S b A f (set_cc c2 (set_cc c1 cb))) as (w & Hh & Hk); [by apply (recv_inv_view S b A f cb)|].
  eapply wp_lift; [exact Hh|]. wp_step. apply wp_emit. wp_steps. fields.
  rewrite fin_of_len, seglen_fin. set (hdr := if fin_of buf then _ else _).
  assert (Hhs : TcpHeader.seq_num hdr = send_next (sender cb)) by (subst hdr; by destruct (fin_of buf)).
  assert (Hhf : TcpHeader.fin hdr = fin_of buf) by (subst hdr; by destruct (fin_of buf)).
  assert (Hhk : ack_header S b hdr) by (subst hdr; by destruct (fin_of buf)).
  clearbody hdr. rewrite Hhf.
  pose proof (enqueue_inv T U cb buf d HS Hnd Hb Hfin) as HE. rewrite Hu in HE.
  match type of HE with send_inv _ _ _ ?x => set (cbv := x) in HE end.
  assert (Hufront : unsent_queue (sender cbv) = (buf ++ []) :: []) by (by rewrite app_nil_r).
  assert (Hpost : forall t cb', 0 <= t -> 
      sender cb' = sent_sender (sender cbv) buf [] t (unsent_seq_no (sender cb) ⊕ seglen buf) ->
      state cb' = after_emit (fin_of buf) (state cb) -> rto_calculator cb' = rto_calculator cb -> cc_ok (cc cb') ->
      send_inv (T ++ buf) (if fin_of buf then 1 else 0) U (set_user_is_done_sending d cb')).
  { intros t cb' Ht Es Est Er Hcc.
    eapply (transmit_inv (T ++ buf) U cbv _ buf [] []); [done|done|done| |exact Ht| |exact Es|exact Est|done|exact Er|exact Hcc].
    - change (flight (unacked_queue (sender cbv))) with F. destruct (fin_of buf) eqn:Eb; lia.
    - destruct HS. rewrite si_unsent_seq0, Hu, seq_add_assoc. change (flight (unacked_queue (sender cbv))) with F.
      change (flight (unacked_queue (sender cb))) with F. simpl. f_equal. change (blen (@nil Z)) with 0. lia. }
  apply wp_start_timer; [apply (si_rto _ _ _ _ HS)|]. intros dl. wp_steps. fields. apply HQt.
  - apply (recv_inv_view S b A f (set_state (after_emit (fin_of buf) (state cb)) cb)); [done|].
    by apply after_emit_recv.
  - apply (Hpost (now env)); [unfold env_ok in Henv; lia| |done|done|done].
    unfold sent_sender, snd_set_unacked_queue, snd_set_unsent_seq_no, snd_set_next. fields. by rewrite Hu.
  - done.
  - exact (after_emit_open _ _).
  - apply tx_ext_one. apply (transmit_tx _ U cbv buf [] []); done.
Qed.

Lemma not_done_g T g U cb : send_inv T g U cb -> user_is_done_sending cb = false -> g = 0.
Proof. intros [] Hd. destruct si_g0 as [|E]; [done|]. destruct (si_fin0 E). congruence. Qed.

(** [send] refuses the buffer, and then changes nothing, or accepts it as the next part of the
    stream. *)
Lemma wp_send env A f T g U cb tr buf d (Q : Result unit -> CB -> list effect -> Prop) :
  env_ok env -> conn_inv A f T g U cb -> blen buf <= 2^30 -> (buf = [] -> d = true) ->
  (user_is_done_sending cb = true -> Q (Err (mkFail EINVAL "Connection is closing")) cb tr) ->
  ((UNSENT_QUEUE_CUTOFF < length (unsent_queue (sender cb)))%nat ->
     Q (Err (mkFail EBUSY "too many packets to send")) cb tr) ->
  (forall g' cb' tr', user_is_done_sending cb = false -> recv_inv S b A f cb' ->
     send_inv (T ++ buf) g' U (set_user_is_done_sending d cb') ->
     user_is_done_sending cb' = false -> stays_open cb cb' -> tx_ext (T ++ buf) d tr tr' -> Q (Ok tt) cb' tr') ->
  wp (send env buf) Q cb tr.
Proof.
  intros Henv [HR HS] Hb Hfin HQ1 HQ2 HQ. unfold send. wp_steps.
  destruct (user_is_done_sending cb) eqn:Hd; [wp_steps; auto|].
  rewrite (not_done_g _ _ _ _ HS Hd) in HS.
  rewrite (proj2 (Z.ltb_ge U32_MAX (blen buf))) by (unfold U32_MAX; lia).
  assert (Hslow : forall cb' : CB, recv_view cb = recv_view cb' -> send_inv T 0 U cb' ->
    state cb' = state cb -> user_is_done_sending cb' = false ->
    wp (_ ← modify_sender (fun s => snd_set_unsent_queue (unsent_queue s ++ [buf]) s);
        _ ← modify_sender (fun s => snd_set_unsent_seq_no (unsent_seq_no s ⊕ blen buf) s);
        mret (Ok tt)) Q cb' tr).
  { intros cb' Hrv HS' Hst Hd'. wp_steps.
    apply (HQ 0); [done| | |done| |apply tx_ext_refl].
    - by apply (recv_inv_view S b A f cb).
    - apply (send_inv_view _ _ _ _ _ (eq_refl _)).
      by apply (enqueue_inv T U cb' buf d).
    - unfold stays_open. fields. congruence. }
  wp_step. destruct (Nat.eqb_spec (length (unsent_queue (sender cb))) 0) as [E0|E0].
  - apply nil_length_inv in E0. apply (wp_send_immediate env A f T U cb tr buf d); try done.
    + intros c' Hc. rewrite E0. apply Hslow; [done|by apply send_inv_cc|done|done].
    + intros cb' tr' H1 H2 H3 H4 H5. wp_steps. by eapply HQ.
  - wp_step. destruct (Nat.ltb_spec UNSENT_QUEUE_CUTOFF (length (unsent_queue (sender cb)))).
    + wp_steps. auto.
    + by apply Hslow.
Qed.

(** [close] queues or sends the FIN once; the unsent queue must have room for it. *)
Lemma wp_close env A f T g U cb tr (Q : Result unit -> CB -> list effect -> Prop) :
  env_ok env -> conn_inv A f T g U cb ->
  (length (unsent_queue (sender cb)) <= UNSENT_QUEUE_CUTOFF)%nat ->
  (forall g' cb' tr', conn_inv A f T g' U cb' -> user_is_done_sending cb' = true -> stays_open cb cb' ->
     tx_ext T true tr tr' -> Q (Ok tt) cb' tr') ->
  wp (close env) Q cb tr.
Proof.
  intros Henv HI Hroom HQ. unfold close. wp_steps.
  destruct (user_is_done_sending cb) eqn:Hd; [wp_steps; apply (HQ g); [done|done|done|apply tx_ext_refl]|].
  unfold disable_stats. wp_steps.
  apply (wp_send env A f T g U cb _ [] true); try done; [intros; congruence|lia|].
  intros g' cb' tr' _ HR HS _ Hop Htx. wp_steps. rewrite app_nil_r in *. apply (HQ g').
  - split; [by apply (recv_inv_view S b A f cb')|done].
  - done.
  - done.
  - eapply tx_ext_trans; [|exact Htx]. by apply tx_ext_one.
Qed.

(** ** Retransmission *)

Lemma q_at_head_none T U s q : q_at T U (s :: q) <-> q_at T U (mkUnacked (bytes s) None :: q).
Proof. done. Qed.

(** The earliest unacknowledged segment is sent again, from SND.UNA. *)
Lemma wp_retransmit env A f T g U cb tr (Q : unit -> CB -> list effect -> Prop) :
  conn_inv A f T g U cb ->
  (forall cb' tr', conn_inv A f T g U cb' -> user_is_done_sending cb' = user_is_done_sending cb ->
     stays_open cb cb' -> tx_ext T (user_is_done_sending cb) tr tr' -> Q tt cb' tr') ->
  wp (retransmit env) Q cb tr.
Proof.
  intros [HR HS] HQ. unfold retransmit. wp_steps.
  destruct (unacked_queue (sender cb)) as [|s q] eqn:Eq; wp_steps; [apply HQ; [done..|apply tx_ext_refl]|].
  assert (HS' : send_inv T g U (set_sender (snd_set_unacked_queue (mkUnacked (bytes s) None :: q) (sender cb)) cb)).
  { destruct HS. rewrite Eq in *. constructor; fields; try done.
    - apply Forall_cons in si_times0 as [_ Ht]. by constructor.
    - intros Hf. apply si_fin_q0. apply Exists_cons in Hf as [E|Hf]; [by left|by right]. }
  destruct (arp_try_query env (ip (remote cb))) as [link|]; [|wp_steps; apply HQ; [split; [by apply (recv_inv_view S b A f cb)|done]|done|done|apply tx_ext_refl]].
  destruct (tcp_header_ok S b A f cb HR) as (w & Hh & Hk).
  wp_step. eapply wp_lift; [exact Hh|]. apply wp_emit. fields. set (hdr := if Nat.eqb _ 0 then _ else _).
  assert (Hlen : Nat.eqb (length (bytes s)) 0 = fin_of (bytes s)) by (by destruct (bytes s)).
  assert (Hhs : TcpHeader.seq_num hdr = send_unacked (sender cb)) by (subst hdr; by destruct (Nat.eqb _ _)).
  assert (Hhf : TcpHeader.fin hdr = fin_of (bytes s)) by (subst hdr; rewrite Hlen; by destruct (fin_of _)).
  assert (Hhk : ack_header S b hdr) by (subst hdr; by destruct (Nat.eqb _ _)).
  clearbody hdr. pose proof (si_q _ _ _ _ HS) as Hq. rewrite Eq in Hq. destruct Hq as (Hat & Hfin & _).
  assert (Hg : fin_of (bytes s) = true -> g = 1 /\ bytes s = []).
  { intros E. destruct (bytes s) eqn:Eb; [|done]. split; [|done]. apply (si_fin_q _ _ _ _ HS). rewrite Eq. by left. }
  apply HQ.
  - rewrite Hhf. split.
    + apply (recv_inv_view S b A f (set_state (after_emit (fin_of (bytes s)) (state cb)) cb)); [done|].
      by apply after_emit_recv.
    + destruct (fin_of (bytes s)); [|by eapply send_inv_view; [|exact HS']].
      destruct (Hg eq_refl) as [-> _]. destruct (state cb) eqn:Est; try (eapply send_inv_view; [|exact HS']; unfold send_view; cbn; by rewrite Est).
      all: exfalso; pose proof (si_open _ _ _ _ HS) as Ho; rewrite Est in Ho; by specialize (Ho eq_refl).
  - done.
  - exact (after_emit_open _ _).
  - apply tx_ext_one. split; [done|]. exists U. cbn [tcp_hdr segment_of data default]. rewrite Hhs, Hhf.
    pose proof (send_pos T g U cb HS). pose proof (flight_nonneg (unacked_queue (sender cb))).
    split; [destruct HS; lia|]. split; [by destruct HS|]. split; [done|]. intros E. destruct (Hg E) as [-> Eb].
    split; [by destruct (si_fin _ _ _ _ HS eq_refl)|]. split; [by destruct (Hfin Eb)|done].
Qed.

(** The timer expiry, and the fast retransmission. *)
Lemma wp_retransmitter env A f T g U cb tr (Q : unit -> CB -> list effect -> Prop) :
  conn_inv A f T g U cb ->
  (forall cb' tr', conn_inv A f T g U cb' -> user_is_done_sending cb' = user_is_done_sending cb ->
     stays_open cb cb' -> tx_ext T (user_is_done_sending cb) tr tr' -> Q tt cb' tr') ->
  wp (retransmitter env) Q cb tr.
Proof.
  intros HI HQ. pose proof HI as [_ HS]. unfold retransmitter. wp_steps.
  wp_if Ef; [|destruct (retransmit_deadline cb) as [t|]; [wp_if Et|]].
  - wp_step. apply wp_cc_modify; [apply cc_on_fast_retransmit_total, HS|]. intros c' Hc.
    apply (wp_retransmit env A f T g U); [by apply conn_inv_cc|exact HQ].
  - wp_step. apply wp_cc_modify; [apply cc_on_rto_total, HS|]. intros c' Hc. wp_step.
    apply (wp_retransmit env A f T g U); [by apply conn_inv_cc|].
    intros cb' tr' [HR' HS'] Hd' Hop Htx. wp_steps.
    assert (Hw : rto_wf (RtoCalculator.back_off (rto_calculator cb'))) by (apply back_off_wf, HS').
    apply wp_rto; [done|]. intros r _. wp_steps. apply HQ; [|done|done|done].
    split; [by apply (recv_inv_view S b A f cb')|]. destruct HS'. by constructor.
  - wp_steps. apply HQ; [done..|apply tx_ext_refl].
  - wp_steps. apply HQ; [done..|apply tx_ext_refl].
Qed.

(** An acknowledgement as a step of the whole connection. *)
Lemma wp_send_ack_conn env A f T g U cb tr (Q : unit -> CB -> list effect -> Prop) :
  conn_inv A f T g U cb ->
  (forall cb' tr', conn_inv A f T g U cb' -> tx_view cb' = tx_view cb -> recv_view cb' = recv_view cb ->
     tx_ext T (user_is_done_sending cb) tr tr' -> Q tt cb' tr') ->
  wp (send_ack env) Q cb tr.
Proof.
  intros [HR HS] HQ. apply (wp_send_ack S b env A f); [done|by apply HQ; try apply tx_ext_refl|].
  intros seg Hseg. apply HQ; try done; [by apply (conn_inv_view A f T g U cb)|].
  apply tx_ext_one. by eapply pure_ack_tx.
Qed.

Lemma wp_acknowledger env A f T g U cb tr (Q : unit -> CB -> list effect -> Prop) :
  conn_inv A f T g U cb ->
  (forall cb' tr', conn_inv A f T g U cb' -> user_is_done_sending cb' = user_is_done_sending cb ->
     stays_open cb cb' -> tx_ext T (user_is_done_sending cb) tr tr' -> Q tt cb' tr') ->
  wp (acknowledger env) Q cb tr.
Proof.
  intros HI HQ. unfold acknowledger. wp_steps.
  destruct (ack_deadline cb) as [t|]; [wp_if Et|]; wp_steps; try (apply HQ; [done|done|done|apply tx_ext_refl]).
  eapply wp_send_ack_conn; [exact HI|]. intros cb' tr' HI' Hv Hv' Htx. apply HQ; [done| | |done].
  - unfold tx_view in Hv. congruence.
  - unfold stays_open. by rewrite (recv_view_state _ _ Hv').
Qed.

(** ** Acknowledgements *)

Lemma update_send_window_ok (s : Sender) h :
  0 <= send_window s <= 2^30 -> 0 <= snd_window_scale s <= 14 -> u16_ok (TcpHeader.window_size h) ->
  0 <= send_window (update_send_window h s) <= 2^30.
Proof.
  intros Hw Hs Hh. unfold update_send_window. destruct (_ || _)%bool; [|done]. fields.
  unfold u16_ok in Hh. rewrite Z.shiftl_mul_pow2 by lia.
  assert (2^snd_window_scale s <= 2^14) by (apply Z.pow_le_mono_r; lia).
  assert (0 < 2^snd_window_scale s) by (apply Z.pow_pos_nonneg; lia).
  rewrite wrap32_small; unfold u32_ok; nia.
Qed.

(** The window update touches the window only. *)
Lemma update_send_window_frame h s :
  exists w l1 l2, update_send_window h s = snd_set_window w l1 l2 s.
Proof.
  unfold update_send_window. destruct (_ || _)%bool; [by eexists _, _, _|].
  exists (send_window s), (send_window_last_update_seq s), (send_window_last_update_ack s). by destruct s.
Qed.

(** New data acknowledged up to [d] units beyond SND.UNA. *)
Lemma acked_inv T g U cb q r d h :
  send_inv T g U cb -> u16_ok (TcpHeader.window_size h) ->
  0 <= d <= flight (unacked_queue (sender cb)) ->
  q_at T (U + d) q -> flight q = flight (unacked_queue (sender cb)) - d -> q_times q ->
  (has_fin q -> has_fin (unacked_queue (sender cb))) -> rto_wf r ->
  send_inv T g (U + d)
    (set_sender (update_send_window h (snd_set_unacked (c ⊕ (U + d)) (snd_set_unacked_queue q (sender cb))))
       (set_rto_calculator r cb)).
Proof.
  intros H Hh Hd Hq Hf Ht Hfin Hr. destruct H. set (s1 := snd_set_unacked _ _).
  pose proof (update_send_window_ok s1 h si_window0 si_scale0 Hh) as Hw.
  destruct (update_send_window_frame h s1) as (w & l1 & l2 & E). rewrite E in *.
  pose proof (blen_nonneg (concat (unsent_queue (sender cb)))).
  assert (HN : U + d + flight q = U + flight (unacked_queue (sender cb))) by lia.
  constructor; subst s1; fields; rewrite ?HN; try done; try lia.
  - auto.
  - intros Hs. specialize (si_acked0 Hs). destruct (state cb); simpl in *; try done;
      specialize (si_closed0 eq_refl); lia.
Qed.

(** The acknowledgement comparison: with the acknowledgement number not 2^31 ahead of SND.UNA, the
    two tests accept exactly the numbers in (SND.UNA, SND.NXT]. *)
Lemma ack_window T g U cb ack :
  send_inv T g U cb -> u32_ok ack -> ack ⊖ send_unacked (sender cb) <> 2^31 ->
  (send_unacked (sender cb) <ₛ ack) = true -> (ack ≤ₛ send_next (sender cb)) = true ->
  exists d, ack = c ⊕ (U + d) /\ 0 < d <= flight (unacked_queue (sender cb)) /\
    ack ⊖ send_unacked (sender cb) = d.
Proof.
  intros H Hack Hne Hlt Hle. destruct H. pose proof (flight_nonneg (unacked_queue (sender cb))) as Hfn.
  set (F := flight (unacked_queue (sender cb))) in *. set (d := ack ⊖ send_unacked (sender cb)) in *.
  assert (Ha : ack = c ⊕ (U + d)).
  { rewrite <- (seq_sub_add ack (send_unacked (sender cb))) by done. fold d. by rewrite si_una0, seq_add_assoc. }
  assert (Hd : u32_ok d) by apply seq_sub_ok. clearbody d. unfold u32_ok in Hd.
  assert (Hd0 : 0 < d < 2^31).
  { rewrite Ha, si_una0 in Hlt. unfold Seq.lt in Hlt. rewrite seq_diff in Hlt.
    replace (U - (U + d)) with (- d) in Hlt by lia.
    unfold as_i32, wrap32 in Hlt. apply Z.ltb_lt in Hlt. case_match eqn:E; Z.div_mod_to_equations; lia. }
  exists d. split; [done|]. split; [|done]. rewrite Ha, si_next0, seq_le_window in Hle by lia. lia.
Qed.

(** What ACK processing preserves besides the invariant. *)
Definition ack_frame (cb cb' : CB) : Prop :=
  user_is_done_sending cb' = user_is_done_sending cb /\ unread cb' = unread cb /\
  receive_buffer_size cb' = receive_buffer_size cb /\ receiver cb' = receiver cb /\
  (state cb' = Closed -> state cb = LastAck \/ state cb = Closed) /\
  data_open (state cb') = data_open (state cb).

(** With nothing in flight the connection moves to the state that has our FIN acknowledged. *)
Lemma wp_all_acknowledged A f T g U cb tr (Q : unit -> CB -> list effect -> Prop) :
  conn_inv A f T g U cb -> flight (unacked_queue (sender cb)) = 0 ->
  (forall cb', conn_inv A f T g U cb' -> ack_frame cb cb' -> Q tt cb' tr) ->
  wp all_acknowledged Q cb tr.
Proof.
  intros [HR HS] Hfl HQ. unfold all_acknowledged. wp_steps.
  assert (Hto : forall s', data_open s' = data_open (state cb) ->
    (fin_received s' = true -> fin_received (state cb) = true) -> may_send s' = may_send (state cb) ->
    fin_sent (state cb) = true ->
    (s' = Closed -> state cb = LastAck \/ state cb = Closed) -> Q tt (set_state s' cb) tr).
  { intros s' H1 H2 H3 H4 H5. apply HQ; [split|by repeat split].
    - apply recv_inv_state; [congruence|done|done].
    - destruct HS. specialize (si_closed0 H4). destruct (si_fin0 si_closed0) as [Hu Hd].
      assert (U = blen T + 1).
      { pose proof si_total0 as Ht. rewrite Hu, Hfl in Ht. change (blen (concat [])) with 0 in Ht. lia. }
      constructor; fields; try done. by rewrite H3. }
  destruct (state cb) eqn:Es; wp_steps; try (apply Hto; auto; done);
    try (apply HQ; [done|by repeat split; rewrite ?Es; auto]).
Qed.

(** ACK processing keeps the invariant: SND.UNA moves within the data in flight. *)
Lemma wp_process_ack env A f T g U cb tr h (Q : bool -> CB -> list effect -> Prop) :
  env_ok env -> conn_inv A f T g U cb -> u16_ok (TcpHeader.window_size h) ->
  u32_ok (TcpHeader.ack_num h) -> TcpHeader.ack_num h ⊖ send_unacked (sender cb) <> 2^31 ->
  (forall cont U' cb' tr', conn_inv A f T g U' cb' -> U <= U' -> ack_frame cb cb' ->
     tx_ext T (user_is_done_sending cb) tr tr' -> Q cont cb' tr') ->
  wp (process_ack env h) Q cb tr.
Proof.
  intros Henv HI Hw Hack Hne HQ. pose proof HI as [HR HS]. unfold process_ack. wp_steps.
  apply wp_rto; [apply HS|]. intros r1 _. wp_step. apply wp_cc_modify; [apply cc_on_ack_total, HS|]. intros c1 Hc.
  assert (HI1 : conn_inv A f T g U (set_cc c1 cb)) by (by apply conn_inv_cc).
  wp_if E1.
  2:{ wp_steps. apply (HQ true U); [done|lia|by repeat split; auto|apply tx_ext_refl]. }
  wp_if E2.
  2:{ wp_step. eapply wp_send_ack_conn; [exact HI1|]. intros cb' tr' HI' Hv Hv' Htx. wp_steps.
      apply (HQ false U); [done|lia| |done]. pose proof (recv_view_unread _ _ Hv') as Hu'.
      unfold tx_view, recv_view in *. cbn in Hv, Hv'. simplify_eq.
      repeat split; try congruence; try done. intros Hs. right. congruence. }
  destruct (ack_window T g U cb _ HS Hack Hne E1 E2) as (d & Ea & Hd & Ed). rewrite Ed.
  destruct (remove_acknowledged_ok T U (unacked_queue (sender cb)) d (now env) (rto_calculator cb))
    as (q' & r' & Eq & Hr' & Hq' & Hf' & Ht' & Hfin'); try (by destruct HS); [lia|].
  wp_step. unfold remove_acknowledged_data. wp_step. wp_step. wp_step. eapply wp_lift; [exact Eq|].
  cbv beta iota. wp_steps. rewrite Ea.
  match goal with |- wp _ _ ?x _ => set (cb2 := x) end.
  assert (HI2 : conn_inv A f T g (U + d) cb2).
  { split; [by apply (recv_inv_view S b A f cb)|].
    eapply send_inv_view; [|by apply (acked_inv T g U (set_cc c1 cb) q' r' d h); try done; try apply HI1; fields; lia]. done. }
  assert (Hf2 : ack_frame cb cb2 /\ state cb2 = state cb) by (by repeat split; auto).
  destruct Hf2 as [Hf2 Hst2].
  assert (Hq2 : flight (unacked_queue (sender cb2)) = flight (unacked_queue (sender cb)) - d).
  { subst cb2. fields. destruct (update_send_window_frame h (snd_set_unacked (c ⊕ (U + d)) (snd_set_unacked_queue q' (sender cb))))
      as (w & l1 & l2 & E). rewrite E. done. }
  assert (Hnext : (c ⊕ (U + d) =? send_next (sender cb)) = (d =? flight (unacked_queue (sender cb)))).
  { rewrite (si_next _ _ _ _ HS), seq_eqb_window; [lia|]. pose proof (si_flight _ _ _ _ HS). lia. }
  rewrite Hnext. clearbody cb2.
  destruct (Z.eqb_spec d (flight (unacked_queue (sender cb)))) as [Hall|Hsome]; wp_steps.
  - apply (wp_all_acknowledged A f T g (U + d));
      [by apply (conn_inv_view A f T g (U + d) cb2)|fields; lia|].
    intros cb' HI' Hf'2. wp_steps. apply (HQ true (U + d)); [done|lia| |apply tx_ext_refl].
    destruct Hf2 as (F1 & F2 & F3 & F4 & _), Hf'2 as (G1 & G2 & G3 & G4 & G5 & G6).
    split; [rewrite G1; exact F1|]. split; [rewrite G2; exact F2|]. split; [rewrite G3; exact F3|].
    split; [rewrite G4; exact F4|]. rewrite <- Hst2. done.
  - apply wp_rto; [apply HI2|]. intros r _. wp_steps.
    apply (HQ true (U + d)); [by apply (conn_inv_view A f T g (U + d) cb2)|lia|done|apply tx_ext_refl].
Qed.

(** ** The background sender *)

(** The probe a PERSIST mode repeats is a part of the stream at its sequence number. *)
Definition pc_ok (T : list Z) (pc : SenderPc) : Prop :=
  match pc with
  | SenderTop => True
  | SenderPersist _ probe probe_seq _ => exists pos, 0 <= pos <= blen T + 1 /\ probe_seq = c ⊕ pos /\ at_pos T pos probe
  end.

(** A front buffer behind the sequence-number gap holds data. *)
Lemma gap_front T g U cb :
  send_inv T g U cb -> (send_next (sender cb) =? unsent_seq_no (sender cb)) = false ->
  g = 0 /\ exists buf l, unsent_queue (sender cb) = buf :: l /\ buf <> [] /\ blen buf <= 2^30.
Proof.
  intros [] Hne. apply Z.eqb_neq in Hne. rewrite si_next0, si_unsent_seq0 in Hne.
  destruct (unsent_queue (sender cb)) as [|buf l] eqn:Eu.
  { destruct Hne. f_equal. change (blen (concat [])) with 0. lia. }
  split; [destruct si_g0 as [|E]; [done|by destruct (si_fin0 E)]|].
  exists buf, l. split; [done|]. split; [|by apply Forall_cons in si_bufs0 as []].
  intros ->. destruct si_unsent0 as (_ & Hl & _). destruct (Hl eq_refl) as [-> _].
  destruct Hne. f_equal. change (blen (concat [[]])) with 0. lia.
Qed.

Lemma wp_pop_unsent cb tr buf l n (Q : option (Buffer.t * bool) -> CB -> list effect -> Prop) :
  unsent_queue (sender cb) = buf :: l -> buf <> [] -> 1 <= n ->
  (forall first rest push, buf = first ++ rest -> first <> [] -> blen first <= n ->
     Q (Some (first, push))
       (set_sender (snd_set_unsent_queue (match rest with [] => l | _ => rest :: l end) (sender cb)) cb) tr) ->
  wp (pop_unsent n) Q cb tr.
Proof.
  intros Hu Hne Hn HQ. unfold pop_unsent. wp_steps. rewrite Hu.
  destruct (Z.ltb_spec n (blen buf)) as [Hlt|Hge].
  - wp_step. eapply wp_lift; [apply buffer_adjust_ok; lia|]. wp_step. eapply wp_lift; [apply buffer_trim_ok; lia|].
    wp_steps. replace (blen buf - (blen buf - n)) with n by lia.
    specialize (HQ (take (Z.to_nat n) buf) (drop (Z.to_nat n) buf) false).
    assert (Hr : drop (Z.to_nat n) buf <> []) by (apply blen_pos_ne; unfold blen in *; rewrite length_drop; lia).
    destruct (drop (Z.to_nat n) buf) eqn:Ed; [done|]. rewrite <- Ed in *. apply HQ.
    + by rewrite take_drop.
    + apply blen_pos_ne. unfold blen in *. rewrite length_take. lia.
    + unfold blen in *. rewrite length_take. lia.
  - wp_steps. specialize (HQ buf [] true). apply HQ; [by rewrite app_nil_r|done|lia].
Qed.

(** One segment of at most the room in the windows. *)
Lemma wp_send_unsent env A f T U cb tr link n buf l (Q : SenderPc * SenderTurn -> CB -> list effect -> Prop) :
  env_ok env -> conn_inv A f T 0 U cb -> unsent_queue (sender cb) = buf :: l -> buf <> [] -> 1 <= n ->
  flight (unacked_queue (sender cb)) + blen buf <= 2^30 ->
  (forall cb' tr', conn_inv A f T 0 U cb' -> user_is_done_sending cb' = user_is_done_sending cb ->
     stays_open cb cb' -> tx_ext T (user_is_done_sending cb) tr tr' -> Q (SenderTop, SentSegment) cb' tr') ->
  wp (send_unsent env link (send_next (sender cb)) (flight (unacked_queue (sender cb))) n) Q cb tr.
Proof.
  intros Henv [HR HS] Hu Hne Hn Hfl HQ. unfold send_unsent. wp_step.
  eapply wp_pop_unsent; [exact Hu|done|done|]. intros first rest push -> Hf Hfn. cbv beta iota.
  rewrite blen_app in Hfl. pose proof (blen_nonneg rest). pose proof (blen_ne_pos first Hf).
  pose proof (flight_nonneg (unacked_queue (sender cb))) as Hfn'.
  assert (Hno : fin_of first = false) by (by destruct first).
  rewrite wrap32_small by (unfold u32_ok; lia). rewrite fin_of_len, Hno.
  wp_step. apply wp_rto; [apply HS|]. intros r _. wp_step. apply wp_cc_modify; [apply cc_on_send_total, HS|]. intros c1 Hc.
  wp_step. wp_step. match goal with |- wp _ _ ?x _ => set (cb1 := x) end.
  destruct (tcp_header_ok S b A f cb1) as (w & Hh & Hk); [by apply (recv_inv_view S b A f cb)|].
  wp_step. eapply wp_lift; [exact Hh|]. wp_step. apply wp_emit. wp_steps.
  apply wp_start_timer; [apply HS|]. intros dl. wp_steps. cbn [TcpHeader.fin TcpHeader.set_psh after_emit].
  apply HQ; [|done|done|].
  - split; [by apply (recv_inv_view S b A f cb)|].
    replace 0 with (if fin_of first then 1 else 0) by (by rewrite Hno).
    eapply (transmit_inv T U cb _ first rest l (now env)); [exact HS|exact Hu|by destruct first| | | | | |done|done|try apply HS; done].
    + rewrite Hno. lia.
    + unfold env_ok in Henv. lia.
    + reflexivity.
    + subst cb1. unfold sent_sender, snd_set_unacked_queue, snd_set_next, snd_set_unsent_queue. fields.
      rewrite <- (seglen_nonempty first Hf). f_equal. rewrite (si_unsent_seq _ _ _ _ HS), Hu. f_equal.
      rewrite (seglen_nonempty first Hf). destruct rest; cbn [concat]; rewrite !blen_app; change (blen (@nil Z)) with 0; lia.
    + by rewrite Hno.
  - apply tx_ext_one. by apply (transmit_tx T U cb first rest l).
Qed.

(** What the background sender relies on when the peer closes its window: it has not left more
    than 2^30 bytes unacknowledged, and the buffer to probe from has a second byte. *)
Definition probe_ok (cb : CB) : Prop :=
  send_window (sender cb) = 0 ->
  flight (unacked_queue (sender cb)) <= 2^30 /\
  match unsent_queue (sender cb) with buf :: _ => 2 <= blen buf | [] => True end.

Lemma wp_send_probe env A f T U cb tr link buf l (Q : SenderPc * SenderTurn -> CB -> list effect -> Prop) :
  env_ok env -> conn_inv A f T 0 U cb -> unsent_queue (sender cb) = buf :: l -> 2 <= blen buf <= 2^30 ->
  flight (unacked_queue (sender cb)) <= 2^30 ->
  (forall pc cb' tr', conn_inv A f T 0 U cb' -> pc_ok T pc ->
     user_is_done_sending cb' = user_is_done_sending cb ->
     stays_open cb cb' -> tx_ext T (user_is_done_sending cb) tr tr' -> Q (pc, Probed) cb' tr') ->
  wp (send_probe env link (send_next (sender cb))) Q cb tr.
Proof.
  intros Henv [HR HS] Hu Hb Hfl HQ. unfold send_probe, pop_one_unsent_byte. wp_steps. rewrite Hu.
  wp_step. eapply wp_lift; [apply buffer_adjust_ok; lia|]. wp_step.
  eapply wp_lift; [apply buffer_trim_ok; unfold wrap64; rewrite Z.mod_small; lia|]. wp_steps. cbv beta iota.
  replace (blen buf - wrap64 (blen buf - 1)) with 1 by (unfold wrap64; rewrite Z.mod_small; lia).
  change (Z.to_nat 1) with 1%nat. set (first := take 1 buf). set (rest := drop 1 buf).
  assert (Hbuf : buf = first ++ rest) by (subst first rest; by rewrite take_drop).
  assert (Hlf : blen first = 1) by (subst first; unfold blen in *; rewrite length_take; lia).
  assert (Hne : first <> []) by (apply blen_pos_ne; lia).
  assert (Hrne : rest <> []) by (apply blen_pos_ne; subst rest; unfold blen in *; rewrite length_drop; lia).
  assert (Hno : fin_of first = false) by (by destruct first). clearbody first rest. subst buf.
  pose proof (flight_nonneg (unacked_queue (sender cb))) as Hfn'.
  wp_steps. match goal with |- wp _ _ ?x _ => set (cb1 := x) end.
  destruct (tcp_header_ok S b A f cb1) as (w & Hh & Hk); [by apply (recv_inv_view S b A f cb)|].
  eapply wp_lift; [exact Hh|]. wp_step. apply wp_emit. wp_steps.
  cbn [TcpHeader.fin TcpHeader.set_seq_num TcpHeader.set_ack TcpHeader.set_window_size TcpHeader.new after_emit].
  destruct (unsent_front T (user_is_done_sending cb) (U + flight (unacked_queue (sender cb))) first rest l)
    as (Hat & _); [destruct HS; lia|destruct HS; by rewrite Hu in si_unsent0|done|].
  apply HQ; [| |done|done|].
  - split; [by apply (recv_inv_view S b A f cb)|].
    replace 0 with (if fin_of first then 1 else 0) by (by rewrite Hno).
    eapply (transmit_inv T U cb _ first rest l (now env)); [exact HS|exact Hu|by destruct first| | | | | |done|done|try apply HS; done].
    + rewrite Hno. lia.
    + unfold env_ok in Henv. lia.
    + reflexivity.
    + subst cb1. unfold sent_sender, snd_set_unacked_queue, snd_set_next, snd_set_unsent_queue. fields.
      rewrite (seglen_nonempty first Hne), Hlf. destruct rest as [|x rest]; [done|]. f_equal.
      rewrite (si_unsent_seq _ _ _ _ HS), Hu. f_equal. cbn [concat]. rewrite !blen_app, Hlf. lia.
    + by rewrite Hno.
  - exists (U + flight (unacked_queue (sender cb))). split; [by eapply send_pos|]. split; [by destruct HS|done].
  - apply tx_ext_one. by apply (transmit_tx T U cb first rest l).
Qed.

(** A turn of the background sender keeps the invariant and never finds its queue empty. *)
Lemma wp_sender_top env A f T g U cb tr (Q : SenderPc * SenderTurn -> CB -> list effect -> Prop) :
  env_ok env -> conn_inv A f T g U cb -> probe_ok cb ->
  (forall pc turn cb' tr', conn_inv A f T g U cb' -> pc_ok T pc ->
     user_is_done_sending cb' = user_is_done_sending cb ->
     stays_open cb cb' -> tx_ext T (user_is_done_sending cb) tr tr' -> Q (pc, turn) cb' tr') ->
  wp (sender_top env) Q cb tr.
Proof.
  intros Henv HI Hp HQ. pose proof HI as [HR HS]. unfold sender_top. wp_steps.
  wp_if E1; [wp_steps; apply HQ; [done..|apply tx_ext_refl]|].
  destruct (gap_front T g U cb HS E1) as (-> & buf & l & Hu & Hne & Hbl). pose proof (blen_ne_pos buf Hne).
  pose proof (flight_nonneg (unacked_queue (sender cb))). pose proof (si_flight _ _ _ _ HS) as Hfl.
  pose proof (si_window _ _ _ _ HS) as Hw. pose proof (si_mss _ _ _ _ HS) as Hm.
  wp_if E2.
  - apply Z.eqb_eq in E2. destruct (Hp E2) as [Hf2 Hb2]. rewrite Hu in Hb2.
    destruct (arp_try_query env (ip (remote cb))); [|wp_steps; apply HQ; [done..|apply tx_ext_refl]].
    eapply (wp_send_probe env A f T U); try done. intros pc cb' tr' HI' Hpc Hd Hop Htx. by apply HQ.
  - wp_step. apply wp_cc_modify; [apply cc_on_cwnd_check_total, HS|]. intros c1 Hc. wp_step. wp_step. fields.
    unfold top_size_unsent. rewrite Hu. rewrite (in_flight T 0 U) by done.
    rewrite (wrap32_small (blen buf)), (wrap32_small (flight _ + blen buf)) by (unfold u32_ok; lia).
    assert (HI1 : conn_inv A f T 0 U (set_cc c1 cb)) by (by apply conn_inv_cc).
    wp_if E3; [wp_steps; apply HQ; [done..|apply tx_ext_refl]|].
    apply orb_false_iff in E3 as [[E3 E4]%orb_false_iff E5]. apply Z.leb_gt in E3, E4, E5.
    destruct (arp_try_query env (ip (remote cb))); [|wp_steps; apply HQ; [done..|apply tx_ext_refl]].
    pose proof (wrap32_ok (cc_get_cwnd c1 + cc_get_limited_transmit_cwnd_increase c1)) as Hcw. unfold u32_ok in Hcw.
    eapply (wp_send_unsent env A f T U (set_cc c1 cb)); try done; fields; try done.
    + rewrite !wrap32_small by (unfold u32_ok; lia). lia.
    + lia.
    + intros cb' tr' HI' Hd Hop Htx. by apply HQ.
Qed.

(** PERSIST mode repeats its probe. *)
Lemma wp_sender_persist changed expired A f T g U cb tr link probe seq t (Q : SenderPc -> CB -> list effect -> Prop) :
  conn_inv A f T g U cb -> pc_ok T (SenderPersist link probe seq t) ->
  (forall pc cb' tr', conn_inv A f T g U cb' -> pc_ok T pc ->
     user_is_done_sending cb' = user_is_done_sending cb ->
     stays_open cb cb' -> tx_ext T (user_is_done_sending cb) tr tr' -> Q pc cb' tr') ->
  wp (sender_persist changed expired link probe seq t) Q cb tr.
Proof.
  intros [HR HS] Hpc HQ. unfold sender_persist.
  destruct changed; [wp_steps; apply HQ; [done..|apply tx_ext_refl]|].
  destruct expired; cbn [negb]; [|wp_steps; apply HQ; [done..|apply tx_ext_refl]].
  wp_steps. destruct (tcp_header_ok S b A f cb HR) as (w & Hh & Hk).
  eapply wp_lift; [exact Hh|]. wp_step. apply wp_emit. wp_steps.
  cbn [TcpHeader.fin TcpHeader.set_seq_num TcpHeader.set_ack TcpHeader.set_window_size TcpHeader.new after_emit].
  apply HQ; [by apply (conn_inv_view A f T g U cb)|done..|].
  apply tx_ext_one. destruct Hpc as (pos & H1 & H2 & H3). split; [done|]. by exists pos.
Qed.

Lemma pc_ok_grow T X pc : pc_ok T pc -> pc_ok (T ++ X) pc.
Proof.
  destruct pc; [done|]. intros (pos & H1 & H2 & H3). exists pos. rewrite blen_app. pose proof (blen_nonneg X).
  split; [lia|]. split; [done|]. by apply at_pos_grow.
Qed.

Lemma tx_ok_done T d e : tx_ok S b T d c e -> tx_ok S b T true c e.
Proof. destruct e as [seg| | | |]; try done. intros (Hk & pos & H1 & H2 & H3 & H4). split; [done|]. exists pos.
  split; [done|]. split; [done|]. split; [done|]. intros Hf. by destruct (H4 Hf). Qed.

End sending.
