(* ===== verification/Connection.v ===== *)
(** * A connection between two byte streams

    The receive routine and every other entry point of an established connection, run in any
    order, keep the invariant of both directions.  The peer sends the stream [S] (first sequence
    number [b]); the application writes a stream that grows with each accepted [send], and its
    first byte has sequence number [c]. *)

From S2P Require Import Prelude Buffer SeqNumber Net TcpSegment Congestion Rto CtrlBlk Wp Stream Receiving Sending.

Section receive.
Context {C : Type} `{!CongestionControl C, !CongestionControlLaws C}.
Context (S : list Z) (b c : Z).
Hypothesis short : blen S < 2^31 - 4.
#[local] Abbreviation CB := (ControlBlock C).
#[local] Abbreviation conn_inv := (conn_inv S b c).
#[local] Abbreviation recv_inv := (recv_inv S b).
#[local] Abbreviation send_inv := (send_inv c).
#[local] Abbreviation tx_ext := (tx_ext S b c).

(** The receive path leaves the send side as it is. *)
Lemma send_inv_tx_view T g U (cb cb' : CB) :
  tx_view cb' = tx_view cb -> state cb' = state cb -> send_inv T g U cb -> send_inv T g U cb'.
Proof. unfold tx_view. intros Hv Hs. apply send_inv_view. unfold send_view. congruence. Qed.

Lemma tx_view_done (cb cb' : CB) : tx_view cb' = tx_view cb -> user_is_done_sending cb' = user_is_done_sending cb.
Proof. unfold tx_view. congruence. Qed.

(** A reset closes the connection whatever its state. *)
Lemma closed_inv A f T g U (cb : CB) : conn_inv A f T g U cb -> conn_inv A f T g U (set_state Closed cb).
Proof.
  intros [HR HS]. split; [by apply recv_inv_state|]. destruct HS. by constructor.
Qed.

Lemma wp_process_rst A f T g U (cb : CB) tr (Q : unit -> CB -> list effect -> Prop) :
  conn_inv A f T g U cb ->
  (forall cb' tr', conn_inv A f T g U cb' -> state cb' = Closed -> unread cb' = unread cb ->
     user_is_done_sending cb' = user_is_done_sending cb ->
     tx_ext T (user_is_done_sending cb) tr tr' -> Q tt cb' tr') ->
  wp process_rst Q cb tr.
Proof.
  intros HI HQ. unfold process_rst, disable_stats. wp_steps.
  assert (Htx : tx_ext T (user_is_done_sending cb) tr (tr ++ [StatsDisable])) by (by apply tx_ext_one).
  destruct (state cb) eqn:Es; wp_steps; (apply HQ; [|done|done|done|done]);
    first [by apply closed_inv | done].
Qed.

(** In-order text moves to the receive queue. *)
Lemma wp_process_text A f T g U (cb : CB) tr w (Q : bool * bool -> CB -> list effect -> Prop) :
  conn_inv A f T g U cb -> TcpHeader.syn (iw_header w) = false ->
  win_ok S b (A + blen (unread cb) + f) (receive_buffer_size cb - (blen (unread cb) + f))
    (A + blen (unread cb) + f) w ->
  (forall sched fin cb' tr', conn_inv A f T g U cb' -> state cb' = state cb ->
     (if data_open (state cb) then unread cb ++ iw_data w else unread cb) `prefix_of` unread cb' ->
     receive_buffer_size cb' = receive_buffer_size cb ->
     user_is_done_sending cb' = user_is_done_sending cb ->
     (fin = true -> f = 0 /\ A + blen (unread cb') = blen S /\
        blen S + 1 <= A + receive_buffer_size cb' /\ data_open (state cb) = true) ->
     tx_ext T (user_is_done_sending cb) tr tr' -> Q (sched, fin) cb' tr') ->
  wp (process_text w) Q cb tr.
Proof.
  intros HI Hsyn Hw HQ. pose proof HI as [HR HS]. unfold process_text.
  destruct (Nat.eqb_spec (length (iw_data w)) 0) as [E0|E0].
  { apply nil_length_inv in E0. wp_steps. apply HQ; try done; [|apply tx_ext_refl].
    rewrite E0, app_nil_r. by destruct (data_open _). }
  wp_steps.
  assert (Hopen : data_open (state cb) = true ->
    wp (fin ← receive_data (seg_start w) (iw_data w); mret (true, fin)) Q cb tr).
  { intros Ho. pose proof (ri_open _ _ _ _ _ HR Ho) as ->. destruct Hw. rewrite Hsyn in *.
    assert (Hne : iw_data w <> []) by (intros E; by rewrite E in E0).
    pose proof (blen_ne_pos _ Hne). specialize (wo_at eq_refl). cbn [Z.b2z] in wo_len.
    assert (0 <= Z.b2z (TcpHeader.fin (iw_header w))) by (by destruct (TcpHeader.fin _)).
    rewrite Z.add_0_r in wo_at. wp_step. eapply (wp_receive_data S b short A); [done|done|done|lia|].
    intros fin cb' tr' HR' Hpre Hs' Hv' Hq' Hfin'. wp_steps. apply HQ; try done.
    - split; [done|by eapply send_inv_tx_view].
    - by rewrite Ho.
    - unfold tx_view in Hv'. congruence.
    - by apply tx_view_done.
    - intros Ef. by destruct (Hfin' Ef).
    - by apply quiet_tx. }
  destruct (state cb) eqn:Es; try (by apply Hopen); wp_steps; apply HQ; try done; apply tx_ext_refl.
Qed.

(** Consuming the FIN: everything before it was received, and it fits the window. *)
Lemma wp_process_fin env A T g U (cb : CB) tr (Q : unit -> CB -> list effect -> Prop) :
  conn_inv A 0 T g U cb -> data_open (state cb) = true -> A + blen (unread cb) = blen S ->
  blen S + 1 <= A + receive_buffer_size cb ->
  (forall cb' tr', conn_inv A 1 T g U cb' -> unread cb' = unread cb -> fin_received (state cb') = true ->
     user_is_done_sending cb' = user_is_done_sending cb ->
     tx_ext T (user_is_done_sending cb) tr tr' -> Q tt cb' tr') ->
  wp (process_fin env) Q cb tr.
Proof.
  intros [HR HS] Ho Hall Hfit HQ. unfold process_fin, disable_stats. wp_steps.
  set (rc := mkReceiver _ _ _).
  assert (Hto : forall s', fin_received s' = true -> may_send s' = may_send (state cb) ->
    (fin_sent s' = true -> fin_sent (state cb) = true) -> fin_acked s' = fin_acked (state cb) ->
    wp (send_ack env) Q (set_state s' (set_receiver rc cb)) (tr ++ [StatsDisable])).
  { intros s' Hf Hm Hs Ha.
    assert (Hu : unread (set_state s' (set_receiver rc cb)) = unread cb) by done.
    eapply (wp_send_ack_conn S b c env A 1 T g U).
    - split.
      + destruct HR. constructor; rewrite ?Hu; subst rc; fields; try done; try lia.
        * rewrite ri_next, seq_add_assoc. f_equal. lia.
        * intros Hd. by destruct s'.
      + destruct HS. constructor; fields; rewrite ?Hm, ?Ha; auto.
    - intros cb' tr' HI' Hv Hv' Htx. apply HQ; try done.
      + apply recv_view_unread in Hv'. congruence.
      + apply recv_view_state in Hv'. rewrite Hv'. done.
      + apply tx_view_done in Hv. done.
      + eapply tx_ext_trans; [|exact Htx]. by apply tx_ext_one. }
  fields. destruct (state cb) eqn:Es; try done; wp_steps; by apply Hto.
Qed.

(** A segment beyond RCV.NXT: its data and FIN are stored, and acknowledged at once. *)
Lemma wp_process_out_of_order env A f T g U (cb : CB) tr w q (Q : unit -> CB -> list effect -> Prop) :
  conn_inv A f T g U cb -> TcpHeader.syn (iw_header w) = false ->
  win_ok S b (A + blen (unread cb) + f) (receive_buffer_size cb - (blen (unread cb) + f)) q w ->
  (forall cb' tr', conn_inv A f T g U cb' -> unread cb' = unread cb -> state cb' = state cb ->
     user_is_done_sending cb' = user_is_done_sending cb ->
     tx_ext T (user_is_done_sending cb) tr tr' -> Q tt cb' tr') ->
  wp (process_out_of_order env w) Q cb tr.
Proof.
  intros HI Hsyn Hw HQ. pose proof HI as [HR HS]. pose proof (blen_nonneg (unread cb)).
  assert (Hsame : Q tt cb tr) by (apply HQ; try done; apply tx_ext_refl).
  unfold process_out_of_order. destruct (Z.ltb_spec 0 (seg_len w)) as [Hpos|]; [|by wp_steps].
  wp_steps. destruct Hw. rewrite Hsyn in *. specialize (wo_at eq_refl). specialize (wo_end Hpos). specialize (wo_fit Hpos).
  cbn [Z.b2z] in wo_len. pose proof (blen_nonneg (iw_data w)) as Hdn.
  assert (Hq0 : 0 <= q) by (pose proof (ri_A _ _ _ _ _ HR); destruct (ri_f _ _ _ _ _ HR); lia).
  assert (Hack : forall cb1 : CB, recv_inv A f cb1 -> send_view cb = send_view cb1 -> unread cb1 = unread cb ->
    wp (send_ack env) Q cb1 tr).
  { intros cb1 HR1 Hv1 Hu1. eapply (wp_send_ack_conn S b c env A f T g U).
    - split; [done|]. by eapply send_inv_view.
    - intros cb' tr' HI' Hv Hv' Htx. unfold send_view in Hv1.
      apply HQ; [done| | | |].
      + apply recv_view_unread in Hv'. congruence.
      + apply recv_view_state in Hv'. congruence.
      + apply tx_view_done in Hv. congruence.
      + replace (user_is_done_sending cb) with (user_is_done_sending cb1) by congruence. done. }
  assert (Hstore : forall cb1 : CB, recv_inv A f cb1 -> send_view cb = send_view cb1 -> unread cb1 = unread cb ->
    receive_buffer_size cb1 = receive_buffer_size cb ->
    wp (when (0 <? blen (iw_data w))
          (store_out_of_order_segment (seg_start w) (b ⊕ (q + blen (iw_data w) - 1)) (iw_data w)))
       (fun _ => wp (send_ack env) Q) cb1 tr).
  { intros cb1 HR1 Hv1 Hu1 Hb1. unfold when.
    destruct (Z.ltb_spec 0 (blen (iw_data w))) as [Hd|]; [|wp_steps; by apply Hack].
    unfold store_out_of_order_segment. wp_steps.
    destruct (store_passes_ok S b short (A + receive_buffer_size cb1) (Datatypes.S (length (out_of_order cb1)))
      (out_of_order cb1) (seg_start w) (b ⊕ (q + blen (iw_data w) - 1)) (iw_data w)) as (store' & Est & Hst').
    - by destruct HR1.
    - exists q. split; [done|]. split; [done|]. split; [done|].
      split; [by apply blen_pos_ne|]. split; [done|].
      assert (0 <= Z.b2z (TcpHeader.fin (iw_header w))) by (by destruct (TcpHeader.fin _)). lia.
    - lia.
    - eapply wp_lift; [exact Est|]. wp_steps. apply Hack; [|done|done].
      destruct HR1. by constructor. }
  assert (Hopen : wp ('(len, end_) ←
     (if TcpHeader.fin (iw_header w) then
        _ ← store_out_of_order_fin (seg_end w); mret (wrap32 (seg_len w - 1), seg_end w ⊖ 1)
      else mret (seg_len w, seg_end w));
     _ ← when (0 <? len) (store_out_of_order_segment (seg_start w) end_ (iw_data w)); send_ack env) Q cb tr).
  { wp_step. destruct (TcpHeader.fin (iw_header w)) eqn:Ef; cbn [Z.b2z] in wo_len.
    - specialize (wo_fin eq_refl eq_refl). unfold store_out_of_order_fin. wp_steps. cbv beta iota.
      rewrite wrap32_small by (unfold u32_ok; lia). replace (seg_len w - 1) with (blen (iw_data w)) by lia.
      replace (seg_end w ⊖ 1) with (b ⊕ (q + blen (iw_data w) - 1)).
      2:{ rewrite wo_end. unfold Seq.sub, Seq.add. rewrite wrap32_sub_l. f_equal. lia. }
      apply Hstore; try done. destruct HR. constructor; fields; try done.
      intros s [= <-]. split; [rewrite wo_end; f_equal; lia|lia].
    - wp_steps. cbv beta iota. rewrite wo_end. replace (seg_len w) with (blen (iw_data w)) by lia. by apply Hstore. }
  destruct (state cb) eqn:Es; try exact Hopen; by wp_steps.
Qed.

Lemma wp_schedule_ack env A f T g U (cb : CB) tr (Q : unit -> CB -> list effect -> Prop) :
  conn_inv A f T g U cb ->
  (forall cb' tr', conn_inv A f T g U cb' -> unread cb' = unread cb -> state cb' = state cb ->
     user_is_done_sending cb' = user_is_done_sending cb ->
     tx_ext T (user_is_done_sending cb) tr tr' -> Q tt cb' tr') ->
  wp (schedule_ack env) Q cb tr.
Proof.
  intros HI HQ. unfold schedule_ack. wp_steps. destruct (ack_deadline cb); wp_steps.
  - eapply (wp_send_ack_conn S b c env A f T g U); [by apply (conn_inv_view S b c A f T g U cb)|].
    intros cb' tr' HI' Hv Hv' Htx. apply HQ; [done| | |by apply tx_view_done in Hv|done].
    + by apply recv_view_unread in Hv'.
    + by apply recv_view_state in Hv'.
  - apply HQ; try done; [by apply (conn_inv_view S b c A f T g U cb)|apply tx_ext_refl].
Qed.

(** What is assumed of an arriving segment: it comes from the peer's stream, its fields have
    their widths, its acknowledgement number is not exactly 2^31 ahead of SND.UNA, it is not a SYN
    at the edge of a closed window, and a connection that is already closed gets no FIN it has not
    consumed before. *)
Record segment_ok (p : Z) (h : TcpHeader.t) (data : Buffer.t) (cb : CB) : Prop := {
  so_at : seg_at S b p h data;
  so_window : u16_ok (TcpHeader.window_size h);
  so_ack : u32_ok (TcpHeader.ack_num h);
  so_half : TcpHeader.ack_num h ⊖ send_unacked (sender cb) <> 2^31;
  so_syn : TcpHeader.syn h = true -> TcpHeader.seq_num h = receive_next (receiver cb) ->
           get_receive_window_size cb <> 0;
  so_closed : state cb = Closed -> TcpHeader.fin h = true ->
              receive_next (receiver cb) = b ⊕ (blen S + 1)
}.

(** A FIN in the window at RCV.NXT: the stream is complete, and the state is open. *)
Lemma fin_due A f T g U (cb cb2 : CB) w :
  conn_inv A f T g U cb -> TcpHeader.syn (iw_header w) = false -> TcpHeader.fin (iw_header w) = true ->
  win_ok S b (A + blen (unread cb) + f) (receive_buffer_size cb - (blen (unread cb) + f))
    (A + blen (unread cb) + f) w ->
  conn_inv A f T g U cb2 -> state cb2 = state cb -> state cb <> Closed ->
  (if data_open (state cb) then unread cb ++ iw_data w else unread cb) `prefix_of` unread cb2 ->
  receive_buffer_size cb2 = receive_buffer_size cb ->
  f = 0 /\ data_open (state cb2) = true /\ A + blen (unread cb2) = blen S /\
  blen S + 1 <= A + receive_buffer_size cb2.
Proof.
  intros [HR HS] Hsyn Hfin Hw [HR2 HS2] Hst Hnc Hpre Hb. destruct Hw. rewrite Hsyn, Hfin in *.
  specialize (wo_fin eq_refl eq_refl). cbn [Z.b2z] in wo_len. pose proof (blen_nonneg (iw_data w)).
  assert (Ho : data_open (state cb) = true).
  { destruct (state cb) eqn:Es; try done;
      (assert (f = 1) as -> by (apply (ri_closed _ _ _ _ _ HR); by rewrite Es));
      pose proof (ri_fin _ _ _ _ _ HR eq_refl); lia. }
  pose proof (ri_open _ _ _ _ _ HR Ho) as ->. rewrite Ho in Hpre. destruct Hpre as [l Hl].
  pose proof (ri_bound _ _ _ _ _ HR2) as Hbd. rewrite Hl, !blen_app in *. pose proof (blen_nonneg l).
  specialize (wo_fit ltac:(lia)). rewrite Hst, Hb. split; [done|]. split; [done|]. lia.
Qed.

(** The segments that close a connection without consuming the peer's FIN. *)
Definition aborts (h : TcpHeader.t) : Prop := TcpHeader.rst h = true \/ TcpHeader.syn h = true.

(** The main routine keeps the invariant of both directions and always returns. *)
Lemma wp_receive env A f T g U p (cb : CB) tr h data (Q : unit -> CB -> list effect -> Prop) :
  env_ok env -> conn_inv A f T g U cb -> segment_ok p h data cb ->
  (forall f' U' cb' tr', conn_inv A f' T g U' cb' -> f <= f' -> U <= U' ->
     unread cb `prefix_of` unread cb' -> user_is_done_sending cb' = user_is_done_sending cb ->
     (state cb' = Closed -> state cb = Closed \/ f' = 1 \/ aborts h) ->
     tx_ext T (user_is_done_sending cb) tr tr' -> Q tt cb' tr') ->
  wp (receive env h data) Q cb tr.
Proof.
  intros Henv HI [Hat Hwin Hack Hhalf Hsyn0 Hclosed] HQ. pose proof HI as [HR HS].
  unfold receive. wp_steps. eapply (wp_check_window S b short env A f p); [done|done|done| | |].
  { wp_steps. apply (HQ f U); try done; [by left|apply tx_ext_refl]. }
  { intros seg Hseg. wp_steps. apply (HQ f U); try done; [by apply (conn_inv_view S b c A f T g U cb)|by left|].
    apply tx_ext_one. by eapply pure_ack_tx. }
  intros w q Hw (Hrst & Hackf & Hackn & _ & Hwinf & Hsynf & Hfinf).
  wp_if E1.
  { eapply wp_process_rst; [done|]. intros cb' tr' HI' _ Hu Hd Htx. apply (HQ f U); try done; [by rewrite Hu|].
    intros _. right. right. left. by rewrite <- Hrst. }
  wp_if E2; [wp_steps; apply (HQ f U); try done; [by apply closed_inv|intros _; right; right; right; by apply Hsynf|apply tx_ext_refl]|].
  wp_if E3; [wp_steps; apply (HQ f U); try done; [by left|apply tx_ext_refl]|].
  wp_step. eapply (wp_process_ack S b c env A f T g U); [done|done|by rewrite Hwinf|by rewrite Hackn|by rewrite Hackn|].
  intros cont U1 cb1 tr1 HI1 HU1 (Fd & Fu & Fb & Fr & Fc & Fo) Htx1. cbv beta.
  assert (Hcl : state cb1 = Closed -> state cb = Closed \/ f = 1 \/ aborts h).
  { intros Ec. destruct (Fc Ec) as [Es|Es]; [right; left|by left]. apply (ri_closed _ _ _ _ _ HR). by rewrite Es. }
  destruct cont; [|wp_steps; apply (HQ f U1); try done; by rewrite Fu].
  assert (Hseq : (seg_start w =? receive_next (receiver cb)) = (q =? A + blen (unread cb) + f)).
  { destruct Hw, HR. rewrite wo_start, ri_next. pose proof (blen_nonneg (unread cb)). apply seq_eqb_window. lia. }
  rewrite Hseq. clear Hseq. rewrite <- Fu, <- Fb in Hw. rewrite <- Fu.
  destruct (Z.eqb_spec q (A + blen (unread cb1) + f)) as [->|Hne]; cbn [negb].
  2:{ eapply (wp_process_out_of_order env A f T g U1); [done|done|exact Hw|].
      intros cb2 tr2 HI2 Hu2 Hs2 Hd2 Htx2. apply (HQ f U1); try done.
      - by rewrite Hu2, Fu.
      - congruence.
      - by rewrite Hs2.
      - eapply tx_ext_trans; [exact Htx1|]. by rewrite <- Fd. }
  wp_step. eapply (wp_process_text A f T g U1); [done|done|exact Hw|].
  intros sched fin cb2 tr2 HI2 Hs2 Hp2 Hb2 Hd2 Hf2 Htx2. cbv beta iota.
  assert (Hpre : unread cb `prefix_of` unread cb2).
  { rewrite <- Fu. etrans; [|exact Hp2]. destruct (data_open _); [by eexists|done]. }
  assert (Htx : tx_ext T (user_is_done_sending cb) tr tr2) by (eapply tx_ext_trans; [exact Htx1|]; by rewrite <- Fd).
  wp_if E4.
  - assert (Hdue : f = 0 /\ data_open (state cb2) = true /\ A + blen (unread cb2) = blen S /\
                   blen S + 1 <= A + receive_buffer_size cb2).
    { destruct fin; [destruct (Hf2 eq_refl) as (? & ? & ? & ?); by rewrite Hs2|].
      rewrite orb_false_r in E4. eapply (fin_due A f T g U1 cb1); try done.
      intros Ecl. assert (f = 1) as ->.
      { destruct (Fc Ecl) as [Es|Es]; [apply (ri_closed _ _ _ _ _ HR); by rewrite Es|].
        specialize (Hclosed Es (Hfinf E4)). destruct HR. rewrite ri_next in Hclosed.
        pose proof (blen_nonneg (unread cb)). pose proof (blen_nonneg S). apply seq_add_inj in Hclosed; unfold u32_ok; lia. }
      pose proof (ri_fin _ _ _ _ _ HR eq_refl). destruct Hw. specialize (wo_fin E4 E2).
      pose proof (blen_nonneg (iw_data w)). rewrite Fu in *. lia. }
    destruct Hdue as (-> & Ho & Hall & Hfit). eapply (wp_process_fin env A T g U1); [done|done|done|done|].
    intros cb3 tr3 HI3 Hu3 _ Hd3 Htx3. apply (HQ 1 U1); try done; try lia.
    + by rewrite Hu3.
    + congruence.
    + eapply tx_ext_trans; [exact Htx|]. by rewrite <- Fd, <- Hd2.
  - rewrite <- Hs2 in Hcl. unfold when. destruct sched; [|wp_steps; apply (HQ f U1); try done; congruence].
    eapply (wp_schedule_ack env A f T g U1); [done|].
    intros cb3 tr3 HI3 Hu3 Hs3 Hd3 Htx3. apply (HQ f U1); try done.
    + by rewrite Hu3.
    + congruence.
    + by rewrite Hs3.
    + eapply tx_ext_trans; [exact Htx|]. by rewrite <- Fd, <- Hd2.
Qed.

(** ** All entry points, in any order *)

(** What can happen to an established connection. *)
Inductive event :=
| EvSegment (header : TcpHeader.t) (data : Buffer.t)
| EvRead
| EvSend (buf : Buffer.t)
| EvClose
| EvAcknowledger
| EvRetransmitter
| EvSender (window_changed timeout_expired : bool).

(** The connection, its background sender, and what the application has read and written. *)
Record world := mkWorld {
  w_cb : CB;
  w_pc : SenderPc;
  w_read : list Z;
  w_written : list Z;
  w_trace : list effect
}.

(** One event; a panic or a loop without end is the outcome. *)
Definition step (env : Env) (ev : event) (w : world) : outcome world :=
  let cb := w_cb w in
  let tr := w_trace w in
  match ev with
  | EvSegment h data =>
      '(_, cb, tr) ← receive env h data cb tr;
      Ret (mkWorld cb (w_pc w) (w_read w) (w_written w) tr)
  | EvRead =>
      '(r, cb, tr) ← poll_recv cb tr;
      Ret (mkWorld cb (w_pc w) (w_read w ++ default [] r) (w_written w) tr)
  | EvSend buf =>
      '(r, cb, tr) ← send env buf cb tr;
      Ret (mkWorld cb (w_pc w) (w_read w)
             (match r with Ok _ => w_written w ++ buf | Err _ => w_written w end) tr)
  | EvClose =>
      '(_, cb, tr) ← close env cb tr;
      Ret (mkWorld cb (w_pc w) (w_read w) (w_written w) tr)
  | EvAcknowledger =>
      '(_, cb, tr) ← acknowledger env cb tr;
      Ret (mkWorld cb (w_pc w) (w_read w) (w_written w) tr)
  | EvRetransmitter =>
      '(_, cb, tr) ← retransmitter env cb tr;
      Ret (mkWorld cb (w_pc w) (w_read w) (w_written w) tr)
  | EvSender changed expired =>
      match w_pc w with
      | SenderTop =>
          '(r, cb, tr) ← sender_top env cb tr;
          Ret (mkWorld cb (fst r) (w_read w) (w_written w) tr)
      | SenderPersist link probe seq t =>
          '(pc, cb, tr) ← sender_persist changed expired link probe seq t cb tr;
          Ret (mkWorld cb pc (w_read w) (w_written w) tr)
      end
  end.

(** What is assumed of an event. *)
Definition event_ok (ev : event) (w : world) : Prop :=
  match ev with
  | EvSegment h data => exists p, segment_ok p h data (w_cb w)
  | EvSend buf => buf <> [] /\ blen buf <= 2^30
  | EvClose => (length (unsent_queue (sender (w_cb w))) <= UNSENT_QUEUE_CUTOFF)%nat
  | EvSender _ _ => w_pc w = SenderTop -> probe_ok (w_cb w)
  | _ => True
  end.

(** A connection as the handshake leaves it. *)
Definition start_ok (cb : CB) : Prop :=
  exists local remote link off delay bufsz wscale win scale mss cc_constructor,
    cb = ControlBlock_new local remote link off b delay bufsz wscale c win scale mss cc_constructor /\
    cc_ok (cc_constructor mss c) /\
    u32_ok b /\ u32_ok c /\ 0 <= bufsz <= 2^30 /\ 0 <= wscale /\ Z.shiftr bufsz wscale <= U16_MAX /\
    0 <= win <= 2^30 /\ 0 <= scale <= 14 /\ 1 <= mss.

Inductive reachable : world -> Prop :=
| reach_start cb : start_ok cb -> reachable (mkWorld cb SenderTop [] [] [])
| reach_step w env ev w' :
    reachable w -> env_ok env -> event_ok ev w -> step env ev w = Ret w' -> reachable w'.

(** The invariant of the whole.  Unless the peer aborts connections ([K]), a connection is closed
    only after the peer's FIN was consumed. *)
Definition world_inv (K : Prop) (w : world) : Prop :=
  exists f g U, conn_inv (blen (w_read w)) f (w_written w) g U (w_cb w) /\
    at_pos S 0 (w_read w) /\ pc_ok c (w_written w) (w_pc w) /\
    Forall (tx_ok S b (w_written w) (user_is_done_sending (w_cb w)) c) (w_trace w) /\
    (state (w_cb w) = Closed -> K \/ f = 1).

(** What the application has written only grows, and not after [close]. *)
Definition written_grows (w w' : world) : Prop :=
  w_written w `prefix_of` w_written w' /\
  (user_is_done_sending (w_cb w) = true ->
     w_written w' = w_written w /\ user_is_done_sending (w_cb w') = true).

Definition event_aborts (ev : event) : Prop :=
  match ev with EvSegment h _ => aborts h | _ => False end.

Lemma start_inv K cb : start_ok cb -> world_inv K (mkWorld cb SenderTop [] [] []).
Proof.
  intros (lo & re & li & off & del & bs & ws & win & sc & ms & cns & -> & Hcc & Hb & Hc & Hbs & Hws & Hsh & Hwin & Hsc & Hms).
  exists 0, 0, 0. split; [split|split; [apply at_pos_nil|split; [done|split; [constructor|done]]]].
  - constructor; cbn -[Z.pow]; rewrite ?seq_add_0 by done; try done; try lia;
      first [apply at_pos_nil | apply blen_nonneg | change (blen (@nil Z)) with 0; lia | constructor].
  - constructor; cbn -[Z.pow]; rewrite ?seq_add_0 by done; try done; try lia;
      first [constructor | apply rto_new_wf | intros Hf; by apply Exists_nil in Hf].
Qed.

Lemma tx_ext_Forall T d tr tr' :
  Forall (tx_ok S b T d c) tr -> tx_ext T d tr tr' -> Forall (tx_ok S b T d c) tr'.
Proof. intros H (ext & -> & He). by apply Forall_app. Qed.

(** Turn a [wp] fact into the outcome of a step. *)
Lemma step_of_wp {A} (m : M A) (k : A -> CB -> list effect -> world) (cb : CB) tr (P : world -> Prop) :
  wp m (fun a cb' tr' => P (k a cb' tr')) cb tr ->
  exists w', ('(a, cb', tr') ← m cb tr; Ret (k a cb' tr')) = Ret w' /\ P w'.
Proof. intros (a & cb' & tr' & E & HP)%wp_run. rewrite E. cbn. by eexists. Qed.

(** Every event that is admissible in a state with the invariant has an outcome, again with the
    invariant. *)
Lemma step_inv K env ev w :
  env_ok env -> world_inv K w -> event_ok ev w -> (event_aborts ev -> K) ->
  exists w', step env ev w = Ret w' /\ world_inv K w' /\ written_grows w w'.
Proof.
  intros Henv (f & g & U & HI & Hread & Hpc & Htr & Hcl) Hev HK. destruct w as [cb pc rd T tr]. cbn in *.
  assert (Hkeep : forall pc' cb' tr', conn_inv (blen rd) f T g U cb' -> pc_ok c T pc' ->
    user_is_done_sending cb' = user_is_done_sending cb -> stays_open cb cb' ->
    tx_ext T (user_is_done_sending cb) tr tr' ->
    world_inv K (mkWorld cb' pc' rd T tr') /\ written_grows (mkWorld cb pc rd T tr) (mkWorld cb' pc' rd T tr')).
  { intros pc' cb' tr' HI' Hpc' Hd Hop Htx. split; [|by split; [|cbn; rewrite Hd]].
    exists f, g, U. cbn. rewrite Hd. do 3 (split; [done|]). split; [by eapply tx_ext_Forall|]. auto. }
  assert (Hsame : world_inv K (mkWorld cb pc rd T tr) /\
    written_grows (mkWorld cb pc rd T tr) (mkWorld cb pc rd T tr)) by (apply Hkeep; [done|done|done|by intros ?|apply tx_ext_refl]).
  destruct ev as [h data| |buf| | | |changed expired]; cbn in Hev; unfold step; cbn [w_cb w_pc w_read w_written w_trace].
  - destruct Hev as [p Hseg]. eapply step_of_wp, (wp_receive env (blen rd) f T g U p); [done|done|done|].
    intros f' U' cb' tr' HI' Hf' _ _ Hd Hc' Htx. split; [|by split; [|cbn; rewrite Hd]].
    exists f', g, U'. cbn. rewrite Hd.
    do 3 (split; [done|]). split; [by eapply tx_ext_Forall|].
    intros Ec. destruct (Hc' Ec) as [E|[E|E]]; [|by right|left; by apply HK].
    destruct (Hcl E) as [|E1]; [by left|right]. destruct HI' as [[] _]. lia.
  - eapply step_of_wp, (wp_poll_recv S b (blen rd) f cb); [apply HI| |].
    + intros _ HR'. cbn. rewrite app_nil_r. apply Hkeep; [|done|done|by intros ?|apply tx_ext_refl].
      split; [done|]. eapply send_inv_view; [|apply HI]. done.
    + intros buf cb' tr' HR' Hat Hu Hcb Htr'. cbn.
      assert (Hv : send_view cb = send_view cb' /\ user_is_done_sending cb' = user_is_done_sending cb /\
        state cb' = state cb) by (rewrite Hcb; done). destruct Hv as (Hv & Hd & Hs).
      split; [|by split; [|cbn; rewrite Hd]]. exists f, g, U. cbn. rewrite blen_app.
      split; [split; [done|eapply send_inv_view; [|apply HI]; apply Hv]|]. split.
      * apply at_pos_app; [lia|]. done.
      * split; [done|]. rewrite Hd, Hs, Htr'. split; [|done]. apply Forall_app. split; [done|]. by repeat constructor.
  - destruct Hev as [Hne Hb]. eapply step_of_wp, (wp_send S b c env (blen rd) f T g U cb tr buf false); try done.
    intros g' cb' tr' Hnd HR' HS' Hd' Hop Htx. split; [|split; [by eexists|cbn; congruence]].
    exists f, g', U. cbn. rewrite Hd'. rewrite Hnd in Htr.
      split; [split; [done|]|].
      { eapply send_inv_view; [|exact HS']. unfold send_view. cbn. by rewrite Hd'. }
      split; [done|]. split; [by apply pc_ok_grow|]. split; [|by auto]. eapply tx_ext_Forall; [|exact Htx].
      eapply Forall_impl; [exact Htr|]. intros e. apply tx_ok_grow.
  - eapply step_of_wp, (wp_close S b c env (blen rd) f T g U); [done|done|done|].
    intros g' cb' tr' HI' Hd Hop Htx. split; [|by split].
    exists f, g', U. cbn. rewrite Hd. do 3 (split; [done|]). split; [|by auto].
    eapply tx_ext_Forall; [|exact Htx]. eapply Forall_impl; [exact Htr|]. intros e. apply tx_ok_done.
  - eapply step_of_wp, (wp_acknowledger S b c env (blen rd) f T g U); [done|]. intros. by apply Hkeep.
  - eapply step_of_wp, (wp_retransmitter S b c env (blen rd) f T g U); [done|]. intros. by apply Hkeep.
  - destruct pc as [|link probe seq t].
    + eapply step_of_wp, (wp_sender_top S b c env (blen rd) f T g U); [done|done|by apply Hev|].
      intros. by apply Hkeep.
    + eapply step_of_wp, (wp_sender_persist S b c changed expired (blen rd) f T g U); [done|done|].
      intros. by apply Hkeep.
Qed.

Lemma reachable_inv w : reachable w -> world_inv True w.
Proof.
  induction 1 as [cb Hcb|w env ev w' _ IH Henv Hev Hstep]; [by apply start_inv|].
  destruct (step_inv True env ev w Henv IH Hev (fun _ => I)) as (w'' & E & Hw & _). congruence.
Qed.

(** A sequence of events, each admissible when it happens. *)
Fixpoint run_ok (evs : list (Env * event)) (w : world) : Prop :=
  match evs with
  | [] => True
  | (env, ev) :: evs =>
      env_ok env /\ event_ok ev w /\ match step env ev w with Ret w' => run_ok evs w' | _ => True end
  end.

Fixpoint run (evs : list (Env * event)) (w : world) : outcome world :=
  match evs with
  | [] => Ret w
  | (env, ev) :: evs => w' ← step env ev w; run evs w'
  end.

Lemma run_reachable evs w w' : reachable w -> run_ok evs w -> run evs w = Ret w' -> reachable w'.
Proof.
  revert w. induction evs as [|[env ev] evs IH]; intros w Hw Hok Hrun; [by simplify_eq/=|].
  destruct Hok as (Henv & Hev & Hok). cbn in Hrun. destruct (step env ev w) as [w1| |] eqn:E; try done.
  eapply IH; [|exact Hok|exact Hrun]. by eapply reach_step.
Qed.

(** Any sequence of admissible events runs to its end from a state with the invariant. *)
Lemma run_inv evs w :
  world_inv True w -> run_ok evs w -> exists w', run evs w = Ret w' /\ world_inv True w'.
Proof.
  revert w. induction evs as [|[env ev] evs IH]; intros w Hw Hok; [by exists w|].
  destruct Hok as (Henv & Hev & Hok). destruct (step_inv True env ev w Henv Hw Hev (fun _ => I)) as (w1 & E & Hw1 & _).
  rewrite E in Hok. destruct (IH w1 Hw1 Hok) as (w2 & E2 & Hw2). exists w2. cbn. by rewrite E.
Qed.

Lemma world_prefix K w : world_inv K w -> (w_read w ++ unread (w_cb w)) `prefix_of` S.
Proof.
  intros (f & g & U & [HR _] & Hread & _).
  apply at_pos_prefix, at_pos_app; [lia|]. split; [done|]. by destruct HR.
Qed.

(** Once the peer's FIN is consumed, its whole stream has arrived. *)
Lemma world_complete K w : world_inv K w -> fin_received (state (w_cb w)) = true -> w_read w ++ unread (w_cb w) = S.
Proof.
  intros Hw Hf. destruct (world_prefix K w Hw) as [l Hl]. destruct Hw as (f & g & U & [HR _] & _).
  pose proof (ri_closed _ _ _ _ _ HR Hf) as ->. pose proof (ri_fin _ _ _ _ _ HR eq_refl) as Hall.
  apply (f_equal blen) in Hl as Hb. rewrite !blen_app in Hb.
  assert (l = []) as -> by (destruct l; [done|]; rewrite blen_cons in Hb; pose proof (blen_nonneg l); lia).
  by rewrite app_nil_r in Hl.
Qed.

End receive.

Arguments step {C _} env ev w.
Arguments world C : clear implicits.

(** ** A concrete run: the peer's first bytes cross the wrap of the sequence space *)

Module ConnectionExample.

Definition S : list Z := [10; 20; 30].
Definition b : Z := 4294967294.
Definition c : Z := 7.
Definition here : SocketAddrV4 := mkAddr 3232235521 80.
Definition there : SocketAddrV4 := mkAddr 3232235522 4000.
Definition env : Env := mkEnv 1000 (fun _ => Some [2; 0; 0; 0; 0; 1]).
Definition cb0 : ControlBlock CcNone :=
  ControlBlock_new here there [2; 0; 0; 0; 0; 2] false b 5000000 65535 0 c 65535 0 1450 CcNone_new.
Definition header (pos : Z) (fin : bool) : TcpHeader.t :=
  TcpHeader.set_fin (TcpHeader.set_ack (TcpHeader.set_seq_num (TcpHeader.set_window_size
    (TcpHeader.new 4000 80) 1000) (b ⊕ pos)) c) fin.

(** The last byte and the FIN arrive first; the application writes, reads and closes. *)
Definition events : list (Env * event) :=
  [(env, EvSegment (header 2 true) [30]); (env, EvSegment (header 0 false) [10; 20]);
   (env, EvSend [1; 2; 3]); (env, EvRead); (env, EvRead); (env, EvRetransmitter); (env, EvClose);
   (env, EvSender false false)].

Lemma start : start_ok b c cb0.
Proof.
  eexists _, _, _, _, _, _, _, _, _, _, CcNone_new. split; [reflexivity|]. split; [exact I|].
  repeat split; vm_compute; congruence.
Qed.

Lemma at_pos_b p buf : bool_decide (buf `prefix_of` drop (Z.to_nat p) S) = true -> at_pos S p buf.
Proof.
  intros [k Hk]%bool_decide_eq_true i x Hi. rewrite <- (lookup_drop S), Hk. by apply lookup_app_l_Some.
Qed.

Ltac next_event :=
  cbn [run_ok]; split; [vm_compute; split; congruence|split;
    [|match goal with |- match ?s with _ => _ end =>
        let v := eval vm_compute in s in replace s with v by (vm_compute; reflexivity) end]].
Ltac segment_at p :=
  exists p; constructor;
    [split; [by vm_compute|split; [vm_compute; split; congruence|split; [apply at_pos_b|]; by vm_compute]]
    |vm_compute; split; congruence|vm_compute; split; congruence|by vm_compute|by vm_compute|by vm_compute].

Lemma run_events_ok : run_ok S b events (mkWorld cb0 SenderTop [] [] []).
Proof.
  unfold events. next_event; [segment_at 2|]. next_event; [segment_at 0|].
  next_event; [split; vm_compute; congruence|]. next_event; [done|]. next_event; [done|].
  next_event; [done|]. next_event; [vm_compute; lia|]. next_event; [by vm_compute|]. done.
Qed.

End ConnectionExample.

(** ** Properties *)

Section properties.
Context {C : Type} `{!CongestionControl C, !CongestionControlLaws C}.
Context (S : list Z) (b c : Z).

(** C6: an established connection never panics and never loops.  After any sequence of admissible
    events (segments of the peer's stream in any order, duplicated or overlapping, reads, writes,
    close, timers and turns of the background sender), every further admissible event returns. *)
Theorem connection_never_panics (w : world C) (env : Env) (ev : event) :
  blen S < 2^31 - 4 -> reachable S b c w -> env_ok env -> event_ok S b ev w ->
  exists w', step env ev w = Ret w'.
Proof.
  intros Hs Hw Henv Hev.
  destruct (step_inv S b c Hs True env ev w Henv (reachable_inv S b c Hs w Hw) Hev (fun _ => I)) as (w' & E & _). by exists w'.
Qed.

(** C5: what the application reads is what the peer sent.  In every reachable state the bytes
    handed over by [poll_recv] so far, followed by the bytes still in the receive queue, are a
    prefix of the peer's stream: nothing is lost, duplicated, reordered or invented. *)
Theorem delivered_bytes_are_a_prefix (w : world C) :
  blen S < 2^31 - 4 -> reachable S b c w -> (w_read w ++ unread (w_cb w)) `prefix_of` S.
Proof.
  intros Hs Hw. apply (world_prefix S b c True). by apply reachable_inv.
Qed.

(** C7: what the connection transmits is what the application wrote.  As long as no window probe
    takes the only byte of its buffer (the code would send what is left as a FIN) and no close finds
    more than 1024 buffers unsent (the code panics), every segment handed to
    the runtime, first transmissions, retransmissions, window probes and acknowledgements, carries
    the bytes of the accepted writes at the position its sequence number says, and a FIN is sent
    only after [close], at the position after the last byte; it acknowledges a part of the peer's
    stream and its window fits its field. *)
Theorem transmitted_segments_carry_the_stream (w : world C) (segment : TcpSegment) :
  blen S < 2^31 - 4 -> reachable S b c w -> Transmit segment ∈ w_trace w ->
  ack_header S b (tcp_hdr segment) /\
  exists pos, 0 <= pos <= blen (w_written w) + 1 /\ TcpHeader.seq_num (tcp_hdr segment) = c ⊕ pos /\
    at_pos (w_written w) pos (default [] (data segment)) /\
    (TcpHeader.fin (tcp_hdr segment) = true ->
       user_is_done_sending (w_cb w) = true /\ pos = blen (w_written w) /\ default [] (data segment) = []).
Proof.
  intros Hs (f & g & U & _ & _ & _ & Htr & _)%reachable_inv Hin; [|done].
  rewrite Forall_forall in Htr. exact (Htr _ Hin).
Qed.

(** C11: the connection state tells what was exchanged.  In the states entered by consuming the
    peer's FIN the whole of its stream was read or waits in the receive queue; in FIN-WAIT-2 and
    TIME-WAIT everything the application wrote and our FIN are acknowledged and both send queues
    are empty; and while the state is ESTABLISHED or CLOSE-WAIT no FIN is in flight.  The run has no
    window probe that takes the only byte of its buffer (the code would send what is left as a FIN) and
    no close with more than 1024 buffers unsent (the code panics). *)
Theorem states_mean_what_they_say (w : world C) :
  blen S < 2^31 - 4 -> reachable S b c w ->
  (fin_received (state (w_cb w)) = true -> w_read w ++ unread (w_cb w) = S) /\
  (fin_acked (state (w_cb w)) = true ->
     send_unacked (sender (w_cb w)) = c ⊕ (blen (w_written w) + 1) /\
     unacked_queue (sender (w_cb w)) = [] /\ unsent_queue (sender (w_cb w)) = []) /\
  (may_send (state (w_cb w)) = true ->
     Forall (fun s => bytes s <> []) (unacked_queue (sender (w_cb w)))).
Proof.
  intros Hs Hw%reachable_inv; [|done]. split; [by apply (world_complete S b c True)|].
  destruct Hw as (f & g & U & [HR HS] & Hread & _). split.
  - intros Ha. destruct HS. specialize (si_acked Ha).
    assert (g = 1) as -> by (apply si_closed; by destruct (state (w_cb w))).
    destruct (si_fin eq_refl) as [Hu _]. rewrite Hu in si_total. change (blen (concat [])) with 0 in si_total.
    split; [congruence|]. split; [|done].
    destruct (unacked_queue (sender (w_cb w))) as [|s q]; [done|]. cbn [flight] in si_total.
    pose proof (seglen_pos (bytes s)). pose proof (flight_nonneg q). lia.
  - intros Hm. destruct HS. specialize (si_open Hm). apply Forall_forall. intros s Hin E.
    assert (g = 1); [|lia]. apply si_fin_q. apply Exists_exists. by exists s.
Qed.

End properties.

Lemma connection_never_panics_witness :
  reachable ConnectionExample.S ConnectionExample.b ConnectionExample.c
    (mkWorld ConnectionExample.cb0 SenderTop [] [] []) /\
  exists w', step ConnectionExample.env EvRead (mkWorld ConnectionExample.cb0 SenderTop [] [] []) = Ret w'.
Proof.
  split; [apply reach_start, ConnectionExample.start|].
  apply (connection_never_panics ConnectionExample.S ConnectionExample.b ConnectionExample.c);
    [by vm_compute|apply reach_start, ConnectionExample.start|vm_compute; split; congruence|done].
Defined.

(** The state the concrete run ends in. *)
Definition example_end : world CcNone :=
  match run ConnectionExample.events (mkWorld ConnectionExample.cb0 SenderTop [] [] []) with
  | Ret w => w
  | _ => mkWorld ConnectionExample.cb0 SenderTop [] [] []
  end.

Lemma example_end_reachable : reachable ConnectionExample.S ConnectionExample.b ConnectionExample.c example_end.
Proof.
  eapply run_reachable; [apply reach_start, ConnectionExample.start|apply ConnectionExample.run_events_ok|].
  vm_compute. reflexivity.
Qed.

Lemma delivered_bytes_are_a_prefix_witness :
  w_read example_end = [10; 20; 30] /\
  (w_read example_end ++ unread (w_cb example_end)) `prefix_of` ConnectionExample.S.
Proof.
  split; [vm_compute; reflexivity|].
  apply (delivered_bytes_are_a_prefix ConnectionExample.S ConnectionExample.b ConnectionExample.c);
    [by vm_compute|apply example_end_reachable].
Defined.

Lemma transmitted_segments_carry_the_stream_witness :
  exists segment, Transmit segment ∈ w_trace example_end /\ data segment = Some [1; 2; 3] /\
  exists pos, 0 <= pos /\ TcpHeader.seq_num (tcp_hdr segment) = ConnectionExample.c ⊕ pos /\
    at_pos (w_written example_end) pos (default [] (data segment)).
Proof.
  assert (H : exists segment, Transmit segment ∈ w_trace example_end /\ data segment = Some [1; 2; 3]).
  { exists (segment_of ConnectionExample.cb0 (TcpHeader.set_psh (TcpHeader.set_seq_num (TcpHeader.set_ack
      (TcpHeader.set_window_size (TcpHeader.new 80 4000) 65531) 2) 7) true) (Some [1; 2; 3]) [2; 0; 0; 0; 0; 1]).
    split; [|reflexivity]. apply list_elem_of_lookup. exists 7%nat. vm_compute. reflexivity. }
  destruct H as (segment & Hin & Hd). exists segment. split; [exact Hin|]. split; [exact Hd|].
  destruct (transmitted_segments_carry_the_stream ConnectionExample.S ConnectionExample.b ConnectionExample.c
    example_end segment) as (_ & pos & [H1 _] & H2 & H3 & _); [by vm_compute|apply example_end_reachable|exact Hin|].
  by exists pos.
Defined.

Lemma states_mean_what_they_say_witness :
  state (w_cb example_end) = LastAck /\ w_read example_end ++ unread (w_cb example_end) = ConnectionExample.S.
Proof.
  split; [vm_compute; reflexivity|].
  apply (states_mean_what_they_say ConnectionExample.S ConnectionExample.b ConnectionExample.c example_end);
    [by vm_compute|apply example_end_reachable|by vm_compute].
Defined.
