(* ===== verification/CubicSafety.v ===== *)
(** * Cubic: what the window does, and connections that use it *)

From Stdlib Require Import SpecFloat.
From S2P Require Import Prelude SeqNumber Buffer Net TcpSegment Congestion Rto CtrlBlk Stream Receiving Sending Connection Cubic.

(** ** Rounding from above

    Values are compared after scaling by 2^200, below the last place of every number involved. *)

Definition below (N : Z) (x : F32.t) : Prop :=
  match x with
  | S754_zero _ => True
  | S754_finite false q e => -200 <= e /\ Z.pos q * 2^(e + 200) <= N
  | _ => False
  end.

Lemma shr_fexp_floor m e :
  0 <= m ->
  let '(r, e') := shr_fexp F32.prec F32.emax m e loc_Exact in
  shr_m r = m / 2^(e' - e) /\ e <= e' /\ (e' = e -> r = shr_record_of_loc m loc_Exact) /\
  (e' = e \/ e' = fexp F32.prec F32.emax (Zdigits2 m + e)).
Proof.
  intros Hm. unfold shr_fexp, shr.
  destruct (fexp F32.prec F32.emax (Zdigits2 m + e) - e) as [|p|p] eqn:Ek.
  - rewrite Z.sub_diag, Z.div_1_r. by auto with lia.
  - rewrite shr_iter_spec by done. replace (e + Z.pos p - e) with (Z.pos p) by lia.
    split; [done|]. split; [lia|]. split; lia.
  - rewrite Z.sub_diag, Z.div_1_r. by auto with lia.
Qed.

(** Rounding to nearest enlarges a value by at most one part in 2^23. *)
Lemma round_below m e :
  0 < m -> -200 <= e <= 99 -> -125 <= Zdigits2 m + e <= 100 ->
  let x := binary_round_aux F32.prec F32.emax false m e loc_Exact in
  below (m * 2^(e + 200) * (2^23 + 1) / 2^23) x /\
  match x with S754_finite _ q e2 => e <= e2 <= Z.max e (Zdigits2 m + e - 22) | _ => True end.
Proof.
  intros Hm He Hd. unfold binary_round_aux.
  pose proof (shr_fexp_floor m e ltac:(lia)) as H1.
  destruct (shr_fexp F32.prec F32.emax m e loc_Exact) as [r e1] eqn:E1.
  destruct H1 as (Hr & He1 & Hx & Hf).
  set (m2 := round_nearest_even (shr_m r) (loc_of_shr_record r)).
  assert (Hm2 : 0 <= m2 <= m / 2^(e1 - e) + 1).
  { subst m2. rewrite <- Hr. apply round_even_bounds. rewrite Hr. apply Z.div_pos; lia. }
  assert (Hup : m2 * 2^(e1 - e) * 2^23 <= m * (2^23 + 1)).
  { destruct (Z.eq_dec e1 e) as [->|Hne].
    - subst m2. rewrite (Hx eq_refl). cbn [shr_record_of_loc shr_m loc_of_shr_record round_nearest_even].
      rewrite Z.sub_diag. lia.
    - destruct Hf as [|Hf]; [done|]. unfold fexp, F32.prec, emin, F32.emax in Hf.
      assert (Hdd : 2^(Zdigits2 m - 1) <= m) by (destruct m; try lia; apply digits_spec).
      assert (Hk : 2^(e1 - e) * 2^23 <= m).
      { rewrite <- Z.pow_add_r by lia. etrans; [|exact Hdd]. apply Z.pow_le_mono_r; lia. }
      pose proof (Z.mul_div_le m (2^(e1 - e)) ltac:(lia)) as Hdiv.
      transitivity ((m / 2^(e1 - e) + 1) * 2^(e1 - e) * 2^23); [|lia].
      apply Z.mul_le_mono_nonneg_r; [lia|]. apply Z.mul_le_mono_nonneg_r; lia. }
  pose proof (shr_fexp_floor m2 e1 (proj1 Hm2)) as H2.
  destruct (shr_fexp F32.prec F32.emax m2 e1 loc_Exact) as [r2 e2] eqn:E2.
  destruct H2 as (Hr2 & He2 & _ & Hf2).
  assert (Hd2 : Zdigits2 m2 <= Z.max 0 (Zdigits2 m + e - e1) + 1).
  { apply zdigits_le; [lia|]. split; [lia|]. rewrite Z.pow_add_r by lia. change (2^1) with 2.
    assert (m / 2^(e1 - e) < 2^(Z.max 0 (Zdigits2 m + e - e1))).
    { apply Z.div_lt_upper_bound; [lia|]. rewrite <- Z.pow_add_r by lia.
      eapply Z.lt_le_trans; [apply zdigits_lt; lia|]. apply Z.pow_le_mono_r; lia. }
    lia. }
  assert (He2' : e2 <= Z.max e (Zdigits2 m + e - 22))
    by (unfold fexp, F32.prec, emin, F32.emax in *; lia).
  destruct (shr_m r2) as [|q|q] eqn:Eq; [done| |].
  2:{ assert (0 <= m2 / 2^(e2 - e1)) by (apply Z.div_pos; lia). lia. }
  rewrite (proj2 (Z.leb_le e2 _)) by (unfold F32.emax, F32.prec; lia).
  split; [|lia]. split; [lia|]. apply Z.div_le_lower_bound; [lia|].
  pose proof (Z.mul_div_le m2 (2^(e2 - e1)) ltac:(lia)) as Hdiv. rewrite <- Hr2 in Hdiv.
  replace (e2 + 200) with ((e2 - e1) + (e1 - e) + (e + 200)) by lia. rewrite !Z.pow_add_r by lia.
  set (P := 2^(e + 200)) in *. assert (0 < P) by (apply Z.pow_pos_nonneg; lia).
  set (A := 2^(e1 - e)) in *. assert (0 < A) by (apply Z.pow_pos_nonneg; lia).
  set (B := 2^(e2 - e1)) in *. clearbody P A B.
  transitivity (m2 * A * 2^23 * P); [|nia].
  transitivity (B * Z.pos q * (A * 2^23 * P)); [lia|].
  replace (m2 * A * 2^23 * P) with (m2 * (A * 2^23 * P)) by lia. apply Z.mul_le_mono_nonneg_r; lia.
Qed.

Lemma of_Z_below z : 0 < z < 2^32 ->
  match F32.of_Z z with
  | S754_zero _ => True
  | S754_finite false q e => -23 <= e <= 11 /\ Z.pos q * 2^(e + 200) * 2^23 <= z * 2^200 * (2^23 + 1)
  | _ => False
  end.
Proof.
  intros Hz. destruct z as [|p|p]; [lia| |lia]. unfold F32.of_Z, binary_normalize, binary_round.
  pose proof (digits_spec p) as [Hlo Hhi]. set (d := Z.pos (digits2_pos p)) in *.
  assert (Hd : 1 <= d <= 32).
  { split; [lia|]. destruct (Z.le_gt_cases d 32); [done|].
    assert (2^32 <= 2^(d - 1)) by (apply Z.pow_le_mono_r; lia). lia. }
  assert (Hf : fexp F32.prec F32.emax (d + 0) = d - 24) by (unfold fexp, F32.prec, emin, F32.emax; lia).
  rewrite Hf. assert (exists m e, shl_align p 0 (d - 24) = (m, e) /\ Z.pos m = Z.pos p * 2^(- e) /\
    e = Z.min 0 (d - 24)) as (m & e & -> & Hm & He).
  { destruct (Z.le_gt_cases (d - 24) 0).
    - exists (fst (shl_align p 0 (d - 24))), (d - 24). pose proof (shl_align_pos p 0 (d - 24) ltac:(lia)) as Hs.
      split; [|split; [by replace (- (d - 24)) with (0 - (d - 24)) by lia|lia]].
      unfold shl_align. destruct (d - 24 - 0) eqn:E; [|lia|]; cbn; f_equal; lia.
    - exists p, 0. unfold shl_align. destruct (d - 24 - 0) eqn:E; [lia| |lia]. split; [done|]. split; lia. }
  assert (Hdm : 1 <= Zdigits2 (Z.pos m) /\ Zdigits2 (Z.pos m) + e <= 32).
  { split; [simpl; lia|]. assert (Zdigits2 (Z.pos m) <= d - e); [|lia]. apply zdigits_le; [lia|]. split; [lia|].
    rewrite Hm. replace (d - e) with (d + - e) by lia. rewrite Z.pow_add_r by lia.
    apply Z.mul_lt_mono_pos_r; lia. }
  destruct (round_below (Z.pos m) e) as [Hb Hr]; [lia|lia|lia|].
  destruct (binary_round_aux _ _ _ _ _ _) as [| | |[] q e2]; try done.
  split; [lia|]. destruct Hb as [_ Hb]. rewrite Hm, <- (Z.mul_assoc (Z.pos p)), <- Z.pow_add_r in Hb by lia.
  replace (- e + (e + 200)) with 200 in Hb by lia.
  pose proof (Z.mul_div_le (Z.pos p * 2^200 * (2^23 + 1)) (2^23) ltac:(lia)). lia.
Qed.

Lemma beta_is : Cubic.BETA_CUBIC = S754_finite false 11744051 (-24).
Proof. reflexivity. Qed.

Lemma to_u32_below N x z : below N x -> 0 <= z -> N < (z + 1) * 2^200 -> 0 <= F32.to_u32 x <= z.
Proof.
  intros Hb Hz HN. destruct x as [|[]| |[] q e]; try done; try (cbn; lia). destruct Hb as [He Hb].
  unfold F32.to_u32, U32_MAX. destruct (Z.leb_spec 0 e).
  - rewrite Z.pow_add_r in Hb by lia. nia.
  - assert (0 <= Z.pos q / 2^(- e) <= z); [|lia]. split; [apply Z.div_pos; lia|].
    apply Z.lt_succ_r, Z.div_lt_upper_bound; [lia|].
    assert (Hp : 2^(- e) * 2^(e + 200) = 2^200) by (rewrite <- Z.pow_add_r by lia; f_equal; lia).
    apply (Z.mul_lt_mono_pos_r (2^(e + 200))); [lia|].
    replace (2^(- e) * Z.succ z * 2^(e + 200)) with (2^(- e) * 2^(e + 200) * Z.succ z) by lia.
    rewrite Hp. lia.
Qed.

(** The reduction by 0.7 rounds to no more than the window. *)
Lemma reduced_le z : u32_ok z -> 0 <= Cubic.reduced z <= z.
Proof.
  intros Hz. unfold u32_ok in Hz. destruct (Z.eq_dec z 0) as [->|Hne]; [done|].
  pose proof (of_Z_below z ltac:(lia)) as Hb. unfold Cubic.reduced, F32.mul. rewrite beta_is.
  destruct (F32.of_Z z) as [s| | |[] q e]; try done.
  { destruct s; cbn; lia. }
  destruct Hb as [He Hb]. cbn [SFmul xorb].
  assert (Hd : 1 <= Zdigits2 (Z.pos (q * 11744051)) <= 100).
  { split; [simpl; lia|]. apply zdigits_le; [lia|]. split; [lia|].
    assert (2^177 <= 2^(e + 200)) by (apply Z.pow_le_mono_r; lia).
    assert (Z.pos q * 2^177 <= Z.pos q * 2^(e + 200)) by (apply Z.mul_le_mono_nonneg_l; lia). lia. }
  destruct (round_below (Z.pos (q * 11744051)) (e + -24)) as [Hr _]; [lia|lia|lia|].
  eapply to_u32_below; [exact Hr|lia|]. apply Z.div_lt_upper_bound; [lia|].
  replace (e + 200) with ((e + -24 + 200) + 24) in Hb by lia. rewrite Z.pow_add_r in Hb by lia.
  rewrite Pos2Z.inj_mul. set (P := 2^(e + -24 + 200)) in *. clearbody P. lia.
Qed.

(** ** The invariant of the algorithm's state *)

Record cubic_ok (s : Cubic.t) : Prop := {
  co_mss : 1 <= Cubic.mss s < 2^16;
  co_initial : Cubic.initial_cwnd s = Cubic.initial_window (Cubic.mss s);
  co_cwnd : u32_ok (Cubic.cwnd s);
  co_ssthresh : 2 * Cubic.mss s <= Cubic.ssthresh s <= U32_MAX;
  co_w_max : u32_ok (Cubic.w_max s);
  co_dup : u32_ok (Cubic.duplicate_ack_count s);
  co_rpif : u32_ok (Cubic.retransmitted_packets_in_flight s);
  co_ltci : 0 <= Cubic.limited_transmit_cwnd_increase s
}.

Ltac cubic_fields :=
  cbn [Cubic.set_ca Cubic.set_cwnd Cubic.set_last_send Cubic.set_rpif Cubic.set_ssthresh Cubic.set_w_max
       Cubic.set_dup Cubic.set_fast_retransmit_now Cubic.set_in_fast_recovery Cubic.set_prev_ack
       Cubic.set_recover Cubic.set_ltci Cubic.mss Cubic.ca_start Cubic.cwnd Cubic.fast_convergence_on
       Cubic.initial_cwnd Cubic.last_send_time Cubic.last_congestion_was_rto
       Cubic.retransmitted_packets_in_flight Cubic.rtt_at_last_send Cubic.ssthresh Cubic.w_max
       Cubic.duplicate_ack_count Cubic.fast_retransmit_now Cubic.in_fast_recovery Cubic.prev_ack_seq_no
       Cubic.recover Cubic.limited_transmit_cwnd_increase] in *.

Lemma to_u32_ok x : u32_ok (F32.to_u32 x).
Proof.
  unfold u32_ok, F32.to_u32, U32_MAX. destruct x as [|[]| |[] q e]; try lia.
  assert (0 <= if 0 <=? e then Z.pos q * 2^e else Z.pos q / 2^(- e)); [|lia].
  destruct (Z.leb_spec 0 e); [lia|]. apply Z.div_pos; [lia|]. apply Z.pow_pos_nonneg; lia.
Qed.

Create HintDb cubic.
#[local] Hint Resolve to_u32_ok wrap32_ok : cubic.

(** Closes the fields of the invariant a setter leaves alone or sets to a machine integer. *)
Ltac cubic_ok_auto :=
  constructor; cubic_fields; first [done | by auto with cubic | unfold u32_ok, U32_MAX in *; lia].

Lemma initial_window_bounds m : 1 <= m < 2^16 -> 2 * m <= Cubic.initial_window m <= 4 * m.
Proof.
  intros Hm. unfold Cubic.initial_window. repeat case_match; rewrite wrap32_small; unfold u32_ok; lia.
Qed.

Lemma new_cubic_ok now m seq opts s :
  1 <= m < 2^16 -> Cubic.new now m seq opts = Ret s -> cubic_ok s /\ Cubic.mss s = m.
Proof.
  intros Hm. unfold Cubic.new. rewrite (proj2 (Z.ltb_ge _ _)) by (unfold U32_MAX; lia).
  destruct (Options.get_bool _ _) as [fc| |]; try done. cbn [mbind outcome_bind]. intros [= <-].
  pose proof (initial_window_bounds m Hm). split; [|done]. cubic_ok_auto.
Qed.

Lemma remember_w_max_ok s :
  cubic_ok s -> exists w, Cubic.remember_w_max s = Ret (Cubic.set_w_max w s) /\ u32_ok w.
Proof.
  intros []. unfold Cubic.remember_w_max, Cubic.fast_convergence.
  rewrite (proj2 (Z.eqb_neq _ _)) by lia. repeat case_match; eexists; (split; [done|]); auto with cubic.
Qed.

Lemma double_mss s : cubic_ok s -> wrap32 (2 * Cubic.mss s) = 2 * Cubic.mss s.
Proof. intros []. apply wrap32_small. unfold u32_ok. lia. Qed.

(** The third duplicate: the slow start threshold drops, the window with it, and the lost segment is
    to be sent again. *)
Definition entered (send_next : Seq.SeqNumber) (w_max : Z) (s : Cubic.t) : Cubic.t :=
  Cubic.set_fast_retransmit_now true (Cubic.set_cwnd (Cubic.reduced (Cubic.cwnd s))
    (Cubic.set_ssthresh (Z.max (Cubic.reduced (Cubic.cwnd s)) (2 * Cubic.mss s))
       (Cubic.set_w_max w_max (Cubic.set_recover send_next (Cubic.set_in_fast_recovery true s))))).

(** What makes the third duplicate a loss: it is beyond the last recovery, or soon after the last
    acknowledgement. *)
Definition counts_as_loss (ack : Seq.SeqNumber) (s : Cubic.t) : bool :=
  (ack ⊖ 1 >ₛ Cubic.recover s) ||
  ((Cubic.mss s <? Cubic.cwnd s) && (ack ⊖ Cubic.prev_ack_seq_no s <=? wrap32 (4 * Cubic.mss s))).

Lemma dup_ack_spec nxt ack s :
  cubic_ok s ->
  let n := wrap32 (Cubic.duplicate_ack_count s + 1) in
  let s1 := Cubic.set_dup n s in
  let s2 := if n <? 3
            then Cubic.set_ltci (wrap32 (Cubic.limited_transmit_cwnd_increase s + Cubic.mss s)) s1 else s1 in
  exists w, u32_ok w /\
  Cubic.on_dup_ack_received nxt ack s =
    Ret (if (n =? 3) && counts_as_loss ack s then entered nxt w s1
         else if (3 <? n) || Cubic.in_fast_recovery s
              then Cubic.set_cwnd (wrap32 (Cubic.cwnd s + Cubic.mss s)) s2 else s2).
Proof.
  intros Hok n s1 s2. unfold Cubic.on_dup_ack_received, Cubic.increment_dup_ack_count, Cubic.DUP_ACK_THRESHOLD.
  fold n. fold s1. change (Cubic.limited_transmit_cwnd_increase s1) with (Cubic.limited_transmit_cwnd_increase s).
  change (Cubic.mss s1) with (Cubic.mss s). fold s2.
  cbv zeta. match goal with |- context [(n =? 3) && ?x] => assert (E : x = counts_as_loss ack s) end.
  { subst s2. by destruct (n <? 3). }
  rewrite E. destruct ((n =? 3) && counts_as_loss ack s) eqn:El.
  - apply andb_true_iff in El as [En _]. apply Z.eqb_eq in En. subst s2. rewrite En. cbn [Z.ltb].
    change (3 <? 3) with false. cbv iota.
    set (s3 := Cubic.set_recover nxt (Cubic.set_in_fast_recovery true s1)).
    assert (H3 : cubic_ok s3).
    { destruct Hok. subst s3 s1. cubic_ok_auto. }
    destruct (remember_w_max_ok s3 H3) as (w & -> & Hw). exists w. split; [done|]. cbn [mbind outcome_bind].
    unfold entered. change (Cubic.mss (Cubic.set_w_max w s3)) with (Cubic.mss s3). by rewrite (double_mss s3).
  - exists 0. split; [done|]. clear El E. subst s2. clearbody n.
    destruct (n <? 3), (3 <? n); cbn [orb]; [done| |done|]; subst s1; cubic_fields; by destruct (Cubic.in_fast_recovery s).
Qed.

Lemma entered_ok nxt w s : cubic_ok s -> u32_ok w -> cubic_ok (entered nxt w s).
Proof.
  intros [] Hw. pose proof (reduced_le _ co_cwnd0). constructor; unfold entered; cubic_fields; try done;
    unfold u32_ok, U32_MAX in *; lia.
Qed.

Section laws.
Context `{F32Functions}.

Lemma on_ack_ok now rto una nxt ack s :
  cubic_ok s -> exists s', Cubic.on_ack_received now rto una nxt ack s = Ret s' /\ cubic_ok s'.
Proof.
  intros Hok. unfold Cubic.on_ack_received. destruct (ack ⊖ una =? 0).
  - destruct (dup_ack_spec nxt ack s Hok) as (w & Hw & ->). cbn [mbind outcome_bind]. eexists. split; [done|].
    set (n := wrap32 (Cubic.duplicate_ack_count s + 1)). assert (Hn : u32_ok n) by apply wrap32_ok.
    assert (H1 : cubic_ok (Cubic.set_dup n s)) by (destruct Hok; cubic_ok_auto).
    assert (Hf : forall x, cubic_ok x -> cubic_ok (Cubic.set_rpif (Z.max 0 (Cubic.retransmitted_packets_in_flight x - 1)) x)).
    { intros x []. cubic_ok_auto. }
    apply Hf. clear Hf. destruct ((n =? 3) && counts_as_loss ack s); [by apply entered_ok|].
    assert (H2 : cubic_ok (if n <? 3 then Cubic.set_ltci (wrap32 (Cubic.limited_transmit_cwnd_increase s + Cubic.mss s)) (Cubic.set_dup n s) else Cubic.set_dup n s)).
    { destruct (n <? 3); [|done]. destruct H1. constructor; cubic_fields; try done. apply wrap32_ok. }
    destruct ((3 <? n) || Cubic.in_fast_recovery s); [|done]. destruct H2. cubic_ok_auto.
  - eexists. split; [done|]. set (s1 := Cubic.set_dup 0 s).
    assert (H1 : cubic_ok s1) by (destruct Hok; subst s1; cubic_ok_auto). clearbody s1.
    assert (Hp : forall x, cubic_ok x -> cubic_ok (Cubic.set_prev_ack ack x)) by (intros x []; cubic_ok_auto).
    apply Hp. clear Hp. destruct (Cubic.in_fast_recovery s1).
    + unfold Cubic.on_ack_received_fast_recovery. destruct H1. pose proof (wrap32_ok (Z.max (nxt ⊖ una) (Cubic.mss s1) + Cubic.mss s1)).
      repeat case_match; cubic_ok_auto.
    + unfold Cubic.on_ack_received_ss_ca. destruct H1. repeat case_match; cubic_ok_auto.
Qed.

Lemma on_rto_ok una s : cubic_ok s -> exists s', Cubic.on_rto una s = Ret s' /\ cubic_ok s'.
Proof.
  intros Hok. unfold Cubic.on_rto, Cubic.on_rto_ss_ca. destruct (remember_w_max_ok s Hok) as (w & -> & Hw).
  cbn [mbind outcome_bind]. eexists. split; [done|]. unfold Cubic.on_rto_fast_recovery. cubic_fields.
  rewrite double_mss by done. pose proof (reduced_le _ (co_cwnd _ Hok)). destruct Hok.
  destruct (_ =? 0); cubic_ok_auto.
Qed.

#[export] Instance Cubic_laws : CongestionControlLaws Cubic.t.
Proof.
  apply (Build_CongestionControlLaws _ _ cubic_ok); cbn.
  - intros now s Hok. eexists. split; [done|]. unfold Cubic.on_cwnd_check_before_send.
    destruct (_ <? _); [|done]. pose proof (initial_window_bounds _ (co_mss _ Hok)). destruct Hok. cubic_ok_auto.
  - intros. by apply on_ack_ok.
  - intros. by apply on_rto_ok.
  - intros now rto n s []. eexists. split; [done|]. unfold Cubic.on_send. cubic_ok_auto.
  - intros s []. eexists. split; [done|]. unfold Cubic.on_fast_retransmit. cubic_ok_auto.
Defined.

End laws.

(** ** A loss and its recovery *)

Section recovery.
Context `{F32Functions} (now rto : Z).

(** [n] acknowledgements that acknowledge nothing. *)
Fixpoint dup_acks (n : nat) (nxt ack : Seq.SeqNumber) (s : Cubic.t) : outcome Cubic.t :=
  match n with
  | O => Ret s
  | S n => s ← dup_acks n nxt ack s; Cubic.on_ack_received now rto ack nxt ack s
  end.

(** The state after [n] duplicates in a row. *)
Record after_dups (n : Z) (nxt : Seq.SeqNumber) (s s' : Cubic.t) : Prop := {
  ad_ok : cubic_ok s';
  ad_count : Cubic.duplicate_ack_count s' = n;
  ad_mss : Cubic.mss s' = Cubic.mss s;
  ad_prev : Cubic.prev_ack_seq_no s' = Cubic.prev_ack_seq_no s;
  ad_ltci : Cubic.limited_transmit_cwnd_increase s' =
    Cubic.limited_transmit_cwnd_increase s + Z.min n 2 * Cubic.mss s;
  ad_before : n < 3 ->
    Cubic.cwnd s' = Cubic.cwnd s /\ Cubic.ssthresh s' = Cubic.ssthresh s /\
    Cubic.recover s' = Cubic.recover s /\ Cubic.in_fast_recovery s' = false /\
    Cubic.fast_retransmit_now s' = Cubic.fast_retransmit_now s;
  ad_after : 3 <= n ->
    Cubic.cwnd s' = Cubic.reduced (Cubic.cwnd s) + (n - 3) * Cubic.mss s /\
    Cubic.ssthresh s' = Z.max (Cubic.reduced (Cubic.cwnd s)) (2 * Cubic.mss s) /\
    Cubic.recover s' = nxt /\ Cubic.in_fast_recovery s' = true /\ Cubic.fast_retransmit_now s' = true
}.

Lemma rpif_after n nxt s s' v : u32_ok v -> after_dups n nxt s s' -> after_dups n nxt s (Cubic.set_rpif v s').
Proof. intros Hv [[] ? ? ? ? Hb Ha]. by constructor; cubic_fields. Qed.

Lemma dup_acks_spec n nxt ack s :
  cubic_ok s -> Cubic.duplicate_ack_count s = 0 -> Cubic.in_fast_recovery s = false ->
  counts_as_loss ack s = true ->
  Z.of_nat n < 2^32 -> Cubic.cwnd s + Z.of_nat n * Cubic.mss s < 2^32 ->
  Cubic.limited_transmit_cwnd_increase s + 2 * Cubic.mss s < 2^32 ->
  exists s', dup_acks n nxt ack s = Ret s' /\ after_dups (Z.of_nat n) nxt s s'.
Proof.
  intros Hok Hd Hfr Hloss. pose proof (reduced_le _ (co_cwnd _ Hok)) as Hred. pose proof (co_mss _ Hok) as Hm.
  pose proof (co_ltci _ Hok) as Hl0. pose proof (co_cwnd _ Hok) as Hw0. unfold u32_ok in Hw0.
  induction n as [|n IH]; intros Hn Hc Hl.
  { exists s. split; [done|]. constructor; try done; try lia. }
  destruct IH as (s1 & E & A); [lia|nia|done|]. cbn [dup_acks]. rewrite E. cbn [mbind outcome_bind].
  unfold Cubic.on_ack_received. replace (ack ⊖ ack =? 0) with true by (unfold Seq.sub; by rewrite Z.sub_diag).
  destruct A. destruct (dup_ack_spec nxt ack s1 ad_ok0) as (w & Hw & ->). cbn [mbind outcome_bind].
  match goal with |- context [Cubic.set_rpif _ ?x] => assert (HX : after_dups (Z.of_nat (S n)) nxt s x) end.
  2:{ eexists. split; [done|]. apply rpif_after; [|done]. pose proof (co_rpif _ (ad_ok _ _ _ _ HX)) as Hr.
      unfold u32_ok in *. lia. }
  rewrite ad_count0, wrap32_small by (unfold u32_ok; lia). rewrite Nat2Z.inj_succ. set (N := Z.of_nat n) in *.
  change (Z.succ N) with (N + 1) in *.
  assert (Hok1 : cubic_ok (Cubic.set_dup (N + 1) s1)).
  { destruct ad_ok0. constructor; cubic_fields; try done. unfold u32_ok. lia. }
  destruct (Z.lt_ge_cases N 3) as [Hlt|Hge].
  - destruct (ad_before0 Hlt) as (B1 & B2 & B3 & B4 & B5).
    assert (Hloss1 : counts_as_loss ack s1 = true)
      by (rewrite <- Hloss; unfold counts_as_loss; by rewrite B1, B3, ad_prev0, ad_mss0).
    rewrite Hloss1, andb_true_r, B4, (proj2 (Z.ltb_ge 3 (N + 1))) by lia. cbn [orb].
    destruct (Z.eqb_spec (N + 1) 3) as [E3|E3].
    + constructor; [by apply entered_ok|..]; unfold entered; cubic_fields; try done; try lia.
      intros _. rewrite B1, ad_mss0. split; [lia|by split].
    + rewrite (proj2 (Z.ltb_lt (N + 1) 3)) by lia. rewrite ad_ltci0, ad_mss0.
      rewrite wrap32_small by (unfold u32_ok; nia). constructor; cubic_fields; try done; try lia.
      * destruct Hok1. constructor; cubic_fields; try done. nia.
      * nia.
  - destruct (ad_after0 Hge) as (B1 & B2 & B3 & B4 & B5).
    rewrite (proj2 (Z.eqb_neq (N + 1) 3)), (proj2 (Z.ltb_ge (N + 1) 3)), (proj2 (Z.ltb_lt 3 (N + 1))) by lia.
    cbn [andb orb]. rewrite B1, ad_mss0. rewrite wrap32_small by (unfold u32_ok; nia).
    constructor; cubic_fields; try done; try lia.
    + destruct Hok1. constructor; cubic_fields; try done. unfold u32_ok. nia.
    + intros _. split; [lia|by split].
Qed.

End recovery.

(** ** Properties *)

(** C13: a loss and its recovery follow RFC 5681 and RFC 3042 with Cubic's factor.  From any
    well-formed state outside recovery, let [n] duplicate acknowledgements of [ack] arrive that count
    as a loss ([ack] is beyond the last recovery point, or the window is above one segment and [ack]
    within four segments of the previous acknowledgement), with windows below [2^32].  All of them
    return; the first two each allow one more segment (limited transmit) and change no window; the
    third asks for a retransmission and sets the window to 0.7 of its value (rounded, and never
    above it) and the threshold to the same or two segments; each further one adds a segment.  An
    acknowledgement strictly beyond [nxt], what had been sent at the third, ends the recovery with a
    window no larger than the threshold.  Any other new acknowledgement, that of exactly [nxt]
    included, is treated as partial: it asks for a retransmission, takes the acknowledged bytes off
    the window (adding back a segment when it covers one) and stays in recovery. *)
Theorem cubic_loss_recovery `{F32Functions} (now rto : Z) (n : nat) (nxt ack : Seq.SeqNumber) (s : Cubic.t) :
  cubic_ok s -> Cubic.duplicate_ack_count s = 0 -> Cubic.in_fast_recovery s = false ->
  counts_as_loss ack s = true ->
  Z.of_nat n < 2^32 -> Cubic.cwnd s + Z.of_nat n * Cubic.mss s < 2^32 ->
  Cubic.limited_transmit_cwnd_increase s + 2 * Cubic.mss s < 2^32 ->
  exists s', dup_acks now rto n nxt ack s = Ret s' /\ after_dups (Z.of_nat n) nxt s s' /\
    (3 <= Z.of_nat n -> Cubic.ssthresh s' <= Z.max (Cubic.cwnd s) (2 * Cubic.mss s)) /\
    (forall nxt' ack', 3 <= Z.of_nat n -> (ack' >ₛ nxt) = true -> ack' ⊖ ack <> 0 ->
      nxt' ⊖ ack + Cubic.mss s < 2^32 ->
      exists s'', Cubic.on_ack_received now rto ack nxt' ack' s' = Ret s'' /\ cubic_ok s'' /\
        Cubic.in_fast_recovery s'' = false /\ Cubic.duplicate_ack_count s'' = 0 /\
        Cubic.ca_start s'' = now /\ Cubic.ssthresh s'' = Cubic.ssthresh s' /\
        Cubic.cwnd s'' = Z.min (Cubic.ssthresh s') (Z.max (nxt' ⊖ ack) (Cubic.mss s) + Cubic.mss s)) /\
    (forall nxt' ack', 3 <= Z.of_nat n -> (ack' >ₛ nxt) = false -> ack' ⊖ ack <> 0 ->
      exists s'', Cubic.on_ack_received now rto ack nxt' ack' s' = Ret s'' /\ cubic_ok s'' /\
        Cubic.in_fast_recovery s'' = true /\ Cubic.fast_retransmit_now s'' = true /\ Cubic.recover s'' = nxt /\
        Cubic.cwnd s'' = wrap32 (Cubic.cwnd s' - (ack' ⊖ ack) +
          if Cubic.mss s <=? ack' ⊖ ack then Cubic.mss s else 0)).
Proof.
  intros Hok Hd Hfr Hloss Hn Hc Hl.
  destruct (dup_acks_spec now rto n nxt ack s) as (s' & E & A); try done. exists s'. split; [done|]. split; [done|].
  pose proof (reduced_le _ (co_cwnd _ Hok)). split; [|split].
  { intros H3. destruct (ad_after _ _ _ _ A H3) as (_ & -> & _). lia. }
  2: { intros nxt' ack' H3 Hgt Hne. destruct (on_ack_ok now rto ack nxt' ack' s' (ad_ok _ _ _ _ A)) as (s'' & E' & Hok'').
    exists s''. split; [done|]. split; [done|]. revert E'. unfold Cubic.on_ack_received.
    rewrite (proj2 (Z.eqb_neq _ _)) by done. destruct (ad_after _ _ _ _ A H3) as (_ & _ & Hr & Hi & _).
    change (Cubic.in_fast_recovery (Cubic.set_dup 0 s')) with (Cubic.in_fast_recovery s'). rewrite Hi.
    unfold Cubic.on_ack_received_fast_recovery. change (Cubic.recover (Cubic.set_dup 0 s')) with (Cubic.recover s').
    rewrite Hr, Hgt. cubic_fields. rewrite (ad_mss _ _ _ _ A).
    destruct (Cubic.mss s <=? ack' ⊖ ack); intros [= <-]; cubic_fields; split_and!; try done.
    - unfold wrap32. by rewrite Zplus_mod_idemp_l.
    - by rewrite Z.add_0_r. }
  intros nxt' ack' H3 Hgt Hne Hout. destruct (on_ack_ok now rto ack nxt' ack' s' (ad_ok _ _ _ _ A)) as (s'' & E' & Hok'').
  exists s''. split; [done|]. split; [done|]. revert E'. unfold Cubic.on_ack_received.
  rewrite (proj2 (Z.eqb_neq _ _)) by done. destruct (ad_after _ _ _ _ A H3) as (_ & _ & Hr & Hi & _).
  change (Cubic.in_fast_recovery (Cubic.set_dup 0 s')) with (Cubic.in_fast_recovery s'). rewrite Hi.
  unfold Cubic.on_ack_received_fast_recovery. change (Cubic.recover (Cubic.set_dup 0 s')) with (Cubic.recover s').
  rewrite Hr, Hgt. intros [= <-]. cubic_fields. rewrite (ad_mss _ _ _ _ A), wrap32_small; [done|].
  pose proof (co_mss _ Hok). pose proof (seq_sub_ok nxt' ack). unfold u32_ok in *. lia.
Qed.

(** C12: a connection that uses Cubic is as safe as one that does not.  Build a connection with the
    controller [Cubic::new] returns for a segment size of 1 to 65535 bytes; whatever admissible
    sequence of events follows, and however [cbrt] and [powi] round, it runs to its end without a panic,
    the application has read a prefix of the peer's stream, every transmitted segment carries the
    application's stream, and the congestion state is well-formed: a threshold of at least two segments,
    every counter in its machine range. *)
Theorem cubic_connection `{F32Functions} (S : list Z) (b c : Z) (t mss : Z) (options : option Options.t)
  (cubic : Cubic.t) (local remote : SocketAddrV4) (link : MacAddress) (offload : bool)
  (delay bufsz wscale win scale : Z) (evs : list (Env * event)) :
  blen S < 2^31 - 4 -> u32_ok b -> u32_ok c -> 1 <= mss < 2^16 ->
  0 <= bufsz <= 2^30 -> 0 <= wscale -> Z.shiftr bufsz wscale <= U16_MAX -> 0 <= win <= 2^30 -> 0 <= scale <= 14 ->
  Cubic.new t mss c options = Ret cubic ->
  let w := mkWorld (ControlBlock_new local remote link offload b delay bufsz wscale c win scale mss
                      (fun _ _ => cubic)) SenderTop [] [] [] in
  run_ok S b evs w ->
  exists w', run evs w = Ret w' /\ (w_read w' ++ unread (w_cb w')) `prefix_of` S /\
    Forall (tx_ok S b (w_written w') (user_is_done_sending (w_cb w')) c) (w_trace w') /\
    cubic_ok (cc (w_cb w')).
Proof.
  intros Hs Hb Hc Hm Hbs Hws Hsh Hwin Hsc Hnew w Hok. destruct (new_cubic_ok _ _ _ _ _ Hm Hnew) as [Hcub _].
  assert (Hstart : start_ok b c (w_cb w)).
  { eexists _, _, _, _, _, _, _, _, _, _, (fun _ _ => cubic). split; [reflexivity|].
    split; [exact Hcub|]. split; [done|]. split; [done|]. repeat split; lia. }
  destruct (run_inv S b c Hs evs w) as (w' & E & Hinv); [by apply start_inv|done|].
  exists w'. split; [done|]. split; [by apply (world_prefix S b c True)|].
  destruct Hinv as (f & g & U & [_ HS] & _ & _ & Htr & _). split; [done|]. exact (si_cc _ _ _ _ _ HS).
Qed.

(** ** Executions with concrete roundings *)

Module CubicExample.

(** The integer cube root, bit by bit. *)
Fixpoint icbrt (bits : nat) (r n : Z) : Z :=
  match bits with
  | O => r
  | S bits => let r' := r + 2^(Z.of_nat bits) in icbrt bits (if r' * r' * r' <=? n then r' else r) n
  end.

#[export] Instance functions : F32Functions := {
  cbrt x := match x with
            | S754_finite s m e =>
                let k := (e - 60) / 3 in
                binary_normalize F32.prec F32.emax
                  (cond_Zopp s (icbrt 30 0 (Z.pos m * 2^(e - 3 * k)))) k false
            | x => x
            end;
  powi x n := Nat.iter (Z.to_nat n) (F32.mul x) (F32.of_Z 1)
}.

Definition start : Cubic.t :=
  match Cubic.new 0 1460 1000 None with
  | Ret s => s
  | _ => Cubic.mk 0 0 0 true 0 0 false 0 0 0 0 0 false false 0 0 0
  end.

(** A window of ten segments of 1460 bytes. *)
Definition ten : Cubic.t := Cubic.set_cwnd 14600 start.

Lemma ten_ok : cubic_ok ten.
Proof. constructor; repeat split; vm_compute; congruence. Qed.

End CubicExample.

Import CubicExample.

Lemma cubic_loss_recovery_witness :
  exists s s', dup_acks 5 0 4 15600 1000 ten = Ret s /\ Cubic.cwnd s = 11680 /\ Cubic.ssthresh s = 10220 /\
    Cubic.on_ack_received 5 0 1000 17060 15601 s = Ret s' /\ Cubic.cwnd s' = 10220.
Proof.
  destruct (cubic_loss_recovery 5 0 4 15600 1000 ten) as (s & E & A & _ & F & G);
    [apply ten_ok|by vm_compute..|].
  destruct (F 17060 15601) as (s' & E' & _ & _ & _ & _ & _ & Hc);
    [by vm_compute..|].
  exists s, s'. split; [exact E|]. destruct (ad_after _ _ _ _ A) as (H1 & H2 & _); [by vm_compute|].
  rewrite H2 in Hc. split; [rewrite H1; by vm_compute|]. split; [rewrite H2; by vm_compute|]. split; [exact E'|].
  rewrite Hc. by vm_compute.
Defined.

(** The acknowledgement of exactly everything that had been sent does not end the recovery. *)
Example exact_ack_is_partial :
  (s ← dup_acks 5 0 4 15600 1000 ten; s' ← Cubic.on_ack_received 5 0 1000 15600 15600 s;
   Ret (Cubic.in_fast_recovery s', Cubic.fast_retransmit_now s')) = Ret (true, true).
Proof. by vm_compute. Qed.

Lemma cubic_connection_witness :
  exists w', run [(ConnectionExample.env, EvSend [1; 2; 3]); (ConnectionExample.env, EvRead)]
      (mkWorld (ControlBlock_new ConnectionExample.here ConnectionExample.there [2; 0; 0; 0; 0; 2] false
        ConnectionExample.b 5000000 65535 0 1000 65535 0 1460 (fun _ _ => start)) SenderTop [] [] []) = Ret w' /\
    cubic_ok (cc (w_cb w')).
Proof.
  destruct (cubic_connection ConnectionExample.S ConnectionExample.b 1000 0 1460 None start
    ConnectionExample.here ConnectionExample.there [2; 0; 0; 0; 0; 2] false 5000000 65535 0 65535 0
    [(ConnectionExample.env, EvSend [1; 2; 3]); (ConnectionExample.env, EvRead)]) as (w' & E & _ & _ & Hc);
    [by vm_compute|by split|by split|by vm_compute|by vm_compute|by vm_compute|by vm_compute|by vm_compute
    |by vm_compute|by vm_compute| |].
  - split; [by vm_compute|]. split; [by split|]. destruct (step _ _ _); [|exact I|exact I].
    split; [by vm_compute|]. split; [exact I|]. by destruct (step _ _ _).
  - exists w'. split; [exact E|exact Hc].
Defined.

(** ** Behaviours worth knowing *)

(** A partial acknowledgement of more than the window makes the window wrap to almost 4 GiB: ten
    segments are in flight, the first and the last are lost, three duplicates arrive, and the
    retransmission of the first is acknowledged with the eight that follow it. *)
Example partial_ack_wraps :
  match dup_acks 5 0 3 15600 1000 ten with
  | Ret s => match Cubic.on_ack_received 6 0 1000 15600 14140 s with
             | Ret s' => (Cubic.cwnd s, Cubic.in_fast_recovery s', Cubic.cwnd s')
             | _ => (0, false, 0)
             end
  | _ => (0, false, 0)
  end = (10220, true, 4294965836).
Proof. vm_compute. reflexivity. Qed.

(** A segment size of zero, which a peer may announce, makes the first timeout divide by zero. *)
Example zero_mss_panics :
  match Cubic.new 0 0 1000 None with
  | Ret s => Cubic.on_rto 1000 s
  | _ => Ret ten
  end = Panic "attempt to divide by zero".
Proof. reflexivity. Qed.

(** The start of congestion avoidance is recorded when a fast recovery ends, but not after a timeout:
    the window then grows as if avoidance had begun when the connection did. *)
Lemma rto_keeps_ca_start una s s' : Cubic.on_rto una s = Ret s' -> Cubic.ca_start s' = Cubic.ca_start s.
Proof.
  unfold Cubic.on_rto, Cubic.on_rto_ss_ca, Cubic.remember_w_max, Cubic.fast_convergence.
  cbn. repeat case_match; cbn; intros; simplify_eq/=; by repeat case_match.
Qed.

(** In congestion avoidance an increase of the window beyond 4 GiB saturates, and adding it wraps: a
    thousand seconds after the last recovery the acknowledgement of a segment takes a byte off the
    window. *)
Example saturated_increase_shrinks :
  match Cubic.on_ack_received 1000000000000 100000000 1000 15600 2460
          (Cubic.set_w_max 14600 (Cubic.set_ssthresh 14600 ten)) with
  | Ret s => Cubic.cwnd s
  | _ => 0
  end = 14599.
Proof. vm_compute. reflexivity. Qed.
