(* ===== verification/EndToEnd.v ===== *)
(** * Two endpoints and the network between them

    Two hosts run the connection code of this library against each other.  The network keeps
    every segment either of them ever handed to its runtime and delivers any of them at any time,
    as often as it likes or never: loss, duplication, reordering and delay.  Nothing is assumed of
    the segments any more: each of them was transmitted by the other endpoint. *)

From S2P Require Import Prelude Buffer SeqNumber Net TcpSegment Congestion Rto CtrlBlk Wp Stream.
From S2P Require Import Receiving Sending Connection.

Inductive side := Left | Right.
#[global] Instance side_eq_dec : EqDecision side.
Proof. solve_decision. Defined.

Definition other (s : side) : side := match s with Left => Right | Right => Left end.

Record network (C : Type) := mkNetwork { at_left : world C; at_right : world C }.
Arguments mkNetwork {C}.
Arguments at_left {C}.
Arguments at_right {C}.

Definition endpoint {C} (n : network C) (s : side) : world C :=
  match s with Left => at_left n | Right => at_right n end.

Definition set_endpoint {C} (s : side) (w : world C) (n : network C) : network C :=
  match s with Left => mkNetwork w (at_right n) | Right => mkNetwork (at_left n) w end.

(** The longest stream an endpoint may write in the life of a connection. *)
Definition MAX_STREAM : Z := 2^31 - 6.

Section network.
Context {C : Type} `{!CongestionControl C, !CongestionControlLaws C}.

Definition net_step (s : side) (env : Env) (ev : event) (n : network C) : outcome (network C) :=
  w ← step env ev (endpoint n s);
  Ret (set_endpoint s w n).

(** What may happen at an endpoint: a segment is one of those the other endpoint transmitted. *)
Definition net_event_ok (s : side) (ev : event) (n : network C) : Prop :=
  let w := endpoint n s in
  match ev with
  | EvSegment h d => exists seg, Transmit seg ∈ w_trace (endpoint n (other s)) /\
                       tcp_hdr seg = h /\ default [] (data seg) = d
  | EvSend buf => buf <> [] /\ blen buf <= 2^30 /\ blen (w_written w) + blen buf <= MAX_STREAM
  | EvClose => (length (unsent_queue (sender (w_cb w))) <= UNSENT_QUEUE_CUTOFF)%nat
  | EvSender _ _ => w_pc w = SenderTop -> probe_ok (w_cb w)
  | _ => True
  end.

(** [isn s] is the sequence number of the first byte that side [s] writes. *)
Context (isn : side -> Z).

Inductive net_reachable : network C -> Prop :=
| net_start cl cr :
    start_ok (isn Right) (isn Left) cl -> start_ok (isn Left) (isn Right) cr ->
    net_reachable (mkNetwork (mkWorld cl SenderTop [] [] []) (mkWorld cr SenderTop [] [] []))
| net_next n s env ev n' :
    net_reachable n -> env_ok env -> net_event_ok s ev n -> net_step s env ev n = Ret n' ->
    net_reachable n'.

(** ** The invariant *)

(** The streams that what an endpoint has written so far can become. *)
Definition extends (w : world C) (S : list Z) : Prop :=
  w_written w `prefix_of` S /\ (user_is_done_sending (w_cb w) = true -> S = w_written w).

Lemma extends_refl w : extends w (w_written w).
Proof. by split. Qed.

Lemma extends_grows w w' S : written_grows w w' -> extends w' S -> extends w S.
Proof.
  intros [Hp Hd] [Hp' Hd']. split; [by etrans|]. intros E. destruct (Hd E) as [<- E']. by apply Hd'.
Qed.

Lemma endpoint_set s w (n : network C) : endpoint (set_endpoint s w n) s = w.
Proof. by destruct s. Qed.

Lemma endpoint_set_other s w (n : network C) : endpoint (set_endpoint s w n) (other s) = endpoint n (other s).
Proof. by destruct s. Qed.

Lemma other_other s : other (other s) = s.
Proof. by destruct s. Qed.

(** One side's invariant, whatever the other side goes on to write. *)
Definition side_inv (n : network C) (s : side) : Prop :=
  blen (w_written (endpoint n s)) <= MAX_STREAM /\
  forall S, extends (endpoint n (other s)) S -> blen S < 2^31 - 4 ->
    world_inv S (isn (other s)) (isn s) False (endpoint n s).

Definition net_inv (n : network C) : Prop := forall s, side_inv n s.

Lemma short_written n s : side_inv n s -> blen (w_written (endpoint n s)) < 2^31 - 4.
Proof. intros [H _]. unfold MAX_STREAM in H. lia. Qed.

(** Whatever one endpoint transmitted, the other can receive. *)
Lemma transmitted_ok n s seg S :
  net_inv n -> Transmit seg ∈ w_trace (endpoint n (other s)) ->
  extends (endpoint n (other s)) S -> blen S < 2^31 - 4 ->
  exists p, segment_ok S (isn (other s)) p (tcp_hdr seg) (default [] (data seg)) (w_cb (endpoint n s)).
Proof.
  intros HI Hin HS Hshort. destruct (HI s) as [Hlen Hs]. destruct (HI (other s)) as [_ Ho].
  specialize (Hs S HS Hshort) as (f & g & U & [HR HT] & _ & _ & _ & Hcl).
  rewrite other_other in Ho.
  specialize (Ho _ (extends_refl _) (short_written n s (HI s))) as (f' & g' & U' & _ & _ & _ & Htr & _).
  rewrite Forall_forall in Htr. specialize (Htr _ Hin) as ((Hsyn & Hrst & Hack & Hwin & k & Hk & Ek) & pos & Hpos & Epos & Hat & Hfin).
  destruct HS as [[X ->] Hdone]. pose proof (blen_nonneg X). rewrite blen_app in *.
  exists pos. constructor.
  - unfold seg_at. rewrite Epos, Hsyn, Z.sub_0_r, blen_app. split; [done|]. split; [lia|]. split; [by apply at_pos_grow|].
    intros Hf. destruct (Hfin Hf) as (Hd & -> & ->). specialize (f_equal blen (Hdone Hd)) as Hl. rewrite blen_app in Hl.
    change (blen (@nil Z)) with 0. lia.
  - done.
  - rewrite Ek. apply seq_add_ok.
  - pose proof (send_pos (isn s) _ g U _ HT). pose proof (flight_nonneg (unacked_queue (sender (w_cb (endpoint n s))))).
    rewrite Ek, (si_una _ _ _ _ _ HT). destruct HT. unfold MAX_STREAM in Hlen.
    unfold Seq.sub, Seq.add, wrap32. rewrite <- Zminus_mod. Z.div_mod_to_equations. lia.
  - congruence.
  - intros Ec _. destruct (Hcl Ec) as [[]|E1]; subst f. destruct HR. rewrite ri_next. f_equal. rewrite ri_fin by done.
    rewrite blen_app. lia.
Qed.

(** Only an accepted [send] adds to what was written. *)
Lemma step_written env ev (w w' : world C) :
  step env ev w = Ret w' ->
  w_written w' = w_written w \/ exists buf, ev = EvSend buf /\ w_written w' = w_written w ++ buf.
Proof.
  unfold step. destruct ev as [h d| |buf| | | |changed expired].
  7: destruct (w_pc w).
  all: match goal with |- (mbind _ ?m = _) -> _ => destruct m as [[[r cb'] tr']| |] eqn:E end; cbn; try done.
  all: intros [= <-]; cbn; auto. destruct r; eauto.
Qed.

(** Every event that may happen at an endpoint has an outcome, again with the invariant. *)
Lemma net_step_inv n s env ev :
  net_inv n -> env_ok env -> net_event_ok s ev n ->
  exists n', net_step s env ev n = Ret n' /\ net_inv n' /\
    (forall t, written_grows (endpoint n t) (endpoint n' t)).
Proof.
  intros HI Henv Hev. destruct (HI s) as [Hlen Hs].
  assert (Hok : forall S, extends (endpoint n (other s)) S -> blen S < 2^31 - 4 ->
    exists w', step env ev (endpoint n s) = Ret w' /\ world_inv S (isn (other s)) (isn s) False w' /\
      written_grows (endpoint n s) w').
  { intros S HS Hshort. apply step_inv; [done|done|by apply Hs| |].
    - destruct ev as [h d| |buf| | | |]; try done; [|by destruct Hev as (? & ? & ?)].
      destruct Hev as (seg & Hin & <- & <-). by apply transmitted_ok.
    - destruct ev as [h d| |buf| | | |]; try done. destruct Hev as (seg & Hin & <- & <-).
      destruct (HI (other s)) as [_ Ho]. rewrite other_other in Ho.
      specialize (Ho _ (extends_refl _) (short_written n s (HI s))) as (? & ? & ? & _ & _ & _ & Htr & _).
      rewrite Forall_forall in Htr. specialize (Htr _ Hin) as ((Hsyn & Hrst & _) & _). intros [E|E]; congruence. }
  destruct (Hok _ (extends_refl _) (short_written n (other s) (HI (other s)))) as (w' & Estep & Hw' & Hgrow).
  exists (set_endpoint s w' n). unfold net_step. rewrite Estep. split; [done|].
  assert (Hlen' : blen (w_written w') <= MAX_STREAM).
  { destruct (step_written _ _ _ _ Estep) as [->|(buf & -> & ->)]; [done|].
    rewrite blen_app. by destruct Hev as (_ & _ & ?). }
  assert (Hgrows : forall t, written_grows (endpoint n t) (endpoint (set_endpoint s w' n) t)).
  { intros t. destruct s, t; cbn; try done; by split. }
  split; [|done]. intros t. destruct (decide (t = s)) as [->|Hts].
  - split; rewrite endpoint_set; [done|]. rewrite endpoint_set_other. intros S HS Hshort.
    destruct (Hok S HS Hshort) as (w'' & E'' & Hw'' & _). by replace w' with w'' by congruence.
  - replace t with (other s) in * by (by destruct s, t). destruct (HI (other s)) as [Hlt Ht].
    split; rewrite endpoint_set_other; [done|]. rewrite other_other in *. intros S HS.
    apply Ht. eapply extends_grows; [apply Hgrows|exact HS].
Qed.

Lemma net_reachable_inv n : net_reachable n -> net_inv n.
Proof.
  induction 1 as [cl cr Hl Hr|n s env ev n' _ IH Henv Hev Hstep].
  - intros s. split; [by destruct s|]. intros S _ Hshort.
    destruct s; cbn; by apply start_inv.
  - destruct (net_step_inv n s env ev IH Henv Hev) as (n'' & E & HI & _). by replace n' with n'' by congruence.
Qed.

End network.

(** ** A concrete exchange *)

Module NetworkExample.

Definition isn (s : side) : Z := match s with Left => 4294967294 | Right => 7 end.
Definition left_addr : SocketAddrV4 := mkAddr 3232235521 80.
Definition right_addr : SocketAddrV4 := mkAddr 3232235522 4000.
Definition env : Env := mkEnv 1000 (fun _ => Some [2; 0; 0; 0; 0; 1]).
Definition left_cb : ControlBlock CcNone :=
  ControlBlock_new left_addr right_addr [2; 0; 0; 0; 0; 2] false (isn Right) 5000000 65535 0 (isn Left) 65535 0 1450 CcNone_new.
Definition right_cb : ControlBlock CcNone :=
  ControlBlock_new right_addr left_addr [2; 0; 0; 0; 0; 3] false (isn Left) 5000000 65535 0 (isn Right) 65535 0 1450 CcNone_new.
Definition start : network CcNone :=
  mkNetwork (mkWorld left_cb SenderTop [] [] []) (mkWorld right_cb SenderTop [] [] []).

Definition transmitted (w : world CcNone) : list TcpSegment :=
  omap (fun e => match e with Transmit seg => Some seg | _ => None end) (w_trace w).

Lemma transmitted_in w i seg : transmitted w !! i = Some seg -> Transmit seg ∈ w_trace w.
Proof.
  intros H%list_elem_of_lookup_2. apply list_elem_of_omap in H as (e & He & Hs).
  destruct e; try done. by injection Hs as ->.
Qed.

(** One step, or the same network when it fails. *)
Definition go (s : side) (ev : event) (n : network CcNone) : network CcNone :=
  match net_step s env ev n with Ret n' => n' | _ => n end.
Definition deliver (s : side) (i : nat) (n : network CcNone) : network CcNone :=
  match transmitted (endpoint n (other s)) !! i with
  | Some seg => go s (EvSegment (tcp_hdr seg) (default [] (data seg))) n
  | None => n
  end.

(** The left side writes twice and closes; the network delivers the FIN and the second write
    first, then the first write twice; the right side reads everything. *)
Definition finish : network CcNone :=
  go Right EvRead (go Right EvRead (deliver Right 0 (deliver Right 0 (deliver Right 1 (deliver Right 2
    (go Left EvClose (go Left (EvSend [4; 5]) (go Left (EvSend [1; 2; 3]) start)))))))).

Lemma start_reachable : net_reachable isn start.
Proof.
  apply net_start; eexists _, _, _, _, _, _, _, _, _, _, CcNone_new; (split; [reflexivity|split; [exact I|]]);
    repeat split; vm_compute; congruence.
Qed.

Lemma env_fits : env_ok env.
Proof. vm_compute. split; congruence. Qed.

Lemma go_reachable s ev n : net_reachable isn n -> net_event_ok s ev n -> net_reachable isn (go s ev n).
Proof.
  intros Hn Hev. unfold go. destruct (net_step s env ev n) eqn:E; try done.
  by apply (net_next isn n s env ev); [|apply env_fits|..].
Qed.

Lemma deliver_reachable s i n : net_reachable isn n -> net_reachable isn (deliver s i n).
Proof.
  intros Hn. unfold deliver. destruct (transmitted _ !! i) as [seg|] eqn:E; [|done].
  apply go_reachable; [done|]. exists seg. split; [by eapply transmitted_in|done].
Qed.

Lemma finish_reachable : net_reachable isn finish.
Proof.
  unfold finish. do 2 (apply go_reachable; [|done]). do 4 apply deliver_reachable.
  apply go_reachable; [|vm_compute; lia].
  do 2 (apply go_reachable; [|split; [done|vm_compute; split; congruence]]). apply start_reachable.
Qed.

End NetworkExample.

(** ** Properties *)

Section properties.
Context {C : Type} `{!CongestionControl C, !CongestionControlLaws C}.
Context (isn : side -> Z).

(** C1: data is delivered end to end.  Two endpoints run this code over a network that loses,
    duplicates, reorders and delays segments at will; in every state they can reach, what either
    application has read, followed by what waits in its receive queue, is a prefix of what the
    other application has written. *)
Theorem end_to_end_delivery (n : network C) (s : side) :
  net_reachable isn n ->
  (w_read (endpoint n s) ++ unread (w_cb (endpoint n s))) `prefix_of` w_written (endpoint n (other s)).
Proof.
  intros HI%net_reachable_inv. eapply world_prefix.
  apply (HI s); [apply extends_refl|]. by apply (short_written isn).
Qed.

(** C2: no exchange of segments makes an endpoint panic or loop.  In every state two endpoints
    can reach by admissible events, every admissible event at either of them returns: a segment the
    other has transmitted arrives, the application reads, writes (up to 2^30 bytes, not empty) or closes, a timer,
    a turn of the background sender.  Two events are not admissible: a close while more than
    [UNSENT_QUEUE_CUTOFF] (1024) buffers wait to be sent, on which the code panics, and a sender turn
    that probes a closed window with the only byte of its buffer.  Both streams stay below 2^31
    bytes. *)
Theorem end_to_end_never_panics (n : network C) (s : side) (env : Env) (ev : event) :
  net_reachable isn n -> env_ok env -> net_event_ok s ev n -> exists n', net_step s env ev n = Ret n'.
Proof.
  intros HI%net_reachable_inv Henv Hev.
  destruct (net_step_inv isn n s env ev HI Henv Hev) as (n' & E & _). by exists n'.
Qed.

(** C3: no stream is truncated.  As long as no window probe takes the only byte of its buffer (what
    is left of the buffer would be sent as a FIN) and no close finds more than 1024 buffers unsent
    (the code panics), an endpoint is in a state that has consumed the FIN only when the other
    application has closed its side and every byte it wrote has arrived. *)
Theorem end_to_end_close (n : network C) (s : side) :
  net_reachable isn n -> fin_received (state (w_cb (endpoint n s))) = true ->
  user_is_done_sending (w_cb (endpoint n (other s))) = true /\
  w_read (endpoint n s) ++ unread (w_cb (endpoint n s)) = w_written (endpoint n (other s)).
Proof.
  intros HI%net_reachable_inv Hf.
  pose proof (short_written isn n (other s) (HI (other s))) as Hshort.
  assert (Hall : forall S, extends (endpoint n (other s)) S -> blen S < 2^31 - 4 ->
    w_read (endpoint n s) ++ unread (w_cb (endpoint n s)) = S).
  { intros S HS Hl. eapply world_complete; [|exact Hf]. by apply (HI s). }
  pose proof (Hall _ (extends_refl _) Hshort) as E. split; [|done].
  destruct (user_is_done_sending (w_cb (endpoint n (other s)))) eqn:Hd; [done|]. exfalso.
  set (S := w_written (endpoint n (other s))) in *.
  assert (E2 : w_read (endpoint n s) ++ unread (w_cb (endpoint n s)) = S ++ [0]).
  { apply Hall; [split; [by eexists|congruence]|]. destruct (HI (other s)) as [Hlen _].
    rewrite blen_app. change (blen [0]) with 1. unfold MAX_STREAM in Hlen. fold S in Hlen. lia. }
  rewrite E in E2. apply (f_equal length) in E2. rewrite length_app in E2. simpl in E2. lia.
Qed.

End properties.

Lemma end_to_end_delivery_witness :
  w_read (endpoint NetworkExample.finish Right) = [1; 2; 3; 4; 5] /\
  (w_read (endpoint NetworkExample.finish Right) ++ unread (w_cb (endpoint NetworkExample.finish Right)))
    `prefix_of` w_written (endpoint NetworkExample.finish Left).
Proof.
  split; [vm_compute; reflexivity|].
  apply (end_to_end_delivery NetworkExample.isn NetworkExample.finish Right), NetworkExample.finish_reachable.
Defined.

Lemma end_to_end_never_panics_witness :
  exists n', net_step Right NetworkExample.env EvClose NetworkExample.finish = Ret n'.
Proof.
  apply (end_to_end_never_panics NetworkExample.isn);
    [apply NetworkExample.finish_reachable|apply NetworkExample.env_fits|vm_compute; lia].
Defined.

Lemma end_to_end_close_witness :
  state (w_cb (endpoint NetworkExample.finish Right)) = CloseWait /\
  w_read (endpoint NetworkExample.finish Right) ++ unread (w_cb (endpoint NetworkExample.finish Right)) =
    w_written (endpoint NetworkExample.finish Left).
Proof.
  split; [vm_compute; reflexivity|].
  apply (end_to_end_close NetworkExample.isn NetworkExample.finish Right);
    [apply NetworkExample.finish_reachable|vm_compute; reflexivity].
Defined.
