(* ===== verification/Handshake.v ===== *)
(** * Opening a connection
    (src/src/rust/runtime/network/config/tcp.rs, inetstack/protocols/tcp/isn_generator.rs,
    passive_open.rs and active_open.rs)

    The listening socket with its half-open and its ready connections, the connecting socket, and
    the background task of each that transmits its SYN (or SYN+ACK) until it is answered. *)

From S2P Require Import Prelude Buffer SeqNumber Net TcpSegment Congestion Rto CtrlBlk Wp Stream.
From S2P Require Import Receiving Sending Connection EndToEnd.

#[local] Abbreviation CB := (ControlBlock CcNone).

(** ** Configuration *)

Definition FALLBACK_MSS : Z := 536.
Definition MIN_MSS : Z := FALLBACK_MSS.
Definition MAX_MSS : Z := U16_MAX.
Definition DEFAULT_MSS : Z := 1450.

(** Durations are in nanoseconds. *)
Record TcpConfig := mkTcpConfig {
  advertised_mss : Z;
  handshake_retries : nat;
  handshake_timeout : Z;
  receive_window_size : Z;
  cfg_window_scale : Z;
  cfg_ack_delay_timeout : Z;
  rx_checksum_offload : bool;
  tx_checksum_offload : bool
}.

Definition TcpConfig_default : TcpConfig :=
  mkTcpConfig DEFAULT_MSS 5 (3 * F64.NANOS_PER_SEC) 0xffff 0 (5 * 1000000) false false.

Definition assert (b : bool) : outcome unit := if b then Ret tt else Panic "assertion failed".

Definition set_advertised_mss (self : TcpConfig) (value : Z) : outcome TcpConfig :=
  _ ← assert (MIN_MSS <=? value);
  _ ← assert (value <=? MAX_MSS);
  Ret (mkTcpConfig value (handshake_retries self) (handshake_timeout self) (receive_window_size self)
         (cfg_window_scale self) (cfg_ack_delay_timeout self) (rx_checksum_offload self) (tx_checksum_offload self)).

Definition set_handshake_retries (self : TcpConfig) (value : nat) : outcome TcpConfig :=
  _ ← assert (Nat.ltb 0 value);
  Ret (mkTcpConfig (advertised_mss self) value (handshake_timeout self) (receive_window_size self)
         (cfg_window_scale self) (cfg_ack_delay_timeout self) (rx_checksum_offload self) (tx_checksum_offload self)).

Definition set_handshake_timeout (self : TcpConfig) (value : Z) : outcome TcpConfig :=
  _ ← assert (0 <? value);
  Ret (mkTcpConfig (advertised_mss self) (handshake_retries self) value (receive_window_size self)
         (cfg_window_scale self) (cfg_ack_delay_timeout self) (rx_checksum_offload self) (tx_checksum_offload self)).

Definition set_receive_window_size (self : TcpConfig) (value : Z) : outcome TcpConfig :=
  _ ← assert (0 <? value);
  Ret (mkTcpConfig (advertised_mss self) (handshake_retries self) (handshake_timeout self) value
         (cfg_window_scale self) (cfg_ack_delay_timeout self) (rx_checksum_offload self) (tx_checksum_offload self)).

Definition set_window_scale (self : TcpConfig) (value : Z) : outcome TcpConfig :=
  Ret (mkTcpConfig (advertised_mss self) (handshake_retries self) (handshake_timeout self)
         (receive_window_size self) value (cfg_ack_delay_timeout self) (rx_checksum_offload self)
         (tx_checksum_offload self)).

Definition set_ack_delay_timeout (self : TcpConfig) (value : Z) : outcome TcpConfig :=
  _ ← assert (value <=? 500 * 1000000);
  Ret (mkTcpConfig (advertised_mss self) (handshake_retries self) (handshake_timeout self)
         (receive_window_size self) (cfg_window_scale self) value (rx_checksum_offload self)
         (tx_checksum_offload self)).

(** [if let Some(value) = v { options = options.set(value); }] *)
Definition set_if {A} (set : TcpConfig -> A -> outcome TcpConfig) (v : option A) (options : TcpConfig) :
  outcome TcpConfig :=
  match v with Some value => set options value | None => Ret options end.

Definition TcpConfig_new (mss : option Z) (retries : option nat) (timeout window scale ack_delay : option Z)
  (rx tx : option bool) : outcome TcpConfig :=
  let options := TcpConfig_default in
  options ← set_if set_advertised_mss mss options;
  options ← set_if set_handshake_retries retries options;
  options ← set_if set_handshake_timeout timeout options;
  options ← set_if set_receive_window_size window options;
  options ← set_if set_window_scale scale options;
  options ← set_if set_ack_delay_timeout ack_delay options;
  Ret (mkTcpConfig (advertised_mss options) (handshake_retries options) (handshake_timeout options)
         (receive_window_size options) (cfg_window_scale options) (cfg_ack_delay_timeout options)
         (default (rx_checksum_offload options) rx) (default (tx_checksum_offload options) tx)).

(** [u16::checked_shl] and [u32::checked_shl]: only a shift by the width or more is an overflow;
    bits shifted out are lost. *)
Definition checked_shl16 (v shift : Z) : outcome Z :=
  if shift <? 16 then Ret (wrap16 (Z.shiftl v shift)) else Panic "TODO: Window size overflow".
Definition checked_shl32 (v shift : Z) : outcome Z :=
  if shift <? 32 then Ret (wrap32 (Z.shiftl v shift)) else Panic "TODO: Window size overflow".

(** ** Initial sequence numbers *)

Record IsnGenerator := mkIsn { isn_nonce : Z; isn_counter : Z }.

Definition IsnGenerator_new (nonce : Z) : IsnGenerator := mkIsn nonce 0.

(** [crc32] is the checksum of the crc crate over the bytes fed to its digest. *)
Definition generate (crc32 : list Z -> Z) (self : IsnGenerator) (local remote : SocketAddrV4) :
  Seq.SeqNumber * IsnGenerator :=
  let digest := crc32 (be32 (ip remote) ++ be16 (port remote) ++ be32 (ip local) ++ be16 (port local) ++
                       be32 (isn_nonce self)) in
  (wrap32 (digest + isn_counter self), mkIsn (isn_nonce self) (wrap16 (isn_counter self + 1))).

(** ** The background task *)

(** What the task's [arp.query(..).await] comes to in this turn. *)
Inductive ArpAnswer := ArpOk (link : MacAddress) | ArpPending | ArpErr.

(** At the top of the loop with [n] attempts left, waiting for the handshake timeout with [n]
    attempts left afterwards, or over. *)
Inductive Task := TaskTop (n : nat) | TaskWait (n : nat) (until : Z) | TaskDone.

(** One turn at time [now]: [send] builds the segment.  A failed query uses up an attempt. *)
Fixpoint task_turn (now timeout : Z) (arp : ArpAnswer) (send : MacAddress -> outcome TcpSegment) (n : nat) :
  outcome (Task * list TcpSegment) :=
  match n with
  | O => Ret (TaskDone, [])
  | S n =>
      match arp with
      | ArpOk link => seg ← send link; Ret (TaskWait n (now + timeout), [seg])
      | ArpPending => Ret (TaskTop (S n), [])
      | ArpErr => task_turn now timeout arp send n
      end
  end.

Definition task_poll (now timeout : Z) (arp : ArpAnswer) (send : MacAddress -> outcome TcpSegment) (t : Task) :
  outcome (Task * list TcpSegment) :=
  match t with
  | TaskTop n => task_turn now timeout arp send n
  | TaskWait n until => if until <=? now then task_turn now timeout arp send n else Ret (t, [])
  | TaskDone => Ret (TaskDone, [])
  end.

(** The options of a SYN or SYN+ACK. *)
Definition push_syn_options (tcp_config : TcpConfig) (tcp_hdr : TcpHeader.t) : outcome TcpHeader.t :=
  let mss := wrap16 (advertised_mss tcp_config) in
  tcp_hdr ← TcpHeader.push_option tcp_hdr (MaximumSegmentSize mss);
  TcpHeader.push_option tcp_hdr (WindowScale (cfg_window_scale tcp_config)).

Definition segment_to (tcp_config : TcpConfig) (local_link_addr : MacAddress) (local remote : SocketAddrV4)
  (tcp_hdr : TcpHeader.t) (remote_link_addr : MacAddress) : TcpSegment :=
  mkTcpSegment (Ethernet2Header.new remote_link_addr local_link_addr EtIpv4)
    (Ipv4Header.new (ip local) (ip remote) TCP) tcp_hdr None (rx_checksum_offload tcp_config).

(** The last window scale and the last MSS among the options. *)
Definition scan_options (opts : list TcpOptions2) : option Z * Z :=
  foldl (fun acc option =>
    match option with
    | WindowScale w => (Some w, snd acc)
    | MaximumSegmentSize m => (fst acc, m)
    | _ => acc
    end) (None, FALLBACK_MSS) opts.

(** ** The listening socket *)

Record InflightAccept := mkInflight {
  if_local_isn : Seq.SeqNumber;
  if_remote_isn : Seq.SeqNumber;
  if_header_window_size : Z;
  if_remote_window_scale : option Z;
  if_mss : Z;
  if_handle : Task
}.

Record ReadySockets := mkReady {
  rs_ready : list (Result CB);
  rs_endpoints : gset SocketAddrV4;
  rs_waker : bool
}.

Module Ready.

Definition push_ok (self : ReadySockets) (cb : CB) : outcome ReadySockets :=
  if decide (remote cb ∈ rs_endpoints self) then Panic "assertion failed"
  else Ret (mkReady (rs_ready self ++ [Ok cb]) ({[remote cb]} ∪ rs_endpoints self) false).

Definition push_err (self : ReadySockets) (err : Fail) : ReadySockets :=
  mkReady (rs_ready self ++ [Err err]) (rs_endpoints self) false.

(** [None] is [Poll::Pending]. *)
Definition poll (self : ReadySockets) : outcome (option (Result CB) * ReadySockets) :=
  match rs_ready self with
  | [] => Ret (None, mkReady [] (rs_endpoints self) true)
  | r :: ready =>
      match r with
      | Ok cb =>
          if decide (remote cb ∈ rs_endpoints self) then
            Ret (Some r, mkReady ready (rs_endpoints self ∖ {[remote cb]}) (rs_waker self))
          else Panic "assertion failed"
      | Err _ => Ret (Some r, mkReady ready (rs_endpoints self) (rs_waker self))
      end
  end.

Definition len (self : ReadySockets) : nat := length (rs_ready self).

End Ready.

Record PassiveSocket := mkPassive {
  ps_inflight : gmap SocketAddrV4 InflightAccept;
  ps_ready : ReadySockets;
  ps_max_backlog : nat;
  ps_isn_generator : IsnGenerator;
  ps_local : SocketAddrV4;
  ps_tcp_config : TcpConfig;
  ps_local_link_addr : MacAddress
}.

Module Passive.

Definition new (local : SocketAddrV4) (max_backlog : nat) (tcp_config : TcpConfig)
  (local_link_addr : MacAddress) (nonce : Z) : PassiveSocket :=
  mkPassive ∅ (mkReady [] ∅ false) max_backlog (IsnGenerator_new nonce) local tcp_config local_link_addr.

Definition set_inflight (v : gmap SocketAddrV4 InflightAccept) (self : PassiveSocket) : PassiveSocket :=
  mkPassive v (ps_ready self) (ps_max_backlog self) (ps_isn_generator self) (ps_local self)
    (ps_tcp_config self) (ps_local_link_addr self).
Definition set_ready (v : ReadySockets) (self : PassiveSocket) : PassiveSocket :=
  mkPassive (ps_inflight self) v (ps_max_backlog self) (ps_isn_generator self) (ps_local self)
    (ps_tcp_config self) (ps_local_link_addr self).
Definition set_isn (v : IsnGenerator) (self : PassiveSocket) : PassiveSocket :=
  mkPassive (ps_inflight self) (ps_ready self) (ps_max_backlog self) v (ps_local self)
    (ps_tcp_config self) (ps_local_link_addr self).

Definition poll_accept (self : PassiveSocket) : outcome (option (Result CB) * PassiveSocket) :=
  '(r, ready) ← Ready.poll (ps_ready self);
  Ret (r, set_ready ready self).

(** The ACK that completes the handshake of [accept]. *)
Definition establish (self : PassiveSocket) (remote : SocketAddrV4) (accept : InflightAccept) (header : TcpHeader.t) :
  outcome (Result unit * PassiveSocket) :=
  if negb (TcpHeader.ack header) then Ret (Err (mkFail EBADMSG "expeting ACK"), self) else
  if negb (TcpHeader.ack_num header =? if_local_isn accept ⊕ 1) then
    Ret (Err (mkFail EBADMSG "invalid SYN+ACK seq num"), self)
  else
  let '(local_window_scale, remote_window_scale) :=
    match if_remote_window_scale accept with
    | Some w => (cfg_window_scale (ps_tcp_config self), w)
    | None => (0, 0)
    end in
  remote_window_size ← checked_shl16 (if_header_window_size accept) remote_window_scale;
  local_window_size ← checked_shl32 (receive_window_size (ps_tcp_config self)) local_window_scale;
  let self := set_inflight (delete remote (ps_inflight self)) self in
  let cb := ControlBlock_new (ps_local self) remote (ps_local_link_addr self)
    (tx_checksum_offload (ps_tcp_config self)) (if_remote_isn accept ⊕ 1)
    (cfg_ack_delay_timeout (ps_tcp_config self)) local_window_size local_window_scale
    (if_local_isn accept ⊕ 1) remote_window_size remote_window_scale (if_mss accept)
    CcNone_new in
  ready ← Ready.push_ok (ps_ready self) cb;
  Ret (Ok tt, set_ready ready self).

Definition receive (crc32 : list Z -> Z) (self : PassiveSocket) (ip_header : Ipv4Header.t) (header : TcpHeader.t) :
  outcome (Result unit * PassiveSocket) :=
  let remote := mkAddr (Ipv4Header.get_src_addr ip_header) (TcpHeader.src_port header) in
  if decide (remote ∈ rs_endpoints (ps_ready self)) then Ret (Ok tt, self) else
  let inflight_len := size (ps_inflight self) in
  match ps_inflight self !! remote with
  | Some accept => establish self remote accept header
  | None =>
      if negb (TcpHeader.syn header) || TcpHeader.ack header || TcpHeader.rst header then
        Ret (Err (mkFail EBADMSG "invalid flags"), self)
      else if Nat.leb (ps_max_backlog self) (inflight_len + Ready.len (ps_ready self)) then
        Ret (Err (mkFail ECONNREFUSED "connection refused"), self)
      else
        let '(local_isn, isn) := generate crc32 (ps_isn_generator self) (ps_local self) remote in
        let self := set_isn isn self in
        opts ← TcpHeader.iter_options header;
        let '(remote_window_scale, mss) := scan_options opts in
        let accept := mkInflight local_isn (TcpHeader.seq_num header) (TcpHeader.window_size header)
          remote_window_scale mss (TaskTop (handshake_retries (ps_tcp_config self))) in
        Ret (Ok tt, set_inflight (<[remote := accept]> (ps_inflight self)) self)
  end.

(** The SYN+ACK of the background task. *)
Definition syn_ack (self : PassiveSocket) (remote : SocketAddrV4) (accept : InflightAccept)
  (remote_link_addr : MacAddress) : outcome TcpSegment :=
  let tcp_hdr := TcpHeader.new (port (ps_local self)) (port remote) in
  let tcp_hdr := TcpHeader.set_syn tcp_hdr true in
  let tcp_hdr := TcpHeader.set_seq_num tcp_hdr (if_local_isn accept) in
  let tcp_hdr := TcpHeader.set_ack tcp_hdr (if_remote_isn accept ⊕ 1) in
  let tcp_hdr := TcpHeader.set_window_size tcp_hdr (receive_window_size (ps_tcp_config self)) in
  tcp_hdr ← push_syn_options (ps_tcp_config self) tcp_hdr;
  Ret (segment_to (ps_tcp_config self) (ps_local_link_addr self) (ps_local self) remote tcp_hdr remote_link_addr).

(** A turn of the background task of the half-open connection from [remote]. *)
Definition background (now : Z) (arp : ArpAnswer) (remote : SocketAddrV4) (self : PassiveSocket) :
  outcome (PassiveSocket * list TcpSegment) :=
  match ps_inflight self !! remote with
  | None => Ret (self, [])
  | Some accept =>
      '(t, tx) ← task_poll now (handshake_timeout (ps_tcp_config self)) arp (syn_ack self remote accept)
                   (if_handle accept);
      let accept := mkInflight (if_local_isn accept) (if_remote_isn accept) (if_header_window_size accept)
        (if_remote_window_scale accept) (if_mss accept) t in
      Ret (set_inflight (<[remote := accept]> (ps_inflight self)) self, tx)
  end.

Definition push_migrated_in (self : PassiveSocket) (cb : CB) : outcome PassiveSocket :=
  ready ← Ready.push_ok (ps_ready self) cb;
  Ret (set_ready ready self).

End Passive.

(** ** The connecting socket *)

Record ActiveOpenSocket := mkActiveOpen {
  ao_local_isn : Seq.SeqNumber;
  ao_local : SocketAddrV4;
  ao_remote : SocketAddrV4;
  ao_local_link_addr : MacAddress;
  ao_tcp_config : TcpConfig;
  ao_handle : Task;
  ao_waker : bool;
  ao_result : option (Result CB)
}.

Module ActiveOpen.

Definition new (local_isn : Seq.SeqNumber) (local remote : SocketAddrV4) (tcp_config : TcpConfig)
  (local_link_addr : MacAddress) : ActiveOpenSocket :=
  mkActiveOpen local_isn local remote local_link_addr tcp_config (TaskTop (handshake_retries tcp_config))
    false None.

Definition set_handle (v : Task) (self : ActiveOpenSocket) : ActiveOpenSocket :=
  mkActiveOpen (ao_local_isn self) (ao_local self) (ao_remote self) (ao_local_link_addr self)
    (ao_tcp_config self) v (ao_waker self) (ao_result self).

Definition poll_result (self : ActiveOpenSocket) : option (Result CB) * ActiveOpenSocket :=
  (ao_result self,
   mkActiveOpen (ao_local_isn self) (ao_local self) (ao_remote self) (ao_local_link_addr self)
     (ao_tcp_config self) (ao_handle self)
     (match ao_result self with None => true | Some _ => ao_waker self end) None).

Definition set_result (result : Result CB) (self : ActiveOpenSocket) : ActiveOpenSocket :=
  mkActiveOpen (ao_local_isn self) (ao_local self) (ao_remote self) (ao_local_link_addr self)
    (ao_tcp_config self) (ao_handle self) false (Some result).

(** The connection a SYN+ACK opens. *)
Definition established (self : ActiveOpenSocket) (header : TcpHeader.t) (remote_seq_num : Seq.SeqNumber) : outcome CB :=
  opts ← TcpHeader.iter_options header;
  let '(remote_window_scale, mss) := scan_options opts in
  let '(local_window_scale, remote_window_scale) :=
    match remote_window_scale with
    | Some w => (cfg_window_scale (ao_tcp_config self), w)
    | None => (0, 0)
    end in
  _ ← assert ((local_window_scale <=? 14) && (remote_window_scale <=? 14));
  rx_window_size ← checked_shl16 (receive_window_size (ao_tcp_config self)) local_window_scale;
  tx_window_size ← checked_shl16 (TcpHeader.window_size header) remote_window_scale;
  Ret (ControlBlock_new (ao_local self) (ao_remote self) (ao_local_link_addr self)
    (tx_checksum_offload (ao_tcp_config self)) remote_seq_num (cfg_ack_delay_timeout (ao_tcp_config self))
    rx_window_size local_window_scale (ao_local_isn self ⊕ 1) tx_window_size remote_window_scale mss
    CcNone_new).

Definition receive (env : Env) (self : ActiveOpenSocket) (header : TcpHeader.t) :
  outcome (ActiveOpenSocket * list TcpSegment) :=
  let expected_seq := ao_local_isn self ⊕ 1 in
  if negb (TcpHeader.ack header && (TcpHeader.ack_num header =? expected_seq)) then Ret (self, []) else
  if TcpHeader.rst header then
    Ret (set_result (Err (mkFail ECONNREFUSED "connection refused")) self, [])
  else if negb (TcpHeader.syn header) then Ret (self, []) else
  match arp_try_query env (ip (ao_remote self)) with
  | None => Panic "TODO: Clean up ARP query control flow"
  | Some remote_link_addr =>
      let remote_seq_num := TcpHeader.seq_num header ⊕ 1 in
      let tcp_hdr := TcpHeader.new (port (ao_local self)) (port (ao_remote self)) in
      let tcp_hdr := TcpHeader.set_ack tcp_hdr remote_seq_num in
      let tcp_hdr := TcpHeader.set_window_size tcp_hdr (receive_window_size (ao_tcp_config self)) in
      let tcp_hdr := TcpHeader.set_seq_num tcp_hdr (ao_local_isn self ⊕ 1) in
      let segment := segment_to (ao_tcp_config self) (ao_local_link_addr self) (ao_local self) (ao_remote self)
                       tcp_hdr remote_link_addr in
      cb ← established self header remote_seq_num;
      Ret (set_result (Ok cb) self, [segment])
  end.

(** The SYN of the background task. *)
Definition syn (self : ActiveOpenSocket) (remote_link_addr : MacAddress) : outcome TcpSegment :=
  let tcp_hdr := TcpHeader.new (port (ao_local self)) (port (ao_remote self)) in
  let tcp_hdr := TcpHeader.set_syn tcp_hdr true in
  let tcp_hdr := TcpHeader.set_seq_num tcp_hdr (ao_local_isn self) in
  let tcp_hdr := TcpHeader.set_window_size tcp_hdr (receive_window_size (ao_tcp_config self)) in
  tcp_hdr ← push_syn_options (ao_tcp_config self) tcp_hdr;
  Ret (segment_to (ao_tcp_config self) (ao_local_link_addr self) (ao_local self) (ao_remote self) tcp_hdr
         remote_link_addr).

(** A turn of the background task; running out of attempts is the result of the connection. *)
Definition background (now : Z) (arp : ArpAnswer) (self : ActiveOpenSocket) :
  outcome (ActiveOpenSocket * list TcpSegment) :=
  '(t, tx) ← task_poll now (handshake_timeout (ao_tcp_config self)) arp (syn self) (ao_handle self);
  let self' := set_handle t self in
  match ao_handle self, t with
  | TaskDone, _ => Ret (self', tx)
  | _, TaskDone => Ret (set_result (Err (mkFail ETIMEDOUT "handshake timeout")) self', tx)
  | _, _ => Ret (self', tx)
  end.

End ActiveOpen.

(** ** Well-formed sockets *)

Record config_ok (cfg : TcpConfig) : Prop := {
  co_mss : MIN_MSS <= advertised_mss cfg <= MAX_MSS;
  co_retries : (0 < handshake_retries cfg)%nat;
  co_timeout : 0 < handshake_timeout cfg;
  co_window : 0 < receive_window_size cfg <= U16_MAX;
  co_scale : 0 <= cfg_window_scale cfg <= 14;
  co_delay : 0 <= cfg_ack_delay_timeout cfg <= 500 * 1000000
}.

Definition remotes (l : list (Result CB)) : list SocketAddrV4 :=
  omap (fun r => match r with Ok cb => Some (remote cb) | Err _ => None end) l.

(** A window scale and an MSS as a peer may announce them. *)
Definition announced (scale : option Z) (mss : Z) : Prop :=
  match scale with Some w => 0 <= w <= 14 | None => True end /\ 1 <= mss.

Record inflight_ok (a : InflightAccept) : Prop := {
  io_local : u32_ok (if_local_isn a);
  io_remote : u32_ok (if_remote_isn a);
  io_window : u16_ok (if_header_window_size a);
  io_announced : announced (if_remote_window_scale a) (if_mss a)
}.

Definition cb_started (r : Result CB) : Prop :=
  match r with Ok cb => exists b c, start_ok b c cb | Err _ => True end.

Record passive_wf (self : PassiveSocket) : Prop := {
  pw_config : config_ok (ps_tcp_config self);
  pw_endpoints : rs_endpoints (ps_ready self) = list_to_set (remotes (rs_ready (ps_ready self)));
  pw_nodup : NoDup (remotes (rs_ready (ps_ready self)));
  pw_disjoint : forall a, a ∈ rs_endpoints (ps_ready self) -> ps_inflight self !! a = None;
  pw_inflight : map_Forall (fun _ a => inflight_ok a) (ps_inflight self);
  pw_ready : Forall cb_started (rs_ready (ps_ready self));
  pw_backlog : (size (ps_inflight self) + Ready.len (ps_ready self) <= ps_max_backlog self)%nat
}.

(** A SYN as a peer may send it. *)
Definition syn_ok (h : TcpHeader.t) : Prop :=
  u32_ok (TcpHeader.seq_num h) /\ u16_ok (TcpHeader.window_size h) /\
  exists opts, TcpHeader.iter_options h = Ret opts /\
    announced (fst (scan_options opts)) (snd (scan_options opts)).

Lemma checked_shl16_ok v shift :
  0 <= shift <= 14 -> exists w, checked_shl16 v shift = Ret w /\ u16_ok w.
Proof.
  intros H. unfold checked_shl16. rewrite (proj2 (Z.ltb_lt _ _)) by lia. eexists. split; [done|].
  apply wrap16_ok.
Qed.

(** A scaled 16-bit window fits 30 bits, and scales back. *)
Lemma checked_shl32_ok v shift :
  0 <= v <= U16_MAX -> 0 <= shift <= 14 ->
  checked_shl32 v shift = Ret (Z.shiftl v shift) /\ 0 <= Z.shiftl v shift <= 2^30 /\
  Z.shiftr (Z.shiftl v shift) shift <= U16_MAX.
Proof.
  intros Hv Hs. unfold checked_shl32. rewrite (proj2 (Z.ltb_lt _ _)) by lia.
  assert (Hp : 0 < 2^shift <= 2^14) by (split; [apply Z.pow_pos_nonneg; lia|apply Z.pow_le_mono_r; lia]).
  assert (Hb : 0 <= Z.shiftl v shift <= 2^30).
  { rewrite Z.shiftl_mul_pow2 by lia. unfold U16_MAX in Hv. split; [nia|].
    transitivity ((2^16 - 1) * 2^14); [nia|lia]. }
  rewrite wrap32_small by (unfold u32_ok; lia). split; [done|]. split; [done|].
  rewrite Z.shiftr_shiftl_l, Z.sub_diag, Z.shiftl_0_r by lia. lia.
Qed.

Lemma shiftr_le v s m : 0 <= v <= m -> 0 <= s -> Z.shiftr v s <= m.
Proof.
  intros Hv Hs. rewrite Z.shiftr_div_pow2 by done. assert (0 < 2^s) by (apply Z.pow_pos_nonneg; lia).
  transitivity v; [|lia]. apply Z.div_le_upper_bound; nia.
Qed.

(** The connection an accepted handshake leaves. *)
Definition accepted (self : PassiveSocket) (r : SocketAddrV4) (a : InflightAccept) (cb : CB) : Prop :=
  remote cb = r /\ local cb = ps_local self /\ start_ok (if_remote_isn a ⊕ 1) (if_local_isn a ⊕ 1) cb.

Lemma push_ready_wf self r (a : InflightAccept) cb isn :
  passive_wf self -> ps_inflight self !! r = Some a -> remote cb = r -> cb_started (Ok cb) ->
  passive_wf (mkPassive (delete r (ps_inflight self))
    (mkReady (rs_ready (ps_ready self) ++ [Ok cb]) ({[r]} ∪ rs_endpoints (ps_ready self)) false)
    (ps_max_backlog self) isn (ps_local self) (ps_tcp_config self) (ps_local_link_addr self)).
Proof.
  intros [] Ha Hr Hcb.
  assert (Hnew : r ∉ rs_endpoints (ps_ready self)) by (intros Hin%pw_disjoint0; congruence).
  constructor; cbn; try done.
  - unfold remotes. rewrite omap_app, list_to_set_app_L. cbn. fold (remotes (rs_ready (ps_ready self))).
    by rewrite Hr, <- pw_endpoints0, (right_id_L ∅ (∪)), (comm_L (∪)).
  - unfold remotes. rewrite omap_app. cbn. apply NoDup_app. split; [done|]. split; [|apply NoDup_singleton].
    intros x Hx ->%list_elem_of_singleton. apply Hnew. rewrite pw_endpoints0. rewrite Hr in Hx. by apply elem_of_list_to_set.
  - intros x [->%elem_of_singleton|Hx]%elem_of_union; [apply lookup_delete_eq|].
    by rewrite lookup_delete_None, (pw_disjoint0 x Hx); auto.
  - by apply map_Forall_delete.
  - apply Forall_app. auto.
  - rewrite map_size_delete_Some by (by eexists). unfold Ready.len in *. cbn. rewrite length_app. cbn.
    assert (size (ps_inflight self) <> 0)%nat by (apply map_size_non_empty_iff; by intros E; rewrite E in Ha). lia.
Qed.

Lemma establish_ok self r a h :
  passive_wf self -> ps_inflight self !! r = Some a ->
  exists res self', Passive.establish self r a h = Ret (res, self') /\ passive_wf self' /\
    match res with
    | Ok _ => exists cb, accepted self r a cb /\ ps_inflight self' = delete r (ps_inflight self) /\
                rs_ready (ps_ready self') = rs_ready (ps_ready self) ++ [Ok cb]
    | Err e => self' = self /\ errno e = EBADMSG
    end /\
    (TcpHeader.ack h = true -> TcpHeader.ack_num h = if_local_isn a ⊕ 1 -> exists u, res = Ok u).
Proof.
  intros Hwf Ha. pose proof Hwf as []. pose proof (pw_inflight0 _ _ Ha) as [Hl Hr Hw [Hs Hm]]. cbv beta in *.
  unfold Passive.establish. destruct (TcpHeader.ack h) eqn:Eack; cbn [negb].
  2:{ do 2 eexists. split; [done|]. split; [done|]. done. }
  destruct (Z.eqb_spec (TcpHeader.ack_num h) (if_local_isn a ⊕ 1)) as [En|En]; cbn [negb].
  2:{ do 2 eexists. split; [done|]. split; [done|]. split; [done|]. congruence. }
  set (scales := match if_remote_window_scale a with Some w => (cfg_window_scale (ps_tcp_config self), w) | None => (0, 0) end).
  assert (Hsc : 0 <= fst scales <= 14 /\ 0 <= snd scales <= 14).
  { subst scales. destruct pw_config0. destruct (if_remote_window_scale a); cbn; lia. }
  destruct scales as [ls rs]. cbn [fst snd] in Hsc. destruct Hsc as [Hls Hrs].
  destruct (checked_shl16_ok (if_header_window_size a) rs Hrs) as (win & -> & Hwin). cbn [mbind outcome_bind].
  destruct (checked_shl32_ok (receive_window_size (ps_tcp_config self)) ls) as (-> & Hbuf & Hback);
    [destruct pw_config0; lia|done|]. cbn [mbind outcome_bind].
  assert (Hnew : r ∉ rs_endpoints (ps_ready self)) by (intros Hin%pw_disjoint0; congruence).
  unfold Ready.push_ok. cbn [Passive.set_inflight ps_ready remote ControlBlock_new]. rewrite decide_False by done.
  cbn [mbind outcome_bind]. do 2 eexists. split; [reflexivity|].
  match goal with |- context [Ok ?x :: nil] => set (cb := x) end.
  assert (Hstart : start_ok (if_remote_isn a ⊕ 1) (if_local_isn a ⊕ 1) cb).
  { eexists _, _, _, _, _, _, _, _, _, _, CcNone_new. split; [reflexivity|]. split; [exact I|]. split; [apply seq_add_ok|]. split; [apply seq_add_ok|].
    unfold u16_ok in Hwin. repeat split; try lia. }
  split; [|split; [exists cb; split; [by split|done]|by eexists]].
  apply (push_ready_wf self r a cb (ps_isn_generator self)); [done|done|done|]. by eexists _, _.
Qed.

Lemma generate_ok crc32 g l r : u32_ok (fst (generate crc32 g l r)).
Proof. apply wrap32_ok. Qed.

(** A packet for the listening socket never makes it panic, and leaves it well-formed. *)
Lemma passive_receive_ok crc32 self ip_header h :
  passive_wf self -> (TcpHeader.syn h = true -> syn_ok h) ->
  exists res self', Passive.receive crc32 self ip_header h = Ret (res, self') /\ passive_wf self'.
Proof.
  intros Hwf Hsyn. unfold Passive.receive.
  set (r := mkAddr _ _). case_decide as Hin; [by do 2 eexists|].
  destruct (ps_inflight self !! r) as [a|] eqn:Ea.
  { destruct (establish_ok self r a h Hwf Ea) as (res & self' & E & Hwf' & _). by exists res, self'. }
  destruct (TcpHeader.syn h); [|by do 2 eexists]. destruct (Hsyn eq_refl) as (Hseq & Hwin & opts & Hopts & Hann).
  destruct (_ || _ || _); [by do 2 eexists|]. destruct (Nat.leb_spec (ps_max_backlog self) (size (ps_inflight self) + Ready.len (ps_ready self))); [by do 2 eexists|].
  pose proof (generate_ok crc32 (ps_isn_generator self) (ps_local self) r) as Hgen.
  destruct (generate _ _ _ _) as [isn g]. rewrite Hopts. cbn [mbind outcome_bind].
  destruct (scan_options opts) as [sc m]. do 2 eexists. split; [done|]. destruct Hwf. constructor; cbn; try done.
  - intros x Hx. rewrite lookup_insert_None. split; [by apply pw_disjoint0|]. intros <-. done.
  - by apply map_Forall_insert_2.
  - rewrite map_size_insert_None by done. unfold Ready.len in *. cbn. lia.
Qed.

Lemma poll_accept_ok self :
  passive_wf self ->
  exists r self', Passive.poll_accept self = Ret (r, self') /\ passive_wf self' /\
    match r with
    | None => rs_ready (ps_ready self) = []
    | Some x => rs_ready (ps_ready self) = x :: rs_ready (ps_ready self') /\ cb_started x
    end.
Proof.
  intros Hwf. destruct self as [infl [ready eps wk] mb isn lo cfg mac].
  unfold Passive.poll_accept, Ready.poll. cbn [ps_ready rs_ready rs_endpoints rs_waker]. destruct Hwf.
  cbn in *. destruct ready as [|[cb|e] ready]; cbn [mbind outcome_bind].
  - do 2 eexists. split; [done|]. split; [|done]. by constructor.
  - apply Forall_cons in pw_ready0 as [Hcb Hready]. apply NoDup_cons in pw_nodup0 as [Hni Hnd].
    fold (remotes ready) in *.
    rewrite decide_True by (rewrite pw_endpoints0; apply elem_of_list_to_set; left). cbn [mbind outcome_bind].
    do 2 eexists. split; [done|]. split; [|done]. constructor; cbn; try done.
    + rewrite pw_endpoints0. cbn. fold (remotes ready). apply set_eq. intros x.
      rewrite elem_of_difference, elem_of_union, elem_of_singleton, elem_of_list_to_set.
      split; [by intros [[->|?] ?]|]. intros Hx. split; [by right|]. by intros ->.
    + intros x [Hx _]%elem_of_difference. by apply pw_disjoint0.
    + unfold Ready.len in *. cbn in *. lia.
  - apply Forall_cons in pw_ready0 as [Hcb Hready]. do 2 eexists. split; [done|]. split; [|done].
    constructor; cbn; try done. unfold Ready.len in *. cbn in *. lia.
Qed.

(** The two options of a SYN or SYN+ACK, and nothing else, are added. *)
Lemma push_syn_options_ok cfg h :
  config_ok cfg -> TcpHeader.num_options h = 0%nat ->
  TcpHeader.option_list h = replicate MAX_TCP_OPTIONS NoOperation ->
  exists h', push_syn_options cfg h = Ret h' /\
    TcpHeader.iter_options h' = Ret [MaximumSegmentSize (advertised_mss cfg); WindowScale (cfg_window_scale cfg)] /\
    TcpHeader.src_port h' = TcpHeader.src_port h /\ TcpHeader.seq_num h' = TcpHeader.seq_num h /\
    TcpHeader.syn h' = TcpHeader.syn h /\ TcpHeader.rst h' = TcpHeader.rst h /\
    TcpHeader.window_size h' = TcpHeader.window_size h /\
    TcpHeader.ack h' = TcpHeader.ack h /\ TcpHeader.ack_num h' = TcpHeader.ack_num h.
Proof.
  intros [] Hn Ho. unfold push_syn_options.
  rewrite (wrap16_small (advertised_mss cfg)) by (unfold u16_ok, MAX_MSS, MIN_MSS, FALLBACK_MSS, U16_MAX in *; lia).
  destruct h. cbn in Hn, Ho. subst. cbn. eexists. split; [reflexivity|]. done.
Qed.

(** A turn of the background task never panics when its segment can be built. *)
Lemma task_turn_ok now timeout arp send n :
  (forall link, exists seg, send link = Ret seg) ->
  exists t tx, task_turn now timeout arp send n = Ret (t, tx).
Proof.
  intros Hsend. induction n as [|n IH]; cbn; [by do 2 eexists|]. destruct arp as [link| |]; [|by do 2 eexists|done].
  destruct (Hsend link) as [seg ->]. by do 2 eexists.
Qed.

Lemma task_poll_ok now timeout arp send t :
  (forall link, exists seg, send link = Ret seg) ->
  exists t' tx, task_poll now timeout arp send t = Ret (t', tx).
Proof.
  intros Hsend. destruct t as [n|n u|]; cbn; [by apply task_turn_ok| |by do 2 eexists].
  destruct (u <=? now); [by apply task_turn_ok|by do 2 eexists].
Qed.

(** What the SYN+ACK and the SYN say. *)
Lemma syn_ack_ok self r a link :
  config_ok (ps_tcp_config self) ->
  exists h, Passive.syn_ack self r a link =
      Ret (segment_to (ps_tcp_config self) (ps_local_link_addr self) (ps_local self) r h link) /\
    TcpHeader.iter_options h = Ret [MaximumSegmentSize (advertised_mss (ps_tcp_config self));
                                    WindowScale (cfg_window_scale (ps_tcp_config self))] /\
    TcpHeader.src_port h = port (ps_local self) /\ TcpHeader.seq_num h = if_local_isn a /\
    TcpHeader.syn h = true /\ TcpHeader.rst h = false /\
    TcpHeader.window_size h = receive_window_size (ps_tcp_config self) /\
    TcpHeader.ack h = true /\ TcpHeader.ack_num h = if_remote_isn a ⊕ 1.
Proof.
  intros Hc. unfold Passive.syn_ack. cbv zeta.
  match goal with |- context [push_syn_options _ ?h0] =>
    destruct (push_syn_options_ok (ps_tcp_config self) h0 Hc) as (h & E & Hh) end; [done|done|].
  exists h. rewrite E. done.
Qed.

Lemma syn_segment_ok self link :
  config_ok (ao_tcp_config self) ->
  exists h, ActiveOpen.syn self link =
      Ret (segment_to (ao_tcp_config self) (ao_local_link_addr self) (ao_local self) (ao_remote self) h link) /\
    TcpHeader.iter_options h = Ret [MaximumSegmentSize (advertised_mss (ao_tcp_config self));
                                    WindowScale (cfg_window_scale (ao_tcp_config self))] /\
    TcpHeader.src_port h = port (ao_local self) /\ TcpHeader.seq_num h = ao_local_isn self /\
    TcpHeader.syn h = true /\ TcpHeader.rst h = false /\
    TcpHeader.window_size h = receive_window_size (ao_tcp_config self) /\
    TcpHeader.ack h = false.
Proof.
  intros Hc. unfold ActiveOpen.syn. cbv zeta.
  match goal with |- context [push_syn_options _ ?h0] =>
    destruct (push_syn_options_ok (ao_tcp_config self) h0 Hc) as (h & E & H1 & H2 & H3 & H4 & H5 & H6 & H7 & _) end;
    [done|done|].
  exists h. rewrite E. done.
Qed.

Lemma passive_background_ok now arp r self :
  passive_wf self ->
  exists self' tx, Passive.background now arp r self = Ret (self', tx) /\ passive_wf self'.
Proof.
  intros Hwf. unfold Passive.background. destruct (ps_inflight self !! r) as [a|] eqn:Ea; [|by do 2 eexists].
  destruct (task_poll_ok now (handshake_timeout (ps_tcp_config self)) arp (Passive.syn_ack self r a) (if_handle a))
    as (t & tx & ->).
  { intros link. destruct (syn_ack_ok self r a link) as (h & -> & _); [apply Hwf|by eexists]. }
  cbn [mbind outcome_bind]. do 2 eexists. split; [done|]. destruct Hwf. constructor; cbn; try done.
  - intros x Hx. rewrite lookup_insert_None. split; [by apply pw_disjoint0|]. intros <-.
    by rewrite (pw_disjoint0 _ Hx) in Ea.
  - apply map_Forall_insert_2; [|done]. destruct (pw_inflight0 _ _ Ea). by constructor.
  - rewrite map_size_insert_Some by (by eexists). done.
Qed.

(** ** Everything that can happen to a listening socket *)

Inductive passive_event :=
| PeSegment (ip_header : Ipv4Header.t) (header : TcpHeader.t)
| PeAccept
| PeTask (now : Z) (arp : ArpAnswer) (remote : SocketAddrV4).

Definition passive_step (crc32 : list Z -> Z) (ev : passive_event) (self : PassiveSocket) : outcome PassiveSocket :=
  match ev with
  | PeSegment ip_header header => '(_, self) ← Passive.receive crc32 self ip_header header; Ret self
  | PeAccept => '(_, self) ← Passive.poll_accept self; Ret self
  | PeTask now arp remote => '(self, _) ← Passive.background now arp remote self; Ret self
  end.

Definition passive_event_ok (ev : passive_event) : Prop :=
  match ev with PeSegment _ h => TcpHeader.syn h = true -> syn_ok h | _ => True end.

Fixpoint passive_run (crc32 : list Z -> Z) (evs : list passive_event) (self : PassiveSocket) : outcome PassiveSocket :=
  match evs with
  | [] => Ret self
  | ev :: evs => self ← passive_step crc32 ev self; passive_run crc32 evs self
  end.

Lemma passive_step_wf crc32 ev self :
  passive_wf self -> passive_event_ok ev ->
  exists self', passive_step crc32 ev self = Ret self' /\ passive_wf self'.
Proof.
  intros Hwf Hev. destruct ev as [ih h| |now arp r]; cbn in *.
  - destruct (passive_receive_ok crc32 self ih h Hwf Hev) as (res & self' & -> & Hwf'). by eexists.
  - destruct (poll_accept_ok self Hwf) as (r & self' & -> & Hwf' & _). by eexists.
  - destruct (passive_background_ok now arp r self Hwf) as (self' & tx & -> & Hwf'). by eexists.
Qed.

Lemma passive_run_wf crc32 evs self :
  passive_wf self -> Forall passive_event_ok evs ->
  exists self', passive_run crc32 evs self = Ret self' /\ passive_wf self'.
Proof.
  revert self. induction evs as [|ev evs IH]; intros self Hwf Hev; [by exists self|].
  apply Forall_cons in Hev as [H1 H2]. destruct (passive_step_wf crc32 ev self Hwf H1) as (self' & E & Hwf').
  cbn. rewrite E. by apply IH.
Qed.

Lemma passive_new_wf local max_backlog cfg mac nonce :
  config_ok cfg -> passive_wf (Passive.new local max_backlog cfg mac nonce).
Proof.
  intros Hc. constructor; cbn; [done|done|constructor|done|apply map_Forall_empty|constructor|].
  rewrite map_size_empty. unfold Ready.len. cbn. lia.
Qed.

(** ** The three-way handshake *)

(** The sequence numbers of the two streams a handshake agrees on. *)
Definition agreed (client_isn server_isn : Z) (s : side) : Z :=
  match s with Left => client_isn ⊕ 1 | Right => server_isn ⊕ 1 end.

Lemma scan_syn_options cfg :
  scan_options [MaximumSegmentSize (advertised_mss cfg); WindowScale (cfg_window_scale cfg)] =
    (Some (cfg_window_scale cfg), advertised_mss cfg).
Proof. done. Qed.

(** The SYN+ACK opens the client's side. *)
Lemma established_ok self h rs scfg :
  config_ok (ao_tcp_config self) -> config_ok scfg -> u16_ok (TcpHeader.window_size h) ->
  TcpHeader.iter_options h = Ret [MaximumSegmentSize (advertised_mss scfg); WindowScale (cfg_window_scale scfg)] ->
  exists cb, ActiveOpen.established self h (rs ⊕ 1) = Ret cb /\
    start_ok (rs ⊕ 1) (ao_local_isn self ⊕ 1) cb /\ local cb = ao_local self /\ remote cb = ao_remote self.
Proof.
  intros [] Hs Hw Ho. unfold ActiveOpen.established. rewrite Ho. cbn [mbind outcome_bind].
  rewrite scan_syn_options. destruct Hs.
  rewrite !(proj2 (Z.leb_le _ 14)) by lia. cbn [andb assert mbind outcome_bind].
  destruct (checked_shl16_ok (receive_window_size (ao_tcp_config self)) (cfg_window_scale (ao_tcp_config self)))
    as (rw & -> & Hrw); [lia|].
  destruct (checked_shl16_ok (TcpHeader.window_size h) (cfg_window_scale scfg)) as (tw & -> & Htw); [lia|].
  cbn [mbind outcome_bind]. eexists. split; [reflexivity|]. split; [|done].
  eexists _, _, _, _, _, _, _, _, _, _, CcNone_new. split; [reflexivity|]. split; [exact I|]. split; [apply seq_add_ok|]. split; [apply seq_add_ok|].
  unfold u16_ok, MIN_MSS, FALLBACK_MSS in *.
  assert (Z.shiftr rw (cfg_window_scale (ao_tcp_config self)) <= U16_MAX) by (apply shiftr_le; unfold U16_MAX; lia).
  repeat split; try lia.
Qed.

(** A first SYN makes a half-open connection. *)
Lemma passive_syn crc32 self ip_header h cfg :
  passive_wf self -> config_ok cfg ->
  let r := mkAddr (Ipv4Header.get_src_addr ip_header) (TcpHeader.src_port h) in
  r ∉ rs_endpoints (ps_ready self) -> ps_inflight self !! r = None ->
  (size (ps_inflight self) + Ready.len (ps_ready self) < ps_max_backlog self)%nat ->
  TcpHeader.syn h = true -> TcpHeader.ack h = false -> TcpHeader.rst h = false ->
  u32_ok (TcpHeader.seq_num h) -> u16_ok (TcpHeader.window_size h) ->
  TcpHeader.iter_options h = Ret [MaximumSegmentSize (advertised_mss cfg); WindowScale (cfg_window_scale cfg)] ->
  exists a self', Passive.receive crc32 self ip_header h = Ret (Ok tt, self') /\ passive_wf self' /\
    self' = Passive.set_inflight (<[r := a]> (ps_inflight self)) (Passive.set_isn (ps_isn_generator self') self) /\
    if_remote_isn a = TcpHeader.seq_num h /\
    if_handle a = TaskTop (handshake_retries (ps_tcp_config self)).
Proof.
  intros Hwf Hc r Hnew Hnone Hroom Hsyn Hack Hrst Hseq Hwin Hopts.
  assert (Hok : syn_ok h).
  { split; [done|]. split; [done|]. eexists. split; [exact Hopts|]. destruct Hc.
    unfold MIN_MSS, FALLBACK_MSS in *. split; cbn; lia. }
  destruct (passive_receive_ok crc32 self ip_header h Hwf (fun _ => Hok)) as (res & self' & E & Hwf').
  pose proof E as E'. unfold Passive.receive in E'. fold r in E'. rewrite decide_False, Hnone, Hsyn, Hack, Hrst in E' by done.
  cbn [negb orb] in E'. rewrite (proj2 (Nat.leb_gt _ _)) in E' by done.
  destruct (generate _ _ _ _) as [isn g]. rewrite Hopts in E'. cbn [mbind outcome_bind] in E'.
  rewrite scan_syn_options in E'. injection E' as <- <-. eexists _, _. split; [exact E|]. split; [exact Hwf'|]. done.
Qed.

(** The three transmissions of a handshake. *)
Lemma client_sends_syn isn local remote cfg mac now link :
  config_ok cfg ->
  let self := ActiveOpen.new isn local remote cfg mac in
  exists t h, ActiveOpen.background now (ArpOk link) self =
      Ret (ActiveOpen.set_handle t self, [segment_to cfg mac local remote h link]) /\
    TcpHeader.iter_options h = Ret [MaximumSegmentSize (advertised_mss cfg); WindowScale (cfg_window_scale cfg)] /\
    TcpHeader.src_port h = port local /\ TcpHeader.seq_num h = isn /\
    TcpHeader.syn h = true /\ TcpHeader.rst h = false /\
    TcpHeader.window_size h = receive_window_size cfg /\ TcpHeader.ack h = false.
Proof.
  intros Hc self. destruct (syn_segment_ok self link Hc) as (h & E & Hh).
  assert (Hn : exists n, ao_handle self = TaskTop (Datatypes.S n)).
  { exists (Nat.pred (handshake_retries cfg)). cbn. f_equal. destruct Hc. lia. }
  destruct Hn as [n Hn]. unfold ActiveOpen.background. rewrite Hn. cbn [task_poll task_turn].
  rewrite E. cbn [mbind outcome_bind]. eexists _, h. split; [reflexivity|exact Hh].
Qed.

Lemma server_sends_syn_ack self r a n now link :
  passive_wf self -> ps_inflight self !! r = Some a -> if_handle a = TaskTop (Datatypes.S n) ->
  exists self' h a', Passive.background now (ArpOk link) r self =
      Ret (self', [segment_to (ps_tcp_config self) (ps_local_link_addr self) (ps_local self) r h link]) /\
    passive_wf self' /\ ps_inflight self' !! r = Some a' /\
    if_local_isn a' = if_local_isn a /\ if_remote_isn a' = if_remote_isn a /\
    ps_ready self' = ps_ready self /\ ps_local self' = ps_local self /\
    TcpHeader.iter_options h = Ret [MaximumSegmentSize (advertised_mss (ps_tcp_config self));
                                    WindowScale (cfg_window_scale (ps_tcp_config self))] /\
    TcpHeader.seq_num h = if_local_isn a /\ TcpHeader.syn h = true /\ TcpHeader.rst h = false /\
    TcpHeader.window_size h = receive_window_size (ps_tcp_config self) /\
    TcpHeader.ack h = true /\ TcpHeader.ack_num h = if_remote_isn a ⊕ 1.
Proof.
  intros Hwf Ha Hn. destruct (passive_background_ok now (ArpOk link) r self Hwf) as (self' & tx & E & Hwf').
  destruct (syn_ack_ok self r a link) as (h & Eh & H1 & _ & H2); [apply Hwf|].
  set (a' := mkInflight (if_local_isn a) (if_remote_isn a) (if_header_window_size a) (if_remote_window_scale a)
    (if_mss a) (TaskWait n (now + handshake_timeout (ps_tcp_config self)))).
  set (next := Passive.set_inflight (<[r := a']> (ps_inflight self)) self).
  set (seg := segment_to _ _ _ r h link) in *.
  assert (E' : Passive.background now (ArpOk link) r self = Ret (next, [seg])).
  { unfold Passive.background. rewrite Ha, Hn. cbn [task_poll task_turn]. rewrite Eh. reflexivity. }
  rewrite E' in E. injection E as <- <-. exists next, h, a'. split; [exact E'|]. split; [exact Hwf'|].
  split; [apply lookup_insert_eq|]. done.
Qed.

Lemma client_sends_ack env self h rs scfg link :
  config_ok (ao_tcp_config self) -> config_ok scfg -> arp_try_query env (ip (ao_remote self)) = Some link ->
  TcpHeader.iter_options h = Ret [MaximumSegmentSize (advertised_mss scfg); WindowScale (cfg_window_scale scfg)] ->
  TcpHeader.seq_num h = rs -> TcpHeader.syn h = true -> TcpHeader.rst h = false ->
  u16_ok (TcpHeader.window_size h) -> TcpHeader.ack h = true -> TcpHeader.ack_num h = ao_local_isn self ⊕ 1 ->
  exists cb h', ActiveOpen.receive env self h =
      Ret (ActiveOpen.set_result (Ok cb) self,
           [segment_to (ao_tcp_config self) (ao_local_link_addr self) (ao_local self) (ao_remote self) h' link]) /\
    start_ok (rs ⊕ 1) (ao_local_isn self ⊕ 1) cb /\ local cb = ao_local self /\ remote cb = ao_remote self /\
    TcpHeader.src_port h' = port (ao_local self) /\ TcpHeader.ack h' = true /\ TcpHeader.ack_num h' = rs ⊕ 1.
Proof.
  intros Hc Hs Harp Ho <- Hy Hr Hw Hk Hn.
  destruct (established_ok self h (TcpHeader.seq_num h) scfg Hc Hs Hw Ho) as (cb & E & Hst & Hl & Hre).
  unfold ActiveOpen.receive. rewrite Hk, Hn, Z.eqb_refl, Hr, Hy, Harp. cbn [negb andb]. rewrite E.
  cbn [mbind outcome_bind]. eexists cb, _. split; [reflexivity|]. done.
Qed.

(** C4: the three-way handshake opens a connection.  A connecting socket's SYN, the listening
    socket's SYN+ACK, and the ACK it is answered with: every leg returns, the client gets a
    connection and the server's next connection to accept is its other end, and the two are an
    initial state of the end-to-end system: each expects the sequence numbers the other uses. *)
Theorem three_way_handshake (crc32 : list Z -> Z) (client_isn : Z) (client_addr : SocketAddrV4) (server : PassiveSocket)
  (cfg : TcpConfig) (client_mac server_link client_link : MacAddress) (now : Z) (env : Env) :
  config_ok cfg -> passive_wf server -> u32_ok client_isn ->
  client_addr ∉ rs_endpoints (ps_ready server) -> ps_inflight server !! client_addr = None ->
  (size (ps_inflight server) + Ready.len (ps_ready server) < ps_max_backlog server)%nat ->
  arp_try_query env (ip (ps_local server)) = Some server_link ->
  exists client1 syn server1 server2 synack client2 ack server3 server_isn (cl sv : CB),
    ActiveOpen.background now (ArpOk server_link)
      (ActiveOpen.new client_isn client_addr (ps_local server) cfg client_mac) = Ret (client1, [syn]) /\
    Passive.receive crc32 server (ipv4_hdr syn) (tcp_hdr syn) = Ret (Ok tt, server1) /\
    Passive.background now (ArpOk client_link) client_addr server1 = Ret (server2, [synack]) /\
    ActiveOpen.receive env client1 (tcp_hdr synack) = Ret (client2, [ack]) /\
    Passive.receive crc32 server2 (ipv4_hdr ack) (tcp_hdr ack) = Ret (Ok tt, server3) /\
    ao_result client2 = Some (Ok cl) /\
    rs_ready (ps_ready server3) = rs_ready (ps_ready server) ++ [Ok sv] /\
    (local cl = client_addr /\ remote cl = ps_local server /\ local sv = ps_local server /\ remote sv = client_addr) /\
    net_reachable (agreed client_isn server_isn)
      (mkNetwork (mkWorld cl SenderTop [] [] []) (mkWorld sv SenderTop [] [] [])).
Proof.
  intros Hc Hwf Hisn Hnew Hnone Hroom Harp.
  assert (Hwc : forall c, config_ok c -> u16_ok (receive_window_size c)) by (intros c []; unfold u16_ok, U16_MAX in *; lia).
  destruct (client_sends_syn client_isn client_addr (ps_local server) cfg client_mac now server_link Hc)
    as (t & h1 & E1 & Ho1 & Hp1 & Hs1 & Hy1 & Hr1 & Hw1 & Ha1).
  set (client1 := ActiveOpen.set_handle _ _) in E1. set (syn := segment_to _ _ _ _ h1 _) in E1.
  assert (Haddr : mkAddr (Ipv4Header.get_src_addr (ipv4_hdr syn)) (TcpHeader.src_port h1) = client_addr)
    by (rewrite Hp1; by destruct client_addr).
  destruct (passive_syn crc32 server (ipv4_hdr syn) h1 cfg Hwf Hc) as (a & server1 & E2 & Hwf1 & Eq1 & Hra & Hha);
    rewrite ?Haddr, ?Hs1, ?Hw1; auto. rewrite Haddr in Eq1.
  assert (Ha : ps_inflight server1 !! client_addr = Some a) by (rewrite Eq1; apply lookup_insert_eq).
  assert (Hret : exists n, handshake_retries (ps_tcp_config server) = Datatypes.S n)
    by (destruct Hwf as [[] _ _ _ _ _ _]; destruct (handshake_retries _); [lia|by eexists]).
  destruct Hret as [n Hn]. rewrite Hn in Hha.
  destruct (server_sends_syn_ack server1 client_addr a n now client_link Hwf1 Ha Hha)
    as (server2 & h2 & a' & E3 & Hwf2 & Ha' & Hl' & Hr' & Hrdy & Hlo & Ho2 & Hs2 & Hy2 & Hr2 & Hw2 & Hk2 & Hn2).
  destruct (client_sends_ack env client1 h2 (if_local_isn a) (ps_tcp_config server1) server_link)
    as (cl & h3 & E4 & Hst & Hcl & Hcr & Hp3 & Hk3 & Hn3); try done; [apply Hwf1|rewrite Hw2; apply Hwc, Hwf1|by rewrite Hn2, Hra, Hs1|].
  set (ack := segment_to _ _ _ _ h3 _) in E4.
  destruct (establish_ok server2 client_addr a' h3 Hwf2 Ha') as (res & server3 & E5 & _ & Hres & Hok).
  destruct (Hok Hk3) as [[] ->]; [congruence|]. destruct Hres as (sv & (Hsr & Hsl & Hss) & _ & Hq).
  exists client1, syn, server1, server2, (segment_to (ps_tcp_config server1) (ps_local_link_addr server1)
    (ps_local server1) client_addr h2 client_link), (ActiveOpen.set_result (Ok cl) client1), ack, server3, (if_local_isn a), cl, sv.
  assert (Hdone : ps_local server1 = ps_local server /\ ps_ready server1 = ps_ready server) by (rewrite Eq1; done).
  destruct Hdone as [Hsl1 Hsr1]. do 4 (split; [done|]). split.
  { unfold Passive.receive. change (tcp_hdr ack) with h3. rewrite Hp3.
    replace (mkAddr _ _) with client_addr by (by destruct client_addr).
    rewrite Hrdy, Hsr1, decide_False, Ha' by done. exact E5. }
  split; [done|]. split; [by rewrite Hq, Hrdy, Hsr1|]. split; [by rewrite Hsl, Hlo|].
  apply net_start; [exact Hst|]. rewrite Hl', Hr', Hra, Hs1 in Hss. exact Hss.
Qed.

(** ** An unanswered connection attempt *)

(** The background task polled at the given times, with the address resolved. *)
Fixpoint background_run (link : MacAddress) (times : list Z) (self : ActiveOpenSocket) :
  outcome (ActiveOpenSocket * list TcpSegment) :=
  match times with
  | [] => Ret (self, [])
  | now :: times =>
      '(self, tx) ← ActiveOpen.background now (ArpOk link) self;
      '(self, tx') ← background_run link times self;
      Ret (self, tx ++ tx')
  end.

(** Times none of which comes before the timeout of the one before has passed. *)
Fixpoint spaced (gap not_before : Z) (times : list Z) : Prop :=
  match times with
  | [] => True
  | now :: times => not_before <= now /\ spaced gap (now + gap) times
  end.

Definition is_syn (isn : Z) (seg : TcpSegment) : Prop :=
  TcpHeader.syn (tcp_hdr seg) = true /\ TcpHeader.ack (tcp_hdr seg) = false /\
  TcpHeader.seq_num (tcp_hdr seg) = isn.

Lemma syn_is_syn self link :
  config_ok (ao_tcp_config self) -> exists seg, ActiveOpen.syn self link = Ret seg /\ is_syn (ao_local_isn self) seg.
Proof.
  intros Hc. destruct (syn_segment_ok self link Hc) as (h & E & _ & _ & Hs & Hy & _ & _ & Ha). by eexists.
Qed.

Lemma waiting_gives_up link n self until times :
  config_ok (ao_tcp_config self) -> ao_handle self = TaskWait n until ->
  spaced (handshake_timeout (ao_tcp_config self)) until times -> length times = Datatypes.S n ->
  exists self' tx, background_run link times self = Ret (self', tx) /\
    ao_result self' = Some (Err (mkFail ETIMEDOUT "handshake timeout")) /\
    length tx = n /\ Forall (is_syn (ao_local_isn self)) tx.
Proof.
  revert self until times. induction n as [|n IH]; intros self until [|now times] Hc Hh Hsp Hlen; try done;
    destruct Hsp as [Hle Hsp]; cbn [background_run]; unfold ActiveOpen.background; rewrite Hh; cbn [task_poll];
    rewrite (proj2 (Z.leb_le _ _)) by done; cbn [task_turn mbind outcome_bind].
  - destruct times; [|done]. by do 2 eexists.
  - destruct (syn_is_syn self link Hc) as (seg & -> & Hsyn). cbn [mbind outcome_bind].
    destruct (IH (ActiveOpen.set_handle (TaskWait n (now + handshake_timeout (ao_tcp_config self))) self)
      (now + handshake_timeout (ao_tcp_config self)) times) as (self' & tx & -> & Hr & Hl & Hf); [done|done|done|cbn in Hlen; lia|].
    cbn [mbind outcome_bind]. do 2 eexists. split; [done|]. split; [done|]. split; [cbn; lia|by constructor].
Qed.

(** ** Building a configuration *)

Lemma default_ok : config_ok TcpConfig_default.
Proof. constructor; cbn; unfold DEFAULT_MSS, MIN_MSS, MAX_MSS, FALLBACK_MSS, U16_MAX, F64.NANOS_PER_SEC; lia. Qed.

(** A setting that was not given passes every assertion. *)
Definition given {A} (p : A -> bool) (v : option A) : bool := match v with Some x => p x | None => true end.

(** The assertions of the setters, all together. *)
Definition settings_pass (mss : option Z) (retries : option nat) (timeout window delay : option Z) : bool :=
  given (fun v => (MIN_MSS <=? v) && (v <=? MAX_MSS)) mss && given (Nat.ltb 0) retries && given (Z.ltb 0) timeout &&
  given (Z.ltb 0) window && given (fun v => v <=? 500 * 1000000) delay.

(** The given settings, the defaults for the others. *)
Definition settings (mss : option Z) (retries : option nat) (timeout window scale delay : option Z)
  (rx tx : option bool) : TcpConfig :=
  let d := TcpConfig_default in
  mkTcpConfig (default (advertised_mss d) mss) (default (handshake_retries d) retries)
    (default (handshake_timeout d) timeout) (default (receive_window_size d) window) (default (cfg_window_scale d) scale)
    (default (cfg_ack_delay_timeout d) delay) (default (rx_checksum_offload d) rx) (default (tx_checksum_offload d) tx).

Lemma config_new_settings mss retries timeout window scale delay rx tx :
  TcpConfig_new mss retries timeout window scale delay rx tx =
  if settings_pass mss retries timeout window delay then Ret (settings mss retries timeout window scale delay rx tx)
  else Panic "assertion failed".
Proof.
  unfold TcpConfig_new, settings_pass.
  destruct mss as [m|]; cbn [set_if given];
    [unfold set_advertised_mss, assert; destruct (MIN_MSS <=? m); [destruct (m <=? MAX_MSS)|]; cbn; try reflexivity|cbn];
  (destruct retries as [r|]; cbn; [unfold set_handshake_retries, assert; destruct r; cbn; [reflexivity|]|]);
  (destruct timeout as [t|]; cbn; [unfold set_handshake_timeout, assert; destruct (0 <? t); cbn; [|reflexivity]|]);
  (destruct window as [w|]; cbn; [unfold set_receive_window_size, assert; destruct (0 <? w); cbn; [|reflexivity]|]);
  (destruct scale as [c|]; cbn);
  (destruct delay as [d|]; cbn; [unfold set_ack_delay_timeout, assert; destruct (d <=? 500 * 1000000); cbn; reflexivity|reflexivity]).
Qed.

(** ** Properties *)

(** C34: a listening socket survives packets that announce a usable window scale and MSS.  After any
    sequence of packets (of which each SYN that announces a window scale or an MSS announces a scale of
    at most 14 and an MSS of at least 1; the code panics on a scale of 16 or more),
    accepts and turns of its background tasks it has not panicked; the connections waiting to be
    accepted have distinct remote endpoints, none of them half-open as well; half-open and waiting
    connections together never exceed the backlog; and every waiting connection is an initial
    state of the connection state machine. *)
Theorem listening_socket_invariant (crc32 : list Z -> Z) (local : SocketAddrV4) (backlog : nat) (cfg : TcpConfig)
  (mac : MacAddress) (nonce : Z) (evs : list passive_event) :
  config_ok cfg -> Forall passive_event_ok evs ->
  exists self, passive_run crc32 evs (Passive.new local backlog cfg mac nonce) = Ret self /\
    NoDup (remotes (rs_ready (ps_ready self))) /\
    (forall a, a ∈ remotes (rs_ready (ps_ready self)) -> ps_inflight self !! a = None) /\
    (size (ps_inflight self) + length (rs_ready (ps_ready self)) <= ps_max_backlog self)%nat /\
    (forall cb, Ok cb ∈ rs_ready (ps_ready self) -> exists b c, start_ok b c cb).
Proof.
  intros Hc Hevs.
  destruct (passive_run_wf crc32 evs _ (passive_new_wf local backlog cfg mac nonce Hc) Hevs) as (self & E & []).
  exists self. split; [done|]. split; [done|]. split.
  { intros a Ha. apply pw_disjoint0. rewrite pw_endpoints0. by apply elem_of_list_to_set. }
  split; [done|]. intros cb Hin. rewrite Forall_forall in pw_ready0. exact (pw_ready0 _ Hin).
Qed.

(** A connection attempt that is never answered ends.  Polled once per handshake timeout, the
    background task of a connecting socket transmits its SYN as often as the configuration says
    and then reports ETIMEDOUT. *)
Theorem connect_gives_up (isn : Z) (local remote : SocketAddrV4) (cfg : TcpConfig) (mac link : MacAddress)
  (start : Z) (times : list Z) :
  config_ok cfg -> spaced (handshake_timeout cfg) start times ->
  length times = Datatypes.S (handshake_retries cfg) ->
  exists self' tx, background_run link times (ActiveOpen.new isn local remote cfg mac) = Ret (self', tx) /\
    ao_result self' = Some (Err (mkFail ETIMEDOUT "handshake timeout")) /\
    length tx = handshake_retries cfg /\ Forall (is_syn isn) tx.
Proof.
  intros Hc Hsp Hlen. set (self := ActiveOpen.new isn local remote cfg mac).
  assert (Hn : exists n, handshake_retries cfg = Datatypes.S n)
    by (destruct Hc; destruct (handshake_retries cfg); [lia|by eexists]). destruct Hn as [n Hn].
  destruct times as [|now times]; [by rewrite Hn in Hlen|]. destruct Hsp as [_ Hsp]. cbn [background_run].
  unfold ActiveOpen.background. change (ao_handle self) with (TaskTop (handshake_retries cfg)).
  rewrite Hn. cbn [task_poll task_turn].
  destruct (syn_is_syn self link Hc) as (seg & -> & Hsyn). cbn [mbind outcome_bind].
  destruct (waiting_gives_up link n (ActiveOpen.set_handle (TaskWait n (now + handshake_timeout cfg)) self)
    (now + handshake_timeout cfg) times) as (self' & tx & E & Hr & Hl & Hf); [done|done|done|cbn in Hlen; lia|].
  change (ao_tcp_config self) with cfg. rewrite E. cbn [mbind outcome_bind]. do 2 eexists.
  split; [done|]. split; [done|]. split; [cbn; lia|by constructor].
Qed.

(** C35: a configuration is built from exactly the settings its assertions accept.
    [TcpConfig::new] panics when one of the given MSS, retries, timeout, window or delayed-ACK time
    is out of range, and otherwise returns the given settings with the defaults for the rest.  What
    it returns (whatever the window scale, an unchecked byte) has those five fields in range, and
    it is the usable configuration the sockets assume exactly when its window scale is at most 14. *)
Theorem config_new_ok (mss : option Z) (retries : option nat) (timeout window scale delay : option Z)
  (rx tx : option bool) :
  default 0 window <= U16_MAX -> 0 <= default 0 scale < 256 -> 0 <= default 0 delay ->
  TcpConfig_new mss retries timeout window scale delay rx tx =
    (if settings_pass mss retries timeout window delay then Ret (settings mss retries timeout window scale delay rx tx)
     else Panic "assertion failed") /\
  forall cfg, TcpConfig_new mss retries timeout window scale delay rx tx = Ret cfg ->
    MIN_MSS <= advertised_mss cfg <= MAX_MSS /\ (0 < handshake_retries cfg)%nat /\ 0 < handshake_timeout cfg /\
    0 < receive_window_size cfg <= U16_MAX /\ 0 <= cfg_ack_delay_timeout cfg <= 500 * 1000000 /\
    cfg_window_scale cfg = default 0 scale /\ (config_ok cfg <-> default 0 scale <= 14).
Proof.
  intros Hw Hs Hd. split; [apply config_new_settings|]. intros cfg. rewrite config_new_settings.
  destruct (settings_pass _ _ _ _ _) eqn:Ep; [|done]. intros [= <-].
  unfold settings_pass in Ep. apply andb_prop in Ep as [Ep H5], Ep as [Ep H4], Ep as [Ep H3], Ep as [H1 H2].
  pose proof default_ok as [D1 D2 D3 D4 D5 D6].
  assert (Hm : MIN_MSS <= default (advertised_mss TcpConfig_default) mss <= MAX_MSS)
    by (destruct mss; cbn [given from_option id] in *; [lia|done]).
  assert (Hr : (0 < default (handshake_retries TcpConfig_default) retries)%nat)
    by (destruct retries; cbn [given from_option id] in *; [by apply Nat.ltb_lt|done]).
  assert (Ht : 0 < default (handshake_timeout TcpConfig_default) timeout)
    by (destruct timeout; cbn [given from_option id] in *; [lia|done]).
  assert (Hwi : 0 < default (receive_window_size TcpConfig_default) window <= U16_MAX)
    by (destruct window; cbn [given from_option id] in *; [lia|done]).
  assert (Hde : 0 <= default (cfg_ack_delay_timeout TcpConfig_default) delay <= 500 * 1000000)
    by (destruct delay; cbn [given from_option id] in *; [lia|done]).
  do 6 (split; [done|]). split; [intros [_ _ _ _ Hx _]; apply Hx|]. intros Hle. constructor; try done.
  split; [apply Hs|exact Hle].
Qed.

(** ** Concrete sockets *)

Module HandshakeExample.

Definition crc32 (bytes : list Z) : Z := foldl Z.add 0 bytes.
Definition server_addr : SocketAddrV4 := mkAddr 167772417 10000.
Definition client_addr : SocketAddrV4 := mkAddr 167772418 49152.
Definition server : PassiveSocket := Passive.new server_addr 1 TcpConfig_default [2; 0; 0; 0; 0; 2] 5.
Definition env : Env := mkEnv 1000 (fun _ => Some [2; 0; 0; 0; 0; 1]).

(** A SYN with an MSS option. *)
Definition syn : TcpHeader.t :=
  match TcpHeader.push_option (TcpHeader.set_window_size (TcpHeader.set_syn (TcpHeader.new 49152 10000) true) 1000)
          (MaximumSegmentSize 1000) with
  | Ret h => h
  | _ => TcpHeader.new 0 0
  end.

Lemma syn_fits : syn_ok syn.
Proof.
  split; [vm_compute; split; congruence|]. split; [vm_compute; split; congruence|].
  eexists. split; [reflexivity|]. vm_compute. split; [done|congruence].
Qed.

End HandshakeExample.

Lemma three_way_handshake_witness :
  exists (cl sv : CB), remote cl = HandshakeExample.server_addr /\ remote sv = HandshakeExample.client_addr.
Proof.
  destruct (three_way_handshake HandshakeExample.crc32 4294967295 HandshakeExample.client_addr HandshakeExample.server
    TcpConfig_default [2; 0; 0; 0; 0; 3] [2; 0; 0; 0; 0; 1] [2; 0; 0; 0; 0; 1] 1000 HandshakeExample.env)
    as (c1 & s1 & v1 & v2 & s2 & c2 & s3 & v3 & isn & cl & sv & _ & _ & _ & _ & _ & _ & _ & (_ & H1 & _ & H2) & _).
  - apply default_ok.
  - apply passive_new_wf, default_ok.
  - vm_compute. split; congruence.
  - apply not_elem_of_empty.
  - apply lookup_empty.
  - vm_compute. lia.
  - reflexivity.
  - by exists cl, sv.
Defined.

Lemma listening_socket_invariant_witness :
  exists self, passive_run HandshakeExample.crc32
    [PeSegment (Ipv4Header.new 167772418 167772417 TCP) HandshakeExample.syn; PeAccept;
     PeTask 0 (ArpOk [2; 0; 0; 0; 0; 1]) HandshakeExample.client_addr] HandshakeExample.server = Ret self /\
    (size (ps_inflight self) + length (rs_ready (ps_ready self)) <= ps_max_backlog self)%nat.
Proof.
  destruct (listening_socket_invariant HandshakeExample.crc32 HandshakeExample.server_addr 1 TcpConfig_default
    [2; 0; 0; 0; 0; 2] 5 [PeSegment (Ipv4Header.new 167772418 167772417 TCP) HandshakeExample.syn; PeAccept;
     PeTask 0 (ArpOk [2; 0; 0; 0; 0; 1]) HandshakeExample.client_addr]) as (self & E & _ & _ & H & _).
  - apply default_ok.
  - apply Forall_cons. split; [intros _; apply HandshakeExample.syn_fits|by repeat constructor].
  - by exists self.
Defined.

Lemma connect_gives_up_witness :
  exists self' tx, background_run [2; 0; 0; 0; 0; 1] [0; 3000000000; 6000000000; 9000000001; 12000000001; 15000000001]
      (ActiveOpen.new 7 HandshakeExample.client_addr HandshakeExample.server_addr TcpConfig_default [2; 0; 0; 0; 0; 3]) =
        Ret (self', tx) /\
    length tx = 5%nat.
Proof.
  destruct (connect_gives_up 7 HandshakeExample.client_addr HandshakeExample.server_addr TcpConfig_default
    [2; 0; 0; 0; 0; 3] [2; 0; 0; 0; 0; 1] 0 [0; 3000000000; 6000000000; 9000000001; 12000000001; 15000000001])
    as (self' & tx & E & _ & H & _).
  - apply default_ok.
  - vm_compute. repeat split; congruence.
  - reflexivity.
  - by exists self', tx.
Defined.

Lemma config_new_ok_witness :
  exists cfg, TcpConfig_new (Some 1400) (Some 3%nat) None (Some 32768) (Some 200) None None (Some true) = Ret cfg /\
    advertised_mss cfg <= MAX_MSS /\ ~ config_ok cfg.
Proof.
  destruct (config_new_ok (Some 1400) (Some 3%nat) None (Some 32768) (Some 200) None None (Some true)) as [E H];
    [vm_compute; congruence|cbn; lia|cbn; lia|].
  eexists. split; [exact E|]. destruct (H _ E) as (Hm & _ & _ & _ & _ & _ & Hc). split; [apply Hm|].
  intros Hk. apply Hc in Hk. vm_compute in Hk. congruence.
Defined.
