(* ===== verification/MigState.v ===== *)
(** * The migrated connection state
    (src/src/rust/inetstack/protocols/tcp/established/{ctrlblk,sender}.rs and tcp/peer.rs, the
    [state] modules)

    What a connection looks like on the wire between two servers: the state records taken from
    a control block, their [Serialize] and [Deserialize] implementations over byte slices, the
    announced size, and the control block rebuilt from them.  A [Codec] is the pair of trait
    implementations of a type; [CodecSpec] is what it promises: the bytes it writes, and that
    reading them back returns the value and the rest of the buffer. *)

From S2P Require Import Prelude Buffer SeqNumber Net TcpSegment Congestion Rto CtrlBlk.

(** [&mut buf[n..]]: the part written so far and the unused part. *)
Definition split_at (buf : list Z) (n : nat) : outcome (list Z * list Z) :=
  if Nat.leb n (length buf) then Ret (take n buf, drop n buf) else Panic "slice index out of range".

(** [serialize_into] gets the unused part of the buffer and returns the bytes it wrote and
    what is left; [deserialize_from] returns the value and the buffer without it. *)
Definition serializer (T : Type) : Type := T -> list Z -> outcome (list Z * list Z).
Definition deserializer (T : Type) : Type := list Z -> outcome (T * list Z).

(** Serialization of a following part into what is left. *)
Definition then_serialize (done : list Z) (m : outcome (list Z * list Z)) : outcome (list Z * list Z) :=
  '(d, rest) ← m; Ret (done ++ d, rest).

(** ** Sequence numbers, buffers, options and queues *)

Definition SeqNumber_serialize_into : serializer Seq.SeqNumber := fun self buf =>
  buf ← write_at buf 0 (be32 self);
  split_at buf 4.

Definition SeqNumber_deserialize_from : deserializer Seq.SeqNumber := fun buf =>
  seq ← read_u32 buf 0;
  buf ← Buffer.adjust buf 4;
  Ret (seq, buf).

Definition Buffer_serialize_into : serializer Buffer.t := fun self buf =>
  if U32_MAX <? blen self then Panic "buffer len too big" else
  buf ← write_at buf 0 (be32 (blen self));
  buf ← write_at buf 4 self;
  split_at buf (4 + length self).

Definition Buffer_deserialize_from : deserializer Buffer.t := fun buf =>
  len ← read_u32 buf 0;
  buf ← Buffer.adjust buf 4;
  buffer ← Buffer.trim buf (wrap64 (blen buf - len));
  buf ← Buffer.adjust buf len;
  Ret (buffer, buf).

Definition SeqBuffer_serialize_into : serializer (Seq.SeqNumber * Buffer.t) := fun self buf =>
  buf ← write_at buf 0 (be32 (fst self));
  '(done, buf) ← split_at buf 4;
  then_serialize done (Buffer_serialize_into (snd self) buf).

Definition SeqBuffer_deserialize_from : deserializer (Seq.SeqNumber * Buffer.t) := fun buf =>
  seq ← read_u32 buf 0;
  buf ← Buffer.adjust buf 4;
  '(buffer, buf) ← Buffer_deserialize_from buf;
  Ret ((seq, buffer), buf).

Definition Option_serialize_into {T} (ser : serializer T) : serializer (option T) := fun self buf =>
  match self with
  | Some e =>
      buf ← write_at buf 0 [1];
      '(done, buf) ← split_at buf 1;
      then_serialize done (ser e buf)
  | None =>
      buf ← write_at buf 0 [0];
      split_at buf 1
  end.

Definition Option_deserialize_from {T} (des : deserializer T) : deserializer (option T) := fun buf =>
  discriminant ← index buf 0;
  buf ← Buffer.adjust buf 1;
  if discriminant =? 0 then Ret (None, buf)
  else if discriminant =? 1 then '(val, buf) ← des buf; Ret (Some val, buf)
  else Panic "invalid Option discriminant".

(** The loop over the elements of a queue. *)
Fixpoint elements_serialize_into {T} (ser : serializer T) (l : list T) (buf : list Z) :
  outcome (list Z * list Z) :=
  match l with
  | [] => Ret ([], buf)
  | e :: l => '(done, buf) ← ser e buf; then_serialize done (elements_serialize_into ser l buf)
  end.

Definition VecDeque_serialize_into {T} (ser : serializer T) : serializer (list T) := fun self buf =>
  if U32_MAX <? blen self then Panic "deque len too big" else
  buf ← write_at buf 0 (be32 (blen self));
  '(done, buf) ← split_at buf 4;
  then_serialize done (elements_serialize_into ser self buf).

Fixpoint elements_deserialize_from {T} (des : deserializer T) (size : nat) (buf : list Z) :
  outcome (list T * list Z) :=
  match size with
  | O => Ret ([], buf)
  | S n =>
      '(e, buf) ← des buf;
      '(l, buf) ← elements_deserialize_from des n buf;
      Ret (e :: l, buf)
  end.

Definition VecDeque_deserialize_from {T} (des : deserializer T) : deserializer (list T) := fun buf =>
  size ← read_u32 buf 0;
  buf ← Buffer.adjust buf 4;
  elements_deserialize_from des (Z.to_nat size) buf.

(** ** The sender *)

Record SenderState := mkSenderState {
  ss_unsent_seq_no : Seq.SeqNumber;
  ss_send_unacked : Seq.SeqNumber;
  ss_send_next : Seq.SeqNumber;
  ss_send_window : Z;
  ss_send_window_last_update_seq : Seq.SeqNumber;
  ss_send_window_last_update_ack : Seq.SeqNumber;
  ss_mss : Z;
  ss_window_scale : Z;
  ss_unacked_queue : list UnackedSegment;
  ss_unsent_queue : list Buffer.t
}.

(** [SenderState::from(&Sender)]: the state, and the sender with its queues taken out. *)
Definition SenderState_from (s : Sender) : outcome (SenderState * Sender) :=
  if U32_MAX <? mss s then Panic "MSS too big" else
  Ret (mkSenderState (unsent_seq_no s) (send_unacked s) (send_next s) (send_window s)
         (send_window_last_update_seq s) (send_window_last_update_ack s) (mss s)
         (snd_window_scale s) (unacked_queue s) (unsent_queue s),
       snd_set_unsent_queue [] (snd_set_unacked_queue [] s)).

(** [Sender::from(SenderState)] *)
Definition Sender_from (st : SenderState) : Sender :=
  mkSender (ss_send_unacked st) (ss_unacked_queue st) (ss_send_next st) (ss_unsent_queue st)
    (ss_unsent_seq_no st) (ss_send_window st) (ss_send_window_last_update_seq st)
    (ss_send_window_last_update_ack st) (ss_window_scale st) (ss_mss st).

Definition UnackedSegment_serialize_into : serializer UnackedSegment := fun self buf =>
  Buffer_serialize_into (bytes self) buf.

Definition UnackedSegment_deserialize_from : deserializer UnackedSegment := fun buf =>
  '(bytes, buf) ← Buffer_deserialize_from buf;
  Ret (mkUnacked bytes None, buf).

Definition SenderState_serialize_into : serializer SenderState := fun self buf =>
  buf ← write_at buf 0 (be32 (ss_unsent_seq_no self));
  buf ← write_at buf 4 (be32 (ss_send_unacked self));
  buf ← write_at buf 8 (be32 (ss_send_next self));
  buf ← write_at buf 12 (be32 (ss_send_window self));
  buf ← write_at buf 16 (be32 (ss_send_window_last_update_seq self));
  buf ← write_at buf 20 (be32 (ss_send_window_last_update_ack self));
  buf ← write_at buf 24 (be32 (ss_mss self));
  buf ← write_at buf 28 [ss_window_scale self];
  '(d1, buf) ← split_at buf 29;
  '(d2, buf) ← VecDeque_serialize_into UnackedSegment_serialize_into (ss_unacked_queue self) buf;
  then_serialize (d1 ++ d2) (VecDeque_serialize_into Buffer_serialize_into (ss_unsent_queue self) buf).

Definition SenderState_deserialize_from : deserializer SenderState := fun buf =>
  unsent_seq_no ← read_u32 buf 0;
  send_unacked ← read_u32 buf 4;
  send_next ← read_u32 buf 8;
  send_window ← read_u32 buf 12;
  send_window_last_update_seq ← read_u32 buf 16;
  send_window_last_update_ack ← read_u32 buf 20;
  mss ← read_u32 buf 24;
  window_scale ← index buf 28;
  buf ← Buffer.adjust buf 29;
  '(unacked_queue, buf) ← VecDeque_deserialize_from UnackedSegment_deserialize_from buf;
  '(unsent_queue, buf) ← VecDeque_deserialize_from Buffer_deserialize_from buf;
  Ret (mkSenderState unsent_seq_no send_unacked send_next send_window send_window_last_update_seq
         send_window_last_update_ack mss window_scale unacked_queue unsent_queue, buf).

Definition sum_lens (l : list Buffer.t) : nat := foldl (fun acc e => acc + 4 + length e)%nat 0%nat l.

Definition SenderState_serialized_size (self : SenderState) : nat :=
  (29 + 4 + sum_lens (map bytes (ss_unacked_queue self)) + 4 + sum_lens (ss_unsent_queue self))%nat.

(** ** The receiver and the control block *)

Record ReceiverState := mkReceiverState {
  rs_reader_next : Seq.SeqNumber;
  rs_receive_next : Seq.SeqNumber;
  rs_recv_queue : list Buffer.t
}.

(** [ReceiverState::from(&Receiver)] takes the receive queue. *)
Definition ReceiverState_from (r : Receiver) : ReceiverState * Receiver :=
  (mkReceiverState (reader_next r) (receive_next r) (recv_queue r),
   mkReceiver (reader_next r) (receive_next r) []).

Definition Receiver_from_state (st : ReceiverState) : Receiver :=
  mkReceiver (rs_reader_next st) (rs_receive_next st) (rs_recv_queue st).

Definition ReceiverState_serialize_into : serializer ReceiverState := fun self buf =>
  buf ← write_at buf 0 (be32 (rs_reader_next self));
  buf ← write_at buf 4 (be32 (rs_receive_next self));
  '(done, buf) ← split_at buf 8;
  then_serialize done (VecDeque_serialize_into Buffer_serialize_into (rs_recv_queue self) buf).

Definition ReceiverState_deserialize_from : deserializer ReceiverState := fun buf =>
  reader_next ← read_u32 buf 0;
  receive_next ← read_u32 buf 4;
  buf ← Buffer.adjust buf 8;
  '(recv_queue, buf) ← VecDeque_deserialize_from Buffer_deserialize_from buf;
  Ret (mkReceiverState reader_next receive_next recv_queue, buf).

Definition ReceiverState_serialized_size (self : ReceiverState) : nat :=
  (8 + 4 + sum_lens (rs_recv_queue self))%nat.

Record ControlBlockState := mkControlBlockState {
  cs_local : SocketAddrV4;
  cs_remote : SocketAddrV4;
  cs_receive_buffer_size : Z;
  cs_window_scale : Z;
  cs_out_of_order_fin : option Seq.SeqNumber;
  cs_out_of_order_queue : list (Seq.SeqNumber * Buffer.t);
  cs_receiver : ReceiverState;
  cs_sender : SenderState
}.

(** [ControlBlockState::from(&ControlBlock)]: the state, and the control block it leaves behind. *)
Definition ControlBlockState_from {C} (cb : ControlBlock C) : outcome (ControlBlockState * ControlBlock C) :=
  let ooo := out_of_order cb in
  let '(r, r') := ReceiverState_from (receiver cb) in
  '(s, s') ← SenderState_from (sender cb);
  Ret (mkControlBlockState (local cb) (remote cb) (receive_buffer_size cb) (window_scale cb)
         (out_of_order_fin cb) ooo r s,
       set_sender s' (set_receiver r' (set_out_of_order [] cb))).

(** [ControlBlock::from_state] on the host that takes the connection over. *)
Definition ControlBlock_from_state (local_link_addr : MacAddress) (tx_offload : bool)
  (ack_delay_timeout : Z) (st : ControlBlockState) : ControlBlock CcNone :=
  let sender := Sender_from (cs_sender st) in
  mkControlBlock (cs_local st) (cs_remote st) local_link_addr tx_offload sender Established
    ack_delay_timeout None (cs_receive_buffer_size st) (cs_window_scale st) false
    (cs_out_of_order_queue st) (cs_out_of_order_fin st) (Receiver_from_state (cs_receiver st))
    false (CcNone_new (mss sender) (send_unacked sender)) None RtoCalculator.new.

Definition ControlBlockState_serialize_into : serializer ControlBlockState := fun self buf =>
  buf ← write_at buf 0 (octets (ip (cs_local self)));
  buf ← write_at buf 4 (be16 (port (cs_local self)));
  buf ← write_at buf 6 (octets (ip (cs_remote self)));
  buf ← write_at buf 10 (be16 (port (cs_remote self)));
  buf ← write_at buf 12 (be32 (cs_receive_buffer_size self));
  buf ← write_at buf 16 (be32 (cs_window_scale self));
  '(d1, buf) ← split_at buf 20;
  '(d2, buf) ← Option_serialize_into SeqNumber_serialize_into (cs_out_of_order_fin self) buf;
  '(d3, buf) ← VecDeque_serialize_into SeqBuffer_serialize_into (cs_out_of_order_queue self) buf;
  '(d4, buf) ← ReceiverState_serialize_into (cs_receiver self) buf;
  then_serialize (d1 ++ d2 ++ d3 ++ d4) (SenderState_serialize_into (cs_sender self) buf).

Definition read_addr (buf : list Z) (i : nat) : outcome SocketAddrV4 :=
  a ← index buf i;
  b ← index buf (i + 1);
  c ← index buf (i + 2);
  d ← index buf (i + 3);
  p ← read_u16 buf (i + 4);
  Ret (mkAddr (Ipv4Addr_new a b c d) p).

Definition ControlBlockState_deserialize_from : deserializer ControlBlockState := fun buf =>
  local ← read_addr buf 0;
  remote ← read_addr buf 6;
  receive_buffer_size ← read_u32 buf 12;
  window_scale ← read_u32 buf 16;
  buf ← Buffer.adjust buf 20;
  '(out_of_order_fin, buf) ← Option_deserialize_from SeqNumber_deserialize_from buf;
  '(out_of_order_queue, buf) ← VecDeque_deserialize_from SeqBuffer_deserialize_from buf;
  '(receiver, buf) ← ReceiverState_deserialize_from buf;
  '(sender, buf) ← SenderState_deserialize_from buf;
  Ret (mkControlBlockState local remote receive_buffer_size window_scale out_of_order_fin
         out_of_order_queue receiver sender, buf).

Definition ControlBlockState_serialized_size (self : ControlBlockState) : nat :=
  (20 + 1 + (match cs_out_of_order_fin self with Some _ => 4 | None => 0 end)
   + 4 + foldl (fun acc e => acc + 4 + 4 + length (snd e))%nat 0%nat (cs_out_of_order_queue self)
   + ReceiverState_serialized_size (cs_receiver self)
   + SenderState_serialized_size (cs_sender self))%nat.

Definition endpoints (self : ControlBlockState) : SocketAddrV4 * SocketAddrV4 :=
  (cs_local self, cs_remote self).

Definition recv_queue_len (self : ControlBlockState) : nat := length (rs_recv_queue (cs_receiver self)).

Definition set_local (a : SocketAddrV4) (self : ControlBlockState) : ControlBlockState :=
  mkControlBlockState a (cs_remote self) (cs_receive_buffer_size self) (cs_window_scale self)
    (cs_out_of_order_fin self) (cs_out_of_order_queue self) (cs_receiver self) (cs_sender self).

(** ** The whole migrated state *)

(** [dyn ApplicationState]: its size, and its serialization into a slice of that size. *)
Record AppState := mkAppState {
  app_serialized_size : nat;
  app_serialize : list Z -> outcome (list Z)
}.

Inductive MigratedApplicationState :=
| AppRegistered (state : AppState)
| AppMigratedIn (buf : Buffer.t)
| AppNone.

Record TcpState := mkTcpState {
  ts_cb : ControlBlockState;
  ts_app_state : MigratedApplicationState
}.

(** [TcpState::new] *)
Definition TcpState_new (cb : ControlBlockState) : TcpState := mkTcpState cb AppNone.

Definition TcpState_serialized_size (self : TcpState) : nat :=
  (ControlBlockState_serialized_size (ts_cb self) + 1 +
   match ts_app_state self with
   | AppRegistered state => app_serialized_size state
   | AppNone | AppMigratedIn _ => 0
   end)%nat.

Definition TcpState_serialize (self : TcpState) : outcome Buffer.t :=
  let n := TcpState_serialized_size self in
  if Nat.eqb n 0 then Panic "zero-capacity buffer" else
  let buf := replicate n 0 in
  '(done, remaining) ← ControlBlockState_serialize_into (ts_cb self) buf;
  remaining ← match ts_app_state self with
              | AppRegistered state =>
                  if Nat.eqb (app_serialized_size state) 0 then write_at remaining 0 [0]
                  else
                    remaining ← write_at remaining 0 [1];
                    '(d, rest) ← split_at remaining 1;
                    rest ← app_serialize state rest;
                    Ret (d ++ rest)
              | AppNone | AppMigratedIn _ => write_at remaining 0 [0]
              end;
  Ret (done ++ remaining).

Definition TcpState_deserialize (buf : Buffer.t) : outcome TcpState :=
  '(cb, buf) ← ControlBlockState_deserialize_from buf;
  d ← index buf 0;
  if d =? 0 then Ret (mkTcpState cb AppNone)
  else
    buf ← Buffer.adjust buf 1;
    Ret (mkTcpState cb (AppMigratedIn buf)).

(** [TcpState::set_local], [recv_queue_len], [connection] *)
Definition TcpState_set_local (a : SocketAddrV4) (self : TcpState) : TcpState :=
  mkTcpState (set_local a (ts_cb self)) (ts_app_state self).

(** [TcpState::add_app_state] *)
Definition add_app_state (state : AppState) (self : TcpState) : TcpState :=
  mkTcpState (ts_cb self) (AppRegistered state).

(** ** Codecs *)

(** The two trait implementations of a type. *)
Record Codec (T : Type) := mkCodec { serialize_into : serializer T; deserialize_from : deserializer T }.
Arguments mkCodec {T}. Arguments serialize_into {T}. Arguments deserialize_from {T}.

(** What an implementation promises on the values that fit its fields: the bytes written, and
    what reading them returns. *)
Class CodecSpec {T} (c : Codec T) := {
  fits : T -> Prop;
  encoding : T -> list Z;
  decoded : T -> T;
  codec_serialize x buf :
    fits x -> (length (encoding x) <= length buf)%nat ->
    serialize_into c x buf = Ret (encoding x, drop (length (encoding x)) buf);
  codec_deserialize x rest :
    fits x -> blen (encoding x ++ rest) < 2^62 ->
    deserialize_from c (encoding x ++ rest) = Ret (decoded x, rest)
}.

(** Writing at the end of what is written. *)
Lemma write_next p r i src :
  i = length p -> (length src <= length r)%nat ->
  write_at (p ++ r) i src = Ret ((p ++ src) ++ drop (length src) r).
Proof.
  intros -> Hl. rewrite <- (take_drop (length src) r) at 1. rewrite <- app_assoc.
  apply write_at_mid; [done|]. rewrite length_take. lia.
Qed.

Lemma write_first r src :
  (length src <= length r)%nat -> write_at r 0 src = Ret (src ++ drop (length src) r).
Proof. intros Hl. apply (write_next [] r 0 src eq_refl Hl). Qed.

Lemma split_at_app p r n : n = length p -> split_at (p ++ r) n = Ret (p, r).
Proof.
  intros ->. unfold split_at. rewrite (proj2 (Nat.leb_le _ _)) by (rewrite length_app; lia).
  by rewrite take_app_length, drop_app_length.
Qed.

Lemma adjust_app p r n : n = blen p -> Buffer.adjust (p ++ r) n = Ret r.
Proof.
  intros ->. rewrite buffer_adjust_ok by (rewrite blen_app; pose proof (blen_nonneg p); pose proof (blen_nonneg r); lia).
  unfold blen. rewrite Nat2Z.id. by rewrite drop_app_length.
Qed.

(** Skip the first cells of a buffer whose cells are known. *)
Lemma adjust_cells_ok (buf : list Z) (k : nat) :
  (k <= length buf)%nat -> Buffer.adjust buf (Z.of_nat k) = Ret (drop k buf).
Proof. intros Hk. rewrite buffer_adjust_ok by (unfold blen; lia). by rewrite Nat2Z.id. Qed.

Ltac adjust_cells k :=
  match goal with |- context [Buffer.adjust ?buf ?z] =>
    rewrite (adjust_cells_ok buf k ltac:(cbn [length]; lia) : Buffer.adjust buf z = Ret (drop k buf)) end;
  cbn [drop mbind outcome_bind]; rewrite ?drop_0.

Lemma blen_app_lt {A} (l k : list A) n : blen (l ++ k) < n -> blen k < n.
Proof. rewrite blen_app. pose proof (blen_nonneg l). lia. Qed.

Lemma read_u32_front z r : u32_ok z -> read_u32 (be32 z ++ r) 0 = Ret z.
Proof. intros Hz. unfold be32. run_bytes. by rewrite be32_get32'. Qed.

(** One write of a serializer: the next bytes go to the front of what is left. *)
Ltac codec_len := rewrite ?length_app, ?length_drop in *; cbn [length be32 be16 octets] in *; lia.
Ltac codec_write :=
  first [rewrite write_first by codec_len
        |rewrite write_next by first [reflexivity | codec_len]];
  cbn [mbind outcome_bind].
Ltac codec_split :=
  rewrite split_at_app by (rewrite ?length_app; reflexivity); cbn [mbind outcome_bind].

#[export] Instance SeqNumber_codec_spec :
  CodecSpec (mkCodec SeqNumber_serialize_into SeqNumber_deserialize_from).
Proof.
  refine {| fits := u32_ok; encoding := be32; decoded := id |}.
  - intros x buf _ Hl. cbn [serialize_into]. unfold SeqNumber_serialize_into. codec_write. by codec_split.
  - intros x rest Hx _. cbn [deserialize_from]. unfold SeqNumber_deserialize_from.
    rewrite read_u32_front by done. cbn [mbind outcome_bind]. by rewrite adjust_app.
Defined.

Definition buffer_encoding (self : Buffer.t) : list Z := be32 (blen self) ++ self.

Lemma buffer_serialize self buf :
  blen self <= U32_MAX -> (4 + length self <= length buf)%nat ->
  Buffer_serialize_into self buf = Ret (buffer_encoding self, drop (4 + length self) buf).
Proof.
  intros Hx Hl. unfold Buffer_serialize_into, buffer_encoding. rewrite (proj2 (Z.ltb_ge _ _)) by done.
  codec_write. codec_write. cbn [length be32]. rewrite drop_drop.
  rewrite split_at_app by (rewrite length_app; reflexivity). done.
Qed.

Lemma buffer_deserialize self rest :
  blen self <= U32_MAX -> blen (buffer_encoding self ++ rest) < 2^62 ->
  Buffer_deserialize_from (buffer_encoding self ++ rest) = Ret (self, rest).
Proof.
  unfold Buffer_deserialize_from, buffer_encoding. intros Hx Hr. rewrite !blen_app in Hr. rewrite <- app_assoc.
  change (blen (be32 (blen self))) with 4 in Hr.
  pose proof (blen_nonneg self). pose proof (blen_nonneg rest). unfold U32_MAX in Hx.
  rewrite read_u32_front by (unfold u32_ok; lia). cbn [mbind outcome_bind].
  rewrite adjust_app by reflexivity. cbn [mbind outcome_bind].
  rewrite blen_app. replace (wrap64 (blen self + blen rest - blen self)) with (blen rest)
    by (unfold wrap64; rewrite Z.mod_small; lia).
  rewrite buffer_trim_ok by (rewrite blen_app; lia). cbn [mbind outcome_bind].
  rewrite adjust_app by reflexivity. cbn [mbind outcome_bind]. do 2 f_equal.
  rewrite blen_app, Z.add_simpl_r. unfold blen. rewrite Nat2Z.id. by rewrite take_app_length.
Qed.

#[export] Instance Buffer_codec_spec : CodecSpec (mkCodec Buffer_serialize_into Buffer_deserialize_from).
Proof.
  refine {| fits := fun x => blen x <= U32_MAX; encoding := buffer_encoding; decoded := id |}.
  - intros x buf Hx Hl. cbn [serialize_into]. unfold buffer_encoding in Hl.
    rewrite buffer_serialize; [|done|codec_len]. unfold buffer_encoding. by rewrite length_app.
  - intros x rest Hx Hr. by apply buffer_deserialize.
Defined.

#[export] Instance UnackedSegment_codec_spec :
  CodecSpec (mkCodec UnackedSegment_serialize_into UnackedSegment_deserialize_from).
Proof.
  refine {| fits := fun x => blen (bytes x) <= U32_MAX; encoding := fun x => buffer_encoding (bytes x);
            decoded := fun x => mkUnacked (bytes x) None |}.
  - intros x buf Hx Hl. cbn [serialize_into]. unfold UnackedSegment_serialize_into, buffer_encoding in *.
    rewrite buffer_serialize; [|done|codec_len]. by rewrite length_app.
  - intros x rest Hx Hr. cbn [deserialize_from]. unfold UnackedSegment_deserialize_from.
    by rewrite buffer_deserialize.
Defined.

#[export] Instance SeqBuffer_codec_spec :
  CodecSpec (mkCodec SeqBuffer_serialize_into SeqBuffer_deserialize_from).
Proof.
  refine {| fits := fun x => u32_ok (fst x) /\ blen (snd x) <= U32_MAX;
            encoding := fun x => be32 (fst x) ++ buffer_encoding (snd x); decoded := id |}.
  - intros [s x] buf [Hs Hx] Hl. cbn [fst snd serialize_into] in *. unfold SeqBuffer_serialize_into, buffer_encoding in *.
    cbn [fst snd]. codec_write. codec_split. rewrite buffer_serialize; [|done|codec_len].
    unfold then_serialize, buffer_encoding. cbn [mbind outcome_bind]. rewrite drop_drop, !length_app. done.
  - intros [s x] rest [Hs Hx] Hr. cbn [fst snd deserialize_from] in *. unfold SeqBuffer_deserialize_from.
    rewrite <- app_assoc in *. rewrite read_u32_front by done. cbn [mbind outcome_bind].
    rewrite adjust_app by reflexivity. cbn [mbind outcome_bind].
    rewrite buffer_deserialize; [done|done|]. rewrite blen_app in Hr. pose proof (blen_nonneg (be32 s)). lia.
Defined.

Section containers.
Context {T : Type} (c : Codec T) `{Hc : !CodecSpec c}.

#[export] Instance Option_codec_spec :
  CodecSpec (mkCodec (Option_serialize_into (serialize_into c)) (Option_deserialize_from (deserialize_from c))).
Proof.
  refine {| fits := fun x => match x with Some e => fits (c:=c) e | None => True end;
            encoding := fun x => match x with Some e => 1 :: encoding (c:=c) e | None => [0] end;
            decoded := fun x => option_map (decoded (c:=c)) x |}.
  - intros [e|] buf He Hl; cbn [serialize_into]; unfold Option_serialize_into.
    + rewrite (write_first buf [1]) by codec_len. cbn [mbind outcome_bind].
      rewrite (split_at_app [1]) by done. cbn [mbind outcome_bind].
      rewrite codec_serialize; [|done|codec_len]. unfold then_serialize. cbn [mbind outcome_bind].
      by rewrite drop_drop.
    + rewrite (write_first buf [0]) by codec_len. cbn [mbind outcome_bind]. by rewrite (split_at_app [0]).
  - intros [e|] rest He Hr; cbn [deserialize_from]; unfold Option_deserialize_from.
    + cbn [app index lookup list_lookup mbind outcome_bind]. change (1 :: encoding e ++ rest) with ([1] ++ encoding e ++ rest).
      rewrite (adjust_app [1]) by reflexivity. cbn [mbind outcome_bind]. change (1 =? 0) with false. change (1 =? 1) with true.
      cbv iota. rewrite codec_deserialize; [done|done|].
      change ((1 :: encoding e) ++ rest) with ([1] ++ encoding e ++ rest) in Hr. rewrite blen_app in Hr.
      change (blen [1]) with 1 in Hr. lia.
    + cbn [app index lookup list_lookup mbind outcome_bind]. change (0 :: rest) with ([0] ++ rest).
      by rewrite (adjust_app [0]).
Defined.

Definition elements_encoding (l : list T) : list Z := concat (map (encoding (c:=c)) l).

Lemma elements_serialize l buf :
  Forall (fits (c:=c)) l -> (length (elements_encoding l) <= length buf)%nat ->
  elements_serialize_into (serialize_into c) l buf = Ret (elements_encoding l, drop (length (elements_encoding l)) buf).
Proof.
  unfold elements_encoding. revert buf. induction l as [|e l IH]; intros buf Hl Hlen; [done|].
  apply Forall_cons in Hl as [He Hl]. cbn [elements_serialize_into map concat] in *. rewrite length_app in *.
  rewrite codec_serialize by (done || lia). cbn [mbind outcome_bind].
  rewrite IH; [|done|rewrite length_drop; lia]. unfold then_serialize. cbn [mbind outcome_bind]. by rewrite drop_drop.
Qed.

Lemma elements_deserialize l rest :
  Forall (fits (c:=c)) l -> blen (elements_encoding l ++ rest) < 2^62 ->
  elements_deserialize_from (deserialize_from c) (length l) (elements_encoding l ++ rest) =
  Ret (map (decoded (c:=c)) l, rest).
Proof.
  unfold elements_encoding. induction l as [|e l IH]; intros Hl Hlen; [done|].
  apply Forall_cons in Hl as [He Hl]. cbn [elements_deserialize_from length map concat] in *.
  rewrite <- app_assoc in *. rewrite codec_deserialize by done. cbn [mbind outcome_bind].
  rewrite IH; [done|done|]. rewrite blen_app in Hlen. pose proof (blen_nonneg (encoding e)). lia.
Qed.

#[export] Instance VecDeque_codec_spec :
  CodecSpec (mkCodec (VecDeque_serialize_into (serialize_into c)) (VecDeque_deserialize_from (deserialize_from c))).
Proof.
  refine {| fits := fun l => blen l <= U32_MAX /\ Forall (fits (c:=c)) l;
            encoding := fun l => be32 (blen l) ++ elements_encoding l;
            decoded := map (decoded (c:=c)) |}.
  - intros l buf [Hn Hl] Hlen. cbn [serialize_into]. unfold VecDeque_serialize_into.
    rewrite (proj2 (Z.ltb_ge _ _)) by done. codec_write. codec_split.
    rewrite elements_serialize; [|done|codec_len]. unfold then_serialize. cbn [mbind outcome_bind].
    by rewrite drop_drop, length_app.
  - intros l rest [Hn Hl] Hr. cbn [deserialize_from]. unfold VecDeque_deserialize_from. rewrite <- app_assoc in *.
    pose proof (blen_nonneg l). unfold U32_MAX in Hn.
    rewrite read_u32_front by (unfold u32_ok; lia). cbn [mbind outcome_bind].
    rewrite adjust_app by reflexivity. cbn [mbind outcome_bind]. unfold blen at 1. rewrite Nat2Z.id.
    apply elements_deserialize; [done|]. rewrite blen_app in Hr. pose proof (blen_nonneg (be32 (blen l))). lia.
Defined.

End containers.

(** The generic facts in the form the record serializers use them. *)
Section by_parts.
Context {T : Type} (ser : serializer T) (des : deserializer T) `{Hc : !CodecSpec (mkCodec ser des)}.

Definition deque_encoding (l : list T) : list Z := be32 (blen l) ++ elements_encoding (mkCodec ser des) l.
Definition deque_fits (l : list T) : Prop := blen l <= U32_MAX /\ Forall (fits (c:=mkCodec ser des)) l.

Lemma deque_serialize l buf :
  deque_fits l -> (length (deque_encoding l) <= length buf)%nat ->
  VecDeque_serialize_into ser l buf = Ret (deque_encoding l, drop (length (deque_encoding l)) buf).
Proof. exact (codec_serialize (CodecSpec := VecDeque_codec_spec (mkCodec ser des)) l buf). Qed.

Lemma deque_deserialize l rest :
  deque_fits l -> blen (deque_encoding l ++ rest) < 2^62 ->
  VecDeque_deserialize_from des (deque_encoding l ++ rest) = Ret (map (decoded (c:=mkCodec ser des)) l, rest).
Proof. exact (codec_deserialize (CodecSpec := VecDeque_codec_spec (mkCodec ser des)) l rest). Qed.

End by_parts.

(** *** The sender's state *)

Definition unacked_encoding := deque_encoding UnackedSegment_serialize_into UnackedSegment_deserialize_from.
Definition buffers_encoding := deque_encoding Buffer_serialize_into Buffer_deserialize_from.
Definition ooo_encoding := deque_encoding SeqBuffer_serialize_into SeqBuffer_deserialize_from.

Definition sender_fixed (s : SenderState) : list Z :=
  be32 (ss_unsent_seq_no s) ++ be32 (ss_send_unacked s) ++ be32 (ss_send_next s) ++ be32 (ss_send_window s)
  ++ be32 (ss_send_window_last_update_seq s) ++ be32 (ss_send_window_last_update_ack s) ++ be32 (ss_mss s)
  ++ [ss_window_scale s].

Record sender_fits (s : SenderState) : Prop := {
  sf_unsent : u32_ok (ss_unsent_seq_no s);
  sf_unacked : u32_ok (ss_send_unacked s);
  sf_next : u32_ok (ss_send_next s);
  sf_window : u32_ok (ss_send_window s);
  sf_seq : u32_ok (ss_send_window_last_update_seq s);
  sf_ack : u32_ok (ss_send_window_last_update_ack s);
  sf_mss : u32_ok (ss_mss s);
  sf_scale : u8_ok (ss_window_scale s);
  sf_unacked_queue : deque_fits UnackedSegment_serialize_into UnackedSegment_deserialize_from (ss_unacked_queue s);
  sf_unsent_queue : deque_fits Buffer_serialize_into Buffer_deserialize_from (ss_unsent_queue s)
}.

(** Transmission times do not travel. *)
Definition forget_times (s : SenderState) : SenderState :=
  mkSenderState (ss_unsent_seq_no s) (ss_send_unacked s) (ss_send_next s) (ss_send_window s)
    (ss_send_window_last_update_seq s) (ss_send_window_last_update_ack s) (ss_mss s) (ss_window_scale s)
    (map (fun u => mkUnacked (bytes u) None) (ss_unacked_queue s)) (ss_unsent_queue s).

#[export] Instance SenderState_codec_spec :
  CodecSpec (mkCodec SenderState_serialize_into SenderState_deserialize_from).
Proof.
  refine {| fits := sender_fits;
            encoding := fun s => sender_fixed s ++ unacked_encoding (ss_unacked_queue s) ++ buffers_encoding (ss_unsent_queue s);
            decoded := forget_times |}.
  - intros s buf [] Hl. cbn [serialize_into]. unfold SenderState_serialize_into, sender_fixed in *.
    rewrite !length_app in Hl. cbn [length be32] in Hl.
    do 8 codec_write. cbn [length be32] in *. rewrite !drop_drop.
    rewrite (split_at_app _ _ 29) by done. cbn [mbind outcome_bind].
    rewrite (deque_serialize _ UnackedSegment_deserialize_from) by (done || (fold unacked_encoding; codec_len)).
    cbn [mbind outcome_bind].
    rewrite (deque_serialize _ Buffer_deserialize_from) by (done || (fold unacked_encoding buffers_encoding; codec_len)).
    unfold then_serialize. cbn [mbind outcome_bind]. fold unacked_encoding buffers_encoding.
    rewrite !drop_drop, <- !app_assoc, !length_app. done.
  - intros s rest [] Hr. cbn [deserialize_from]. unfold SenderState_deserialize_from, sender_fixed in *.
    rewrite <- !app_assoc in *. unfold be32. run_bytes. rewrite !be32_get32' by done.
    adjust_cells 29%nat. unfold unacked_encoding, buffers_encoding in *.
    do 8 apply blen_app_lt in Hr.
    rewrite (deque_deserialize UnackedSegment_serialize_into) by done. cbn [mbind outcome_bind].
    apply blen_app_lt in Hr. rewrite (deque_deserialize Buffer_serialize_into) by done.
    cbn [mbind outcome_bind]. unfold forget_times. by rewrite map_id.
Defined.

(** *** The receiver's state *)

Record receiver_fits (r : ReceiverState) : Prop := {
  rf_reader : u32_ok (rs_reader_next r);
  rf_receive : u32_ok (rs_receive_next r);
  rf_queue : deque_fits Buffer_serialize_into Buffer_deserialize_from (rs_recv_queue r)
}.

#[export] Instance ReceiverState_codec_spec :
  CodecSpec (mkCodec ReceiverState_serialize_into ReceiverState_deserialize_from).
Proof.
  refine {| fits := receiver_fits;
            encoding := fun r => be32 (rs_reader_next r) ++ be32 (rs_receive_next r) ++ buffers_encoding (rs_recv_queue r);
            decoded := id |}.
  - intros r buf [] Hl. cbn [serialize_into]. unfold ReceiverState_serialize_into.
    rewrite !length_app in Hl. cbn [length be32] in Hl.
    do 2 codec_write. cbn [length be32] in *. rewrite !drop_drop.
    rewrite (split_at_app _ _ 8) by done. cbn [mbind outcome_bind].
    rewrite (deque_serialize _ Buffer_deserialize_from) by (done || (fold buffers_encoding; codec_len)).
    unfold then_serialize. cbn [mbind outcome_bind]. fold buffers_encoding.
    rewrite !drop_drop, <- !app_assoc, !length_app. done.
  - intros r rest [] Hr. cbn [deserialize_from]. unfold ReceiverState_deserialize_from.
    rewrite <- !app_assoc in *. unfold be32. run_bytes. rewrite !be32_get32' by done.
    adjust_cells 8%nat. unfold buffers_encoding in *. do 2 apply blen_app_lt in Hr.
    rewrite (deque_deserialize Buffer_serialize_into) by done. cbn [mbind outcome_bind]. rewrite map_id. by destruct r.
Defined.

(** *** The control block's state *)

Definition option_encoding (o : option Seq.SeqNumber) : list Z :=
  match o with Some s => 1 :: be32 s | None => [0] end.

Definition cb_fixed (s : ControlBlockState) : list Z :=
  be32 (ip (cs_local s)) ++ be16 (port (cs_local s)) ++ be32 (ip (cs_remote s)) ++ be16 (port (cs_remote s))
  ++ be32 (cs_receive_buffer_size s) ++ be32 (cs_window_scale s).

Definition addr_ok (a : SocketAddrV4) : Prop := u32_ok (ip a) /\ u16_ok (port a).

Record state_fits (s : ControlBlockState) : Prop := {
  cf_local : addr_ok (cs_local s);
  cf_remote : addr_ok (cs_remote s);
  cf_size : u32_ok (cs_receive_buffer_size s);
  cf_scale : u32_ok (cs_window_scale s);
  cf_fin : match cs_out_of_order_fin s with Some f => u32_ok f | None => True end;
  cf_ooo : deque_fits SeqBuffer_serialize_into SeqBuffer_deserialize_from (cs_out_of_order_queue s);
  cf_receiver : receiver_fits (cs_receiver s);
  cf_sender : sender_fits (cs_sender s)
}.

Definition state_decoded (s : ControlBlockState) : ControlBlockState :=
  mkControlBlockState (cs_local s) (cs_remote s) (cs_receive_buffer_size s) (cs_window_scale s)
    (cs_out_of_order_fin s) (cs_out_of_order_queue s) (cs_receiver s) (forget_times (cs_sender s)).

Definition receiver_encoding : ReceiverState -> list Z := encoding (CodecSpec := ReceiverState_codec_spec).
Definition sender_encoding : SenderState -> list Z := encoding (CodecSpec := SenderState_codec_spec).

Definition state_encoding (s : ControlBlockState) : list Z :=
  cb_fixed s ++ option_encoding (cs_out_of_order_fin s) ++ ooo_encoding (cs_out_of_order_queue s)
  ++ receiver_encoding (cs_receiver s) ++ sender_encoding (cs_sender s).

Lemma option_serialize o buf :
  (length (option_encoding o) <= length buf)%nat ->
  match o with Some f => u32_ok f | None => True end ->
  Option_serialize_into SeqNumber_serialize_into o buf = Ret (option_encoding o, drop (length (option_encoding o)) buf).
Proof.
  intros Hl Ho. exact (codec_serialize (CodecSpec := Option_codec_spec (mkCodec SeqNumber_serialize_into SeqNumber_deserialize_from)) o buf Ho Hl).
Qed.

Lemma option_deserialize o rest :
  match o with Some f => u32_ok f | None => True end -> blen (option_encoding o ++ rest) < 2^62 ->
  Option_deserialize_from SeqNumber_deserialize_from (option_encoding o ++ rest) = Ret (o, rest).
Proof.
  intros Ho Hl. etrans.
  - exact (codec_deserialize (CodecSpec := Option_codec_spec (mkCodec SeqNumber_serialize_into SeqNumber_deserialize_from)) o rest Ho Hl).
  - by destruct o.
Qed.

Lemma receiver_serialize r buf :
  receiver_fits r -> (length (receiver_encoding r) <= length buf)%nat ->
  ReceiverState_serialize_into r buf = Ret (receiver_encoding r, drop (length (receiver_encoding r)) buf).
Proof. exact (codec_serialize (CodecSpec := ReceiverState_codec_spec) r buf). Qed.

Lemma receiver_deserialize r rest :
  receiver_fits r -> blen (receiver_encoding r ++ rest) < 2^62 ->
  ReceiverState_deserialize_from (receiver_encoding r ++ rest) = Ret (r, rest).
Proof. exact (codec_deserialize (CodecSpec := ReceiverState_codec_spec) r rest). Qed.

Lemma sender_serialize s buf :
  sender_fits s -> (length (sender_encoding s) <= length buf)%nat ->
  SenderState_serialize_into s buf = Ret (sender_encoding s, drop (length (sender_encoding s)) buf).
Proof. exact (codec_serialize (CodecSpec := SenderState_codec_spec) s buf). Qed.

Lemma sender_deserialize s rest :
  sender_fits s -> blen (sender_encoding s ++ rest) < 2^62 ->
  SenderState_deserialize_from (sender_encoding s ++ rest) = Ret (forget_times s, rest).
Proof. exact (codec_deserialize (CodecSpec := SenderState_codec_spec) s rest). Qed.

Lemma state_serialize s buf :
  state_fits s -> (length (state_encoding s) <= length buf)%nat ->
  ControlBlockState_serialize_into s buf = Ret (state_encoding s, drop (length (state_encoding s)) buf).
Proof.
  intros [] Hl. unfold ControlBlockState_serialize_into, state_encoding, cb_fixed, octets in *.
  rewrite !length_app in Hl. cbn [length be32 be16] in Hl.
  do 6 codec_write. cbn [length be32 be16] in *. rewrite !drop_drop.
  rewrite (split_at_app _ _ 20) by done. cbn [mbind outcome_bind].
  rewrite option_serialize by (done || codec_len). cbn [mbind outcome_bind].
  rewrite (deque_serialize _ SeqBuffer_deserialize_from) by (done || (fold ooo_encoding; codec_len)).
  cbn [mbind outcome_bind]. fold ooo_encoding.
  rewrite receiver_serialize by (done || codec_len). cbn [mbind outcome_bind].
  rewrite sender_serialize by (done || codec_len).
  unfold then_serialize. cbn [mbind outcome_bind]. rewrite !drop_drop, <- !app_assoc, !length_app. done.
Qed.

Lemma state_deserialize s rest :
  state_fits s -> blen (state_encoding s ++ rest) < 2^62 ->
  ControlBlockState_deserialize_from (state_encoding s ++ rest) = Ret (state_decoded s, rest).
Proof.
  intros [[] [] ? ? ? ? ? ?] Hr. unfold ControlBlockState_deserialize_from, read_addr, Ipv4Addr_new, state_encoding, cb_fixed in *.
  rewrite <- !app_assoc in *. unfold be32, be16. run_bytes. rewrite !be32_get32', !be16_get16' by done.
  adjust_cells 20%nat. unfold ooo_encoding in *. do 6 apply blen_app_lt in Hr.
  rewrite option_deserialize by done. cbn [mbind outcome_bind]. apply blen_app_lt in Hr.
  rewrite (deque_deserialize SeqBuffer_serialize_into) by done. cbn [mbind outcome_bind]. apply blen_app_lt in Hr.
  rewrite receiver_deserialize by done. cbn [mbind outcome_bind]. apply blen_app_lt in Hr.
  rewrite sender_deserialize by done. cbn [mbind outcome_bind]. unfold state_decoded. rewrite map_id.
  by destruct s as [[] [] ? ? ? ? ? ?].
Qed.

(** ** The announced sizes *)

Lemma sum_lens_acc l n : foldl (fun acc e => acc + 4 + length e)%nat n l = (n + sum_lens l)%nat.
Proof.
  unfold sum_lens. revert n. induction l as [|x l IH]; intros n; cbn [foldl]; [lia|].
  rewrite IH, (IH (0 + 4 + length x)%nat). lia.
Qed.

Lemma sum_lens_cons x l : sum_lens (x :: l) = (4 + length x + sum_lens l)%nat.
Proof. unfold sum_lens at 1. cbn [foldl]. apply sum_lens_acc. Qed.

Lemma buffers_size l : length (buffers_encoding l) = (4 + sum_lens l)%nat.
Proof.
  unfold buffers_encoding, deque_encoding, elements_encoding. rewrite length_app. cbn [length be32]. f_equal.
  induction l as [|x l IH]; [done|]. cbn [map concat]. rewrite length_app, IH, sum_lens_cons. done.
Qed.

Lemma unacked_size l : length (unacked_encoding l) = (4 + sum_lens (map bytes l))%nat.
Proof.
  unfold unacked_encoding, deque_encoding, elements_encoding. rewrite length_app. cbn [length be32]. f_equal.
  induction l as [|x l IH]; [done|]. cbn [map concat]. rewrite length_app, IH, sum_lens_cons. done.
Qed.

Lemma ooo_size l :
  length (ooo_encoding l) = (4 + foldl (fun acc e => acc + 4 + 4 + length (snd e))%nat 0%nat l)%nat.
Proof.
  unfold ooo_encoding, deque_encoding, elements_encoding. rewrite length_app. cbn [length be32]. f_equal.
  assert (H : forall n, foldl (fun acc e => acc + 4 + 4 + length (snd e))%nat n l =
    (n + length (concat (map (fun x : Seq.SeqNumber * Buffer.t => be32 (fst x) ++ buffer_encoding (snd x)) l)))%nat).
  { induction l as [|x l IH]; intros n; cbn [foldl map concat]; [cbn [length]; lia|]. rewrite IH, !length_app.
    unfold buffer_encoding. rewrite length_app. cbn [length be32]. lia. }
  rewrite H. done.
Qed.

(** [serialized_size] is the number of bytes [serialize_into] writes. *)
Lemma state_size s : length (state_encoding s) = ControlBlockState_serialized_size s.
Proof.
  unfold state_encoding, ControlBlockState_serialized_size, cb_fixed. rewrite !length_app.
  change (receiver_encoding (cs_receiver s)) with
    (be32 (rs_reader_next (cs_receiver s)) ++ be32 (rs_receive_next (cs_receiver s)) ++ buffers_encoding (rs_recv_queue (cs_receiver s))).
  change (sender_encoding (cs_sender s)) with
    (sender_fixed (cs_sender s) ++ unacked_encoding (ss_unacked_queue (cs_sender s)) ++ buffers_encoding (ss_unsent_queue (cs_sender s))).
  unfold sender_fixed. rewrite !length_app, ooo_size, !buffers_size, unacked_size.
  unfold ReceiverState_serialized_size, SenderState_serialized_size.
  destruct (cs_out_of_order_fin s); cbn [option_encoding length be32 be16]; lia.
Qed.

(** ** Properties *)

(** What the application's state writes into a slice of its size. *)
Definition app_writes (app : MigratedApplicationState) (content : list Z) : Prop :=
  match app with
  | AppRegistered a =>
      length content = app_serialized_size a /\
      forall slice, length slice = app_serialized_size a -> app_serialize a slice = Ret content
  | _ => content = []
  end.

Definition app_decoded (content : list Z) : MigratedApplicationState :=
  match content with [] => AppNone | _ => AppMigratedIn content end.

Lemma tcp_state_roundtrip_bytes st content :
  state_fits (ts_cb st) -> app_writes (ts_app_state st) content ->
  Z.of_nat (TcpState_serialized_size st) < 2^62 ->
  exists buf, TcpState_serialize st = Ret buf /\ length buf = TcpState_serialized_size st /\
    TcpState_deserialize buf = Ret (mkTcpState (state_decoded (ts_cb st)) (app_decoded content)).
Proof.
  intros Hf Happ Hsz. destruct st as [s app]. unfold TcpState_serialize, TcpState_serialized_size in *.
  cbn [ts_cb ts_app_state] in *. rewrite <- state_size in *.
  set (k := match app with AppRegistered a => app_serialized_size a | _ => 0%nat end) in *.
  assert (Hk : length content = k) by (destruct app; [apply Happ|by rewrite Happ..]).
  rewrite (proj2 (Nat.eqb_neq _ _)) by lia.
  rewrite state_serialize; [|done|rewrite length_replicate; lia]. cbn [mbind outcome_bind].
  rewrite drop_replicate. replace (length (state_encoding s) + 1 + k - length (state_encoding s))%nat with (S k) by lia.
  set (d := match content with [] => 0 | _ => 1 end).
  assert (Hrem : match app with
      | AppRegistered state =>
          if Nat.eqb (app_serialized_size state) 0 then write_at (replicate (S k) 0) 0 [0]
          else remaining ← write_at (replicate (S k) 0) 0 [1];
               '(d, rest) ← split_at remaining 1; rest ← app_serialize state rest; Ret (d ++ rest)
      | AppMigratedIn _ | AppNone => write_at (replicate (S k) 0) 0 [0]
      end = Ret (d :: content)).
  { destruct app as [a|m|]; [|by cbn in Happ; subst d k; rewrite Happ..]. destruct Happ as [Hlen Hser]. subst k.
    destruct (Nat.eqb_spec (app_serialized_size a) 0) as [E0|E0].
    - rewrite E0 in *. by apply nil_length_inv in Hlen as ->.
    - rewrite (write_first _ [1]) by (rewrite length_replicate; simpl; lia). cbn [mbind outcome_bind].
      rewrite (split_at_app [1]) by done. cbn [mbind outcome_bind].
      rewrite Hser by (rewrite length_drop, length_replicate; simpl; lia). cbn [mbind outcome_bind].
      destruct content; [simpl in Hlen; lia|done]. }
  rewrite Hrem. cbn [mbind outcome_bind]. eexists. split; [reflexivity|].
  split; [rewrite length_app; cbn [length]; lia|]. unfold TcpState_deserialize.
  rewrite state_deserialize; [|done|unfold blen; rewrite length_app; cbn [length]; lia]. cbn [mbind outcome_bind].
  cbn [index lookup list_lookup mbind outcome_bind]. subst d. destruct content as [|x content]; [done|].
  cbn [app_decoded]. change (1 =? 0) with false. cbv iota. change (1 :: x :: content) with ([1] ++ (x :: content)).
  by rewrite adjust_app.
Qed.

(** C30: a connection survives serialization but for the send times of its unacknowledged segments.
    For every connection state whose fields fit their
    types, together with the application's registered state, [serialize] fills exactly the
    announced number of bytes without panicking, and [deserialize] gives back the connection with
    every queue, sequence number and window, the transmission times of unacknowledged
    segments replaced by none ([state_decoded]), and the bytes the application wrote. *)
Theorem tcp_state_roundtrip (st : TcpState) (content : list Z) :
  state_fits (ts_cb st) -> app_writes (ts_app_state st) content ->
  Z.of_nat (TcpState_serialized_size st) < 2^62 ->
  exists buf, TcpState_serialize st = Ret buf /\ length buf = TcpState_serialized_size st /\
    TcpState_deserialize buf = Ret (mkTcpState (state_decoded (ts_cb st)) (app_decoded content)).
Proof. apply tcp_state_roundtrip_bytes. Qed.

(** A state with something in every queue, and an application of three bytes. *)
Definition state_example : TcpState :=
  mkTcpState
    (mkControlBlockState (mkAddr 167772417 10000) (mkAddr 167772418 5000) 65535 0 (Some 4294967295)
       [(4294967290, [7; 8])] (mkReceiverState 1 3 [[1]; [2]])
       (mkSenderState 9 4 8 65535 2 3 1450 7 [mkUnacked [5; 6; 7; 8] (Some 12)] [[9]]))
    (AppRegistered (mkAppState 3 (fun _ => Ret [1; 2; 3]))).

Lemma tcp_state_roundtrip_witness :
  exists buf, TcpState_serialize state_example = Ret buf /\
    TcpState_deserialize buf = Ret (mkTcpState (state_decoded (ts_cb state_example)) (AppMigratedIn [1; 2; 3])).
Proof.
  destruct (tcp_state_roundtrip state_example [1; 2; 3]) as (buf & H1 & _ & H2).
  - constructor; cbn; repeat (split || constructor); cbn; unfold u32_ok, u16_ok, u8_ok, U32_MAX; try done; cbn; lia.
  - split; [reflexivity|]. intros slice _. reflexivity.
  - by vm_compute.
  - exists buf. split; [exact H1|exact H2].
Defined.
