(* ===== verification/Migration.v ===== *)
(** * Moving a connection to another server

    The whole path of a migrating connection: its state is taken from the control block,
    serialized, cut into TCPMig segments, reassembled in whatever order they arrive,
    deserialized, and a control block is built from it on the other host.  The invariant of both
    directions survives, so everything proved of a connection holds of its continuation. *)

From S2P Require Import Prelude Buffer SeqNumber Net TcpSegment TcpMigSegment Congestion Rto CtrlBlk.
From S2P Require Import Wp Stream Receiving Sending Connection MigState.

(** The control block the target builds from the bytes it received. *)
Definition take_over (link : MacAddress) (offload : bool) (delay : Z) (buf : Buffer.t) :
  outcome (ControlBlock CcNone) :=
  ts ← TcpState_deserialize buf;
  Ret (ControlBlock_from_state link offload delay (ts_cb ts)).

(** The world of the target: the application continues where it stopped. *)
Definition continue_on {C} (w : world C) (cb : ControlBlock CcNone) : world CcNone :=
  mkWorld cb SenderTop (w_read w) (w_written w) (w_trace w).

Lemma q_at_forget T U q : q_at T U q -> q_at T U (map (fun u => mkUnacked (bytes u) None) q).
Proof.
  revert U. induction q as [|s q IH]; intros U Hq; [done|]. destruct Hq as (H1 & H2 & H3).
  split; [done|]. split; [|by apply IH]. intros E. by destruct (H2 E) as [-> ->].
Qed.

Lemma flight_forget q : flight (map (fun u => mkUnacked (bytes u) None) q) = flight q.
Proof. induction q as [|s q IH]; [done|]. cbn. by rewrite IH. Qed.

Lemma has_fin_forget q : has_fin (map (fun u => mkUnacked (bytes u) None) q) -> has_fin q.
Proof. intros H%Exists_fmap. done. Qed.

(** A state of less than 2^26 bytes takes less than 2^16 fragments, and fuel of one more than its
    length is enough to collect them. *)
Lemma frag_count_small n : Z.of_nat n < 2^26 -> Z.of_nat (n / MAX_FRAGMENT_SIZE) < U16_MAX.
Proof.
  intros Hn. rewrite Nat2Z.inj_div. unfold U16_MAX. change (Z.of_nat MAX_FRAGMENT_SIZE) with 1452.
  apply Z.div_lt_upper_bound; lia.
Qed.

Lemma frag_fuel n : (20 <= n)%nat -> (n / MAX_FRAGMENT_SIZE + 2 <= Datatypes.S n)%nat.
Proof.
  intros Hn. assert (n / MAX_FRAGMENT_SIZE <= n / 20)%nat.
  { apply Nat.div_le_compat_l. unfold MAX_FRAGMENT_SIZE. lia. }
  assert (n / 20 * 20 <= n)%nat by (rewrite Nat.mul_comm; apply Nat.Div0.mul_div_le). lia.
Qed.

Section migration.
Context {C : Type} `{!CongestionControl C, !CongestionControlLaws C} (S : list Z) (b c : Z).

(** What arrives is what left. *)
Lemma migrated_conn_inv A f T g U (cb left : ControlBlock C) st link off delay :
  conn_inv S b c A f T g U cb -> state cb = Established -> user_is_done_sending cb = false ->
  ControlBlockState_from cb = Ret (st, left) ->
  conn_inv S b c A f T g U (ControlBlock_from_state link off delay (state_decoded st)).
Proof.
  intros [HR HS] Hst Hd Hfrom. unfold ControlBlockState_from, SenderState_from in Hfrom. cbn in Hfrom.
  destruct (U32_MAX <? mss (sender cb)); [done|]. cbn in Hfrom. injection Hfrom as <- <-. split.
  - destruct HR. rewrite Hst in *. by constructor.
  - destruct HS. rewrite Hst, Hd in *. constructor; cbn; rewrite ?flight_forget; try done.
    + by apply q_at_forget.
    + apply Forall_fmap, Forall_forall. done.
    + intros Hf. by apply si_fin_q, has_fin_forget.
Qed.

End migration.

(** ** Properties *)

Section properties.
Context {C : Type} `{!CongestionControl C, !CongestionControlLaws C}.
Context (S : list Z) (b c : Z).

(** C14: migration is transparent to both ends.  Take a reachable connection that is ESTABLISHED,
    whose application has not closed it and whose serialized state is smaller than 2^26 bytes; move it
    (state taken, serialized, fragmented, the fragments arriving in any
    order, reassembled, deserialized, rebuilt): no step of the move panics, and from then on every
    admissible sequence of events on the target runs to its end, what the application reads in
    total is still a prefix of the peer's stream, and every transmitted segment still carries the
    application's stream. *)
Theorem migration_is_transparent (w : world C) (st : ControlBlockState) (left : ControlBlock C)
  (segment : Buffer.t -> TcpMigSegment) (link : MacAddress) (offload : bool) (delay : Z) :
  blen S < 2^31 - 4 -> reachable S b c w ->
  state (w_cb w) = Established -> user_is_done_sending (w_cb w) = false ->
  ControlBlockState_from (w_cb w) = Ret (st, left) -> state_fits st ->
  Z.of_nat (TcpState_serialized_size (TcpState_new st)) < 2^26 ->
  (forall buf, mig_data (segment buf) = buf) ->
  exists buf frags,
    TcpState_serialize (TcpState_new st) = Ret buf /\
    TcpMigFragmenter.collect (Datatypes.S (length buf)) (TcpMigFragmenter.fragments (segment buf)) = Ret frags /\
    forall arrival, arrival ≡ₚ frags ->
    exists d hdr answers cb,
      TcpMigDefragmenter.defragment_all TcpMigDefragmenter.new
        ((fun s => (tcpmig_hdr s, mig_data s)) <$> arrival) = Ret (d, answers ++ [Some (hdr, buf)]) /\
      take_over link offload delay buf = Ret cb /\
      forall evs, run_ok S b evs (continue_on w cb) ->
      exists w', run evs (continue_on w cb) = Ret w' /\
        (w_read w' ++ unread (w_cb w')) `prefix_of` S /\
        Forall (tx_ok S b (w_written w') (user_is_done_sending (w_cb w')) c) (w_trace w').
Proof.
  intros Hs Hw Hst Hd Hfrom Hfit Hsz Hseg.
  destruct (tcp_state_roundtrip_bytes (TcpState_new st) []) as (buf & Hser & Hlen & Hdes); [done|done|lia|].
  destruct (reassembles (segment buf) (Datatypes.S (length buf))) as (frags & Hcol & _ & Harr).
  { rewrite Hseg, Hlen. apply frag_count_small. done. }
  { rewrite Hseg. apply frag_fuel. rewrite Hlen. unfold TcpState_serialized_size, ControlBlockState_serialized_size. lia. }
  exists buf, frags. split; [done|]. split; [done|]. intros arrival Hperm.
  destruct (Harr arrival Hperm) as (d & Hall & _). rewrite Hseg in Hall.
  set (cb := ControlBlock_from_state link offload delay (state_decoded st)).
  exists d, (TcpMigHeader.set_fragment (tcpmig_hdr (segment buf)) false 0), (replicate (length frags - 1) None), cb.
  split; [exact Hall|]. split; [unfold take_over; by rewrite Hdes|]. intros evs Hok.
  destruct (reachable_inv S b c Hs w Hw) as (f & g & U & HI & Hread & _ & Htr & _).
  assert (Hinv : world_inv S b c True (continue_on w cb)).
  { exists f, g, U. split; [by eapply migrated_conn_inv|]. split; [done|]. split; [done|].
    cbn. split; [by rewrite Hd in Htr|]. by left. }
  destruct (run_inv S b c Hs evs _ Hinv Hok) as (w' & E & Hw'). exists w'. split; [done|].
  split; [by apply (world_prefix S b c True)|]. by destruct Hw' as (? & ? & ? & _ & _ & _ & ? & _).
Qed.

End properties.

(** A connection with bytes waiting in both directions. *)
Module MigrationExample.

Definition events : list (Env * event) :=
  [(ConnectionExample.env, EvSegment (ConnectionExample.header 0 false) [10; 20]);
   (ConnectionExample.env, EvSend [1; 2; 3])].

Definition before : world CcNone :=
  match run events (mkWorld ConnectionExample.cb0 SenderTop [] [] []) with
  | Ret w => w
  | _ => mkWorld ConnectionExample.cb0 SenderTop [] [] []
  end.

Lemma before_reachable : reachable ConnectionExample.S ConnectionExample.b ConnectionExample.c before.
Proof.
  eapply (run_reachable _ _ _ events); [apply reach_start, ConnectionExample.start| |vm_compute; reflexivity].
  unfold events. ConnectionExample.next_event; [ConnectionExample.segment_at 0|].
  ConnectionExample.next_event; [split; vm_compute; congruence|]. done.
Qed.

Definition taken : ControlBlockState * ControlBlock CcNone :=
  Eval vm_compute in
  match ControlBlockState_from (w_cb before) with
  | Ret p => p
  | _ => (ts_cb state_example, ConnectionExample.cb0)
  end.

Definition segment (buf : Buffer.t) : TcpMigSegment :=
  mkTcpMigSegment (Ethernet2Header.new [] [] EtIpv4) (Ipv4Header.new 1 2 UDP) mig_example buf.

End MigrationExample.

Lemma migration_is_transparent_witness :
  exists buf frags cb w',
    TcpState_serialize (TcpState_new (fst MigrationExample.taken)) = Ret buf /\
    TcpMigFragmenter.collect (Datatypes.S (length buf))
      (TcpMigFragmenter.fragments (MigrationExample.segment buf)) = Ret frags /\
    take_over [2; 0; 0; 0; 0; 3] false 0 buf = Ret cb /\
    run [(ConnectionExample.env, EvRead)] (continue_on MigrationExample.before cb) = Ret w' /\
    (w_read w' ++ unread (w_cb w')) `prefix_of` ConnectionExample.S.
Proof.
  destruct (migration_is_transparent ConnectionExample.S ConnectionExample.b ConnectionExample.c
    MigrationExample.before (fst MigrationExample.taken) (snd MigrationExample.taken) MigrationExample.segment
    [2; 0; 0; 0; 0; 3] false 0) as (buf & frags & H1 & H2 & H3).
  - by vm_compute.
  - apply MigrationExample.before_reachable.
  - vm_compute. reflexivity.
  - vm_compute. reflexivity.
  - vm_compute. reflexivity.
  - constructor; cbn; repeat (split || constructor); cbn; unfold u32_ok, u16_ok, u8_ok, U32_MAX; try done; cbn; lia.
  - vm_compute. reflexivity.
  - reflexivity.
  - destruct (H3 frags (Permutation_refl _)) as (d & hdr & answers & cb & _ & H5 & H6).
    pose proof H1 as E1. vm_compute in E1. injection E1 as <-. pose proof H5 as E5. vm_compute in E5. injection E5 as <-.
    destruct (H6 [(ConnectionExample.env, EvRead)]) as (w' & H7 & H8 & _).
    + split; [vm_compute; split; congruence|]. split; [exact I|]. vm_compute. exact I.
    + eexists _, frags, _, w'. split; [exact H1|]. split; [exact H2|]. split; [exact H5|]. split; [exact H7|exact H8].
Defined.
