(* ===== verification/MigPeer.v ===== *)
(** * The migration protocol
    (src/src/rust/inetstack/protocols/tcpmig/{active,peer,constants}.rs)

    One [ActiveMigration] per connection on the move, a state machine driven by the stage of the
    messages it receives, and the [TcpMigPeer] that owns them, with the application state that
    travels with a connection.  An operation returns the segments it hands to the runtime. *)

From S2P Require Import Prelude Buffer SeqNumber Net TcpSegment TcpMigSegment Congestion Rto CtrlBlk MigState.

Definition SELF_UDP_PORT : Z := 10000.
Definition FRONTEND_MAC : MacAddress := [0x08; 0xc0; 0xeb; 0xb6; 0xe8; 0x05].
Definition FRONTEND_IP : Ipv4Addr := Ipv4Addr_new 10 0 1 8.
Definition FRONTEND_PORT : Z := 10000.
Definition BACKEND_MAC : MacAddress := [0x08; 0xc0; 0xeb; 0xb6; 0xc5; 0xad].
Definition BACKEND_IP : Ipv4Addr := Ipv4Addr_new 10 0 1 9.

Inductive TcpmigReceiveStatus :=
| StOk
| StSentReject
| StRejected (origin client : SocketAddrV4)
| StReturnedBySwitch (origin client : SocketAddrV4)
| StPrepareMigrationAcked (qd : Z)
| StStateReceived (state : TcpState)
| StMigrationCompleted
| StHeartbeatResponse (queue_len : Z).

(** ** One migration *)

Record ActiveMigration := mkActive {
  am_local_ipv4_addr : Ipv4Addr;
  am_local_link_addr : MacAddress;
  am_remote_ipv4_addr : Ipv4Addr;
  am_remote_link_addr : MacAddress;
  am_self_udp_port : Z;
  am_dest_udp_port : Z;
  am_origin : SocketAddrV4;
  am_client : SocketAddrV4;
  am_last_sent_stage : MigrationStage.t;
  am_qd : option Z;
  am_recv_queue : list (TcpHeader.t * Buffer.t);
  am_defragmenter : TcpMigDefragmenter.t
}.

Module Active.

Definition new (local_ipv4_addr : Ipv4Addr) (local_link_addr : MacAddress) (remote_ipv4_addr : Ipv4Addr)
  (remote_link_addr : MacAddress) (self_udp_port dest_udp_port : Z) (origin client : SocketAddrV4)
  (qd : option Z) : ActiveMigration :=
  mkActive local_ipv4_addr local_link_addr remote_ipv4_addr remote_link_addr self_udp_port dest_udp_port
    origin client MigrationStage.None qd [] TcpMigDefragmenter.new.

Definition set_stage (v : MigrationStage.t) (a : ActiveMigration) : ActiveMigration :=
  mkActive (am_local_ipv4_addr a) (am_local_link_addr a) (am_remote_ipv4_addr a) (am_remote_link_addr a)
    (am_self_udp_port a) (am_dest_udp_port a) (am_origin a) (am_client a) v (am_qd a) (am_recv_queue a)
    (am_defragmenter a).
Definition set_dest_udp_port (v : Z) (a : ActiveMigration) : ActiveMigration :=
  mkActive (am_local_ipv4_addr a) (am_local_link_addr a) (am_remote_ipv4_addr a) (am_remote_link_addr a)
    (am_self_udp_port a) v (am_origin a) (am_client a) (am_last_sent_stage a) (am_qd a) (am_recv_queue a)
    (am_defragmenter a).
Definition set_recv_queue (v : list (TcpHeader.t * Buffer.t)) (a : ActiveMigration) : ActiveMigration :=
  mkActive (am_local_ipv4_addr a) (am_local_link_addr a) (am_remote_ipv4_addr a) (am_remote_link_addr a)
    (am_self_udp_port a) (am_dest_udp_port a) (am_origin a) (am_client a) (am_last_sent_stage a) (am_qd a) v
    (am_defragmenter a).
Definition set_defragmenter (v : TcpMigDefragmenter.t) (a : ActiveMigration) : ActiveMigration :=
  mkActive (am_local_ipv4_addr a) (am_local_link_addr a) (am_remote_ipv4_addr a) (am_remote_link_addr a)
    (am_self_udp_port a) (am_dest_udp_port a) (am_origin a) (am_client a) (am_last_sent_stage a) (am_qd a)
    (am_recv_queue a) v.

(** [send]: the fragments handed to the runtime.  The fuel is enough for every payload. *)
Definition send (self : ActiveMigration) (tcpmig_hdr : TcpMigHeader.t) (buf : Buffer.t) :
  outcome (list TcpMigSegment) :=
  let ip_hdr := Ipv4Header.new (am_local_ipv4_addr self) (am_remote_ipv4_addr self) UDP in
  if U16_MAX <? Z.of_nat (length buf / MAX_FRAGMENT_SIZE) then Panic "TcpState too large" else
  let segment := mkTcpMigSegment
    (Ethernet2Header.new (am_remote_link_addr self) (am_local_link_addr self) EtIpv4) ip_hdr tcpmig_hdr buf in
  TcpMigFragmenter.collect (length buf + 2) (TcpMigFragmenter.fragments segment).

Definition next_header (hdr : TcpMigHeader.t) (next_stage : MigrationStage.t) : TcpMigHeader.t :=
  TcpMigHeader.swap_src_dst_port (TcpMigHeader.set_stage hdr next_stage).

(** [process_packet]; on an error nothing was changed and nothing sent. *)
Definition process_packet (self : ActiveMigration) (hdr : TcpMigHeader.t) (buf : Buffer.t) :
  outcome (Result TcpmigReceiveStatus * ActiveMigration * list TcpMigSegment) :=
  match am_last_sent_stage self with
  | MigrationStage.None =>
      match TcpMigHeader.stage hdr with
      | MigrationStage.PrepareMigration =>
          let hdr := next_header hdr MigrationStage.PrepareMigrationAck in
          let hdr := TcpMigHeader.set_flag_load hdr true in
          let self := set_stage MigrationStage.PrepareMigrationAck self in
          tx ← send self hdr [];
          Ret (Ok StOk, self, tx)
      | _ => Ret (Err (mkFail EBADMSG "expected PREPARE_MIGRATION"), self, [])
      end
  | MigrationStage.PrepareMigration =>
      match TcpMigHeader.stage hdr with
      | MigrationStage.PrepareMigrationAck =>
          let self := set_dest_udp_port (TcpMigHeader.get_source_udp_port hdr) self in
          match am_qd self with
          | Some qd => Ret (Ok (StPrepareMigrationAcked qd), self, [])
          | None => Panic "no qd on origin side"
          end
      | MigrationStage.Rejected =>
          Ret (Ok (StRejected (TcpMigHeader.origin hdr) (TcpMigHeader.client hdr)), self, [])
      | _ => Ret (Err (mkFail EBADMSG "expected PREPARE_MIGRATION_ACK or REJECTED"), self, [])
      end
  | MigrationStage.PrepareMigrationAck =>
      match TcpMigHeader.stage hdr with
      | MigrationStage.ConnectionState =>
          '(d, r) ← TcpMigDefragmenter.defragment (am_defragmenter self) hdr buf;
          let self := set_defragmenter d self in
          match r with
          | None => Ret (Ok StOk, self, [])
          | Some (hdr, buf) =>
              state ← TcpState_deserialize buf;
              let state := TcpState_set_local (mkAddr (am_local_ipv4_addr self) (am_self_udp_port self)) state in
              let hdr := next_header hdr MigrationStage.ConnectionStateAck in
              let self := set_stage MigrationStage.ConnectionStateAck self in
              tx ← send self hdr [];
              Ret (Ok (StStateReceived state), self, tx)
          end
      | _ => Ret (Err (mkFail EBADMSG "expected CONNECTION_STATE"), self, [])
      end
  | MigrationStage.ConnectionState =>
      match TcpMigHeader.stage hdr with
      | MigrationStage.ConnectionStateAck => Ret (Ok StMigrationCompleted, self, [])
      | _ => Ret (Err (mkFail EBADMSG "expected CONNECTION_STATE_ACK"), self, [])
      end
  | MigrationStage.ConnectionStateAck => Ret (Ok StOk, self, [])
  | MigrationStage.Rejected => Panic "Target should not receive a packet after rejecting origin."
  | MigrationStage.HeartbeatUpdate | MigrationStage.HeartbeatResponse => Panic "Heartbeat is not an active migration"
  end.

Definition initiate_migration (self : ActiveMigration) : outcome (ActiveMigration * list TcpMigSegment) :=
  if decide (am_last_sent_stage self = MigrationStage.None) then
    let hdr := TcpMigHeader.new (am_origin self) (am_client self) 0 MigrationStage.PrepareMigration
                 (am_self_udp_port self) (if am_self_udp_port self =? 10001 then 10000 else 10001) in
    let self := set_stage MigrationStage.PrepareMigration self in
    tx ← send self hdr [];
    Ret (self, tx)
  else Panic "assertion failed".

Definition send_connection_state (self : ActiveMigration) (state : TcpState) :
  outcome (ActiveMigration * list TcpMigSegment) :=
  if decide (am_last_sent_stage self = MigrationStage.PrepareMigration) then
    buf ← TcpState_serialize state;
    let hdr := TcpMigHeader.new (am_origin self) (am_client self) 0 MigrationStage.ConnectionState
                 (am_self_udp_port self) (am_dest_udp_port self) in
    let self := set_stage MigrationStage.ConnectionState self in
    tx ← send self hdr buf;
    Ret (self, tx)
  else Panic "assertion failed".

Definition buffer_packet (tcp_hdr : TcpHeader.t) (data : Buffer.t) (self : ActiveMigration) : ActiveMigration :=
  set_recv_queue (am_recv_queue self ++ [(tcp_hdr, data)]) self.

Definition take_buffered_packets (self : ActiveMigration) : list (TcpHeader.t * Buffer.t) * ActiveMigration :=
  (am_recv_queue self, set_recv_queue [] self).

End Active.

(** ** The peer *)

Record TcpMigPeer := mkPeer {
  mp_local_link_addr : MacAddress;
  mp_local_ipv4_addr : Ipv4Addr;
  mp_active_migrations : gmap SocketAddrV4 ActiveMigration;
  mp_incoming_user_data : gmap SocketAddrV4 Buffer.t;
  mp_self_udp_port : Z;
  mp_heartbeat_message : TcpMigSegment;
  mp_application_state : gmap SocketAddrV4 MigratedApplicationState
}.

Module Peer.

Definition new (local_link_addr : MacAddress) (local_ipv4_addr : Ipv4Addr) : TcpMigPeer :=
  mkPeer local_link_addr local_ipv4_addr ∅ ∅ SELF_UDP_PORT
    (mkTcpMigSegment (Ethernet2Header.new FRONTEND_MAC local_link_addr EtIpv4)
       (Ipv4Header.new local_ipv4_addr FRONTEND_IP UDP)
       (TcpMigHeader.new (mkAddr (Ipv4Addr_new 0 0 0 0) 0) (mkAddr (Ipv4Addr_new 0 0 0 0) 0) 4
          MigrationStage.HeartbeatUpdate SELF_UDP_PORT FRONTEND_PORT)
       [0; 0; 0; 0]) ∅.

Definition set_active (v : gmap SocketAddrV4 ActiveMigration) (p : TcpMigPeer) : TcpMigPeer :=
  mkPeer (mp_local_link_addr p) (mp_local_ipv4_addr p) v (mp_incoming_user_data p) (mp_self_udp_port p)
    (mp_heartbeat_message p) (mp_application_state p).
Definition set_incoming (v : gmap SocketAddrV4 Buffer.t) (p : TcpMigPeer) : TcpMigPeer :=
  mkPeer (mp_local_link_addr p) (mp_local_ipv4_addr p) (mp_active_migrations p) v (mp_self_udp_port p)
    (mp_heartbeat_message p) (mp_application_state p).
Definition set_app (v : gmap SocketAddrV4 MigratedApplicationState) (p : TcpMigPeer) : TcpMigPeer :=
  mkPeer (mp_local_link_addr p) (mp_local_ipv4_addr p) (mp_active_migrations p) (mp_incoming_user_data p)
    (mp_self_udp_port p) (mp_heartbeat_message p) v.

Definition set_port (port : Z) (p : TcpMigPeer) : TcpMigPeer :=
  mkPeer (mp_local_link_addr p) (mp_local_ipv4_addr p) (mp_active_migrations p) (mp_incoming_user_data p)
    port (mp_heartbeat_message p) (mp_application_state p).

(** The other machine: every message goes through the switch. *)
Definition other_ip (p : TcpMigPeer) : Ipv4Addr :=
  if mp_local_ipv4_addr p =? FRONTEND_IP then BACKEND_IP else FRONTEND_IP.
Definition other_mac (p : TcpMigPeer) : MacAddress :=
  if decide (mp_local_link_addr p = FRONTEND_MAC) then BACKEND_MAC else FRONTEND_MAC.

(** What the peer does with the outcome of [process_packet] for the migration [remote]. *)
Definition finish (p : TcpMigPeer) (remote : SocketAddrV4) (status : TcpmigReceiveStatus) :
  outcome (TcpmigReceiveStatus * TcpMigPeer) :=
  match status with
  | StPrepareMigrationAcked _ | StOk => Ret (status, p)
  | StStateReceived state =>
      let '(_, conn_remote) := endpoints (ts_cb state) in
      match ts_app_state state with
      | AppMigratedIn _ =>
          Ret (StStateReceived (mkTcpState (ts_cb state) AppNone),
               set_app (<[conn_remote := ts_app_state state]> (mp_application_state p)) p)
      | _ => Ret (status, p)
      end
  | StMigrationCompleted | StRejected _ _ | StSentReject =>
      Ret (status, set_active (delete remote (mp_active_migrations p)) p)
  | StHeartbeatResponse _ => Panic "heartbeat not handled earlier"
  | StReturnedBySwitch _ _ => Panic "ReturnedBySwitch returned by active migration"
  end.

(** [receive], after the header is parsed and the first packet of a migration has its entry. *)
Definition dispatch (p : TcpMigPeer) (hdr : TcpMigHeader.t) (buf : Buffer.t) :
  outcome (Result TcpmigReceiveStatus * TcpMigPeer * list TcpMigSegment) :=
  let remote := TcpMigHeader.client hdr in
  match mp_active_migrations p !! remote with
  | None => Panic "no such active migration"
  | Some active =>
      '(r, active, tx) ← Active.process_packet active hdr buf;
      let p := set_active (<[remote := active]> (mp_active_migrations p)) p in
      match r with
      | Err e => Ret (Err e, p, tx)
      | Ok status => '(status, p) ← finish p remote status; Ret (Ok status, p, tx)
      end
  end.

Definition receive (p : TcpMigPeer) (ipv4_hdr : Ipv4Header.t) (buf : Buffer.t) :
  outcome (Result TcpmigReceiveStatus * TcpMigPeer * list TcpMigSegment) :=
  r ← TcpMigHeader.parse ipv4_hdr buf;
  match r with
  | Err e => Ret (Err e, p, [])
  | Ok (hdr, buf) =>
      let remote := TcpMigHeader.client hdr in
      match TcpMigHeader.stage hdr with
      | MigrationStage.HeartbeatResponse =>
          global_queue_len_sum ← read_u32 buf 0;
          Ret (Ok (StHeartbeatResponse global_queue_len_sum), p, [])
      | MigrationStage.PrepareMigration =>
          let active := Active.new (mp_local_ipv4_addr p) (mp_local_link_addr p) (other_ip p) (other_mac p)
            (mp_self_udp_port p) (port (TcpMigHeader.origin hdr)) (TcpMigHeader.origin hdr)
            (TcpMigHeader.client hdr) None in
          match mp_active_migrations p !! remote with
          | Some _ =>
              Ret (Ok (StReturnedBySwitch (TcpMigHeader.origin hdr) (TcpMigHeader.client hdr)),
                   set_active (delete remote (<[remote := active]> (mp_active_migrations p))) p, [])
          | None => dispatch (set_active (<[remote := active]> (mp_active_migrations p)) p) hdr buf
          end
      | _ => dispatch p hdr buf
      end
  end.

Definition initiate_migration (p : TcpMigPeer) (conn : SocketAddrV4 * SocketAddrV4) (qd : Z) :
  outcome (TcpMigPeer * list TcpMigSegment) :=
  let '(local, remote) := conn in
  let active := Active.new (mp_local_ipv4_addr p) (mp_local_link_addr p) (other_ip p) (other_mac p)
    (mp_self_udp_port p) (if mp_self_udp_port p =? 10001 then 10000 else 10001) local remote (Some qd) in
  match mp_active_migrations p !! remote with
  | Some _ => Panic "duplicate initiate migration"
  | None =>
      '(active, tx) ← Active.initiate_migration active;
      Ret (set_active (<[remote := active]> (mp_active_migrations p)) p, tx)
  end.

Definition send_tcp_state (p : TcpMigPeer) (state : TcpState) : outcome (TcpMigPeer * list TcpMigSegment) :=
  let remote := cs_remote (ts_cb state) in
  let state := match mp_application_state p !! remote with
               | Some (AppRegistered app_state) => add_app_state app_state state
               | _ => state
               end in
  let p := set_app (delete remote (mp_application_state p)) p in
  match mp_active_migrations p !! remote with
  | None => Panic "called `Option::unwrap()` on a `None` value"
  | Some active =>
      '(active, tx) ← Active.send_connection_state active state;
      let p := set_active (<[remote := active]> (mp_active_migrations p)) p in
      Ret (set_incoming (delete remote (mp_incoming_user_data p)) p, tx)
  end.

(** [try_buffer_packet]: an error gives the packet back. *)
Definition try_buffer_packet (p : TcpMigPeer) (remote : SocketAddrV4) (tcp_hdr : TcpHeader.t) (data : Buffer.t) :
  TcpMigPeer * option (TcpHeader.t * Buffer.t) :=
  match mp_active_migrations p !! remote with
  | Some active =>
      (set_active (<[remote := Active.buffer_packet tcp_hdr data active]> (mp_active_migrations p)) p, None)
  | None => (p, Some (tcp_hdr, data))
  end.

Definition close_active_migration (p : TcpMigPeer) (remote : SocketAddrV4) :
  TcpMigPeer * option (list (TcpHeader.t * Buffer.t)) :=
  (set_active (delete remote (mp_active_migrations p)) p,
   (fun active => fst (Active.take_buffered_packets active)) <$> mp_active_migrations p !! remote).

Definition send_heartbeat (queue_len : Z) (p : TcpMigPeer) : outcome TcpMigPeer :=
  if U32_MAX <? queue_len then Panic "Queue len bigger than 4 billion" else
  let m := mp_heartbeat_message p in
  d ← write_at (mig_data m) 0 (be32 queue_len);
  Ret (mkPeer (mp_local_link_addr p) (mp_local_ipv4_addr p) (mp_active_migrations p) (mp_incoming_user_data p)
         (mp_self_udp_port p) (mkTcpMigSegment (mig_ethernet2_hdr m) (mig_ipv4_hdr m) (tcpmig_hdr m) d)
         (mp_application_state p)).

Definition register_application_state (remote : SocketAddrV4) (state : AppState) (p : TcpMigPeer) : TcpMigPeer :=
  set_app (<[remote := AppRegistered state]> (mp_application_state p)) p.

(** [get_migrated_application_state]; [deserialize] is the application's. *)
Definition get_migrated_application_state (deserialize : list Z -> AppState) (p : TcpMigPeer)
  (remote : SocketAddrV4) : TcpMigPeer * option AppState :=
  let found := mp_application_state p !! remote in
  let p := set_app (delete remote (mp_application_state p)) p in
  match found with
  | Some (AppMigratedIn buf) =>
      let state := deserialize buf in
      (set_app (<[remote := AppRegistered state]> (mp_application_state p)) p, Some state)
  | _ => (p, None)
  end.

End Peer.

(** ** Between two peers *)

(** The transport payload of a segment, as the target's [receive] gets it. *)
Definition udp_payload (s : TcpMigSegment) : outcome (list Z) :=
  hdr ← TcpMigHeader.serialize (tcpmig_hdr s) (replicate TCPMIG_HEADER_SIZE 0) (mig_ipv4_hdr s) (mig_data s);
  Ret (hdr ++ mig_data s).

Definition deliver (p : TcpMigPeer) (s : TcpMigSegment) :
  outcome (Result TcpmigReceiveStatus * TcpMigPeer * list TcpMigSegment) :=
  payload ← udp_payload s;
  Peer.receive p (mig_ipv4_hdr s) payload.

(** Several segments, in the order they arrive: the answers and everything sent. *)
Fixpoint deliver_all (p : TcpMigPeer) (l : list TcpMigSegment) :
  outcome (list (Result TcpmigReceiveStatus) * TcpMigPeer * list TcpMigSegment) :=
  match l with
  | [] => Ret ([], p, [])
  | s :: l =>
      '(r, p, tx) ← deliver p s;
      '(rs, p, txs) ← deliver_all p l;
      Ret (r :: rs, p, tx ++ txs)
  end.

(** A delivered segment is parsed as it was sent. *)
Lemma deliver_parsed p s :
  mig_wf (tcpmig_hdr s) ->
  exists payload, udp_payload s = Ret payload /\
    TcpMigHeader.parse (mig_ipv4_hdr s) payload = Ret (Ok (tcpmig_hdr s, mig_data s)) /\
    deliver p s = Peer.receive p (mig_ipv4_hdr s) payload.
Proof.
  intros Hwf. unfold deliver, udp_payload.
  destruct (mig_serialize_bytes (tcpmig_hdr s) (replicate TCPMIG_HEADER_SIZE 0) (mig_ipv4_hdr s) (mig_data s))
    as (ck & Hck & Hser & Hsum); [done|].
  rewrite Hser. cbn [mbind outcome_bind]. eexists. split; [reflexivity|]. split; [|done]. by apply mig_parse_bytes.
Qed.

Lemma deliver_dispatch p s :
  mig_wf (tcpmig_hdr s) -> TcpMigHeader.stage (tcpmig_hdr s) <> MigrationStage.HeartbeatResponse ->
  TcpMigHeader.stage (tcpmig_hdr s) <> MigrationStage.PrepareMigration ->
  deliver p s = Peer.dispatch p (tcpmig_hdr s) (mig_data s).
Proof.
  intros Hwf Hh Hp. destruct (deliver_parsed p s Hwf) as (payload & _ & Hparse & ->).
  unfold Peer.receive. rewrite Hparse. cbn [mbind outcome_bind]. by destruct (TcpMigHeader.stage (tcpmig_hdr s)).
Qed.

(** Fragments share the headers of their segment. *)
Lemma collect_shape fuel self frags :
  u16_ok (TcpMigFragmenter.current_fragment self) ->
  TcpMigFragmenter.collect fuel self = Ret frags ->
  Forall (fun f => mig_ipv4_hdr f = mig_ipv4_hdr (TcpMigFragmenter.segment self) /\
    exists next off, u16_ok off /\
      tcpmig_hdr f = TcpMigHeader.set_fragment (tcpmig_hdr (TcpMigFragmenter.segment self)) next off) frags.
Proof.
  revert self frags. induction fuel as [|fuel IH]; intros [s cf] frags Hcf Hcol; [done|].
  cbn [TcpMigFragmenter.collect] in Hcol. cbn [TcpMigFragmenter.segment TcpMigFragmenter.current_fragment] in *.
  unfold TcpMigFragmenter.next in Hcol. cbn [TcpMigFragmenter.segment TcpMigFragmenter.current_fragment] in Hcol.
  destruct (_ && _)%bool; [cbn in Hcol; by injection Hcol as <-|].
  destruct (if Nat.leb _ _ then _ else _) as [[[nx d] r]| |]; [|done|done].
  cbn [mbind outcome_bind] in Hcol.
  destruct (TcpMigFragmenter.collect fuel _) as [l| |] eqn:El; [|done|done].
  cbn [mbind outcome_bind] in Hcol. injection Hcol as <-. constructor.
  - split; [done|]. eexists _, _. split; [exact Hcf|reflexivity].
  - apply IH in El; [|apply wrap16_ok]. exact El.
Qed.

(** A message without payload is one segment. *)
Lemma send_empty self hdr :
  Active.send self hdr [] =
  Ret [mkTcpMigSegment (Ethernet2Header.new (am_remote_link_addr self) (am_local_link_addr self) EtIpv4)
         (Ipv4Header.new (am_local_ipv4_addr self) (am_remote_ipv4_addr self) UDP)
         (TcpMigHeader.set_fragment hdr false 0) []].
Proof. reflexivity. Qed.

(** The peer after a migrated state arrived. *)
Definition with_state (p : TcpMigPeer) (st : TcpState) : TcpMigPeer :=
  match ts_app_state st with
  | AppMigratedIn buf =>
      Peer.set_app (<[cs_remote (ts_cb st) := AppMigratedIn buf]> (mp_application_state p)) p
  | _ => p
  end.

Definition without_app (st : TcpState) : TcpState :=
  match ts_app_state st with AppMigratedIn _ => mkTcpState (ts_cb st) AppNone | _ => st end.

Definition fragment_of (remote : SocketAddrV4) (f : TcpMigSegment) : Prop :=
  mig_wf (tcpmig_hdr f) /\ TcpMigHeader.stage (tcpmig_hdr f) = MigrationStage.ConnectionState /\
  TcpMigHeader.client (tcpmig_hdr f) = remote.

(** A target that prepared for the connection answers nothing to the fragments before the last
    one; the last one hands over the state and is acknowledged. *)
Lemma deliver_fragments remote arrival : forall p active d' h buf st,
  arrival <> [] -> mp_active_migrations p !! remote = Some active ->
  am_last_sent_stage active = MigrationStage.PrepareMigrationAck ->
  Forall (fragment_of remote) arrival ->
  TcpMigDefragmenter.defragment_all (am_defragmenter active) ((fun f => (tcpmig_hdr f, mig_data f)) <$> arrival) =
    Ret (d', replicate (length arrival - 1) None ++ [Some (h, buf)]) ->
  TcpState_deserialize buf = Ret st ->
  let active' := Active.set_stage MigrationStage.ConnectionStateAck (Active.set_defragmenter d' active) in
  let st' := TcpState_set_local (mkAddr (am_local_ipv4_addr active) (am_self_udp_port active)) st in
  deliver_all p arrival =
    Ret (replicate (length arrival - 1) (Ok StOk) ++ [Ok (StStateReceived (without_app st'))],
         with_state (Peer.set_active (<[remote := active']> (mp_active_migrations p)) p) st',
         [mkTcpMigSegment (Ethernet2Header.new (am_remote_link_addr active) (am_local_link_addr active) EtIpv4)
            (Ipv4Header.new (am_local_ipv4_addr active) (am_remote_ipv4_addr active) UDP)
            (TcpMigHeader.set_fragment (Active.next_header h MigrationStage.ConnectionStateAck) false 0) []]).
Proof.
  induction arrival as [|f arrival IH]; intros p active d' h buf st Hne Hact Hstage Hall Hdef Hdes active' st'; [done|].
  apply Forall_cons in Hall as [(Hwf & Hst & Hcl) Hall]. cbn [deliver_all].
  rewrite deliver_dispatch by (done || by rewrite Hst). unfold Peer.dispatch. rewrite Hcl, Hact.
  unfold Active.process_packet. rewrite Hstage, Hst. cbn [fmap list_fmap TcpMigDefragmenter.defragment_all] in Hdef.
  destruct (TcpMigDefragmenter.defragment (am_defragmenter active) (tcpmig_hdr f) (mig_data f)) as [[d1 r]| |] eqn:Ed;
    [|done|done]. cbn [mbind outcome_bind] in Hdef |- *.
  destruct (TcpMigDefragmenter.defragment_all d1 _) as [[d2 rs]| |] eqn:Erest; [|done|done].
  cbn [mbind outcome_bind] in Hdef. injection Hdef as -> Hrs.
  destruct arrival as [|f2 arrival].
  - cbn in Erest, Hrs. injection Erest as -> <-. injection Hrs as ->.
    rewrite Hdes. cbn [mbind outcome_bind]. rewrite send_empty. cbn [mbind outcome_bind Peer.finish].
    subst st'. by destruct st as [cbs []].
  - cbn [length] in Hrs. replace (S (S (length arrival)) - 1)%nat with (S (length (f2 :: arrival) - 1))%nat in Hrs by (simpl; lia).
    cbn [replicate app] in Hrs. injection Hrs as -> ->. cbn [mbind outcome_bind Peer.finish].
    rewrite (IH _ (Active.set_defragmenter d1 active) d' h buf st);
      [|done| |done|done|cbn [length Nat.sub]; rewrite Nat.sub_0_r; exact Erest|done].
    2:{ cbn. apply lookup_insert_eq. }
    cbn [mbind outcome_bind]. replace (length (f :: f2 :: arrival) - 1)%nat with (S (length (f2 :: arrival) - 1))%nat by (simpl; lia).
    cbn [replicate app Peer.set_active mp_active_migrations]. rewrite insert_insert_eq. done.
Qed.

(** The state machine on the messages of a successful exchange. *)
Lemma process_prepare a h buf :
  am_last_sent_stage a = MigrationStage.None -> TcpMigHeader.stage h = MigrationStage.PrepareMigration ->
  Active.process_packet a h buf =
    Ret (Ok StOk, Active.set_stage MigrationStage.PrepareMigrationAck a,
         [mkTcpMigSegment (Ethernet2Header.new (am_remote_link_addr a) (am_local_link_addr a) EtIpv4)
            (Ipv4Header.new (am_local_ipv4_addr a) (am_remote_ipv4_addr a) UDP)
            (TcpMigHeader.set_fragment (TcpMigHeader.set_flag_load
               (Active.next_header h MigrationStage.PrepareMigrationAck) true) false 0) []]).
Proof. intros Ha Hh. unfold Active.process_packet. rewrite Ha, Hh. by rewrite send_empty. Qed.

Lemma process_prepare_ack a h buf qd :
  am_last_sent_stage a = MigrationStage.PrepareMigration ->
  TcpMigHeader.stage h = MigrationStage.PrepareMigrationAck -> am_qd a = Some qd ->
  Active.process_packet a h buf =
    Ret (Ok (StPrepareMigrationAcked qd), Active.set_dest_udp_port (TcpMigHeader.source_udp_port h) a, []).
Proof. intros Ha Hh Hq. unfold Active.process_packet. rewrite Ha, Hh. cbn. by rewrite Hq. Qed.

Lemma process_state_ack a h buf :
  am_last_sent_stage a = MigrationStage.ConnectionState ->
  TcpMigHeader.stage h = MigrationStage.ConnectionStateAck ->
  Active.process_packet a h buf = Ret (Ok StMigrationCompleted, a, []).
Proof. intros Ha Hh. unfold Active.process_packet. by rewrite Ha, Hh. Qed.

(** ** The exchange, leg by leg *)

Section exchange.
Context (O T : TcpMigPeer) (local remote : SocketAddrV4) (qd : Z).
Hypothesis ports_ok : u16_ok (mp_self_udp_port O) /\ u16_ok (mp_self_udp_port T).
Hypothesis addrs_ok : addr_ok local /\ addr_ok remote.
Hypothesis O_free : mp_active_migrations O !! remote = None.
Hypothesis T_free : mp_active_migrations T !! remote = None.

Definition other_port : Z := if mp_self_udp_port O =? 10001 then 10000 else 10001.

Definition origin_active (stage : MigrationStage.t) : ActiveMigration :=
  Active.set_stage stage
    (Active.new (mp_local_ipv4_addr O) (mp_local_link_addr O) (Peer.other_ip O) (Peer.other_mac O)
       (mp_self_udp_port O) other_port local remote (Some qd)).

Definition target_active (stage : MigrationStage.t) : ActiveMigration :=
  Active.set_stage stage
    (Active.new (mp_local_ipv4_addr T) (mp_local_link_addr T) (Peer.other_ip T) (Peer.other_mac T)
       (mp_self_udp_port T) (port local) local remote None).

Definition with_active (p : TcpMigPeer) (a : ActiveMigration) : TcpMigPeer :=
  Peer.set_active (<[remote := a]> (mp_active_migrations p)) p.

Definition segment_from (a : ActiveMigration) (h : TcpMigHeader.t) (d : Buffer.t) : TcpMigSegment :=
  mkTcpMigSegment (Ethernet2Header.new (am_remote_link_addr a) (am_local_link_addr a) EtIpv4)
    (Ipv4Header.new (am_local_ipv4_addr a) (am_remote_ipv4_addr a) UDP) h d.

Definition prepare_header : TcpMigHeader.t :=
  TcpMigHeader.new local remote 0 MigrationStage.PrepareMigration (mp_self_udp_port O) other_port.
Definition ack_header : TcpMigHeader.t :=
  TcpMigHeader.set_flag_load (Active.next_header prepare_header MigrationStage.PrepareMigrationAck) true.
Definition state_header : TcpMigHeader.t :=
  TcpMigHeader.new local remote 0 MigrationStage.ConnectionState (mp_self_udp_port O) other_port.
Definition state_ack_header : TcpMigHeader.t :=
  Active.next_header state_header MigrationStage.ConnectionStateAck.

Lemma other_port_ok : u16_ok other_port.
Proof. unfold other_port, u16_ok. destruct (_ =? _); lia. Qed.

Lemma header_wf h :
  TcpMigHeader.origin h = local -> TcpMigHeader.client h = remote -> u16_ok (TcpMigHeader.length h) ->
  u16_ok (TcpMigHeader.fragment_offset h) -> u16_ok (TcpMigHeader.source_udp_port h) ->
  u16_ok (TcpMigHeader.dest_udp_port h) -> mig_wf h.
Proof.
  destruct addrs_ok as [[] []]. intros E1 E2 L1 L2 L3 L4.
  by constructor; rewrite ?E1, ?E2.
Qed.

Ltac header_fits :=
  apply header_wf;
  first [reflexivity | exact (wrap16_ok _) | exact (proj1 ports_ok) | exact other_port_ok
        | cbn; unfold u16_ok; lia].

Lemma exchange_prepare :
  Peer.initiate_migration O (local, remote) qd =
    Ret (with_active O (origin_active MigrationStage.PrepareMigration),
         [segment_from (origin_active MigrationStage.PrepareMigration)
            (TcpMigHeader.set_fragment prepare_header false 0) []]).
Proof. unfold Peer.initiate_migration. by rewrite O_free. Qed.

Lemma exchange_ack :
  deliver T (segment_from (origin_active MigrationStage.PrepareMigration)
               (TcpMigHeader.set_fragment prepare_header false 0) []) =
    Ret (Ok StOk, with_active T (target_active MigrationStage.PrepareMigrationAck),
         [segment_from (target_active MigrationStage.PrepareMigrationAck)
            (TcpMigHeader.set_fragment ack_header false 0) []]).
Proof.
  match goal with |- deliver _ ?s = _ => destruct (deliver_parsed T s) as (payload & _ & Hp & ->) end.
  { header_fits. }
  unfold Peer.receive. rewrite Hp. cbn [mbind outcome_bind segment_from tcpmig_hdr TcpMigHeader.stage
    TcpMigHeader.set_fragment prepare_header TcpMigHeader.new TcpMigHeader.client]. rewrite T_free.
  unfold Peer.dispatch. cbn [Peer.set_active mp_active_migrations TcpMigHeader.client]. rewrite lookup_insert_eq.
  rewrite process_prepare by done. cbn [mbind outcome_bind Peer.finish]. unfold with_active, Peer.set_active.
  cbn [mp_active_migrations]. by rewrite insert_insert_eq.
Qed.

Lemma exchange_acked :
  deliver (with_active O (origin_active MigrationStage.PrepareMigration))
    (segment_from (target_active MigrationStage.PrepareMigrationAck) (TcpMigHeader.set_fragment ack_header false 0) []) =
    Ret (Ok (StPrepareMigrationAcked qd), with_active O (origin_active MigrationStage.PrepareMigration), []).
Proof.
  rewrite deliver_dispatch by (done || header_fits).
  unfold Peer.dispatch. cbn [segment_from tcpmig_hdr TcpMigHeader.client TcpMigHeader.set_fragment].
  change (TcpMigHeader.client ack_header) with remote. unfold with_active at 1. cbn [Peer.set_active mp_active_migrations].
  rewrite lookup_insert_eq, (process_prepare_ack _ _ _ qd) by done. cbn [mbind outcome_bind Peer.finish].
  unfold with_active, Peer.set_active. cbn [mp_active_migrations]. by rewrite insert_insert_eq.
Qed.

Lemma exchange_complete (p : TcpMigPeer) :
  mp_active_migrations p = <[remote := origin_active MigrationStage.ConnectionState]> (mp_active_migrations O) ->
  deliver p (segment_from (target_active MigrationStage.ConnectionStateAck)
               (TcpMigHeader.set_fragment state_ack_header false 0) []) =
    Ret (Ok StMigrationCompleted, Peer.set_active (mp_active_migrations O) p, []).
Proof.
  intros Hp. rewrite deliver_dispatch by (done || header_fits).
  unfold Peer.dispatch. cbn [segment_from tcpmig_hdr TcpMigHeader.client TcpMigHeader.set_fragment].
  change (TcpMigHeader.client state_ack_header) with remote. rewrite Hp, lookup_insert_eq, process_state_ack by done. cbn [mbind outcome_bind Peer.finish].
  unfold Peer.set_active. cbn [mp_active_migrations]. by rewrite insert_insert_eq, delete_insert_id.
Qed.

(** The application state the origin has registered for the connection. *)
Definition registered_app : MigratedApplicationState :=
  match mp_application_state O !! remote with Some (AppRegistered a) => AppRegistered a | _ => AppNone end.

Lemma exchange_send_state cbs content :
  cs_remote cbs = remote -> state_fits cbs -> app_writes registered_app content ->
  Z.of_nat (TcpState_serialized_size (mkTcpState cbs registered_app)) < 2^26 ->
  exists buf frags p,
    TcpState_deserialize buf = Ret (mkTcpState (state_decoded cbs) (app_decoded content)) /\
    Peer.send_tcp_state (with_active O (origin_active MigrationStage.PrepareMigration)) (TcpState_new cbs) =
      Ret (p, frags) /\
    mp_active_migrations p = <[remote := origin_active MigrationStage.ConnectionState]> (mp_active_migrations O) /\
    frags <> [] /\ Forall (fragment_of remote) frags /\
    forall arrival, arrival ≡ₚ frags ->
      exists d, TcpMigDefragmenter.defragment_all TcpMigDefragmenter.new
          ((fun f => (tcpmig_hdr f, mig_data f)) <$> arrival) =
        Ret (d, replicate (length arrival - 1) None ++ [Some (TcpMigHeader.set_fragment state_header false 0, buf)]).
Proof.
  intros Hrem Hfit Happ Hsz.
  destruct (tcp_state_roundtrip_bytes (mkTcpState cbs registered_app) content) as (buf & Hser & Hlen & Hdes); [done|done|lia|].
  set (s := segment_from (origin_active MigrationStage.ConnectionState) state_header buf).
  assert (Hdiv : Z.of_nat (length buf / MAX_FRAGMENT_SIZE) < U16_MAX).
  { rewrite Hlen, Nat2Z.inj_div. unfold U16_MAX. change (Z.of_nat MAX_FRAGMENT_SIZE) with 1452. apply Z.div_lt_upper_bound; lia. }
  destruct (reassembles s (length buf + 2)) as (frags & Hcol & _ & Harr); [done| |].
  { apply Nat.add_le_mono_r. change (mig_data s) with buf. etrans; [apply (Nat.div_le_compat_l (length buf) 1)|by rewrite Nat.div_1_r].
    unfold MAX_FRAGMENT_SIZE. lia. }
  eexists buf, frags, _. split; [exact Hdes|]. split.
  { unfold Peer.send_tcp_state. cbn [TcpState_new ts_cb]. rewrite Hrem. unfold with_active.
    cbn [Peer.set_active Peer.set_app mp_active_migrations mp_application_state]. rewrite lookup_insert_eq.
    assert (Hst : match mp_application_state O !! remote with
        | Some (AppRegistered a) => add_app_state a (TcpState_new cbs) | _ => TcpState_new cbs end = mkTcpState cbs registered_app).
    { unfold registered_app. by destruct (mp_application_state O !! remote) as [[]|]. }
    rewrite Hst. unfold Active.send_connection_state. cbn [origin_active Active.set_stage am_last_sent_stage].
    rewrite decide_True by done. rewrite Hser. cbn [mbind outcome_bind]. unfold Active.send.
    rewrite (proj2 (Z.ltb_ge U16_MAX _)) by lia.
    match goal with |- context [TcpMigFragmenter.collect ?n ?x] => change (TcpMigFragmenter.collect n x) with
      (TcpMigFragmenter.collect (length buf + 2) (TcpMigFragmenter.fragments s)) end.
    rewrite Hcol. cbn [mbind outcome_bind]. reflexivity. }
  cbn [Peer.set_incoming Peer.set_active mp_active_migrations]. split; [by rewrite insert_insert_eq|].
  assert (Hne : frags <> []).
  { intros ->. destruct (Harr [] (Permutation_refl _)) as (d & E & _). cbn in E. injection E as E. done. }
  split; [done|]. split.
  - eapply Forall_impl; [refine (collect_shape _ _ _ _ Hcol); cbn; unfold u16_ok; lia|].
    intros f [_ (nx & off & Hoff & Eh)]. unfold fragment_of. rewrite Eh. split; [|done].
    apply header_wf; try done; [apply ports_ok|exact other_port_ok].
  - intros arrival Hperm. destruct (Harr arrival Hperm) as (d & E & _). exists d.
    by rewrite (Permutation_length Hperm), E.
Qed.

End exchange.

(** ** Properties *)

(** C15: the migration protocol moves a connection.  Two peers that do not know the connection yet
    run the exchange: the origin asks, the target acknowledges, the origin sends the serialized
    connection with the application's registered state, its fragments reach the target in any
    order, and the target acknowledges.  No leg panics or fails; the target ends with exactly the
    origin's connection state (its local endpoint replaced by the target's, transmission times
    forgotten) and the bytes the application wrote, and the origin forgets the migration. *)
Theorem migration_protocol (O T : TcpMigPeer) (local remote : SocketAddrV4) (qd : Z)
  (cbs : ControlBlockState) (content : list Z) :
  u16_ok (mp_self_udp_port O) /\ u16_ok (mp_self_udp_port T) -> addr_ok local /\ addr_ok remote ->
  mp_active_migrations O !! remote = None -> mp_active_migrations T !! remote = None ->
  cs_remote cbs = remote -> state_fits cbs -> app_writes (registered_app O remote) content ->
  Z.of_nat (TcpState_serialized_size (mkTcpState cbs (registered_app O remote))) < 2^26 ->
  exists prepare ack frags O1 O2 O3 T1,
    Peer.initiate_migration O (local, remote) qd = Ret (O1, [prepare]) /\
    deliver T prepare = Ret (Ok StOk, T1, [ack]) /\
    deliver O1 ack = Ret (Ok (StPrepareMigrationAcked qd), O2, []) /\
    Peer.send_tcp_state O2 (TcpState_new cbs) = Ret (O3, frags) /\
    forall arrival, arrival ≡ₚ frags ->
    exists state_ack T2 O4,
      deliver_all T1 arrival =
        Ret (replicate (length arrival - 1) (Ok StOk) ++
             [Ok (StStateReceived (TcpState_new
                (set_local (mkAddr (mp_local_ipv4_addr T) (mp_self_udp_port T)) (state_decoded cbs))))],
             T2, [state_ack]) /\
      deliver O3 state_ack = Ret (Ok StMigrationCompleted, O4, []) /\
      mp_active_migrations O4 = mp_active_migrations O /\
      mp_application_state T2 !! remote =
        match content with [] => mp_application_state T !! remote | _ => Some (AppMigratedIn content) end.
Proof.
  intros Hports Haddrs HO HT Hrem Hfit Happ Hsz.
  destruct (exchange_send_state O T local remote qd Hports Haddrs cbs content Hrem Hfit Happ Hsz)
    as (buf & frags & O3 & Hdes & Hsend & Hact & Hne & Hall & Hdef).
  do 2 eexists. exists frags. do 4 eexists.
  split; [by apply exchange_prepare|]. split; [by apply exchange_ack|]. split; [by apply exchange_acked|].
  split; [exact Hsend|]. intros arrival Hperm. destruct (Hdef arrival Hperm) as (d & Hd).
  assert (Hane : arrival <> []) by (intros ->; by apply Permutation_nil_l in Hperm).
  rewrite <- Hperm in Hall.
  pose proof (deliver_fragments remote arrival
    (with_active remote T (target_active T local remote MigrationStage.PrepareMigrationAck)) _ d _ buf _
    Hane (lookup_insert_eq _ _ _) eq_refl Hall Hd Hdes) as Hdel. cbn zeta in Hdel.
  eexists _, _, _. split; [rewrite Hdel; repeat f_equal; by destruct content|].
  split; [by apply (exchange_complete O T local remote qd Hports Haddrs HO)|]. split; [done|].
  destruct content as [|x content]; [done|]. cbn. rewrite Hrem. apply lookup_insert_eq.
Qed.

(** The backend of the paper's testbed hands [state_example] to the front end. *)
Definition origin_example : TcpMigPeer :=
  Peer.register_application_state (cs_remote (ts_cb state_example)) (mkAppState 3 (fun _ => Ret [1; 2; 3]))
    (Peer.set_port 10001 (Peer.new BACKEND_MAC BACKEND_IP)).

Lemma migration_protocol_witness :
  exists O1 tx, Peer.initiate_migration origin_example
    (mkAddr BACKEND_IP 10000, cs_remote (ts_cb state_example)) 7 = Ret (O1, tx).
Proof.
  destruct (migration_protocol origin_example (Peer.new FRONTEND_MAC FRONTEND_IP) (mkAddr BACKEND_IP 10000)
    (cs_remote (ts_cb state_example)) 7 (ts_cb state_example) [1; 2; 3])
    as (prepare & ack & frags & O1 & O2 & O3 & T1 & H & _).
  - by vm_compute.
  - by vm_compute.
  - reflexivity.
  - reflexivity.
  - reflexivity.
  - constructor; cbn; repeat (split || constructor); cbn; unfold u32_ok, u16_ok, u8_ok, U32_MAX; try done; cbn; lia.
  - split; [reflexivity|]. intros slice _. reflexivity.
  - by vm_compute.
  - exists O1, [prepare]. exact H.
Defined.
