(* ===== verification/Stats.v ===== *)
(** * Load statistics
    (src/src/rust/inetstack/protocols/tcp/stats.rs)

    Every connection has a statistics handle, shared (an [Rc]) between the connection, the list of
    handles a [Stats] polls and the buckets in which it sorts them by load.  The shared cells live
    in a store; a handle is its address in it.  [Stats] decides from them which connections to
    migrate away. *)

From S2P Require Import Prelude Net.

Definition BUCKET_SIZE_LOG2 : Z := 3.
Definition ROLLING_AVG_WINDOW_LOG2 : Z := 7.
Definition ROLLING_AVG_WINDOW : nat := 128.
Definition MAX_EXTRACTED_CONNECTIONS : nat := 20.

Abbreviation Conn := (SocketAddrV4 * SocketAddrV4)%type.

Inductive Stat := Disabled | Enabled (v : Z) | MarkedForDisable (v : Z).

#[global] Instance Stat_eq_dec : EqDecision Stat.
Proof. solve_decision. Defined.

Record StatsHandleInner := mkHandle {
  sh_conn : Conn;
  sh_stat : Stat;
  sh_stat_to_update : option Z;
  sh_position : option (nat * nat);
  sh_handles_index : option nat;
  sh_stat_right_before_disable : option Z
}.

(** The cells of all handles. *)
Abbreviation store := (gmap nat StatsHandleInner).

Definition set_stat (v : Stat) (h : StatsHandleInner) : StatsHandleInner :=
  mkHandle (sh_conn h) v (sh_stat_to_update h) (sh_position h) (sh_handles_index h) (sh_stat_right_before_disable h).
Definition set_stat_to_update (v : option Z) (h : StatsHandleInner) : StatsHandleInner :=
  mkHandle (sh_conn h) (sh_stat h) v (sh_position h) (sh_handles_index h) (sh_stat_right_before_disable h).
Definition set_position (v : option (nat * nat)) (h : StatsHandleInner) : StatsHandleInner :=
  mkHandle (sh_conn h) (sh_stat h) (sh_stat_to_update h) v (sh_handles_index h) (sh_stat_right_before_disable h).
Definition set_handles_index (v : option nat) (h : StatsHandleInner) : StatsHandleInner :=
  mkHandle (sh_conn h) (sh_stat h) (sh_stat_to_update h) (sh_position h) v (sh_stat_right_before_disable h).
Definition set_before_disable (v : option Z) (h : StatsHandleInner) : StatsHandleInner :=
  mkHandle (sh_conn h) (sh_stat h) (sh_stat_to_update h) (sh_position h) (sh_handles_index h) v.

(** A handle always points to its cell. *)
Definition cell (σ : store) (h : nat) : outcome StatsHandleInner :=
  match σ !! h with Some c => Ret c | None => Panic "dangling handle" end.

(** [Vec::swap_remove] *)
Definition swap_remove {A} (i : nat) (l : list A) : outcome (A * list A) :=
  match l !! i, last l with
  | Some x, Some y => Ret (x, take (length l - 1) (<[i := y]> l))
  | _, _ => Panic "swap_remove index should be < len"
  end.

(** ** Rolling average *)

Module RollingAverage.

Record t := mk { values : list Z; sum : Z }.

Definition new : t := mk (replicate ROLLING_AVG_WINDOW 0) 0.

Definition update (value : Z) (self : t) : t :=
  mk (tail (values self) ++ [value]) (wrap64 (wrap64 (sum self - hd 0 (values self)) + value)).

Definition get (self : t) : Z := Z.shiftr (sum self) ROLLING_AVG_WINDOW_LOG2.

Definition force_set (value : Z) (self : t) : t :=
  mk (map (fun _ => value) (values self)) (wrap64 (Z.shiftl value ROLLING_AVG_WINDOW_LOG2)).

End RollingAverage.

(** ** Buckets *)

Module BucketList.

Abbreviation t := (list (list nat)).

Definition new : t := [].

Definition bucket_index (val : Z) : nat := Z.to_nat (Z.shiftr val BUCKET_SIZE_LOG2).

(** [get_bucket_mut]: the buckets are extended to hold the index. *)
Definition grow (index : nat) (self : t) : t := self ++ replicate (S index - length self) [].

Definition push_into_bucket (index : nat) (handle : nat) (self : t) (σ : store) : t * store :=
  let self := grow index self in
  let bucket := default [] (self !! index) in
  (<[index := bucket ++ [handle]]> self, alter (set_position (Some (index, length bucket))) handle σ).

Definition insert (handle : nat) (val : Z) (self : t) (σ : store) : t * store :=
  if 0 <? val then push_into_bucket (bucket_index val) handle self σ else (self, σ).

Definition remove (position : nat * nat) (self : t) (σ : store) : outcome (nat * t * store) :=
  let '(index, sub_index) := position in
  match self !! index with
  | None => Panic "index out of bounds"
  | Some bucket =>
      '(removed, bucket) ← swap_remove sub_index bucket;
      let σ := alter (set_position None) removed σ in
      let σ := match bucket !! sub_index with
               | Some moved => alter (set_position (Some (index, sub_index))) moved σ
               | None => σ
               end in
      Ret (removed, <[index := bucket]> self, σ)
  end.

Definition update (handle : nat) (val : Z) (self : t) (σ : store) : outcome (t * store) :=
  c ← cell σ handle;
  let new_index := bucket_index val in
  match sh_position c with
  | None => Ret (if 0 <? val then push_into_bucket new_index handle self σ else (self, σ))
  | Some (index, sub_index) =>
      if (val =? 0) || negb (Nat.eqb index new_index) then
        '(handle, self, σ) ← remove (index, sub_index) self σ;
        Ret (if 0 <? val then push_into_bucket new_index handle self σ else (self, σ))
      else Ret (self, σ)
  end.

End BucketList.

(** ** Statistics *)

Record Stats := mkStats {
  st_global_stat : Z;
  st_avg_global_stat : RollingAverage.t;
  st_buckets : list (list nat);
  st_handles : list nat;
  st_threshold : Z;
  st_max_proactive_migrations : option Z;
  st_max_reactive_migrations : option Z
}.

Definition set_global_stat (v : Z) (s : Stats) : Stats :=
  mkStats v (st_avg_global_stat s) (st_buckets s) (st_handles s) (st_threshold s)
    (st_max_proactive_migrations s) (st_max_reactive_migrations s).
Definition set_avg (v : RollingAverage.t) (s : Stats) : Stats :=
  mkStats (st_global_stat s) v (st_buckets s) (st_handles s) (st_threshold s)
    (st_max_proactive_migrations s) (st_max_reactive_migrations s).
Definition set_buckets (v : list (list nat)) (s : Stats) : Stats :=
  mkStats (st_global_stat s) (st_avg_global_stat s) v (st_handles s) (st_threshold s)
    (st_max_proactive_migrations s) (st_max_reactive_migrations s).
Definition set_handles (v : list nat) (s : Stats) : Stats :=
  mkStats (st_global_stat s) (st_avg_global_stat s) (st_buckets s) v (st_threshold s)
    (st_max_proactive_migrations s) (st_max_reactive_migrations s).
Definition set_threshold (v : Z) (s : Stats) : Stats :=
  mkStats (st_global_stat s) (st_avg_global_stat s) (st_buckets s) (st_handles s) v
    (st_max_proactive_migrations s) (st_max_reactive_migrations s).
Definition set_max_proactive (v : option Z) (s : Stats) : Stats :=
  mkStats (st_global_stat s) (st_avg_global_stat s) (st_buckets s) (st_handles s) (st_threshold s)
    v (st_max_reactive_migrations s).

(** [Stats::new], with the values of its three environment variables. *)
Definition Stats_new (threshold : Z) (max_proactive max_reactive : option Z) : Stats :=
  mkStats 0 RollingAverage.new BucketList.new [] threshold max_proactive max_reactive.

Definition global_stat (self : Stats) : Z := st_global_stat self.
Definition avg_global_stat (self : Stats) : Z := RollingAverage.get (st_avg_global_stat self).
Definition threshold (self : Stats) : Z := st_threshold self.

Definition update_threshold (global_stat_sum : Z) (self : Stats) : Stats :=
  let global_stat_avg := global_stat_sum / 2 in
  set_threshold (wrap64 (global_stat_avg + Z.shiftr global_stat_avg 3)) self.

(** ** Handles *)

Module StatsHandle.

(** [StatsHandle::new] at a fresh address. *)
Definition new (conn : Conn) (σ : store) : nat * store :=
  let h := fresh (dom σ) in
  (h, <[h := mkHandle conn Disabled None None None None]> σ).

Definition set (h : nat) (val : Z) (σ : store) : store :=
  alter (fun c => match sh_stat c with Enabled _ => set_stat_to_update (Some val) c | _ => c end) h σ.

Definition increment (h : nat) (σ : store) : store :=
  alter (fun c =>
    match sh_stat c with
    | Enabled val =>
        match sh_stat_to_update c with
        | Some val => set_stat_to_update (Some (wrap64 (val + 1))) c
        | None => set_stat_to_update (Some (wrap64 (val + 1))) c
        end
    | _ => c
    end) h σ.

Definition enable (h : nat) (stats : Stats) (use_old_value : bool) (initial_val : Z) (σ : store) :
  outcome (Stats * store) :=
  c ← cell σ h;
  let old_stat := sh_stat c in
  let '(initial_val, σ) :=
    if use_old_value then
      (default initial_val (sh_stat_right_before_disable c), alter (set_before_disable None) h σ)
    else (initial_val, σ) in
  match old_stat with
  | Enabled _ => Panic "Enabling already enabled stat"
  | _ =>
      let σ := alter (set_stat (Enabled initial_val)) h σ in
      let stats := set_global_stat (wrap64 (st_global_stat stats + initial_val)) stats in
      match old_stat with
      | Disabled =>
          let σ := alter (set_handles_index (Some (length (st_handles stats)))) h σ in
          let stats := set_handles (st_handles stats ++ [h]) stats in
          let '(buckets, σ) := BucketList.insert h initial_val (st_buckets stats) σ in
          Ret (set_buckets buckets stats, σ)
      | _ => Ret (stats, σ)
      end
  end.

Definition disable (h : nat) (σ : store) : store :=
  alter (fun c =>
    match sh_stat c with
    | Enabled val => set_before_disable (Some val) (set_handles_index None (set_stat (MarkedForDisable val) c))
    | _ => c
    end) h σ.

End StatsHandle.

(** ** Polling *)

(** The loop of [poll] from index [i]; every iteration drops a handle or advances the index. *)
Fixpoint poll_loop (fuel i : nat) (self : Stats) (σ : store) : outcome (Stats * store) :=
  match fuel with
  | O => Diverge
  | S fuel =>
      match st_handles self !! i with
      | None => Ret (self, σ)
      | Some h =>
          c ← cell σ h;
          match sh_stat c with
          | MarkedForDisable len =>
              '(handle, handles) ← swap_remove i (st_handles self);
              let σ := alter (set_handles_index None) handle σ in
              let σ := match handles !! i with
                       | Some moved => alter (set_handles_index (Some i)) moved σ
                       | None => σ
                       end in
              '(buckets, σ) ←
                match sh_position c with
                | Some position =>
                    '(_, buckets, σ) ← BucketList.remove position (st_buckets self) σ;
                    Ret (buckets, alter (set_position None) handle σ)
                | None => Ret (st_buckets self, σ)
                end;
              let σ := alter (set_stat Disabled) handle σ in
              if st_global_stat self <? len then Panic "called `Option::unwrap()` on a `None` value" else
              poll_loop fuel i
                (set_global_stat (st_global_stat self - len) (set_handles handles (set_buckets buckets self))) σ
          | Enabled stat =>
              match sh_stat_to_update c with
              | None => poll_loop fuel (S i) self σ
              | Some stat_to_update =>
                  let σ := alter (set_stat_to_update None) h σ in
                  if stat_to_update =? stat then poll_loop fuel (S i) self σ else
                  let self := set_global_stat (wrap64 (wrap64 (st_global_stat self + stat_to_update) - stat)) self in
                  let σ := alter (set_stat (Enabled stat_to_update)) h σ in
                  '(buckets, σ) ← BucketList.update h stat_to_update (st_buckets self) σ;
                  poll_loop fuel (S i) (set_buckets buckets self) σ
              end
          | Disabled => Panic "disabled stat found in handles vector"
          end
      end
  end.

Definition poll (self : Stats) (σ : store) : outcome (Stats * store) :=
  '(self, σ) ← poll_loop (S (length (st_handles self))) 0 self σ;
  Ret (set_avg (RollingAverage.update (st_global_stat self) (st_avg_global_stat self)) self, σ).

Definition reset_stats (self : Stats) (σ : store) : store :=
  foldl (fun σ h => alter (set_stat_to_update (Some 0)) h σ) σ (concat (st_buckets self)).

(** ** Selection *)

Definition expect_enabled (s : Stat) : outcome Z :=
  match s with Enabled val => Ret val | _ => Panic "Stat::expect_enabled() failed" end.

(** The loop over the candidate handles; returns the connections and the migrations left. *)
Fixpoint select (global threshold : Z) (σ : store) (candidates : list nat) (conns : list Conn) (removed_stat : Z)
  (max : option Z) : outcome (list Conn * option Z) :=
  match candidates with
  | [] => Ret (conns, max)
  | h :: candidates =>
      c ← cell σ h;
      v ← expect_enabled (sh_stat c);
      let removed_stat := wrap64 (removed_stat + v) in
      if Nat.leb MAX_EXTRACTED_CONNECTIONS (length conns) then Panic "ArrayVec: capacity exceeded" else
      let conns := conns ++ [sh_conn c] in
      let should_end := (wrap64 (global - removed_stat) <=? threshold) ||
                        Nat.eqb (length conns) MAX_EXTRACTED_CONNECTIONS in
      let max := (fun val => val - 1) <$> max in
      if match max with Some val => val <=? 0 | None => false end then Ret (conns, max) else
      if should_end then Ret (conns, max) else
      select global threshold σ candidates conns removed_stat max
  end.

(** The handles in the order the buckets are visited: those whose load alone would do first. *)
Definition candidates (base_index : nat) (buckets : list (list nat)) : list nat :=
  concat (map (@reverse nat) (drop base_index buckets)) ++
  concat (map (@reverse nat) (reverse (take base_index buckets))).

Definition connections_to_proactively_migrate (self : Stats) (σ : store) : outcome (option (list Conn) * Stats) :=
  if match st_max_proactive_migrations self with Some val => val <=? 0 | None => false end then Ret (None, self) else
  if st_global_stat self <=? st_threshold self then Ret (None, self) else
  let base_index := Nat.min (Z.to_nat (Z.shiftr (wrap64 (st_global_stat self - st_threshold self)) BUCKET_SIZE_LOG2))
                      (length (st_buckets self)) in
  '(conns, max) ← select (st_global_stat self) (st_threshold self) σ (candidates base_index (st_buckets self)) [] 0
                    (st_max_proactive_migrations self);
  Ret (Some conns, set_max_proactive max self).

(** Reactive migration is switched off: the function returns at once. *)
Definition connections_to_reactively_migrate (self : Stats) : option (list Conn) * Stats := (None, self).

(** ** [swap_remove] *)

Lemma swap_remove_ok {A} (i : nat) (l : list A) x :
  l !! i = Some x ->
  exists l', swap_remove i l = Ret (x, l') /\ l ≡ₚ x :: l' /\ length l = S (length l') /\
    forall j, l' !! j = if decide (j < length l')%nat then (if decide (j = i) then last l else l !! j) else None.
Proof.
  intros Hi. pose proof (lookup_lt_Some _ _ _ Hi) as Hlt. unfold swap_remove. rewrite Hi.
  destruct (last l) as [y|] eqn:Hy; [|by apply last_None in Hy; subst].
  assert (Hlen : length (take (length l - 1) (<[i:=y]> l)) = (length l - 1)%nat)
    by (rewrite length_take, length_insert; lia).
  eexists. split; [done|]. split; [|split; [rewrite Hlen; lia|]].
  - apply last_Some in Hy as [k ->]. rewrite length_app, Nat.add_sub in *. cbn in *.
    destruct (decide (i = length k)) as [->|Hne].
    + rewrite lookup_app_r, Nat.sub_diag in Hi by lia. injection Hi as ->.
      replace (length k) with (length k + 0)%nat at 2 by lia. rewrite insert_app_r. cbn. rewrite take_app_length.
      by rewrite <- Permutation_cons_append.
    + rewrite lookup_app_l in Hi by lia. rewrite insert_app_l, take_app_length' by (rewrite ?length_insert; lia).
      rewrite <- (take_drop_middle k i x Hi) at 1. rewrite (insert_take_drop k i y) by lia.
      rewrite <- app_assoc. cbn. rewrite <- Permutation_middle. apply Permutation_skip.
      rewrite <- Permutation_cons_append. by rewrite <- Permutation_middle.
  - intros j. rewrite Hlen. case_decide as Hj.
    + rewrite lookup_take_lt by done. case_decide as Hji.
      * subst. by rewrite list_lookup_insert_eq.
      * by rewrite list_lookup_insert_ne.
    + apply lookup_ge_None_2. lia.
Qed.

(** ** Positions *)

Definition pos (σ : store) (h : nat) : option (nat * nat) := σ !! h ≫= sh_position.

Definition look (bs : list (list nat)) (i j : nat) : option nat := bs !! i ≫= fun b => b !! j.

(** A handle's recorded position is where it is. *)
Definition placed (σ : store) (bs : list (list nat)) : Prop :=
  forall h i j, pos σ h = Some (i, j) <-> look bs i j = Some h.

(** Two stores that differ in recorded positions only. *)
Definition same_but_pos (σ σ' : store) : Prop :=
  forall h, set_position None <$> (σ' !! h) = set_position None <$> (σ !! h).

Lemma same_but_pos_refl σ : same_but_pos σ σ.
Proof. done. Qed.

Lemma same_but_pos_trans σ1 σ2 σ3 : same_but_pos σ1 σ2 -> same_but_pos σ2 σ3 -> same_but_pos σ1 σ3.
Proof. intros H1 H2 h. by rewrite H2. Qed.

Lemma same_but_pos_alter σ h p : same_but_pos σ (alter (set_position p) h σ).
Proof. intros x. rewrite lookup_alter. case_decide; [subst|done]. by destruct (σ !! x). Qed.

Lemma pos_alter σ h p x :
  pos (alter (set_position p) h σ) x = if decide (h = x) then σ !! x ≫= (fun _ => p) else pos σ x.
Proof. unfold pos. rewrite lookup_alter. case_decide; [subst|done]. by destruct (σ !! x). Qed.

Lemma pos_Some σ h p : pos σ h = Some p -> exists c, σ !! h = Some c /\ sh_position c = Some p.
Proof. unfold pos. destruct (σ !! h) as [c|]; [|done]. by exists c. Qed.

Lemma look_insert bs i b i' j' :
  (i < length bs)%nat -> look (<[i := b]> bs) i' j' = if decide (i' = i) then b !! j' else look bs i' j'.
Proof.
  intros Hi. unfold look. case_decide; [subst; by rewrite list_lookup_insert_eq|].
  by rewrite list_lookup_insert_ne.
Qed.

(** A change of one bucket that the recorded positions follow. *)
Lemma placed_insert σ bs σ' i b' :
  placed σ bs -> (i < length bs)%nat ->
  (forall x j, pos σ' x = Some (i, j) <-> b' !! j = Some x) ->
  (forall x i' j, i' <> i -> pos σ' x = Some (i', j) <-> pos σ x = Some (i', j)) ->
  placed σ' (<[i := b']> bs).
Proof.
  intros Hp Hi Hin Hout x i' j. rewrite look_insert by done. destruct (decide (i' = i)) as [->|Hne]; [apply Hin|].
  rewrite (Hout x i' j Hne). apply Hp.
Qed.

Lemma remove_ok σ bs i j h :
  placed σ bs -> look bs i j = Some h ->
  exists bs' σ', BucketList.remove (i, j) bs σ = Ret (h, bs', σ') /\ placed σ' bs' /\ same_but_pos σ σ' /\
    pos σ' h = None /\ forall x, x <> h -> fst <$> pos σ' x = fst <$> pos σ x.
Proof.
  intros Hp Hl. pose proof (proj2 (Hp h i j) Hl) as Hph. unfold look in Hl.
  destruct (bs !! i) as [b|] eqn:Eb; [|done]. cbn in Hl.
  pose proof (lookup_lt_Some _ _ _ Eb) as Hib. pose proof (lookup_lt_Some _ _ _ Hl) as Hjb.
  destruct (swap_remove_ok j b h Hl) as (b' & Esw & _ & Hlen & Hb').
  assert (Hb : forall x j', pos σ x = Some (i, j') <-> b !! j' = Some x).
  { intros x j'. rewrite (Hp x i j'). unfold look. by rewrite Eb. }
  unfold BucketList.remove. rewrite Eb, Esw. cbn [mbind outcome_bind].
  set (σ1 := alter (set_position None) h σ).
  assert (Hpos1 : forall x, pos σ1 x = if decide (x = h) then None else pos σ x).
  { intros x. subst σ1. rewrite pos_alter. destruct (decide (h = x)) as [<-|].
    - rewrite decide_True by done. by destruct (σ !! h).
    - by rewrite decide_False. }
  rewrite last_lookup in Hb'. replace (pred (length b)) with (length b') in Hb' by lia.
  destruct (decide (j < length b')%nat) as [Hj|Hj].
  - destruct (b !! length b') as [y|] eqn:Ey; [|apply lookup_ge_None_1 in Ey; lia].
    assert (Hb'j : b' !! j = Some y) by (by rewrite Hb', decide_True, decide_True).
    pose proof (proj2 (Hb y _) Ey) as Hpy. assert (Hyh : y <> h) by (intros ->; rewrite Hph in Hpy; simplify_eq; lia).
    rewrite Hb'j. do 2 eexists. split; [done|].
    assert (Hpos : forall x, pos (alter (set_position (Some (i, j))) y σ1) x =
      if decide (x = y) then Some (i, j) else pos σ1 x).
    { intros x. rewrite pos_alter. destruct (decide (y = x)) as [<-|]; [|by rewrite decide_False].
      rewrite decide_True by done. subst σ1. rewrite lookup_alter_ne by done.
      by apply pos_Some in Hpy as (cy & -> & _). }
    split; [|split; [eapply same_but_pos_trans; apply same_but_pos_alter|split]].
    + apply (placed_insert σ); [done|done| |].
      * intros x j'. rewrite Hpos, Hpos1, Hb'. pose proof (Hb x j') as Hx.
        repeat case_decide; subst; split; intros; simplify_eq; try done; try (by apply Hx); try lia.
        -- match goal with Hy : b !! _ = Some y |- _ => apply Hx in Hy; simplify_eq; lia end.
        -- match goal with Hy : b !! _ = Some h |- _ => apply Hx in Hy; simplify_eq end.
        -- match goal with Hy : pos σ x = Some _ |- _ => apply Hx in Hy; simplify_eq end.
        -- match goal with Hy : pos σ x = Some _ |- _ => apply Hx in Hy; pose proof (lookup_lt_Some _ _ _ Hy) end.
           assert (j' = length b') by lia. congruence.
      * intros x i' j' Hne. rewrite Hpos, Hpos1.
        repeat case_decide; subst; rewrite ?Hpy, ?Hph; split; intros; simplify_eq; done.
    + by rewrite Hpos, Hpos1, decide_False, decide_True.
    + intros x Hx. rewrite Hpos, Hpos1. repeat case_decide; subst; rewrite ?Hpy; done.
  - assert (Hjl : j = length b') by lia.
    assert (Hb'j : b' !! j = None) by (apply lookup_ge_None_2; lia). rewrite Hb'j. do 2 eexists. split; [done|].
    split; [|split; [apply same_but_pos_alter|split]].
    + apply (placed_insert σ); [done|done| |].
      * intros x j'. rewrite Hpos1, Hb'. pose proof (Hb x j') as Hx.
        repeat case_decide; subst; split; intros; simplify_eq; try done; try (by apply Hx); try lia.
        -- match goal with Hy : b !! _ = Some h |- _ => apply Hx in Hy; simplify_eq end.
        -- match goal with Hy : pos σ x = Some _ |- _ => apply Hx in Hy; pose proof (lookup_lt_Some _ _ _ Hy) end.
           assert (j' = length b') by lia. congruence.
      * intros x i' j' Hne. rewrite Hpos1. case_decide; subst; rewrite ?Hph; split; intros; simplify_eq; done.
    + by rewrite Hpos1, decide_True.
    + intros x Hx. by rewrite Hpos1, decide_False.
Qed.

Lemma look_grow i bs i' j : look (BucketList.grow i bs) i' j = look bs i' j.
Proof.
  unfold look, BucketList.grow. destruct (decide (i' < length bs)%nat) as [Hl|Hl].
  - by rewrite lookup_app_l.
  - rewrite (lookup_ge_None_2 bs i') by lia. rewrite lookup_app_r by lia.
    destruct (replicate _ _ !! _) as [b|] eqn:E; [|done]. by apply lookup_replicate in E as [-> _].
Qed.

Lemma push_ok σ bs i h :
  placed σ bs -> is_Some (σ !! h) -> pos σ h = None ->
  exists bs' σ', BucketList.push_into_bucket i h bs σ = (bs', σ') /\ placed σ' bs' /\ same_but_pos σ σ' /\
    fst <$> pos σ' h = Some i /\ forall x, x <> h -> pos σ' x = pos σ x.
Proof.
  intros Hp [c Hc] Hh. unfold BucketList.push_into_bucket. do 2 eexists. split; [done|].
  set (b := default [] (BucketList.grow i bs !! i)).
  assert (Hlen : (i < length (BucketList.grow i bs))%nat)
    by (unfold BucketList.grow; rewrite length_app, length_replicate; lia).
  assert (Hb : forall j, look bs i j = b !! j).
  { intros j. rewrite <- (look_grow i). unfold look, b.
    destruct (lookup_lt_is_Some_2 _ _ Hlen) as [b0 ->]. done. }
  assert (Hpos : forall x, pos (alter (set_position (Some (i, length b))) h σ) x =
    if decide (x = h) then Some (i, length b) else pos σ x).
  { intros x. rewrite pos_alter. destruct (decide (h = x)) as [<-|]; [|by rewrite decide_False].
    by rewrite decide_True, Hc. }
  split; [|split; [apply same_but_pos_alter|split]].
  - apply (placed_insert σ); [|done| |].
    + intros x i' j. rewrite look_grow. apply Hp.
    + intros x j. rewrite Hpos. pose proof (Hp x i j) as Hx. rewrite Hb in Hx. rewrite lookup_snoc_Some.
      case_decide; subst; split; intros; simplify_eq; try (by right).
      * match goal with Hy : _ \/ _ |- _ => destruct Hy as [[_ Hy]|[-> _]]; [apply Hx in Hy; congruence|done] end.
      * match goal with Hy : pos σ x = _ |- _ => apply Hx in Hy; left; split; [by apply lookup_lt_Some in Hy|done] end.
      * match goal with Hy : _ \/ _ |- _ => destruct Hy as [[_ Hy]|[_ Hy]]; [by apply Hx|congruence] end.
    + intros x i' j Hne. rewrite Hpos. case_decide; subst; [|done]. rewrite Hh. split; intros; simplify_eq.
  - by rewrite Hpos, decide_True.
  - intros x Hx. by rewrite Hpos, decide_False.
Qed.

(** The bucket of a handle with value [val]; a handle with value 0 is in none. *)
Definition home (val : Z) : option nat := if 0 <? val then Some (BucketList.bucket_index val) else None.

Lemma same_but_pos_Some σ σ' h : same_but_pos σ σ' -> is_Some (σ !! h) -> is_Some (σ' !! h).
Proof. intros Hs [c Hc]. specialize (Hs h). rewrite Hc in Hs. by destruct (σ' !! h). Qed.

Lemma update_ok σ bs h val :
  placed σ bs -> is_Some (σ !! h) -> 0 <= val ->
  exists bs' σ', BucketList.update h val bs σ = Ret (bs', σ') /\ placed σ' bs' /\ same_but_pos σ σ' /\
    fst <$> pos σ' h = home val /\ forall x, x <> h -> fst <$> pos σ' x = fst <$> pos σ x.
Proof.
  intros Hp Hh Hval. destruct (id Hh) as [c Hc]. unfold BucketList.update, cell. rewrite Hc. cbn [mbind outcome_bind].
  assert (Epos : pos σ h = sh_position c) by (unfold pos; by rewrite Hc).
  unfold home. destruct (sh_position c) as [[i j]|] eqn:Eposc.
  - destruct ((val =? 0) || negb (Nat.eqb i (BucketList.bucket_index val))) eqn:Emove.
    + destruct (remove_ok σ bs i j h Hp) as (bs1 & σ1 & -> & Hp1 & Hs1 & Hn & Ho); [by apply Hp|].
      cbn [mbind outcome_bind]. destruct (0 <? val) eqn:E0.
      * destruct (push_ok σ1 bs1 (BucketList.bucket_index val) h Hp1 (same_but_pos_Some _ _ _ Hs1 Hh) Hn)
          as (bs2 & σ2 & -> & Hp2 & Hs2 & Hpos & Ho2).
        do 2 eexists. split; [done|]. split; [done|]. split; [by eapply same_but_pos_trans|]. split; [done|].
        intros x Hx. rewrite Ho2 by done. by apply Ho.
      * do 2 eexists. split; [done|]. split; [done|]. split; [done|]. by rewrite Hn.
    + exists bs, σ. split; [done|]. split; [done|]. split; [apply same_but_pos_refl|].
      apply orb_false_iff in Emove as [Ez Ei]. apply negb_false_iff, Nat.eqb_eq in Ei. rewrite Epos. cbn.
      apply Z.eqb_neq in Ez. replace (0 <? val) with true by (symmetry; apply Z.ltb_lt; lia). by subst.
  - destruct (0 <? val) eqn:E0.
    + destruct (push_ok σ bs (BucketList.bucket_index val) h Hp Hh Epos) as (bs2 & σ2 & -> & Hp2 & Hs2 & Hpos & Ho2).
      do 2 eexists. split; [done|]. split; [done|]. split; [done|]. split; [done|].
      intros x Hx. by rewrite Ho2.
    + exists bs, σ. rewrite Epos. split; [done|]. split; [done|]. by split; [apply same_but_pos_refl|].
Qed.

(** ** Invariant *)

(** A cell without the fields that only say where the handle is stored. *)
Definition erase (c : StatsHandleInner) : StatsHandleInner := set_handles_index None (set_position None c).

Definition core (σ : store) (h : nat) : option StatsHandleInner := erase <$> σ !! h.

Lemma core_same σ σ' h : same_but_pos σ σ' -> core σ' h = core σ h.
Proof.
  intros Hs. specialize (Hs h). apply (f_equal (fmap (set_handles_index None))) in Hs. unfold core.
  by destruct (σ !! h), (σ' !! h).
Qed.

Lemma core_alter f g h σ x :
  (forall c, erase (f c) = g (erase c)) -> core (alter f h σ) x = if decide (x = h) then g <$> core σ x else core σ x.
Proof.
  intros Hf. unfold core. rewrite lookup_alter. destruct (decide (h = x)) as [->|].
  - rewrite decide_True by done. destruct (σ !! x) as [c|]; cbn; [by rewrite Hf|done].
  - by rewrite decide_False.
Qed.

Lemma core_alter_id f h σ x : (forall c, erase (f c) = erase c) -> core (alter f h σ) x = core σ x.
Proof. intros Hf. rewrite (core_alter f id) by done. case_decide; [|done]. by destruct (core σ x). Qed.

Lemma pos_alter_id f h σ x : (forall c, sh_position (f c) = sh_position c) -> pos (alter f h σ) x = pos σ x.
Proof.
  intros Hf. unfold pos. rewrite lookup_alter. case_decide; subst; [|done]. destruct (σ !! x); cbn; [by rewrite Hf|done].
Qed.

Lemma placed_ext σ σ' bs : (forall x, pos σ' x = pos σ x) -> placed σ bs -> placed σ' bs.
Proof. intros He Hp x i j. rewrite He. apply Hp. Qed.

(** The load a handle counts for, and the most it can count for after the next poll. *)
Definition counted (c : StatsHandleInner) : Z :=
  match sh_stat c with Disabled => 0 | Enabled v | MarkedForDisable v => v end.
Definition pending (c : StatsHandleInner) : Z := default 0 (sh_stat_to_update c).
Definition count (σ : store) (h : nat) : Z := from_option counted 0 (core σ h).
Definition weight (σ : store) (h : nat) : Z := from_option (fun c => Z.max (counted c) (pending c)) 0 (core σ h).

Definition active (σ : store) (h : nat) : Prop :=
  match core σ h with Some c => sh_stat c <> Disabled | None => False end.

Fixpoint total (f : nat -> Z) (hs : list nat) : Z :=
  match hs with [] => 0 | h :: hs => f h + total f hs end.

(** [extra] is load that the global load counts beyond the handles' own: enabling a handle that is
    only marked for removal counts its load again.  [stale] are the handles that were enabled so with
    another load than they had; they stay in the bucket of the old one until an update moves them. *)
Record stats_inv (extra : Z) (stale : gset nat) (s : Stats) (σ : store) : Prop := mkInv {
  si_nodup : NoDup (st_handles s);
  si_handles : forall h, h ∈ st_handles s <-> active σ h;
  si_placed : placed σ (st_buckets s);
  si_home : forall h, h ∉ stale -> fst <$> pos σ h = home (count σ h);
  si_out : forall h, ~ active σ h -> pos σ h = None;
  si_nonneg : forall h c, core σ h = Some c ->
    0 <= counted c /\ 0 <= pending c /\ 0 <= default 0 (sh_stat_right_before_disable c);
  si_global : st_global_stat s = total (count σ) (st_handles s) + extra;
  si_extra : 0 <= extra;
  si_fits : total (weight σ) (st_handles s) + extra < 2 ^ 64
}.
#[global] Arguments si_nodup {_ _} _ _ _.
#[global] Arguments si_handles {_ _} _ _ _.
#[global] Arguments si_placed {_ _} _ _ _.
#[global] Arguments si_home {_ _} _ _ _.
#[global] Arguments si_out {_ _} _ _ _.
#[global] Arguments si_nonneg {_ _} _ _ _.
#[global] Arguments si_global {_ _} _ _ _.
#[global] Arguments si_extra {_ _} _ _ _.
#[global] Arguments si_fits {_ _} _ _ _.

Lemma total_ext f g hs : (forall h, h ∈ hs -> f h = g h) -> total f hs = total g hs.
Proof.
  induction hs as [|h hs IH]; [done|]. intros He. cbn. rewrite (He h), IH; [done| |by left].
  intros x Hx. apply He. by right.
Qed.

Lemma total_perm f hs hs' : hs ≡ₚ hs' -> total f hs = total f hs'.
Proof. induction 1; cbn; lia. Qed.

Lemma total_mono f g hs : (forall h, h ∈ hs -> f h <= g h) -> total f hs <= total g hs.
Proof.
  induction hs as [|h hs IH]; [done|]. intros He. cbn. specialize (He h (list_elem_of_here _ _)) as H1.
  assert (total f hs <= total g hs) by (apply IH; intros x Hx; apply He; by right). lia.
Qed.

Lemma total_nonneg f hs : (forall h, h ∈ hs -> 0 <= f h) -> 0 <= total f hs.
Proof. intros Hf. transitivity (total (fun _ => 0) hs); [induction hs; cbn; [done|]|by apply total_mono].
  apply IHhs. intros x Hx. apply Hf. by right. Qed.

(** Changing one handle of a duplicate-free list. *)
Lemma total_change f g h hs :
  NoDup hs -> h ∈ hs -> (forall x, x <> h -> g x = f x) -> total g hs = total f hs - f h + g h.
Proof.
  intros Hnd Hin Hne. apply elem_of_Permutation in Hin as [hs' Hp]. rewrite !(total_perm _ _ _ Hp). cbn.
  rewrite Hp in Hnd. apply NoDup_cons in Hnd as [Hh _].
  rewrite (total_ext g f hs'); [lia|]. intros x Hx. apply Hne. by intros ->.
Qed.

Section invariant.
Context {e : Z} {D : gset nat}.

Lemma count_weight s σ h : stats_inv e D s σ -> 0 <= count σ h <= weight σ h.
Proof.
  intros I. unfold count, weight. destruct (core σ h) as [c|] eqn:E; cbn; [|lia].
  destruct (si_nonneg _ _ I h c E). lia.
Qed.

Lemma global_fits s σ : stats_inv e D s σ -> 0 <= st_global_stat s < 2 ^ 64.
Proof.
  intros I. rewrite (si_global _ _ I). pose proof (si_fits _ _ I). split.
  - pose proof (si_extra _ _ I). assert (0 <= total (count σ) (st_handles s)); [|lia].
    apply total_nonneg. intros h _. apply (count_weight s σ h I).
  - assert (total (count σ) (st_handles s) <= total (weight σ) (st_handles s)); [|lia].
    apply total_mono. intros h _. apply (count_weight s σ h I).
Qed.

Lemma wrap64_small z : 0 <= z < 2 ^ 64 -> wrap64 z = z.
Proof. apply Z.mod_small. Qed.

Lemma wrap64_sub_l a b : wrap64 (wrap64 a - b) = wrap64 (a - b).
Proof. apply Zminus_mod_idemp_l. Qed.

Lemma count_core σ h c : core σ h = Some c -> count σ h = counted c.
Proof. unfold count. by intros ->. Qed.

Lemma weight_core σ h c : core σ h = Some c -> weight σ h = Z.max (counted c) (pending c).
Proof. unfold weight. by intros ->. Qed.

Lemma count_ext σ σ' h : core σ' h = core σ h -> count σ' h = count σ h /\ weight σ' h = weight σ h /\ (active σ' h <-> active σ h).
Proof. unfold count, weight, active. by intros ->. Qed.

Definition cell_nonneg (c : StatsHandleInner) : Prop :=
  0 <= counted c /\ 0 <= pending c /\ 0 <= default 0 (sh_stat_right_before_disable c).

(** One handle of the list changes and stays in it. *)
Lemma inv_change s σ s' σ' h c' :
  stats_inv e D s σ -> h ∈ st_handles s -> st_handles s' = st_handles s ->
  (forall x, x <> h -> core σ' x = core σ x) -> core σ' h = Some c' -> sh_stat c' <> Disabled ->
  placed σ' (st_buckets s') -> (h ∉ D -> fst <$> pos σ' h = home (counted c')) ->
  (forall x, x <> h -> fst <$> pos σ' x = fst <$> pos σ x) -> cell_nonneg c' ->
  st_global_stat s' = st_global_stat s - count σ h + counted c' ->
  total (weight σ) (st_handles s) - weight σ h + Z.max (counted c') (pending c') + e < 2 ^ 64 ->
  stats_inv e D s' σ'.
Proof.
  intros I Hin Hhs Hne Hc Hact Hp Hhome Ho Hnn Hg Hf.
  assert (Hext : forall x, x <> h -> count σ' x = count σ x /\ weight σ' x = weight σ x /\ (active σ' x <-> active σ x))
    by (intros x Hx; by apply count_ext, Hne).
  constructor; rewrite ?Hhs.
  - apply (si_nodup _ _ I).
  - intros x. rewrite (si_handles _ _ I x). destruct (decide (x = h)) as [->|Hx]; [|by rewrite (proj2 (proj2 (Hext x Hx)))].
    rewrite <- (si_handles _ _ I h). split; [|done]. intros _. unfold active. by rewrite Hc.
  - done.
  - intros x HD. destruct (decide (x = h)) as [->|Hx]; [rewrite (count_core _ _ _ Hc); by apply Hhome|].
    rewrite (Ho x Hx), (proj1 (Hext x Hx)). by apply (si_home _ _ I).
  - intros x Hx. destruct (decide (x = h)) as [->|Hxh]; [exfalso; apply Hx; unfold active; by rewrite Hc|].
    rewrite (proj2 (proj2 (Hext x Hxh))) in Hx. apply (si_out _ _ I) in Hx. specialize (Ho x Hxh).
    rewrite Hx in Ho. by destruct (pos σ' x).
  - intros x c Hx. destruct (decide (x = h)) as [->|Hxh]; [by simplify_eq|].
    rewrite (Hne x Hxh) in Hx. apply (si_nonneg _ _ I x c Hx).
  - rewrite Hg, (si_global _ _ I), (total_change (count σ) (count σ') h), (count_core _ _ _ Hc);
      [lia|apply (si_nodup _ _ I)|done|]. intros x Hx. apply (Hext x Hx).
  - apply (si_extra _ _ I).
  - rewrite (total_change (weight σ) (weight σ') h), (weight_core _ _ _ Hc);
      [lia|apply (si_nodup _ _ I)|done|]. intros x Hx. apply (Hext x Hx).
Qed.

(** One handle leaves the list. *)
Lemma inv_drop s σ s' σ' h c' :
  stats_inv e D s σ -> st_handles s ≡ₚ h :: st_handles s' ->
  (forall x, x <> h -> core σ' x = core σ x) -> core σ' h = Some c' -> sh_stat c' = Disabled ->
  placed σ' (st_buckets s') -> pos σ' h = None ->
  (forall x, x <> h -> fst <$> pos σ' x = fst <$> pos σ x) -> cell_nonneg c' ->
  st_global_stat s' = st_global_stat s - count σ h ->
  stats_inv e D s' σ'.
Proof.
  intros I Hhs Hne Hc Hact Hp Hpos Ho Hnn Hg.
  assert (Hext : forall x, x <> h -> count σ' x = count σ x /\ weight σ' x = weight σ x /\ (active σ' x <-> active σ x))
    by (intros x Hx; by apply count_ext, Hne).
  pose proof (si_nodup _ _ I) as Hnd. rewrite Hhs in Hnd. apply NoDup_cons in Hnd as [Hh Hnd].
  assert (Hin : forall x, x ∈ st_handles s' -> x <> h) by (by intros x Hx ->).
  constructor.
  - done.
  - intros x. destruct (decide (x = h)) as [->|Hx].
    + split; [done|]. unfold active. by rewrite Hc.
    + rewrite (proj2 (proj2 (Hext x Hx))), <- (si_handles _ _ I x), Hhs, elem_of_cons. split; [by right|by intros [->|]].
  - done.
  - intros x HD. destruct (decide (x = h)) as [->|Hx].
    + rewrite Hpos, (count_core _ _ _ Hc). unfold counted. by rewrite Hact.
    + rewrite (Ho x Hx), (proj1 (Hext x Hx)). by apply (si_home _ _ I).
  - intros x Hx. destruct (decide (x = h)) as [->|Hxh]; [done|].
    rewrite (proj2 (proj2 (Hext x Hxh))) in Hx. apply (si_out _ _ I) in Hx. specialize (Ho x Hxh).
    rewrite Hx in Ho. by destruct (pos σ' x).
  - intros x c Hx. destruct (decide (x = h)) as [->|Hxh]; [by simplify_eq|].
    rewrite (Hne x Hxh) in Hx. apply (si_nonneg _ _ I x c Hx).
  - rewrite Hg, (si_global _ _ I), (total_perm _ _ _ Hhs). cbn. rewrite (total_ext (count σ') (count σ)); [lia|].
    intros x Hx. apply Hext. by apply Hin.
  - apply (si_extra _ _ I).
  - pose proof (si_fits _ _ I) as Hf. rewrite (total_perm _ _ _ Hhs) in Hf. cbn in Hf.
    rewrite (total_ext (weight σ') (weight σ)); [|intros x Hx; by apply Hext, Hin].
    pose proof (count_weight s σ h I). lia.
Qed.

(** What a poll does to a cell. *)
Definition poll_core (c : StatsHandleInner) : StatsHandleInner :=
  match sh_stat c with
  | MarkedForDisable _ => set_stat Disabled c
  | Enabled _ =>
      match sh_stat_to_update c with
      | Some val => set_stat_to_update None (set_stat (Enabled val) c)
      | None => c
      end
  | Disabled => c
  end.

Lemma swap_remove_drop {A} (i : nat) (l l' : list A) x :
  l !! i = Some x -> swap_remove i l = Ret (x, l') -> drop i l' ≡ₚ drop (S i) l.
Proof.
  intros Hi E. destruct (swap_remove_ok i l x Hi) as (l2 & E2 & Hp & Hlen & Hl'). rewrite E in E2. simplify_eq.
  assert (Ht : take i l2 = take i l).
  { apply list_eq. intros j. destruct (decide (j < i)%nat) as [Hj|Hj].
    - rewrite !lookup_take_lt by done. pose proof (lookup_lt_Some _ _ _ Hi).
      rewrite Hl', decide_True, decide_False by lia. done.
    - rewrite !lookup_ge_None_2; [done|..]; rewrite length_take; lia. }
  rewrite <- (take_drop i l), <- (take_drop i l2), Ht, Permutation_middle, (drop_S l x i Hi) in Hp.
  apply Permutation_app_inv_l, Permutation_cons_inv in Hp. done.
Qed.

(** What a step of [poll] does to the stored handles: only [h] changes, as a poll changes it. *)
Definition polled_at (h : nat) (σ σ' : store) : Prop :=
  forall x, core σ' x = if decide (x = h) then poll_core <$> core σ x else core σ x.

Definition same_settings (s s' : Stats) : Prop :=
  st_avg_global_stat s' = st_avg_global_stat s /\ st_threshold s' = st_threshold s /\
  st_max_proactive_migrations s' = st_max_proactive_migrations s /\
  st_max_reactive_migrations s' = st_max_reactive_migrations s.

Lemma poll_marked fuel i s σ h c len :
  stats_inv e D s σ -> st_handles s !! i = Some h -> σ !! h = Some c -> sh_stat c = MarkedForDisable len ->
  exists s' σ', poll_loop (S fuel) i s σ = poll_loop fuel i s' σ' /\ stats_inv e D s' σ' /\ polled_at h σ σ' /\
    same_settings s s' /\ drop i (st_handles s') ≡ₚ drop (S i) (st_handles s) /\
    length (st_handles s) = S (length (st_handles s')).
Proof.
  intros I Hi Hc Hst. cbn [poll_loop]. rewrite Hi. unfold cell. rewrite Hc. cbn [mbind outcome_bind]. rewrite Hst.
  destruct (swap_remove_ok i _ h Hi) as (hs' & Esw & Hperm & Hlen & _). rewrite Esw. cbn [mbind outcome_bind].
  set (σ0 := match hs' !! i with Some moved => _ | None => _ end).
  assert (Hc0 : forall x, core σ0 x = core σ x).
  { intros x. subst σ0. destruct (hs' !! i); rewrite ?core_alter_id by done; done. }
  assert (Hp0 : forall x, pos σ0 x = pos σ x).
  { intros x. subst σ0. destruct (hs' !! i); rewrite ?pos_alter_id by done; done. }
  assert (Hcount : count σ h = len).
  { unfold count, core. rewrite Hc. unfold counted. cbn. by rewrite Hst. }
  assert (Hg : (st_global_stat s <? len) = false).
  { apply Z.ltb_ge. rewrite (si_global _ _ I), (total_perm _ _ _ Hperm), <- Hcount. cbn.
    pose proof (total_nonneg (count σ) hs' (fun x _ => proj1 (count_weight s σ x I))). pose proof (si_extra _ _ I). lia. }
  assert (Hrm : exists bs1 σ1, (match sh_position c with
      | Some position => '(_, buckets, σ) ← BucketList.remove position (st_buckets s) σ0;
                         Ret (buckets, alter (set_position None) h σ)
      | None => Ret (st_buckets s, σ0) end) = Ret (bs1, σ1) /\ placed σ1 bs1 /\ same_but_pos σ0 σ1 /\
      pos σ1 h = None /\ forall x, x <> h -> fst <$> pos σ1 x = fst <$> pos σ0 x).
  { pose proof (placed_ext _ _ _ Hp0 (si_placed _ _ I)) as Hpl.
    assert (Eposc : pos σ0 h = sh_position c) by (rewrite Hp0; unfold pos; by rewrite Hc).
    destruct (sh_position c) as [[bi bj]|] eqn:Epos.
    - destruct (remove_ok σ0 _ bi bj h Hpl (proj1 (Hpl _ _ _) Eposc)) as (bs1 & σ1 & -> & Hpl1 & Hs1 & Hn & Ho).
      cbn [mbind outcome_bind].
      assert (Hid : forall x, pos (alter (set_position None) h σ1) x = pos σ1 x).
      { intros x. rewrite pos_alter. case_decide; [subst|done]. rewrite Hn. by destruct (σ1 !! x). }
      do 2 eexists. split; [done|]. split; [by eapply placed_ext|].
      split; [eapply same_but_pos_trans; [done|apply same_but_pos_alter]|]. rewrite Hid. split; [done|].
      intros x Hx. rewrite Hid. by apply Ho.
    - do 2 eexists. split; [done|]. split; [done|]. split; [apply same_but_pos_refl|]. by split. }
  destruct Hrm as (bs1 & σ1 & -> & Hpl1 & Hs1 & Hn1 & Ho1). cbn [mbind outcome_bind]. rewrite Hg.
  assert (Hcore : forall x, core (alter (set_stat Disabled) h σ1) x =
    if decide (x = h) then set_stat Disabled <$> core σ x else core σ x).
  { intros x. rewrite (core_alter _ (set_stat Disabled)) by done. by rewrite (core_same _ _ _ Hs1), Hc0. }
  assert (Hcoreh : core σ h = Some (erase c)) by (unfold core; by rewrite Hc).
  do 2 eexists. split; [done|]. split; [|split; [|split; [done|split; [by eapply swap_remove_drop|done]]]].
  - apply (inv_drop s σ _ _ h (set_stat Disabled (erase c))); try done.
    + intros x Hx. by rewrite Hcore, decide_False.
    + by rewrite Hcore, decide_True, Hcoreh.
    + eapply placed_ext; [|apply Hpl1]. intros x. by rewrite pos_alter_id.
    + by rewrite pos_alter_id.
    + intros x Hx. rewrite pos_alter_id, (Ho1 x Hx), Hp0 by done. done.
    + destruct (si_nonneg _ _ I h _ Hcoreh) as (? & ? & ?). done.
    + cbn. by rewrite Hcount.
  - intros x. rewrite Hcore. case_decide as Hx; [subst|done]. rewrite Hcoreh. cbn. unfold poll_core. cbn. by rewrite Hst.
Qed.

Lemma poll_enabled fuel i s σ h c stat :
  stats_inv e D s σ -> st_handles s !! i = Some h -> σ !! h = Some c -> sh_stat c = Enabled stat ->
  exists s' σ', poll_loop (S fuel) i s σ = poll_loop fuel (S i) s' σ' /\ stats_inv e D s' σ' /\ polled_at h σ σ' /\
    same_settings s s' /\ st_handles s' = st_handles s.
Proof.
  intros I Hi Hc Hst. cbn [poll_loop]. rewrite Hi. unfold cell. rewrite Hc. cbn [mbind outcome_bind]. rewrite Hst.
  pose proof (list_elem_of_lookup_2 _ _ _ Hi) as Hin.
  assert (Hcoreh : core σ h = Some (erase c)) by (unfold core; by rewrite Hc).
  assert (Hcount : count σ h = stat) by (rewrite (count_core _ _ _ Hcoreh); unfold counted; cbn; by rewrite Hst).
  assert (Hpc : forall v, sh_stat_to_update c = Some v ->
    poll_core (erase c) = set_stat_to_update None (set_stat (Enabled v) (erase c))).
  { intros v Hv. unfold poll_core. cbn. by rewrite Hst, Hv. }
  destruct (si_nonneg _ _ I h _ Hcoreh) as (Hn1 & Hn2 & Hn3).
  destruct (sh_stat_to_update c) as [v|] eqn:Eup.
  2:{ exists s, σ. split; [done|]. split; [done|]. split; [|done]. intros x. case_decide as Hx; [subst|done].
      rewrite Hcoreh. cbn. unfold poll_core. cbn. by rewrite Hst, Eup. }
  specialize (Hpc v eq_refl). unfold pending in Hn2. cbn in Hn2. rewrite Eup in Hn2. cbn in Hn2.
  pose proof (weight_core _ _ _ Hcoreh) as Hw. unfold counted, pending in Hw. cbn in Hw. rewrite Hst, Eup in Hw. cbn in Hw.
  pose proof (si_fits _ _ I) as Hf.
  destruct (v =? stat) eqn:Ev.
  - apply Z.eqb_eq in Ev. subst v. do 2 eexists. split; [done|].
    assert (Hcore : forall x, core (alter (set_stat_to_update None) h σ) x =
      if decide (x = h) then set_stat_to_update None <$> core σ x else core σ x) by (intros x; by apply core_alter).
    split; [|split; [|done]].
    + apply (inv_change s σ _ _ h (set_stat_to_update None (erase c))); try done.
      * intros x Hx. by rewrite Hcore, decide_False.
      * by rewrite Hcore, decide_True, Hcoreh.
      * cbn. by rewrite Hst.
      * eapply placed_ext; [|apply (si_placed _ _ I)]. intros x. by rewrite pos_alter_id.
      * intros HD. rewrite pos_alter_id by done. rewrite (si_home _ _ I), (count_core _ _ _ Hcoreh) by done. done.
      * intros x Hx. by rewrite pos_alter_id.
      * rewrite (count_core _ _ _ Hcoreh). unfold counted. cbn. lia.
      * unfold counted, pending. cbn. rewrite Hst. lia.
    + intros x. rewrite Hcore. case_decide as Hx; [subst|done]. rewrite Hcoreh. cbn. rewrite Hpc. f_equal.
      destruct c; cbn in *; by subst.
  - set (σ1 := alter (set_stat (Enabled v)) h (alter (set_stat_to_update None) h σ)).
    assert (Hcore1 : forall x, core σ1 x = if decide (x = h) then poll_core <$> core σ x else core σ x).
    { intros x. subst σ1. rewrite (core_alter _ (set_stat (Enabled v))), (core_alter _ (set_stat_to_update None)) by done.
      case_decide as Hx; [subst|done]. rewrite Hcoreh. cbn. by rewrite Hpc. }
    assert (Hpos1 : forall x, pos σ1 x = pos σ x) by (intros x; subst σ1; by rewrite !pos_alter_id).
    assert (Hs1 : is_Some (σ1 !! h)).
    { specialize (Hcore1 h). rewrite decide_True, Hcoreh in Hcore1 by done. unfold core in Hcore1. by destruct (σ1 !! h). }
    destruct (update_ok σ1 _ h v (placed_ext _ _ _ Hpos1 (si_placed _ _ I)) Hs1 Hn2)
      as (bs2 & σ2 & E & Hp2 & Hs2 & Hh2 & Ho2).
    cbn [set_global_stat st_buckets]. rewrite E. cbn [mbind outcome_bind].
    assert (Hcore2 : polled_at h σ σ2) by (intros x; by rewrite (core_same _ _ _ Hs2)).
    do 2 eexists. split; [done|]. split; [|done].
    apply (inv_change s σ _ _ h (poll_core (erase c))); try done.
    + intros x Hx. by rewrite Hcore2, decide_False.
    + by rewrite Hcore2, decide_True, Hcoreh.
    + by rewrite Hpc.
    + intros _. by rewrite Hh2, Hpc.
    + intros x Hx. rewrite (Ho2 x Hx). by rewrite Hpos1.
    + by rewrite Hpc.
    + rewrite Hpc. cbn. rewrite wrap64_sub_l, Hcount, wrap64_small; [lia|].
      pose proof (total_change (count σ) (fun x => if decide (x = h) then v else count σ x) h (st_handles s)
        (si_nodup _ _ I) Hin ltac:(intros x Hx; cbv beta; by rewrite decide_False)) as Ht. cbv beta in Ht. rewrite decide_True in Ht by done.
      pose proof (si_global _ _ I) as Hgl. rewrite Hcount in Ht. replace (st_global_stat s + v - stat) with
        (total (fun x => if decide (x = h) then v else count σ x) (st_handles s) + e) by lia.
      pose proof (si_extra _ _ I).
      assert (0 <= total (fun x => if decide (x = h) then v else count σ x) (st_handles s) <= total (weight σ) (st_handles s)); [|lia].
      split.
      * apply total_nonneg. intros x _. case_decide; [lia|]. apply (count_weight s σ x I).
      * apply total_mono. intros x _. case_decide; [subst; lia|]. apply (count_weight s σ x I).
    + rewrite Hpc. unfold counted, pending. cbn. lia.
Qed.

Lemma poll_loop_ok fuel : forall i s σ,
  stats_inv e D s σ -> (length (st_handles s) - i < fuel)%nat ->
  exists s' σ', poll_loop fuel i s σ = Ret (s', σ') /\ stats_inv e D s' σ' /\ same_settings s s' /\
    forall x, core σ' x = if decide (x ∈ drop i (st_handles s)) then poll_core <$> core σ x else core σ x.
Proof.
  induction fuel as [|fuel IH]; [lia|]. intros i s σ I Hf.
  destruct (st_handles s !! i) as [h|] eqn:Hi.
  2:{ exists s, σ. cbn [poll_loop]. rewrite Hi. split; [done|]. split; [done|]. split; [done|].
      intros x. rewrite drop_ge by (by apply lookup_ge_None_1). by rewrite decide_False by apply not_elem_of_nil. }
  pose proof (lookup_lt_Some _ _ _ Hi) as Hlt.
  pose proof (proj1 (si_handles _ _ I h) (list_elem_of_lookup_2 _ _ _ Hi)) as Hact.
  unfold active, core in Hact. destruct (σ !! h) as [c|] eqn:Hc; [|done]. cbn in Hact.
  assert (Hnd : h ∉ drop (S i) (st_handles s)).
  { pose proof (si_nodup _ _ I) as Hnd. rewrite <- (take_drop_middle _ _ _ Hi) in Hnd.
    apply NoDup_app in Hnd as (_ & _ & Hnd). by apply NoDup_cons in Hnd as [? _]. }
  assert (Hstep : exists i' s1 σ1, poll_loop (S fuel) i s σ = poll_loop fuel i' s1 σ1 /\ stats_inv e D s1 σ1 /\
    polled_at h σ σ1 /\ same_settings s s1 /\ drop i' (st_handles s1) ≡ₚ drop (S i) (st_handles s) /\
    (length (st_handles s1) - i' < length (st_handles s) - i)%nat).
  { destruct (sh_stat c) as [|v|v] eqn:Hst; [done|..].
    - destruct (poll_enabled fuel i s σ h c v I Hi Hc Hst) as (s1 & σ1 & E & I1 & Hp & Hs & Hhs).
      exists (S i), s1, σ1. rewrite Hhs. do 4 (split; [done|]). split; [done|lia].
    - destruct (poll_marked fuel i s σ h c v I Hi Hc Hst) as (s1 & σ1 & E & I1 & Hp & Hs & Hd & Hl).
      exists i, s1, σ1. do 5 (split; [done|]). lia. }
  destruct Hstep as (i' & s1 & σ1 & -> & I1 & Hp & Hs & Hd & Hl).
  destruct (IH i' s1 σ1 I1 ltac:(lia)) as (s' & σ' & -> & I' & Hs' & Hcore).
  exists s', σ'. split; [done|]. split; [done|]. split; [unfold same_settings in *; intuition congruence|].
  intros x. rewrite Hcore, (Hp x), (drop_S _ _ _ Hi).
  rewrite (decide_ext (x ∈ drop i' (st_handles s1)) (x ∈ drop (S i) (st_handles s))) by (by rewrite Hd).
  destruct (decide (x = h)) as [->|Hx].
  - rewrite decide_False by done. rewrite decide_True by left. done.
  - apply decide_ext. rewrite elem_of_cons. split; [by right|by intros [->|]].
Qed.

Lemma poll_core_id s σ x : stats_inv e D s σ -> x ∉ st_handles s -> poll_core <$> core σ x = core σ x.
Proof.
  intros I Hx. destruct (core σ x) as [c|] eqn:E; [|done]. rewrite (si_handles _ _ I) in Hx. unfold active in Hx.
  rewrite E in Hx. cbn. unfold poll_core. destruct (sh_stat c); [done|..]; exfalso; apply Hx; done.
Qed.

Lemma poll_ok s σ :
  stats_inv e D s σ ->
  exists s' σ', poll s σ = Ret (s', σ') /\ stats_inv e D s' σ' /\ (forall x, core σ' x = poll_core <$> core σ x) /\
    st_threshold s' = st_threshold s /\ st_max_proactive_migrations s' = st_max_proactive_migrations s /\
    st_avg_global_stat s' = RollingAverage.update (st_global_stat s') (st_avg_global_stat s).
Proof.
  intros I. unfold poll.
  destruct (poll_loop_ok (S (length (st_handles s))) 0 s σ I ltac:(lia)) as (s1 & σ1 & -> & I1 & (Ha & Ht & Hm & _) & Hcore).
  cbn [mbind outcome_bind]. do 2 eexists. split; [done|]. cbn. rewrite Ht, Hm, Ha. split; [|split; [|done]].
  - destruct I1. by constructor.
  - intros x. rewrite Hcore, drop_0. case_decide; [done|]. symmetry. by eapply poll_core_id.
Qed.

(** A polled cell is enabled with nothing pending, or disabled. *)
Lemma poll_core_settled c :
  match sh_stat (poll_core c) with
  | Enabled _ => sh_stat_to_update (poll_core c) = None
  | Disabled => True
  | MarkedForDisable _ => False
  end.
Proof. unfold poll_core. destruct (sh_stat c) eqn:E; [by rewrite E| |done]. destruct (sh_stat_to_update c) eqn:E'; cbn; by rewrite ?E, ?E'. Qed.

(** ** Handle operations *)

(** A handle outside the list joins it. *)
Lemma inv_add s σ s' σ' h c' :
  stats_inv e D s σ -> h ∉ st_handles s -> st_handles s' = st_handles s ++ [h] ->
  (forall x, x <> h -> core σ' x = core σ x) -> core σ' h = Some c' -> sh_stat c' <> Disabled ->
  placed σ' (st_buckets s') -> fst <$> pos σ' h = home (counted c') ->
  (forall x, x <> h -> fst <$> pos σ' x = fst <$> pos σ x) -> cell_nonneg c' ->
  st_global_stat s' = wrap64 (st_global_stat s + counted c') ->
  total (weight σ') (st_handles s') + e < 2 ^ 64 ->
  stats_inv e D s' σ'.
Proof.
  intros I Hin Hhs Hne Hc Hact Hp Hhome Ho Hnn Hg Hf.
  assert (Hext : forall x, x <> h -> count σ' x = count σ x /\ weight σ' x = weight σ x /\ (active σ' x <-> active σ x))
    by (intros x Hx; by apply count_ext, Hne).
  assert (Hperm : st_handles s' ≡ₚ h :: st_handles s) by (rewrite Hhs; symmetry; apply Permutation_cons_append).
  assert (Hnn' : forall x c, core σ' x = Some c -> cell_nonneg c).
  { intros x c Hx. destruct (decide (x = h)) as [->|Hxh]; [by simplify_eq|].
    rewrite (Hne x Hxh) in Hx. apply (si_nonneg _ _ I x c Hx). }
  assert (Htot : st_global_stat s + counted c' = total (count σ') (st_handles s') + e).
  { rewrite (total_perm _ _ _ Hperm). cbn. rewrite (count_core _ _ _ Hc), (si_global _ _ I).
    rewrite (total_ext (count σ') (count σ)); [lia|]. intros x Hx. apply Hext. by intros ->. }
  constructor; try done.
  - rewrite Hperm. apply NoDup_cons. split; [done|apply (si_nodup _ _ I)].
  - intros x. rewrite Hperm, elem_of_cons, (si_handles _ _ I x). destruct (decide (x = h)) as [->|Hx].
    + split; [|by left]. intros _. unfold active. by rewrite Hc.
    + rewrite (proj2 (proj2 (Hext x Hx))). split; [by intros [->|]|by right].
  - intros x HD. destruct (decide (x = h)) as [->|Hx]; [by rewrite (count_core _ _ _ Hc)|].
    rewrite (Ho x Hx), (proj1 (Hext x Hx)). by apply (si_home _ _ I).
  - intros x Hx. destruct (decide (x = h)) as [->|Hxh]; [exfalso; apply Hx; unfold active; by rewrite Hc|].
    rewrite (proj2 (proj2 (Hext x Hxh))) in Hx. apply (si_out _ _ I) in Hx. specialize (Ho x Hxh).
    rewrite Hx in Ho. by destruct (pos σ' x).
  - rewrite Hg, <- Htot. apply wrap64_small. pose proof (global_fits _ _ I). split; [destruct Hnn; lia|].
    rewrite Htot. assert (total (count σ') (st_handles s') <= total (weight σ') (st_handles s')); [|lia].
    apply total_mono. intros x _. unfold count, weight.
    destruct (core σ' x) as [c|] eqn:E; cbn; [|lia]. destruct (Hnn' x c E). lia.
  - apply (si_extra _ _ I).
Qed.

Lemma fresh_cell (σ : store) : σ !! fresh (dom σ) = None.
Proof. apply not_elem_of_dom, is_fresh. Qed.

Lemma new_ok s σ conn : stats_inv e D s σ -> stats_inv e D s (snd (StatsHandle.new conn σ)).
Proof.
  intros I. unfold StatsHandle.new. cbn [snd]. set (h := fresh (dom σ)). set (c := mkHandle conn Disabled None None None None).
  pose proof (fresh_cell σ) as Hfr. fold h in Hfr.
  assert (Hcore : forall x, x <> h -> core (<[h := c]> σ) x = core σ x) by (intros x Hx; unfold core; by rewrite lookup_insert_ne).
  assert (Hh : core (<[h := c]> σ) h = Some c) by (unfold core; by rewrite lookup_insert_eq).
  assert (Hnone : core σ h = None) by (unfold core; by rewrite Hfr).
  assert (Hpos : forall x, pos (<[h := c]> σ) x = pos σ x).
  { intros x. unfold pos. destruct (decide (x = h)) as [->|]; [by rewrite lookup_insert_eq, Hfr|by rewrite lookup_insert_ne]. }
  assert (Hext : forall x, count (<[h := c]> σ) x = count σ x /\ weight (<[h := c]> σ) x = weight σ x /\
    (active (<[h := c]> σ) x <-> active σ x)).
  { intros x. destruct (decide (x = h)) as [->|Hx]; [|by apply count_ext, Hcore].
    unfold count, weight, active. rewrite Hh, Hnone. cbn. done. }
  destruct I as [I1 I2 I3 I4 I4' I5 I6 I6' I7]. constructor; [done|..].
  - intros x. by rewrite (proj2 (proj2 (Hext x))).
  - by eapply placed_ext.
  - intros x HD. rewrite Hpos, (proj1 (Hext x)). by apply I4.
  - intros x. rewrite Hpos, (proj2 (proj2 (Hext x))). apply I4'.
  - intros x c0 Hx. destruct (decide (x = h)) as [->|Hxh]; [by simplify_eq|]. rewrite Hcore in Hx by done. by eapply I5.
  - rewrite I6. f_equal. apply total_ext. intros x _. symmetry. apply Hext.
  - done.
  - erewrite total_ext; [apply I7|]. intros x _. apply Hext.
Qed.

(** Operations that change one cell in place, its place in the buckets and the counted load apart. *)
Lemma inv_alter s σ h f :
  stats_inv e D s σ -> (forall c, sh_position (f c) = sh_position c) -> (forall c, erase (f c) = f (erase c)) ->
  (forall c, counted (f c) = counted c /\ (sh_stat (f c) = Disabled <-> sh_stat c = Disabled)) ->
  (forall c, cell_nonneg c -> cell_nonneg (f c)) -> (forall c, sh_stat c = Disabled -> f c = c) ->
  total (weight (alter f h σ)) (st_handles s) + e < 2 ^ 64 -> stats_inv e D s (alter f h σ).
Proof.
  intros I Hpos Hera Hcnt Hnn Hid Hf. destruct (core σ h) as [c|] eqn:Hc.
  2:{ assert (alter f h σ = σ) as -> by (apply alter_id; intros c Hx; unfold core in Hc; by rewrite Hx in Hc). done. }
  assert (Hcore : forall x, core (alter f h σ) x = if decide (x = h) then f <$> core σ x else core σ x)
    by (intros x; by apply core_alter).
  assert (Hch : core (alter f h σ) h = Some (f c)) by (by rewrite Hcore, decide_True, Hc).
  destruct (decide (sh_stat c = Disabled)) as [Hd|Hd].
  { assert (Hsame : forall x, core (alter f h σ) x = core σ x).
    { intros x. rewrite Hcore. case_decide as Hx; [subst|done]. rewrite Hc. cbn. by rewrite Hid. }
    assert (Hext : forall x, count (alter f h σ) x = count σ x /\ weight (alter f h σ) x = weight σ x /\
      (active (alter f h σ) x <-> active σ x)) by (intros x; apply count_ext, Hsame).
    destruct I as [I1 I2 I3 I4 I4' I5 I6 I6' I7]. constructor; try done.
    - intros x. by rewrite (proj2 (proj2 (Hext x))).
    - eapply placed_ext; [|done]. intros x. by apply pos_alter_id.
    - intros x HD. rewrite pos_alter_id, (proj1 (Hext x)) by done. by apply I4.
    - intros x. rewrite pos_alter_id, (proj2 (proj2 (Hext x))) by done. apply I4'.
    - intros x c0. rewrite Hsame. apply I5.
    - rewrite I6. f_equal. apply total_ext. intros x _. symmetry. apply Hext. }
  assert (Hin : h ∈ st_handles s) by (apply (si_handles _ _ I); unfold active; by rewrite Hc).
  apply (inv_change s σ _ _ h (f c)); try done.
  - intros x Hx. by rewrite Hcore, decide_False.
  - by rewrite (proj2 (Hcnt c)).
  - eapply placed_ext; [|apply (si_placed _ _ I)]. intros x. by apply pos_alter_id.
  - intros HD. rewrite pos_alter_id, (si_home _ _ I), (count_core _ _ _ Hc), (proj1 (Hcnt c)) by done. done.
  - intros x Hx. by rewrite pos_alter_id.
  - apply Hnn. apply (si_nonneg _ _ I h c Hc).
  - rewrite (count_core _ _ _ Hc), (proj1 (Hcnt c)). lia.
  - rewrite (total_change (weight σ) _ h _ (si_nodup _ _ I) Hin), (weight_core _ _ _ Hch) in Hf; [done|].
    intros x Hx. apply count_ext. by rewrite Hcore, decide_False.
Qed.

Lemma set_ok s σ h val :
  stats_inv e D s σ -> 0 <= val -> total (weight (StatsHandle.set h val σ)) (st_handles s) + e < 2 ^ 64 ->
  stats_inv e D s (StatsHandle.set h val σ).
Proof.
  intros I Hv Hf. unfold StatsHandle.set in *. apply inv_alter; try done; intros c.
  - by destruct (sh_stat c).
  - unfold erase. cbn. by destruct (sh_stat c).
  - unfold counted. destruct (sh_stat c) eqn:E; cbn; by rewrite ?E.
  - unfold cell_nonneg, counted, pending. destruct (sh_stat c) eqn:E; cbn; rewrite ?E; by intuition.
  - by intros ->.
Qed.

Lemma increment_ok s σ h :
  stats_inv e D s σ -> total (weight (StatsHandle.increment h σ)) (st_handles s) + e < 2 ^ 64 ->
  stats_inv e D s (StatsHandle.increment h σ).
Proof.
  intros I Hf. unfold StatsHandle.increment in *. apply inv_alter; try done; intros c.
  - destruct (sh_stat c); [done| |done]. by destruct (sh_stat_to_update c).
  - unfold erase. cbn. destruct (sh_stat c); [done| |done]. by destruct (sh_stat_to_update c).
  - unfold counted. destruct (sh_stat c) eqn:E; cbn; rewrite ?E; try done. destruct (sh_stat_to_update c); cbn; by rewrite E.
  - unfold cell_nonneg, counted, pending. destruct (sh_stat c) eqn:E; cbn; rewrite ?E; try done.
    intros (? & ? & ?). assert (forall z, 0 <= wrap64 z) by (intros z; apply Z.mod_pos_bound; lia).
    destruct (sh_stat_to_update c); cbn; rewrite ?E; by intuition.
  - by intros ->.
Qed.

Lemma disable_ok s σ h : stats_inv e D s σ -> stats_inv e D s (StatsHandle.disable h σ).
Proof.
  intros I. unfold StatsHandle.disable. apply inv_alter; try done; try intros c.
  - by destruct (sh_stat c).
  - unfold erase. cbn. by destruct (sh_stat c).
  - unfold counted. destruct (sh_stat c) eqn:E; cbn; by rewrite ?E.
  - unfold cell_nonneg, counted, pending. destruct (sh_stat c) eqn:E; cbn; rewrite ?E; by intuition.
  - by intros ->.
  - erewrite total_ext; [apply (si_fits _ _ I)|]. intros x _. unfold weight, core. rewrite lookup_alter.
    case_decide; [subst|done]. destruct (σ !! x) as [c|]; [|done]. cbn. unfold counted, pending. cbn.
    destruct (sh_stat c) eqn:E; cbn; by rewrite ?E.
Qed.

(** The value a handle is enabled with. *)
Definition enabled_with (c : StatsHandleInner) (use_old_value : bool) (initial_val : Z) : Z :=
  if use_old_value then default initial_val (sh_stat_right_before_disable c) else initial_val.

Lemma enable_ok s σ h c use_old val s' σ' :
  stats_inv e D s σ -> σ !! h = Some c -> sh_stat c = Disabled -> 0 <= val ->
  StatsHandle.enable h s use_old val σ = Ret (s', σ') -> total (weight σ') (st_handles s') + e < 2 ^ 64 ->
  stats_inv e D s' σ' /\ count σ' h = enabled_with c use_old val.
Proof.
  intros I Hc Hd Hv. unfold StatsHandle.enable, cell. rewrite Hc. cbn [mbind outcome_bind]. rewrite Hd.
  set (v := enabled_with c use_old val).
  assert (Hcoreh : core σ h = Some (erase c)) by (unfold core; by rewrite Hc).
  destruct (si_nonneg _ _ I h _ Hcoreh) as (Hn1 & Hn2 & Hn3). cbn in Hn2, Hn3.
  assert (Hv0 : 0 <= v) by (subst v; unfold enabled_with; destruct use_old; [|done]; by destruct (sh_stat_right_before_disable c)).
  set (f := if use_old then set_before_disable None else id).
  assert (E0 : (if use_old then (default val (sh_stat_right_before_disable c), alter (set_before_disable None) h σ)
    else (val, σ)) = (v, alter f h σ)).
  { subst v f. unfold enabled_with. destruct use_old; [done|]. f_equal. symmetry. by apply alter_id. }
  rewrite E0. cbn iota beta zeta. cbn [st_handles st_global_stat set_global_stat set_handles st_buckets].
  set (σ1 := alter (set_handles_index (Some (length (st_handles s)))) h (alter (set_stat (Enabled v)) h (alter f h σ))).
  assert (Hcore1 : forall x, core σ1 x = if decide (x = h) then Some (set_stat (Enabled v) (f (erase c))) else core σ x).
  { intros x. subst σ1. rewrite core_alter_id, (core_alter _ (set_stat (Enabled v))), (core_alter f f) by (by destruct use_old).
    case_decide; [subst|done]. by rewrite Hcoreh. }
  assert (Hpos1 : forall x, pos σ1 x = pos σ x).
  { intros x. subst σ1. rewrite !pos_alter_id; [done|by destruct use_old|done..]. }
  assert (Hposh : pos σ h = None).
  { apply (si_out _ _ I). unfold active. rewrite Hcoreh. cbn. by intros []. }
  assert (Hs1 : is_Some (σ1 !! h)).
  { specialize (Hcore1 h). rewrite decide_True in Hcore1 by done. unfold core in Hcore1. by destruct (σ1 !! h). }
  assert (Hins : exists bs2 σ2, BucketList.insert h v (st_buckets s) σ1 = (bs2, σ2) /\ placed σ2 bs2 /\
    same_but_pos σ1 σ2 /\ fst <$> pos σ2 h = home v /\ forall x, x <> h -> pos σ2 x = pos σ1 x).
  { pose proof (placed_ext _ _ _ Hpos1 (si_placed _ _ I)) as Hpl. unfold BucketList.insert, home. destruct (0 <? v).
    - apply push_ok; [done|done|by rewrite Hpos1].
    - do 2 eexists. split; [done|]. split; [done|]. split; [apply same_but_pos_refl|]. by rewrite Hpos1, Hposh. }
  destruct Hins as (bs2 & σ2 & -> & Hp2 & Hs2 & Hh2 & Ho2). cbn iota beta. intros E Hf.
  assert (Es : s' = set_buckets bs2 (set_handles (st_handles s ++ [h]) (set_global_stat (wrap64 (st_global_stat s + v)) s)) /\ σ' = σ2)
    by (injection E; intros; by split). clear E. destruct Es as [-> ->].
  assert (Hcore2 : core σ2 h = Some (set_stat (Enabled v) (f (erase c)))) by (by rewrite (core_same _ _ _ Hs2), Hcore1, decide_True).
  split; [|by rewrite (count_core _ _ _ Hcore2)].
  apply (inv_add s σ _ _ h (set_stat (Enabled v) (f (erase c)))); try done.
  - rewrite (si_handles _ _ I). unfold active. rewrite Hcoreh. cbn. rewrite Hd. by intros [].
  - intros x Hx. by rewrite (core_same _ _ _ Hs2), Hcore1, decide_False.
  - intros x Hx. by rewrite (Ho2 x Hx), Hpos1.
  - subst f. unfold cell_nonneg, counted, pending. cbn. by destruct use_old.
Qed.

Lemma reset_core hs : forall σ x,
  core (foldl (fun σ h => alter (set_stat_to_update (Some 0)) h σ) σ hs) x =
    (if decide (x ∈ hs) then set_stat_to_update (Some 0) <$> core σ x else core σ x) /\
  pos (foldl (fun σ h => alter (set_stat_to_update (Some 0)) h σ) σ hs) x = pos σ x.
Proof.
  induction hs as [|h hs IH]; intros σ x; cbn [foldl].
  - by rewrite decide_False by apply not_elem_of_nil.
  - destruct (IH (alter (set_stat_to_update (Some 0)) h σ) x) as [-> ->]. rewrite pos_alter_id by done. split; [|done].
    rewrite (core_alter _ (set_stat_to_update (Some 0))) by done.
    destruct (decide (x = h)) as [->|Hx].
    + rewrite (decide_True (P := h ∈ h :: hs)) by left. case_decide; [|done]. by destruct (core σ h).
    + apply decide_ext. rewrite elem_of_cons. split; [by right|by intros [->|]].
Qed.

Lemma reset_ok s σ : stats_inv e D s σ -> stats_inv e D s (reset_stats s σ).
Proof.
  intros I. unfold reset_stats. set (σ' := foldl _ _ _).
  assert (Hcore : forall x, core σ' x = (if decide (x ∈ concat (st_buckets s)) then set_stat_to_update (Some 0) <$> core σ x
    else core σ x)) by (intros x; apply reset_core).
  assert (Hpos : forall x, pos σ' x = pos σ x) by (intros x; apply reset_core).
  assert (Hext : forall x, count σ' x = count σ x /\ weight σ' x <= weight σ x /\ (active σ' x <-> active σ x)).
  { intros x. pose proof (count_weight s σ x I) as Hcw. unfold count, weight, active in *. rewrite Hcore. case_decide; [|done].
    destruct (core σ x) as [c|]; [|done]. cbn in *. unfold counted, pending in *. cbn. intuition lia. }
  pose proof I as [I1 I2 I3 I4 I4' I5 I6 I6' I7]. constructor; try done.
  - intros x. by rewrite (proj2 (proj2 (Hext x))).
  - by eapply placed_ext.
  - intros x HD. rewrite Hpos, (proj1 (Hext x)). by apply I4.
  - intros x. rewrite Hpos, (proj2 (proj2 (Hext x))). apply I4'.
  - intros x c. rewrite Hcore. case_decide; [|apply I5]. destruct (core σ x) as [c0|] eqn:E; [|done].
    intros [= <-]. destruct (I5 x c0 E) as (? & ? & ?). done.
  - rewrite I6. f_equal. apply total_ext. intros x _. symmetry. apply Hext.
  - assert (total (weight σ') (st_handles s) <= total (weight σ) (st_handles s)); [|lia].
    apply total_mono. intros x _. apply Hext.
Qed.

End invariant.

(** Enabling a handle that is marked for removal: it is still in the list and in the buckets, and
    its old load stays in the global load. *)
Lemma enable_marked_ok e D s σ h c old use_old val :
  stats_inv e D s σ -> σ !! h = Some c -> sh_stat c = MarkedForDisable old -> 0 <= val ->
  exists s' σ', StatsHandle.enable h s use_old val σ = Ret (s', σ') /\
    st_handles s' = st_handles s /\ st_threshold s' = st_threshold s /\
    (total (weight σ') (st_handles s') + (e + old) < 2 ^ 64 ->
     stats_inv (e + old) (if enabled_with c use_old val =? old then D else {[h]} ∪ D) s' σ' /\
     count σ' h = enabled_with c use_old val).
Proof.
  intros I Hc Hm Hv. unfold StatsHandle.enable, cell. rewrite Hc. cbn [mbind outcome_bind]. rewrite Hm.
  set (v := enabled_with c use_old val).
  assert (Hcoreh : core σ h = Some (erase c)) by (unfold core; by rewrite Hc).
  destruct (si_nonneg _ _ I h _ Hcoreh) as (Hn1 & Hn2 & Hn3). unfold counted in Hn1. cbn in Hn1, Hn2, Hn3. rewrite Hm in Hn1.
  assert (Hv0 : 0 <= v) by (subst v; unfold enabled_with; destruct use_old; [|done]; by destruct (sh_stat_right_before_disable c)).
  set (f := if use_old then set_before_disable None else id).
  assert (E0 : (if use_old then (default val (sh_stat_right_before_disable c), alter (set_before_disable None) h σ)
    else (val, σ)) = (v, alter f h σ)).
  { subst v f. unfold enabled_with. destruct use_old; [done|]. f_equal. symmetry. by apply alter_id. }
  rewrite E0. cbn iota beta zeta. do 2 eexists. split; [done|]. split; [done|]. split; [done|].
  cbn [st_handles set_global_stat]. set (σ1 := alter (set_stat (Enabled v)) h (alter f h σ)). intros Hf.
  set (c' := set_stat (Enabled v) (f (erase c))).
  assert (Hcore1 : forall x, core σ1 x = if decide (x = h) then Some c' else core σ x).
  { intros x. subst σ1. rewrite (core_alter _ (set_stat (Enabled v))), (core_alter f f) by (by destruct use_old).
    case_decide; [subst|done]. by rewrite Hcoreh. }
  assert (Hch : core σ1 h = Some c') by (by rewrite Hcore1, decide_True).
  assert (Hpos1 : forall x, pos σ1 x = pos σ x).
  { intros x. subst σ1. rewrite !pos_alter_id; [done|by destruct use_old|done..]. }
  assert (Hext : forall x, x <> h -> count σ1 x = count σ x /\ weight σ1 x = weight σ x /\ (active σ1 x <-> active σ x))
    by (intros x Hx; apply count_ext; by rewrite Hcore1, decide_False).
  assert (Hah : active σ h) by (unfold active; rewrite Hcoreh; cbn; by rewrite Hm).
  assert (Hah' : active σ1 h) by (unfold active; by rewrite Hch).
  assert (Hcold : count σ h = old) by (rewrite (count_core _ _ _ Hcoreh); unfold counted; cbn; by rewrite Hm).
  assert (Hnn : cell_nonneg c') by (subst c' f; unfold cell_nonneg, counted, pending; cbn; by destruct use_old).
  pose proof (total_change (count σ) (count σ1) h _ (si_nodup _ _ I) (proj2 (si_handles _ _ I h) Hah)
    (fun x Hx => proj1 (Hext x Hx))) as Ht. rewrite (count_core _ _ _ Hch), Hcold in Ht. change (counted c') with v in Ht.
  assert (Hcw : total (count σ1) (st_handles s) <= total (weight σ1) (st_handles s)).
  { apply total_mono. intros x _. unfold count, weight. destruct (core σ1 x) as [c0|] eqn:E; cbn; [|lia]. lia. }
  split; [|by rewrite (count_core _ _ _ Hch)]. pose proof I as [I1 I2 I3 I4 I4' I5 I6 I6' I7].
  constructor; cbn [st_handles st_buckets st_global_stat set_global_stat]; try done; try lia.
  - intros x. rewrite I2. destruct (decide (x = h)) as [->|Hx]; [done|]. symmetry. by apply Hext.
  - by eapply placed_ext.
  - intros x HD. rewrite Hpos1. destruct (decide (x = h)) as [->|Hx].
    + rewrite (count_core _ _ _ Hch). change (counted c') with v. destruct (v =? old) eqn:Eo; [|set_solver].
      apply Z.eqb_eq in Eo. rewrite Eo, <- Hcold. by apply I4.
    + rewrite (proj1 (Hext x Hx)). apply I4. destruct (v =? old); set_solver.
  - intros x Hx. rewrite Hpos1. apply I4'. destruct (decide (x = h)) as [->|Hxh]; [done|]. by rewrite <- (proj2 (proj2 (Hext x Hxh))).
  - intros x c0 Hx. rewrite Hcore1 in Hx. case_decide; [by simplify_eq|by eapply I5].
  - pose proof (global_fits _ _ I). rewrite wrap64_small; lia.
Qed.
