(* ===== verification/LoadBalance.v ===== *)
(** * Load balancing
    (src/src/rust/inetstack/protocols/tcp/stats.rs)

    The statistics component as a state machine: its operations in any order keep the invariant of
    [Stats] (the load counted twice when a handle marked for removal is enabled again included) and do
    not panic but for two misuses, and the connections it selects for migration are the ones that
    bring the recorded load below the threshold. *)

From S2P Require Import Prelude Net Stats.

(** ** The handles in the buckets *)

Definition injective_look (bs : list (list nat)) : Prop :=
  forall x i j i' j', look bs i j = Some x -> look bs i' j' = Some x -> (i, j) = (i', j').

Lemma placed_injective σ bs : placed σ bs -> injective_look bs.
Proof. intros Hp x i j i' j' H1 H2. apply Hp in H1, H2. congruence. Qed.

Lemma elem_of_buckets bs x : x ∈ concat bs <-> exists i j, look bs i j = Some x.
Proof.
  rewrite list_elem_of_In, in_concat. split.
  - intros (b & Hb & Hx). apply list_elem_of_In in Hb, Hx.
    apply list_elem_of_lookup in Hb as [i Hi], Hx as [j Hj]. exists i, j. unfold look. by rewrite Hi.
  - intros (i & j & Hl). unfold look in Hl. destruct (bs !! i) as [b|] eqn:Eb; [|done]. exists b.
    rewrite <- !list_elem_of_In. split; by eapply list_elem_of_lookup_2.
Qed.

Lemma injective_tail b bs : injective_look (b :: bs) -> injective_look bs.
Proof. intros Hi x i j i' j' H1 H2. specialize (Hi x (S i) j (S i') j' H1 H2). by simplify_eq. Qed.

Lemma buckets_nodup bs : injective_look bs -> NoDup (concat bs).
Proof.
  induction bs as [|b bs IH]; intros Hi; cbn; [constructor|]. apply NoDup_app. split; [|split].
  - apply NoDup_alt. intros j j' x H1 H2. specialize (Hi x 0%nat j 0%nat j' H1 H2). by simplify_eq.
  - intros x Hx Hx'. apply list_elem_of_lookup in Hx as [j Hj]. apply elem_of_buckets in Hx' as (i' & j' & Hl).
    by specialize (Hi x 0%nat j (S i') j' Hj Hl).
  - by eapply IH, injective_tail.
Qed.

Lemma concat_reverse_perm (bs : list (list nat)) : concat (map reverse bs) ≡ₚ concat bs.
Proof. induction bs as [|b bs IH]; cbn; [done|]. by rewrite IH, reverse_Permutation. Qed.

Lemma concat_perm (l l' : list (list nat)) : l ≡ₚ l' -> concat l ≡ₚ concat l'.
Proof.
  induction 1; cbn; [done|by rewrite IHPermutation| |by etrans].
  rewrite !app_assoc. by rewrite (Permutation_app_comm y x).
Qed.

Lemma candidates_perm k bs : candidates k bs ≡ₚ concat bs.
Proof.
  unfold candidates. rewrite !concat_reverse_perm. rewrite (concat_perm (reverse (take k bs)) (take k bs))
    by apply reverse_Permutation. rewrite <- (take_drop k bs) at 3. rewrite concat_app. apply Permutation_app_comm.
Qed.

(** The buckets hold exactly the handles that carry load. *)
Lemma in_buckets e s σ x : stats_inv e ∅ s σ -> x ∈ concat (st_buckets s) <-> 0 < count σ x.
Proof.
  intros I. rewrite elem_of_buckets. pose proof (si_home _ _ I x (not_elem_of_empty _)) as Hh. unfold home in Hh. split.
  - intros (i & j & Hl). apply (si_placed _ _ I) in Hl. rewrite Hl in Hh. destruct (0 <? count σ x) eqn:E; [lia|done].
  - intros Hc. apply Z.ltb_lt in Hc. rewrite Hc in Hh. destruct (pos σ x) as [[i j]|] eqn:E; [|done].
    exists i, j. by apply (si_placed _ _ I).
Qed.

Lemma count_active {e D} s σ x : stats_inv e D s σ -> 0 < count σ x -> x ∈ st_handles s.
Proof.
  intros I Hc. apply (si_handles _ _ I). unfold active, count, counted in *. destruct (core σ x) as [c|]; [|cbn in Hc; lia].
  cbn in Hc. destruct (sh_stat c); [lia|done..].
Qed.

Lemma total_filter (f : nat -> Z) hs :
  (forall x, x ∈ hs -> 0 <= f x) -> total f (filter (fun x => 0 < f x) hs) = total f hs.
Proof.
  induction hs as [|h hs IH]; [done|]. intros Hf. rewrite filter_cons.
  pose proof (Hf h (list_elem_of_here _ _)). assert (IH' := IH (fun x Hx => Hf x (list_elem_of_further _ _ _ Hx))).
  case_decide; cbn; rewrite IH'; lia.
Qed.

Lemma total_buckets e s σ : stats_inv e ∅ s σ -> total (count σ) (concat (st_buckets s)) + e = st_global_stat s.
Proof.
  intros I. rewrite (si_global _ _ I), <- (total_filter (count σ) (st_handles s)).
  2:{ intros x _. apply (count_weight s σ x I). }
  f_equal. apply total_perm, NoDup_Permutation.
  - eapply buckets_nodup, placed_injective, (si_placed _ _ I).
  - apply NoDup_filter, (si_nodup _ _ I).
  - intros x. rewrite (in_buckets _ _ _ _ I), list_elem_of_filter. split; [|by intros []].
    intros Hc. split; [done|by eapply count_active].
Qed.

(** ** Selection *)

(** No handle waits to be removed: the state a poll leaves. *)
Definition settled (σ : store) : Prop :=
  forall x c, core σ x = Some c -> match sh_stat c with MarkedForDisable _ => False | _ => True end.

Definition connection_of (σ : store) (h : nat) (conn : Conn) : Prop := sh_conn <$> σ !! h = Some conn.

(** What stops the selection once [l] has been taken. *)
Definition selection_stops (left : Z) (threshold : Z) (taken : nat) (max : option Z) (l : list nat) : Prop :=
  left <= threshold \/ (taken + length l = MAX_EXTRACTED_CONNECTIONS)%nat \/ max = Some (Z.of_nat (length l)).

Definition within (max : option Z) (n : nat) : Prop := match max with Some m => Z.of_nat n <= m | None => True end.

Lemma select_ok σ global threshold : forall cands conns removed max,
  (forall h, h ∈ cands -> exists c v, σ !! h = Some c /\ sh_stat c = Enabled v /\ 0 < v /\ count σ h = v) ->
  0 <= removed -> 0 <= threshold -> removed + total (count σ) cands <= global -> global < 2 ^ 64 ->
  (length conns < MAX_EXTRACTED_CONNECTIONS)%nat -> within max 1 -> threshold < global - removed ->
  exists l rest, cands = l ++ rest /\
    exists conns', select global threshold σ cands conns removed max =
      Ret (conns ++ conns', (fun m => m - Z.of_nat (length l)) <$> max) /\
    Forall2 (connection_of σ) l conns' /\
    (length conns + length l <= MAX_EXTRACTED_CONNECTIONS)%nat /\ within max (length l) /\
    (forall l0 l1, l = l0 ++ l1 -> l1 <> [] -> threshold < global - removed - total (count σ) l0) /\
    (cands <> [] -> l <> []) /\
    (rest = [] \/ selection_stops (global - removed - total (count σ) l) threshold (length conns) max l).
Proof.
  induction cands as [|h cands IH]; intros conns removed max Hen Hr Ht Hsum Hg Hlen Hmax Hover.
  { exists [], []. split; [done|]. exists []. rewrite app_nil_r. split.
    { cbn. f_equal. f_equal. destruct max; cbn; [f_equal; lia|done]. }
    split; [constructor|]. cbn. split; [lia|]. split; [destruct max; cbn in *; lia|]. split; [|by split; [|left]].
    intros [] [] E; done. }
  destruct (Hen h (list_elem_of_here _ _)) as (c & v & Hc & Hst & Hv & Hcount).
  cbn [select]. unfold cell. rewrite Hc. cbn [mbind outcome_bind]. rewrite Hst. cbn [expect_enabled mbind outcome_bind].
  cbn [total] in Hsum. rewrite Hcount in Hsum.
  assert (Hrest : 0 <= total (count σ) cands).
  { apply total_nonneg. intros x Hx. destruct (Hen x (list_elem_of_further _ _ _ Hx)) as (? & ? & _ & _ & ? & ->). lia. }
  rewrite (wrap64_small (removed + v)) by lia. rewrite (wrap64_small (global - (removed + v))) by lia.
  replace (Nat.leb MAX_EXTRACTED_CONNECTIONS (length conns)) with false by (symmetry; apply Nat.leb_gt; lia).
  rewrite length_app. cbn [length].
  assert (Hone : forall l0 l1, [h] = l0 ++ l1 -> l1 <> [] -> threshold < global - removed - total (count σ) l0).
  { intros [|? l0] l1 E Hl1; [cbn; lia|]. apply (f_equal length) in E. rewrite length_app in E. cbn in E.
    destruct l1; [done|]. cbn in E. lia. }
  destruct (match (fun val => val - 1) <$> max with Some val => val <=? 0 | None => false end) eqn:Eb.
  { exists [h], cands. split; [done|]. exists [sh_conn c]. split; [done|]. cbn.
    split; [constructor; [|constructor]; unfold connection_of; by rewrite Hc|]. split; [lia|]. split; [done|].
    split; [done|]. split; [done|]. right. right. right. destruct max as [m|]; [|done]. cbn in Eb, Hmax. cbn. f_equal. lia. }
  destruct ((global - (removed + v) <=? threshold) || Nat.eqb (length conns + 1) MAX_EXTRACTED_CONNECTIONS) eqn:Es.
  { exists [h], cands. split; [done|]. exists [sh_conn c]. split; [done|]. cbn [length].
    split; [constructor; [|constructor]; unfold connection_of; by rewrite Hc|]. split; [lia|]. split; [done|].
    split; [done|]. split; [done|]. right. apply orb_true_iff in Es as [Es|Es].
    - left. cbn [total]. rewrite Hcount. lia.
    - right. left. cbn [length]. by apply Nat.eqb_eq in Es. }
  apply orb_false_iff in Es as [Es1 Es2]. apply Nat.eqb_neq in Es2.
  destruct (IH (conns ++ [sh_conn c]) (removed + v) ((fun val => val - 1) <$> max)) as
    (l & rest & -> & conns' & E & Hf & Hl & Hw & Hmin & Hne & Hstop); try lia.
  { intros x Hx. apply Hen. by right. }
  { rewrite length_app. cbn. lia. }
  { destruct max; cbn in *; lia. }
  exists (h :: l), rest. split; [done|]. exists (sh_conn c :: conns'). rewrite E, <- app_assoc. split.
  { cbn. f_equal. f_equal. destruct max; cbn; [f_equal; lia|done]. }
  rewrite length_app in Hl. cbn [length] in Hl.
  split; [constructor; [unfold connection_of; by rewrite Hc|done]|]. cbn [length]. split; [lia|].
  split; [destruct max; cbn in *; lia|]. split; [|split; [done|]].
  - intros [|x l0] l1 E1 Hl1; [cbn; lia|]. cbn in E1. injection E1 as <- E1. cbn [total]. rewrite Hcount.
    specialize (Hmin l0 l1 E1 Hl1). lia.
  - destruct Hstop as [->|[Hs|[Hs|Hs]]]; [by left|right..].
    + left. cbn [total]. rewrite Hcount. lia.
    + right. left. rewrite length_app in Hs. cbn in *. lia.
    + right. right. destruct max as [m|]; [|done]. cbn in Hs |- *. f_equal. injection Hs as Hs. lia.
Qed.

(** The selection does not panic when every handle it may come to is enabled. *)
Lemma select_total σ global threshold : forall cands conns removed max,
  (forall h, h ∈ cands -> exists c v, σ !! h = Some c /\ sh_stat c = Enabled v) ->
  (length conns < MAX_EXTRACTED_CONNECTIONS)%nat ->
  exists r, select global threshold σ cands conns removed max = Ret r.
Proof.
  induction cands as [|h cands IH]; intros conns removed max Hen Hl; [by eexists|].
  destruct (Hen h (list_elem_of_here _ _)) as (c & v & Hc & Hv). cbn [select]. unfold cell. rewrite Hc.
  cbn [mbind outcome_bind]. rewrite Hv. cbn [expect_enabled mbind outcome_bind].
  replace (Nat.leb MAX_EXTRACTED_CONNECTIONS (length conns)) with false by (symmetry; apply Nat.leb_gt; lia).
  destruct (match _ with Some val => val <=? 0 | None => false end); [by eexists|].
  destruct (_ <=? _); [by eexists|]. cbn [orb].
  destruct (Nat.eqb_spec (length (conns ++ [sh_conn c])) MAX_EXTRACTED_CONNECTIONS) as [|Hne]; [by eexists|].
  apply IH; [intros x Hx; apply Hen; by right|]. rewrite length_app in *. cbn in *. lia.
Qed.

Lemma proactive_total e D s σ :
  stats_inv e D s σ -> settled σ ->
  exists r max, connections_to_proactively_migrate s σ = Ret (r, set_max_proactive max s).
Proof.
  intros I Hs. unfold connections_to_proactively_migrate.
  assert (Esame : s = set_max_proactive (st_max_proactive_migrations s) s) by (by destruct s).
  destruct (match st_max_proactive_migrations s with Some val => val <=? 0 | None => false end);
    [exists None, (st_max_proactive_migrations s); by rewrite <- Esame|].
  destruct (_ <=? _); [exists None, (st_max_proactive_migrations s); by rewrite <- Esame|].
  set (k := Nat.min _ _). destruct (select_total σ (st_global_stat s) (st_threshold s) (candidates k (st_buckets s)) [] 0
    (st_max_proactive_migrations s)) as ([conns max] & ->); [|cbn; unfold MAX_EXTRACTED_CONNECTIONS; lia|by do 2 eexists].
  intros h Hh. rewrite (candidates_perm k (st_buckets s)) in Hh. apply elem_of_buckets in Hh as (i & j & Hl).
  apply (si_placed _ _ I) in Hl. destruct (pos_Some _ _ _ Hl) as (c & Hc & _).
  assert (Hcore : core σ h = Some (erase c)) by (unfold core; by rewrite Hc).
  specialize (Hs h _ Hcore). destruct (sh_stat c) as [|v|v] eqn:Ec; cbn in Hs; rewrite Ec in Hs; [|by exists c, v|done].
  rewrite (si_out _ _ I) in Hl; [done|]. unfold active. rewrite Hcore. cbn. rewrite Ec. by intros [].
Qed.

(** The outcome of a selection: distinct handles with load, no more than the caps allow, none
    after the recorded load has gone below the threshold, and enough unless a cap stopped it or no
    loaded handle was left. *)
Record selection (s : Stats) (σ : store) (conns : list Conn) (l : list nat) : Prop := mkSelection {
  sel_conns : Forall2 (connection_of σ) l conns;
  sel_nodup : NoDup l;
  sel_loaded : forall h, h ∈ l -> h ∈ st_handles s /\ 0 < count σ h;
  sel_some : (exists h, 0 < count σ h) -> l <> [];
  sel_cap : (length l <= MAX_EXTRACTED_CONNECTIONS)%nat;
  sel_budget : within (st_max_proactive_migrations s) (length l);
  sel_minimal : forall l0 l1, l = l0 ++ l1 -> l1 <> [] ->
    st_threshold s < st_global_stat s - total (count σ) l0;
  sel_enough : selection_stops (st_global_stat s - total (count σ) l) (st_threshold s) 0
    (st_max_proactive_migrations s) l \/ forall h, 0 < count σ h -> h ∈ l
}.

Lemma settled_enabled e D s σ h :
  stats_inv e D s σ -> settled σ -> 0 < count σ h ->
  exists c v, σ !! h = Some c /\ sh_stat c = Enabled v /\ 0 < v /\ count σ h = v.
Proof.
  intros I Hs Hc. unfold count, core in *. destruct (σ !! h) as [c|] eqn:E; [|cbn in Hc; lia].
  exists c. specialize (Hs h (erase c)). unfold core in Hs. rewrite E in Hs. specialize (Hs eq_refl). cbn in *.
  unfold counted in *. cbn in *. destruct (sh_stat c) as [|v|v]; [lia| |done]. by exists v.
Qed.

Lemma proactive_ok e s σ :
  stats_inv e ∅ s σ -> settled σ -> 0 <= st_threshold s ->
  exists r s', connections_to_proactively_migrate s σ = Ret (r, s') /\
    match r with
    | None => s' = s /\ (~ within (st_max_proactive_migrations s) 1 \/ st_global_stat s <= st_threshold s)
    | Some conns => exists l, selection s σ conns l /\
        s' = set_max_proactive ((fun m => m - Z.of_nat (length l)) <$> st_max_proactive_migrations s) s
    end.
Proof.
  intros I Hs Ht. pose proof (global_fits _ _ I) as Hg. unfold connections_to_proactively_migrate.
  destruct (match st_max_proactive_migrations s with Some val => val <=? 0 | None => false end) eqn:Eb.
  { exists None, s. split; [done|]. split; [done|]. left. destruct (st_max_proactive_migrations s); cbn; [lia|done]. }
  destruct (st_global_stat s <=? st_threshold s) eqn:Eg.
  { exists None, s. split; [done|]. split; [done|]. right. lia. }
  set (k := Nat.min _ _). pose proof (candidates_perm k (st_buckets s)) as Hperm.
  assert (Hin : forall h, h ∈ candidates k (st_buckets s) -> 0 < count σ h)
    by (intros h; rewrite Hperm; apply (in_buckets _ _ _ _ I)).
  assert (Hall : forall h, 0 < count σ h -> h ∈ candidates k (st_buckets s))
    by (intros h Hh; rewrite Hperm; by apply (in_buckets _ _ _ _ I)).
  assert (Htot : total (count σ) (candidates k (st_buckets s)) + e = st_global_stat s)
    by (rewrite (total_perm _ _ _ Hperm); apply (total_buckets _ _ _ I)).
  pose proof (si_extra _ _ I) as Hex.
  assert (Hnd : NoDup (candidates k (st_buckets s)))
    by (rewrite Hperm; eapply buckets_nodup, placed_injective, (si_placed _ _ I)).
  destruct (select_ok σ (st_global_stat s) (st_threshold s) (candidates k (st_buckets s)) [] 0 (st_max_proactive_migrations s))
    as (l & rest & Ecand & conns & -> & Hf & Hl & Hw & Hmin & Hne & Hstop); try (cbn; unfold MAX_EXTRACTED_CONNECTIONS; lia).
  { intros h Hh. eapply settled_enabled; eauto. }
  { destruct (st_max_proactive_migrations s); cbn in *; lia. }
  cbn [mbind outcome_bind app]. do 2 eexists. split; [done|]. exists l. split; [|done].
  rewrite Ecand in Hnd, Hin, Hall, Hne. constructor; try done.
  - by apply NoDup_app in Hnd as [? _].
  - intros h Hh. assert (0 < count σ h) by (apply Hin, elem_of_app; by left). split; [by eapply count_active|done].
  - intros [h Hh]. apply Hne. intros E. apply Hall in Hh. rewrite E in Hh. by apply not_elem_of_nil in Hh.
  - intros l0 l1 E1 E2. specialize (Hmin l0 l1 E1 E2). lia.
  - unfold selection_stops in *. destruct Hstop as [->|[Hx|Hx]]; [right|left; left; lia|left; by right].
    intros h Hh. rewrite app_nil_r in Hall. by apply Hall.
Qed.

(** ** The component as a state machine *)

Inductive stats_op :=
  | NewHandle (conn : Conn) | SetStat (h : nat) (val : Z) | Increment (h : nat)
  | Enable (h : nat) (use_old_value : bool) (initial_val : Z) | Disable (h : nat)
  | Poll | ResetStats | UpdateThreshold (sum : Z) | SetThreshold (val : Z) | SelectProactive | SelectReactive.

Definition stats_exec (op : stats_op) (s : Stats) (σ : store) : outcome (Stats * store) :=
  match op with
  | NewHandle conn => Ret (s, snd (StatsHandle.new conn σ))
  | SetStat h val => Ret (s, StatsHandle.set h val σ)
  | Increment h => Ret (s, StatsHandle.increment h σ)
  | Enable h use_old val => StatsHandle.enable h s use_old val σ
  | Disable h => Ret (s, StatsHandle.disable h σ)
  | Poll => poll s σ
  | ResetStats => Ret (s, reset_stats s σ)
  | UpdateThreshold sum => Ret (update_threshold sum s, σ)
  | SetThreshold val => Ret (set_threshold val s, σ)
  | SelectProactive => '(_, s) ← connections_to_proactively_migrate s σ; Ret (s, σ)
  | SelectReactive => Ret (snd (connections_to_reactively_migrate s), σ)
  end.

(** What the operations need: values are unsigned, the handle enabled exists and is not enabled
    already (the code panics), and no handle is marked for removal when connections are selected
    (the code panics when it comes to one). *)
Definition op_guard (op : stats_op) (σ : store) : Prop :=
  match op with
  | SetStat _ val | SetThreshold val => 0 <= val
  | Enable h _ val => 0 <= val /\ exists c, σ !! h = Some c /\ forall v, sh_stat c <> Enabled v
  | SelectProactive => settled σ
  | _ => True
  end.

(** The load a handle marked for removal still carries, and the load it is enabled with again. *)
Definition enabled_again (op : stats_op) (σ : store) : option (nat * Z * Z) :=
  match op with
  | Enable h use_old val =>
      c ← σ !! h;
      match sh_stat c with MarkedForDisable old => Some (h, old, enabled_with c use_old val) | _ => None end
  | _ => None
  end.

Definition extra_after (op : stats_op) (σ : store) (extra : Z) : Z :=
  match enabled_again op σ with Some (_, old, _) => extra + old | None => extra end.
Definition stale_after (op : stats_op) (σ : store) (stale : gset nat) : gset nat :=
  match enabled_again op σ with Some (h, old, v) => if v =? old then stale else {[h]} ∪ stale | None => stale end.

(** The states the operations lead to, with the load counted twice and the handles that may be in
    the bucket of an earlier load. *)
Inductive stats_reach : Z -> gset nat -> Stats -> store -> Prop :=
  | reach_new threshold max_proactive max_reactive :
      0 <= threshold -> stats_reach 0 ∅ (Stats_new threshold max_proactive max_reactive) ∅
  | reach_step op extra stale s σ s' σ' :
      stats_reach extra stale s σ -> op_guard op σ -> stats_exec op s σ = Ret (s', σ') ->
      total (weight σ') (st_handles s') + extra_after op σ extra < 2 ^ 64 ->
      stats_reach (extra_after op σ extra) (stale_after op σ stale) s' σ'.

Lemma inv_settings e D s σ s' :
  stats_inv e D s σ -> st_handles s' = st_handles s -> st_buckets s' = st_buckets s ->
  st_global_stat s' = st_global_stat s -> stats_inv e D s' σ.
Proof. intros [] E1 E2 E3. constructor; by rewrite ?E1, ?E2, ?E3. Qed.

Lemma enable_disabled_ret h s use_old val σ c :
  σ !! h = Some c -> sh_stat c = Disabled ->
  exists s' σ', StatsHandle.enable h s use_old val σ = Ret (s', σ') /\ st_threshold s' = st_threshold s.
Proof.
  intros Hc Hd. unfold StatsHandle.enable, cell. rewrite Hc. cbn [mbind outcome_bind]. rewrite Hd.
  destruct use_old; cbn iota beta zeta; destruct (BucketList.insert _ _ _ _); by do 2 eexists.
Qed.

Lemma exec_total e D op s σ :
  stats_inv e D s σ -> op_guard op σ -> exists s' σ', stats_exec op s σ = Ret (s', σ').
Proof.
  intros I Hg. destruct op; cbn [stats_exec op_guard] in *; try by do 2 eexists.
  - destruct Hg as (Hv & c & Hc & Hd). destruct (sh_stat c) as [|v|v] eqn:E; [|by destruct (Hd v)|].
    + destruct (enable_disabled_ret h s use_old_value initial_val σ c Hc E) as (s' & σ' & -> & _). by do 2 eexists.
    + destruct (enable_marked_ok e D s σ h c v use_old_value initial_val I Hc E Hv) as (s' & σ' & -> & _). by do 2 eexists.
  - destruct (poll_ok s σ I) as (s' & σ' & -> & _). by do 2 eexists.
  - destruct (proactive_total e D s σ I Hg) as (r & max & ->). by do 2 eexists.
Qed.

Lemma exec_inv e D op s σ s' σ' :
  stats_inv e D s σ -> 0 <= st_threshold s -> op_guard op σ -> stats_exec op s σ = Ret (s', σ') ->
  total (weight σ') (st_handles s') + extra_after op σ e < 2 ^ 64 ->
  stats_inv (extra_after op σ e) (stale_after op σ D) s' σ' /\ 0 <= st_threshold s'.
Proof.
  intros I Ht Hg E Hf. unfold extra_after, stale_after in *.
  destruct op; cbn [stats_exec op_guard enabled_again] in *; cbn iota in *.
  - injection E as <- <-. split; [by apply new_ok|done].
  - injection E as <- <-. split; [by apply set_ok|done].
  - injection E as <- <-. split; [by apply increment_ok|done].
  - destruct Hg as (Hv & c & Hc & Hd). rewrite Hc in *. cbn [mbind option_bind] in *.
    destruct (sh_stat c) as [|v|v] eqn:Est; [|by destruct (Hd v)|].
    + destruct (enable_disabled_ret h s use_old_value initial_val σ c Hc Est) as (s1 & σ1 & E1 & Et).
      split; [by eapply enable_ok|]. rewrite E in E1. simplify_eq. by rewrite Et.
    + destruct (enable_marked_ok e D s σ h c v use_old_value initial_val I Hc Est Hv) as (s1 & σ1 & E1 & _ & Et & I1).
      rewrite E in E1. simplify_eq. rewrite Et. split; [by apply I1|done].
  - injection E as <- <-. split; [by apply disable_ok|done].
  - destruct (poll_ok s σ I) as (s1 & σ1 & E1 & I1 & _ & Ht1 & _). rewrite E in E1. simplify_eq. by rewrite Ht1.
  - injection E as <- <-. split; [by apply reset_ok|done].
  - injection E as <- <-. split; [by eapply inv_settings|]. cbn. apply Z.mod_pos_bound. lia.
  - injection E as <- <-. split; [by eapply inv_settings|done].
  - destruct (proactive_total e D s σ I Hg) as (r & max & E1). rewrite E1 in E. cbn [mbind outcome_bind] in E. simplify_eq.
    split; [by eapply inv_settings|done].
  - by simplify_eq.
Qed.

Lemma reach_inv e D s σ : stats_reach e D s σ -> stats_inv e D s σ /\ 0 <= st_threshold s.
Proof.
  induction 1 as [t mp mr Ht|op e D s σ s' σ' Hr IH Hg E Hf].
  - split; [|done]. constructor; cbn; try done.
    + constructor.
    + intros h. split; [by intros ?%not_elem_of_nil|done].
  - destruct IH. by eapply exec_inv.
Qed.

(** C36: The statistics operations, in any order and as long as the loads fit in a 64-bit word, keep
    the invariant: the polled handles are exactly the enabled and the marked ones, every handle's
    recorded place in the buckets is where it is, the global load is the sum of the handles' loads
    plus [extra], the loads counted again by enabling handles that were still marked for removal, and
    every handle outside [stale] (those enabled so with another load than they had) is in the
    bucket of its load.  None of the operations panics or runs forever, with two exceptions: enabling
    an enabled handle, which always panics, and selecting connections while a handle is marked for
    removal, which may. *)
Theorem stats_machine_safe (extra : Z) (stale : gset nat) (s : Stats) (σ : store) :
  stats_reach extra stale s σ ->
  stats_inv extra stale s σ /\
  (forall op, op_guard op σ -> exists s' σ', stats_exec op s σ = Ret (s', σ')) /\
  (forall h c v use_old val, σ !! h = Some c -> sh_stat c = Enabled v ->
     exists m, stats_exec (Enable h use_old val) s σ = Panic m).
Proof.
  intros [I Ht]%reach_inv. split; [done|]. split; [intros op Hg; by eapply exec_total|].
  intros h c v use_old val Hc Hv. cbn. unfold StatsHandle.enable, cell. rewrite Hc. cbn [mbind outcome_bind]. rewrite Hv.
  destruct use_old; by eexists.
Qed.

(** C37: Polling and then selecting works from every reachable state in which no handle was enabled,
    while marked for removal, with another load than it had (the handles selection works on are
    always enabled with their old load).  The poll applies the pending values and drops the disabled
    handles; the recorded load is then the sum of the handles' loads plus [extra], what enabling
    marked handles counted twice.  The selection returns nothing when the recorded load is within
    the threshold or the migration budget is spent; otherwise the connections of distinct loaded
    handles, at most twenty and at most the budget, each taken while the recorded load less that of
    the ones before it was above the threshold, and enough to bring it down to the threshold unless a cap
    stopped the selection or no loaded handle was left. *)
Theorem poll_then_select (extra : Z) (s : Stats) (σ : store) :
  stats_reach extra ∅ s σ ->
  exists s1 σ1, poll s σ = Ret (s1, σ1) /\ (forall h, core σ1 h = poll_core <$> core σ h) /\
    st_global_stat s1 = total (count σ1) (st_handles s1) + extra /\
    exists r s2, connections_to_proactively_migrate s1 σ1 = Ret (r, s2) /\
      match r with
      | None => s2 = s1 /\
          (~ within (st_max_proactive_migrations s) 1 \/ st_global_stat s1 <= st_threshold s)
      | Some conns => exists l, selection s1 σ1 conns l /\
          s2 = set_max_proactive ((fun m => m - Z.of_nat (length l)) <$> st_max_proactive_migrations s) s1
      end.
Proof.
  intros [I Ht]%reach_inv. destruct (poll_ok s σ I) as (s1 & σ1 & E & I1 & Hcore & Et & Em & _).
  exists s1, σ1. split; [done|]. split; [done|]. split; [apply (si_global _ _ I1)|]. rewrite <- Em, <- Et in *.
  apply (proactive_ok extra); [done| |done]. intros x c. rewrite Hcore. destruct (core σ x) as [c0|]; [|done].
  intros [= <-]. pose proof (poll_core_settled c0). by destruct (sh_stat (poll_core c0)).
Qed.

(** ** Rolling average *)

Definition zsum (l : list Z) : Z := foldr Z.add 0 l.

Lemma zsum_app l k : zsum (l ++ k) = zsum l + zsum k.
Proof. induction l as [|x l IH]; [done|]. cbn in *. unfold zsum in *. lia. Qed.

Lemma zsum_bound b l : Forall (fun v => 0 <= v < b) l -> 0 <= zsum l <= Z.of_nat (length l) * (b - 1).
Proof. induction 1; cbn; [lia|]. unfold zsum in *. nia. Qed.

(** The recorded values that the window holds. *)
Definition window (values : list Z) : list Z := drop (length values) (replicate ROLLING_AVG_WINDOW 0 ++ values).

Lemma drop_S_tail {A} n (l : list A) : drop (S n) l = tail (drop n l).
Proof. revert l. induction n as [|n IH]; intros [|x l]; [done..|]. apply IH. Qed.

Lemma window_snoc values v : window (values ++ [v]) = tail (window values) ++ [v].
Proof.
  unfold window. rewrite length_app, app_assoc, Nat.add_comm. cbn [length Nat.add].
  rewrite drop_app_le by (rewrite length_app, length_replicate; unfold ROLLING_AVG_WINDOW; lia).
  f_equal. apply drop_S_tail.
Qed.

Lemma recent_window_ok values :
  Forall (fun v => 0 <= v < 2 ^ 57) values ->
  length (window values) = ROLLING_AVG_WINDOW /\ Forall (fun v => 0 <= v < 2 ^ 57) (window values).
Proof.
  intros Hf. unfold window. rewrite length_drop, length_app, length_replicate. split; [lia|].
  apply Forall_drop, Forall_app. split; [|done]. by apply Forall_replicate.
Qed.

Lemma rolling_average_window values :
  Forall (fun v => 0 <= v < 2 ^ 57) values ->
  let a := foldl (fun a v => RollingAverage.update v a) RollingAverage.new values in
  RollingAverage.values a = window values /\ RollingAverage.sum a = zsum (window values).
Proof.
  induction values as [|v values IH] using rev_ind; [done|]. intros Hf. cbv zeta. rewrite foldl_app. cbn [foldl].
  pose proof (recent_window_ok _ Hf) as [_ Hb]. pose proof (recent_window_ok _ Hf) as [Hl _].
  apply Forall_app in Hf as [Hf _]. destruct (IH Hf) as [E1 E2].
  set (a := foldl _ _ _) in *. destruct (recent_window_ok _ Hf) as [Hl0 _].
  unfold RollingAverage.update. cbn [RollingAverage.values RollingAverage.sum]. rewrite E1, E2. rewrite window_snoc in Hb, Hl |- *. split; [done|].
  apply zsum_bound in Hb. rewrite Hl in Hb. unfold ROLLING_AVG_WINDOW in *.
  destruct (window values) as [|x w]; [done|]. cbn [hd tail] in *. cbn [zsum foldr]. fold (zsum w).
  rewrite zsum_app in *. unfold wrap64. rewrite Zplus_mod_idemp_l. replace (x + zsum w - x + v) with (zsum w + zsum [v]) by (cbn; lia).
  apply wrap64_small. lia.
Qed.

(** C38: After the global load has been recorded [n] times, the rolling average is the average
    (rounded down) of the last 128 recorded values, values from before the first one counting as
    0, as long as their sum fits in 64 bits. *)
Theorem rolling_average_is_average (values : list Z) :
  Forall (fun v => 0 <= v < 2 ^ 57) values ->
  RollingAverage.get (foldl (fun a v => RollingAverage.update v a) RollingAverage.new values) =
  zsum (drop (length values) (replicate ROLLING_AVG_WINDOW 0 ++ values)) / 128.
Proof.
  intros [_ E]%rolling_average_window. unfold RollingAverage.get. rewrite E, Z.shiftr_div_pow2; done.
Qed.

(** ** Examples *)

Definition demo_conn (port : Z) : Conn :=
  (mkAddr 167772161 80, mkAddr 167772162 port).

Definition after (ops : list stats_op) : Stats * store :=
  foldl (fun '(s, σ) op => match stats_exec op s σ with Ret r => r | _ => (s, σ) end)
    (Stats_new 100 (Some 3) None, ∅) ops.

(** Two connections with loads 40 and 90; the migration of the first is begun and rejected before a
    poll, and the second is about to grow to 150. *)
Definition demo_ops : list stats_op :=
  [NewHandle (demo_conn 1); NewHandle (demo_conn 2); Enable 0 true 40; Enable 1 true 90; Disable 0; Enable 0 true 0;
   SetStat 1 150].

Definition demo_state (n : nat) : Stats * store := after (take n demo_ops).

Lemma demo_next n op e e' :
  nth_error demo_ops n = Some op -> op_guard op (snd (demo_state n)) ->
  stats_exec op (fst (demo_state n)) (snd (demo_state n)) = Ret (demo_state (S n)) ->
  (extra_after op (snd (demo_state n)) e, stale_after op (snd (demo_state n)) ∅) = (e', ∅) ->
  total (weight (snd (demo_state (S n)))) (st_handles (fst (demo_state (S n)))) + e' < 2 ^ 64 ->
  stats_reach e ∅ (fst (demo_state n)) (snd (demo_state n)) ->
  stats_reach e' ∅ (fst (demo_state (S n))) (snd (demo_state (S n))).
Proof.
  intros _ Hg E Ha Hf R. injection Ha as Ee Es. rewrite <- Ee in Hf |- *. rewrite <- Es. eapply reach_step; [done|done| |done].
  by rewrite E, <- surjective_pairing.
Qed.

Ltac demo_enable := split; [done|]; eexists; split; [vm_compute; reflexivity|done].

Lemma demo_reach : stats_reach 40 ∅ (fst (after demo_ops)) (snd (after demo_ops)).
Proof.
  apply (demo_next 6 (SetStat 1 150) 40); [done|done|vm_compute; reflexivity..|].
  apply (demo_next 5 (Enable 0 true 0) 0); [done|demo_enable|vm_compute; reflexivity..|].
  apply (demo_next 4 (Disable 0) 0); [done|done|vm_compute; reflexivity..|].
  apply (demo_next 3 (Enable 1 true 90) 0); [done|demo_enable|vm_compute; reflexivity..|].
  apply (demo_next 2 (Enable 0 true 40) 0); [done|demo_enable|vm_compute; reflexivity..|].
  apply (demo_next 1 (NewHandle (demo_conn 2)) 0); [done|done|vm_compute; reflexivity..|].
  apply (demo_next 0 (NewHandle (demo_conn 1)) 0); [done|done|vm_compute; reflexivity..|].
  by apply reach_new.
Qed.

Lemma stats_machine_safe_witness :
  stats_inv 40 ∅ (fst (after demo_ops)) (snd (after demo_ops)) /\ st_global_stat (fst (after demo_ops)) = 170.
Proof. split; [apply (stats_machine_safe _ _ _ _ demo_reach)|vm_compute; reflexivity]. Defined.

Lemma poll_then_select_witness :
  exists s1 σ1, poll (fst (after demo_ops)) (snd (after demo_ops)) = Ret (s1, σ1) /\
    exists s2, connections_to_proactively_migrate s1 σ1 = Ret (Some [demo_conn 2], s2).
Proof.
  destruct (poll_then_select _ _ _ demo_reach) as (s1 & σ1 & E & _). exists s1, σ1. split; [done|].
  vm_compute in E. injection E as <- <-. eexists. vm_compute. reflexivity.
Defined.

Lemma rolling_average_is_average_witness :
  RollingAverage.get (foldl (fun a v => RollingAverage.update v a) RollingAverage.new [1000; 2000; 3000]) = 46.
Proof. rewrite rolling_average_is_average; [reflexivity|]. repeat constructor; lia. Defined.

(** Enabling a handle that is only marked for removal adds its load to the global load a second
    time: the handle was not removed, so its load is still counted. *)
Example enable_marked_double_counts :
  let '(s, σ) := after [NewHandle (demo_conn 1); Enable 0 false 40; Disable 0; Enable 0 true 0] in
  st_global_stat s = 80 /\ total (count σ) (st_handles s) = 40.
Proof. vm_compute. done. Qed.

(** Selecting connections while a loaded handle is marked for removal panics. *)
Example select_marked_panics :
  let '(s, σ) := after [NewHandle (demo_conn 1); Enable 0 false 400; Disable 0] in
  exists m, connections_to_proactively_migrate s σ = Panic m.
Proof. vm_compute. eexists. reflexivity. Qed.
