(* ===== verification/TcpPeer.v ===== *)
(** * The TCP peer
    (src/src/rust/inetstack/protocols/tcp/peer.rs, established/mod.rs, tcpmig/mod.rs)

    The tables of a host's sockets and connections and the calls of the network stack on them:
    socket calls of the application, packets from the network, the migration protocol and the load
    statistics.  A call is a computation on the tables ([Inner]) that may panic and whose effects
    (segments handed to the runtime, wake-ups) are a trace; [None] is [Poll::Pending].  The cells of
    the statistics handles, which connections and statistics share, are two stores of [Inner]. *)

From S2P Require Import Prelude Buffer SeqNumber Net TcpSegment TcpMigSegment Congestion Rto CtrlBlk Handshake MigState MigPeer.
From S2P Require Import Stats Ports.

#[local] Abbreviation CB := (ControlBlock CcNone).

Definition ETCPMIG : Z := 199.

Module Socket.

Inductive t :=
| Inactive (local : option SocketAddrV4)
| Listening (local : SocketAddrV4)
| Connecting (local remote : SocketAddrV4)
| Established (local remote : SocketAddrV4)
| MigratedOut (local remote : SocketAddrV4).

End Socket.

(** [EstablishedSocket]; with the control block, the addresses of its two statistics handles. *)
Record EstablishedSocket := mkEstablished { es_cb : CB; es_recv_stats : nat; es_rps_stats : nat }.

Record TcpmigPollState := mkPollState { migrated_qd : option Z; fast_migrate : bool }.

Module PollState.

Definition reset (self : TcpmigPollState) : TcpmigPollState := mkPollState None false.
Definition take_qd (self : TcpmigPollState) : option Z * TcpmigPollState :=
  (migrated_qd self, mkPollState None (fast_migrate self)).
Definition set_qd (qd : Z) (self : TcpmigPollState) : TcpmigPollState := mkPollState (Some qd) (fast_migrate self).
Definition is_fast_migrate_enabled (self : TcpmigPollState) : bool := fast_migrate self.
Definition enable_fast_migrate (self : TcpmigPollState) : TcpmigPollState := mkPollState (migrated_qd self) true.

End PollState.

Record Inner := mkInner {
  in_isn_generator : IsnGenerator;
  in_ephemeral_ports : list Z;
  in_sockets : gmap Z Socket.t;
  in_qds : gmap Conn Z;
  in_passive : gmap SocketAddrV4 PassiveSocket;
  in_connecting : gmap Conn ActiveOpenSocket;
  in_established : gmap Conn EstablishedSocket;
  in_local_link_addr : MacAddress;
  in_local_ipv4_addr : Ipv4Addr;
  in_tcp_config : TcpConfig;
  in_tcpmig : TcpMigPeer;
  in_recv_queue_stats : Stats;
  in_recv_store : store;
  in_rps_stats : Stats;
  in_rps_store : store;
  in_poll_state : TcpmigPollState;
  in_min_threshold : Z;
  in_rps_threshold : F64.t;
  in_threshold_epsilon : F64.t;
  in_reactive_migration_enabled : bool;
  in_last_rps_signal : option (Z * Z)
}.

Inductive peer_effect := TxTcp (segment : TcpSegment) | TxMig (segment : TcpMigSegment) | WakeTask.

Definition P (A : Type) : Type := Inner -> list peer_effect -> outcome (A * Inner * list peer_effect).

#[export] Instance P_ret : MRet P := fun A a s tr => Ret (a, s, tr).
#[export] Instance P_bind : MBind P := fun A B k m s tr =>
  match m s tr with
  | Ret (a, s', tr') => k a s' tr'
  | Panic msg => Panic msg
  | Diverge => Diverge
  end.

Definition inner : P Inner := fun s tr => Ret (s, s, tr).
Definition update (f : Inner -> Inner) : P unit := fun s tr => Ret (tt, f s, tr).
Definition perform (e : peer_effect) : P unit := fun s tr => Ret (tt, s, tr ++ [e]).
Definition perform_all (es : list peer_effect) : P unit := fun s tr => Ret (tt, s, tr ++ es).
Definition call {A} (o : outcome A) : P A := fun s tr =>
  match o with
  | Ret a => Ret (a, s, tr)
  | Panic msg => Panic msg
  | Diverge => Diverge
  end.
Definition panic {A} (msg : string) : P A := fun _ _ => Panic msg.
Definition err {A} (errno : Z) (cause : string) : P (Result A) := mret (Err (mkFail errno cause)).
Definition ready_err {A} (errno : Z) (cause : string) : P (option (Result A)) := mret (Some (Err (mkFail errno cause))).

(** The [?] operator. *)
Definition try_ {A B} (m : P (Result A)) (k : A -> P (Result B)) : P (Result B) :=
  r ← m; match r with Ok a => k a | Err e => mret (Err e) end.
Notation "x ←! m ; k" := (try_ m (fun x => k)) (at level 20, m at level 100, k at level 200, only parsing) : stdpp_scope.
Notation "' x ←! m ; k" := (try_ m (fun x' => match x' with x => k end))
  (at level 20, x pattern, m at level 100, k at level 200, only parsing) : stdpp_scope.

(** ** Field updates *)

Definition set_in_isn_generator v (s : Inner) := mkInner v (in_ephemeral_ports s) (in_sockets s) (in_qds s)
  (in_passive s) (in_connecting s) (in_established s) (in_local_link_addr s) (in_local_ipv4_addr s)
  (in_tcp_config s) (in_tcpmig s) (in_recv_queue_stats s) (in_recv_store s) (in_rps_stats s) (in_rps_store s)
  (in_poll_state s) (in_min_threshold s) (in_rps_threshold s) (in_threshold_epsilon s)
  (in_reactive_migration_enabled s) (in_last_rps_signal s).
Definition set_in_ephemeral_ports v (s : Inner) := mkInner (in_isn_generator s) v (in_sockets s) (in_qds s)
  (in_passive s) (in_connecting s) (in_established s) (in_local_link_addr s) (in_local_ipv4_addr s)
  (in_tcp_config s) (in_tcpmig s) (in_recv_queue_stats s) (in_recv_store s) (in_rps_stats s) (in_rps_store s)
  (in_poll_state s) (in_min_threshold s) (in_rps_threshold s) (in_threshold_epsilon s)
  (in_reactive_migration_enabled s) (in_last_rps_signal s).
Definition set_in_sockets v (s : Inner) := mkInner (in_isn_generator s) (in_ephemeral_ports s) v (in_qds s)
  (in_passive s) (in_connecting s) (in_established s) (in_local_link_addr s) (in_local_ipv4_addr s)
  (in_tcp_config s) (in_tcpmig s) (in_recv_queue_stats s) (in_recv_store s) (in_rps_stats s) (in_rps_store s)
  (in_poll_state s) (in_min_threshold s) (in_rps_threshold s) (in_threshold_epsilon s)
  (in_reactive_migration_enabled s) (in_last_rps_signal s).
Definition set_in_qds v (s : Inner) := mkInner (in_isn_generator s) (in_ephemeral_ports s) (in_sockets s) v
  (in_passive s) (in_connecting s) (in_established s) (in_local_link_addr s) (in_local_ipv4_addr s)
  (in_tcp_config s) (in_tcpmig s) (in_recv_queue_stats s) (in_recv_store s) (in_rps_stats s) (in_rps_store s)
  (in_poll_state s) (in_min_threshold s) (in_rps_threshold s) (in_threshold_epsilon s)
  (in_reactive_migration_enabled s) (in_last_rps_signal s).
Definition set_in_passive v (s : Inner) := mkInner (in_isn_generator s) (in_ephemeral_ports s) (in_sockets s)
  (in_qds s) v (in_connecting s) (in_established s) (in_local_link_addr s) (in_local_ipv4_addr s) (in_tcp_config s)
  (in_tcpmig s) (in_recv_queue_stats s) (in_recv_store s) (in_rps_stats s) (in_rps_store s) (in_poll_state s)
  (in_min_threshold s) (in_rps_threshold s) (in_threshold_epsilon s) (in_reactive_migration_enabled s)
  (in_last_rps_signal s).
Definition set_in_connecting v (s : Inner) := mkInner (in_isn_generator s) (in_ephemeral_ports s) (in_sockets s)
  (in_qds s) (in_passive s) v (in_established s) (in_local_link_addr s) (in_local_ipv4_addr s) (in_tcp_config s)
  (in_tcpmig s) (in_recv_queue_stats s) (in_recv_store s) (in_rps_stats s) (in_rps_store s) (in_poll_state s)
  (in_min_threshold s) (in_rps_threshold s) (in_threshold_epsilon s) (in_reactive_migration_enabled s)
  (in_last_rps_signal s).
Definition set_in_established v (s : Inner) := mkInner (in_isn_generator s) (in_ephemeral_ports s) (in_sockets s)
  (in_qds s) (in_passive s) (in_connecting s) v (in_local_link_addr s) (in_local_ipv4_addr s) (in_tcp_config s)
  (in_tcpmig s) (in_recv_queue_stats s) (in_recv_store s) (in_rps_stats s) (in_rps_store s) (in_poll_state s)
  (in_min_threshold s) (in_rps_threshold s) (in_threshold_epsilon s) (in_reactive_migration_enabled s)
  (in_last_rps_signal s).
Definition set_in_tcpmig v (s : Inner) := mkInner (in_isn_generator s) (in_ephemeral_ports s) (in_sockets s)
  (in_qds s) (in_passive s) (in_connecting s) (in_established s) (in_local_link_addr s) (in_local_ipv4_addr s)
  (in_tcp_config s) v (in_recv_queue_stats s) (in_recv_store s) (in_rps_stats s) (in_rps_store s) (in_poll_state s)
  (in_min_threshold s) (in_rps_threshold s) (in_threshold_epsilon s) (in_reactive_migration_enabled s)
  (in_last_rps_signal s).
Definition set_in_recv_queue_stats v (s : Inner) := mkInner (in_isn_generator s) (in_ephemeral_ports s)
  (in_sockets s) (in_qds s) (in_passive s) (in_connecting s) (in_established s) (in_local_link_addr s)
  (in_local_ipv4_addr s) (in_tcp_config s) (in_tcpmig s) v (in_recv_store s) (in_rps_stats s) (in_rps_store s)
  (in_poll_state s) (in_min_threshold s) (in_rps_threshold s) (in_threshold_epsilon s)
  (in_reactive_migration_enabled s) (in_last_rps_signal s).
Definition set_in_recv_store v (s : Inner) := mkInner (in_isn_generator s) (in_ephemeral_ports s) (in_sockets s)
  (in_qds s) (in_passive s) (in_connecting s) (in_established s) (in_local_link_addr s) (in_local_ipv4_addr s)
  (in_tcp_config s) (in_tcpmig s) (in_recv_queue_stats s) v (in_rps_stats s) (in_rps_store s) (in_poll_state s)
  (in_min_threshold s) (in_rps_threshold s) (in_threshold_epsilon s) (in_reactive_migration_enabled s)
  (in_last_rps_signal s).
Definition set_in_rps_stats v (s : Inner) := mkInner (in_isn_generator s) (in_ephemeral_ports s) (in_sockets s)
  (in_qds s) (in_passive s) (in_connecting s) (in_established s) (in_local_link_addr s) (in_local_ipv4_addr s)
  (in_tcp_config s) (in_tcpmig s) (in_recv_queue_stats s) (in_recv_store s) v (in_rps_store s) (in_poll_state s)
  (in_min_threshold s) (in_rps_threshold s) (in_threshold_epsilon s) (in_reactive_migration_enabled s)
  (in_last_rps_signal s).
Definition set_in_rps_store v (s : Inner) := mkInner (in_isn_generator s) (in_ephemeral_ports s) (in_sockets s)
  (in_qds s) (in_passive s) (in_connecting s) (in_established s) (in_local_link_addr s) (in_local_ipv4_addr s)
  (in_tcp_config s) (in_tcpmig s) (in_recv_queue_stats s) (in_recv_store s) (in_rps_stats s) v (in_poll_state s)
  (in_min_threshold s) (in_rps_threshold s) (in_threshold_epsilon s) (in_reactive_migration_enabled s)
  (in_last_rps_signal s).
Definition set_in_poll_state v (s : Inner) := mkInner (in_isn_generator s) (in_ephemeral_ports s) (in_sockets s)
  (in_qds s) (in_passive s) (in_connecting s) (in_established s) (in_local_link_addr s) (in_local_ipv4_addr s)
  (in_tcp_config s) (in_tcpmig s) (in_recv_queue_stats s) (in_recv_store s) (in_rps_stats s) (in_rps_store s) v
  (in_min_threshold s) (in_rps_threshold s) (in_threshold_epsilon s) (in_reactive_migration_enabled s)
  (in_last_rps_signal s).
Definition set_in_reactive_migration_enabled v (s : Inner) := mkInner (in_isn_generator s) (in_ephemeral_ports s)
  (in_sockets s) (in_qds s) (in_passive s) (in_connecting s) (in_established s) (in_local_link_addr s)
  (in_local_ipv4_addr s) (in_tcp_config s) (in_tcpmig s) (in_recv_queue_stats s) (in_recv_store s) (in_rps_stats s)
  (in_rps_store s) (in_poll_state s) (in_min_threshold s) (in_rps_threshold s) (in_threshold_epsilon s) v
  (in_last_rps_signal s).
Definition set_in_last_rps_signal v (s : Inner) := mkInner (in_isn_generator s) (in_ephemeral_ports s)
  (in_sockets s) (in_qds s) (in_passive s) (in_connecting s) (in_established s) (in_local_link_addr s)
  (in_local_ipv4_addr s) (in_tcp_config s) (in_tcpmig s) (in_recv_queue_stats s) (in_recv_store s) (in_rps_stats s)
  (in_rps_store s) (in_poll_state s) (in_min_threshold s) (in_rps_threshold s) (in_threshold_epsilon s)
  (in_reactive_migration_enabled s) v.

(** ** Construction *)

(** [Inner::new], with the values of its environment variables; [threshold], [max_proactive] and
    [max_reactive] are those of the two [Stats::new]. *)
Definition Inner_new (local_link_addr : MacAddress) (local_ipv4_addr : Ipv4Addr) (tcp_config : TcpConfig)
  (shuffle : list Z -> list Z) (core_id : option Z) (nonce : Z) (tcpmig : TcpMigPeer) (poll_state : TcpmigPollState)
  (threshold : Z) (max_proactive max_reactive : option Z) (min_threshold : Z)
  (rps_threshold threshold_epsilon : F64.t) : Inner :=
  mkInner (IsnGenerator_new nonce) (Ports.new shuffle core_id) ∅ ∅ ∅ ∅ ∅ local_link_addr local_ipv4_addr tcp_config
    tcpmig (Stats_new threshold max_proactive max_reactive) ∅ (Stats_new threshold max_proactive max_reactive) ∅
    poll_state min_threshold rps_threshold threshold_epsilon false None.

(** [TcpPeer::new] *)
Definition TcpPeer_new (local_link_addr : MacAddress) (local_ipv4_addr : Ipv4Addr) (tcp_config : TcpConfig)
  (shuffle : list Z -> list Z) (core_id : option Z) (nonce : Z) (poll_state : TcpmigPollState)
  (threshold : Z) (max_proactive max_reactive : option Z) (min_threshold : Z)
  (rps_threshold threshold_epsilon : F64.t) : Result Inner :=
  Ok (Inner_new local_link_addr local_ipv4_addr tcp_config shuffle core_id nonce
    (Peer.new local_link_addr local_ipv4_addr) poll_state threshold max_proactive max_reactive min_threshold
    rps_threshold threshold_epsilon).

(** ** Connections *)

(** The effects of a control block whose handles are at [h] and [r]. *)
Definition perform_effect (h r : nat) (e : effect) : P unit :=
  match e with
  | Transmit segment => perform (TxTcp segment)
  | RecvQueueStatsSet len => update (fun s => set_in_recv_store (StatsHandle.set h (Z.of_nat len) (in_recv_store s)) s)
  | RpsStatsIncrement => update (fun s => set_in_rps_store (StatsHandle.increment r (in_rps_store s)) s)
  | StatsDisable =>
      update (fun s => set_in_rps_store (StatsHandle.disable r (in_rps_store s))
                         (set_in_recv_store (StatsHandle.disable h (in_recv_store s)) s))
  | WakeReader => perform WakeTask
  end.

Fixpoint perform_effects (h r : nat) (es : list effect) : P unit :=
  match es with
  | [] => mret tt
  | e :: es => _ ← perform_effect h r e; perform_effects h r es
  end.

(** Runs an operation of a control block. *)
Definition run_cb {A} (s : EstablishedSocket) (m : CtrlBlk.M (C:=CcNone) A) : P (A * EstablishedSocket) :=
  '(a, cb, es) ← call (m (es_cb s) []);
  _ ← perform_effects (es_recv_stats s) (es_rps_stats s) es;
  mret (a, mkEstablished cb (es_recv_stats s) (es_rps_stats s)).

(** Runs it on the connection [key] of the table. *)
Definition on_established {A} (key : Conn) (s : EstablishedSocket) (m : CtrlBlk.M (C:=CcNone) A) : P A :=
  '(a, s) ← run_cb s m;
  _ ← update (fun i => set_in_established (<[key := s]> (in_established i)) i);
  mret a.

(** The handles of a new control block; they are disabled until [enable_stats]. *)
Definition with_handles (cb : CB) : P EstablishedSocket := fun s tr =>
  let conn := (local cb, remote cb) in
  let '(h, recv_store) := StatsHandle.new conn (in_recv_store s) in
  let '(r, rps_store) := StatsHandle.new conn (in_rps_store s) in
  Ret (mkEstablished cb h r, set_in_rps_store rps_store (set_in_recv_store recv_store s), tr).

(** [ControlBlock::enable_stats] *)
Definition enable_stats (s : EstablishedSocket) : P unit :=
  i ← inner;
  '(recv_queue_stats, recv_store) ← call (StatsHandle.enable (es_recv_stats s) (in_recv_queue_stats i) false
      (Z.of_nat (length (recv_queue (receiver (es_cb s))))) (in_recv_store i));
  '(rps_stats, rps_store) ← call (StatsHandle.enable (es_rps_stats s) (in_rps_stats i) true 0 (in_rps_store i));
  update (fun i => set_in_rps_store rps_store (set_in_rps_stats rps_stats
                     (set_in_recv_store recv_store (set_in_recv_queue_stats recv_queue_stats i)))).

(** ** Socket calls *)

Definition do_socket (qd : Z) : P (Result unit) :=
  i ← inner;
  match in_sockets i !! qd with
  | None =>
      _ ← update (fun i => set_in_sockets (<[qd := Socket.Inactive None]> (in_sockets i)) i);
      mret (Ok tt)
  | Some _ => err EBUSY "queue descriptor in use"
  end.

(** The local address that a socket occupies. *)
Definition bound_to (s : Socket.t) : option SocketAddrV4 :=
  match s with
  | Socket.Inactive local => local
  | Socket.Listening local | Socket.Connecting local _ | Socket.Established local _ => Some local
  | Socket.MigratedOut _ _ => None
  end.

Definition alloc_any : P (Result Z) := fun s tr =>
  let '(r, ports) := Ports.alloc_any (in_ephemeral_ports s) in Ret (r, set_in_ephemeral_ports ports s, tr).

Definition alloc_port (port : Z) : P (Result unit) := fun s tr =>
  let '(r, ports) := Ports.alloc_port port (in_ephemeral_ports s) in Ret (r, set_in_ephemeral_ports ports s, tr).

Definition bind (qd : Z) (addr : SocketAddrV4) : P (Result unit) :=
  i ← inner;
  if existsb (fun '(_, socket) => bool_decide (bound_to socket = Some addr)) (map_to_list (in_sockets i)) then
    err EADDRINUSE "address already in use"
  else
  _ ←! if Ports.is_private (port addr) then alloc_port (port addr) else mret (Ok tt);
  addr ←! if port addr =? 0 then new_port ←! alloc_any; mret (Ok (mkAddr (ip addr) new_port)) else mret (Ok addr);
  _ ← update (fun i => set_in_tcpmig (Peer.set_port (port addr) (in_tcpmig i)) i);
  i ← inner;
  ret ← match in_sockets i !! qd with
        | Some (Socket.Inactive (Some _)) => err EINVAL "socket is already bound to an address"
        | Some (Socket.Inactive None) =>
            _ ← update (fun i => set_in_sockets (<[qd := Socket.Inactive (Some addr)]> (in_sockets i)) i);
            mret (Ok tt)
        | _ => err EBADF "invalid queue descriptor"
        end;
  match ret with
  | Ok x => mret (Ok x)
  | Err e =>
      _ ← (if Ports.is_private (port addr) then
             update (fun i => set_in_ephemeral_ports (Ports.free (port addr) (in_ephemeral_ports i)) i)
           else mret tt);
      mret (Err e)
  end.

(** [listen]; [nonce] comes from the random number generator. *)
Definition listen (nonce : Z) (qd : Z) (backlog : nat) : P (Result unit) :=
  i ← inner;
  match in_sockets i !! qd with
  | Some (Socket.Inactive (Some local)) =>
      match in_passive i !! local with
      | Some _ => err EADDRINUSE "another socket is already listening on the same address/port pair"
      | None =>
          let socket := Passive.new local backlog (in_tcp_config i) (in_local_link_addr i) nonce in
          _ ← update (fun i => set_in_passive (<[local := socket]> (in_passive i)) i);
          _ ← update (fun i => set_in_sockets (<[qd := Socket.Listening local]> (in_sockets i)) i);
          mret (Ok tt)
      end
  | Some (Socket.Listening _) => err EINVAL "socket is already listening"
  | Some (Socket.Inactive None) => err EDESTADDRREQ "socket is not bound to a local address"
  | Some (Socket.Connecting _ _) => err EINVAL "socket is connecting"
  | Some (Socket.Established _ _) => err EINVAL "socket is connected"
  | _ => err EBADF "invalid queue descriptor"
  end.

(** The packets buffered while the connection was on its way. *)
Fixpoint replay (env : Env) (s : EstablishedSocket) (buffered : list (TcpHeader.t * Buffer.t)) : P EstablishedSocket :=
  match buffered with
  | [] => mret s
  | (hdr, data) :: buffered => '(_, s) ← run_cb s (CtrlBlk.receive env hdr data); replay env s buffered
  end.

Definition poll_accept (env : Env) (qd new_qd : Z) : P (option (Result Z)) :=
  i ← inner;
  match in_sockets i !! qd with
  | Some (Socket.Listening local) =>
      match in_passive i !! local with
      | None => panic "sockets/local inconsistency"
      | Some passive =>
          '(r, passive) ← call (Passive.poll_accept passive);
          _ ← update (fun i => set_in_passive (<[local := passive]> (in_passive i)) i);
          match r with
          | None => mret None
          | Some (Err e) => mret (Some (Err e))
          | Some (Ok cb) =>
              let remote := remote cb in
              s ← with_handles cb;
              i ← inner;
              let '(tcpmig, buffered) := Peer.close_active_migration (in_tcpmig i) remote in
              _ ← update (set_in_tcpmig tcpmig);
              s ← match buffered with Some buffered => replay env s buffered | None => mret s end;
              _ ← enable_stats s;
              i ← inner;
              _ ← match in_sockets i !! new_qd with
                  | None | Some (Socket.MigratedOut _ _) =>
                      update (fun i => set_in_sockets (<[new_qd := Socket.Established local remote]> (in_sockets i)) i)
                  | _ => panic "duplicate queue descriptor in sockets table"
                  end;
              _ ← match in_qds i !! (local, remote) with
                  | None => update (fun i => set_in_qds (<[(local, remote) := new_qd]> (in_qds i)) i)
                  | Some _ => panic "duplicate entry in qds table"
                  end;
              _ ← match in_established i !! (local, remote) with
                  | None => update (fun i => set_in_established (<[(local, remote) := s]> (in_established i)) i)
                  | Some _ => panic "duplicate queue descriptor in established sockets table"
                  end;
              mret (Some (Ok new_qd))
          end
      end
  | Some _ => ready_err EOPNOTSUPP "socket not listening"
  | None => ready_err EBADF "bad file descriptor"
  end.

(** [connect]: the future it returns is [poll_connect_finished] on the descriptor. *)
Definition connect (crc32 : list Z -> Z) (qd : Z) (remote : SocketAddrV4) : P (Result Z) :=
  i ← inner;
  local ←! match in_sockets i !! qd with
           | Some (Socket.Inactive None) =>
               local_port ←! alloc_any; mret (Ok (mkAddr (in_local_ipv4_addr i) local_port))
           | Some (Socket.Inactive (Some local)) => mret (Ok local)
           | Some (Socket.Connecting _ _) => err EALREADY "socket is connecting"
           | Some (Socket.Established _ _) => err EISCONN "socket is connected"
           | _ => err EBADF "invalid queue descriptor"
           end;
  _ ← update (fun i => set_in_sockets (<[qd := Socket.Connecting local remote]> (in_sockets i)) i);
  i ← inner;
  let '(local_isn, isn) := generate crc32 (in_isn_generator i) local remote in
  _ ← update (set_in_isn_generator isn);
  let socket := ActiveOpen.new local_isn local remote (in_tcp_config i) (in_local_link_addr i) in
  let old := in_connecting i !! (local, remote) in
  _ ← update (fun i => set_in_connecting (<[(local, remote) := socket]> (in_connecting i)) i);
  match old with
  | Some _ => err EALREADY "socket is connecting"
  | None => mret (Ok qd)
  end.

Definition poll_connect_finished (fd : Z) : P (option (Result unit)) :=
  i ← inner;
  match in_sockets i !! fd with
  | Some (Socket.Connecting local remote) =>
      match in_connecting i !! (local, remote) with
      | None => ready_err EAGAIN "socket not connecting"
      | Some socket =>
          let '(r, socket) := ActiveOpen.poll_result socket in
          match r with
          | None => _ ← update (fun i => set_in_connecting (<[(local, remote) := socket]> (in_connecting i)) i); mret None
          | Some result =>
              _ ← update (fun i => set_in_connecting (delete (local, remote) (in_connecting i)) i);
              match result with
              | Err e => mret (Some (Err e))
              | Ok cb =>
                  s ← with_handles cb;
                  match in_established i !! (local, remote) with
                  | Some _ => panic "assertion failed"
                  | None =>
                      _ ← update (fun i => set_in_established (<[(local, remote) := s]> (in_established i)) i);
                      _ ← update (fun i => set_in_sockets (<[fd := Socket.Established local remote]> (in_sockets i)) i);
                      mret (Some (Ok tt))
                  end
              end
          end
      end
  | Some _ => ready_err EAGAIN "socket not connecting"
  | None => ready_err EBADF "bad queue descriptor"
  end.

(** [poll_recv], the poll of a pop operation. *)
Definition poll_recv (fd : Z) : P (option (Result Buffer.t)) :=
  i ← inner;
  match in_sockets i !! fd with
  | Some (Socket.Established local remote) =>
      match in_established i !! (local, remote) with
      | Some s => r ← on_established (local, remote) s CtrlBlk.poll_recv; mret (Ok <$> r)
      | None => ready_err ENOTCONN "connection not established"
      end
  | Some (Socket.Connecting _ _) => ready_err EINPROGRESS "socket connecting"
  | Some (Socket.Inactive _) => ready_err EBADF "socket inactive"
  | Some (Socket.Listening _) => ready_err ENOTCONN "socket listening"
  | Some (Socket.MigratedOut _ _) => ready_err ETCPMIG "socket migrated out"
  | None => ready_err EBADF "bad queue descriptor"
  end.

Definition send (env : Env) (fd : Z) (buf : Buffer.t) : P (Result unit) :=
  i ← inner;
  match in_sockets i !! fd with
  | Some (Socket.Established local remote) =>
      match in_established i !! (local, remote) with
      | Some s => on_established (local, remote) s (CtrlBlk.send env buf)
      | None => err ENOTCONN "connection not established"
      end
  | Some (Socket.MigratedOut _ _) => err ETCPMIG "socket migrated out"
  | Some _ => err ENOTCONN "connection not established"
  | None => err EBADF "bad queue descriptor"
  end.

(** [push] sends at once; the future only reports the error. *)
Definition push (env : Env) (fd : Z) (buf : Buffer.t) : P (Z * option Fail) :=
  r ← send env fd buf;
  mret (fd, match r with Ok _ => None | Err e => Some e end).

(** The poll of a push operation. *)
Definition push_future_poll (f : Z * option Fail) : Result unit * (Z * option Fail) :=
  match snd f with
  | None => (Ok tt, f)
  | Some e => (Err e, (fst f, None))
  end.

Definition do_close (env : Env) (qd : Z) : P (Result unit) :=
  i ← inner;
  let socket := in_sockets i !! qd in
  _ ← update (fun i => set_in_sockets (delete qd (in_sockets i)) i);
  match socket with
  | Some (Socket.Established local remote) =>
      match in_established i !! (local, remote) with
      | Some s => _ ←! on_established (local, remote) s (CtrlBlk.close env); mret (Ok tt)
      | None => err ENOTCONN "connection not established"
      end
  | Some _ => err ENOTSUP "close not implemented for listening sockets"
  | None => err EBADF "bad queue descriptor"
  end.

(** The lookup shared by the accessors. *)
Definition connection_of_qd (fd : Z) : P (Result EstablishedSocket) :=
  i ← inner;
  match in_sockets i !! fd with
  | Some (Socket.Established local remote) =>
      match in_established i !! (local, remote) with
      | Some s => mret (Ok s)
      | None => err ENOTCONN "connection not established"
      end
  | Some _ => err ENOTCONN "connection not established"
  | None => err EBADF "bad queue descriptor"
  end.

Definition remote_mss (fd : Z) : P (Result Z) :=
  s ←! connection_of_qd fd; mret (Ok (mss (sender (es_cb s)))).

Definition current_rto (fd : Z) : P (Result Z) :=
  s ←! connection_of_qd fd; r ← call (RtoCalculator.get_rto (rto_calculator (es_cb s))); mret (Ok r).

Definition endpoints_of (fd : Z) : P (Result Conn) :=
  s ←! connection_of_qd fd; mret (Ok (local (es_cb s), remote (es_cb s))).

(** ** Packets *)

Definition is_broadcast (a : Ipv4Addr) : bool := a =? 2 ^ 32 - 1.
Definition is_multicast (a : Ipv4Addr) : bool := (224 <=? Z.shiftr a 24) && (Z.shiftr a 24 <=? 239).
Definition is_unspecified (a : Ipv4Addr) : bool := a =? 0.

Definition send_rst (env : Env) (local remote : SocketAddrV4) : P (Result unit) :=
  i ← inner;
  match arp_try_query env (ip remote) with
  | None => err EINVAL "detination not in ARP cache"
  | Some remote_link_addr =>
      let tcp_hdr := TcpHeader.set_rst (TcpHeader.new (port local) (port remote)) true in
      _ ← perform (TxTcp (segment_to (in_tcp_config i) (in_local_link_addr i) local remote tcp_hdr remote_link_addr));
      mret (Ok tt)
  end.

(** [receive], after the header is parsed. *)
Definition route (crc32 : list Z -> Z) (env : Env) (ip_hdr : Ipv4Header.t) (tcp_hdr : TcpHeader.t) (data : Buffer.t) :
  P (Result unit) :=
  i ← inner;
  let local := mkAddr (Ipv4Header.get_dest_addr ip_hdr) (TcpHeader.dst_port tcp_hdr) in
  let remote := mkAddr (Ipv4Header.get_src_addr ip_hdr) (TcpHeader.src_port tcp_hdr) in
  if is_broadcast (ip remote) || is_multicast (ip remote) || is_unspecified (ip remote) then
    err EINVAL "invalid address type"
  else
  let key := (local, remote) in
  match in_established i !! key with
  | Some s => _ ← on_established key s (CtrlBlk.receive env tcp_hdr data); mret (Ok tt)
  | None =>
  match in_connecting i !! key with
  | Some s =>
      '(s, tx) ← call (ActiveOpen.receive env s tcp_hdr);
      _ ← update (fun i => set_in_connecting (<[key := s]> (in_connecting i)) i);
      _ ← perform_all (map TxTcp tx);
      mret (Ok tt)
  | None =>
      let '(tcpmig, r) := Peer.try_buffer_packet (in_tcpmig i) remote tcp_hdr data in
      _ ← update (set_in_tcpmig tcpmig);
      match r with
      | None => mret (Ok tt)
      | Some (tcp_hdr, data) =>
          match in_passive i !! local with
          | Some s =>
              '(r, s) ← call (Passive.receive crc32 s ip_hdr tcp_hdr);
              _ ← update (fun i => set_in_passive (<[local := s]> (in_passive i)) i);
              mret r
          | None => send_rst env local remote
          end
      end
  end
  end.

Definition receive (crc32 : list Z -> Z) (env : Env) (ip_hdr : Ipv4Header.t) (buf : list Z) : P (Result unit) :=
  i ← inner;
  '(tcp_hdr, data) ←! call (TcpHeader.parse ip_hdr buf (rx_checksum_offload (in_tcp_config i)));
  route crc32 env ip_hdr tcp_hdr data.

(** ** Migration *)

Definition initiate_migration_by_addr (conn : Conn) : P unit :=
  i ← inner;
  match in_qds i !! conn with
  | None => panic "no QD found for connection"
  | Some qd =>
      match in_established i !! conn with
      | None => panic "connection not in established table"
      | Some s =>
          _ ← on_established conn s CtrlBlk.disable_stats;
          i ← inner;
          '(tcpmig, tx) ← call (Peer.initiate_migration (in_tcpmig i) conn qd);
          _ ← update (set_in_tcpmig tcpmig);
          perform_all (map TxMig tx)
      end
  end.

Definition initiate_migration_by_qd (qd : Z) : P (Result unit) :=
  i ← inner;
  match in_sockets i !! qd with
  | None => err EBADF "socket does not exist"
  | Some (Socket.Established local remote) =>
      match in_established i !! (local, remote) with
      | None => panic "connection not in established table"
      | Some s =>
          _ ← on_established (local, remote) s CtrlBlk.disable_stats;
          i ← inner;
          '(tcpmig, tx) ← call (Peer.initiate_migration (in_tcpmig i) (local, remote) qd);
          _ ← update (set_in_tcpmig tcpmig);
          _ ← perform_all (map TxMig tx);
          mret (Ok tt)
      end
  | Some _ => err EBADF "unsupported socket variant for migrating out"
  end.

Definition migrate_out_connection (qd : Z) : P (Result TcpState) :=
  i ← inner;
  match in_sockets i !! qd with
  | Some (Socket.Established local remote) =>
      let conn := (local, remote) in
      _ ← update (fun i => set_in_sockets (<[qd := Socket.MigratedOut local remote]> (in_sockets i)) i);
      match in_qds i !! conn with
      | None => panic "called `Option::unwrap()` on a `None` value"
      | Some _ =>
          _ ← update (fun i => set_in_qds (delete conn (in_qds i)) i);
          match in_established i !! conn with
          | None => panic "inconsistency between `sockets` and `established`"
          | Some s =>
              _ ← update (fun i => set_in_established (delete conn (in_established i)) i);
              _ ← (if waker (es_cb s) then perform WakeTask else mret tt);
              '(state, _) ← call (ControlBlockState_from (es_cb s));
              mret (Ok (TcpState_new state))
          end
      end
  | Some _ => panic "invalid socket type for migrating out"
  | None => panic "invalid QD for migrating out"
  end.

Definition migrate_in_connection (state : TcpState) : P (Result unit) :=
  i ← inner;
  let cb := ControlBlock_from_state (in_local_link_addr i) (tx_checksum_offload (in_tcp_config i))
              (cfg_ack_delay_timeout (in_tcp_config i)) (ts_cb state) in
  match in_passive i !! local cb with
  | Some passive =>
      passive ← call (Passive.push_migrated_in passive cb);
      _ ← update (fun i => set_in_passive (<[local cb := passive]> (in_passive i)) i);
      mret (Ok tt)
  | None => err EBADF "socket not listening"
  end.

Definition send_tcp_state (state : TcpState) : P unit :=
  i ← inner;
  '(tcpmig, tx) ← call (Peer.send_tcp_state (in_tcpmig i) state);
  _ ← update (set_in_tcpmig tcpmig);
  perform_all (map TxMig tx).

Definition migrate_out_and_send (qd : Z) : P unit :=
  r ← migrate_out_connection qd;
  match r with
  | Ok state => send_tcp_state state
  | Err _ => panic "called `Result::unwrap()` on an `Err` value"
  end.

(** What a migration message leads to. *)
Definition act_on_status (status : TcpmigReceiveStatus) : P (Result unit) :=
  i ← inner;
  match status with
  | StOk | StMigrationCompleted | StSentReject => mret (Ok tt)
  | StRejected local remote =>
      match in_established i !! (local, remote) with
      | Some s => _ ← enable_stats s; mret (Ok tt)
      | None => panic "migration rejected for non-existent connection"
      end
  | StReturnedBySwitch local remote => _ ← initiate_migration_by_addr (local, remote); mret (Ok tt)
  | StPrepareMigrationAcked qd =>
      _ ← update (fun i => set_in_poll_state (PollState.set_qd qd (in_poll_state i)) i);
      state ←! migrate_out_connection qd;
      _ ← send_tcp_state state;
      mret (Ok tt)
  | StStateReceived state => migrate_in_connection state
  | StHeartbeatResponse global_queue_len_sum =>
      _ ← update (fun i => set_in_recv_queue_stats (update_threshold global_queue_len_sum (in_recv_queue_stats i)) i);
      mret (Ok tt)
  end.

(** [receive_tcpmig]; the load in its context is not read by the protocol. *)
Definition receive_tcpmig (ip_hdr : Ipv4Header.t) (buf : Buffer.t) : P (Result unit) :=
  i ← inner;
  '(r, tcpmig, tx) ← call (Peer.receive (in_tcpmig i) ip_hdr buf);
  _ ← update (set_in_tcpmig tcpmig);
  _ ← perform_all (map TxMig tx);
  match r with
  | Err e => mret (Err e)
  | Ok status => act_on_status status
  end.

Definition register_application_state (qd : Z) (state : AppState) : P unit :=
  i ← inner;
  match in_sockets i !! qd with
  | Some (Socket.Established _ remote) =>
      update (fun i => set_in_tcpmig (Peer.register_application_state remote state (in_tcpmig i)) i)
  | Some _ => panic "unsupported socket variant for migration"
  | None => panic "socket does not exist"
  end.

Definition get_migrated_application_state (deserialize : list Z -> AppState) (qd : Z) : P (option AppState) :=
  i ← inner;
  match in_sockets i !! qd with
  | Some (Socket.Established _ remote) =>
      let '(tcpmig, r) := Peer.get_migrated_application_state deserialize (in_tcpmig i) remote in
      _ ← update (set_in_tcpmig tcpmig);
      mret r
  | Some _ => panic "unsupported socket variant for migration"
  | None => panic "socket does not exist"
  end.

(** ** Load *)

Definition poll_stats : P unit :=
  i ← inner;
  '(stats, σ) ← call (Stats.poll (in_recv_queue_stats i) (in_recv_store i));
  _ ← update (fun i => set_in_recv_store σ (set_in_recv_queue_stats stats i));
  '(stats, σ) ← call (Stats.poll (in_rps_stats i) (in_rps_store i));
  update (fun i => set_in_rps_store σ (set_in_rps_stats stats i)).

Definition connections_to_proactively_migrate : P (option (list Conn)) :=
  i ← inner;
  '(r, stats) ← call (Stats.connections_to_proactively_migrate (in_rps_stats i) (in_rps_store i));
  _ ← update (set_in_rps_stats stats);
  mret r.

Definition connections_to_reactively_migrate : P (option (list Conn)) :=
  i ← inner;
  if in_reactive_migration_enabled i then
    let '(r, stats) := Stats.connections_to_reactively_migrate (in_recv_queue_stats i) in
    _ ← update (set_in_recv_queue_stats stats);
    mret r
  else mret None.

Definition global_recv_queue_length : P Z := i ← inner; mret (Stats.global_stat (in_recv_queue_stats i)).

Definition receive_rps_signal (buf : Buffer.t) : P (Result unit) :=
  sum ← call (read_u32 buf 12);
  individual ← call (read_u32 buf 16);
  _ ← update (set_in_last_rps_signal (Some (sum, individual)));
  mret (Ok tt).

(** [f64 as usize]: towards zero, saturating; NaN is 0. *)
Definition f64_to_usize (x : F64.t) : Z :=
  match x with
  | SpecFloat.S754_finite false m e => Z.min (2 ^ 64 - 1) (Z.shiftl (Z.pos m) e)
  | SpecFloat.S754_infinity false => 2 ^ 64 - 1
  | _ => 0
  end.

Fixpoint initiate_migrations (conns : list Conn) : P unit :=
  match conns with
  | [] => mret tt
  | conn :: conns => _ ← initiate_migration_by_addr conn; initiate_migrations conns
  end.

Definition reset_rps_stats : P unit :=
  update (fun i => set_in_rps_store (reset_stats (in_rps_stats i) (in_rps_store i)) i).

Definition rps_signal_action : P unit :=
  i ← inner;
  match in_last_rps_signal i with
  | None => mret tt
  | Some (sum, individual) =>
      _ ← update (set_in_last_rps_signal None);
      let threshold := f64_to_usize (F64.mul (F64.of_Z sum) (in_rps_threshold i)) in
      let threshold_epsilon :=
        f64_to_usize (F64.mul (F64.of_Z sum) (F64.add (in_rps_threshold i) (in_threshold_epsilon i))) in
      _ ← (if (in_min_threshold i <? sum) && (threshold_epsilon <? individual) then
             _ ← update (fun i => set_in_rps_stats (set_threshold threshold (in_rps_stats i)) i);
             _ ← update (set_in_reactive_migration_enabled true);
             r ← connections_to_proactively_migrate;
             match r with
             | Some conns_to_migrate => initiate_migrations conns_to_migrate
             | None => mret tt
             end
           else update (set_in_reactive_migration_enabled false));
      reset_rps_stats
  end.
