(* ===== verification/PeerTables.v ===== *)
(** * The tables of the TCP peer

    Every call on the peer keeps its tables consistent, and changes an established connection only
    by the operations of the connection itself. *)

From S2P Require Import Prelude Buffer SeqNumber Net TcpSegment TcpMigSegment Congestion Rto CtrlBlk Handshake MigState MigPeer.
From S2P Require Import Stats Ports TcpPeer.

#[local] Abbreviation CB := (ControlBlock CcNone).
#[local] Abbreviation CM := (CtrlBlk.M (C:=CcNone)).

(** ** Operations of a connection keep its endpoints *)

Definition keeps {A} (m : CM A) : Prop :=
  forall cb tr a cb' tr', m cb tr = Ret (a, cb', tr') -> local cb' = local cb /\ remote cb' = remote cb.

Lemma keeps_ret {A} (a : A) : keeps (mret a).
Proof. intros cb tr ? cb' tr' [= <- <- <-]. done. Qed.

Lemma keeps_bind {A B} (m : CM A) (k : A -> CM B) : keeps m -> (forall a, keeps (k a)) -> keeps (m ≫= k).
Proof.
  intros Hm Hk cb tr b cb' tr' E. unfold mbind, M_bind in E. destruct (m cb tr) as [[[a cb1] tr1]| |] eqn:Em; [|done|done].
  destruct (Hm _ _ _ _ _ Em) as [<- <-]. by eapply Hk.
Qed.

Lemma keeps_gets {A} (f : CB -> A) : keeps (gets f).
Proof. intros cb tr ? cb' tr' [= <- <- <-]. done. Qed.

Lemma keeps_modify (f : CB -> CB) : (forall cb, local (f cb) = local cb /\ remote (f cb) = remote cb) -> keeps (modify f).
Proof. intros Hf cb tr ? cb' tr' [= <- <- <-]. apply Hf. Qed.

Lemma keeps_effect e : keeps (effect_of e).
Proof. intros cb tr ? cb' tr' [= <- <- <-]. done. Qed.

Lemma keeps_lift {A} (o : outcome A) : keeps (lift o).
Proof. intros cb tr a cb' tr' E. unfold lift in E. destruct o; [|done|done]. by injection E as <- <- <-. Qed.

Lemma keeps_when b (m : CM unit) : keeps m -> keeps (when b m).
Proof. intros Hm. destruct b; [done|apply keeps_ret]. Qed.

Create HintDb keeps.
#[local] Hint Resolve keeps_ret keeps_gets keeps_effect keeps_lift keeps_when : keeps.

(** Walks through a computation: binds, branches, then the leaves. *)
Ltac keeps :=
  repeat match goal with
  | |- keeps (mbind _ _) => apply keeps_bind; [|intros ?]
  | |- keeps (modify _) => apply keeps_modify; intros ?; split; reflexivity
  | |- keeps (modify_sender _) => apply keeps_modify; intros ?; split; reflexivity
  | |- keeps (when _ _) => apply keeps_when
  | |- keeps (match ?x with _ => _ end) => destruct x
  | |- keeps (let '_ := ?x in _) => destruct x
  | |- keeps _ => solve [auto with keeps]
  end.

Lemma keeps_emit h b l : keeps (emit h b l).
Proof. unfold emit. keeps. Qed.
#[local] Hint Resolve keeps_emit : keeps.

Lemma keeps_send_ack env : keeps (send_ack env).
Proof. unfold send_ack. keeps. Qed.
Lemma keeps_rto : keeps rto.
Proof. unfold rto. keeps. Qed.
Lemma keeps_cc_modify f : keeps (cc_modify f).
Proof. unfold cc_modify. keeps. Qed.
Lemma keeps_push b : keeps (Receiver_push b).
Proof. unfold Receiver_push. keeps. Qed.
Lemma keeps_pop : keeps Receiver_pop.
Proof. unfold Receiver_pop. keeps. Qed.
Lemma keeps_wake : keeps wake_reader.
Proof. unfold wake_reader. keeps. Qed.
#[local] Hint Resolve keeps_send_ack keeps_rto keeps_cc_modify keeps_push keeps_pop keeps_wake : keeps.

Lemma keeps_poll_recv : keeps CtrlBlk.poll_recv.
Proof. unfold CtrlBlk.poll_recv. keeps. Qed.

Lemma keeps_start_timer env : keeps (start_retransmit_timer env).
Proof. unfold start_retransmit_timer. keeps. Qed.
#[local] Hint Resolve keeps_start_timer : keeps.

Lemma keeps_send env b : keeps (CtrlBlk.send env b).
Proof. unfold CtrlBlk.send, send_immediate, modify_send_next, push_unacked_segment. keeps. Qed.
#[local] Hint Resolve keeps_send : keeps.

Lemma keeps_close env : keeps (close env).
Proof. unfold close, disable_stats. keeps. Qed.

Lemma keeps_recover store : forall n b, keeps (recover_out_of_order store n b).
Proof. induction store as [|[s b] store IH]; intros n a; cbn [recover_out_of_order]; keeps. Qed.
#[local] Hint Resolve keeps_recover : keeps.

Lemma keeps_receive_data s b : keeps (receive_data s b).
Proof. unfold receive_data. keeps. Qed.
Lemma keeps_check_window env h d : keeps (check_window env h d).
Proof. unfold check_window. keeps. Qed.
Lemma keeps_process_rst : keeps process_rst.
Proof. unfold process_rst, disable_stats. keeps. Qed.
Lemma keeps_process_ack env h : keeps (process_ack env h).
Proof. unfold process_ack, remove_acknowledged_data, all_acknowledged. keeps. Qed.
Lemma keeps_process_ooo env w : keeps (process_out_of_order env w).
Proof. unfold process_out_of_order, store_out_of_order_fin, store_out_of_order_segment. keeps. Qed.
#[local] Hint Resolve keeps_receive_data keeps_check_window keeps_process_rst keeps_process_ack keeps_process_ooo : keeps.
Lemma keeps_process_text w : keeps (process_text w).
Proof. unfold process_text. keeps. Qed.
Lemma keeps_process_fin env : keeps (process_fin env).
Proof. unfold process_fin, disable_stats. keeps. Qed.
Lemma keeps_schedule_ack env : keeps (schedule_ack env).
Proof. unfold schedule_ack. keeps. Qed.
#[local] Hint Resolve keeps_process_text keeps_process_fin keeps_schedule_ack : keeps.

Lemma keeps_receive env h d : keeps (CtrlBlk.receive env h d).
Proof. unfold CtrlBlk.receive. keeps. Qed.

Lemma keeps_acknowledger env : keeps (acknowledger env).
Proof. unfold acknowledger. keeps. Qed.

Lemma keeps_retransmit env : keeps (retransmit env).
Proof. unfold retransmit. keeps. Qed.
#[local] Hint Resolve keeps_retransmit : keeps.

Lemma keeps_retransmitter env : keeps (retransmitter env).
Proof. unfold retransmitter. keeps. Qed.

Lemma keeps_sender_top env : keeps (sender_top env).
Proof.
  unfold sender_top, send_probe, pop_one_unsent_byte, send_unsent, pop_unsent, modify_send_next, push_unacked_segment. keeps.
Qed.

Lemma keeps_sender_persist w t l p s n : keeps (sender_persist w t l p s n).
Proof. unfold sender_persist. keeps. Qed.

(** The operations of an established connection. *)
Inductive conn_op :=
| OpReceive (env : Env) (header : TcpHeader.t) (data : Buffer.t)
| OpSend (env : Env) (buf : Buffer.t)
| OpClose (env : Env)
| OpPollRecv
| OpAcknowledger (env : Env)
| OpRetransmitter (env : Env)
| OpSender (env : Env)
| OpPersist (window_changed timeout_expired : bool) (link : MacAddress) (probe : Buffer.t) (seq : Seq.SeqNumber) (timeout : Z).

Definition conn_run (op : conn_op) : CM unit :=
  match op with
  | OpReceive env h d => CtrlBlk.receive env h d
  | OpSend env b => _ ← CtrlBlk.send env b; mret tt
  | OpClose env => _ ← close env; mret tt
  | OpPollRecv => _ ← CtrlBlk.poll_recv; mret tt
  | OpAcknowledger env => acknowledger env
  | OpRetransmitter env => retransmitter env
  | OpSender env => _ ← sender_top env; mret tt
  | OpPersist w t l p s n => _ ← sender_persist w t l p s n; mret tt
  end.

Lemma conn_run_keeps op : keeps (conn_run op).
Proof.
  destruct op; cbn [conn_run].
  all: try (apply keeps_bind; [|intros; apply keeps_ret]).
  all: auto using keeps_receive, keeps_send, keeps_close, keeps_poll_recv, keeps_acknowledger, keeps_retransmitter,
    keeps_sender_top, keeps_sender_persist.
Qed.

(** ** Postconditions of calls *)

(** Whatever the call returns satisfies [Q]. *)
Definition post {A} (s : Inner) (m : P A) (Q : A -> Inner -> Prop) : Prop :=
  forall tr a s' tr', m s tr = Ret (a, s', tr') -> Q a s'.

Lemma post_ret {A} s (a : A) (Q : A -> Inner -> Prop) : Q a s -> post s (mret a) Q.
Proof. intros H tr ? s' tr' [= <- <- <-]. done. Qed.

Lemma post_bind {A B} s (m : P A) (k : A -> P B) Q :
  post s m (fun a s' => post s' (k a) Q) -> post s (m ≫= k) Q.
Proof.
  intros H tr b s' tr' E. unfold mbind, P_bind in E. destruct (m s tr) as [[[a s1] tr1]| |] eqn:Em; [|done|done].
  by eapply H.
Qed.

Lemma post_try {A B} s (m : P (Result A)) (k : A -> P (Result B)) Q :
  post s m (fun r s' => match r with Ok a => post s' (k a) Q | Err e => Q (Err e) s' end) -> post s (try_ m k) Q.
Proof.
  intros H. apply post_bind. intros tr r s' tr' E. specialize (H tr r s' tr' E). destruct r; [done|by apply post_ret].
Qed.

Lemma post_inner s (Q : Inner -> Inner -> Prop) : Q s s -> post s inner Q.
Proof. intros H tr ? s' tr' [= <- <- <-]. done. Qed.

Lemma post_update s f (Q : unit -> Inner -> Prop) : Q tt (f s) -> post s (update f) Q.
Proof. intros H tr ? s' tr' [= <- <- <-]. done. Qed.

Lemma post_perform s e (Q : unit -> Inner -> Prop) : Q tt s -> post s (perform e) Q.
Proof. intros H tr ? s' tr' [= <- <- <-]. done. Qed.

Lemma post_perform_all s es (Q : unit -> Inner -> Prop) : Q tt s -> post s (perform_all es) Q.
Proof. intros H tr ? s' tr' [= <- <- <-]. done. Qed.

Lemma post_call {A} s (o : outcome A) (Q : A -> Inner -> Prop) : (forall a, o = Ret a -> Q a s) -> post s (call o) Q.
Proof. intros H tr a s' tr' E. unfold call in E. destruct o; [|done|done]. injection E as <- <- <-. by apply H. Qed.

Lemma post_panic {A} s msg (Q : A -> Inner -> Prop) : post s (panic msg) Q.
Proof. by intros tr a s' tr'. Qed.

Lemma post_err {A} s n c (Q : Result A -> Inner -> Prop) : Q (Err (mkFail n c)) s -> post s (err n c) Q.
Proof. apply post_ret. Qed.

Lemma post_ready_err {A} s n c (Q : option (Result A) -> Inner -> Prop) :
  Q (Some (Err (mkFail n c))) s -> post s (ready_err n c) Q.
Proof. apply post_ret. Qed.

Lemma post_mono {A} s (m : P A) (Q Q' : A -> Inner -> Prop) : post s m Q -> (forall a s', Q a s' -> Q' a s') -> post s m Q'.
Proof. intros H HQ tr a s' tr' E. by eapply HQ, H. Qed.

(** Splits a call into its steps; stops at branches. *)
Ltac post_steps :=
  repeat (cbv beta iota zeta; match goal with
  | |- post _ (mbind _ _) _ => apply post_bind
  | |- post _ (try_ _ _) _ => apply post_try
  | |- post _ (mret _) _ => apply post_ret
  | |- post _ inner _ => apply post_inner
  | |- post _ (update _) _ => apply post_update
  | |- post _ (perform _) _ => apply post_perform
  | |- post _ (perform_all _) _ => apply post_perform_all
  | |- post _ (panic _) _ => apply post_panic
  | |- post _ (err _ _) _ => apply post_err
  | |- post _ (ready_err _ _) _ => apply post_ready_err
  end).

(** ** Consistent tables *)

(** The tables a call may change. *)
Definition tables (i : Inner) :=
  (in_sockets i, in_qds i, in_passive i, in_connecting i, in_established i, in_ephemeral_ports i).

(** A listening socket under its own address, whose queue holds connections of that address with
    distinct remote endpoints. *)
Record listener_at (l : SocketAddrV4) (p : PassiveSocket) : Prop := mkListenerAt {
  la_local : ps_local p = l;
  la_endpoints : rs_endpoints (ps_ready p) = list_to_set (remotes (rs_ready (ps_ready p)));
  la_nodup : NoDup (remotes (rs_ready (ps_ready p)));
  la_ready : forall cb, Ok cb ∈ rs_ready (ps_ready p) -> local cb = l
}.

Record connecting_at (k : Conn) (s : ActiveOpenSocket) : Prop := mkConnectingAt {
  ca_key : (ao_local s, ao_remote s) = k;
  ca_result : forall cb, ao_result s = Some (Ok cb) -> (local cb, remote cb) = k
}.

Definition established_at (k : Conn) (s : EstablishedSocket) : Prop := (local (es_cb s), remote (es_cb s)) = k.

Record peer_wf (i : Inner) : Prop := mkPeerWf {
  wf_listening : forall qd l, in_sockets i !! qd = Some (Socket.Listening l) -> is_Some (in_passive i !! l);
  wf_passive : map_Forall listener_at (in_passive i);
  wf_connecting : map_Forall connecting_at (in_connecting i);
  wf_established : map_Forall established_at (in_established i);
  wf_connected : forall qd l r, in_sockets i !! qd = Some (Socket.Established l r) -> is_Some (in_established i !! (l, r));
  wf_unique : forall qd qd' l r, in_sockets i !! qd = Some (Socket.Established l r) ->
    in_sockets i !! qd' = Some (Socket.Established l r) -> qd = qd';
  wf_qds : forall k qd, in_qds i !! k = Some qd -> is_Some (in_established i !! k);
  wf_ports : NoDup (in_ephemeral_ports i)
}.

(** The operation that [T], an operation addressed to one connection, asks of the connection [k]. *)
Definition asked (T : option (Conn * conn_op)) (k : Conn) : option conn_op :=
  match T with Some (k', op) => if decide (k' = k) then Some op else None | None => None end.

(** How one call changes a connection: by the operation asked of it, or else not at all. *)
Definition evolves (asked : option conn_op) (o o' : option EstablishedSocket) : Prop :=
  match o, o' with
  | Some s, Some s' =>
      es_recv_stats s' = es_recv_stats s /\ es_rps_stats s' = es_rps_stats s /\
      match asked with
      | Some op => exists es, conn_run op (es_cb s) [] = Ret (tt, es_cb s', es)
      | None => es_cb s' = es_cb s
      end
  | Some _, None => False
  | None, _ => True
  end.

(** What a call that moves no connection away guarantees. *)
Record acted (T : option (Conn * conn_op)) (i i' : Inner) : Prop := mkActed {
  g_wf : peer_wf i';
  g_conn : forall k, evolves (asked T k) (in_established i !! k) (in_established i' !! k)
}.

#[local] Abbreviation good := (acted None).

(** The connection of [qd] was moved away, and nothing else happened to the connections. *)
Definition moved (qd : Z) (i i' : Inner) : Prop :=
  peer_wf i' /\ exists l r, in_sockets i !! qd = Some (Socket.Established l r) /\
    in_sockets i' = <[qd := Socket.MigratedOut l r]> (in_sockets i) /\
    in_established i' = delete (l, r) (in_established i) /\ in_qds i' = delete (l, r) (in_qds i).

Definition stepped (T : option (Conn * conn_op)) (leaving : option Z) (i i' : Inner) : Prop :=
  match leaving with Some qd => moved qd i i' | None => acted T i i' end.

(** The operation [op] on the connection [k] or of the descriptor [qd], if there is one. *)
Definition on_conn (i : Inner) (k : Conn) (op : conn_op) : option (Conn * conn_op) :=
  match in_established i !! k with Some _ => Some (k, op) | None => None end.

Definition on_qd (i : Inner) (qd : Z) (op : conn_op) : option (Conn * conn_op) :=
  match in_sockets i !! qd with Some (Socket.Established l r) => on_conn i (l, r) op | _ => None end.

(** The connection a packet belongs to: that of its two endpoints, unless its sender is no host. *)
Definition on_packet (i : Inner) (env : Env) (ip_hdr : Ipv4Header.t) (hdr : TcpHeader.t) (data : Buffer.t) : option (Conn * conn_op) :=
  let src := Ipv4Header.get_src_addr ip_hdr in
  if is_broadcast src || is_multicast src || is_unspecified src then None
  else on_conn i (mkAddr (Ipv4Header.get_dest_addr ip_hdr) (TcpHeader.dst_port hdr), mkAddr src (TcpHeader.src_port hdr))
    (OpReceive env hdr data).

Lemma evolves_refl o : evolves None o o.
Proof. destruct o; cbn; auto. Qed.

Lemma wf_ext i i' : tables i' = tables i -> peer_wf i -> peer_wf i'.
Proof.
  unfold tables. intros [= E1 E2 E3 E4 E5 E6] []. constructor; rewrite ?E1, ?E2, ?E3, ?E4, ?E5, ?E6; done.
Qed.

Lemma good_ext i i' : tables i' = tables i -> peer_wf i -> good i i'.
Proof.
  intros E W. constructor; [by eapply wf_ext|]. intros k. unfold tables in E. injection E as _ _ _ _ E _.
  rewrite E. apply evolves_refl.
Qed.

Lemma good_tables i0 i i' : tables i' = tables i -> good i0 i -> good i0 i'.
Proof.
  intros E [W G]. constructor; [by eapply wf_ext|]. intros k. unfold tables in E. injection E as _ _ _ _ E _.
  rewrite E. apply G.
Qed.

(** ** Changes of one table *)

Definition plain (s : Socket.t) : Prop :=
  match s with Socket.Listening _ | Socket.Established _ _ => False | _ => True end.

Lemma good_sockets_plain i0 i qd s :
  plain s -> good i0 i -> good i0 (set_in_sockets (<[qd := s]> (in_sockets i)) i).
Proof.
  intros Hs [W G]. constructor; [|done]. destruct W. constructor; cbn; try done.
  - intros q l [[<- ->]|[? ?]]%lookup_insert_Some; [done|]. by eapply wf_listening0.
  - intros q l r [[<- ->]|[? ?]]%lookup_insert_Some; [done|]. by eapply wf_connected0.
  - intros q q' l r H1 H2. apply lookup_insert_Some in H1 as [[<- ->]|[? H1]]; [done|].
    apply lookup_insert_Some in H2 as [[<- ->]|[? H2]]; [done|]. by eapply wf_unique0.
Qed.

Lemma good_sockets_delete i0 i qd : good i0 i -> good i0 (set_in_sockets (delete qd (in_sockets i)) i).
Proof.
  intros [W G]. constructor; [|done]. destruct W. constructor; cbn; try done.
  - intros q l [? ?]%lookup_delete_Some. by eapply wf_listening0.
  - intros q l r [? ?]%lookup_delete_Some. by eapply wf_connected0.
  - intros q q' l r [? ?]%lookup_delete_Some [? ?]%lookup_delete_Some. by eapply wf_unique0.
Qed.

Lemma good_ports i0 i ports : NoDup ports -> good i0 i -> good i0 (set_in_ephemeral_ports ports i).
Proof. intros Hn [W G]. constructor; [|done]. destruct W. by constructor. Qed.

Lemma good_passive i0 i l p :
  listener_at l p -> good i0 i -> good i0 (set_in_passive (<[l := p]> (in_passive i)) i).
Proof.
  intros Hp [W G]. constructor; [|done]. destruct W. constructor; cbn; try done.
  - intros q l' H. destruct (decide (l = l')) as [->|]; [rewrite lookup_insert_eq; by eexists|].
    rewrite lookup_insert_ne by done. by eapply wf_listening0.
  - by apply map_Forall_insert_2.
Qed.

Lemma good_connecting i0 i k s :
  connecting_at k s -> good i0 i -> good i0 (set_in_connecting (<[k := s]> (in_connecting i)) i).
Proof. intros Hs [W G]. constructor; [|done]. destruct W. constructor; cbn; try done. by apply map_Forall_insert_2. Qed.

Lemma good_connecting_delete i0 i k : good i0 i -> good i0 (set_in_connecting (delete k (in_connecting i)) i).
Proof. intros [W G]. constructor; [|done]. destruct W. constructor; cbn; try done. by apply map_Forall_delete. Qed.

(** An operation of the connection [k]. *)
Lemma good_established i k op s s' :
  peer_wf i -> in_established i !! k = Some s -> established_at k s' -> evolves (Some op) (Some s) (Some s') ->
  acted (Some (k, op)) i (set_in_established (<[k := s']> (in_established i)) i).
Proof.
  intros W Hk Hat He. constructor.
  - destruct W. constructor; cbn; try done.
    + by apply map_Forall_insert_2.
    + intros qd l r H. destruct (decide (k = (l, r))) as [->|]; [rewrite lookup_insert_eq; by eexists|].
      rewrite lookup_insert_ne by done. by eapply wf_connected0.
    + intros k' qd H. destruct (decide (k = k')) as [->|]; [rewrite lookup_insert_eq; by eexists|].
      rewrite lookup_insert_ne by done. by eapply wf_qds0.
  - intros k'. cbn. destruct (decide (k = k')) as [->|].
    + by rewrite lookup_insert_eq, Hk.
    + rewrite lookup_insert_ne by done. apply evolves_refl.
Qed.

(** ** Calls that leave the tables alone *)

Lemma good_from T i i1 i' : tables i1 = tables i -> acted T i1 i' -> acted T i i'.
Proof.
  intros E [W G]. constructor; [done|]. intros k. unfold tables in E. injection E as _ _ _ _ E _. rewrite <- E. apply G.
Qed.

Lemma post_effects h r es : forall i (Q : unit -> Inner -> Prop),
  (forall i', tables i' = tables i -> Q tt i') -> post i (perform_effects h r es) Q.
Proof.
  induction es as [|e es IH]; intros i Q HQ; cbn [perform_effects]; post_steps; [by apply HQ|].
  destruct e; cbn [perform_effect]; post_steps; apply IH; intros i' E; apply HQ; by rewrite E.
Qed.

Lemma post_run_cb {A} i s (m : CM A) (Q : A * EstablishedSocket -> Inner -> Prop) :
  (forall a cb' es i', m (es_cb s) [] = Ret (a, cb', es) -> tables i' = tables i ->
     Q (a, mkEstablished cb' (es_recv_stats s) (es_rps_stats s)) i') -> post i (run_cb s m) Q.
Proof.
  intros HQ. unfold run_cb. post_steps. apply post_call. intros [[a cb'] es] E. post_steps. apply post_effects.
  intros i' Ei. post_steps. by eapply HQ.
Qed.

Lemma post_on_established {A} i k s (m : CM A) op (Q : A -> Inner -> Prop) :
  peer_wf i -> in_established i !! k = Some s ->
  (forall a cb' es, m (es_cb s) [] = Ret (a, cb', es) -> conn_run op (es_cb s) [] = Ret (tt, cb', es)) ->
  (forall a i', acted (Some (k, op)) i i' -> Q a i') -> post i (on_established k s m) Q.
Proof.
  intros W Hk Hop HQ. unfold on_established. post_steps. apply post_run_cb. intros a cb' es i' E Ei. post_steps. apply HQ.
  specialize (Hop _ _ _ E). eapply good_from; [exact Ei|]. apply (good_established i' k op s).
  - by eapply wf_ext.
  - unfold tables in Ei. injection Ei as _ _ _ _ -> _. done.
  - pose proof (wf_established _ W k s Hk) as Hat. unfold established_at in *. cbn.
    destruct (conn_run_keeps op _ _ _ _ _ Hop) as [-> ->]. done.
  - cbn. split; [done|]. split; [done|]. by exists es.
Qed.

Lemma run_discard {A} (m : CM A) cb a cb' es : m cb [] = Ret (a, cb', es) -> (_ ← m; mret tt) cb [] = Ret (tt, cb', es).
Proof. intros E. unfold mbind, M_bind. by rewrite E. Qed.

Lemma post_disable_stats i k s (Q : unit -> Inner -> Prop) :
  in_established i !! k = Some s -> (forall i', tables i' = tables i -> Q tt i') ->
  post i (on_established k s CtrlBlk.disable_stats) Q.
Proof.
  intros Hk HQ. unfold on_established. post_steps. apply post_run_cb. intros [] cb' es i' E Ei. post_steps. apply HQ.
  unfold CtrlBlk.disable_stats, effect_of in E. injection E as <- _. rewrite <- Ei. unfold tables in *. cbn.
  injection Ei as _ _ _ _ Ei _. rewrite insert_id; [done|]. rewrite Ei, Hk. by destruct s.
Qed.

Lemma post_with_handles i cb (Q : EstablishedSocket -> Inner -> Prop) :
  (forall s i', es_cb s = cb -> tables i' = tables i -> Q s i') -> post i (with_handles cb) Q.
Proof.
  intros HQ tr s i' tr' E. unfold with_handles in E. cbn in E. injection E as <- <- _. by apply HQ.
Qed.

Lemma post_enable_stats i s (Q : unit -> Inner -> Prop) :
  (forall i', tables i' = tables i -> Q tt i') -> post i (enable_stats s) Q.
Proof.
  intros HQ. unfold enable_stats. post_steps. apply post_call. intros [st σ] _. post_steps. apply post_call.
  intros [st' σ'] _. post_steps. by apply HQ.
Qed.

Lemma post_replay env buffered : forall i s (Q : EstablishedSocket -> Inner -> Prop),
  (forall s' i', local (es_cb s') = local (es_cb s) -> remote (es_cb s') = remote (es_cb s) -> tables i' = tables i ->
     Q s' i') -> post i (replay env s buffered) Q.
Proof.
  induction buffered as [|[hdr data] buffered IH]; intros i s Q HQ; cbn [replay]; post_steps; [by apply HQ|].
  apply post_run_cb. intros [] cb' es i' E Ei. post_steps. destruct (keeps_receive _ _ _ _ _ _ _ _ E) as [E1 E2].
  apply IH. intros s' i'' E3 E4 E5. apply HQ; cbn in *; congruence.
Qed.

(** ** Socket calls *)

#[local] Hint Resolve good_ext : core.

Lemma good_refl i : peer_wf i -> good i i.
Proof. by apply good_ext. Qed.

Lemma do_socket_good i qd : peer_wf i -> post i (do_socket qd) (fun _ i' => good i i').
Proof.
  intros W. unfold do_socket. post_steps. destruct (in_sockets i !! qd); post_steps; [by apply good_refl|].
  by apply good_sockets_plain, good_refl.
Qed.

Lemma alloc_any_good i0 i : good i0 i -> post i alloc_any (fun _ i' => good i0 i').
Proof.
  intros G tr r i' tr' E. unfold alloc_any in E. destruct (Ports.alloc_any (in_ephemeral_ports i)) as [r' ports] eqn:Ep.
  injection E as <- <- <-. apply good_ports; [|done]. pose proof (wf_ports _ (g_wf _ _ _ G)) as Hn.
  destruct r' as [p|e]; [apply alloc_any_ok in Ep; rewrite Ep in Hn; by apply NoDup_app in Hn as [? _]|].
  apply alloc_any_err in Ep as (_ & -> & _). constructor.
Qed.

Lemma NoDup_free l port : NoDup l -> port ∉ l -> NoDup (Ports.free port l).
Proof. intros. unfold Ports.free. rewrite <- Permutation_cons_append. by apply NoDup_cons. Qed.

Lemma alloc_any_spec i : post i alloc_any (fun r i' =>
  exists ports, i' = set_in_ephemeral_ports ports i /\ Ports.alloc_any (in_ephemeral_ports i) = (r, ports)).
Proof.
  intros tr r i' tr' E. unfold alloc_any in E. destruct (Ports.alloc_any (in_ephemeral_ports i)) as [r' ports].
  injection E as <- <- _. by exists ports.
Qed.

Lemma alloc_port_spec i port : post i (alloc_port port) (fun r i' =>
  exists ports, i' = set_in_ephemeral_ports ports i /\ Ports.alloc_port port (in_ephemeral_ports i) = (r, ports)).
Proof.
  intros tr r i' tr' E. unfold alloc_port in E. destruct (Ports.alloc_port port (in_ephemeral_ports i)) as [r' ports].
  injection E as <- <- _. by exists ports.
Qed.

(** The address [bind] settles on: the pool it leaves is duplicate-free and without its port, if private. *)
Definition settled_addr (i i' : Inner) (addr : SocketAddrV4) : Prop :=
  good i i' /\ in_sockets i' = in_sockets i /\
  (Ports.is_private (port addr) = true -> port addr ∉ in_ephemeral_ports i').

Lemma bind_alloc_port i addr : peer_wf i ->
  post i (if Ports.is_private (port addr) then alloc_port (port addr) else mret (Ok tt)) (fun r i' =>
    good i i' /\ match r with Ok _ => settled_addr i i' addr | Err _ => True end).
Proof.
  intros W. destruct (Ports.is_private (port addr)) eqn:E.
  - eapply post_mono; [apply alloc_port_spec|]. intros r i' (ports & -> & Ep). unfold Ports.alloc_port in Ep.
    pose proof (wf_ports _ W) as Hn. case_decide as Hin; injection Ep as <- <-.
    + assert (G : good i (set_in_ephemeral_ports (filter (fun p => p <> port addr) (in_ephemeral_ports i)) i))
        by (by apply good_ports, good_refl; [apply NoDup_filter|]).
      split; [done|]. split; [done|]. split; [done|]. cbn. intros _ [? _]%list_elem_of_filter. done.
    + split; [by apply good_ports, good_refl|done].
  - post_steps. split; [by apply good_refl|]. split; [by apply good_refl|]. rewrite E. done.
Qed.

Lemma bind_wildcard i i1 addr : peer_wf i -> settled_addr i i1 addr ->
  post i1 (if port addr =? 0 then new_port ←! alloc_any; mret (Ok (mkAddr (ip addr) new_port)) else mret (Ok addr))
    (fun r i' => good i i' /\ match r with Ok addr' => settled_addr i i' addr' | Err _ => True end).
Proof.
  intros W (G & Es & Hn). destruct (port addr =? 0).
  - post_steps. eapply post_mono; [apply alloc_any_spec|]. intros r i' (ports & -> & Ep).
    pose proof (wf_ports _ (g_wf _ _ _ G)) as Hnd. destruct r as [p|e]; post_steps.
    + apply alloc_any_ok in Ep. rewrite Ep in Hnd. apply NoDup_app in Hnd as (Hnd & Hd & _).
      assert (G' : good i (set_in_ephemeral_ports ports i1)) by (by apply good_ports).
      split; [done|]. split; [done|]. split; [done|]. cbn. intros _ Hin. apply (Hd p Hin). by left.
    + apply alloc_any_err in Ep as (_ & -> & _). split; [|done]. apply good_ports; [constructor|done].
  - post_steps. by split.
Qed.

Lemma bind_good i qd addr : peer_wf i -> post i (TcpPeer.bind qd addr) (fun _ i' => good i i').
Proof.
  intros W. unfold TcpPeer.bind. post_steps. destruct (existsb _ _); post_steps; [by apply good_refl|].
  eapply post_mono; [by apply bind_alloc_port|]. intros [_|e] i1 [G1 H1]; [|done]. post_steps.
  eapply post_mono; [by apply (bind_wildcard i i1 addr)|]. intros [addr'|e] i2 [G2 H2]; [|done]. post_steps. cbn [in_sockets set_in_tcpmig].
  destruct H2 as (_ & Es & Hn). set (i3 := set_in_tcpmig _ i2). assert (G3 : good i i3) by (by apply (good_tables _ i2)).
  assert (Hfail : forall e : Fail, post i3 (if Ports.is_private (port addr') then
      update (fun i => set_in_ephemeral_ports (Ports.free (port addr') (in_ephemeral_ports i)) i) else mret tt)
      (fun _ s' => post s' (mret (Err (A:=unit) e)) (fun _ i' => good i i'))).
  { intros e. destruct (Ports.is_private (port addr')); post_steps; [|done]. apply good_ports; [|done].
    apply NoDup_free; [apply (wf_ports _ (g_wf _ _ _ G3))|by apply Hn]. }
  destruct (in_sockets i2 !! qd) as [[[l|]|l|l r|l r|l r]|]; post_steps; try apply Hfail.
  by apply good_sockets_plain.
Qed.

Lemma listen_good i nonce qd backlog : peer_wf i -> post i (listen nonce qd backlog) (fun _ i' => good i i').
Proof.
  intros W. unfold listen. post_steps. destruct (in_sockets i !! qd) as [[[l|]|l|l r|l r|l r]|] eqn:Eq; post_steps; auto.
  destruct (in_passive i !! l) eqn:El; post_steps; auto.
  set (p := Passive.new _ _ _ _ _). assert (Hp : listener_at l p).
  { constructor; cbn; [done|done|constructor|]. intros cb Hin. by apply not_elem_of_nil in Hin. }
  pose proof (good_passive i i l p Hp (good_refl i W)) as G. set (i1 := set_in_passive _ i) in *.
  destruct G as [W1 G1]. constructor; [|done]. destruct W1. constructor; cbn in *; try done.
  - intros q l' H. apply lookup_insert_Some in H as [[<- [= <-]]|[? H]]; [rewrite lookup_insert_eq; by eexists|].
    by eapply wf_listening0.
  - intros q l' r H. apply lookup_insert_Some in H as [[<- ?]|[? H]]; [done|]. by eapply wf_connected0.
  - intros q q' l' r H1 H2. apply lookup_insert_Some in H1 as [[<- ?]|[? H1]]; [done|].
    apply lookup_insert_Some in H2 as [[<- ?]|[? H2]]; [done|]. by eapply wf_unique0.
Qed.

Lemma connect_good i crc32 qd remote : peer_wf i -> post i (connect crc32 qd remote) (fun _ i' => good i i').
Proof.
  intros W. unfold connect. post_steps.
  match goal with |- post i ?m _ => assert (Hm : post i m (fun r i' => good i i')) end.
  { destruct (in_sockets i !! qd) as [[[l|]|l|l r|l r|l r]|] eqn:Eq; post_steps; auto.
    eapply post_mono; [apply alloc_any_good, good_refl, W|]. intros [p|e] i' G; post_steps; done. }
  eapply post_mono; [exact Hm|]. intros [l|e] i1 G1; [|done]. post_steps.
  destruct (generate _ _ _ _) as [isn g]. post_steps.
  match goal with |- context [set_in_connecting (<[?k := ?s]> _) ?i2] =>
    assert (G2 : good i (set_in_connecting (<[k := s]> (in_connecting i2)) i2)) end.
  { apply good_connecting; [by constructor|]. eapply good_tables; [|by apply (good_sockets_plain i i1 qd (Socket.Connecting l remote))].
    done. }
  destruct (_ !! (l, remote)); post_steps; exact G2.
Qed.

(** ** Listening sockets *)

Lemma remotes_snoc ready cb : remotes (ready ++ [Ok cb]) = remotes ready ++ [remote cb].
Proof. unfold remotes. rewrite omap_app. done. Qed.

Lemma push_ok_listener l p p' ready cb :
  listener_at l p -> local cb = l -> Ready.push_ok (ps_ready p) cb = Ret ready ->
  ps_local p' = ps_local p -> ps_ready p' = ready -> listener_at l p'.
Proof.
  intros [H1 H2 H3 H4] Hl E Hlo Hre. unfold Ready.push_ok in E. case_decide as Hd; [done|]. injection E as <-.
  constructor; rewrite ?Hlo, ?Hre; cbn [rs_ready rs_endpoints].
  - done.
  - rewrite remotes_snoc, list_to_set_app_L, H2. cbn. by rewrite (right_id_L ∅ (∪)), (comm_L (∪)).
  - rewrite remotes_snoc. apply NoDup_app. split; [done|]. split; [|apply NoDup_singleton].
    intros x Hx ->%list_elem_of_singleton. apply Hd. rewrite H2. by apply elem_of_list_to_set.
  - intros cb' [Hin|Hin]%elem_of_app; [by apply H4|]. apply list_elem_of_singleton in Hin as [= ->]. done.
Qed.

Lemma poll_accept_listener l p r p' :
  listener_at l p -> Passive.poll_accept p = Ret (r, p') ->
  listener_at l p' /\ forall cb, r = Some (Ok cb) -> local cb = l.
Proof.
  intros [H1 H2 H3 H4] E. unfold Passive.poll_accept in E. apply bind_ret in E as ([r1 ready] & E & E2).
  injection E2 as -> <-. unfold Ready.poll in E. destruct (rs_ready (ps_ready p)) as [|[cb|e] rest] eqn:Er.
  - injection E as <- <-. split; [|done]. constructor; cbn; [done| |constructor|]; [by rewrite H2|].
    intros cb Hin. by apply not_elem_of_nil in Hin.
  - case_decide as Hd; [|done]. injection E as <- <-. cbn in H2, H3. fold (remotes rest) in H2, H3.
    apply NoDup_cons in H3 as [Hni Hnd]. split.
    + constructor; cbn; [done| |done|intros cb' Hin; apply H4; by right].
      fold (remotes rest). rewrite H2. apply set_eq. intros x.
      rewrite elem_of_difference, elem_of_union, elem_of_singleton, elem_of_list_to_set. split; [by intros [[->|?] ?]|]. intros Hx. split; [by right|]. by intros ->.
    + intros cb' [= <-]. apply H4. by left.
  - injection E as <- <-. split; [|done]. constructor; cbn; [done|done|done|]. intros cb Hin. apply H4. by right.
Qed.

Lemma receive_listener crc32 l p ih h r p' :
  listener_at l p -> Passive.receive crc32 p ih h = Ret (r, p') -> listener_at l p'.
Proof.
  intros L E. unfold Passive.receive in E. case_decide; [by injection E as <- <-|].
  destruct (ps_inflight p !! _) as [a|].
  - unfold Passive.establish in E. destruct (negb _); [by injection E as <- <-|]. destruct (negb _); [by injection E as <- <-|].
    destruct (match if_remote_window_scale a with Some w => _ | None => _ end) as [ls rs].
    apply bind_ret in E as (w1 & _ & E). apply bind_ret in E as (w2 & _ & E). apply bind_ret in E as (ready & E1 & E).
    injection E as _ <-. eapply (push_ok_listener l p _ _ _ L); [|exact E1|done|done]. apply L.
  - destruct (_ || _ || _); [by injection E as <- <-|]. destruct (Nat.leb _ _); [by injection E as <- <-|].
    destruct (generate _ _ _ _) as [isn g]. apply bind_ret in E as (opts & _ & E).
    destruct (scan_options opts) as [sc m]. injection E as _ <-. destruct L. by constructor.
Qed.

Lemma background_listener l p now arp r p' tx :
  listener_at l p -> Passive.background now arp r p = Ret (p', tx) -> listener_at l p'.
Proof.
  intros L E. unfold Passive.background in E. destruct (ps_inflight p !! r) as [a|]; [|by injection E as <- <-].
  apply bind_ret in E as ([t tx'] & _ & E). injection E as <- <-. destruct L. by constructor.
Qed.

Lemma migrated_in_listener l p cb p' :
  listener_at l p -> local cb = l -> Passive.push_migrated_in p cb = Ret p' -> listener_at l p'.
Proof.
  intros L Hl E. unfold Passive.push_migrated_in in E. apply bind_ret in E as (ready & E1 & E). injection E as <-.
  by eapply (push_ok_listener l p).
Qed.

(** ** Connecting sockets *)

Lemma active_receive_at env k s h s' tx :
  connecting_at k s -> ActiveOpen.receive env s h = Ret (s', tx) -> connecting_at k s'.
Proof.
  intros [H1 H2] E. unfold ActiveOpen.receive in E. destruct (negb _); [by injection E as <- <-|].
  destruct (TcpHeader.rst h); [by injection E as <- <-|]. destruct (negb _); [by injection E as <- <-|].
  destruct (arp_try_query _ _) as [link|]; [|done]. apply bind_ret in E as (cb & Ecb & E). injection E as <- <-.
  constructor; [done|]. cbn. intros cb' [= <-]. unfold ActiveOpen.established in Ecb.
  apply bind_ret in Ecb as (opts & _ & Ecb). destruct (scan_options opts) as [sc m].
  destruct (match sc with Some w => _ | None => _ end) as [ls rs].
  apply bind_ret in Ecb as (? & _ & Ecb). apply bind_ret in Ecb as (? & _ & Ecb). apply bind_ret in Ecb as (? & _ & Ecb).
  by injection Ecb as <-.
Qed.

Lemma active_background_at now arp k s s' tx :
  connecting_at k s -> ActiveOpen.background now arp s = Ret (s', tx) -> connecting_at k s'.
Proof.
  intros [H1 H2] E. unfold ActiveOpen.background in E. apply bind_ret in E as ([t tx'] & _ & E).
  destruct (ao_handle s), t; injection E as <- <-; by constructor.
Qed.

(** A new connection enters the tables with its descriptor. *)
Lemma good_connection_added i0 i fd l r s :
  good i0 i -> in_established i0 !! (l, r) = None -> in_established i !! (l, r) = None -> established_at (l, r) s ->
  good i0 (set_in_sockets (<[fd := Socket.Established l r]> (in_sockets i))
             (set_in_established (<[(l, r) := s]> (in_established i)) i)).
Proof.
  intros [W G] Hn0 Hn Hat. constructor.
  - destruct W. constructor; cbn; try done.
    + intros q l' H. apply lookup_insert_Some in H as [[<- ?]|[? H]]; [done|]. by eapply wf_listening0.
    + by apply map_Forall_insert_2.
    + intros q l' r' H. destruct (decide ((l, r) = (l', r'))) as [<-|Hne]; [rewrite lookup_insert_eq; by eexists|].
      rewrite lookup_insert_ne by done. apply lookup_insert_Some in H as [[<- ?]|[? H]]; [congruence|]. by eapply wf_connected0.
    + assert (Hnew : forall q, in_sockets i !! q = Some (Socket.Established l r) -> False).
      { intros q Hq. apply wf_connected0 in Hq as [? Hq]. congruence. }
      intros q q' l' r' Hq Hq'. apply lookup_insert_Some in Hq as [[<- ?]|[? Hq]], Hq' as [[<- ?]|[? Hq']]; simplify_eq;
        [done|by exfalso; eapply Hnew|by exfalso; eapply Hnew|]. by eapply wf_unique0.
    + intros k qd H. destruct (decide ((l, r) = k)) as [<-|]; [rewrite lookup_insert_eq; by eexists|].
      rewrite lookup_insert_ne by done. by eapply wf_qds0.
  - intros k. cbn. destruct (decide ((l, r) = k)) as [<-|]; [by rewrite Hn0|]. rewrite lookup_insert_ne by done. apply G.
Qed.

Lemma good_qds i0 i k qd :
  good i0 i -> is_Some (in_established i !! k) -> good i0 (set_in_qds (<[k := qd]> (in_qds i)) i).
Proof.
  intros [W G] Hk. constructor; [|done]. destruct W. constructor; cbn; try done.
  intros k' qd' H. apply lookup_insert_Some in H as [[<- _]|[_ H]]; [done|]. by eapply wf_qds0.
Qed.

Lemma set_commute_accept i new_qd l r s :
  set_in_established (<[(l, r) := s]> (in_established i)) (set_in_qds (<[(l, r) := new_qd]> (in_qds i))
    (set_in_sockets (<[new_qd := Socket.Established l r]> (in_sockets i)) i)) =
  set_in_qds (<[(l, r) := new_qd]> (in_qds i)) (set_in_sockets (<[new_qd := Socket.Established l r]> (in_sockets i))
    (set_in_established (<[(l, r) := s]> (in_established i)) i)).
Proof. done. Qed.

Lemma tables_established i i' : tables i' = tables i -> in_established i' = in_established i.
Proof. unfold tables. by intros [= _ _ _ _ -> _]. Qed.

Lemma poll_accept_good i env qd new_qd : peer_wf i -> post i (TcpPeer.poll_accept env qd new_qd) (fun _ i' => good i i').
Proof.
  intros W. unfold TcpPeer.poll_accept. post_steps.
  destruct (in_sockets i !! qd) as [[lo|l|lo re|lo re|lo re]|] eqn:Eq; post_steps; auto.
  destruct (in_passive i !! l) as [p|] eqn:El; post_steps.
  apply post_call. intros [r p'] Ep. post_steps. destruct (poll_accept_listener l p r p' (wf_passive _ W _ _ El) Ep) as [Hp' Hcb].
  pose proof (good_passive i i l p' Hp' (good_refl i W)) as G1. set (i1 := set_in_passive _ i) in *.
  destruct r as [[cb|e]|]; post_steps; [|exact G1|exact G1].
  apply post_with_handles. intros s i2 Es E2. post_steps.
  destruct (Peer.close_active_migration (in_tcpmig i2) (remote cb)) as [mig buffered]. post_steps.
  match goal with |- post ?i3 _ _ => assert (E3 : tables i3 = tables i1) by exact E2; set (i3' := i3) in *; clearbody i3' end.
  assert (Hrep : post i3' (match buffered with Some buffered => replay env s buffered | None => mret s end)
    (fun s' i4 => established_at (l, remote cb) s' /\ tables i4 = tables i1)).
  { assert (Hs : established_at (l, remote cb) s) by (unfold established_at; rewrite Es; f_equal; by apply Hcb).
    destruct buffered as [b|]; [|by post_steps]. apply post_replay. intros s' i4 H1 H2 H3.
    split; [|congruence]. unfold established_at in *. congruence. }
  eapply post_mono; [exact Hrep|]. intros s' i4 [Hs' E4]. post_steps. apply post_enable_stats. intros i5 E5. post_steps.
  assert (G5 : good i i5) by (eapply (good_tables _ i1); [congruence|done]).
  assert (Ee : in_established i5 = in_established i) by (rewrite (tables_established i1 i5); [done|congruence]).
  assert (Hgo : post (set_in_sockets (<[new_qd := Socket.Established l (remote cb)]> (in_sockets i5)) i5)
    (match in_qds i5 !! (l, remote cb) with
     | None => update (fun i => set_in_qds (<[(l, remote cb) := new_qd]> (in_qds i)) i)
     | Some _ => panic "duplicate entry in qds table" end) (fun _ s1 => post s1
    (_ ← match in_established i5 !! (l, remote cb) with
         | None => update (fun i => set_in_established (<[(l, remote cb) := s']> (in_established i)) i)
         | Some _ => panic "duplicate queue descriptor in established sockets table" end;
     mret (Some (Ok new_qd))) (fun _ i' => good i i'))).
  { destruct (in_qds i5 !! _); post_steps. destruct (in_established i5 !! (l, remote cb)) eqn:Een; post_steps. cbn [in_qds set_in_sockets in_established set_in_qds].
    rewrite set_commute_accept. apply (good_qds i (set_in_sockets _ (set_in_established _ i5))).
    - apply good_connection_added; [done|by rewrite <- Ee|done|done].
    - cbn. rewrite lookup_insert_eq. by eexists. }
  destruct (in_sockets i5 !! new_qd) as [[]|]; post_steps; exact Hgo.
Qed.

Lemma poll_connect_finished_good i fd : peer_wf i -> post i (poll_connect_finished fd) (fun _ i' => good i i').
Proof.
  intros W. unfold poll_connect_finished. post_steps.
  destruct (in_sockets i !! fd) as [[lo|l|l r|l r|l r]|] eqn:Eq; post_steps; auto.
  destruct (in_connecting i !! (l, r)) as [s|] eqn:Es; post_steps; auto.
  pose proof (wf_connecting _ W _ _ Es) as [Hk Hr]. destruct (ActiveOpen.poll_result s) as [res s'] eqn:Epr.
  unfold ActiveOpen.poll_result in Epr. injection Epr as <- <-.
  destruct (ao_result s) as [[cb|e]|] eqn:Eres; post_steps.
  - apply post_with_handles. intros es i2 Ecb E2. destruct (in_established i !! (l, r)) eqn:Een; post_steps.
    assert (G2 : good i i2) by (eapply good_tables; [exact E2|]; by apply good_connecting_delete, good_refl).
    assert (Ee : in_established i2 = in_established i) by (by rewrite (tables_established _ _ E2)).
    apply (good_connection_added i i2); [done|done|by rewrite Ee|]. unfold established_at. rewrite Ecb. by apply Hr.
  - by apply good_connecting_delete, good_refl.
  - apply good_connecting; [|by apply good_refl]. by constructor.
Qed.

Lemma poll_recv_good i fd : peer_wf i -> post i (TcpPeer.poll_recv fd) (fun _ i' => acted (on_qd i fd OpPollRecv) i i').
Proof.
  intros W. unfold TcpPeer.poll_recv, on_qd, on_conn. post_steps.
  destruct (in_sockets i !! fd) as [[lo|l|l r|l r|l r]|] eqn:Eq; post_steps; auto.
  destruct (in_established i !! (l, r)) as [s|] eqn:Es; post_steps; auto.
  eapply (post_on_established i _ s _ OpPollRecv); [done|done|apply run_discard|]. intros a i' G. by post_steps.
Qed.

Lemma send_good i env fd buf : peer_wf i -> post i (TcpPeer.send env fd buf) (fun _ i' => acted (on_qd i fd (OpSend env buf)) i i').
Proof.
  intros W. unfold TcpPeer.send, on_qd, on_conn. post_steps.
  destruct (in_sockets i !! fd) as [[lo|l|l r|l r|l r]|] eqn:Eq; post_steps; auto.
  destruct (in_established i !! (l, r)) as [s|] eqn:Es; post_steps; auto.
  by eapply (post_on_established i _ s _ (OpSend env buf)); [done|done|apply run_discard|].
Qed.

Lemma do_close_good i env qd : peer_wf i -> post i (do_close env qd) (fun _ i' => acted (on_qd i qd (OpClose env)) i i').
Proof.
  intros W. unfold do_close, on_qd, on_conn. post_steps. pose proof (good_sockets_delete i i qd (good_refl i W)) as G1.
  destruct (in_sockets i !! qd) as [[lo|l|l r|l r|l r]|] eqn:Eq; post_steps; auto.
  destruct (in_established i !! (l, r)) as [s|] eqn:Es; post_steps; auto.
  eapply (post_on_established _ _ s _ (OpClose env)); [apply G1|done|apply run_discard|]. intros [a|e] i' G; post_steps.
  all: destruct G as [W' G]; by constructor.
Qed.

Lemma route_good i crc32 env ih h d : peer_wf i -> post i (route crc32 env ih h d) (fun _ i' => acted (on_packet i env ih h d) i i').
Proof.
  intros W. unfold route, on_packet, on_conn. post_steps. cbn [ip]. destruct (_ || _ || _); post_steps; auto.
  set (key := (_, _)). destruct (in_established i !! key) as [s|] eqn:Es; post_steps.
  { eapply (post_on_established i key s _ (OpReceive env h d)); [done|done|by intros [] ? ? ?|]. intros a i' G. by post_steps. }
  destruct (in_connecting i !! key) as [s|] eqn:Ec; post_steps.
  { apply post_call. intros [s' tx] E. post_steps. apply good_connecting; [|by apply good_refl].
    eapply active_receive_at; [|exact E]. by apply (wf_connecting _ W). }
  destruct (Peer.try_buffer_packet _ _ _ _) as [mig [[h' d']|]]; post_steps; [|by apply good_ext].
  destruct (in_passive i !! _) as [p|] eqn:Ep; post_steps.
  - apply post_call. intros [r p'] E. post_steps. apply (good_passive i (set_in_tcpmig mig i)); [|by apply good_ext].
    eapply receive_listener; [|exact E]. by apply (wf_passive _ W).
  - unfold send_rst. post_steps. destruct (arp_try_query _ _); post_steps; by apply good_ext.
Qed.

Definition on_bytes (i : Inner) (env : Env) (ip_hdr : Ipv4Header.t) (buf : list Z) : option (Conn * conn_op) :=
  match TcpHeader.parse ip_hdr buf (rx_checksum_offload (in_tcp_config i)) with
  | Ret (Ok (hdr, data)) => on_packet i env ip_hdr hdr data
  | _ => None
  end.

Lemma receive_good i crc32 env ih buf :
  peer_wf i -> post i (TcpPeer.receive crc32 env ih buf) (fun _ i' => acted (on_bytes i env ih buf) i i').
Proof.
  intros W. unfold TcpPeer.receive, on_bytes. post_steps. apply post_call.
  intros [[h d]|e] ->; [by apply route_good|by apply good_refl].
Qed.

(** ** Migration *)

Lemma post_initiate i conn : post i (initiate_migration_by_addr conn) (fun _ i' => tables i' = tables i).
Proof.
  unfold initiate_migration_by_addr. post_steps. destruct (in_qds i !! conn); post_steps.
  destruct (in_established i !! conn) as [s|] eqn:Es; post_steps. apply (post_disable_stats i conn s); [done|].
  intros i' E. post_steps. apply post_call. intros [mig tx] _. by post_steps.
Qed.

Lemma post_initiates conns : forall i, post i (initiate_migrations conns) (fun _ i' => tables i' = tables i).
Proof.
  induction conns as [|c conns IH]; intros i; cbn [initiate_migrations]; post_steps; [done|].
  eapply post_mono; [apply post_initiate|]. intros [] i1 E1. cbv beta. eapply post_mono; [apply IH|]. intros [] i2 E2. congruence.
Qed.

Lemma initiate_by_qd_good i qd : peer_wf i -> post i (initiate_migration_by_qd qd) (fun _ i' => good i i').
Proof.
  intros W. unfold initiate_migration_by_qd. post_steps.
  destruct (in_sockets i !! qd) as [[lo|l|l r|l r|l r]|] eqn:Eq; post_steps; auto.
  destruct (in_established i !! (l, r)) as [s|] eqn:Es; post_steps. apply (post_disable_stats i _ s); [done|].
  intros i' E. post_steps. apply post_call. intros [mig tx] _. post_steps. by apply good_ext.
Qed.

(** A connection leaves the tables. *)
Lemma migrated_out_wf i qd l r :
  peer_wf i -> in_sockets i !! qd = Some (Socket.Established l r) ->
  peer_wf (set_in_established (delete (l, r) (in_established i)) (set_in_qds (delete (l, r) (in_qds i))
            (set_in_sockets (<[qd := Socket.MigratedOut l r]> (in_sockets i)) i))).
Proof.
  intros [] Hqd. constructor; cbn; try done.
  - intros q l' H. apply lookup_insert_Some in H as [[<- ?]|[? H]]; [done|]. by eapply wf_listening0.
  - by apply map_Forall_delete.
  - intros q l' r' H. apply lookup_insert_Some in H as [[<- ?]|[Hne H]]; [done|].
    rewrite lookup_delete_ne; [by eapply wf_connected0|]. intros [= <- <-]. by apply Hne, (wf_unique0 _ _ l r).
  - intros q q' l' r' H1 H2. apply lookup_insert_Some in H1 as [[<- ?]|[? H1]]; [done|].
    apply lookup_insert_Some in H2 as [[<- ?]|[? H2]]; [done|]. by eapply wf_unique0.
  - intros k q [Hne H]%lookup_delete_Some. rewrite lookup_delete_ne by done. by eapply wf_qds0.
Qed.

Lemma moved_tables qd i i0 i1 i' : tables i0 = tables i -> tables i' = tables i1 -> moved qd i0 i1 -> moved qd i i'.
Proof.
  intros E0 E1 (W & l & r & H1 & H2 & H3 & H4). split; [by eapply wf_ext|]. exists l, r. unfold tables in *.
  injection E0 as E01 E02 _ _ E05 _. injection E1 as E11 E12 _ _ E15 _.
  by rewrite E11, E12, E15, <- E01, <- E02, <- E05.
Qed.

Lemma migrate_out_moved i qd : peer_wf i -> post i (migrate_out_connection qd) (fun _ i' => moved qd i i').
Proof.
  intros W. unfold migrate_out_connection. post_steps.
  destruct (in_sockets i !! qd) as [[lo|l|l r|l r|l r]|] eqn:Eq; post_steps.
  destruct (in_qds i !! (l, r)) eqn:Eqd; post_steps. destruct (in_established i !! (l, r)) as [s|] eqn:Es; post_steps.
  match goal with |- post ?i1 _ _ => assert (G : moved qd i i1) end.
  { split; [exact (migrated_out_wf i qd l r W Eq)|]. by exists l, r. }
  destruct (waker (es_cb s)); post_steps; apply post_call; intros [st cb'] _; post_steps; exact G.
Qed.

Lemma migrate_in_good i0 i st : good i0 i -> post i (migrate_in_connection st) (fun _ i' => good i0 i').
Proof.
  intros G. unfold migrate_in_connection. post_steps. set (cb := ControlBlock_from_state _ _ _ _).
  destruct (in_passive i !! local cb) as [p|] eqn:Ep; post_steps; [|done].
  apply post_call. intros p' E. post_steps. apply good_passive; [|done].
  eapply migrated_in_listener; [|done|exact E]. by apply (wf_passive _ (g_wf _ _ _ G)).
Qed.

Lemma send_tcp_state_tables i st : post i (TcpPeer.send_tcp_state st) (fun _ i' => tables i' = tables i).
Proof. unfold TcpPeer.send_tcp_state. post_steps. apply post_call. intros [mig tx] _. by post_steps. Qed.

Lemma migrate_out_and_send_moved i qd : peer_wf i -> post i (migrate_out_and_send qd) (fun _ i' => moved qd i i').
Proof.
  intros W. unfold migrate_out_and_send. post_steps. eapply post_mono; [by apply migrate_out_moved|].
  intros [st|e] i1 G1; [|apply post_panic]. eapply post_mono; [apply send_tcp_state_tables|]. intros [] i2 E.
  by apply (moved_tables qd i i i1 i2).
Qed.

(** The descriptor whose connection the answer of the migration protocol sends away. *)
Definition status_leaving (st : TcpmigReceiveStatus) : option Z :=
  match st with StPrepareMigrationAcked qd => Some qd | _ => None end.

Lemma act_on_status_stepped i0 i st :
  tables i = tables i0 -> peer_wf i0 -> post i (act_on_status st) (fun _ i' => stepped None (status_leaving st) i0 i').
Proof.
  intros E W. assert (G : good i0 i) by (by apply good_ext). assert (W' : peer_wf i) by apply G.
  unfold act_on_status. post_steps. destruct st; cbn [status_leaving stepped]; post_steps; try done.
  - destruct (in_established i !! _) as [s|]; post_steps. apply post_enable_stats. intros i' E'. post_steps.
    by apply (good_tables _ i).
  - eapply post_mono; [apply post_initiate|]. intros [] i' E'. post_steps. by apply (good_tables _ i).
  - set (i1 := set_in_poll_state _ i). assert (W1 : peer_wf i1) by (by apply (wf_ext i)).
    eapply post_mono; [by apply migrate_out_moved|]. intros [s|e] i2 G2.
    + post_steps. eapply post_mono; [apply send_tcp_state_tables|]. intros [] i3 E3. post_steps.
      by apply (moved_tables _ i0 i1 i2 i3).
    + by apply (moved_tables _ i0 i1 i2 i2).
  - by apply (migrate_in_good i0).
  - by apply (good_tables _ i).
Qed.

Definition message_leaving (i : Inner) (ip_hdr : Ipv4Header.t) (buf : Buffer.t) : option Z :=
  match Peer.receive (in_tcpmig i) ip_hdr buf with
  | Ret (Ok st, _, _) => status_leaving st
  | _ => None
  end.

Lemma receive_tcpmig_stepped i ih buf :
  peer_wf i -> post i (receive_tcpmig ih buf) (fun _ i' => stepped None (message_leaving i ih buf) i i').
Proof.
  intros W. unfold receive_tcpmig, message_leaving. post_steps. apply post_call. intros [[r mig] tx] ->. post_steps.
  destruct r as [st|e]; post_steps; [by apply act_on_status_stepped|by apply good_ext].
Qed.

(** ** Load *)

Lemma poll_stats_good i : peer_wf i -> post i poll_stats (fun _ i' => good i i').
Proof.
  intros W. unfold poll_stats. post_steps. apply post_call. intros [st σ] _. post_steps. apply post_call.
  intros [st' σ'] _. post_steps. by apply good_ext.
Qed.

Lemma proactive_tables i : post i TcpPeer.connections_to_proactively_migrate (fun _ i' => tables i' = tables i).
Proof.
  unfold TcpPeer.connections_to_proactively_migrate. post_steps. apply post_call. intros [r st] _. by post_steps.
Qed.

Lemma rps_signal_action_good i : peer_wf i -> post i rps_signal_action (fun _ i' => good i i').
Proof.
  intros W. unfold rps_signal_action. post_steps. destruct (in_last_rps_signal i) as [[sum ind]|]; post_steps; [|by apply good_refl].
  match goal with |- post ?i1 ?m _ => assert (Hm : post i1 m (fun _ i' => tables i' = tables i)) end.
  { destruct (_ && _); post_steps; [|done]. eapply post_mono; [apply proactive_tables|].
    intros [conns|] i2 E2; post_steps; [|done]. eapply post_mono; [apply post_initiates|]. intros [] i3 E3. by etrans; [exact E3|exact E2]. }
  eapply post_mono; [exact Hm|]. intros [] i2 E2. unfold reset_rps_stats. post_steps. by apply good_ext.
Qed.

(** ** Everything that happens to a peer *)

Inductive peer_event :=
| EvSocket (qd : Z)
| EvBind (qd : Z) (addr : SocketAddrV4)
| EvListen (nonce qd : Z) (backlog : nat)
| EvAccept (env : Env) (qd new_qd : Z)
| EvConnect (crc32 : list Z -> Z) (qd : Z) (remote : SocketAddrV4)
| EvConnectPoll (fd : Z)
| EvPop (fd : Z)
| EvPush (env : Env) (fd : Z) (buf : Buffer.t)
| EvClose (env : Env) (qd : Z)
| EvPacket (crc32 : list Z -> Z) (env : Env) (ip_hdr : Ipv4Header.t) (buf : list Z)
| EvTcpmig (ip_hdr : Ipv4Header.t) (buf : Buffer.t)
| EvMigrateByAddr (conn : Conn)
| EvMigrateByQd (qd : Z)
| EvMigrateOutAndSend (qd : Z)
| EvRegister (qd : Z) (state : AppState)
| EvMigratedState (deserialize : list Z -> AppState) (qd : Z)
| EvPollStats
| EvRpsSignal (buf : Buffer.t)
| EvRpsAction
| EvProactive
| EvReactive
| EvListenTask (now : Z) (arp : ArpAnswer) (local remote : SocketAddrV4)
| EvConnectTask (now : Z) (arp : ArpAnswer) (conn : Conn)
| EvConnectionTask (conn : Conn) (op : conn_op).

(** Turns of the background tasks of the sockets in the tables. *)
Definition listen_task (now : Z) (arp : ArpAnswer) (local remote : SocketAddrV4) : P unit :=
  i ← inner;
  match in_passive i !! local with
  | None => mret tt
  | Some p =>
      '(p, tx) ← call (Passive.background now arp remote p);
      _ ← update (fun i => set_in_passive (<[local := p]> (in_passive i)) i);
      perform_all (map TxTcp tx)
  end.

Definition connect_task (now : Z) (arp : ArpAnswer) (conn : Conn) : P unit :=
  i ← inner;
  match in_connecting i !! conn with
  | None => mret tt
  | Some s =>
      '(s, tx) ← call (ActiveOpen.background now arp s);
      _ ← update (fun i => set_in_connecting (<[conn := s]> (in_connecting i)) i);
      perform_all (map TxTcp tx)
  end.

Definition connection_task (conn : Conn) (op : conn_op) : P unit :=
  i ← inner;
  match in_established i !! conn with
  | None => mret tt
  | Some s => on_established conn s (conn_run op)
  end.

Definition peer_exec (ev : peer_event) : P unit :=
  match ev with
  | EvSocket qd => _ ← do_socket qd; mret tt
  | EvBind qd addr => _ ← TcpPeer.bind qd addr; mret tt
  | EvListen nonce qd backlog => _ ← listen nonce qd backlog; mret tt
  | EvAccept env qd new_qd => _ ← TcpPeer.poll_accept env qd new_qd; mret tt
  | EvConnect crc32 qd remote => _ ← connect crc32 qd remote; mret tt
  | EvConnectPoll fd => _ ← poll_connect_finished fd; mret tt
  | EvPop fd => _ ← TcpPeer.poll_recv fd; mret tt
  | EvPush env fd buf => _ ← push env fd buf; mret tt
  | EvClose env qd => _ ← do_close env qd; mret tt
  | EvPacket crc32 env ih buf => _ ← TcpPeer.receive crc32 env ih buf; mret tt
  | EvTcpmig ih buf => _ ← receive_tcpmig ih buf; mret tt
  | EvMigrateByAddr conn => initiate_migration_by_addr conn
  | EvMigrateByQd qd => _ ← initiate_migration_by_qd qd; mret tt
  | EvMigrateOutAndSend qd => migrate_out_and_send qd
  | EvRegister qd state => TcpPeer.register_application_state qd state
  | EvMigratedState deserialize qd => _ ← TcpPeer.get_migrated_application_state deserialize qd; mret tt
  | EvPollStats => poll_stats
  | EvRpsSignal buf => _ ← receive_rps_signal buf; mret tt
  | EvRpsAction => rps_signal_action
  | EvProactive => _ ← TcpPeer.connections_to_proactively_migrate; mret tt
  | EvReactive => _ ← TcpPeer.connections_to_reactively_migrate; mret tt
  | EvListenTask now arp local remote => listen_task now arp local remote
  | EvConnectTask now arp conn => connect_task now arp conn
  | EvConnectionTask conn op => connection_task conn op
  end.

Lemma post_ignore {A} i (m : P A) (Q : Inner -> Prop) : post i m (fun _ i' => Q i') -> post i (_ ← m; mret tt) (fun _ i' => Q i').
Proof. intros H. post_steps. eapply post_mono; [exact H|]. intros a i' HQ. by post_steps. Qed.

Lemma tasks_good i :
  peer_wf i ->
  (forall now arp l r, post i (listen_task now arp l r) (fun _ i' => good i i')) /\
  (forall now arp conn, post i (connect_task now arp conn) (fun _ i' => good i i')) /\
  (forall conn op, post i (connection_task conn op) (fun _ i' => acted (on_conn i conn op) i i')).
Proof.
  intros W. split; [|split].
  - intros now arp l r. unfold listen_task. post_steps. destruct (in_passive i !! l) as [p|] eqn:Ep; post_steps; [|by apply good_refl].
    apply post_call. intros [p' tx] E. post_steps. apply good_passive; [|by apply good_refl].
    eapply background_listener; [|exact E]. by apply (wf_passive _ W).
  - intros now arp conn. unfold connect_task. post_steps. destruct (in_connecting i !! conn) as [s|] eqn:Es; post_steps; [|by apply good_refl].
    apply post_call. intros [s' tx] E. post_steps. apply good_connecting; [|by apply good_refl].
    eapply active_background_at; [|exact E]. by apply (wf_connecting _ W).
  - intros conn op. unfold connection_task, on_conn. post_steps. destruct (in_established i !! conn) as [s|] eqn:Es; post_steps; [|by apply good_refl].
    by eapply (post_on_established i conn s _ op); [done|done|by intros [] ? ? ?|].
Qed.

Lemma app_state_tables i :
  (forall qd st, post i (TcpPeer.register_application_state qd st) (fun _ i' => tables i' = tables i)) /\
  (forall d qd, post i (TcpPeer.get_migrated_application_state d qd) (fun _ i' => tables i' = tables i)).
Proof.
  split.
  - intros qd st. unfold TcpPeer.register_application_state. post_steps.
    destruct (in_sockets i !! qd) as [[lo|l|l r|l r|l r]|]; by post_steps.
  - intros d qd. unfold TcpPeer.get_migrated_application_state. post_steps.
    destruct (in_sockets i !! qd) as [[lo|l|l r|l r|l r]|]; post_steps.
    destruct (Peer.get_migrated_application_state _ _ _). by post_steps.
Qed.

(** The operation of a connection that an event stands for, and the descriptor whose connection it
    sends away. *)
Definition target (ev : peer_event) (i : Inner) : option (Conn * conn_op) :=
  match ev with
  | EvPop fd => on_qd i fd OpPollRecv
  | EvPush env fd buf => on_qd i fd (OpSend env buf)
  | EvClose env qd => on_qd i qd (OpClose env)
  | EvPacket _ env ih buf => on_bytes i env ih buf
  | EvConnectionTask conn op => on_conn i conn op
  | _ => None
  end.

Definition leaving (ev : peer_event) (i : Inner) : option Z :=
  match ev with
  | EvMigrateOutAndSend qd => Some qd
  | EvTcpmig ih buf => message_leaving i ih buf
  | _ => None
  end.

Lemma peer_exec_stepped ev i : peer_wf i -> post i (peer_exec ev) (fun _ i' => stepped (target ev i) (leaving ev i) i i').
Proof.
  intros W. destruct (tasks_good i W) as (T1 & T2 & T3). destruct (app_state_tables i) as [A1 A2].
  assert (Htab : forall A (m : P A), post i m (fun _ i' => tables i' = tables i) -> post i m (fun _ i' => good i i')).
  { intros A m H. eapply post_mono; [exact H|]. intros a i' E. by apply good_ext. }
  destruct ev; cbn [peer_exec target leaving stepped]; try apply post_ignore;
    auto using do_socket_good, bind_good, listen_good, poll_accept_good, connect_good, poll_connect_finished_good,
      poll_recv_good, do_close_good, receive_good, receive_tcpmig_stepped, initiate_by_qd_good,
      migrate_out_and_send_moved, poll_stats_good, rps_signal_action_good, proactive_tables, post_initiate.
  - unfold push. post_steps. eapply post_mono; [by apply send_good|]. intros [a|e] i' G; by post_steps.
  - apply Htab. unfold receive_rps_signal. post_steps. apply post_call. intros s _. post_steps. apply post_call. intros d _. by post_steps.
  - apply Htab. unfold TcpPeer.connections_to_reactively_migrate. post_steps.
    destruct (in_reactive_migration_enabled i); post_steps; [|done].
    destruct (Stats.connections_to_reactively_migrate _). by post_steps.
Qed.

Lemma stepped_wf T leaving i i' : stepped T leaving i i' -> peer_wf i'.
Proof. destruct leaving; by intros []. Qed.

(** The states a peer can reach from its start. *)
Inductive peer_reach : Inner -> Prop :=
| peer_start mac addr cfg shuffle core_id nonce poll_state threshold mp mr min_threshold t e i :
    (forall l, shuffle l ≡ₚ l) -> (forall id, core_id = Some id -> 0 <= id /\ 9999 + id < FIRST_PRIVATE_PORT) ->
    TcpPeer_new mac addr cfg shuffle core_id nonce poll_state threshold mp mr min_threshold t e = Ok i -> peer_reach i
| peer_step ev i i' tr : peer_reach i -> peer_exec ev i [] = Ret (tt, i', tr) -> peer_reach i'.

Lemma peer_reach_wf i : peer_reach i -> peer_wf i.
Proof.
  induction 1 as [mac addr cfg shuffle core_id nonce ps th mp mr mt t e i Hs Hid E|ev i i' tr _ IH E].
  - injection E as <-. constructor; cbn; try done. by apply new_nodup.
  - exact (stepped_wf _ _ _ _ (peer_exec_stepped ev i IH [] tt i' tr E)).
Qed.

(** C9: The tables of the peer stay consistent, whatever socket calls, packets, migration messages,
    load signals and background turns happen, in any order: a listening descriptor has its
    listening socket, a connected descriptor has its connection and no other descriptor has it, the
    table of connections to migrate names existing connections, every entry is stored under its own
    endpoints, accept queues hold connections of their own address with distinct peers, and the pool
    of free ports has no duplicates. *)
Theorem peer_tables_consistent (i : Inner) : peer_reach i -> peer_wf i.
Proof. apply peer_reach_wf. Qed.

(** C10: Every event acts on the connection it is meant for and on no other. The connection is the
    one of the descriptor for a push, a pop and a close, the one of the packet's two endpoints for a
    packet that parses and whose sender is a host, the one named for a background turn; if it is in
    the table, its control block becomes exactly the result of that operation with the event's own
    arguments, and every other connection of the table is unchanged; events of the other kinds change
    no connection of the table. Only a migration removes a connection: the one of the descriptor the
    application gives or the migration protocol has acknowledged, which is then marked so, with all
    other connections untouched. *)
Theorem connections_change_by_their_operations (i i' : Inner) (ev : peer_event) (tr : list peer_effect) :
  peer_reach i -> peer_exec ev i [] = Ret (tt, i', tr) ->
  match leaving ev i with
  | None => forall k, evolves (asked (target ev i) k) (in_established i !! k) (in_established i' !! k)
  | Some qd => exists l r, in_sockets i !! qd = Some (Socket.Established l r) /\
      in_sockets i' = <[qd := Socket.MigratedOut l r]> (in_sockets i) /\
      in_established i' = delete (l, r) (in_established i) /\ in_qds i' = delete (l, r) (in_qds i)
  end.
Proof.
  intros W%peer_reach_wf E. pose proof (peer_exec_stepped ev i W [] tt i' tr E) as G. unfold stepped in G.
  destruct (leaving ev i); apply G.
Qed.

(** ** An example run *)

Definition demo_addr : SocketAddrV4 := mkAddr (Ipv4Addr_new 10 0 1 8) 10000.

Definition demo_peer : Inner :=
  Inner_new FRONTEND_MAC (Ipv4Addr_new 10 0 1 8) TcpConfig_default id None 7
    (Peer.new FRONTEND_MAC (Ipv4Addr_new 10 0 1 8)) (mkPollState None false) 2048 None None 100
    (F64.lit 11 20) (F64.lit 1 20).

Definition exec_or (ev : peer_event) (i : Inner) : Inner :=
  match peer_exec ev i [] with Ret (_, i', _) => i' | _ => i end.

Definition demo_listening : Inner :=
  exec_or (EvListen 9 1 16) (exec_or (EvBind 1 demo_addr) (exec_or (EvSocket 1) demo_peer)).

Lemma demo_step ev i :
  peer_reach i -> match peer_exec ev i [] with Ret _ => True | _ => False end -> peer_reach (exec_or ev i).
Proof.
  intros H E. unfold exec_or. destruct (peer_exec ev i []) as [[[[] i'] tr]| |] eqn:Ex; [|done|done]. by eapply peer_step.
Qed.

Lemma demo_listening_reach : peer_reach demo_listening.
Proof.
  do 3 (apply demo_step; [|exact I]).
  by apply (peer_start FRONTEND_MAC (Ipv4Addr_new 10 0 1 8) TcpConfig_default id None 7 (mkPollState None false)
    2048 None None 100 (F64.lit 11 20) (F64.lit 1 20)).
Qed.

Lemma peer_tables_consistent_witness :
  peer_wf demo_listening /\ in_sockets demo_listening !! 1 = Some (Socket.Listening demo_addr).
Proof. split; [apply (peer_tables_consistent _ demo_listening_reach)|reflexivity]. Defined.

(** Two connections accepted on the listening socket, from ports 201 and 202 of one client. *)
Definition demo_ip : Ipv4Header.t := Ipv4Header.new (Ipv4Addr_new 10 0 1 7) (Ipv4Addr_new 10 0 1 8) TCP.
Definition demo_env : Env := mkEnv 5 (fun _ => Some FRONTEND_MAC).
Definition demo_remote (port : Z) : SocketAddrV4 := mkAddr (Ipv4Addr_new 10 0 1 7) port.

Definition demo_packet (h : TcpHeader.t) (data : list Z) : peer_event :=
  EvPacket (fun _ => 0) demo_env demo_ip
    match TcpHeader.serialize h (replicate 20 0) demo_ip data false with Ret b => b ++ data | _ => [] end.

Definition demo_syn (port : Z) : TcpHeader.t :=
  TcpHeader.set_window_size (TcpHeader.set_syn (TcpHeader.new port 10000) true) 5000.
Definition demo_ack (port seq ack : Z) : TcpHeader.t :=
  TcpHeader.set_window_size (TcpHeader.set_ack (TcpHeader.set_seq_num (TcpHeader.new port 10000) seq) ack) 5000.

Definition exec_all (evs : list peer_event) (i : Inner) : Inner := fold_left (fun i ev => exec_or ev i) evs i.

Definition demo_connected : Inner :=
  exec_all [demo_packet (demo_syn 201) []; demo_packet (demo_ack 201 1 1) []; EvAccept demo_env 1 2;
            demo_packet (demo_syn 202) []; demo_packet (demo_ack 202 1 2) []; EvAccept demo_env 1 3] demo_listening.

Lemma demo_connected_reach : peer_reach demo_connected.
Proof.
  unfold demo_connected, exec_all. cbn [fold_left].
  do 6 (apply demo_step; [|exact I]). apply demo_listening_reach.
Qed.

(** Two bytes arrive on the connection from port 202: that connection has them, the other nothing. *)
Definition demo_data : peer_event := demo_packet (demo_ack 202 1 2) [104; 105].
Definition demo_after : Inner := exec_or demo_data demo_connected.
Definition received (i : Inner) (port : Z) : option (list Buffer.t) :=
  (fun s => recv_queue (receiver (es_cb s))) <$> in_established i !! (demo_addr, demo_remote port).

Lemma demo_exec ev i :
  match peer_exec ev i [] with Ret _ => True | _ => False end -> exists tr, peer_exec ev i [] = Ret (tt, exec_or ev i, tr).
Proof. unfold exec_or. destruct (peer_exec ev i []) as [[[[] i'] tr]| |]; [by exists tr|done|done]. Qed.

Lemma connections_change_by_their_operations_witness :
  (forall k, evolves (asked (target demo_data demo_connected) k) (in_established demo_connected !! k) (in_established demo_after !! k)) /\
  fst <$> target demo_data demo_connected = Some (demo_addr, demo_remote 202) /\
  received demo_after 202 = Some [[104; 105]] /\ received demo_after 201 = Some [].
Proof.
  destruct (demo_exec demo_data demo_connected I) as [tr E]. split; [|split; [reflexivity|split; reflexivity]].
  apply (connections_change_by_their_operations demo_connected demo_after demo_data tr demo_connected_reach E).
Defined.
