(* ===== verification/Icmp.v ===== *)
(** * ICMPv4
    (src/src/rust/inetstack/protocols/icmpv4/: datagram/protocol.rs, header.rs, message.rs, peer.rs)

    Messages, the peer that answers echo requests in a background task, and the coroutine of a ping.
    The unbounded channel of the futures crate is the class [Unbounded]; the identity of the process
    and the random nonce of an identifier are inputs.  The ARP peer is shared with the rest of the
    stack and passed in and out. *)

From S2P Require Import Prelude Buffer Net Packet TtlCache Arp.

(** ** Messages *)

Inductive Icmpv4Type2 :=
| EchoReply (id seq_num : Z)
| DestinationUnreachable
| SourceQuench
| RedirectMessage
| EchoRequest (id seq_num : Z)
| RouterAdvertisement
| RouterSolicitation
| TimeExceeded
| BadIpHeader
| Timestamp
| TimestampReply.

Module IcmpType.

Definition parse (type_byte : Z) (rest_of_header : list Z) : outcome (Result Icmpv4Type2) :=
  match type_byte with
  | 0 =>
      id ← read_u16 rest_of_header 0;
      seq_num ← read_u16 rest_of_header 2;
      Ret (Ok (EchoReply id seq_num))
  | 3 => Ret (Ok DestinationUnreachable)
  | 4 => Ret (Ok SourceQuench)
  | 5 => Ret (Ok RedirectMessage)
  | 8 =>
      id ← read_u16 rest_of_header 0;
      seq_num ← read_u16 rest_of_header 2;
      Ret (Ok (EchoRequest id seq_num))
  | 9 => Ret (Ok RouterAdvertisement)
  | 10 => Ret (Ok RouterSolicitation)
  | 11 => Ret (Ok TimeExceeded)
  | 12 => Ret (Ok BadIpHeader)
  | 13 => Ret (Ok Timestamp)
  | 14 => Ret (Ok TimestampReply)
  | _ => fail EBADMSG "invalid type byte"
  end.

Definition serialize (self : Icmpv4Type2) : Z * list Z :=
  let zero := [0; 0; 0; 0] in
  match self with
  | EchoReply id seq_num => (0, be16 id ++ be16 seq_num)
  | DestinationUnreachable => (3, zero)
  | SourceQuench => (4, zero)
  | RedirectMessage => (5, zero)
  | EchoRequest id seq_num => (8, be16 id ++ be16 seq_num)
  | RouterAdvertisement => (9, zero)
  | RouterSolicitation => (10, zero)
  | TimeExceeded => (11, zero)
  | BadIpHeader => (12, zero)
  | Timestamp => (13, zero)
  | TimestampReply => (14, zero)
  end.

End IcmpType.

Module Icmpv4Header.

Record t := new { protocol : Icmpv4Type2; code : Z }.

Definition ICMPV4_HEADER_SIZE : nat := 8.

Definition size (self : t) : nat := ICMPV4_HEADER_SIZE.

Definition checksum (buf body : list Z) : outcome Z :=
  w0 ← read_u16 buf 0;
  w2 ← read_u16 buf 4;
  w3 ← read_u16 buf 6;
  let state := wrap32 (wrap32 (wrap32 (0xffff + w0) + w2) + w3) in
  let state := add_chunks state body in
  state ← fold_ffff state;
  Ret (not_u16 state).

Definition parse (buf : Buffer.t) : outcome (Result (t * Buffer.t)) :=
  if Nat.ltb (length buf) ICMPV4_HEADER_SIZE then fail EBADMSG "ICMPv4 datagram too small for header" else
  hdr_buf ← slice buf 0 ICMPV4_HEADER_SIZE;
  type_byte ← index hdr_buf 0;
  code ← index hdr_buf 1;
  ck ← read_u16 hdr_buf 2;
  body ← slice_from buf ICMPV4_HEADER_SIZE;
  expected ← checksum hdr_buf body;
  if negb (ck =? expected) then fail EBADMSG "ICMPv4 checksum mismatch" else
  rest_of_header ← slice hdr_buf 4 8;
  icmpv4_type ←? IcmpType.parse type_byte rest_of_header;
  rest ← Buffer.adjust buf (Z.of_nat ICMPV4_HEADER_SIZE);
  Ret (Ok (new icmpv4_type code, rest)).

Definition serialize (self : t) (buf : list Z) : outcome (list Z) :=
  fixed ← slice buf 0 ICMPV4_HEADER_SIZE;
  let '(type_byte, rest_of_header) := IcmpType.serialize (protocol self) in
  fixed ← write_at fixed 0 [type_byte];
  fixed ← write_at fixed 1 [code self];
  fixed ← write_at fixed 4 rest_of_header;
  ck ← checksum fixed [];
  fixed ← write_at fixed 2 (be16 ck);
  write_at buf 0 fixed.

Definition get_protocol (self : t) : Icmpv4Type2 := protocol self.

End Icmpv4Header.

Module Icmpv4Message.

Record t := new { ethernet2_hdr : Ethernet2Header.t; ipv4_hdr : Ipv4Header.t; icmpv4_hdr : Icmpv4Header.t }.

Definition header_size (self : t) : nat :=
  Ethernet2Header.compute_size (ethernet2_hdr self) + Ipv4Header.compute_size (ipv4_hdr self) + Icmpv4Header.size (icmpv4_hdr self).

Definition write_header (self : t) (buf : list Z) : outcome (list Z) :=
  let eth_hdr_size := Ethernet2Header.compute_size (ethernet2_hdr self) in
  let ipv4_hdr_size := Ipv4Header.compute_size (ipv4_hdr self) in
  let icmpv4_hdr_size := Icmpv4Header.size (icmpv4_hdr self) in
  buf ← on_slice buf 0 eth_hdr_size (Ethernet2Header.serialize (ethernet2_hdr self));
  let cur_pos := eth_hdr_size in
  let ipv4_payload_len := Z.of_nat icmpv4_hdr_size in
  buf ← on_slice buf cur_pos ipv4_hdr_size (fun b => Ipv4Header.serialize (ipv4_hdr self) b ipv4_payload_len);
  let cur_pos := (cur_pos + ipv4_hdr_size)%nat in
  on_slice buf cur_pos icmpv4_hdr_size (Icmpv4Header.serialize (icmpv4_hdr self)).

End Icmpv4Message.

#[export] Instance icmp_packet : PacketBuf Icmpv4Message.t := {
  Packet.header_size := Icmpv4Message.header_size;
  Packet.write_header := Icmpv4Message.write_header;
  Packet.body_size := fun _ => 0%nat;
  Packet.take_body := fun _ => None;
}.

(** ** The peer *)

(** An unbounded channel with one receiving end. *)
Class Unbounded (T C : Type) := {
  unbounded : C;
  queued : C -> list T;
  unbounded_send : C -> T -> option C;
  next_message : C -> option (T * C);
}.

(** Messages come out in the order they were sent, and sending succeeds while the receiver lives. *)
Class UnboundedLaws (T C : Type) `{Unbounded T C} : Prop := {
  unbounded_new : queued unbounded = [];
  unbounded_send_some c x : exists c', unbounded_send c x = Some c' /\ queued c' = queued c ++ [x];
  next_message_none c : queued c = [] -> next_message c = None;
  next_message_some c x l : queued c = x :: l -> exists c', next_message c = Some (x, c') /\ queued c' = l;
}.

#[export] Instance list_unbounded T : Unbounded T (list T) := {
  unbounded := [];
  queued := id;
  unbounded_send c x := Some (c ++ [x]);
  next_message c := match c with x :: l => Some (x, l) | [] => None end;
}.

#[export] Instance list_unbounded_laws T : UnboundedLaws T (list T).
Proof. split; cbn; try done; [eauto|by intros c ->|intros c x l ->; eauto]. Qed.

(** A request to answer: the address, identifier and sequence number. *)
Abbreviation echo := (Ipv4Addr * Z * Z)%type (only parsing).

(** What the peer transmits. *)
Inductive icmp_tx := TxResolve (m : ArpMessage.t) | TxIcmp (m : Icmpv4Message.t).

Module Icmpv4Peer.

(** The background task waits for a request or resolves the address of one. *)
Inductive bg := Waiting | Replying (e : Ipv4Addr * Z * Z) (q : ArpPeer.query).

Section peer.
Context {C : Type} `{Unbounded (Ipv4Addr * Z * Z) C}.

(** The one-shot channels of the pings, which requests and coroutines share, are a store: a channel
    has received its message or not. *)
Record t := mk {
  local_link_addr : MacAddress;
  local_ipv4_addr : Ipv4Addr;
  tx : C;
  requests : gmap (Z * Z) Z;
  chans : gmap Z bool;
  next_chan : Z;
  seq : Z;
  background_task : bg;
}.

Definition set_tx v (p : t) : t := mk (local_link_addr p) (local_ipv4_addr p) v (requests p) (chans p) (next_chan p) (seq p) (background_task p).
Definition set_requests v c n (p : t) : t := mk (local_link_addr p) (local_ipv4_addr p) (tx p) v c n (seq p) (background_task p).
Definition set_seq v (p : t) : t := mk (local_link_addr p) (local_ipv4_addr p) (tx p) (requests p) (chans p) (next_chan p) v (background_task p).
Definition set_background v (p : t) : t := mk (local_link_addr p) (local_ipv4_addr p) (tx p) (requests p) (chans p) (next_chan p) (seq p) v.

Definition new (local_link_addr : MacAddress) (local_ipv4_addr : Ipv4Addr) : t :=
  mk local_link_addr local_ipv4_addr unbounded ∅ ∅ 0 0 Waiting.

Definition message (self : t) (dst_link_addr : MacAddress) (dst_ipv4_addr : Ipv4Addr) (p : Icmpv4Type2) : Icmpv4Message.t :=
  Icmpv4Message.new
    (Ethernet2Header.new dst_link_addr (local_link_addr self) EtIpv4)
    (Ipv4Header.new (local_ipv4_addr self) dst_ipv4_addr ICMPv4)
    (Icmpv4Header.new p 0).

(** One poll of the background task: it runs until it has to wait. *)
Fixpoint background (fuel : nat) (self : t) (arp : ArpPeer.t) (now : Z) (timer_first : nat -> bool) : outcome (t * ArpPeer.t * list icmp_tx) :=
  match fuel with
  | O => Diverge
  | S fuel =>
      match background_task self with
      | Waiting =>
          match next_message (tx self) with
          | None => Ret (self, arp, [])
          | Some (e, c) => background fuel (set_background (Replying e ArpPeer.QStart) (set_tx c self)) arp now timer_first
          end
      | Replying (dst_ipv4_addr, id, seq_num) q =>
          '(q, arp, ms) ← ArpPeer.poll_query arp now timer_first dst_ipv4_addr q;
          match q with
          | ArpPeer.QDone r =>
              let reply := match r with
                           | Ok dst_link_addr => [TxIcmp (message self dst_link_addr dst_ipv4_addr (EchoReply id seq_num))]
                           | Err _ => []
                           end in
              '(self, arp, txs) ← background fuel (set_background Waiting self) arp now timer_first;
              Ret (self, arp, map TxResolve ms ++ reply ++ txs)
          | q => Ret (set_background (Replying (dst_ipv4_addr, id, seq_num) q) self, arp, map TxResolve ms)
          end
      end
  end.

(** Two steps for each request that waits, one for the one in hand and one to find none. *)
Definition background_fuel (self : t) : nat := 2 * length (queued (tx self)) + 2.

Definition receive (self : t) (ipv4_header : Ipv4Header.t) (buf : Buffer.t) : outcome (Result unit * t) :=
  h ← Icmpv4Header.parse buf;
  match h with
  | Err e => Ret (Err e, self)
  | Ok (icmpv4_hdr, _) =>
      match Icmpv4Header.get_protocol icmpv4_hdr with
      | EchoRequest id seq_num =>
          match unbounded_send (tx self) (Ipv4Header.get_src_addr ipv4_header, id, seq_num) with
          | Some c => Ret (Ok tt, set_tx c self)
          | None => Panic "called `Result::unwrap()` on an `Err` value"
          end
      | EchoReply id seq_num =>
          match requests self !! (id, seq_num) with
          | Some ch => Ret (Ok tt, set_requests (delete (id, seq_num) (requests self)) (<[ch := true]> (chans self)) (next_chan self) self)
          | None => Ret (Ok tt, self)
          end
      | _ => Ret (Ok tt, self)
      end
  end.

(** The identifier: [pid] is the process's, [nonce] two random bytes. *)
Definition make_id (self : t) (pid : Z) (nonce : list Z) : outcome Z :=
  let addr_octets := octets (local_ipv4_addr self) in
  a0 ← read_u16 addr_octets 0;
  a1 ← read_u16 addr_octets 2;
  p0 ← read_u16 (be32 pid) 0;
  p1 ← read_u16 (be32 pid) 2;
  n0 ← read_u16 nonce 0;
  state ← fold_ffff (wrap32 (0xffff + a0 + a1 + p0 + p1 + n0));
  Ret (not_u16 state).

Definition make_seq_num (self : t) : Z * t := (seq self, set_seq (wrap16 (seq self + 1)) self).

(** The coroutine of a ping: not polled yet, resolving the address since the time it started,
    waiting for the reply until a deadline, finished. *)
Inductive progress :=
| PStart
| PResolving (t0 : Z) (q : ArpPeer.query)
| PWaiting (t0 ch deadline : Z)
| PDone (r : Result Z).

Record ping_future := mkPing { dst : Ipv4Addr; timeout : Z; echo_id : Z; echo_seq : Z; state : progress }.

Definition set_state v (f : ping_future) : ping_future := mkPing (dst f) (timeout f) (echo_id f) (echo_seq f) v.

Definition ping (self : t) (pid : Z) (nonce : list Z) (dst_ipv4_addr : Ipv4Addr) (timeout : option Z) : outcome (ping_future * t) :=
  let timeout := default (5000 * 1000000) timeout in
  id ← make_id self pid nonce;
  let '(seq_num, self) := make_seq_num self in
  Ret (mkPing dst_ipv4_addr timeout id seq_num PStart, self).

(** [rx.fuse().with_timeout(timer)] on a one-shot channel; the order of the two branches of
    [select!] is an input. *)
Definition with_timeout (received : bool) (now deadline : Z) (timer_first : bool) : option (Result unit) :=
  let response := if received then Some (Ok tt) else None in
  let timer := if deadline <=? now then Some (Err (mkFail ETIMEDOUT "timer expired")) else None in
  if timer_first then match timer with Some r => Some r | None => response end
  else match response with Some r => Some r | None => timer end.

Definition await_reply (self : t) (now t0 ch deadline : Z) (timer_first : bool) : progress :=
  match with_timeout (default false (chans self !! ch)) now deadline timer_first with
  | None => PWaiting t0 ch deadline
  | Some (Ok _) => PDone (Ok (now - t0))
  | Some (Err e) => PDone (Err e)
  end.

(** The messages transmitted are returned with the future. *)
Definition poll_ping (self : t) (arp : ArpPeer.t) (now : Z) (arp_timer_first : nat -> bool) (timer_first : bool) (f : ping_future) :
  outcome (ping_future * t * ArpPeer.t * list icmp_tx) :=
  let resolving t0 q :=
    '(q, arp, ms) ← ArpPeer.poll_query arp now arp_timer_first (dst f) q;
    match q with
    | ArpPeer.QDone (Ok dst_link_addr) =>
        let msg := message self dst_link_addr (dst f) (EchoRequest (echo_id f) (echo_seq f)) in
        match requests self !! (echo_id f, echo_seq f) with
        | Some _ => Panic "assertion failed: requests.borrow_mut().insert((id, seq_num), tx).is_none()"
        | None =>
            let ch := next_chan self in
            let self := set_requests (<[(echo_id f, echo_seq f) := ch]> (requests self)) (<[ch := false]> (chans self)) (ch + 1) self in
            Ret (set_state (await_reply self now t0 ch (now + timeout f) timer_first) f, self, arp, map TxResolve ms ++ [TxIcmp msg])
        end
    | ArpPeer.QDone (Err e) => Ret (set_state (PDone (Err e)) f, self, arp, map TxResolve ms)
    | q => Ret (set_state (PResolving t0 q) f, self, arp, map TxResolve ms)
    end in
  match state f with
  | PStart => resolving now ArpPeer.QStart
  | PResolving t0 q => resolving t0 q
  | PWaiting t0 ch deadline => Ret (set_state (await_reply self now t0 ch deadline timer_first) f, self, arp, [])
  | PDone _ => Panic "`async fn` resumed after completion"
  end.

End peer.
Arguments t C : clear implicits.
End Icmpv4Peer.
