(* ===== verification/IcmpSafety.v ===== *)
(** * A ping is answered
    (src/src/rust/inetstack/protocols/icmpv4/)

    Messages survive the wire, the parser is total, and a ping between two hosts that know each
    other's link addresses completes with the time it took. *)

From S2P Require Import Prelude Buffer Net Packet TtlCache Arp ArpSafety Icmp.

(** ** Messages as bytes *)

Definition type_wf (p : Icmpv4Type2) : Prop :=
  match p with
  | EchoReply id seq_num | EchoRequest id seq_num => u16_ok id /\ u16_ok seq_num
  | _ => True
  end.

Lemma icmp_checksum_defined hdr body : length hdr = 8%nat -> exists c, Icmpv4Header.checksum hdr body = Ret c /\ u16_ok c.
Proof.
  intros Hl. explode hdr Hl. unfold Icmpv4Header.checksum. run_bytes.
  match goal with |- context [fold_ffff ?e] => set (sum := e) end.
  destruct (fold_ffff_spec sum) as (r & -> & Hb & _); [apply add_chunks_ok, wrap32_ok|].
  eexists. split; [reflexivity|]. rewrite not_u16_eq by lia. unfold u16_ok. lia.
Qed.

(** The checksum does not look at its own field. *)
Lemma icmp_checksum_field b0 b1 b2 b3 b2' b3' b4 b5 b6 b7 body :
  Icmpv4Header.checksum [b0; b1; b2; b3; b4; b5; b6; b7] body = Icmpv4Header.checksum [b0; b1; b2'; b3'; b4; b5; b6; b7] body.
Proof. reflexivity. Qed.

Lemma type_roundtrip p : type_wf p -> length (IcmpType.serialize p).2 = 4%nat /\ IcmpType.parse (IcmpType.serialize p).1 (IcmpType.serialize p).2 = Ret (Ok p).
Proof.
  intros Hw. split; [by destruct p|]. destruct p as [i s| | | |i s| | | | | |]; try done; destruct Hw as [Hi Hs]; cbn [IcmpType.serialize fst snd IcmpType.parse];
    run_bytes; by rewrite !be16_get16'.
Qed.

Lemma icmp_serialize_parse h buf : length buf = 8%nat -> type_wf (Icmpv4Header.protocol h) ->
  exists bytes, Icmpv4Header.serialize h buf = Ret bytes /\ length bytes = 8%nat /\ Icmpv4Header.parse bytes = Ret (Ok (h, [])).
Proof.
  intros Hb Hw. destruct h as [p c]. cbn in Hw. destruct (type_roundtrip p Hw) as [Hl Hp]. unfold Icmpv4Header.serialize. cbn [Icmpv4Header.protocol Icmpv4Header.code].
  destruct (IcmpType.serialize p) as [ty rest]. cbn [fst snd] in *. explode buf Hb. explode rest Hl. unfold Icmpv4Header.ICMPV4_HEADER_SIZE. run_bytes.
  match goal with |- context [Icmpv4Header.checksum ?l []] => destruct (icmp_checksum_defined l [] eq_refl) as (ck & Hck & Hok) end. rewrite Hck. run_bytes.
  eexists. split; [reflexivity|]. split; [reflexivity|]. unfold Icmpv4Header.parse, Icmpv4Header.ICMPV4_HEADER_SIZE. cbn [length Nat.ltb Nat.leb]. run_bytes.
  rewrite be16_get16' by done. rewrite (icmp_checksum_field _ _ _ _ z1 z2), Hck. run_bytes. rewrite Z.eqb_refl. cbn [negb]. run_bytes. rewrite Hp. run_bytes. done.
Qed.

Lemma icmp_parse_total buf : exists r, Icmpv4Header.parse buf = Ret r.
Proof.
  unfold Icmpv4Header.parse, Icmpv4Header.ICMPV4_HEADER_SIZE. destruct (Nat.ltb_spec (length buf) 8) as [|Hl]; [by eexists|].
  assert (Hadj : Buffer.adjust buf 8 = Ret (drop 8 buf)) by (apply buffer_adjust_ok; unfold blen; lia). change (Z.of_nat 8) with 8. rewrite Hadj.
  rewrite <- (take_drop 8 buf). assert (Ht : length (take 8 buf) = 8%nat) by (rewrite length_take; lia).
  generalize dependent (take 8 buf). intros b Hb. generalize (drop 8 buf). intros rest. destruct (icmp_checksum_defined b rest Hb) as (ck & Hck & _).
  explode b Hb. run_bytes. rewrite ?take_0, ?drop_0, Hck. run_bytes. destruct (negb _); [by eexists|].
  assert (Htp : exists r, IcmpType.parse z [z3; z4; z5; z6] = Ret r) by (unfold IcmpType.parse; repeat case_match; by eexists).
  destruct Htp as [[t|e] ->]; by eexists.
Qed.

Lemma icmp_message_wire (m : Icmpv4Message.t) : length (Ethernet2Header.dst_addr (Icmpv4Message.ethernet2_hdr m)) = 6%nat ->
  length (Ethernet2Header.src_addr (Icmpv4Message.ethernet2_hdr m)) = 6%nat -> ipv4_wf (Icmpv4Message.ipv4_hdr m) ->
  type_wf (Icmpv4Header.protocol (Icmpv4Message.icmpv4_hdr m)) ->
  exists bytes ip_bytes ih payload, wire m = Ret bytes /\ Ethernet2Header.parse bytes = Ret (Ok (Icmpv4Message.ethernet2_hdr m, ip_bytes)) /\
    Ipv4Header.parse ip_bytes = Ret (Ok (ih, payload)) /\ Ipv4Header.get_src_addr ih = Ipv4Header.get_src_addr (Icmpv4Message.ipv4_hdr m) /\
    Ipv4Header.get_protocol ih = Ipv4Header.get_protocol (Icmpv4Message.ipv4_hdr m) /\
    Icmpv4Header.parse payload = Ret (Ok (Icmpv4Message.icmpv4_hdr m, [])).
Proof.
  intros Hd Hs Hwf Ht. set (ih := Icmpv4Message.ipv4_hdr m) in *.
  destruct (icmp_serialize_parse (Icmpv4Message.icmpv4_hdr m) (replicate 8 0) eq_refl Ht) as (cb & Hc & Hcl & Hcp).
  assert (Hlen : blen cb = 8) by (unfold blen; by rewrite Hcl).
  destruct (ipv4_serialize_bytes ih (replicate 20 0) (blen cb) eq_refl Hwf) as (ck & Hi & Hck & Hcs & _); [lia|lia|].
  set (ib := ipv4_bytes ih (20 + blen cb) ck) in *.
  pose proof (ipv4_parse_bytes ih cb [] ck Hwf ltac:(lia) Hck Hcs) as Hip. rewrite app_nil_r in Hip.
  destruct (ethernet2_serialize_parse _ (replicate 14 0) (ib ++ cb) eq_refl Hd Hs) as (eb & He & Hel & Hep).
  assert (Hil : length ib = 20%nat) by done. exists (eb ++ ib ++ cb), (ib ++ cb). do 2 eexists. split; [|split; [exact Hep|]; split; [exact Hip|]; done].
  unfold wire. cbn [Packet.header_size Packet.write_header Packet.take_body icmp_packet]. unfold Icmpv4Message.write_header, Icmpv4Message.header_size.
  change (Ethernet2Header.compute_size _ + Ipv4Header.compute_size _ + Icmpv4Header.size _)%nat with 42%nat.
  change (replicate 42 0) with ([] ++ replicate 14 0 ++ (replicate 20 0 ++ replicate 8 0)).
  rewrite (on_slice_mid [] (replicate 14 0) _ _ eb) by done. cbn [mbind outcome_bind app].
  rewrite (on_slice_mid eb (replicate 20 0) (replicate 8 0) _ ib); [|done|done|rewrite Hlen in Hi; exact Hi|done]. cbn [mbind outcome_bind].
  replace (eb ++ ib ++ replicate 8 0) with ((eb ++ ib) ++ replicate 8 0 ++ []) by (by rewrite app_nil_r, <- app_assoc).
  rewrite (on_slice_mid (eb ++ ib) (replicate 8 0) [] _ cb); [|by rewrite length_app, Hel, Hil|done|exact Hc|by rewrite Hcl].
  cbn [mbind outcome_bind default]. by rewrite !app_nil_r, <- app_assoc.
Qed.

(** ** Echo *)

Section echo.
Context {C : Type} `{UC : Unbounded (Ipv4Addr * Z * Z) C} `{!UnboundedLaws (Ipv4Addr * Z * Z) C}.
Import Icmpv4Peer.

(** A request received is queued; an idle background task that knows the address of its sender
    answers it at its next turn with the same identifier and sequence number. *)
Lemma request_is_answered (p : Icmpv4Peer.t C) a now tf iph buf id seq_num code m :
  background_task p = Waiting -> queued (tx p) = [] ->
  Icmpv4Header.parse buf = Ret (Ok (Icmpv4Header.new (EchoRequest id seq_num) code, [])) ->
  ArpCache.get (ArpPeer.cache a) (Ipv4Header.get_src_addr iph) = Some m ->
  exists p1 p2, receive p iph buf = Ret (Ok tt, p1) /\
    background (background_fuel p1) p1 a now tf = Ret (p2, a, [TxIcmp (message p m (Ipv4Header.get_src_addr iph) (EchoReply id seq_num))]) /\
    background_task p2 = Waiting /\ queued (tx p2) = [].
Proof.
  intros Hb Hq Hp Hm. unfold receive. rewrite Hp. cbn [mbind outcome_bind Icmpv4Header.get_protocol Icmpv4Header.protocol].
  destruct (unbounded_send_some (tx p) (Ipv4Header.get_src_addr iph, id, seq_num)) as (c & Hs & Hc). rewrite Hq in Hc. rewrite Hs.
  destruct (next_message_some c _ [] Hc) as (c' & Hn & Hc'). eexists _, _. split; [done|]. unfold background_fuel. cbn [tx set_tx]. rewrite Hc. change (2 * length _ + 2)%nat with 4%nat.
  cbn [background background_task set_tx tx]. rewrite Hb, Hn. cbn [background_task set_background]. cbn [ArpPeer.poll_query]. rewrite Hm. cbn [mbind outcome_bind background_task set_background tx set_tx].
  rewrite (next_message_none c' Hc'). cbn. split; [done|]. done.
Qed.

(** The reply ends the ping that waits for it, with the time since its first poll. *)
Lemma reply_ends_ping (p : Icmpv4Peer.t C) a now tf b iph buf code f t0 ch dl :
  requests p !! (echo_id f, echo_seq f) = Some ch -> state f = PWaiting t0 ch dl -> now < dl ->
  Icmpv4Header.parse buf = Ret (Ok (Icmpv4Header.new (EchoReply (echo_id f) (echo_seq f)) code, [])) ->
  exists p1, receive p iph buf = Ret (Ok tt, p1) /\ requests p1 !! (echo_id f, echo_seq f) = None /\
    poll_ping p1 a now tf b f = Ret (set_state (PDone (Ok (now - t0))) f, p1, a, []).
Proof.
  intros Hr Hs Hd Hp. unfold receive. rewrite Hp. cbn [mbind outcome_bind Icmpv4Header.get_protocol Icmpv4Header.protocol]. rewrite Hr. eexists. split; [done|].
  split; [cbn; apply lookup_delete_eq|]. unfold poll_ping. rewrite Hs. unfold await_reply. cbn [chans set_requests]. rewrite lookup_insert_eq. unfold with_timeout.
  rewrite (proj2 (Z.leb_gt _ _)) by lia. by destruct b.
Qed.

(** The first poll of a ping to a known address sends one request and waits. *)
Lemma ping_asks (p : Icmpv4Peer.t C) a now tf b f m : state f = PStart -> ArpCache.get (ArpPeer.cache a) (dst f) = Some m -> requests p !! (echo_id f, echo_seq f) = None -> 0 < timeout f ->
  exists p1, poll_ping p a now tf b f = Ret (set_state (PWaiting now (next_chan p) (now + timeout f)) f, p1, a, [TxIcmp (message p m (dst f) (EchoRequest (echo_id f) (echo_seq f)))]) /\
    requests p1 !! (echo_id f, echo_seq f) = Some (next_chan p).
Proof.
  intros Hs Hm Hr Ht. unfold poll_ping. rewrite Hs. cbn [ArpPeer.poll_query]. rewrite Hm. cbn [mbind outcome_bind]. rewrite Hr. eexists. unfold await_reply. cbn [chans set_requests]. rewrite lookup_insert_eq.
  unfold with_timeout. rewrite (proj2 (Z.leb_gt _ _)) by lia. split; [by destruct b|]. cbn. apply lookup_insert_eq.
Qed.

(** A ping between two hosts that know each other: the request crosses the wire, is answered, and
    the reply crosses back and ends the ping after exactly the time that passed. *)
Theorem ping_is_answered (p q : Icmpv4Peer.t C) (ap aq : ArpPeer.t) (tf tf' : nat -> bool) (b b' : bool) (t0 t1 t2 : Z) (f : ping_future) (mp mq : MacAddress) :
  state f = PStart -> requests p !! (echo_id f, echo_seq f) = None -> t2 < t0 + timeout f -> 0 < timeout f ->
  u16_ok (echo_id f) -> u16_ok (echo_seq f) ->
  length (local_link_addr p) = 6%nat -> length (local_link_addr q) = 6%nat -> length mp = 6%nat -> length mq = 6%nat ->
  u32_ok (local_ipv4_addr p) -> u32_ok (local_ipv4_addr q) -> dst f = local_ipv4_addr q ->
  ArpCache.get (ArpPeer.cache ap) (dst f) = Some mq -> ArpCache.get (ArpPeer.cache aq) (local_ipv4_addr p) = Some mp ->
  background_task q = Waiting -> queued (tx q) = [] ->
  exists p1 p2 q1 q2 req rep f1 bytes1 bytes2 iph1 iph2 pl1 pl2 eb1 eb2,
    poll_ping p ap t0 tf b f = Ret (f1, p1, ap, [TxIcmp req]) /\ wire req = Ret bytes1 /\
    Ethernet2Header.parse bytes1 = Ret (Ok (Icmpv4Message.ethernet2_hdr req, eb1)) /\ Ipv4Header.parse eb1 = Ret (Ok (iph1, pl1)) /\
    receive q iph1 pl1 = Ret (Ok tt, q1) /\ background (background_fuel q1) q1 aq t1 tf' = Ret (q2, aq, [TxIcmp rep]) /\ wire rep = Ret bytes2 /\
    Ethernet2Header.parse bytes2 = Ret (Ok (Icmpv4Message.ethernet2_hdr rep, eb2)) /\ Ipv4Header.parse eb2 = Ret (Ok (iph2, pl2)) /\
    receive p1 iph2 pl2 = Ret (Ok tt, p2) /\ poll_ping p2 ap t2 tf b' f1 = Ret (set_state (PDone (Ok (t2 - t0))) f, p2, ap, []).
Proof.
  intros Hs Hr Ht Htp Hid Hsq Hlp Hlq Hmp Hmq Hip Hiq Hdst Ham Haq Hbg Hqu.
  destruct (ping_asks p ap t0 tf b f mq Hs Ham Hr Htp) as (p1 & Hp1 & Hr1).
  set (req := message p mq (dst f) (EchoRequest (echo_id f) (echo_seq f))) in *.
  destruct (icmp_message_wire req) as (bytes1 & eb1 & iph1 & pl1 & Hw1 & He1 & Hi1 & Hsrc1 & _ & Hc1); [done|done|apply ipv4_new_wf; [done|by rewrite Hdst]|done|].
  destruct (request_is_answered q aq t1 tf' iph1 pl1 (echo_id f) (echo_seq f) 0 mp Hbg Hqu Hc1) as (q1 & q2 & Hrec & Hbk & _); [by rewrite Hsrc1|]. rewrite Hsrc1 in Hbk.
  change (Ipv4Header.get_src_addr (Icmpv4Message.ipv4_hdr req)) with (local_ipv4_addr p) in Hbk.
  set (rep := message q mp (local_ipv4_addr p) (EchoReply (echo_id f) (echo_seq f))) in *.
  destruct (icmp_message_wire rep) as (bytes2 & eb2 & iph2 & pl2 & Hw2 & He2 & Hi2 & _ & _ & Hc2); [done|done|by apply ipv4_new_wf|done|].
  set (f1 := set_state (PWaiting t0 (next_chan p) (t0 + timeout f)) f) in *.
  destruct (reply_ends_ping p1 ap t2 tf b' iph2 pl2 0 f1 t0 (next_chan p) (t0 + timeout f) Hr1 eq_refl Ht Hc2) as (p2 & Hrec2 & _ & Hdone).
  exists p1, p2, q1, q2, req, rep, f1, bytes1, bytes2, iph1, iph2, pl1, pl2, eb1, eb2. by split_and!.
Qed.

End echo.

(** A ping that timed out leaves its entry behind; a later one with the same identifier and
    sequence number panics. *)
Example stale_request_panics :
  let p := Icmpv4Peer.mk (C := list (Ipv4Addr * Z * Z)) ArpHost.mac1 ArpHost.ip1 [] {[(5, 6) := 0]} {[0 := false]} 1 6 Icmpv4Peer.Waiting in
  let a := ArpPeer.mk ArpHost.mac1 ArpHost.ip1 ArpHost.quick_config (ArpCache.mk (HashTtlCache.mk ∅ ∅ None 0) true) ∅ ∅ 0 in
  Icmpv4Peer.poll_ping p a 0 (fun _ => false) false (Icmpv4Peer.mkPing ArpHost.ip2 10 5 6 Icmpv4Peer.PStart) =
    Panic "assertion failed: requests.borrow_mut().insert((id, seq_num), tx).is_none()".
Proof. reflexivity. Qed.
