(* ===== verification/InetStack.v ===== *)
(** * The network stack
    (src/src/rust/inetstack/mod.rs, protocols/peer.rs, operations.rs, futures/operation/mod.rs,
    protocols/{tcp/operations.rs,udp/futures/operation.rs}, runtime/queue/)

    The stack owns the ARP, ICMPv4, TCP and UDP peers, the table of queue descriptors and the tasks
    of the scheduler.  Application calls are dispatched on the type of their descriptor, frames on
    their headers; an asynchronous call leaves a task whose token is waited for.

    The peers that tasks and stack share are fields of one state.  Which tasks a poll of the
    scheduler runs, in which order, what the device receives and what the clock reads are inputs of
    a turn ([turn]); the key of a new task is chosen by a parameter of which only freshness is used
    (the slab and the scheduler have files of their own).  The slab of the descriptor table is an
    external crate: the class [Slab]. *)

From S2P Require Import Prelude Buffer SeqNumber Net Packet TtlCache Arp TcpSegment TcpMigSegment Congestion Rto CtrlBlk Handshake MigState MigPeer.
From S2P Require Import Stats Ports TcpPeer PeerTables SharedQueue Udp Icmp.

(** ** Queue descriptors (runtime/queue/) *)

Class Slab (V S : Type) := {
  slab_new : S;
  slab_insert : S -> V -> Z * S;
  slab_get : S -> Z -> option V;
  slab_remove : S -> Z -> option (V * S);
  slab_contents : S -> gmap Z V;
}.

(** An insertion picks a vacant key. *)
Class SlabLaws (V S : Type) `{Slab V S} : Prop := {
  slab_new_empty : slab_contents slab_new = ∅;
  slab_insert_fresh s v : slab_contents s !! (slab_insert s v).1 = None;
  slab_insert_contents s v : slab_contents (slab_insert s v).2 = <[(slab_insert s v).1 := v]> (slab_contents s);
  slab_get_lookup s k : slab_get s k = slab_contents s !! k;
  slab_remove_some s k v : slab_contents s !! k = Some v -> exists s', slab_remove s k = Some (v, s') /\ slab_contents s' = delete k (slab_contents s);
}.

(** A slab as a finite map. *)
#[export] Instance map_slab V : Slab V (gmap Z V) := {
  slab_new := ∅;
  slab_insert m v := (fresh (dom m : gset Z), <[fresh (dom m : gset Z) := v]> m);
  slab_get m k := m !! k;
  slab_remove m k := match m !! k with Some v => Some (v, delete k m) | None => None end;
  slab_contents := id;
}.

#[export] Instance map_slab_laws V : SlabLaws V (gmap Z V).
Proof.
  split; cbn; try done.
  - intros m v. apply not_elem_of_dom, is_fresh.
  - intros m k v Hk. rewrite Hk. by eexists.
Qed.

Inductive QType := UdpSocket | TcpSocket.

Definition QType_to_u32 (value : QType) : Z := match value with UdpSocket => 1 | TcpSocket => 2 end.
Definition QType_try_from (value : Z) : option QType :=
  if value =? 1 then Some UdpSocket else if value =? 2 then Some TcpSocket else None.

Module IoQueueTable.
Section table.
Context {SL : Type} `{Slab Z SL}.

Definition new : SL := slab_new.
Definition alloc (self : SL) (qtype : Z) : Z * SL := slab_insert self qtype.
Definition get (self : SL) (qd : Z) : option Z :=
  match slab_get self qd with
  | None => None
  | Some _ => slab_get self qd
  end.
Definition free (self : SL) (qd : Z) : option Z * SL :=
  match slab_get self qd with
  | None => (None, self)
  | Some _ =>
      match slab_remove self qd with
      | Some (v, self) => (Some v, self)
      | None => (None, self)
      end
  end.

End table.
End IoQueueTable.

(** ** Operations *)

Inductive OperationResult :=
| Connect
| Accept (qd : Z)
| Push
| Pop (addr : option SocketAddrV4) (bytes : Buffer.t)
| Failed (e : Fail).

(** A future and its result once it is done. *)
Record Future (F R : Type) := mkFuture { fut : F; fut_done : option (Result R) }.
Arguments mkFuture {F R} fut fut_done.
Arguments fut {F R} f.
Arguments fut_done {F R} f.

(** The futures of the TCP operations: an accept with the descriptor it waits on and the one booked for
    the connection, a connect, a pop, a push with its error. *)
Inductive TcpOperation :=
| TcpAccept (f : Future (Z * Z) Z)
| TcpConnect (f : Future Z unit)
| TcpPush (f : Future (Z * option Fail) unit)
| TcpPop (f : Future Z Buffer.t).

Inductive UdpOperation :=
| UdpPushto (qd : Z) (r : Result unit)
| UdpPop (f : Future UdpPeer.UdpPopFuture (SocketAddrV4 * Buffer.t)).

(** The background tasks of the peers: the one of ARP waits for a time. *)
Inductive BackgroundTask := ArpBackground (until : Z) | UdpBackground | IcmpBackground.

Inductive FutureOperation :=
| Tcp (f : TcpOperation)
| Udp (f : UdpOperation)
| Background (f : BackgroundTask).

Definition result_of {R} (ok : R -> OperationResult) (r : Result R) : OperationResult :=
  match r with Ok x => ok x | Err e => Failed e end.

(** [TcpOperation::expect_result] *)
Definition expect_result (self : TcpOperation) : outcome (Z * option Z * OperationResult) :=
  match self with
  | TcpConnect (mkFuture fd (Some r)) => Ret (fd, None, result_of (fun _ => Connect) r)
  | TcpAccept (mkFuture (qd, new_qd) (Some r)) => Ret (qd, Some new_qd, result_of Accept r)
  | TcpPush (mkFuture (fd, _) (Some r)) => Ret (fd, None, result_of (fun _ => Push) r)
  | TcpPop (mkFuture fd (Some r)) => Ret (fd, None, result_of (Pop None) r)
  | _ => Panic "Future not ready"
  end.

(** [UdpOperation::get_result] *)
Definition get_result (self : UdpOperation) : outcome (Z * OperationResult) :=
  match self with
  | UdpPushto fd r => Ret (fd, result_of (fun _ => Push) r)
  | UdpPop (mkFuture future (Some r)) => Ret (UdpPeer.qd future, result_of (fun x => Pop (Some x.1) x.2) r)
  | _ => Panic "UDP Operation not ready"
  end.

(** A task of the scheduler. *)
Record task := mkTask { op : FutureOperation; completed : bool }.

(** What the stack hands to the device. *)
Inductive frame :=
| FArp (m : ArpMessage.t)
| FIcmp (m : Icmpv4Message.t)
| FUdp (d : UdpDatagram.t)
| FTcp (segment : TcpSegment)
| FMig (segment : TcpMigSegment).

Definition frame_of_tx (x : tx) : frame := match x with TxArp m => FArp m | TxUdp d => FUdp d end.
Definition frame_of_icmp (x : icmp_tx) : frame := match x with TxResolve m => FArp m | TxIcmp m => FIcmp m end.
Definition frames_of_tcp (l : list peer_effect) : list frame :=
  omap (fun e => match e with TxTcp s => Some (FTcp s) | TxMig s => Some (FMig s) | WakeTask => None end) l.

(** What a poll of the scheduler runs: a task of the table, or a background task of a socket of
    the TCP peer (a listening socket, one that connects, an established connection). *)
Inductive poll_item :=
| PollTask (key : Z)
| PollListen (arp : ArpAnswer) (local remote : SocketAddrV4)
| PollConnect (arp : ArpAnswer) (conn : Conn)
| PollConnection (conn : Conn) (op : conn_op).

(** The inputs of one [poll_bg_work]: the batches the device returns, the tasks the scheduler polls,
    the order in which the two branches of a [select!] are polled, the time, and whether the
    deadline of the caller has passed. *)
Record turn := mkTurn {
  batches : list (list Buffer.t);
  order : list poll_item;
  timer_first : nat -> bool;
  instant : Z;
  expired : bool;
}.

(** ** The stack *)

Definition AF_INET : Z := 2.
Definition SOCK_STREAM : Z := 1.
Definition SOCK_DGRAM : Z := 2.

Module InetStack.

Definition TIMER_RESOLUTION : Z := 64.
Definition MAX_RECV_ITERS : nat := 2.

Section stack.
Context {C CI SL : Type} `{Mpsc Slot C} `{Unbounded (Ipv4Addr * Z * Z) CI} `{Slab Z SL}.
Variable new_key : gmap Z task -> option Z.
Variable crc32 : list Z -> Z.

Record t := mk {
  arp : ArpPeer.t;
  icmpv4 : Icmpv4Peer.t CI;
  tcp : Inner;
  udp : UdpPeer.t C;
  file_table : SL;
  tasks : gmap Z task;
  clock : Z;
  ts_iters : Z;
  migrated_qds : gset Z;
}.

Definition set_arp v (s : t) := mk v (icmpv4 s) (tcp s) (udp s) (file_table s) (tasks s) (clock s) (ts_iters s) (migrated_qds s).
Definition set_icmpv4 v (s : t) := mk (arp s) v (tcp s) (udp s) (file_table s) (tasks s) (clock s) (ts_iters s) (migrated_qds s).
Definition set_tcp v (s : t) := mk (arp s) (icmpv4 s) v (udp s) (file_table s) (tasks s) (clock s) (ts_iters s) (migrated_qds s).
Definition set_udp v (s : t) := mk (arp s) (icmpv4 s) (tcp s) v (file_table s) (tasks s) (clock s) (ts_iters s) (migrated_qds s).
Definition set_file_table v (s : t) := mk (arp s) (icmpv4 s) (tcp s) (udp s) v (tasks s) (clock s) (ts_iters s) (migrated_qds s).
Definition set_tasks v (s : t) := mk (arp s) (icmpv4 s) (tcp s) (udp s) (file_table s) v (clock s) (ts_iters s) (migrated_qds s).
Definition set_clock v n (s : t) := mk (arp s) (icmpv4 s) (tcp s) (udp s) (file_table s) (tasks s) v n (migrated_qds s).
Definition set_migrated_qds v (s : t) := mk (arp s) (icmpv4 s) (tcp s) (udp s) (file_table s) (tasks s) (clock s) (ts_iters s) v.

(** A computation on the stack that may panic and transmits frames. *)
Definition S (A : Type) : Type := t -> list frame -> outcome (A * t * list frame).

#[export] Instance S_ret : MRet S := fun A a s tr => Ret (a, s, tr).
#[export] Instance S_bind : MBind S := fun A B k m s tr =>
  match m s tr with
  | Ret (a, s', tr') => k a s' tr'
  | Panic msg => Panic msg
  | Diverge => Diverge
  end.

Definition get : S t := fun s tr => Ret (s, s, tr).
Definition modify (f : t -> t) : S unit := fun s tr => Ret (tt, f s, tr).
Definition transmit (l : list frame) : S unit := fun s tr => Ret (tt, s, tr ++ l).
Definition lift {A} (o : outcome A) : S A := fun s tr =>
  match o with Ret a => Ret (a, s, tr) | Panic msg => Panic msg | Diverge => Diverge end.
Definition failing {A} (errno : Z) (cause : string) : S (Result A) := mret (Err (mkFail errno cause)).

(** A call on the TCP peer; the clock and the ARP cache are its environment. *)
Definition env (s : t) : Env := mkEnv (clock s) (ArpPeer.try_query (arp s)).
Definition on_tcp {A} (m : P A) : S A := fun s tr =>
  match m (tcp s) [] with
  | Ret (a, i, es) => Ret (a, set_tcp i s, tr ++ frames_of_tcp es)
  | Panic msg => Panic msg
  | Diverge => Diverge
  end.

(** [scheduler.insert] *)
Definition schedule (f : FutureOperation) : S (option Z) := fun s tr =>
  match new_key (tasks s) with
  | Some k => Ret (Some k, set_tasks (<[k := mkTask f false]> (tasks s)) s, tr)
  | None => Ret (None, s, tr)
  end.

Definition alloc_qd (ty : QType) : S Z := fun s tr =>
  let '(qd, ft) := IoQueueTable.alloc (file_table s) (QType_to_u32 ty) in Ret (qd, set_file_table ft s, tr).
Definition free_qd (qd : Z) : S unit := modify (fun s => set_file_table (IoQueueTable.free (file_table s) qd).2 s).

(** [match self.file_table.get(qd) { Some(qtype) => match QType::try_from(qtype) .. }] *)
Definition with_type {A} (qd : Z) (k : QType -> S (Result A)) : S (Result A) :=
  s ← get;
  match IoQueueTable.get (file_table s) qd with
  | Some qtype =>
      match QType_try_from qtype with
      | Some ty => k ty
      | None => failing EINVAL "invalid queue type"
      end
  | None => failing EBADF "bad queue descriptor"
  end.

Definition only {A} (want : QType) (m : S (Result A)) (ty : QType) : S (Result A) :=
  match want, ty with
  | UdpSocket, UdpSocket | TcpSocket, TcpSocket => m
  | _, _ => failing EINVAL "invalid queue type"
  end.

(** [match self.scheduler.insert(future) { Some(handle) => .., None => EAGAIN }] *)
Definition issue (f : FutureOperation) : S (Result Z) :=
  k ← schedule f;
  match k with
  | Some k => mret (Ok k)
  | None => failing EAGAIN "cannot schedule co-routine"
  end.

(** *** Calls of the application *)

Definition socket (domain socket_type : Z) : S (Result Z) :=
  if negb (domain =? AF_INET) then failing ENOTSUP "address family not supported" else
  if socket_type =? SOCK_STREAM then
    qd ← alloc_qd TcpSocket;
    r ← on_tcp (TcpPeer.do_socket qd);
    match r with
    | Err e => _ ← free_qd qd; mret (Err e)
    | Ok _ => mret (Ok qd)
    end
  else if socket_type =? SOCK_DGRAM then
    qd ← alloc_qd UdpSocket;
    s ← get;
    let '(r, u) := UdpPeer.do_socket (udp s) qd in
    _ ← modify (set_udp u);
    match r with
    | Err e => _ ← free_qd qd; mret (Err e)
    | Ok _ => mret (Ok qd)
    end
  else failing ENOTSUP "socket type not supported".

Definition bind (qd : Z) (local : SocketAddrV4) : S (Result unit) :=
  with_type qd (fun ty =>
    match ty with
    | TcpSocket => on_tcp (TcpPeer.bind qd local)
    | UdpSocket =>
        s ← get;
        let '(r, u) := UdpPeer.do_bind (udp s) qd local in
        _ ← modify (set_udp u);
        mret r
    end).

(** [nonce]: the random number the listening socket draws. *)
Definition listen (nonce qd : Z) (backlog : nat) : S (Result unit) :=
  if Nat.eqb backlog 0 then failing EINVAL "invalid backlog length" else
  with_type qd (only TcpSocket (on_tcp (TcpPeer.listen nonce qd backlog))).

(** The descriptor of the connection: one whose connection was migrated away, else a new one;
    which of several is taken ([HashSet] order) is the first of the set here. *)
Definition book_qd : S Z :=
  s ← get;
  match elements (migrated_qds s) with
  | new_qd :: _ => _ ← modify (fun s => set_migrated_qds (migrated_qds s ∖ {[new_qd]}) s); mret new_qd
  | [] => alloc_qd TcpSocket
  end.

Definition accept (qd : Z) : S (Result Z) :=
  with_type qd (only TcpSocket (
    new_qd ← book_qd;
    k ← schedule (Tcp (TcpAccept (mkFuture (qd, new_qd) None)));
    match k with
    | Some k => mret (Ok k)
    | None => _ ← free_qd new_qd; failing EAGAIN "cannot schedule co-routine"
    end)).

Definition connect (qd : Z) (remote : SocketAddrV4) : S (Result Z) :=
  with_type qd (only TcpSocket (
    r ← on_tcp (TcpPeer.connect crc32 qd remote);
    match r with
    | Ok fd => issue (Tcp (TcpConnect (mkFuture fd None)))
    | Err e => mret (Err e)
    end)).

Definition close (qd : Z) : S (Result unit) :=
  r ← with_type qd (fun ty =>
    match ty with
    | TcpSocket => s ← get; on_tcp (TcpPeer.do_close (env s) qd)
    | UdpSocket =>
        s ← get;
        let '(r, u) := UdpPeer.do_close (udp s) qd in
        _ ← modify (set_udp u);
        mret r
    end);
  match r with
  | Ok _ => _ ← free_qd qd; mret (Ok tt)
  | Err e => mret (Err e)
  end.

Definition do_push (qd : Z) (buf : Buffer.t) : S (Result FutureOperation) :=
  with_type qd (only TcpSocket (
    s ← get;
    f ← on_tcp (TcpPeer.push (env s) qd buf);
    mret (Ok (Tcp (TcpPush (mkFuture f None)))))).

Definition push2 (qd : Z) (data : list Z) : S (Result Z) :=
  if Nat.eqb (length data) 0 then failing EINVAL "zero-length buffer" else
  r ← do_push qd data;
  match r with
  | Ok future => issue future
  | Err e => mret (Err e)
  end.

Definition do_pushto (qd : Z) (buf : Buffer.t) (to : SocketAddrV4) : S (Result FutureOperation) :=
  with_type qd (only UdpSocket (
    s ← get;
    '(r, u, txs) ← lift (UdpPeer.do_pushto (udp s) (arp s) qd buf to);
    _ ← modify (set_udp u);
    _ ← transmit (map frame_of_tx txs);
    mret (Ok (Udp (UdpPushto qd r))))).

Definition pushto2 (qd : Z) (data : list Z) (remote : SocketAddrV4) : S (Result Z) :=
  if Nat.eqb (length data) 0 then failing EINVAL "zero-length buffer" else
  r ← do_pushto qd data remote;
  match r with
  | Ok future => issue future
  | Err e => mret (Err e)
  end.

Definition pop (qd : Z) : S (Result Z) :=
  with_type qd (fun ty =>
    match ty with
    | TcpSocket => issue (Tcp (TcpPop (mkFuture qd None)))
    | UdpSocket =>
        s ← get;
        f ← lift (UdpPeer.do_pop (udp s) qd);
        issue (Udp (UdpPop (mkFuture f None)))
    end).

(** *** Polls of the tasks *)

(** [FutureResult::poll] around the poll of a future; [true] when it is ready. *)
Definition poll_future {F R} (f : Future F R) (m : F -> S (option (Result R) * F)) : S (Future F R * bool) :=
  match fut_done f with
  | Some _ => lift (Panic "future polled after completion")
  | None => '(r, x) ← m (fut f); mret (mkFuture x r, match r with Some _ => true | None => false end)
  end.

Definition poll_tcp_operation (f : TcpOperation) : S (TcpOperation * bool) :=
  s ← get;
  match f with
  | TcpAccept f => '(f, b) ← poll_future f (fun x => r ← on_tcp (TcpPeer.poll_accept (env s) x.1 x.2); mret (r, x)); mret (TcpAccept f, b)
  | TcpConnect f => '(f, b) ← poll_future f (fun x => r ← on_tcp (poll_connect_finished x); mret (r, x)); mret (TcpConnect f, b)
  | TcpPush f => '(f, b) ← poll_future f (fun x => let '(r, x) := push_future_poll x in mret (Some r, x)); mret (TcpPush f, b)
  | TcpPop f => '(f, b) ← poll_future f (fun x => r ← on_tcp (poll_recv x); mret (r, x)); mret (TcpPop f, b)
  end.

Definition poll_udp_operation (f : UdpOperation) : S (UdpOperation * bool) :=
  match f with
  | UdpPushto _ _ => mret (f, true)
  | UdpPop f =>
      '(f, b) ← poll_future f (fun x =>
        s ← get;
        '(r, u) ← lift (UdpPeer.poll_pop_future (udp s) x);
        _ ← modify (set_udp u);
        mret (Ok <$> r, x));
      mret (UdpPop f, b)
  end.

Definition poll_background (tf : nat -> bool) (f : BackgroundTask) : S BackgroundTask :=
  s ← get;
  match f with
  | ArpBackground until =>
      if until <=? clock s then
        a ← lift (ArpPeer.background (arp s) (clock s));
        _ ← modify (set_arp a);
        mret (ArpBackground (clock s + 1000000000))
      else mret f
  | UdpBackground =>
      '(u, a, txs) ← lift (UdpPeer.background_sender (UdpPeer.background_fuel (udp s)) (udp s) (arp s) (clock s) tf);
      _ ← modify (fun s => set_udp u (set_arp a s));
      _ ← transmit (map frame_of_tx txs);
      mret f
  | IcmpBackground =>
      '(p, a, txs) ← lift (Icmpv4Peer.background (Icmpv4Peer.background_fuel (icmpv4 s)) (icmpv4 s) (arp s) (clock s) tf);
      _ ← modify (fun s => set_icmpv4 p (set_arp a s));
      _ ← transmit (map frame_of_icmp txs);
      mret f
  end.

(** [FutureOperation::poll] *)
Definition poll_operation (tf : nat -> bool) (f : FutureOperation) : S (FutureOperation * bool) :=
  match f with
  | Tcp f => '(f, b) ← poll_tcp_operation f; mret (Tcp f, b)
  | Udp f => '(f, b) ← poll_udp_operation f; mret (Udp f, b)
  | Background f => f ← poll_background tf f; mret (Background f, false)
  end.

(** The scheduler polls a task that has not completed. *)
Definition poll_item_ (tf : nat -> bool) (i : poll_item) : S unit :=
  s ← get;
  match i with
  | PollTask key =>
      match tasks s !! key with
      | Some (mkTask f false) =>
          '(f, b) ← poll_operation tf f;
          modify (fun s => set_tasks (<[key := mkTask f b]> (tasks s)) s)
      | _ => mret tt
      end
  | PollListen arp local remote => on_tcp (listen_task (clock s) arp local remote)
  | PollConnect arp conn => on_tcp (connect_task (clock s) arp conn)
  | PollConnection conn op => on_tcp (connection_task conn op)
  end.

Fixpoint scheduler_poll (tf : nat -> bool) (l : list poll_item) : S unit :=
  match l with
  | [] => mret tt
  | i :: l => _ ← poll_item_ tf i; scheduler_poll tf l
  end.

(** *** Frames from the device *)

(** [Peer::receive] (protocols/peer.rs) *)
Definition ipv4_receive (buf : Buffer.t) : S (Result unit) :=
  h ← lift (Ipv4Header.parse buf);
  match h with
  | Err e => mret (Err e)
  | Ok (header, payload) =>
      s ← get;
      match Ipv4Header.get_protocol header with
      | ICMPv4 =>
          '(r, p) ← lift (Icmpv4Peer.receive (icmpv4 s) header payload);
          _ ← modify (set_icmpv4 p);
          mret r
      | TCP => on_tcp (TcpPeer.receive crc32 (env s) header payload)
      | UDP =>
          mig ← lift (TcpMigHeader.is_tcpmig payload);
          if (mig : bool) then on_tcp (receive_tcpmig header payload) else
          rps ← lift (TcpMigHeader.is_rps_signal payload);
          if (rps : bool) then on_tcp (receive_rps_signal payload) else
          '(r, u) ← lift (UdpPeer.do_receive (udp s) header payload);
          _ ← modify (set_udp u);
          mret r
      end
  end.

Definition do_receive (bytes : Buffer.t) : S (Result unit) :=
  h ← lift (Ethernet2Header.parse bytes);
  match h with
  | Err e => mret (Err e)
  | Ok (header, payload) =>
      match Ethernet2Header.ether_type header with
      | EtArp =>
          s ← get;
          '(r, a, ms) ← lift (ArpPeer.receive (arp s) payload);
          _ ← modify (set_arp a);
          _ ← transmit (map FArp ms);
          mret r
      | EtIpv4 => ipv4_receive payload
      | EtIpv6 => mret (Ok tt)
      end
  end.

(** A frame that is refused is dropped. *)
Fixpoint receive_batch (batch : list Buffer.t) : S unit :=
  match batch with
  | [] => mret tt
  | pkt :: batch => _ ← do_receive pkt; receive_batch batch
  end.

(** At most so many batches, until one is empty; what was not read is returned. *)
Fixpoint poll_runtime_no_scheduler_poll (iters : nat) (rx : list (list Buffer.t)) : S (list (list Buffer.t)) :=
  match iters with
  | O => mret rx
  | Datatypes.S iters =>
      match rx with
      | [] => mret []
      | [] :: rx => mret rx
      | batch :: rx => _ ← receive_batch batch; poll_runtime_no_scheduler_poll iters rx
      end
  end.

(** With a poll of the scheduler after every frame: each frame comes with the tasks polled after it. *)
Fixpoint receive_polling (tf : nat -> bool) (batch : list (Buffer.t * list poll_item)) : S unit :=
  match batch with
  | [] => mret tt
  | (pkt, l) :: batch => _ ← do_receive pkt; _ ← scheduler_poll tf l; receive_polling tf batch
  end.

Fixpoint poll_runtime (tf : nat -> bool) (iters : nat) (rx : list (list (Buffer.t * list poll_item))) : S unit :=
  match iters with
  | O => mret tt
  | Datatypes.S iters =>
      match rx with
      | [] | [] :: _ => mret tt
      | batch :: rx => _ ← receive_polling tf batch; poll_runtime tf iters rx
      end
  end.

(** The loop of the switch never ends: the state after the batches so far. *)
Fixpoint capybara_switch (rx : list (list Buffer.t)) : S unit :=
  match rx with
  | [] => mret tt
  | batch :: rx => _ ← receive_batch batch; capybara_switch rx
  end.

Definition poll_bg_work (w : turn) : S unit :=
  _ ← poll_runtime_no_scheduler_poll MAX_RECV_ITERS (batches w);
  _ ← scheduler_poll (timer_first w) (order w);
  _ ← on_tcp poll_stats;
  _ ← on_tcp rps_signal_action;
  conns_to_migrate ← on_tcp connections_to_reactively_migrate;
  _ ← match conns_to_migrate with
      | Some conns_to_migrate => on_tcp (initiate_migrations conns_to_migrate)
      | None => mret tt
      end;
  modify (fun s => set_clock (if ts_iters s =? 0 then instant w else clock s) ((ts_iters s + 1) mod TIMER_RESOLUTION) s).

(** *** Waiting *)

(** [scheduler.take], then the result; a failed accept gives its booked descriptor back. *)
Definition take_operation (qt : Z) (f : FutureOperation) : S (Z * OperationResult) :=
  _ ← modify (fun s => set_tasks (delete qt (tasks s)) s);
  match f with
  | Tcp f =>
      '(qd, new_qd, qr) ← lift (expect_result f);
      _ ← match new_qd, qr with
          | Some new_qd, Failed _ => free_qd new_qd
          | _, _ => mret tt
          end;
      mret (qd, qr)
  | Udp f => lift (get_result f)
  | Background _ => lift (Panic "`take_operation` attempted on background task!")
  end.

(** The loop of [wait2]; the world provides the turns. *)
Fixpoint wait2_loop (qt : Z) (ws : list turn) : S (Z * OperationResult) :=
  match ws with
  | [] => lift Diverge
  | w :: ws =>
      _ ← poll_bg_work w;
      s ← get;
      match tasks s !! qt with
      | Some (mkTask f true) => take_operation qt f
      | _ => wait2_loop qt ws
      end
  end.

Definition wait2 (qt : Z) (ws : list turn) : S (Result (Z * OperationResult)) :=
  s ← get;
  match tasks s !! qt with
  | None => failing EINVAL "invalid queue token"
  | Some _ => r ← wait2_loop qt ws; mret (Ok r)
  end.

(** [expired] of a turn: no deadline was given, or it has passed. *)
Fixpoint timedwait2_loop (qt : Z) (ws : list turn) : S (Result (Z * OperationResult)) :=
  match ws with
  | [] => lift Diverge
  | w :: ws =>
      _ ← poll_bg_work w;
      s ← get;
      match tasks s !! qt with
      | Some (mkTask f true) => r ← take_operation qt f; mret (Ok r)
      | _ => if expired w then failing ETIMEDOUT "timer expired" else timedwait2_loop qt ws
      end
  end.

Definition timedwait2 (qt : Z) (ws : list turn) : S (Result (Z * OperationResult)) :=
  s ← get;
  match tasks s !! qt with
  | None => failing EINVAL "invalid queue token"
  | Some _ => timedwait2_loop qt ws
  end.

(** One scan of [wait_any2] over the tokens from position [i]: the results and indices written so
    far are [acc], of which [n] fit and [m] indices fit. *)
Fixpoint scan (n m : nat) (qts : list Z) (i : nat) (acc : list (nat * (Z * OperationResult))) : S (Result (list (nat * (Z * OperationResult)))) :=
  match qts with
  | [] => mret (Ok acc)
  | qt :: qts =>
      if Nat.eqb (length acc) n then mret (Ok acc) else
      s ← get;
      match tasks s !! qt with
      | None => failing EINVAL "invalid queue token"
      | Some (mkTask f true) =>
          r ← take_operation qt f;
          if Nat.leb m (length acc) then lift (Panic "index out of bounds") else scan n m qts (Datatypes.S i) (acc ++ [(i, r)])
      | Some _ => scan n m qts (Datatypes.S i) acc
      end
  end.

(** The results written, of which the code returns the number. *)
Fixpoint wait_any2 (n m : nat) (qts : list Z) (ws : list turn) : S (Result (list (nat * (Z * OperationResult)))) :=
  match ws with
  | [] => lift Diverge
  | w :: ws =>
      _ ← poll_bg_work w;
      r ← scan n m qts 0 [];
      match r with
      | Err e => mret (Err e)
      | Ok [] => if expired w then mret (Ok []) else wait_any2 n m qts ws
      | Ok l => mret (Ok l)
      end
  end.

(** Without the check that the results fit. *)
Fixpoint scan_all (n m : nat) (qts : list Z) (i : nat) (acc : list (nat * (Z * OperationResult))) : S (Result (list (nat * (Z * OperationResult)))) :=
  match qts with
  | [] => mret (Ok acc)
  | qt :: qts =>
      s ← get;
      match tasks s !! qt with
      | None => failing EINVAL "invalid queue token"
      | Some (mkTask f true) =>
          r ← take_operation qt f;
          if Nat.leb n (length acc) || Nat.leb m (length acc) then lift (Panic "index out of bounds") else scan_all n m qts (Datatypes.S i) (acc ++ [(i, r)])
      | Some _ => scan_all n m qts (Datatypes.S i) acc
      end
  end.

Definition wait_any_nonblocking2 (n m : nat) (qts : list Z) (w : turn) : S (Result (list (nat * (Z * OperationResult)))) :=
  _ ← poll_bg_work w;
  scan_all n m qts 0 [].

Fixpoint scan_one (qts : list Z) (i : nat) : S (Result (option (nat * Z * OperationResult))) :=
  match qts with
  | [] => mret (Ok None)
  | qt :: qts =>
      s ← get;
      match tasks s !! qt with
      | None => failing EINVAL "invalid queue token"
      | Some (mkTask f true) => '(qd, r) ← take_operation qt f; mret (Ok (Some (i, qd, r)))
      | Some _ => scan_one qts (Datatypes.S i)
      end
  end.

Definition wait_any_nonblocking_one2 (qts : list Z) (w : turn) : S (Result (option (nat * Z * OperationResult))) :=
  _ ← poll_bg_work w;
  scan_one qts 0.

(** *** Migration *)

Definition initiate_migration (qd : Z) : S (Result unit) := on_tcp (initiate_migration_by_qd qd).
Definition global_recv_queue_length : S Z := on_tcp TcpPeer.global_recv_queue_length.
Definition register_application_state (qd : Z) (state : AppState) : S unit := on_tcp (TcpPeer.register_application_state qd state).
Definition get_migrated_application_state (deserialize : list Z -> AppState) (qd : Z) : S (option AppState) :=
  on_tcp (TcpPeer.get_migrated_application_state deserialize qd).

(** What follows a migration message: a connection that was asked for is migrated out once the
    device has no more frames, and its descriptor is kept for a later accept.  What was not read is
    returned. *)
Definition after_tcpmig (rx : list (list Buffer.t)) : S (list (list Buffer.t)) :=
  s ← get;
  let '(qd, ps) := PollState.take_qd (in_poll_state (tcp s)) in
  _ ← modify (fun s => set_tcp (set_in_poll_state ps (tcp s)) s);
  match qd with
  | None => mret rx
  | Some qd_to_remove =>
      rx ← (if negb (PollState.is_fast_migrate_enabled ps) then
              rx ← poll_runtime_no_scheduler_poll MAX_RECV_ITERS rx;
              _ ← on_tcp (migrate_out_and_send qd_to_remove);
              _ ← modify (fun s => set_tcp (set_in_poll_state (PollState.enable_fast_migrate (in_poll_state (tcp s))) (tcp s)) s);
              mret rx
            else mret rx);
      s ← get;
      if bool_decide (qd_to_remove ∈ migrated_qds s) then lift (Panic "assertion failed: self.tcpmig_state.migrated_qds.insert(qd_to_remove)") else
      _ ← modify (fun s => set_migrated_qds ({[qd_to_remove]} ∪ migrated_qds s) s);
      mret rx
  end.

Fixpoint tcpmig_loop (tcpmig_batch : list Buffer.t) (rx : list (list Buffer.t)) : S unit :=
  match tcpmig_batch with
  | [] => mret tt
  | pkt :: tcpmig_batch => _ ← do_receive pkt; rx ← after_tcpmig rx; tcpmig_loop tcpmig_batch rx
  end.

(** [tcpmig_batch]: what the device's queue of migration messages returns; [rx]: what its queue of
    other frames returns.  Nothing calls this function at present. *)
Definition poll_runtime_tcpmig (tcpmig_batch : list Buffer.t) (rx : list (list Buffer.t)) : S bool :=
  _ ← modify (fun s => set_tcp (set_in_poll_state (PollState.reset (in_poll_state (tcp s))) (tcp s)) s);
  _ ← tcpmig_loop tcpmig_batch rx;
  s ← get;
  mret (PollState.is_fast_migrate_enabled (in_poll_state (tcp s))).

(** *** Construction *)

(** [InetStack::new] and [Peer::new]; the TCP peer is the result of its own constructor. *)
Definition new (now : Z) (shuffle : list Z -> list Z) (core_id : option Z) (local_link_addr : MacAddress) (local_ipv4_addr : Ipv4Addr)
  (udp_tx_checksum_offload : bool) (tcp_new : Result Inner) (arp_config : ArpConfig) : outcome (Result t) :=
  a ← ArpPeer.new now local_link_addr local_ipv4_addr arp_config;
  match tcp_new with
  | Err e => Ret (Err e)
  | Ok i =>
      let s := mk a (Icmpv4Peer.new local_link_addr local_ipv4_addr) i
                 (UdpPeer.new shuffle core_id local_link_addr local_ipv4_addr udp_tx_checksum_offload) IoQueueTable.new ∅ now 0 ∅ in
      '(k1, s, _) ← schedule (Background (ArpBackground now)) s [];
      match k1 with
      | None => Ret (Err (mkFail EAGAIN "failed to schedule background co-routine for ARP module"))
      | Some _ =>
          '(k2, s, _) ← schedule (Background UdpBackground) s [];
          match k2 with
          | None => Ret (Err (mkFail EAGAIN "failed to schedule background co-routine for UDP module"))
          | Some _ =>
              '(k3, s, _) ← schedule (Background IcmpBackground) s [];
              match k3 with
              | None => Ret (Err (mkFail EAGAIN "failed to schedule background co-routine for ICMPv4 module"))
              | Some _ => Ret (Ok s)
              end
          end
      end
  end.

End stack.
Arguments t C CI SL : clear implicits.
End InetStack.
