(* ===== verification/StackSafety.v ===== *)
(** * Descriptors of the network stack are consistent
    (src/src/rust/inetstack/mod.rs)

    The table of queue descriptors, the tables of the TCP and UDP peers and the tasks agree in every
    state the stack reaches: a descriptor known to a peer is allocated with that peer's type, and the
    descriptors booked by pending accepts are distinct and known to no peer. *)

From S2P Require Import Prelude Buffer SeqNumber Net Packet TtlCache Arp ArpSafety TcpSegment TcpMigSegment Congestion Rto CtrlBlk Handshake MigState MigPeer.
From S2P Require Import Stats Ports TcpPeer PeerTables SharedQueue Udp UdpSafety Icmp InetStack.

(** ** Which descriptors a call on the TCP peer may add *)

Section descriptors.
Variable D : Z -> Prop.

Definition sdom (i : Inner) : Prop := forall qd, is_Some (in_sockets i !! qd) -> D qd.

(** The call keeps the descriptors of the peer inside [D]. *)
Definition pres {A} (m : P A) : Prop := forall i, sdom i -> post i m (fun _ i' => sdom i').

Lemma pres_ret {A} (a : A) : pres (mret a).
Proof. intros i Hi. by apply post_ret. Qed.

Lemma pres_bind {A B} (m : P A) (k : A -> P B) : pres m -> (forall a, pres (k a)) -> pres (m ≫= k).
Proof. intros Hm Hk i Hi. apply post_bind. eapply post_mono; [by apply Hm|]. intros a i' Hi'. by apply Hk. Qed.

Lemma pres_inner {B} (k : Inner -> P B) : (forall i, sdom i -> pres (k i)) -> pres (inner ≫= k).
Proof. intros Hk i Hi. apply post_bind, post_inner. by apply Hk. Qed.

Lemma pres_try {A B} (m : P (Result A)) (k : A -> P (Result B)) : pres m -> (forall a, pres (k a)) -> pres (try_ m k).
Proof. intros Hm Hk. apply pres_bind; [done|]. intros [a|e]; [apply Hk|apply pres_ret]. Qed.

Lemma pres_try_inner {B} (f : Inner -> P (Result B)) : (forall i, sdom i -> pres (f i)) -> pres (inner ≫= f).
Proof. apply pres_inner. Qed.

Lemma pres_update f : (forall i, in_sockets (f i) = in_sockets i) -> pres (update f).
Proof. intros Hf i Hi. apply post_update. intros qd. rewrite Hf. apply Hi. Qed.

Lemma pres_insert qd v : D qd -> pres (update (fun i => set_in_sockets (<[qd := v]> (in_sockets i)) i)).
Proof. intros Hq i Hi. apply post_update. intros x. cbn. rewrite lookup_insert_is_Some'. intros [<-|]; auto. Qed.

Lemma pres_delete qd : pres (update (fun i => set_in_sockets (delete qd (in_sockets i)) i)).
Proof. intros i Hi. apply post_update. intros x. cbn. rewrite lookup_delete_is_Some. intros [_ ?]. auto. Qed.

Lemma pres_call {A} (o : outcome A) : pres (call o).
Proof. intros i Hi. by apply post_call. Qed.

Lemma pres_perform e : pres (perform e).
Proof. intros i Hi. by apply post_perform. Qed.

Lemma pres_perform_all es : pres (perform_all es).
Proof. intros i Hi. by apply post_perform_all. Qed.

Lemma pres_panic {A} msg : pres (panic (A := A) msg).
Proof. intros i Hi. by apply post_panic. Qed.

Lemma pres_err {A} n c : pres (err (A := A) n c).
Proof. apply pres_ret. Qed.

Lemma pres_ready_err {A} n c : pres (ready_err (A := A) n c).
Proof. apply pres_ret. Qed.

Lemma sdom_known i qd v : sdom i -> in_sockets i !! qd = Some v -> D qd.
Proof. intros Hi E. apply Hi. by rewrite E. Qed.

End descriptors.

Create HintDb pres.
#[export] Hint Resolve pres_ret pres_call pres_perform pres_perform_all pres_panic pres_err pres_ready_err pres_delete : pres.

(** The descriptor was found in the table, or is in [D] by assumption. *)
Ltac known := first [done | match goal with Hd : sdom ?D ?i, E : in_sockets ?i !! ?q = Some _ |- ?D ?q => exact (sdom_known D i q _ Hd E) end].

(** Walks through a call: binds, branches, then the leaves. *)
Ltac pres :=
  repeat match goal with
  | |- pres _ (mbind _ inner) => apply pres_inner; intros ? ?
  | |- pres _ (mbind _ _) => apply pres_bind; [|intros ?]
  | |- pres _ (try_ _ _) => apply pres_try; [|intros ?]
  | |- pres _ (update (fun i => set_in_sockets (<[_ := _]> (in_sockets i)) i)) => apply pres_insert; known
  | |- pres _ (update (fun i => set_in_sockets (delete _ (in_sockets i)) i)) => apply pres_delete
  | |- pres _ (update _) => apply pres_update; intros ?; reflexivity
  | |- pres _ (match ?x with _ => _ end) => destruct x eqn:?
  | |- pres _ (let '_ := ?x in _) => destruct x
  | |- pres _ (if ?x then _ else _) => destruct x
  | |- pres _ _ => solve [auto with pres]
  end.

Lemma pres_effects D h r es : pres D (perform_effects h r es).
Proof. induction es as [|e es IH]; cbn [perform_effects]; [apply pres_ret|]. apply pres_bind; [|by intros _]. unfold perform_effect. pres. Qed.
#[export] Hint Resolve pres_effects : pres.

Lemma pres_run_cb {A} D s (m : CtrlBlk.M (C := CcNone) A) : pres D (run_cb s m).
Proof. unfold run_cb. pres. Qed.
#[export] Hint Resolve pres_run_cb : pres.

Lemma pres_on_established {A} D k s (m : CtrlBlk.M (C := CcNone) A) : pres D (on_established k s m).
Proof. unfold on_established. pres. Qed.
#[export] Hint Resolve pres_on_established : pres.

Lemma pres_with_handles D cb : pres D (with_handles cb).
Proof. intros i Hi tr a i' tr' E. unfold with_handles in E. cbn in E. injection E as _ <- _. done. Qed.

Lemma pres_enable_stats D s : pres D (enable_stats s).
Proof. unfold enable_stats. pres. Qed.

Lemma pres_replay D env l : forall s, pres D (replay env s l).
Proof. induction l as [|[hdr d] l IH]; intros s; cbn [replay]; [apply pres_ret|]. apply pres_bind; [auto with pres|]. intros [[] s']. apply IH. Qed.
#[export] Hint Resolve pres_with_handles pres_enable_stats pres_replay : pres.

Lemma pres_alloc_any D : pres D alloc_any.
Proof. intros i Hi tr r i' tr' E. unfold alloc_any in E. destruct (Ports.alloc_any _) as [r' ps]. injection E as _ <- _. done. Qed.

Lemma pres_alloc_port D p : pres D (alloc_port p).
Proof. intros i Hi tr r i' tr' E. unfold alloc_port in E. destruct (Ports.alloc_port _ _) as [r' ps]. injection E as _ <- _. done. Qed.
#[export] Hint Resolve pres_alloc_any pres_alloc_port : pres.

Lemma pres_do_socket (D : Z -> Prop) qd : D qd -> pres D (do_socket qd).
Proof. intros Hq. unfold do_socket. pres. Qed.

Lemma pres_bind_ D qd addr : pres D (TcpPeer.bind qd addr).
Proof. unfold TcpPeer.bind. pres. Qed.

Lemma pres_listen D nonce qd backlog : pres D (listen nonce qd backlog).
Proof. unfold listen. pres. Qed.

Lemma pres_poll_accept (D : Z -> Prop) env qd new_qd : D new_qd -> pres D (TcpPeer.poll_accept env qd new_qd).
Proof. intros Hq. unfold TcpPeer.poll_accept. pres. Qed.

Lemma pres_try_err {A B} D n c (k : A -> P (Result B)) : pres D (try_ (err n c) k).
Proof. intros i Hi. apply post_bind, post_ret. by apply post_ret. Qed.

Lemma pres_connect D crc32 qd remote : pres D (connect crc32 qd remote).
Proof.
  unfold connect. apply pres_inner. intros i Hi. destruct (in_sockets i !! qd) as [x|] eqn:E; [|apply pres_try_err].
  assert (D qd) by known. pres.
Qed.

Lemma pres_poll_connect D fd : pres D (poll_connect_finished fd).
Proof. unfold poll_connect_finished. pres. Qed.

Lemma pres_poll_recv D fd : pres D (TcpPeer.poll_recv fd).
Proof. unfold TcpPeer.poll_recv. pres. Qed.

Lemma pres_push D env fd buf : pres D (push env fd buf).
Proof. unfold push, send. pres. Qed.

Lemma pres_do_close D env qd : pres D (do_close env qd).
Proof. unfold do_close. pres. Qed.

Lemma pres_receive D crc32 env ih buf : pres D (TcpPeer.receive crc32 env ih buf).
Proof. unfold TcpPeer.receive, route, send_rst. pres. Qed.

Lemma pres_initiate D conn : pres D (initiate_migration_by_addr conn).
Proof. unfold initiate_migration_by_addr. pres. Qed.

Lemma pres_initiate_qd D qd : pres D (initiate_migration_by_qd qd).
Proof. unfold initiate_migration_by_qd. pres. Qed.

Lemma pres_initiates D conns : pres D (initiate_migrations conns).
Proof. induction conns as [|c l IH]; cbn [initiate_migrations]; [apply pres_ret|]. apply pres_bind; [apply pres_initiate|done]. Qed.
#[export] Hint Resolve pres_initiate pres_initiates : pres.

Lemma pres_receive_tcpmig D ih buf : pres D (receive_tcpmig ih buf).
Proof. unfold receive_tcpmig, act_on_status, migrate_out_connection, send_tcp_state, migrate_in_connection. pres. Qed.

Lemma pres_register D qd st : pres D (TcpPeer.register_application_state qd st).
Proof. unfold TcpPeer.register_application_state. pres. Qed.

Lemma pres_migrated_state D d qd : pres D (TcpPeer.get_migrated_application_state d qd).
Proof. unfold TcpPeer.get_migrated_application_state. pres. Qed.

Lemma pres_load D buf :
  pres D poll_stats /\ pres D rps_signal_action /\ pres D TcpPeer.connections_to_reactively_migrate /\ pres D (receive_rps_signal buf).
Proof.
  split_and!; [unfold poll_stats; pres| |unfold TcpPeer.connections_to_reactively_migrate; pres|unfold receive_rps_signal; pres].
  unfold rps_signal_action, connections_to_proactively_migrate, reset_rps_stats. pres.
Qed.

Lemma pres_tasks D now arp l r conn op : pres D (listen_task now arp l r) /\ pres D (connect_task now arp conn) /\ pres D (connection_task conn op).
Proof. split_and!; [unfold listen_task|unfold connect_task|unfold connection_task]; pres. Qed.

(** A poll of accept that is not successful adds no descriptor. *)
Lemma post_any {A B} i (m : P A) (k : A -> P B) Q : (forall a i', post i' (k a) Q) -> post i (m ≫= k) Q.
Proof. intros Hk. apply post_bind. intros tr a i' tr' _. apply Hk. Qed.

Lemma accept_sockets i env qd new_qd :
  post i (TcpPeer.poll_accept env qd new_qd) (fun r i' => match r with Some (Ok x) => x = new_qd | _ => in_sockets i' = in_sockets i end).
Proof.
  unfold TcpPeer.poll_accept. post_steps. destruct (in_sockets i !! qd) as [[lo|l|lo re|lo re|lo re]|]; post_steps; try done.
  destruct (in_passive i !! l) as [p|]; post_steps. apply post_call. intros [r p'] _. post_steps. destruct r as [[cb|e]|]; post_steps; try done.
  intros tr1 s i1 tr1' _. apply post_any. intros i2 i2'. destruct (Peer.close_active_migration _ _) as [mig buffered].
  repeat (apply post_any; intros ? ?). by post_steps.
Qed.

(** A closed descriptor is forgotten. *)
Lemma close_sockets i env qd : post i (do_close env qd) (fun _ i' => in_sockets i' !! qd = None).
Proof.
  unfold do_close. post_steps. cbv beta. set (i1 := set_in_sockets _ i).
  assert (Hd : sdom (fun x => x <> qd) i1) by (intros x; cbn; rewrite lookup_delete_is_Some; intros [? _]; congruence).
  assert (Hgo : forall A (m : P A), pres (fun x => x <> qd) m -> post i1 m (fun _ i' => in_sockets i' !! qd = None)).
  { intros A m Hm. eapply post_mono; [by apply Hm|]. intros a i' Hi'. destruct (in_sockets i' !! qd) as [x|] eqn:E; [|done]. by destruct (Hi' qd); rewrite ?E. }
  apply Hgo. pres.
Qed.

Lemma close_known i env qd : post i (do_close env qd) (fun r _ => match r with Ok _ => is_Some (in_sockets i !! qd) | Err _ => True end).
Proof.
  destruct (in_sockets i !! qd) as [x|] eqn:E; [intros tr [] ? ? _; by eexists|]. unfold do_close. post_steps. rewrite E. by post_steps.
Qed.

(** ** The invariant *)

Module Stack.
Import InetStack.

(** Calls keep the tables of the TCP peer well-formed. *)
Definition wf_pres {A} (m : P A) : Prop := forall i, peer_wf i -> post i m (fun _ i' => peer_wf i').

Lemma wf_tables {A} (m : P A) : (forall i, post i m (fun _ i' => tables i' = tables i)) -> wf_pres m.
Proof. intros Hm i Hi. eapply post_mono; [by apply Hm|]. intros a i' E. eapply wf_ext; [exact E|done]. Qed.

Lemma wf_event {A} (m : P A) ev : (forall i tr a i' tr', m i tr = Ret (a, i', tr') -> peer_exec ev i tr = Ret (tt, i', tr')) -> wf_pres m.
Proof. intros Hm i Hi tr a i' tr' E. exact (stepped_wf _ _ _ _ (peer_exec_stepped ev i Hi _ _ _ _ (Hm _ _ _ _ _ E))). Qed.

Lemma discard {A} (m : P A) i tr a i' tr' : m i tr = Ret (a, i', tr') -> (_ ← m; mret tt) i tr = Ret (tt, i', tr').
Proof. intros E. unfold mbind, P_bind. by rewrite E. Qed.

Section stack.
Context {C CI SL : Type} `{MC : Mpsc Slot C} `{UC : Unbounded (Ipv4Addr * Z * Z) CI} `{SC : Slab Z SL} `{!MpscLaws Slot C} `{!SlabLaws Z SL}.
Variable new_key : gmap Z task -> option Z.
Hypothesis new_key_fresh : forall m k, new_key m = Some k -> m !! k = None.
Variable crc32 : list Z -> Z.
(** The port that CORE_ID puts into the pools of free ports. *)
Variable core : option Z.

Abbreviation stack := (InetStack.t C CI SL).
Abbreviation St := (InetStack.S (C := C) (CI := CI) (SL := SL)).

Definition ft (s : stack) : gmap Z Z := slab_contents (file_table s).

(** An accept that has not succeeded books the descriptor. *)
Definition books (f : FutureOperation) (nq : Z) : Prop :=
  match f with
  | Tcp (TcpAccept (mkFuture (_, n) d)) => n = nq /\ match d with Some (Ok _) => False | _ => True end
  | _ => False
  end.

Definition booked (s : stack) (nq : Z) : Prop := exists k tk, tasks s !! k = Some tk /\ books (op tk) nq.

(** A task is marked completed exactly when its future is done; background tasks never are. *)
Definition marked (tk : task) : Prop :=
  let done {F R} (f : Future F R) := completed tk = match fut_done f with Some _ => true | None => false end in
  match op tk with
  | Tcp (TcpAccept f) => done f
  | Tcp (TcpConnect f) => done f
  | Tcp (TcpPush f) => done f
  | Tcp (TcpPop f) => done f
  | Udp (UdpPop f) => done f
  | Udp (UdpPushto _ _) => True
  | Background _ => completed tk = false
  end.

(** The queue of a pop exists. *)
Definition queue_of (u : UdpPeer.t C) (f : FutureOperation) : Prop :=
  match f with
  | Udp (UdpPop f) => is_Some (UdpPeer.queues u !! UdpPeer.recv_queue (fut f))
  | _ => True
  end.

Record stack_inv (s : stack) : Prop := {
  i_tcp : peer_wf (tcp s);
  i_tcp_dom : sdom (fun qd => ft s !! qd = Some 2 /\ ~ booked s qd) (tcp s);
  i_udp : UdpHost.sock_inv core (udp s);
  i_udp_dom : forall qd, is_Some (UdpPeer.sockets (udp s) !! qd) -> ft s !! qd = Some 1;
  i_booked : forall nq, booked s nq -> ft s !! nq = Some 2;
  i_booked_one : forall k k' tk tk' nq, tasks s !! k = Some tk -> tasks s !! k' = Some tk' -> books (op tk) nq -> books (op tk') nq -> k = k';
  i_queue : forall k tk, tasks s !! k = Some tk -> queue_of (udp s) (op tk);
  i_marked : forall k tk, tasks s !! k = Some tk -> marked tk;
  i_migrated : migrated_qds s = ∅;
}.

(** Whatever a computation returns satisfies [Q]. *)
Definition spost {A} (s : stack) (m : S A) (Q : A -> stack -> Prop) : Prop :=
  forall tr a s' tr', m s tr = Ret (a, s', tr') -> Q a s'.

Lemma spost_ret {A} s (a : A) (Q : A -> stack -> Prop) : Q a s -> spost s (mret a) Q.
Proof. intros HQ tr ? s' tr' [= <- <- <-]. done. Qed.

Lemma spost_bind {A B} s (m : S A) (k : A -> S B) Q : spost s m (fun a s' => spost s' (k a) Q) -> spost s (m ≫= k) Q.
Proof.
  intros HQ tr b s' tr' E. unfold mbind, S_bind in E. destruct (m s tr) as [[[a s1] tr1]| |] eqn:Em; [|done|done]. by eapply HQ.
Qed.

Lemma spost_get s (Q : stack -> stack -> Prop) : Q s s -> spost s get Q.
Proof. intros HQ tr ? s' tr' [= <- <- <-]. done. Qed.

Lemma spost_modify s f (Q : unit -> stack -> Prop) : Q tt (f s) -> spost s (modify f) Q.
Proof. intros HQ tr ? s' tr' [= <- <- <-]. done. Qed.

Lemma spost_transmit s l (Q : unit -> stack -> Prop) : Q tt s -> spost s (transmit l) Q.
Proof. intros HQ tr ? s' tr' [= <- <- <-]. done. Qed.

Lemma spost_lift {A} s (o : outcome A) (Q : A -> stack -> Prop) : (forall a, o = Ret a -> Q a s) -> spost s (lift o) Q.
Proof. intros HQ tr a s' tr' E. unfold lift in E. destruct o; [|done|done]. injection E as <- <- <-. by apply HQ. Qed.

Lemma spost_failing {A} s n c (Q : Result A -> stack -> Prop) : Q (Err (mkFail n c)) s -> spost s (failing n c) Q.
Proof. apply spost_ret. Qed.

Lemma spost_tcp {A} s (m : P A) (Q : A -> stack -> Prop) : post (tcp s) m (fun a i => Q a (set_tcp i s)) -> spost s (on_tcp m) Q.
Proof.
  intros HQ tr a s' tr' E. unfold on_tcp in E. destruct (m (tcp s) []) as [[[b i] es]| |] eqn:Em; [|done|done]. injection E as <- <- _. by eapply HQ.
Qed.

Lemma spost_mono {A} s (m : S A) (Q Q' : A -> stack -> Prop) : spost s m Q -> (forall a s', Q a s' -> Q' a s') -> spost s m Q'.
Proof. intros HQ Hi tr a s' tr' E. by eapply Hi, HQ. Qed.

(** *** Changes of one component *)

Lemma inv_tcp s i : stack_inv s -> peer_wf i -> sdom (fun qd => ft s !! qd = Some 2 /\ ~ booked s qd) i -> stack_inv (set_tcp i s).
Proof. intros [I1 I2 I3 I4 I5 I6 I7 I8 I9] W Hd. by split. Qed.

Lemma inv_udp s u : stack_inv s -> UdpHost.sock_inv core u -> (forall qd, is_Some (UdpPeer.sockets u !! qd) -> ft s !! qd = Some 1) ->
  (forall id, is_Some (UdpPeer.queues (udp s) !! id) -> is_Some (UdpPeer.queues u !! id)) -> stack_inv (set_udp u s).
Proof.
  intros [I1 I2 I3 I4 I5 I6 I7 I8 I9] Hu Hd Hq. split; try done. intros k tk Hk. specialize (I7 k tk Hk). unfold queue_of in *. cbn.
  destruct (op tk) as [|[|f]|]; auto.
Qed.

Lemma inv_arp s a : stack_inv s -> stack_inv (set_arp a s).
Proof. intros [I1 I2 I3 I4 I5 I6 I7 I8 I9]. by split. Qed.

Lemma inv_icmp s p : stack_inv s -> stack_inv (set_icmpv4 p s).
Proof. intros [I1 I2 I3 I4 I5 I6 I7 I8 I9]. by split. Qed.

Lemma inv_clock s v n : stack_inv s -> stack_inv (set_clock v n s).
Proof. intros [I1 I2 I3 I4 I5 I6 I7 I8 I9]. by split. Qed.

(** A task that books no descriptor is added or replaces such a task. *)
Definition bookless (f : FutureOperation) : Prop := forall nq, ~ books f nq.

Lemma booked_insert s k tk nq : (forall tk', tasks s !! k = Some tk' -> bookless (op tk')) -> bookless (op tk) ->
  booked (set_tasks (<[k := tk]> (tasks s)) s) nq <-> booked s nq.
Proof.
  intros Hold Hnew. split; intros (k' & tk' & Hk & Hb); exists k', tk'; split; try done; cbn in *.
  - apply lookup_insert_Some in Hk as [[<- <-]|[_ ?]]; [|done]. by destruct (Hnew nq).
  - rewrite lookup_insert_ne; [done|]. intros ->. by destruct (Hold tk' Hk nq).
Qed.

Lemma inv_task s k tk : stack_inv s -> (forall tk', tasks s !! k = Some tk' -> bookless (op tk')) -> bookless (op tk) ->
  queue_of (udp s) (op tk) -> marked tk -> stack_inv (set_tasks (<[k := tk]> (tasks s)) s).
Proof.
  intros [I1 I2 I3 I4 I5 I6 I7 I8 I9] Hold Hnew Hq Hm. split; try done; cbn [tasks set_tasks udp tcp].
  - intros qd Hqd. destruct (I2 qd Hqd) as [H1 H2]. split; [done|]. by rewrite booked_insert.
  - intros nq. rewrite booked_insert by done. apply I5.
  - intros k1 k2 t1 t2 nq [[<- <-]|[N1 H1]]%lookup_insert_Some [[<- <-]|[N2 H2]]%lookup_insert_Some B1 B2; try done; eauto.
    + by destruct (Hnew nq).
    + by destruct (Hnew nq).
  - intros k1 t1 [[<- <-]|[N1 H1]]%lookup_insert_Some; eauto.
  - intros k1 t1 [[<- <-]|[N1 H1]]%lookup_insert_Some; eauto.
Qed.

Lemma inv_delete_task s k : stack_inv s -> stack_inv (set_tasks (delete k (tasks s)) s).
Proof.
  intros [I1 I2 I3 I4 I5 I6 I7 I8 I9]. assert (Hb : forall nq, booked (set_tasks (delete k (tasks s)) s) nq -> booked s nq).
  { intros nq (k' & tk & Hk & B). cbn [tasks set_tasks] in Hk. apply lookup_delete_Some in Hk as [_ Hk]. by exists k', tk. }
  split; try done; cbn.
  - intros qd Hqd. destruct (I2 qd Hqd) as [H1 H2]. split; [done|]. intros B. by apply H2, Hb.
  - intros nq B. by apply I5, Hb.
  - intros k1 k2 t1 t2 nq [_ H1]%lookup_delete_Some [_ H2]%lookup_delete_Some. eauto.
  - intros k1 t1 [_ H1]%lookup_delete_Some. eauto.
  - intros k1 t1 [_ H1]%lookup_delete_Some. eauto.
Qed.

(** *** The table of descriptors *)

Lemma table_get s qd : IoQueueTable.get (file_table s) qd = ft s !! qd.
Proof. unfold IoQueueTable.get. rewrite slab_get_lookup. unfold ft. by destruct (slab_contents (file_table s) !! qd). Qed.

(** A fresh descriptor is known to nobody. *)
Record fresh_qd (s : stack) (qd : Z) (ty : QType) : Prop := {
  f_inv : stack_inv s;
  f_type : ft s !! qd = Some (QType_to_u32 ty);
  f_tcp : in_sockets (tcp s) !! qd = None;
  f_udp : UdpPeer.sockets (udp s) !! qd = None;
  f_booked : ~ booked s qd;
}.

Lemma alloc_fresh s ty : stack_inv s -> spost s (alloc_qd ty) (fun qd s' => fresh_qd s' qd ty /\ ft s !! qd = None).
Proof.
  intros I tr qd s' tr' E. unfold alloc_qd, IoQueueTable.alloc in E.
  pose proof (slab_insert_fresh (file_table s) (QType_to_u32 ty)) as Hf. pose proof (slab_insert_contents (file_table s) (QType_to_u32 ty)) as Hc.
  destruct (slab_insert (file_table s) (QType_to_u32 ty)) as [qd' tb]. cbn in *. injection E as -> <- _. destruct I as [I1 I2 I3 I4 I5 I6 I7 I8 I9].
  assert (Hft : ft (set_file_table tb s) = <[qd := QType_to_u32 ty]> (ft s)) by done.
  assert (Hne : forall x y, ft s !! x = Some y -> ft (set_file_table tb s) !! x = Some y).
  { intros x y Hx. rewrite Hft, lookup_insert_ne; [done|]. intros <-. unfold ft in Hx. congruence. }
  split; [|done]. split; [split; try done| | | |]; cbn.
  - intros x Hx. destruct (I2 x Hx) as [H1 H2]. split; [by apply Hne|done].
  - intros x Hx. apply Hne. auto.
  - intros nq Hb. apply Hne. auto.
  - by rewrite Hft, lookup_insert_eq.
  - destruct (in_sockets (tcp s) !! qd) eqn:E; [|done]. destruct (I2 qd) as [H1 _]; [by rewrite E|]. unfold ft in H1. congruence.
  - destruct (UdpPeer.sockets (udp s) !! qd) eqn:E; [|done]. assert (H1 : ft s !! qd = Some 1) by (apply I4; by rewrite E). unfold ft in H1. congruence.
  - intros Hb. assert (H1 : ft s !! qd = Some 2) by (by apply I5). unfold ft in H1. congruence.
Qed.

(** A descriptor known to nobody can be freed. *)
Lemma free_inv s qd : stack_inv s -> in_sockets (tcp s) !! qd = None -> UdpPeer.sockets (udp s) !! qd = None -> ~ booked s qd ->
  stack_inv (set_file_table (IoQueueTable.free (file_table s) qd).2 s).
Proof.
  intros I Ht Hu Hb. unfold IoQueueTable.free. rewrite slab_get_lookup. destruct (slab_contents (file_table s) !! qd) as [v|] eqn:E; [|by destruct s, I; split].
  destruct (slab_remove_some (file_table s) qd v E) as (tb & -> & Hc). cbn. destruct I as [I1 I2 I3 I4 I5 I6 I7 I8 I9].
  assert (Hft : forall x y, x <> qd -> ft s !! x = Some y -> ft (set_file_table tb s) !! x = Some y).
  { intros x y Hx Hy. unfold ft in *. cbn. rewrite Hc. by rewrite lookup_delete_ne. }
  split; try done; cbn.
  - intros x Hx. destruct (I2 x Hx) as [H1 H2]. split; [|done]. apply Hft; [|done]. intros ->. rewrite Ht in Hx. by destruct Hx.
  - intros x Hx. apply Hft; [|by apply I4]. intros ->. rewrite Hu in Hx. by destruct Hx.
  - intros nq Hn. apply Hft; [|by apply I5]. by intros ->.
Qed.

(** *** Computations that keep the invariant *)

Definition keep {A} (m : S A) : Prop := forall s, stack_inv s -> spost s m (fun _ s' => stack_inv s').

Lemma keep_ret {A} (a : A) : keep (mret a).
Proof. intros s I. by apply spost_ret. Qed.

Lemma keep_bind {A B} (m : S A) (k : A -> S B) : keep m -> (forall a, keep (k a)) -> keep (m ≫= k).
Proof. intros Hm Hk s I. apply spost_bind. eapply spost_mono; [by apply Hm|]. intros a s' I'. by apply Hk. Qed.

Lemma keep_get {B} (k : stack -> S B) : (forall s, stack_inv s -> spost s (k s) (fun _ s' => stack_inv s')) -> keep (get ≫= k).
Proof. intros Hk s I. apply spost_bind, spost_get. by apply Hk. Qed.

Lemma keep_lift {A} (o : outcome A) : keep (lift o).
Proof. intros s I. by apply spost_lift. Qed.

Lemma keep_failing {A} n c : keep (failing (A := A) n c).
Proof. apply keep_ret. Qed.

Lemma keep_transmit l : keep (transmit l).
Proof. intros s I. by apply spost_transmit. Qed.

Lemma tcp_inv {A} s (m : P A) : stack_inv s -> wf_pres m -> (forall D, pres D m) ->
  post (tcp s) m (fun _ i' => stack_inv (set_tcp i' s)).
Proof.
  intros I W Hp tr a i' tr' E. apply inv_tcp; [done|eapply W; [apply I|exact E]|eapply Hp; [apply I|exact E]].
Qed.

Lemma keep_tcp {A} (m : P A) : wf_pres m -> (forall D, pres D m) -> keep (on_tcp m).
Proof. intros W Hp s I. apply spost_tcp. by apply tcp_inv. Qed.

Create HintDb keep.
Hint Resolve keep_ret keep_lift keep_failing keep_transmit : keep.

(** The calls of the stack on the TCP peer that name no new descriptor. *)
Lemma keep_tcp_calls :
  (forall qd a, keep (on_tcp (TcpPeer.bind qd a))) /\
  (forall nonce qd b, keep (on_tcp (TcpPeer.listen nonce qd b))) /\
  (forall qd r, keep (on_tcp (TcpPeer.connect crc32 qd r))) /\
  (forall e qd b, keep (on_tcp (TcpPeer.push e qd b))) /\
  (forall e h b, keep (on_tcp (TcpPeer.receive crc32 e h b))) /\
  (forall h b, keep (on_tcp (receive_tcpmig h b))) /\
  (forall b, keep (on_tcp (receive_rps_signal b))) /\
  (forall fd, keep (on_tcp (poll_connect_finished fd))) /\
  (forall fd, keep (on_tcp (poll_recv fd))).
Proof.
  split_and!; intros; apply keep_tcp; intros;
    auto using pres_bind_, pres_listen, pres_connect, pres_push, pres_receive, pres_receive_tcpmig, pres_poll_connect, pres_poll_recv.
  - apply (wf_event _ (EvBind qd a)), @discard.
  - apply (wf_event _ (EvListen nonce qd b)), @discard.
  - apply (wf_event _ (EvConnect crc32 qd r)), @discard.
  - apply (wf_event _ (EvPush e qd b)), @discard.
  - apply (wf_event _ (EvPacket crc32 e h b)), @discard.
  - apply (wf_event _ (EvTcpmig h b)), @discard.
  - apply (wf_event _ (EvRpsSignal b)), @discard.
  - by apply (pres_load D b).
  - apply (wf_event _ (EvConnectPoll fd)), @discard.
  - apply (wf_event _ (EvPop fd)), @discard.
Qed.

(** And those about load and migration. *)
Lemma keep_tcp_load :
  keep (on_tcp poll_stats) /\ keep (on_tcp rps_signal_action) /\ keep (on_tcp TcpPeer.connections_to_reactively_migrate) /\
  (forall l, keep (on_tcp (initiate_migrations l))) /\ (forall qd, keep (on_tcp (initiate_migration_by_qd qd))) /\
  (forall qd st, keep (on_tcp (TcpPeer.register_application_state qd st))) /\
  (forall d qd, keep (on_tcp (TcpPeer.get_migrated_application_state d qd))).
Proof.
  split_and!; intros; apply keep_tcp; intros; try (by apply (pres_load D [])); auto using pres_initiates, pres_initiate_qd, pres_register, pres_migrated_state.
  - by apply (wf_event _ EvPollStats); intros ? ? [].
  - by apply (wf_event _ EvRpsAction); intros ? ? [].
  - apply (wf_event _ EvReactive), @discard.
  - apply wf_tables. apply post_initiates.
  - apply (wf_event _ (EvMigrateByQd qd)), @discard.
  - by apply (wf_event _ (EvRegister qd st)); intros ? ? [].
  - apply (wf_event _ (EvMigratedState d qd)), @discard.
Qed.

Lemma keep_tcp_tasks :
  (forall now a l r, keep (on_tcp (listen_task now a l r))) /\ (forall now a conn, keep (on_tcp (connect_task now a conn))) /\
  (forall conn o, keep (on_tcp (connection_task conn o))).
Proof.
  split_and!; intros; apply keep_tcp; intros.
  - by apply (wf_event _ (EvListenTask now a l r)); intros ? ? [].
  - unfold listen_task. pres.
  - by apply (wf_event _ (EvConnectTask now a conn)); intros ? ? [].
  - unfold connect_task. pres.
  - by apply (wf_event _ (EvConnectionTask conn o)); intros ? ? [].
  - unfold connection_task. pres.
Qed.

(** *** Calls of the application *)

Lemma keep_with_type {A} qd (k : QType -> S (Result A)) :
  (forall s ty, stack_inv s -> ft s !! qd = Some (QType_to_u32 ty) -> spost s (k ty) (fun _ s' => stack_inv s')) -> keep (with_type qd k).
Proof.
  intros Hk. apply keep_get. intros s I. rewrite table_get. destruct (ft s !! qd) as [v|] eqn:E; [|by apply keep_failing].
  unfold QType_try_from. destruct (Z.eqb_spec v 1) as [->|]; [by apply Hk|]. destruct (Z.eqb_spec v 2) as [->|]; [by apply Hk|by apply keep_failing].
Qed.

Lemma keep_only {A} want qd (m : S (Result A)) : (forall s, stack_inv s -> ft s !! qd = Some (QType_to_u32 want) -> spost s m (fun _ s' => stack_inv s')) ->
  keep (with_type qd (only want m)).
Proof. intros Hm. apply keep_with_type. intros s ty I E. destruct want, ty; cbn [only]; auto; by apply keep_failing. Qed.

(** A task that books nothing is scheduled. *)
Lemma schedule_inv s f : stack_inv s -> bookless f -> queue_of (udp s) f -> marked (mkTask f false) ->
  spost s (schedule new_key f) (fun _ s' => stack_inv s').
Proof.
  intros I Hb Hq Hm tr r s' tr' E. unfold schedule in E. destruct (new_key (tasks s)) as [k|] eqn:Ek; injection E as <- <- _; [|done].
  apply inv_task; [done| |done|done|done]. intros tk'. by rewrite (new_key_fresh _ _ Ek).
Qed.

Lemma issue_inv s f : stack_inv s -> bookless f -> queue_of (udp s) f -> marked (mkTask f false) -> spost s (issue new_key f) (fun _ s' => stack_inv s').
Proof. intros I Hb Hq Hm. apply spost_bind. eapply spost_mono; [by apply schedule_inv|]. intros [k|] s' I'; by apply spost_ret. Qed.

Lemma bookless_tcp f : (forall x, f <> TcpAccept x) -> bookless (Tcp f).
Proof. intros Hf nq. destruct f as [x| | |]; [by destruct (Hf x)|intros []..]. Qed.

(** The UDP peer is replaced. *)
Lemma udp_inv s u : stack_inv s -> UdpHost.sock_inv core u -> (forall qd, is_Some (UdpPeer.sockets u !! qd) -> is_Some (UdpPeer.sockets (udp s) !! qd)) ->
  (forall id, is_Some (UdpPeer.queues (udp s) !! id) -> is_Some (UdpPeer.queues u !! id)) -> stack_inv (set_udp u s).
Proof. intros I Hu Hs Hq. apply inv_udp; [done|done| |done]. intros qd Hqd. apply I, Hs, Hqd. Qed.

Lemma bind_sub (u : UdpPeer.t C) qd a : UdpHost.sock_inv core u -> core <> Some (port a) ->
  (forall x, is_Some (UdpPeer.sockets (UdpPeer.do_bind u qd a).2 !! x) -> is_Some (UdpPeer.sockets u !! x)) /\
  (forall id, is_Some (UdpPeer.queues u !! id) -> is_Some (UdpPeer.queues (UdpPeer.do_bind u qd a).2 !! id)).
Proof.
  intros I Hc. destruct (UdpHost.do_bind_ok core u qd a I Hc) as [_ _ B]. destruct (UdpPeer.do_bind u qd a).1 as [v|e].
  - destruct B as (b & _ & _ & _ & Hq & -> & _ & _ & ->). split; intros x; rewrite lookup_insert_is_Some'; [intros [<-|]; [by rewrite Hq|done]|by right].
  - by destruct B as (-> & _ & ->).
Qed.

Lemma close_sub (u : UdpPeer.t C) qd : (forall x, is_Some (UdpPeer.sockets (UdpPeer.do_close u qd).2 !! x) -> x <> qd /\ is_Some (UdpPeer.sockets u !! x)) /\
  UdpPeer.queues (UdpPeer.do_close u qd).2 = UdpPeer.queues u.
Proof.
  unfold UdpPeer.do_close. destruct (UdpPeer.sockets u !! qd) as [o|] eqn:E.
  - assert (Hd : forall x, is_Some (delete qd (UdpPeer.sockets u) !! x) -> x <> qd /\ is_Some (UdpPeer.sockets u !! x)) by (intros x; rewrite lookup_delete_is_Some; intros [? ?]; by split).
    destruct o as [a|]; cbn; [destruct (UdpPeer.bound u !! a); cbn|]; done.
  - split; [|done]. cbn. intros x Hx. split; [|done]. intros ->. rewrite E in Hx. by destruct Hx.
Qed.

Lemma bind_inv qd a : core <> Some (port a) -> keep (bind qd a).
Proof.
  intros Hc. apply keep_with_type. intros s [|] I _; [|by apply keep_tcp_calls]. apply spost_bind, spost_get.
  pose proof (UdpHost.do_bind_ok core (udp s) qd a (i_udp _ I) Hc) as [B _ _]. destruct (bind_sub (udp s) qd a (i_udp _ I) Hc) as [Hs Hq].
  destruct (UdpPeer.do_bind (udp s) qd a) as [r u]. apply spost_bind, spost_modify, spost_ret. by apply udp_inv.
Qed.

Lemma listen_inv nonce qd b : keep (listen nonce qd b).
Proof. unfold listen. destruct (Nat.eqb b 0); [apply keep_failing|]. apply keep_only. intros s I _. by apply keep_tcp_calls. Qed.

Lemma connect_inv qd r : keep (connect new_key crc32 qd r).
Proof.
  apply keep_only. intros s I _. apply spost_bind. eapply spost_mono; [by apply keep_tcp_calls|]. intros [fd|e] s' I'; [|by apply spost_ret].
  by apply issue_inv; [|apply bookless_tcp| |].
Qed.

Lemma push_inv qd data : keep (push2 new_key qd data).
Proof.
  unfold push2. destruct (Nat.eqb (length data) 0); [apply keep_failing|]. intros s I. apply spost_bind.
  assert (Hd : spost s (do_push qd data) (fun r s' => stack_inv s' /\ match r with Ok f => exists x, f = Tcp (TcpPush (mkFuture x None)) | Err _ => True end)).
  { apply spost_bind, spost_get. rewrite table_get. destruct (ft s !! qd) as [v|]; [|by apply spost_failing].
    destruct (QType_try_from v) as [[|]|]; [by apply spost_failing| |by apply spost_failing]. apply spost_bind, spost_get, spost_bind.
    eapply spost_mono; [by apply keep_tcp_calls|]. intros f s' I'. apply spost_ret. split; [done|]. by eexists. }
  eapply spost_mono; [exact Hd|]. intros [f|e] s' [I' Hf]; [|by apply spost_ret]. destruct Hf as [x ->]. by apply issue_inv; [|apply bookless_tcp| |].
Qed.

Lemma pop_inv qd : keep (pop new_key qd).
Proof.
  apply keep_with_type. intros s [|] I _; [|by apply issue_inv; [|apply bookless_tcp| |]]. apply spost_bind, spost_get, spost_bind, spost_lift.
  intros f Hf. apply issue_inv; [done|by intros nq []| |done]. cbn. pose proof (UdpHost.do_pop_ok core (udp s) qd (i_udp _ I)) as Hp.
  destruct (UdpPeer.sockets (udp s) !! qd) as [[a|]|]; [|congruence|congruence]. destruct Hp as (id & Hid & Hp). rewrite Hp in Hf. injection Hf as <-.
  by eapply (UdpHost.s_live _ _ (i_udp _ I)).
Qed.

(** The parts of the UDP peer that its invariant and its descriptors depend on. *)
Definition same_tables (u u' : UdpPeer.t C) : Prop :=
  UdpPeer.ephemeral_ports u' = UdpPeer.ephemeral_ports u /\ UdpPeer.sockets u' = UdpPeer.sockets u /\ UdpPeer.bound u' = UdpPeer.bound u /\
  UdpPeer.queues u' = UdpPeer.queues u /\ UdpPeer.next_queue u' = UdpPeer.next_queue u.

Lemma same_inv s u : stack_inv s -> same_tables (udp s) u -> stack_inv (set_udp u s).
Proof.
  intros I (E1 & E2 & E3 & E4 & E5). apply udp_inv; [done| |by rewrite E2|by rewrite E4].
  by eapply UdpHost.sock_inv_frame; [..|apply I].
Qed.

Lemma pushto_same u a qd d rem r u' txs : UdpPeer.do_pushto u a qd d rem = Ret (r, u', txs) -> same_tables u u'.
Proof.
  unfold UdpPeer.do_pushto. destruct (UdpPeer.sockets u !! qd) as [[loc|]|]; [|by intros [= _ <- _]|by intros [= _ <- _]].
  destruct (ArpPeer.try_query a (ip rem)); [by intros [= _ <- _]|]. destruct (SharedQueue.push _ _) as [[r' q]| |]; cbn; [|done|done]. by intros [= _ <- _].
Qed.

Lemma background_same fuel : forall u a t tf u' a' txs, UdpPeer.background_sender fuel u a t tf = Ret (u', a', txs) -> same_tables u u'.
Proof.
  induction fuel as [|fuel IH]; intros u a t tf u' a' txs; [done|]. cbn [UdpPeer.background_sender]. destruct (UdpPeer.background_task u) as [resumed|slot q].
  - destruct (SharedQueue.poll_pop _ _) as [[m q]| |]; cbn [mbind outcome_bind]; [|done|done]. destruct m as [slot|]; [|by intros [= <- _ _]].
    intros E. by apply IH in E.
  - destruct (ArpPeer.poll_query _ _ _ _ _) as [[[q' a1] ms]| |]; cbn [mbind outcome_bind]; [|done|done]. destruct q' as [| |r]; [by intros [= <- _ _]|by intros [= <- _ _]|].
    destruct (UdpPeer.background_sender fuel _ _ _ _) as [[[u1 a2] t1]| |] eqn:E; cbn [mbind outcome_bind]; [|done|done]. intros [= <- _ _]. by apply IH in E.
Qed.

Lemma pushto_inv qd data rem : keep (pushto2 new_key qd data rem).
Proof.
  unfold pushto2. destruct (Nat.eqb (length data) 0); [apply keep_failing|]. intros s I. apply spost_bind.
  assert (Hd : spost s (do_pushto qd data rem) (fun r s' => stack_inv s' /\ match r with Ok f => exists x, f = Udp (UdpPushto qd x) | Err _ => True end)).
  { apply spost_bind, spost_get. rewrite table_get. destruct (ft s !! qd) as [v|]; [|by apply spost_failing].
    destruct (QType_try_from v) as [[|]|]; [|by apply spost_failing|by apply spost_failing]. apply spost_bind, spost_get, spost_bind, spost_lift.
    intros [[r u] txs] E. apply spost_bind, spost_modify, spost_bind, spost_transmit, spost_ret. split; [|by eexists]. by eapply same_inv, pushto_same. }
  eapply spost_mono; [exact Hd|]. intros [f|e] s' [I' Hf]; [|by apply spost_ret]. destruct Hf as [x ->]. by apply issue_inv; [|intros nq []| |].
Qed.

(** *** Booked descriptors *)

Lemma accept_task_inv s k qd nq : fresh_qd s nq TcpSocket -> tasks s !! k = None ->
  stack_inv (set_tasks (<[k := mkTask (Tcp (TcpAccept (mkFuture (qd, nq) None))) false]> (tasks s)) s).
Proof.
  intros [[I1 I2 I3 I4 I5 I6 I7 I8 I9] Hty Ht Hu Hb] Hk. set (tk := mkTask _ false). set (s' := set_tasks _ s).
  assert (Hbk : forall x, booked s' x -> booked s x \/ x = nq).
  { intros x (k' & tk' & Hk' & B). cbn [s' tasks set_tasks] in Hk'. apply lookup_insert_Some in Hk' as [[<- <-]|[_ Hk']]; [right; by destruct B|left; by exists k', tk']. }
  split; try done; cbn [tasks set_tasks udp tcp s'].
  - intros x Hx. destruct (I2 x Hx) as [H1 H2]. split; [done|]. intros [B| ->]%Hbk; [done|]. rewrite Ht in Hx. by destruct Hx.
  - intros x [B| ->]%Hbk; [by apply I5|done].
  - intros k1 k2 t1 t2 x [[<- <-]|[N1 H1]]%lookup_insert_Some [[<- <-]|[N2 H2]]%lookup_insert_Some B1 B2; [done| | |by eapply I6].
    + destruct B1 as [<- _]. destruct Hb. by exists k2, t2.
    + destruct B2 as [<- _]. destruct Hb. by exists k1, t1.
  - intros k1 t1 [[<- <-]|[N1 H1]]%lookup_insert_Some; [done|by eapply I7].
  - intros k1 t1 [[<- <-]|[N1 H1]]%lookup_insert_Some; [done|by eapply I8].
Qed.

Lemma accept_inv qd : keep (accept new_key qd).
Proof.
  apply keep_only. intros s I _. apply spost_bind.
  assert (Hbook : spost s book_qd (fun nq s' => fresh_qd s' nq TcpSocket)).
  { apply spost_bind, spost_get. rewrite (i_migrated _ I), elements_empty. eapply spost_mono; [by apply alloc_fresh|]. by intros nq s' [? _]. }
  eapply spost_mono; [exact Hbook|]. intros nq s1 F. apply spost_bind. intros tr r s2 tr' E. unfold schedule in E.
  destruct (new_key (tasks s1)) as [k|] eqn:Ek; injection E as <- <- _; [apply spost_ret; apply accept_task_inv; [done|by apply new_key_fresh]|].
  apply spost_bind, spost_modify, spost_ret. destruct F as [F1 F2 F3 F4 F5]. by apply free_inv.
Qed.

(** The tasks change at one key, from an accept that books to one that books the same, or not. *)
Lemma replace_accept_inv s k qd nq d b i : stack_inv s -> tasks s !! k = Some (mkTask (Tcp (TcpAccept (mkFuture (qd, nq) None))) false) ->
  peer_wf i -> match d with Some (Ok _) => sdom (fun x => ft s !! x = Some 2 /\ ~ booked s x \/ x = nq) i | _ => in_sockets i = in_sockets (tcp s) end ->
  b = match d with Some _ => true | None => false end ->
  stack_inv (set_tasks (<[k := mkTask (Tcp (TcpAccept (mkFuture (qd, nq) d))) b]> (tasks s)) (set_tcp i s)).
Proof.
  intros [I1 I2 I3 I4 I5 I6 I7 I8 I9] Hk W Hd Hb. set (tk := mkTask _ b). set (s' := set_tasks _ _).
  assert (Hold : booked s nq) by (eexists k, _; by split).
  assert (Hbk : forall x, booked s' x -> booked s x /\ (x = nq -> match d with Some (Ok _) => False | _ => True end)).
  { intros x (k' & tk' & Hk' & B). cbn [s' tasks set_tasks set_tcp] in Hk'. apply lookup_insert_Some in Hk' as [[<- <-]|[Hne Hk']].
    - destruct B as [<- B]. split; [done|]. by destruct d as [[|]|].
    - split; [by exists k', tk'|]. intros ->. destruct Hne. by eapply (I6 _ _ _ _ nq Hk Hk'). }
  split; try done; cbn [tasks set_tasks udp tcp set_tcp s'].
  - intros x Hx. cut (ft s !! x = Some 2 /\ ~ booked s' x); [done|]. destruct d as [[v|e]|].
    + destruct (Hd x Hx) as [[H1 H2]| ->]; [split; [done|]; by intros [B _]%Hbk|]. split; [by apply I5|]. intros [_ B]%Hbk. by apply B.
    + rewrite Hd in Hx. destruct (I2 x Hx) as [H1 H2]. split; [done|]. by intros [B _]%Hbk.
    + rewrite Hd in Hx. destruct (I2 x Hx) as [H1 H2]. split; [done|]. by intros [B _]%Hbk.
  - intros x [B _]%Hbk. by apply I5.
  - assert (Hsame : forall x, books (op tk) x -> books (Tcp (TcpAccept (mkFuture (qd, nq) None))) x) by (intros x [<- _]; done).
    intros k1 k2 t1 t2 x [[<- <-]|[N1 H1]]%lookup_insert_Some [[<- <-]|[N2 H2]]%lookup_insert_Some B1 B2; [done| | |by eapply I6].
    + eapply I6; [exact Hk|exact H2|by apply Hsame|done].
    + eapply I6; [exact H1|exact Hk|done|by apply Hsame].
  - intros k1 t1 [[<- <-]|[N1 H1]]%lookup_insert_Some; [done|by eapply I7].
  - intros k1 t1 [[<- <-]|[N1 H1]]%lookup_insert_Some; [by subst b|by eapply I8].
Qed.

Lemma booked_not_known s nq : stack_inv s -> booked s nq -> in_sockets (tcp s) !! nq = None /\ UdpPeer.sockets (udp s) !! nq = None.
Proof.
  intros I B. pose proof (i_booked _ I nq B) as Hf. split.
  - destruct (in_sockets (tcp s) !! nq) eqn:E; [|done]. destruct (i_tcp_dom _ I nq) as [_ []]; [by rewrite E|done].
  - destruct (UdpPeer.sockets (udp s) !! nq) eqn:E; [|done]. assert (ft s !! nq = Some 1) by (apply I; by rewrite E). congruence.
Qed.

(** *** Closing, taking results *)

Lemma close_inv qd : keep (close qd).
Proof.
  intros s I. apply spost_bind, spost_bind, spost_get. rewrite table_get.
  assert (Hfail : forall n c, spost s (failing n c) (fun r s' => spost s' (match (r : Result unit) with Ok _ => _ ← free_qd qd; mret (Ok tt) | Err e => mret (Err e) end) (fun _ s' => stack_inv s'))).
  { intros n c. apply spost_failing. by apply spost_ret. }
  destruct (ft s !! qd) as [v|] eqn:E; [|apply Hfail]. unfold QType_try_from. destruct (Z.eqb_spec v 1) as [->|]; [|destruct (Z.eqb_spec v 2) as [->|]; [|apply Hfail]].
  - apply spost_bind, spost_get. pose proof (UdpHost.close_sock_inv core (udp s) qd (i_udp _ I)) as B. destruct (close_sub (udp s) qd) as [Hs Hq].
    destruct (UdpPeer.do_close (udp s) qd) as [r u]. cbn [snd] in *. apply spost_bind, spost_modify, spost_ret.
    assert (I' : stack_inv (set_udp u s)) by (apply udp_inv; [done|done|by intros x [_ Hx]%Hs|by rewrite Hq]).
    destruct r as [v|e]; [|by apply spost_ret]. apply spost_bind, spost_modify, spost_ret. apply free_inv; [done| | |].
    + destruct (in_sockets (tcp s) !! qd) eqn:Et; [|done]. destruct (i_tcp_dom _ I qd) as [H1 _]; [by rewrite Et|]. congruence.
    + cbn. destruct (UdpPeer.sockets u !! qd) eqn:Eu; [|done]. destruct (Hs qd); [by rewrite Eu|done].
    + intros B'. pose proof (i_booked _ I qd B'). congruence.
  - apply spost_bind, spost_get, spost_tcp. intros tr r i tr' Er.
    assert (I' : stack_inv (set_tcp i s)).
    { eapply (tcp_inv s (do_close (env s) qd)); [done|apply (wf_event _ (EvClose (env s) qd)), @discard|intros D; apply pres_do_close|exact Er]. }
    pose proof (close_sockets _ _ _ _ _ _ _ Er) as Hc. destruct r as [v|e]; [|by apply spost_ret]. apply spost_bind, spost_modify, spost_ret. apply free_inv; [done|done| |].
    + cbn. destruct (UdpPeer.sockets (udp s) !! qd) eqn:Eu; [|done]. assert (ft s !! qd = Some 1) by (apply I; by rewrite Eu). congruence.
    + intros B'. destruct (booked_not_known s qd I B') as [Hx _]. pose proof (close_known _ _ _ _ _ _ _ Er) as Hn. cbn in Hn. rewrite Hx in Hn. by destruct Hn.
Qed.

Lemma free_contents (s : stack) qd v : ft s !! qd = Some v -> slab_contents (IoQueueTable.free (file_table s) qd).2 = delete qd (ft s).
Proof.
  intros E. unfold IoQueueTable.free. rewrite slab_get_lookup. unfold ft in *. rewrite E. by destruct (slab_remove_some (file_table s) qd v E) as (tb & -> & Hc).
Qed.

(** The table of descriptors once the result of a task was taken: a failed accept gives back the
    one it booked. *)
Definition released (s : stack) (f : FutureOperation) : gmap Z Z :=
  match f with
  | Tcp (TcpAccept (mkFuture (_, nq) (Some (Err _)))) => delete nq (ft s)
  | _ => ft s
  end.

(** The result of a completed task can be taken. *)
Lemma take_returns s qt f tr : stack_inv s -> tasks s !! qt = Some (mkTask f true) ->
  exists r s', take_operation qt f s tr = Ret (r, s', tr) /\ tasks s' = delete qt (tasks s) /\ ft s' = released s f.
Proof.
  intros I Hk. pose proof (i_marked _ I _ _ Hk) as Hm. unfold marked in Hm. cbn in Hm. unfold take_operation, mbind, S_bind, modify.
  destruct f as [[[[x nq] [[v|e]|]]|[x [r|]]|[[x e] [r|]]|[x [r|]]]|[x r|[x [r|]]]|]; try done; cbn; do 2 eexists; split_and!; try done.
  apply (free_contents s nq 2), (i_booked _ I). eexists qt, _. by split.
Qed.

Lemma take_inv s qt f : stack_inv s -> tasks s !! qt = Some (mkTask f true) -> spost s (take_operation qt f) (fun _ s' => stack_inv s').
Proof.
  intros I Hk. apply spost_bind, spost_modify. pose proof (inv_delete_task s qt I) as I1.
  destruct f as [f|f|f]; [|apply spost_lift; by intros a _|apply spost_lift; by intros a _]. apply spost_bind, spost_lift. intros [[qd [nq|]] qr] E;
    [|apply spost_bind, spost_ret; by apply spost_ret].
  destruct f as [[[x y] [r|]]|[x [r|]]|[[x e] [r|]]|[x [r|]]]; try done. cbn in E. injection E as <- <- <-.
  destruct r as [v|e]; apply spost_bind; [apply spost_ret; by apply spost_ret|]. apply spost_modify, spost_ret.
  assert (B : booked s y) by (eexists qt, _; by split). destruct (booked_not_known s y I B) as [Ht Hu]. apply free_inv; [done|done|done|].
  intros (k' & tk' & Hk' & B'). cbn [tasks set_tasks] in Hk'. apply lookup_delete_Some in Hk' as [Hne Hk']. destruct Hne.
  by eapply (i_booked_one _ I _ _ _ _ y Hk Hk').
Qed.

(** *** Polls of the tasks *)

(** A task that books nothing changes its future. *)
Definition poll_keeps (k : Z) (s : stack) (r : FutureOperation * bool) (s' : stack) : Prop :=
  stack_inv (set_tasks (<[k := mkTask r.1 r.2]> (tasks s')) s').

Lemma done_task s k f f' b : stack_inv s -> tasks s !! k = Some (mkTask f false) -> bookless f -> bookless f' -> queue_of (udp s) f' -> marked (mkTask f' b) ->
  poll_keeps k s (f', b) s.
Proof. intros I Hk Hf Hf' Hq Hm. apply inv_task; [done| |done|done|done]. rewrite Hk. by intros tk' [= <-]. Qed.

Lemma tcp_future_inv {F R} s k (f : Future F R) (wrap : Future F R -> TcpOperation) (m : F -> P (option (Result R))) :
  stack_inv s -> tasks s !! k = Some (mkTask (Tcp (wrap f)) false) -> (forall g x, wrap g <> TcpAccept x) ->
  (forall g b, marked (mkTask (Tcp (wrap g)) b) <-> b = match fut_done g with Some _ => true | None => false end) ->
  (forall x, keep (on_tcp (m x))) ->
  spost s ('(f, b) ← poll_future f (fun x => r ← on_tcp (m x); mret (r, x)); mret (wrap f, b)) (fun r s' => poll_keeps k s (Tcp r.1, r.2) s').
Proof.
  intros I Hk Hw Hm Hp. apply spost_bind. unfold poll_future. destruct (fut_done f) as [d|] eqn:Ed.
  { apply spost_lift. by intros a ?. }
  apply spost_bind, spost_bind. intros tr r s' tr' E. pose proof (Hp (fut f) s I _ _ _ _ E) as I'.
  assert (Hs : tasks s' = tasks s) by (unfold on_tcp in E; destruct (m (fut f) (tcp s) []) as [[[? ?] ?]| |]; [by injection E as _ <- _|done|done]).
  apply spost_ret, spost_ret, spost_ret. eapply done_task; [done|by rewrite Hs|by apply bookless_tcp|apply bookless_tcp, Hw|by destruct (wrap _)|].
  cbn [fst snd]. apply Hm. by destruct r.
Qed.

Lemma poll_tcp_inv s k f : stack_inv s -> tasks s !! k = Some (mkTask (Tcp f) false) ->
  spost s (poll_tcp_operation f) (fun r s' => poll_keeps k s (Tcp r.1, r.2) s').
Proof.
  intros I Hk. apply spost_bind, spost_get. destruct f as [f|f|f|f].
  - pose proof (i_marked _ I _ _ Hk) as Hm. destruct f as [[qd nq] d]. cbn in Hm. destruct d as [d|]; [done|].
    apply spost_bind. unfold poll_future. cbn [fut_done fut fst snd]. apply spost_bind, spost_bind, spost_tcp. intros tr r i tr' E. apply spost_ret, spost_ret, spost_ret.
    unfold poll_keeps. cbn [fst snd]. apply (replace_accept_inv s k qd nq r _ i); [done|exact Hk| | |done].
    + eapply (wf_event _ (EvAccept (env s) qd nq)); [apply @discard|apply I|exact E].
    + pose proof (accept_sockets _ _ _ _ _ _ _ _ E) as Ha. destruct r as [[v|e]|]; [|done|done].
      assert (Hd : sdom (fun x => ft s !! x = Some 2 /\ ~ booked s x \/ x = nq) (tcp s)) by (intros x Hx; left; exact (i_tcp_dom _ I x Hx)).
      exact (pres_poll_accept _ (env s) qd nq (or_intror eq_refl) (tcp s) Hd _ _ _ _ E).
  - apply (tcp_future_inv s k f TcpConnect poll_connect_finished); try done. apply keep_tcp_calls.
  - pose proof (i_marked _ I _ _ Hk) as Hm. destruct f as [[fd e] d]. cbn in Hm. destruct d as [d|]; [done|]. apply spost_bind. unfold poll_future. cbn [fut_done fut].
    destruct (push_future_poll (fd, e)) as [r x]. apply spost_bind, spost_ret, spost_ret, spost_ret. by eapply done_task; [| |apply bookless_tcp|apply bookless_tcp| |].
  - apply (tcp_future_inv s k f TcpPop poll_recv); try done. apply keep_tcp_calls.
Qed.

Lemma pop_future_same u f r u' : UdpPeer.poll_pop_future u f = Ret (r, u') -> UdpPeer.sockets u' = UdpPeer.sockets u.
Proof.
  unfold UdpPeer.poll_pop_future. destruct (UdpPeer.queues u !! _); [|done]. destruct (SharedQueue.try_pop _) as [[m q]| |]; cbn; [|done|done]. by intros [= _ <-].
Qed.

Lemma poll_udp_inv s k f : stack_inv s -> tasks s !! k = Some (mkTask (Udp f) false) ->
  spost s (poll_udp_operation f) (fun r s' => poll_keeps k s (Udp r.1, r.2) s').
Proof.
  intros I Hk. destruct f as [qd r|f]; cbn [poll_udp_operation].
  - apply spost_ret. by eapply done_task; [|exact Hk|intros nq []|intros nq []| |].
  - pose proof (i_queue _ I _ _ Hk) as Hq. cbn in Hq. apply spost_bind. unfold poll_future. destruct (fut_done f) as [d|] eqn:Ed; [apply spost_lift; by intros a ?|].
    apply spost_bind, spost_bind, spost_get, spost_bind, spost_lift. intros [r u] E. apply spost_bind, spost_modify, spost_ret, spost_ret, spost_ret.
    destruct (UdpHost.poll_pop_future_ok core (udp s) (fut f) (i_udp _ I) Hq) as (r' & u' & E' & I' & _ & Hk' & _). rewrite E' in E. injection E as -> ->.
    assert (I1 : stack_inv (set_udp u s)) by (apply udp_inv; [done|done|by rewrite (pop_future_same _ _ _ _ E')|done]).
    eapply done_task; [done|exact Hk|intros nq []|intros nq []| |]; cbn; [by apply Hk'|by destruct r].
Qed.

Lemma poll_background_inv s k tf f : stack_inv s -> tasks s !! k = Some (mkTask (Background f) false) ->
  spost s (poll_background tf f) (fun f' s' => poll_keeps k s (Background f', false) s').
Proof.
  intros I Hk. assert (Hdone : forall s' f', stack_inv s' -> tasks s' = tasks s -> poll_keeps k s (Background f', false) s').
  { intros s' f' I' Ht. eapply (done_task s' k); [done|by rewrite Ht|intros nq []|intros nq []|done|done]. }
  apply spost_bind, spost_get. destruct f as [until| |].
  - destruct (until <=? clock s); [|apply spost_ret; by apply Hdone]. apply spost_bind, spost_lift. intros a _. apply spost_bind, spost_modify, spost_ret.
    apply Hdone; [by apply inv_arp|done].
  - apply spost_bind, spost_lift. intros [[u a] txs] E%background_same. apply spost_bind, spost_modify, spost_bind, spost_transmit, spost_ret.
    apply Hdone; [|done]. apply (same_inv (set_arp a s)); [by apply inv_arp|done].
  - apply spost_bind, spost_lift. intros [[p a] txs] E. apply spost_bind, spost_modify, spost_bind, spost_transmit, spost_ret.
    apply Hdone; [|done]. apply inv_icmp, inv_arp, I.
Qed.

Lemma poll_item_inv tf i : keep (poll_item_ tf i).
Proof.
  apply keep_get. intros s I. destruct i as [k|a l r|a conn|conn o]; try (by apply keep_tcp_tasks).
  destruct (tasks s !! k) as [[f [|]]|] eqn:Hk; try by apply spost_ret. apply spost_bind.
  assert (Hp : spost s (poll_operation tf f) (fun r s' => poll_keeps k s r s')).
  { destruct f as [f|f|f]; apply spost_bind; (eapply spost_mono; [by apply poll_tcp_inv || by apply poll_udp_inv || by apply poll_background_inv|]);
      [intros [f' b] s' Hs'|intros [f' b] s' Hs'|intros f' s' Hs']; by apply spost_ret. }
  eapply spost_mono; [exact Hp|]. intros [f' b] s' Hs'. by apply spost_modify.
Qed.

Lemma scheduler_poll_inv tf l : keep (scheduler_poll tf l).
Proof. induction l as [|i l IH]; cbn [scheduler_poll]; [apply keep_ret|]. apply keep_bind; [apply poll_item_inv|by intros _]. Qed.

(** *** Frames *)

Lemma udp_receive_same u iph buf r u' : UdpPeer.do_receive u iph buf = Ret (r, u') -> UdpPeer.sockets u' = UdpPeer.sockets u.
Proof.
  unfold UdpPeer.do_receive. destruct (UdpHeader.parse_from_slice _ _ _) as [[[hdr d]|e]| |]; cbn [mbind outcome_bind]; [|by intros [= _ <-]|done|done].
  destruct (match _ with Some q => Some q | None => _ end) as [id|]; [|by intros [= _ <-]]. destruct (UdpPeer.queues u !! id); [|done].
  destruct (SharedQueue.push _ _) as [[[|] q]| |]; cbn; try done. by intros [= _ <-].
Qed.

Lemma receive_frame_inv bytes : keep (do_receive crc32 bytes).
Proof.
  apply keep_bind; [apply keep_lift|]. intros [[h payload]|e]; [|apply keep_ret]. destruct (Ethernet2Header.ether_type h); [| |apply keep_ret].
  - apply keep_get. intros s I. apply spost_bind, spost_lift. intros [[r a] ms] _. apply spost_bind, spost_modify, spost_bind, spost_transmit, spost_ret. by apply inv_arp.
  - apply keep_bind; [apply keep_lift|]. intros [[ih pl]|e]; [|apply keep_ret]. apply keep_get. intros s I. destruct (Ipv4Header.get_protocol ih).
    + apply spost_bind, spost_lift. intros [r p] _. apply spost_bind, spost_modify, spost_ret. by apply inv_icmp.
    + by apply keep_tcp_calls.
    + apply spost_bind, spost_lift. intros mig _. destruct mig; [by apply keep_tcp_calls|]. apply spost_bind, spost_lift. intros rps _. destruct rps; [by apply keep_tcp_calls|].
      apply spost_bind, spost_lift. intros [r u] E. apply spost_bind, spost_modify, spost_ret.
      destruct (UdpHost.do_receive_ok core (udp s) ih pl (i_udp _ I)) as (r' & u' & E' & I' & _ & Hq & _). rewrite E' in E. injection E as -> ->.
      apply udp_inv; [done|done|by rewrite (udp_receive_same _ _ _ _ _ E')|done].
Qed.

Lemma batch_inv l : keep (receive_batch crc32 l).
Proof. induction l as [|p l IH]; cbn [receive_batch]; [apply keep_ret|]. apply keep_bind; [apply receive_frame_inv|by intros _]. Qed.

Lemma runtime_inv n : forall rx, keep (poll_runtime_no_scheduler_poll crc32 n rx).
Proof.
  induction n as [|n IH]; intros rx; cbn [poll_runtime_no_scheduler_poll]; [apply keep_ret|]. destruct rx as [|[|p b] rx]; [apply keep_ret|apply keep_ret|].
  apply keep_bind; [apply batch_inv|by intros _].
Qed.

Lemma bg_work_inv w : keep (poll_bg_work crc32 w).
Proof.
  destruct keep_tcp_load as (K1 & K2 & K3 & K4 & _). unfold poll_bg_work. apply keep_bind; [apply runtime_inv|intros _]. apply keep_bind; [apply scheduler_poll_inv|intros _].
  apply keep_bind; [done|intros _]. apply keep_bind; [done|intros _]. apply keep_bind; [done|intros o]. apply keep_bind; [destruct o; [apply K4|apply keep_ret]|intros _].
  intros s I. apply spost_modify. by apply inv_clock.
Qed.

(** *** Sockets and waiting *)

Lemma spost_and {A} s (m : S A) (Q Q' : A -> stack -> Prop) : spost s m Q -> spost s m Q' -> spost s m (fun a s' => Q a s' /\ Q' a s').
Proof. intros H1 H2 tr a s' tr' E. split; [by eapply H1|by eapply H2]. Qed.

(** A new socket is a fresh descriptor of its type; no peer had it. *)
Definition opened (s : stack) (ty : QType) (r : Result Z) (s' : stack) : Prop :=
  stack_inv s' /\ exists qd, r = Ok qd /\ ft s !! qd = None /\ ft s' !! qd = Some (QType_to_u32 ty) /\
    match ty with
    | TcpSocket => in_sockets (tcp s) !! qd = None /\ in_sockets (tcp s') !! qd = Some (Socket.Inactive None)
    | UdpSocket => UdpPeer.sockets (udp s) !! qd = None /\ UdpPeer.sockets (udp s') !! qd = Some None
    end.

Definition type_code (ty : QType) : Z := match ty with TcpSocket => SOCK_STREAM | UdpSocket => SOCK_DGRAM end.

Lemma opened_qd s ty : stack_inv s -> spost s (socket AF_INET (type_code ty)) (opened s ty).
Proof.
  intros I. unfold socket. change (negb (AF_INET =? AF_INET)) with false. cbv iota. destruct ty; unfold type_code.
  - change (SOCK_DGRAM =? SOCK_STREAM) with false. change (SOCK_DGRAM =? SOCK_DGRAM) with true. cbv iota. apply spost_bind.
    intros tr qd s1 tr1 E. pose proof (alloc_fresh s UdpSocket I _ _ _ _ E) as [[I1 Hty Ht Hu Hb] Hf].
    assert (Hs : udp s1 = udp s) by (unfold alloc_qd in E; destruct (IoQueueTable.alloc _ _); by injection E as _ <- _).
    apply spost_bind, spost_get. pose proof (UdpHost.socket_sock_inv core (udp s1) qd (i_udp _ I1)) as Hu'. unfold UdpPeer.do_socket in *. rewrite Hu in *.
    apply spost_bind, spost_modify, spost_ret. split; [apply inv_udp; [done|done| |done]|].
    + intros x. cbn. rewrite lookup_insert_is_Some'. intros [<-|Hx]; [done|by apply I1].
    + exists qd. split_and!; try done; [by rewrite <- Hs|]. cbn. by rewrite lookup_insert_eq.
  - change (SOCK_STREAM =? SOCK_STREAM) with true. cbv iota. apply spost_bind.
    intros tr qd s1 tr1 E. pose proof (alloc_fresh s TcpSocket I _ _ _ _ E) as [[I1 Hty Ht Hu Hb] Hf].
    assert (Hs : tcp s1 = tcp s) by (unfold alloc_qd in E; destruct (IoQueueTable.alloc _ _); by injection E as _ <- _).
    apply spost_bind, spost_tcp. intros tr2 r i tr3 Ei.
    assert (W : peer_wf i) by (eapply (wf_event _ (EvSocket qd)); [apply @discard|apply I1|exact Ei]).
    assert (Hd : sdom (fun x => ft s1 !! x = Some 2 /\ ~ booked s1 x) i) by (eapply pres_do_socket; [|apply I1|exact Ei]; by split).
    unfold do_socket, mbind, P_bind, inner, update in Ei. rewrite Ht in Ei. injection Ei as <- <- <-. apply spost_ret.
    split; [by apply inv_tcp|]. exists qd. split_and!; try done; [by rewrite <- Hs|]. cbn. by rewrite lookup_insert_eq.
Qed.

Lemma socket_inv d t : keep (socket d t).
Proof.
  intros s I. destruct (Z.eqb_spec d AF_INET) as [->|Hd].
  - destruct (Z.eqb_spec t SOCK_STREAM) as [->|H1]; [eapply spost_mono; [by apply (opened_qd s TcpSocket)|]; by intros r s' [? _]|].
    destruct (Z.eqb_spec t SOCK_DGRAM) as [->|H2]; [eapply spost_mono; [by apply (opened_qd s UdpSocket)|]; by intros r s' [? _]|].
    unfold socket. rewrite (proj2 (Z.eqb_neq t SOCK_STREAM)), (proj2 (Z.eqb_neq t SOCK_DGRAM)) by done. by apply spost_failing.
  - unfold socket. rewrite (proj2 (Z.eqb_neq d AF_INET)) by done. by apply spost_failing.
Qed.

Lemma wait2_inv qt ws : keep (wait2 crc32 qt ws).
Proof.
  apply keep_get. intros s I. destruct (tasks s !! qt); [|by apply spost_failing]. revert s I. change (keep (r ← wait2_loop crc32 qt ws; mret (Ok r))).
  apply keep_bind; [|intros r; apply keep_ret]. induction ws as [|w ws IH]; cbn [wait2_loop]; [apply keep_lift|]. apply keep_bind; [apply bg_work_inv|intros _].
  apply keep_get. intros s I. destruct (tasks s !! qt) as [[f [|]]|] eqn:Hk; [by apply take_inv|by apply IH|by apply IH].
Qed.

Lemma timedwait_inv qt ws : keep (timedwait2 crc32 qt ws).
Proof.
  apply keep_get. intros s I. destruct (tasks s !! qt); [|by apply spost_failing]. revert s I. change (keep (timedwait2_loop crc32 qt ws)).
  induction ws as [|w ws IH]; cbn [timedwait2_loop]; [apply keep_lift|]. apply keep_bind; [apply bg_work_inv|intros _].
  apply keep_get. intros s I. destruct (tasks s !! qt) as [[f [|]]|] eqn:Hk; [apply spost_bind; eapply spost_mono; [by apply take_inv|]; intros r s' I'; by apply spost_ret| |];
    destruct (expired w); try (by apply spost_failing); by apply IH.
Qed.

Lemma scan_inv n m qts : forall i acc, keep (scan n m qts i acc).
Proof.
  induction qts as [|qt qts IH]; intros i acc; cbn [scan]; [apply keep_ret|]. destruct (Nat.eqb _ _); [apply keep_ret|]. apply keep_get. intros s I.
  destruct (tasks s !! qt) as [[f [|]]|] eqn:Hk; [|by apply IH|by apply spost_failing]. apply spost_bind. eapply spost_mono; [by apply take_inv|].
  intros r s' I'. destruct (Nat.leb _ _); [by apply keep_lift|by apply IH].
Qed.

Lemma scan_all_inv n m qts : forall i acc, keep (scan_all n m qts i acc).
Proof.
  induction qts as [|qt qts IH]; intros i acc; cbn [scan_all]; [apply keep_ret|]. apply keep_get. intros s I.
  destruct (tasks s !! qt) as [[f [|]]|] eqn:Hk; [|by apply IH|by apply spost_failing]. apply spost_bind. eapply spost_mono; [by apply take_inv|].
  intros r s' I'. destruct (_ || _); [by apply keep_lift|by apply IH].
Qed.

Lemma scan_one_inv qts : forall i, keep (scan_one qts i).
Proof.
  induction qts as [|qt qts IH]; intros i; cbn [scan_one]; [apply keep_ret|]. apply keep_get. intros s I.
  destruct (tasks s !! qt) as [[f [|]]|] eqn:Hk; [|by apply IH|by apply spost_failing]. apply spost_bind. eapply spost_mono; [by apply take_inv|].
  intros [q r] s' I'. by apply spost_ret.
Qed.

Lemma wait_any_inv n m qts ws : keep (wait_any2 crc32 n m qts ws).
Proof.
  induction ws as [|w ws IH]; cbn [wait_any2]; [apply keep_lift|]. apply keep_bind; [apply bg_work_inv|intros _]. apply keep_bind; [apply scan_inv|].
  intros [[|x l]|e]; [destruct (expired w); [apply keep_ret|done]|apply keep_ret|apply keep_ret].
Qed.

Lemma switch_inv rx : keep (capybara_switch crc32 rx).
Proof. induction rx as [|b rx IH]; cbn [capybara_switch]; [apply keep_ret|]. apply keep_bind; [apply batch_inv|by intros _]. Qed.

Lemma polling_inv tf n : forall rx, keep (poll_runtime crc32 tf n rx).
Proof.
  induction n as [|n IH]; intros rx; cbn [poll_runtime]; [apply keep_ret|]. destruct rx as [|[|p b] rx]; [apply keep_ret|apply keep_ret|].
  apply keep_bind; [|by intros _]. generalize (p :: b). clear p b. intros b. induction b as [|[p l] b IHb]; cbn [receive_polling]; [apply keep_ret|].
  apply keep_bind; [apply receive_frame_inv|intros _]. apply keep_bind; [apply scheduler_poll_inv|by intros _].
Qed.

(** ** Reachable states *)

(** A call of the application. *)
Inductive call :=
| CSocket (domain socket_type : Z)
| CBind (qd : Z) (local : SocketAddrV4)
| CListen (nonce qd : Z) (backlog : nat)
| CAccept (qd : Z)
| CConnect (qd : Z) (remote : SocketAddrV4)
| CClose (qd : Z)
| CPush (qd : Z) (data : list Z)
| CPushto (qd : Z) (data : list Z) (remote : SocketAddrV4)
| CPop (qd : Z)
| CWait (qt : Z) (ws : list turn)
| CTimedwait (qt : Z) (ws : list turn)
| CWaitAny (n m : nat) (qts : list Z) (ws : list turn)
| CWaitNonblocking (n m : nat) (qts : list Z) (w : turn)
| CWaitOne (qts : list Z) (w : turn)
| CPoll (w : turn)
| CSwitch (rx : list (list Buffer.t))
| CMigrate (qd : Z)
| CRegister (qd : Z) (state : AppState)
| CMigratedState (deserialize : list Z -> AppState) (qd : Z).

Definition ignore {A} (m : St A) : St unit := _ ← m; mret tt.

Definition exec (c : call) : St unit :=
  match c with
  | CSocket d t => ignore (socket d t)
  | CBind qd a => ignore (bind qd a)
  | CListen nonce qd b => ignore (listen nonce qd b)
  | CAccept qd => ignore (accept new_key qd)
  | CConnect qd r => ignore (connect new_key crc32 qd r)
  | CClose qd => ignore (close qd)
  | CPush qd d => ignore (push2 new_key qd d)
  | CPushto qd d r => ignore (pushto2 new_key qd d r)
  | CPop qd => ignore (pop new_key qd)
  | CWait qt ws => ignore (wait2 crc32 qt ws)
  | CTimedwait qt ws => ignore (timedwait2 crc32 qt ws)
  | CWaitAny n m qts ws => ignore (wait_any2 crc32 n m qts ws)
  | CWaitNonblocking n m qts w => ignore (wait_any_nonblocking2 crc32 n m qts w)
  | CWaitOne qts w => ignore (wait_any_nonblocking_one2 crc32 qts w)
  | CPoll w => poll_bg_work crc32 w
  | CSwitch rx => capybara_switch crc32 rx
  | CMigrate qd => ignore (initiate_migration qd)
  | CRegister qd st => register_application_state qd st
  | CMigratedState d qd => ignore (get_migrated_application_state d qd)
  end.

Lemma keep_ignore {A} (m : S A) : keep m -> keep (ignore m).
Proof. intros Hm. apply keep_bind; [done|]. intros a. apply keep_ret. Qed.

(** A UDP socket is not bound to the port of CORE_ID by its number. *)
Definition command_ok (s : stack) (c : call) : Prop :=
  match c with CBind qd a => ft s !! qd = Some (QType_to_u32 TcpSocket) \/ core <> Some (port a) | _ => True end.

Lemma tcp_bind_inv s qd a : stack_inv s -> ft s !! qd = Some (QType_to_u32 TcpSocket) -> spost s (bind qd a) (fun _ s' => stack_inv s').
Proof.
  intros I Hq. unfold bind, with_type. apply spost_bind, spost_get. rewrite table_get, Hq. by apply keep_tcp_calls.
Qed.

Lemma exec_inv_other c : (forall qd a, c <> CBind qd a) -> keep (exec c).
Proof.
  intros Hc.
  destruct keep_tcp_load as (_ & _ & _ & _ & K5 & K6 & K7).
  destruct c; cbn [exec]; try apply keep_ignore; auto using socket_inv, listen_inv, accept_inv, connect_inv, close_inv, push_inv, pushto_inv, pop_inv,
    wait2_inv, timedwait_inv, wait_any_inv, switch_inv, bg_work_inv.
  - by destruct (Hc qd local).
  - apply keep_bind; [apply bg_work_inv|intros _; apply scan_all_inv].
  - apply keep_bind; [apply bg_work_inv|intros _; apply scan_one_inv].
  - apply K5.
  - apply K6.
  - apply K7.
Qed.

Lemma stack_exec_inv c s : command_ok s c -> stack_inv s -> spost s (exec c) (fun _ s' => stack_inv s').
Proof.
  intros Hc I. destruct c; try by apply exec_inv_other. cbn [exec]. unfold ignore. apply spost_bind.
  eapply (spost_mono _ _ (fun _ s' => stack_inv s')); [|intros r s' I'; by apply spost_ret].
  destruct Hc as [Hc|Hc]; [by apply tcp_bind_inv|by apply bind_inv].
Qed.

Lemma socket_returns s ty tr : stack_inv s -> exists r s', socket AF_INET (type_code ty) s tr = Ret (r, s', tr).
Proof.
  intros I. unfold socket, mbind, S_bind, alloc_qd, IoQueueTable.alloc, on_tcp, do_socket, get, modify. change (negb (AF_INET =? AF_INET)) with false. cbv beta iota.
  destruct ty; unfold type_code.
  - change (SOCK_DGRAM =? SOCK_STREAM) with false. change (SOCK_DGRAM =? SOCK_DGRAM) with true. cbv beta iota.
    match goal with |- context [slab_insert ?a ?b] => destruct (slab_insert a b) as [qd tb] end. cbv beta iota.
    match goal with |- context [UdpPeer.do_socket ?a ?b] => destruct (UdpPeer.do_socket a b) as [[] u] end; by do 2 eexists.
  - change (SOCK_STREAM =? SOCK_STREAM) with true. cbv beta iota. match goal with |- context [slab_insert ?a ?b] => destruct (slab_insert a b) as [qd tb] end.
    unfold mbind, P_bind, inner, update. cbv beta iota. match goal with |- context [in_sockets ?a !! qd] => destruct (in_sockets a !! qd) end; cbn; rewrite app_nil_r; by do 2 eexists.
Qed.

(** A completed operation followed by a token that is not valid: the result was taken and is lost,
    the caller sees an error only. *)
Lemma scan_loses_result (s : stack) n m qt bad f tr : stack_inv s -> tasks s !! qt = Some (mkTask f true) -> tasks s !! bad = None ->
  exists s', scan (2 + n) (1 + m) [qt; bad] 0 [] s tr = Ret (Err (mkFail EINVAL "invalid queue token"), s', tr) /\ tasks s' !! qt = None.
Proof.
  intros I Hk Hb. destruct (take_returns s qt f tr I Hk) as (r & s' & E & Ht & _). exists s'. cbn [scan length Nat.eqb Nat.leb].
  unfold mbind, S_bind, get. cbn. rewrite Hk, E. cbn. rewrite Ht, lookup_delete_eq, lookup_delete_ne by congruence. by rewrite Hb.
Qed.

(** *** Descriptors of migrated connections *)

(** Closing the descriptor of a connection that was migrated away removes the socket, fails, and
    never gives the descriptor back. *)
Lemma close_migrated_leaks (s : stack) tr qd l r :
  ft s !! qd = Some (QType_to_u32 TcpSocket) -> in_sockets (tcp s) !! qd = Some (Socket.MigratedOut l r) ->
  exists s', close qd s tr = Ret (Err (mkFail ENOTSUP "close not implemented for listening sockets"), s', tr) /\ in_sockets (tcp s') !! qd = None /\ ft s' = ft s.
Proof.
  intros Hf Hq. unfold close, with_type, mbind, S_bind, get, on_tcp. cbv beta iota. rewrite table_get, Hf. cbn [QType_to_u32 QType_try_from Z.eqb Pos.eqb].
  unfold do_close, mbind, P_bind, inner, update. rewrite Hq. cbn. rewrite app_nil_r. eexists. split; [reflexivity|]. split; [|done]. cbn. apply lookup_delete_eq.
Qed.

(** Once the acknowledgement of a migration has been handled the connection is gone, so the slow
    path that follows it in [poll_runtime_tcpmig] panics. *)
Lemma prepare_acked_gone i qd : post i (act_on_status (StPrepareMigrationAcked qd)) (fun r i' =>
  r = Ok tt -> in_poll_state i' = mkPollState (Some qd) (fast_migrate (in_poll_state i)) /\ exists l r, in_sockets i' !! qd = Some (Socket.MigratedOut l r)).
Proof.
  unfold act_on_status, migrate_out_connection, send_tcp_state. post_steps. cbn [in_sockets set_in_poll_state].
  destruct (in_sockets i !! qd) as [x|]; [|post_steps]. destruct x; post_steps. destruct (in_qds _ !! _); post_steps. destruct (in_established _ !! _) as [c|]; post_steps.
  destruct (waker (es_cb c)); post_steps; apply post_call; intros [st cb] _; post_steps; apply post_call; intros [m tx] _; post_steps; intros _;
    (split; [done|]; cbn; rewrite lookup_insert_eq; by do 2 eexists).
Qed.

Lemma slow_path_panics (s : stack) tr qd i es :
  act_on_status (StPrepareMigrationAcked qd) (tcp s) [] = Ret (Ok tt, i, es) -> fast_migrate (in_poll_state (tcp s)) = false ->
  after_tcpmig crc32 [] (set_tcp i s) tr = Panic "invalid socket type for migrating out".
Proof.
  intros E Hf. destruct (prepare_acked_gone _ _ _ _ _ _ E eq_refl) as [Hp (l & r & Hs)]. rewrite Hf in Hp.
  unfold after_tcpmig, mbind, S_bind, get, modify. cbn. rewrite Hp. cbn. unfold on_tcp, migrate_out_and_send, migrate_out_connection, mbind, P_bind, inner. cbn. by rewrite Hs.
Qed.

End stack.

Section reach.
Context {C CI SL : Type} `{MC : Mpsc Slot C} `{UC : Unbounded (Ipv4Addr * Z * Z) CI} `{SC : Slab Z SL} `{!MpscLaws Slot C} `{!SlabLaws Z SL}.
Variable new_key : gmap Z task -> option Z.
Hypothesis new_key_fresh : forall m k, new_key m = Some k -> m !! k = None.
Variable crc32 : list Z -> Z.

Abbreviation stack := (InetStack.t C CI SL).

(** [core_id] is the environment variable CORE_ID, if it is set. *)
Inductive stack_reach (core_id : option Z) : stack -> Prop :=
| stack_start now shuffle mac ip offload tcp_new arp_config s :
    (forall l, shuffle l ≡ₚ l) -> UdpHost.core_ok core_id -> match tcp_new with Ok i => peer_reach i /\ in_sockets i = ∅ | Err _ => True end ->
    InetStack.new new_key now shuffle core_id mac ip offload tcp_new arp_config = Ret (Ok s) -> stack_reach core_id s
| stack_step c s s' tr : stack_reach core_id s -> command_ok (UdpHost.core_port core_id) s c ->
    exec new_key crc32 c s [] = Ret (tt, s', tr) -> stack_reach core_id s'.

Lemma new_inv now shuffle core_id mac ip offload i arp_config s :
  (forall l, shuffle l ≡ₚ l) -> UdpHost.core_ok core_id -> peer_reach i -> in_sockets i = ∅ ->
  InetStack.new new_key now shuffle core_id mac ip offload (Ok i) arp_config = Ret (Ok s) -> stack_inv (UdpHost.core_port core_id) s.
Proof.
  intros Hs Hco Hi He. unfold InetStack.new. destruct (ArpPeer.new now mac ip arp_config) as [a| |]; cbn [mbind outcome_bind]; [|done|done].
  set (s0 := mk a _ i _ _ ∅ now 0 ∅). assert (I0 : stack_inv (UdpHost.core_port core_id) s0).
  { split; cbn; try done.
    - by apply peer_reach_wf.
    - intros qd. rewrite He. by intros [? ?].
    - by apply UdpHost.new_sock_inv.
    - by intros qd [? ?].
    - by intros nq (k & tk & ? & _). }
  assert (Hgo : forall (s1 : stack) b r s2 tr, stack_inv (UdpHost.core_port core_id) s1 -> schedule new_key (Background b) s1 [] = Ret (r, s2, tr) -> stack_inv (UdpHost.core_port core_id) s2).
  { intros s1 b r s2 tr I1 E. eapply (schedule_inv new_key new_key_fresh _ s1 (Background b)); [done|intros nq []|done|done|exact E]. }
  destruct (schedule new_key (Background (ArpBackground now)) s0 []) as [[[k1 s1] t1]| |] eqn:E1; cbn [mbind outcome_bind]; [|done|done].
  destruct k1; [|done]. destruct (schedule new_key _ s1 []) as [[[k2 s2] t2]| |] eqn:E2; cbn [mbind outcome_bind]; [|done|done].
  destruct k2; [|done]. destruct (schedule new_key _ s2 []) as [[[k3 s3] t3]| |] eqn:E3; cbn [mbind outcome_bind]; [|done|done].
  destruct k3; [|done]. intros [= <-]. eapply Hgo; [|exact E3]. eapply Hgo; [|exact E2]. eapply Hgo; [|exact E1]. done.
Qed.

Lemma stack_reach_inv core_id s : stack_reach core_id s -> stack_inv (UdpHost.core_port core_id) s.
Proof.
  induction 1 as [now shuffle mac ip offload tn ac s Hs Hco Ht E|c s s' tr _ IH Hc E].
  - destruct tn as [i|e]; [destruct Ht as [H1 H2]; by eapply new_inv|]. unfold InetStack.new in E. by destruct (ArpPeer.new _ _ _ _).
  - by eapply (stack_exec_inv new_key new_key_fresh crc32 _ c s Hc IH).
Qed.

(** C18: The tables of the network stack agree with each other, whether CORE_ID is set (so that its
    port is not a private one) or not, as long as the application binds no UDP socket to the port of
    CORE_ID by its number.  In every state reached by any calls of
    the application, any frames from the device and any order in which tasks are polled: the tables
    of the TCP and UDP peers are well-formed, a descriptor a peer knows is allocated with the type of
    that peer (so a call never reaches the wrong peer, and no descriptor is known to both), the
    descriptors booked by accepts that have not succeeded are distinct, allocated for TCP and known
    to no peer; opening a socket returns a descriptor that was free; and the result of a completed
    task can be taken, which removes the task and gives back exactly the descriptor a failed accept
    booked. *)
Theorem stack_tables_agree (core_id : option Z) (s : stack) :
  stack_reach core_id s ->
  peer_wf (tcp s) /\ UdpHost.sock_inv (UdpHost.core_port core_id) (udp s) /\
  (forall qd, is_Some (in_sockets (tcp s) !! qd) -> ft s !! qd = Some (QType_to_u32 TcpSocket) /\ UdpPeer.sockets (udp s) !! qd = None) /\
  (forall qd, is_Some (UdpPeer.sockets (udp s) !! qd) -> ft s !! qd = Some (QType_to_u32 UdpSocket)) /\
  (forall nq, booked s nq -> ft s !! nq = Some (QType_to_u32 TcpSocket) /\ in_sockets (tcp s) !! nq = None /\ UdpPeer.sockets (udp s) !! nq = None) /\
  (forall k k' tk tk' nq, tasks s !! k = Some tk -> tasks s !! k' = Some tk' -> books (op tk) nq -> books (op tk') nq -> k = k') /\
  (forall ty tr, exists r s', socket AF_INET (type_code ty) s tr = Ret (r, s', tr) /\ opened (UdpHost.core_port core_id) s ty r s') /\
  (forall qt f tr, tasks s !! qt = Some (mkTask f true) ->
     exists r s', take_operation qt f s tr = Ret (r, s', tr) /\ tasks s' = delete qt (tasks s) /\ ft s' = released s f).
Proof.
  intros I%stack_reach_inv. split_and!; try apply I.
  - intros qd Hq. destruct (i_tcp_dom _ _ I qd Hq) as [H1 _]. split; [done|]. destruct (UdpPeer.sockets (udp s) !! qd) eqn:E; [|done].
    assert (ft s !! qd = Some 1) by (apply I; by rewrite E). congruence.
  - intros nq B. split; [exact (i_booked _ _ I nq B)|]. by apply (booked_not_known (UdpHost.core_port core_id)).
  - intros ty tr. destruct (socket_returns _ s ty tr I) as (r & s' & E). exists r, s'. split; [done|]. by eapply opened_qd.
  - intros qt f tr Hk. by apply (take_returns (UdpHost.core_port core_id)).
Qed.

End reach.

(** ** An example *)

Definition demo_key (m : gmap Z task) : option Z := Some (fresh (dom m : gset Z)).

Lemma demo_key_fresh m k : demo_key m = Some k -> m !! k = None.
Proof. intros [= <-]. apply (not_elem_of_dom (D := gset Z)), is_fresh. Qed.

Definition demo_crc32 (l : list Z) : Z := 0.

Abbreviation demo_stack := (InetStack.t (ListChannel Slot) (list (Ipv4Addr * Z * Z)) (gmap Z Z)).

Definition demo_new : outcome (Result demo_stack) :=
  InetStack.new demo_key 0 id (Some 1) ArpHost.mac1 ArpHost.ip1 true (Ok demo_peer) ArpHost.quick_config.

Lemma stack_tables_agree_witness :
  exists (s : demo_stack) qd, stack_reach demo_key demo_crc32 (Some 1) s /\ UdpPeer.sockets (udp s) !! qd = Some None /\ ft s !! qd = Some (QType_to_u32 UdpSocket).
Proof.
  assert (Hn : exists s0, demo_new = Ret (Ok s0)) by (eexists; reflexivity). destruct Hn as [s0 Hn].
  assert (R0 : stack_reach demo_key demo_crc32 (Some 1) s0).
  { apply (stack_start _ _ _ 0 id ArpHost.mac1 ArpHost.ip1 true (Ok demo_peer) ArpHost.quick_config s0); [done|intros i [= <-]; unfold FIRST_PRIVATE_PORT; lia| |exact Hn]. split; [|reflexivity].
    apply (peer_start FRONTEND_MAC (Ipv4Addr_new 10 0 1 8) TcpConfig_default id None 7 (mkPollState None false) 2048 None None 100 (F64.lit 11 20) (F64.lit 1 20)); [done|done|reflexivity]. }
  destruct (stack_tables_agree demo_key demo_key_fresh demo_crc32 (Some 1) s0 R0) as (_ & _ & _ & _ & _ & _ & Hs & _).
  destruct (Hs UdpSocket []) as (r & s1 & E & _ & qd & -> & _ & _ & _ & Hq).
  assert (R1 : stack_reach demo_key demo_crc32 (Some 1) s1).
  { eapply (stack_step _ _ _ (CSocket AF_INET SOCK_DGRAM)); [exact R0|exact I|]. cbn [exec]. unfold ignore, mbind, S_bind. change SOCK_DGRAM with (type_code UdpSocket). rewrite E. reflexivity. }
  exists s1, qd. split; [exact R1|]. split; [exact Hq|].
  apply (stack_tables_agree demo_key demo_key_fresh demo_crc32 (Some 1) s1 R1). rewrite Hq. by eexists.
Defined.

End Stack.
