(* ===== verification/UdpDelivery.v ===== *)
(** * A datagram sent by one stack arrives at another
    (src/src/rust/inetstack/: mod.rs, protocols/{peer.rs,arp,udp,ipv4,ethernet2})

    Two stacks on one link exchange frames as bytes.  The application of the first sends a datagram
    to an endpoint of the second: whether the first knows the link address of the second or has to
    ask for it, the datagram is put into the queue of the socket it is addressed to, once and
    unchanged, and no other queue changes. *)

From S2P Require Import Prelude Buffer SeqNumber Net Packet TtlCache Arp ArpSafety TcpSegment TcpMigSegment Congestion Rto CtrlBlk Handshake MigState MigPeer.
From S2P Require Import Stats Ports TcpPeer PeerTables SharedQueue Udp UdpSafety Icmp InetStack StackSafety.

(** The bytes the device sends for a frame. *)
Definition frame_wire (f : frame) : outcome (list Z) :=
  match f with
  | FArp m => wire m
  | FIcmp m => wire m
  | FUdp d => wire d
  | FTcp s => n ← TcpSegment.header_size s; hdr ← TcpSegment.write_header s (replicate n 0); Ret (hdr ++ default [] (TcpSegment.data s))
  | FMig s => hdr ← mig_write_header s (replicate (mig_header_size s) 0); Ret (hdr ++ mig_data s)
  end.

(** ** Datagrams as bytes *)

(** The payload is not taken for a message of the migration protocol or a load signal: both are
    recognized by the first word of the payload. *)
Definition plain_payload (d : list Z) : Prop :=
  TcpMigHeader.is_tcpmig (replicate 8 0 ++ d) = Ret false /\ TcpMigHeader.is_rps_signal (replicate 8 0 ++ d) = Ret false.

Lemma read_after_header b d : length b = 8%nat -> read_u32 (b ++ d) 8 = read_u32 (replicate 8 0 ++ d) 8.
Proof. intros Hb. explode b Hb. reflexivity. Qed.

Lemma plain_detected b d : length b = 8%nat -> plain_payload d -> TcpMigHeader.is_tcpmig (b ++ d) = Ret false /\ TcpMigHeader.is_rps_signal (b ++ d) = Ret false.
Proof.
  intros Hb [H1 H2]. unfold TcpMigHeader.is_tcpmig, TcpMigHeader.is_rps_signal in *. rewrite length_app, length_replicate in H1, H2.
  by rewrite length_app, Hb, (read_after_header b d Hb).
Qed.

(** What a receiver reads from the bytes of a datagram. *)
Record on_the_wire (src : Ipv4Addr) (sport : Z) (dst : SocketAddrV4) (d : list Z) (bytes : list Z) : Prop := {
  w_frame : exists eh ih payload ip_bytes,
    Ethernet2Header.parse bytes = Ret (Ok (eh, ip_bytes)) /\ Ethernet2Header.ether_type eh = EtIpv4 /\
    Ipv4Header.parse ip_bytes = Ret (Ok (ih, payload)) /\ Ipv4Header.get_protocol ih = UDP /\
    Ipv4Header.get_src_addr ih = src /\ Ipv4Header.get_dest_addr ih = ip dst /\
    TcpMigHeader.is_tcpmig payload = Ret false /\ TcpMigHeader.is_rps_signal payload = Ret false /\
    forall off, UdpHeader.parse_from_slice ih payload off = Ret (Ok (UdpHeader.new sport (port dst), d));
}.

Lemma udp_on_wire (src : Ipv4Addr) mac m (d : list Z) loc rem off :
  length mac = 6%nat -> length m = 6%nat -> u32_ok src -> u32_ok (ip rem) -> u16_ok (port loc) -> u16_ok (port rem) ->
  28 + blen d < 2^16 -> plain_payload d ->
  exists bytes, wire (UdpPeer.do_send src mac m d loc rem off) = Ret bytes /\ on_the_wire src (port loc) rem d bytes.
Proof.
  intros Hmac Hm Hs Hd Hp1 Hp2 Hn Hpl. set (dg := UdpPeer.do_send src mac m d loc rem off).
  set (ih := Ipv4Header.new src (ip rem) UDP). set (uh := UdpHeader.new (port loc) (port rem)).
  destruct (udp_serialize_parse uh (replicate 8 0) ih d off) as (ub & Hu & Hul & Hup); [done|done|done|lia|].
  assert (Hlen : blen (ub ++ d) = 8 + blen d) by (rewrite blen_app; unfold blen; rewrite Hul; lia).
  pose proof (ipv4_new_wf src (ip rem) UDP Hs Hd) as Hwf. pose proof (blen_nonneg d).
  destruct (ipv4_serialize_bytes ih (replicate 20 0) (blen (ub ++ d)) eq_refl Hwf) as (ck & Hi & Hck & Hcs & _); [lia|lia|].
  set (ib := ipv4_bytes ih (20 + blen (ub ++ d)) ck) in *.
  pose proof (ipv4_parse_bytes ih (ub ++ d) [] ck Hwf ltac:(lia) Hck Hcs) as Hip. rewrite app_nil_r in Hip.
  destruct (ethernet2_serialize_parse (Ethernet2Header.new m mac EtIpv4) (replicate 14 0) (ib ++ ub ++ d) eq_refl Hm Hmac) as (eb & He & Hel & Hep).
  assert (Hil : length ib = 20%nat) by done.
  exists (eb ++ ib ++ ub ++ d). split.
  - unfold wire. cbn [Packet.header_size Packet.write_header Packet.take_body udp_packet]. unfold UdpDatagram.write_header, UdpDatagram.header_size.
    change (Ethernet2Header.compute_size _ + Ipv4Header.compute_size _ + UdpHeader.UDP_HEADER_SIZE)%nat with 42%nat.
    change (replicate 42 0) with ([] ++ replicate 14 0 ++ (replicate 20 0 ++ replicate 8 0)).
    rewrite (on_slice_mid [] (replicate 14 0) _ _ eb) by done. cbn [mbind outcome_bind app].
    rewrite (on_slice_mid eb (replicate 20 0) (replicate 8 0) _ ib); [|done|done| |done].
    2:{ rewrite Hlen in Hi. exact Hi. }
    cbn [mbind outcome_bind]. replace (eb ++ ib ++ replicate 8 0) with ((eb ++ ib) ++ replicate 8 0 ++ []) by (by rewrite app_nil_r, <- app_assoc).
    rewrite (on_slice_mid (eb ++ ib) (replicate 8 0) [] _ ub); [|by rewrite length_app, Hel, Hil|done|exact Hu|by rewrite Hul].
    cbn [mbind outcome_bind]. change (default [] (UdpDatagram.take_body dg)) with d. by rewrite app_nil_r, <- !app_assoc.
  - destruct (plain_detected ub d Hul Hpl) as [T1 T2]. split. do 4 eexists. split; [exact Hep|]. split; [done|]. split; [exact Hip|]. split_and!; try done.
    intros off'. by apply Hup.
Qed.

(** ** Address resolution, step by step *)

Section arp.
Import ArpPeer.

(** A query for an unknown address sends one request and waits on a fresh channel. *)
Lemma query_start (a : ArpPeer.t) now tf addr : ArpCache.get (cache a) addr = None -> 0 < request_timeout (arp_config a) ->
  exists ch n a2, poll_query a now tf addr QStart = Ret (QWaiting ch n (now + request_timeout (arp_config a)), a2, [request a addr]) /\
    cache a2 = cache a /\ arp_config a2 = arp_config a /\ local_link_addr a2 = local_link_addr a /\ local_ipv4_addr a2 = local_ipv4_addr a /\
    chans a2 !! ch = Some Open /\ exists l, waiters a2 !! addr = Some l /\ ch ∈ l.
Proof.
  intros Hg Ht. cbn [poll_query]. rewrite Hg. unfold do_wait_link_addr. rewrite Hg.
  assert (Hgo : forall w l, w !! addr = Some l -> next_chan a ∈ l -> let a2 := mk (local_link_addr a) (local_ipv4_addr a) (arp_config a) (cache a) w (<[next_chan a := Open]> (chans a)) (next_chan a + 1) in
    exists ch n a2, attempt (mk (local_link_addr a) (local_ipv4_addr a) (arp_config a) (cache a) w (<[next_chan a := Open]> (chans a)) (next_chan a + 1)) now tf addr (next_chan a) (retry_count (arp_config a) + 1) =
      Ret (QWaiting ch n (now + request_timeout (arp_config a)), a2, [request a addr]) /\
    cache a2 = cache a /\ arp_config a2 = arp_config a /\ local_link_addr a2 = local_link_addr a /\ local_ipv4_addr a2 = local_ipv4_addr a /\
    chans a2 !! ch = Some Open /\ exists l, waiters a2 !! addr = Some l /\ ch ∈ l).
  { intros w l Hw Hin a2. exists (next_chan a), (retry_count (arp_config a)), a2. rewrite Nat.add_1_r. cbn [attempt]. unfold chan_of. cbn [chans arp_config]. rewrite lookup_insert_eq.
    unfold with_timeout. cbn [default]. rewrite (proj2 (Z.leb_gt _ _)) by lia.
    cbn [id]. destruct (tf (retry_count (arp_config a))); cbn [mbind outcome_bind]; (split; [done|]); split_and!; try done; cbn; rewrite ?lookup_insert_eq; try done; by exists l. }
  destruct (waiters a !! addr) as [l|] eqn:Hw; cbn [arp_config].
  - apply (Hgo _ (l ++ [next_chan a])); [by rewrite lookup_insert_eq|]. apply elem_of_app. right. by left.
  - apply (Hgo _ [next_chan a]); [by rewrite lookup_insert_eq|by left].
Qed.

(** Learning an address answers those who wait for it. *)
Lemma do_insert_ok c (p : ArpPeer.t) t hd a m : ArpHost.cache_inv c (cache p) t hd -> (a, m) ∈ hd ->
  exists o p', do_insert p a m = Ret (o, p') /\ ArpHost.cache_inv c (cache p') t hd /\ local_link_addr p' = local_link_addr p /\ local_ipv4_addr p' = local_ipv4_addr p /\ arp_config p' = arp_config p /\
    forall l ch, waiters p !! a = Some l -> ch ∈ l -> chans p !! ch = Some Open -> chans p' !! ch = Some (Sent m).
Proof.
  intros K Hin. unfold do_insert. destruct (waiters p !! a) as [l|] eqn:Hw; cbn [cache set_chans set_waiters];
    destruct (ArpHost.cache_insert c (cache p) t hd a m K Hin) as (o & k & -> & K'); cbn [mbind outcome_bind]; do 2 eexists; (split; [done|]); split_and!; try done.
  intros l' ch [= <-] Hch Ho. cbn. rewrite ArpHost.resolve_lookup by done. by rewrite decide_True.
Qed.

Definition asks (m1 : MacAddress) (a1 a2 : Ipv4Addr) : ArpHeader.t := ArpHeader.new Request m1 a1 broadcast a2.
Definition tells (m2 : MacAddress) (a2 : Ipv4Addr) (m1 : MacAddress) (a1 : Ipv4Addr) : ArpHeader.t := ArpHeader.new Reply m2 a2 m1 a1.

(** A host that is asked for its address answers. *)
Lemma answer_request c (p : ArpPeer.t) t hd m1 a1 buf : ArpHost.cache_inv c (cache p) t hd ->
  ArpHeader.parse buf = Ret (Ok (asks m1 a1 (local_ipv4_addr p))) ->
  exists p', receive p buf = Ret (Ok tt, p', [ArpMessage.new (Ethernet2Header.new m1 (local_link_addr p) EtArp) (tells (local_link_addr p) (local_ipv4_addr p) m1 a1)]).
Proof.
  intros K Hp. assert (K1 : ArpHost.cache_inv c (cache p) t (hd ++ [(a1, m1)])) by (eapply ArpHost.cache_mono, K; [lia|]; intros x Hx; apply elem_of_app; by left).
  assert (Hin : (a1, m1) ∈ hd ++ [(a1, m1)]) by (apply elem_of_app; right; by left).
  destruct (do_insert_ok c p t _ a1 m1 K1 Hin) as (o & p' & Hd & _ & Hm & Ha & _). unfold receive. rewrite Hp. cbn [mbind outcome_bind].
  change (ArpHeader.get_sender_protocol_addr (asks _ _ _)) with a1. change (ArpHeader.get_sender_hardware_addr (asks _ _ _)) with m1.
  change (ArpHeader.get_destination_protocol_addr (asks _ _ _)) with (local_ipv4_addr p).
  destruct (ArpCache.get (cache p) a1); rewrite ?Hd; cbn [mbind outcome_bind]; rewrite ?Ha, Z.eqb_refl; cbn [negb mbind outcome_bind]; rewrite ?Hd; cbn [mbind outcome_bind];
    cbn [ArpHeader.get_operation asks ArpHeader.operation]; rewrite ?Hm, ?Ha; by eexists.
Qed.

(** The answer reaches the query. *)
Lemma hear_reply c (p : ArpPeer.t) t hd m2 a2 m1 l ch buf : ArpHost.cache_inv c (cache p) t hd -> ArpCache.get (cache p) a2 = None ->
  waiters p !! a2 = Some l -> ch ∈ l -> chans p !! ch = Some Open ->
  ArpHeader.parse buf = Ret (Ok (tells m2 a2 m1 (local_ipv4_addr p))) ->
  exists p', receive p buf = Ret (Ok tt, p', []) /\ chans p' !! ch = Some (Sent m2) /\ arp_config p' = arp_config p.
Proof.
  intros K Hg Hw Hch Ho Hp. assert (K1 : ArpHost.cache_inv c (cache p) t (hd ++ [(a2, m2)])) by (eapply ArpHost.cache_mono, K; [lia|]; intros x Hx; apply elem_of_app; by left).
  assert (Hin : (a2, m2) ∈ hd ++ [(a2, m2)]) by (apply elem_of_app; right; by left).
  destruct (do_insert_ok c p t _ a2 m2 K1 Hin) as (o & p1 & Hd & K' & _ & Ha & Hc & Hs). unfold receive. rewrite Hp. cbn [mbind outcome_bind].
  change (ArpHeader.get_sender_protocol_addr (tells _ _ _ _)) with a2. change (ArpHeader.get_sender_hardware_addr (tells _ _ _ _)) with m2.
  change (ArpHeader.get_destination_protocol_addr (tells _ _ _ _)) with (local_ipv4_addr p). rewrite Hg. cbn [mbind outcome_bind]. rewrite Z.eqb_refl. cbn [negb]. rewrite Hd. cbn [mbind outcome_bind].
  cbn [ArpHeader.get_operation tells ArpHeader.operation]. destruct (ArpHost.cache_insert c (cache p1) t _ a2 m2 K' Hin) as (o2 & k & -> & _). cbn [mbind outcome_bind].
  eexists. split; [done|]. split; [|done]. cbn. by eapply Hs.
Qed.

(** A query whose answer arrived in time is done. *)
Lemma query_done (a : ArpPeer.t) now tf addr ch n dl m : chans a !! ch = Some (Sent m) -> now < dl -> poll_query a now tf addr (QWaiting ch n dl) = Ret (QDone (Ok m), a, []).
Proof.
  intros Hc Hd. cbn [poll_query]. unfold chan_of. rewrite Hc. cbn [default]. unfold with_timeout. rewrite (proj2 (Z.leb_gt _ _)) by lia.
  cbn [id]. by destruct (tf n).
Qed.

End arp.

(** ** Two stacks *)

Module Link.
Import InetStack.

Section link.
Context {C CI SL : Type} `{MC : Mpsc Slot C} `{UC : Unbounded (Ipv4Addr * Z * Z) CI} `{SC : Slab Z SL} `{!MpscLaws Slot C} `{!SlabLaws Z SL}.
Variable new_key : gmap Z task -> option Z.
Variable crc32 : list Z -> Z.

Abbreviation stack := (InetStack.t C CI SL).

(** The frames reach the other stack in order; what it transmits meanwhile is returned. *)
Fixpoint deliver (fs : list frame) (s : stack) : outcome (stack * list frame) :=
  match fs with
  | [] => Ret (s, [])
  | f :: fs =>
      bytes ← frame_wire f;
      '(_, s, out) ← do_receive crc32 bytes s [];
      '(s, out') ← deliver fs s;
      Ret (s, out ++ out')
  end.

(** A turn of the UDP background task. *)
Definition udp_turn (tf : nat -> bool) (s : stack) : outcome (stack * list frame) :=
  '(_, s, out) ← poll_background tf UdpBackground s [];
  Ret (s, out).

(** After the first stack transmitted [f1]: frames reach the other side and answers come back, and the
    background task of the first runs before and after. *)
Definition settle (tf : nat -> bool) (f1 : list frame) (a b : stack) : outcome (stack * stack) :=
  '(b, _) ← deliver f1 b;
  '(a, f2) ← udp_turn tf a;
  '(b, f3) ← deliver f2 b;
  '(a, _) ← deliver f3 a;
  '(a, f4) ← udp_turn tf a;
  '(b, _) ← deliver f4 b;
  Ret (a, b).

(** The first stack sends a datagram; the token of the operation is returned. *)
Definition exchange (tf : nat -> bool) (qd : Z) (d : list Z) (rem : SocketAddrV4) (a b : stack) : outcome (Result Z * stack * stack) :=
  '(r, a, f1) ← pushto2 new_key qd d rem a [];
  '(a, b) ← settle tf f1 a b;
  Ret (r, a, b).

(** The queue [id] received the datagram, the others nothing. *)
Definition arrived (b b' : stack) (id : Z) (x : Slot) : Prop :=
  forall j, UdpHost.mailbox (udp b') j = if decide (j = id) then SharedQueue.pushed UdpPeer.RECV_QUEUE_MAX_SIZE (UdpHost.mailbox (udp b) id) x else UdpHost.mailbox (udp b) j.

(** *** The receiving side *)

Lemma receive_datagram core (b : stack) src sport dst d bytes id tr : on_the_wire src sport dst d bytes -> UdpHost.sock_inv core (udp b) ->
  UdpHost.addressee (udp b) dst = Some id ->
  exists u', do_receive crc32 bytes b tr = Ret (Ok tt, set_udp u' b, tr) /\ UdpHost.sock_inv core u' /\
    arrived b (set_udp u' b) id (mkSlot dst (mkAddr src sport) d).
Proof.
  intros [(eh & ih & payload & ipb & He & Hty & Hi & Hpr & Hsrc & Hdst & Hm & Hr & Hu)] I Ha.
  destruct (UdpHost.do_receive_ok core (udp b) ih payload I) as (r & u' & Hrec & I' & [_ Hgood] & _).
  specialize (Hgood _ _ (Hu (UdpPeer.checksum_offload (udp b)))). cbn [UdpHeader.dest_port UdpHeader.src_port] in Hgood. rewrite Hsrc, Hdst in Hgood.
  assert (Ed : mkAddr (ip dst) (port dst) = dst) by (by destruct dst). rewrite Ed, Ha in Hgood. destruct Hgood as [-> Hmail].
  exists u'. split; [|done]. unfold do_receive, ipv4_receive, mbind, S_bind, lift, get, modify. rewrite He. cbn [mret S_ret]. rewrite Hty, Hi, Hpr, Hm, Hr, Hrec. done.
Qed.

(** An ARP message that arrives. *)
Lemma deliver_arp (s : stack) m (Q : Result unit -> ArpPeer.t -> list ArpMessage.t -> Prop) :
  length (Ethernet2Header.dst_addr (ArpMessage.ethernet2_hdr m)) = 6%nat -> length (Ethernet2Header.src_addr (ArpMessage.ethernet2_hdr m)) = 6%nat ->
  Ethernet2Header.ether_type (ArpMessage.ethernet2_hdr m) = EtArp -> arp_wf (ArpMessage.header m) ->
  (forall buf, ArpHeader.parse buf = Ret (Ok (ArpMessage.header m)) -> exists r a ms, ArpPeer.receive (arp s) buf = Ret (r, a, ms) /\ Q r a ms) ->
  exists r a ms, deliver [FArp m] s = Ret (set_arp a s, map FArp ms) /\ Q r a ms.
Proof.
  intros H1 H2 Ht Hw Hr. destruct (arp_message_wire m H1 H2 Hw) as (bytes & payload & Hb & He & Hp). destruct (Hr _ Hp) as (r & a & ms & Hrec & HQ).
  exists r, a, ms. split; [|done]. cbn [deliver frame_wire]. rewrite Hb. cbn [mbind outcome_bind].
  unfold do_receive, mbind, S_bind, lift, get, modify, transmit. rewrite He. cbn [mret S_ret]. rewrite Ht, Hrec. cbn. by rewrite app_nil_r.
Qed.

(** *** The sending side *)

(** A stack whose ARP peer satisfies its invariant and knows its own addresses. *)
Record endpoint (c : ArpConfig) (mac : MacAddress) (addr : Ipv4Addr) (hd : list (Ipv4Addr * MacAddress)) (s : stack) : Prop := {
  e_arp : exists qs, ArpHost.inv c mac addr (arp s) (clock s) qs hd;
  e_mac : length mac = 6%nat;
  e_addr : u32_ok addr;
  e_udp : exists core, UdpHost.sock_inv core (udp s);
  e_local : UdpPeer.local_link_addr (udp s) = mac /\ UdpPeer.local_ipv4_addr (udp s) = addr;
}.

(** The background task waits and nothing is queued for it. *)
Definition idle (u : UdpPeer.t C) : Prop :=
  exists resumed, UdpPeer.background_task u = UdpPeer.Popping resumed /\ SharedQueue.rx_borrowed (UdpPeer.send_queue u) = resumed /\
    SharedQueue.holds (UdpPeer.send_queue u) UdpPeer.SEND_QUEUE_MAX_SIZE [].

Lemma idle_turn tf (s : stack) : idle (udp s) ->
  exists u, udp_turn tf s = Ret (set_udp u (set_arp (arp s) s), []) /\ UdpPeer.queues u = UdpPeer.queues (udp s).
Proof.
  intros (resumed & Hb & Hr & Hh). unfold udp_turn, poll_background, mbind, S_bind, outcome_bind, get, lift, modify, transmit.
  unfold UdpPeer.background_fuel. rewrite (SharedQueue.h_len _ _ _ Hh). change (2 * Z.to_nat (blen []) + 2)%nat with 2%nat. cbn [UdpPeer.background_sender]. rewrite Hb.
  destruct (SharedQueue.poll_pop_ok resumed _ _ _ Hh (eq_sym Hr)) as (q & Hq & _ & _). rewrite Hq. cbn. by eexists.
Qed.

(** The application's call, up to the scheduling of its task. *)
Lemma pushto_call (s : stack) qd d rem r u txs k : Stack.ft s !! qd = Some 1 -> d <> [] -> new_key (tasks s) = Some k ->
  UdpPeer.do_pushto (udp s) (arp s) qd d rem = Ret (r, u, txs) ->
  pushto2 new_key qd d rem s [] = Ret (Ok k, set_tasks (<[k := mkTask (Udp (UdpPushto qd r)) false]> (tasks s)) (set_udp u s), map frame_of_tx txs).
Proof.
  intros Hf Hd Hk Hp. unfold pushto2. destruct d as [|x d]; [done|]. cbn [length Nat.eqb]. unfold do_pushto, with_type, issue, schedule, mbind, S_bind, get, lift, modify, transmit.
  rewrite (Stack.table_get s qd). rewrite Hf. change (QType_try_from 1) with (Some UdpSocket). cbn [only]. unfold mbind, S_bind. cbv beta iota. rewrite Hp. cbn [mret S_ret app tasks set_udp]. by rewrite Hk.
Qed.

(** The first turn asks for the address. *)
Lemma asking_turn tf (s : stack) slot resumed c : UdpPeer.background_task (udp s) = UdpPeer.Popping resumed ->
  SharedQueue.rx_borrowed (UdpPeer.send_queue (udp s)) = resumed -> SharedQueue.holds (UdpPeer.send_queue (udp s)) UdpPeer.SEND_QUEUE_MAX_SIZE [slot] ->
  ArpPeer.arp_config (arp s) = c -> ArpCache.get (ArpPeer.cache (arp s)) (ip (remote slot)) = None -> 0 < request_timeout c ->
  exists ch n a2 q, udp_turn tf s = Ret (set_udp (UdpPeer.set_background (UdpPeer.Querying slot (ArpPeer.QWaiting ch n (clock s + request_timeout c))) (UdpPeer.set_send_queue q (udp s))) (set_arp a2 s),
      [FArp (ArpPeer.request (arp s) (ip (remote slot)))]) /\
    SharedQueue.holds q UdpPeer.SEND_QUEUE_MAX_SIZE [] /\ SharedQueue.rx_borrowed q = false /\
    ArpPeer.cache a2 = ArpPeer.cache (arp s) /\ ArpPeer.arp_config a2 = c /\ ArpPeer.local_ipv4_addr a2 = ArpPeer.local_ipv4_addr (arp s) /\
    ArpPeer.chans a2 !! ch = Some ArpPeer.Open /\ exists l, ArpPeer.waiters a2 !! ip (remote slot) = Some l /\ ch ∈ l.
Proof.
  intros Hb Hr Hh Hc Hg Ht. subst c. destruct (query_start (arp s) (clock s) tf (ip (remote slot)) Hg Ht) as (ch & n & a2 & Hq & H1 & H2 & _ & H3 & H4 & H5).
  destruct (SharedQueue.poll_pop_ok resumed _ _ _ Hh (eq_sym Hr)) as (q & Hpop & Hh' & Hb'). exists ch, n, a2, q.
  unfold udp_turn, poll_background, mbind, S_bind, outcome_bind, get, lift, modify, transmit.
  unfold UdpPeer.background_fuel. rewrite (SharedQueue.h_len _ _ _ Hh). change (2 * Z.to_nat (blen [slot]) + 2)%nat with 4%nat. cbn [UdpPeer.background_sender]. rewrite Hb, Hpop.
  cbn [head mbind outcome_bind UdpPeer.background_task UdpPeer.set_background]. rewrite Hq. cbn. split; [done|]. split_and!; done.
Qed.

(** The turn after the answer sends the datagram. *)
Lemma sending_turn tf (s : stack) slot ch n dl m : UdpPeer.background_task (udp s) = UdpPeer.Querying slot (ArpPeer.QWaiting ch n dl) ->
  SharedQueue.rx_borrowed (UdpPeer.send_queue (udp s)) = false -> SharedQueue.holds (UdpPeer.send_queue (udp s)) UdpPeer.SEND_QUEUE_MAX_SIZE [] ->
  ArpPeer.chans (arp s) !! ch = Some (ArpPeer.Sent m) -> clock s < dl ->
  exists s', udp_turn tf s = Ret (s', [frame_of_tx (UdpPeer.send_slot (udp s) m slot)]) /\ tasks s' = tasks s.
Proof.
  intros Hb Hr Hh Hc Ht. destruct (SharedQueue.poll_pop_ok false _ _ _ Hh (eq_sym Hr)) as (q & Hpop & _ & _).
  unfold udp_turn, poll_background, mbind, S_bind, outcome_bind, get, lift, modify, transmit.
  unfold UdpPeer.background_fuel. rewrite (SharedQueue.h_len _ _ _ Hh). change (2 * Z.to_nat (blen []) + 2)%nat with 2%nat. cbn [UdpPeer.background_sender]. rewrite Hb.
  rewrite (query_done _ _ _ _ _ _ _ _ Hc Ht). cbn [mbind outcome_bind UdpPeer.background_task UdpPeer.set_background UdpPeer.send_queue]. rewrite Hpop. cbn. by eexists.
Qed.

Lemma deliver_one f s bytes r s' out : frame_wire f = Ret bytes -> do_receive crc32 bytes s [] = Ret (r, s', out) -> deliver [f] s = Ret (s', out).
Proof. intros Hw Hr. cbn [deliver]. rewrite Hw. cbn [mbind outcome_bind]. rewrite Hr. cbn [mbind outcome_bind]. by rewrite app_nil_r. Qed.

(** A datagram on the wire reaches the other stack. *)
Lemma deliver_datagram (a b : stack) m loc rem d id : length (UdpPeer.local_link_addr (udp a)) = 6%nat -> length m = 6%nat -> u32_ok (UdpPeer.local_ipv4_addr (udp a)) -> u32_ok (ip rem) ->
  u16_ok (port loc) -> u16_ok (port rem) -> 28 + blen d < 2^16 -> plain_payload d -> (exists core, UdpHost.sock_inv core (udp b)) -> UdpHost.addressee (udp b) rem = Some id ->
  exists b', deliver [frame_of_tx (UdpPeer.send_slot (udp a) m (mkSlot loc rem d))] b = Ret (b', []) /\
    arrived b b' id (mkSlot rem (mkAddr (UdpPeer.local_ipv4_addr (udp a)) (port loc)) d).
Proof.
  intros H1 H2 H3 H4 H5 H6 H7 H8 Hb Ha.
  destruct (udp_on_wire (UdpPeer.local_ipv4_addr (udp a)) (UdpPeer.local_link_addr (udp a)) m d loc rem (UdpPeer.checksum_offload (udp a)) H1 H2 H3 H4 H5 H6 H7 H8) as (bytes & Hw & Hon).
  destruct Hb as [core Hb]. destruct (receive_datagram core b _ _ _ _ _ id [] Hon Hb Ha) as (u' & Hr & _ & Harr). exists (set_udp u' b). split; [|done]. by eapply deliver_one.
Qed.

(** What the sender and the receiver of a datagram are assumed to be. *)
Record ready (a b : stack) (qd k id : Z) (loc rem : SocketAddrV4) (d : list Z) (macA macB : MacAddress) (ipA : Ipv4Addr) (cA cB : ArpConfig) (hdA hdB : list (Ipv4Addr * MacAddress)) : Prop := {
  r_sender : endpoint cA macA ipA hdA a;
  r_receiver : endpoint cB macB (ip rem) hdB b;
  r_socket : Stack.ft a !! qd = Some 1 /\ UdpPeer.sockets (udp a) !! qd = Some (Some loc);
  r_bound : UdpHost.addressee (udp b) rem = Some id;
  r_idle : idle (udp a);
  r_key : new_key (tasks a) = Some k;
  r_ports : u16_ok (port loc) /\ u16_ok (port rem);
  r_data : d <> [] /\ 28 + blen d < 2^16 /\ plain_payload d;
  r_timeout : 0 < request_timeout cA;
  r_known : forall m, ArpPeer.try_query (arp a) (ip rem) = Some m -> length m = 6%nat;
}.

(** The address is known. *)
Lemma fast_exchange tf a b qd k id loc rem d macA macB ipA cA cB hdA hdB m : ready a b qd k id loc rem d macA macB ipA cA cB hdA hdB ->
  ArpPeer.try_query (arp a) (ip rem) = Some m ->
  exists a' b', exchange tf qd d rem a b = Ret (Ok k, a', b') /\ arrived b b' id (mkSlot rem (mkAddr ipA (port loc)) d) /\ tasks a' !! k = Some (mkTask (Udp (UdpPushto qd (Ok tt))) false).
Proof.
  intros [[[qs A] Hma Hia Hua [Hla Hi4]] [_ _ Hib Hub _] [Hft Hso] Hbo Hidle Hk [Hp1 Hp2] (Hd1 & Hd2 & Hd3) Ht Hkn] Hq.
  assert (Hpush : UdpPeer.do_pushto (udp a) (arp a) qd d rem = Ret (Ok tt, udp a, [UdpPeer.send_slot (udp a) m (mkSlot loc rem d)])) by (unfold UdpPeer.do_pushto; by rewrite Hso, Hq).
  unfold exchange, settle. rewrite (pushto_call a qd d rem _ _ _ k Hft Hd1 Hk Hpush). cbn [mbind outcome_bind map].
  destruct (deliver_datagram a b m loc rem d id) as (b' & Hdel & Harr); try done; [by rewrite Hla|by apply Hkn|by rewrite Hi4|]. rewrite Hdel. cbn [mbind outcome_bind].
  set (a1 := set_tasks _ _). destruct (idle_turn tf a1) as (u1 & Ht1 & _); [done|]. rewrite Ht1. cbn [mbind outcome_bind deliver].
  set (a2 := set_udp u1 _). assert (Hi2 : idle (udp a2)).
  { revert Ht1. destruct Hidle as (resumed & Hb & Hr & Hh). unfold udp_turn, poll_background, mbind, S_bind, outcome_bind, get, lift, modify, transmit, UdpPeer.background_fuel.
    change (udp a1) with (udp a). rewrite (SharedQueue.h_len _ _ _ Hh). change (2 * Z.to_nat (blen []) + 2)%nat with 2%nat. cbn [UdpPeer.background_sender]. rewrite Hb.
    destruct (SharedQueue.poll_pop_ok resumed _ _ _ Hh (eq_sym Hr)) as (q & Hq' & Hh' & Hb'). rewrite Hq'. cbn. intros [= <-]. by exists true. }
  destruct (idle_turn tf a2 Hi2) as (u2 & Ht2 & _). rewrite Ht2. cbn [mbind outcome_bind deliver]. do 2 eexists. split; [done|]. rewrite Hi4 in Harr. split; [done|]. cbn. by rewrite lookup_insert_eq.
Qed.

(** The address has to be asked for. *)
Lemma slow_exchange tf a b qd k id loc rem d macA macB ipA cA cB hdA hdB : ready a b qd k id loc rem d macA macB ipA cA cB hdA hdB ->
  ArpPeer.try_query (arp a) (ip rem) = None ->
  exists a' b', exchange tf qd d rem a b = Ret (Ok k, a', b') /\ arrived b b' id (mkSlot rem (mkAddr ipA (port loc)) d) /\ tasks a' !! k = Some (mkTask (Udp (UdpPushto qd (Ok tt))) false).
Proof.
  intros [[[qs A] Hma Hia Hua [Hla Hi4]] [[qsB B] Hmb Hib Hub [Hlb Hb4]] [Hft Hso] Hbo (resumed & Hb & Hr & Hh) Hk [Hp1 Hp2] (Hd1 & Hd2 & Hd3) Ht Hkn] Hq.
  destruct (ArpHost.i_local _ _ _ _ _ _ _ A) as (Ac & Am & Ai). destruct (ArpHost.i_local _ _ _ _ _ _ _ B) as (Bc & Bm & Bi).
  set (slot := mkSlot loc rem d). destruct (SharedQueue.push_room _ _ _ slot Hh) as (q1 & Hpu & Hh1 & Hb1); [unfold UdpPeer.SEND_QUEUE_MAX_SIZE; cbn; lia|].
  assert (Hpush : UdpPeer.do_pushto (udp a) (arp a) qd d rem = Ret (Ok tt, UdpPeer.set_send_queue q1 (udp a), [])) by (unfold UdpPeer.do_pushto; rewrite Hso, Hq; fold slot; by rewrite Hpu).
  unfold exchange, settle. rewrite (pushto_call a qd d rem _ _ _ k Hft Hd1 Hk Hpush). cbn [mbind outcome_bind map deliver]. set (a1 := set_tasks _ _).
  destruct (asking_turn tf a1 slot resumed cA) as (ch & n & a2 & q2 & Ht1 & Hh2 & Hb2 & C1 & C2 & C3 & C4 & l & C5 & C6); try done; [by rewrite <- Hr|]. rewrite Ht1. cbn [mbind outcome_bind].
  change (arp a1) with (arp a) in *. change (ip (remote slot)) with (ip rem) in *. set (s2 := set_udp _ _).
  destruct (deliver_arp b (ArpPeer.request (arp a) (ip rem)) (fun _ _ ms => ms = [ArpMessage.new (Ethernet2Header.new macA macB EtArp) (tells macB (ip rem) macA ipA)]))
    as (r1 & ab & ms & Hdel & ->); [done|by rewrite <- Am in Hma|done|by rewrite <- Am in Hma; rewrite <- Ai in Hia| |].
  { intros buf Hbuf. cbn [ArpMessage.header ArpPeer.request] in Hbuf. rewrite Am, Ai, <- Bi in Hbuf. rewrite <- Bi, <- Bm.
    destruct (answer_request cB (arp b) (clock b) hdB macA ipA buf (ArpHost.i_cache _ _ _ _ _ _ _ B) Hbuf) as (p' & Hrec). by do 3 eexists. }
  rewrite Hdel. cbn [mbind outcome_bind map]. set (b2 := set_arp ab b).
  destruct (deliver_arp s2 (ArpMessage.new (Ethernet2Header.new macA macB EtArp) (tells macB (ip rem) macA ipA)) (fun _ p ms => ms = [] /\ ArpPeer.chans p !! ch = Some (ArpPeer.Sent macB)))
    as (r2 & aa & ms & Hdel2 & -> & Hsent); [done|done|done|done| |].
  { intros buf Hbuf. cbn [ArpMessage.header] in Hbuf. rewrite <- Ai, <- C3 in Hbuf.
    destruct (hear_reply cA a2 (clock a) hdA macB (ip rem) macA l ch buf) as (p' & Hrec & Hs & _); try done; [rewrite C1; apply A|by rewrite C1|]. by do 3 eexists. }
  rewrite Hdel2. cbn [mbind outcome_bind map]. set (s3 := set_arp aa s2).
  destruct (sending_turn tf s3 slot ch n (clock a + request_timeout cA) macB) as (s4 & Ht2 & Htask); [done|done|done|done|cbn; lia|]. rewrite Ht2. cbn [mbind outcome_bind].
  destruct (deliver_datagram s3 b2 macB loc rem d id) as (b4 & Hdel3 & Harr); try done; [by cbn; rewrite Hla|by cbn; rewrite Hi4|]. fold slot in Hdel3. rewrite Hdel3. cbn [mbind outcome_bind].
  do 2 eexists. split; [done|]. cbn in Harr. rewrite Hi4 in Harr. split; [exact Harr|]. rewrite Htask. cbn. by rewrite lookup_insert_eq.
Qed.

(** A datagram arrives.  Take two stacks in any states in which the ARP and UDP invariants hold, the
    first with a bound datagram socket and no datagram waiting to be sent, the second with a socket
    bound to the destination (or to its port on every address).  The first application sends a
    non-empty payload that fits a datagram and does not begin with the words of the migration
    protocol; the frames both sides transmit are turned into bytes and parsed by the other side.
    Whether or not the sender knew the link address, after one exchange the datagram is in the queue
    of exactly that socket, once, with the sender's address and port and the payload unchanged, no
    other queue has changed, and the sender's operation is ready with success. *)
Theorem udp_datagram_arrives (tf : nat -> bool) (a b : stack) (qd k id : Z) (loc rem : SocketAddrV4) (d : list Z) (macA macB : MacAddress) (ipA : Ipv4Addr)
    (cA cB : ArpConfig) (hdA hdB : list (Ipv4Addr * MacAddress)) :
  ready a b qd k id loc rem d macA macB ipA cA cB hdA hdB ->
  exists a' b', exchange tf qd d rem a b = Ret (Ok k, a', b') /\ arrived b b' id (mkSlot rem (mkAddr ipA (port loc)) d) /\
    tasks a' !! k = Some (mkTask (Udp (UdpPushto qd (Ok tt))) false).
Proof.
  intros R. destruct (ArpPeer.try_query (arp a) (ip rem)) as [m|] eqn:Hq; [by eapply fast_exchange|by eapply slow_exchange].
Qed.

End link.

(** ** An example: two fresh hosts with a socket each *)

Definition demo_arp (mac : MacAddress) (addr : Ipv4Addr) : ArpPeer.t :=
  ArpPeer.mk mac addr ArpHost.quick_config (ArpCache.mk (HashTtlCache.mk ∅ ∅ (Some (cache_ttl ArpHost.quick_config)) 0) false) ∅ ∅ 0.

Definition demo_udp (mac : MacAddress) (addr : Ipv4Addr) : UdpPeer.t (ListChannel Slot) :=
  (UdpPeer.do_bind (UdpPeer.do_socket (UdpPeer.new id None mac addr false) 7).2 7 (mkAddr 0 53)).2.

Definition demo_host (mac : MacAddress) (addr : Ipv4Addr) : Stack.demo_stack :=
  InetStack.mk (demo_arp mac addr) (Icmpv4Peer.new mac addr) demo_peer (demo_udp mac addr) {[7 := 1]} ∅ 0 0 ∅.

Lemma demo_arp_new mac addr : ArpPeer.new 0 mac addr ArpHost.quick_config = Ret (demo_arp mac addr).
Proof. reflexivity. Qed.

Lemma demo_endpoint mac addr : length mac = 6%nat -> u32_ok addr -> endpoint ArpHost.quick_config mac addr [] (demo_host mac addr).
Proof.
  intros Hm Ha. assert (Hu : UdpHost.sock_inv None (demo_udp mac addr)).
  { eapply UdpHost.b_inv, UdpHost.do_bind_ok; [|done]. by apply UdpHost.socket_sock_inv, (UdpHost.new_sock_inv id None). }
  split; [|done|done|by eexists|done]. exists ∅.
  destruct (ArpHost.arp_start_inv ArpHost.quick_config mac addr 0 (ArpHost.mkHost (demo_arp mac addr) 0 ∅ [] [])) as [A _]; [|exact A].
  unfold ArpHost.start. rewrite demo_arp_new. reflexivity.
Qed.

Definition demo_payload : list Z := [1; 2; 3].
Definition first_key : Z := fresh (dom (∅ : gmap Z task) : gset Z).

Lemma demo_ready : ready Stack.demo_key (demo_host ArpHost.mac1 ArpHost.ip1) (demo_host ArpHost.mac2 ArpHost.ip2) 7 first_key 0 (mkAddr 0 53) (mkAddr ArpHost.ip2 53) demo_payload
    ArpHost.mac1 ArpHost.mac2 ArpHost.ip1 ArpHost.quick_config ArpHost.quick_config [] [].
Proof.
  split.
  - apply demo_endpoint; [reflexivity|]. split; vm_compute; congruence.
  - apply demo_endpoint; [reflexivity|]. split; vm_compute; congruence.
  - split; reflexivity.
  - reflexivity.
  - exists false. split; [reflexivity|]. split; [reflexivity|]. split; try reflexivity; unfold UdpPeer.SEND_QUEUE_MAX_SIZE; cbn; lia.
  - reflexivity.
  - split; split; vm_compute; congruence.
  - split; [done|]. split; [vm_compute; congruence|]. split; reflexivity.
  - vm_compute. congruence.
  - intros m Hm. discriminate Hm.
Qed.

End Link.
