(* ===== verification/Demikernel.v ===== *)
(** * The Catnip library OS and the C interface
    (src/src/rust/catnip/{mod,interop}.rs, demikernel/{bindings.rs,libos/}, runtime/types/,
    runtime/queue/{qdesc,qtoken}.rs)

    The library OS joins the network stack and the memory of the runtime: it copies the arrays of the
    application into buffers and packs results into arrays.  A build of Catnip has one variant of
    [NetworkLibOS].  The C interface keeps the library OS in a static cell, checks arguments, turns
    errors into error numbers and writes results through pointers: what a call writes is returned as
    an option next to its return value, and the pointers it is given are valid or null.

    Once a buffer is inside the stack it is the list of its bytes; which runtime buffer holds the bytes
    of a popped one is an input ([place]). *)

From S2P Require Import Prelude Buffer SeqNumber Net Packet TtlCache Arp TcpSegment TcpMigSegment Congestion Rto CtrlBlk Handshake MigState MigPeer.
From S2P Require Import Stats Ports TcpPeer PeerTables SharedQueue Udp Icmp InetStack Sga Catnip.

Definition ENOSYS : Z := 38.

(** ** Results (runtime/types/ops.rs, catnip/interop.rs) *)

Inductive demi_opcode_t := DEMI_OPC_INVALID | DEMI_OPC_PUSH | DEMI_OPC_POP | DEMI_OPC_ACCEPT | DEMI_OPC_CONNECT | DEMI_OPC_FAILED.

(** The union of the results, with the field that was written; [QrZeroed] when none was. *)
Inductive demi_qr_value_t :=
| QrZeroed
| QrSga (sga : demi_sgarray_t)
| QrAres (qd : Z) (addr : list Z)
| QrErr (err : Z).

Record demi_qresult_t := mkQr { qr_opcode : demi_opcode_t; qr_qd : Z; qr_qt : Z; qr_value : demi_qr_value_t }.

(** [as i32], and a queue descriptor from an [i32]. *)
Definition to_i32 (z : Z) : Z := let r := z mod 2^32 in if r <? 2^31 then r else r - 2^32.
Definition qdesc_of_i32 (z : Z) : Z := z mod 2^64.

(** The 16 bytes of a [sockaddr_in] on a little-endian machine, the port in the order it is given. *)
Definition le16 (z : Z) : list Z := [z mod 2^8; z / 2^8 mod 2^8].
Definition sockaddr_in (family port : Z) (octets : list Z) : list Z := le16 family ++ le16 port ++ octets ++ replicate 8 0.

Definition set_sga_addr v (s : demi_sgarray_t) := mkSga (sga_buf s) (sga_numsegs s) (sga_segs s) v.

Section libos.
Context {C CI SL D : Type} `{Mpsc Slot C} `{Unbounded (Ipv4Addr * Z * Z) CI} `{Slab Z SL} `{Dpdk D}.
Variable new_key : gmap Z task -> option Z.
Variable crc32 : list Z -> Z.
Variable place : Buffer.t -> RtBuffer.

Definition pack_result (result : OperationResult) (qd qt : Z) : K (D := D) demi_qresult_t :=
  match result with
  | Connect => mret (mkQr DEMI_OPC_CONNECT (to_i32 qd) qt QrZeroed)
  | Accept new_qd => mret (mkQr DEMI_OPC_ACCEPT (to_i32 qd) qt (QrAres (to_i32 new_qd) zeroed_addr))
  | Push => mret (mkQr DEMI_OPC_PUSH (to_i32 qd) qt QrZeroed)
  | Pop addr bytes =>
      r ← into_sgarray (place bytes);
      match r with
      | Ok sga =>
          let sga := match addr with
                     | Some endpoint => set_sga_addr (sockaddr_in AF_INET (port endpoint) (be32 (ip endpoint))) sga
                     | None => sga
                     end in
          mret (mkQr DEMI_OPC_POP (to_i32 qd) qt (QrSga sga))
      | Err _ => mret (mkQr DEMI_OPC_FAILED (to_i32 qd) qt QrZeroed)
      end
  | Failed e => mret (mkQr DEMI_OPC_FAILED (to_i32 qd) qt (QrErr (errno e)))
  end.

(** ** Catnip (catnip/mod.rs) *)

Record CatnipLibOS := mkCatnip { inetstack : InetStack.t C CI SL; rt : memory D; mm : MemoryManager }.

(** A computation of the library OS that may panic and transmits frames. *)
Definition L (A : Type) : Type := CatnipLibOS -> list frame -> outcome (A * CatnipLibOS * list frame).

#[export] Instance L_ret : MRet L := fun A a s tr => Ret (a, s, tr).
#[export] Instance L_bind : MBind L := fun A B k m s tr =>
  match m s tr with
  | Ret (a, s', tr') => k a s' tr'
  | Panic msg => Panic msg
  | Diverge => Diverge
  end.

Definition on_stack {A} (m : InetStack.S (C := C) (CI := CI) (SL := SL) A) : L A := fun s tr =>
  match m (inetstack s) tr with
  | Ret (a, st, tr) => Ret (a, mkCatnip st (rt s) (mm s), tr)
  | Panic msg => Panic msg
  | Diverge => Diverge
  end.

Definition on_memory {A} (m : MemoryManager -> K (D := D) A) : L A := fun s tr =>
  match m (mm s) (rt s) with
  | Ret (a, mem) => Ret (a, mkCatnip (inetstack s) mem (mm s), tr)
  | Panic msg => Panic msg
  | Diverge => Diverge
  end.

(** The array is copied, the copy pushed and the operation scheduled. *)
Definition catnip_push_sga (sga : demi_sgarray_t) (op : Buffer.t -> InetStack.S (C := C) (CI := CI) (SL := SL) (Result FutureOperation)) : L (Result Z) :=
  r ← on_memory (fun _ => clone_sgarray sga);
  match r with
  | Err e => mret (Err e)
  | Ok buf =>
      bytes ← on_memory (fun _ => buffer_deref buf);
      if Nat.eqb (length bytes) 0 then
        _ ← on_memory (fun _ => buffer_drop buf);
        mret (Err (mkFail EINVAL "zero-length buffer"))
      else
        future ← on_stack (op bytes);
        match future with
        | Err e => mret (Err e)
        | Ok future => on_stack (InetStack.issue new_key future)
        end
  end.

Definition catnip_push (qd : Z) (sga : demi_sgarray_t) : L (Result Z) := catnip_push_sga sga (InetStack.do_push qd).
Definition catnip_pushto (qd : Z) (sga : demi_sgarray_t) (to : SocketAddrV4) : L (Result Z) := catnip_push_sga sga (fun buf => InetStack.do_pushto qd buf to).

Definition catnip_wait (qt : Z) (ws : list turn) : L (Result demi_qresult_t) :=
  r ← on_stack (InetStack.wait2 crc32 qt ws);
  match r with
  | Err e => mret (Err e)
  | Ok (qd, result) => q ← on_memory (fun _ => pack_result result qd qt); mret (Ok q)
  end.

Definition catnip_timedwait (qt : Z) (ws : list turn) : L (Result demi_qresult_t) :=
  r ← on_stack (InetStack.timedwait2 crc32 qt ws);
  match r with
  | Err e => mret (Err e)
  | Ok (qd, result) => q ← on_memory (fun _ => pack_result result qd qt); mret (Ok q)
  end.

Fixpoint catnip_pack_all (qts : list Z) (l : list (nat * (Z * OperationResult))) : K (D := D) (list (nat * demi_qresult_t)) :=
  match l with
  | [] => mret []
  | (i, (qd, result)) :: l =>
      q ← pack_result result qd (nth i qts 0);
      rest ← catnip_pack_all qts l;
      mret ((i, q) :: rest)
  end.

(** [InetStack::wait_any] packs each result as it is taken. *)
Definition catnip_wait_any (n m : nat) (qts : list Z) (ws : list turn) : L (Result (list (nat * demi_qresult_t))) :=
  r ← on_stack (InetStack.wait_any2 crc32 n m qts ws);
  match r with
  | Err e => mret (Err e)
  | Ok l => l ← on_memory (fun _ => catnip_pack_all qts l); mret (Ok l)
  end.

Definition catnip_try_wait_any (qts : list Z) : L (Result (option (list (nat * demi_qresult_t)))) :=
  fun _ _ => Panic "not implemented: C API for try_wait_any()".

Definition catnip_sgaalloc (size : Z) : L (Result demi_sgarray_t) := on_memory (fun mm => alloc_sgarray mm size).
Definition catnip_sgafree (sga : demi_sgarray_t) : L (Result unit) := on_memory (fun _ => free_sgarray sga).

(** ** Dispatch to the library OS (demikernel/libos/network.rs), the variant of Catnip *)

Definition network_socket (domain socket_type : Z) : L (Result Z) :=
  on_stack (InetStack.socket domain socket_type).
Definition network_bind (fd : Z) (local : SocketAddrV4) : L (Result unit) :=
  on_stack (InetStack.bind fd local).
Definition network_listen (nonce fd : Z) (backlog : nat) : L (Result unit) :=
  on_stack (InetStack.listen nonce fd backlog).
Definition network_accept (fd : Z) : L (Result Z) :=
  on_stack (InetStack.accept new_key fd).
Definition network_connect (fd : Z) (remote : SocketAddrV4) : L (Result Z) :=
  on_stack (InetStack.connect new_key crc32 fd remote).
Definition network_close (fd : Z) : L (Result unit) :=
  on_stack (InetStack.close fd).
Definition network_push (fd : Z) (sga : demi_sgarray_t) : L (Result Z) :=
  catnip_push fd sga.
Definition network_push2 (qd : Z) (data : list Z) : L (Result Z) :=
  on_stack (InetStack.push2 new_key qd data).
Definition network_pushto (fd : Z) (sga : demi_sgarray_t) (to : SocketAddrV4) : L (Result Z) :=
  catnip_pushto fd sga to.
Definition network_pushto2 (qd : Z) (data : list Z) (remote : SocketAddrV4) : L (Result Z) :=
  on_stack (InetStack.pushto2 new_key qd data remote).
Definition network_pop (fd : Z) : L (Result Z) :=
  on_stack (InetStack.pop new_key fd).
Definition network_wait (qt : Z) (ws : list turn) : L (Result demi_qresult_t) :=
  catnip_wait qt ws.
Definition network_timedwait (qt : Z) (ws : list turn) : L (Result demi_qresult_t) :=
  catnip_timedwait qt ws.
Definition network_wait_any (n m : nat) (qts : list Z) (ws : list turn) : L (Result (list (nat * demi_qresult_t))) :=
  catnip_wait_any n m qts ws.
Definition network_try_wait_any (qts : list Z) : L (Result (option (list (nat * demi_qresult_t)))) :=
  catnip_try_wait_any qts.
Definition network_wait2 (qt : Z) (ws : list turn) : L (Result (Z * OperationResult)) :=
  on_stack (InetStack.wait2 crc32 qt ws).
Definition network_timedwait2 (qt : Z) (ws : list turn) : L (Result (Z * OperationResult)) :=
  on_stack (InetStack.timedwait2 crc32 qt ws).
Definition network_wait_any2 (n m : nat) (qts : list Z) (ws : list turn) : L (Result (list (nat * (Z * OperationResult)))) :=
  on_stack (InetStack.wait_any2 crc32 n m qts ws).
Definition network_wait_any_nonblocking2 (n m : nat) (qts : list Z) (w : turn) : L (Result (list (nat * (Z * OperationResult)))) :=
  on_stack (InetStack.wait_any_nonblocking2 crc32 n m qts w).
Definition network_wait_any_nonblocking_one2 (qts : list Z) (w : turn) : L (Result (option (nat * Z * OperationResult))) :=
  on_stack (InetStack.wait_any_nonblocking_one2 crc32 qts w).
Definition network_capybara_switch (rx : list (list Buffer.t)) : L unit :=
  on_stack (InetStack.capybara_switch crc32 rx).
Definition network_sgaalloc (size : Z) : L (Result demi_sgarray_t) :=
  catnip_sgaalloc size.
Definition network_sgafree (sga : demi_sgarray_t) : L (Result unit) :=
  catnip_sgafree sga.
Definition network_initiate_migration (qd : Z) : L (Result unit) :=
  on_stack (InetStack.initiate_migration qd).
Definition network_global_recv_queue_length : L Z :=
  on_stack InetStack.global_recv_queue_length.
Definition network_register_application_state (qd : Z) (state : AppState) : L unit :=
  on_stack (InetStack.register_application_state qd state).
Definition network_get_migrated_application_state (deserialize : list Z -> AppState) (qd : Z) : L (option AppState) :=
  on_stack (InetStack.get_migrated_application_state deserialize qd).

(** ** The library OS (demikernel/libos/mod.rs) *)

Definition libos_socket (domain socket_type : Z) : L (Result Z) :=
  network_socket domain socket_type.
Definition libos_bind (fd : Z) (local : SocketAddrV4) : L (Result unit) :=
  network_bind fd local.
Definition libos_listen (nonce fd : Z) (backlog : nat) : L (Result unit) :=
  network_listen nonce fd backlog.
Definition libos_accept (fd : Z) : L (Result Z) :=
  network_accept fd.
Definition libos_connect (fd : Z) (remote : SocketAddrV4) : L (Result Z) :=
  network_connect fd remote.
Definition libos_close (fd : Z) : L (Result unit) :=
  network_close fd.
Definition libos_push (fd : Z) (sga : demi_sgarray_t) : L (Result Z) :=
  network_push fd sga.
Definition libos_push2 (qd : Z) (data : list Z) : L (Result Z) :=
  network_push2 qd data.
Definition libos_pushto (fd : Z) (sga : demi_sgarray_t) (to : SocketAddrV4) : L (Result Z) :=
  network_pushto fd sga to.
Definition libos_pushto2 (qd : Z) (data : list Z) (remote : SocketAddrV4) : L (Result Z) :=
  network_pushto2 qd data remote.
Definition libos_pop (fd : Z) : L (Result Z) :=
  network_pop fd.
Definition libos_wait (qt : Z) (ws : list turn) : L (Result demi_qresult_t) :=
  network_wait qt ws.
Definition libos_timedwait (qt : Z) (ws : list turn) : L (Result demi_qresult_t) :=
  network_timedwait qt ws.
Definition libos_wait_any (n m : nat) (qts : list Z) (ws : list turn) : L (Result (list (nat * demi_qresult_t))) :=
  network_wait_any n m qts ws.
Definition libos_try_wait_any (qts : list Z) : L (Result (option (list (nat * demi_qresult_t)))) :=
  network_try_wait_any qts.
Definition libos_wait2 (qt : Z) (ws : list turn) : L (Result (Z * OperationResult)) :=
  network_wait2 qt ws.
Definition libos_timedwait2 (qt : Z) (ws : list turn) : L (Result (Z * OperationResult)) :=
  network_timedwait2 qt ws.
Definition libos_wait_any2 (n m : nat) (qts : list Z) (ws : list turn) : L (Result (list (nat * (Z * OperationResult)))) :=
  network_wait_any2 n m qts ws.
Definition libos_wait_any_nonblocking2 (n m : nat) (qts : list Z) (w : turn) : L (Result (list (nat * (Z * OperationResult)))) :=
  network_wait_any_nonblocking2 n m qts w.
Definition libos_wait_any_nonblocking_one2 (qts : list Z) (w : turn) : L (Result (option (nat * Z * OperationResult))) :=
  network_wait_any_nonblocking_one2 qts w.
Definition libos_capybara_switch (rx : list (list Buffer.t)) : L unit :=
  network_capybara_switch rx.
Definition libos_sgaalloc (size : Z) : L (Result demi_sgarray_t) :=
  network_sgaalloc size.
Definition libos_sgafree (sga : demi_sgarray_t) : L (Result unit) :=
  network_sgafree sga.
Definition libos_initiate_migration (qd : Z) : L (Result unit) :=
  network_initiate_migration qd.
Definition libos_global_recv_queue_length : L Z :=
  network_global_recv_queue_length.
Definition libos_register_application_state (qd : Z) (state : AppState) : L unit :=
  network_register_application_state qd state.
Definition libos_get_migrated_application_state (deserialize : list Z -> AppState) (qd : Z) : L (option AppState) :=
  network_get_migrated_application_state deserialize qd.

(** ** The C interface (demikernel/bindings.rs) *)

(** The static cell, and whether it is borrowed. *)
Record cell := mkCell { value : option CatnipLibOS; borrowed : bool }.

Definition B (A : Type) : Type := cell -> list frame -> outcome (A * cell * list frame).

Definition do_syscall {T} (f : L T) : B (Result T) := fun c tr =>
  if borrowed c then Ret (Err (mkFail EBUSY "Demikernel is busy"), c, tr) else
  match value c with
  | None => Ret (Err (mkFail ENOSYS "Demikernel is not initialized"), c, tr)
  | Some libos =>
      match f libos tr with
      | Ret (r, libos, tr) => Ret (Ok r, mkCell (Some libos) (borrowed c), tr)
      | Panic msg => Panic msg
      | Diverge => Diverge
      end
  end.

Definition bret {A} (a : A) : B A := fun c tr => Ret (a, c, tr).

(** The call of the library OS as the interface makes it: zero and what is written on success, the
    error number on failure. *)
Definition syscall {T W} (write : T -> W) (f : L (Result T)) : B (Z * option W) := fun c tr =>
  match do_syscall f c tr with
  | Ret (Ok (Ok x), c, tr) => Ret ((0, Some (write x)), c, tr)
  | Ret (Ok (Err e), c, tr) => Ret ((errno e, None), c, tr)
  | Ret (Err e, c, tr) => Ret ((errno e, None), c, tr)
  | Panic msg => Panic msg
  | Diverge => Diverge
  end.

(** [created]: what [LibOS::new] returned. *)
Definition demi_init (created : Result CatnipLibOS) : B Z := fun c tr =>
  match created with
  | Ok libos => Ret (0, mkCell (Some libos) false, tr)
  | Err e => Ret (- errno e, c, tr)
  end.

Definition sockaddr_to_socketaddrv4 (saddr : list Z) : Result SocketAddrV4 :=
  let sin_family := nth 0 saddr 0 + nth 1 saddr 0 * 2^8 in
  if negb (sin_family =? AF_INET) then Err (mkFail ENOTSUP "communication domain not supported") else
  Ok (mkAddr (get32 (take 4 (drop 4 saddr))) (get16 (take 2 (drop 2 saddr)))).

Definition SOCKADDR_IN_SIZE : Z := 16.

(** The checks of an address argument. *)
Definition with_sockaddr {W} (saddr : option (list Z)) (size : Z) (k : SocketAddrV4 -> B (Z * option W)) : B (Z * option W) :=
  match saddr with
  | None => bret (EINVAL, None)
  | Some saddr =>
      if negb (size =? SOCKADDR_IN_SIZE) then bret (EINVAL, None) else
      match sockaddr_to_socketaddrv4 saddr with
      | Err e => bret (errno e, None)
      | Ok endpoint => k endpoint
      end
  end.

Definition demi_socket (domain socket_type protocol : Z) : B (Z * option Z) := syscall to_i32 (libos_socket domain socket_type).
Definition demi_bind (qd : Z) (saddr : option (list Z)) (size : Z) : B (Z * option unit) :=
  with_sockaddr saddr size (fun endpoint => syscall id (libos_bind (qdesc_of_i32 qd) endpoint)).
Definition demi_listen (nonce fd backlog : Z) : B (Z * option unit) :=
  if backlog <? 1 then bret (EINVAL, None) else syscall id (libos_listen nonce (qdesc_of_i32 fd) (Z.to_nat backlog)).
Definition demi_accept (sockqd : Z) : B (Z * option Z) := syscall id (libos_accept (qdesc_of_i32 sockqd)).
Definition demi_connect (qd : Z) (saddr : option (list Z)) (size : Z) : B (Z * option Z) :=
  with_sockaddr saddr size (fun endpoint => syscall id (libos_connect (qdesc_of_i32 qd) endpoint)).
Definition demi_close (qd : Z) : B (Z * option unit) := syscall id (libos_close (qdesc_of_i32 qd)).
Definition demi_pushto (qd : Z) (sga : option demi_sgarray_t) (saddr : option (list Z)) (size : Z) : B (Z * option Z) :=
  match sga with
  | None => bret (EINVAL, None)
  | Some sga => with_sockaddr saddr size (fun endpoint => syscall id (libos_pushto (qdesc_of_i32 qd) sga endpoint))
  end.
Definition demi_push (qd : Z) (sga : option demi_sgarray_t) : B (Z * option Z) :=
  match sga with
  | None => bret (EINVAL, None)
  | Some sga => syscall id (libos_push (qdesc_of_i32 qd) sga)
  end.
Definition demi_pop (qd : Z) : B (Z * option Z) := syscall id (libos_pop (qdesc_of_i32 qd)).

(** The deadline itself is compared with the clock in the turns ([expired]). *)
Definition demi_timedwait (qt : Z) (abstime : option Z) (ws : list turn) : B (Z * option demi_qresult_t) :=
  match abstime with
  | None => bret (EINVAL, None)
  | Some _ => syscall id (libos_timedwait qt ws)
  end.
Definition demi_wait (qt : Z) (ws : list turn) : B (Z * option demi_qresult_t) := syscall id (libos_wait qt ws).

Definition never_expires (w : turn) : turn := mkTurn (batches w) (order w) (timer_first w) (instant w) false.

(** [qrs_len]: the length of the arrays of results and of offsets; without a time-out no turn expires. *)
Definition demi_wait_any (qrs_len : nat) (qts : list Z) (timeout_us : Z) (ws : list turn) : B (Z * option (list (nat * demi_qresult_t))) :=
  if timeout_us <? -1 then (fun _ _ => Panic "timeout must be non-negative or -1") else
  let ws := if timeout_us =? -1 then map never_expires ws else ws in
  fun c tr =>
    match syscall id (libos_wait_any qrs_len qrs_len qts ws) c tr with
    | Ret ((ret, Some l), c, tr) => if Nat.leb (length l) qrs_len then Ret ((ret, Some l), c, tr) else Panic "assertion failed: num_qrs <= qrs_len"
    | r => r
    end.

Definition demi_wait_any_nonblocking (num_out : nat) (qts : list Z) (num_qts : Z) : B (Z * option (list (nat * demi_qresult_t))) :=
  if num_qts <? 0 then bret (EINVAL, None) else
  fun c tr =>
    match syscall id (libos_try_wait_any qts) c tr with
    | Ret ((ret, Some None), c, tr) => Ret ((ret, Some []), c, tr)
    | Ret ((ret, Some (Some l)), c, tr) => if Nat.leb (length l) num_out then Ret ((ret, Some l), c, tr) else Panic "Buffer not big enough to store all results"
    | Ret ((ret, None), c, tr) => Ret ((ret, None), c, tr)
    | Panic msg => Panic msg
    | Diverge => Diverge
    end.

Definition null_sga : demi_sgarray_t := mkSga None 0 (mkSeg None 0) zeroed_addr.

Definition demi_sgaalloc (size : Z) : B demi_sgarray_t := fun c tr =>
  match do_syscall (libos_sgaalloc size) c tr with
  | Ret (Ok (Ok sga), c, tr) => Ret (sga, c, tr)
  | Ret (Ok (Err _), c, tr) => Ret (null_sga, c, tr)
  | Ret (Err _, c, tr) => Ret (null_sga, c, tr)
  | Panic msg => Panic msg
  | Diverge => Diverge
  end.

Definition demi_sgafree (sga : option demi_sgarray_t) : B (Z * option unit) :=
  match sga with
  | None => bret (EINVAL, None)
  | Some sga => syscall id (libos_sgafree sga)
  end.

Definition demi_getsockname (qd : Z) : B Z := bret ENOSYS.
Definition demi_setsockopt (qd level optname : Z) : B Z := bret ENOSYS.
Definition demi_getsockopt (qd level optname : Z) : B Z := bret ENOSYS.

(** Without the feature manual-tcp-migration the call does nothing. *)
Definition demi_initiate_migration (qd : Z) : B Z := bret 0.

End libos.
Arguments CatnipLibOS C CI SL D : clear implicits.
Arguments mkCatnip {C CI SL D} inetstack rt mm.
Arguments cell C CI SL D : clear implicits.
Arguments mkCell {C CI SL D} value borrowed.
