(* ===== verification/DemikernelSafety.v ===== *)
(** * What a program sees through the C interface

    A datagram an application sends from an array through [demi_pushto] is the one the other side
    receives; addresses go through the interface unchanged towards the stack, and come back from a
    pop with the port in the wrong byte order. *)

From S2P Require Import Prelude Buffer SeqNumber Net Packet TtlCache Arp ArpSafety TcpSegment TcpMigSegment Congestion Rto CtrlBlk Handshake MigState MigPeer.
From S2P Require Import Stats Ports TcpPeer PeerTables SharedQueue Udp UdpSafety Icmp InetStack StackSafety UdpDelivery Sga SgaSafety Catnip CatnipSafety Demikernel.

(** ** Addresses *)

(** A [sockaddr_in] as POSIX asks for: port and address in network byte order. *)
Definition net_sockaddr (a : SocketAddrV4) : list Z := le16 AF_INET ++ be16 (port a) ++ be32 (ip a) ++ replicate 8 0.

Lemma sockaddr_read a : u16_ok (port a) -> u32_ok (ip a) -> sockaddr_to_socketaddrv4 (net_sockaddr a) = Ok a.
Proof.
  intros Hp Hi. unfold sockaddr_to_socketaddrv4, net_sockaddr. cbn [le16 app nth]. change (AF_INET mod 2^8 + AF_INET / 2^8 mod 2^8 * 2^8 =? AF_INET) with true. cbn [negb].
  change (drop 4 _) with (be32 (ip a) ++ replicate 8 0). change (drop 2 _) with (be16 (port a) ++ be32 (ip a) ++ replicate 8 0).
  change (take 4 _) with (be32 (ip a)). change (take 2 _) with (be16 (port a)). rewrite be16_get16, be32_get32 by done. by destruct a.
Qed.

(** The address a pop returns, given back to the interface, names another port. *)
Lemma popped_port_is_swapped a : u16_ok (port a) -> u32_ok (ip a) ->
  sockaddr_to_socketaddrv4 (sockaddr_in AF_INET (port a) (be32 (ip a))) = Ok (mkAddr (ip a) (port a mod 2^8 * 2^8 + port a / 2^8)).
Proof.
  intros Hp Hi. unfold sockaddr_to_socketaddrv4, sockaddr_in. cbn [le16 app nth]. change (AF_INET mod 2^8 + AF_INET / 2^8 mod 2^8 * 2^8 =? AF_INET) with true. cbn [negb].
  change (drop 4 _) with (be32 (ip a) ++ replicate 8 0). change (drop 2 _) with (le16 (port a) ++ be32 (ip a) ++ replicate 8 0).
  change (take 4 _) with (be32 (ip a)). change (take 2 _) with (le16 (port a)). rewrite be32_get32 by done. do 2 f_equal. unfold get16, le16, u16_ok in *. cbn.
  f_equal. apply Z.mod_small. split; [apply Z.div_pos; lia|apply Z.div_lt_upper_bound; lia].
Qed.

Example reply_port : sockaddr_to_socketaddrv4 (sockaddr_in AF_INET 53 (be32 (Ipv4Addr_new 10 0 1 8))) = Ok (mkAddr (Ipv4Addr_new 10 0 1 8) 13568).
Proof. reflexivity. Qed.

Section interface.
Context {C CI SL D : Type} `{MC : Mpsc Slot C} `{UC : Unbounded (Ipv4Addr * Z * Z) CI} `{SC : Slab Z SL} `{DP : Dpdk D} `{!MpscLaws Slot C} `{!SlabLaws Z SL}.
Variable new_key : gmap Z task -> option Z.
Variable crc32 : list Z -> Z.

Abbreviation stack := (InetStack.t C CI SL).
Abbreviation cell := (cell C CI SL D).

(** ** An array is sent *)

(** The array lies on the heap and shows [d]. *)
Definition array_shows (m : memory D) (sga : demi_sgarray_t) (d : list Z) : Prop :=
  SgaHost.in_range (hp m) (SgaHost.Arr sga) /\ SgaHost.shows (hp m) (SgaHost.Arr sga) = Some d.

(** The heap after the copy. *)
Definition copied (m : memory D) (d : list Z) : memory D := mkMemory (mkHeap (<[next (hp m) := mkBlock 1 d]> (blocks (hp m))) (next (hp m) + 1)) (dev m).

Lemma clone_array (m : memory D) sga d : array_shows m sga d ->
  clone_sgarray sga m = Ret (Ok (Heap (HeapBuffer.mk (Some (next (hp m))) 0 (length d))), copied m d) /\
  buffer_deref (Heap (HeapBuffer.mk (Some (next (hp m))) 0 (length d))) (copied m d) = Ret (d, copied m d).
Proof.
  intros [Hr Hs]. destruct (SgaHost.array_read _ _ _ Hr Hs) as [Hread _]. destruct Hr as (Hb & Hn & _). split.
  - unfold clone_sgarray, mbind, K_bind, on_heap. rewrite Hn, Hb. cbn [Z.eqb Pos.eqb negb]. rewrite Hread. done.
  - cbn. unfold on_heap, HeapBuffer.deref, mbind, M_bind, Arc.get. cbn. rewrite lookup_insert_eq. cbn. rewrite Nat.leb_refl. by rewrite drop_0, firstn_all.
Qed.

(** [demi_pushto] is [pushto2] of the bytes the array shows. *)
Lemma demi_pushto_stack (c : cell) A sga d qd rem r a tr tr1 : value c = Some A -> borrowed c = false -> array_shows (rt A) sga d -> d <> [] ->
  0 <= qd < 2^31 -> u16_ok (port rem) -> u32_ok (ip rem) -> InetStack.pushto2 new_key qd d rem (inetstack A) tr = Ret (r, a, tr1) ->
  demi_pushto new_key qd (Some sga) (Some (net_sockaddr rem)) SOCKADDR_IN_SIZE c tr =
    Ret (match r with Ok k => (0, Some k) | Err e => (errno e, None) end, mkCell (Some (mkCatnip a (copied (rt A) d) (mm A))) false, tr1).
Proof.
  intros Hv Hb Ha Hd Hq Hp Hi E. destruct (clone_array _ _ _ Ha) as [Hc Hder]. unfold demi_pushto, with_sockaddr. rewrite sockaddr_read by done. cbn [Z.eqb Pos.eqb SOCKADDR_IN_SIZE negb].
  unfold syscall, do_syscall, libos_pushto, network_pushto, catnip_pushto, catnip_push_sga. rewrite Hb, Hv. unfold qdesc_of_i32. rewrite Z.mod_small by lia.
  unfold InetStack.pushto2 in E. unfold mbind, L_bind, on_memory. rewrite Hc. cbn [rt mm inetstack]. rewrite Hder. destruct d as [|z d]; [done|]. cbn [length Nat.eqb] in *.
  unfold on_stack. cbn [inetstack]. unfold mbind, InetStack.S_bind in E. destruct (InetStack.do_pushto qd (z :: d) rem (inetstack A) tr) as [[[[f|e] s1] t1]| |]; try done.
  - cbn [inetstack rt mm]. rewrite E. by destruct r.
  - unfold mret, InetStack.S_ret in E. injection E as <- <- <-. done.
Qed.

(** ** Two programs *)

(** A program sends an array to [rem] through the C interface; then frames travel. *)
Definition c_exchange (tf : nat -> bool) (qd : Z) (sga : demi_sgarray_t) (rem : SocketAddrV4) (c : cell) (b : stack) : outcome (Z * option Z * cell * stack) :=
  '(r, c, f1) ← demi_pushto new_key qd (Some sga) (Some (net_sockaddr rem)) SOCKADDR_IN_SIZE c [];
  match value c with
  | None => Ret (r, c, b)
  | Some A =>
      '(a, b) ← Link.settle crc32 tf f1 (inetstack A) b;
      Ret (r, mkCell (Some (mkCatnip a (rt A) (mm A))) (borrowed c), b)
  end.

(** C19: A datagram sent through the C interface arrives.  Take a program whose library OS is
    initialized and whose background sender of datagrams is idle (nothing waits for an address),
    which owns an array on the heap and a bound datagram socket, and another
    host with a socket bound to the destination, their stacks in any states in which the ARP and UDP
    invariants hold.  The payload is not empty, fits in one IPv4 packet and does not start with the
    marker of a TCPMig or RPS message, which the receiver would take for one ([Link.ready]).
    [demi_pushto] with the array and the destination in network byte order returns
    zero and a token; once the frames of both sides have travelled (an ARP exchange included when
    the link address was not known), the queue of exactly the addressed socket holds the bytes the
    array showed, with the sender's address and port, no other queue has changed, and the operation
    of the token is ready with success.  The array still belongs to the program: the heap differs by
    the one copy the stack holds. *)
Theorem demi_pushto_delivers (tf : nat -> bool) (c : cell) (A : CatnipLibOS C CI SL D) (b : stack) (sga : demi_sgarray_t) (qd k id : Z) (loc rem : SocketAddrV4) (d : list Z)
    (macA macB : MacAddress) (ipA : Ipv4Addr) (cA cB : ArpConfig) (hdA hdB : list (Ipv4Addr * MacAddress)) :
  value c = Some A -> borrowed c = false -> array_shows (rt A) sga d -> 0 <= qd < 2^31 ->
  Link.ready new_key (inetstack A) b qd k id loc rem d macA macB ipA cA cB hdA hdB ->
  exists a' b', c_exchange tf qd sga rem c b = Ret (0, Some k, mkCell (Some (mkCatnip a' (copied (rt A) d) (mm A))) false, b') /\
    Link.arrived b b' id (mkSlot rem (mkAddr ipA (port loc)) d) /\
    InetStack.tasks a' !! k = Some (mkTask (Udp (UdpPushto qd (Ok tt))) false).
Proof.
  intros Hv Hb Ha Hq R. destruct (Link.udp_datagram_arrives new_key crc32 tf _ _ _ _ _ _ _ _ _ _ _ _ _ _ _ R) as (a' & b' & E & Harr & Ht). exists a', b'. split; [|done].
  unfold Link.exchange in E. destruct (InetStack.pushto2 new_key qd d rem (inetstack A) []) as [[[r a1] f1]| |] eqn:Ep; try done. cbn [mbind outcome_bind] in E.
  destruct (Link.settle crc32 tf f1 a1 b) as [[a2 b2]| |] eqn:Es; try done. cbn [mbind outcome_bind] in E. injection E as -> -> ->.
  pose proof (Link.r_data _ _ _ _ _ _ _ _ _ _ _ _ _ _ _ _ R) as (Hd & _). pose proof (Link.r_ports _ _ _ _ _ _ _ _ _ _ _ _ _ _ _ _ R) as [_ Hp].
  pose proof (Link.e_addr _ _ _ _ _ (Link.r_receiver _ _ _ _ _ _ _ _ _ _ _ _ _ _ _ _ R)) as Hi.
  unfold c_exchange. rewrite (demi_pushto_stack c A sga d qd rem (Ok k) a1 [] f1) by done. cbn [mbind outcome_bind value inetstack rt mm borrowed]. by rewrite Es.
Qed.

(** ** Results *)

(** A heap buffer becomes an array at its offset; the memory stays as it was. *)
Lemma into_sgarray_heap (m : memory D) d b x : HeapBuffer.data d = Some b -> blocks (hp m) !! b = Some x -> 0 < strong x ->
  into_sgarray (Heap d) m = Ret (Ok (heap_sga (Some (b, HeapBuffer.offset d)) (HeapBuffer.len d)), m).
Proof.
  intros Hd Hx Hs. pose proof (SgaHost.clone_then_drop _ _ _ Hx Hs) as E. unfold mbind, M_bind in E.
  unfold into_sgarray, mbind, K_bind, on_heap, HeapBuffer.clone, HeapBuffer.drop. rewrite Hd. unfold mbind, M_bind.
  destruct (Arc.clone b (hp m)) as [[[] h1]| |]; try done. cbn. unfold HeapBuffer.into_raw. rewrite Hd. cbn. rewrite E. by destruct m.
Qed.

(** A popped buffer is packed into an array that shows its bytes. *)
Lemma pack_pop_heap (place : Buffer.t -> RtBuffer) (m : memory D) addr l qd qt d b x : place l = Heap d -> HeapBuffer.data d = Some b -> blocks (hp m) !! b = Some x -> 0 < strong x ->
  (HeapBuffer.offset d + HeapBuffer.len d <= length (bytes x))%nat -> blen (bytes x) < 2^32 -> l = take (HeapBuffer.len d) (drop (HeapBuffer.offset d) (bytes x)) ->
  exists sga, pack_result place (Pop addr l) qd qt m = Ret (mkQr DEMI_OPC_POP (to_i32 qd) qt (QrSga sga), m) /\ sga_buf sga = None /\
    read (sgaseg_buf (sga_segs sga)) (Z.to_nat (sgaseg_len (sga_segs sga))) (hp m) = Ret (l, hp m).
Proof.
  intros Hp Hd Hx Hs Hle H32 Hl. pose proof (into_sgarray_heap m d b x Hd Hx Hs) as E.
  eexists. split; [unfold pack_result, mbind, K_bind; rewrite Hp, E; reflexivity|]. split; [by destruct addr|].
  match goal with |- context [sga_segs ?s] => assert (sga_segs s = sga_segs (heap_sga (Some (b, HeapBuffer.offset d)) (HeapBuffer.len d))) as -> by (by destruct addr) end.
  cbn [heap_sga sga_segs sgaseg_buf sgaseg_len]. rewrite wrap32_small by (unfold blen in H32; split; lia). rewrite Nat2Z.id.
  unfold read, mbind, M_bind, Arc.get. rewrite Hx, (proj2 (Nat.leb_le _ _)) by done. by rewrite Hl.
Qed.

(** Such an array cannot be given back when the buffer was a part of its block. *)
Lemma popped_part_cannot_be_freed (m : memory D) b x off n addr : blocks (hp m) !! b = Some x -> (0 < n)%nat -> Z.of_nat n < 2^32 -> (off <> 0 \/ n <> length (bytes x))%nat ->
  free_sgarray (set_sga_addr addr (heap_sga (Some (b, off)) n)) m = Panic "Arc::from_raw of a pointer that Arc::into_raw did not return".
Proof.
  intros Hx Hn H32 Hp. unfold free_sgarray, mbind, K_bind, on_heap. cbn [set_sga_addr heap_sga sga_numsegs sga_buf sga_segs sgaseg_buf sgaseg_len Z.eqb Pos.eqb negb].
  rewrite wrap32_small by (split; lia). rewrite Nat2Z.id. unfold HeapBuffer.from_raw_parts. rewrite (proj2 (Nat.eqb_neq n 0)) by lia. unfold Arc.from_raw, mbind, M_bind, Arc.get. rewrite Hx.
  destruct (Nat.eqb_spec off 0), (Nat.eqb_spec n (length (bytes x))); cbn; try done. lia.
Qed.

End interface.

(** ** An example *)

#[local] Existing Instance SimDevice.sim_dpdk.

Definition demo_cell : cell (ListChannel Slot) (list (Ipv4Addr * Z * Z)) (gmap Z Z) SimDevice.t :=
  mkCell (Some (mkCatnip (Link.demo_host ArpHost.mac1 ArpHost.ip1) (mkMemory (mkHeap {[1 := mkBlock 1 Link.demo_payload]} 2) (SimDevice.mk ∅ [])) SimDevice.manager)) false.

Definition demo_sga : demi_sgarray_t := heap_sga (Some (1, 0%nat)) 3.

Lemma demi_pushto_delivers_witness :
  exists c b', c_exchange Stack.demo_key Stack.demo_crc32 ArpHost.response_first 7 demo_sga (mkAddr ArpHost.ip2 53) demo_cell (Link.demo_host ArpHost.mac2 ArpHost.ip2) =
      Ret (0, Some Link.first_key, c, b') /\
    UdpHost.mailbox (InetStack.udp b') 0 = [mkSlot (mkAddr ArpHost.ip2 53) (mkAddr ArpHost.ip1 53) Link.demo_payload].
Proof.
  assert (Ha : array_shows (mkMemory (mkHeap {[1 := mkBlock 1 Link.demo_payload]} 2) (SimDevice.mk ∅ [])) demo_sga Link.demo_payload).
  { split; [|reflexivity]. split; [reflexivity|]. split; [reflexivity|]. split; [vm_compute; split; congruence|]. exists 1. split; [reflexivity|]. exists (mkBlock 1 Link.demo_payload).
    split; [reflexivity|]. split; vm_compute; [lia|reflexivity]. }
  assert (Hq : 0 <= 7 < 2^31) by lia.
  destruct (demi_pushto_delivers Stack.demo_key Stack.demo_crc32 ArpHost.response_first demo_cell _ _ demo_sga _ _ _ _ _ _ _ _ _ _ _ _ _ eq_refl eq_refl Ha Hq Link.demo_ready) as (a' & b' & E & Harr & _).
  eexists _, b'. split; [exact E|]. rewrite (Harr 0). reflexivity.
Defined.
