(* ===== verification/Catnap.v ===== *)
(** * The Catnap library OS
    (src/src/rust/catnap/{mod,runtime}.rs, catnap/futures/, pal/linux/mod.rs)

    Catnap offers the interface of the library OS over the sockets of the operating system: a call
    leaves a task that tries a non-blocking system call each time it is polled, until it is neither
    in progress nor would block.  The operating system is the class [Posix]: what its calls return is
    arbitrary, so what is proved holds whatever it does.

    Buffers and arrays live on the heap of [Sga].  The tasks a poll of the scheduler runs, in which
    order, and whether the deadline of the caller has passed are inputs; every task that is not
    done wakes itself, so none waits for anything but the next poll. *)

From S2P Require Import Prelude Net SharedQueue Udp InetStack Sga Demikernel.

(** The result of a system call: a value, or an error number. *)
Inductive io (A : Type) : Type := IoOk (a : A) | IoErr (errno : Z).
Arguments IoOk {A} a.
Arguments IoErr {A} errno.

Inductive SockType := SockStream | SockDatagram.

(** The calls of nix and libc.  A socket is created non-blocking; [recvfrom] is given the size of its
    buffer. *)
Class Posix (OS : Type) := {
  px_socket : SockType -> OS -> io Z * OS;
  px_setsockopt_reuseport : Z -> OS -> io unit * OS;
  px_bind : Z -> SocketAddrV4 -> OS -> io unit * OS;
  px_listen : Z -> nat -> OS -> io unit * OS;
  px_accept : Z -> OS -> io Z * OS;
  px_connect : Z -> SocketAddrV4 -> OS -> io unit * OS;
  px_close : Z -> OS -> io unit * OS;
  px_send : Z -> list Z -> OS -> io nat * OS;
  px_sendto : Z -> list Z -> SocketAddrV4 -> OS -> io nat * OS;
  px_recvfrom : Z -> nat -> OS -> io (list Z * option SocketAddrV4) * OS;
  px_setsockopt : Z -> Z -> Z -> OS -> Z * OS;
  px_fcntl_getfl : Z -> OS -> Z * OS;
  px_fcntl_setfl : Z -> Z -> OS -> Z * OS
}.

(** No more is received than the buffer holds. *)
Class PosixLaws (OS : Type) `{Posix OS} : Prop := {
  px_recvfrom_size fd n os l addr os' : px_recvfrom fd n os = (IoOk (l, addr), os') -> (length l <= n)%nat
}.

Definition IPPROTO_TCP : Z := 6.
Definition TCP_NODELAY : Z := 1.
Definition SO_REUSEPORT : Z := 15.
Definition O_NONBLOCK : Z := 2048.

(** ** Operations (catnap/futures/) *)

Record AcceptFuture := mkAcceptFuture { af_qd : Z; af_fd : Z; af_new_qd : Z }.
Record ConnectFuture := mkConnectFuture { cf_qd : Z; cf_fd : Z; cf_addr : SocketAddrV4 }.
Record PushFuture := mkPushFuture { pf_qd : Z; pf_fd : Z; pf_buf : HeapBuffer.t }.
Record PushtoFuture := mkPushtoFuture { ptf_qd : Z; ptf_addr : SocketAddrV4; ptf_fd : Z; ptf_buf : HeapBuffer.t }.
Record PopFuture := mkPopFuture { ppf_qd : Z; ppf_fd : Z }.

Definition POP_SIZE : nat := 9216.

Inductive Operation :=
| OAccept (f : Future AcceptFuture Z)
| OConnect (f : Future ConnectFuture unit)
| OPush (f : Future PushFuture unit)
| OPushto (f : Future PushtoFuture unit)
| OPop (f : Future PopFuture (option SocketAddrV4 * HeapBuffer.t)).

(** The result of an operation; a popped buffer is on the heap. *)
Inductive CnResult :=
| CnConnect
| CnAccept (qd : Z)
| CnPush
| CnPop (addr : option SocketAddrV4) (bytes : HeapBuffer.t)
| CnFailed (e : Fail).

Definition cn_result {R} (ok : R -> CnResult) (r : Result R) : CnResult :=
  match r with Ok x => ok x | Err e => CnFailed e end.

(** [Operation::get_result]: the descriptor, the one booked for a connection with its file descriptor,
    and the result. *)
Definition get_result (self : Operation) : outcome (Z * option Z * option Z * CnResult) :=
  match self with
  | OAccept (mkFuture f (Some (Ok new_fd))) => Ret (af_qd f, Some (af_new_qd f), Some new_fd, CnAccept (af_new_qd f))
  | OAccept (mkFuture f (Some (Err e))) => Ret (af_qd f, Some (af_new_qd f), None, CnFailed e)
  | OConnect (mkFuture f (Some r)) => Ret (cf_qd f, None, None, cn_result (fun _ => CnConnect) r)
  | OPush (mkFuture f (Some r)) => Ret (pf_qd f, None, None, cn_result (fun _ => CnPush) r)
  | OPushto (mkFuture f (Some r)) => Ret (ptf_qd f, None, None, cn_result (fun _ => CnPush) r)
  | OPop (mkFuture f (Some r)) => Ret (ppf_qd f, None, None, cn_result (fun x => CnPop x.1 x.2) r)
  | _ => Panic "future not ready"
  end.

(** A task of the scheduler. *)
Record cn_task := mkCnTask { cn_op : Operation; cn_completed : bool }.

(** A poll of the scheduler: the tasks it runs, and whether the caller's deadline has passed after it. *)
Record cn_turn := mkCnTurn { cn_order : list Z; cn_expired : bool }.

(** The memory of the runtime (catnap/runtime.rs), whose text is that of Catpowder's. *)
Module PosixRuntime.

Definition into_sgarray (buf : HeapBuffer.t) : M (Result demi_sgarray_t) := LinuxMemory.into_sgarray buf.
Definition alloc_sgarray (size : nat) : M (Result demi_sgarray_t) := LinuxMemory.alloc_sgarray size.
Definition free_sgarray (sga : demi_sgarray_t) : M (Result unit) := LinuxMemory.free_sgarray sga.
Definition clone_sgarray (sga : demi_sgarray_t) : M (Result HeapBuffer.t) := LinuxMemory.clone_sgarray sga.

End PosixRuntime.

Module Catnap.

Section catnap.
Context {OS SL : Type} `{Posix OS} `{Slab Z SL}.
Variable new_key : gmap Z cn_task -> option Z.

(** [CatnapLibOS], with the tasks of its scheduler, the heap and the operating system. *)
Record t := mk { qtable : SL; sockets : gmap Z Z; tasks : gmap Z cn_task; mem : heap; os : OS }.

Definition set_qtable v (s : t) := mk v (sockets s) (tasks s) (mem s) (os s).
Definition set_sockets v (s : t) := mk (qtable s) v (tasks s) (mem s) (os s).
Definition set_tasks v (s : t) := mk (qtable s) (sockets s) v (mem s) (os s).
Definition set_mem v (s : t) := mk (qtable s) (sockets s) (tasks s) v (os s).
Definition set_os v (s : t) := mk (qtable s) (sockets s) (tasks s) (mem s) v.

Definition N (A : Type) : Type := t -> outcome (A * t).

#[export] Instance N_ret : MRet N := fun A a s => Ret (a, s).
#[export] Instance N_bind : MBind N := fun A B k m s =>
  match m s with
  | Ret (a, s') => k a s'
  | Panic msg => Panic msg
  | Diverge => Diverge
  end.

Definition get : N t := fun s => Ret (s, s).
Definition modify (f : t -> t) : N unit := fun s => Ret (tt, f s).
Definition lift {A} (o : outcome A) : N A := fun s =>
  match o with Ret a => Ret (a, s) | Panic msg => Panic msg | Diverge => Diverge end.
Definition failing {A} (errno : Z) (cause : string) : N (Result A) := mret (Err (mkFail errno cause)).

(** A system call, and an operation on the heap. *)
Definition sys {A} (f : OS -> A * OS) : N A := fun s => let '(a, o) := f (os s) in Ret (a, set_os o s).
Definition on_heap {A} (m : M A) : N A := fun s =>
  match m (mem s) with
  | Ret (a, h) => Ret (a, set_mem h s)
  | Panic msg => Panic msg
  | Diverge => Diverge
  end.

(** [CatnapLibOS::new] *)
Definition new (h : heap) (o : OS) : t := mk IoQueueTable.new ∅ ∅ h o.

Definition alloc_qd (ty : QType) : N Z := fun s =>
  let '(qd, ft) := IoQueueTable.alloc (qtable s) (QType_to_u32 ty) in Ret (qd, set_qtable ft s).
Definition free_qd (qd : Z) : N unit := modify (fun s => set_qtable (IoQueueTable.free (qtable s) qd).2 s).

(** [assert!(self.sockets.insert(qd, fd).is_none())] *)
Definition insert_socket (qd fd : Z) : N unit :=
  s ← get;
  match sockets s !! qd with
  | None => modify (set_sockets (<[qd := fd]> (sockets s)))
  | Some _ => lift (Panic "assertion failed: self.sockets.insert(qd, fd).is_none()")
  end.

Definition with_fd {A} (qd : Z) (k : Z -> N (Result A)) : N (Result A) :=
  s ← get;
  match sockets s !! qd with
  | Some fd => k fd
  | None => failing EBADF "invalid queue descriptor"
  end.

(** [unwrap] of a system call *)
Definition unwrap {A} (r : io A) : N A :=
  match r with
  | IoOk a => mret a
  | IoErr _ => lift (Panic "called `Result::unwrap()` on an `Err` value")
  end.

(** *** Options of a socket (pal/linux/mod.rs) *)

Definition set_tcp_nodelay (fd : Z) : N Z := sys (px_setsockopt fd IPPROTO_TCP TCP_NODELAY).
Definition set_so_reuseport (fd : Z) : N Z := sys (px_setsockopt fd IPPROTO_TCP SO_REUSEPORT).
Definition set_nonblock (fd : Z) : N Z :=
  flags ← sys (px_fcntl_getfl fd);
  if flags =? -1 then mret (-1) else sys (px_fcntl_setfl fd (Z.lor flags O_NONBLOCK)).

(** *** Calls of the application *)

Definition socket (domain typ : Z) : N (Result Z) :=
  if negb (domain =? AF_INET) then failing ENOTSUP "communication domain  not supported" else
  let create (ty : SockType) : N (Result Z) :=
    r ← sys (px_socket ty);
    match r with
    | IoErr e => failing e "failed to create socket"
    | IoOk fd =>
        _ ← sys (px_setsockopt_reuseport fd);
        qd ← alloc_qd TcpSocket;
        _ ← insert_socket qd fd;
        mret (Ok qd)
    end in
  if typ =? SOCK_STREAM then create SockStream
  else if typ =? SOCK_DGRAM then create SockDatagram
  else failing ENOTSUP "socket type not supported".

Definition bind (qd : Z) (local : SocketAddrV4) : N (Result unit) :=
  with_fd qd (fun fd => r ← sys (px_bind fd local); _ ← unwrap r; mret (Ok tt)).

Definition listen (qd : Z) (backlog : nat) : N (Result unit) :=
  with_fd qd (fun fd => r ← sys (px_listen fd backlog); _ ← unwrap r; mret (Ok tt)).

(** [scheduler.insert] *)
Definition schedule (f : Operation) : N (option Z) := fun s =>
  match new_key (tasks s) with
  | Some k => Ret (Some k, set_tasks (<[k := mkCnTask f false]> (tasks s)) s)
  | None => Ret (None, s)
  end.

Definition accept (qd : Z) : N (Result Z) :=
  with_fd qd (fun fd =>
    new_qd ← alloc_qd TcpSocket;
    k ← schedule (OAccept (mkFuture (mkAcceptFuture qd fd new_qd) None));
    match k with
    | Some k => mret (Ok k)
    | None => _ ← free_qd new_qd; failing EAGAIN "cannot schedule co-routine"
    end).

Definition connect (qd : Z) (remote : SocketAddrV4) : N (Result Z) :=
  with_fd qd (fun fd =>
    k ← schedule (OConnect (mkFuture (mkConnectFuture qd fd remote) None));
    match k with
    | Some k => mret (Ok k)
    | None => failing EAGAIN "cannot schedule co-routine"
    end).

(** The descriptor stays in the table. *)
Definition close (qd : Z) : N (Result unit) :=
  with_fd qd (fun fd =>
    r ← sys (px_close fd);
    match r with
    | IoOk _ => mret (Ok tt)
    | IoErr _ => failing EBADF "invalid queue descriptor"
    end).

(** A buffer that is not scheduled is dropped with the future or the call. *)
Definition issue_push (qd : Z) (buf : HeapBuffer.t) (f : Z -> Operation) : N (Result Z) :=
  s ← get;
  match sockets s !! qd with
  | None => _ ← on_heap (HeapBuffer.drop buf); failing EBADF "invalid queue descriptor"
  | Some fd =>
      k ← schedule (f fd);
      match k with
      | Some k => mret (Ok k)
      | None => _ ← on_heap (HeapBuffer.drop buf); failing EAGAIN "cannot schedule co-routine"
      end
  end.

Definition do_push (qd : Z) (buf : HeapBuffer.t) : N (Result Z) :=
  issue_push qd buf (fun fd => OPush (mkFuture (mkPushFuture qd fd buf) None)).

Definition do_pushto (qd : Z) (buf : HeapBuffer.t) (remote : SocketAddrV4) : N (Result Z) :=
  issue_push qd buf (fun fd => OPushto (mkFuture (mkPushtoFuture qd remote fd buf) None)).

(** A zero-length buffer is refused, and dropped. *)
Definition check_length (buf : HeapBuffer.t) (k : N (Result Z)) : N (Result Z) :=
  if Nat.eqb (HeapBuffer.len buf) 0 then _ ← on_heap (HeapBuffer.drop buf); failing EINVAL "zero-length buffer"
  else k.

Definition with_clone (sga : demi_sgarray_t) (k : HeapBuffer.t -> N (Result Z)) : N (Result Z) :=
  r ← on_heap (PosixRuntime.clone_sgarray sga);
  match r with
  | Err e => mret (Err e)
  | Ok buf => check_length buf (k buf)
  end.

Definition push (qd : Z) (sga : demi_sgarray_t) : N (Result Z) := with_clone sga (do_push qd).
Definition pushto (qd : Z) (sga : demi_sgarray_t) (remote : SocketAddrV4) : N (Result Z) :=
  with_clone sga (fun buf => do_pushto qd buf remote).

Definition push2 (qd : Z) (data : list Z) : N (Result Z) :=
  buf ← on_heap (HeapBuffer.from_slice data); check_length buf (do_push qd buf).
Definition pushto2 (qd : Z) (data : list Z) (remote : SocketAddrV4) : N (Result Z) :=
  buf ← on_heap (HeapBuffer.from_slice data); check_length buf (do_pushto qd buf remote).

Definition pop (qd : Z) : N (Result Z) :=
  with_fd qd (fun fd =>
    k ← schedule (OPop (mkFuture (mkPopFuture qd fd) None));
    match k with
    | Some k => mret (Ok k)
    | None => failing EAGAIN "cannot schedule co-routine"
    end).

(** *** Polls of the tasks *)

(** [EWOULDBLOCK] is [EAGAIN]. *)
Definition settle {A R} (again : Z -> bool) (r : io A) (k : A -> N R) : N (option (Result R)) :=
  match r with
  | IoOk a => x ← k a; mret (Some (Ok x))
  | IoErr e => mret (if again e then None else Some (Err (mkFail e "operation failed")))
  end.

Definition would_block (e : Z) : bool := e =? EAGAIN.

Definition poll_accept (f : AcceptFuture) : N (option (Result Z)) :=
  r ← sys (px_accept (af_fd f));
  settle would_block r (fun new_fd =>
    _ ← set_tcp_nodelay new_fd;
    _ ← set_nonblock new_fd;
    _ ← set_so_reuseport new_fd;
    mret new_fd).

Definition poll_connect (f : ConnectFuture) : N (option (Result unit)) :=
  r ← sys (px_connect (cf_fd f) (cf_addr f));
  settle (fun e => (e =? EINPROGRESS) || (e =? EALREADY)) r (fun _ => mret tt).

(** However many bytes the system took, the operation is done. *)
Definition poll_push (f : PushFuture) : N (option (Result unit)) :=
  bytes ← on_heap (HeapBuffer.deref (pf_buf f));
  r ← sys (px_send (pf_fd f) bytes);
  settle would_block r (fun _ => mret tt).

Definition poll_pushto (f : PushtoFuture) : N (option (Result unit)) :=
  bytes ← on_heap (HeapBuffer.deref (ptf_buf f));
  r ← sys (px_sendto (ptf_fd f) bytes (ptf_addr f));
  settle would_block r (fun _ => mret tt).

Definition poll_pop (f : PopFuture) : N (option (Result (option SocketAddrV4 * HeapBuffer.t))) :=
  r ← sys (px_recvfrom (ppf_fd f) POP_SIZE);
  settle would_block r (fun '(bytes, addr) =>
    buf ← on_heap (HeapBuffer.from_slice bytes); mret (addr, buf)).

(** [FutureResult::poll]; [true] when it is ready. *)
Definition poll_future {F R} (f : Future F R) (m : F -> N (option (Result R))) : N (Future F R * bool) :=
  match fut_done f with
  | Some _ => lift (Panic "future polled after completion")
  | None => r ← m (fut f); mret (mkFuture (fut f) r, match r with Some _ => true | None => false end)
  end.

Definition poll_operation (o : Operation) : N (Operation * bool) :=
  match o with
  | OAccept f => '(f, b) ← poll_future f poll_accept; mret (OAccept f, b)
  | OConnect f => '(f, b) ← poll_future f poll_connect; mret (OConnect f, b)
  | OPush f => '(f, b) ← poll_future f poll_push; mret (OPush f, b)
  | OPushto f => '(f, b) ← poll_future f poll_pushto; mret (OPushto f, b)
  | OPop f => '(f, b) ← poll_future f poll_pop; mret (OPop f, b)
  end.

(** The scheduler polls a task that has not completed. *)
Definition poll_task (key : Z) : N unit :=
  s ← get;
  match tasks s !! key with
  | Some (mkCnTask o false) =>
      '(o, b) ← poll_operation o;
      modify (fun s => set_tasks (<[key := mkCnTask o b]> (tasks s)) s)
  | _ => mret tt
  end.

Fixpoint scheduler_poll (l : list Z) : N unit :=
  match l with
  | [] => mret tt
  | k :: l => _ ← poll_task k; scheduler_poll l
  end.

(** *** Waiting *)

(** What a future holds when it is dropped with its operation. *)
Definition drop_future (o : Operation) : N unit :=
  match o with
  | OPush f => on_heap (HeapBuffer.drop (pf_buf (fut f)))
  | OPushto f => on_heap (HeapBuffer.drop (ptf_buf (fut f)))
  | _ => mret tt
  end.

Definition take_result (qt : Z) (o : Operation) : N (Z * CnResult) :=
  _ ← modify (fun s => set_tasks (delete qt (tasks s)) s);
  '(qd, new_qd, new_fd, qr) ← lift (get_result o);
  _ ← drop_future o;
  _ ← match new_qd, new_fd with
      | Some new_qd, Some new_fd => insert_socket new_qd new_fd
      | Some new_qd, None => free_qd new_qd
      | None, _ => mret tt
      end;
  mret (qd, qr).

Fixpoint wait2_loop (qt : Z) (ws : list cn_turn) : N (Z * CnResult) :=
  match ws with
  | [] => lift Diverge
  | w :: ws =>
      _ ← scheduler_poll (cn_order w);
      s ← get;
      match tasks s !! qt with
      | Some (mkCnTask o true) => take_result qt o
      | _ => wait2_loop qt ws
      end
  end.

Definition wait2 (qt : Z) (ws : list cn_turn) : N (Result (Z * CnResult)) :=
  s ← get;
  match tasks s !! qt with
  | None => failing EINVAL "invalid queue token"
  | Some _ => r ← wait2_loop qt ws; mret (Ok r)
  end.

(** [cn_expired] of a turn: no deadline was given, or it has passed. *)
Fixpoint timedwait_loop (qt : Z) (ws : list cn_turn) : N (Result (Z * CnResult)) :=
  match ws with
  | [] => lift Diverge
  | w :: ws =>
      _ ← scheduler_poll (cn_order w);
      s ← get;
      match tasks s !! qt with
      | Some (mkCnTask o true) => r ← take_result qt o; mret (Ok r)
      | _ => if cn_expired w then failing ETIMEDOUT "timer expired" else timedwait_loop qt ws
      end
  end.

(** One pass of [wait_any2] over the tokens from position [i]: the results and indices written so far
    are [acc], of which [n] results and [m] indices fit; they stay written when a token is invalid. *)
Fixpoint scan (n m : nat) (qts : list Z) (i : nat) (acc : list (nat * (Z * CnResult))) :
  N (list (nat * (Z * CnResult)) * option Fail) :=
  match qts with
  | [] => mret (acc, None)
  | qt :: qts =>
      if Nat.eqb (length acc) n then mret (acc, None) else
      s ← get;
      match tasks s !! qt with
      | None => mret (acc, Some (mkFail EINVAL "invalid queue token"))
      | Some (mkCnTask o true) =>
          r ← take_result qt o;
          if Nat.leb m (length acc) then lift (Panic "index out of bounds")
          else scan n m qts (S i) (acc ++ [(i, r)])
      | Some _ => scan n m qts (S i) acc
      end
  end.

(** The results written, and the number returned. *)
Fixpoint wait_any2 (n m : nat) (qts : list Z) (ws : list cn_turn) :
  N (list (nat * (Z * CnResult)) * Result nat) :=
  match ws with
  | [] => lift Diverge
  | w :: ws =>
      _ ← scheduler_poll (cn_order w);
      r ← scan n m qts 0 [];
      match r with
      | (l, Some e) => mret (l, Err e)
      | ([], None) => wait_any2 n m qts ws
      | (l, None) => mret (l, Ok (length l))
      end
  end.

(** *** Results for the C interface *)

(** The error number of a failed operation is not passed on. *)
Definition pack_result (result : CnResult) (qd qt : Z) : N demi_qresult_t :=
  match result with
  | CnConnect => mret (mkQr DEMI_OPC_CONNECT (to_i32 qd) qt QrZeroed)
  | CnAccept new_qd => mret (mkQr DEMI_OPC_ACCEPT (to_i32 qd) qt (QrAres (to_i32 new_qd) zeroed_addr))
  | CnPush => mret (mkQr DEMI_OPC_PUSH (to_i32 qd) qt QrZeroed)
  | CnPop addr bytes =>
      r ← on_heap (PosixRuntime.into_sgarray bytes);
      match r with
      | Ok sga =>
          let sga := match addr with
                     | Some endpoint => set_sga_addr (sockaddr_in AF_INET (port endpoint) (be32 (ip endpoint))) sga
                     | None => sga
                     end in
          mret (mkQr DEMI_OPC_POP (to_i32 qd) qt (QrSga sga))
      | Err _ => mret (mkQr DEMI_OPC_FAILED (to_i32 qd) qt QrZeroed)
      end
  | CnFailed _ => mret (mkQr DEMI_OPC_FAILED (to_i32 qd) qt QrZeroed)
  end.

Definition wait (qt : Z) (ws : list cn_turn) : N (Result demi_qresult_t) :=
  r ← wait2 qt ws;
  match r with
  | Err e => mret (Err e)
  | Ok (qd, result) => q ← pack_result result qd qt; mret (Ok q)
  end.

Definition timedwait (qt : Z) (ws : list cn_turn) : N (Result demi_qresult_t) :=
  s ← get;
  match tasks s !! qt with
  | None => failing EINVAL "invalid queue token"
  | Some _ =>
      r ← timedwait_loop qt ws;
      match r with
      | Err e => mret (Err e)
      | Ok (qd, result) => q ← pack_result result qd qt; mret (Ok q)
      end
  end.

Definition sgaalloc (size : nat) : N (Result demi_sgarray_t) := on_heap (PosixRuntime.alloc_sgarray size).
Definition sgafree (sga : demi_sgarray_t) : N (Result unit) := on_heap (PosixRuntime.free_sgarray sga).

End catnap.
End Catnap.
