(* ===== verification/CatnapSafety.v ===== *)
(** * Catnap keeps its tables and its memory consistent, whatever the operating system does

    A program that uses Catnap ([CatnapHost]) holds arrays and popped buffers; the tasks of the library
    hold the buffers they send and the ones they received.  In every state the two reach, the
    tables agree, every block of the heap is counted by those who hold it, and every further call
    returns, unless the operating system refuses a [bind] or a [listen]. *)

From S2P Require Import Prelude Net SharedQueue Udp InetStack Sga SgaSafety Demikernel Catnap.
Import SgaHost.

(** ** Items that cover their block *)

Definition full (m : heap) (x : item) : Prop :=
  exists b blk, blocks m !! b = Some blk /\
  match x with
  | Buf d => HeapBuffer.data d = Some b /\ HeapBuffer.offset d = 0%nat /\ HeapBuffer.len d = length (bytes blk)
  | Arr a => sgaseg_buf (sga_segs a) = Some (b, 0%nat) /\ Z.to_nat (sgaseg_len (sga_segs a)) = length (bytes blk)
  end.

Definition good (s : state) : Prop := inv s /\ forall h x, items s !! h = Some x -> full (mem s) x.

Lemma full_block m x b : full m x -> block_of x = Some b -> exists blk, blocks m !! b = Some blk.
Proof.
  intros (b' & blk & Hb & Hx) E. destruct x as [d|a]; cbn in E.
  - destruct Hx as [Hd _]. exists blk. congruence.
  - destruct Hx as [Hd _]. rewrite Hd in E. cbn in E. exists blk. congruence.
Qed.

Lemma full_block_of m x : full m x -> exists b, block_of x = Some b.
Proof.
  intros (b & blk & _ & Hx). exists b. destruct x as [d|a]; cbn; [by destruct Hx|]. destruct Hx as [-> _]. done.
Qed.

(** A change of the heap that keeps the length of an item's block. *)
Lemma full_ext m m' x :
  (forall b blk, block_of x = Some b -> blocks m !! b = Some blk ->
     exists blk', blocks m' !! b = Some blk' /\ length (bytes blk') = length (bytes blk)) ->
  full m x -> full m' x.
Proof.
  intros H (b & blk & Hb & Hx). assert (E : block_of x = Some b).
  { destruct x as [d|a]; cbn; [by destruct Hx|]. by destruct Hx as [-> _]. }
  destruct (H b blk E Hb) as (blk' & Hb' & Hl). exists b, blk'. split; [done|]. rewrite Hl. done.
Qed.

Lemma good_new s h l :
  good s -> items s !! h = None -> blen l < 2^32 ->
  good (mkState (fresh_block s l) (<[h := Buf (HeapBuffer.mk (Some (next (mem s))) 0 (length l))]> (items s))).
Proof.
  intros [I F] Hh Hl. destruct (new_buffer s h l I Hh Hl) as (I' & _ & _). split; [done|]. cbn [mem items].
  intros k x Hk. apply lookup_insert_Some in Hk as [[<- <-]|[Hne Hk]].
  - exists (next (mem s)), (mkBlock 1 l). cbn. by rewrite lookup_insert_eq.
  - apply (full_ext (mem s)); [|by eapply F]. intros b blk E Hb. exists blk. split; [|done]. cbn.
    rewrite lookup_insert_ne; [done|]. pose proof (no_block_beyond s k x b I Hk E). lia.
Qed.

Lemma good_new_array s h l :
  good s -> items s !! h = None -> blen l < 2^32 -> l <> [] ->
  good (mkState (fresh_block s l) (<[h := Arr (heap_sga (Some (next (mem s), 0%nat)) (length l))]> (items s))).
Proof.
  intros [I F] Hh Hl Hn. destruct (new_array s h l I Hh Hl Hn) as (I' & _ & _). split; [done|]. cbn [mem items].
  intros k x Hk. apply lookup_insert_Some in Hk as [[<- <-]|[Hne Hk]].
  - exists (next (mem s)), (mkBlock 1 l). cbn. rewrite lookup_insert_eq. split; [done|]. split; [done|]. by apply wrap32_nat.
  - apply (full_ext (mem s)); [|by eapply F]. intros b blk E Hb. exists blk. split; [|done]. cbn.
    rewrite lookup_insert_ne; [done|]. pose proof (no_block_beyond s k x b I Hk E). lia.
Qed.

Lemma arc_drop_bytes b m mm b' x' :
  Arc.drop b m = Ret (tt, mm) -> blocks mm !! b' = Some x' -> exists x, blocks m !! b' = Some x /\ bytes x = bytes x'.
Proof.
  unfold Arc.drop, Arc.get, Arc.free, Arc.put, mbind, M_bind. destruct (blocks m !! b) as [y|] eqn:E; [|done].
  destruct (strong y =? 1); intros [= <-]; cbn.
  - intros [_ H]%lookup_delete_Some. by exists x'.
  - intros [[<- <-]|[_ H]]%lookup_insert_Some; [by exists y|by exists x'].
Qed.

(** An item is given up. *)
Lemma good_gone s h x b :
  good s -> items s !! h = Some x -> block_of x = Some b ->
  exists mm, Arc.drop b (mem s) = Ret (tt, mm) /\ good (mkState mm (delete h (items s))).
Proof.
  intros [I F] Hh E. destruct (sga_inv_drop s h x b I Hh E) as (mm & Ed & I' & _). exists mm. split; [done|]. split; [done|].
  cbn [mem items]. intros k y Hk. pose proof (i_range _ I' k y Hk) as Hr. apply lookup_delete_Some in Hk as [_ Hk].
  apply (full_ext (mem s)); [|by eapply F]. intros b' blk Eb Hb. destruct (in_range_block _ _ _ Hr Eb) as (blk' & Hb' & _).
  exists blk'. split; [done|]. destruct (arc_drop_bytes _ _ _ _ _ Ed Hb') as (blk2 & Hb2 & <-). congruence.
Qed.

Lemma good_drop s h d :
  good s -> items s !! h = Some (Buf d) ->
  exists mm, HeapBuffer.drop d (mem s) = Ret (tt, mm) /\ good (mkState mm (delete h (items s))).
Proof.
  intros G Hh. destruct (proj2 G h _ Hh) as (b & blk & Hb & Hd & _). unfold HeapBuffer.drop. rewrite Hd.
  by apply (good_gone s h (Buf d)).
Qed.

(** An array that is empty cannot be given back. *)
Lemma good_free s h a :
  good s -> items s !! h = Some (Arr a) ->
  exists r mm, LinuxMemory.free_sgarray a (mem s) = Ret (r, mm) /\
    match r with Ok _ => good (mkState mm (delete h (items s))) | Err _ => mm = mem s end.
Proof.
  intros G Hh. pose proof (i_range _ (proj1 G) h _ Hh) as (_ & Hn & _). destruct (proj2 G h _ Hh) as (b & blk & Hb & Hp & Hl).
  unfold LinuxMemory.free_sgarray, HeapBuffer.from_raw_parts. rewrite Hn, Hp. cbn [Z.eqb Pos.eqb negb].
  destruct (Nat.eqb_spec (Z.to_nat (sgaseg_len (sga_segs a))) 0) as [H0|H0].
  { eexists _, _. split; [done|]. done. }
  destruct (good_gone s h (Arr a) b G Hh) as (mm & Ed & G'); [cbn; by rewrite Hp|].
  unfold Arc.from_raw, Arc.get, mbind, M_bind. rewrite Hb, Hl. cbn [Nat.eqb andb]. rewrite Nat.eqb_refl. cbn.
  unfold HeapBuffer.drop. cbn. rewrite Ed. eexists _, _. split; [done|]. done.
Qed.

Lemma good_replace s h x y :
  good s -> items s !! h = Some x -> block_of y = block_of x -> in_range (mem s) y -> full (mem s) y ->
  good (mkState (mem s) (<[h := y]> (items s))).
Proof.
  intros [I F] Hh E Hr Hf. destruct (inv_replace s h x y I Hh E Hr) as [I' _]. split; [done|]. cbn.
  intros k z [[<- <-]|[_ Hk]]%lookup_insert_Some; [done|by eapply F].
Qed.

(** A buffer becomes an array, with any address. *)
Lemma good_into s h d addr :
  good s -> items s !! h = Some (Buf d) ->
  exists sga, LinuxMemory.into_sgarray d (mem s) = Ret (Ok sga, mem s) /\
    good (mkState (mem s) (<[h := Arr (set_sga_addr addr sga)]> (items s))) /\
    good (mkState (mem s) (<[h := Arr sga]> (items s))).
Proof.
  intros G Hh. destruct (proj2 G h _ Hh) as (b & blk & Hb & Hd & Ho & Hl). pose proof (i_count _ (proj1 G) b blk Hb) as [_ Hp].
  pose proof (i_range _ (proj1 G) h _ Hh) as Hr. cbn in Hr. rewrite Hd in Hr. destruct Hr as (blk' & Hb' & _ & Hlt).
  assert (blk' = blk) as -> by congruence. exists (heap_sga (Some (b, 0%nat)) (HeapBuffer.len d)).
  unfold LinuxMemory.into_sgarray, HeapBuffer.clone, HeapBuffer.into_raw, HeapBuffer.drop. rewrite Hd. split.
  - pose proof (clone_then_drop _ _ _ Hb Hp) as E. unfold mbind, M_bind in *.
    destruct (Arc.clone b (mem s)) as [[[] m1]| |]; try done. unfold mret, M_ret. rewrite Hd. cbn. by rewrite E.
  - assert (Hsmall : wrap32 (Z.of_nat (HeapBuffer.len d)) = Z.of_nat (HeapBuffer.len d))
      by (apply wrap32_small; unfold u32_ok, blen in *; lia).
    assert (H : forall g, sga_buf g = None -> sga_numsegs g = 1 -> sga_segs g = mkSeg (Some (b, 0%nat)) (wrap32 (Z.of_nat (HeapBuffer.len d))) ->
      good (mkState (mem s) (<[h := Arr g]> (items s)))).
    { intros g H1 H2 H3. apply (good_replace s h (Buf d)); [done|done| | |].
      - cbn. by rewrite H3, Hd.
      - cbn. rewrite H3. cbn. rewrite Hsmall. split; [done|]. split; [done|]. split; [unfold blen in *; lia|]. exists b. split; [done|].
        exists blk. split; [done|]. split; [lia|done].
      - exists b, blk. split; [done|]. rewrite H3. cbn. rewrite Hsmall. split; [done|]. lia. }
    by split; apply H.
Qed.

(** An item changes hands. *)
Lemma good_move s h h' x :
  good s -> items s !! h = Some x -> items s !! h' = None ->
  good (mkState (mem s) (<[h' := x]> (delete h (items s)))).
Proof.
  intros [I F] Hh Hn. assert (Hne : h <> h') by congruence. assert (Hd : delete h (items s) !! h' = None) by (by rewrite lookup_delete_ne).
  split; [split; cbn [mem items]|cbn].
  - intros b y Hy. rewrite (holders_new _ _ _ _ Hd), <- (holders_gone _ _ _ b Hh). by apply (i_count _ I).
  - intros k y [[<- <-]|[_ Hk]]%lookup_insert_Some; [by eapply I|]. apply lookup_delete_Some in Hk as [_ Hk]. by eapply I.
  - apply I.
  - intros k y [[<- <-]|[_ Hk]]%lookup_insert_Some; [by eapply F|]. apply lookup_delete_Some in Hk as [_ Hk]. by eapply F.
Qed.

(** The application stores a byte in its array. *)
Lemma good_poke s h a i v :
  good s -> items s !! h = Some (Arr a) -> Z.of_nat i < sgaseg_len (sga_segs a) ->
  exists mm, poke (sgaseg_buf (sga_segs a)) i v (mem s) = Ret (tt, mm) /\ good (mkState mm (items s)).
Proof.
  intros [I F] Hh Hi. destruct (F h _ Hh) as (b & blk & Hb & Hp & Hl). unfold poke. rewrite Hp. unfold Arc.get, Arc.put, mbind, M_bind.
  rewrite Hb, (proj2 (Nat.ltb_lt _ _)) by lia. eexists. split; [done|].
  destruct (inv_bytes s b blk (<[(0 + i)%nat := v]> (bytes blk)) I Hb) as [I' _]; [by rewrite length_insert|]. split; [done|]. cbn.
  intros k x Hk. apply (full_ext (mem s)); [|by eapply F]. intros b' blk' _ Hb'. cbn. destruct (decide (b = b')) as [<-|Hne].
  - rewrite lookup_insert_eq. eexists. split; [done|]. cbn. rewrite length_insert. congruence.
  - rewrite lookup_insert_ne by done. by exists blk'.
Qed.

Module CatnapHost.
Import Catnap.

Section host.
Context {OS SL : Type} `{PosixLaws OS} `{SlabLaws Z SL}.
Variable new_key : gmap Z cn_task -> option Z.
Hypothesis new_key_fresh : forall m k, new_key m = Some k -> m !! k = None.
#[local] Abbreviation lib := (Catnap.t (OS := OS) (SL := SL)).

(** ** Who holds what *)

Definition op_item (o : Operation) : option item :=
  match o with
  | OPush f => Some (Buf (pf_buf (fut f)))
  | OPushto f => Some (Buf (ptf_buf (fut f)))
  | OPop f => match fut_done f with Some (Ok (_, d)) => Some (Buf d) | _ => None end
  | _ => None
  end.

Definition task_item (ts : gmap Z cn_task) (k : Z) : option item := ts !! k ≫= fun t => op_item (cn_op t).

(** The items of the heap: those of the tasks at even keys, those of the program [ext] at odd ones. *)
Record shared (items : gmap Z item) (ts : gmap Z cn_task) (ext : gmap Z item) : Prop := {
  sh_task : forall i, items !! (2 * i) = task_item ts i;
  sh_ext : forall i, items !! (2 * i + 1) = ext !! i
}.

Definition heap_inv (ext : gmap Z item) (s : lib) : Prop :=
  exists items, shared items (tasks s) ext /\ good (mkState (Catnap.mem s) items).

Lemma even_ne_odd i j : 2 * i <> 2 * j + 1.
Proof. lia. Qed.

#[local] Hint Resolve even_ne_odd : core.

(** The program gets or gives up an item. *)
Lemma shared_ext_insert items ts ext h x :
  shared items ts ext -> shared (<[2 * h + 1 := x]> items) ts (<[h := x]> ext).
Proof.
  intros []. split; intros i.
  - by rewrite lookup_insert_ne by (intros E; by destruct (even_ne_odd i h)).
  - destruct (decide (h = i)) as [<-|]; [by rewrite !lookup_insert_eq|]. by rewrite !lookup_insert_ne by lia.
Qed.

Lemma shared_ext_delete items ts ext h :
  shared items ts ext -> shared (delete (2 * h + 1) items) ts (delete h ext).
Proof.
  intros []. split; intros i.
  - by rewrite lookup_delete_ne by (intros E; by destruct (even_ne_odd i h)).
  - destruct (decide (h = i)) as [<-|]; [by rewrite !lookup_delete_eq|]. by rewrite !lookup_delete_ne by lia.
Qed.

(** A task changes. *)
Lemma shared_task_insert items ts ext k t :
  shared items ts ext ->
  shared (match op_item (cn_op t) with Some x => <[2 * k := x]> items | None => delete (2 * k) items end)
    (<[k := t]> ts) ext.
Proof.
  intros []. split; intros i; unfold task_item in *.
  - destruct (decide (k = i)) as [<-|].
    + rewrite lookup_insert_eq. cbn. destruct (op_item (cn_op t)); by rewrite ?lookup_insert_eq, ?lookup_delete_eq.
    + rewrite (lookup_insert_ne ts) by done. destruct (op_item (cn_op t)); rewrite ?lookup_insert_ne, ?lookup_delete_ne by lia; apply sh_task0.
  - destruct (op_item (cn_op t)); rewrite ?lookup_insert_ne, ?lookup_delete_ne by auto; apply sh_ext0.
Qed.

Lemma shared_task_delete items ts ext k : shared items ts ext -> shared (delete (2 * k) items) (delete k ts) ext.
Proof.
  intros []. split; intros i; unfold task_item in *.
  - destruct (decide (k = i)) as [<-|]; [by rewrite !lookup_delete_eq|]. by rewrite !lookup_delete_ne by lia.
  - rewrite lookup_delete_ne by auto. apply sh_ext0.
Qed.

Lemma heap_buffer ext s l h :
  heap_inv ext s -> ext !! h = None -> blen l < 2^32 ->
  exists d mm, HeapBuffer.from_slice l (Catnap.mem s) = Ret (d, mm) /\ HeapBuffer.len d = length l /\
    heap_inv (<[h := Buf d]> ext) (set_mem mm s).
Proof.
  intros (its & Sh & G) Hh Hl. eexists _, _. split; [done|]. split; [done|].
  exists (<[2 * h + 1 := Buf (HeapBuffer.mk (Some (next (Catnap.mem s))) 0 (length l))]> its).
  split; [by apply shared_ext_insert|]. apply (good_new (mkState (Catnap.mem s) its)); [done| |done].
  cbn. by rewrite (sh_ext _ _ _ Sh).
Qed.

Lemma heap_drop ext s h d :
  heap_inv (<[h := Buf d]> ext) s -> ext !! h = None ->
  exists mm, HeapBuffer.drop d (Catnap.mem s) = Ret (tt, mm) /\ heap_inv ext (set_mem mm s).
Proof.
  intros (its & Sh & G) Hh. assert (Hd : its !! (2 * h + 1) = Some (Buf d)) by (by rewrite (sh_ext _ _ _ Sh), lookup_insert_eq).
  destruct (good_drop _ _ d G Hd) as (mm & E & G'). exists mm. split; [done|]. exists (delete (2 * h + 1) its). split; [|done].
  rewrite <- (delete_insert_id ext h (Buf d) Hh). by apply shared_ext_delete.
Qed.

(** A task takes over an item of the call, at a key where it held none. *)
Lemma heap_to_task ext s h x k o b :
  heap_inv (<[h := x]> ext) s -> ext !! h = None -> task_item (tasks s) k = None -> op_item o = Some x ->
  heap_inv ext (set_tasks (<[k := mkCnTask o b]> (tasks s)) s).
Proof.
  intros (its & Sh & G) Hh Hk Ho. assert (Hx : its !! (2 * h + 1) = Some x) by (by rewrite (sh_ext _ _ _ Sh), lookup_insert_eq).
  assert (Hn : its !! (2 * k) = None) by (by rewrite (sh_task _ _ _ Sh)).
  exists (<[2 * k := x]> (delete (2 * h + 1) its)). split; [|by apply (good_move _ _ _ _ G)].
  pose proof (shared_ext_delete _ _ _ h Sh) as Sh'. rewrite delete_insert_id in Sh' by done.
  pose proof (shared_task_insert _ _ _ k (mkCnTask o b) Sh') as Sh2. cbn in Sh2. by rewrite Ho in Sh2.
Qed.

(** A task without an item, or one that keeps its item. *)
Lemma heap_task_same ext s k o b :
  heap_inv ext s -> op_item o = task_item (tasks s) k -> heap_inv ext (set_tasks (<[k := mkCnTask o b]> (tasks s)) s).
Proof.
  intros (its & Sh & G) Ho. exists its. split; [|done].
  pose proof (shared_task_insert _ _ _ k (mkCnTask o b) Sh) as Sh'. cbn in Sh'. rewrite Ho in Sh'.
  pose proof (sh_task _ _ _ Sh k) as Hk. destruct (task_item (tasks s) k) as [x|].
  - by rewrite insert_id in Sh'.
  - by rewrite delete_id in Sh'.
Qed.

(** A task is taken out: its item becomes one of the call. *)
Lemma heap_task_take ext s k h x :
  heap_inv ext s -> task_item (tasks s) k = Some x -> ext !! h = None ->
  heap_inv (<[h := x]> ext) (set_tasks (delete k (tasks s)) s).
Proof.
  intros (its & Sh & G) Hk Hh. assert (Hx : its !! (2 * k) = Some x) by (by rewrite (sh_task _ _ _ Sh)).
  assert (Hn : its !! (2 * h + 1) = None) by (by rewrite (sh_ext _ _ _ Sh)).
  exists (<[2 * h + 1 := x]> (delete (2 * k) its)). split; [|by apply (good_move _ _ _ _ G)].
  apply shared_ext_insert. by apply shared_task_delete.
Qed.

Lemma heap_task_gone ext s k :
  heap_inv ext s -> task_item (tasks s) k = None -> heap_inv ext (set_tasks (delete k (tasks s)) s).
Proof.
  intros (its & Sh & G) Hk. exists its. split; [|done]. pose proof (shared_task_delete _ _ _ k Sh) as Sh'.
  rewrite delete_id in Sh'; [done|]. by rewrite (sh_task _ _ _ Sh).
Qed.

Lemma heap_deref ext s k d :
  heap_inv ext s -> task_item (tasks s) k = Some (Buf d) ->
  exists l, HeapBuffer.deref d (Catnap.mem s) = Ret (l, Catnap.mem s) /\ shows (Catnap.mem s) (Buf d) = Some l.
Proof.
  intros (its & Sh & G) Hk. assert (Hx : its !! (2 * k) = Some (Buf d)) by (by rewrite (sh_task _ _ _ Sh)).
  destruct (deref_shows (Catnap.mem s) d (i_range _ (proj1 G) _ _ Hx)) as (l & E & Hs & _). by exists l.
Qed.

(** The heap is not touched by what changes the rest of the state. *)
Lemma cn_heap_frame ext s s' : Catnap.mem s' = Catnap.mem s -> tasks s' = tasks s -> heap_inv ext s -> heap_inv ext s'.
Proof. intros Em Et (its & Sh & G). exists its. by rewrite Em, Et. Qed.

(** ** Descriptors *)

Definition accept_qd (t : cn_task) : option Z :=
  match cn_op t with OAccept f => Some (af_new_qd (fut f)) | _ => None end.

Definition op_done (o : Operation) : bool :=
  match o with
  | OAccept (mkFuture _ r) => bool_decide (is_Some r)
  | OConnect (mkFuture _ r) => bool_decide (is_Some r)
  | OPush (mkFuture _ r) => bool_decide (is_Some r)
  | OPushto (mkFuture _ r) => bool_decide (is_Some r)
  | OPop (mkFuture _ r) => bool_decide (is_Some r)
  end.

(** Sockets have allocated descriptors; the descriptor booked by an accept is allocated, has no socket
    yet, and is booked once; a task is complete exactly when its operation is done. *)
Record tables (s : lib) : Prop := {
  tb_sock : forall qd fd, sockets s !! qd = Some fd -> is_Some (slab_contents (qtable s) !! qd);
  tb_acc : forall k t q, tasks s !! k = Some t -> accept_qd t = Some q ->
    is_Some (slab_contents (qtable s) !! q) /\ sockets s !! q = None;
  tb_uniq : forall k k' t t' q, tasks s !! k = Some t -> tasks s !! k' = Some t' ->
    accept_qd t = Some q -> accept_qd t' = Some q -> k = k';
  tb_done : forall k t, tasks s !! k = Some t -> cn_completed t = op_done (cn_op t)
}.

Definition lib_inv (ext : gmap Z item) (s : lib) : Prop := tables s /\ heap_inv ext s.

(** ** Total correctness *)

(** The computation returns, in a state and with a result of which [Q] holds; a waiting loop
    ([d]) may also outlast the turns it is given. *)
Definition wp (d : bool) {A} (m : N (OS := OS) (SL := SL) A) (Q : A -> lib -> Prop) (s : lib) : Prop :=
  match m s with
  | Ret (a, s') => Q a s'
  | Panic _ => False
  | Diverge => d = true
  end.

Lemma nwp_bind d {A B} (m : N A) (k : A -> N B) Q s : wp d m (fun a => wp d (k a) Q) s -> wp d (m ≫= k) Q s.
Proof. unfold wp, mbind, N_bind. by destruct (m s) as [[a s']| |]. Qed.

Lemma nwp_mono d {A} (m : N A) (Q R : A -> lib -> Prop) s : wp d m Q s -> (forall a s', Q a s' -> R a s') -> wp d m R s.
Proof. unfold wp. destruct (m s) as [[a s']| |]; auto. Qed.

Lemma wp_weaken {A} d (m : N A) (Q : A -> lib -> Prop) s : wp false m Q s -> wp d m Q s.
Proof. unfold wp. by destruct (m s) as [[a s']| |]. Qed.

Lemma wp_sys d {A} (f : OS -> A * OS) Q s : (forall a o, f (os s) = (a, o) -> Q a (set_os o s)) -> wp d (sys f) Q s.
Proof. intros HQ. unfold wp, sys. destruct (f (os s)) as [a o]. by apply HQ. Qed.

Lemma wp_heap d {A} (m : M A) a mm (Q : A -> lib -> Prop) s : m (Catnap.mem s) = Ret (a, mm) -> Q a (set_mem mm s) -> wp d (on_heap m) Q s.
Proof. intros E HQ. unfold wp, on_heap. by rewrite E. Qed.


Ltac nstep := apply nwp_bind.

Lemma nwp_ret d {A} (a : A) (Q : A -> lib -> Prop) s : Q a s -> wp d (mret a) Q s.
Proof. done. Qed.

Ltac nrets := repeat lazymatch goal with |- wp _ _ _ _ => apply nwp_ret end.

Lemma wp_get d {A} (k : lib -> N A) (Q : A -> lib -> Prop) s : wp d (k s) Q s -> wp d (get ≫= k) Q s.
Proof. done. Qed.

Lemma nwp_modify d f (Q : unit -> lib -> Prop) s : Q tt (f s) -> wp d (modify f) Q s.
Proof. done. Qed.

Lemma tables_frame s s' :
  qtable s' = qtable s -> sockets s' = sockets s -> tasks s' = tasks s -> tables s -> tables s'.
Proof. intros Eq Es Et []. split; rewrite ?Eq, ?Es, ?Et; done. Qed.

Lemma inv_os ext o s : lib_inv ext s -> lib_inv ext (set_os o s).
Proof. intros [T U]. split; [by apply (tables_frame s)|by apply (cn_heap_frame ext s)]. Qed.

Lemma ext_fresh (ext : gmap Z item) : exists h, ext !! h = None.
Proof. exists (fresh (dom ext)). apply not_elem_of_dom, is_fresh. Qed.

(** ** Descriptors and tasks *)

(** A descriptor that nothing uses yet. *)
Definition unused (qd : Z) (s : lib) : Prop :=
  is_Some (slab_contents (qtable s) !! qd) /\ sockets s !! qd = None /\
  forall k t, tasks s !! k = Some t -> accept_qd t <> Some qd.

Lemma wp_alloc d ext ty (Q : Z -> lib -> Prop) s :
  lib_inv ext s -> (forall qd s', lib_inv ext s' -> unused qd s' -> Q qd s') -> wp d (alloc_qd ty) Q s.
Proof.
  intros [T U] HQ. unfold wp, alloc_qd, IoQueueTable.alloc. pose proof (slab_insert_fresh (qtable s) (QType_to_u32 ty)) as Hf.
  pose proof (slab_insert_contents (qtable s) (QType_to_u32 ty)) as Hc.
  destruct (slab_insert (qtable s) (QType_to_u32 ty)) as [qd ft]. cbn [fst snd] in *. destruct T.
  apply HQ; [split|split; [|split]]; cbn.
  - split; cbn; [| |done|done].
    + intros q fd Hq. rewrite Hc. apply lookup_insert_is_Some'. right. by eapply tb_sock0.
    + intros k t q Hk Ht. destruct (tb_acc0 k t q Hk Ht). split; [|done]. rewrite Hc. apply lookup_insert_is_Some'. by right.
  - by apply (cn_heap_frame ext s).
  - rewrite Hc, lookup_insert_eq. by eexists.
  - destruct (sockets s !! qd) as [fd|] eqn:E; [|done]. apply tb_sock0 in E. rewrite Hf in E. by destruct E.
  - intros k t Hk Ht. destruct (tb_acc0 k t qd Hk Ht) as [E _]. rewrite Hf in E. by destruct E.
Qed.

Lemma wp_insert_socket d ext qd fd (Q : unit -> lib -> Prop) s :
  lib_inv ext s -> unused qd s -> (forall s', lib_inv ext s' -> Q tt s') -> wp d (insert_socket qd fd) Q s.
Proof.
  intros [T U] (Hq & Hs & Ha) HQ. unfold insert_socket. apply wp_get. rewrite Hs. apply nwp_modify, HQ.
  split; [|by apply (cn_heap_frame ext s)]. destruct T. split; cbn; [| |done|done].
  - intros q f [[<- <-]|[_ Hq']]%lookup_insert_Some; [done|by eapply tb_sock0].
  - intros k t q Hk Ht. destruct (tb_acc0 k t q Hk Ht). split; [done|]. rewrite lookup_insert_ne; [done|].
    intros ->. by eapply Ha.
Qed.

Lemma wp_free d ext qd (Q : unit -> lib -> Prop) s :
  lib_inv ext s -> unused qd s -> (forall s', lib_inv ext s' -> Q tt s') -> wp d (free_qd qd) Q s.
Proof.
  intros [T U] ([v Hq] & Hs & Ha) HQ. apply nwp_modify, HQ. split; [|by apply (cn_heap_frame ext s)].
  unfold IoQueueTable.free. rewrite slab_get_lookup, Hq. destruct (slab_remove_some _ _ _ Hq) as (ft & -> & Hc).
  destruct T. split; cbn; [| |done|done].
  - intros q f Hq'. rewrite Hc, lookup_delete_ne; [by eapply tb_sock0|]. by intros ->; rewrite Hs in Hq'.
  - intros k t q Hk Ht. destruct (tb_acc0 k t q Hk Ht). split; [|done]. rewrite Hc, lookup_delete_ne; [done|].
    intros ->. by eapply Ha.
Qed.

(** The tables with a new task, or with one that was polled. *)
Lemma tables_task s k t :
  tables s -> cn_completed t = op_done (cn_op t) ->
  (forall q, accept_qd t = Some q -> unused q (set_tasks (delete k (tasks s)) s)) ->
  tables (set_tasks (<[k := t]> (tasks s)) s).
Proof.
  intros [] Hd Hq. split; cbn; [done| | |].
  - intros k' t' q [[<- <-]|[_ Hk]]%lookup_insert_Some Ht; [|by eapply tb_acc0]. destruct (Hq q Ht) as (? & ? & _). done.
  - intros k1 k2 t1 t2 q [[<- <-]|[Hn1 K1]]%lookup_insert_Some [[<- <-]|[Hn2 K2]]%lookup_insert_Some Ht1 Ht2; [done| | |by eapply tb_uniq0].
    + destruct (Hq q Ht1) as (_ & _ & Ha). destruct (Ha k2 t2); [|done]. cbn. by rewrite lookup_delete_ne.
    + destruct (Hq q Ht2) as (_ & _ & Ha). destruct (Ha k1 t1); [|done]. cbn. by rewrite lookup_delete_ne.
  - intros k' t' [[<- <-]|[_ Hk]]%lookup_insert_Some; [done|by eapply tb_done0].
Qed.

(** A task's descriptor, without the task. *)
Lemma unused_without s k t q : tables s -> tasks s !! k = Some t -> accept_qd t = Some q -> unused q (set_tasks (delete k (tasks s)) s).
Proof.
  intros [] Hk Ht. destruct (tb_acc0 k t q Hk Ht) as [? ?]. split; [done|]. split; [done|]. cbn.
  intros k' t' [Hne Hk']%lookup_delete_Some Ht'. by destruct (Hne (tb_uniq0 k k' t t' q Hk Hk' Ht Ht')).
Qed.

(** [schedule] of an operation that holds the item [x] of the call, or none. *)
Lemma wp_schedule d ext x h o (Q : option Z -> lib -> Prop) s :
  lib_inv (match x with Some y => <[h := y]> ext | None => ext end) s -> ext !! h = None -> op_item o = x -> op_done o = false ->
  (forall q, accept_qd (mkCnTask o false) = Some q -> unused q s) ->
  (forall k s', lib_inv ext s' -> Q (Some k) s') ->
  Q None s -> wp d (schedule new_key o) Q s.
Proof.
  intros [T U] Hh Ho Hd Hq HS HN. unfold wp, schedule. destruct (new_key (tasks s)) as [k|] eqn:Ek; [|done].
  apply new_key_fresh in Ek. assert (Hn : task_item (tasks s) k = None) by (unfold task_item; by rewrite Ek).
  apply HS. split.
  - apply tables_task; [done|by cbn; rewrite Hd|]. intros q Hqq. rewrite delete_id by done. by destruct s; apply Hq.
  - destruct x as [y|].
    + by apply (heap_to_task ext s h y k o false).
    + apply heap_task_same; [done|]. by rewrite Hn.
Qed.

(** ** Calls *)

Lemma wp_socket ext domain typ s : lib_inv ext s -> wp false (socket domain typ) (fun _ s' => lib_inv ext s') s.
Proof.
  intros I. unfold socket. destruct (negb _); [done|].
  assert (Hc : forall ty, wp false (r ← sys (px_socket ty);
    match r with
    | IoErr e => failing e "failed to create socket"
    | IoOk fd => _ ← sys (px_setsockopt_reuseport fd); qd ← alloc_qd TcpSocket; _ ← insert_socket qd fd; mret (Ok qd)
    end) (fun (_ : Result Z) s' => lib_inv ext s') s).
  { intros ty. nstep. apply wp_sys. intros [fd|e] o _; [|by apply inv_os].
    nstep. apply wp_sys. intros r' o' _. nstep. eapply wp_alloc; [by do 2 apply inv_os|]. intros qd s1 I1 U1.
    nstep. eapply wp_insert_socket; [done|done|]. done. }
  destruct (typ =? SOCK_STREAM); [apply Hc|]. destruct (typ =? SOCK_DGRAM); [apply Hc|done].
Qed.

Lemma wp_with_fd d {A} qd (k : Z -> N (Result A)) (Q : Result A -> lib -> Prop) s :
  (forall fd, sockets s !! qd = Some fd -> wp d (k fd) Q s) -> (forall e, Q (Err e) s) -> wp d (with_fd qd k) Q s.
Proof. intros HS HN. unfold with_fd. apply wp_get. destruct (sockets s !! qd); [by apply HS|apply HN]. Qed.

(** A call that schedules an operation without a buffer. *)
Lemma wp_issue ext o s :
  lib_inv ext s -> op_item o = None -> op_done o = false -> accept_qd (mkCnTask o false) = None ->
  wp false (k ← schedule new_key o;
            match k with Some k => mret (Ok k) | None => failing EAGAIN "cannot schedule co-routine" end)
    (fun (_ : Result Z) s' => lib_inv ext s') s.
Proof.
  intros I Ho Hd Ha. destruct (ext_fresh ext) as [h Hh]. nstep.
  apply (wp_schedule false ext None h); try done. by rewrite Ha.
Qed.

Lemma wp_accept ext qd s : lib_inv ext s -> wp false (accept new_key qd) (fun _ s' => lib_inv ext s') s.
Proof.
  intros I. apply wp_with_fd; [|done]. intros fd _. destruct (ext_fresh ext) as [h Hh]. nstep.
  eapply wp_alloc; [done|]. intros q s1 I1 U1. nstep.
  apply (wp_schedule false ext None h); try done.
  - by intros q' [= <-].
  - nstep. by eapply wp_free.
Qed.

Lemma nwp_close ext qd s : lib_inv ext s -> wp false (close qd) (fun _ s' => lib_inv ext s') s.
Proof.
  intros I. apply wp_with_fd; [|done]. intros fd _. nstep. apply wp_sys. intros [[]|e] o _; by apply inv_os.
Qed.

(** A buffer of the call goes to a task or is dropped. *)
Lemma wp_issue_push ext h buf qd f s :
  lib_inv (<[h := Buf buf]> ext) s -> ext !! h = None ->
  (forall fd, op_item (f fd) = Some (Buf buf) /\ op_done (f fd) = false /\ accept_qd (mkCnTask (f fd) false) = None) ->
  wp false (issue_push new_key qd buf f) (fun _ s' => lib_inv ext s') s.
Proof.
  intros I Hh Hf. assert (Hdrop : forall e, wp false (_ ← on_heap (HeapBuffer.drop buf); mret (Err e)) (fun (_ : Result Z) s' => lib_inv ext s') s).
  { intros e. destruct I as [T U]. destruct (heap_drop ext s h buf U Hh) as (mm & E & U'). nstep.
    eapply wp_heap; [exact E|]. apply nwp_ret. split; [by apply (tables_frame s)|done]. }
  unfold issue_push. apply wp_get. destruct (sockets s !! qd) as [fd|]; [|apply Hdrop]. destruct (Hf fd) as (F1 & F2 & F3). nstep.
  apply (wp_schedule false ext (Some (Buf buf)) h); try done; [by rewrite F3|]. apply Hdrop.
Qed.

Lemma wp_check_length ext h buf k s :
  lib_inv (<[h := Buf buf]> ext) s -> ext !! h = None -> wp false k (fun _ s' => lib_inv ext s') s ->
  wp false (check_length buf k) (fun _ s' => lib_inv ext s') s.
Proof.
  intros [T U] Hh Hk. unfold check_length. destruct (Nat.eqb _ _); [|done]. destruct (heap_drop ext s h buf U Hh) as (mm & E & U').
  nstep. eapply wp_heap; [exact E|]. apply nwp_ret. split; [by apply (tables_frame s)|done].
Qed.

Lemma wp_do_push ext h buf qd s :
  lib_inv (<[h := Buf buf]> ext) s -> ext !! h = None -> wp false (check_length buf (do_push new_key qd buf)) (fun _ s' => lib_inv ext s') s.
Proof. intros I Hh. eapply wp_check_length; [done|done|]. by eapply wp_issue_push. Qed.

Lemma wp_do_pushto ext h buf qd addr s :
  lib_inv (<[h := Buf buf]> ext) s -> ext !! h = None -> wp false (check_length buf (do_pushto new_key qd buf addr)) (fun _ s' => lib_inv ext s') s.
Proof. intros I Hh. eapply wp_check_length; [done|done|]. by eapply wp_issue_push. Qed.

Lemma wp_slice ext l (k : HeapBuffer.t -> N (Result Z)) s :
  lib_inv ext s -> blen l < 2^32 ->
  (forall h buf s', lib_inv (<[h := Buf buf]> ext) s' -> ext !! h = None -> wp false (k buf) (fun _ s' => lib_inv ext s') s') ->
  wp false (buf ← on_heap (HeapBuffer.from_slice l); k buf) (fun _ s' => lib_inv ext s') s.
Proof.
  intros [T U] Hl Hk. destruct (ext_fresh ext) as [h Hh]. destruct (heap_buffer ext s l h U Hh Hl) as (d & mm & E & _ & U').
  nstep. eapply wp_heap; [exact E|]. apply (Hk h); [|done]. split; [by apply (tables_frame s)|done].
Qed.

(** The array is copied. *)
Lemma wp_with_clone ext a g k s :
  lib_inv ext s -> ext !! a = Some (Arr g) ->
  (forall h buf s', lib_inv (<[h := Buf buf]> ext) s' -> ext !! h = None -> wp false (check_length buf (k buf)) (fun _ s' => lib_inv ext s') s') ->
  wp false (with_clone g k) (fun _ s' => lib_inv ext s') s.
Proof.
  intros [T U] Ha Hk. destruct (ext_fresh ext) as [h Hh]. pose proof U as (its & Sh & G).
  assert (Hx : its !! (2 * a + 1) = Some (Arr g)) by (by rewrite (sh_ext _ _ _ Sh)). pose proof (i_range _ (proj1 G) _ _ Hx) as Hr.
  destruct (range_shows _ _ Hr) as [l Hs]. destruct (array_read _ _ _ Hr Hs) as [Hread Hl]. pose proof Hr as (_ & Hn & _).
  destruct (heap_buffer ext s l h U Hh Hl) as (d & mm & E & _ & U'). unfold with_clone. nstep.
  eapply (wp_heap false _ (Ok d)).
  - unfold PosixRuntime.clone_sgarray, LinuxMemory.clone_sgarray. rewrite Hn. cbn [Z.eqb Pos.eqb negb]. unfold mbind, M_bind. cbn [SgaHost.mem] in Hread. rewrite Hread, E. done.
  - apply (Hk h); [|done]. split; [by apply (tables_frame s)|done].
Qed.


(** ** Polls *)

(** What a poll of an operation leaves: the operation keeps its item, or a pop received one. *)
Definition polled (ext : gmap Z item) (ts : gmap Z cn_task) (o : Operation) (r : Operation * bool) (s : lib) : Prop :=
  let '(o', b) := r in
  op_done o' = b /\ accept_qd (mkCnTask o' b) = accept_qd (mkCnTask o false) /\ tasks s = ts /\
  ((op_item o' = op_item o /\ lib_inv ext s) \/
   (exists h d, ext !! h = None /\ op_item o = None /\ op_item o' = Some (Buf d) /\ lib_inv (<[h := Buf d]> ext) s)).

(** A system call whose success needs no more work. *)
Lemma wp_settle {A R} again (r : io A) (k : A -> N R) (Q : option (Result R) -> lib -> Prop) s :
  (forall a, r = IoOk a -> wp false (k a) (fun x => Q (Some (Ok x))) s) -> (forall e, Q (Some (Err e)) s) -> Q None s ->
  wp false (settle again r k) Q s.
Proof.
  intros HO HE HN. destruct r as [a|e]; unfold settle.
  - nstep. eapply nwp_mono; [by apply HO|]. done.
  - apply nwp_ret. destruct (again e); [done|apply HE].
Qed.

Lemma wp_options ext fd s :
  lib_inv ext s ->
  wp false (_ ← set_tcp_nodelay fd; _ ← set_nonblock fd; _ ← set_so_reuseport fd; mret fd)
    (fun _ s' => lib_inv ext s' /\ tasks s' = tasks s) s.
Proof.
  intros I. nstep. apply wp_sys. intros _ o1 _. nstep.
  assert (Hn : wp false (set_nonblock fd) (fun _ s' => lib_inv ext s' /\ tasks s' = tasks s) (set_os o1 s)).
  { unfold set_nonblock. nstep. apply wp_sys. intros fl o2 _. destruct (fl =? -1).
    - apply nwp_ret. split; [by do 2 apply inv_os|done].
    - apply wp_sys. intros r o3 _. split; [by do 3 apply inv_os|done]. }
  eapply nwp_mono; [exact Hn|]. intros _ s2 [I2 T2]. nstep. apply wp_sys. intros _ o3 _. apply nwp_ret.
  split; [by apply inv_os|done].
Qed.

Lemma wp_poll_operation ext k o s :
  lib_inv ext s -> tasks s !! k = Some (mkCnTask o false) ->
  wp false (poll_operation o) (polled ext (tasks s) o) s.
Proof.
  intros I Hk. pose proof (tb_done _ (proj1 I) k _ Hk) as Hd. cbn in Hd.
  assert (Hi : task_item (tasks s) k = op_item o) by (unfold task_item; by rewrite Hk).
  destruct o as [[f [r|]]|[f [r|]]|[f [r|]]|[f [r|]]|[f [r|]]]; try done; unfold poll_operation, poll_future; cbn [fut_done fut].
  - nstep. nstep. nstep. apply wp_sys. intros r o _. apply wp_settle.
    + intros fd ->. eapply nwp_mono; [by apply wp_options, inv_os|]. intros fd' s' [I' T']. nrets.
      split; [done|]. split; [done|]. split; [done|]. by left.
    + intros e. nrets. split; [done|]. split; [done|]. split; [done|]. left. split; [done|by apply inv_os].
    + nrets. split; [done|]. split; [done|]. split; [done|]. left. split; [done|by apply inv_os].
  - nstep. nstep. nstep. apply wp_sys. intros r o _. apply wp_settle; [intros [] _|intros e|]; nrets;
      (split; [done|]; split; [done|]; split; [done|]; left; split; [done|by apply inv_os]).
  - cbn in Hi. destruct (heap_deref ext s k (pf_buf f) (proj2 I) Hi) as (l & El & _). nstep. nstep. nstep.
    eapply wp_heap; [exact El|]. assert (I1 : lib_inv ext (set_mem (Catnap.mem s) s)) by (by destruct s).
    nstep. apply wp_sys. intros r o _. apply wp_settle; [intros n _|intros e|]; nrets;
      (split; [done|]; split; [done|]; split; [done|]; left; split; [done|by apply inv_os]).
  - cbn in Hi. destruct (heap_deref ext s k (ptf_buf f) (proj2 I) Hi) as (l & El & _). nstep. nstep. nstep.
    eapply wp_heap; [exact El|]. assert (I1 : lib_inv ext (set_mem (Catnap.mem s) s)) by (by destruct s).
    nstep. apply wp_sys. intros r o _. apply wp_settle; [intros n _|intros e|]; nrets;
      (split; [done|]; split; [done|]; split; [done|]; left; split; [done|by apply inv_os]).
  - nstep. nstep. nstep. apply wp_sys. intros r o Hr. pose proof (inv_os ext o s I) as I1. apply wp_settle.
    + intros [l addr] ->. apply px_recvfrom_size in Hr. assert (Hl : blen l < 2^32) by (apply inj_le in Hr; change (Z.of_nat POP_SIZE) with 9216 in Hr; unfold blen; lia).
      destruct (ext_fresh ext) as [h Hh]. destruct (heap_buffer ext _ l h (proj2 I1) Hh Hl) as (d & mm & E & _ & U').
      nstep. eapply wp_heap; [exact E|]. nrets. split; [done|]. split; [done|]. split; [done|]. right. exists h, d.
      split; [done|]. split; [done|]. split; [done|]. split; [|done]. by apply (tables_frame s); [| | |apply I].
    + intros e. nrets. split; [done|]. split; [done|]. split; [done|]. by left.
    + nrets. split; [done|]. split; [done|]. split; [done|]. by left.
Qed.

Lemma wp_poll_task ext k s : lib_inv ext s -> wp false (poll_task k) (fun _ s' => lib_inv ext s') s.
Proof.
  intros I. unfold poll_task. apply wp_get. destruct (tasks s !! k) as [[o []]|] eqn:Hk; try done. nstep.
  eapply nwp_mono; [by apply (wp_poll_operation ext k)|]. intros [o' b] s' (Hd & Ha & Ht & Hi). apply nwp_modify.
  assert (Hk' : tasks s' !! k = Some (mkCnTask o false)) by (by rewrite Ht).
  assert (HT : tables s' -> tables (set_tasks (<[k := mkCnTask o' b]> (tasks s')) s')).
  { intros T'. apply tables_task; [done|by cbn|]. intros q Hq. eapply unused_without; [done|exact Hk'|]. congruence. }
  assert (Hit : task_item (tasks s') k = op_item o) by (unfold task_item; by rewrite Hk').
  destruct Hi as [[Ho [T' U']]|(h & d & Hh & Ho & Ho' & [T' U'])].
  - split; [by apply HT|]. apply heap_task_same; [done|]. congruence.
  - split; [by apply HT|]. eapply heap_to_task; [exact U'|done|congruence|done].
Qed.

Lemma wp_scheduler_poll ext l s : lib_inv ext s -> wp false (scheduler_poll l) (fun _ s' => lib_inv ext s') s.
Proof.
  revert s. induction l as [|k l IH]; intros s I; [done|]. nstep. eapply nwp_mono; [by apply wp_poll_task|]. intros [] s' I'. by apply IH.
Qed.

(** ** Results *)

(** The buffer of a popped result goes to the caller. *)
Definition given (ext : gmap Z item) (r : CnResult) (s : lib) : Prop :=
  match r with
  | CnPop _ d => forall h, ext !! h = None -> lib_inv (<[h := Buf d]> ext) s
  | _ => lib_inv ext s
  end.

Lemma tables_delete s k : tables s -> tables (set_tasks (delete k (tasks s)) s).
Proof.
  intros []. split; cbn; [done| | |].
  - intros k' t q [_ Hk]%lookup_delete_Some. by apply (tb_acc0 k').
  - intros k1 k2 t1 t2 q [_ K1]%lookup_delete_Some [_ K2]%lookup_delete_Some. by apply (tb_uniq0 k1 k2 t1 t2).
  - intros k' t [_ Hk]%lookup_delete_Some. by apply (tb_done0 k').
Qed.

Lemma wp_take_result ext k o s :
  lib_inv ext s -> tasks s !! k = Some (mkCnTask o true) -> wp false (take_result k o) (fun x s' => given ext x.2 s') s.
Proof.
  intros [T U] Hk. pose proof (tb_done _ T k _ Hk) as Hd. cbn in Hd. pose proof (tables_delete s k T) as T'.
  assert (Hi : task_item (tasks s) k = op_item o) by (unfold task_item; by rewrite Hk).
  unfold take_result. nstep. apply nwp_modify. set (s1 := set_tasks (delete k (tasks s)) s) in *.
  assert (Hnone : op_item o = None -> lib_inv ext s1) by (intros E; split; [done|]; apply heap_task_gone; congruence).
  assert (Hdrop : forall d (Q : unit -> lib -> Prop), op_item o = Some (Buf d) -> (forall s', lib_inv ext s' -> Q tt s') -> wp false (on_heap (HeapBuffer.drop d)) Q s1).
  { intros d Q E HQ. destruct (ext_fresh ext) as [h Hh]. rewrite E in Hi. pose proof (heap_task_take ext s k h _ U Hi Hh) as U1.
    destruct (heap_drop ext s1 h d U1 Hh) as (mm & Ed & U2). eapply wp_heap; [exact Ed|]. apply HQ. split; [by apply (tables_frame s1)|done]. }
  destruct o as [[f [r|]]|[f [r|]]|[f [r|]]|[f [r|]]|[f [r|]]]; try discriminate Hd; cbn [get_result].
  - assert (Hu : unused (af_new_qd f) s1) by (by apply (unused_without s k (mkCnTask (OAccept (mkFuture f (Some r))) true))).
    destruct r as [fd|e]; nstep; (cbv [wp lift]); nstep; apply nwp_ret; nstep.
    + eapply wp_insert_socket; [by apply Hnone|done|]. done.
    + eapply wp_free; [by apply Hnone|done|]. done.
  - nstep. cbv [wp lift]. nstep. apply nwp_ret. nstep. nrets. destruct r; by apply Hnone.
  - nstep. cbv [wp lift]. nstep. apply Hdrop; [done|]. intros s' I'. nstep. nrets. by destruct r.
  - nstep. cbv [wp lift]. nstep. apply Hdrop; [done|]. intros s' I'. nstep. nrets. by destruct r.
  - nstep. cbv [wp lift]. nstep. apply nwp_ret. nstep. nrets. destruct r as [[addr d]|e]; [|by apply Hnone].
    intros h Hh. split; [done|]. by apply heap_task_take.
Qed.

(** The outcome of a wait for one token. *)
Definition given_result (ext : gmap Z item) (r : Result (Z * CnResult)) (s : lib) : Prop :=
  match r with Ok x => given ext x.2 s | Err _ => lib_inv ext s end.

Lemma wp_wait2_loop ext qt ws s : lib_inv ext s -> wp true (wait2_loop qt ws) (fun x s' => given ext x.2 s') s.
Proof.
  revert s. induction ws as [|w ws IH]; intros s I; [done|]. nstep.
  eapply wp_weaken, nwp_mono; [by apply wp_scheduler_poll|]. intros [] s1 I1. apply wp_get.
  destruct (tasks s1 !! qt) as [[o []]|] eqn:Hk; [|by apply IH|by apply IH]. by apply wp_weaken, wp_take_result.
Qed.

Lemma wp_wait2 ext qt ws s : lib_inv ext s -> wp true (wait2 qt ws) (given_result ext) s.
Proof.
  intros I. unfold wait2. apply wp_get. destruct (tasks s !! qt); [|done]. nstep.
  eapply nwp_mono; [by apply wp_wait2_loop|]. done.
Qed.

Lemma wp_timedwait_loop ext qt ws s : lib_inv ext s -> wp true (timedwait_loop qt ws) (given_result ext) s.
Proof.
  revert s. induction ws as [|w ws IH]; intros s I; [done|]. nstep.
  eapply wp_weaken, nwp_mono; [by apply wp_scheduler_poll|]. intros [] s1 I1. apply wp_get.
  assert (Hw : wp true (if cn_expired w then failing ETIMEDOUT "timer expired" else timedwait_loop qt ws) (given_result ext) s1)
    by (destruct (cn_expired w); [done|by apply IH]).
  destruct (tasks s1 !! qt) as [[o []]|] eqn:Hk; [|done|done]. nstep. eapply wp_weaken, nwp_mono; [by apply (wp_take_result ext)|]. done.
Qed.

(** Several results: their buffers go to the handles from [h] on. *)
Fixpoint hand (ext : gmap Z item) (h : Z) (l : list CnResult) : gmap Z item :=
  match l with
  | [] => ext
  | CnPop _ d :: l => hand (<[h := Buf d]> ext) (h + 1) l
  | _ :: l => hand ext (h + 1) l
  end.

Definition free_from (h : Z) (ext : gmap Z item) : Prop := map_Forall (fun i _ => i < h) ext.

Lemma free_from_fresh h ext : free_from h ext -> ext !! h = None.
Proof. intros F. destruct (ext !! h) as [x|] eqn:E; [|done]. apply F in E. lia. Qed.

Lemma free_from_insert h ext x : free_from h ext -> free_from (h + 1) (<[h := x]> ext).
Proof. intros F i y [[<- _]|[_ Hi]]%lookup_insert_Some; [lia|]. apply F in Hi. lia. Qed.

Lemma free_from_next h ext : free_from h ext -> free_from (h + 1) ext.
Proof. intros F i y Hi. apply F in Hi. lia. Qed.

Lemma hand_last ext h l r s :
  free_from h ext -> given (hand ext h l) r s -> lib_inv (hand ext h (l ++ [r])) s.
Proof.
  revert ext h. induction l as [|x l IH]; intros ext h F G; cbn in *.
  - destruct r; try done. apply G. by apply free_from_fresh.
  - destruct x; apply IH; auto using free_from_insert, free_from_next.
Qed.

Definition results (l : list (nat * (Z * CnResult))) : list CnResult := (fun x => x.2.2) <$> l.

Lemma wp_scan ext h n m qts i acc s :
  (n <= m)%nat -> free_from h ext -> lib_inv (hand ext h (results acc)) s -> (length acc <= n)%nat ->
  wp false (scan n m qts i acc) (fun r s' => lib_inv (hand ext h (results r.1)) s') s.
Proof.
  intros Hnm F. revert i acc s. induction qts as [|qt qts IH]; intros i acc s I Hn; [done|]. cbn.
  destruct (Nat.eqb_spec (length acc) n) as [|Hlt]; [done|]. apply wp_get.
  destruct (tasks s !! qt) as [[o []]|] eqn:Hk; [|by apply IH|done]. nstep.
  eapply nwp_mono; [by apply (wp_take_result (hand ext h (results acc)))|]. intros r s' G.
  rewrite (proj2 (Nat.leb_gt _ _)) by lia. apply IH; [|rewrite length_app; cbn; lia].
  unfold results. rewrite fmap_app. by apply hand_last.
Qed.

Lemma wp_wait_any2 ext h n m qts ws s :
  (n <= m)%nat -> free_from h ext -> lib_inv ext s ->
  wp true (wait_any2 n m qts ws) (fun r s' => lib_inv (hand ext h (results r.1)) s') s.
Proof.
  intros Hnm F. revert s. induction ws as [|w ws IH]; intros s I; [done|]. nstep.
  eapply wp_weaken, nwp_mono; [by apply wp_scheduler_poll|]. intros [] s1 I1. nstep.
  eapply wp_weaken, nwp_mono; [apply (wp_scan ext h); [done|done|exact I1|cbn; lia]|]. intros [[|x l] [e|]] s2 I2; [done|by apply IH|done|done].
Qed.

(** A packed result: its array goes to the caller. *)
Definition given_qr (ext : gmap Z item) (q : demi_qresult_t) (s : lib) : Prop :=
  match qr_value q with
  | QrSga sga => forall h, ext !! h = None -> lib_inv (<[h := Arr sga]> ext) s
  | _ => lib_inv ext s
  end.

Lemma wp_pack_result ext r qd qt s : given ext r s -> wp false (pack_result r qd qt) (given_qr ext) s.
Proof.
  intros G. destruct r as [|q| |addr d|e]; try done. destruct (ext_fresh ext) as [h0 Hf].
  set (a := match addr with Some x => sockaddr_in AF_INET (port x) (be32 (ip x)) | None => zeroed_addr end).
  assert (Hd : forall h, ext !! h = None -> exists sga, LinuxMemory.into_sgarray d (Catnap.mem s) = Ret (Ok sga, Catnap.mem s) /\
    lib_inv (<[h := Arr (set_sga_addr a sga)]> ext) s /\ lib_inv (<[h := Arr sga]> ext) s).
  { intros h Hh. destruct (G h Hh) as [T (its & Sh & Gd)].
    assert (Hx : its !! (2 * h + 1) = Some (Buf d)) by (by rewrite (sh_ext _ _ _ Sh), lookup_insert_eq).
    destruct (good_into _ _ _ a Gd Hx) as (sga & E & G1 & G2). exists sga. split; [done|].
    assert (Hi : forall x, shared (<[2 * h + 1 := x]> its) (tasks s) (<[h := x]> ext))
      by (intros x; rewrite <- (insert_insert_eq ext h x (Buf d)); by apply shared_ext_insert).
    split; (split; [done|]); [by exists (<[2 * h + 1 := Arr (set_sga_addr a sga)]> its)|by exists (<[2 * h + 1 := Arr sga]> its)]. }
  destruct (Hd h0 Hf) as (sga & E & _). unfold pack_result. nstep. eapply wp_heap; [exact E|].
  replace (set_mem (Catnap.mem s) s) with s by (by destruct s).
  assert (Hsga : forall h, ext !! h = None -> lib_inv (<[h := Arr (set_sga_addr a sga)]> ext) s /\ lib_inv (<[h := Arr sga]> ext) s).
  { intros h Hh. destruct (Hd h Hh) as (sga' & E' & R). congruence. }
  apply nwp_ret. unfold given_qr. cbn [qr_value]. destruct addr; intros h Hh; by apply Hsga.
Qed.

(** The outcome of a wait for one token, packed. *)
Definition given_packed (ext : gmap Z item) (r : Result demi_qresult_t) (s : lib) : Prop :=
  match r with Ok q => given_qr ext q s | Err _ => lib_inv ext s end.

Lemma wp_packed ext qt (r : Result (Z * CnResult)) s :
  given_result ext r s ->
  wp true (match r with
           | Err e => mret (Err e)
           | Ok (qd, result) => q ← pack_result result qd qt; mret (Ok q)
           end) (given_packed ext) s.
Proof.
  intros G. destruct r as [[qd q]|e]; [|done]. nstep. eapply wp_weaken, nwp_mono; [by apply wp_pack_result|]. done.
Qed.

Lemma wp_wait ext qt ws s : lib_inv ext s -> wp true (wait qt ws) (given_packed ext) s.
Proof. intros I. nstep. eapply nwp_mono; [by apply wp_wait2|]. intros r s' G. by apply wp_packed. Qed.

Lemma wp_timedwait ext qt ws s : lib_inv ext s -> wp true (timedwait qt ws) (given_packed ext) s.
Proof.
  intros I. unfold timedwait. apply wp_get. destruct (tasks s !! qt); [|done]. nstep.
  eapply nwp_mono; [by apply wp_timedwait_loop|]. intros r s' G. by apply wp_packed.
Qed.

(** ** Memory *)

Lemma heap_with ext s h x :
  heap_inv ext s -> ext !! h = Some x ->
  exists its, shared its (tasks s) ext /\ good (mkState (Catnap.mem s) its) /\ its !! (2 * h + 1) = Some x.
Proof. intros (its & Sh & G) Hh. exists its. split; [done|]. split; [done|]. by rewrite (sh_ext _ _ _ Sh). Qed.

Lemma inv_mem ext s mm : tables s -> heap_inv ext (set_mem mm s) -> lib_inv ext (set_mem mm s).
Proof. intros T U. split; [by apply (tables_frame s)|done]. Qed.

Lemma wp_sgaalloc ext n s :
  lib_inv ext s -> Z.of_nat n < 2^32 ->
  wp false (sgaalloc n) (fun r s' =>
    match r with Ok g => forall h, ext !! h = None -> lib_inv (<[h := Arr g]> ext) s' | Err _ => lib_inv ext s' end) s.
Proof.
  intros [T (its & Sh & G)] Hn. unfold sgaalloc, PosixRuntime.alloc_sgarray, LinuxMemory.alloc_sgarray, HeapBuffer.new.
  destruct (Nat.eqb_spec n 0) as [->|Hz].
  - eapply (wp_heap false _ (Err _)); [reflexivity|]. apply inv_mem; [done|]. by exists its.
  - eapply (wp_heap false _ (Ok _)); [reflexivity|]. intros h Hh. apply inv_mem; [done|].
    pose proof (good_new_array _ (2 * h + 1) (replicate n 0) G) as G'. cbn [SgaHost.items SgaHost.mem] in G'. rewrite length_replicate in G'.
    eexists. split; [by apply shared_ext_insert|]. apply G'; [by rewrite (sh_ext _ _ _ Sh)|by rewrite replicate_blen|by destruct n].
Qed.

Lemma wp_sgafree ext h g s :
  lib_inv ext s -> ext !! h = Some (Arr g) ->
  wp false (sgafree g) (fun r s' => match r with Ok _ => lib_inv (delete h ext) s' | Err _ => lib_inv ext s' end) s.
Proof.
  intros [T U] Hh. destruct (heap_with _ _ _ _ U Hh) as (its & Sh & G & Hx). destruct (good_free _ _ _ G Hx) as (r & mm & E & Hr).
  eapply wp_heap; [exact E|]. destruct r as [u|e].
  - apply inv_mem; [done|]. exists (delete (2 * h + 1) its). split; [by apply shared_ext_delete|done].
  - cbn in Hr. subst mm. apply inv_mem; [done|]. by exists its.
Qed.

Lemma wp_drop_buffer ext h d s :
  lib_inv ext s -> ext !! h = Some (Buf d) -> wp false (on_heap (HeapBuffer.drop d)) (fun _ s' => lib_inv (delete h ext) s') s.
Proof.
  intros [T U] Hh. rewrite <- (insert_delete_id _ _ _ Hh) in U.
  destruct (heap_drop (delete h ext) s h d U (lookup_delete_eq _ _)) as (mm & E & U'). eapply wp_heap; [exact E|]. by apply inv_mem.
Qed.

Lemma wp_poke ext h g i v s :
  lib_inv ext s -> ext !! h = Some (Arr g) -> Z.of_nat i < sgaseg_len (sga_segs g) ->
  wp false (on_heap (poke (sgaseg_buf (sga_segs g)) i v)) (fun _ s' => lib_inv ext s') s.
Proof.
  intros [T U] Hh Hi. destruct (heap_with _ _ _ _ U Hh) as (its & Sh & G & Hx). destruct (good_poke _ _ _ i v G Hx Hi) as (mm & E & G').
  eapply wp_heap; [exact E|]. apply inv_mem; [done|]. by exists its.
Qed.

(** ** The program *)

Record host := mkHost { library : lib; app : gmap Z item }.

Inductive event :=
| ESocket (domain typ : Z)
| EBind (qd : Z) (local : SocketAddrV4)
| EListen (qd : Z) (backlog : nat)
| EAccept (qd : Z)
| EConnect (qd : Z) (remote : SocketAddrV4)
| EClose (qd : Z)
| EPush (qd a : Z)
| EPushto (qd a : Z) (remote : SocketAddrV4)
| EPush2 (qd : Z) (data : list Z)
| EPushto2 (qd : Z) (data : list Z) (remote : SocketAddrV4)
| EPop (qd : Z)
| EWait (qt : Z) (ws : list cn_turn) (h : Z)
| ETimedwait (qt : Z) (ws : list cn_turn) (h : Z)
| EWait2 (qt : Z) (ws : list cn_turn) (h : Z)
| EWaitAny2 (n m : nat) (qts : list Z) (ws : list cn_turn) (h : Z)
| EAlloc (size : nat) (h : Z)
| EFree (a : Z)
| EDrop (h : Z)
| EPoke (a : Z) (i : nat) (v : Z).

(** A call, and what the program holds after it. *)
Definition call {A} (m : N A) (k : A -> gmap Z item) (st : host) : outcome host :=
  match m (library st) with
  | Ret (a, s) => Ret (mkHost s (k a))
  | Panic msg => Panic msg
  | Diverge => Diverge
  end.

Definition keep (st : host) {A} (_ : A) : gmap Z item := app st.

Definition take_qr (h : Z) (st : host) (r : Result demi_qresult_t) : gmap Z item :=
  match r with Ok (mkQr _ _ _ (QrSga sga)) => <[h := Arr sga]> (app st) | _ => app st end.

Definition with_array (a : Z) (st : host) (k : demi_sgarray_t -> outcome host) : outcome host :=
  match app st !! a with Some (Arr g) => k g | _ => Ret st end.

Definition when_free (h : Z) (st : host) (k : outcome host) : outcome host :=
  match app st !! h with None => k | Some _ => Ret st end.

(** An event that names a handle the program does not hold, or one in use for what it is to get,
    does nothing. *)
Definition run (e : event) (st : host) : outcome host :=
  match e with
  | ESocket domain typ => call (socket domain typ) (keep st) st
  | EBind qd local => call (bind qd local) (keep st) st
  | EListen qd backlog => call (listen qd backlog) (keep st) st
  | EAccept qd => call (accept new_key qd) (keep st) st
  | EConnect qd remote => call (connect new_key qd remote) (keep st) st
  | EClose qd => call (close qd) (keep st) st
  | EPush qd a => with_array a st (fun g => call (push new_key qd g) (keep st) st)
  | EPushto qd a remote => with_array a st (fun g => call (pushto new_key qd g remote) (keep st) st)
  | EPush2 qd data => call (push2 new_key qd data) (keep st) st
  | EPushto2 qd data remote => call (pushto2 new_key qd data remote) (keep st) st
  | EPop qd => call (pop new_key qd) (keep st) st
  | EWait qt ws h => when_free h st (call (wait qt ws) (take_qr h st) st)
  | ETimedwait qt ws h => when_free h st (call (timedwait qt ws) (take_qr h st) st)
  | EWait2 qt ws h =>
      when_free h st (call (wait2 qt ws) (fun r => match r with Ok (_, CnPop _ d) => <[h := Buf d]> (app st) | _ => app st end) st)
  | EWaitAny2 n m qts ws h =>
      if bool_decide (map_Forall (fun i _ => i < h) (app st))
      then call (wait_any2 n m qts ws) (fun r => hand (app st) h (results r.1)) st else Ret st
  | EAlloc size h =>
      when_free h st (call (sgaalloc size) (fun r => match r with Ok g => <[h := Arr g]> (app st) | Err _ => app st end) st)
  | EFree a => with_array a st (fun g => call (sgafree g) (fun r => match r with Ok _ => delete a (app st) | Err _ => app st end) st)
  | EDrop h => match app st !! h with Some (Buf d) => call (on_heap (HeapBuffer.drop d)) (fun _ => delete h (app st)) st | _ => Ret st end
  | EPoke a i v =>
      with_array a st (fun g => if Z.of_nat i <? sgaseg_len (sga_segs g) then call (on_heap (poke (sgaseg_buf (sga_segs g)) i v)) (keep st) st else Ret st)
  end.

(** Sizes are 32-bit, and [wait_any2] gets room for as many indices as results. *)
Definition sizes_ok (e : event) : Prop :=
  match e with
  | EPush2 _ data => blen data < 2^32
  | EPushto2 _ data _ => blen data < 2^32
  | EWaitAny2 n m _ _ _ => (n <= m)%nat
  | EAlloc size _ => Z.of_nat size < 2^32
  | _ => True
  end.

Definition waits (e : event) : bool :=
  match e with EWait _ _ _ => true | ETimedwait _ _ _ => true | EWait2 _ _ _ => true | EWaitAny2 _ _ _ _ _ => true | _ => false end.

(** The system refuses to bind or to listen. *)
Definition refused (e : event) (st : host) : Prop :=
  exists qd fd errno o, sockets (library st) !! qd = Some fd /\
    ((exists local, e = EBind qd local /\ px_bind fd local (os (library st)) = (IoErr errno, o)) \/
     (exists backlog, e = EListen qd backlog /\ px_listen fd backlog (os (library st)) = (IoErr errno, o))).

Definition host_inv (st : host) : Prop := lib_inv (app st) (library st).

Inductive reachable : host -> Prop :=
| reach_new o : reachable (mkHost (new (mkHeap ∅ 0) o) ∅)
| reach_step st e st' : reachable st -> sizes_ok e -> run e st = Ret st' -> reachable st'.

Definition handled (e : event) (st : host) : Prop :=
  match run e st with
  | Ret st' => host_inv st'
  | Panic _ => refused e st
  | Diverge => waits e = true
  end.

Lemma call_ok {A} d (m : N A) k (R : Prop) st :
  wp d m (fun a s' => lib_inv (k a) s') (library st) ->
  match call m k st with Ret st' => host_inv st' | Panic _ => R | Diverge => d = true end.
Proof. unfold wp, call. by destruct (m (library st)) as [[a s']| |]. Qed.

Lemma keep_ok {A} d (m : N A) (R : Prop) st :
  wp d m (fun _ s' => lib_inv (app st) s') (library st) ->
  match call m (keep st) st with Ret st' => host_inv st' | Panic _ => R | Diverge => d = true end.
Proof. apply call_ok. Qed.

Lemma array_ok a st (k : demi_sgarray_t -> outcome host) (R : Prop) d :
  host_inv st ->
  (forall g, app st !! a = Some (Arr g) -> match k g with Ret st' => host_inv st' | Panic _ => R | Diverge => d = true end) ->
  match with_array a st k with Ret st' => host_inv st' | Panic _ => R | Diverge => d = true end.
Proof. intros I Hk. unfold with_array. destruct (app st !! a) as [[b|g]|]; [done|by apply Hk|done]. Qed.

Lemma handle_free_ok h st (k : outcome host) (R : Prop) d :
  host_inv st ->
  (app st !! h = None -> match k with Ret st' => host_inv st' | Panic _ => R | Diverge => d = true end) ->
  match when_free h st k with Ret st' => host_inv st' | Panic _ => R | Diverge => d = true end.
Proof. intros I Hk. unfold when_free. destruct (app st !! h); [done|by apply Hk]. Qed.

(** A packed result goes to a free handle. *)
Lemma take_qr_ok h st r s : app st !! h = None -> given_packed (app st) r s -> lib_inv (take_qr h st r) s.
Proof. intros Hh G. destruct r as [[op qd qt v]|e]; [|done]. destruct v; try done. by apply G. Qed.

(** [bind] and [listen] return unless the system refuses. *)
Lemma unwrap_ok qd (f : Z -> OS -> io unit * OS) st (R : Prop) :
  host_inv st ->
  (forall fd e o, sockets (library st) !! qd = Some fd -> f fd (os (library st)) = (IoErr e, o) -> R) ->
  match call (with_fd qd (fun fd => r ← sys (f fd); _ ← unwrap r; mret (Ok tt))) (keep st) st with
  | Ret st' => host_inv st' | Panic _ => R | Diverge => false = true
  end.
Proof.
  intros I HR. unfold call, with_fd, get, sys, mbind, N_bind. destruct (sockets (library st) !! qd) as [fd|] eqn:Hq; [|done].
  destruct (f fd (os (library st))) as [[[]|e] o] eqn:E; cbn.
  - by apply inv_os.
  - by eapply HR.
Qed.

Lemma handled_call e st : host_inv st -> sizes_ok e -> waits e = false -> handled e st.
Proof.
  intros I Hs Hw. unfold handled. rewrite Hw.
  destruct e as [domain typ|qd local|qd n|qd|qd remote|qd|qd a|qd a remote|qd data|qd data remote|qd|qt ws h|qt ws h|qt ws h|n m qts ws h|size h|a|h|a i v];
    try discriminate Hw; cbn [run sizes_ok] in *.
  - by apply keep_ok, wp_socket.
  - apply unwrap_ok; [done|]. intros fd errno o Hq E. exists qd, fd, errno, o. split; [done|]. left. by exists local.
  - apply (unwrap_ok qd (fun fd => px_listen fd n)); [done|]. intros fd errno o Hq E. exists qd, fd, errno, o. split; [done|]. right. by exists n.
  - by apply keep_ok, wp_accept.
  - apply keep_ok, wp_with_fd; [|done]. intros fd _. by apply wp_issue.
  - by apply keep_ok, nwp_close.
  - apply array_ok; [done|]. intros g Hg. apply keep_ok. eapply wp_with_clone; [done|exact Hg|]. intros h buf s' I' Hh. by eapply wp_do_push.
  - apply array_ok; [done|]. intros g Hg. apply keep_ok. eapply wp_with_clone; [done|exact Hg|]. intros h buf s' I' Hh. by eapply wp_do_pushto.
  - apply keep_ok, wp_slice; [done|done|]. intros h buf s' I' Hh. by eapply wp_do_push.
  - apply keep_ok, wp_slice; [done|done|]. intros h buf s' I' Hh. by eapply wp_do_pushto.
  - apply keep_ok, wp_with_fd; [|done]. intros fd _. by apply wp_issue.
  - apply handle_free_ok; [done|]. intros Hh. apply call_ok. eapply nwp_mono; [by apply wp_sgaalloc|]. intros [g|er] s' I'; [by apply I'|done].
  - apply array_ok; [done|]. intros g Hg. apply call_ok. eapply nwp_mono; [by eapply wp_sgafree|]. by intros [u|er] s' I'.
  - destruct (app st !! h) as [[d|g]|] eqn:Hh; [|done|done]. by apply (call_ok false (on_heap (HeapBuffer.drop d)) (fun _ => delete h (app st))), wp_drop_buffer.
  - apply array_ok; [done|]. intros g Hg. destruct (Z.ltb_spec (Z.of_nat i) (sgaseg_len (sga_segs g))); [|done]. apply keep_ok. by eapply wp_poke.
Qed.

Lemma handled_wait e st : host_inv st -> sizes_ok e -> waits e = true -> handled e st.
Proof.
  intros I Hs Hw. unfold handled. destruct e as [| | | | | | | | | | |qt ws h|qt ws h|qt ws h|n m qts ws h| | | |]; try discriminate Hw; cbn [run sizes_ok] in *; rewrite Hw.
  - apply handle_free_ok; [done|]. intros Hh. apply call_ok. eapply nwp_mono; [by apply wp_wait|]. intros r s' G. by apply take_qr_ok.
  - apply handle_free_ok; [done|]. intros Hh. apply call_ok. eapply nwp_mono; [by apply wp_timedwait|]. intros r s' G. by apply take_qr_ok.
  - apply handle_free_ok; [done|]. intros Hh. apply call_ok. eapply nwp_mono; [by apply wp_wait2|].
    intros [[qd r]|er] s' G; [|done]. destruct r; try done. by apply G.
  - case_bool_decide as F; [|done]. by apply call_ok, wp_wait_any2.
Qed.

Lemma handled_all e st : host_inv st -> sizes_ok e -> handled e st.
Proof. intros I Hs. destruct (waits e) eqn:Hw; [by apply handled_wait|by apply handled_call]. Qed.

Lemma host_inv_new o : host_inv (mkHost (new (mkHeap ∅ 0) o) ∅).
Proof.
  split; [split; cbn; intros; simplify_map_eq|]. exists ∅. split; [split; intros i; cbn; unfold task_item; by rewrite !lookup_empty|].
  split; [split; cbn|cbn]; intros; simplify_map_eq. by match goal with E : is_Some None |- _ => destruct E end.
Qed.

Lemma catnap_reachable_inv st : reachable st -> host_inv st.
Proof.
  induction 1 as [o|st e st' _ IH Hs Hr]; [apply host_inv_new|]. pose proof (handled_all e st IH Hs) as Hh. unfold handled in Hh. by rewrite Hr in Hh.
Qed.

(** C22: A program that uses Catnap is safe, whatever the operating system answers.  In every state
    that the program and the library reach: every socket has an allocated descriptor, each pending accept
    has booked a descriptor of its own that no socket uses, a task is complete exactly when its
    operation is done, and every block of the heap is counted by those who hold it: the arrays and
    popped buffers of the program, the buffers of the pending pushes and the ones received by pops
    not yet waited for.  Every further event (a call, a wait for one or several tokens, the program
    writing to or freeing what it holds) returns; the only panic is that of a [bind] or [listen] the
    system refuses, and only a wait may outlast its turns. *)
Theorem catnap_is_safe st (Hst : reachable st) :
  host_inv st /\
  forall e, sizes_ok e ->
    (exists st', run e st = Ret st' /\ reachable st') \/
    (refused e st /\ exists msg, run e st = Panic msg) \/
    (waits e = true /\ run e st = Diverge).
Proof.
  pose proof (catnap_reachable_inv st Hst) as I. split; [done|]. intros e Hs. pose proof (handled_all e st I Hs) as Hh. unfold handled in Hh.
  destruct (run e st) as [st'|msg|] eqn:E; [|right; left|by right; right].
  - left. exists st'. split; [done|]. by eapply reach_step.
  - split; [done|]. by exists msg.
Qed.

End host.
End CatnapHost.

(** ** A loopback system *)

(** What is sent is received, at most three bytes of it in one call; file descriptors are numbered from
    3 and reused once closed, lowest first. *)
Module Loopback.
Import CatnapHost Catnap.

Record t := mk { files : gset Z; wire : list (list Z) }.

Definition next_fd (s : t) : Z := if decide (3 ∈ files s) then 4 else 3.
Definition opened (s : t) : io Z * t := (IoOk (next_fd s), mk ({[next_fd s]} ∪ files s) (wire s)).
Definition sent (l : list Z) (s : t) : io nat * t := (IoOk (Nat.min 3 (length l)), mk (files s) (wire s ++ [take 3 l])).

#[export] Instance loopback : Posix t := {
  px_socket _ := opened;
  px_setsockopt_reuseport _ s := (IoOk tt, s);
  px_bind _ _ s := (IoOk tt, s);
  px_listen _ _ s := (IoErr EINVAL, s);
  px_accept _ := opened;
  px_connect _ _ s := (IoOk tt, s);
  px_close fd s := if decide (fd ∈ files s) then (IoOk tt, mk (files s ∖ {[fd]}) (wire s)) else (IoErr EBADF, s);
  px_send _ := sent;
  px_sendto _ l _ := sent l;
  px_recvfrom _ n s :=
    match wire s with
    | [] => (IoErr EAGAIN, s)
    | l :: w => (IoOk (take n l, None), mk (files s) w)
    end;
  px_setsockopt _ _ _ s := (0, s);
  px_fcntl_getfl _ s := (0, s);
  px_fcntl_setfl _ _ s := (0, s)
}.

#[export] Instance loopback_laws : PosixLaws t.
Proof.
  split. intros fd n [fs [|x w]] l addr s'; cbn; [done|]. intros [= <- <- <-]. rewrite length_take. lia.
Qed.

Definition host : Type := CatnapHost.host (OS := t) (SL := gmap Z Z).
Definition start : host := mkHost (new (mkHeap ∅ 0) (mk ∅ [])) ∅.

Definition key (ts : gmap Z cn_task) : option Z := Some (fresh (dom ts)).

Lemma key_fresh ts k : key ts = Some k -> ts !! k = None.
Proof. intros [= <-]. apply not_elem_of_dom, is_fresh. Qed.

Fixpoint runs (es : list event) (st : host) : outcome host :=
  match es with
  | [] => Ret st
  | e :: es => st' ← run key e st; runs es st'
  end.

Lemma runs_reachable es st st' :
  reachable key st -> Forall sizes_ok es -> runs es st = Ret st' -> reachable key st'.
Proof.
  revert st. induction es as [|e es IH]; intros st R F E; cbn in E; [by injection E as <-|].
  inversion F; subst. destruct (run key e st) as [st1| |] eqn:E1; try done. cbn in E. eapply IH; [by eapply reach_step|done|done].
Qed.

Definition turn (k : Z) : list cn_turn := [mkCnTurn [k] false].

(** A socket, an array of two bytes that is pushed, and what comes back popped. *)
Definition session (qd k : Z) : list event :=
  [ESocket AF_INET SOCK_DGRAM; EAlloc 2 1; EPoke 1 0 7; EPush qd 1; EPoke 1 0 9; EWait k (turn k) 2;
   EPop qd; EWait k (turn k) 2].

Definition after (es : list event) : host := match runs es start with Ret st => st | _ => start end.

Definition shown (h : Z) (st : host) : option (list Z) := app st !! h ≫= shows (mem (library st)).

(** The bytes pushed are those of the array when it was pushed, and come back when popped. *)
Example loopback_session :
  shown 2 (after (session 0 0)) = Some [7; 0] /\ shown 1 (after (session 0 0)) = Some [9; 0].
Proof. by vm_compute. Qed.

(** The safety theorem applies after the session, where the next wait is for a token never given out. *)
Lemma catnap_is_safe_witness :
  host_inv (after (session 0 0)) /\
  exists st', run key (EWait 5 [] 3) (after (session 0 0)) = Ret st' /\ reachable key st'.
Proof.
  assert (R : reachable key (after (session 0 0))).
  { apply (runs_reachable (session 0 0) start); [apply reach_new|repeat constructor; cbn; lia|by vm_compute]. }
  destruct (catnap_is_safe key key_fresh _ R) as [I Hs]. split; [exact I|].
  destruct (Hs (EWait 5 [] 3) Logic.I) as [Hr|[[Hr _]|[_ Hr]]]; [exact Hr| |].
  - exfalso. destruct Hr as (qd & fd & errno & o & _ & [[local [Hr _]]|[backlog [Hr _]]]); discriminate Hr.
  - exfalso. vm_compute in Hr. discriminate Hr.
Defined.

(** *** What a program may run into *)

(** [close] leaves the descriptor with its file descriptor, which the system gives to the next socket:
    closing the first descriptor again closes the second socket. *)
Example close_again_closes_another :
  let st := after [ESocket AF_INET SOCK_DGRAM; EClose 0; ESocket AF_INET SOCK_DGRAM] in
  sockets (library st) = {[0 := 3; 1 := 3]} /\ files (os (library st)) = {[3]} /\
  exists st', run key (EClose 0) st = Ret st' /\ files (os (library st')) = ∅.
Proof. vm_compute. split; [done|]. split; [done|]. by eexists. Qed.

(** A push of which the system takes a part is reported as done. *)
Example short_send_is_success :
  match runs [ESocket AF_INET SOCK_DGRAM; EPush2 0 [1; 2; 3; 4; 5]] start with
  | Ret st => match wait2 0 (turn 0) (library st) with
              | Ret (r, s) => r = Ok (0, CnPush) /\ wire (os s) = [[1; 2; 3]]
              | _ => False
              end
  | _ => False
  end.
Proof. by vm_compute. Qed.

(** A [listen] that the system refuses ends the program. *)
Example refused_listen_panics :
  exists msg, runs [ESocket AF_INET SOCK_STREAM; EListen 0 8] start = Panic msg.
Proof. by eexists; vm_compute. Qed.

(** The array of an empty datagram cannot be freed: its block stays. *)
Example empty_array_stays :
  let s0 : host := mkHost (new (mkHeap ∅ 0) (mk ∅ [[]])) ∅ in
  match runs [ESocket AF_INET SOCK_DGRAM; EPop 0; EWait 0 (turn 0) 1; EFree 1] s0 with
  | Ret st => is_Some (app st !! 1) /\ blocks (mem (library st)) = {[0 := mkBlock 1 []]}
  | _ => False
  end.
Proof. vm_compute. split; [by eexists|done]. Qed.

End Loopback.
