(* ===== verification/Catcollar.v ===== *)
(** * The requests of the Catcollar library OS
    (src/src/rust/catcollar/iouring.rs, catcollar/runtime/mod.rs, catcollar/futures/{push,pushto,pop}.rs,
    and the calls of catcollar/mod.rs that issue requests)

    Catcollar hands its pushes and pops to the kernel through an io_uring: a request is submitted with a
    pointer to the bytes, the kernel reads or writes them until it posts the completion, and a
    future waits for that completion.  Here are the ring, the runtime with its sets of requests, of
    which every future has a copy of its own, and the futures; the sockets, waits and results around them
    have the text of [Catnap].

    The kernel is the class [Uring].  Its accesses to the memory of the program are explicit (the bytes of
    a request, and the header of its message with the vector the header points to), so an
    access to memory that has been released is visible as undefined behaviour. *)

From S2P Require Import Prelude Net Sga Catnap.

(** An access of the kernel to memory of the program; [KHeader] reads the header of a message and the
    vector it points to. *)
Inductive access := KRead (ptr : pointer) (len : nat) | KWrite (ptr : pointer) (data : list Z) | KHeader (msg : Z).

(** A submission: the address of the message, the direction, the socket and the bytes. *)
Record sqe := mkSqe { sqe_data : Z; sqe_send : bool; sqe_fd : Z; sqe_ptr : pointer; sqe_len : nat; sqe_addr : option SocketAddrV4 }.

(** The ring: an entry may be refused; a submission returns the number of entries taken; waiting
    returns the message and the result of a completed request or an error, and [None] when it blocks for
    ever. *)
Class Uring (OS : Type) := {
  ur_get_sqe : OS -> bool * OS;
  ur_submit : sqe -> OS -> Z * list access * OS;
  ur_wait_cqe : OS -> option (io (Z * Z) * list access * OS);
  ur_inflight : OS -> gmap Z sqe
}.

(** The accesses a request allows. *)
Definition allowed (s : sqe) (x : access) : Prop :=
  match x with
  | KRead p n => sqe_send s = true /\ p = sqe_ptr s /\ (n <= sqe_len s)%nat
  | KWrite p l => sqe_send s = false /\ p = sqe_ptr s /\ (length l <= sqe_len s)%nat
  | KHeader m => m = sqe_data s
  end.

(** The contract of the ring: a submitted request is in flight until its completion is returned; one
    whose submission failed may be in flight as well, since its entry stays in the queue; the
    kernel touches the memory of requests in flight only, no more bytes are transferred than the
    request has, and waiting does not block while a request is in flight. *)
Class UringLaws (OS : Type) `{Uring OS} : Prop := {
  ur_get_keeps os : ur_inflight (ur_get_sqe os).2 = ur_inflight os;
  ur_submit_inflight s os r xs os' : ur_submit s os = (r, xs, os') ->
    ur_inflight os' = <[sqe_data s := s]> (ur_inflight os) \/ (r < 1 /\ ur_inflight os' = ur_inflight os);
  ur_submit_accesses s os r xs os' : ur_submit s os = (r, xs, os') -> Forall (allowed s) xs;
  ur_wait_done os d res xs os' : ur_wait_cqe os = Some (IoOk (d, res), xs, os') ->
    exists s, ur_inflight os !! d = Some s /\ ur_inflight os' = delete d (ur_inflight os) /\ res <= Z.of_nat (sqe_len s);
  ur_wait_failed os e xs os' : ur_wait_cqe os = Some (IoErr e, xs, os') -> ur_inflight os' = ur_inflight os;
  ur_wait_accesses os r xs os' : ur_wait_cqe os = Some (r, xs, os') ->
    Forall (fun x => exists d s, ur_inflight os !! d = Some s /\ allowed s x) xs;
  ur_wait_blocks os : ur_wait_cqe os = None -> ur_inflight os = ∅
}.

Definition CATCOLLAR_RECVBUF_SIZE : nat := 9000.

Module Catcollar.

Section catcollar.
Context {OS : Type} `{Uring OS}.
(** The address of a new message: not that of one in use. *)
Variable new_msg : gmap Z bool -> Z.

(** The memory of the program, its messages (with whether they carry an address), the messages whose
    vector is allocated, and the kernel. *)
Record machine := mkMachine { mem : heap; msgs : gmap Z bool; vectors : gset Z; os : OS }.

Definition set_mem v (s : machine) := mkMachine v (msgs s) (vectors s) (os s).
Definition set_msgs v (s : machine) := mkMachine (mem s) v (vectors s) (os s).
Definition set_vectors v (s : machine) := mkMachine (mem s) (msgs s) v (os s).
Definition set_os v (s : machine) := mkMachine (mem s) (msgs s) (vectors s) v.

Definition U (A : Type) : Type := machine -> outcome (A * machine).

#[export] Instance U_ret : MRet U := fun A a s => Ret (a, s).
#[export] Instance U_bind : MBind U := fun A B k m s =>
  match m s with
  | Ret (a, s') => k a s'
  | Panic msg => Panic msg
  | Diverge => Diverge
  end.

Definition stop {A} (o : outcome A) : U A := fun s =>
  match o with Ret a => Ret (a, s) | Panic msg => Panic msg | Diverge => Diverge end.
Definition on_heap {A} (m : M A) : U A := fun s =>
  match m (mem s) with
  | Ret (a, h) => Ret (a, set_mem h s)
  | Panic msg => Panic msg
  | Diverge => Diverge
  end.

(** *** The kernel's accesses *)

Definition kernel_write (ptr : pointer) (data : list Z) : M unit :=
  match ptr with
  | None => if Nat.eqb (length data) 0 then mret tt else ub "null pointer"
  | Some (b, off) =>
      x ← Arc.get b;
      if Nat.leb (off + length data) (length (bytes x))
      then Arc.put b (mkBlock (strong x) (take off (bytes x) ++ data ++ skipn (off + length data) (bytes x)))
      else ub "write out of bounds"
  end.

Definition kernel_read (ptr : pointer) (n : nat) : M unit :=
  match ptr, n with
  | None, 0%nat => mret tt
  | _, _ => _ ← read ptr n; mret tt
  end.

Definition read_header (msg : Z) : U unit := fun s =>
  if decide (is_Some (msgs s !! msg) /\ msg ∈ vectors s) then Ret (tt, s) else Panic "use after free of a vector".

Definition perform (x : access) : U unit :=
  match x with
  | KRead p n => on_heap (kernel_read p n)
  | KWrite p l => on_heap (kernel_write p l)
  | KHeader m => read_header m
  end.

Fixpoint perform_all (l : list access) : U unit :=
  match l with
  | [] => mret tt
  | x :: l => _ ← perform x; perform_all l
  end.

(** *** [IoUring] *)

(** [&buf[..]] as a pointer. *)
Definition buf_ptr (buf : HeapBuffer.t) : pointer :=
  match HeapBuffer.data buf with Some b => Some (b, HeapBuffer.offset buf) | None => None end.

(** The message is leaked to the request, but its vector is a local box, freed when the call returns,
    as is the buffer.  A message that carries an address points to the address the call was given,
    which is gone when the
    call returns.  A refused entry makes the call release the static string of strerror. *)
Definition submit (send : bool) (sockfd : Z) (addr : option SocketAddrV4) (buf : HeapBuffer.t) : U (Result Z) := fun s =>
  let '(ok, o) := ur_get_sqe (os s) in
  if negb ok then Panic "CString::from_raw of a pointer that CString::into_raw did not return" else
  let msg_ptr := new_msg (msgs s) in
  let '(r, xs, o) := ur_submit (mkSqe msg_ptr send sockfd (buf_ptr buf) (HeapBuffer.len buf) addr) o in
  let s := mkMachine (mem s) (<[msg_ptr := match addr with Some _ => true | None => false end]> (msgs s))
             ({[msg_ptr]} ∪ vectors s) o in
  (_ ← perform_all xs;
   _ ← (fun s => Ret (tt, set_vectors (vectors s ∖ {[msg_ptr]}) s));
   _ ← on_heap (HeapBuffer.drop buf);
   mret (if r <? 1 then Err (mkFail EAGAIN (if send then "failed to submit push operation" else "failed to submit pop operation")) else Ok msg_ptr)) s.

Definition IoUring_push (sockfd : Z) (buf : HeapBuffer.t) : U (Result Z) := submit true sockfd None buf.
Definition IoUring_pushto (sockfd : Z) (addr : SocketAddrV4) (buf : HeapBuffer.t) : U (Result Z) := submit true sockfd (Some addr) buf.
Definition IoUring_pop (sockfd : Z) (buf : HeapBuffer.t) : U (Result Z) := submit false sockfd None buf.

Definition IoUring_wait : U (Result (Z * Z)) := fun s =>
  match ur_wait_cqe (os s) with
  | None => Diverge
  | Some (r, xs, o) =>
      (_ ← perform_all xs;
       mret (match r with IoOk x => Ok x | IoErr e => Err (mkFail e "operation in progress") end)) (set_os o s)
  end.

(** *** [IoUringRuntime] *)

(** What every clone of the runtime has of its own; the scheduler and the ring are shared. *)
Record IoUringRuntime := mkRuntime { pending : gset Z; completed : gmap Z Z }.

Definition runtime_new : IoUringRuntime := mkRuntime ∅ ∅.

Definition add_pending (r : Result Z) (rt : IoUringRuntime) : Result Z * IoUringRuntime :=
  match r with
  | Ok id => (Ok id, mkRuntime ({[id]} ∪ pending rt) (completed rt))
  | Err e => (Err e, rt)
  end.

Definition runtime_push (sockfd : Z) (buf : HeapBuffer.t) (rt : IoUringRuntime) : U (Result Z * IoUringRuntime) :=
  r ← IoUring_push sockfd buf; mret (add_pending r rt).
Definition runtime_pushto (sockfd : Z) (addr : SocketAddrV4) (buf : HeapBuffer.t) (rt : IoUringRuntime) : U (Result Z * IoUringRuntime) :=
  r ← IoUring_pushto sockfd addr buf; mret (add_pending r rt).
Definition runtime_pop (sockfd : Z) (buf : HeapBuffer.t) (rt : IoUringRuntime) : U (Result Z * IoUringRuntime) :=
  r ← IoUring_pop sockfd buf; mret (add_pending r rt).

(** [Rc::from_raw(request_id)] and its drop; the address of a message that has one is read. *)
Definition take_msg (id : Z) : U unit := fun s =>
  match msgs s !! id with
  | None => Panic "use after free"
  | Some true => Panic "read of an address on the stack of a call that has returned"
  | Some false => Ret (tt, set_msgs (delete id (msgs s)) s)
  end.

(** The result of a request, without the address of its message, which is never there. *)
Definition peek (request_id : Z) (rt : IoUringRuntime) : U (Result (option Z) * IoUringRuntime) :=
  match completed rt !! request_id with
  | Some size =>
      _ ← take_msg request_id;
      mret (Ok (Some size), mkRuntime (pending rt) (delete request_id (completed rt)))
  | None =>
      r ← IoUring_wait;
      match r with
      | Ok (other, size) =>
          if negb (request_id =? other) then
            mret (Ok None, if decide (other ∈ pending rt) then mkRuntime (pending rt ∖ {[other]}) (<[other := size]> (completed rt)) else rt)
          else _ ← take_msg request_id; mret (Ok (Some size), rt)
      | Err e => mret (if errno e =? EAGAIN then Ok None else Err e, rt)
      end
  end.

(** *** The futures *)

Record PushFuture := mkPush { pu_rt : IoUringRuntime; pu_qd : Z; pu_id : Z }.
Record PopFuture := mkPop { po_rt : IoUringRuntime; po_qd : Z; po_buf : HeapBuffer.t; po_id : Z }.

(** [PushFuture] and [PushtoFuture] have the same text. *)
Definition poll_push (f : PushFuture) : U (option (Result unit) * PushFuture) :=
  '(r, rt) ← peek (pu_id f) (pu_rt f);
  let f := mkPush rt (pu_qd f) (pu_id f) in
  mret (match r with
        | Ok (Some size) => if 0 <=? size then Some (Ok tt) else Some (Err (mkFail (- size) "I/O error"))
        | Ok None => None
        | Err e => Some (Err e)
        end, f).

Definition poll_pushto (f : PushFuture) : U (option (Result unit) * PushFuture) := poll_push f.

Definition poll_pop (f : PopFuture) : U (option (Result HeapBuffer.t) * PopFuture) :=
  '(r, rt) ← peek (po_id f) (po_rt f);
  let f := mkPop rt (po_qd f) (po_buf f) (po_id f) in
  match r with
  | Ok (Some size) =>
      if 0 <=? size then
        buf ← on_heap (HeapBuffer.clone (po_buf f));
        buf ← on_heap (HeapBuffer.trim buf (Z.to_nat (wrap64 (Z.of_nat (HeapBuffer.len (po_buf f)) - size))));
        mret (Some (Ok buf), f)
      else mret (Some (Err (mkFail (- size) "I/O error")), f)
  | Ok None => mret (None, f)
  | Err e => mret (Some (Err e), f)
  end.

(** *** Issuing requests ([do_push], [do_pushto], [pop]) *)

(** The request gets a clone of the buffer; the buffer itself is dropped with the call. *)
Definition issue_push (qd fd : Z) (buf : HeapBuffer.t) (rt : IoUringRuntime) : U (Result PushFuture * IoUringRuntime) :=
  copy ← on_heap (HeapBuffer.clone buf);
  '(r, rt) ← runtime_push fd copy rt;
  _ ← on_heap (HeapBuffer.drop buf);
  mret (match r with Ok id => Ok (mkPush rt qd id) | Err e => Err e end, rt).

Definition issue_pushto (qd fd : Z) (addr : SocketAddrV4) (buf : HeapBuffer.t) (rt : IoUringRuntime) : U (Result PushFuture * IoUringRuntime) :=
  copy ← on_heap (HeapBuffer.clone buf);
  '(r, rt) ← runtime_pushto fd addr copy rt;
  _ ← on_heap (HeapBuffer.drop buf);
  mret (match r with Ok id => Ok (mkPush rt qd id) | Err e => Err e end, rt).

(** A pop keeps its buffer. *)
Definition issue_pop (qd fd : Z) (rt : IoUringRuntime) : U (Result PopFuture * IoUringRuntime) :=
  b ← on_heap (HeapBuffer.new CATCOLLAR_RECVBUF_SIZE);
  match b with
  | Err e => mret (Err e, rt)
  | Ok buf =>
      copy ← on_heap (HeapBuffer.clone buf);
      '(r, rt) ← runtime_pop fd copy rt;
      match r with
      | Ok id => mret (Ok (mkPop rt qd buf id), rt)
      | Err e => _ ← on_heap (HeapBuffer.drop buf); mret (Err e, rt)
      end
  end.

End catcollar.
End Catcollar.
