(* ===== verification/CatcollarSafety.v ===== *)
(** * The requests of Catcollar with a prompt kernel

    A program ([CatcollarHost]) issues pushes and pops, polls their futures and keeps what it
    receives.  The invariant below needs more of the kernel than io_uring documents ([UringPrompt]): the
    bytes and the header of a request are read when it is submitted, submissions do not fail, there is
    always an entry and a wait fails with EAGAIN only.  Then no access of the kernel touches released memory,
    every block is counted by its holder, and what was received does not change.  Without one of these
    assumptions the examples at the end show memory used after its release; with two requests at a time,
    a future may wait for a completion that another has taken. *)

From S2P Require Import Prelude Net Sga SgaSafety Catnap Catcollar.
Import SgaHost.

Class UringPrompt (OS : Type) `{Uring OS} : Prop := {
  ur_entry os : (ur_get_sqe os).1 = true;
  ur_taken s os : 1 <= (ur_submit s os).1.1;
  ur_no_late_read os r xs os' : ur_wait_cqe os = Some (r, xs, os') -> Forall (fun x => match x with KWrite _ _ => True | _ => False end) xs;
  ur_only_again os e xs os' : ur_wait_cqe os = Some (IoErr e, xs, os') -> e = EAGAIN
}.

(** ** Changes of the heap that keep what some handles show *)

Section keep.
Variable keep : Z -> Prop.

Definition evolves (s s' : state) : Prop := inv s' /\ forall k, keep k -> contents s' k = contents s k.

Lemma evolves_same s : inv s -> evolves s s.
Proof. by split. Qed.

Lemma evolves_trans s1 s2 s3 : evolves s1 s2 -> evolves s2 s3 -> evolves s1 s3.
Proof. intros [I1 K1] [I2 K2]. split; [done|]. intros k Hk. rewrite K2, K1 by done. done. Qed.

Lemma evolves_others s s' h : inv s' -> others (eq h) s s' -> ~ keep h -> evolves s s'.
Proof. intros I O Hh. split; [done|]. intros k Hk. apply O. by intros ->. Qed.

Lemma evolves_new s h l :
  inv s -> items s !! h = None -> ~ keep h -> blen l < 2^32 ->
  evolves s (mkState (fresh_block s l) (<[h := Buf (HeapBuffer.mk (Some (next (SgaHost.mem s))) 0 (length l))]> (items s))).
Proof. intros I Hh Hk Hl. destruct (new_buffer s h l I Hh Hl) as (I' & O & _). by eapply evolves_others. Qed.

Lemma evolves_clone s h h' d :
  inv s -> items s !! h = Some (Buf d) -> items s !! h' = None -> ~ keep h' ->
  exists mm, HeapBuffer.clone d (SgaHost.mem s) = Ret (d, mm) /\ next mm = next (SgaHost.mem s) /\
    evolves s (mkState mm (<[h' := Buf d]> (items s))).
Proof.
  intros I Hh Hh' Hk. unfold HeapBuffer.clone. destruct (HeapBuffer.data d) as [b|] eqn:Hd.
  - destruct (in_range_block _ (Buf d) b (i_range _ I h _ Hh) Hd) as (blk & Hb & _). unfold Arc.clone, Arc.get, mbind, M_bind. rewrite Hb.
    eexists. split; [done|]. split; [done|]. destruct (inv_share s h' h (Buf d) b blk I Hh' Hh Hd Hb) as (I' & O' & _). by eapply evolves_others.
  - eexists. split; [done|]. split; [done|]. destruct (inv_share_none s h' h d I Hh' Hh Hd) as (I' & O' & _). by eapply evolves_others.
Qed.

Lemma evolves_drop s h d :
  inv s -> items s !! h = Some (Buf d) -> ~ keep h ->
  exists mm, HeapBuffer.drop d (SgaHost.mem s) = Ret (tt, mm) /\ evolves s (mkState mm (delete h (items s))).
Proof.
  intros I Hh Hk. unfold HeapBuffer.drop. destruct (HeapBuffer.data d) as [b|] eqn:Hd.
  - destruct (sga_inv_drop s h (Buf d) b I Hh Hd) as (mm & E & I' & O'). exists mm. split; [done|]. by eapply evolves_others.
  - eexists. split; [done|]. destruct (inv_drop_none s h d I Hh Hd) as [I' O']. by eapply evolves_others.
Qed.

(** What an access does to the heap. *)
Definition heap_access (x : access) : M unit :=
  match x with KRead p n => Catcollar.kernel_read p n | KWrite p l => Catcollar.kernel_write p l | KHeader _ => mret tt end.

Fixpoint heap_accesses (l : list access) : M unit :=
  match l with
  | [] => mret tt
  | x :: l => _ ← heap_access x; heap_accesses l
  end.

(** An access to the buffer of a handle; a write must not be seen through a kept handle. *)
Definition on_buffer (s : state) (x : access) : Prop :=
  exists h d, items s !! h = Some (Buf d) /\
    match x with
    | KRead p n => p = Catcollar.buf_ptr d /\ (n <= HeapBuffer.len d)%nat
    | KWrite p l => p = Catcollar.buf_ptr d /\ (length l <= HeapBuffer.len d)%nat /\
        forall k y b, items s !! k = Some y -> block_of y = Some b -> HeapBuffer.data d = Some b -> ~ keep k
    | KHeader _ => True
    end.

Lemma evolves_access s x :
  inv s -> on_buffer s x -> exists mm, heap_access x (SgaHost.mem s) = Ret (tt, mm) /\ evolves s (mkState mm (items s)).
Proof.
  intros I (h & d & Hh & Hx). pose proof (i_range _ I h _ Hh) as Hr. cbn in Hr. unfold Catcollar.buf_ptr in Hx.
  destruct x as [p n|p l|m]; [destruct Hx as [-> Hn]|destruct Hx as (-> & Hl & Hk)|]; cbn [heap_access].
  - exists (SgaHost.mem s). rewrite same_state. split; [|by apply evolves_same]. unfold Catcollar.kernel_read. destruct (HeapBuffer.data d) as [b|].
    + destruct Hr as (blk & Hb & Hle & _). unfold read, Arc.get, mbind, M_bind. rewrite Hb, (proj2 (Nat.leb_le _ _)) by lia. by destruct n.
    + by replace n with 0%nat by lia.
  - unfold Catcollar.kernel_write. destruct (HeapBuffer.data d) as [b|].
    + destruct Hr as (blk & Hb & Hle & _). unfold Arc.get, Arc.put, mbind, M_bind. rewrite Hb, (proj2 (Nat.leb_le _ _)) by lia.
      eexists. split; [done|]. destruct (inv_bytes s b blk (take (HeapBuffer.offset d) (bytes blk) ++ l ++ drop (HeapBuffer.offset d + length l) (bytes blk)) I Hb) as [I' O'].
      { rewrite !length_app, length_take, length_drop. lia. }
      split; [done|]. intros k Hkk. apply O'. intros (y & Hy & Hyb). by apply (Hk k y b).
    + exists (SgaHost.mem s). rewrite same_state. replace (length l) with 0%nat by lia. split; [done|by apply evolves_same].
  - exists (SgaHost.mem s). rewrite same_state. split; [done|by apply evolves_same].
Qed.

Lemma evolves_accesses s xs :
  inv s -> Forall (on_buffer s) xs -> exists mm, heap_accesses xs (SgaHost.mem s) = Ret (tt, mm) /\ evolves s (mkState mm (items s)).
Proof.
  intros I F. remember (items s) as its eqn:Ei. revert s I F Ei. induction xs as [|x xs IH]; intros s I F Ei.
  - exists (SgaHost.mem s). rewrite Ei, same_state. split; [done|by apply evolves_same].
  - inversion F as [|? ? Fx Fxs]; subst. destruct (evolves_access s x I Fx) as (m1 & E1 & V1).
    destruct (IH (mkState m1 (items s))) as (m2 & E2 & V2); [apply V1| |done|].
    { eapply Forall_impl; [exact Fxs|]. done. }
    exists m2. cbn. unfold mbind, M_bind. rewrite E1. split; [done|]. by eapply evolves_trans.
Qed.

End keep.

Module CatcollarHost.
Import Catcollar.

Lemma recvbuf_size : CATCOLLAR_RECVBUF_SIZE <> 0%nat /\ Z.of_nat CATCOLLAR_RECVBUF_SIZE < 2^32.
Proof. by vm_compute. Qed.

#[local] Opaque CATCOLLAR_RECVBUF_SIZE.

Section host.
Context {OS : Type} `{UringLaws OS} `{!UringPrompt OS}.
Variable new_msg : gmap Z bool -> Z.
Hypothesis new_msg_fresh : forall m, m !! new_msg m = None.

(** ** The program *)

Inductive slot := SPush (f : PushFuture) | SPop (f : PopFuture) | SBuf (b : HeapBuffer.t).

Record host := mkHost { mach : machine (OS := OS); rt : IoUringRuntime; slots : gmap Z slot }.

Inductive event :=
| IPush (h qd fd : Z) (data : list Z)
| IPop (h qd fd : Z)
| Poll (h : Z)
| Drop (h : Z).

(** A future that is ready is dropped with its operation. *)
Definition poll_slot (h : Z) (x : slot) (st : host) : outcome host :=
  match x with
  | SPush f =>
      '((r, f), s) ← poll_push f (mach st);
      Ret (mkHost s (rt st) (match r with Some _ => delete h (slots st) | None => <[h := SPush f]> (slots st) end))
  | SPop f =>
      '((r, f), s) ← poll_pop f (mach st);
      match r with
      | None => Ret (mkHost s (rt st) (<[h := SPop f]> (slots st)))
      | Some r =>
          '(_, s) ← on_heap (HeapBuffer.drop (po_buf f)) s;
          Ret (mkHost s (rt st) (match r with Ok b => <[h := SBuf b]> (slots st) | Err _ => delete h (slots st) end))
      end
  | SBuf _ => Ret st
  end.

Definition run (e : event) (st : host) : outcome host :=
  match e with
  | IPush h qd fd data =>
      match slots st !! h with
      | Some _ => Ret st
      | None =>
          '(buf, s) ← on_heap (HeapBuffer.from_slice data) (mach st);
          '((r, rt'), s) ← issue_push new_msg qd fd buf (rt st) s;
          Ret (mkHost s rt' (match r with Ok f => <[h := SPush f]> (slots st) | Err _ => slots st end))
      end
  | IPop h qd fd =>
      match slots st !! h with
      | Some _ => Ret st
      | None =>
          '((r, rt'), s) ← issue_pop new_msg qd fd (rt st) (mach st);
          Ret (mkHost s rt' (match r with Ok f => <[h := SPop f]> (slots st) | Err _ => slots st end))
      end
  | Poll h => match slots st !! h with Some x => poll_slot h x st | None => Ret st end
  | Drop h =>
      match slots st !! h with
      | Some (SBuf b) => '(_, s) ← on_heap (HeapBuffer.drop b) (mach st); Ret (mkHost s (rt st) (delete h (slots st)))
      | _ => Ret st
      end
  end.

(** ** The invariant *)

Definition slot_item (x : slot) : option item :=
  match x with SPush _ => None | SPop f => Some (Buf (po_buf f)) | SBuf b => Some (Buf b) end.

Definition slot_id (x : slot) : option Z :=
  match x with SPush f => Some (pu_id f) | SPop f => Some (po_id f) | SBuf _ => None end.

Definition slot_rt (x : slot) : IoUringRuntime :=
  match x with SPush f => pu_rt f | SPop f => po_rt f | SBuf _ => runtime_new end.

Definition view (s : machine (OS := OS)) (its : gmap Z item) : state := mkState (mem s) its.

(** The request of a future. *)
Definition request_of (x : slot) (s : sqe) : Prop :=
  match x with
  | SPush _ => sqe_send s = true
  | SPop f => sqe_send s = false /\ sqe_ptr s = buf_ptr (po_buf f) /\ sqe_len s = HeapBuffer.len (po_buf f)
  | SBuf _ => False
  end.

(** Every block is counted and has one holder; every future has a message of its own, which carries no
    address; every request in flight is that of a live future. *)
Record host_inv (st : host) : Prop := {
  hi_heap : inv (view (mach st) (omap slot_item (slots st)));
  hi_sep : forall k k' x x' b, omap slot_item (slots st) !! k = Some x -> omap slot_item (slots st) !! k' = Some x' ->
    block_of x = Some b -> block_of x' = Some b -> k = k';
  hi_msg : forall h x id, slots st !! h = Some x -> slot_id x = Some id -> msgs (mach st) !! id = Some false;
  hi_ids : forall h h' x x' id, slots st !! h = Some x -> slots st !! h' = Some x' -> slot_id x = Some id -> slot_id x' = Some id -> h = h';
  hi_flight : forall d s, ur_inflight (os (mach st)) !! d = Some s -> exists h x, slots st !! h = Some x /\ slot_id x = Some d /\ request_of x s;
  hi_own : forall h x id, slots st !! h = Some x -> slot_id x = Some id -> completed (slot_rt x) !! id = None;
  hi_rt : completed (rt st) = ∅
}.

(** What the program has received. *)
Definition received (sl : gmap Z slot) (h : Z) : Prop := exists b, sl !! h = Some (SBuf b).

(** ** Submitting *)

(** Accesses with the headers they read allocated only change the heap. *)
Lemma perform_all_heap xs (s : machine (OS := OS)) :
  Forall (fun x => match x with KHeader m => is_Some (msgs s !! m) /\ m ∈ vectors s | _ => True end) xs ->
  perform_all xs s = on_heap (heap_accesses xs) s.
Proof.
  revert s. induction xs as [|x xs IH]; intros s F; [by destruct s|]. inversion F as [|? ? Fx Fxs]; subst. cbn. unfold mbind, U_bind, M_bind, on_heap.
  destruct x as [q n|q l|m]; cbn [perform heap_access].
  - unfold on_heap. destruct (kernel_read q n (mem s)) as [[[] m1]| |]; [|done|done]. rewrite IH by done. unfold on_heap. cbn [mem set_mem]. by destruct (heap_accesses xs m1) as [[[] ?]| |].
  - unfold on_heap. destruct (kernel_write q l (mem s)) as [[[] m1]| |]; [|done|done]. rewrite IH by done. unfold on_heap. cbn [mem set_mem]. by destruct (heap_accesses xs m1) as [[[] ?]| |].
  - unfold read_header. rewrite decide_True by done. cbn. rewrite IH by done. done.
Qed.

Lemma submit_ok keep send fd buf h its s :
  inv (view s its) -> its !! h = Some (Buf buf) -> ~ keep h ->
  (forall k y b, its !! k = Some y -> block_of y = Some b -> HeapBuffer.data buf = Some b -> ~ keep k) ->
  exists r s', submit new_msg send fd None buf s = Ret (r, s') /\ evolves keep (view s its) (view s' (delete h its)) /\
    msgs s' = <[new_msg (msgs s) := false]> (msgs s) /\
    match r with
    | Ok id => id = new_msg (msgs s) /\
        ur_inflight (os s') = <[id := mkSqe id send fd (buf_ptr buf) (HeapBuffer.len buf) None]> (ur_inflight (os s))
    | Err _ => False
    end.
Proof.
  intros I Hh Hk Hb. unfold submit. pose proof (ur_entry (os s)) as He. pose proof (ur_get_keeps (os s)) as Hg.
  destruct (ur_get_sqe (os s)) as [ok o1]. cbn in He, Hg. subst ok. cbn [negb]. set (q := mkSqe _ _ _ _ _ _).
  pose proof (ur_taken q o1) as Ht. destruct (ur_submit q o1) as [[r xs] o2] eqn:Es. cbn in Ht.
  destruct (ur_submit_inflight _ _ _ _ _ Es) as [Hf|[Hlt _]]; [|lia]. pose proof (ur_submit_accesses _ _ _ _ _ Es) as Ha.
  destruct (evolves_accesses keep (view s its) xs I) as (m1 & E1 & V1).
  { eapply Forall_impl; [exact Ha|]. intros x Hx. exists h, buf. split; [done|]. destruct x; cbn in Hx.
    - by destruct Hx as (_ & -> & ?).
    - destruct Hx as (_ & -> & ?). split; [done|]. split; [done|]. done.
    - done. }
  destruct (evolves_drop keep (mkState m1 its) h buf) as (m2 & E2 & V2); [apply V1|done|done|].
  unfold mbind, U_bind. rewrite perform_all_heap.
  2:{ eapply Forall_impl; [exact Ha|]. intros [| |m] Hx; [done..|]. cbn in Hx. subst m. cbn [msgs vectors]. rewrite lookup_insert_eq. split; [by eexists|set_solver]. }
  unfold on_heap. cbn [mem set_mem]. cbn [view SgaHost.mem] in E1. rewrite E1. cbn [mem set_mem set_vectors vectors msgs os]. cbn [SgaHost.mem] in E2. rewrite E2.
  eexists _, _. split; [reflexivity|]. split; [by eapply evolves_trans|]. split; [done|]. rewrite (proj2 (Z.ltb_ge r 1)) by lia. cbn [os set_mem set_vectors]. by rewrite Hf, Hg.
Qed.

(** The state when a request has been issued. *)
Lemma inv_issued st h x id q s' rt' :
  host_inv st -> slots st !! h = None -> slot_id x = Some id -> id = new_msg (msgs (mach st)) ->
  completed (slot_rt x) = ∅ -> completed rt' = ∅ -> request_of x q ->
  msgs s' = <[id := false]> (msgs (mach st)) -> ur_inflight (os s') = <[id := q]> (ur_inflight (os (mach st))) ->
  inv (view s' (omap slot_item (<[h := x]> (slots st)))) ->
  (forall k k' y y' b, omap slot_item (<[h := x]> (slots st)) !! k = Some y -> omap slot_item (<[h := x]> (slots st)) !! k' = Some y' ->
    block_of y = Some b -> block_of y' = Some b -> k = k') ->
  host_inv (mkHost s' rt' (<[h := x]> (slots st))).
Proof.
  intros [] Hh Hx Hid Hc Hrt Hq Hm Hf Hi Hs. assert (Hnew : forall k y, slots st !! k = Some y -> slot_id y <> Some id).
  { intros k y Hk Hy. pose proof (hi_msg0 k y id Hk Hy) as E. rewrite Hid, new_msg_fresh in E. done. }
  split; cbn [mach rt slots]; [done|done| | | | |done].
  - intros k y i [[<- <-]|[_ Hk]]%lookup_insert_Some Hy; rewrite Hm.
    + replace i with id by congruence. by rewrite lookup_insert_eq.
    + rewrite lookup_insert_ne; [by eapply hi_msg0|]. intros <-. by destruct (Hnew k y).
  - intros k k' y y' i [[<- <-]|[_ Hk]]%lookup_insert_Some [[<- <-]|[_ Hk']]%lookup_insert_Some Hy Hy'; [done| | |by eapply hi_ids0].
    + destruct (Hnew k' y'); [done|congruence].
    + destruct (Hnew k y); [done|congruence].
  - intros d r. rewrite Hf. intros [[<- <-]|[_ Hd]]%lookup_insert_Some; [by exists h, x; rewrite lookup_insert_eq|].
    destruct (hi_flight0 d r Hd) as (k & y & Hk & Hy). exists k, y. rewrite lookup_insert_ne; [done|]. congruence.
  - intros k y i [[<- <-]|[_ Hk]]%lookup_insert_Some Hy; [by rewrite Hc|by eapply hi_own0].
Qed.

Lemma slot_fresh (sl : gmap Z slot) h : sl !! h = None -> omap slot_item sl !! h = None /\ ~ received sl h /\ exists h2, h2 <> h /\ sl !! h2 = None /\ omap slot_item sl !! h2 = None /\ ~ received sl h2.
Proof.
  intros Hh. assert (Ho : forall k, sl !! k = None -> omap slot_item sl !! k = None /\ ~ received sl k).
  { intros k Hk. rewrite lookup_omap, Hk. split; [done|]. intros [b Hb]. congruence. }
  destruct (Ho h Hh). split; [done|]. split; [done|]. exists (fresh ({[h]} ∪ dom sl)).
  pose proof (is_fresh ({[h]} ∪ dom sl)) as Hf. apply not_elem_of_union in Hf as [Hf1 Hf2]. apply not_elem_of_singleton in Hf1. apply not_elem_of_dom in Hf2.
  split; [done|]. split; [done|]. by apply Ho.
Qed.

(** A new buffer, and a clone of it that is submitted. *)
Lemma submit_new keep send fd l h h2 its s :
  inv (view s its) -> its !! h = None -> its !! h2 = None -> h <> h2 -> ~ keep h -> ~ keep h2 -> blen l < 2^32 ->
  let buf := HeapBuffer.mk (Some (next (mem s))) 0 (length l) in
  let s1 := set_mem (fresh_block (view s its) l) s in
  exists m2 r s',
    on_heap (HeapBuffer.from_slice l) s = Ret (buf, s1) /\ HeapBuffer.clone buf (mem s1) = Ret (buf, m2) /\
    submit new_msg send fd None buf (set_mem m2 s1) = Ret (r, s') /\
    evolves keep (view s its) (view s' (<[h := Buf buf]> its)) /\
    msgs s' = <[new_msg (msgs s) := false]> (msgs s) /\
    match r with
    | Ok id => id = new_msg (msgs s) /\ ur_inflight (os s') = <[id := mkSqe id send fd (buf_ptr buf) (length l) None]> (ur_inflight (os s))
    | Err _ => False
    end.
Proof.
  intros I Hh Hh2 Hne Hk Hk2 Hl buf s1. pose proof (evolves_new keep (view s its) h l I Hh Hk Hl) as V1.
  destruct (evolves_clone keep (mkState (mem s1) (<[h := Buf buf]> its)) h h2 buf) as (m2 & E2 & _ & V2); [apply V1|by cbn; rewrite lookup_insert_eq|by cbn; rewrite lookup_insert_ne|done|].
  exists m2. cbn [SgaHost.mem items] in E2, V2.
  destruct (submit_ok keep send fd buf h2 (<[h2 := Buf buf]> (<[h := Buf buf]> its)) (set_mem m2 s1)) as (r & s' & E3 & V3 & R).
  - apply V2.
  - by rewrite lookup_insert_eq.
  - done.
  - intros k y b Hy Hyb [= <-]. apply lookup_insert_Some in Hy as [[<- _]|[_ Hy]]; [done|]. apply lookup_insert_Some in Hy as [[<- _]|[_ Hy]]; [done|].
    pose proof (no_block_beyond (view s its) k y _ I Hy Hyb). cbn in *. lia.
  - exists r, s'. split; [done|]. split; [done|]. split; [done|]. split; [|done].
    rewrite delete_insert_id in V3 by (by rewrite lookup_insert_ne). by eapply evolves_trans, evolves_trans; [exact V1|exact V2|exact V3].
Qed.

(** What is received stays as it is. *)
Definition stable (st st' : host) : Prop :=
  forall h b, slots st !! h = Some (SBuf b) -> slots st' !! h = Some (SBuf b) /\ shows (mem (mach st')) (Buf b) = shows (mem (mach st)) (Buf b).

Lemma evolves_stable st s' its' rt' sl' :
  evolves (received (slots st)) (view (mach st) (omap slot_item (slots st))) (view s' its') ->
  (forall h b, slots st !! h = Some (SBuf b) -> sl' !! h = Some (SBuf b) /\ its' !! h = Some (Buf b)) ->
  stable st (mkHost s' rt' sl').
Proof.
  intros [_ K] Hsl h b Hb. destruct (Hsl h b Hb) as [Hs Hi]. split; [done|]. assert (Hk : received (slots st) h) by (by exists b).
  specialize (K h Hk). unfold contents, view in K. cbn [items SgaHost.mem] in K. rewrite Hi, lookup_omap, Hb in K. exact K.
Qed.

Lemma omap_slots (sl : gmap Z slot) h b : sl !! h = Some (SBuf b) -> omap slot_item sl !! h = Some (Buf b).
Proof. intros E. by rewrite lookup_omap, E. Qed.

Lemma completed_add r r0 r' q : add_pending r r0 = (r', q) -> r' = r /\ completed q = completed r0.
Proof. destruct r; cbn; by intros [= <- <-]. Qed.

Lemma push_issue_ok st h qd fd data :
  host_inv st -> blen data < 2^32 -> exists st', run (IPush h qd fd data) st = Ret st' /\ host_inv st' /\ stable st st'.
Proof.
  intros I Hl. cbn [run]. destruct (slots st !! h) eqn:Hh; [exists st; split; [done|]; split; [done|]; by intros ? ?|].
  destruct (slot_fresh _ _ Hh) as (Ho & Hr & h2 & Hne & Hh2 & Ho2 & Hr2). set (its := omap slot_item (slots st)) in *.
  destruct (submit_new (received (slots st)) true fd data h h2 its (mach st)) as (m2 & r & s' & E1 & E2 & E3 & V & Hm & Hf); try done; [apply I|].
  set (buf := HeapBuffer.mk _ _ _) in *. set (s1 := set_mem (fresh_block _ _) _) in *. rewrite E1. cbn [mbind outcome_bind]. unfold issue_push, runtime_push, IoUring_push.
  destruct (evolves_drop (received (slots st)) (view s' (<[h := Buf buf]> its)) h buf) as (m3 & E4 & V4); [apply V|by cbn; rewrite lookup_insert_eq|done|].
  cbn [view SgaHost.mem items] in E4, V4. rewrite delete_insert_id in V4 by done.
  assert (Vf : evolves (received (slots st)) (view (mach st) its) (view (set_mem m3 s') its)) by (by eapply evolves_trans).
  destruct (add_pending r (rt st)) as [r' q] eqn:Ea. destruct (completed_add _ _ _ _ Ea) as [-> Hc]. rewrite (hi_rt _ I) in Hc.
  assert (Erun : (copy ← on_heap (HeapBuffer.clone buf); '(r, rt) ← (r ← submit new_msg true fd None copy; mret (add_pending r (rt st)));
      _ ← on_heap (HeapBuffer.drop buf); mret (match r with Ok id => Ok (mkPush rt qd id) | Err e => Err e end, rt)) s1
    = Ret ((match r with Ok id => Ok (mkPush q qd id) | Err e => Err e end, q), set_mem m3 s')).
  { unfold mbind, U_bind, on_heap. rewrite E2, E3. unfold mret, U_ret. rewrite Ea, E4. done. }
  rewrite Erun. cbn [mbind outcome_bind]. eexists. split; [reflexivity|]. split.
  - destruct r as [id|e]; [|done].
    + destruct Hf as [Hid Hf]. assert (Eo : omap slot_item (<[h := SPush (mkPush q qd id)]> (slots st)) = its).
      { unfold its. apply map_eq. intros k. rewrite !lookup_omap. destruct (decide (h = k)) as [<-|]; [by rewrite lookup_insert_eq, Hh|by rewrite lookup_insert_ne]. }
      apply (inv_issued st h (SPush (mkPush q qd id)) id (mkSqe id true fd (buf_ptr buf) (length data) None)); rewrite ?Eo; try done; [by cbn; rewrite Hm, Hid|apply Vf|apply (hi_sep _ I)].
  - eapply evolves_stable; [exact Vf|]. intros k b Hb. split; [|by apply omap_slots]. destruct r; [|done]. rewrite lookup_insert_ne; [done|]. congruence.
Qed.

Lemma pop_issue_ok st h qd fd :
  host_inv st -> exists st', run (IPop h qd fd) st = Ret st' /\ host_inv st' /\ stable st st'.
Proof.
  intros I. cbn [run]. destruct (slots st !! h) eqn:Hh; [exists st; split; [done|]; split; [done|]; by intros ? ?|].
  destruct (slot_fresh _ _ Hh) as (Ho & Hr & h2 & Hne & Hh2 & Ho2 & Hr2). set (its := omap slot_item (slots st)) in *.
  assert (Hl : blen (replicate CATCOLLAR_RECVBUF_SIZE 0) < 2^32) by (rewrite replicate_blen; apply recvbuf_size).
  destruct (submit_new (received (slots st)) false fd (replicate CATCOLLAR_RECVBUF_SIZE 0) h h2 its (mach st)) as (m2 & r & s' & E1 & E2 & E3 & V & Hm & Hf); [apply I|exact Ho|exact Ho2|by intros ->|exact Hr|exact Hr2|exact Hl|].
  rewrite length_replicate in *. set (buf := HeapBuffer.mk _ _ _) in *. set (s1 := set_mem (fresh_block _ _) _) in *.
  assert (En : on_heap (HeapBuffer.new CATCOLLAR_RECVBUF_SIZE) (mach st) = Ret (Ok buf, s1)).
  { unfold HeapBuffer.new. by rewrite (proj2 (Nat.eqb_neq CATCOLLAR_RECVBUF_SIZE 0)) by apply recvbuf_size. }
  destruct (add_pending r (rt st)) as [r' q] eqn:Ea. destruct (completed_add _ _ _ _ Ea) as [-> Hc]. rewrite (hi_rt _ I) in Hc.
  assert (Erun : issue_pop new_msg qd fd (rt st) (mach st) =
    match r with
    | Ok id => Ret ((Ok (mkPop q qd buf id), q), s')
    | Err e => (_ ← on_heap (HeapBuffer.drop buf); mret (Err e, q)) s'
    end).
  { unfold issue_pop, runtime_pop, IoUring_pop, mbind, U_bind. rewrite En. unfold on_heap at 1. rewrite E2, E3. unfold mret at 1, U_ret at 1. rewrite Ea. by destruct r. }
  rewrite Erun. clear Erun. destruct r as [id|e]; [|done].
  - destruct Hf as [Hid Hf]. cbn. eexists. split; [reflexivity|].
    assert (Eo : omap slot_item (<[h := SPop (mkPop q qd buf id)]> (slots st)) = <[h := Buf buf]> its).
    { unfold its. apply map_eq. intros k. rewrite !lookup_omap. destruct (decide (h = k)) as [<-|]; [by rewrite !lookup_insert_eq|by rewrite !lookup_insert_ne, lookup_omap]. }
    split.
    + apply (inv_issued st h (SPop (mkPop q qd buf id)) id (mkSqe id false fd (buf_ptr buf) CATCOLLAR_RECVBUF_SIZE None)); rewrite ?Eo; [exact I|exact Hh|reflexivity|exact Hid|exact Hc|exact Hc|split; [done|split; reflexivity]|by rewrite Hm, Hid|exact Hf|apply V|].
      assert (Hold : forall k y, its !! k = Some y -> block_of y <> Some (next (mem (mach st)))).
      { intros k y Hy Hyb. pose proof (no_block_beyond (view (mach st) its) k y _ (hi_heap _ I) Hy Hyb). cbn in *. lia. }
      intros k k' y y' b [[<- <-]|[_ Hk]]%lookup_insert_Some [[<- <-]|[_ Hk']]%lookup_insert_Some Hy Hy'; [done| | |by eapply (hi_sep _ I)].
      * injection Hy as <-. by destruct (Hold k' y').
      * injection Hy' as <-. by destruct (Hold k y).
    + eapply evolves_stable; [exact V|]. intros k b Hb. assert (h <> k) by congruence. rewrite !lookup_insert_ne by done. split; [done|by apply omap_slots].
Qed.

(** ** Polling *)

#[local] Abbreviation items_of st := (omap slot_item (slots st)).

Lemma wait_ok st :
  host_inv st ->
  match IoUring_wait (mach st) with
  | Ret (r, s') =>
      evolves (received (slots st)) (view (mach st) (items_of st)) (view s' (items_of st)) /\ msgs s' = msgs (mach st) /\
      match r with
      | Ok (d, res) => exists q, ur_inflight (os (mach st)) !! d = Some q /\ ur_inflight (os s') = delete d (ur_inflight (os (mach st))) /\ res <= Z.of_nat (sqe_len q)
      | Err e => errno e = EAGAIN /\ ur_inflight (os s') = ur_inflight (os (mach st))
      end
  | Panic _ => False
  | Diverge => ur_inflight (os (mach st)) = ∅
  end.
Proof.
  intros I. unfold IoUring_wait. destruct (ur_wait_cqe (os (mach st))) as [[[r xs] o]|] eqn:E; [|by apply ur_wait_blocks].
  pose proof (ur_wait_accesses _ _ _ _ E) as Ha. pose proof (ur_no_late_read _ _ _ _ E) as Hr.
  destruct (evolves_accesses (received (slots st)) (view (mach st) (items_of st)) xs (hi_heap _ I)) as (m1 & E1 & V1).
  { rewrite Forall_forall in Ha, Hr |- *. intros x Hx. specialize (Hr x Hx). destruct x as [|p l|]; [done| |done]. destruct (Ha _ Hx) as (d & q & Hq & Hs & -> & Hl).
    destruct (hi_flight _ I d q Hq) as (h & y & Hy & _ & Hreq). destruct y as [f|f|b]; cbn in Hreq; [congruence| |done]. destruct Hreq as (_ & Hp & Hlen).
    assert (Hit : items_of st !! h = Some (Buf (po_buf f))) by (by rewrite lookup_omap, Hy).
    exists h, (po_buf f). split; [done|]. split; [done|]. split; [lia|]. intros k z b Hz Hzb Hb [b' Hk].
    assert (k = h) as -> by (by eapply (hi_sep _ I); [exact Hz|exact Hit|exact Hzb|]). congruence. }
  unfold mbind, U_bind. rewrite perform_all_heap by (eapply Forall_impl; [exact Hr|]; by intros []).
  unfold on_heap. cbn [set_os mem view SgaHost.mem] in *. rewrite E1. cbn. split; [done|]. split; [done|]. destruct r as [[d res]|e].
  - by apply (ur_wait_done _ _ _ _ _ E).
  - split; [by eapply ur_only_again|by eapply ur_wait_failed].
Qed.

Lemma peek_ok st h x id :
  host_inv st -> slots st !! h = Some x -> slot_id x = Some id ->
  match peek id (slot_rt x) (mach st) with
  | Ret ((r, rt'), s') =>
      evolves (received (slots st)) (view (mach st) (items_of st)) (view s' (items_of st)) /\ completed rt' !! id = None /\
      match r with
      | Ok None => msgs s' = msgs (mach st) /\ forall d q, ur_inflight (os s') !! d = Some q -> ur_inflight (os (mach st)) !! d = Some q
      | Ok (Some size) => msgs s' = delete id (msgs (mach st)) /\ ur_inflight (os s') = delete id (ur_inflight (os (mach st))) /\
          exists q, request_of x q /\ size <= Z.of_nat (sqe_len q)
      | Err _ => False
      end
  | Panic _ => False
  | Diverge => ur_inflight (os (mach st)) = ∅
  end.
Proof.
  intros I Hx Hid. pose proof (hi_own _ I h x id Hx Hid) as Hc. pose proof (wait_ok st I) as W. unfold peek. rewrite Hc. unfold mbind, U_bind.
  destruct (IoUring_wait (mach st)) as [[r s']| |]; [|done|done]. destruct W as (V & Hm & Hr). destruct r as [[d res]|e].
  - destruct Hr as (q & Hq & Hd & Hres). destruct (Z.eqb_spec id d) as [<-|Hne]; cbn [negb].
    + unfold take_msg. rewrite Hm, (hi_msg _ I h x id Hx Hid). cbn. split; [done|]. split; [done|]. split; [done|]. split; [done|].
      exists q. split; [|done]. destruct (hi_flight _ I id q Hq) as (h' & x' & Hx' & Hid' & Hreq).
      assert (h' = h) as -> by (by eapply (hi_ids _ I)). congruence.
    + cbn. split; [done|]. split.
      * destruct (decide (d ∈ pending (slot_rt x))); [cbn; by rewrite lookup_insert_ne|done].
      * split; [done|]. rewrite Hd. by intros d' q' [_ ?]%lookup_delete_Some.
  - destruct Hr as [He Hf]. cbn. rewrite He, Z.eqb_refl. split; [done|]. split; [done|]. split; [done|]. by rewrite Hf.
Qed.

(** The state when a future stays, and when it is gone. *)
Lemma inv_repolled st h x x' s' :
  host_inv st -> slots st !! h = Some x -> slot_id x' = slot_id x -> slot_item x' = slot_item x ->
  (forall q, request_of x q -> request_of x' q) ->
  (forall id, slot_id x = Some id -> completed (slot_rt x') !! id = None) ->
  msgs s' = msgs (mach st) -> (forall d q, ur_inflight (os s') !! d = Some q -> ur_inflight (os (mach st)) !! d = Some q) ->
  inv (view s' (items_of st)) -> host_inv (mkHost s' (rt st) (<[h := x']> (slots st))).
Proof.
  intros [] Hx Hid Hit Hreq Hown Hm Hf Hi. assert (Eo : omap slot_item (<[h := x']> (slots st)) = items_of st).
  { apply map_eq. intros k. rewrite !lookup_omap. destruct (decide (h = k)) as [<-|]; [by rewrite lookup_insert_eq, Hx|by rewrite lookup_insert_ne]. }
  assert (Hold : forall k y, <[h := x']> (slots st) !! k = Some y -> exists y', slots st !! k = Some y' /\ slot_id y = slot_id y').
  { intros k y [[<- <-]|[_ Hk]]%lookup_insert_Some; [by exists x|by exists y]. }
  split; cbn [mach rt slots]; rewrite ?Eo; try done.
  - intros k y id (y' & Hy & Ey)%Hold Hk. rewrite Hm. apply (hi_msg0 k y' id); [done|congruence].
  - intros k k' y y' id (z & Hz & Ez)%Hold (z' & Hz' & Ez')%Hold H1 H2. apply (hi_ids0 k k' z z' id); congruence.
  - intros d q Hd. destruct (hi_flight0 d q (Hf d q Hd)) as (k & y & Hy & Hk & Hr). destruct (decide (h = k)) as [<-|Hne].
    + exists h, x'. rewrite lookup_insert_eq. assert (y = x) as -> by congruence. split; [done|]. split; [congruence|by apply Hreq].
    + exists k, y. by rewrite lookup_insert_ne.
  - intros k y id [[<- <-]|[_ Hk]]%lookup_insert_Some Hy; [apply Hown; congruence|by eapply hi_own0].
Qed.

Lemma inv_finished st h x id o s' :
  host_inv st -> slots st !! h = Some x -> slot_id x = Some id ->
  msgs s' = delete id (msgs (mach st)) -> ur_inflight (os s') = delete id (ur_inflight (os (mach st))) ->
  (forall b, o = Some b -> exists f, x = SPop f /\ HeapBuffer.data b = HeapBuffer.data (po_buf f)) ->
  let sl' := match o with Some b => <[h := SBuf b]> (slots st) | None => delete h (slots st) end in
  inv (view s' (omap slot_item sl')) -> host_inv (mkHost s' (rt st) sl').
Proof.
  intros [] Hx Hid Hm Hf Ho sl' Hi.
  assert (Hold : forall k y i, sl' !! k = Some y -> slot_id y = Some i -> k <> h /\ slots st !! k = Some y).
  { intros k y i. unfold sl'. destruct o as [b|].
    - by intros [[<- <-]|[? Hk]]%lookup_insert_Some.
    - by intros [? Hk]%lookup_delete_Some. }
  assert (Hblk : forall k y b, omap slot_item sl' !! k = Some y -> block_of y = Some b -> exists y', items_of st !! k = Some y' /\ block_of y' = Some b).
  { intros k y b. rewrite !lookup_omap. unfold sl'. destruct o as [b0|].
    - destruct (decide (h = k)) as [<-|]; [|rewrite lookup_insert_ne by done; by exists y]. rewrite lookup_insert_eq. cbn. intros [= <-] Hb.
      destruct (Ho b0 eq_refl) as (f & -> & Ed). rewrite Hx. cbn. eexists. split; [done|]. cbn in *. congruence.
    - destruct (decide (h = k)) as [<-|]; [by rewrite lookup_delete_eq|rewrite lookup_delete_ne by done; by exists y]. }
  split; cbn [mach rt slots]; try done.
  - intros k k' y y' b Hk Hk' Hb Hb'. destruct (Hblk k y b Hk Hb) as (z & Hz & Ez). destruct (Hblk k' y' b Hk' Hb') as (z' & Hz' & Ez'). by apply (hi_sep0 k k' z z' b).
  - intros k y i Hk Hy. destruct (Hold k y i Hk Hy) as [Hne Hk']. rewrite Hm, lookup_delete_ne; [by eapply hi_msg0|]. intros <-. by destruct Hne; apply (hi_ids0 k h y x id).
  - intros k k' y y' i Hk Hk' Hy Hy'. destruct (Hold k y i Hk Hy) as [_ ?]. destruct (Hold k' y' i Hk' Hy') as [_ ?]. by apply (hi_ids0 k k' y y' i).
  - intros d q. rewrite Hf. intros [Hne Hd]%lookup_delete_Some. destruct (hi_flight0 d q Hd) as (k & y & Hy & Hk & Hr). exists k, y. split; [|done].
    assert (h <> k) by congruence. unfold sl'. destruct o; [by rewrite lookup_insert_ne|by rewrite lookup_delete_ne].
  - intros k y i Hk Hy. destruct (Hold k y i Hk Hy) as [_ ?]. by apply (hi_own0 k y i).
Qed.

Definition handled (e : event) (st : host) : Prop :=
  match run e st with
  | Ret st' => host_inv st' /\ forall h b, e <> Drop h -> slots st !! h = Some (SBuf b) ->
      slots st' !! h = Some (SBuf b) /\ shows (mem (mach st')) (Buf b) = shows (mem (mach st)) (Buf b)
  | Panic _ => False
  | Diverge => (exists h, e = Poll h) /\ ur_inflight (os (mach st)) = ∅
  end.

Lemma delete_items st h : omap slot_item (delete h (slots st)) = delete h (items_of st).
Proof. apply map_eq. intros k. rewrite lookup_omap. destruct (decide (h = k)) as [<-|]; [by rewrite !lookup_delete_eq|by rewrite !lookup_delete_ne, lookup_omap]. Qed.

Lemma push_polled_ok st h f : host_inv st -> slots st !! h = Some (SPush f) -> handled (Poll h) st.
Proof.
  intros I Hx. unfold handled. cbn [run]. rewrite Hx. cbn [poll_slot]. pose proof (peek_ok st h (SPush f) (pu_id f) I Hx eq_refl) as P. cbn [slot_rt] in P.
  unfold poll_push, mbind at 2, U_bind. destruct (peek (pu_id f) (pu_rt f) (mach st)) as [[[r rt'] s']| |]; [|done|by split; [exists h|]].
  destruct P as (V & Hc & Hr). destruct r as [[size|]|e]; [| |done].
  - destruct Hr as (Hm & Hf & _).
    assert (Hfin : host_inv (mkHost s' (rt st) (delete h (slots st)))).
    { apply (inv_finished st h (SPush f) (pu_id f) None); try done. rewrite delete_items, delete_id by (by rewrite lookup_omap, Hx). apply V. }
    assert (Hst : stable st (mkHost s' (rt st) (delete h (slots st)))).
    { eapply evolves_stable; [exact V|]. intros k b Hb. split; [rewrite lookup_delete_ne; [done|congruence]|by apply omap_slots]. }
    destruct (0 <=? size); cbn; (split; [done|]; intros k b _; apply Hst).
  - destruct Hr as [Hm Hf]. cbn. split.
    + eapply inv_repolled; [exact I|exact Hx|done|done|done| |done|done|apply V]. by intros id [= <-].
    + intros k b _. assert (Hst : stable st (mkHost s' (rt st) (<[h := SPush (mkPush rt' (pu_qd f) (pu_id f))]> (slots st)))); [|apply Hst].
      eapply evolves_stable; [exact V|]. intros k' b' Hb. split; [rewrite lookup_insert_ne; [done|congruence]|by apply omap_slots].
Qed.

(** The buffer of a pop is handed over: cloned, trimmed, and the original dropped. *)
Lemma hand_over its h d n s :
  inv (view s its) -> its !! h = Some (Buf d) -> (n <= HeapBuffer.len d)%nat ->
  let d' := HeapBuffer.mk (HeapBuffer.data d) (HeapBuffer.offset d) (HeapBuffer.len d - n) in
  (exists m1, HeapBuffer.clone d (mem s) = Ret (d, m1) /\ HeapBuffer.trim d n m1 = Ret (d', m1) /\ HeapBuffer.drop d m1 = Ret (tt, mem s)) /\
  inv (view s (<[h := Buf d']> its)) /\ others (eq h) (view s its) (view s (<[h := Buf d']> its)).
Proof.
  intros I Hh Hn d'. pose proof (i_range _ I h _ Hh) as Hr. cbn in Hr. split.
  - assert (Ht : forall m, HeapBuffer.trim d n m = Ret (d', m)) by (intros m; unfold HeapBuffer.trim; by rewrite (proj2 (Nat.ltb_ge _ _)) by done).
    unfold HeapBuffer.clone, HeapBuffer.drop. destruct (HeapBuffer.data d) as [b|]; [|by exists (mem s)].
    destruct Hr as (blk & Hb & _ & _). destruct (i_count _ I b blk Hb) as [_ Hp]. pose proof (clone_then_drop _ _ _ Hb Hp) as E. unfold mbind, M_bind in *. cbn [view SgaHost.mem] in E.
    destruct (Arc.clone b (mem s)) as [[[] m]| |]; try done. by exists m.
  - apply (inv_replace (view s its) h (Buf d) (Buf d')); [done|done|done|]. cbn. destruct (HeapBuffer.data d); [|lia]. destruct Hr as (blk & Hb & Hle & H32). exists blk. split; [done|]. split; [lia|done].
Qed.

Lemma poll_pop_peek (f : PopFuture) (s : machine) :
  poll_pop f s =
  match peek (po_id f) (po_rt f) s with
  | Ret ((r, rt), s') =>
      let f := mkPop rt (po_qd f) (po_buf f) (po_id f) in
      match r with
      | Ok (Some size) =>
          if 0 <=? size then
            match HeapBuffer.clone (po_buf f) (mem s') with
            | Ret (c, m1) =>
                match HeapBuffer.trim c (Z.to_nat (wrap64 (Z.of_nat (HeapBuffer.len (po_buf f)) - size))) m1 with
                | Ret (b, m2) => Ret ((Some (Ok b), f), set_mem m2 s')
                | Panic msg => Panic msg
                | Diverge => Diverge
                end
            | Panic msg => Panic msg
            | Diverge => Diverge
            end
          else Ret ((Some (Err (mkFail (- size) "I/O error")), f), s')
      | Ok None => Ret ((None, f), s')
      | Err e => Ret ((Some (Err e), f), s')
      end
  | Panic msg => Panic msg
  | Diverge => Diverge
  end.
Proof.
  unfold poll_pop, mbind, U_bind. destruct (peek (po_id f) (po_rt f) s) as [[[r rt'] s']| |]; [|done|done]. destruct r as [[size|]|e]; [|done|done]. cbn [po_buf].
  destruct (0 <=? size); [|done]. unfold on_heap. destruct (HeapBuffer.clone (po_buf f) (mem s')) as [[c m1]| |]; [|done|done]. cbn [set_mem mem].
  by destruct (HeapBuffer.trim c _ m1) as [[b m2]| |].
Qed.

Lemma pop_polled_ok st h f : host_inv st -> slots st !! h = Some (SPop f) -> handled (Poll h) st.
Proof.
  intros I Hx. unfold handled. cbn [run]. rewrite Hx. cbn [poll_slot]. pose proof (peek_ok st h (SPop f) (po_id f) I Hx eq_refl) as P. cbn [slot_rt] in P.
  assert (Hit : items_of st !! h = Some (Buf (po_buf f))) by (by rewrite lookup_omap, Hx). assert (Hnk : ~ received (slots st) h) by (intros [b Hb]; congruence).
  rewrite poll_pop_peek. destruct (peek (po_id f) (po_rt f) (mach st)) as [[[r rt'] s']| |]; [|done|by split; [exists h|]].
  destruct P as (V & Hc & Hr). destruct r as [[size|]|e]; [| |done]; cbn [po_buf].
  - destruct Hr as (Hm & Hf & q & (_ & _ & Hq) & Hs). destruct (Z.leb_spec 0 size) as [Hz|Hz].
    + rewrite Hq in Hs. assert (Hlen : Z.of_nat (HeapBuffer.len (po_buf f)) < 2^32).
      { pose proof (i_range _ (proj1 V) h _ Hit) as Hr. cbn in Hr. destruct (HeapBuffer.data (po_buf f)); [|rewrite Hr; done]. destruct Hr as (blk & _ & Hle & H32). unfold blen in H32. lia. }
      set (n := Z.to_nat (wrap64 _)). assert (Hn : (n <= HeapBuffer.len (po_buf f))%nat) by (unfold n, wrap64; rewrite Z.mod_small by lia; lia).
      destruct (hand_over (items_of st) h (po_buf f) n s' (proj1 V) Hit Hn) as ((m1 & E1 & E2 & E3) & I' & O'). set (d' := HeapBuffer.mk _ _ _) in *.
      rewrite E1, E2. unfold mbind, outcome_bind, on_heap. cbn [set_mem mem po_buf]. rewrite E3. replace (set_mem (mem s') (set_mem m1 s')) with s' by (by destruct s').
      assert (Eo : omap slot_item (<[h := SBuf d']> (slots st)) = <[h := Buf d']> (items_of st)).
      { apply map_eq. intros k. rewrite lookup_omap. destruct (decide (h = k)) as [<-|]; [by rewrite !lookup_insert_eq|by rewrite !lookup_insert_ne, lookup_omap]. }
      split.
      * apply (inv_finished st h (SPop f) (po_id f) (Some d')); try done; [by intros b [= <-]; exists f|]. by rewrite Eo.
      * intros k b _ Hb. assert (Hst : stable st (mkHost s' (rt st) (<[h := SBuf d']> (slots st)))); [|by apply Hst].
        eapply evolves_stable; [exact (evolves_trans _ _ _ _ V (evolves_others _ _ _ h I' O' Hnk))|]. intros k' b' Hb'. assert (h <> k') by congruence.
        rewrite !lookup_insert_ne by done. split; [done|by apply omap_slots].
    + cbn. destruct (evolves_drop (received (slots st)) (view s' (items_of st)) h (po_buf f)) as (m1 & E1 & V1); [apply V|done|done|]. unfold on_heap. cbn [view SgaHost.mem] in E1. rewrite E1. cbn.
      pose proof (evolves_trans _ _ _ _ V V1) as V2. split.
      * apply (inv_finished st h (SPop f) (po_id f) None); try done. rewrite delete_items. apply V1.
      * intros k b _ Hb. assert (Hst : stable st (mkHost (set_mem m1 s') (rt st) (delete h (slots st)))); [|by apply Hst].
        eapply evolves_stable; [exact V2|]. intros k' b' Hb'. assert (h <> k') by congruence. cbn. rewrite !lookup_delete_ne by done. split; [done|by apply omap_slots].
  - destruct Hr as [Hm Hf]. cbn. split.
    + eapply inv_repolled; [exact I|exact Hx|done|done|done| |done|done|apply V]. by intros id [= <-].
    + intros k b _ Hb. assert (Hst : stable st (mkHost s' (rt st) (<[h := SPop (mkPop rt' (po_qd f) (po_buf f) (po_id f))]> (slots st)))); [|by apply Hst].
      eapply evolves_stable; [exact V|]. intros k' b' Hb'. split; [rewrite lookup_insert_ne; [done|congruence]|by apply omap_slots].
Qed.

Lemma buffer_drop_ok st h : host_inv st -> handled (Drop h) st.
Proof.
  intros I. unfold handled. cbn [run]. destruct (slots st !! h) as [[f|f|b]|] eqn:Hx; try (split; [done|by intros ? ? _ ?]).
  destruct (evolves_drop (fun k => received (slots st) k /\ k <> h) (view (mach st) (items_of st)) h b) as (m1 & E1 & I1 & K1); [apply I|by cbn; rewrite lookup_omap, Hx|by intros [_ ?]|].
  unfold on_heap. cbn [view SgaHost.mem] in E1. rewrite E1. cbn. cbn [view items SgaHost.mem] in I1, K1. rewrite <- delete_items in I1. split.
  - assert (Hold : forall k y, delete h (slots st) !! k = Some y -> slots st !! k = Some y) by (by intros k y [_ ?]%lookup_delete_Some).
    assert (Holdi : forall k y, omap slot_item (delete h (slots st)) !! k = Some y -> items_of st !! k = Some y).
    { intros k y. rewrite delete_items. by intros [_ ?]%lookup_delete_Some. }
    destruct I. split; cbn [mach rt slots set_mem msgs os]; try done.
    + intros k k' y y' b' Hk%Holdi Hk'%Holdi. by eapply hi_sep0.
    + intros k y id Hk%Hold. by eapply hi_msg0.
    + intros k k' y y' id Hk%Hold Hk'%Hold. by eapply hi_ids0.
    + intros d q Hd. destruct (hi_flight0 d q Hd) as (k & y & Hy & Hid & Hr). exists k, y. split; [|done]. rewrite lookup_delete_ne; [done|]. intros <-. rewrite Hx in Hy. by injection Hy as <-.
    + intros k y id Hk%Hold. by eapply hi_own0.
  - intros k b' Hne Hb. assert (h <> k) by congruence. split; [by rewrite lookup_delete_ne|].
    assert (Hk : received (slots st) k /\ k <> h) by (split; [by exists b'|done]). specialize (K1 k Hk). unfold contents, view in K1. cbn [items SgaHost.mem] in K1.
    rewrite lookup_delete_ne, (omap_slots _ _ b' Hb) in K1 by done. exact K1.
Qed.

Definition sizes_ok (e : event) : Prop := match e with IPush _ _ _ data => blen data < 2^32 | _ => True end.

Lemma cc_handled_all e st : host_inv st -> sizes_ok e -> handled e st.
Proof.
  intros I Hs. destruct e as [h qd fd data|h qd fd|h|h].
  - unfold handled. destruct (push_issue_ok st h qd fd data I Hs) as (st' & -> & I' & S'). split; [done|]. intros k b _. apply S'.
  - unfold handled. destruct (pop_issue_ok st h qd fd I) as (st' & -> & I' & S'). split; [done|]. intros k b _. apply S'.
  - destruct (slots st !! h) as [[f|f|b]|] eqn:Hx; [by apply (push_polled_ok st h f)|by apply (pop_polled_ok st h f)| |]; unfold handled; cbn [run]; rewrite Hx; by split.
  - by apply buffer_drop_ok.
Qed.

Inductive reachable : host -> Prop :=
| reach_new o : ur_inflight o = ∅ -> reachable (mkHost (mkMachine (mkHeap ∅ 0) ∅ ∅ o) runtime_new ∅)
| reach_step st e st' : reachable st -> sizes_ok e -> run e st = Ret st' -> reachable st'.

Lemma catcollar_reachable_inv st : reachable st -> host_inv st.
Proof.
  induction 1 as [o Ho|st e st' _ IH Hs Hr].
  - split; cbn; try done; rewrite ?Ho; intros; simplify_map_eq. split; cbn; intros; simplify_map_eq. by match goal with E : is_Some None |- _ => destruct E end.
  - pose proof (cc_handled_all e st IH Hs) as Hh. unfold handled in Hh. rewrite Hr in Hh. apply Hh.
Qed.

(** Catcollar's requests never touch released memory with a kernel as [UringPrompt] describes it.
    In every state that issuing, polling and dropping reach: every
    block of the heap has exactly one holder, a pending pop or a received buffer; every request in
    flight belongs to a live future, whose message is allocated.  Every further event returns
    without a panic or an access to released memory and leaves the bytes of the received buffers as
    they are; a poll hangs only if nothing is in flight, that is, when another future has taken its
    completion. *)
Theorem catcollar_is_safe st (Hst : reachable st) :
  host_inv st /\
  forall e, sizes_ok e ->
    (exists st', run e st = Ret st' /\ reachable st' /\
      forall h b, e <> Drop h -> slots st !! h = Some (SBuf b) ->
        slots st' !! h = Some (SBuf b) /\ shows (mem (mach st')) (Buf b) = shows (mem (mach st)) (Buf b)) \/
    (run e st = Diverge /\ (exists h, e = Poll h) /\ ur_inflight (os (mach st)) = ∅).
Proof.
  pose proof (catcollar_reachable_inv st Hst) as I. split; [done|]. intros e Hs. pose proof (cc_handled_all e st I Hs) as Hh. unfold handled in Hh.
  destruct (run e st) as [st'|msg|] eqn:E; [|done|by right]. left. exists st'. split; [done|]. split; [by eapply reach_step|apply Hh].
Qed.

End host.
End CatcollarHost.

(** ** Kernels *)

(** Requests complete in an order the program does not know; a receive gets five bytes.  [late]: the bytes of a send
    are read when it completes.  [late_header]: so is the header of a message.  [interrupted]: the next wait is.
    [refused]: the next submission fails, and its entry is taken with the one after it. *)
Module SimRing.
Import CatcollarHost Catcollar.

Record t := mk { late : bool; late_header : bool; interrupted : bool; refused : bool; flight : gmap Z sqe }.

Definition result (q : sqe) : Z := if sqe_send q then Z.of_nat (sqe_len q) else Z.of_nat (length (take (sqe_len q) [1; 2; 3; 4; 5])).
Definition transfer (q : sqe) : list access := if sqe_send q then [] else [KWrite (sqe_ptr q) (take (sqe_len q) [1; 2; 3; 4; 5])].
Definition reads (q : sqe) : list access := if sqe_send q then [KRead (sqe_ptr q) (sqe_len q)] else [].
Definition header (q : sqe) : list access := [KHeader (sqe_data q)].

Definition EINTR : Z := 4.

#[export] Instance ring : Uring t := {
  ur_get_sqe s := (true, s);
  ur_submit q s :=
    (if refused s then 0 else 1, if refused s then [] else (if late_header s then [] else header q) ++ (if late s then [] else reads q),
     mk (late s) (late_header s) (interrupted s) false (<[sqe_data q := q]> (flight s)));
  ur_wait_cqe s :=
    match map_to_list (flight s) with
    | [] => None
    | (d, q) :: _ =>
        if interrupted s then Some (IoErr EINTR, [], mk (late s) (late_header s) false (refused s) (flight s))
        else Some (IoOk (d, result q), (if late_header s then header q else []) ++ transfer q ++ (if late s then reads q else []),
                   mk (late s) (late_header s) false (refused s) (delete d (flight s)))
    end;
  ur_inflight := flight
}.

Lemma reads_allowed q : Forall (allowed q) (reads q).
Proof. unfold reads. destruct (sqe_send q) eqn:E; [|done]. by repeat constructor. Qed.

Lemma transfer_allowed q : Forall (allowed q) (transfer q).
Proof. unfold transfer. destruct (sqe_send q) eqn:E; [done|]. repeat constructor; [done|]. rewrite length_take. lia. Qed.

Lemma header_allowed q : Forall (allowed q) (header q).
Proof. by repeat constructor. Qed.

#[export] Instance ring_laws : UringLaws t.
Proof.
  assert (Hhd : forall s d q l, map_to_list (flight s) = (d, q) :: l -> flight s !! d = Some q).
  { intros s d q l E. apply elem_of_map_to_list. rewrite E. by left. }
  split; cbn.
  - done.
  - intros q s r xs s' [= <- <- <-]. by left.
  - intros q s r xs s' [= <- <- <-]. destruct (refused s); [done|]. apply Forall_app. split.
    + destruct (late_header s); [done|apply header_allowed].
    + destruct (late s); [done|apply reads_allowed].
  - intros s d res xs s'. destruct (map_to_list (flight s)) as [|[d' q] l] eqn:E; [done|]. destruct (interrupted s); [done|]. intros [= <- <- <- <-].
    exists q. split; [by eapply Hhd|]. split; [done|]. unfold result. destruct (sqe_send q); [done|]. rewrite length_take. lia.
  - intros s e xs s'. destruct (map_to_list (flight s)) as [|[d' q] l] eqn:E; [done|]. destruct (interrupted s); [|done]. by intros [= <- <- <-].
  - intros s r xs s'. destruct (map_to_list (flight s)) as [|[d' q] l] eqn:E; [done|]. destruct (interrupted s); intros [= <- <- <-]; [done|].
    assert (Hall : Forall (allowed q) ((if late_header s then header q else []) ++ transfer q ++ (if late s then reads q else []))).
    { rewrite !Forall_app. split; [destruct (late_header s); [apply header_allowed|done]|]. split; [apply transfer_allowed|].
      destruct (late s); [apply reads_allowed|done]. }
    eapply Forall_impl; [exact Hall|]. intros x Hx. exists d', q. split; [by eapply Hhd|done].
  - intros s. destruct (map_to_list (flight s)) as [|[d' q] l] eqn:E; [|by destruct (interrupted s)]. intros _. by apply map_to_list_empty_iff.
Qed.

Definition key (m : gmap Z bool) : Z := fresh (dom m).

Lemma msg_key_fresh m : m !! key m = None.
Proof. apply not_elem_of_dom. exact (is_fresh (dom m)). Qed.

Definition start (late late_header interrupted refused : bool) : host (OS := t) :=
  mkHost (mkMachine (mkHeap ∅ 0) ∅ ∅ (mk late late_header interrupted refused ∅)) runtime_new ∅.

Fixpoint runs (es : list event) (st : host (OS := t)) : outcome host :=
  match es with
  | [] => Ret st
  | e :: es => st' ← run key e st; runs es st'
  end.

(** A push whose bytes are read late is read after its buffer has been released. *)
Example late_read_uses_freed : exists msg, runs [IPush 1 0 3 [7; 8]; Poll 1] (start true false false false) = Panic msg.
Proof. by eexists; vm_compute. Qed.

(** So is the vector of a message whose header is read late: it was freed when the call returned. *)
Example late_header_uses_freed : exists msg, runs [IPop 1 0 3; Poll 1] (start false true false false) = Panic msg.
Proof. by eexists; vm_compute. Qed.

(** A pop whose submission fails releases its buffer, but its entry is still in the queue: the kernel
    writes to the buffer when another future waits. *)
Example failed_pop_uses_freed :
  exists msg, runs [IPop 1 0 3; IPush 2 0 3 [7; 8]; IPush 3 0 3 [9]; Poll 2; Poll 3; Poll 3] (start false false false true) = Panic msg.
Proof. by eexists; vm_compute. Qed.

(** A pop that is interrupted releases its buffer, and the kernel writes to it when another future
    waits. *)
Example interrupted_pop_uses_freed : exists msg, runs [IPush 1 0 3 [7; 8]; IPop 2 0 3; Poll 2; Poll 1] (start false false true false) = Panic msg.
Proof. by eexists; vm_compute. Qed.

(** A future that takes the completion of another keeps it to itself: the other waits for ever. *)
Example lost_completion : runs [IPush 1 0 3 [7; 8]; IPop 2 0 3; Poll 1; Poll 1; Poll 2] (start false false false false) = Diverge.
Proof. by vm_compute. Qed.

(** A pushto ends by reading an address that is gone. *)
Example pushto_reads_dead_stack :
  let addr := mkAddr 1 53 in
  match on_heap (HeapBuffer.from_slice [7; 8]) (mach (start false false false false)) with
  | Ret (buf, s) =>
      match issue_pushto key 0 3 addr buf runtime_new s with
      | Ret ((Ok f, _), s) => exists msg, poll_pushto f s = Panic msg
      | _ => False
      end
  | _ => False
  end.
Proof. vm_compute. by eexists. Qed.

End SimRing.

(** A kernel without delays and interruptions. *)
Module PromptRing.
Import CatcollarHost Catcollar.

Record t := mk { flight : gmap Z sqe }.

#[export] Instance ring : Uring t := {
  ur_get_sqe s := (true, s);
  ur_submit q s := (1, SimRing.header q ++ SimRing.reads q, mk (<[sqe_data q := q]> (flight s)));
  ur_wait_cqe s :=
    match map_to_list (flight s) with
    | [] => None
    | (d, q) :: _ => Some (IoOk (d, SimRing.result q), SimRing.transfer q, mk (delete d (flight s)))
    end;
  ur_inflight := flight
}.

#[export] Instance ring_laws : UringLaws t.
Proof.
  assert (Hhd : forall (s : t) d q l, map_to_list (flight s) = (d, q) :: l -> flight s !! d = Some q).
  { intros s d q l E. apply elem_of_map_to_list. rewrite E. by left. }
  split; cbn.
  - done.
  - intros q s r xs s' [= <- <- <-]. by left.
  - intros q s r xs s' [= <- <- <-]. apply Forall_cons. split; [done|apply SimRing.reads_allowed].
  - intros s d res xs s'. destruct (map_to_list (flight s)) as [|[d' q] l] eqn:E; [done|]. intros [= <- <- <- <-].
    exists q. split; [by eapply Hhd|]. split; [done|]. unfold SimRing.result. destruct (sqe_send q); [done|]. rewrite length_take. lia.
  - intros s e xs s'. by destruct (map_to_list (flight s)) as [|[d' q] l].
  - intros s r xs s'. destruct (map_to_list (flight s)) as [|[d' q] l] eqn:E; [done|]. intros [= <- <- <-].
    eapply Forall_impl; [apply SimRing.transfer_allowed|]. intros x Hx. exists d', q. split; [by eapply Hhd|done].
  - intros s. destruct (map_to_list (flight s)) as [|[d' q] l] eqn:E; [|done]. intros _. by apply map_to_list_empty_iff.
Qed.

#[export] Instance ring_prompt : UringPrompt t.
Proof.
  split; cbn; [done|done| |].
  - intros s r xs s'. destruct (map_to_list (flight s)) as [|[d' q] l]; [done|]. intros [= <- <- <-]. unfold SimRing.transfer. destruct (sqe_send q); by repeat constructor.
  - intros s e xs s'. by destruct (map_to_list (flight s)) as [|[d' q] l].
Qed.

Definition start : host (OS := t) := mkHost (mkMachine (mkHeap ∅ 0) ∅ ∅ (mk ∅)) runtime_new ∅.

(** The theorem applies after a push has been issued, and its poll returns. *)
Lemma catcollar_is_safe_witness :
  match run SimRing.key (IPush 1 0 3 [7; 8]) start with
  | Ret st => host_inv st /\ exists st', run SimRing.key (Poll 1) st = Ret st' /\ reachable SimRing.key st'
  | _ => False
  end.
Proof.
  destruct (run SimRing.key (IPush 1 0 3 [7; 8]) start) as [st| |] eqn:E; [|vm_compute in E; discriminate E|vm_compute in E; discriminate E].
  assert (R : reachable SimRing.key st).
  { apply (reach_step SimRing.key start (IPush 1 0 3 [7; 8]) st); [apply reach_new; reflexivity|by vm_compute|exact E]. }
  destruct (catcollar_is_safe SimRing.key SimRing.msg_key_fresh st R) as [I Hs]. split; [exact I|].
  destruct (Hs (Poll 1) Logic.I) as [(st' & Er & Hr & _)|(Er & _ & Hf)]; [by exists st'|].
  exfalso. vm_compute in E. injection E as <-. vm_compute in Hf. discriminate Hf.
Defined.

End PromptRing.
