(* ===== verification/HostMigration.v ===== *)
(** * A connection moves from host to host

    Two TCP peers and the migration messages between them: the composition of the socket tables
    (tcp/peer.rs), the migration protocol (tcpmig/) and the serialized connection state. *)

From S2P Require Import Prelude Buffer SeqNumber Net TcpSegment TcpMigSegment Congestion Rto CtrlBlk Handshake MigState MigPeer.
From S2P Require Import Stats Ports TcpPeer PeerTables.

#[local] Abbreviation CB := (ControlBlock CcNone).

(** A migration segment arrives at a host. *)
Definition host_deliver (s : TcpMigSegment) : P (Result unit) :=
  payload ← call (udp_payload s);
  receive_tcpmig (mig_ipv4_hdr s) payload.

Fixpoint host_deliver_all (l : list TcpMigSegment) : P (list (Result unit)) :=
  match l with
  | [] => mret []
  | s :: l => r ← host_deliver s; rs ← host_deliver_all l; mret (r :: rs)
  end.

Lemma host_deliver_status i tr s st p tx :
  deliver (in_tcpmig i) s = Ret (Ok st, p, tx) ->
  host_deliver s i tr = act_on_status st (set_in_tcpmig p i) (tr ++ map TxMig tx).
Proof.
  unfold deliver, host_deliver. intros E. apply bind_ret in E as (payload & E1 & E2).
  unfold mbind, P_bind at 1, call. rewrite E1. unfold receive_tcpmig. unfold mbind, P_bind. cbn [inner]. unfold call. by rewrite E2.
Qed.

(** The status of the last segment is acted on; the ones before only change the protocol's state. *)
Lemma host_deliver_all_last l : forall i tr st p tx,
  l <> [] -> deliver_all (in_tcpmig i) l = Ret (replicate (length l - 1) (Ok StOk) ++ [Ok st], p, tx) ->
  host_deliver_all l i tr =
    (r ← act_on_status st; mret (replicate (length l - 1) (Ok tt) ++ [r])) (set_in_tcpmig p i) (tr ++ map TxMig tx).
Proof.
  induction l as [|s l IH]; intros i tr st p tx Hne E; [done|]. cbn [deliver_all] in E.
  apply bind_ret in E as ([[r1 p1] tx1] & E1 & E). apply bind_ret in E as ([[rs p2] txs] & E2 & E).
  injection E as Er <- <-. cbn [host_deliver_all].
  destruct l as [|s2 l].
  - cbn in E2. injection E2 as <- <- <-. cbn in Er. injection Er as ->.
    unfold mbind, P_bind. rewrite (host_deliver_status i tr s st p1 tx1 E1), app_nil_r. cbn.
    by destruct (act_on_status _ _ _) as [[[r j] tr']| |].
  - change (length (s :: s2 :: l) - 1)%nat with (S (length l)) in *. assert (En : (length (s2 :: l) - 1 = length l)%nat) by (cbn; lia).
    rewrite En in IH.
    cbn [replicate app] in Er |- *. injection Er as Er1 Er2. rewrite Er1 in E1. rewrite Er2 in E2.
    specialize (IH (set_in_tcpmig p1 i) (tr ++ map TxMig tx1) st p2 txs ltac:(discriminate) E2).
    unfold mbind, P_bind at 1. rewrite (host_deliver_status i tr s StOk p1 tx1 E1). cbn [act_on_status].
    cbn iota beta.
    change (act_on_status StOk (set_in_tcpmig p1 i) (tr ++ map TxMig tx1))
      with (Ret (Ok tt, set_in_tcpmig p1 i, tr ++ map TxMig tx1) : outcome (Result unit * Inner * list peer_effect)). cbv iota beta.
    unfold P_bind at 1. rewrite IH.
    rewrite map_app, app_assoc. unfold mbind, P_bind.
    change (set_in_tcpmig p2 (set_in_tcpmig p1 i)) with (set_in_tcpmig p2 i).
    by destruct (act_on_status _ _ _) as [[[r j] tr']| |].
Qed.

Lemma enable_disabled h s u v σ c :
  σ !! h = Some c -> sh_stat c = Disabled -> exists s' σ', StatsHandle.enable h s u v σ = Ret (s', σ').
Proof.
  intros Hc Hd. unfold StatsHandle.enable, cell. rewrite Hc. cbn [mbind outcome_bind]. rewrite Hd.
  destruct u; cbn iota beta zeta; destruct (BucketList.insert _ _ _ _); by do 2 eexists.
Qed.

(** Enabling the statistics of a connection whose handles are new. *)
Lemma enable_stats_new i tr cb :
  exists s i', with_handles cb i tr = Ret (s, i', tr) /\ es_cb s = cb /\ tables i' = tables i /\ in_tcpmig i' = in_tcpmig i /\
    forall m tr', exists i'', enable_stats s (set_in_tcpmig m i') tr' = Ret (tt, i'', tr') /\ tables i'' = tables i /\ in_tcpmig i'' = m.
Proof.
  unfold with_handles, StatsHandle.new. do 2 eexists. split; [done|]. split; [done|]. split; [done|]. split; [done|].
  intros m tr'. unfold enable_stats, mbind, P_bind. cbn [inner].
  cbn [es_recv_stats es_rps_stats es_cb in_recv_queue_stats in_recv_store in_rps_stats in_rps_store set_in_tcpmig set_in_rps_store set_in_recv_store].
  match goal with |- context [StatsHandle.enable ?h ?st ?u ?v ?σ] =>
    destruct (enable_disabled h st u v σ _ (lookup_insert_eq _ _ _) eq_refl) as (s1 & σ1 & E1); rewrite E1 end. cbn [call].
  match goal with |- context [StatsHandle.enable ?h ?st ?u ?v ?σ] =>
    destruct (enable_disabled h st u v σ _ (lookup_insert_eq _ _ _) eq_refl) as (s2 & σ2 & E2); rewrite E2 end. cbn [call].
  eexists. split; [done|]. done.
Qed.

(** ** The legs *)

Lemma host_initiate O tr qd l r s p tx :
  in_sockets O !! qd = Some (Socket.Established l r) -> in_established O !! (l, r) = Some s ->
  Peer.initiate_migration (in_tcpmig O) (l, r) qd = Ret (p, tx) ->
  exists O1, initiate_migration_by_qd qd O tr = Ret (Ok tt, O1, tr ++ map TxMig tx) /\
    tables O1 = tables O /\ in_tcpmig O1 = p.
Proof.
  intros Hs He Hp. unfold initiate_migration_by_qd, mbind, P_bind. cbn [inner]. rewrite Hs, He.
  unfold on_established, run_cb, mbind, P_bind.
  cbn [call CtrlBlk.disable_stats effect_of app perform_effects perform_effect update inner mret P_ret].
  unfold mbind, P_bind. cbn [update inner mret P_ret].
  match goal with |- context [Peer.initiate_migration ?a ?b ?c] =>
    change (Peer.initiate_migration a b c) with (Peer.initiate_migration (in_tcpmig O) (l, r) qd) end.
  rewrite Hp. cbn [call update perform_all mret P_ret]. eexists. split; [done|]. split; [|done].
  unfold tables. cbn. rewrite insert_id; [done|]. rewrite He. by destruct s.
Qed.

Definition wake_of (s : EstablishedSocket) : list peer_effect := if waker (es_cb s) then [WakeTask] else [].

Lemma host_migrate_out i tr qd l r s n cbs cb' :
  in_sockets i !! qd = Some (Socket.Established l r) -> in_qds i !! (l, r) = Some n ->
  in_established i !! (l, r) = Some s -> ControlBlockState_from (es_cb s) = Ret (cbs, cb') ->
  migrate_out_connection qd i tr = Ret (Ok (TcpState_new cbs),
    set_in_established (delete (l, r) (in_established i)) (set_in_qds (delete (l, r) (in_qds i))
      (set_in_sockets (<[qd := Socket.MigratedOut l r]> (in_sockets i)) i)), tr ++ wake_of s).
Proof.
  intros Hs Hq He Hcb. unfold migrate_out_connection, mbind, P_bind. cbn [inner]. rewrite Hs. cbn [update].
  rewrite Hq. cbn [update]. rewrite He. cbn [update]. unfold wake_of.
  destruct (waker (es_cb s)); cbn [perform mret P_ret]; rewrite Hcb; cbn; by rewrite ?app_nil_r.
Qed.

(** The origin's side of the acknowledged request: the connection leaves its tables and is sent. *)
Lemma host_acked i tr qd l r s n cbs cb' p tx :
  in_sockets i !! qd = Some (Socket.Established l r) -> in_qds i !! (l, r) = Some n ->
  in_established i !! (l, r) = Some s -> ControlBlockState_from (es_cb s) = Ret (cbs, cb') ->
  Peer.send_tcp_state (in_tcpmig i) (TcpState_new cbs) = Ret (p, tx) ->
  exists i', act_on_status (StPrepareMigrationAcked qd) i tr = Ret (Ok tt, i', tr ++ wake_of s ++ map TxMig tx) /\
    in_sockets i' = <[qd := Socket.MigratedOut l r]> (in_sockets i) /\
    in_established i' = delete (l, r) (in_established i) /\ in_qds i' = delete (l, r) (in_qds i) /\ in_tcpmig i' = p.
Proof.
  intros Hs Hq He Hcb Hsend. unfold act_on_status, mbind, P_bind at 1. cbn [inner]. unfold P_bind at 1. cbn [update].
  unfold try_, mbind, P_bind at 1. erewrite (host_migrate_out (set_in_poll_state _ i) tr qd l r s n cbs cb'); [|done|done|done|done].
  cbn iota beta. unfold TcpPeer.send_tcp_state, mbind, P_bind. cbn [inner].
  match goal with |- context [Peer.send_tcp_state ?a ?b] =>
    change (Peer.send_tcp_state a b) with (Peer.send_tcp_state (in_tcpmig i) (TcpState_new cbs)) end.
  rewrite Hsend. cbn [call update perform_all mret P_ret]. rewrite <- app_assoc. eexists. split; [done|]. done.
Qed.

(** The target's side of the received state: the connection waits to be accepted. *)
Definition migrated_cb (T : Inner) (st : ControlBlockState) : CB :=
  ControlBlock_from_state (in_local_link_addr T) (tx_checksum_offload (in_tcp_config T))
    (cfg_ack_delay_timeout (in_tcp_config T)) st.

Lemma host_state_received T tr l p st :
  in_passive T !! l = Some p -> cs_local (ts_cb st) = l -> cs_remote (ts_cb st) ∉ rs_endpoints (ps_ready p) ->
  act_on_status (StStateReceived st) T tr = Ret (Ok tt,
    set_in_passive (<[l := Passive.set_ready (mkReady (rs_ready (ps_ready p) ++ [Ok (migrated_cb T (ts_cb st))])
       ({[cs_remote (ts_cb st)]} ∪ rs_endpoints (ps_ready p)) false) p]> (in_passive T)) T, tr).
Proof.
  intros Hp Hl Hr. unfold act_on_status, migrate_in_connection, mbind, P_bind. cbn [inner].
  cbn [local remote ControlBlock_from_state]. rewrite Hl, Hp.
  unfold Passive.push_migrated_in, Ready.push_ok. cbn [remote ControlBlock_from_state]. rewrite decide_False by done. done.
Qed.

(** Accepting the only waiting connection, which has arrived by migration and for which no packets
    were buffered. *)
Lemma host_accept T tr env lqd new_qd l p cb a :
  in_sockets T !! lqd = Some (Socket.Listening l) -> in_passive T !! l = Some p ->
  ps_ready p = mkReady [Ok cb] {[remote cb]} false ->
  in_sockets T !! new_qd = None -> in_qds T !! (l, remote cb) = None -> in_established T !! (l, remote cb) = None ->
  mp_active_migrations (in_tcpmig T) !! remote cb = Some a -> am_recv_queue a = [] ->
  exists T' s, TcpPeer.poll_accept env lqd new_qd T tr = Ret (Some (Ok new_qd), T', tr) /\ es_cb s = cb /\
    in_sockets T' = <[new_qd := Socket.Established l (remote cb)]> (in_sockets T) /\
    in_established T' = <[(l, remote cb) := s]> (in_established T) /\
    in_qds T' = <[(l, remote cb) := new_qd]> (in_qds T) /\
    in_tcpmig T' = Peer.set_active (delete (remote cb) (mp_active_migrations (in_tcpmig T))) (in_tcpmig T).
Proof.
  intros Hs Hp Hr Hnew Hq He Ha Hb. unfold TcpPeer.poll_accept, mbind, P_bind at 1. cbn [inner]. rewrite Hs, Hp.
  unfold Passive.poll_accept, Ready.poll. rewrite Hr. cbn [rs_ready rs_endpoints]. rewrite decide_True by set_solver.
  cbn [mbind outcome_bind]. unfold P_bind at 1. cbn [call]. unfold P_bind at 1. cbn [update].
  set (T1 := set_in_passive _ T). destruct (enable_stats_new T1 tr cb) as (s & T2 & Ew & Ecb & E2 & Em2 & Hen).
  unfold P_bind at 1. rewrite Ew. unfold P_bind at 1. cbn [inner]. unfold Peer.close_active_migration.
  rewrite Em2. change (in_tcpmig T1) with (in_tcpmig T). rewrite Ha. cbn [fmap option_fmap option_map Active.take_buffered_packets fst].
  unfold P_bind at 1. cbn [update]. rewrite Hb. unfold P_bind at 1. cbn [replay mret P_ret].
  destruct (Hen (Peer.set_active (delete (remote cb) (mp_active_migrations (in_tcpmig T))) (in_tcpmig T)) tr) as (T3 & E3 & Et & Em3).
  unfold P_bind at 1. rewrite E3. unfold P_bind at 1. cbn [inner].
  unfold tables in Et. injection Et as Es Eq _ _ Ee _. unfold P_bind at 1.
  rewrite Es. cbn [T1 in_sockets set_in_passive]. rewrite Hnew. cbn [update]. unfold P_bind at 1. rewrite Eq. cbn [T1 in_qds set_in_passive].
  rewrite Hq. cbn [update]. unfold P_bind at 1. rewrite Ee. cbn [T1 in_established set_in_passive]. rewrite He. cbn [update mret P_ret].
  do 2 eexists. split; [done|]. split; [done|]. cbn. rewrite Es, Eq, Ee. done.
Qed.

(** ** The whole move *)

(** The origin has the connection, under a descriptor and to be migrated. *)
Record origin_ready (O : Inner) (qd : Z) (l r : SocketAddrV4) (s : EstablishedSocket) : Prop := mkOriginReady {
  or_socket : in_sockets O !! qd = Some (Socket.Established l r);
  or_qds : in_qds O !! (l, r) = Some qd;
  or_established : in_established O !! (l, r) = Some s;
  or_endpoints : established_at (l, r) s;
  or_free : mp_active_migrations (in_tcpmig O) !! r = None;
  or_port : u16_ok (mp_self_udp_port (in_tcpmig O))
}.

(** The address under which a host takes connections over. *)
Definition migration_addr (T : Inner) : SocketAddrV4 :=
  mkAddr (mp_local_ipv4_addr (in_tcpmig T)) (mp_self_udp_port (in_tcpmig T)).

(** The target listens there with an empty accept queue, and does not have the connection. *)
Record target_ready (T : Inner) (lqd new_qd : Z) (r : SocketAddrV4) (p : PassiveSocket) : Prop := mkTargetReady {
  tr_socket : in_sockets T !! lqd = Some (Socket.Listening (migration_addr T));
  tr_passive : in_passive T !! migration_addr T = Some p;
  tr_ready : rs_ready (ps_ready p) = [] /\ rs_endpoints (ps_ready p) = ∅;
  tr_new : in_sockets T !! new_qd = None;
  tr_qds : in_qds T !! (migration_addr T, r) = None;
  tr_established : in_established T !! (migration_addr T, r) = None;
  tr_port : u16_ok (mp_self_udp_port (in_tcpmig T))
}.

(** A descriptor marked as migrated out. *)
Lemma migrated_out_errors i qd l r :
  in_sockets i !! qd = Some (Socket.MigratedOut l r) ->
  (forall env buf, exists e, TcpPeer.send env qd buf i [] = Ret (Err e, i, []) /\ errno e = ETCPMIG) /\
  (exists e, TcpPeer.poll_recv qd i [] = Ret (Some (Err e), i, []) /\ errno e = ETCPMIG).
Proof.
  intros H. split.
  - intros env buf. unfold TcpPeer.send, mbind, P_bind. cbn [inner]. rewrite H. by eexists.
  - unfold TcpPeer.poll_recv, mbind, P_bind. cbn [inner]. rewrite H. by eexists.
Qed.

(** The fragments arrive at the target, and the connection is accepted there. *)
Lemma host_target_side T PT lqd new_qd r p st cbs tx arrival a :
  target_ready T lqd new_qd r p -> cs_remote cbs = r -> cs_local cbs = migration_addr T -> ts_cb st = cbs ->
  deliver_all (in_tcpmig T) arrival =
    Ret (replicate (length arrival - 1) (Ok StOk) ++ [Ok (StStateReceived st)], PT, tx) -> arrival <> [] ->
  mp_active_migrations PT !! r = Some a -> am_recv_queue a = [] ->
  exists T2, host_deliver_all arrival T [] = Ret (replicate (length arrival) (Ok tt), T2, map TxMig tx) /\
    forall env, exists T3 s',
      TcpPeer.poll_accept env lqd new_qd T2 [] = Ret (Some (Ok new_qd), T3, []) /\
      in_sockets T3 !! new_qd = Some (Socket.Established (migration_addr T) r) /\
      in_established T3 !! (migration_addr T, r) = Some s' /\ es_cb s' = migrated_cb T cbs.
Proof.
  intros [HT1 HT2 [HT3 HT3'] HT4 HT5 HT6 HT8] Hrem Hloc Hst Hdel Hne Ha Hq.
  pose proof (host_deliver_all_last arrival T [] _ _ _ Hne Hdel) as Hall.
  unfold mbind, P_bind in Hall. rewrite (host_state_received _ _ (migration_addr T) p) in Hall;
    [|exact HT2|by rewrite Hst|rewrite HT3'; apply not_elem_of_empty].
  rewrite Hall. cbn [app mret P_ret]. eexists. split.
  { f_equal. f_equal. f_equal. change [Ok tt] with (replicate 1 (Ok tt : Result unit)). rewrite <- replicate_add.
    by replace (length arrival - 1 + 1)%nat with (length arrival) by (destruct arrival; [done|cbn; lia]). }
  intros env. rewrite Hst.
  match goal with |- context [TcpPeer.poll_accept _ _ _ ?i2 _] =>
    destruct (host_accept i2 [] env lqd new_qd (migration_addr T) _ (migrated_cb T cbs) a HT1 (lookup_insert_eq _ _ _))
      as (T3 & s' & E & Ecb & Es & Ee & _) end.
  - cbn. rewrite HT3, HT3', Hrem. by rewrite (right_id_L ∅ (∪)).
  - exact HT4.
  - cbn. by rewrite Hrem.
  - cbn. by rewrite Hrem.
  - cbn. by rewrite Hrem.
  - exact Hq.
  - exists T3, s'. split; [exact E|]. rewrite Es, Ee. cbn [migrated_cb remote ControlBlock_from_state]. rewrite Hrem.
    rewrite !lookup_insert_eq. done.
Qed.

(** C8: A connection moves from host to host.  The origin, asked to migrate the connection behind a
    descriptor, and the target exchange their four messages (the fragments of the state in any
    order); every call succeeds.  At the end the origin has marked the descriptor as migrated out,
    dropped the connection from its tables, forgotten the migration, and answers further reads and
    writes with ETCPMIG without sending anything; at the target the listening descriptor accepts
    the connection, whose control block is built from exactly the origin's connection state. *)
Theorem host_migration (O T : Inner) (qd lqd new_qd : Z) (l r : SocketAddrV4) (s : EstablishedSocket)
  (p : PassiveSocket) (cbs : ControlBlockState) (cb' : CB) (content : list Z) :
  origin_ready O qd l r s -> target_ready T lqd new_qd r p ->
  mp_active_migrations (in_tcpmig T) !! r = None -> addr_ok l /\ addr_ok r ->
  ControlBlockState_from (es_cb s) = Ret (cbs, cb') -> state_fits cbs ->
  app_writes (registered_app (in_tcpmig O) r) content ->
  Z.of_nat (TcpState_serialized_size (mkTcpState cbs (registered_app (in_tcpmig O) r))) < 2 ^ 26 ->
  exists O1 prepare T1 ack O2 frags,
    initiate_migration_by_qd qd O [] = Ret (Ok tt, O1, [TxMig prepare]) /\
    host_deliver prepare T [] = Ret (Ok tt, T1, [TxMig ack]) /\
    host_deliver ack O1 [] = Ret (Ok tt, O2, wake_of s ++ map TxMig frags) /\
    forall arrival, arrival ≡ₚ frags ->
    exists T2 state_ack O3,
      host_deliver_all arrival T1 [] = Ret (replicate (length arrival) (Ok tt), T2, [TxMig state_ack]) /\
      host_deliver state_ack O2 [] = Ret (Ok tt, O3, []) /\
      in_sockets O3 = <[qd := Socket.MigratedOut l r]> (in_sockets O) /\
      in_established O3 = delete (l, r) (in_established O) /\ in_qds O3 = delete (l, r) (in_qds O) /\
      mp_active_migrations (in_tcpmig O3) = mp_active_migrations (in_tcpmig O) /\
      (forall env buf, exists e, TcpPeer.send env qd buf O3 [] = Ret (Err e, O3, []) /\ errno e = ETCPMIG) /\
      (exists e, TcpPeer.poll_recv qd O3 [] = Ret (Some (Err e), O3, []) /\ errno e = ETCPMIG) /\
      forall env, exists T3 s',
        TcpPeer.poll_accept env lqd new_qd T2 [] = Ret (Some (Ok new_qd), T3, []) /\
        in_sockets T3 !! new_qd = Some (Socket.Established (migration_addr T) r) /\
        in_established T3 !! (migration_addr T, r) = Some s' /\
        es_cb s' = migrated_cb T (set_local (migration_addr T) (state_decoded cbs)).
Proof.
  intros [HO1 HO2 HO3 HO4 HO5 HO6] [HT1 HT2 [HT3 HT3'] HT4 HT5 HT6 HT8] HT7 Haddr Hcb Hfit Happ Hsz.
  pose proof (conj HO6 HT8) as Hports.
  assert (Hrem : cs_remote cbs = r).
  { unfold ControlBlockState_from in Hcb. destruct (ReceiverState_from _) as [rs rs'].
    apply bind_ret in Hcb as ([ss ss'] & _ & Hcb). injection Hcb as <- _. unfold established_at in HO4. cbn. congruence. }
  destruct (exchange_send_state (in_tcpmig O) (in_tcpmig T) l r qd Hports Haddr cbs content Hrem Hfit Happ Hsz)
    as (buf & frags & PO & Hdes & Hsend & Hact & Hne & Hall & Hdef).
  destruct (host_initiate O [] qd l r s _ _ HO1 HO3 (exchange_prepare (in_tcpmig O) l r qd HO5)) as (O1 & EO1 & Et1 & Em1).
  unfold tables in Et1. injection Et1 as Es1 Eq1 _ _ Ee1 _.
  pose proof (exchange_ack (in_tcpmig O) (in_tcpmig T) l r qd Hports Haddr HT7) as Hack.
  pose proof (exchange_acked (in_tcpmig O) (in_tcpmig T) l r qd Hports Haddr) as Hacked. rewrite <- Em1 in Hacked.
  set (PO1 := with_active r (in_tcpmig O) _) in *. rewrite <- Es1 in HO1. rewrite <- Eq1 in HO2. rewrite <- Ee1 in HO3.
  destruct (host_acked (set_in_tcpmig (in_tcpmig O1) O1) [] qd l r s qd cbs cb' PO frags HO1 HO2 HO3 Hcb) as
    (O2 & EO2 & Es2 & Ee2 & Eq2 & Em2); [cbn; by rewrite Em1|].
  exists O1. eexists. eexists. eexists. exists O2, frags.
  split; [exact EO1|]. split; [rewrite (host_deliver_status T [] _ _ _ _ Hack); reflexivity|].
  split; [rewrite (host_deliver_status O1 [] _ _ _ _ Hacked); exact EO2|].
  intros arrival Hperm. destruct (Hdef arrival Hperm) as (d & Hd).
  assert (Hane : arrival <> []) by (intros ->; by apply Permutation_nil_l in Hperm). rewrite <- Hperm in Hall.
  set (T1 := set_in_tcpmig (with_active r (in_tcpmig T) (target_active (in_tcpmig T) l r MigrationStage.PrepareMigrationAck)) T).
  pose proof (deliver_fragments r arrival (in_tcpmig T1) _ d _ buf _ Hane (lookup_insert_eq _ _ _) eq_refl Hall Hd Hdes) as Hdel.
  cbn zeta in Hdel.
  match type of Hdel with _ = Ret (_, ?PT, _) => set (PT2 := PT) in * end.
  assert (Hactive : exists a, mp_active_migrations PT2 !! r = Some a /\ am_recv_queue a = []).
  { eexists. split; [|shelve]. subst PT2. unfold with_state. destruct content; cbn; apply lookup_insert_eq. Unshelve. done. }
  destruct Hactive as (a & Ha & Haq).
  match type of Hdel with _ = Ret (_ ++ [Ok (StStateReceived ?x)], _, ?y) => set (st := x) in *; set (tx := y) in * end.
  assert (Htr : target_ready T1 lqd new_qd r p) by exact (mkTargetReady T1 lqd new_qd r p HT1 HT2 (conj HT3 HT3') HT4 HT5 HT6 HT8).
  assert (Hst : ts_cb st = set_local (migration_addr T1) (state_decoded cbs)) by (by destruct content).
  assert (Hr : cs_remote (set_local (migration_addr T1) (state_decoded cbs)) = r) by exact Hrem.
  clearbody st PT2.
  destruct (host_target_side T1 PT2 lqd new_qd r p st _ tx arrival a Htr Hr eq_refl Hst Hdel Hane Ha Haq) as (T2 & ET2 & Hacc).
  pose proof (exchange_complete (in_tcpmig O) (in_tcpmig T) l r qd Hports Haddr HO5 PO Hact) as Hdone. rewrite <- Em2 in Hdone.
  eexists T2, _, _. split; [exact ET2|]. split; [exact (host_deliver_status O2 [] _ _ _ _ Hdone)|].
  cbn [in_sockets in_established in_qds in_tcpmig set_in_tcpmig].
  split; [by rewrite Es2, <- Es1|]. split; [by rewrite Ee2, <- Ee1|]. split; [by rewrite Eq2, <- Eq1|]. split; [done|].
  destruct (migrated_out_errors (set_in_tcpmig (Peer.set_active (mp_active_migrations (in_tcpmig O)) (in_tcpmig O2)) O2) qd l r)
    as [H1 H2]; [cbn; rewrite Es2; apply lookup_insert_eq|].
  split; [exact H1|]. split; [exact H2|]. exact Hacc.
Qed.

(** ** An example *)

Definition demo_client : SocketAddrV4 := mkAddr (Ipv4Addr_new 10 0 1 7) 201.
Definition demo_server : SocketAddrV4 := mkAddr BACKEND_IP 10000.

(** A connection of the back end with two unread bytes. *)
Definition demo_conn_cb : CB :=
  set_receiver (mkReceiver 1000 1002 [[7; 8]])
    (ControlBlock_new demo_server demo_client BACKEND_MAC false 1000 5000000 65535 0 2000 65535 0 1460 CcNone_new).

Definition demo_origin : Inner :=
  let key := (demo_server, demo_client) in
  set_in_sockets {[5 := Socket.Established demo_server demo_client]}
    (set_in_qds {[key := 5]} (set_in_established {[key := mkEstablished demo_conn_cb 0 0]}
      (Inner_new BACKEND_MAC BACKEND_IP TcpConfig_default id None 7 (Peer.set_port 10000 (Peer.new BACKEND_MAC BACKEND_IP))
         (mkPollState None false) 2048 None None 100 (F64.lit 11 20) (F64.lit 1 20)))).

Lemma host_migration_witness :
  exists cbs cb' O1 prepare, ControlBlockState_from demo_conn_cb = Ret (cbs, cb') /\
    initiate_migration_by_qd 5 demo_origin [] = Ret (Ok tt, O1, [TxMig prepare]).
Proof.
  eexists _, _.
  destruct (host_migration demo_origin demo_listening 5 1 6 demo_server demo_client (mkEstablished demo_conn_cb 0 0)
    (Passive.new demo_addr 16 TcpConfig_default FRONTEND_MAC 9) _ _ [] ltac:(by constructor) ltac:(by constructor)
    eq_refl ltac:(by vm_compute) eq_refl) as (O1 & prepare & T1 & ack & O2 & frags & H & _).
  - constructor; cbn; repeat (split || constructor); cbn; unfold u32_ok, u16_ok, u8_ok, U32_MAX; try done; cbn; lia.
  - done.
  - by vm_compute.
  - exists O1, prepare. split; [reflexivity|]. exact H.
Defined.
