(* ===== verification/Switch.v ===== *)
(** * The software switch
    (src/src/rust/inetstack/protocols/tcp/peer.rs with the feature capybara-switch)

    Built with this feature, the TCP peer is not an endpoint but forwards: the SYN of a new client
    picks a back end in turn and is recorded in the directory, later packets of the client go to the
    recorded back end, and packets of a back end go out under the switch's own address. *)

From S2P Require Import Prelude Buffer SeqNumber Net TcpSegment.

(** [Inner] as far as this feature uses it; [sw_be_idx] is the static counter of [receive]. *)
Record Switch := mkSwitch {
  sw_backend_servers : list SocketAddrV4;
  sw_migration_directory : gmap SocketAddrV4 SocketAddrV4;
  sw_num_backends : nat;
  sw_be_idx : nat;
  sw_local_link_addr : MacAddress;
  sw_local_ipv4_addr : Ipv4Addr;
  sw_checksum_offload : bool
}.

Module Switch.

Definition backend_servers : list SocketAddrV4 :=
  [mkAddr (Ipv4Addr_new 10 0 1 9) 10000; mkAddr (Ipv4Addr_new 10 0 1 9) 10001;
   mkAddr (Ipv4Addr_new 10 0 1 9) 10002; mkAddr (Ipv4Addr_new 10 0 1 9) 10003].

Definition new (num_backends : nat) (local_link_addr : MacAddress) (local_ipv4_addr : Ipv4Addr) (offload : bool) : Switch :=
  mkSwitch backend_servers ∅ num_backends 0 local_link_addr local_ipv4_addr offload.

Definition ip_set_dst_addr (h : Ipv4Header.t) (a : Ipv4Addr) : Ipv4Header.t :=
  Ipv4Header.mk (Ipv4Header.version h) (Ipv4Header.ihl h) (Ipv4Header.dscp h) (Ipv4Header.ecn h) (Ipv4Header.total_length h)
    (Ipv4Header.identification h) (Ipv4Header.flags h) (Ipv4Header.fragment_offset h) (Ipv4Header.ttl h)
    (Ipv4Header.protocol h) (Ipv4Header.header_checksum h) (Ipv4Header.src_addr h) a.
Definition ip_set_src_addr (h : Ipv4Header.t) (a : Ipv4Addr) : Ipv4Header.t :=
  Ipv4Header.mk (Ipv4Header.version h) (Ipv4Header.ihl h) (Ipv4Header.dscp h) (Ipv4Header.ecn h) (Ipv4Header.total_length h)
    (Ipv4Header.identification h) (Ipv4Header.flags h) (Ipv4Header.fragment_offset h) (Ipv4Header.ttl h)
    (Ipv4Header.protocol h) (Ipv4Header.header_checksum h) a (Ipv4Header.dst_addr h).

Definition tcp_set_ports (h : TcpHeader.t) (src dst : Z) : TcpHeader.t :=
  TcpHeader.mk src dst (TcpHeader.seq_num h) (TcpHeader.ack_num h) (TcpHeader.ns h) (TcpHeader.cwr h) (TcpHeader.ece h)
    (TcpHeader.urg h) (TcpHeader.ack h) (TcpHeader.psh h) (TcpHeader.rst h) (TcpHeader.syn h) (TcpHeader.fin h)
    (TcpHeader.window_size h) (TcpHeader.urgent_pointer h) (TcpHeader.num_options h) (TcpHeader.option_list h).
Definition tcp_set_dst_port (h : TcpHeader.t) (p : Z) : TcpHeader.t := tcp_set_ports h (TcpHeader.src_port h) p.
Definition tcp_set_src_port (h : TcpHeader.t) (p : Z) : TcpHeader.t := tcp_set_ports h p (TcpHeader.dst_port h).

(** The packet sent on to [target], whose link address must be cached. *)
Definition forward_to (arp : Ipv4Addr -> option MacAddress) (self : Switch) (target : SocketAddrV4)
  (eth_hdr : Ethernet2Header.t) (ip_hdr : Ipv4Header.t) (tcp_hdr : TcpHeader.t) (data : Buffer.t) : outcome TcpSegment :=
  match arp (ip target) with
  | None => Panic "MAC of this BE is not cached"
  | Some mac =>
      Ret (mkTcpSegment (Ethernet2Header.set_dst_addr eth_hdr mac) (ip_set_dst_addr ip_hdr (ip target))
             (tcp_set_dst_port tcp_hdr (port target)) (Some data) (sw_checksum_offload self))
  end.

Definition src_of (ip_hdr : Ipv4Header.t) (tcp_hdr : TcpHeader.t) : SocketAddrV4 :=
  mkAddr (Ipv4Header.get_src_addr ip_hdr) (TcpHeader.src_port tcp_hdr).
Definition dst_of (ip_hdr : Ipv4Header.t) (tcp_hdr : TcpHeader.t) : SocketAddrV4 :=
  mkAddr (Ipv4Header.get_dest_addr ip_hdr) (TcpHeader.dst_port tcp_hdr).

(** [receive], after the header is parsed: the new state and the packet transmitted. *)
Definition forward (arp : Ipv4Addr -> option MacAddress) (self : Switch) (eth_hdr : Ethernet2Header.t)
  (ip_hdr : Ipv4Header.t) (tcp_hdr : TcpHeader.t) (data : Buffer.t) : outcome (Switch * TcpSegment) :=
  let dst_addr := dst_of ip_hdr tcp_hdr in
  let src_addr := src_of ip_hdr tcp_hdr in
  if TcpHeader.syn tcp_hdr && negb (TcpHeader.ack tcp_hdr) then
    match sw_backend_servers self !! sw_be_idx self with
    | None => Panic "index out of bounds"
    | Some be_sockaddr =>
        segment ← forward_to arp self be_sockaddr eth_hdr ip_hdr tcp_hdr data;
        match sw_migration_directory self !! src_addr with
        | Some _ => Panic "duplicate queue descriptor in established sockets table"
        | None =>
            if Nat.eqb (sw_num_backends self) 0 then Panic "attempt to calculate the remainder with a divisor of zero" else
            Ret (mkSwitch (sw_backend_servers self) (<[src_addr := be_sockaddr]> (sw_migration_directory self))
                   (sw_num_backends self) ((sw_be_idx self + 1) mod sw_num_backends self) (sw_local_link_addr self)
                   (sw_local_ipv4_addr self) (sw_checksum_offload self), segment)
        end
    end
  else
    match sw_migration_directory self !! src_addr, sw_migration_directory self !! dst_addr with
    | Some target_sockaddr, None =>
        segment ← forward_to arp self target_sockaddr eth_hdr ip_hdr tcp_hdr data;
        Ret (self, segment)
    | None, Some _ =>
        Ret (self, mkTcpSegment (Ethernet2Header.set_src_addr eth_hdr (sw_local_link_addr self))
               (ip_set_src_addr ip_hdr (sw_local_ipv4_addr self)) (tcp_set_src_port tcp_hdr 10000) (Some data)
               (sw_checksum_offload self))
    | Some _, Some _ => Panic "Both src and dst are matching in migration directory"
    | None, None => Panic "No matching entry in migration_directory"
    end.

Definition receive (arp : Ipv4Addr -> option MacAddress) (self : Switch) (eth_hdr : Ethernet2Header.t)
  (ip_hdr : Ipv4Header.t) (buf : list Z) : outcome (Result (Switch * TcpSegment)) :=
  '(tcp_hdr, data) ←? TcpHeader.parse ip_hdr buf (sw_checksum_offload self);
  r ← forward arp self eth_hdr ip_hdr tcp_hdr data;
  Ret (Ok r).

End Switch.

(** ** Runs *)

Record packet := mkPacket { pk_eth : Ethernet2Header.t; pk_ip : Ipv4Header.t; pk_tcp : TcpHeader.t; pk_data : Buffer.t }.

Definition pk_src (k : packet) : SocketAddrV4 := Switch.src_of (pk_ip k) (pk_tcp k).
Definition pk_dst (k : packet) : SocketAddrV4 := Switch.dst_of (pk_ip k) (pk_tcp k).
Definition is_first_syn (k : packet) : bool := TcpHeader.syn (pk_tcp k) && negb (TcpHeader.ack (pk_tcp k)).

Definition switch_step (arp : Ipv4Addr -> option MacAddress) (self : Switch) (k : packet) : outcome (Switch * TcpSegment) :=
  Switch.forward arp self (pk_eth k) (pk_ip k) (pk_tcp k) (pk_data k).

(** A run from a new switch: the clients in the order of their SYNs. *)
Inductive switch_run (arp : Ipv4Addr -> option MacAddress) (start : Switch) : Switch -> list SocketAddrV4 -> Prop :=
| run_start : switch_run arp start start []
| run_step self clients k self' segment :
    switch_run arp start self clients -> switch_step arp self k = Ret (self', segment) ->
    switch_run arp start self' (if is_first_syn k then clients ++ [pk_src k] else clients).

(** The fields of a packet the switch must not touch. *)
Definition same_content (h h' : TcpHeader.t) : Prop :=
  Switch.tcp_set_ports h' (TcpHeader.src_port h) (TcpHeader.dst_port h) = h.

Record switch_inv (start self : Switch) (clients : list SocketAddrV4) : Prop := mkSwitchInv {
  sv_fixed : sw_backend_servers self = sw_backend_servers start /\ sw_num_backends self = sw_num_backends start /\
    sw_local_ipv4_addr self = sw_local_ipv4_addr start /\ sw_local_link_addr self = sw_local_link_addr start /\
    sw_checksum_offload self = sw_checksum_offload start;
  sv_idx : sw_be_idx self = (length clients mod sw_num_backends start)%nat;
  sv_nodup : NoDup clients;
  sv_dir : forall n c, clients !! n = Some c ->
    sw_migration_directory self !! c = sw_backend_servers start !! (n mod sw_num_backends start)%nat /\
    is_Some (sw_migration_directory self !! c);
  sv_only : forall c, is_Some (sw_migration_directory self !! c) -> c ∈ clients
}.

Lemma switch_run_inv arp num mac addr off self clients :
  (0 < num)%nat -> switch_run arp (Switch.new num mac addr off) self clients ->
  switch_inv (Switch.new num mac addr off) self clients.
Proof.
  intros Hnum. induction 1 as [|self clients k self' segment _ IH E].
  - constructor; cbn; [done|by rewrite Nat.Div0.mod_0_l|constructor|done|]. intros c [x Hx]. by rewrite lookup_empty in Hx.
  - destruct IH as [(F1 & F2 & F3 & F4 & F5) Hidx Hnd Hdir Honly]. unfold switch_step, Switch.forward in E.
    fold (pk_src k) (pk_dst k) in E. unfold is_first_syn. destruct (_ && _).
    + destruct (sw_backend_servers self !! sw_be_idx self) as [be|] eqn:Ebe; [|done].
      apply bind_ret in E as (seg & _ & E). destruct (sw_migration_directory self !! pk_src k) eqn:Edir; [done|].
      destruct (Nat.eqb_spec (sw_num_backends self) 0) as [|Hz]; [done|]. injection E as <- <-.
      assert (Hnew : pk_src k ∉ clients).
      { intros Hin. apply list_elem_of_lookup in Hin as [n Hn]. apply Hdir in Hn as [_ [x Hx]]. congruence. }
      constructor; cbn; [done| | | |].
      * rewrite length_app, Hidx, F2. cbn. by rewrite Nat.Div0.add_mod_idemp_l.
      * apply NoDup_app. split; [done|]. split; [|apply NoDup_singleton]. by intros x Hx ->%list_elem_of_singleton.
      * intros n c Hn. apply lookup_snoc_Some in Hn as [[Hlt Hn]|[-> <-]].
        -- assert (c <> pk_src k) by (intros ->; apply Hnew; by eapply list_elem_of_lookup_2).
           rewrite lookup_insert_ne by done. by apply Hdir.
        -- rewrite lookup_insert_eq. cbn in Hidx. rewrite F1, Hidx in Ebe. by rewrite <- Ebe.
      * intros c Hc. apply elem_of_app. destruct (decide (c = pk_src k)) as [->|Hne]; [right; by left|left].
        rewrite lookup_insert_ne in Hc by done. by apply Honly.
    + destruct (sw_migration_directory self !! pk_src k) as [t|], (sw_migration_directory self !! pk_dst k) as [t'|]; try done.
      * apply bind_ret in E as (seg & _ & E). injection E as <- <-. by constructor.
      * injection E as <- <-. by constructor.
Qed.

Definition seg_src (s : TcpSegment) : SocketAddrV4 := Switch.src_of (ipv4_hdr s) (tcp_hdr s).
Definition seg_dst (s : TcpSegment) : SocketAddrV4 := Switch.dst_of (ipv4_hdr s) (tcp_hdr s).

(** Every field of the IPv4 header but the two addresses. *)
Definition same_ip (h h' : Ipv4Header.t) : Prop :=
  Ipv4Header.version h' = Ipv4Header.version h /\ Ipv4Header.ihl h' = Ipv4Header.ihl h /\
  Ipv4Header.dscp h' = Ipv4Header.dscp h /\ Ipv4Header.ecn h' = Ipv4Header.ecn h /\
  Ipv4Header.total_length h' = Ipv4Header.total_length h /\
  Ipv4Header.identification h' = Ipv4Header.identification h /\ Ipv4Header.flags h' = Ipv4Header.flags h /\
  Ipv4Header.fragment_offset h' = Ipv4Header.fragment_offset h /\ Ipv4Header.ttl h' = Ipv4Header.ttl h /\
  Ipv4Header.protocol h' = Ipv4Header.protocol h /\
  Ipv4Header.header_checksum h' = Ipv4Header.header_checksum h.

(** [s] is the packet [k] with the given endpoints and link addresses and nothing else changed;
    [off] says whether its checksum is left to the device. *)
Record relayed (k : packet) (off : bool) (src dst : SocketAddrV4) (src_link dst_link : MacAddress) (s : TcpSegment) : Prop := {
  rl_src : seg_src s = src;
  rl_dst : seg_dst s = dst;
  rl_eth : ethernet2_hdr s = Ethernet2Header.new dst_link src_link (Ethernet2Header.ether_type (pk_eth k));
  rl_ip : same_ip (pk_ip k) (ipv4_hdr s);
  rl_tcp : same_content (pk_tcp k) (tcp_hdr s);
  rl_data : data s = Some (pk_data k);
  rl_offload : tx_checksum_offload s = off
}.

(** The packet [k] sent on to a back end, and sent out under the switch's own addresses. *)
Definition relayed_to (k : packet) (off : bool) (backend : SocketAddrV4) (link : MacAddress) : TcpSegment -> Prop :=
  relayed k off (pk_src k) backend (Ethernet2Header.src_addr (pk_eth k)) link.
Definition relayed_from (k : packet) (off : bool) (addr : Ipv4Addr) (link : MacAddress) : TcpSegment -> Prop :=
  relayed k off (mkAddr addr 10000) (pk_dst k) link (Ethernet2Header.dst_addr (pk_eth k)).

Lemma forward_to_ok arp self target k mac :
  arp (ip target) = Some mac ->
  exists segment, Switch.forward_to arp self target (pk_eth k) (pk_ip k) (pk_tcp k) (pk_data k) = Ret segment /\
    relayed_to k (sw_checksum_offload self) target mac segment.
Proof.
  intros Ha. unfold Switch.forward_to. rewrite Ha. eexists. split; [done|]. constructor; try done.
  - by destruct target.
  - unfold same_content. by destruct (pk_tcp k).
Qed.

Lemma forward_to_none arp self target k :
  arp (ip target) = None ->
  exists m, Switch.forward_to arp self target (pk_eth k) (pk_ip k) (pk_tcp k) (pk_data k) = Panic m.
Proof. intros Ha. unfold Switch.forward_to. rewrite Ha. by eexists. Qed.

Section run.
Context (arp : Ipv4Addr -> option MacAddress) (num : nat) (mac : MacAddress) (addr : Ipv4Addr) (off : bool).
Context (Hnum : (0 < num)%nat).
Notation start := (Switch.new num mac addr off).

Lemma no_entry self clients a :
  switch_inv start self clients -> a ∉ clients -> sw_migration_directory self !! a = None.
Proof. intros I Ha. destruct (sw_migration_directory self !! a) eqn:E; [|done]. exfalso. by apply Ha, (sv_only _ _ _ I). Qed.

Lemma first_syn self clients k backend link :
  switch_run arp start self clients -> is_first_syn k = true -> pk_src k ∉ clients ->
  Switch.backend_servers !! (length clients mod num)%nat = Some backend -> arp (ip backend) = Some link ->
  exists self' segment, switch_step arp self k = Ret (self', segment) /\
    switch_run arp start self' (clients ++ [pk_src k]) /\ relayed_to k off backend link segment.
Proof.
  intros Hrun Hs Hnew Hb Hl. pose proof (switch_run_inv _ _ _ _ _ _ _ Hnum Hrun) as I.
  destruct (sv_fixed _ _ _ I) as (F1 & F2 & _ & _ & F5).
  assert (E : exists self' segment, switch_step arp self k = Ret (self', segment) /\ relayed_to k off backend link segment).
  { unfold switch_step, Switch.forward. fold (pk_src k) (is_first_syn k). rewrite Hs, (sv_idx _ _ _ I), F1.
    cbn [Switch.new sw_backend_servers sw_num_backends]. rewrite Hb.
    destruct (forward_to_ok arp self backend k link Hl) as (segment & -> & Hr). cbn [mbind outcome_bind].
    rewrite (no_entry _ _ _ I Hnew), F2. cbn [Switch.new sw_num_backends].
    destruct (Nat.eqb_spec num 0); [lia|]. rewrite F5 in Hr. by do 2 eexists. }
  destruct E as (self' & segment & E & Hr). exists self', segment. split; [done|]. split; [|done].
  pose proof (run_step _ _ _ _ _ _ _ Hrun E) as R. by rewrite Hs in R.
Qed.

Lemma repeated_syn self clients k :
  switch_inv start self clients -> is_first_syn k = true -> pk_src k ∈ clients -> exists m, switch_step arp self k = Panic m.
Proof.
  intros I Hs (n & Hn)%list_elem_of_lookup. destruct (sv_dir _ _ _ I _ _ Hn) as [_ [b Hb]].
  unfold switch_step, Switch.forward. fold (pk_src k) (is_first_syn k). rewrite Hs.
  destruct (sw_backend_servers self !! sw_be_idx self) as [be|]; [|by eexists]. destruct (arp (ip be)) as [link|] eqn:Ea.
  - destruct (forward_to_ok arp self be k link Ea) as (segment & -> & _). cbn [mbind outcome_bind]. rewrite Hb. by eexists.
  - destruct (forward_to_none arp self be k Ea) as (m & ->). by eexists.
Qed.

Lemma from_client self clients k n backend link :
  switch_inv start self clients -> is_first_syn k = false -> clients !! n = Some (pk_src k) -> pk_dst k ∉ clients ->
  Switch.backend_servers !! (n mod num)%nat = Some backend -> arp (ip backend) = Some link ->
  exists segment, switch_step arp self k = Ret (self, segment) /\ relayed_to k off backend link segment.
Proof.
  intros I Hs Hn Hd Hb Hl. destruct (sv_dir _ _ _ I _ _ Hn) as [Hdir _]. cbn in Hdir. rewrite Hb in Hdir.
  destruct (sv_fixed _ _ _ I) as (_ & _ & _ & _ & F5). cbn in F5.
  unfold switch_step, Switch.forward. fold (pk_src k) (pk_dst k) (is_first_syn k).
  rewrite Hs, Hdir, (no_entry _ _ _ I Hd). destruct (forward_to_ok arp self backend k link Hl) as (segment & -> & Hr).
  rewrite F5 in Hr. by eexists.
Qed.

Lemma to_client self clients k :
  switch_inv start self clients -> is_first_syn k = false -> pk_dst k ∈ clients -> pk_src k ∉ clients ->
  exists segment, switch_step arp self k = Ret (self, segment) /\ relayed_from k off addr mac segment.
Proof.
  intros I Hs (n & Hn)%list_elem_of_lookup Hc. destruct (sv_dir _ _ _ I _ _ Hn) as [_ [b Hb]].
  destruct (sv_fixed _ _ _ I) as (_ & _ & F3 & F4 & F5). cbn in F3, F4, F5.
  unfold switch_step, Switch.forward. fold (pk_src k) (pk_dst k) (is_first_syn k). rewrite Hs, Hb, (no_entry _ _ _ I Hc).
  eexists. split; [done|]. rewrite F3, F4, F5. constructor; try done. unfold same_content. by destruct (pk_tcp k).
Qed.

Lemma stranger self clients k :
  switch_inv start self clients -> is_first_syn k = false -> (pk_src k ∈ clients <-> pk_dst k ∈ clients) ->
  exists m, switch_step arp self k = Panic m.
Proof.
  intros I Hs Hiff. unfold switch_step, Switch.forward. fold (pk_src k) (pk_dst k) (is_first_syn k). rewrite Hs.
  destruct (decide (pk_src k ∈ clients)) as [Hin|Hin].
  - pose proof (proj1 Hiff Hin) as (n' & Hn')%list_elem_of_lookup. apply list_elem_of_lookup in Hin as [n Hn].
    destruct (sv_dir _ _ _ I _ _ Hn) as [_ [b ->]]. destruct (sv_dir _ _ _ I _ _ Hn') as [_ [b' ->]]. by eexists.
  - rewrite (no_entry _ _ _ I Hin), (no_entry self clients (pk_dst k) I) by tauto. by eexists.
Qed.
End run.

(** C40: The switch spreads clients over the back ends in turn and keeps each with its back end.
    After any run whose clients, in the order of their SYNs, are [clients] (all different):
    the SYN of a new client goes to back end number of clients modulo their number and makes it the
    next client; a later packet of the n-th client goes to back end n modulo their number, and a
    packet to a client goes out under the switch's own addresses and port 10000, with the state of
    the switch unchanged in both cases.  A packet sent on keeps every field of its Ethernet, IP and TCP
    headers and its data, but for the two link addresses, the two addresses and the two ports, of
    which exactly the destination's (or the source's) are replaced.  The rest panics: a client's
    second SYN, and a packet with no client or two clients as its endpoints.  The link addresses of
    the back ends are cached. *)
Theorem switch_keeps_clients (arp : Ipv4Addr -> option MacAddress) (num : nat) (mac : MacAddress) (addr : Ipv4Addr)
  (off : bool) (self : Switch) (clients : list SocketAddrV4) (k : packet) :
  (0 < num <= length Switch.backend_servers)%nat ->
  (forall backend, backend ∈ Switch.backend_servers -> is_Some (arp (ip backend))) ->
  switch_run arp (Switch.new num mac addr off) self clients ->
  NoDup clients /\
  (is_first_syn k = true ->
    if decide (pk_src k ∈ clients) then exists m, switch_step arp self k = Panic m
    else exists backend link self' segment,
      Switch.backend_servers !! (length clients mod num)%nat = Some backend /\ arp (ip backend) = Some link /\
      switch_step arp self k = Ret (self', segment) /\
      switch_run arp (Switch.new num mac addr off) self' (clients ++ [pk_src k]) /\ relayed_to k off backend link segment) /\
  (is_first_syn k = false ->
    (forall n, clients !! n = Some (pk_src k) -> pk_dst k ∉ clients -> exists backend link segment,
       Switch.backend_servers !! (n mod num)%nat = Some backend /\ arp (ip backend) = Some link /\
       switch_step arp self k = Ret (self, segment) /\ relayed_to k off backend link segment) /\
    (pk_dst k ∈ clients -> pk_src k ∉ clients ->
       exists segment, switch_step arp self k = Ret (self, segment) /\ relayed_from k off addr mac segment) /\
    ((pk_src k ∈ clients <-> pk_dst k ∈ clients) -> exists m, switch_step arp self k = Panic m)).
Proof.
  intros [Hnum Hmax] Harp Hrun. pose proof (switch_run_inv _ _ _ _ _ _ _ Hnum Hrun) as I.
  assert (Hback : forall n, exists backend link,
    Switch.backend_servers !! (n mod num)%nat = Some backend /\ arp (ip backend) = Some link).
  { intros n. destruct (lookup_lt_is_Some_2 Switch.backend_servers (n mod num)) as [b Hb].
    { pose proof (Nat.mod_upper_bound n num). lia. }
    destruct (Harp b (list_elem_of_lookup_2 _ _ _ Hb)) as [l Hl]. by exists b, l. }
  split; [apply (sv_nodup _ _ _ I)|]. split; intros Hs.
  - case_decide as Hin; [by eapply repeated_syn|]. destruct (Hback (length clients)) as (b & l & Hb & Hl).
    destruct (first_syn arp num mac addr off Hnum self clients k b l Hrun Hs Hin Hb Hl) as (self' & segment & H).
    by exists b, l, self', segment.
  - split; [|split; [by eapply to_client|by eapply stranger]]. intros n Hn Hd. destruct (Hback n) as (b & l & Hb & Hl).
    destruct (from_client arp num mac addr off self clients k n b l I Hs Hn Hd Hb Hl) as (segment & H).
    by exists b, l, segment.
Qed.

Definition demo_syn (src_port : Z) : packet :=
  mkPacket (Ethernet2Header.new [0;0;0;0;0;1] [0;0;0;0;0;2] EtIpv4)
    (Ipv4Header.new (Ipv4Addr_new 10 0 1 7) (Ipv4Addr_new 10 0 1 8) TCP)
    (TcpHeader.set_syn (TcpHeader.new src_port 10000) true) [].

Definition demo_switch : Switch := Switch.new 2 [0;0;0;0;0;1] (Ipv4Addr_new 10 0 1 8) false.
Definition demo_arp (a : Ipv4Addr) : option MacAddress := Some [0;0;0;0;0;9].

Definition demo_after (ks : list packet) : Switch :=
  foldl (fun s k => match switch_step demo_arp s k with Ret (s, _) => s | _ => s end) demo_switch ks.

Lemma switch_keeps_clients_witness :
  exists backend link segment,
    Switch.backend_servers !! 1%nat = Some backend /\
    switch_step demo_arp (demo_after [demo_syn 1; demo_syn 2])
      (mkPacket (pk_eth (demo_syn 2)) (pk_ip (demo_syn 2)) (TcpHeader.new 2 10000) [42]) =
      Ret (demo_after [demo_syn 1; demo_syn 2], segment) /\
    relayed_to (mkPacket (pk_eth (demo_syn 2)) (pk_ip (demo_syn 2)) (TcpHeader.new 2 10000) [42]) false backend link segment.
Proof.
  set (k := mkPacket (pk_eth (demo_syn 2)) (pk_ip (demo_syn 2)) (TcpHeader.new 2 10000) [42]).
  assert (H : switch_run demo_arp demo_switch (demo_after [demo_syn 1; demo_syn 2])
    [pk_src (demo_syn 1); pk_src (demo_syn 2)]).
  { refine (run_step demo_arp demo_switch (demo_after [demo_syn 1]) [pk_src (demo_syn 1)] (demo_syn 2) _ _ _ _);
      [refine (run_step demo_arp demo_switch demo_switch [] (demo_syn 1) _ _ (run_start _ _) _)|]; reflexivity. }
  destruct (switch_keeps_clients demo_arp 2 _ _ _ _ _ k ltac:(cbn; lia) ltac:(intros b _; by eexists) H) as (_ & _ & Hl).
  destruct (Hl eq_refl) as (Hto & _).
  destruct (Hto 1%nat) as (b & l & segment & Hb & _ & E & Hr); [reflexivity| |by exists b, l, segment].
  apply (bool_decide_unpack _). vm_compute. exact I.
Defined.

(** A client that retransmits its SYN brings the switch down. *)
Example repeated_syn_panics :
  exists m, switch_step demo_arp (demo_after [demo_syn 1]) (demo_syn 1) = Panic m.
Proof. eexists. reflexivity. Qed.
