(* ===== verification/Findings.v ===== *)
(** * Behaviours worth knowing

    Concrete executions of the model that the code's comments or its intention do not suggest:
    where the theorems of the other files need a hypothesis, this is why. *)

From S2P Require Import Prelude Buffer SeqNumber Net TcpSegment TcpMigSegment Congestion Rto CtrlBlk Handshake MigState MigPeer.
From S2P Require Import Stats Ports TcpPeer PeerTables HostMigration.

#[local] Abbreviation CB := (ControlBlock CcNone).

Definition link : MacAddress := [0; 0; 0; 0; 0; 1].
Definition env0 : Env := mkEnv 0 (fun _ => Some link).

(** A fresh connection that expects sequence number 1000 and sends from 2000. *)
Definition cb0 : CB :=
  ControlBlock_new demo_server demo_client BACKEND_MAC false 1000 5000000 65535 0 2000 65535 0 1460 CcNone_new.

Definition segment_at (seq ack : Z) : TcpHeader.t :=
  TcpHeader.set_ack (TcpHeader.set_seq_num (TcpHeader.new 201 10000) seq) ack.

Definition outcome_kind {A} (o : outcome A) : option string :=
  match o with Ret _ => None | Panic m => Some m | Diverge => Some "diverges" end.

Definition cb_of {A} (o : outcome (A * CB * list effect)) : CB := match o with Ret (_, cb, _) => cb | _ => cb0 end.

(** ** Receiving *)

(** An acknowledgement exactly half the sequence space ahead of SND.UNA, with nothing in flight, makes
    the loop of [remove_acknowledged_data] run forever: both comparisons with SND.NXT hold. *)
Example half_space_ack_diverges : outcome_kind (CtrlBlk.receive env0 (segment_at 1000 (2000 + 2 ^ 31)) [] cb0 []) = Some "diverges".
Proof. vm_compute. reflexivity. Qed.

(** A FIN for a connection that was reset before panics. *)
Example fin_when_closed_panics :
  outcome_kind (CtrlBlk.receive env0 (TcpHeader.set_fin (segment_at 1000 2000) true) [] (CtrlBlk.set_state Closed cb0) []) =
  Some "Bad TCP state".
Proof. vm_compute. reflexivity. Qed.

(** A SYN at RCV.NXT while the receive window is closed makes the trimming of its (empty) data panic. *)
Example syn_on_closed_window_panics :
  let cb := set_receiver (mkReceiver 1000 1002 [[7; 8]])
    (ControlBlock_new demo_server demo_client BACKEND_MAC false 1000 5000000 2 0 2000 65535 0 1460 CcNone_new) in
  outcome_kind (CtrlBlk.receive env0 (TcpHeader.set_syn (segment_at 1002 2000) true) [] cb []) <> None.
Proof. vm_compute. done. Qed.

(** Two out-of-order segments, the second overlapping the first from the front: the rest of the second
    is stored behind the first, so the store is no longer sorted. *)
Example front_overlap_unsorts_store :
  let cb := cb_of (store_out_of_order_segment 1010 1019 (replicate 10 1) cb0 []) in
  let cb := cb_of (store_out_of_order_segment 1005 1012 (replicate 8 2) cb []) in
  map fst (out_of_order cb) = [1010; 1005].
Proof. vm_compute. reflexivity. Qed.

(** An overlap at the end keeps one duplicate byte: the entries of the store overlap. *)
Example end_overlap_off_by_one :
  let cb := cb_of (store_out_of_order_segment 1010 1014 (replicate 5 1) cb0 []) in
  let cb := cb_of (store_out_of_order_segment 1012 1019 (replicate 8 2) cb []) in
  map (fun e => (fst e, length (snd e))) (out_of_order cb) = [(1010, 5%nat); (1014, 6%nat)].
Proof. vm_compute. reflexivity. Qed.

(** An entry of the store that in-order data has overtaken stays at the front and blocks the others:
    with bytes 1002..1003 and 1006 stored, the arrival of 1000..1005 delivers only itself. *)
Example overtaken_entry_blocks_store :
  let cb := cb_of (store_out_of_order_segment 1002 1003 [3; 4] cb0 []) in
  let cb := cb_of (store_out_of_order_segment 1006 1006 [7] cb []) in
  let cb := cb_of (receive_data 1000 [1; 2; 3; 4; 5; 6] cb []) in
  receive_next (receiver cb) = 1006 /\ map fst (out_of_order cb) = [1002; 1006].
Proof. vm_compute. done. Qed.

(** A FIN stored out of order is not consumed when the hole before it is filled by one segment. *)
Example stored_fin_ignored :
  let cb := cb_of (CtrlBlk.receive env0 (TcpHeader.set_fin (segment_at 1003 2000) true) [] cb0 []) in
  let cb := cb_of (CtrlBlk.receive env0 (segment_at 1000 2000) [1; 2; 3] cb []) in
  out_of_order_fin cb = Some 1003 /\ receive_next (receiver cb) = 1003 /\ CtrlBlk.state cb = Established.
Proof. vm_compute. done. Qed.

(** ** Sending *)

(** Closing a connection with more than 1024 unsent buffers panics. *)
Example close_with_long_queue_panics :
  let s := sender cb0 in
  let cb := set_sender (snd_set_unsent_seq_no 3025 (snd_set_unsent_queue (replicate 1025 [1]) s)) cb0 in
  outcome_kind (CtrlBlk.close env0 cb []) = Some "send failed".
Proof. vm_compute. reflexivity. Qed.

(** A FIN that has to wait adds nothing to the unsent sequence number: the background sender sees
    nothing unsent and never sends it. *)
Example queued_fin_never_sent :
  let env := mkEnv 0 (fun _ => None) in
  let cb := cb_of (CtrlBlk.close env cb0 []) in
  length (unsent_queue (sender cb)) = 1%nat /\ send_next (sender cb) = unsent_seq_no (sender cb).
Proof. vm_compute. done. Qed.

(** Probing a zero window with a one-byte buffer leaves an empty buffer in the queue, which is sent
    as a FIN later. *)
Example probe_leaves_empty_buffer :
  let cb := set_sender (snd_set_unsent_queue [[1]] (sender cb0)) cb0 in
  unsent_queue (sender (cb_of (pop_one_unsent_byte cb []))) = [[]].
Proof. vm_compute. reflexivity. Qed.

(** ** Handshake *)

(** Window sizes are scaled in 16 bits: a peer that announces 0x8000 with scale 1 gets window 0, and
    one that announces a scale of 16 makes the listening socket panic. *)
Example scaled_window_truncated : checked_shl16 0x8000 1 = Ret 0 /\ outcome_kind (checked_shl16 1 16) <> None.
Proof. vm_compute. done. Qed.

(** The entry of a handshake that has timed out is never removed: it uses up the backlog for good. *)
Example timed_out_handshake_stays :
  let accept := mkInflight 1 2 65535 None 1460 (TaskWait 0 100) in
  let p := Passive.set_inflight {[demo_client := accept]} (Passive.new demo_addr 1 TcpConfig_default FRONTEND_MAC 9) in
  match Passive.background 100 ArpPending demo_client p with
  | Ret (p, _) => size (ps_inflight p) = 1%nat /\ if_handle <$> ps_inflight p !! demo_client = Some TaskDone
  | _ => False
  end.
Proof. vm_compute. done. Qed.

(** The timeout of a connection attempt replaces a result that has not been read yet. *)
Example late_timeout_overwrites_result :
  let s := ActiveOpen.set_handle (TaskWait 0 100) (ActiveOpen.set_result (Ok cb0)
             (ActiveOpen.new 1 demo_server demo_client TcpConfig_default BACKEND_MAC)) in
  match ActiveOpen.background 100 ArpPending s with
  | Ret (s, _) => match ao_result s with Some (Err e) => errno e = ETIMEDOUT | _ => False end
  | _ => False
  end.
Proof. vm_compute. reflexivity. Qed.

(** ** Migration *)

(** After a reset the defragmenter still counts the bytes of the last segment. *)
Example defragmenter_keeps_size (d : TcpMigDefragmenter.t) :
  TcpMigDefragmenter.current_size (TcpMigDefragmenter.reset d) = TcpMigDefragmenter.current_size d.
Proof. reflexivity. Qed.

(** A migration message for a connection without a migration panics. *)
Example stray_migration_message_panics :
  let h := TcpMigHeader.new demo_server demo_client 0 MigrationStage.ConnectionStateAck 10000 10001 in
  outcome_kind (Peer.dispatch (Peer.new FRONTEND_MAC FRONTEND_IP) h []) = Some "no such active migration".
Proof. vm_compute. reflexivity. Qed.

(** Application state that has arrived with a connection and was not claimed is dropped when the
    connection moves on. *)
Example unclaimed_application_state_dropped :
  registered_app (Peer.set_app {[demo_client := AppMigratedIn [1; 2; 3]]} (Peer.new FRONTEND_MAC FRONTEND_IP)) demo_client =
  AppNone.
Proof. reflexivity. Qed.

(** A connection taken over with unacknowledged data has no retransmission timer running. *)
Example migrated_timer_not_running (l : MacAddress) (off : bool) (t : Z) (st : ControlBlockState) :
  retransmit_deadline (ControlBlock_from_state l off t st) = None /\
  unacked_queue (sender (ControlBlock_from_state l off t st)) = ss_unacked_queue (cs_sender st).
Proof. by destruct st as [? ? ? ? ? ? ? []]. Qed.

(** ** The peer *)

(** A connection opened by [connect] is not in the table of descriptors by endpoints: migrating it
    by its endpoints panics. *)
Example client_connection_cannot_migrate :
  let i := set_in_sockets {[3 := Socket.Connecting demo_server demo_client]}
    (set_in_connecting {[(demo_server, demo_client) := ActiveOpen.set_result (Ok cb0)
       (ActiveOpen.new 1 demo_server demo_client TcpConfig_default BACKEND_MAC)]} demo_peer) in
  match poll_connect_finished 3 i [] with
  | Ret (Some (Ok _), i, _) =>
      outcome_kind (initiate_migration_by_addr (demo_server, demo_client) i []) = Some "no QD found for connection"
  | _ => False
  end.
Proof. vm_compute. reflexivity. Qed.

(** Closing a listening socket fails with ENOTSUP but removes its descriptor. *)
Example close_of_listening_socket :
  match do_close env0 1 demo_listening [] with
  | Ret (Err e, i, _) => errno e = ENOTSUP /\ in_sockets i !! 1 = None /\ is_Some (in_passive i !! demo_addr)
  | _ => False
  end.
Proof. vm_compute. split; [done|]. split; [done|]. by eexists. Qed.

(** A bind that fails has already redirected the migration port. *)
Example failed_bind_moves_migration_port :
  match TcpPeer.bind 99 (mkAddr FRONTEND_IP 8080) demo_listening [] with
  | Ret (Err e, i, _) => errno e = EBADF /\ mp_self_udp_port (in_tcpmig i) = 8080
  | _ => False
  end.
Proof. vm_compute. done. Qed.

(** Closing a connection leaves its entries in the other two tables. *)
Example close_leaves_entries :
  match do_close env0 5 demo_origin [] with
  | Ret (Ok _, i, _) => in_sockets i !! 5 = None /\ is_Some (in_established i !! (demo_server, demo_client)) /\
      in_qds i !! (demo_server, demo_client) = Some 5
  | _ => False
  end.
Proof. vm_compute. split; [done|]. split; [by eexists|done]. Qed.
